(* ===== verification/_CoqProject ===== *)
-Q . S2P
Prelude.v
Cpu.v
Pmm.v
BuddyProofs.v
BuddySpec.v
BootMap.v
FreeListProofs.v
FrameAlloc.v
Paging.v
PagingProofs.v
Vmm.v
VmmProofs.v
HeapInterface.v
Arena.v
Pool.v
Ring.v
Dialogue.v
Slab.v
Apic.v
Power.v
Inference.v
Tlsf.v
Heap.v
HeapList.v
TlsfProofs.v
TlsfSpec.v
TlsfPool.v
TlsfCorrect.v
HeapClient.v
HeapBoot.v
HeapServer.v
Cxx.v
Vector.v
HashMap.v
HashMapProofs.v
HashMapSpec.v
KString.v
InputRing.v
Keyboard.v
Mouse.v
Rtc.v
Terminal.v
Console.v
Integrity.v
Acpi.v
Bus.v
Interleave.v
Smp.v
SmpProofs.v
Tlb.v
Framebuffer.v
Libc.v
Interrupts.v
Requests.v
Hda.v
HdaProofs.v
