(* ===== verification/Prelude.v ===== *)
(** * LplKernel verification library

    A model of the i386 kernel LplKernel and of the C++ containers and C
    library functions it ships, with theorems about them. Paths below are
    relative to src/; kernel/arch/i386 is written i386.

    ** Conventions

    A machine word is a [Z]; the wrap-around of unsigned arithmetic is written
    out ([⊞], [⊟], [⊠], [u8], [u16], [u32]). Memory is a finite map from
    addresses to words or bytes, 0 where nothing was written. [None] as the
    result of an operation is behaviour that C does not define, such as an index
    outside an array, or a loop that has not ended. What the code reads from a
    device is an argument or comes from a model of the device, what it writes is
    an event or a change of that model. Text that is only printed is left out
    unless printing is the function of the component. The two build profiles,
    client (LPL_KERNEL_REAL_TIME_MODE) and server, are both modelled where they
    differ. This file has the words, the maps, the tactics and the hints that
    the others share.

    ** Memory

    The frame allocators of i386/cpu/pmm.c are at the bottom, and page tables,
    virtual ranges, the heap and its clients are built on them.

    - [Cpu]: cpu_topology.c and policy/numa_policy.c, which say to which node a
      frame belongs.
    - [Pmm]: pmm.c. [FreeList] is the client's stack of frames, [Buddy] the
      server's allocator, [Boot] the population from the Multiboot map. Free
      frames hold the links of the lists they are on.
    - [BuddyProofs], [BuddySpec], [FreeListProofs]: both refine an allocator that
      is a set of free frames. A buddy allocation fails only when there is no
      aligned run. [BootMap]: of the Multiboot map and modules, population frees
      exactly the frames of available memory that nothing else uses.
    - [FrameAlloc]: the class [FrameAllocator], what the rest of the kernel relies
      on; both profiles are instances.
    - [Paging], [PagingProofs]: i386/cpu/paging.c over any frame allocator.
      Mapping, unmapping and protecting change the translation of one page only.
    - [Vmm], [VmmProofs]: memory/vmm.c and pinned_memory.c.
    - [Tlsf], [TlsfProofs], [TlsfSpec], [TlsfPool], [TlsfCorrect]: memory/tlsf.c.
      The blocks tile the pool, and the allocator is simulated by a map of
      disjoint regions with their contents.
    - [Slab], [Heap], [HeapList]: memory/slab.c and heap.c in both profiles.
    - [HeapClient], [HeapBoot]: the four sources of the client's kmalloc on one
      memory keep live regions apart, from initialisation on. [HeapServer] has
      a run in which the server's heap loses all that is released to it.
    - [HeapInterface]: the classes [HeapOps] and [HeapLaws], which the client's
      heap meets. [Arena] (stack_allocator.c, frame_arena.c), [Pool]
      (pool_allocator.c), [Ring] (ring_buffer.c), [Inference] (boot_module.c and
      kernel/ai) and [Cxx] are proved against them.
    - [Ring] also has the interleavings of a producer and a consumer;
      [Dialogue] is dialogue/dialogue_channel.c.
    - [Integrity]: section_protection.c, backpressure.c, core/reconciler.c.

    ** Containers and C library

    - [Cxx]: the allocation operators of libkxx and an object model in which
      every access outside the lifetime of an object is undefined. [Vector],
      [HashMap], [HashMapProofs], [HashMapSpec], [KString]: the containers of
      libkxx/include/kstd refine lists, finite maps and texts.
    - [Libc]: the loops of libc/string and the printf of libc/stdio.

    ** Processor and interrupts

    - [Interrupts]: gdt.c, tss.c, idt.c, isr_stubs.s, isr.c, exception.c. An
      interrupt returns with the state of the interrupted code unchanged, but for
      ES, FS and GS, which come back as DS.
    - [Apic], [Power]: pic.c, pit.c, apic.c, apic_timer.c, the handlers of irq.c,
      and kernel/power. [Requests]: interrupt_request_initialize and the
      interrupts that follow, through a model of the two 8259 controllers.
    - [Interleave]: code that runs while other agents make steps, with triples
      that hold for every schedule.
    - [Smp], [SmpProofs]: core/smp.c, ap_bootstrap.c, ap_startup.c,
      ap_trampoline.c and its blob. A start without a reported failure gives every
      processor its own stack.
    - [Tlb]: the shootdown of apic_ipi.c. It is sound when it does not time out;
      the second one does, because the handler never ends its interrupt.
    - [Acpi], [Bus]: acpi.c, which maps the tables it reads in the page tables of
      [Paging]; ioapic.c; pci.c, whose scan finds the functions of any machine
      behind a host bridge.

    ** Drivers

    - [InputRing], [Keyboard], [Mouse]: keyboard.c, ps2_keyboard.c, ps2_mouse.c,
      with interrupts between any two accesses of the reader.
    - [Rtc], [Terminal], [Console], [Framebuffer]: rtc.c, tty.c and serial.c,
      core/console.c with what its commands print, framebuffer.c.
    - [Hda], [HdaProofs]: hda.c. The class [Device] is the controller as the
      driver sees it. [Hda.Controller] is one instance, from the public
      description of the ring engines; its codecs are an arbitrary function from
      commands to answers. The theorem about the walk starts with both rings
      connected and empty; that hda_start_rings leads there is not proved.

    ** Bounds and fuel

    A loop with a counter recurses on the counter. A walk over links or a search
    has fuel; where a theorem says that the operation returns, the fuel is shown
    to be enough under the invariant of the component. [Pmm.Buddy.walk_fuel] is
    one more than the number of frames, and a list of free frames has no
    repetition. [Vmm.search_fuel] is two more than the pages of the range.
    [Slab.populate_fuel] is one more than the objects of a page.
    [Acpi.Tables.map_fuel] is the number of pages of the address space,
    [Acpi.Tables.scan_fuel] covers the BIOS area in steps of 16 bytes, and each
    turn of [Acpi.Madt.parse_loop] passes at least two bytes. The server's heap
    grows by a frame per turn, at most 2^18 of them; its runs are closed, not
    general. [Keyboard] and [Mouse] take as fuel the bytes that arrive. [Rtc] waits
    for the device as the code does: its reads return when no update comes.
    [Hda.Driver.HDA_SPIN_BUDGET] and the spin limits of [Smp], [Tlb] and [Mouse]
    are those of the code. Interleavings have no bound on the steps between two
    accesses, and memory is sequentially consistent.

    ** Not modelled

    - core/kernel.c and core/splash.c: a fixed sequence of calls and reports.
    - i386/boot assembly, the linker script, lib/asmutils.s and the other single
      instruction routines: their effects are arguments and events.
    - The helpers directories, diag/sysmon.c and telemetry.c: they print figures.
    - i386/cpu/clock.c, the hal_ adapters and satellite_app.c forward to
      components that are modelled. hal_virtio_gpu.c speaks the protocol of a
      device that the sources do not specify.
    - kernel/testing: tests. libc/math: floating point approximations.
    - kstd::inplace_function and kstd::mutex: type erasure, and locks that do
      nothing.
    - libengine, libassistant, libknowledge: bridges to an engine that is a
      submodule outside the sources. experimental.c is not in the image.
    - Weak memory, caches other than translation buffers, and the timing of
      instructions. *)

From stdpp Require Export base numbers option list gmap sets.
From Stdlib Require Export ZArith Lia Bool.

#[global] Open Scope Z_scope.

(** ** Machine words

    A [w]-bit unsigned integer is a [Z]; the wrap-around of C's unsigned
    arithmetic is written out at every operation. *)

Definition u8 (x : Z) : Z := x mod 2 ^ 8.
Definition u16 (x : Z) : Z := x mod 2 ^ 16.
Definition u32 (x : Z) : Z := x mod 2 ^ 32.
Definition u64 (x : Z) : Z := x mod 2 ^ 64.

Definition add32 (x y : Z) : Z := u32 (x + y).
Definition sub32 (x y : Z) : Z := u32 (x - y).
Definition mul32 (x y : Z) : Z := u32 (x * y).
Definition shl32 (x n : Z) : Z := u32 (Z.shiftl x n).
Definition not32 (x : Z) : Z := 2 ^ 32 - 1 - x.

Declare Scope word_scope.
Delimit Scope word_scope with word.
Infix "⊞" := add32 (at level 50, left associativity) : word_scope.
Infix "⊟" := sub32 (at level 50, left associativity) : word_scope.
Infix "⊠" := mul32 (at level 40, left associativity) : word_scope.
#[global] Open Scope word_scope.

Abbreviation in32 x := (0 <= x < 2 ^ 32).

Lemma u32_range x : in32 (u32 x).
Proof. apply Z.mod_pos_bound; lia. Qed.

Lemma u32_small x : in32 x -> u32 x = x.
Proof. apply Z.mod_small. Qed.

Lemma add32_small x y : in32 (x + y) -> x ⊞ y = x + y.
Proof. apply u32_small. Qed.

Lemma sub32_small x y : in32 (x - y) -> x ⊟ y = x - y.
Proof. apply u32_small. Qed.

Lemma mul32_small x y : in32 (x * y) -> x ⊠ y = x * y.
Proof. apply u32_small. Qed.

Lemma u32_add_l x y : u32 (u32 x + y) = u32 (x + y).
Proof. unfold u32. now rewrite Zplus_mod_idemp_l. Qed.

Lemma u32_sub_wrap x y : in32 x -> in32 y -> x < y -> x ⊟ y = x - y + 2 ^ 32.
Proof.
  intros. unfold sub32, u32. symmetry.
  apply Z.mod_unique with (q := -1); lia.
Qed.

Lemma shl32_pow2 k : 0 <= k < 32 -> shl32 1 k = 2 ^ k.
Proof.
  intros. unfold shl32. rewrite Z.shiftl_mul_pow2, Z.mul_1_l by lia.
  apply u32_small. split; [lia|]. apply Z.pow_lt_mono_r; lia.
Qed.

(** Joining a value with bits below it. *)
Lemma lor_low_bits a b k : 0 <= k -> 0 <= b < 2 ^ k -> Z.lor (a * 2 ^ k) b = a * 2 ^ k + b.
Proof.
  intros Hk Hb. assert (Hd : Z.land (a * 2 ^ k) b = 0).
  { apply Z.bits_inj'. intros n Hn. rewrite Z.land_spec, Z.bits_0.
    destruct (Z.ltb_spec n k).
    - by rewrite Z.mul_pow2_bits_low.
    - rewrite <- (Z.mod_small b (2 ^ k)) by lia. rewrite Z.mod_pow2_bits_high by lia. apply andb_false_r. }
  by rewrite <- Z.lxor_lor, <- Z.add_nocarry_lxor.
Qed.

(** Clearing bits: [x & ~c]. *)
Lemma land_not32 x c : in32 x -> in32 c -> Z.land x (not32 c) = Z.ldiff x c.
Proof.
  intros Hx Hc. assert (Hn : not32 c = Z.ldiff (Z.ones 32) c).
  { unfold not32. rewrite <- Z.sub_nocarry_ldiff; [rewrite Z.ones_equiv; lia|].
    apply Z.bits_inj'. intros n Hn. rewrite Z.ldiff_spec, Z.bits_0.
    destruct (Z.ltb_spec n 32); [rewrite Z.ones_spec_low by lia; apply andb_false_r|].
    rewrite <- (Z.mod_small c (2 ^ 32)), Z.mod_pow2_bits_high by lia. done. }
  rewrite Hn. apply Z.bits_inj'. intros n Hn0. rewrite Z.land_spec, !Z.ldiff_spec.
  destruct (Z.ltb_spec n 32); [by rewrite Z.ones_spec_low by lia|].
  rewrite <- (Z.mod_small x (2 ^ 32)), Z.mod_pow2_bits_high by lia. done.
Qed.

(** Testing a bit: [b & (1 << k)]. *)
Lemma byte_testbit b k : 0 <= k -> negb (Z.land b (Z.shiftl 1 k) =? 0) = Z.testbit b k.
Proof.
  intros Hk. rewrite Z.shiftl_1_l.
  destruct (Z.testbit b k) eqn:E.
  - apply negb_true_iff, Z.eqb_neq. intros H0.
    assert (Z.testbit (Z.land b (2 ^ k)) k = true) by (rewrite Z.land_spec, E, Z.pow2_bits_true; done).
    rewrite H0, Z.bits_0 in *. done.
  - apply negb_false_iff, Z.eqb_eq. apply Z.bits_inj'. intros n Hn.
    rewrite Z.land_spec, Z.bits_0, Z.pow2_bits_eqb by lia.
    destruct (Z.eqb_spec k n) as [<-|]; [by rewrite E|apply andb_false_r].
Qed.

(** ** Alignment *)

(** The alignment idiom [(value + (align - 1)) & ~(align - 1)] that every
    allocator of the kernel repeats. *)
Definition round_up (value align : Z) : Z :=
  Z.land (value ⊞ (align - 1)) (not32 (align - 1)).

Lemma land_not32_pow2 x k :
  0 <= k <= 32 -> in32 x -> Z.land x (not32 (2 ^ k - 1)) = x - x mod 2 ^ k.
Proof.
  intros Hk Hx.
  assert (Hn : not32 (2 ^ k - 1) = Z.shiftl (Z.ones (32 - k)) k).
  { unfold not32. rewrite Z.shiftl_mul_pow2, Z.ones_equiv by lia.
    replace (2 ^ 32) with (2 ^ (32 - k) * 2 ^ k).
    - lia.
    - rewrite <- Z.pow_add_r by lia. f_equal; lia. }
  rewrite Hn.
  replace (x - x mod 2 ^ k) with (Z.shiftl (Z.shiftr x k) k).
  2:{ rewrite Z.shiftl_mul_pow2, Z.shiftr_div_pow2 by lia.
      pose proof (Z.div_mod x (2 ^ k) ltac:(lia)). lia. }
  apply Z.bits_inj'. intros n Hn0.
  rewrite Z.land_spec, !Z.shiftl_spec by lia.
  destruct (Z.ltb_spec n k).
  - rewrite !(Z.testbit_neg_r _ (n - k)) by lia. now rewrite andb_false_r.
  - rewrite Z.shiftr_spec by lia.
    replace (n - k + k) with n by lia.
    destruct (Z.ltb_spec (n - k) (32 - k)).
    + rewrite Z.ones_spec_low by lia. apply andb_true_r.
    + rewrite Z.ones_spec_high by lia. rewrite andb_false_r.
      symmetry. rewrite <- (Z.mod_small x (2 ^ 32)) by lia.
      apply Z.mod_pow2_bits_high. lia.
Qed.

Lemma round_up_pow2 v k :
  0 <= k <= 32 -> 0 <= v -> v + (2 ^ k - 1) < 2 ^ 32 ->
  round_up v (2 ^ k) = v + (2 ^ k - 1) - (v + (2 ^ k - 1)) mod 2 ^ k.
Proof.
  intros. unfold round_up. rewrite add32_small by lia.
  apply land_not32_pow2; lia.
Qed.

(** A rounded value is the least multiple of the alignment that is at least
    the value. *)
Lemma round_up_spec v k :
  0 <= k <= 32 -> 0 <= v -> v + (2 ^ k - 1) < 2 ^ 32 ->
  v <= round_up v (2 ^ k) < v + 2 ^ k /\ round_up v (2 ^ k) mod 2 ^ k = 0.
Proof.
  intros Hk Hv Hb. rewrite round_up_pow2 by lia.
  set (m := 2 ^ k) in *. assert (0 < m) by (unfold m; lia).
  pose proof (Z.mod_pos_bound (v + (m - 1)) m ltac:(lia)).
  pose proof (Z.div_mod (v + (m - 1)) m ltac:(lia)).
  split; [lia|].
  replace (v + (m - 1) - (v + (m - 1)) mod m) with ((v + (m - 1)) / m * m) by lia.
  apply Z.mod_mul; lia.
Qed.

(** Past the top of the address space the idiom wraps to zero. *)
Lemma round_up_wrap v k :
  0 <= k < 32 -> v < 2 ^ 32 -> 2 ^ 32 <= v + (2 ^ k - 1) -> round_up v (2 ^ k) = 0.
Proof.
  intros Hk Hv Hb. unfold round_up.
  assert (2 ^ k < 2 ^ 32) by (apply Z.pow_lt_mono_r; lia).
  assert (Hr : v ⊞ (2 ^ k - 1) = v + (2 ^ k - 1) - 2 ^ 32).
  { unfold add32, u32. symmetry. apply Z.mod_unique with (q := 1); lia. }
  rewrite Hr, land_not32_pow2 by lia.
  rewrite Z.mod_small by lia. lia.
Qed.

(** ** Arrays and memory

    A static array and the word-addressed memory are finite maps from the
    index (or the address) to the value; as for C objects of static storage
    duration, what was never written reads as zero. *)

Abbreviation zmap := (gmap Z Z).

Definition zget (m : zmap) (i : Z) : Z := default 0 (m !! i).

Lemma zget_empty i : zget ∅ i = 0.
Proof. unfold zget. now rewrite lookup_empty. Qed.

Lemma zget_insert (m : zmap) i v j :
  zget (<[i := v]> m) j = if decide (i = j) then v else zget m j.
Proof. unfold zget. rewrite lookup_insert. now case_decide. Qed.

Lemma zget_insert_eq (m : zmap) i v : zget (<[i := v]> m) i = v.
Proof. rewrite zget_insert. now rewrite decide_True. Qed.

Lemma zget_insert_ne (m : zmap) i v j : i <> j -> zget (<[i := v]> m) j = zget m j.
Proof. intros. rewrite zget_insert. now rewrite decide_False. Qed.

(** [for (k = 0; k < count; ++k) m[start + k] = v;] *)
Fixpoint zfill (m : zmap) (start : Z) (count : nat) (v : Z) : zmap :=
  match count with
  | O => m
  | S c => zfill (<[start := v]> m) (start + 1) c v
  end.

Lemma zget_zfill count : forall (m : zmap) start v j,
  zget (zfill m start count v) j =
  if decide (start <= j < start + Z.of_nat count) then v else zget m j.
Proof.
  induction count as [|c IH]; intros; cbn [zfill].
  - rewrite decide_False by lia. reflexivity.
  - rewrite IH, zget_insert.
    repeat case_decide; try reflexivity; lia.
Qed.

(** [for (k = 0; k < count; ++k) if (!p(start + k)) return false; return true;] *)
Fixpoint forall_range (p : Z -> bool) (start : Z) (count : nat) : bool :=
  match count with
  | O => true
  | S c => if p start then forall_range p (start + 1) c else false
  end.

Lemma forall_range_true p count : forall start,
  forall_range p start count = true <->
  (forall j, start <= j < start + Z.of_nat count -> p j = true).
Proof.
  induction count as [|c IH]; intros; cbn [forall_range].
  - split; [lia|reflexivity].
  - destruct (p start) eqn:E.
    + rewrite IH. split; intros H j Hj.
      * destruct (decide (j = start)) as [->|]; [assumption|]. apply H; lia.
      * apply H; lia.
    + split; [discriminate|]. intros H. rewrite <- E. apply H. lia.
Qed.

(** The number of non-zero entries at the indices [l]. *)
Definition flag (v : Z) : Z := if v =? 0 then 0 else 1.

Fixpoint count_flags (l : list Z) (m : zmap) : Z :=
  match l with
  | [] => 0
  | i :: l => flag (zget m i) + count_flags l m
  end.

Lemma count_flags_bound l m : 0 <= count_flags l m <= Z.of_nat (length l).
Proof. induction l as [|i l IH]; cbn [count_flags length]; [lia|]. unfold flag. case_match; lia. Qed.

Lemma count_flags_empty l : count_flags l ∅ = 0.
Proof. induction l as [|i l IH]; cbn [count_flags]; [done|]. by rewrite zget_empty, IH. Qed.

Lemma count_flags_insert l m i v :
  NoDup l -> i ∈ l -> count_flags l (<[i := v]> m) = count_flags l m - flag (zget m i) + flag v.
Proof.
  assert (Hout : forall k, i ∉ k -> count_flags k (<[i := v]> m) = count_flags k m).
  { induction k as [|x k IH]; intros Hi; cbn [count_flags]; [done|].
    rewrite zget_insert_ne, IH by set_solver. done. }
  induction 1 as [|x l' Hx Hnd IH]; intros Hi; cbn [count_flags]; [set_solver|].
  destruct (decide (x = i)) as [->|Hne].
  - rewrite zget_insert_eq, Hout by done. lia.
  - rewrite zget_insert_ne, IH by set_solver. lia.
Qed.

(** ** Intrusive singly linked lists

    [chain nxt h l]: following [nxt] from [h] visits exactly the nodes [l] and
    then reaches NULL.  It describes every free list that the kernel threads
    through the free objects themselves. *)
Fixpoint chain (nxt : Z -> Z) (h : Z) (l : list Z) : Prop :=
  match l with
  | [] => h = 0
  | p :: l' => h = p /\ p <> 0 /\ chain nxt (nxt p) l'
  end.

Section chain.
Implicit Types (nxt : Z -> Z) (l : list Z).

Lemma chain_ext nxt nxt' l : forall h,
  (forall p, p ∈ l -> nxt' p = nxt p) -> chain nxt h l -> chain nxt' h l.
Proof.
  induction l as [|p l IH]; intros h Hx; cbn; [done|].
  intros (-> & Hp & Hc). split_and!; [done|done|].
  rewrite Hx by set_solver. apply IH; [|done]. intros. apply Hx. set_solver.
Qed.

Lemma chain_det nxt l : forall h l', chain nxt h l -> chain nxt h l' -> l = l'.
Proof.
  induction l as [|p l IH]; intros h [|p' l']; cbn.
  - done.
  - intros -> (? & ? & _). congruence.
  - intros (-> & ? & _) ?. congruence.
  - intros (-> & _ & H) (-> & _ & H'). f_equal. eauto.
Qed.

Lemma chain_head_0 nxt l : chain nxt 0 l -> l = [].
Proof. destruct l; cbn; [done|]. intros (<- & H & _). done. Qed.

Lemma chain_head_nz nxt h l :
  h <> 0 -> chain nxt h l -> exists l', l = h :: l' /\ chain nxt (nxt h) l'.
Proof. destruct l; cbn; [done|]. intros _ (-> & _ & H). eauto. Qed.

Lemma chain_nz nxt l : forall h p, chain nxt h l -> p ∈ l -> p <> 0.
Proof.
  induction l as [|q l IH]; intros h p; cbn; [set_solver|].
  intros (_ & Hq & Hc) [->|]%elem_of_cons; eauto.
Qed.


(** Unlinking one node: its predecessor, or the head, takes its successor. *)
Lemma chain_unlink nxt nxt' p l2 : forall l1 h,
  NoDup (l1 ++ p :: l2) -> chain nxt h (l1 ++ p :: l2) ->
  (forall q, q ∈ l1 ++ p :: l2 ->
     nxt' q = if decide (last l1 = Some q) then nxt p else nxt q) ->
  chain nxt' (if l1 is [] then nxt p else h) (l1 ++ l2).
Proof.
  induction l1 as [|q l1 IH]; cbn [app]; intros h Hnd Hc Hx.
  - cbn in Hc. destruct Hc as (_ & _ & Hc). eapply chain_ext; [|done].
    intros q Hq. rewrite Hx by set_solver. by rewrite decide_False.
  - cbn in Hc. destruct Hc as (-> & Hq & Hc). apply NoDup_cons in Hnd as [Hni Hnd].
    cbn [chain]. split_and!; [done..|].
    assert (Hx' : forall q', q' ∈ l1 ++ p :: l2 -> q' <> q) by (intros ? ? ->; done).
    destruct l1 as [|r l1].
    + cbn [app] in *. rewrite Hx, decide_True by (done || set_solver).
      cbn in Hc. destruct Hc as (_ & _ & Hc). eapply chain_ext; [|done].
      intros q' Hq'. rewrite Hx by set_solver. rewrite decide_False; [done|].
      cbn. intros [= ->]. apply (Hx' q'); [set_solver|done].
    + rewrite Hx by set_solver. rewrite decide_False.
      2:{ rewrite last_cons_cons. intros Hl%last_Some_elem_of. apply (Hx' q); [set_solver|done]. }
      apply (IH (nxt q)); [done..|]. intros q' Hq'. rewrite Hx by set_solver.
      by rewrite last_cons_cons.
Qed.

End chain.

(** ** Little-endian fields of packed structures

    [mem a] is the byte at address [a]. *)
Definition le16 (mem : Z -> Z) (a : Z) : Z := mem a + mem (a + 1) * 2 ^ 8.
Definition le32 (mem : Z -> Z) (a : Z) : Z := le16 mem a + le16 mem (a + 2) * 2 ^ 16.
Definition le64 (mem : Z -> Z) (a : Z) : Z := le32 mem a + le32 mem (a + 4) * 2 ^ 32.

Definition bytes_ok (mem : Z -> Z) : Prop := forall a, 0 <= mem a < 2 ^ 8.

(** A byte image placed at address [base]; zero elsewhere. *)
Definition image (base : Z) (l : list Z) : Z -> Z :=
  fun a => if a <? base then 0 else nth (Z.to_nat (a - base)) l 0.

(** ** Packed bit fields

    A packed structure of unsigned bit fields, least significant first: the
    word that holds the fields, and the fields of a word.  A field keeps the
    low bits of what is assigned to it. *)
Fixpoint pack (widths values : list Z) : Z :=
  match widths, values with
  | w :: widths, v :: values => v mod 2 ^ w + 2 ^ w * pack widths values
  | _, _ => 0
  end.

Fixpoint unpack (widths : list Z) (word : Z) : list Z :=
  match widths with
  | [] => []
  | w :: widths => word mod 2 ^ w :: unpack widths (word / 2 ^ w)
  end.

(** The values fit their fields. *)
Definition fits (widths values : list Z) : Prop :=
  Forall2 (fun w v => 0 <= v < 2 ^ w) widths values.

Lemma unpack_pack widths values :
  Forall (fun w => 0 <= w) widths -> fits widths values -> unpack widths (pack widths values) = values.
Proof.
  intros Hw Hf. induction Hf as [|w v widths values Hv Hf IH]; cbn [pack unpack]; [done|].
  apply Forall_cons in Hw as [Hw0 Hw]. assert (0 < 2 ^ w) by lia. rewrite (Z.mod_small v) by lia.
  rewrite Z.mul_comm, Z.mod_add, Z.div_add, Z.mod_small, Z.div_small by lia.
  rewrite Z.add_0_l, IH; done.
Qed.

Lemma pack_range widths values :
  Forall (fun w => 0 <= w) widths -> 0 <= pack widths values < 2 ^ (foldr Z.add 0 widths).
Proof.
  intros Hw. revert values.
  assert (Hs : 0 <= foldr Z.add 0 widths) by (induction Hw; cbn; lia).
  induction Hw as [|w widths Hw0 Hw IH]; intros [|v values]; cbn [pack foldr] in *; try lia.
  assert (Hs' : 0 <= foldr Z.add 0 widths) by (clear -Hw; induction Hw; cbn; lia).
  specialize (IH Hs' values). pose proof (Z.mod_pos_bound v (2 ^ w) ltac:(lia)).
  rewrite Z.pow_add_r by lia. nia.
Qed.

(** ** Automation

    [consts] collects the sizes and limits of the source; [klia] decides the
    arithmetic of bounds with them unfolded. *)
Create HintDb consts.

Ltac klia := repeat autounfold with consts in *; lia.

(** Case analysis on every boolean comparison of the goal. *)
Ltac bcase :=
  repeat match goal with
  | |- context [?x <? ?y] => destruct (Z.ltb_spec x y)
  | |- context [?x <=? ?y] => destruct (Z.leb_spec x y)
  | |- context [?x =? ?y] => destruct (Z.eqb_spec x y)
  end.

(** Membership in a list built by [::] and [++]. *)
Ltac inlist :=
  first
    [ assumption
    | apply elem_of_cons; left; reflexivity
    | apply elem_of_app; left; inlist
    | apply elem_of_app; right; inlist
    | apply elem_of_cons; right; inlist ].
