(* ===== verification/Cpu.v ===== *)
(** * CPU topology and NUMA policy

    [Topology] models kernel/arch/i386/cpu/cpu_topology.c: the table that maps
    APIC identifiers to logical slots and the online bookkeeping.  [Numa]
    models kernel/kernel/policy/numa_policy.c: the parser of the ACPI SRAT and
    the queries the physical memory manager makes. *)

From S2P Require Import Prelude.

Definition MAX_LOGICAL_CPUS : Z := 32.
Definition INVALID_APIC_ID : Z := 0xFFFFFFFF.

#[export] Hint Unfold MAX_LOGICAL_CPUS INVALID_APIC_ID : consts.

Module Topology.

(** The static state of cpu_topology.c.  The arrays have [MAX_LOGICAL_CPUS]
    entries.  [cpu_topology_initialized], which no code tests, and the
    diagnostic [cpu_topology_source_name] are left out. *)
Record topology := mk {
  forced_slot_enabled : bool;
  forced_slot : Z;
  apic_id_valid : bool;
  local_apic_id : Z;
  apic_id_to_slot : list Z;
  discovered_cpu_count : Z;
  online_by_slot : list bool;
  online_cpu_count : Z;
  slot_domain : list Z }.

Definition cpu_topology_reset_discovery (t : topology) : topology :=
  mk (forced_slot_enabled t) (forced_slot t) (apic_id_valid t) (local_apic_id t)
     (replicate 32 INVALID_APIC_ID) 0 (replicate 32 false) 0
     (Z.of_nat <$> seq 0 32).

(** The first slot below [count] whose entry is [apic_id]. *)
Fixpoint find_slot (l : list Z) (slot count apic_id : Z) : option Z :=
  match l with
  | [] => None
  | x :: l' =>
      if count <=? slot then None
      else if x =? apic_id then Some slot
      else find_slot l' (slot + 1) count apic_id
  end.

Definition set_table (t : topology) (tab : list Z) (n : Z) : topology :=
  mk (forced_slot_enabled t) (forced_slot t) (apic_id_valid t) (local_apic_id t)
     tab n (online_by_slot t) (online_cpu_count t) (slot_domain t).

Definition cpu_topology_register_apic_id_internal (apic_id : Z) (t : topology) : Z * topology :=
  match find_slot (apic_id_to_slot t) 0 (discovered_cpu_count t) apic_id with
  | Some slot => (slot, t)
  | None =>
      if discovered_cpu_count t <? MAX_LOGICAL_CPUS then
        let slot := discovered_cpu_count t in
        (slot, set_table t (<[Z.to_nat slot := apic_id]> (apic_id_to_slot t)) (slot ⊞ 1))
      else (apic_id, t)
  end.

Definition set_local (t : topology) (valid : bool) (id : Z) : topology :=
  mk (forced_slot_enabled t) (forced_slot t) valid id (apic_id_to_slot t)
     (discovered_cpu_count t) (online_by_slot t) (online_cpu_count t) (slot_domain t).

(** [ebx] and [edx] are what CPUID leaf 1 returned. *)
Definition cpu_topology_detect_from_cpuid (ebx edx : Z) (t : topology) : topology :=
  if Z.land edx (2 ^ 9) =? 0 then set_local t false 0
  else
    let t := set_local t true (Z.land (Z.shiftr ebx 24) 0xFF) in
    snd (cpu_topology_register_apic_id_internal (local_apic_id t) t).

Definition cpu_topology_get_logical_slot (t : topology) : Z * topology :=
  if forced_slot_enabled t then (forced_slot t, t)
  else if apic_id_valid t then
    cpu_topology_register_apic_id_internal (local_apic_id t) t
  else (0, t).

Definition cpu_topology_register_discovered_apic_id (apic_id : Z) (t : topology) : Z * topology :=
  cpu_topology_register_apic_id_internal (Z.land apic_id 0xFF) t.

Definition cpu_topology_set_runtime_local_apic_id (apic_id : Z) (t : topology) : topology :=
  let t := set_local t true (Z.land apic_id 0xFF) in
  snd (cpu_topology_register_apic_id_internal (local_apic_id t) t).

Definition set_online (t : topology) (l : list bool) (n : Z) : topology :=
  mk (forced_slot_enabled t) (forced_slot t) (apic_id_valid t) (local_apic_id t)
     (apic_id_to_slot t) (discovered_cpu_count t) l n (slot_domain t).

Definition cpu_topology_mark_apic_id_online (apic_id : Z) (t : topology) : topology :=
  let '(slot, t) := cpu_topology_register_apic_id_internal (Z.land apic_id 0xFF) t in
  if MAX_LOGICAL_CPUS <=? slot then t
  else match online_by_slot t !! Z.to_nat slot with
       | Some false =>
           set_online t (<[Z.to_nat slot := true]> (online_by_slot t)) (online_cpu_count t ⊞ 1)
       | _ => t
       end.

Definition cpu_topology_unmark_apic_id_online (apic_id : Z) (t : topology) : topology :=
  let '(slot, t) := cpu_topology_register_apic_id_internal (Z.land apic_id 0xFF) t in
  if MAX_LOGICAL_CPUS <=? slot then t
  else match online_by_slot t !! Z.to_nat slot with
       | Some true =>
           set_online t (<[Z.to_nat slot := false]> (online_by_slot t))
             (if 0 <? online_cpu_count t then online_cpu_count t ⊟ 1 else online_cpu_count t)
       | _ => t
       end.

Definition cpu_topology_mark_runtime_cpu_online (t : topology) : topology :=
  if apic_id_valid t then cpu_topology_mark_apic_id_online (local_apic_id t) t else t.

Definition cpu_topology_initialize (ebx edx : Z) (t : topology) : topology :=
  let t := cpu_topology_detect_from_cpuid ebx edx (cpu_topology_reset_discovery t) in
  let t := if discovered_cpu_count t =? 0 then set_table t (apic_id_to_slot t) 1 else t in
  cpu_topology_mark_runtime_cpu_online
    (mk false 0 (apic_id_valid t) (local_apic_id t) (apic_id_to_slot t)
        (discovered_cpu_count t) (online_by_slot t) (online_cpu_count t) (slot_domain t)).

Definition cpu_topology_is_logical_slot_online (slot : Z) (t : topology) : bool :=
  if MAX_LOGICAL_CPUS <=? slot then false
  else default false (online_by_slot t !! Z.to_nat slot).

Definition cpu_topology_bind_slot_to_domain (slot domain : Z) (t : topology) : topology :=
  if slot <? MAX_LOGICAL_CPUS then
    mk (forced_slot_enabled t) (forced_slot t) (apic_id_valid t) (local_apic_id t)
       (apic_id_to_slot t) (discovered_cpu_count t) (online_by_slot t) (online_cpu_count t)
       (<[Z.to_nat slot := domain]> (slot_domain t))
  else t.

Definition cpu_topology_get_slot_domain (slot : Z) (t : topology) : Z :=
  if MAX_LOGICAL_CPUS <=? slot then 0 else default 0 (slot_domain t !! Z.to_nat slot).

Definition cpu_topology_get_apic_id_at_slot (slot : Z) (t : topology) : Z :=
  if MAX_LOGICAL_CPUS <=? slot then 0xFF
  else
    let apic_id := default 0 (apic_id_to_slot t !! Z.to_nat slot) in
    if apic_id =? INVALID_APIC_ID then 0xFF else Z.land apic_id 0xFF.

Definition cpu_topology_get_slot_for_apic_id (apic_id : Z) (t : topology) : Z :=
  default INVALID_APIC_ID (find_slot (apic_id_to_slot t) 0 MAX_LOGICAL_CPUS apic_id).

Definition set_forced (enabled : bool) (slot : Z) (t : topology) : topology :=
  mk enabled slot (apic_id_valid t) (local_apic_id t) (apic_id_to_slot t)
     (discovered_cpu_count t) (online_by_slot t) (online_cpu_count t) (slot_domain t).

Definition cpu_topology_debug_force_logical_slot (slot : Z) (t : topology) : bool * topology :=
  (true, set_forced true slot t).

Definition cpu_topology_debug_clear_forced_logical_slot (t : topology) : topology :=
  set_forced false 0 t.

Definition cpu_topology_debug_reset_discovery (t : topology) : topology :=
  set_local (cpu_topology_reset_discovery t) false 0.

(** The calls that other parts of the kernel make after initialisation. *)
Inductive call :=
  | RegisterDiscovered (apic_id : Z)
  | SetRuntimeLocal (apic_id : Z)
  | GetLogicalSlot
  | MarkOnline (apic_id : Z)
  | UnmarkOnline (apic_id : Z)
  | MarkRuntimeOnline
  | BindSlotToDomain (slot domain : Z)
  | ForceSlot (slot : Z)
  | ClearForced.

Definition exec (c : call) (t : topology) : topology :=
  match c with
  | RegisterDiscovered id => snd (cpu_topology_register_discovered_apic_id id t)
  | SetRuntimeLocal id => cpu_topology_set_runtime_local_apic_id id t
  | GetLogicalSlot => snd (cpu_topology_get_logical_slot t)
  | MarkOnline id => cpu_topology_mark_apic_id_online id t
  | UnmarkOnline id => cpu_topology_unmark_apic_id_online id t
  | MarkRuntimeOnline => cpu_topology_mark_runtime_cpu_online t
  | BindSlotToDomain slot domain => cpu_topology_bind_slot_to_domain slot domain t
  | ForceSlot slot => snd (cpu_topology_debug_force_logical_slot slot t)
  | ClearForced => cpu_topology_debug_clear_forced_logical_slot t
  end.

Definition run (calls : list call) (t : topology) : topology := foldl (fun t c => exec c t) t calls.

(** ** Properties of the topology table *)

(** The arrays keep their length, the count stays inside them, the registered
    identifiers are distinct, the slots past the count are empty, and the
    online counter counts the online slots. *)
Record wf (t : topology) : Prop := {
  wf_table : length (apic_id_to_slot t) = 32%nat;
  wf_online : length (online_by_slot t) = 32%nat;
  wf_count : 0 <= discovered_cpu_count t <= 32;
  wf_nodup : NoDup (take (Z.to_nat (discovered_cpu_count t)) (apic_id_to_slot t));
  wf_empty : forall i, (Z.to_nat (discovered_cpu_count t) <= i < 32)%nat ->
               apic_id_to_slot t !! i = Some INVALID_APIC_ID;
  wf_online_count :
    online_cpu_count t = Z.of_nat (count_occ bool_dec (online_by_slot t) true) }.

Lemma find_slot_Some l : forall slot count id s,
  find_slot l slot count id = Some s ->
  slot <= s < count /\ l !! Z.to_nat (s - slot) = Some id.
Proof.
  induction l as [|x l IH]; intros slot count id s; cbn [find_slot]; [done|].
  destruct (Z.leb_spec count slot); [done|].
  destruct (Z.eqb_spec x id) as [->|].
  - intros [= <-]. rewrite Z.sub_diag. split; [lia|done].
  - intros (Hr & Hl)%IH. split; [lia|].
    replace (Z.to_nat (s - slot)) with (S (Z.to_nat (s - (slot + 1)))) by lia. done.
Qed.

Lemma find_slot_None l : forall slot count id,
  find_slot l slot count id = None ->
  forall i, (i < length l)%nat -> slot + Z.of_nat i < count -> l !! i <> Some id.
Proof.
  induction l as [|x l IH]; intros slot count id; cbn [find_slot length]; [lia|].
  destruct (Z.leb_spec count slot); [lia|].
  destruct (Z.eqb_spec x id) as [->|Hne]; [done|].
  intros H0 [|i] Hi Hc; cbn; [congruence|].
  apply (IH (slot + 1) count id H0); lia.
Qed.

(** With distinct entries below [count], the slot found is the only one that
    carries the identifier. *)
Lemma find_slot_unique l count id s :
  (Z.to_nat count <= length l)%nat -> NoDup (take (Z.to_nat count) l) ->
  0 <= s < count -> l !! Z.to_nat s = Some id -> find_slot l 0 count id = Some s.
Proof.
  intros Hlen Hnd Hs Hl.
  destruct (find_slot l 0 count id) as [s'|] eqn:E.
  - apply find_slot_Some in E as (Hr & Hl'). rewrite Z.sub_0_r in Hl'.
    f_equal. cut (Z.to_nat s = Z.to_nat s'); [lia|].
    eapply (NoDup_lookup _ _ _ id Hnd); rewrite lookup_take_lt by lia; done.
  - exfalso. eapply (find_slot_None _ _ _ _ E (Z.to_nat s)); [|lia|done].
    apply lookup_lt_Some in Hl. lia.
Qed.

Lemma register_wf id t slot t' :
  wf t -> cpu_topology_register_apic_id_internal id t = (slot, t') -> wf t'.
Proof.
  intros [Ht Ho Hc Hnd He Hon]. unfold cpu_topology_register_apic_id_internal.
  destruct (find_slot _ _ _ _) as [s|] eqn:E; [intros [= <- <-]; by constructor|].
  destruct (Z.ltb_spec (discovered_cpu_count t) MAX_LOGICAL_CPUS) as [Hlt|];
    [|intros [= <- <-]; by constructor].
  unfold MAX_LOGICAL_CPUS in Hlt. intros [= <- <-].
  set (c := discovered_cpu_count t) in *.
  assert (Hadd : c ⊞ 1 = c + 1) by (apply add32_small; lia).
  constructor; cbn; rewrite ?Hadd, ?length_insert; try done; try lia.
  - replace (Z.to_nat (c + 1)) with (S (Z.to_nat c)) by lia.
    rewrite (take_S_r _ _ id) by (apply list_lookup_insert_eq; lia).
    rewrite take_insert_ge by lia. apply NoDup_app. split_and!; [done| |apply NoDup_singleton].
    intros x Hx ->%list_elem_of_singleton. apply list_elem_of_lookup in Hx as [i Hi].
    apply lookup_take_Some in Hi as [Hi Hlt'].
    eapply (find_slot_None _ _ _ _ E i); [|lia|done]. apply lookup_lt_Some in Hi. done.
  - intros i Hi. rewrite list_lookup_insert_ne by lia. apply He. lia.
Qed.

(** A query finds the slot of a registered identifier. *)
Lemma query_found id t s :
  wf t -> id <> INVALID_APIC_ID -> 0 <= s < discovered_cpu_count t ->
  apic_id_to_slot t !! Z.to_nat s = Some id -> cpu_topology_get_slot_for_apic_id id t = s.
Proof.
  intros [Ht _ Hc Hnd He _] Hid Hs Hl. unfold cpu_topology_get_slot_for_apic_id.
  destruct (find_slot (apic_id_to_slot t) 0 MAX_LOGICAL_CPUS id) as [s'|] eqn:E.
  - cbn. apply find_slot_Some in E as (Hr & Hl'). rewrite Z.sub_0_r in Hl'.
    assert (s' < discovered_cpu_count t).
    { destruct (Z.lt_ge_cases s' (discovered_cpu_count t)); [done|].
      rewrite He in Hl' by klia. congruence. }
    cut (Z.to_nat s = Z.to_nat s'); [lia|].
    eapply (NoDup_lookup _ _ _ id Hnd); rewrite lookup_take_lt by lia; done.
  - exfalso. eapply (find_slot_None _ _ _ _ E (Z.to_nat s)); [lia|klia|done].
Qed.

Lemma register_at id t slot t' :
  wf t -> cpu_topology_register_apic_id_internal id t = (slot, t') ->
  (0 <= slot < discovered_cpu_count t' /\ apic_id_to_slot t' !! Z.to_nat slot = Some id) \/
  (slot = id /\ t' = t /\ discovered_cpu_count t = MAX_LOGICAL_CPUS /\
   cpu_topology_get_slot_for_apic_id id t = INVALID_APIC_ID).
Proof.
  intros [Ht _ Hc Hnd He _]. unfold cpu_topology_register_apic_id_internal.
  destruct (find_slot (apic_id_to_slot t) 0 _ id) as [s|] eqn:E.
  - intros [= <- <-]. left. apply find_slot_Some in E as (Hr & Hl). by rewrite Z.sub_0_r in Hl.
  - destruct (Z.ltb_spec (discovered_cpu_count t) MAX_LOGICAL_CPUS) as [Hlt|Hge]; intros [= <- <-].
    + left. cbn. rewrite add32_small by klia. split; [klia|]. apply list_lookup_insert_eq. klia.
    + right. assert (Hfull : discovered_cpu_count t = MAX_LOGICAL_CPUS) by klia.
      split_and!; [done..|]. unfold cpu_topology_get_slot_for_apic_id. by rewrite <- Hfull, E.
Qed.

Lemma count_true_insert (l : list bool) (i : nat) (b b' : bool) :
  l !! i = Some b ->
  (count_occ bool_dec (<[i := b']> l) true + (if b then 1 else 0) =
   count_occ bool_dec l true + (if b' then 1 else 0))%nat.
Proof.
  revert i. induction l as [|x l IH]; intros [|i] Hi; try done.
  - injection Hi as ->. cbn. destruct b, b'; cbn; lia.
  - simpl in *. specialize (IH i Hi). destruct b, b', (bool_dec x true); lia.
Qed.

Lemma register_online id t slot t' :
  cpu_topology_register_apic_id_internal id t = (slot, t') ->
  online_by_slot t' = online_by_slot t.
Proof.
  unfold cpu_topology_register_apic_id_internal. repeat case_match; intros [= <- <-]; done.
Qed.

Lemma register_slot_nonneg id t slot t' :
  wf t -> 0 <= id -> cpu_topology_register_apic_id_internal id t = (slot, t') -> 0 <= slot.
Proof.
  intros [_ _ Hc _ _ _] Hid. unfold cpu_topology_register_apic_id_internal.
  destruct (find_slot _ _ _ _) eqn:E.
  - apply find_slot_Some in E. intros [= <- <-]. lia.
  - case_match; intros [= <- <-]; lia.
Qed.

Lemma count_true_bound (l : list bool) : (count_occ bool_dec l true <= length l)%nat.
Proof. induction l as [|b l IH]; simpl; [done|]. destruct (bool_dec b true); lia. Qed.

(** Bringing a processor online or taking it offline keeps the table well
    formed; in particular the online counter stays the number of online slots
    however often the same processor is announced. *)
Lemma mark_online_wf apic_id t :
  wf t -> wf (cpu_topology_mark_apic_id_online apic_id t)
          /\ wf (cpu_topology_unmark_apic_id_online apic_id t).
Proof.
  intros Hwf. unfold cpu_topology_mark_apic_id_online, cpu_topology_unmark_apic_id_online.
  destruct (cpu_topology_register_apic_id_internal _ t) as [slot t'] eqn:E.
  pose proof (register_wf _ _ _ _ Hwf E) as Hwf'.
  destruct Hwf' as [Ht Ho Hc Hnd He Hon].
  pose proof (count_true_bound (online_by_slot t')) as Hb. rewrite Ho in Hb.
  destruct (MAX_LOGICAL_CPUS <=? slot); [split; by constructor|].
  destruct (online_by_slot t' !! Z.to_nat slot) as [b|] eqn:Eb; [|split; by constructor].
  pose proof (count_true_insert _ _ _ true Eb) as Hct.
  pose proof (count_true_insert _ _ _ false Eb) as Hcf.
  destruct b; (split; [|]); try (by constructor);
    constructor; cbn; rewrite ?length_insert; try done.
  - rewrite Hon. destruct (Z.ltb_spec 0 (Z.of_nat (count_occ bool_dec (online_by_slot t') true))).
    + rewrite sub32_small by lia. lia.
    + lia.
  - rewrite Hon, add32_small by lia. lia.
Qed.

(** [t'] knows every processor of [t] under the same slot. *)
Definition extends (t t' : topology) : Prop :=
  discovered_cpu_count t <= discovered_cpu_count t' /\
  forall i, (i < Z.to_nat (discovered_cpu_count t))%nat -> apic_id_to_slot t' !! i = apic_id_to_slot t !! i.

#[export] Instance extends_preorder : PreOrder extends.
Proof.
  split; [by intros t; split|]. intros t1 t2 t3 [H1 H2] [H3 H4]. split; [lia|].
  intros i Hi. rewrite H4 by lia. by apply H2.
Qed.

Lemma register_extends id t :
  wf t -> extends t (snd (cpu_topology_register_apic_id_internal id t)).
Proof.
  intros Hwf. pose proof (wf_count _ Hwf). unfold cpu_topology_register_apic_id_internal.
  destruct (find_slot _ _ _ _); [done|].
  destruct (Z.ltb_spec (discovered_cpu_count t) MAX_LOGICAL_CPUS); [|done].
  unfold extends. cbn. rewrite add32_small by klia. split; [lia|]. intros i Hi.
  by rewrite list_lookup_insert_ne by lia.
Qed.

Lemma register_ok id t :
  wf t -> wf (snd (cpu_topology_register_apic_id_internal id t)) /\
          extends t (snd (cpu_topology_register_apic_id_internal id t)).
Proof.
  intros Hwf. split; [|by apply register_extends].
  destruct (cpu_topology_register_apic_id_internal id t) as [slot t'] eqn:E. by eapply register_wf.
Qed.

Lemma online_extends id t : wf t ->
  extends t (cpu_topology_mark_apic_id_online id t) /\
  extends t (cpu_topology_unmark_apic_id_online id t).
Proof.
  intros Hwf. pose proof (register_extends (Z.land id 0xFF) t Hwf) as He.
  unfold cpu_topology_mark_apic_id_online, cpu_topology_unmark_apic_id_online.
  destruct (cpu_topology_register_apic_id_internal _ t) as [slot t'] eqn:E. cbn in He.
  destruct (MAX_LOGICAL_CPUS <=? slot); [done|]. by destruct (online_by_slot t' !! Z.to_nat slot) as [[]|].
Qed.

Lemma wf_update t t' :
  wf t -> apic_id_to_slot t' = apic_id_to_slot t -> discovered_cpu_count t' = discovered_cpu_count t ->
  online_by_slot t' = online_by_slot t -> online_cpu_count t' = online_cpu_count t ->
  wf t' /\ extends t t'.
Proof.
  intros [] H1 H2 H3 H4. split; [constructor; by rewrite ?H1, ?H2, ?H3, ?H4|].
  split; [lia|]. intros i _. by rewrite H1.
Qed.

Lemma exec_ok c t : wf t -> wf (exec c t) /\ extends t (exec c t).
Proof.
  intros Hwf. destruct c as [id|id| |id|id| |slot domain|slot|]; cbn [exec].
  - by apply register_ok.
  - apply (register_ok (Z.land id 0xFF) (set_local t true (Z.land id 0xFF))).
    by apply (wf_update t (set_local t true (Z.land id 0xFF)) Hwf).
  - unfold cpu_topology_get_logical_slot. destruct (forced_slot_enabled t); [done|].
    destruct (apic_id_valid t); [by apply register_ok|done].
  - split; [by apply mark_online_wf|by apply online_extends].
  - split; [by apply mark_online_wf|by apply online_extends].
  - unfold cpu_topology_mark_runtime_cpu_online. destruct (apic_id_valid t); [|done].
    split; [by apply mark_online_wf|by apply online_extends].
  - unfold cpu_topology_bind_slot_to_domain. case_match; [by apply wf_update|done].
  - by apply wf_update.
  - by apply wf_update.
Qed.

Lemma run_ok calls t : wf t -> wf (run calls t) /\ extends t (run calls t).
Proof.
  revert t. induction calls as [|c calls IH]; intros t Hwf; [done|].
  destruct (exec_ok c t Hwf) as [H1 H2]. destruct (IH _ H1) as [H3 H4]. split; [done|]. by etransitivity.
Qed.

Lemma reset_wf t : wf (cpu_topology_reset_discovery t).
Proof.
  constructor; try done; [apply NoDup_nil_2|]. intros i [_ Hi]. by apply lookup_replicate_2.
Qed.

Lemma initialize_wf ebx edx t : wf (cpu_topology_initialize ebx edx t).
Proof.
  unfold cpu_topology_initialize.
  assert (Hwf : wf (cpu_topology_detect_from_cpuid ebx edx (cpu_topology_reset_discovery t))).
  { unfold cpu_topology_detect_from_cpuid. case_match.
    - by apply (wf_update _ _ (reset_wf t)).
    - apply register_ok. by apply (wf_update _ _ (reset_wf t)). }
  set (t1 := cpu_topology_detect_from_cpuid _ _ _) in *. clearbody t1.
  apply (exec_ok MarkRuntimeOnline). cbn.
  destruct (Z.eqb_spec (discovered_cpu_count t1) 0) as [E|]; [|by apply (wf_update t1)].
  destruct Hwf as [Ht Ho Hc Hnd He Hon]. rewrite E in *.
  constructor; cbn; try done; [|intros i Hi; apply He; lia].
  change (Z.to_nat 1) with 1%nat. destruct (apic_id_to_slot t1); [done|]. apply NoDup_singleton.
Qed.

(** Whatever the processor reports at boot and whatever calls follow,
    registered processors keep their slots, no identifier has two slots, and
    the online counter is the number of online slots. *)
Theorem topology_slots_stable (ebx edx : Z) (t : topology) (calls more : list call) :
  let t1 := run calls (cpu_topology_initialize ebx edx t) in
  let t2 := run more t1 in
  wf t1 /\ wf t2 /\ extends t1 t2.
Proof.
  cbv zeta. pose proof (run_ok calls _ (initialize_wf ebx edx t)) as [H1 _].
  destruct (run_ok more _ H1) as [H2 H3]. by split_and!.
Qed.

(** Registering an identifier below the empty marker returns the slot
    that every later query finds for it, unless the table is full, when it
    returns the identifier itself and queries find nothing. *)
Theorem topology_register_query (id : Z) (t : topology) (slot : Z) (t' : topology) :
  wf t -> 0 <= id < INVALID_APIC_ID ->
  cpu_topology_register_apic_id_internal id t = (slot, t') ->
  (cpu_topology_get_slot_for_apic_id id t' = slot /\
   forall calls, cpu_topology_get_slot_for_apic_id id (run calls t') = slot) \/
  (slot = id /\ discovered_cpu_count t = MAX_LOGICAL_CPUS /\
   cpu_topology_get_slot_for_apic_id id t' = INVALID_APIC_ID).
Proof.
  intros Hwf Hid Hreg. pose proof (register_wf _ _ _ _ Hwf Hreg) as Hwf'.
  destruct (register_at _ _ _ _ Hwf Hreg) as [[Hs Hl]|(-> & -> & Hc & Hq)]; [left|by right].
  split; [apply query_found; [done|lia|done|done]|]. intros calls. destruct (run_ok calls t' Hwf') as [Hwf2 [Hc Hext]].
  apply query_found; [done|lia|lia|]. rewrite Hext by lia. done.
Qed.

Lemma topology_register_query_witness :
  let t := cpu_topology_reset_discovery (mk false 0 false 0 [] 0 [] 0 []) in
  let '(slot, t') := cpu_topology_register_apic_id_internal 4 t in
  (cpu_topology_get_slot_for_apic_id 4 t' = slot /\
   forall calls, cpu_topology_get_slot_for_apic_id 4 (run calls t') = slot) \/
  (slot = 4 /\ discovered_cpu_count t = MAX_LOGICAL_CPUS /\
   cpu_topology_get_slot_for_apic_id 4 t' = INVALID_APIC_ID).
Proof.
  cbv zeta. destruct (cpu_topology_register_apic_id_internal 4 _) as [slot t'] eqn:E.
  apply (topology_register_query 4 (cpu_topology_reset_discovery (mk false 0 false 0 [] 0 [] 0 [])));
    [apply reset_wf|klia|exact E].
Defined.

End Topology.

Module Numa.
Import Topology.

Definition NUMA_POLICY_MAX_SLOTS : Z := MAX_LOGICAL_CPUS.
Definition NUMA_POLICY_MAX_NODES : Z := 8.
Definition NUMA_POLICY_MAX_RANGES : nat := 32.

#[export] Hint Unfold NUMA_POLICY_MAX_SLOTS NUMA_POLICY_MAX_NODES NUMA_POLICY_MAX_RANGES : consts.

Record NumaMemoryRange := mkRange { range_base : Z; range_length : Z; range_node : Z }.

Record NumaNodeInfo := mkNode { node_id : Z; memory_ranges : Z; cpus_bound : Z }.

(** The static state of numa_policy.c.  [numa_ranges] is the filled prefix of
    the array of ranges, so that [numa_range_count] is its length. *)
Record numa := mk {
  numa_slot_to_node_map : list Z;
  numa_nodes : list NumaNodeInfo;
  numa_node_count : Z;
  numa_ranges : list NumaMemoryRange }.

(** The state the C runtime starts from. *)
Definition numa_boot : numa := mk (replicate 32 0) (replicate 8 (mkNode 0 0 0)) 1 [].

Definition upd_node (f : NumaNodeInfo -> NumaNodeInfo) (d : Z) (n : numa) : numa :=
  mk (numa_slot_to_node_map n) (alter f (Z.to_nat d) (numa_nodes n))
     (numa_node_count n) (numa_ranges n).

(** [if (domain >= numa_node_count && domain < MAX_NODES) ...] *)
Definition announce_node (domain : Z) (n : numa) : numa :=
  if (numa_node_count n <=? domain) && (domain <? NUMA_POLICY_MAX_NODES) then
    upd_node (fun i => mkNode domain (memory_ranges i) (cpus_bound i)) domain
      (mk (numa_slot_to_node_map n) (numa_nodes n) (domain ⊞ 1) (numa_ranges n))
  else n.

(** The common body of the two processor affinity entries. *)
Definition bind_cpu (topo : topology) (domain apic_id : Z) (n : numa) : numa :=
  let slot := cpu_topology_get_slot_for_apic_id apic_id topo in
  if slot <? NUMA_POLICY_MAX_SLOTS then
    let n := mk (<[Z.to_nat slot := domain]> (numa_slot_to_node_map n)) (numa_nodes n)
                (numa_node_count n) (numa_ranges n) in
    let n := announce_node domain n in
    if domain <? NUMA_POLICY_MAX_NODES then
      upd_node (fun i => mkNode (node_id i) (memory_ranges i) (cpus_bound i ⊞ 1)) domain n
    else n
  else n.

Definition add_memory (domain base len : Z) (n : numa) : numa :=
  let n := announce_node domain n in
  if domain <? NUMA_POLICY_MAX_NODES then
    let n := upd_node (fun i => mkNode (node_id i) (memory_ranges i ⊞ 1) (cpus_bound i)) domain n in
    if (length (numa_ranges n) <? NUMA_POLICY_MAX_RANGES)%nat then
      mk (numa_slot_to_node_map n) (numa_nodes n) (numa_node_count n)
         (numa_ranges n ++ [mkRange (u32 base) (u32 len) domain])
    else n
  else n.

(** One affinity structure of the table, at [p]. *)
Definition parse_entry (topo : topology) (mem : Z -> Z) (p : Z) (n : numa) : numa :=
  let type := mem p in
  let len := mem (p + 1) in
  if (type =? 0) && (16 <=? len) then
    if Z.land (le32 mem (p + 4)) 1 =? 0 then n
    else
      let domain := Z.lor (Z.lor (Z.lor (mem (p + 2)) (Z.shiftl (mem (p + 9)) 8))
                                 (Z.shiftl (mem (p + 10)) 16))
                          (Z.shiftl (mem (p + 11)) 24) in
      bind_cpu topo domain (mem (p + 3)) n
  else if (type =? 2) && (24 <=? len) then
    if Z.land (le32 mem (p + 12)) 1 =? 0 then n
    else bind_cpu topo (le32 mem (p + 4)) (le32 mem (p + 8)) n
  else if (type =? 1) && (40 <=? len) then
    if Z.land (le32 mem (p + 28)) 1 =? 0 then n
    else add_memory (le32 mem (p + 2)) (le64 mem (p + 8)) (le64 mem (p + 16)) n
  else n.

(** The walk over the entries; [None] when the fuel does not suffice. *)
Fixpoint parse_entries (fuel : nat) (topo : topology) (mem : Z -> Z) (p entry_end : Z)
    (n : numa) : option numa :=
  match fuel with
  | O => None
  | S fuel =>
      if p + 2 <=? entry_end then
        let len := mem (p + 1) in
        if (len =? 0) || (entry_end <? p + len) then Some n
        else parse_entries fuel topo mem (p + len) entry_end (parse_entry topo mem p n)
      else Some n
  end.

Definition numa_policy_parse_srat (topo : topology) (mem : Z -> Z) (srat : Z) (n : numa)
    : option numa :=
  let len := le32 mem (srat + 4) in
  parse_entries (S (Z.to_nat len)) topo mem (srat + 48) (srat + len) n.

(** [srat] is the address of the table ACPI discovery found, if it found one. *)
Definition numa_policy_initialize (topo : topology) (mem : Z -> Z) (srat : option Z) (n : numa)
    : option numa :=
  let n := mk (replicate 32 0)
              (alter (fun i => mkNode 0 (memory_ranges i) (cpus_bound i)) 0%nat (numa_nodes n))
              1 [] in
  match srat with
  | Some table => numa_policy_parse_srat topo mem table n
  | None => Some n
  end.

Definition numa_policy_get_node_for_slot (slot : Z) (n : numa) : Z :=
  if NUMA_POLICY_MAX_SLOTS <=? slot then 0
  else default 0 (numa_slot_to_node_map n !! Z.to_nat slot).

Definition numa_policy_get_local_node (n : numa) (t : topology) : Z * topology :=
  let '(slot, t) := cpu_topology_get_logical_slot t in
  (numa_policy_get_node_for_slot slot n, t).

Definition numa_policy_get_node_count (n : numa) : Z := numa_node_count n.

Fixpoint find_range (phys_addr : Z) (l : list NumaMemoryRange) : Z :=
  match l with
  | [] => 0
  | r :: l' =>
      if (range_base r <=? phys_addr) && (phys_addr <? range_base r ⊞ range_length r)
      then range_node r else find_range phys_addr l'
  end.

Definition numa_policy_get_node_for_address (phys_addr : Z) (n : numa) : Z :=
  find_range phys_addr (numa_ranges n).

(** ** Properties of the NUMA policy *)

(** What every client of the policy relies on: at least one and at most
    [NUMA_POLICY_MAX_NODES] nodes, every recorded range on one of them, and
    every processor on one of them unless its proximity domain is past the
    table of nodes. *)
Record wf (n : numa) : Prop := {
  wf_nodes : 1 <= numa_node_count n <= NUMA_POLICY_MAX_NODES;
  wf_ranges : Forall (fun r => 0 <= range_node r < numa_node_count n) (numa_ranges n);
  wf_nranges : (length (numa_ranges n) <= NUMA_POLICY_MAX_RANGES)%nat;
  wf_slots : Forall (fun d => 0 <= d /\ (d < NUMA_POLICY_MAX_NODES -> d < numa_node_count n))
               (numa_slot_to_node_map n) }.

(** Announcing a node never loses one. *)
Lemma announce_node_count d n :
  0 <= d -> wf n ->
  numa_node_count n <= numa_node_count (announce_node d n) <= NUMA_POLICY_MAX_NODES /\
  (d < NUMA_POLICY_MAX_NODES -> d < numa_node_count (announce_node d n)).
Proof.
  intros Hd [H1 _ _ _]. unfold announce_node, NUMA_POLICY_MAX_NODES in *.
  destruct (Z.leb_spec (numa_node_count n) d), (Z.ltb_spec d 8); cbn; try lia.
  rewrite add32_small; klia.
Qed.

Lemma announce_node_rest d n :
  numa_ranges (announce_node d n) = numa_ranges n /\
  numa_slot_to_node_map (announce_node d n) = numa_slot_to_node_map n.
Proof. unfold announce_node. by case_match. Qed.

Lemma announce_node_wf d n : 0 <= d -> wf n -> wf (announce_node d n).
Proof.
  intros Hd Hn. pose proof (announce_node_count d n Hd Hn) as [Hc _].
  pose proof (announce_node_rest d n) as [Hr Hs]. destruct Hn as [H1 H2 H3 H4].
  constructor; rewrite ?Hr, ?Hs; [lia| |done|].
  - eapply Forall_impl; [done|]. cbn. lia.
  - eapply Forall_impl; [done|]. cbn. lia.
Qed.

Lemma bind_cpu_wf topo d id n : 0 <= d -> wf n -> wf (bind_cpu topo d id n).
Proof.
  intros Hd Hn. unfold bind_cpu. case_match; [|done].
  set (slot := Z.to_nat _).
  set (n1 := mk (<[slot := d]> (numa_slot_to_node_map n)) _ _ _).
  assert (Hwf : wf (announce_node d n1)).
  { pose proof (announce_node_count d n Hd Hn) as [Hc Hc'].
    assert (Hcn : numa_node_count (announce_node d n1) = numa_node_count (announce_node d n)).
    { unfold announce_node. cbn. by case_match. }
    pose proof (announce_node_rest d n1) as [Hr Hs]. destruct Hn as [H1 H2 H3 H4].
    constructor; rewrite ?Hr, ?Hs, ?Hcn; [lia| |done|].
    - eapply Forall_impl; [done|]. cbn. lia.
    - apply Forall_insert; [|done]. eapply Forall_impl; [done|]. cbn. lia. }
  case_match; [|done]. destruct Hwf. by constructor.
Qed.

Lemma add_memory_wf d b len n : 0 <= d -> wf n -> wf (add_memory d b len n).
Proof.
  intros Hd Hn. unfold add_memory. pose proof (announce_node_wf d n Hd Hn) as [H1 H2 H3 H4].
  pose proof (announce_node_count d n Hd Hn) as [_ Hc].
  destruct (Z.ltb_spec d NUMA_POLICY_MAX_NODES); [|by constructor].
  cbv zeta. destruct (_ <? NUMA_POLICY_MAX_RANGES)%nat eqn:E; constructor; cbn; try done.
  - apply Forall_app. split; [done|]. apply Forall_singleton. cbn. lia.
  - apply Nat.ltb_lt in E. cbn in E. rewrite length_app. cbn. lia.
Qed.

Lemma le32_nonneg mem a : bytes_ok mem -> 0 <= le32 mem a.
Proof.
  intros Hm. unfold le32, le16. pose proof (Hm a). pose proof (Hm (a + 1)).
  pose proof (Hm (a + 2)). pose proof (Hm (a + 2 + 1)). lia.
Qed.

Lemma parse_entry_wf topo mem p n : bytes_ok mem -> wf n -> wf (parse_entry topo mem p n).
Proof.
  intros Hm Hn. unfold parse_entry.
  repeat case_match; auto using bind_cpu_wf, add_memory_wf, le32_nonneg.
  apply bind_cpu_wf; [|done]. rewrite !Z.lor_nonneg, !Z.shiftl_nonneg.
  split_and!; apply Hm.
Qed.

(** Every entry advances the cursor, so the table length is enough fuel. *)
Lemma parse_entries_wf topo mem entry_end : bytes_ok mem -> forall fuel p n,
  wf n -> Z.max 0 (entry_end - p) < Z.of_nat fuel ->
  exists n', parse_entries fuel topo mem p entry_end n = Some n' /\ wf n'.
Proof.
  intros Hm. induction fuel as [|fuel IH]; intros p n Hn Hf.
  - cbn in *. lia.
  - cbn [parse_entries]. destruct (Z.leb_spec (p + 2) entry_end); [|eauto].
    pose proof (Hm (p + 1)).
    destruct (Z.eqb_spec (mem (p + 1)) 0); cbn [orb]; [eauto|].
    destruct (Z.ltb_spec entry_end (p + mem (p + 1))); [eauto|].
    apply IH; [by apply parse_entry_wf|lia].
Qed.

Lemma numa_initialize_wf topo mem srat n :
  bytes_ok mem ->
  exists n', numa_policy_initialize topo mem srat n = Some n' /\ wf n'.
Proof.
  intros Hm. unfold numa_policy_initialize.
  assert (Hwf : wf (mk (replicate 32 0)
     (alter (fun i => mkNode 0 (memory_ranges i) (cpus_bound i)) 0%nat (numa_nodes n)) 1 [])).
  { constructor; cbn [numa_node_count numa_ranges numa_slot_to_node_map]; [klia|constructor|apply Nat.le_0_l|].
    apply Forall_replicate. klia. }
  destruct srat as [s|]; [|eauto].
  unfold numa_policy_parse_srat. apply parse_entries_wf; [done..|].
  pose proof (le32_nonneg mem (s + 4) Hm). lia.
Qed.

Lemma numa_boot_wf : wf numa_boot.
Proof.
  constructor; cbn [numa_boot numa_node_count numa_ranges numa_slot_to_node_map];
    [klia|constructor|apply Nat.le_0_l|]. apply Forall_replicate. klia.
Qed.

(** Every frame is on a node the policy counts. *)
Lemma node_for_address_range a n :
  wf n -> 0 <= numa_policy_get_node_for_address a n < numa_node_count n.
Proof.
  intros [Hn Hr _ _]. unfold numa_policy_get_node_for_address.
  induction Hr as [|r l H1 H2 IH]; cbn; [lia|]. case_match; [done|]. apply IH.
Qed.

(** A one-entry SRAT whose processor affinity names proximity domain 9. *)
Definition srat_domain_9 : list Z :=
  [0x53; 0x52; 0x41; 0x54; 64; 0; 0; 0] ++ replicate 40 0
  ++ [0; 16; 9; 0; 1; 0; 0; 0; 0; 0; 0; 0; 0; 0; 0; 0].

End Numa.
