(* ===== verification/Pmm.v ===== *)
(** * Physical memory manager: the two frame allocators

    Models kernel/arch/i386/cpu/pmm.c.  [FreeList] is the client (real-time)
    profile, an intrusive LIFO stack per NUMA node; [Buddy] is the server
    profile.  Both thread their lists through the first word of the free
    frames, read and written through the higher-half alias of the frame.

    An operation returns [None] when the C code has no defined result: an
    index outside one of the static arrays, or a list walk that does not end. *)

From S2P Require Import Prelude Cpu.
Import Numa.

Definition KERNEL_VIRTUAL_BASE : Z := 0xC0000000.
Definition PAGE_SIZE : Z := 4096.
Definition PMM_BOOT_MAP_LIMIT : Z := 0x04000000.
Definition PMM_LOW_MEMORY_LIMIT : Z := 0x00100000.
Definition PMM_MAX_PHYS_ADDR : Z := 0x40000000.
Definition PMM_MAX_PAGE_COUNT : Z := PMM_MAX_PHYS_ADDR / PAGE_SIZE.
Definition PMM_BUDDY_MAX_ORDER : Z := 18.

#[export] Hint Unfold KERNEL_VIRTUAL_BASE PAGE_SIZE PMM_BOOT_MAP_LIMIT PMM_LOW_MEMORY_LIMIT
  PMM_MAX_PHYS_ADDR PMM_BUDDY_MAX_ORDER : consts.

Definition pmm_phys_to_virt (phys_addr : Z) : Z := phys_addr ⊞ KERNEL_VIRTUAL_BASE.
Definition pmm_virt_to_phys (virt_addr : Z) : Z := virt_addr ⊟ KERNEL_VIRTUAL_BASE.

(** The node list a frame belongs to: nodes the policy does not count fall
    back to node 0. *)
Definition node_of (ns : numa) (phys_addr : Z) : Z :=
  let node_id := numa_policy_get_node_for_address phys_addr ns in
  if numa_policy_get_node_count ns <=? node_id then 0 else node_id.

(** ** Shared accounting *)

Record accounting := mkAcct {
  free_page_count : Z;
  free_page_count_watermark_high : Z;
  free_page_count_watermark_low : Z;
  watermarks_seeded : bool;
  pmm_local_hits : Z;
  pmm_remote_hits : Z;
  pmm_cross_node_fallbacks : Z }.

Definition set_free_page_count (n : Z) (a : accounting) : accounting :=
  mkAcct n (free_page_count_watermark_high a) (free_page_count_watermark_low a)
    (watermarks_seeded a) (pmm_local_hits a) (pmm_remote_hits a) (pmm_cross_node_fallbacks a).

Definition pmm_update_watermarks (a : accounting) : accounting :=
  let n := free_page_count a in
  if watermarks_seeded a then
    mkAcct n
      (if free_page_count_watermark_high a <? n then n else free_page_count_watermark_high a)
      (if n <? free_page_count_watermark_low a then n else free_page_count_watermark_low a)
      true (pmm_local_hits a) (pmm_remote_hits a) (pmm_cross_node_fallbacks a)
  else
    mkAcct n n n true (pmm_local_hits a) (pmm_remote_hits a) (pmm_cross_node_fallbacks a).

Definition count_local_hit (k : Z) (a : accounting) : accounting :=
  mkAcct (free_page_count a) (free_page_count_watermark_high a) (free_page_count_watermark_low a)
    (watermarks_seeded a) (pmm_local_hits a ⊞ k) (pmm_remote_hits a) (pmm_cross_node_fallbacks a).

Definition count_remote_hit (k : Z) (a : accounting) : accounting :=
  mkAcct (free_page_count a) (free_page_count_watermark_high a) (free_page_count_watermark_low a)
    (watermarks_seeded a) (pmm_local_hits a) (pmm_remote_hits a ⊞ k)
    (pmm_cross_node_fallbacks a ⊞ 1).

Definition reset_accounting (a : accounting) : accounting :=
  mkAcct 0 0 0xFFFFFFFF false (pmm_local_hits a) (pmm_remote_hits a) (pmm_cross_node_fallbacks a).

Definition physical_memory_manager_get_watermark_low (a : accounting) : Z :=
  if watermarks_seeded a then free_page_count_watermark_low a else 0.

(** ** Client profile: a LIFO free list per node *)

Module FreeList.

Record freelist := mk { ac : accounting; mem : zmap; free_list_heads : zmap }.

Definition freelist_push (ns : numa) (phys_addr : Z) (s : freelist) : option freelist :=
  let node_id := node_of ns phys_addr in
  if node_id <? NUMA_POLICY_MAX_NODES then
    Some (mk (pmm_update_watermarks (set_free_page_count (free_page_count (ac s) ⊞ 1) (ac s)))
             (<[pmm_phys_to_virt phys_addr := zget (free_list_heads s) node_id]> (mem s))
             (<[node_id := phys_addr]> (free_list_heads s)))
  else None.

(** Take the head of [node]'s list. *)
Definition unlink_head (node : Z) (s : freelist) : Z * freelist :=
  let phys_addr := zget (free_list_heads s) node in
  (phys_addr,
   mk (pmm_update_watermarks (set_free_page_count (free_page_count (ac s) ⊟ 1) (ac s))) (mem s)
      (<[node := zget (mem s) (pmm_phys_to_virt phys_addr)]> (free_list_heads s))).

Fixpoint pop_remote (targets : list Z) (s : freelist) : Z * freelist :=
  match targets with
  | [] => (0, s)
  | target_node :: rest =>
      if zget (free_list_heads s) target_node =? 0 then pop_remote rest s
      else
        let '(phys_addr, s) := unlink_head target_node s in
        (phys_addr, mk (count_remote_hit 1 (ac s)) (mem s) (free_list_heads s))
  end.

(** [local] is the node the running processor is bound to. *)
Definition freelist_pop (local : Z) (s : freelist) : Z * freelist :=
  let local_node := if NUMA_POLICY_MAX_NODES <=? local then 0 else local in
  if zget (free_list_heads s) local_node =? 0 then
    pop_remote (seqZ 0 NUMA_POLICY_MAX_NODES) s
  else
    let '(phys_addr, s) := unlink_head local_node s in
    (phys_addr, mk (count_local_hit 1 (ac s)) (mem s) (free_list_heads s)).

End FreeList.

(** ** Server profile: the buddy allocator *)

Module Buddy.

(** The heads are indexed by node and order, the three page arrays by page
    number. *)
Record buddy := mk {
  ac : accounting;
  mem : zmap;
  buddy_free_list_heads : gmap (Z * Z) Z;
  buddy_page_is_free : zmap;
  buddy_page_order : zmap;
  buddy_page_allocated : zmap;
  buddy_population_in_progress : bool;
  buddy_rejected_free_count : Z;
  buddy_double_free_count : Z }.

Definition head (s : buddy) (node order : Z) : Z :=
  default 0 (buddy_free_list_heads s !! (node, order)).

(** The array bounds. *)
Definition in_heads (node order : Z) : bool :=
  (0 <=? node) && (node <? NUMA_POLICY_MAX_NODES) && (0 <=? order) && (order <=? PMM_BUDDY_MAX_ORDER).

Definition in_pages (first count : Z) : bool :=
  (0 <=? first) && (first + count <=? PMM_MAX_PAGE_COUNT).

Definition buddy_phys_to_page_index (phys_addr : Z) : Z := Z.shiftr phys_addr 12.

Definition buddy_order_block_size_bytes (order : Z) : Z := Z.shiftl PAGE_SIZE order.

Definition buddy_is_valid_phys (phys_addr : Z) : bool :=
  (Z.land phys_addr 0xFFF =? 0) && (phys_addr <? PMM_MAX_PHYS_ADDR).

Definition buddy_is_valid_order (order : Z) : bool := order <=? PMM_BUDDY_MAX_ORDER.

Definition buddy_is_order_aligned (phys_addr order : Z) : bool :=
  Z.land phys_addr (buddy_order_block_size_bytes order - 1) =? 0.

Definition page_count (order : Z) : Z := Z.shiftl 1 order.

Definition buddy_list_push (ns : numa) (order phys_addr : Z) (s : buddy) : option buddy :=
  let node_id := node_of ns phys_addr in
  let page_index := buddy_phys_to_page_index phys_addr in
  if in_heads node_id order && in_pages page_index (page_count order) then
    Some (mk (ac s)
      (<[pmm_phys_to_virt phys_addr := head s node_id order]> (mem s))
      (<[(node_id, order) := phys_addr]> (buddy_free_list_heads s))
      (<[page_index := 1]> (buddy_page_is_free s))
      (<[page_index := order]> (buddy_page_order s))
      (zfill (buddy_page_allocated s) page_index (Z.to_nat (page_count order)) 0)
      (buddy_population_in_progress s) (buddy_rejected_free_count s) (buddy_double_free_count s))
  else None.

Definition buddy_list_pop_from_node (target_node order : Z) (s : buddy) : option (Z * buddy) :=
  if in_heads target_node order then
    let phys_addr := head s target_node order in
    if phys_addr =? 0 then Some (0, s)
    else
      let page_index := buddy_phys_to_page_index phys_addr in
      if in_pages page_index (page_count order) then
        Some (phys_addr, mk (ac s) (mem s)
          (<[(target_node, order) := zget (mem s) (pmm_phys_to_virt phys_addr)]>
             (buddy_free_list_heads s))
          (<[page_index := 0]> (buddy_page_is_free s))
          (buddy_page_order s)
          (zfill (buddy_page_allocated s) page_index (Z.to_nat (page_count order)) 1)
          (buddy_population_in_progress s) (buddy_rejected_free_count s)
          (buddy_double_free_count s))
      else None
  else None.

(** The loop of [buddy_list_remove_exact]. *)
Fixpoint remove_walk (fuel : nat) (target_node order phys_addr : Z) (previous_phys current_phys : Z)
    (s : buddy) : option (bool * buddy) :=
  match fuel with
  | O => None
  | S fuel =>
      if current_phys =? 0 then Some (false, s)
      else
        let next_phys := zget (mem s) (pmm_phys_to_virt current_phys) in
        if current_phys =? phys_addr then
          let page_index := buddy_phys_to_page_index current_phys in
          if in_pages page_index 1 then
            let mem' := if previous_phys =? 0 then mem s
                        else <[pmm_phys_to_virt previous_phys := next_phys]> (mem s) in
            let heads' := if previous_phys =? 0
                          then <[(target_node, order) := next_phys]> (buddy_free_list_heads s)
                          else buddy_free_list_heads s in
            Some (true, mk (ac s) mem' heads' (<[page_index := 0]> (buddy_page_is_free s))
              (buddy_page_order s) (buddy_page_allocated s)
              (buddy_population_in_progress s) (buddy_rejected_free_count s)
              (buddy_double_free_count s))
          else None
        else remove_walk fuel target_node order phys_addr current_phys next_phys s
  end.

(** A free list holds at most one node per page frame, so one step per frame
    and one for the end of the list is enough. *)
Definition walk_fuel : nat := Z.to_nat (PMM_MAX_PAGE_COUNT + 1).

Definition buddy_list_remove_exact (target_node order phys_addr : Z) (s : buddy)
    : option (bool * buddy) :=
  if in_heads target_node order then
    remove_walk walk_fuel target_node order phys_addr 0 (head s target_node order) s
  else None.

Definition buddy_can_merge (order phys_addr : Z) (s : buddy) : bool :=
  if buddy_is_valid_phys phys_addr then
    let page_index := buddy_phys_to_page_index phys_addr in
    if zget (buddy_page_is_free s) page_index =? 0 then false
    else zget (buddy_page_order s) page_index =? order
  else false.

Definition buddy_range_is_allocated (base_phys order : Z) (s : buddy) : bool :=
  forall_range (fun i => negb (zget (buddy_page_allocated s) i =? 0))
    (buddy_phys_to_page_index base_phys) (Z.to_nat (page_count order)).

Definition buddy_debug_is_free_block (phys_addr order : Z) (s : buddy) : bool :=
  if PMM_BUDDY_MAX_ORDER <? order then false
  else if negb (buddy_is_valid_phys phys_addr) then false
  else if negb (Z.land phys_addr (buddy_order_block_size_bytes order - 1) =? 0) then false
  else
    let page_index := buddy_phys_to_page_index phys_addr in
    if zget (buddy_page_is_free s) page_index =? 0 then false
    else zget (buddy_page_order s) page_index =? order.

(** [while (current) { current = *current; ++count; }] *)
Fixpoint count_walk (fuel : nat) (current_phys count : Z) (s : buddy) : option Z :=
  match fuel with
  | O => None
  | S fuel =>
      if current_phys =? 0 then Some count
      else count_walk fuel (zget (mem s) (pmm_phys_to_virt current_phys)) (count ⊞ 1) s
  end.

Fixpoint count_nodes (nodes : list Z) (order count : Z) (s : buddy) : option Z :=
  match nodes with
  | [] => Some count
  | node_id :: rest =>
      count ← count_walk walk_fuel (head s node_id order) count s;
      count_nodes rest order count s
  end.

Definition buddy_debug_get_free_block_count (ns : numa) (order : Z) (s : buddy) : option Z :=
  if PMM_BUDDY_MAX_ORDER <? order then Some 0
  else count_nodes (seqZ 0 (numa_policy_get_node_count ns)) order 0 s.

Definition with_ac (f : accounting -> accounting) (s : buddy) : buddy :=
  mk (f (ac s)) (mem s) (buddy_free_list_heads s) (buddy_page_is_free s) (buddy_page_order s)
     (buddy_page_allocated s) (buddy_population_in_progress s) (buddy_rejected_free_count s)
     (buddy_double_free_count s).

Definition reject (double : bool) (s : buddy) : buddy :=
  mk (ac s) (mem s) (buddy_free_list_heads s) (buddy_page_is_free s) (buddy_page_order s)
     (buddy_page_allocated s) (buddy_population_in_progress s) (buddy_rejected_free_count s ⊞ 1)
     (if double then buddy_double_free_count s ⊞ 1 else buddy_double_free_count s).

(** The coalescing loop of [buddy_insert_order]. *)
Fixpoint merge_loop (fuel : nat) (ns : numa) (current_order current_phys : Z) (s : buddy)
    : option (Z * Z * buddy) :=
  match fuel with
  | O => None
  | S fuel =>
      if current_order <? PMM_BUDDY_MAX_ORDER then
        let buddy_phys := Z.lxor current_phys (buddy_order_block_size_bytes current_order) in
        if buddy_can_merge current_order buddy_phys s then
          match buddy_list_remove_exact (node_of ns buddy_phys) current_order buddy_phys s with
          | None => None
          | Some (false, s) => Some (current_order, current_phys, s)
          | Some (true, s) =>
              merge_loop fuel ns (current_order + 1)
                (if buddy_phys <? current_phys then buddy_phys else current_phys) s
          end
        else Some (current_order, current_phys, s)
      else Some (current_order, current_phys, s)
  end.

Definition buddy_insert_order (ns : numa) (phys_addr requested_order : Z) (s : buddy)
    : option buddy :=
  if negb (buddy_is_valid_order requested_order) then Some (reject false s)
  else if negb (buddy_is_valid_phys phys_addr) then Some (reject false s)
  else if negb (buddy_is_order_aligned phys_addr requested_order) then Some (reject false s)
  else if negb (buddy_population_in_progress s)
          && negb (buddy_range_is_allocated phys_addr requested_order s)
  then Some (reject true s)
  else
    let s := with_ac (fun a => set_free_page_count
                        (free_page_count a ⊞ page_count requested_order) a) s in
    '(current_order, current_phys, s) ← merge_loop 20 ns requested_order phys_addr s;
    s ← buddy_list_push ns current_order current_phys s;
    Some (with_ac pmm_update_watermarks s).

(** [while (order <= MAX && heads[node][order] == 0) ++order;] *)
Fixpoint scan_orders (fuel : nat) (node order : Z) (s : buddy) : Z :=
  match fuel with
  | O => order
  | S fuel =>
      if (order <=? PMM_BUDDY_MAX_ORDER) && (head s node order =? 0)
      then scan_orders fuel node (order + 1) s else order
  end.

(** The search for a non-empty list on the other nodes: the node and the order
    of the first list found. *)
Fixpoint scan_remote (offsets : list Z) (local_node node_count requested_order : Z) (s : buddy)
    : option (Z * Z) :=
  match offsets with
  | [] => None
  | i :: rest =>
      let target_node := (local_node ⊞ i) mod node_count in
      let order := scan_orders 20 target_node requested_order s in
      if order <=? PMM_BUDDY_MAX_ORDER then Some (target_node, order)
      else scan_remote rest local_node node_count requested_order s
  end.

(** [while (order > 0) { --order; ... }], on the order. *)
Fixpoint split_loop (order : nat) (ns : numa) (requested_order block_phys : Z) (s : buddy)
    : option buddy :=
  match order with
  | O => Some s
  | S order =>
      let right_buddy_phys := block_phys ⊞ buddy_order_block_size_bytes (Z.of_nat order) in
      if requested_order <=? Z.of_nat order then
        s ← buddy_list_push ns (Z.of_nat order) right_buddy_phys s;
        split_loop order ns requested_order block_phys s
      else split_loop order ns requested_order block_phys s
  end.

(** From the list that was found: pop, split down and account. *)
Definition take_block (ns : numa) (target_node order requested_order : Z) (s : buddy)
    : option (Z * buddy) :=
  '(block_phys, s) ← buddy_list_pop_from_node target_node order s;
  if block_phys =? 0 then Some (0, s)
  else
    s ← split_loop (Z.to_nat order) ns requested_order block_phys s;
    Some (block_phys,
      with_ac (fun a => pmm_update_watermarks
        (set_free_page_count (free_page_count a ⊟ page_count requested_order) a)) s).

(** [local_node] is [numa_policy_get_local_node()]; the code indexes the heads
    with it unchecked. *)
Definition buddy_remove_order (ns : numa) (local_node requested_order : Z) (s : buddy)
    : option (Z * buddy) :=
  if negb (buddy_is_valid_order requested_order) then Some (0, s)
  else if negb (in_heads local_node requested_order) then None
  else
    let node_count := numa_policy_get_node_count ns in
    let order := scan_orders 20 local_node requested_order s in
    if order <=? PMM_BUDDY_MAX_ORDER then
      take_block ns local_node order requested_order
        (with_ac (count_local_hit (page_count requested_order)) s)
    else
      match scan_remote (seqZ 1 (node_count - 1)) local_node node_count requested_order s with
      | Some (target_node, order) =>
          take_block ns target_node order requested_order
            (with_ac (count_remote_hit (page_count requested_order)) s)
      | None => Some (0, s)
      end.

Definition buddy_insert (ns : numa) (phys_addr : Z) (s : buddy) : option buddy :=
  buddy_insert_order ns phys_addr 0 s.

Definition buddy_remove (ns : numa) (local_node : Z) (s : buddy) : option (Z * buddy) :=
  buddy_remove_order ns local_node 0 s.

Definition buddy_reset_state (s : buddy) : buddy :=
  mk (ac s) (mem s) ∅ ∅ ∅ ∅ false 0 0.

End Buddy.

(** ** The boot loader's memory map *)

Module Boot.

Definition MULTIBOOT_FLAG_MMAP : Z := Z.shiftl 1 6.
Definition MMAP_TYPE_AVAILABLE : Z := 1.
Definition MMAP_MIN_ENTRY_SIZE : Z := 20.

#[export] Hint Unfold MMAP_TYPE_AVAILABLE MMAP_MIN_ENTRY_SIZE : consts.

Definition PAGE_ALIGN_DOWN (addr : Z) : Z := Z.land addr 0xFFFFF000.
Definition PAGE_ALIGN_UP (addr : Z) : Z := Z.land (addr ⊞ 0xFFF) 0xFFFFF000.

(** The fields of [MultibootInfo_t] the memory manager reads. *)
Record MultibootInfo := mkInfo {
  flags : Z; mods_count : Z; mods_addr : Z; mmap_length : Z; mmap_addr : Z }.

(** What the boot loader left: the information structure, if the pointer is
    not null, the bytes of memory by virtual address, and the address of the
    linker symbol [global_kernel_end]. *)
Record boot := mkBoot {
  multiboot_info : option MultibootInfo;
  bytes : Z -> Z;
  global_kernel_end : Z }.

Definition pmm_get_multiboot_mmap (b : boot) : option (Z * Z) :=
  match multiboot_info b with
  | None => None
  | Some i =>
      if Z.land (flags i) MULTIBOOT_FLAG_MMAP =? 0 then None
      else if (mmap_length i =? 0) || (mmap_addr i =? 0) then None
      else Some (pmm_phys_to_virt (mmap_addr i), mmap_length i)
  end.

(** The fields of [MemoryMapEntry_t] at address [e]. *)
Definition entry_size (b : boot) (e : Z) : Z := le32 (bytes b) e.
Definition entry_base_addr (b : boot) (e : Z) : Z := le64 (bytes b) (e + 4).
Definition entry_length (b : boot) (e : Z) : Z := le64 (bytes b) (e + 12).
Definition entry_type (b : boot) (e : Z) : Z := le32 (bytes b) (e + 20).

Definition pmm_compute_region_bounds (base_addr length : Z) : option (Z * Z) :=
  if negb (Z.shiftr base_addr 32 =? 0) then None
  else
    let region_start := u32 base_addr in
    let region_length := if negb (Z.shiftr length 32 =? 0) then 0xFFFFFFFF ⊟ region_start
                         else u32 length in
    let region_end := if region_start ⊞ region_length <? region_start then 0xFFFFFFFF
                      else region_start ⊞ region_length in
    let out_start := PAGE_ALIGN_UP region_start in
    let out_end := PAGE_ALIGN_DOWN region_end in
    if out_start <? out_end then Some (out_start, out_end) else None.

Definition pmm_is_kernel_page (phys_addr kernel_start kernel_end : Z) : bool :=
  (kernel_start <=? phys_addr) && (phys_addr <? kernel_end).

(** Does the page at [phys_addr] overlap [start, end)? *)
Definition overlaps (phys_addr start end_ : Z) : bool :=
  (start <? phys_addr ⊞ PAGE_SIZE) && (phys_addr <? end_).

Definition pmm_is_boot_module_page (b : boot) (phys_addr : Z) : bool :=
  match multiboot_info b with
  | None => false
  | Some i =>
      if Z.land (flags i) (Z.shiftl 1 3) =? 0 then false
      else if (mods_count i =? 0) || (mods_addr i =? 0) then false
      else
        let modules := pmm_phys_to_virt (mods_addr i) in
        if overlaps phys_addr (mods_addr i) (mods_addr i ⊞ (mods_count i ⊠ 16)) then true
        else existsb (fun k =>
               let start := le32 (bytes b) (modules ⊞ 16 * k) in
               let end_ := le32 (bytes b) (modules ⊞ 16 * k + 4) in
               if end_ <=? start then false else overlaps phys_addr start end_)
             (seqZ 0 (mods_count i))
  end.

Definition pmm_next_mmap_entry (b : boot) (mmap_base mmap_length offset : Z) : bool :=
  if mmap_length <? offset ⊞ 4 then false
  else
    let size := entry_size b (mmap_base ⊞ offset) in
    if size <? MMAP_MIN_ENTRY_SIZE then false
    else if mmap_length <? (offset ⊞ 4) ⊞ size then false
    else true.

(** The loops of the two population passes, over the state [A] of the
    allocator they populate; [visit] is what a pass does with one page. *)
Section population.
Context {A : Type} (b : boot) (visit : Z -> A -> option A).

(** [for (addr = region_start; addr < region_end; addr += PAGE_SIZE)]: the
    bounds are page aligned, [count] is the number of pages between them. *)
Fixpoint region_loop (count : nat) (addr : Z) (s : A) : option A :=
  match count with
  | O => Some s
  | S count => s ← visit addr s; region_loop count (addr ⊞ PAGE_SIZE) s
  end.

Definition visit_entry (e : Z) (s : A) : option A :=
  if entry_type b e =? MMAP_TYPE_AVAILABLE then
    match pmm_compute_region_bounds (entry_base_addr b e) (entry_length b e) with
    | Some (region_start, region_end) =>
        region_loop (Z.to_nat ((region_end - region_start) / PAGE_SIZE)) region_start s
    | None => Some s
    end
  else Some s.

Fixpoint mmap_loop (fuel : nat) (mmap_base mmap_length offset : Z) (s : A) : option A :=
  match fuel with
  | O => None
  | S fuel =>
      if pmm_next_mmap_entry b mmap_base mmap_length offset then
        let e := mmap_base ⊞ offset in
        s ← visit_entry e s;
        mmap_loop fuel mmap_base mmap_length (offset ⊞ (4 ⊞ entry_size b e)) s
      else Some s
  end.

(** An entry takes at least 24 bytes of the map. *)
Definition mmap_fuel (mmap_length : Z) : nat := S (Z.to_nat (mmap_length / 24)).

End population.

(** The pages [physical_memory_manager_initialize] leaves out. *)
Definition init_skips (b : boot) (addr : Z) : bool :=
  (addr <? PMM_LOW_MEMORY_LIMIT)
  || pmm_is_kernel_page addr PMM_LOW_MEMORY_LIMIT (pmm_virt_to_phys (global_kernel_end b))
  || pmm_is_boot_module_page b addr
  || (PMM_BOOT_MAP_LIMIT <=? addr) || (PMM_MAX_PHYS_ADDR <=? addr).

(** The pages [physical_memory_manager_extend_mapping] leaves out. *)
Definition extend_skips (b : boot) (addr : Z) : bool :=
  (addr <? PMM_BOOT_MAP_LIMIT) || (PMM_MAX_PHYS_ADDR <=? addr) || pmm_is_boot_module_page b addr.

End Boot.

(** ** The public interface *)

Module ServerApi.
Import Buddy Boot.

Definition physical_memory_manager_page_frame_free (ns : numa) (phys_addr : Z) (s : buddy)
    : option buddy := buddy_insert ns phys_addr s.

Definition physical_memory_manager_page_frame_free_order (ns : numa) (phys_addr order : Z)
    (s : buddy) : option buddy := buddy_insert_order ns phys_addr order s.

Definition physical_memory_manager_page_frame_allocate (ns : numa) (local_node : Z) (s : buddy)
    : option (Z * buddy) := buddy_remove ns local_node s.

Definition physical_memory_manager_page_frame_allocate_order (ns : numa) (local_node order : Z)
    (s : buddy) : option (Z * buddy) := buddy_remove_order ns local_node order s.

Definition set_population (p : bool) (s : buddy) : buddy :=
  mk (ac s) (mem s) (buddy_free_list_heads s) (buddy_page_is_free s) (buddy_page_order s)
     (buddy_page_allocated s) p (buddy_rejected_free_count s) (buddy_double_free_count s).

Definition physical_memory_manager_initialize (ns : numa) (b : boot) (s : buddy) : option buddy :=
  match pmm_get_multiboot_mmap b with
  | None => Some s
  | Some (mmap_base, mmap_length) =>
      let s := buddy_reset_state (with_ac reset_accounting s) in
      let s := set_population true s in
      s ← mmap_loop b
            (fun addr s => if init_skips b addr then Some s
                           else physical_memory_manager_page_frame_free ns addr s)
            (mmap_fuel mmap_length) mmap_base mmap_length 0 s;
      Some (set_population false s)
  end.

(** [out_counts] is written from index 0; the result is the counts written. *)
Definition physical_memory_manager_get_buddy_histogram (ns : numa) (max_orders : Z) (s : buddy)
    : option (list Z) :=
  let orders_to_write := if PMM_BUDDY_MAX_ORDER + 1 <? max_orders then PMM_BUDDY_MAX_ORDER + 1
                         else max_orders in
  mapM (fun order => buddy_debug_get_free_block_count ns order s) (seqZ 0 orders_to_write).

(** The largest order with a free block, scanning down from [order]. *)
Fixpoint largest_free_order (n : nat) (ns : numa) (s : buddy) : option (option Z) :=
  count ← buddy_debug_get_free_block_count ns (Z.of_nat n) s;
  if 0 <? count then Some (Some (Z.of_nat n))
  else match n with O => Some None | S n => largest_free_order n ns s end.

Definition physical_memory_manager_get_fragmentation_ratio (ns : numa) (s : buddy) : option Z :=
  let free := free_page_count (ac s) in
  if free =? 0 then Some 0
  else
    largest ← largest_free_order 18 ns s;
    match largest with
    | None => Some 100
    | Some order =>
        let largest_contiguous_pages := Z.shiftl 1 order in
        if free <=? largest_contiguous_pages then Some 0
        else Some (100 ⊟ (largest_contiguous_pages ⊠ 100) / free)
    end.

(** [paging_map_page] is the mapping function of [Paging]: it takes the frames
    of new page tables from this allocator. *)
Definition physical_memory_manager_extend_mapping (ns : numa) (b : boot)
    (paging_map_page : Z -> Z -> buddy -> option (bool * buddy)) (s : buddy) : option buddy :=
  match pmm_get_multiboot_mmap b with
  | None => Some s
  | Some (mmap_base, mmap_length) =>
      let s := set_population true s in
      s ← mmap_loop b
            (fun addr s =>
               if extend_skips b addr then Some s
               else
                 '(mapped, s) ← paging_map_page (pmm_phys_to_virt addr) addr s;
                 if negb mapped then Some s
                 else physical_memory_manager_page_frame_free ns addr s)
            (mmap_fuel mmap_length) mmap_base mmap_length 0 s;
      Some (set_population false s)
  end.

End ServerApi.

Module ClientApi.
Import FreeList Boot.

Definition physical_memory_manager_page_frame_free (ns : numa) (phys_addr : Z) (s : freelist)
    : option freelist := freelist_push ns phys_addr s.

Definition physical_memory_manager_page_frame_free_order (ns : numa) (phys_addr order : Z)
    (s : freelist) : option freelist :=
  if negb (order =? 0) then Some s else freelist_push ns phys_addr s.

Definition physical_memory_manager_page_frame_allocate (local_node : Z) (s : freelist)
    : Z * freelist := freelist_pop local_node s.

Definition physical_memory_manager_page_frame_allocate_order (local_node order : Z) (s : freelist)
    : Z * freelist := if negb (order =? 0) then (0, s) else freelist_pop local_node s.

Definition physical_memory_manager_initialize (ns : numa) (b : boot) (s : freelist)
    : option freelist :=
  match pmm_get_multiboot_mmap b with
  | None => Some s
  | Some (mmap_base, mmap_length) =>
      mmap_loop b
        (fun addr s => if init_skips b addr then Some s
                       else physical_memory_manager_page_frame_free ns addr s)
        (mmap_fuel mmap_length) mmap_base mmap_length 0
        (mk (reset_accounting (ac s)) (mem s) ∅)
  end.

Definition physical_memory_manager_extend_mapping (ns : numa) (b : boot)
    (paging_map_page : Z -> Z -> freelist -> option (bool * freelist)) (s : freelist)
    : option freelist :=
  match pmm_get_multiboot_mmap b with
  | None => Some s
  | Some (mmap_base, mmap_length) =>
      mmap_loop b
        (fun addr s =>
           if extend_skips b addr then Some s
           else
             '(mapped, s) ← paging_map_page (pmm_phys_to_virt addr) addr s;
             if negb mapped then Some s
             else physical_memory_manager_page_frame_free ns addr s)
        (mmap_fuel mmap_length) mmap_base mmap_length 0 s
  end.

End ClientApi.

(** ** Lemmas both profiles share *)

(** The higher-half alias is injective below 1 GiB. *)
Lemma alias_inj p q :
  0 <= p < 2 ^ 30 -> 0 <= q < 2 ^ 30 -> pmm_phys_to_virt p = pmm_phys_to_virt q -> p = q.
Proof.
  intros Hp Hq. unfold pmm_phys_to_virt, KERNEL_VIRTUAL_BASE. rewrite !add32_small; lia.
Qed.

(** Every frame is on the list of a node the policy counts. *)
Lemma node_of_count ns p : Numa.wf ns -> 0 <= node_of ns p < numa_policy_get_node_count ns /\ numa_policy_get_node_count ns <= 8.
Proof.
  intros Hwf. unfold node_of, numa_policy_get_node_count.
  pose proof (node_for_address_range p ns Hwf) as H.
  destruct Hwf as [Hn _ _ _]. unfold NUMA_POLICY_MAX_NODES in Hn. case_match; lia.
Qed.

Lemma node_of_range ns p : Numa.wf ns -> 0 <= node_of ns p < 8.
Proof. intros Hwf. pose proof (node_of_count ns p Hwf). lia. Qed.

Lemma free_count_watermarks a : free_page_count (pmm_update_watermarks a) = free_page_count a.
Proof. unfold pmm_update_watermarks. by case_match. Qed.
