(* ===== verification/BuddyProofs.v ===== *)
(** * Correctness of the buddy allocator

    The representation invariant of [Pmm.Buddy], that every operation keeps
    it whatever its arguments, and the refinement to the abstract allocator,
    a set of free frames. *)

From S2P Require Import Prelude Cpu Pmm.
Import Numa Buddy.

(** ** Blocks and frames *)

Definition block_bytes (o : Z) : Z := 4096 * 2 ^ o.

(** A naturally aligned block of order [o] at a non-null physical address. *)
Definition block_ok (o p : Z) : Prop :=
  0 <= o <= 18 /\ 0 < p < 2 ^ 30 /\ p mod block_bytes o = 0.

(** The frames of a block. *)
Definition frames (o p : Z) : gset Z := list_to_set (seqZ (p / 4096) (2 ^ o)).

Lemma elem_of_frames o p i : i ∈ frames o p <-> p / 4096 <= i < p / 4096 + 2 ^ o.
Proof. unfold frames. rewrite elem_of_list_to_set, elem_of_seqZ. done. Qed.

Lemma size_frames o p : 0 <= o -> Z.of_nat (size (frames o p)) = 2 ^ o.
Proof.
  intros. unfold frames. rewrite size_list_to_set by apply NoDup_seqZ.
  rewrite length_seqZ. lia.
Qed.

Lemma pow2_split a b : 0 <= a <= b -> 2 ^ b = 2 ^ a * 2 ^ (b - a).
Proof. intros. rewrite <- Z.pow_add_r by lia. f_equal. lia. Qed.

Lemma block_bytes_pos o : 0 <= o -> 4096 <= block_bytes o.
Proof. intros. unfold block_bytes. lia. Qed.

Lemma block_bytes_S o : 0 <= o -> block_bytes (o + 1) = 2 * block_bytes o.
Proof. intros. unfold block_bytes. rewrite Z.pow_add_r by lia. lia. Qed.

Lemma block_size_shift o : 0 <= o -> buddy_order_block_size_bytes o = block_bytes o.
Proof. intros. unfold buddy_order_block_size_bytes, block_bytes. now rewrite Z.shiftl_mul_pow2. Qed.

Lemma page_count_pow2 o : 0 <= o -> page_count o = 2 ^ o.
Proof. intros. unfold page_count. rewrite Z.shiftl_mul_pow2 by lia. lia. Qed.

Lemma page_index_div p : buddy_phys_to_page_index p = p / 4096.
Proof. unfold buddy_phys_to_page_index. now rewrite Z.shiftr_div_pow2. Qed.

(** The first frame of a block, as the address and as the quotient. *)
Lemma block_base o p :
  block_ok o p -> exists k, p = block_bytes o * k /\ p / 4096 = 2 ^ o * k /\ 0 < k
                            /\ p / 4096 + 2 ^ o <= 2 ^ 18.
Proof.
  intros (Ho & Hp & Hm).
  assert (Hb : 0 < block_bytes o) by (unfold block_bytes; lia).
  pose proof (Z.div_mod p (block_bytes o) ltac:(lia)) as Hd. rewrite Hm, Z.add_0_r in Hd.
  set (k := p / block_bytes o) in *. exists k.
  assert (Hq : p / 4096 = 2 ^ o * k).
  { rewrite Hd. unfold block_bytes. rewrite <- Z.mul_assoc, Z.mul_comm. by rewrite Z.div_mul. }
  split_and!; [done..|nia|].
  rewrite Hq. assert (Hs : 2 ^ 18 = 2 ^ o * 2 ^ (18 - o)) by (apply pow2_split; lia).
  assert (2 ^ 30 = 4096 * 2 ^ 18) by reflexivity.
  assert (k < 2 ^ (18 - o)).
  { apply (Z.mul_lt_mono_pos_l (block_bytes o)); [done|].
    rewrite <- Hd. unfold block_bytes. rewrite <- Z.mul_assoc, <- Hs. lia. }
  rewrite Hs. nia.
Qed.

Lemma block_page_aligned o p : block_ok o p -> 4096 * (p / 4096) = p.
Proof.
  intros H. destruct (block_base _ _ H) as (k & -> & -> & _ & _).
  unfold block_bytes. lia.
Qed.

Lemma block_in_pages o p : block_ok o p -> in_pages (p / 4096) (2 ^ o) = true.
Proof.
  intros H. destruct (block_base _ _ H) as (k & _ & Hq & Hk & Hb). destruct H as (Ho & _ & _).
  unfold in_pages. change PMM_MAX_PAGE_COUNT with (2 ^ 18).
  apply andb_true_intro. split; apply Z.leb_le; nia.
Qed.

Lemma block_frame_range o p i : block_ok o p -> i ∈ frames o p -> 0 < i < 2 ^ 18.
Proof.
  intros H Hi%elem_of_frames. destruct (block_base _ _ H) as (k & _ & Hq & Hk & Hb). nia.
Qed.

(** The base frame of a block is one of its frames. *)
Lemma base_in_frames o p : 0 <= o -> p / 4096 ∈ frames o p.
Proof. intros. apply elem_of_frames. lia. Qed.

(** ** Buddies *)

Lemma lxor_pow2 p k : 0 <= k ->
  Z.lxor p (2 ^ k) = if Z.testbit p k then p - 2 ^ k else p + 2 ^ k.
Proof.
  intros Hk.
  assert (H0 : forall a, Z.testbit a k = false -> Z.lxor a (2 ^ k) = a + 2 ^ k).
  { intros a Ha. rewrite Z.add_nocarry_lxor; [done|].
    apply Z.bits_inj'. intros n Hn. rewrite Z.land_spec, Z.pow2_bits_eqb, Z.bits_0 by lia.
    destruct (Z.eqb_spec k n) as [<-|]; [by rewrite Ha|apply andb_false_r]. }
  destruct (Z.testbit p k) eqn:E; [|by apply H0].
  assert (Hq : Z.testbit (Z.lxor p (2 ^ k)) k = false).
  { rewrite Z.lxor_spec, E, Z.pow2_bits_true by lia. done. }
  apply H0 in Hq. rewrite Z.lxor_assoc, Z.lxor_nilpotent, Z.lxor_0_r in Hq. lia.
Qed.

Definition buddy_of (o p : Z) : Z := Z.lxor p (block_bytes o).

(** The buddy of a block below the largest order is the other half of the
    block of the next order, whose base is the lower of the two. *)
Lemma buddy_halves o p :
  0 <= o < 18 -> 0 <= p < 2 ^ 30 -> p mod block_bytes o = 0 ->
  exists b, b mod block_bytes (o + 1) = 0 /\ 0 <= b /\ b + block_bytes (o + 1) <= 2 ^ 30 /\
    (p = b /\ buddy_of o p = b + block_bytes o \/ p = b + block_bytes o /\ buddy_of o p = b).
Proof.
  intros Ho Hp Hm. unfold buddy_of.
  assert (Hb : block_bytes o = 2 ^ (12 + o)).
  { unfold block_bytes. rewrite Z.pow_add_r by lia. done. }
  rewrite Hb, lxor_pow2, <- Hb by lia. rewrite block_bytes_S by lia.
  assert (0 < block_bytes o) by (unfold block_bytes; lia).
  pose proof (Z.div_mod p (block_bytes o) ltac:(lia)) as Hd. rewrite Hm, Z.add_0_r in Hd.
  set (k := p / block_bytes o) in *.
  assert (Hbit : Z.testbit p (12 + o) = Z.odd k).
  { rewrite Z.testbit_odd, Z.shiftr_div_pow2, <- Hb by lia. done. }
  assert (Htop : 2 ^ 30 = block_bytes o * (2 * 2 ^ (17 - o))).
  { unfold block_bytes. change (2 ^ 30) with (4096 * 2 ^ 18).
    rewrite (pow2_split (o + 1) 18) by lia. rewrite Z.pow_add_r by lia.
    replace (18 - (o + 1)) with (17 - o) by lia. lia. }
  assert (Hk : k < 2 * 2 ^ (17 - o)) by nia.
  rewrite Hbit. destruct (Z.odd k) eqn:Eo.
  - apply Z.odd_spec in Eo as [j Hj]. exists (p - block_bytes o).
    assert (p - block_bytes o = (2 * block_bytes o) * j) as -> by lia.
    split_and!; [rewrite Z.mul_comm; apply Z.mod_mul; lia|nia|nia|right; lia].
  - assert (Z.even k = true) as [j Hj]%Z.even_spec by (by rewrite <- Z.negb_odd, Eo).
    exists p. assert (p = (2 * block_bytes o) * j) as Hp' by lia.
    split_and!; [rewrite Hp', Z.mul_comm; apply Z.mod_mul; lia|nia|nia|left; lia].
Qed.

(** Two free buddies make one block of the next order. *)
Lemma merge_block o p :
  o < 18 -> block_ok o p -> block_ok o (buddy_of o p) ->
  let b := if buddy_of o p <? p then buddy_of o p else p in
  block_ok (o + 1) b /\
  (forall i, i ∈ frames (o + 1) b <-> i ∈ frames o p \/ i ∈ frames o (buddy_of o p)).
Proof.
  intros Ho Hp Hq b.
  pose proof (block_base _ _ Hp) as (k & Hk1 & Hk2 & _ & _).
  pose proof (block_base _ _ Hq) as (k' & Hk1' & Hk2' & _ & _).
  destruct Hp as (Hp1 & Hp2 & Hp3), Hq as (_ & Hq2 & _).
  destruct (buddy_halves o p) as (c & Hc1 & Hc2 & Hc3 & Hc); [lia..|].
  assert (0 < block_bytes o) by (unfold block_bytes; lia).
  assert (Hb : b = c) by (unfold b; destruct (Z.ltb_spec (buddy_of o p) p); lia).
  rewrite Hb. split.
  - split_and!; lia.
  - intros i. rewrite !elem_of_frames.
    assert (2 ^ (o + 1) = 2 * 2 ^ o) by (rewrite Z.pow_add_r by lia; lia).
    assert (block_bytes o = 4096 * 2 ^ o) by done.
    assert (0 < 2 ^ o) by lia.
    destruct Hc as [[-> Hc']|[Hc' <-]].
    + assert (buddy_of o c / 4096 = c / 4096 + 2 ^ o) as ->; [|lia].
      rewrite Hc'. replace (c + block_bytes o) with (c + 2 ^ o * 4096) by lia.
      by rewrite Z.div_add by lia.
    + assert (p / 4096 = buddy_of o p / 4096 + 2 ^ o) as ->; [|lia].
      rewrite Hc' at 1. replace (buddy_of o p + block_bytes o) with (buddy_of o p + 2 ^ o * 4096) by lia.
      by rewrite Z.div_add by lia.
Qed.

(** ** The representation invariant *)

(** The next pointer of a free block lives in its first word. *)
Definition nxt (s : buddy) (p : Z) : Z := zget (mem s) (pmm_phys_to_virt p).

(** The contents of the lists, by node and order. *)
Abbreviation lists := (Z -> Z -> list Z).

Definition upd (L : lists) (n o : Z) (l : list Z) : lists :=
  fun n' o' => if decide (n' = n /\ o' = o) then l else L n' o'.

Lemma upd_eq L n o l : upd L n o l n o = l.
Proof. unfold upd. by rewrite decide_True. Qed.

Lemma upd_ne L n o l n' o' : ~ (n' = n /\ o' = o) -> upd L n o l n' o' = L n' o'.
Proof. intros. unfold upd. by rewrite decide_False. Qed.

(** [p] is a free block of order [o]. *)
Definition free_block (L : lists) (o p : Z) : Prop := exists n, p ∈ L n o.

(** Frame [i] belongs to a free block. *)
Definition covered (L : lists) (i : Z) : Prop := exists o p, free_block L o p /\ i ∈ frames o p.

(** The lists, the marks and the memory agree: every list is a chain through
    memory, holds distinct well-formed blocks marked free with their order,
    every marked page is in a list, and no two blocks overlap. *)
Record lists_ok (s : buddy) (L : lists) : Prop := {
  lo_chain : forall n o, 0 <= n < 8 -> 0 <= o <= 18 -> chain (nxt s) (head s n o) (L n o);
  lo_index : forall n o p, p ∈ L n o -> 0 <= n < 8;
  lo_block : forall o p, free_block L o p -> block_ok o p;
  lo_mark : forall o p, free_block L o p ->
    zget (buddy_page_is_free s) (p / 4096) = 1 /\ zget (buddy_page_order s) (p / 4096) = o;
  lo_nodup : forall n o, NoDup (L n o);
  lo_once : forall n n' o p, p ∈ L n o -> p ∈ L n' o -> n = n';
  lo_marked : forall i, zget (buddy_page_is_free s) i <> 0 ->
    exists o, free_block L o (4096 * i);
  lo_disjoint : forall o p o' p' i,
    free_block L o p -> free_block L o' p' -> i ∈ frames o p -> i ∈ frames o' p' -> p = p' }.

(** What the list operations leave alone. *)
Definition same_rest (s s' : buddy) : Prop :=
  ac s' = ac s /\ buddy_population_in_progress s' = buddy_population_in_progress s /\
  buddy_rejected_free_count s' = buddy_rejected_free_count s /\
  buddy_double_free_count s' = buddy_double_free_count s.

(** The words outside the frames [X] keep their value. *)
Definition mem_frame (X : Z -> Prop) (s s' : buddy) : Prop :=
  forall p, 0 <= p < 2 ^ 30 -> ~ X (p / 4096) -> nxt s' p = nxt s p.

Lemma same_rest_trans s1 s2 s3 : same_rest s1 s2 -> same_rest s2 s3 -> same_rest s1 s3.
Proof. unfold same_rest. intuition congruence. Qed.

Lemma head_insert s n o v n' o' (acc : accounting) m f g h b c d :
  head (mk acc m (<[(n, o) := v]> (buddy_free_list_heads s)) f g h b c d) n' o' =
  if decide (n' = n /\ o' = o) then v else head s n' o'.
Proof.
  unfold head. cbn. rewrite lookup_insert.
  destruct (decide ((n, o) = (n', o'))) as [[= -> ->]|Hne].
  - by rewrite decide_True.
  - rewrite decide_False; [done|]. intros [-> ->]. done.
Qed.

Lemma in_heads_true n o : 0 <= n < 8 -> 0 <= o <= 18 -> in_heads n o = true.
Proof. intros. unfold in_heads. rewrite !andb_true_iff, !Z.leb_le, Z.ltb_lt. klia. Qed.

(** A block that no free block overlaps is not in any list. *)
Lemma uncovered_fresh s L o p :
  lists_ok s L -> 0 <= o -> (forall i, i ∈ frames o p -> ~ covered L i) ->
  forall n' o', p ∉ L n' o'.
Proof.
  intros Hok Ho Hu n' o' Hin. apply (Hu (p / 4096)); [by apply base_in_frames|].
  exists o', p. assert (free_block L o' p) as Hf by (by exists n'). split; [done|].
  apply base_in_frames. destruct (lo_block _ _ Hok _ _ Hf) as (? & _). lia.
Qed.

Lemma free_block_cons L n o p o' q :
  free_block (upd L n o (p :: L n o)) o' q <-> (o' = o /\ q = p) \/ free_block L o' q.
Proof.
  unfold free_block, upd. split.
  - intros [n' H]. destruct (decide (n' = n /\ o' = o)) as [[-> ->]|]; [|eauto].
    apply elem_of_cons in H as [->|]; eauto.
  - intros [[-> ->]|[n' H]].
    + exists n. rewrite decide_True by done. set_solver.
    + exists n'. destruct (decide (n' = n /\ o' = o)) as [[-> ->]|]; [set_solver|done].
Qed.

Lemma push_spec ns s L o p :
  Numa.wf ns -> lists_ok s L -> block_ok o p ->
  (forall i, i ∈ frames o p -> ~ covered L i) ->
  exists s', buddy_list_push ns o p s = Some s' /\
    lists_ok s' (upd L (node_of ns p) o (p :: L (node_of ns p) o)) /\
    same_rest s s' /\ mem_frame (.= p / 4096) s s' /\
    (forall i, zget (buddy_page_allocated s') i =
               if decide (i ∈ frames o p) then 0 else zget (buddy_page_allocated s) i).
Proof.
  intros Hns Hok Hb Hu. pose proof (node_of_range ns p Hns) as Hn.
  pose proof Hb as (Ho & Hp & Hm).
  pose proof (uncovered_fresh _ _ _ _ Hok (proj1 Ho) Hu) as Hfresh.
  unfold buddy_list_push. rewrite page_index_div, page_count_pow2 by lia.
  rewrite in_heads_true, block_in_pages by done. cbn [andb].
  eexists. split; [done|]. set (n := node_of ns p) in *.
  match goal with |- lists_ok ?s' _ /\ _ => set (s1 := s') end.
  assert (Hnxt : forall q, 0 <= q < 2 ^ 30 -> nxt s1 q = if decide (q = p) then head s n o else nxt s q).
  { intros q Hq. unfold nxt at 1. cbn. rewrite zget_insert.
    destruct (decide (q = p)) as [->|Hne]; [by rewrite decide_True|].
    rewrite decide_False; [done|]. intros He. apply Hne. symmetry. by apply alias_inj; [lia..|]. }
  assert (Hblk : forall o' q, free_block L o' q -> 0 <= q < 2 ^ 30 /\ q <> p).
  { intros o' q [n' Hq]. assert (free_block L o' q) as Hf by (by exists n').
    destruct (lo_block _ _ Hok _ _ Hf) as (_ & ? & _). split; [lia|].
    intros ->. by apply (Hfresh n' o'). }
  split_and!.
  - constructor.
    + intros n' o' Hn' Ho'. unfold s1 at 2. rewrite head_insert. unfold upd.
      assert (Hext : chain (nxt s1) (head s n' o') (L n' o')).
      { eapply chain_ext; [|by apply (lo_chain _ _ Hok)]. intros q Hq.
        destruct (Hblk o' q ltac:(by exists n')) as [? ?].
        rewrite Hnxt by lia. by rewrite decide_False. }
      destruct (decide (n' = n /\ o' = o)) as [[-> ->]|]; [|done].
      cbn. split_and!; [done|lia|]. rewrite Hnxt by lia. by rewrite decide_True.
    + intros n' o' q. unfold upd. destruct (decide _) as [[-> ->]|]; [done|].
      by apply (lo_index _ _ Hok).
    + intros o' q [[-> ->]|Hf]%free_block_cons; [done|]. by apply (lo_block _ _ Hok).
    + intros o' q Hf0%free_block_cons. cbn. rewrite !zget_insert.
      destruct Hf0 as [[-> ->]|Hf]; [by rewrite !decide_True|].
      pose proof (lo_mark _ _ Hok _ _ Hf) as Hmk. destruct (Hblk _ _ Hf) as [? Hne].
      rewrite !decide_False; [done|..];
        intros Heq; apply Hne; rewrite <- (block_page_aligned o p Hb), Heq;
        symmetry; by apply (block_page_aligned o'), (lo_block _ _ Hok).
    + intros n' o'. unfold upd. destruct (decide _) as [[-> ->]|]; [|by apply (lo_nodup _ _ Hok)].
      apply NoDup_cons. split; [apply Hfresh|by apply (lo_nodup _ _ Hok)].
    + intros n1 n2 o' q. unfold upd.
      destruct (decide (n1 = n /\ o' = o)) as [[-> ->]|], (decide (n2 = n /\ _)) as [[-> ?]|];
        try done; try subst o'.
      * intros [->|H1]%elem_of_cons H2; [by apply Hfresh in H2|]. by eapply (lo_once _ _ Hok).
      * intros H1 [->|H2]%elem_of_cons; [by apply Hfresh in H1|]. by eapply (lo_once _ _ Hok).
      * by apply (lo_once _ _ Hok).
    + intros i. cbn. rewrite zget_insert. destruct (decide (p / 4096 = i)) as [<-|].
      * intros _. exists o. apply free_block_cons. left. split; [done|].
        by apply (block_page_aligned o).
      * intros [o' H]%(lo_marked _ _ Hok). exists o'. apply free_block_cons. by right.
    + intros o1 p1 o2 p2 i [[-> ->]|H1]%free_block_cons [[-> ->]|H2]%free_block_cons Hi1 Hi2.
      * done.
      * exfalso. apply (Hu i Hi1). by exists o2, p2.
      * exfalso. apply (Hu i Hi2). by exists o1, p1.
      * by eapply (lo_disjoint _ _ Hok).
  - by repeat split.
  - intros q Hq Hne. rewrite Hnxt by lia. rewrite decide_False; [done|]. by intros ->.
  - intros i. cbn. rewrite zget_zfill, Z2Nat.id by lia.
    destruct (decide (i ∈ frames o p)) as [Hi|Hi]; rewrite elem_of_frames in Hi.
    + by rewrite decide_True.
    + by rewrite decide_False.
Qed.

(** Taking one block out of the list that holds it. *)
Lemma free_block_unlink s L n o l1 p l2 o' q :
  lists_ok s L -> L n o = l1 ++ p :: l2 ->
  free_block (upd L n o (l1 ++ l2)) o' q <-> free_block L o' q /\ ~ (o' = o /\ q = p).
Proof.
  intros Hok HL. pose proof (lo_nodup _ _ Hok n o) as Hnd. rewrite HL in Hnd.
  apply NoDup_app in Hnd as (Hnd1 & Hd & Hnd2). apply NoDup_cons in Hnd2 as [Hni Hnd2].
  assert (Hp : p ∈ L n o) by (rewrite HL; set_solver).
  unfold free_block, upd. split.
  - intros [n' H]. destruct (decide (n' = n /\ o' = o)) as [[-> ->]|Hne].
    + split; [exists n; rewrite HL; set_solver|]. intros [_ ->]. set_solver.
    + split; [eauto|]. intros [-> ->]. apply Hne. split; [|done].
      symmetry. by eapply (lo_once _ _ Hok n n').
  - intros [[n' H] Hne]. exists n'. destruct (decide (n' = n /\ o' = o)) as [[-> ->]|]; [|done].
    rewrite HL in H. set_solver.
Qed.

(** Taking a block off its list uncovers exactly its frames. *)
Lemma covered_unlink s L n o l1 p l2 i :
  lists_ok s L -> L n o = l1 ++ p :: l2 ->
  covered L i <-> covered (upd L n o (l1 ++ l2)) i \/ i ∈ frames o p.
Proof.
  intros Hok HL. unfold covered. setoid_rewrite (free_block_unlink s L n o l1 p l2); [|done..].
  assert (Hf : free_block L o p) by (exists n; rewrite HL; set_solver).
  split.
  - intros (o' & q & Hq & Hi). destruct (decide (o' = o /\ q = p)) as [[-> ->]|]; eauto 10.
  - intros [(o' & q & [Hq _] & Hi)|Hi]; eauto.
Qed.

Lemma uncovered_unlink s L n o l1 p l2 i :
  lists_ok s L -> L n o = l1 ++ p :: l2 ->
  i ∈ frames o p -> ~ covered (upd L n o (l1 ++ l2)) i.
Proof.
  intros Hok HL Hi (o' & q & [Hq Hne]%(free_block_unlink s L n o l1 p l2) & Hi'); [|done..].
  assert (Hf : free_block L o p) by (exists n; rewrite HL; set_solver).
  apply Hne. assert (q = p) as -> by (by apply (lo_disjoint _ _ Hok o' q o p i)). split; [|done].
  apply (lo_mark _ _ Hok) in Hq, Hf. intuition congruence.
Qed.

Lemma unlink_ok s s' L n o l1 p l2 :
  lists_ok s L -> L n o = l1 ++ p :: l2 ->
  (forall n' o', head s' n' o' =
     if decide (n' = n /\ o' = o) then (if l1 is [] then nxt s p else head s n o)
     else head s n' o') ->
  (forall q, 0 <= q < 2 ^ 30 ->
     nxt s' q = if decide (last l1 = Some q) then nxt s p else nxt s q) ->
  buddy_page_is_free s' = <[p / 4096 := 0]> (buddy_page_is_free s) ->
  buddy_page_order s' = buddy_page_order s ->
  lists_ok s' (upd L n o (l1 ++ l2)).
Proof.
  intros Hok HL Hh Hx Hf Hord.
  assert (Hp : p ∈ L n o) by (rewrite HL; set_solver).
  assert (Hfb : free_block L o p) by (by exists n).
  pose proof (lo_index _ _ Hok _ _ _ Hp) as Hn.
  pose proof (lo_block _ _ Hok _ _ Hfb) as Hb.
  assert (Hrange : forall o' q, free_block L o' q -> 0 <= q < 2 ^ 30).
  { intros o' q H. destruct (lo_block _ _ Hok _ _ H) as (_ & ? & _). lia. }
  assert (Hfu : forall o' q, free_block (upd L n o (l1 ++ l2)) o' q <->
                             free_block L o' q /\ ~ (o' = o /\ q = p)).
  { intros. by eapply free_block_unlink. }
  assert (Hlast : forall q, last l1 = Some q -> q ∈ L n o).
  { intros q Hq%last_Some_elem_of. rewrite HL. set_solver. }
  constructor.
  - intros n' o' Hn' Ho'. rewrite Hh. unfold upd.
    pose proof (lo_chain _ _ Hok _ _ Hn' Ho') as Hc.
    destruct (decide (n' = n /\ o' = o)) as [[-> ->]|Hne].
    + rewrite HL in Hc. pose proof (lo_nodup _ _ Hok n o) as Hnd. rewrite HL in Hnd.
      apply (chain_unlink (nxt s)); [done..|]. intros q Hq. apply Hx.
      apply (Hrange o). exists n. by rewrite HL.
    + eapply chain_ext; [|done]. intros q Hq. rewrite Hx by (apply (Hrange o'); by exists n').
      rewrite decide_False; [done|]. intros Hl%Hlast. apply Hne.
      assert (o' = o) as ->.
      { destruct (lo_mark _ _ Hok o q ltac:(by exists n)) as [_ <-].
        by destruct (lo_mark _ _ Hok o' q ltac:(by exists n')) as [_ <-]. }
      split; [|done]. by eapply (lo_once _ _ Hok).
  - intros n' o' q. unfold upd. destruct (decide _) as [[-> ->]|]; [done|].
    by apply (lo_index _ _ Hok).
  - intros o' q [H _]%Hfu. by apply (lo_block _ _ Hok).
  - intros o' q [H Hne]%Hfu. rewrite Hf, Hord, zget_insert.
    pose proof (lo_mark _ _ Hok _ _ H) as Hm.
    rewrite decide_False; [done|]. intros He. apply Hne.
    assert (q = p) as ->.
    { rewrite <- (block_page_aligned o p Hb), He. symmetry.
      by apply (block_page_aligned o'), (lo_block _ _ Hok). }
    split; [|done]. destruct Hm as [_ <-]. by destruct (lo_mark _ _ Hok _ _ Hfb) as [_ <-].
  - intros n' o'. unfold upd. destruct (decide _) as [[-> ->]|]; [|by apply (lo_nodup _ _ Hok)].
    pose proof (lo_nodup _ _ Hok n o) as Hnd. rewrite HL in Hnd.
    apply NoDup_app in Hnd as (Hnd1 & Hd & Hnd2). apply NoDup_cons in Hnd2 as [_ Hnd2].
    apply NoDup_app. split_and!; [done| |done]. set_solver.
  - intros n1 n2 o' q H1 H2. apply (lo_once _ _ Hok _ _ o' q).
    + revert H1. unfold upd. destruct (decide _) as [[-> ->]|]; [|done]. rewrite HL. set_solver.
    + revert H2. unfold upd. destruct (decide _) as [[-> ->]|]; [|done]. rewrite HL. set_solver.
  - intros i. rewrite Hf, zget_insert. destruct (decide (p / 4096 = i)) as [|Hne]; [done|].
    intros [o' H]%(lo_marked _ _ Hok). exists o'. apply Hfu. split; [done|].
    intros [-> He]. apply Hne. rewrite <- He, Z.mul_comm. by rewrite Z.div_mul.
  - intros o1 p1 o2 p2 i [H1 _]%Hfu [H2 _]%Hfu. by apply (lo_disjoint _ _ Hok).
Qed.

(** A list is never longer than the number of frames. *)
Lemma list_length_bound s L n o : lists_ok s L -> (length (L n o) < Z.to_nat (2 ^ 18))%nat.
Proof.
  intros Hok.
  assert (Hinj : NoDup ((fun p => p / 4096) <$> L n o)).
  { apply NoDup_fmap_2_strong; [|by apply (lo_nodup _ _ Hok)].
    intros p q Hp Hq He.
    rewrite <- (block_page_aligned o p), <- (block_page_aligned o q), He;
      [done|apply (lo_block _ _ Hok); by exists n..]. }
  assert (Hincl : ((fun p => p / 4096) <$> L n o) ⊆ seqZ 1 (2 ^ 18 - 1)).
  { intros i Hi%list_elem_of_fmap. destruct Hi as (p & -> & Hp).
    assert (Hb : block_ok o p) by (apply (lo_block _ _ Hok); by exists n).
    apply elem_of_seqZ. pose proof (block_frame_range o p (p / 4096) Hb) as Hr.
    destruct Hb as (? & _ & _). specialize (Hr ltac:(apply base_in_frames; lia)). lia. }
  pose proof (NoDup_submseteq _ _ Hinj Hincl) as Hsub.
  apply submseteq_length in Hsub. rewrite length_fmap, length_seqZ in Hsub. lia.
Qed.

Lemma remove_walk_spec s L n o p : lists_ok s L -> forall l2 l1 fuel prev cur,
  L n o = l1 ++ l2 -> p ∉ l1 -> chain (nxt s) cur l2 -> (length l2 < fuel)%nat ->
  prev = default 0 (last l1) ->
  ((p ∉ l2) /\ remove_walk fuel n o p prev cur s = Some (false, s)) \/
  (exists la lb s', l2 = la ++ p :: lb /\ remove_walk fuel n o p prev cur s = Some (true, s') /\
     lists_ok s' (upd L n o (l1 ++ la ++ lb)) /\ same_rest s s' /\
     mem_frame (covered L) s s' /\ buddy_page_allocated s' = buddy_page_allocated s).
Proof.
  intros Hok. induction l2 as [|q l2 IH]; intros l1 fuel prev cur HL Hp1 Hc Hfuel Hprev.
  - cbn in Hc. subst cur. destruct fuel; [cbn in Hfuel; lia|]. left. split; [set_solver|done].
  - cbn in Hc. destruct Hc as (-> & Hq & Hc). destruct fuel as [|fuel]; [cbn in Hfuel; lia|].
    cbn [remove_walk]. destruct (Z.eqb_spec q 0) as [|_]; [done|].
    fold (nxt s q). destruct (Z.eqb_spec q p) as [->|Hne].
    + right. exists [], l2.
      assert (Hpin : p ∈ L n o) by (rewrite HL; set_solver).
      assert (Hfb : free_block L o p) by (by exists n).
      pose proof (lo_block _ _ Hok _ _ Hfb) as Hb.
      assert (Hpg : in_pages (p / 4096) 1 = true).
      { pose proof (block_in_pages o p Hb) as Hin. destruct Hb as (? & _ & _).
        unfold in_pages in *. apply andb_true_iff in Hin as [H1 H2].
        apply Z.leb_le in H1, H2. apply andb_true_intro. split; apply Z.leb_le; lia. }
      rewrite page_index_div, Hpg.
      assert (Hr : forall q, q ∈ L n o -> 0 < q < 2 ^ 30).
      { intros q' Hq'. destruct (lo_block _ _ Hok o q' ltac:(by exists n)) as (_ & ? & _). lia. }
      assert (Hcases : (l1 = [] /\ prev = 0) \/ (exists x, last l1 = Some x /\ prev = x /\ 0 < x < 2 ^ 30)).
      { subst prev. destruct (last l1) as [x|] eqn:El; cbn.
        - right. exists x. pose proof (last_Some_elem_of _ _ El) as Hx.
          pose proof (Hr x ltac:(rewrite HL; set_solver)). done.
        - left. by apply last_None in El. }
      eexists. split_and!; [done|done| | | |done].
      * cbn [app]. eapply (unlink_ok s); [done|by rewrite HL|..].
        -- intros n' o'. destruct Hcases as [[-> ->]|(x & Hl & -> & Hx)].
           ++ cbn. by rewrite head_insert.
           ++ destruct l1 as [|y l1]; [done|]. destruct (Z.eqb_spec x 0); [lia|].
              unfold head. cbn. destruct (decide _) as [[-> ->]|]; done.
        -- intros q' Hq'. unfold nxt at 1. cbn.
           destruct Hcases as [[-> ->]|(x & Hl & -> & Hx)]; [by rewrite decide_False|].
           destruct (Z.eqb_spec x 0); [lia|]. rewrite zget_insert.
           destruct (decide (last l1 = Some q')) as [Hl'|Hl'].
           ++ rewrite decide_True; [done|]. congruence.
           ++ rewrite decide_False; [done|]. intros He%alias_inj; [congruence|lia..].
        -- done.
        -- done.
      * by repeat split.
      * intros q' Hq' Hnc. unfold nxt at 1. cbn.
        destruct Hcases as [[-> ->]|(x & Hl & -> & Hx)]; [done|].
        destruct (Z.eqb_spec x 0); [lia|]. rewrite zget_insert_ne; [done|].
        intros He%alias_inj; [|lia..]. subst q'. apply Hnc.
        assert (Hxf : free_block L o x).
        { exists n. rewrite HL. apply last_Some_elem_of in Hl. set_solver. }
        exists o, x. split; [done|]. apply base_in_frames. by destruct (lo_block _ _ Hok _ _ Hxf) as ([? _] & _).
    + destruct (IH (l1 ++ [q]) fuel q (nxt s q)) as [[Hni Hw]|(la & lb & s' & -> & Hw & Hok' & Hr)].
      * by rewrite <- app_assoc.
      * set_solver.
      * done.
      * cbn in Hfuel. lia.
      * by rewrite last_snoc.
      * left. split; [set_solver|done].
      * right. exists (q :: la), lb, s'. split_and!; [done|done| |apply Hr..].
        by rewrite <- app_assoc in Hok'.
Qed.

(** [buddy_list_remove_exact] unlinks the block when the list holds it and
    says so, and otherwise changes nothing; it always terminates. *)
Lemma remove_exact_spec s L n o p :
  lists_ok s L -> 0 <= n < 8 -> 0 <= o <= 18 ->
  ((p ∉ L n o) /\ buddy_list_remove_exact n o p s = Some (false, s)) \/
  (exists la lb s', L n o = la ++ p :: lb /\
     buddy_list_remove_exact n o p s = Some (true, s') /\
     lists_ok s' (upd L n o (la ++ lb)) /\ same_rest s s' /\
     mem_frame (covered L) s s' /\ buddy_page_allocated s' = buddy_page_allocated s).
Proof.
  intros Hok Hn Ho. unfold buddy_list_remove_exact. rewrite in_heads_true by done.
  destruct (remove_walk_spec s L n o p Hok (L n o) [] walk_fuel 0 (head s n o))
    as [H|(la & lb & s' & H)]; [done|set_solver|by apply (lo_chain _ _ Hok)| |done|by left|].
  - pose proof (list_length_bound s L n o Hok). unfold walk_fuel.
    change PMM_MAX_PAGE_COUNT with (2 ^ 18). lia.
  - right. by exists la, lb, s'.
Qed.

Lemma pop_spec s L n o :
  lists_ok s L -> 0 <= n < 8 -> 0 <= o <= 18 -> head s n o <> 0 ->
  exists p l s', L n o = p :: l /\ p = head s n o /\
    buddy_list_pop_from_node n o s = Some (p, s') /\
    lists_ok s' (upd L n o l) /\ same_rest s s' /\ mem s' = mem s /\
    (forall i, zget (buddy_page_allocated s') i =
               if decide (i ∈ frames o p) then 1 else zget (buddy_page_allocated s) i).
Proof.
  intros Hok Hn Ho Hh. pose proof (lo_chain _ _ Hok n o Hn Ho) as Hc.
  destruct (chain_head_nz _ _ _ Hh Hc) as (l & HL & _).
  set (p := head s n o) in *. assert (Hfb : free_block L o p) by (exists n; rewrite HL; set_solver).
  pose proof (lo_block _ _ Hok _ _ Hfb) as Hb.
  unfold buddy_list_pop_from_node. rewrite in_heads_true by done. fold p.
  destruct (Z.eqb_spec p 0) as [|_]; [done|].
  rewrite page_index_div, page_count_pow2, (block_in_pages o p Hb) by lia.
  exists p, l. eexists. split_and!; [done|done|done| | |done|].
  - apply (unlink_ok s _ L n o [] p l); try done.
    intros n' o'. rewrite head_insert. done.
  - by repeat split.
  - intros i. cbn. rewrite zget_zfill, Z2Nat.id by lia.
    destruct (decide (i ∈ frames o p)) as [Hi|Hi]; rewrite elem_of_frames in Hi.
    + by rewrite decide_True.
    + by rewrite decide_False.
Qed.

(** ** Tidy lists

    Every block is on the list of its own node, and no two free blocks of one
    order are buddies.  The operations keep the lists tidy as long as the NUMA
    mapping does not change under them. *)
Record tidy (ns : numa) (L : lists) : Prop := {
  t_placed : forall n o p, p ∈ L n o -> n = node_of ns p;
  t_coalesced : forall o p, o < 18 -> free_block L o p -> ~ free_block L o (buddy_of o p) }.

Lemma buddy_of_invol o p : buddy_of o (buddy_of o p) = p.
Proof. unfold buddy_of. by rewrite Z.lxor_assoc, Z.lxor_nilpotent, Z.lxor_0_r. Qed.

Lemma buddy_of_ne o p : 0 <= o -> buddy_of o p <> p.
Proof.
  intros Ho. unfold buddy_of. assert (Hb : block_bytes o = 2 ^ (12 + o)).
  { unfold block_bytes. rewrite Z.pow_add_r by lia. done. }
  rewrite Hb, lxor_pow2 by lia. assert (0 < 2 ^ (12 + o)) by lia. case_match; lia.
Qed.

Lemma tidy_cons ns L o p :
  0 <= o -> tidy ns L -> (o < 18 -> ~ free_block L o (buddy_of o p)) ->
  tidy ns (upd L (node_of ns p) o (p :: L (node_of ns p) o)).
Proof.
  intros Ho [Hp Hc] Hb. constructor.
  - intros n o' q. unfold upd. case_decide as Hd; [|by apply Hp].
    destruct Hd as [-> ->]. intros [->|]%elem_of_cons; [done|]. by eapply Hp.
  - intros o' q Ho'. rewrite !free_block_cons.
    intros [[Ho1 ->]|Hq] [[Ho2 Hq']|Hq']; try subst o'.
    + by apply (buddy_of_ne o p).
    + by apply Hb.
    + apply Hb; [done|]. by rewrite <- Hq', buddy_of_invol.
    + by apply (Hc o' q).
Qed.

Lemma tidy_unlink ns s L n o l1 p l2 :
  lists_ok s L -> L n o = l1 ++ p :: l2 -> tidy ns L -> tidy ns (upd L n o (l1 ++ l2)).
Proof.
  intros Hok HL [Hp Hc]. constructor.
  - intros n' o' q. unfold upd. case_decide as Hd; [|by apply Hp].
    destruct Hd as [-> ->]. intros Hq. apply (Hp n o). rewrite HL. set_solver.
  - intros o' q Ho'. rewrite !(free_block_unlink s L n o l1 p l2) by done.
    intros [H1 _] [H2 _]. by apply (Hc o' q).
Qed.

(** ** Coalescing *)

Lemma lists_ok_ext s s' L :
  lists_ok s L -> mem s' = mem s -> buddy_free_list_heads s' = buddy_free_list_heads s ->
  buddy_page_is_free s' = buddy_page_is_free s -> buddy_page_order s' = buddy_page_order s ->
  lists_ok s' L.
Proof.
  intros [] Hm Hh Hf Ho. constructor; try done; unfold nxt, head in *; rewrite ?Hm, ?Hh, ?Hf, ?Ho; done.
Qed.

Lemma valid_phys_spec p :
  0 <= p -> buddy_is_valid_phys p = true <-> p mod 4096 = 0 /\ p < 2 ^ 30.
Proof.
  intros Hp. unfold buddy_is_valid_phys. rewrite andb_true_iff, Z.eqb_eq, Z.ltb_lt.
  change 0xFFF with (Z.ones 12). by rewrite Z.land_ones.
Qed.

Lemma order_aligned_spec p o :
  0 <= o -> buddy_is_order_aligned p o = true <-> p mod block_bytes o = 0.
Proof.
  intros Ho. unfold buddy_is_order_aligned. rewrite Z.eqb_eq, block_size_shift by done.
  assert (Hb : block_bytes o = 2 ^ (12 + o)).
  { unfold block_bytes. rewrite Z.pow_add_r by lia. done. }
  rewrite Hb. replace (2 ^ (12 + o) - 1) with (Z.ones (12 + o)) by (rewrite Z.ones_equiv; lia).
  by rewrite Z.land_ones by lia.
Qed.

Lemma can_merge_free s L o b :
  lists_ok s L -> 0 <= b -> buddy_can_merge o b s = true -> free_block L o b.
Proof.
  intros Hok Hb. unfold buddy_can_merge. destruct (buddy_is_valid_phys b) eqn:Ev; [|done].
  apply valid_phys_spec in Ev as [Hal _]; [|done]. rewrite page_index_div.
  destruct (Z.eqb_spec (zget (buddy_page_is_free s) (b / 4096)) 0); [done|].
  intros Ho%Z.eqb_eq. destruct (lo_marked _ _ Hok (b / 4096)) as [o' Hf]; [done|].
  assert (4096 * (b / 4096) = b) as Heq by (pose proof (Z.div_mod b 4096); lia).
  rewrite Heq in Hf. pose proof (lo_mark _ _ Hok _ _ Hf) as [_ Hm].
  assert (o' = o) as -> by congruence. done.
Qed.

Lemma free_can_merge s L o b :
  lists_ok s L -> free_block L o b -> buddy_can_merge o b s = true.
Proof.
  intros Hok Hf. pose proof (lo_block _ _ Hok _ _ Hf) as Hb.
  pose proof (lo_mark _ _ Hok _ _ Hf) as [Hm1 Hm2]. unfold buddy_can_merge.
  assert (buddy_is_valid_phys b = true) as ->.
  { pose proof Hb as (_ & ? & _). apply valid_phys_spec; [lia|]. split; [|lia].
    rewrite <- (block_page_aligned o b Hb), Z.mul_comm. by apply Z.mod_mul. }
  rewrite page_index_div, Hm1, Hm2. cbn. by apply Z.eqb_eq.
Qed.

(** What coalescing block [p] of order [o] gives: block [p'] of order [o'] and
    lists [L'].  The frames held by the lists and the block are the same as
    before, and in tidy lists the block has no free buddy left. *)
Record merged (ns : numa) (s : buddy) (L : lists) (o p : Z)
    (o' p' : Z) (s' : buddy) (L' : lists) : Prop := {
  m_lists : lists_ok s' L';
  m_block : block_ok o' p';
  m_fresh : forall i, i ∈ frames o' p' -> ~ covered L' i;
  m_frames : forall i, covered L' i \/ i ∈ frames o' p' <-> covered L i \/ i ∈ frames o p;
  m_sub : forall i, covered L' i -> covered L i;
  m_tidy : tidy ns L -> tidy ns L' /\ (o' < 18 -> ~ free_block L' o' (buddy_of o' p'));
  m_rest : same_rest s s';
  m_mem : mem_frame (covered L) s s';
  m_alloc : buddy_page_allocated s' = buddy_page_allocated s }.

Lemma merged_stop ns s L o p :
  lists_ok s L -> block_ok o p -> (forall i, i ∈ frames o p -> ~ covered L i) ->
  (o < 18 -> tidy ns L -> ~ free_block L o (buddy_of o p)) -> merged ns s L o p o p s L.
Proof. intros Hok Hb Hu Ht. constructor; try done. auto. Qed.

Lemma merged_step ns s L o p s1 L1 b o' p' s' L' :
  (forall i, covered L i <-> covered L1 i \/ i ∈ frames o (buddy_of o p)) ->
  (forall i, i ∈ frames (o + 1) b <-> i ∈ frames o p \/ i ∈ frames o (buddy_of o p)) ->
  (tidy ns L -> tidy ns L1) -> same_rest s s1 -> mem_frame (covered L) s s1 ->
  buddy_page_allocated s1 = buddy_page_allocated s ->
  merged ns s1 L1 (o + 1) b o' p' s' L' -> merged ns s L o p o' p' s' L'.
Proof.
  intros Hcov Hfr Ht Hr Hf Ha []. constructor; try done.
  - intros i. rewrite m_frames0, Hcov, Hfr. tauto.
  - intros i Hi%m_sub0. apply Hcov. by left.
  - auto.
  - by eapply same_rest_trans.
  - intros q Hq Hnc. rewrite m_mem0; [by apply Hf|done|]. intros Hc. apply Hnc, Hcov. by left.
  - congruence.
Qed.

(** The coalescing loop ends. *)
Lemma merge_loop_spec ns : Numa.wf ns -> forall fuel s L o p,
  lists_ok s L -> block_ok o p -> (forall i, i ∈ frames o p -> ~ covered L i) ->
  18 - o < Z.of_nat fuel ->
  exists o' p' s' L', merge_loop fuel ns o p s = Some (o', p', s') /\
    merged ns s L o p o' p' s' L'.
Proof.
  intros Hns. induction fuel as [|fuel IH]; intros s L o p Hok Hb Hu Hfuel.
  { destruct Hb as (? & _). lia. }
  assert (Hstop : (o < 18 -> tidy ns L -> ~ free_block L o (buddy_of o p)) ->
    exists o' p' s' L', Some (o, p, s) = Some (o', p', s') /\ merged ns s L o p o' p' s' L').
  { intros. exists o, p, s, L. split; [done|]. by apply merged_stop. }
  cbn [merge_loop]. destruct (Z.ltb_spec o PMM_BUDDY_MAX_ORDER) as [Ho18|]; [|apply Hstop; klia].
  unfold PMM_BUDDY_MAX_ORDER in Ho18. pose proof Hb as (Ho & Hp & Hm).
  rewrite block_size_shift by lia. fold (buddy_of o p).
  destruct (buddy_can_merge o (buddy_of o p) s) eqn:Ecm.
  2:{ apply Hstop. intros _ _ Hf. apply (free_can_merge s L) in Hf; [congruence|done]. }
  destruct (buddy_halves o p) as (c & _ & Hc0 & _ & Hcc); [lia..|].
  pose proof (block_bytes_pos o ltac:(lia)) as Hbp.
  assert (Hq0 : 0 <= buddy_of o p) by lia.
  pose proof (can_merge_free _ _ _ _ Hok Hq0 Ecm) as Hqf.
  pose proof (lo_block _ _ Hok _ _ Hqf) as Hqb.
  destruct (remove_exact_spec s L (node_of ns (buddy_of o p)) o (buddy_of o p))
    as [[Hni ->]|(la & lb & s1 & HL & -> & Hok1 & Hr1 & Hf1 & Ha1)];
    [done|by apply node_of_range|done| |].
  { apply Hstop. intros _ [Hpl _] [n Hf]. apply Hni. by rewrite <- (Hpl n o). }
  destruct (merge_block o p) as [Hb' Hfr]; [done..|].
  set (b := if buddy_of o p <? p then buddy_of o p else p) in *.
  set (L1 := upd L _ o (la ++ lb)) in *.
  assert (Hcov : forall i, covered L i <-> covered L1 i \/ i ∈ frames o (buddy_of o p))
    by (intros i; by eapply covered_unlink).
  assert (Hu1 : forall i, i ∈ frames (o + 1) b -> ~ covered L1 i).
  { intros i [Hi|Hi]%Hfr; [|by eapply uncovered_unlink].
    intros Hc. apply (Hu i Hi). apply Hcov. by left. }
  destruct (IH s1 L1 (o + 1) b) as (o' & p' & s' & L' & -> & Hm'); [done..|lia|].
  exists o', p', s', L'. split; [done|]. eapply merged_step; try done.
  by eapply tidy_unlink.
Qed.

(** ** The allocator's invariant *)

Definition allocated (s : buddy) (i : Z) : Prop := zget (buddy_page_allocated s) i <> 0.

(** [F] is the set of free frames: those of the blocks in the lists.  No frame
    is both free and allocated, frame 0 is neither, and the counter counts. *)
Record inv (s : buddy) (L : lists) (F : gset Z) : Prop := {
  i_lists : lists_ok s L;
  i_free : forall i, i ∈ F <-> covered L i;
  i_alloc : forall i, i ∈ F -> ~ allocated s i;
  i_range : forall i, allocated s i -> 0 < i < 2 ^ 18;
  i_count : free_page_count (ac s) = Z.of_nat (size F) }.

Lemma covered_range s L i : lists_ok s L -> covered L i -> 0 < i < 2 ^ 18.
Proof.
  intros Hok (o & p & Hf & Hi). eapply block_frame_range; [|done]. by apply (lo_block _ _ Hok).
Qed.

Lemma size_range (X : gset Z) n :
  0 <= n -> (forall i, i ∈ X -> 0 < i < n) -> Z.of_nat (size X) <= n.
Proof.
  intros Hn HX. assert (X ⊆ list_to_set (seqZ 0 n)) as Hs%subseteq_size.
  { intros i Hi%HX. rewrite elem_of_list_to_set, elem_of_seqZ. lia. }
  rewrite size_list_to_set, length_seqZ in Hs by apply NoDup_seqZ. lia.
Qed.

Lemma inv_size s L F : inv s L F -> Z.of_nat (size F) <= 2 ^ 18.
Proof.
  intros H. apply size_range; [lia|]. intros i Hi%(i_free _ _ _ H).
  eapply covered_range; [apply H|done].
Qed.

Lemma covered_cons L n o p i :
  covered (upd L n o (p :: L n o)) i <-> covered L i \/ i ∈ frames o p.
Proof.
  unfold covered. setoid_rewrite free_block_cons. split.
  - intros (o' & q & [[-> ->]|H] & Hi); eauto.
  - intros [(o' & q & H & Hi)|Hi]; eauto 10.
Qed.

(** The guard of [buddy_insert_order]: a free is accepted when the arguments
    name an aligned block and, except while the allocator is populated, every
    frame of it is allocated. *)
Definition accepts (s : buddy) (p o : Z) : bool :=
  buddy_is_valid_order o && buddy_is_valid_phys p && buddy_is_order_aligned p o &&
  (buddy_population_in_progress s || buddy_range_is_allocated p o s).

Lemma accepts_block s p o :
  0 < p -> 0 <= o -> accepts s p o = true -> block_ok o p.
Proof.
  intros Hp Ho. unfold accepts. rewrite !andb_true_iff. intros [[[Hv Hp'] Ha] _].
  apply valid_phys_spec in Hp' as [_ ?]; [|lia]. apply order_aligned_spec in Ha; [|lia].
  unfold buddy_is_valid_order in Hv. apply Z.leb_le in Hv. split_and!; klia.
Qed.

Lemma range_allocated_spec s p o :
  0 <= o -> buddy_range_is_allocated p o s = true <-> (forall i, i ∈ frames o p -> allocated s i).
Proof.
  intros Ho. unfold buddy_range_is_allocated.
  rewrite page_index_div, page_count_pow2, forall_range_true, Z2Nat.id by lia.
  setoid_rewrite elem_of_frames. unfold allocated.
  by setoid_rewrite negb_true_iff; setoid_rewrite Z.eqb_neq.
Qed.

(** A refused free only counts the refusal. *)
Lemma insert_refused ns s p o :
  accepts s p o = false -> exists double, buddy_insert_order ns p o s = Some (reject double s).
Proof.
  unfold accepts, buddy_insert_order.
  destruct (buddy_is_valid_order o), (buddy_is_valid_phys p), (buddy_is_order_aligned p o),
    (buddy_population_in_progress s), (buddy_range_is_allocated p o s); cbn [negb andb orb];
    intros Hacc; try discriminate Hacc; eauto.
Qed.

Lemma insert_accepted ns s p o :
  accepts s p o = true ->
  buddy_insert_order ns p o s =
    '(o', p', s) ← merge_loop 20 ns o p
       (with_ac (fun a => set_free_page_count (free_page_count a ⊞ page_count o) a) s);
    s ← buddy_list_push ns o' p' s;
    Some (with_ac pmm_update_watermarks s).
Proof.
  unfold accepts, buddy_insert_order.
  destruct (buddy_is_valid_order o), (buddy_is_valid_phys p), (buddy_is_order_aligned p o),
    (buddy_population_in_progress s), (buddy_range_is_allocated p o s); cbn [negb andb orb];
    intros Hacc; try discriminate Hacc; reflexivity.
Qed.

(** Inserting a block none of whose frames is free. *)
Lemma insert_block ns s L F o p :
  Numa.wf ns -> inv s L F -> block_ok o p -> (forall i, i ∈ frames o p -> i ∉ F) ->
  accepts s p o = true ->
  exists s' L', buddy_insert_order ns p o s = Some s' /\ inv s' L' (F ∪ frames o p) /\
    (tidy ns L -> tidy ns L') /\
    (forall i, allocated s' i <-> allocated s i /\ i ∉ frames o p) /\
    mem_frame (fun i => i ∈ F ∪ frames o p) s s' /\
    buddy_population_in_progress s' = buddy_population_in_progress s /\
    buddy_rejected_free_count s' = buddy_rejected_free_count s /\
    buddy_double_free_count s' = buddy_double_free_count s.
Proof.
  intros Hns Hinv Hb Hdis Hacc. rewrite insert_accepted by done.
  set (s0 := with_ac _ s).
  assert (Hok0 : lists_ok s0 L) by (eapply lists_ok_ext; [apply Hinv|done..]).
  assert (Hu0 : forall i, i ∈ frames o p -> ~ covered L i).
  { intros i Hi Hc. apply (Hdis i Hi). by apply (i_free _ _ _ Hinv). }
  destruct (merge_loop_spec ns Hns 20 s0 L o p) as
    (o' & p' & s1 & L1 & Hm & [Hok1 Hb1 Hu1 Hc1 Hc1' Ht1 (Hr1 & Hr2 & Hr3 & Hr4) Hmf Ha1]);
    [done..|destruct Hb as (? & _); lia|]. rewrite Hm. cbn [mbind option_bind].
  destruct (push_spec ns s1 L1 o' p') as (s2 & Hp2 & Hok2 & (Hq1 & Hq2 & Hq3 & Hq4) & Hf2 & Ha2);
    [done..|]. rewrite Hp2. cbn [mbind option_bind].
  eexists _, _. split; [done|].
  pose proof Hb as (Ho & _).
  assert (HF : forall i, i ∈ F ∪ frames o p <-> covered L1 i \/ i ∈ frames o' p').
  { intros i. rewrite elem_of_union, Hc1. by rewrite (i_free _ _ _ Hinv). }
  assert (Hal : forall i, allocated (with_ac pmm_update_watermarks s2) i <->
                          allocated s i /\ i ∉ frames o p).
  { intros i. unfold allocated. cbn. rewrite Ha2, Ha1. change (buddy_page_allocated s0) with (buddy_page_allocated s).
    pose proof (i_alloc _ _ _ Hinv i) as Hia. unfold allocated in Hia.
    pose proof (HF i) as HFi. pose proof (Hc1' i) as Hci. pose proof (Hu0 i) as Hui.
    rewrite elem_of_union in HFi.
    destruct (decide (i ∈ frames o' p')) as [Hi|Hi]; tauto. }
  split_and!; [constructor|..|done| | | |].
  - by eapply lists_ok_ext.
  - intros i. by rewrite HF, covered_cons.
  - intros i Hi [Ha Hni]%Hal. apply elem_of_union in Hi as [Hi|]; [|done].
    by apply (i_alloc _ _ _ Hinv i).
  - intros i [Ha _]%Hal. by apply (i_range _ _ _ Hinv).
  - cbn [with_ac ac]. rewrite free_count_watermarks, Hq1, Hr1. cbn [s0 with_ac ac free_page_count set_free_page_count].
    rewrite (i_count _ _ _ Hinv), page_count_pow2 by lia.
    rewrite size_union, Nat2Z.inj_add, size_frames by (lia || set_solver).
    apply add32_small.
    assert (Z.of_nat (size (F ∪ frames o p)) <= 2 ^ 18) as Hsz.
    { apply size_range; [lia|]. intros i [Hi%(i_free _ _ _ Hinv)|Hi]%elem_of_union.
      - eapply covered_range; [apply Hinv|done].
      - by apply (block_frame_range o p). }
    rewrite size_union, Nat2Z.inj_add, size_frames in Hsz by (lia || set_solver). lia.
  - intros Ht. apply Ht1 in Ht as [Ht Hnb]. apply tidy_cons; [|done..]. destruct Hb1 as (? & _). lia.
  - intros q Hq Hni. unfold nxt. cbn [with_ac mem].
    change (nxt s2 q = nxt s0 q). rewrite Hf2; [apply Hmf|..]; try done.
    + intros Hc%(i_free _ _ _ Hinv). apply Hni, elem_of_union. by left.
    + intros He. apply Hni, HF. right. rewrite He. apply base_in_frames. destruct Hb1 as (? & _). lia.
  - exact (eq_trans Hq2 Hr2).
  - exact (eq_trans Hq3 Hr3).
  - exact (eq_trans Hq4 Hr4).
Qed.

(** ** Splitting *)

Lemma split_loop_done ns r b s : forall k,
  Z.of_nat k <= r -> split_loop k ns r b s = Some s.
Proof.
  induction k as [|k IH]; intros Hk; cbn [split_loop]; [done|].
  destruct (Z.leb_spec r (Z.of_nat k)); [lia|]. apply IH. lia.
Qed.

(** The two halves of a block. *)
Lemma split_block o p :
  0 <= o -> block_ok (o + 1) p ->
  block_ok o p /\ block_ok o (p + block_bytes o) /\
  (forall i, i ∈ frames (o + 1) p <-> i ∈ frames o p \/ i ∈ frames o (p + block_bytes o)) /\
  (forall i, i ∈ frames o p -> i ∉ frames o (p + block_bytes o)).
Proof.
  intros Ho Hb. destruct (block_base _ _ Hb) as (k & Hk1 & Hk2 & Hk & Hk3).
  pose proof (block_page_aligned _ _ Hb) as Hpa. destruct Hb as (Ho' & Hp & Hm). rewrite block_bytes_S in Hk1, Hm by lia.
  pose proof (block_bytes_pos o Ho). rewrite Z.pow_add_r in Hk2, Hk3 by lia.
  assert (Hbb : block_bytes o = 2 ^ o * 4096) by (unfold block_bytes; lia).
  assert (Hd : (p + block_bytes o) / 4096 = p / 4096 + 2 ^ o) by (rewrite Hbb, Z.div_add; lia).
  assert (Hm' : forall j, (block_bytes o * j) mod block_bytes o = 0).
  { intros. rewrite Z.mul_comm. apply Z.mod_mul. lia. }
  split_and!.
  - split_and!; try lia. rewrite Hk1. replace (2 * block_bytes o * k) with (block_bytes o * (2 * k)) by lia. apply Hm'.
  - split_and!; try lia.
    rewrite Hk1. replace (2 * block_bytes o * k + block_bytes o) with (block_bytes o * (2 * k + 1)) by lia. apply Hm'.
  - intros i. rewrite !elem_of_frames, Hd, Z.pow_add_r by lia. lia.
  - intros i. rewrite !elem_of_frames, Hd. lia.
Qed.

(** The buddy of the upper half is the lower half. *)
Lemma buddy_of_right o p :
  0 <= o -> o < 18 -> block_ok (o + 1) p -> buddy_of o (p + block_bytes o) = p.
Proof.
  intros Ho Ho' Hb. destruct (split_block o p Ho Hb) as (Hb1 & Hb2 & _ & _).
  destruct Hb as (_ & Hp & Hm). destruct Hb2 as (_ & Hq & Hmq).
  destruct (buddy_halves o (p + block_bytes o)) as (c & Hc1 & _ & _ & [[Hc _]|[Hc Hc']]); [lia|lia|done|..].
  - exfalso. rewrite block_bytes_S in Hm, Hc1 by lia. pose proof (block_bytes_pos o Ho).
    rewrite <- Hc, <- (Z.add_mod_idemp_l p), Hm, Z.add_0_l, Z.mod_small in Hc1 by lia. lia.
  - lia.
Qed.

(** Splitting a block that was taken off its list down to the order asked for
    puts the frames above the kept part back. *)
Lemma split_loop_spec ns r b : Numa.wf ns -> 0 <= r -> forall k s L,
  r <= Z.of_nat k -> lists_ok s L -> block_ok (Z.of_nat k) b ->
  (forall i, i ∈ frames (Z.of_nat k) b -> ~ covered L i) ->
  exists s' L', split_loop k ns r b s = Some s' /\ lists_ok s' L' /\ block_ok r b /\
    (forall i, i ∈ frames r b -> i ∈ frames (Z.of_nat k) b) /\
    (forall i, covered L' i <-> covered L i \/ (i ∈ frames (Z.of_nat k) b /\ i ∉ frames r b)) /\
    (tidy ns L -> tidy ns L') /\
    (forall i, zget (buddy_page_allocated s') i =
       if decide (i ∈ frames (Z.of_nat k) b /\ i ∉ frames r b) then 0
       else zget (buddy_page_allocated s) i) /\
    same_rest s s' /\ mem_frame (fun i => i ∈ frames (Z.of_nat k) b /\ i ∉ frames r b) s s'.
Proof.
  intros Hns Hr. induction k as [|k IH]; intros s L Hrk Hok Hb Hu.
  - assert (r = 0) as -> by lia. exists s, L.
    split_and!; try done; intros; try tauto. by rewrite decide_False by tauto.
  - rewrite Nat2Z.inj_succ, <- Z.add_1_r in *. cbn [split_loop].
    destruct (Z.leb_spec r (Z.of_nat k)) as [Hle|Hgt].
    2:{ assert (r = Z.of_nat k + 1) as -> by lia. rewrite split_loop_done by lia. exists s, L.
        split_and!; try done; intros; try tauto. by rewrite decide_False by tauto. }
    destruct (split_block (Z.of_nat k) b) as (Hb1 & Hb2 & Hfr & Hdis); [lia|done|].
    rewrite block_size_shift by lia.
    rewrite add32_small by (destruct Hb2 as (_ & ? & _); lia).
    set (q := b + block_bytes (Z.of_nat k)) in *.
    destruct (push_spec ns s L (Z.of_nat k) q) as (s1 & Hp & Hok1 & Hr1 & Hf1 & Ha1); [done..| |].
    { intros i Hi. apply Hu, Hfr. by right. }
    rewrite Hp. cbn [mbind option_bind].
    destruct (IH s1 _ Hle Hok1 Hb1) as (s' & L' & -> & Hok' & Hbr & Hsub & Hcov & Ht & Ha & Hr' & Hf').
    { intros i Hi [Hc|Hc]%covered_cons; [|by apply (Hdis i)]. apply (Hu i); [|done]. apply Hfr. by left. }
    assert (Hin : forall i, (i ∈ frames (Z.of_nat k + 1) b /\ i ∉ frames r b) <->
              (i ∈ frames (Z.of_nat k) b /\ i ∉ frames r b) \/ i ∈ frames (Z.of_nat k) q).
    { intros i. rewrite Hfr. specialize (Hsub i). specialize (Hdis i). tauto. }
    exists s', L'. split_and!; try done.
    + intros i Hi. apply Hfr. left. by apply Hsub.
    + intros i. rewrite Hcov, covered_cons, Hin. tauto.
    + intros Htl. apply Ht, tidy_cons; [lia|done|]. intros Hk Hf. apply (Hu (b / 4096)).
      * apply Hfr. left. apply base_in_frames. lia.
      * exists (Z.of_nat k), b. split; [|apply base_in_frames; lia].
        by rewrite <- (buddy_of_right (Z.of_nat k) b) by (lia || done).
    + intros i. rewrite Ha, Ha1. specialize (Hin i). repeat case_decide; tauto.
    + by eapply same_rest_trans.
    + intros x Hx Hn. rewrite Hin in Hn. rewrite Hf' by tauto. apply Hf1; [done|]. intros He.
      apply Hn. right. rewrite He. apply base_in_frames. lia.
Qed.

(** ** Allocation *)

(** The scan stops at the first order whose list is not empty. *)
Lemma scan_orders_spec s n : forall fuel o,
  19 - o <= Z.of_nat fuel ->
  let x := scan_orders fuel n o s in
  o <= x /\ (x <= 18 -> head s n x <> 0) /\ (forall o', o <= o' < x -> head s n o' = 0).
Proof.
  induction fuel as [|fuel IH]; intros o Hf; cbn [scan_orders].
  - split_and!; lia.
  - destruct (Z.leb_spec o PMM_BUDDY_MAX_ORDER), (Z.eqb_spec (head s n o) 0); cbn [andb].
    + destruct (IH (o + 1)) as (H1 & H2 & H3); [lia|]. split_and!; [lia|done|].
      intros o' Ho'. destruct (decide (o' = o)) as [->|]; [done|]. apply H3. lia.
    + split_and!; [lia|done|lia].
    + split_and!; klia.
    + split_and!; klia.
Qed.

Lemma scan_remote_spec s local nc r : forall offs,
  0 <= r <= 18 -> 0 < nc <= 8 ->
  match scan_remote offs local nc r s with
  | Some (t, o) => 0 <= t < 8 /\ r <= o <= 18 /\ head s t o <> 0
  | None => forall i o, i ∈ offs -> r <= o <= 18 -> head s ((local ⊞ i) mod nc) o = 0
  end.
Proof.
  intros offs Hr Hnc. induction offs as [|i offs IH]; cbn [scan_remote]; [set_solver|].
  destruct (scan_orders_spec s ((local ⊞ i) mod nc) 20 r) as (H1 & H2 & H3); [lia|].
  destruct (Z.leb_spec (scan_orders 20 ((local ⊞ i) mod nc) r s) PMM_BUDDY_MAX_ORDER) as [Hx|Hx].
  - pose proof (Z.mod_pos_bound (local ⊞ i) nc). split_and!; [lia..|klia|by apply H2].
  - destruct (scan_remote offs local nc r s) as [[t o]|] eqn:E; [done|].
    intros j o [->|Hj]%elem_of_cons Ho; [apply H3; klia|by apply IH].
Qed.

Lemma inv_with_ac f s L F :
  inv s L F -> (forall a, free_page_count (f a) = free_page_count a) -> inv (with_ac f s) L F.
Proof.
  intros [] Hf. constructor; try done.
  - by eapply lists_ok_ext.
  - cbn. by rewrite Hf.
Qed.

(** What taking block [p] of order [r] gives: its frames leave the free set,
    become allocated, and no word of a frame that was not free or that is
    handed out changes. *)
Record taken (ns : numa) (s : buddy) (L : lists) (F : gset Z) (r p : Z)
    (s' : buddy) (L' : lists) : Prop := {
  tk_block : block_ok r p;
  tk_free : frames r p ⊆ F;
  tk_inv : inv s' L' (F ∖ frames r p);
  tk_tidy : tidy ns L -> tidy ns L';
  tk_alloc : forall i, allocated s' i <-> allocated s i \/ i ∈ frames r p;
  tk_mem : mem_frame (fun i => i ∈ F ∖ frames r p) s s';
  tk_pop : buddy_population_in_progress s' = buddy_population_in_progress s }.

(** Popping a block of order [o] and splitting it to order [r]. *)
Lemma take_block_spec ns s L F n o r :
  Numa.wf ns -> inv s L F -> 0 <= n < 8 -> 0 <= r <= o -> o <= 18 -> head s n o <> 0 ->
  exists p s' L', take_block ns n o r s = Some (p, s') /\ taken ns s L F r p s' L'.
Proof.
  intros Hns Hinv Hn Hr Ho Hh. unfold take_block.
  destruct (pop_spec s L n o) as (p & l & s1 & HL & Hp & Hpop & Hok1 & (Hq1 & Hq2 & _) & Hm1 & Ha1);
    [apply Hinv|lia|lia|done|]. rewrite Hpop. cbn [mbind option_bind].
  destruct (Z.eqb_spec p 0) as [|_]; [congruence|].
  assert (Hf : free_block L o p) by (exists n; rewrite HL; set_solver).
  pose proof (lo_block _ _ (i_lists _ _ _ Hinv) _ _ Hf) as Hb.
  assert (Hc1 : forall i, covered L i <-> covered (upd L n o l) i \/ i ∈ frames o p).
  { intros i. apply (covered_unlink s L n o [] p l); [apply Hinv|done]. }
  assert (Hu1 : forall i, i ∈ frames o p -> ~ covered (upd L n o l) i).
  { intros i. apply (uncovered_unlink s L n o [] p l); [apply Hinv|done]. }
  destruct (split_loop_spec ns r p Hns (proj1 Hr) (Z.to_nat o) s1 (upd L n o l)) as
    (s2 & L2 & Hs & Hok2 & Hb2 & Hsub & Hc2 & Htd & Ha2 & (Ht1 & Ht2 & _) & Hf2);
    rewrite ?Z2Nat.id in * by lia; [lia|done..|].
  rewrite Hs. cbn [mbind option_bind]. eexists p, _, L2. split; [done|].
  assert (HF : forall i, i ∈ F <-> covered (upd L n o l) i \/ i ∈ frames o p).
  { intros i. by rewrite (i_free _ _ _ Hinv). }
  assert (HsubF : forall i, i ∈ frames r p -> i ∈ F) by (intros i Hi%Hsub; apply HF; by right).
  assert (Hcov : forall i, i ∈ F ∖ frames r p <-> covered L2 i).
  { intros i. specialize (HF i). specialize (Hu1 i). specialize (Hsub i).
    rewrite elem_of_difference, Hc2. destruct (decide (i ∈ frames r p)); tauto. }
  assert (Hal : forall i, zget (buddy_page_allocated s2) i <> 0 <-> allocated s i \/ i ∈ frames r p).
  { intros i. rewrite Ha2, Ha1. specialize (HF i). pose proof (i_alloc _ _ _ Hinv i) as Hia.
    specialize (Hsub i). unfold allocated in *. clear - HF Hia Hsub.
    destruct (decide (i ∈ frames r p)), (decide (i ∈ frames o p)).
    - rewrite decide_False by tauto. split; [by right|done].
    - tauto.
    - rewrite decide_True by done. tauto.
    - rewrite decide_False by tauto. tauto. }
  constructor; [done|done|constructor|..|done| |].
  - by eapply lists_ok_ext.
  - done.
  - intros i [Hi Hni]%elem_of_difference [Ha|]%Hal; [|done]. by apply (i_alloc _ _ _ Hinv i).
  - intros i [Ha|Hi]%Hal; [by apply (i_range _ _ _ Hinv)|by apply (block_frame_range r p)].
  - cbn [with_ac ac]. rewrite free_count_watermarks. cbn [set_free_page_count free_page_count].
    rewrite Ht1, Hq1, (i_count _ _ _ Hinv), page_count_pow2 by lia.
    assert (frames r p ⊆ F) as Hsub' by done.
    pose proof (subseteq_size _ _ Hsub'). pose proof (size_frames r p). pose proof (inv_size _ _ _ Hinv).
    rewrite size_difference, sub32_small by (done || lia). lia.
  - intros Ht. apply Htd. apply (tidy_unlink ns s L n o [] p l); [apply Hinv|done..].
  - intros q Hq Hni. change (nxt s2 q = nxt s q). rewrite Hf2; [unfold nxt; by rewrite Hm1|done|].
    intros [Hi Hn']. apply Hni, elem_of_difference. split; [|done]. apply HF. by right.
  - exact (eq_trans Ht2 Hq2).
Qed.
