(* ===== verification/BuddySpec.v ===== *)
(** * What the buddy allocator promises

    The abstract allocator is a pair of disjoint sets of frames, free and
    owned by a caller; the buddy allocator of [Pmm.Buddy] refines it.  An
    allocation fails only when no naturally aligned run of free frames is
    large enough, and population from a list of pages of the memory map
    establishes the invariant. *)

From S2P Require Import Prelude Cpu Pmm BuddyProofs.
Import Numa Buddy.

(** ** Allocation *)

(** Either a block is taken, or nothing changes and every list the search
    visits is empty at and above the order asked for. *)
Lemma remove_order_spec ns local r s L F :
  Numa.wf ns -> inv s L F -> 0 <= local < 8 -> 0 <= r ->
  (exists p s' L', buddy_remove_order ns local r s = Some (p, s') /\ taken ns s L F r p s' L') \/
  (buddy_remove_order ns local r s = Some (0, s) /\
   (18 < r \/ forall n o, (n = local \/ exists i, 1 <= i < numa_policy_get_node_count ns /\
                           n = (local + i) mod numa_policy_get_node_count ns) ->
                r <= o <= 18 -> head s n o = 0)).
Proof.
  intros Hns Hinv Hl Hr. unfold buddy_remove_order, buddy_is_valid_order.
  destruct (Z.leb_spec r PMM_BUDDY_MAX_ORDER) as [Hr18|]; cbn [negb]; [|right; split; [done|left; klia]].
  unfold PMM_BUDDY_MAX_ORDER in Hr18. rewrite in_heads_true by lia. cbn [negb].
  destruct (scan_orders_spec s local 20 r) as (H1 & H2 & H3); [lia|].
  assert (Htake : forall f n o, (forall a, free_page_count (f a) = free_page_count a) ->
     0 <= n < 8 -> r <= o <= 18 -> head s n o <> 0 ->
     exists p s' L', take_block ns n o r (with_ac f s) = Some (p, s') /\ taken ns s L F r p s' L').
  { intros f n o Hf Hn Ho Hh.
    destruct (take_block_spec ns (with_ac f s) L F n o r) as (p & s' & L' & ? & []);
      [done|by apply inv_with_ac|lia..|done|]. by exists p, s', L'. }
  destruct (Z.leb_spec (scan_orders 20 local r s) PMM_BUDDY_MAX_ORDER) as [Hx|Hx].
  { left. apply Htake; [done|lia|klia|by apply H2]. }
  destruct Hns as [Hnc _ _ _]. unfold numa_policy_get_node_count, NUMA_POLICY_MAX_NODES in *.
  pose proof (scan_remote_spec s local (numa_node_count ns) r (seqZ 1 (numa_node_count ns - 1))) as Hsr.
  destruct (scan_remote _ _ _ _ _) as [[t o]|].
  - left. destruct Hsr as (Ht & Ho & Hh); [lia..|]. by apply Htake.
  - right. split; [done|]. right. intros n o [->|(i & Hi & ->)] Ho; [apply H3; klia|].
    rewrite <- (add32_small local i) by lia. apply Hsr; [lia..| |lia]. apply elem_of_seqZ. lia.
Qed.

(** ** Completeness of the search *)

(** Two blocks that share a frame are nested. *)
Lemma frames_nested o p o' q i :
  block_ok o p -> block_ok o' q -> o <= o' -> i ∈ frames o p -> i ∈ frames o' q ->
  frames o p ⊆ frames o' q.
Proof.
  intros Hp Hq Ho Hi Hi' j Hj. rewrite elem_of_frames in *.
  destruct (block_base _ _ Hp) as (k & _ & Hk & _), (block_base _ _ Hq) as (k' & _ & Hk' & _).
  destruct Hp as (Hp & _). rewrite Hk, Hk' in *. rewrite (pow2_split o o') in * by lia.
  set (a := 2 ^ o) in *. set (d := 2 ^ (o' - o)) in *.
  assert (0 < a) by (unfold a; lia). assert (d * k' <= k < d * k' + d) by nia. nia.
Qed.

Lemma same_order_base o p q :
  block_ok o p -> block_ok o q -> frames o p ⊆ frames o q -> p = q.
Proof.
  intros Hp Hq Hs. pose proof (block_page_aligned _ _ Hp). pose proof (block_page_aligned _ _ Hq).
  destruct Hp as (Ho & _). assert (0 < 2 ^ o) by lia.
  pose proof (Hs (p / 4096)) as Hs1. pose proof (Hs (p / 4096 + 2 ^ o - 1)) as Hs2.
  rewrite !elem_of_frames in *. lia.
Qed.

(** Where every frame of an aligned block is free and buddies are coalesced,
    one free block holds all of it. *)
Lemma covered_block s ns L : lists_ok s L -> tidy ns L -> forall k p,
  block_ok (Z.of_nat k) p -> (forall i, i ∈ frames (Z.of_nat k) p -> covered L i) ->
  exists o q, free_block L o q /\ Z.of_nat k <= o /\ (frames (Z.of_nat k) p ⊆ frames o q).
Proof.
  intros Hok Ht. induction k as [|k IH]; intros p Hb Hc.
  - destruct (Hc (p / 4096)) as (o & q & Hf & Hi); [by apply base_in_frames|].
    pose proof (lo_block _ _ Hok _ _ Hf) as Hq. pose proof Hq as (? & _).
    exists o, q. split_and!; [done|lia|].
    apply (frames_nested _ _ _ _ (p / 4096)); try done; [lia|by apply base_in_frames].
  - rewrite Nat2Z.inj_succ, <- Z.add_1_r in *.
    destruct (split_block (Z.of_nat k) p) as (Hb1 & Hb2 & Hfr & _); [lia|done|].
    assert (Hbig : forall b o q, block_ok (Z.of_nat k) b -> (frames (Z.of_nat k) b ⊆ frames (Z.of_nat k + 1) p) ->
      free_block L o q -> frames (Z.of_nat k) b ⊆ frames o q -> Z.of_nat k + 1 <= o ->
      exists o q, free_block L o q /\ Z.of_nat k + 1 <= o /\ (frames (Z.of_nat k + 1) p ⊆ frames o q)).
    { intros b o q Hbb Hsub Hf Hs Ho. exists o, q. split_and!; [done..|].
      pose proof (base_in_frames (Z.of_nat k) b ltac:(lia)) as Hi.
      apply (frames_nested _ _ _ _ (b / 4096)); [done|by apply (lo_block _ _ Hok)|done|by apply Hsub|by apply Hs]. }
    destruct (IH p Hb1) as (o1 & q1 & Hf1 & Ho1 & Hs1). { intros i Hi. apply Hc, Hfr. by left. }
    destruct (IH _ Hb2) as (o2 & q2 & Hf2 & Ho2 & Hs2). { intros i Hi. apply Hc, Hfr. by right. }
    destruct (decide (Z.of_nat k + 1 <= o1)).
    { apply (Hbig p o1 q1); try done. intros i Hi. apply Hfr. by left. }
    destruct (decide (Z.of_nat k + 1 <= o2)).
    { apply (Hbig _ o2 q2 Hb2); try done. intros i Hi. apply Hfr. by right. }
    assert (o1 = Z.of_nat k) as -> by lia. assert (o2 = Z.of_nat k) as -> by lia.
    exfalso. pose proof Hb as (Ho & _).
    apply (same_order_base _ _ _ Hb1 (lo_block _ _ Hok _ _ Hf1)) in Hs1 as <-.
    apply (same_order_base _ _ _ Hb2 (lo_block _ _ Hok _ _ Hf2)) in Hs2 as <-.
    apply (t_coalesced _ _ Ht (Z.of_nat k) (p + block_bytes (Z.of_nat k))); [lia|done|].
    by rewrite buddy_of_right by (lia || done).
Qed.

(** When the search finds nothing, no aligned block of the order is free. *)
Lemma search_complete ns local r s L F :
  Numa.wf ns -> inv s L F -> tidy ns L -> 0 <= local < numa_policy_get_node_count ns -> 0 <= r ->
  (forall n o, (n = local \/ exists i, 1 <= i < numa_policy_get_node_count ns /\
                n = (local + i) mod numa_policy_get_node_count ns) -> r <= o <= 18 -> head s n o = 0) ->
  forall p, block_ok r p -> ~ (frames r p ⊆ F).
Proof.
  intros Hns Hinv Ht Hl Hr Hno p Hb Hs.
  destruct (covered_block s ns L (i_lists _ _ _ Hinv) Ht (Z.to_nat r) p) as (o & q & [n Hq] & Ho & _);
    rewrite ?Z2Nat.id in * by lia; [done| |].
  { intros i Hi. apply (i_free _ _ _ Hinv). by apply Hs. }
  pose proof (lo_block _ _ (i_lists _ _ _ Hinv) o q ltac:(by exists n)) as (Ho18 & _).
  pose proof (t_placed _ _ Ht _ _ _ Hq) as Hn. pose proof (node_of_count ns q Hns) as [Hnc Hnc8].
  rewrite <- Hn in Hnc. set (nc := numa_policy_get_node_count ns) in *.
  pose proof (lo_chain _ _ (i_lists _ _ _ Hinv) n o ltac:(lia) ltac:(lia)) as Hch.
  rewrite Hno in Hch; [|..|lia].
  - apply chain_head_0 in Hch. rewrite Hch in Hq. set_solver.
  - destruct (decide (n = local)) as [|Hne]; [by left|]. right. exists ((n - local) mod nc).
    pose proof (Z.mod_pos_bound (n - local) nc ltac:(lia)).
    rewrite Z.add_mod_idemp_r by lia. replace (local + (n - local)) with n by lia.
    rewrite (Z.mod_small n) by lia. split; [|done].
    assert ((n - local) mod nc <> 0); [|lia]. intros Hz%Z.mod_divide; [|lia].
    destruct Hz as [z Hz]. assert (z = 0) by nia. lia.
Qed.

(** ** The abstract allocator *)

(** Frames that are free and frames owned by callers. *)
Record frame_sets := mkSets { afree : gset Z; aowned : gset Z }.

(** The calls of the public interface; each runs on some processor, whose
    NUMA node is [local]. *)
Inductive call :=
| Alloc (local order : Z)
| Free (phys_addr order : Z).

(** What a call may answer: an allocation is a naturally aligned run of free
    frames and fails only when there is none; a free takes back a run that is
    entirely owned, and anything else is refused. *)
Inductive spec_step (a : frame_sets) : call -> Z -> frame_sets -> Prop :=
| spec_alloc local o p :
    block_ok o p -> frames o p ⊆ afree a ->
    spec_step a (Alloc local o) p (mkSets (afree a ∖ frames o p) (aowned a ∪ frames o p))
| spec_alloc_none local o :
    (forall p, block_ok o p -> ~ (frames o p ⊆ afree a)) ->
    spec_step a (Alloc local o) 0 a
| spec_free p o :
    block_ok o p -> frames o p ⊆ aowned a ->
    spec_step a (Free p o) 0 (mkSets (afree a ∪ frames o p) (aowned a ∖ frames o p))
| spec_free_refused p o :
    ~ (block_ok o p /\ frames o p ⊆ aowned a) -> spec_step a (Free p o) 0 a.

Lemma spec_alloc_inv a local o v a' :
  spec_step a (Alloc local o) v a' ->
  (block_ok o v /\ (frames o v ⊆ afree a) /\
   a' = mkSets (afree a ∖ frames o v) (aowned a ∪ frames o v)) \/
  (v = 0 /\ a' = a /\ forall p, block_ok o p -> ~ (frames o p ⊆ afree a)).
Proof. inversion 1; subst; [left|right]; by split_and!. Qed.

Lemma spec_free_inv a p o v a' :
  spec_step a (Free p o) v a' ->
  a' = mkSets (afree a ∪ frames o p) (aowned a ∖ frames o p) \/
  (a' = a /\ ~ (block_ok o p /\ frames o p ⊆ aowned a)).
Proof. inversion 1; subst; [by left|by right]. Qed.

(** The calls as the code runs them, on machine-width unsigned arguments. *)
Definition exec (ns : numa) (c : call) (s : buddy) : option (Z * buddy) :=
  match c with
  | Alloc local o => buddy_remove_order ns local o s
  | Free p o => s' ← buddy_insert_order ns p o s; Some (0, s')
  end.

Definition call_ok (ns : numa) (c : call) : Prop :=
  match c with
  | Alloc local o => 0 <= local < numa_policy_get_node_count ns /\ 0 <= o
  | Free p o => 0 <= p /\ 0 <= o
  end.

(** The refinement relation. *)
Definition refines (ns : numa) (s : buddy) (a : frame_sets) : Prop :=
  buddy_population_in_progress s = false /\ (forall i, i ∈ aowned a <-> allocated s i) /\
  exists L, inv s L (afree a) /\ tidy ns L.

Lemma refines_alloc ns local o s a :
  Numa.wf ns -> refines ns s a -> call_ok ns (Alloc local o) ->
  exists v s' a', exec ns (Alloc local o) s = Some (v, s') /\
    spec_step a (Alloc local o) v a' /\ refines ns s' a'.
Proof.
  intros Hns (Hp & Ho & L & Hinv & Ht) [Hl Hr]. cbn [exec].
  pose proof (wf_nodes _ Hns) as Hnc. unfold NUMA_POLICY_MAX_NODES in Hnc.
  destruct (remove_order_spec ns local o s L (afree a)) as [(p & s' & L' & -> & [])|[-> Hno]];
    [done|done|unfold numa_policy_get_node_count in *; lia|done|..].
  - eexists p, s', _. split; [done|]. split; [by apply spec_alloc|].
    split_and!; cbn; [congruence| |by eauto].
    intros i. by rewrite elem_of_union, Ho, tk_alloc.
  - exists 0, s, a. split; [done|]. split; [|by split_and!; eauto].
    apply spec_alloc_none. destruct Hno as [Hbig|Hno]; [intros p (? & _); lia|].
    by eapply search_complete.
Qed.

Lemma accepts_owned s p o L F :
  inv s L F -> buddy_population_in_progress s = false -> 0 <= p -> 0 <= o ->
  accepts s p o = true <-> block_ok o p /\ (forall i, i ∈ frames o p -> allocated s i).
Proof.
  intros Hinv Hpop Hp Ho. split.
  - intros Ha. assert (Hal : buddy_range_is_allocated p o s = true).
    { unfold accepts in Ha. rewrite Hpop, !andb_true_iff in Ha. tauto. }
    rewrite range_allocated_spec in Hal by done. split; [|done].
    apply (accepts_block s); [|done..].
    pose proof (i_range _ _ _ Hinv _ (Hal _ (base_in_frames o p Ho))) as [Hi _].
    destruct (decide (p = 0)) as [->|]; [done|lia].
  - intros [Hb Hal]. unfold accepts, buddy_is_valid_order. pose proof Hb as (Ho18 & Hp30 & Hm).
    rewrite !andb_true_iff, orb_true_iff, range_allocated_spec, order_aligned_spec, valid_phys_spec by lia.
    split_and!; [apply Z.leb_le; klia| |lia|done|by right].
    rewrite <- (block_page_aligned o p Hb), Z.mul_comm. by apply Z.mod_mul.
Qed.

Lemma inv_reject d s L F : inv s L F -> inv (reject d s) L F.
Proof. intros []. constructor; try done. by eapply lists_ok_ext. Qed.

Lemma refines_free ns p o s a :
  Numa.wf ns -> refines ns s a -> call_ok ns (Free p o) ->
  exists v s' a', exec ns (Free p o) s = Some (v, s') /\
    spec_step a (Free p o) v a' /\ refines ns s' a'.
Proof.
  intros Hns (Hpop & Ho & L & Hinv & Ht) [Hp Hr]. cbn [exec].
  destruct (accepts s p o) eqn:Ea.
  - pose proof Ea as [Hb Hal]%(accepts_owned s p o L (afree a)); [|done..].
    destruct (insert_block ns s L (afree a) o p) as (s' & L' & -> & Hinv' & Ht' & Ha & _ & Hp' & _);
      [done..| |done|].
    { intros i Hi Hf. by apply (i_alloc _ _ _ Hinv i), Hal. }
    eexists 0, s', _. split; [done|]. split.
    { apply spec_free; [done|]. intros i Hi. by apply Ho, Hal. }
    split_and!; cbn; [congruence| |by eauto].
    intros i. by rewrite elem_of_difference, Ho, Ha.
  - destruct (insert_refused ns s p o Ea) as [d ->]. exists 0, (reject d s), a. split; [done|].
    split.
    + apply spec_free_refused. intros [Hb Hs]. revert Ea.
      apply not_false_iff_true. apply (accepts_owned s p o L (afree a)); [done..|].
      split; [done|]. intros i Hi. by apply Ho, Hs.
    + split_and!; [done..|]. exists L. split; [|done]. by apply inv_reject.
Qed.

Fixpoint run (ns : numa) (cs : list call) (s : buddy) : option (list Z * buddy) :=
  match cs with
  | [] => Some ([], s)
  | c :: cs =>
      '(v, s) ← exec ns c s;
      '(vs, s) ← run ns cs s;
      Some (v :: vs, s)
  end.

Inductive spec_run : frame_sets -> list call -> list Z -> frame_sets -> Prop :=
| spec_nil a : spec_run a [] [] a
| spec_cons a c v a' cs vs a'' :
    spec_step a c v a' -> spec_run a' cs vs a'' -> spec_run a (c :: cs) (v :: vs) a''.

Lemma refines_call ns c s a :
  Numa.wf ns -> refines ns s a -> call_ok ns c ->
  exists v s' a', exec ns c s = Some (v, s') /\ spec_step a c v a' /\ refines ns s' a'.
Proof. destruct c; [apply refines_alloc|apply refines_free]. Qed.

(** ** Population *)

Section pages.
Import Boot.

Fixpoint visit_all {A} (visit : Z -> A -> option A) (l : list Z) (s : A) : option A :=
  match l with
  | [] => Some s
  | a :: l => s ← visit a s; visit_all visit l s
  end.

(** The pages of [count] frames from [addr]. *)
Fixpoint pages_from (count : nat) (addr : Z) : list Z :=
  match count with
  | O => []
  | S count => addr :: pages_from count (addr ⊞ PAGE_SIZE)
  end.

Definition entry_pages (b : boot) (e : Z) : list Z :=
  if entry_type b e =? MMAP_TYPE_AVAILABLE then
    match pmm_compute_region_bounds (entry_base_addr b e) (entry_length b e) with
    | Some (x, y) => pages_from (Z.to_nat ((y - x) / PAGE_SIZE)) x
    | None => []
    end
  else [].

(** The pages of the available regions, in the order of the map. *)
Fixpoint map_pages (b : boot) (fuel : nat) (mmap_base mmap_length offset : Z) : option (list Z) :=
  match fuel with
  | O => None
  | S fuel =>
      if pmm_next_mmap_entry b mmap_base mmap_length offset then
        let e := mmap_base ⊞ offset in
        l ← map_pages b fuel mmap_base mmap_length (offset ⊞ (4 ⊞ entry_size b e));
        Some (entry_pages b e ++ l)
      else Some []
  end.

Lemma visit_all_app {A} (visit : Z -> A -> option A) l1 l2 s :
  visit_all visit (l1 ++ l2) s = s' ← visit_all visit l1 s; visit_all visit l2 s'.
Proof.
  revert s. induction l1 as [|a l1 IH]; intros s; cbn; [done|].
  destruct (visit a s) as [s'|]; cbn; [apply IH|done].
Qed.

Lemma region_loop_visits {A} (visit : Z -> A -> option A) n : forall a s,
  region_loop visit n a s = visit_all visit (pages_from n a) s.
Proof.
  induction n as [|n IH]; intros a s; cbn; [done|]. destruct (visit a s); cbn; [apply IH|done].
Qed.

Lemma visit_entry_visits {A} b (visit : Z -> A -> option A) e s :
  visit_entry b visit e s = visit_all visit (entry_pages b e) s.
Proof.
  unfold visit_entry, entry_pages. destruct (_ =? _); [|done].
  destruct (pmm_compute_region_bounds _ _) as [[x y]|]; [apply region_loop_visits|done].
Qed.

(** The population pass visits those pages, in that order. *)
Lemma mmap_loop_visits {A} b (visit : Z -> A -> option A) fuel : forall base len off s l,
  map_pages b fuel base len off = Some l ->
  mmap_loop b visit fuel base len off s = visit_all visit l s.
Proof.
  induction fuel as [|fuel IH]; intros base len off s l; cbn; [done|].
  destruct (pmm_next_mmap_entry _ _ _ _); [|by intros [= <-]].
  intros (l' & Hl' & [= <-])%bind_Some. rewrite visit_entry_visits, visit_all_app.
  destruct (visit_all visit (entry_pages _ _) s) as [s'|]; cbn; [|done]. by apply IH.
Qed.

Lemma page_align_mod x : in32 x -> Z.land x 0xFFFFF000 mod 4096 = 0.
Proof.
  intros Hx. change 0xFFFFF000 with (not32 (2 ^ 12 - 1)). rewrite land_not32_pow2 by lia.
  change (2 ^ 12) with 4096. rewrite Zminus_mod, Zmod_mod, Z.sub_diag. done.
Qed.

Lemma pages_from_aligned n : forall x a,
  0 <= x -> x mod 4096 = 0 -> a ∈ pages_from n x -> 0 <= a /\ a mod 4096 = 0.
Proof.
  induction n as [|n IH]; intros x a Hx Hm; cbn; [set_solver|].
  intros [->|Ha]%elem_of_cons; [done|]. apply (IH (x ⊞ PAGE_SIZE)); [apply u32_range| |done].
  unfold add32, u32, PAGE_SIZE. rewrite Z.mod_mod_divide by (by exists (2 ^ 20)).
  rewrite Zplus_mod, Hm. done.
Qed.

Lemma region_bounds_start base len x y :
  pmm_compute_region_bounds base len = Some (x, y) -> x = PAGE_ALIGN_UP (u32 base).
Proof.
  unfold pmm_compute_region_bounds. destruct (negb _); [discriminate|]. cbv zeta.
  set (z := PAGE_ALIGN_UP _). set (w := PAGE_ALIGN_DOWN _). clearbody z w.
  destruct (z <? w); [|discriminate]. by intros [= -> ->].
Qed.

Lemma entry_pages_aligned b e a : a ∈ entry_pages b e -> 0 <= a /\ a mod 4096 = 0.
Proof.
  unfold entry_pages. destruct (_ =? _); [|set_solver].
  destruct (pmm_compute_region_bounds _ _) as [[x y]|] eqn:E; [|set_solver].
  apply region_bounds_start in E as ->. apply pages_from_aligned.
  - apply Z.land_nonneg. by right.
  - apply page_align_mod, u32_range.
Qed.

Lemma map_pages_aligned b fuel : forall base len off l a,
  map_pages b fuel base len off = Some l -> a ∈ l -> 0 <= a /\ a mod 4096 = 0.
Proof.
  induction fuel as [|fuel IH]; intros base len off l a; cbn; [done|].
  destruct (pmm_next_mmap_entry _ _ _ _); [|intros [= <-]; set_solver].
  intros (l' & Hl' & [= <-])%bind_Some [Ha|Ha]%elem_of_app; [|by eapply IH].
  by eapply entry_pages_aligned.
Qed.

(** The walk ends: an entry size below 2 GiB in a map below 2 GiB cannot make
    the offset wrap. *)
Lemma map_pages_total b base len : 0 <= len < 2 ^ 31 ->
  (forall off, 0 <= off < len -> 0 <= entry_size b (base ⊞ off) < 2 ^ 31) ->
  forall fuel off, 0 <= off <= len -> (len - off) / 24 < Z.of_nat fuel ->
  exists l, map_pages b fuel base len off = Some l.
Proof.
  intros Hlen Hsz. induction fuel as [|fuel IH]; intros off Hoff Hf.
  { pose proof (Z.div_pos (len - off) 24). lia. }
  cbn [map_pages]. destruct (pmm_next_mmap_entry b base len off) eqn:E; [|eauto].
  unfold pmm_next_mmap_entry in E. rewrite (add32_small off 4) in E by lia.
  destruct (Z.ltb_spec len (off + 4)); [done|].
  destruct (Z.ltb_spec (entry_size b (base ⊞ off)) MMAP_MIN_ENTRY_SIZE); [done|].
  specialize (Hsz off ltac:(lia)). rewrite add32_small in E by lia.
  destruct (Z.ltb_spec len (off + 4 + entry_size b (base ⊞ off))); [done|].
  set (z := entry_size b (base ⊞ off)) in *. rewrite (add32_small 4 z), (add32_small off (4 + z)) by lia.
  destruct (IH (off + (4 + z))) as [l ->]; [lia|unfold MMAP_MIN_ENTRY_SIZE in *; clear IH; subst z; Z.to_euclidean_division_equations; lia|cbn; eauto].
Qed.

End pages.

Definition no_blocks : lists := fun _ _ => [].

Lemma reset_inv ns s :
  let s' := ServerApi.set_population true (buddy_reset_state (with_ac reset_accounting s)) in
  inv s' no_blocks ∅ /\ tidy ns no_blocks /\ (forall i, ~ allocated s' i).
Proof.
  intros s'. assert (Hnf : forall o p, ~ free_block no_blocks o p) by (intros o p [n Hn]; set_solver).
  assert (Hz : forall i, ~ allocated s' i) by (intros i Hi; apply Hi, zget_empty).
  split_and!; [constructor|constructor|done].
  - constructor.
    + intros n o _ _. reflexivity.
    + set_solver.
    + intros o p H. by apply Hnf in H.
    + intros o p H. by apply Hnf in H.
    + intros. constructor.
    + set_solver.
    + intros i Hi. exfalso. apply Hi, zget_empty.
    + intros o p o' p' i H. by apply Hnf in H.
  - intros i. split; [set_solver|]. intros (o & p & H & _). by apply Hnf in H.
  - set_solver.
  - intros i Hi. by apply Hz in Hi.
  - done.
  - set_solver.
  - intros o p _ H. by apply Hnf in H.
Qed.

Section populate.
Context (ns : numa) (Hns : Numa.wf ns) (skips : Z -> bool).
Hypothesis skips_range : forall a, skips a = false -> 0 < a < 2 ^ 30.

Abbreviation kept l := (filter (fun a => skips a = false) l).

(** A population pass over pages that are not free yet makes exactly the
    pages it does not leave out free. *)
Lemma populate_spec l : forall s L F,
  inv s L F -> tidy ns L -> buddy_population_in_progress s = true ->
  (forall a, a ∈ l -> 0 <= a /\ a mod 4096 = 0) ->
  NoDup (kept l) -> (forall a, a ∈ kept l -> a / 4096 ∉ F) ->
  exists s' L',
    visit_all (fun a s => if skips a then Some s
                          else ServerApi.physical_memory_manager_page_frame_free ns a s) l s = Some s' /\
    inv s' L' (F ∪ list_to_set ((fun a => a / 4096) <$> kept l)) /\ tidy ns L' /\
    (forall i, allocated s' i -> allocated s i) /\ buddy_population_in_progress s' = true.
Proof.
  induction l as [|a l IH]; intros s L F Hinv Ht Hpop Hal Hnd Hfr.
  { exists s, L. cbn. by rewrite union_empty_r_L. }
  cbn [visit_all]. destruct (skips a) eqn:Es; cbn [mbind option_bind].
  - rewrite filter_cons_False in * by congruence. apply (IH s L F); try done. set_solver.
  - rewrite filter_cons_True in * by done. apply NoDup_cons in Hnd as [Hni Hnd].
    pose proof (skips_range a Es) as Ha. destruct (Hal a ltac:(set_solver)) as [_ Hm].
    assert (Hb : block_ok 0 a) by (split_and!; [lia..|done]).
    assert (Hfa : forall i, i ∈ frames 0 a <-> i = a / 4096).
    { intros i. rewrite elem_of_frames. change (2 ^ 0) with 1. lia. }
    change (ServerApi.physical_memory_manager_page_frame_free ns a s)
      with (buddy_insert_order ns a 0 s).
    destruct (insert_block ns s L F 0 a) as (s1 & L1 & -> & Hinv1 & Ht1 & Ha1 & _ & Hp1 & _);
      [done..| | |].
    { intros i ->%Hfa. apply Hfr. set_solver. }
    { unfold accepts. rewrite Hpop. cbn [orb]. rewrite !andb_true_iff, valid_phys_spec, order_aligned_spec by lia.
      split_and!; [done|done|lia|done|done]. }
    cbn [mbind option_bind].
    destruct (IH s1 L1 (F ∪ frames 0 a)) as (s' & L' & -> & Hinv' & Ht' & Hal' & Hp');
      [done|auto|congruence|set_solver|done| |].
    { intros x Hx [Hx'|Hx'%Hfa]%elem_of_union; [eapply Hfr; [|done]; set_solver|].
      apply Hni. apply list_elem_of_filter in Hx as Hx2. destruct Hx2 as [_ Hxl].
      destruct (Hal x ltac:(set_solver)) as [_ Hmx].
      assert (x = a) as <- by (pose proof (Z.div_mod x 4096); pose proof (Z.div_mod a 4096); lia). done. }
    exists s', L'. split_and!; [done| |done| |done].
    + replace (F ∪ list_to_set ((fun a => a / 4096) <$> a :: kept l)) with
        (F ∪ frames 0 a ∪ list_to_set ((fun a => a / 4096) <$> kept l)); [done|].
      apply set_eq. intros i. cbn. rewrite !elem_of_union, elem_of_singleton, Hfa. tauto.
    + intros i Hi%Hal'. by apply Ha1 in Hi as [? _].
Qed.

End populate.

(** ** Properties *)

(** The pages of the memory map that [physical_memory_manager_initialize]
    hands to the allocator. *)
Definition initial_pages (b : Boot.boot) : option (list Z) :=
  match Boot.pmm_get_multiboot_mmap b with
  | None => None
  | Some (base, len) =>
      l ← map_pages b (Boot.mmap_fuel len) base len 0;
      Some (filter (fun a => Boot.init_skips b a = false) l)
  end.

Definition frame_set (l : list Z) : gset Z := list_to_set ((fun a => a / 4096) <$> l).

Lemma init_skips_range b a : Boot.init_skips b a = false -> 0 < a < 2 ^ 30.
Proof.
  unfold Boot.init_skips. rewrite !orb_false_iff, Z.ltb_ge, Z.leb_gt. klia.
Qed.

Lemma inv_set_population f s L F : inv s L F -> inv (ServerApi.set_population f s) L F.
Proof. intros []. constructor; try done. by eapply lists_ok_ext. Qed.

Lemma size_frame_set l :
  (forall a, a ∈ l -> a mod 4096 = 0) -> NoDup l -> size (frame_set l) = length l.
Proof.
  intros Hal Hnd. unfold frame_set. rewrite size_list_to_set, length_fmap; [done|].
  induction Hnd as [|a l Hni Hnd IH]; cbn; constructor; [|apply IH; set_solver].
  intros (x & Hx & Hxl)%list_elem_of_fmap. apply Hni.
  assert (a = x) as ->; [|done]. pose proof (Hal a ltac:(set_solver)). pose proof (Hal x ltac:(set_solver)).
  pose proof (Z.div_mod x 4096). pose proof (Z.div_mod a 4096). lia.
Qed.

Lemma initialize_refines (ns : numa) (b : Boot.boot) (s : buddy) (l : list Z) :
  Numa.wf ns -> initial_pages b = Some l -> NoDup l ->
  exists s', ServerApi.physical_memory_manager_initialize ns b s = Some s' /\
    refines ns s' (mkSets (frame_set l) ∅) /\
    free_page_count (ac s') = Z.of_nat (length l).
Proof.
  intros Hns Hl Hnd. unfold initial_pages in Hl. unfold ServerApi.physical_memory_manager_initialize.
  destruct (Boot.pmm_get_multiboot_mmap b) as [[base len]|]; [|done].
  apply bind_Some in Hl as (pages & Hp & [= <-]).
  destruct (reset_inv ns s) as (Hinv & Ht & Hna). cbv zeta. set (s0 := ServerApi.set_population true _) in *.
  rewrite (mmap_loop_visits b _ _ base len 0 s0 pages Hp).
  destruct (populate_spec ns Hns (Boot.init_skips b) (init_skips_range b) pages s0 no_blocks ∅)
    as (s' & L' & -> & Hinv' & Ht' & Hal' & _); [done..| |done|set_solver|].
  { intros a Ha. by eapply map_pages_aligned. }
  cbn [mbind option_bind]. rewrite union_empty_l_L in Hinv'.
  eexists. split; [done|]. split; [split_and!|].
  - done.
  - intros i. cbn. split; [set_solver|]. intros Hi. exfalso. by apply (Hna i), Hal'.
  - exists L'. split; [|done]. by apply inv_set_population.
  - cbn. rewrite (i_count _ _ _ Hinv'). f_equal. apply size_frame_set; [|done].
    intros a [_ Ha]%list_elem_of_filter. by eapply map_pages_aligned.
Qed.

(** A machine with 128 KiB of memory at 1 MiB, the first 16 KiB of it kernel
    image, and no NUMA tables. *)
Definition example_map : list Z :=
  [20; 0; 0; 0;  0; 0; 16; 0; 0; 0; 0; 0;  0; 0; 2; 0; 0; 0; 0; 0;  1; 0; 0; 0].
Definition example_boot : Boot.boot :=
  Boot.mkBoot (Some (Boot.mkInfo 64 0 0 24 0x9000)) (image 0xC0009000 example_map) 0xC0104000.
Definition cold : buddy := mk (mkAcct 0 0 0xFFFFFFFF false 0 0 0) ∅ ∅ ∅ ∅ ∅ false 0 0.
Definition example_state : buddy :=
  default cold (ServerApi.physical_memory_manager_initialize numa_boot example_boot cold).
Definition example_sets : frame_sets :=
  mkSets (frame_set (default [] (initial_pages example_boot))) ∅.

Lemma example_refines : refines numa_boot example_state example_sets.
Proof.
  destruct (initialize_refines numa_boot example_boot cold (default [] (initial_pages example_boot)))
    as (s' & Hs & Href & _); [apply numa_boot_wf|by vm_compute|..].
  { apply (bool_decide_unpack _). by vm_compute. }
  unfold example_state. by rewrite Hs.
Qed.

(** C1: Whatever sequence of allocations and frees the callers issue, on
    whatever processors whose node is one of the nodes in use and with whatever
    addresses and orders, the buddy allocator always returns and behaves as the abstract allocator on sets of
    frames: an allocation is a naturally aligned run of frames nobody owns,
    it fails only when there is no such run, a free of anything but a wholly
    owned block is refused. *)
Theorem buddy_refines_spec (ns : numa) (cs : list call) : Numa.wf ns -> forall s a,
  refines ns s a -> Forall (call_ok ns) cs ->
  exists vs s' a', run ns cs s = Some (vs, s') /\ spec_run a cs vs a' /\ refines ns s' a'.
Proof.
  intros Hns. induction cs as [|c cs IH]; intros s a Hs Hcs.
  - exists [], s, a. by split_and!; [|constructor|].
  - apply Forall_cons in Hcs as [Hc Hcs].
    destruct (refines_call ns c s a) as (v & s1 & a1 & He & Hst & Hs1); [done..|].
    destruct (IH s1 a1 Hs1 Hcs) as (vs & s' & a' & Hr & Hsr & Hs').
    exists (v :: vs), s', a'. cbn. rewrite He. cbn. rewrite Hr. cbn.
    split_and!; [done| |done]. by econstructor.
Qed.

Lemma buddy_refines_spec_witness :
  Numa.wf numa_boot /\ refines numa_boot example_state example_sets /\
  exists vs s' a',
    run numa_boot [Alloc 0 1; Alloc 0 3; Free 0x104000 1; Free 0x104000 1; Free 3 0; Alloc 0 9] example_state
      = Some (vs, s') /\
    spec_run example_sets [Alloc 0 1; Alloc 0 3; Free 0x104000 1; Free 0x104000 1; Free 3 0; Alloc 0 9] vs a' /\
    refines numa_boot s' a'.
Proof.
  split; [apply numa_boot_wf|]. split; [apply example_refines|].
  apply buddy_refines_spec; [apply numa_boot_wf|apply example_refines|].
  repeat (apply Forall_cons; split; [cbn; lia|]). by apply Forall_nil.
Defined.

(** What holds under any NUMA mapping, tidy lists or not. *)
Definition owned_inv (s : buddy) (F A : gset Z) : Prop :=
  buddy_population_in_progress s = false /\ (forall i, i ∈ A <-> allocated s i) /\ exists L, inv s L F.

Lemma owned_disjoint s F A : owned_inv s F A -> F ## A.
Proof.
  intros (_ & HA & L & Hinv) i Hi Ha%HA. by apply (i_alloc _ _ _ Hinv i).
Qed.

(** C35: Under any NUMA mapping, also one that changed since the lists were
    filled, a call by a processor of a node in use always returns; it moves frames between free and owned and
    loses or invents none, what an allocation returns was free before and is
    owned after, and no word outside the frames that are free afterwards is
    written. *)
Theorem buddy_call_conserves (ns : numa) (c : call) (s : buddy) (F A : gset Z) :
  Numa.wf ns -> owned_inv s F A -> call_ok ns c ->
  exists v s' F' A', exec ns c s = Some (v, s') /\ owned_inv s' F' A' /\ F' ## A' /\
    F' ∪ A' = F ∪ A /\ mem_frame (fun i => i ∈ F') s s' /\
    (forall local o, c = Alloc local o -> v <> 0 ->
       block_ok o v /\ frames o v ⊆ F /\ frames o v ⊆ A').
Proof.
  intros Hns Hs Hc. pose proof Hs as (Hpop & HA & L & Hinv). pose proof (owned_disjoint _ _ _ Hs) as Hdis.
  destruct c as [local o|p o], Hc as [Hc1 Hc2]; cbn [exec].
  - pose proof (wf_nodes _ Hns) as Hnc. unfold NUMA_POLICY_MAX_NODES in Hnc.
    destruct (remove_order_spec ns local o s L F) as [(p & s' & L' & -> & [])|[-> _]];
      [done|done|unfold numa_policy_get_node_count in *; lia|done|..].
    + assert (Hs' : owned_inv s' (F ∖ frames o p) (A ∪ frames o p)).
      { split_and!; [congruence| |by exists L']. intros i. by rewrite elem_of_union, HA, tk_alloc. }
      eexists p, s', _, _. split; [done|]. split; [done|]. split_and!; [by eapply owned_disjoint| |done|].
      * apply set_eq. intros i. specialize (tk_free i). destruct (decide (i ∈ frames o p)); set_solver.
      * intros ? ? [= <- <-] _. split_and!; [done|done|set_solver].
    + exists 0, s, F, A. split_and!; done.
  - destruct (accepts s p o) eqn:Ea.
    + pose proof Ea as [Hb Hal]%(accepts_owned s p o L F); [|done..].
      destruct (insert_block ns s L F o p) as (s' & L' & -> & Hinv' & _ & Ha & Hm & Hp' & _); [done..| |done|].
      { intros i Hi Hf. by apply (i_alloc _ _ _ Hinv i), Hal. }
      assert (Hs' : owned_inv s' (F ∪ frames o p) (A ∖ frames o p)).
      { split_and!; [congruence| |by exists L']. intros i. by rewrite elem_of_difference, HA, Ha. }
      eexists 0, s', _, _. split; [done|]. split; [done|]. split_and!; [by eapply owned_disjoint| |done|done].
      assert (Hsub : frames o p ⊆ A) by (intros i Hi; by apply HA, Hal).
      apply set_eq. intros i. specialize (Hsub i). destruct (decide (i ∈ frames o p)); set_solver.
    + destruct (insert_refused ns s p o Ea) as [d ->]. exists 0, (reject d s), F, A.
      assert (owned_inv (reject d s) F A); [|by split_and!].
      split_and!; [done..|]. exists L. by apply inv_reject.
Qed.

Lemma buddy_call_conserves_witness :
  owned_inv example_state (afree example_sets) ∅ /\
  exists v s' F' A', exec numa_boot (Alloc 0 2) example_state = Some (v, s') /\ owned_inv s' F' A' /\
    F' ## A' /\ F' ∪ A' = afree example_sets ∪ ∅ /\ mem_frame (fun i => i ∈ F') example_state s' /\
    (forall local o, Alloc 0 2 = Alloc local o -> v <> 0 ->
       block_ok o v /\ frames o v ⊆ afree example_sets /\ frames o v ⊆ A').
Proof.
  assert (H : owned_inv example_state (afree example_sets) ∅).
  { destruct example_refines as (H1 & H2 & L & H3 & _). by split_and!; [..|exists L]. }
  split; [exact H|]. apply (buddy_call_conserves numa_boot (Alloc 0 2)); [apply numa_boot_wf|exact H|].
  cbn. lia.
Defined.

(** C36: An allocation by a processor of a node in use fails exactly when no
    naturally aligned run of free frames of the requested order exists: no block is
    hidden on another node or left uncoalesced. *)
Theorem buddy_alloc_fails_iff (ns : numa) (local o : Z) (s : buddy) (a : frame_sets) :
  Numa.wf ns -> refines ns s a -> 0 <= local < numa_policy_get_node_count ns -> 0 <= o ->
  exists v s', buddy_remove_order ns local o s = Some (v, s') /\
    (v = 0 <-> forall p, block_ok o p -> ~ (frames o p ⊆ afree a)).
Proof.
  intros Hns Hs Hl Ho.
  destruct (refines_alloc ns local o s a) as (v & s' & a' & He & Hst & _); [done..|].
  exists v, s'. split; [done|]. apply spec_alloc_inv in Hst as [(Hb & Hf & _)|(-> & _ & Hno)].
  - split; [destruct Hb as (_ & ? & _); lia|]. intros Hno. by destruct (Hno v).
  - by split.
Qed.

Lemma buddy_alloc_fails_iff_witness :
  exists v s', buddy_remove_order numa_boot 0 5 example_state = Some (v, s') /\
    (v = 0 <-> forall p, block_ok 5 p -> ~ (frames 5 p ⊆ afree example_sets)).
Proof.
  apply (buddy_alloc_fails_iff numa_boot 0 5); [apply numa_boot_wf|apply example_refines|cbn; lia|lia].
Defined.

(** Freeing what was just allocated restores the allocator: the same
    frames are free and owned as before, in the same number. *)
Theorem buddy_alloc_free_roundtrip (ns : numa) (local o : Z) (s : buddy) (a : frame_sets) :
  Numa.wf ns -> refines ns s a -> 0 <= local < numa_policy_get_node_count ns -> 0 <= o ->
  exists p s1 s2, buddy_remove_order ns local o s = Some (p, s1) /\
    (p <> 0 -> buddy_insert_order ns p o s1 = Some s2 /\ refines ns s2 a /\
               free_page_count (ac s2) = free_page_count (ac s)).
Proof.
  intros Hns Hs Hl Ho.
  destruct (refines_alloc ns local o s a) as (p & s1 & a1 & He & Hst & Hs1); [done..|].
  destruct (decide (p = 0)) as [->|Hp]; [by exists 0, s1, s1|].
  apply spec_alloc_inv in Hst as [(Hb & Hf & ->)|(-> & _)]; [|done].
  destruct (refines_free ns p o s1 _ Hns Hs1) as (v & s2 & a2 & He2 & Hst2 & Hs2).
  { destruct Hb as (_ & ? & _). split; lia. }
  cbn [exec] in He2. apply bind_Some in He2 as (s2' & He2 & [= <- <-]).
  exists p, s1, s2'. split; [done|]. intros _. split; [done|].
  assert (Ha2 : a2 = a).
  { apply spec_free_inv in Hst2 as [->|[_ Hno]]; cbn [afree aowned] in *.
    - destruct a as [F A]. cbn in *. destruct Hs as (_ & HA & L & Hinv & _).
      f_equal; apply set_eq; intros i; specialize (Hf i); rewrite ?elem_of_union, ?elem_of_difference, ?elem_of_union.
      + destruct (decide (i ∈ frames o p)); tauto.
      + split; [tauto|]. intros Hi. split; [by left|]. intros Hif.
        by apply (i_alloc _ _ _ Hinv i); [apply Hf|apply HA].
    - exfalso. apply Hno. split; [done|]. set_solver. }
  subst a2. split; [done|]. destruct Hs as (_ & _ & L & Hinv & _), Hs2 as (_ & _ & L2 & Hinv2 & _).
  by rewrite (i_count _ _ _ Hinv), (i_count _ _ _ Hinv2).
Qed.

Lemma buddy_alloc_free_roundtrip_witness :
  exists p s1 s2, buddy_remove_order numa_boot 0 1 example_state = Some (p, s1) /\
    (p <> 0 -> buddy_insert_order numa_boot p 1 s1 = Some s2 /\ refines numa_boot s2 example_sets /\
               free_page_count (ac s2) = free_page_count (ac example_state)).
Proof.
  apply (buddy_alloc_free_roundtrip numa_boot 0 1); [apply numa_boot_wf|apply example_refines|cbn; lia|lia].
Defined.

(** One processor, registered under APIC identifier 0. *)
Definition example_topology : Topology.topology :=
  Topology.cpu_topology_set_runtime_local_apic_id 0
    (Topology.cpu_topology_reset_discovery (Topology.mk false 0 false 0 [] 0 [] 0 [])).

(** The server allocator indexes its table of list heads with the node of
    the running processor unchecked.  A SRAT that places the processor in
    proximity domain 9 makes every allocation read past the table. *)
Theorem buddy_alloc_past_node_table :
  exists ns : numa,
    numa_policy_initialize example_topology (image 0x1000 srat_domain_9) (Some 0x1000) numa_boot = Some ns /\
    Numa.wf ns /\ fst (numa_policy_get_local_node ns example_topology) = 9 /\
    forall o s, 0 <= o <= 18 -> buddy_remove_order ns 9 o s = None.
Proof.
  eexists. split; [vm_compute; reflexivity|]. split; [|split; [reflexivity|]].
  - constructor; [cbn; klia|constructor|cbn; unfold NUMA_POLICY_MAX_RANGES; lia|]. apply (bool_decide_unpack _). by vm_compute.
  - intros o s Ho. unfold buddy_remove_order, buddy_is_valid_order, in_heads.
    destruct (Z.leb_spec o PMM_BUDDY_MAX_ORDER); [done|klia].
Qed.

(** The map of [len] bytes at [base] starts with an entry, not of free memory,
    that claims a size of 2^32 - 4 bytes. *)
Definition wrapping_entry (b : Boot.boot) (base len : Z) : Prop :=
  Boot.pmm_get_multiboot_mmap b = Some (base, len) /\ 4 <= len /\
  Boot.entry_size b (base ⊞ 0) = 2 ^ 32 - 4 /\ Boot.entry_type b (base ⊞ 0) <> 1.

(** A memory map whose first entry claims a size of 2^32 - 4 bytes makes
    the bounds check wrap and the offset stand still: the population loop
    never ends. *)
Theorem mmap_walk_stuck (b : Boot.boot) (s : buddy) (base len : Z) :
  wrapping_entry b base len ->
  forall (visit : Z -> buddy -> option buddy) fuel, Boot.mmap_loop b visit fuel base len 0 s = None.
Proof.
  intros (Hm & Hlen & Hsz & Hty) visit. induction fuel as [|fuel IH]; cbn; [done|].
  assert (Hn : Boot.pmm_next_mmap_entry b base len 0 = true).
  { unfold Boot.pmm_next_mmap_entry. rewrite Hsz. change ((0 ⊞ 4) ⊞ (2 ^ 32 - 4)) with 0.
    change (0 ⊞ 4) with 4. destruct (Z.ltb_spec len 4); [lia|]. cbn. destruct (Z.ltb_spec len 0); [lia|done]. }
  rewrite Hn. unfold Boot.visit_entry. destruct (Z.eqb_spec (Boot.entry_type b (base ⊞ 0)) Boot.MMAP_TYPE_AVAILABLE); [done|].
  cbn. rewrite Hsz. change (0 ⊞ (4 ⊞ (2 ^ 32 - 4))) with 0. apply IH.
Qed.

Lemma mmap_walk_stuck_witness :
  Boot.mmap_loop (Boot.mkBoot (Some (Boot.mkInfo 64 0 0 24 0x9000))
                    (image 0xC0009000 [0xFC; 0xFF; 0xFF; 0xFF]) 0xC0104000)
    (fun _ s => Some s) 1000 0xC0009000 24 0 cold = None.
Proof.
  apply mmap_walk_stuck. split; [reflexivity|]. split; [lia|]. split; [reflexivity|vm_compute; congruence].
Defined.
