(* ===== verification/BootMap.v ===== *)
(** * The memory map of the boot loader

    What [physical_memory_manager_initialize] of the server profile makes of a
    Multiboot memory map, against a reading of the map and of the list of modules
    that does not go through the code of pmm.c. *)

From S2P Require Import Prelude Cpu Pmm BuddyProofs BuddySpec.
Import Numa Buddy Boot.

(** ** What the boot loader says *)

(** A region of the map; [r_size] is the size of its entry without the size word. *)
Record region := mkRegion { r_size : Z; r_base : Z; r_length : Z; r_type : Z }.

(** The regions are written from address [a] on. *)
Fixpoint regions_at (mem : Z -> Z) (a : Z) (rs : list region) : Prop :=
  match rs with
  | [] => True
  | r :: rs =>
      le32 mem a = r_size r /\ le64 mem (a + 4) = r_base r /\ le64 mem (a + 12) = r_length r /\ le32 mem (a + 20) = r_type r /\
      regions_at mem (a + 4 + r_size r) rs
  end.

Fixpoint map_length (rs : list region) : Z := match rs with [] => 0 | r :: rs => 4 + r_size r + map_length rs end.

(** A module is its first and its past-the-end address; a descriptor takes 16 bytes. *)
Fixpoint modules_at (mem : Z -> Z) (a : Z) (ms : list (Z * Z)) : Prop :=
  match ms with
  | [] => True
  | (start, end_) :: ms => le32 mem a = start /\ le32 mem (a + 4) = end_ /\ modules_at mem (a + 16) ms
  end.

(** A region that is available does not begin inside the last page below 4 GiB. *)
Definition region_ok (r : region) : Prop :=
  20 <= r_size r /\ 0 <= r_base r < 2 ^ 64 /\ 0 <= r_length r < 2 ^ 64 /\ (r_type r = 1 -> r_base r <= 0xFFFFF000 \/ 2 ^ 32 <= r_base r).

(** Available regions do not share bytes. *)
Fixpoint regions_apart (rs : list region) : Prop :=
  match rs with
  | [] => True
  | r :: rs =>
      Forall (fun r' => r_type r = 1 -> r_type r' = 1 -> r_base r + r_length r <= r_base r' \/ r_base r' + r_length r' <= r_base r) rs /\
      regions_apart rs
  end.

(** The boot loader passed the regions [rs] and the modules [ms], in structures
    below 1 GiB. *)
Record passed (b : boot) (i : MultibootInfo) (rs : list region) (ms : list (Z * Z)) : Prop := {
  ps_info : multiboot_info b = Some i;
  ps_map : Z.testbit (flags i) 6 = true /\ 0 < mmap_addr i /\ 0 < mmap_length i /\ mmap_addr i + mmap_length i <= 2 ^ 30;
  ps_regions : mmap_length i = map_length rs /\ regions_at (bytes b) (0xC0000000 + mmap_addr i) rs;
  ps_region r : r ∈ rs -> region_ok r;
  ps_modules : if Z.testbit (flags i) 3
               then mods_count i = Z.of_nat (length ms) /\ 0 < mods_addr i /\ mods_addr i + 16 * mods_count i <= 2 ^ 30 /\
                    modules_at (bytes b) (0xC0000000 + mods_addr i) ms
               else ms = [];
  ps_module start end_ : (start, end_) ∈ ms -> in32 start /\ in32 end_;
  ps_kernel : 0xC0000000 <= global_kernel_end b < 2 ^ 32 }.

(** ** The frames that are free at the start *)

(** The page of frame [f] lies in a region, or meets a range of addresses. *)
Definition page_in (r : region) (f : Z) : Prop := r_base r <= 4096 * f /\ 4096 * f + 4096 <= r_base r + r_length r.
Definition page_meets (lo hi f : Z) : Prop := lo < 4096 * f + 4096 /\ 4096 * f < hi.

(** Frames of available memory above 1 MiB and below 64 MiB that hold no part of
    the kernel image, of a module or of the list of modules. *)
Definition initially_free (b : boot) (i : MultibootInfo) (rs : list region) (ms : list (Z * Z)) (f : Z) : Prop :=
  (exists r, r ∈ rs /\ r_type r = 1 /\ page_in r f) /\
  2 ^ 20 <= 4096 * f < 2 ^ 26 /\
  ~ page_meets (2 ^ 20) (global_kernel_end b - 0xC0000000) f /\
  (ms <> [] -> ~ page_meets (mods_addr i) (mods_addr i + 16 * Z.of_nat (length ms)) f) /\
  (forall start end_, (start, end_) ∈ ms -> start < end_ -> ~ page_meets start end_ f).

(** ** The walk over the map *)

Definition region_pages (r : region) : list Z :=
  if r_type r =? MMAP_TYPE_AVAILABLE then
    match pmm_compute_region_bounds (r_base r) (r_length r) with
    | Some (x, y) => pages_from (Z.to_nat ((y - x) / PAGE_SIZE)) x
    | None => []
    end
  else [].

Lemma map_length_pos rs : (forall r, r ∈ rs -> region_ok r) -> 24 * Z.of_nat (length rs) <= map_length rs.
Proof.
  induction rs as [|r rs IH]; intros Hr; [done|]. cbn [map_length length]. destruct (Hr r ltac:(by left)) as (? & _).
  specialize (IH ltac:(intros r' ?; apply Hr; by right)). lia.
Qed.

Lemma map_pages_regions b base len rs : forall off fuel,
  (forall r, r ∈ rs -> region_ok r) -> regions_at (bytes b) (base + off) rs -> 0 <= base -> 0 <= off -> off + map_length rs = len ->
  base + len <= 2 ^ 32 -> len < 2 ^ 31 -> (length rs < fuel)%nat ->
  map_pages b fuel base len off = Some (concat (region_pages <$> rs)).
Proof.
  induction rs as [|r rs IH]; intros off fuel Hr Hat Hb Ho Hl Hw Hlen Hf; (destruct fuel as [|fuel]; [cbn in Hf; lia|]); cbn [map_pages].
  - unfold pmm_next_mmap_entry. cbn [map_length] in Hl. rewrite add32_small, (proj2 (Z.ltb_lt len (off + 4))) by lia. done.
  - destruct Hat as (H1 & H2 & H3 & H4 & Hat). destruct (Hr r ltac:(by left)) as (Hs & _).
    pose proof (map_length_pos rs ltac:(intros r' ?; apply Hr; by right)) as Hp. cbn [map_length] in Hl.
    assert (He : base ⊞ off = base + off) by (apply add32_small; lia).
    assert (Hes : entry_size b (base + off) = r_size r) by done.
    unfold pmm_next_mmap_entry. rewrite He, Hes, (add32_small off 4), (proj2 (Z.ltb_ge len (off + 4))) by lia.
    rewrite (proj2 (Z.ltb_ge (r_size r) MMAP_MIN_ENTRY_SIZE)), add32_small, (proj2 (Z.ltb_ge len (off + 4 + r_size r))) by klia.
    rewrite (add32_small 4 (r_size r)), (add32_small off) by lia.
    rewrite (IH (off + (4 + r_size r)) fuel); [|intros r' ?; apply Hr; by right| |lia|lia|lia|lia|lia|cbn in Hf; lia].
    + cbn [mbind option_bind fmap list_fmap concat]. do 2 f_equal. unfold entry_pages, region_pages, entry_type, entry_base_addr, entry_length.
      by rewrite H2, H3, H4.
    + by replace (base + (off + (4 + r_size r))) with (base + off + 4 + r_size r) by lia.
Qed.

(** ** The pages of a region *)

Lemma align_down x : in32 x -> PAGE_ALIGN_DOWN x = 4096 * (x / 4096).
Proof.
  intros Hx. unfold PAGE_ALIGN_DOWN. change 0xFFFFF000 with (not32 (2 ^ 12 - 1)). rewrite land_not32_pow2 by lia. change (2 ^ 12) with 4096.
  pose proof (Z.div_mod x 4096). lia.
Qed.

Lemma pages_from_elem n : forall x a, 0 <= x -> x + 4096 * Z.of_nat n <= 2 ^ 32 ->
  a ∈ pages_from n x <-> exists k, 0 <= k < Z.of_nat n /\ a = x + 4096 * k.
Proof.
  induction n as [|n IH]; intros x a Hx Hn; cbn [pages_from].
  { rewrite elem_of_nil. split; [done|]. intros (k & ? & _). lia. }
  rewrite elem_of_cons. destruct n as [|n].
  - cbn [pages_from]. rewrite elem_of_nil. split; [intros [->|[]]; exists 0; lia|intros (k & ? & ->); left; lia].
  - unfold PAGE_SIZE at 1. rewrite add32_small by lia. rewrite IH by lia. split.
    + intros [->|(k & ? & ->)]; [exists 0; lia|exists (k + 1); lia].
    + intros (k & ? & ->). destruct (decide (k = 0)) as [->|]; [left; lia|right; exists (k - 1); lia].
Qed.

Lemma pages_from_nodup n : forall x, 0 <= x -> x + 4096 * Z.of_nat n <= 2 ^ 32 -> NoDup (pages_from n x).
Proof.
  induction n as [|n IH]; intros x Hx Hn; cbn [pages_from]; [constructor|]. destruct n as [|n]; [apply NoDup_singleton|].
  unfold PAGE_SIZE at 1. rewrite add32_small by lia. constructor; [|apply IH; lia].
  rewrite pages_from_elem by lia. intros (k & ? & ?). lia.
Qed.

(** The bounds the code computes, for the part of memory it uses. *)
Lemma bounds_of base len :
  0 <= base < 2 ^ 64 -> 0 <= len < 2 ^ 64 -> base <= 0xFFFFF000 \/ 2 ^ 32 <= base ->
  match pmm_compute_region_bounds base len with
  | Some (x, y) => 0 <= x /\ x mod 4096 = 0 /\ x < y < 2 ^ 32 /\ y mod 4096 = 0 /\
      forall f, 0 <= 4096 * f < 2 ^ 30 -> (x <= 4096 * f < y <-> base <= 4096 * f /\ 4096 * f + 4096 <= base + len)
  | None => forall f, 0 <= 4096 * f < 2 ^ 30 -> ~ (base <= 4096 * f /\ 4096 * f + 4096 <= base + len)
  end.
Proof.
  intros Hb Hl Hlast. unfold pmm_compute_region_bounds. rewrite !Z.shiftr_div_pow2 by lia.
  destruct (Z.eqb_spec (base / 2 ^ 32) 0) as [E|E]; cbn [negb].
  2:{ intros f Hf [H1 _]. apply E, Z.div_small. lia. }
  assert (Hb32 : base < 2 ^ 32) by (apply Z.div_small_iff in E; lia). rewrite (u32_small base) by lia. cbv zeta.
  set (n := if negb (len / 2 ^ 32 =? 0) then 0xFFFFFFFF ⊟ base else u32 len).
  set (e := if base ⊞ n <? base then 0xFFFFFFFF else base ⊞ n).
  assert (He : in32 e /\ (e = base + len \/ e = 0xFFFFFFFF /\ 0xFFFFFFFF <= base + len)).
  { unfold e, n. destruct (Z.eqb_spec (len / 2 ^ 32) 0) as [El|El]; cbn [negb].
    - assert (len < 2 ^ 32) by (apply Z.div_small_iff in El; lia). rewrite (u32_small len) by lia. unfold add32, u32.
      destruct (Z.lt_ge_cases (base + len) (2 ^ 32)).
      + rewrite Z.mod_small, (proj2 (Z.ltb_ge _ _)) by lia. lia.
      + assert ((base + len) mod 2 ^ 32 = base + len - 2 ^ 32) as -> by (symmetry; apply Z.mod_unique with (q := 1); lia).
        rewrite (proj2 (Z.ltb_lt _ _)) by lia. lia.
    - rewrite sub32_small, add32_small, (proj2 (Z.ltb_ge _ _)) by lia.
      assert (2 ^ 32 <= len) by (destruct (Z.lt_ge_cases len (2 ^ 32)); [exfalso; apply El, Z.div_small; lia|done]). lia. }
  destruct He as [He He']. clearbody e n. clear n.
  assert (Hup : PAGE_ALIGN_UP base = 4096 * ((base + 4095) / 4096)).
  { change (PAGE_ALIGN_UP base) with (PAGE_ALIGN_DOWN (base ⊞ 0xFFF)). rewrite add32_small, align_down by lia. done. }
  rewrite Hup, (align_down e He). pose proof (Z.div_mod (base + 4095) 4096 ltac:(lia)). pose proof (Z.mod_pos_bound (base + 4095) 4096 ltac:(lia)).
  pose proof (Z.div_mod e 4096 ltac:(lia)). pose proof (Z.mod_pos_bound e 4096 ltac:(lia)).
  destruct (Z.ltb_spec (4096 * ((base + 4095) / 4096)) (4096 * (e / 4096))).
  - split_and!; [lia|rewrite Z.mul_comm; apply Z.mod_mul; lia|lia|lia|rewrite Z.mul_comm; apply Z.mod_mul; lia|]. intros f Hf. lia.
  - intros f Hf. lia.
Qed.

Lemma region_pages_elem r f : region_ok r -> 0 <= 4096 * f < 2 ^ 30 -> 4096 * f ∈ region_pages r <-> r_type r = 1 /\ page_in r f.
Proof.
  intros (_ & Hb & Hl & Hlast) Hf. unfold region_pages, page_in, MMAP_TYPE_AVAILABLE. destruct (Z.eqb_spec (r_type r) 1) as [E|E].
  2:{ rewrite elem_of_nil. naive_solver. }
  pose proof (bounds_of (r_base r) (r_length r) Hb Hl (Hlast E)) as H. destruct (pmm_compute_region_bounds _ _) as [[x y]|].
  - destruct H as (Hx & Hxm & Hxy & Hym & H). rewrite <- (H f Hf). unfold PAGE_SIZE.
    pose proof (Z.div_mod x 4096 ltac:(lia)). pose proof (Z.div_mod y 4096 ltac:(lia)).
    assert (Hd : (y - x) / 4096 = y / 4096 - x / 4096) by (symmetry; apply Z.div_unique with (r := 0); lia). rewrite Hd.
    rewrite pages_from_elem by lia. split; [intros (k & ? & ?); lia|]. intros [_ ?]. exists (f - x / 4096). lia.
  - rewrite elem_of_nil. specialize (H f Hf). naive_solver.
Qed.

Lemma region_pages_nodup r : region_ok r -> NoDup (region_pages r).
Proof.
  intros (_ & Hb & Hl & Hlast). unfold region_pages, MMAP_TYPE_AVAILABLE. destruct (Z.eqb_spec (r_type r) 1) as [E|E]; [|constructor].
  pose proof (bounds_of (r_base r) (r_length r) Hb Hl (Hlast E)) as H. destruct (pmm_compute_region_bounds _ _) as [[x y]|]; [|constructor].
  destruct H as (Hx & Hxm & Hxy & Hym & _). apply pages_from_nodup; [lia|]. unfold PAGE_SIZE. pose proof (Z.div_pos (y - x) 4096). 
  pose proof (Z.mul_div_le (y - x) 4096). lia.
Qed.

Lemma region_pages_aligned r a : a ∈ region_pages r -> a mod 4096 = 0.
Proof.
  unfold region_pages. destruct (_ =? _); [|by intros ?%elem_of_nil]. destruct (pmm_compute_region_bounds _ _) as [[x y]|] eqn:E; [|by intros ?%elem_of_nil].
  apply region_bounds_start in E as ->. intros Hin. apply pages_from_aligned in Hin; [by destruct Hin|apply Z.land_nonneg; by right|apply page_align_mod, u32_range].
Qed.

Lemma map_elem rs a : a ∈ concat (region_pages <$> rs) <-> exists r, r ∈ rs /\ a ∈ region_pages r.
Proof.
  rewrite list_elem_of_In, in_concat. split.
  - intros (l & Hl & Ha). apply list_elem_of_In, list_elem_of_fmap in Hl as (r & -> & Hr). exists r. split; [done|by apply list_elem_of_In].
  - intros (r & Hr & Ha). exists (region_pages r). split; [|by apply list_elem_of_In]. apply list_elem_of_In, list_elem_of_fmap. by exists r.
Qed.

(** Pages below 1 GiB are listed once. *)
Lemma kept_nodup (keep : Z -> Prop) `{forall a, Decision (keep a)} rs :
  (forall a, keep a -> 0 <= a < 2 ^ 30) -> (forall r, r ∈ rs -> region_ok r) -> regions_apart rs ->
  NoDup (filter keep (concat (region_pages <$> rs))).
Proof.
  intros Hk. induction rs as [|r rs IH]; intros Hr Hap; cbn [fmap list_fmap concat]; [constructor|]. destruct Hap as [Hap Hap'].
  rewrite filter_app. apply NoDup_app. split; [apply NoDup_filter, region_pages_nodup, Hr; by left|].
  split; [|apply IH; [intros r' ?; apply Hr; by right|done]].
  intros a [Ha Hin]%list_elem_of_filter [_ Hin']%list_elem_of_filter. pose proof (Hk a Ha) as Hra.
  pose proof (Z.div_mod a 4096 ltac:(lia)) as Hd. rewrite (region_pages_aligned r a Hin), Z.add_0_r in Hd. rewrite Hd in Hin, Hin'.
  apply region_pages_elem in Hin as [Ht Hp]; [|apply Hr; by left|lia]. apply map_elem in Hin' as (r' & Hr' & Hin').
  apply region_pages_elem in Hin' as [Ht' Hp']; [|apply Hr; by right|lia].
  rewrite Forall_forall in Hap. destruct (Hap r' Hr' Ht Ht'); destruct Hp, Hp'; lia.
Qed.

(** ** What is left out *)

Lemma flag_test fl k : 0 <= k -> (Z.land fl (Z.shiftl 1 k) =? 0) = negb (Z.testbit fl k).
Proof. intros Hk. by rewrite <- byte_testbit, negb_involutive. Qed.

Lemma modules_lookup mem ms : forall a k start end_, modules_at mem a ms -> ms !! k = Some (start, end_) ->
  le32 mem (a + 16 * Z.of_nat k) = start /\ le32 mem (a + 16 * Z.of_nat k + 4) = end_.
Proof.
  induction ms as [|[s e] ms IH]; intros a k start end_ Hat Hk; [done|]. destruct Hat as (H1 & H2 & Hat). destruct k as [|k].
  - injection Hk as <- <-. by rewrite Z.add_0_r.
  - destruct (IH (a + 16) k start end_ Hat Hk) as [H3 H4]. replace (a + 16 * Z.of_nat (S k)) with (a + 16 + 16 * Z.of_nat k) by lia. done.
Qed.

Lemma overlaps_spec f lo hi : 0 <= 4096 * f < 2 ^ 30 -> overlaps (4096 * f) lo hi = true <-> page_meets lo hi f.
Proof. intros Hf. unfold overlaps, page_meets, PAGE_SIZE. rewrite add32_small, andb_true_iff, !Z.ltb_lt by lia. done. Qed.

Section boot.
  Context (b : boot) (i : MultibootInfo) (rs : list region) (ms : list (Z * Z)) (Hb : passed b i rs ms).

Lemma module_page f : 0 <= 4096 * f < 2 ^ 30 ->
  pmm_is_boot_module_page b (4096 * f) = false <->
  (ms <> [] -> ~ page_meets (mods_addr i) (mods_addr i + 16 * Z.of_nat (length ms)) f) /\
  (forall start end_, (start, end_) ∈ ms -> start < end_ -> ~ page_meets start end_ f).
Proof.
  intros Hf. unfold pmm_is_boot_module_page. rewrite (ps_info _ _ _ _ Hb), flag_test by lia. pose proof (ps_modules _ _ _ _ Hb) as Hm.
  destruct (Z.testbit (flags i) 3); cbn [negb].
  2:{ subst ms. split; [|done]. intros _. split; [done|]. intros ? ? ?%elem_of_nil. done. }
  destruct Hm as (Hc & Ha & Hw & Hat). rewrite (proj2 (Z.eqb_neq (mods_addr i) 0)), orb_false_r by lia.
  destruct (Z.eqb_spec (mods_count i) 0) as [E0|E0].
  { destruct ms; [|cbn in Hc; lia]. split; [|done]. intros _. split; [done|]. intros ? ? ?%elem_of_nil. done. }
  rewrite mul32_small, add32_small by lia. replace (mods_addr i + mods_count i * 16) with (mods_addr i + 16 * Z.of_nat (length ms)) by lia.
  destruct (overlaps (4096 * f) (mods_addr i) _) eqn:Eo.
  { split; [done|]. intros [H1 _]. exfalso. apply H1; [destruct ms; [cbn in Hc; lia|done]|]. by apply overlaps_spec in Eo. }
  rewrite <- not_true_iff_false, existsb_exists. apply not_true_iff_false in Eo. rewrite overlaps_spec in Eo by done.
  assert (Hk : forall k start end_, ms !! k = Some (start, end_) ->
    le32 (bytes b) (pmm_phys_to_virt (mods_addr i) ⊞ 16 * Z.of_nat k) = start /\ le32 (bytes b) (pmm_phys_to_virt (mods_addr i) ⊞ 16 * Z.of_nat k + 4) = end_).
  { intros k start end_ Hk. pose proof (lookup_lt_Some _ _ _ Hk). unfold pmm_phys_to_virt, KERNEL_VIRTUAL_BASE. rewrite (add32_small (mods_addr i)), !add32_small by lia.
    rewrite (Z.add_comm (mods_addr i)). by eapply modules_lookup. }
  split.
  - intros Hno. split; [done|]. intros start end_ Hin Hlt Hmeets. apply list_elem_of_lookup in Hin as [k Hkk]. destruct (Hk k start end_ Hkk) as [E1 E2].
    apply Hno. exists (Z.of_nat k). rewrite E1, E2, (proj2 (Z.leb_gt end_ start)) by lia. split; [|by apply overlaps_spec].
    apply list_elem_of_In, elem_of_seqZ. pose proof (lookup_lt_Some _ _ _ Hkk). lia.
  - intros [_ Hno] (k & Hin & Hov). apply list_elem_of_In, elem_of_seqZ in Hin.
    destruct (lookup_lt_is_Some_2 ms (Z.to_nat k)) as [[start end_] Hkk]; [lia|]. destruct (Hk (Z.to_nat k) start end_ Hkk) as [E1 E2].
    rewrite Z2Nat.id in E1, E2 by lia. rewrite E1, E2 in Hov. destruct (Z.leb_spec end_ start); [done|].
    apply (Hno start end_); [by eapply list_elem_of_lookup_2|lia|by apply overlaps_spec].
Qed.

Lemma kept_page f :
  init_skips b (4096 * f) = false <->
  2 ^ 20 <= 4096 * f < 2 ^ 26 /\ ~ page_meets (2 ^ 20) (global_kernel_end b - 0xC0000000) f /\
  (ms <> [] -> ~ page_meets (mods_addr i) (mods_addr i + 16 * Z.of_nat (length ms)) f) /\
  (forall start end_, (start, end_) ∈ ms -> start < end_ -> ~ page_meets start end_ f).
Proof.
  pose proof (ps_kernel _ _ _ _ Hb) as Hke. unfold init_skips, pmm_is_kernel_page, pmm_virt_to_phys, PMM_LOW_MEMORY_LIMIT, PMM_BOOT_MAP_LIMIT, PMM_MAX_PHYS_ADDR, KERNEL_VIRTUAL_BASE.
  rewrite sub32_small, !orb_false_iff, !Z.ltb_ge, !Z.leb_gt, andb_false_iff, Z.leb_gt, Z.ltb_ge by lia. split.
  - intros [[[[H1 H2] H3] H4] _]. rewrite (module_page f) in H3 by lia. split; [lia|]. split; [unfold page_meets; lia|done].
  - intros (H1 & H2 & H3). unfold page_meets in H2. split_and!; [lia|lia|by apply module_page; [lia|]|lia|lia].
Qed.

End boot.

(** ** Booting *)



(** A region that begins inside the last page below 4 GiB wraps when its start is
    rounded up: the code takes all memory for available. *)
Lemma last_page_wraps : pmm_compute_region_bounds 0xFFFFF800 0x700 = Some (0, 0xFFFFF000).
Proof. vm_compute. reflexivity. Qed.
