(* ===== verification/FreeListProofs.v ===== *)
(** * Correctness of the client profile's frame allocator

    The LIFO stacks of [Pmm.FreeList]: representation invariant, behaviour of
    push and pop on every branch, and the refinement to a set of free frames.
    Unlike the buddy allocator this profile trusts its callers: pushing a
    frame that is already free is not detected. *)

From S2P Require Import Prelude Cpu Pmm.
Import Numa FreeList.

(** A page-aligned frame the allocator can manage. *)
Definition frame_ok (p : Z) : Prop := 0 < p < 2 ^ 30 /\ p mod 4096 = 0.

Definition fl_next (s : freelist) (p : Z) : Z := zget (mem s) (pmm_phys_to_virt p).

(** The contents of the stacks, by node. *)
Abbreviation stacks := (Z -> list Z).

Definition fl_upd (L : stacks) (n : Z) (l : list Z) : stacks :=
  fun n' => if decide (n' = n) then l else L n'.

Record stacks_ok (s : freelist) (L : stacks) (F : gset Z) : Prop := {
  st_chain : forall n, 0 <= n < 8 -> chain (fl_next s) (zget (free_list_heads s) n) (L n);
  st_index : forall n p, p ∈ L n -> 0 <= n < 8;
  st_frame : forall n p, p ∈ L n -> frame_ok p;
  st_nodup : forall n, NoDup (L n);
  st_once : forall n n' p, p ∈ L n -> p ∈ L n' -> n = n';
  st_free : forall p, p ∈ F <-> exists n, p ∈ L n;
  st_count : free_page_count (ac s) = Z.of_nat (size F) }.

(** Frames are distinct multiples of the page size below 1 GiB. *)
Lemma stacks_bound s L F : stacks_ok s L F -> Z.of_nat (size F) < 2 ^ 18.
Proof.
  intros Hinv. pose proof (st_free _ _ _ Hinv) as Hf.
  assert (F ⊆ list_to_set ((fun i => 4096 * i) <$> seqZ 1 (2 ^ 18 - 1))) as Hs%subseteq_size.
  { intros p [n Hp]%Hf. apply (st_frame _ _ _ Hinv) in Hp as [Hr Hm].
    apply elem_of_list_to_set, list_elem_of_fmap. exists (p / 4096). rewrite elem_of_seqZ.
    pose proof (Z.div_mod p 4096). lia. }
  rewrite size_list_to_set in Hs.
  - rewrite length_fmap, length_seqZ in Hs. lia.
  - assert (Inj (=) (=) (fun i => 4096 * i)) by (intros x y; lia).
    apply NoDup_fmap_2; [done|apply NoDup_seqZ].
Qed.

(** Pushing a frame that is not free puts it on top of its node's stack. *)
Lemma freelist_push_spec ns s L F p :
  Numa.wf ns -> stacks_ok s L F -> frame_ok p -> p ∉ F ->
  let n := node_of ns p in
  exists s', freelist_push ns p s = Some s' /\ stacks_ok s' (fl_upd L n (p :: L n)) ({[p]} ∪ F) /\
    (forall q, 0 <= q < 2 ^ 30 -> q <> p -> fl_next s' q = fl_next s q).
Proof.
  intros Hns Hinv Hp Hni n. pose proof (node_of_range ns p Hns) as Hn. fold n in Hn.
  unfold freelist_push. fold n. destruct (Z.ltb_spec n NUMA_POLICY_MAX_NODES); [|klia].
  eexists. split; [done|]. match goal with |- stacks_ok ?x _ _ /\ _ => set (s' := x) end.
  assert (Hnxt : forall q, 0 <= q < 2 ^ 30 ->
            fl_next s' q = if decide (q = p) then zget (free_list_heads s) n else fl_next s q).
  { intros q Hq. unfold fl_next at 1. cbn. rewrite zget_insert. destruct Hp as [Hp _].
    destruct (decide (q = p)) as [->|Hne]; [by rewrite decide_True|].
    rewrite decide_False; [done|]. intros He. apply Hne. symmetry. by apply alias_inj; [lia..|]. }
  assert (Hno : forall n', p ∉ L n') by (intros n' Hin; apply Hni, (st_free _ _ _ Hinv); eauto).
  split; [constructor|].
  - intros n' Hn'. cbn [free_list_heads s']. rewrite zget_insert. unfold fl_upd.
    assert (Hext : chain (fl_next s') (zget (free_list_heads s) n') (L n')).
    { eapply chain_ext; [|by apply (st_chain _ _ _ Hinv)]. intros q Hq.
      pose proof (st_frame _ _ _ Hinv _ _ Hq) as [? _]. rewrite Hnxt by lia.
      rewrite decide_False; [done|]. intros ->. by apply (Hno n'). }
    destruct (decide (n' = n)) as [->|]; [|by rewrite decide_False by done].
    rewrite decide_True by done. destruct Hp as [Hp _]. cbn. split_and!; [done|lia|].
    rewrite Hnxt by lia. by rewrite decide_True.
  - intros n' q. unfold fl_upd. case_decide; [by subst|]. apply (st_index _ _ _ Hinv).
  - intros n' q. unfold fl_upd. case_decide; [|apply (st_frame _ _ _ Hinv)].
    intros [->|Hq]%elem_of_cons; [done|]. by apply (st_frame _ _ _ Hinv) in Hq.
  - intros n'. unfold fl_upd. case_decide; [|apply (st_nodup _ _ _ Hinv)].
    constructor; [apply Hno|apply (st_nodup _ _ _ Hinv)].
  - intros n1 n2 q. unfold fl_upd. pose proof (st_once _ _ _ Hinv n1 n2 q) as Ho.
    pose proof (Hno n1). pose proof (Hno n2). repeat case_decide; subst; set_solver.
  - intros q. rewrite elem_of_union, elem_of_singleton, (st_free _ _ _ Hinv). split.
    + intros [->|[n' Hq]].
      * exists n. unfold fl_upd. rewrite decide_True by done. set_solver.
      * exists n'. unfold fl_upd. case_decide; [subst; set_solver|done].
    + intros [n' Hq]. unfold fl_upd in Hq. case_decide; [|eauto].
      apply elem_of_cons in Hq as [->|Hq]; eauto.
  - cbn. rewrite free_count_watermarks. cbn. rewrite (st_count _ _ _ Hinv).
    rewrite size_union by set_solver. rewrite size_singleton, add32_small; [lia|].
    pose proof (stacks_bound _ _ _ Hinv). lia.
  - intros q Hq Hne. rewrite Hnxt by done. by rewrite decide_False.
Qed.

(** Taking the top of a non-empty stack. *)
Lemma unlink_head_spec s L F n :
  stacks_ok s L F -> 0 <= n < 8 -> zget (free_list_heads s) n <> 0 ->
  exists p l s', L n = p :: l /\ unlink_head n s = (p, s') /\
    stacks_ok s' (fl_upd L n l) (F ∖ {[p]}) /\ mem s' = mem s.
Proof.
  intros Hinv Hn Hh. pose proof (st_chain _ _ _ Hinv n Hn) as Hc.
  destruct (chain_head_nz _ _ _ Hh Hc) as (l & HL & Hc').
  set (p := zget (free_list_heads s) n) in *.
  exists p, l. eexists. split; [done|]. split; [done|].
  assert (Hsub : forall n' q, q ∈ fl_upd L n l n' -> q ∈ L n').
  { intros n' q. unfold fl_upd. case_decide; [subst; rewrite HL; set_solver|done]. }
  pose proof (st_nodup _ _ _ Hinv n) as Hnd. rewrite HL in Hnd. apply NoDup_cons in Hnd as [Hpl Hnd].
  split; [constructor|done].
  - intros n' Hn'. cbn [free_list_heads]. fold p. rewrite zget_insert. unfold fl_upd.
    destruct (decide (n' = n)) as [->|]; [by rewrite decide_True|].
    rewrite decide_False by done. by apply (st_chain _ _ _ Hinv).
  - intros n' q Hq%Hsub. by apply (st_index _ _ _ Hinv) in Hq.
  - intros n' q Hq%Hsub. by apply (st_frame _ _ _ Hinv) in Hq.
  - intros n'. unfold fl_upd. case_decide; [done|apply (st_nodup _ _ _ Hinv)].
  - intros n1 n2 q H1%Hsub H2%Hsub. by eapply (st_once _ _ _ Hinv).
  - intros q. rewrite elem_of_difference, elem_of_singleton, (st_free _ _ _ Hinv). split.
    + intros [[n' Hq] Hne]. exists n'. unfold fl_upd. case_decide; [subst|done]. rewrite HL in Hq. set_solver.
    + intros [n' Hq]. split; [eauto|]. intros ->. pose proof (Hsub _ _ Hq) as Hq'.
      assert (n' = n) as -> by (eapply (st_once _ _ _ Hinv); [done|rewrite HL; set_solver]).
      unfold fl_upd in Hq. rewrite decide_True in Hq by done. done.
  - cbn. rewrite free_count_watermarks. cbn. rewrite (st_count _ _ _ Hinv).
    assert (p ∈ F) as HpF by (apply (st_free _ _ _ Hinv); exists n; rewrite HL; set_solver).
    assert ({[p]} ⊆ F) as Hs by set_solver. pose proof (subseteq_size _ _ Hs) as Hsz.
    rewrite size_difference by done. rewrite size_singleton in *. pose proof (stacks_bound _ _ _ Hinv).
    rewrite sub32_small; lia.
Qed.

Lemma stacks_ok_hits s L F f :
  stacks_ok s L F -> (forall a, free_page_count (f a) = free_page_count a) ->
  stacks_ok (mk (f (ac s)) (mem s) (free_list_heads s)) L F.
Proof. intros [] Hf. constructor; try done. cbn. by rewrite Hf. Qed.

(** The fallback takes the first non-empty stack in node order. *)
Lemma pop_remote_spec s L F : stacks_ok s L F -> forall ts,
  (forall t, t ∈ ts -> 0 <= t < 8) ->
  (pop_remote ts s = (0, s) /\ (forall t, t ∈ ts -> L t = [])) \/
  (exists t p l s', t ∈ ts /\ L t = p :: l /\ pop_remote ts s = (p, s') /\
     stacks_ok s' (fl_upd L t l) (F ∖ {[p]}) /\ mem s' = mem s).
Proof.
  intros Hinv. induction ts as [|t ts IH]; intros Hts; cbn [pop_remote]; [left; set_solver|].
  pose proof (st_chain _ _ _ Hinv t (Hts t ltac:(set_solver))) as Hc.
  destruct (Z.eqb_spec (zget (free_list_heads s) t) 0) as [Hz|Hnz].
  - rewrite Hz in Hc. apply chain_head_0 in Hc.
    destruct IH as [[-> Hl]|(t' & p & l & s' & Ht' & H)]; [set_solver|left|right].
    + split; [done|]. intros t' [->|Ht']%elem_of_cons; [done|by apply Hl].
    + exists t', p, l, s'. split; [set_solver|done].
  - right. destruct (unlink_head_spec s L F t) as (p & l & s' & HL & -> & Hinv' & Hm);
      [done|apply Hts; set_solver|done|].
    eexists t, p, l, _. split; [set_solver|]. split; [done|]. split; [done|]. split; [|done].
    by apply stacks_ok_hits.
Qed.

Definition local_stack (local : Z) : Z := if NUMA_POLICY_MAX_NODES <=? local then 0 else local.

(** Pop answers from the local stack when it can, else from any other stack,
    and fails only when every stack is empty. *)
Lemma freelist_pop_spec s L F local :
  stacks_ok s L F -> 0 <= local ->
  (freelist_pop local s = (0, s) /\ F = ∅) \/
  (exists n p l s', L n = p :: l /\ freelist_pop local s = (p, s') /\
     stacks_ok s' (fl_upd L n l) (F ∖ {[p]}) /\ mem s' = mem s /\
     (L (local_stack local) <> [] -> n = local_stack local)).
Proof.
  intros Hinv Hl. unfold freelist_pop. fold (local_stack local).
  assert (Hn : 0 <= local_stack local < 8).
  { unfold local_stack. destruct (Z.leb_spec NUMA_POLICY_MAX_NODES local); klia. }
  pose proof (st_chain _ _ _ Hinv _ Hn) as Hc.
  destruct (Z.eqb_spec (zget (free_list_heads s) (local_stack local)) 0) as [Hz|Hnz].
  - rewrite Hz in Hc. apply chain_head_0 in Hc.
    destruct (pop_remote_spec s L F Hinv (seqZ 0 NUMA_POLICY_MAX_NODES))
      as [[-> Hall]|(t & p & l & s' & _ & HL & -> & Hinv' & Hm)].
    { intros t Ht%elem_of_seqZ. klia. }
    + left. split; [done|]. apply set_eq. intros p. split; [|set_solver].
      intros [n Hp]%(st_free _ _ _ Hinv). pose proof (st_index _ _ _ Hinv _ _ Hp).
      rewrite Hall in Hp; [set_solver|]. apply elem_of_seqZ. klia.
    + right. exists t, p, l, s'. by split_and!.
  - right. destruct (unlink_head_spec s L F (local_stack local)) as (p & l & s' & HL & -> & Hinv' & Hm);
      [done..|].
    eexists _, p, l, _. split_and!; [done|done|by apply stacks_ok_hits|done|done].
Qed.

(** ** Properties *)

(** [F] is the set of free frames of [s]. *)
Definition freelist_inv (s : freelist) (F : gset Z) : Prop := exists L, stacks_ok s L F.

(** The client allocator is a set of free frames: a pop from any
    processor returns a page-aligned free frame and removes it, it fails only
    when no frame is free on any node, it writes no memory, and the counter
    stays the number of free frames. *)
Theorem freelist_pop_correct (local : Z) (s : freelist) (F : gset Z) :
  freelist_inv s F -> 0 <= local ->
  exists p s', freelist_pop local s = (p, s') /\ mem s' = mem s /\
    ((p = 0 /\ F = ∅ /\ s' = s) \/
     (p ∈ F /\ frame_ok p /\ freelist_inv s' (F ∖ {[p]}) /\
      free_page_count (ac s') = free_page_count (ac s) - 1)).
Proof.
  intros [L Hinv] Hl.
  destruct (freelist_pop_spec s L F local) as [[-> ->]|(n & p & l & s' & HL & -> & Hinv' & Hm & _)];
    [done..| |].
  - exists 0, s. split_and!; [done..|]. by left.
  - assert (Hp : p ∈ L n) by (rewrite HL; set_solver).
    assert (HF : p ∈ F) by (apply (st_free _ _ _ Hinv); eauto).
    exists p, s'. split_and!; [done..|]. right.
    split_and!; [done|by eapply (st_frame _ _ _ Hinv)|by eexists|].
    rewrite (st_count _ _ _ Hinv), (st_count _ _ _ Hinv').
    assert ({[p]} ⊆ F) as Hs by set_solver. pose proof (subseteq_size _ _ Hs) as Hsz.
    rewrite size_difference by done. rewrite size_singleton in *. lia.
Qed.

(** A stack of two frames on node 0. *)
Definition two_frames : freelist :=
  mk (mkAcct 2 2 0 true 0 0 0) {[0xC0005000 := 0x7000]} {[0 := 0x5000]}.

Lemma two_frames_inv : freelist_inv two_frames {[0x5000; 0x7000]}.
Proof.
  exists (fun n => if decide (n = 0) then [0x5000; 0x7000] else []). constructor.
  - intros n Hn. destruct (decide (n = 0)) as [->|]; [by vm_compute|].
    cbn. unfold zget. by rewrite lookup_singleton_ne.
  - intros n p. case_decide; [lia|set_solver].
  - intros n p. case_decide; [|set_solver]. intros Hp. unfold frame_ok.
    assert (p = 0x5000 \/ p = 0x7000) as [->| ->] by set_solver; split; done || lia.
  - intros n. case_decide; [|constructor]. apply (bool_decide_unpack _). by vm_compute.
  - intros n n' p. repeat case_decide; set_solver.
  - intros p. split; [|intros [n Hp]; case_decide; set_solver].
    intros Hp. exists 0. rewrite decide_True by done. set_solver.
  - by vm_compute.
Qed.

Lemma freelist_pop_correct_witness :
  exists p s', freelist_pop 3 two_frames = (p, s') /\ mem s' = mem two_frames /\
    ((p = 0 /\ ({[0x5000; 0x7000]} : gset Z) = ∅ /\ s' = two_frames) \/
     (p ∈ ({[0x5000; 0x7000]} : gset Z) /\ frame_ok p /\ freelist_inv s' ({[0x5000; 0x7000]} ∖ {[p]}) /\
      free_page_count (ac s') = free_page_count (ac two_frames) - 1)).
Proof. apply freelist_pop_correct; [apply two_frames_inv|lia]. Defined.

(** Push then pop on the processor of the frame's own node returns the
    frame just pushed and restores the stacks: last in, first out.  The push
    writes no frame but the one it is given. *)
Theorem freelist_push_pop (ns : numa) (s : freelist) (F : gset Z) (p : Z) :
  Numa.wf ns -> freelist_inv s F -> frame_ok p -> p ∉ F ->
  exists s1 s2, freelist_push ns p s = Some s1 /\ freelist_inv s1 ({[p]} ∪ F) /\
    (forall q, 0 <= q < 2 ^ 30 -> q <> p -> fl_next s1 q = fl_next s q) /\
    freelist_pop (node_of ns p) s1 = (p, s2) /\ freelist_inv s2 F /\
    (forall n, zget (free_list_heads s2) n = zget (free_list_heads s) n).
Proof.
  intros Hns [L Hinv] Hp Hni. pose proof (node_of_range ns p Hns) as Hn.
  destruct (freelist_push_spec ns s L F p) as (s1 & Hpush & Hinv1 & Hmem); [done..|].
  destruct (freelist_pop_spec s1 _ _ (node_of ns p) Hinv1) as [[_ He]|(n & q & l & s2 & HL & Hpop & Hinv2 & _ & Hloc)];
    [lia|set_solver|].
  assert (Hls : local_stack (node_of ns p) = node_of ns p).
  { unfold local_stack. destruct (Z.leb_spec NUMA_POLICY_MAX_NODES (node_of ns p)); klia. }
  rewrite Hls in Hloc. unfold fl_upd in Hloc, HL. rewrite decide_True in Hloc by done.
  rewrite Hloc, decide_True in HL by done. injection HL as <- <-.
  exists s1, s2. split_and!; [done|by eexists|done|done| |].
  - eexists. replace (({[p]} ∪ F) ∖ {[p]}) with F in Hinv2 by set_solver. done.
  - unfold freelist_push in Hpush. destruct (_ <? _); [|done]. injection Hpush as <-.
    unfold freelist_pop in Hpop. fold (local_stack (node_of ns p)) in Hpop. rewrite Hls in Hpop.
    cbn in Hpop. rewrite !zget_insert_eq in Hpop. destruct Hp as [Hp _].
    destruct (Z.eqb_spec p 0); [lia|]. injection Hpop as <-. intros m. cbn.
    rewrite !zget_insert. by repeat case_decide; subst.
Qed.

Definition example_list : freelist := mk (mkAcct 0 0 0xFFFFFFFF false 0 0 0) ∅ ∅.

Lemma example_list_inv : freelist_inv example_list ∅.
Proof.
  exists (fun _ => []). constructor; try set_solver; try done. intros n. constructor.
Qed.

Lemma freelist_push_pop_witness :
  exists s1 s2, freelist_push numa_boot 0x5000 example_list = Some s1 /\
    freelist_inv s1 ({[0x5000]} ∪ ∅) /\
    (forall q, 0 <= q < 2 ^ 30 -> q <> 0x5000 -> fl_next s1 q = fl_next example_list q) /\
    freelist_pop (node_of numa_boot 0x5000) s1 = (0x5000, s2) /\ freelist_inv s2 ∅ /\
    (forall n, zget (free_list_heads s2) n = zget (free_list_heads example_list) n).
Proof.
  apply (freelist_push_pop numa_boot example_list ∅ 0x5000);
    [apply numa_boot_wf|apply example_list_inv|split; [lia|done]|set_solver].
Defined.
