(* ===== verification/FrameAlloc.v ===== *)
(** * The frame allocator interface

    What the rest of the kernel relies on when it asks pmm.c for a frame, as
    a type class.  Both profiles implement it: the server's buddy allocator
    and the client's free list. *)

From S2P Require Import Prelude Cpu Pmm BuddyProofs BuddySpec FreeListProofs.

(** [a'] agrees with [a] on every word of memory outside the frames [F]. *)
Definition agrees_outside (F : gset Z) (m m' : zmap) : Prop :=
  forall q, 0 <= q < 2 ^ 30 -> q / 4096 ∉ F ->
    zget m' (pmm_phys_to_virt q) = zget m (pmm_phys_to_virt q).

Definition agrees_on (F : gset Z) (m m' : zmap) : Prop :=
  forall q, 0 <= q < 2 ^ 30 -> q / 4096 ∈ F ->
    zget m' (pmm_phys_to_virt q) = zget m (pmm_phys_to_virt q).

(** [F] is the set of free frames and [O] a set of frames held by callers.
    The allocator threads its lists through memory, so its state contains the
    memory; callers may write any frame they hold. *)
Class FrameAllocator (A : Type) := {
  fa_mem : A -> zmap;
  fa_set_mem : zmap -> A -> A;
  page_frame_allocate_order : Z -> A -> option (Z * A);
  page_frame_free : Z -> A -> option A;
  page_frame_free_order : Z -> Z -> A -> option A;
  fa_inv : A -> gset Z -> gset Z -> Prop;
  fa_disjoint a F O : fa_inv a F O -> F ## O;
  fa_range a F O i : fa_inv a F O -> i ∈ F ∪ O -> 0 < i < 2 ^ 18;
  fa_set_mem_mem m a : fa_mem (fa_set_mem m a) = m;
  fa_set_mem_set m m' a : fa_set_mem m (fa_set_mem m' a) = fa_set_mem m a;
  fa_set_mem_id a : fa_set_mem (fa_mem a) a = a;
  fa_write a F O m :
    fa_inv a F O -> agrees_on F (fa_mem a) m -> fa_inv (fa_set_mem m a) F O;
  fa_allocate a F O o :
    fa_inv a F O -> 0 <= o ->
    exists p a', page_frame_allocate_order o a = Some (p, a') /\
      ((p = 0 /\ fa_inv a' F O /\ fa_mem a' = fa_mem a) \/
       (block_ok o p /\ (frames o p ⊆ F) /\
        fa_inv a' (F ∖ frames o p) (O ∪ frames o p) /\
        agrees_outside (F ∖ frames o p) (fa_mem a) (fa_mem a')));
  fa_free a F O p :
    fa_inv a F O -> block_ok 0 p -> p / 4096 ∈ O ->
    exists a', page_frame_free p a = Some a' /\
      fa_inv a' ({[p / 4096]} ∪ F) (O ∖ {[p / 4096]}) /\
      agrees_outside ({[p / 4096]} ∪ F) (fa_mem a) (fa_mem a');
  fa_exhausted a F O a' : fa_inv a F O -> page_frame_allocate_order 0 a = Some (0, a') -> F = ∅ }.

Definition page_frame_allocate {A} `{FrameAllocator A} (a : A) : option (Z * A) :=
  page_frame_allocate_order 0 a.

Lemma frames_0 p : frames 0 p = {[p / 4096]}.
Proof.
  apply set_eq. intros i. rewrite elem_of_frames, elem_of_singleton. change (2 ^ 0) with 1. lia.
Qed.

(** ** The server profile *)

Section server.
Import Buddy.
Context (ns : Numa.numa) (local : Z) (Hns : Numa.wf ns)
  (Hlocal : 0 <= local < Numa.numa_policy_get_node_count ns).

Definition buddy_set_mem (m : zmap) (s : buddy) : buddy :=
  mk (ac s) m (buddy_free_list_heads s) (buddy_page_is_free s) (buddy_page_order s)
     (buddy_page_allocated s) (buddy_population_in_progress s) (buddy_rejected_free_count s)
     (buddy_double_free_count s).

(** The frames are free or held by callers, and every list is one of a node
    that the running processor looks through. *)
Definition server_inv (s : buddy) (F A : gset Z) : Prop :=
  buddy_population_in_progress s = false /\ (forall i, i ∈ A <-> allocated s i) /\ exists L, inv s L F /\ tidy ns L.

Lemma server_disjoint s F A : server_inv s F A -> F ## A.
Proof. intros (? & ? & L & ? & _). apply (owned_disjoint s). split_and!; eauto. Qed.

Lemma buddy_write s F A m :
  server_inv s F A -> agrees_on F (mem s) m -> server_inv (buddy_set_mem m s) F A.
Proof.
  intros (Hp & HA & L & Hinv & Ht) Hag. split_and!; [done..|]. exists L. split; [|done].
  pose proof (i_lists _ _ _ Hinv) as Hok. destruct Hinv. constructor; try done.
  destruct Hok. constructor; try done.
  intros n o Hn Ho. eapply chain_ext; [|by apply lo_chain]. intros q Hq.
  assert (Hf : free_block L o q) by (by exists n). pose proof (lo_block _ _ Hf) as (? & ? & _).
  apply Hag; [lia|]. apply i_free. exists o, q. split; [done|]. apply base_in_frames. lia.
Qed.

Lemma owned_range s F A i : server_inv s F A -> i ∈ F ∪ A -> 0 < i < 2 ^ 18.
Proof.
  intros (_ & HA & L & Hinv & _) [Hi|Hi]%elem_of_union.
  - apply (i_free _ _ _ Hinv) in Hi. by eapply covered_range; [apply Hinv|].
  - apply HA in Hi. by apply (i_range _ _ _ Hinv).
Qed.

Lemma server_allocate s F A o :
  server_inv s F A -> 0 <= o ->
  exists p s', ServerApi.physical_memory_manager_page_frame_allocate_order ns local o s = Some (p, s') /\
    ((p = 0 /\ server_inv s' F A /\ mem s' = mem s) \/
     (block_ok o p /\ (frames o p ⊆ F) /\ server_inv s' (F ∖ frames o p) (A ∪ frames o p) /\
      agrees_outside (F ∖ frames o p) (mem s) (mem s'))).
Proof.
  intros Hs Ho. pose proof Hs as (Hpop & HA & L & Hinv & Ht).
  pose proof (Numa.wf_nodes _ Hns) as Hnc. unfold Numa.NUMA_POLICY_MAX_NODES in Hnc.
  destruct (remove_order_spec ns local o s L F) as [(p & s' & L' & He & [])|[He _]];
    [done|done|unfold Numa.numa_policy_get_node_count in *; lia|done|..].
  - exists p, s'. split; [done|]. right. split_and!; [done|done| |done].
    split_and!; [congruence| |by eauto]. intros i. by rewrite elem_of_union, HA, tk_alloc.
  - exists 0, s. split; [done|]. by left.
Qed.

Lemma server_free s F A p :
  server_inv s F A -> block_ok 0 p -> p / 4096 ∈ A ->
  exists s', ServerApi.physical_memory_manager_page_frame_free ns p s = Some s' /\
    server_inv s' ({[p / 4096]} ∪ F) (A ∖ {[p / 4096]}) /\
    agrees_outside ({[p / 4096]} ∪ F) (mem s) (mem s').
Proof.
  intros Hs Hb Hi. pose proof Hs as (Hpop & HA & L & Hinv & Ht).
  assert (Hal : forall i, i ∈ frames 0 p -> allocated s i).
  { intros i. rewrite frames_0, elem_of_singleton. intros ->. by apply HA. }
  destruct (insert_block ns s L F 0 p) as (s' & L' & He & Hinv' & Ht' & Ha & Hm & Hp' & _);
    [done..| | |].
  { intros i Hi' Hf. by apply (i_alloc _ _ _ Hinv i), Hal. }
  { apply (accepts_owned s p 0 L F); try done. destruct Hb as (_ & ? & _). lia. }
  rewrite frames_0 in *. rewrite union_comm_L in Hinv', Hm.
  exists s'. split_and!; [done| |done]. split_and!; [congruence| |by eauto].
  intros i. by rewrite elem_of_difference, HA, Ha.
Qed.

Lemma server_exhausted s F A s' :
  server_inv s F A -> ServerApi.physical_memory_manager_page_frame_allocate_order ns local 0 s = Some (0, s') -> F = ∅.
Proof.
  intros (Hp & HA & L & Hinv & Ht) He. assert (Hr : refines ns s (mkSets F A)) by (split_and!; eauto).
  destruct (refines_alloc ns local 0 s _ Hns Hr) as (v & s1 & a' & E & Hst & _); [by split|].
  cbn [exec] in E. change (buddy_remove_order ns local 0 s = Some (0, s')) in He. assert (v = 0) as -> by congruence. apply spec_alloc_inv in Hst as [(Hb & _)|(_ & _ & Hno)]; [destruct Hb as (_ & ? & _); lia|].
  apply set_eq. intros i. split; [|set_solver]. intros Hi. exfalso. pose proof (owned_range s F A i ltac:(by split_and!; eauto) ltac:(set_solver)) as Hr'.
  apply (Hno (4096 * i)); [split_and!; try lia; change (block_bytes 0) with 4096; rewrite Z.mul_comm; by apply Z.mod_mul|].
  rewrite frames_0, Z.mul_comm, Z.div_mul by lia. cbn. set_solver.
Qed.

#[refine] Instance server_frames : FrameAllocator buddy := {|
  fa_mem := mem;
  fa_set_mem := buddy_set_mem;
  page_frame_allocate_order :=
    ServerApi.physical_memory_manager_page_frame_allocate_order ns local;
  page_frame_free := ServerApi.physical_memory_manager_page_frame_free ns;
  page_frame_free_order := ServerApi.physical_memory_manager_page_frame_free_order ns;
  fa_inv := server_inv |}.
Proof.
  - apply server_disjoint.
  - intros. by eapply owned_range.
  - done.
  - done.
  - by intros [].
  - intros. by apply buddy_write.
  - intros. by apply server_allocate.
  - intros. by apply server_free.
  - intros. by eapply server_exhausted.
Defined.
End server.

(** ** The client profile *)

Section client.
Import FreeList.
Context (ns : Numa.numa) (local : Z) (Hns : Numa.wf ns) (Hlocal : 0 <= local).

Definition freelist_set_mem (m : zmap) (s : freelist) : freelist :=
  mk (ac s) m (free_list_heads s).

(** The stacks hold exactly the addresses of the frames of [F]; the profile
    does not record what its callers hold. *)
Definition client_inv (s : freelist) (F O : gset Z) : Prop :=
  (exists L G, stacks_ok s L G /\ forall p, p ∈ G <-> p mod 4096 = 0 /\ p / 4096 ∈ F) /\
  F ## O /\ forall i, i ∈ O -> 0 < i < 2 ^ 18.

Lemma client_range s F O i : client_inv s F O -> i ∈ F ∪ O -> 0 < i < 2 ^ 18.
Proof.
  intros ((L & G & Hok & HG) & _ & HO) [Hi|Hi]%elem_of_union; [|by apply HO].
  assert (4096 * i ∈ G) as [n Hn]%(st_free _ _ _ Hok).
  { apply HG. rewrite Z.mul_comm, Z.div_mul by lia. split; [by apply Z.mod_mul|done]. }
  apply (st_frame _ _ _ Hok) in Hn as [Hr _]. lia.
Qed.

Lemma client_write s F O m :
  client_inv s F O -> agrees_on F (mem s) m -> client_inv (freelist_set_mem m s) F O.
Proof.
  intros ((L & G & Hok & HG) & Hd & HO) Hag. split_and!; [|done..]. exists L, G. split; [|done].
  pose proof Hok as []. constructor; try done. intros n Hn.
  eapply chain_ext; [|by apply st_chain]. intros q Hq.
  pose proof (st_frame _ _ Hq) as [? _]. apply Hag; [lia|]. apply HG, st_free. eauto.
Qed.

(** A frame is its address and back. *)
Lemma frame_ok_block p : frame_ok p -> block_ok 0 p.
Proof. intros [Hr Hm]. split_and!; try lia. done. Qed.

Lemma same_frame p q : p mod 4096 = 0 -> q mod 4096 = 0 -> p / 4096 = q / 4096 -> p = q.
Proof. intros Hp Hq He. pose proof (Z.div_mod p 4096). pose proof (Z.div_mod q 4096). lia. Qed.

Lemma client_allocate s F O o :
  client_inv s F O -> 0 <= o ->
  exists p s', Some (ClientApi.physical_memory_manager_page_frame_allocate_order local o s) = Some (p, s') /\
    ((p = 0 /\ client_inv s' F O /\ mem s' = mem s) \/
     (block_ok o p /\ (frames o p ⊆ F) /\ client_inv s' (F ∖ frames o p) (O ∪ frames o p) /\
      agrees_outside (F ∖ frames o p) (mem s) (mem s'))).
Proof.
  intros Hs Ho. unfold ClientApi.physical_memory_manager_page_frame_allocate_order.
  destruct (Z.eqb_spec o 0) as [->|]; cbn [negb]; [|exists 0, s; split; [done|by left]].
  pose proof Hs as ((L & G & Hok & HG) & Hd & HO).
  destruct (freelist_pop_spec s L G local) as [[-> _]|(n & p & l & s' & HL & -> & Hok' & Hm & _)]; [done..| |].
  { exists 0, s. split; [done|by left]. }
  exists p, s'. split; [done|]. right. assert (Hp : p ∈ L n) by (rewrite HL; set_solver).
  pose proof (st_frame _ _ _ Hok _ _ Hp) as Hfp.
  assert (HpF : p / 4096 ∈ F) by (apply HG, (st_free _ _ _ Hok); eauto).
  pose proof (frame_ok_block _ Hfp) as Hb. destruct Hfp as [Hr Hpm].
  rewrite frames_0. split_and!; [done|set_solver| |by rewrite Hm].
  split_and!; [|set_solver|].
  - eexists _, _. split; [done|]. intros q.
    rewrite elem_of_difference, elem_of_singleton, HG, elem_of_difference, elem_of_singleton.
    split; [|naive_solver]. intros [[Hq1 Hq2] Hne]. split_and!; try done. intros He. by apply Hne, same_frame.
  - intros i [Hi|Hi%elem_of_singleton]%elem_of_union; [by apply HO|]. subst.
    apply (client_range s F O); [done|]. set_solver.
Qed.

Lemma client_free s F O p :
  client_inv s F O -> block_ok 0 p -> p / 4096 ∈ O ->
  exists s', ClientApi.physical_memory_manager_page_frame_free ns p s = Some s' /\
    client_inv s' ({[p / 4096]} ∪ F) (O ∖ {[p / 4096]}) /\
    agrees_outside ({[p / 4096]} ∪ F) (mem s) (mem s').
Proof.
  intros ((L & G & Hok & HG) & Hd & HO) Hb HiO. pose proof Hb as (_ & Hr & Hm).
  change (block_bytes 0) with 4096 in Hm.
  destruct (freelist_push_spec ns s L G p) as (s' & He & Hok' & Hmem); [done|done|by split| |].
  { intros [_ Hf]%HG. set_solver. }
  exists s'. split; [done|]. split.
  - split_and!; [|set_solver|set_solver]. eexists _, _. split; [done|]. intros q.
    rewrite !elem_of_union, !elem_of_singleton, HG. split; [naive_solver|].
    intros [Hq [He'|Hq']]; [left; by apply same_frame|by right].
  - intros q Hq Hnq. apply Hmem; [done|]. intros ->. set_solver.
Qed.

Lemma client_exhausted s F O s' :
  client_inv s F O -> Some (ClientApi.physical_memory_manager_page_frame_allocate_order local 0 s) = Some (0, s') -> F = ∅.
Proof.
  intros ((L & G & Hok & HG) & _) [= He]. unfold ClientApi.physical_memory_manager_page_frame_allocate_order in He. cbn in He.
  destruct (freelist_pop_spec s L G local) as [[_ ->]|(n & p & l & s1 & HL & E & _)]; [done..| |].
  - apply set_eq. intros i. split; [|set_solver]. intros Hi. exfalso. apply (not_elem_of_empty (C := gset Z) (4096 * i)), HG.
    rewrite Z.mul_comm, Z.div_mul by lia. split; [by apply Z.mod_mul|done].
  - rewrite E in He. injection He as -> ->. assert (H0 : 0 ∈ L n) by (rewrite HL; set_solver).
    apply (st_frame _ _ _ Hok) in H0 as [? _]. lia.
Qed.

#[refine] Instance client_frames : FrameAllocator freelist := {|
  fa_mem := mem;
  fa_set_mem := freelist_set_mem;
  page_frame_allocate_order o s :=
    Some (ClientApi.physical_memory_manager_page_frame_allocate_order local o s);
  page_frame_free := ClientApi.physical_memory_manager_page_frame_free ns;
  page_frame_free_order := ClientApi.physical_memory_manager_page_frame_free_order ns;
  fa_inv := client_inv |}.
Proof.
  - by intros a F O (_ & Hd & _).
  - intros. by eapply client_range.
  - done.
  - done.
  - by intros [].
  - intros. by apply client_write.
  - intros. by apply client_allocate.
  - intros. by apply client_free.
  - intros. by eapply client_exhausted.
Defined.
End client.
