(* ===== verification/Paging.v ===== *)
(** * Runtime paging

    Models kernel/arch/i386/cpu/paging.c: the two-level page tables of the
    higher-half kernel.  Page tables live in frames of the physical memory
    manager, in the same memory it threads its free lists through; the page
    directory is a static object of the kernel image.  TLB invalidation has no
    effect on this state and is left out. *)

From S2P Require Import Prelude Cpu Pmm BuddyProofs FrameAlloc.
Import Boot.

(** ** Entries

    [PageDirectoryEntry_t] and [PageTableEntry_t] are packed bit fields of 32
    bits; the records list the fields in order. *)

Record PageDirectoryEntry := mkPde {
  pde_present : Z;
  pde_read_write : Z;
  pde_user_supervisor : Z;
  pde_write_through : Z;
  pde_cache_disable : Z;
  pde_accessed : Z;
  pde_reserved_zero : Z;
  pde_page_size : Z;
  pde_ignored : Z;
  pde_available : Z;
  pde_page_table_base : Z }.

Record PageTableEntry := mkPte {
  pte_present : Z;
  pte_read_write : Z;
  pte_user_supervisor : Z;
  pte_write_through : Z;
  pte_cache_disable : Z;
  pte_accessed : Z;
  pte_dirty : Z;
  pte_page_attribute_table : Z;
  pte_global : Z;
  pte_available : Z;
  pte_page_frame_base : Z }.

Definition entry_widths : list Z := [1; 1; 1; 1; 1; 1; 1; 1; 1; 3; 20].

Definition pde_fields (e : PageDirectoryEntry) : list Z :=
  [pde_present e; pde_read_write e; pde_user_supervisor e; pde_write_through e;
   pde_cache_disable e; pde_accessed e; pde_reserved_zero e; pde_page_size e; pde_ignored e;
   pde_available e; pde_page_table_base e].

Definition pte_fields (e : PageTableEntry) : list Z :=
  [pte_present e; pte_read_write e; pte_user_supervisor e; pte_write_through e;
   pte_cache_disable e; pte_accessed e; pte_dirty e; pte_page_attribute_table e; pte_global e;
   pte_available e; pte_page_frame_base e].

Definition pde_word (e : PageDirectoryEntry) : Z := pack entry_widths (pde_fields e).
Definition pte_word (e : PageTableEntry) : Z := pack entry_widths (pte_fields e).

Definition zero_pde : PageDirectoryEntry := mkPde 0 0 0 0 0 0 0 0 0 0 0.
Definition zero_pte : PageTableEntry := mkPte 0 0 0 0 0 0 0 0 0 0 0.

Definition pde_of_word (w : Z) : PageDirectoryEntry :=
  match unpack entry_widths w with
  | [a; b; c; d; e; f; g; h; i; j; k] => mkPde a b c d e f g h i j k
  | _ => zero_pde
  end.

Definition pte_of_word (w : Z) : PageTableEntry :=
  match unpack entry_widths w with
  | [a; b; c; d; e; f; g; h; i; j; k] => mkPte a b c d e f g h i j k
  | _ => zero_pte
  end.

(** [pte->read_write = v] *)
Definition set_pte_read_write (v : Z) (e : PageTableEntry) : PageTableEntry :=
  mkPte (pte_present e) v (pte_user_supervisor e) (pte_write_through e) (pte_cache_disable e)
    (pte_accessed e) (pte_dirty e) (pte_page_attribute_table e) (pte_global e) (pte_available e)
    (pte_page_frame_base e).

Definition PAGE_DIRECTORY_INDEX (virt_addr : Z) : Z := Z.land (Z.shiftr virt_addr 22) 0x3FF.
Definition PAGE_TABLE_INDEX (virt_addr : Z) : Z := Z.land (Z.shiftr virt_addr 12) 0x3FF.
Definition PAGE_OFFSET (virt_addr : Z) : Z := Z.land virt_addr 0xFFF.
Definition PAGE_FRAME_ADDR (e : PageDirectoryEntry) : Z := shl32 (pde_page_table_base e) 12.

Definition phys_to_virt (phys_addr : Z) : Z := phys_addr ⊞ KERNEL_VIRTUAL_BASE.

(** [memset(virt, 0, 4 * count)] *)
Fixpoint zero_words (m : zmap) (virt : Z) (count : nat) : zmap :=
  match count with
  | O => m
  | S count => zero_words (<[virt := 0]> m) (virt + 4) count
  end.

(** ** State *)

(** [active] says whether [current_page_directory] has been set;
    [directory] holds the words of [boot_page_directory]. *)
Record paging (A : Type) := mkPaging {
  active : bool;
  directory : zmap;
  page_table_runtime_owned : zmap;
  page_table_runtime_owned_count : Z;
  paging_cached_page_table_phys : Z;
  frames_state : A }.
Arguments mkPaging {A}.
Arguments active {A}.
Arguments directory {A}.
Arguments page_table_runtime_owned {A}.
Arguments page_table_runtime_owned_count {A}.
Arguments paging_cached_page_table_phys {A}.
Arguments frames_state {A}.

Section operations.
Context {A : Type} `{FrameAllocator A}.

(** The compile-time flag [LPL_KERNEL_REAL_TIME_MODE]. *)
Context (realtime : bool).

Abbreviation paging := (paging A).

Definition with_frames (a : A) (s : paging) : paging :=
  mkPaging (active s) (directory s) (page_table_runtime_owned s)
    (page_table_runtime_owned_count s) (paging_cached_page_table_phys s) a.

Definition with_cache (p : Z) (s : paging) : paging :=
  mkPaging (active s) (directory s) (page_table_runtime_owned s)
    (page_table_runtime_owned_count s) p (frames_state s).

Definition with_mem (f : zmap -> zmap) (s : paging) : paging :=
  with_frames (fa_set_mem (f (fa_mem (frames_state s))) (frames_state s)) s.

Definition with_pde (index : Z) (e : PageDirectoryEntry) (s : paging) : paging :=
  mkPaging (active s) (<[index := pde_word e]> (directory s)) (page_table_runtime_owned s)
    (page_table_runtime_owned_count s) (paging_cached_page_table_phys s) (frames_state s).

Definition with_owned (index flag count : Z) (s : paging) : paging :=
  mkPaging (active s) (directory s) (<[index := flag]> (page_table_runtime_owned s))
    count (paging_cached_page_table_phys s) (frames_state s).

Definition get_pde (index : Z) (s : paging) : PageDirectoryEntry :=
  pde_of_word (zget (directory s) index).

(** The entry of a page table that starts at virtual address [table]. *)
Definition get_pte (table index : Z) (s : paging) : PageTableEntry :=
  pte_of_word (zget (fa_mem (frames_state s)) (table + 4 * index)).

Definition put_pte (table index : Z) (e : PageTableEntry) (s : paging) : paging :=
  with_mem (fun m => <[table + 4 * index := pte_word e]> m) s.

Definition paging_allocate_page_table_frame (s : paging) : option (Z * paging) :=
  if realtime then
    '(p, a) ← page_frame_allocate (frames_state s);
    Some (p, with_frames a s)
  else if negb (paging_cached_page_table_phys s =? 0) then
    Some (paging_cached_page_table_phys s, with_cache 0 s)
  else
    '(block_phys, a) ← page_frame_allocate_order 1 (frames_state s);
    let s := with_frames a s in
    if negb (block_phys =? 0) then Some (block_phys, with_cache (block_phys ⊞ PAGE_SIZE) s)
    else
      '(p, a) ← page_frame_allocate (frames_state s);
      Some (p, with_frames a s).

Definition paging_get_page_table (pde : PageDirectoryEntry) : Z :=
  phys_to_virt (PAGE_FRAME_ADDR pde).

Definition paging_create_page_table (index : Z) (flags : PageDirectoryEntry) (s : paging)
    : option (bool * paging) :=
  '(new_pt_phys, s) ← paging_allocate_page_table_frame s;
  if new_pt_phys =? 0 then Some (false, s)
  else
    let s := with_mem (fun m => zero_words m (phys_to_virt new_pt_phys) 1024) s in
    Some (true, with_pde index
      (mkPde 1 (pde_read_write flags) (pde_user_supervisor flags) (pde_write_through flags)
         (pde_cache_disable flags) 0 0 0 0 0 (Z.shiftr new_pt_phys 12)) s).

Definition paging_update_pde_flags (index : Z) (flags : PageDirectoryEntry) (s : paging) : paging :=
  with_pde index
    (mkPde (pde_present flags) (pde_read_write flags) (pde_user_supervisor flags)
       (pde_write_through flags) (pde_cache_disable flags) (pde_accessed flags)
       (pde_reserved_zero flags) (pde_page_size flags) (pde_ignored flags)
       (pde_available flags) (pde_page_table_base (get_pde index s))) s.

Definition paging_install_pte (table index phys_addr : Z) (flags : PageTableEntry) (s : paging)
    : paging :=
  put_pte table index
    (mkPte (pte_present flags) (pte_read_write flags) (pte_user_supervisor flags)
       (pte_write_through flags) (pte_cache_disable flags) (pte_accessed flags)
       (pte_dirty flags) (pte_page_attribute_table flags) (pte_global flags)
       (pte_available flags) (Z.shiftr phys_addr 12)) s.

Definition paging_clear_pte (table index : Z) (s : paging) : paging :=
  put_pte table index zero_pte s.

Definition paging_is_page_table_empty (table : Z) (s : paging) : bool :=
  forall_range (fun index => pte_present (get_pte table index s) =? 0) 0 1024.

Definition paging_initialize_runtime (s : paging) : paging :=
  mkPaging true (directory s) ∅ 0 (paging_cached_page_table_phys s) (frames_state s).

Definition paging_map_page (virt_addr phys_addr : Z) (pde_flags : PageDirectoryEntry)
    (pte_flags : PageTableEntry) (s : paging) : option (bool * paging) :=
  if negb (active s) then Some (false, s)
  else
    let virt_addr := PAGE_ALIGN_DOWN virt_addr in
    let phys_addr := PAGE_ALIGN_DOWN phys_addr in
    let pd_index := PAGE_DIRECTORY_INDEX virt_addr in
    let pt_index := PAGE_TABLE_INDEX virt_addr in
    let install s :=
      (true, paging_install_pte (paging_get_page_table (get_pde pd_index s)) pt_index
               phys_addr pte_flags s) in
    if pde_present (get_pde pd_index s) =? 0 then
      '(created, s) ← paging_create_page_table pd_index pde_flags s;
      if negb created then Some (false, s)
      else Some (install (with_owned pd_index 1 (page_table_runtime_owned_count s ⊞ 1) s))
    else Some (install (paging_update_pde_flags pd_index pde_flags s)).

Definition paging_unmap_page (virt_addr : Z) (s : paging) : option (bool * paging) :=
  if negb (active s) then Some (false, s)
  else
    let virt_addr := PAGE_ALIGN_DOWN virt_addr in
    let pd_index := PAGE_DIRECTORY_INDEX virt_addr in
    let pt_index := PAGE_TABLE_INDEX virt_addr in
    let pde := get_pde pd_index s in
    if pde_present pde =? 0 then Some (false, s)
    else
      let page_table := paging_get_page_table pde in
      if pte_present (get_pte page_table pt_index s) =? 0 then Some (false, s)
      else
        let s := paging_clear_pte page_table pt_index s in
        if negb (zget (page_table_runtime_owned s) pd_index =? 0)
           && paging_is_page_table_empty page_table s then
          let s := with_pde pd_index zero_pde s in
          let count := page_table_runtime_owned_count s in
          let s := with_owned pd_index 0 (if 0 <? count then count ⊟ 1 else count) s in
          a ← page_frame_free (PAGE_FRAME_ADDR pde) (frames_state s);
          Some (true, with_frames a s)
        else Some (true, s).

Definition paging_get_physical_address (virt_addr : Z) (s : paging) : option Z :=
  if negb (active s) then None
  else
    let pde := get_pde (PAGE_DIRECTORY_INDEX virt_addr) s in
    if pde_present pde =? 0 then None
    else
      let pte := get_pte (paging_get_page_table pde) (PAGE_TABLE_INDEX virt_addr) s in
      if pte_present pte =? 0 then None
      else Some (Z.lor (shl32 (pte_page_frame_base pte) 12) (PAGE_OFFSET virt_addr)).

Definition paging_is_mapped (virt_addr : Z) (s : paging) : bool :=
  match paging_get_physical_address virt_addr s with Some _ => true | None => false end.

Definition paging_set_page_read_only (virt_addr : Z) (s : paging) : bool * paging :=
  if negb (active s) then (false, s)
  else
    let virt_addr := PAGE_ALIGN_DOWN virt_addr in
    let pde := get_pde (PAGE_DIRECTORY_INDEX virt_addr) s in
    if pde_present pde =? 0 then (false, s)
    else
      let page_table := paging_get_page_table pde in
      let pt_index := PAGE_TABLE_INDEX virt_addr in
      let pte := get_pte page_table pt_index s in
      if pte_present pte =? 0 then (false, s)
      else
        (true, put_pte page_table pt_index (set_pte_read_write 0 pte) s).

Definition paging_page_is_read_only (virt_addr : Z) (s : paging) : option bool :=
  if negb (active s) then None
  else
    let virt_addr := PAGE_ALIGN_DOWN virt_addr in
    let pde := get_pde (PAGE_DIRECTORY_INDEX virt_addr) s in
    if pde_present pde =? 0 then None
    else
      let pte := get_pte (paging_get_page_table pde) (PAGE_TABLE_INDEX virt_addr) s in
      if pte_present pte =? 0 then None else Some (pte_read_write pte =? 0).

End operations.
