(* ===== verification/PagingProofs.v ===== *)
(** * Correctness of runtime paging

    Against the frame allocator interface only: mapping, unmapping and
    protecting a page change the translation of that page and of no other,
    although page tables, free lists and the frames of callers share one
    memory. *)

From S2P Require Import Prelude Cpu Pmm BuddyProofs BuddySpec FrameAlloc Paging.
Import Boot.

(** ** Entries and addresses *)

Lemma entry_widths_nonneg : Forall (fun w => 0 <= w) entry_widths.
Proof. repeat constructor; lia. Qed.

(** Writing an entry and reading it back. *)
Lemma pde_roundtrip e : fits entry_widths (pde_fields e) -> pde_of_word (pde_word e) = e.
Proof.
  intros Hf. unfold pde_of_word, pde_word. rewrite unpack_pack by (done || apply entry_widths_nonneg).
  by destruct e.
Qed.

Lemma pte_roundtrip e : fits entry_widths (pte_fields e) -> pte_of_word (pte_word e) = e.
Proof.
  intros Hf. unfold pte_of_word, pte_word. rewrite unpack_pack by (done || apply entry_widths_nonneg).
  by destruct e.
Qed.

Lemma unpack_fits w : fits entry_widths (unpack entry_widths w).
Proof.
  unfold entry_widths, fits. cbn [unpack]. repeat (constructor; [apply Z.mod_pos_bound; lia|]). constructor.
Qed.

Lemma pde_of_word_fits w : fits entry_widths (pde_fields (pde_of_word w)).
Proof. exact (unpack_fits w). Qed.

Lemma pte_of_word_fits w : fits entry_widths (pte_fields (pte_of_word w)).
Proof. exact (unpack_fits w). Qed.

Lemma zero_fits : fits entry_widths (pde_fields zero_pde).
Proof. unfold fits, entry_widths, pde_fields. simpl. repeat (constructor; [lia|]). constructor. Qed.

#[global] Opaque pde_of_word pte_of_word pde_word pte_word.

Lemma fits_base l v : fits entry_widths l -> l !! 10%nat = Some v -> 0 <= v < 2 ^ 20.
Proof. intros Hf Hl. by eapply (Forall2_lookup_lr _ _ _ 10%nat 20 v) in Hf. Qed.

Lemma pd_index_range v : 0 <= PAGE_DIRECTORY_INDEX v < 1024.
Proof. unfold PAGE_DIRECTORY_INDEX. change 0x3FF with (Z.ones 10). rewrite Z.land_ones by lia. apply Z.mod_pos_bound. lia. Qed.

Lemma pt_index_range v : 0 <= PAGE_TABLE_INDEX v < 1024.
Proof. unfold PAGE_TABLE_INDEX. change 0x3FF with (Z.ones 10). rewrite Z.land_ones by lia. apply Z.mod_pos_bound. lia. Qed.

Lemma align_down_div v : in32 v -> PAGE_ALIGN_DOWN v = 4096 * (v / 4096).
Proof.
  intros Hv. unfold PAGE_ALIGN_DOWN. change 0xFFFFF000 with (not32 (2 ^ 12 - 1)).
  rewrite land_not32_pow2 by lia. change (2 ^ 12) with 4096. pose proof (Z.div_mod v 4096). lia.
Qed.

(** The two indices together are the page number. *)
Lemma indices_page v : in32 v -> v / 4096 = 1024 * PAGE_DIRECTORY_INDEX v + PAGE_TABLE_INDEX v.
Proof.
  intros Hv. unfold PAGE_DIRECTORY_INDEX, PAGE_TABLE_INDEX. change 0x3FF with (Z.ones 10).
  rewrite !Z.land_ones, !Z.shiftr_div_pow2 by lia. change (2 ^ 22) with (4096 * 1024).
  rewrite <- Z.div_div by lia. change (2 ^ 12) with 4096. change (2 ^ 10) with 1024.
  rewrite (Z.mod_small (v / 4096 / 1024)); [pose proof (Z.div_mod (v / 4096) 1024); lia|].
  split; [apply Z.div_pos; [apply Z.div_pos|]; lia|]. rewrite Z.div_div by lia.
  apply Z.div_lt_upper_bound; lia.
Qed.

Lemma page_indices v v' : in32 v -> in32 v' ->
  (PAGE_DIRECTORY_INDEX v = PAGE_DIRECTORY_INDEX v' /\ PAGE_TABLE_INDEX v = PAGE_TABLE_INDEX v')
  <-> v / 4096 = v' / 4096.
Proof.
  intros Hv Hv'. rewrite !indices_page by done.
  pose proof (pt_index_range v). pose proof (pt_index_range v'). lia.
Qed.

Lemma align_down_same v : in32 v -> in32 (PAGE_ALIGN_DOWN v) /\ PAGE_ALIGN_DOWN v / 4096 = v / 4096.
Proof.
  intros Hv. rewrite align_down_div by done. pose proof (Z.div_mod v 4096). pose proof (Z.mod_pos_bound v 4096).
  split; [lia|]. rewrite Z.mul_comm. by apply Z.div_mul.
Qed.

Lemma align_down_indices v : in32 v ->
  PAGE_DIRECTORY_INDEX (PAGE_ALIGN_DOWN v) = PAGE_DIRECTORY_INDEX v /\
  PAGE_TABLE_INDEX (PAGE_ALIGN_DOWN v) = PAGE_TABLE_INDEX v.
Proof. intros Hv. destruct (align_down_same v Hv). by apply page_indices. Qed.

(** The address of entry [k] of the page table in frame [b]. *)
Lemma table_entry_addr b k :
  0 <= b < 2 ^ 18 -> 0 <= k < 1024 ->
  phys_to_virt (shl32 b 12) + 4 * k = pmm_phys_to_virt (4096 * b + 4 * k) /\
  0 <= 4096 * b + 4 * k < 2 ^ 30 /\ (4096 * b + 4 * k) / 4096 = b.
Proof.
  intros Hb Hk. unfold phys_to_virt, pmm_phys_to_virt, KERNEL_VIRTUAL_BASE, shl32.
  rewrite Z.shiftl_mul_pow2 by lia. change (2 ^ 12) with 4096. rewrite u32_small, !add32_small by lia.
  split_and!; [lia..|]. replace (4096 * b + 4 * k) with (4 * k + b * 4096) by lia.
  rewrite Z.div_add, Z.div_small; lia.
Qed.

Lemma zero_words_out n : forall m v x,
  (forall k, 0 <= k < Z.of_nat n -> x <> v + 4 * k) -> zget (zero_words m v n) x = zget m x.
Proof.
  induction n as [|n IH]; intros m v x Hx; cbn [zero_words]; [done|]. rewrite IH.
  - apply zget_insert_ne. intros ->. apply (Hx 0); lia.
  - intros k Hk ->. apply (Hx (k + 1)); lia.
Qed.

Lemma zero_words_in n : forall m v k,
  0 <= k < Z.of_nat n -> zget (zero_words m v n) (v + 4 * k) = 0.
Proof.
  induction n as [|n IH]; intros m v k Hk; cbn [zero_words]; [lia|].
  destruct (decide (k = 0)) as [->|].
  - rewrite Z.mul_0_r, Z.add_0_r, zero_words_out by lia. apply zget_insert_eq.
  - replace (v + 4 * k) with (v + 4 + 4 * (k - 1)) by lia. apply IH. lia.
Qed.

#[global] Opaque zero_words.

(** ** The invariant *)

Section proofs.
Context {A : Type} `{FrameAllocator A} (realtime : bool).
Implicit Types s : paging A.

Definition table_of s i : Z := pde_page_table_base (get_pde i s).
Definition table_present s i : Prop := pde_present (get_pde i s) <> 0.

(** Every present table is in a frame of its own that is not free; the tables
    created at run time and the spare frame are held from the allocator. *)
Record pg_inv s (F O : gset Z) : Prop := {
  pi_active : active s = true;
  pi_frames : fa_inv (frames_state s) F O;
  pi_table : forall i, 0 <= i < 1024 -> table_present s i ->
               0 < table_of s i < 2 ^ 18 /\ table_of s i ∉ F;
  pi_inj : forall i j, 0 <= i < 1024 -> 0 <= j < 1024 -> table_present s i -> table_present s j ->
             table_of s i = table_of s j -> i = j;
  pi_owned : forall i, zget (page_table_runtime_owned s) i <> 0 ->
               0 <= i < 1024 /\ table_present s i /\ table_of s i ∈ O;
  pi_count : page_table_runtime_owned_count s =
               count_flags (seqZ 0 1024) (page_table_runtime_owned s);
  pi_cache : paging_cached_page_table_phys s <> 0 ->
               block_ok 0 (paging_cached_page_table_phys s) /\
               paging_cached_page_table_phys s / 4096 ∈ O /\
               forall i, 0 <= i < 1024 -> table_present s i ->
                 table_of s i <> paging_cached_page_table_phys s / 4096 }.

(** The words of a frame that is not free. *)
Definition word_at s (b k : Z) : Z :=
  zget (fa_mem (frames_state s)) (pmm_phys_to_virt (4096 * b + 4 * k)).

Lemma get_pte_word s i k :
  0 <= table_of s i < 2 ^ 18 -> 0 <= k < 1024 ->
  get_pte (paging_get_page_table (get_pde i s)) k s = pte_of_word (word_at s (table_of s i) k).
Proof.
  intros Hb Hk. unfold get_pte, paging_get_page_table, PAGE_FRAME_ADDR, word_at.
  fold (table_of s i). by destruct (table_entry_addr _ k Hb Hk) as [-> _].
Qed.

Lemma agrees_word F s s' b k :
  agrees_outside F (fa_mem (frames_state s)) (fa_mem (frames_state s')) ->
  0 <= b < 2 ^ 18 -> 0 <= k < 1024 -> b ∉ F -> word_at s' b k = word_at s b k.
Proof.
  intros Hag Hb Hk Hf. destruct (table_entry_addr b k Hb Hk) as (_ & Hr & Hd).
  apply Hag; [done|]. by rewrite Hd.
Qed.

(** The translation of a page depends on its directory entry and on one word
    of the table this entry names. *)
Lemma translate_same s s' v :
  active s' = active s ->
  let i := PAGE_DIRECTORY_INDEX v in
  (table_present s' i <-> table_present s i) ->
  (table_present s i -> table_of s' i = table_of s i /\ 0 <= table_of s i < 2 ^ 18 /\
     word_at s' (table_of s i) (PAGE_TABLE_INDEX v) = word_at s (table_of s i) (PAGE_TABLE_INDEX v)) ->
  paging_get_physical_address v s' = paging_get_physical_address v s.
Proof.
  intros Ha i Hp Hw. unfold paging_get_physical_address. rewrite Ha. fold i.
  unfold table_present in *. destruct (negb (active s)); [done|].
  destruct (Z.eqb_spec (pde_present (get_pde i s')) 0) as [E'|E'],
    (Z.eqb_spec (pde_present (get_pde i s)) 0) as [E|E]; [done|tauto..|].
  destruct (Hw E) as (Ht & Hr & Hword).
  rewrite !get_pte_word by (rewrite ?Ht; done || apply pt_index_range). by rewrite Ht, Hword.
Qed.

Lemma translate_unfold s v F O :
  pg_inv s F O ->
  let i := PAGE_DIRECTORY_INDEX v in
  paging_get_physical_address v s =
    if pde_present (get_pde i s) =? 0 then None
    else
      let pte := pte_of_word (word_at s (table_of s i) (PAGE_TABLE_INDEX v)) in
      if pte_present pte =? 0 then None
      else Some (Z.lor (shl32 (pte_page_frame_base pte) 12) (PAGE_OFFSET v)).
Proof.
  intros Hinv i. unfold paging_get_physical_address. rewrite (pi_active _ _ _ Hinv). cbn [negb]. fold i.
  destruct (Z.eqb_spec (pde_present (get_pde i s)) 0) as [E|E]; [done|].
  destruct (pi_table _ _ _ Hinv i (pd_index_range v) E) as [Hr _].
  rewrite get_pte_word by (lia || apply pt_index_range). done.
Qed.

(** Everything a step of the allocator leaves alone. *)
Definition same_tables s s' : Prop :=
  active s' = active s /\ directory s' = directory s /\
  page_table_runtime_owned s' = page_table_runtime_owned s /\
  page_table_runtime_owned_count s' = page_table_runtime_owned_count s.

(** A frame that is held and that paging does not use for its tables. *)
Definition data_frame s (O : gset Z) (f : Z) : Prop :=
  f ∈ O /\ (forall i, 0 <= i < 1024 -> table_present s i -> table_of s i <> f) /\
  (paging_cached_page_table_phys s <> 0 -> paging_cached_page_table_phys s / 4096 <> f).

(** A frame that is not free and is not a page table, held or not. *)
Definition calm s (F : gset Z) (f : Z) : Prop :=
  (f ∉ F) /\ (forall i, 0 <= i < 1024 -> table_present s i -> table_of s i <> f) /\
  (paging_cached_page_table_phys s <> 0 -> paging_cached_page_table_phys s / 4096 <> f).

Definition same_words s s' (f : Z) : Prop := forall q, 0 <= q < 2 ^ 30 -> q / 4096 = f ->
  zget (fa_mem (frames_state s')) (pmm_phys_to_virt q) = zget (fa_mem (frames_state s)) (pmm_phys_to_virt q).

(** Such frames stay as they are, with their contents. *)
Definition undisturbed s (F : gset Z) s' (F' : gset Z) : Prop :=
  forall f, calm s F f -> calm s' F' f /\ same_words s s' f.

Lemma undisturbed_trans s1 F1 s2 F2 s3 F3 :
  undisturbed s1 F1 s2 F2 -> undisturbed s2 F2 s3 F3 -> undisturbed s1 F1 s3 F3.
Proof.
  intros H1 H2 f Hf. destruct (H1 f Hf) as [Hf2 Hw1], (H2 f Hf2) as [Hf3 Hw2]. split; [done|].
  intros q Hq Hd. by rewrite Hw2, Hw1.
Qed.

Lemma calm_same s s' F F' f :
  same_tables s s' -> F' ⊆ F ->
  (paging_cached_page_table_phys s' <> 0 -> f ∉ F -> paging_cached_page_table_phys s' / 4096 <> f) ->
  calm s F f -> calm s' F' f.
Proof.
  intros (_ & Hd & _) HF Hc (Hf & Ht & _). split_and!; [auto| |auto].
  intros i Hi. unfold table_present, table_of, get_pde in *. rewrite Hd. by apply Ht.
Qed.

Lemma agrees_same_words s s' F f :
  agrees_outside F (fa_mem (frames_state s)) (fa_mem (frames_state s')) -> f ∉ F -> same_words s s' f.
Proof. intros Hag Hf q Hq <-. by apply Hag. Qed.

(** A frame for a new page table. *)
Definition fresh_table s (O : gset Z) (p : Z) : Prop := block_ok 0 p /\ data_frame s O (p / 4096).

Lemma data_frame_same s s' O O' f :
  same_tables s s' -> O ⊆ O' ->
  (paging_cached_page_table_phys s' <> 0 -> f ∈ O -> paging_cached_page_table_phys s' / 4096 <> f) ->
  data_frame s O f -> data_frame s' O' f.
Proof.
  intros (_ & Hd & _) HO Hc (Hf & Ht & _). split_and!; [by apply HO| |auto].
  intros i Hi. unfold table_present, table_of, get_pde in *. rewrite Hd. by apply Ht.
Qed.

Lemma pg_inv_frames s s' F O F' O' :
  pg_inv s F O -> same_tables s s' -> F' ⊆ F -> O ⊆ O' ->
  fa_inv (frames_state s') F' O' ->
  (paging_cached_page_table_phys s' <> 0 ->
     block_ok 0 (paging_cached_page_table_phys s') /\
     paging_cached_page_table_phys s' / 4096 ∈ O' /\
     forall i, 0 <= i < 1024 -> table_present s i ->
       table_of s i <> paging_cached_page_table_phys s' / 4096) ->
  pg_inv s' F' O'.
Proof.
  intros [] (Ha & Hd & Ho & Hc) HF HO Hfa Hcache.
  assert (Hp : forall i, table_present s' i <-> table_present s i)
    by (intros; unfold table_present, get_pde; by rewrite Hd).
  assert (Ht : forall i, table_of s' i = table_of s i) by (intros; unfold table_of, get_pde; by rewrite Hd).
  constructor; [congruence|done|..].
  - intros i Hi Hpi%Hp. rewrite Ht. destruct (pi_table0 i Hi Hpi) as [? Hn]. split; [done|]. auto.
  - intros i j Hi Hj Hpi%Hp Hpj%Hp. rewrite !Ht. by apply pi_inj0.
  - intros i. rewrite Ho, Ht. intros Hi. destruct (pi_owned0 i Hi) as (? & ? & ?).
    split_and!; [lia..|by apply Hp|auto].
  - congruence.
  - intros Hn. destruct (Hcache Hn) as (? & ? & Hne). split_and!; [done..|].
    intros i Hi Hpi%Hp. rewrite Ht. by apply Hne.
Qed.

(** What asking for a frame for a page table gives: nothing and an unchanged
    state, or a fresh frame. *)
Definition table_frame s F O p s' : Prop :=
  same_tables s s' /\
  ((p = 0 /\ pg_inv s' F O /\ fa_mem (frames_state s') = fa_mem (frames_state s) /\
    paging_cached_page_table_phys s' = paging_cached_page_table_phys s) \/
   (exists F' O', pg_inv s' F' O' /\ (F' ⊆ F) /\ (O ⊆ O') /\ fresh_table s' O' p /\
      agrees_outside F' (fa_mem (frames_state s)) (fa_mem (frames_state s')) /\
      (forall f, data_frame s O f -> data_frame s' O' f /\ f <> p / 4096) /\
      forall f, calm s F f -> calm s' F' f /\ f <> p / 4096)).

Lemma pg_inv_same_frames s a F O :
  pg_inv s F O -> fa_inv a F O -> pg_inv (with_frames a s) F O.
Proof.
  intros Hinv Hfa. eapply pg_inv_frames; [exact Hinv|by repeat split|done|done|done|apply Hinv].
Qed.

Lemma page_frame_fresh s F O :
  pg_inv s F O ->
  exists p a, page_frame_allocate (frames_state s) = Some (p, a) /\
    table_frame s F O p (with_frames a s).
Proof.
  intros Hinv. pose proof (pi_frames _ _ _ Hinv) as Hfa.
  destruct (fa_allocate _ F O 0 Hfa) as (p & a & He & Hp); [lia|].
  exists p, a. split; [done|]. split; [by repeat split|].
  destruct Hp as [(-> & Hfa' & Hm)|(Hb & Hsub & Hfa' & Hag)].
  - left. split_and!; [done|by apply pg_inv_same_frames|done|done].
  - right. rewrite frames_0 in *. assert (HpF : p / 4096 ∈ F) by set_solver.
    exists (F ∖ {[p / 4096]}), (O ∪ {[p / 4096]}). split_and!; [|set_solver|set_solver| |done| |].
    + eapply pg_inv_frames; [exact Hinv|by repeat split|set_solver|set_solver|done|].
      intros Hc. destruct (pi_cache _ _ _ Hinv Hc) as (? & ? & ?). split_and!; [done|set_solver|done].
    + split; [done|]. split_and!; [set_solver| |].
      * intros i Hi Hp He'. destruct (pi_table _ _ _ Hinv i Hi Hp) as [_ Hn].
        apply Hn. rewrite <- He' in HpF. exact HpF.
      * intros Hc He'. destruct (pi_cache _ _ _ Hinv Hc) as (_ & HO & _).
        pose proof (fa_disjoint _ _ _ Hfa). set_solver.
    + intros f Hf. split.
      * apply (data_frame_same s _ O); [by repeat split|set_solver| |done]. intros Hc _. by apply Hf.
      * destruct Hf as [HfO _]. pose proof (fa_disjoint _ _ _ Hfa). set_solver.
    + intros f Hf. split.
      * apply (calm_same s _ F); [by repeat split|set_solver| |done]. intros Hc _. by apply Hf.
      * destruct Hf as [HfF _]. by intros ->.
Qed.

(** The server's pair of frames: one is returned, the other kept. *)
Lemma table_pair s F O b a :
  pg_inv s F O -> paging_cached_page_table_phys s = 0 -> block_ok 1 b -> frames 1 b ⊆ F ->
  fa_inv a (F ∖ frames 1 b) (O ∪ frames 1 b) ->
  agrees_outside (F ∖ frames 1 b) (fa_mem (frames_state s)) (fa_mem a) ->
  table_frame s F O b (with_cache (b ⊞ PAGE_SIZE) (with_frames a s)).
Proof.
  intros Hinv Hz Hb Hsub Hfa Hag.
  destruct (split_block 0 b) as (Hb1 & Hb2 & Hfr & Hdis); [lia|done|].
  change (block_bytes 0) with 4096 in *. rewrite !frames_0 in *.
  assert (Hpg : b ⊞ PAGE_SIZE = b + 4096) by (apply add32_small; destruct Hb2 as (_ & ? & _); klia).
  assert (H1 : b / 4096 ∈ frames 1 b) by (apply Hfr; set_solver).
  assert (H2 : (b + 4096) / 4096 ∈ frames 1 b) by (apply Hfr; set_solver).
  assert (Hn : forall i x, 0 <= i < 1024 -> table_present s i -> x ∈ frames 1 b -> table_of s i <> x).
  { intros i x Hi Hp Hx He. subst x. destruct (pi_table _ _ _ Hinv i Hi Hp) as [_ HF]. set_solver. }
  split; [by repeat split|]. right. exists (F ∖ frames 1 b), (O ∪ frames 1 b).
  split_and!; [|set_solver|set_solver| |done| |].
  - eapply pg_inv_frames; [exact Hinv|by repeat split|set_solver|set_solver|done|].
    intros _. cbn [paging_cached_page_table_phys with_cache]. rewrite Hpg. split_and!; [done|set_solver|].
    intros i Hi Hp. by apply Hn.
  - split; [done|]. split_and!; [set_solver| |].
    + intros i Hi Hp. by apply Hn.
    + intros _. cbn [paging_cached_page_table_phys with_cache]. rewrite Hpg. intros He.
      apply (Hdis (b / 4096)); set_solver.
  - pose proof (fa_disjoint _ _ _ (pi_frames _ _ _ Hinv)) as Hd. intros f Hf. split.
    + apply (data_frame_same s _ O); [by repeat split|set_solver| |done].
      cbn [paging_cached_page_table_phys with_cache]. rewrite Hpg. intros _ HfO <-. set_solver.
    + destruct Hf as [HfO _]. intros ->. set_solver.
  - intros f Hf. split.
    + apply (calm_same s _ F); [by repeat split|set_solver| |done].
      cbn [paging_cached_page_table_phys with_cache]. rewrite Hpg. intros _ HfF <-. set_solver.
    + destruct Hf as [HfF _]. intros ->. set_solver.
Qed.

Lemma allocate_table_frame s F O :
  pg_inv s F O ->
  exists p s', paging_allocate_page_table_frame realtime s = Some (p, s') /\ table_frame s F O p s'.
Proof.
  intros Hinv. unfold paging_allocate_page_table_frame.
  assert (Hone : forall s, pg_inv s F O -> exists p s',
      ('(p, a) ← page_frame_allocate (frames_state s); Some (p, with_frames a s)) = Some (p, s') /\
      table_frame s F O p s').
  { intros s1 H1. destruct (page_frame_fresh s1 F O H1) as (p & a & -> & Hp).
    by exists p, (with_frames a s1). }
  destruct realtime; [by apply Hone|].
  destruct (Z.eqb_spec (paging_cached_page_table_phys s) 0) as [Hz|Hnz]; cbn [negb].
  2:{ destruct (pi_cache _ _ _ Hinv Hnz) as (Hb & HO & Hne).
      eexists _, _. split; [done|]. split; [by repeat split|]. right. exists F, O.
      split_and!; [|done|done|by split; [|split_and!]|done| |].
      - by eapply pg_inv_frames; [exact Hinv|by repeat split|done|done|apply Hinv|].
      - intros f Hf. split; [by apply (data_frame_same s _ O); [repeat split|..]|]. intros ->. by apply Hf.
      - intros f Hf. split; [by apply (calm_same s _ F); [repeat split|..]|]. intros ->. by apply Hf. }
  pose proof (pi_frames _ _ _ Hinv) as Hfa.
  destruct (fa_allocate _ F O 1 Hfa) as (b & a & -> & Hp); [lia|]. cbn [mbind option_bind].
  destruct Hp as [(-> & Hfa' & Hm)|(Hb & Hsub & Hfa' & Hag)].
  - destruct (Hone (with_frames a s)) as (p & s' & He & (Hs1 & Hs2 & Hs3 & Hs4) & Hpost);
      [by apply pg_inv_same_frames|].
    exists p, s'. split; [exact He|]. split; [by repeat split|].
    cbn [frames_state with_frames] in Hpost. rewrite Hm in Hpost. exact Hpost.
  - destruct (Z.eqb_spec b 0) as [->|]; [destruct Hb as (_ & ? & _); lia|]. cbn [negb].
    eexists _, _. split; [done|]. by apply table_pair.
Qed.

(** ** Writing tables *)

(** Writing words of one frame that is not free. *)
Lemma pg_inv_write s F O b m :
  pg_inv s F O -> b ∉ F ->
  (forall q, 0 <= q < 2 ^ 30 -> q / 4096 <> b ->
     zget m (pmm_phys_to_virt q) = zget (fa_mem (frames_state s)) (pmm_phys_to_virt q)) ->
  pg_inv (with_frames (fa_set_mem m (frames_state s)) s) F O.
Proof.
  intros Hinv Hb Hm. apply pg_inv_same_frames; [done|]. apply fa_write; [apply Hinv|].
  intros q Hq Hf. apply Hm; [done|]. intros <-. done.
Qed.

Lemma put_pte_words s b k e :
  0 <= b < 2 ^ 18 -> 0 <= k < 1024 ->
  let s' := put_pte (phys_to_virt (shl32 b 12)) k e s in
  word_at s' b k = pte_word e /\
  (forall b' k', 0 <= b' < 2 ^ 18 -> 0 <= k' < 1024 -> ~ (b' = b /\ k' = k) ->
     word_at s' b' k' = word_at s b' k') /\
  (forall q, 0 <= q < 2 ^ 30 -> q / 4096 <> b ->
     zget (fa_mem (frames_state s')) (pmm_phys_to_virt q)
     = zget (fa_mem (frames_state s)) (pmm_phys_to_virt q)).
Proof.
  intros Hb Hk s'. destruct (table_entry_addr b k Hb Hk) as (Ha & Hr & Hd).
  assert (Hm : fa_mem (frames_state s') =
    <[pmm_phys_to_virt (4096 * b + 4 * k) := pte_word e]> (fa_mem (frames_state s))).
  { unfold s', put_pte, with_mem. cbn [frames_state with_frames]. by rewrite fa_set_mem_mem, Ha. }
  unfold word_at. rewrite Hm. split_and!; [apply zget_insert_eq|..].
  - intros b' k' Hb' Hk' Hne. apply zget_insert_ne. intros He.
    destruct (table_entry_addr b' k' Hb' Hk') as (_ & Hr' & Hd').
    apply alias_inj in He; [|done..]. apply Hne. rewrite He, Hd' in Hd. subst b'. lia.
  - intros q Hq Hne. apply zget_insert_ne. intros He. apply alias_inj in He; [|done..]. congruence.
Qed.

(** A zeroed frame reads as zero and nothing else changes. *)
Lemma zero_frame_words (m : zmap) p :
  block_ok 0 p ->
  (forall k, 0 <= k < 1024 -> zget (zero_words m (phys_to_virt p) 1024)
               (pmm_phys_to_virt (4096 * (p / 4096) + 4 * k)) = 0) /\
  (forall q, 0 <= q < 2 ^ 30 -> q / 4096 <> p / 4096 ->
     zget (zero_words m (phys_to_virt p) 1024) (pmm_phys_to_virt q) = zget m (pmm_phys_to_virt q)).
Proof.
  intros Hb. pose proof (block_page_aligned 0 p Hb) as Hpa.
  pose proof (block_frame_range 0 p (p / 4096) Hb (base_in_frames 0 p ltac:(lia))) as Hr.
  assert (Hv : forall k, 0 <= k < 1024 ->
    phys_to_virt p + 4 * k = pmm_phys_to_virt (4096 * (p / 4096) + 4 * k)).
  { intros k Hk. destruct (table_entry_addr (p / 4096) k ltac:(lia) Hk) as [<- _].
    unfold shl32. rewrite Z.shiftl_mul_pow2 by lia. change (2 ^ 12) with 4096.
    replace (p / 4096 * 4096) with p by lia. rewrite u32_small; [done|]. destruct Hb as (_ & ? & _). lia. }
  split.
  - intros k Hk. rewrite <- Hv by done. apply zero_words_in. lia.
  - intros q Hq Hne. apply zero_words_out. intros k Hk He. rewrite Hv in He by lia.
    destruct (table_entry_addr (p / 4096) k ltac:(lia) ltac:(lia)) as (_ & Hr' & Hd).
    apply alias_inj in He; [|done..]. congruence.
Qed.

Lemma get_with_pde s i j e :
  fits entry_widths (pde_fields e) ->
  get_pde j (with_pde i e s) = if decide (i = j) then e else get_pde j s.
Proof.
  intros Hf. unfold get_pde. cbn [directory with_pde]. rewrite zget_insert.
  case_decide; [by apply pde_roundtrip|done].
Qed.

(** Entering a fresh table in the directory. *)
Lemma enter_table s F O i p e :
  pg_inv s F O -> 0 <= i < 1024 -> ~ table_present s i -> fresh_table s O p ->
  fits entry_widths (pde_fields e) -> pde_present e = 1 -> pde_page_table_base e = p / 4096 ->
  let s' := with_owned i 1 (page_table_runtime_owned_count s ⊞ 1) (with_pde i e s) in
  pg_inv s' F O /\ (forall j, get_pde j s' = if decide (i = j) then e else get_pde j s).
Proof.
  intros Hinv Hi Hnp (Hb & HpO & Hpt & Hpc) Hf He1 He2 s'.
  assert (Hget : forall j, get_pde j s' = if decide (i = j) then e else get_pde j s)
    by (intros j; by apply (get_with_pde s i j e)).
  split; [|done]. pose proof (pi_frames _ _ _ Hinv) as Hfa.
  pose proof (fa_range _ _ _ (p / 4096) Hfa ltac:(set_solver)) as Hr.
  assert (HpF : p / 4096 ∉ F) by (pose proof (fa_disjoint _ _ _ Hfa); set_solver).
  assert (Hzero : zget (page_table_runtime_owned s) i = 0).
  { destruct (decide (zget (page_table_runtime_owned s) i = 0)) as [|Hn]; [done|].
    by destruct (pi_owned _ _ _ Hinv i Hn) as (_ & ? & _). }
  assert (Hpres : forall j, table_present s' j <-> j = i \/ table_present s j).
  { intros j. unfold table_present. rewrite Hget. case_decide; [subst; rewrite He1; lia|].
    split; [by right|]. intros [->|]; done. }
  assert (Htab : forall j, table_of s' j = if decide (i = j) then p / 4096 else table_of s j).
  { intros j. unfold table_of. rewrite Hget. by case_decide. }
  destruct Hinv. constructor; [done|done|..].
  - intros j Hj Hpj. rewrite Htab. case_decide; [done|]. apply pi_table0; [done|].
    apply Hpres in Hpj as [->|]; done.
  - intros j k Hj Hk Hpj%Hpres Hpk%Hpres. rewrite !Htab.
    repeat case_decide; subst; try done; intros Heq.
    + destruct Hpk as [->|Hpk]; [done|]. exfalso. by apply (Hpt k Hk Hpk).
    + destruct Hpj as [->|Hpj]; [done|]. exfalso. by apply (Hpt j Hj Hpj).
    + destruct Hpj as [->|Hpj]; [done|]. destruct Hpk as [->|Hpk]; [done|]. by apply pi_inj0.
  - intros j. cbn [page_table_runtime_owned with_owned s']. rewrite zget_insert, Hpres, Htab.
    destruct (decide (i = j)) as [->|Hne]; intros Hj; [split_and!; [lia|lia|by left|done]|].
    destruct (pi_owned0 j Hj) as (? & ? & ?). split_and!; [lia..|by right|done].
  - cbn. rewrite pi_count0, count_flags_insert; [|apply NoDup_seqZ|apply elem_of_seqZ; lia].
    rewrite Hzero. pose proof (count_flags_bound (seqZ 0 1024) (page_table_runtime_owned s)) as Hc.
    rewrite length_seqZ in Hc. rewrite add32_small by lia. cbn. lia.
  - cbn. intros Hc. destruct (pi_cache0 Hc) as (? & ? & Hne). split_and!; [done..|].
    intros j Hj Hpj%Hpres. rewrite Htab. case_decide.
    + intros He. by apply Hpc.
    + destruct Hpj as [->|Hpj]; [done|]. by apply Hne.
Qed.

Lemma create_flags_fit flags p :
  fits entry_widths (pde_fields flags) -> block_ok 0 p ->
  fits entry_widths (pde_fields (mkPde 1 (pde_read_write flags) (pde_user_supervisor flags)
    (pde_write_through flags) (pde_cache_disable flags) 0 0 0 0 0 (Z.shiftr p 12))).
Proof.
  intros Hf (_ & Hp & _). unfold fits, entry_widths, pde_fields in *. cbn.
  repeat (apply Forall2_cons_1 in Hf as [? Hf]).
  repeat (constructor; [lia|]). constructor; [|constructor].
  rewrite Z.shiftr_div_pow2 by lia. change (2 ^ 12) with 4096.
  split; [apply Z.div_pos; lia|]. apply Z.div_lt_upper_bound; lia.
Qed.

(** Creating the table of a directory entry that has none. *)
Lemma create_table_spec s F O i flags :
  pg_inv s F O -> 0 <= i < 1024 -> ~ table_present s i -> fits entry_widths (pde_fields flags) ->
  exists r s', paging_create_page_table realtime i flags s = Some (r, s') /\
    ((r = false /\ pg_inv s' F O /\ same_tables s s' /\
      fa_mem (frames_state s') = fa_mem (frames_state s) /\
      paging_cached_page_table_phys s' = paging_cached_page_table_phys s) \/
     (r = true /\ exists F' O', (F' ⊆ F) /\ (O ⊆ O') /\
        let s2 := with_owned i 1 (page_table_runtime_owned_count s' ⊞ 1) s' in
        pg_inv s2 F' O' /\ table_present s2 i /\
        (forall k, 0 <= k < 1024 -> word_at s2 (table_of s2 i) k = 0) /\
        (forall j, 0 <= j < 1024 -> j <> i -> get_pde j s2 = get_pde j s) /\
        (forall b k, 0 <= b < 2 ^ 18 -> 0 <= k < 1024 -> b ∉ F -> b <> table_of s2 i ->
           word_at s2 b k = word_at s b k) /\
        (forall f, data_frame s O f -> data_frame s2 O' f) /\ undisturbed s F s2 F')).
Proof.
  intros Hinv Hi Hnp Hfl. unfold paging_create_page_table.
  destruct (allocate_table_frame s F O Hinv) as (p & s1 & -> & Hst & Hp). cbn [mbind option_bind].
  destruct Hp as [(-> & Hinv1 & Hm & Hc)|(F' & O' & Hinv1 & HF & HO & Hfresh & Hag & Hdf & Hcm)].
  { exists false, s1. split; [done|]. by left. }
  pose proof Hfresh as (Hb & HpO & _ & _). pose proof Hb as (_ & Hpr & _).
  destruct (Z.eqb_spec p 0) as [|_]; [lia|].
  eexists true, _. split; [done|]. right. split; [done|]. exists F', O'. split; [done|]. split; [done|].
  set (s1z := with_mem _ s1). set (e := mkPde _ _ _ _ _ _ _ _ _ _ _).
  cbv zeta. match goal with |- pg_inv ?x _ _ /\ _ => set (s2 := x) end.
  destruct (zero_frame_words (fa_mem (frames_state s1)) p Hb) as [Hz Hnz].
  pose proof (pi_frames _ _ _ Hinv1) as Hfa.
  assert (HpF : p / 4096 ∉ F') by (intros Hin; by apply (fa_disjoint _ _ _ Hfa (p / 4096))).
  assert (Hinvz : pg_inv s1z F' O') by (by apply (pg_inv_write s1 F' O' (p / 4096))).
  assert (Hez : pde_page_table_base e = p / 4096) by (cbn; by rewrite Z.shiftr_div_pow2).
  assert (Hfe : fits entry_widths (pde_fields e)) by (by apply create_flags_fit).
  assert (Hnp1 : ~ table_present s1z i).
  { destruct Hst as (_ & Hd & _). unfold table_present, get_pde in *.
    change (directory s1z) with (directory s1). by rewrite Hd. }
  destruct (enter_table s1z F' O' i p e Hinvz Hi Hnp1 Hfresh Hfe eq_refl Hez) as [Hinv2 Hget].
  change (with_owned i 1 (page_table_runtime_owned_count s1z ⊞ 1) (with_pde i e s1z)) with s2 in *.
  assert (Ht : table_of s2 i = p / 4096) by (unfold table_of; rewrite Hget, decide_True; done).
  assert (Hw : forall b k, word_at s2 b k =
            zget (zero_words (fa_mem (frames_state s1)) (phys_to_virt p) 1024) (pmm_phys_to_virt (4096 * b + 4 * k))).
  { intros b k. unfold word_at, s2, s1z. cbn. by rewrite fa_set_mem_mem. }
  split_and!; [done| | | | | |].
  - unfold table_present. rewrite Hget, decide_True by done. done.
  - intros k Hk. rewrite Hw, Ht. by apply Hz.
  - intros j Hj Hne. rewrite Hget, decide_False by done. destruct Hst as (_ & Hd & _).
    unfold get_pde. change (directory s1z) with (directory s1). by rewrite Hd.
  - intros b k Hb' Hk HbF Hbt. destruct (table_entry_addr b k Hb' Hk) as (_ & Hr' & Hd).
    rewrite Hw, Hnz by congruence. apply Hag; [done|]. rewrite Hd. auto.
  - intros f Hf. destruct (Hdf f Hf) as [(HfO & Hft & Hfc) Hne]. split_and!; [done| |done].
    intros j Hj. unfold table_present, table_of. rewrite Hget. case_decide; [rewrite Hez; congruence|].
    by apply Hft.
  - intros f Hf. destruct (Hcm f Hf) as [(HfF & Hft & Hfc) Hne]. split.
    + split_and!; [done| |done].
      intros j Hj. unfold table_present, table_of. rewrite Hget. case_decide; [rewrite Hez; congruence|].
      by apply Hft.
    + intros q Hq Hd. unfold s2, s1z. cbn. rewrite fa_set_mem_mem, Hnz by congruence. apply Hag; [done|congruence].
Qed.

(** Writing one entry of a present table changes the translation of one page. *)
Lemma put_entry s F O i k e :
  pg_inv s F O -> 0 <= i < 1024 -> table_present s i -> 0 <= k < 1024 ->
  fits entry_widths (pte_fields e) ->
  let s' := put_pte (paging_get_page_table (get_pde i s)) k e s in
  pg_inv s' F O /\ undisturbed s F s' F /\
  forall v, paging_get_physical_address v s' =
    if decide (PAGE_DIRECTORY_INDEX v = i /\ PAGE_TABLE_INDEX v = k) then
      if pte_present e =? 0 then None
      else Some (Z.lor (shl32 (pte_page_frame_base e) 12) (PAGE_OFFSET v))
    else paging_get_physical_address v s.
Proof.
  intros Hinv Hi Hp Hk Hf s'.
  destruct (pi_table _ _ _ Hinv i Hi Hp) as [Hr HF].
  destruct (put_pte_words s (table_of s i) k e ltac:(lia) Hk) as (Hw & Hwo & Hm).
  change (put_pte (phys_to_virt (shl32 (table_of s i) 12)) k e s) with s' in *.
  assert (Hinv' : pg_inv s' F O).
  { apply (pg_inv_write s F O (table_of s i)); [done..|]. intros q Hq Hne.
    rewrite <- Hm by done. unfold s', put_pte, with_mem. cbn [frames_state with_frames].
    by rewrite fa_set_mem_mem. }
  split; [done|]. split.
  { intros f Hcf. split; [done|]. intros q Hq <-. apply Hm; [done|]. intros He. destruct Hcf as (_ & Hft & _). by apply (Hft i). }
  intros v. destruct (decide _) as [[Hd Ht]|Hne].
  - rewrite (translate_unfold s' v F O Hinv'). cbv zeta. rewrite Hd, Ht.
    change (get_pde i s') with (get_pde i s). change (table_of s' i) with (table_of s i).
    destruct (Z.eqb_spec (pde_present (get_pde i s)) 0); [done|]. by rewrite Hw, pte_roundtrip.
  - apply translate_same; [done|done|]. intros Hpv.
    destruct (pi_table _ _ _ Hinv _ (pd_index_range v) Hpv) as [Hrv _].
    split_and!; [done|lia|lia|]. apply Hwo; [lia|apply pt_index_range|]. intros [He1 He2].
    apply Hne. split; [|done]. by eapply (pi_inj _ _ _ Hinv); try done; apply pd_index_range.
Qed.

(** Replacing a present directory entry by one that names the same table
    changes no translation. *)
Lemma replace_pde s F O i e :
  pg_inv s F O -> 0 <= i < 1024 -> table_present s i ->
  fits entry_widths (pde_fields e) -> pde_present e = 1 -> pde_page_table_base e = table_of s i ->
  let s' := with_pde i e s in
  pg_inv s' F O /\ table_present s' i /\ (forall f, data_frame s O f -> data_frame s' O f) /\
  undisturbed s F s' F /\
  forall v, paging_get_physical_address v s' = paging_get_physical_address v s.
Proof.
  intros Hinv Hi Hp Hf Hf1 Hf2 s'.
  assert (Hget : forall j, get_pde j s' = if decide (i = j) then e else get_pde j s)
    by (intros j; by apply get_with_pde).
  assert (Ht : forall j, table_of s' j = table_of s j).
  { intros j. unfold table_of at 1. rewrite Hget. case_decide; [by subst|done]. }
  assert (Hpr : forall j, table_present s' j <-> table_present s j).
  { intros j. unfold table_present. rewrite Hget. case_decide; [subst|done].
    rewrite Hf1. unfold table_present in Hp. split; [done|lia]. }
  split_and!.
  - destruct Hinv. constructor; [done|done|..].
    + intros j Hj Hpj%Hpr. rewrite Ht. by apply pi_table0.
    + intros j k Hj Hk Hpj%Hpr Hpk%Hpr. rewrite !Ht. by apply pi_inj0.
    + intros j Hj. destruct (pi_owned0 j Hj) as (? & ? & ?). rewrite Ht. split_and!; [lia..|by apply Hpr|done].
    + done.
    + intros Hc. destruct (pi_cache0 Hc) as (? & ? & Hne). split_and!; [done..|].
      intros j Hj Hpj%Hpr. rewrite Ht. by apply Hne.
  - by apply Hpr.
  - intros f (HfO & Hft & Hfc). split_and!; [done| |done]. intros j Hj Hpj%Hpr. rewrite Ht. by apply Hft.
  - intros f (HfF & Hft & Hfc). split; [|done]. split_and!; [done| |done].
    intros j Hj Hpj%Hpr. rewrite Ht. by apply Hft.
  - intros v. apply translate_same; [done|apply Hpr|]. intros Hpv.
    destruct (pi_table _ _ _ Hinv _ (pd_index_range v) Hpv) as [? _]. split_and!; [apply Ht|lia|lia|done].
Qed.

Lemma update_flags_fit flags e :
  fits entry_widths (pde_fields flags) -> fits entry_widths (pde_fields e) ->
  fits entry_widths (pde_fields (mkPde (pde_present flags) (pde_read_write flags)
    (pde_user_supervisor flags) (pde_write_through flags) (pde_cache_disable flags)
    (pde_accessed flags) (pde_reserved_zero flags) (pde_page_size flags) (pde_ignored flags)
    (pde_available flags) (pde_page_table_base e))).
Proof.
  intros Hf Hb. unfold fits, entry_widths, pde_fields in *. cbn.
  repeat (apply Forall2_cons_1 in Hf as [? Hf]). repeat (apply Forall2_cons_1 in Hb as [? Hb]).
  repeat (constructor; [lia|]). constructor.
Qed.

(** Changing the flags of a present directory entry changes no translation. *)
Lemma update_flags_spec s F O i flags :
  pg_inv s F O -> 0 <= i < 1024 -> table_present s i ->
  fits entry_widths (pde_fields flags) -> pde_present flags = 1 ->
  let s' := paging_update_pde_flags i flags s in
  pg_inv s' F O /\ table_present s' i /\ (forall f, data_frame s O f -> data_frame s' O f) /\
  undisturbed s F s' F /\
  forall v, paging_get_physical_address v s' = paging_get_physical_address v s.
Proof.
  intros Hinv Hi Hp Hf Hf1. apply replace_pde; try done.
  apply update_flags_fit; [done|]. apply pde_of_word_fits.
Qed.

(** The physical address of a byte of a mapped page. *)
Lemma page_address base v :
  0 <= base < 2 ^ 20 -> Z.lor (shl32 base 12) (PAGE_OFFSET v) = 4096 * base + v mod 4096.
Proof.
  intros Hb. unfold shl32, PAGE_OFFSET. change 0xFFF with (Z.ones 12). rewrite Z.land_ones by lia.
  change (2 ^ 12) with 4096. pose proof (Z.mod_pos_bound v 4096 ltac:(lia)).
  rewrite Z.shiftl_mul_pow2, u32_small by lia. change (2 ^ 12) with 4096.
  change 4096 with (2 ^ 12) in *. rewrite lor_low_bits by lia. lia.
Qed.

Lemma install_flags_fit flags p :
  fits entry_widths (pte_fields flags) -> in32 p ->
  fits entry_widths (pte_fields (mkPte (pte_present flags) (pte_read_write flags)
    (pte_user_supervisor flags) (pte_write_through flags) (pte_cache_disable flags)
    (pte_accessed flags) (pte_dirty flags) (pte_page_attribute_table flags) (pte_global flags)
    (pte_available flags) (Z.shiftr p 12))).
Proof.
  intros Hf Hp. unfold fits, entry_widths, pte_fields in *. cbn.
  repeat (apply Forall2_cons_1 in Hf as [? Hf]). repeat (constructor; [lia|]). constructor; [|constructor].
  rewrite Z.shiftr_div_pow2 by lia. change (2 ^ 12) with 4096.
  split; [apply Z.div_pos; lia|]. apply Z.div_lt_upper_bound; lia.
Qed.

(** Installing the mapping of a page in a present table. *)
Lemma install_spec s F O virt phys flags :
  pg_inv s F O -> in32 virt -> in32 phys -> table_present s (PAGE_DIRECTORY_INDEX virt) ->
  fits entry_widths (pte_fields flags) -> pte_present flags = 1 ->
  let s' := paging_install_pte (paging_get_page_table (get_pde (PAGE_DIRECTORY_INDEX virt) s))
              (PAGE_TABLE_INDEX virt) (PAGE_ALIGN_DOWN phys) flags s in
  pg_inv s' F O /\ undisturbed s F s' F /\
  forall v, in32 v -> paging_get_physical_address v s' =
    if decide (v / 4096 = virt / 4096) then Some (4096 * (phys / 4096) + v mod 4096)
    else paging_get_physical_address v s.
Proof.
  intros Hinv Hv Hph Hp Hf Hf1 s'. destruct (align_down_same phys Hph) as [Hpr Hpd].
  destruct (put_entry s F O (PAGE_DIRECTORY_INDEX virt) (PAGE_TABLE_INDEX virt)
    (mkPte (pte_present flags) (pte_read_write flags)
    (pte_user_supervisor flags) (pte_write_through flags) (pte_cache_disable flags)
    (pte_accessed flags) (pte_dirty flags) (pte_page_attribute_table flags) (pte_global flags)
    (pte_available flags) (Z.shiftr (PAGE_ALIGN_DOWN phys) 12)) Hinv (pd_index_range _) Hp
    (pt_index_range _) (install_flags_fit _ _ Hf Hpr)) as (Hinv' & Hun & Htr).
  split; [exact Hinv'|]. split; [exact Hun|]. intros v Hv'. unfold s', paging_install_pte. rewrite (Htr v). cbn [pte_present pte_page_frame_base].
  rewrite Hf1. destruct (decide (v / 4096 = virt / 4096)) as [He|Hne].
  - rewrite decide_True by (by apply page_indices). cbn [Z.eqb].
    rewrite Z.shiftr_div_pow2 by lia. change (2 ^ 12) with 4096. rewrite Hpd, page_address; [done|].
    split; [apply Z.div_pos; lia|]. apply Z.div_lt_upper_bound; lia.
  - rewrite decide_False; [done|]. intros Hi. by apply Hne, page_indices.
Qed.

(** Mapping a page. *)
Lemma map_page_spec s F O virt phys pde_flags pte_flags :
  pg_inv s F O -> in32 virt -> in32 phys ->
  fits entry_widths (pde_fields pde_flags) -> pde_present pde_flags = 1 ->
  fits entry_widths (pte_fields pte_flags) -> pte_present pte_flags = 1 ->
  exists r s' F' O', paging_map_page realtime virt phys pde_flags pte_flags s = Some (r, s') /\
    pg_inv s' F' O' /\ (F' ⊆ F) /\ (O ⊆ O') /\
    (forall f, data_frame s O f -> data_frame s' O' f) /\ undisturbed s F s' F' /\
    forall v, in32 v -> paging_get_physical_address v s' =
      if decide (r = true /\ v / 4096 = virt / 4096) then Some (4096 * (phys / 4096) + v mod 4096)
      else paging_get_physical_address v s.
Proof.
  intros Hinv Hv Hph Hf Hf1 Hg Hg1. unfold paging_map_page. rewrite (pi_active _ _ _ Hinv).
  cbn [negb]. cbv zeta. destruct (align_down_indices virt Hv) as [-> ->].
  set (i := PAGE_DIRECTORY_INDEX virt). pose proof (pd_index_range virt) as Hi. fold i in Hi.
  destruct (Z.eqb_spec (pde_present (get_pde i s)) 0) as [Hz|Hp].
  - destruct (create_table_spec s F O i pde_flags) as (r & s1 & -> & Hr); [done..|by intros ?|done|].
    cbn [mbind option_bind].
    destruct Hr as [(-> & Hinv1 & Hst & Hm & Hc)|(-> & F' & O' & HF & HO & Hinv2 & Hp2 & Hzero & Hoth & Hw & Hdf & Hun)]; cbn [negb].
    + exists false, s1, F, O. split_and!; [done..| | |].
      { intros f Hdf. apply (data_frame_same s _ O); [done..| |done]. rewrite Hc. intros Hn _. by apply Hdf. }
      { intros f Hf0. split; [apply (calm_same s _ F); [done..| |done]; rewrite Hc; intros Hn _; by apply Hf0|].
        intros q _ _. by rewrite Hm. }
      intros v _. rewrite decide_False by (by intros [? _]).
      destruct Hst as (Ha & Hd & _). assert (Hpde : forall j, get_pde j s1 = get_pde j s)
        by (intros; unfold get_pde; by rewrite Hd).
      apply translate_same; [done|unfold table_present; by rewrite Hpde|]. intros Hpv.
      destruct (pi_table _ _ _ Hinv _ (pd_index_range v) Hpv) as [? _].
      unfold table_of, word_at in *. rewrite Hpde, Hm. split_and!; [done|lia|lia|done].
    + set (s2 := with_owned i 1 _ s1) in *.
      destruct (install_spec s2 F' O' virt phys pte_flags) as (Hinv3 & Hun3 & Htr); [done..|].
      eexists true, _, F', O'. split; [done|]. split; [exact Hinv3|]. split; [done|]. split; [done|].
      split; [intros f Hfd; exact (Hdf f Hfd)|]. split; [by eapply undisturbed_trans|].
      intros v Hv'. rewrite Htr by done. destruct (decide (v / 4096 = virt / 4096)) as [He|Hne].
      { by rewrite decide_True. }
      rewrite decide_False by (by intros [_ ?]).
      destruct (decide (PAGE_DIRECTORY_INDEX v = i)) as [Hvi|Hvi].
      * rewrite (translate_unfold s2 v F' O' Hinv2), (translate_unfold s v F O Hinv). cbv zeta.
        rewrite Hvi, Hzero, Hz by apply pt_index_range.
        destruct (Z.eqb_spec (pde_present (get_pde i s2)) 0); done.
      * pose proof (Hoth _ (pd_index_range v) Hvi) as Hpde.
        apply translate_same; [by rewrite (pi_active _ _ _ Hinv2), (pi_active _ _ _ Hinv)|
          unfold table_present; by rewrite Hpde|]. intros Hpv.
        destruct (pi_table _ _ _ Hinv _ (pd_index_range v) Hpv) as [? HnF].
        unfold table_of at 1. rewrite Hpde. fold (table_of s (PAGE_DIRECTORY_INDEX v)).
        split_and!; [done|lia|lia|]. apply Hw; [lia|apply pt_index_range|done|].
        intros He. apply Hvi. symmetry. eapply (pi_inj _ _ _ Hinv2); try done; try apply pd_index_range.
        { unfold table_present. by rewrite Hpde. }
        { rewrite <- He. unfold table_of. by rewrite Hpde. }
  - destruct (update_flags_spec s F O i pde_flags) as (Hinv1 & Hp1 & Hdf & Hun & Hsame); [done..|].
    destruct (install_spec _ F O virt phys pte_flags Hinv1) as (Hinv3 & Hun3 & Htr); [done..|].
    eexists true, _, F, O. split; [done|]. split; [exact Hinv3|]. split; [done|]. split; [done|].
    split; [intros f Hfd; exact (Hdf f Hfd)|]. split; [by eapply undisturbed_trans|].
    intros v Hv'. rewrite Htr by done. rewrite Hsame. repeat case_decide; tauto.
Qed.

(** A page table is refused only when no frame is free. *)
Lemma allocate_refused s F O s' :
  pg_inv s F O -> paging_allocate_page_table_frame realtime s = Some (0, s') -> F = ∅.
Proof.
  intros Hinv. pose proof (pi_frames _ _ _ Hinv) as Hfa. unfold paging_allocate_page_table_frame, page_frame_allocate.
  assert (Hone : forall a s1, fa_inv a F O -> ('(p, a) ← page_frame_allocate_order 0 a; Some (p, with_frames a s1)) = Some (0, s') -> F = ∅).
  { intros a s1 Ha He. destruct (page_frame_allocate_order 0 a) as [[p a']|] eqn:E; [|done]. injection He as -> _. by eapply fa_exhausted. }
  destruct realtime; [by apply Hone|].
  destruct (Z.eqb_spec (paging_cached_page_table_phys s) 0) as [|Hnz]; cbn [negb]; [|by intros [= ? _]].
  destruct (fa_allocate _ F O 1 Hfa) as (b & a & -> & Hp); [lia|]. cbn [mbind option_bind].
  destruct Hp as [(-> & Hfa' & _)|(Hb & _)]; cbn [negb Z.eqb]; [by apply Hone|].
  destruct (Z.eqb_spec b 0) as [->|]; [destruct Hb as (_ & ? & _); lia|]. by intros [= ? _].
Qed.

Lemma map_refused s F O virt phys pde_flags pte_flags s' :
  pg_inv s F O -> paging_map_page realtime virt phys pde_flags pte_flags s = Some (false, s') -> F = ∅.
Proof.
  intros Hinv. unfold paging_map_page, paging_create_page_table. rewrite (pi_active _ _ _ Hinv). cbn [negb].
  destruct (_ =? 0); [|done]. destruct (paging_allocate_page_table_frame realtime s) as [[p s1]|] eqn:E; [|done]. cbn [mbind option_bind].
  destruct (Z.eqb_spec p 0) as [->|]; [|done]. intros _. by eapply allocate_refused.
Qed.

Lemma table_empty_spec s i :
  0 <= table_of s i < 2 ^ 18 ->
  paging_is_page_table_empty (paging_get_page_table (get_pde i s)) s = true <->
  forall k, 0 <= k < 1024 -> pte_present (pte_of_word (word_at s (table_of s i) k)) = 0.
Proof.
  intros Hb. unfold paging_is_page_table_empty. rewrite forall_range_true.
  split; intros Hall k Hk.
  - specialize (Hall k ltac:(lia)). rewrite get_pte_word in Hall by done. by apply Z.eqb_eq.
  - rewrite get_pte_word by lia. apply Z.eqb_eq, Hall. lia.
Qed.

(** Taking a table out of the directory and giving its frame back. *)
Lemma drop_table s F O i :
  pg_inv s F O -> zget (page_table_runtime_owned s) i <> 0 ->
  (forall k, 0 <= k < 1024 -> pte_present (pte_of_word (word_at s (table_of s i) k)) = 0) ->
  let count := page_table_runtime_owned_count s in
  let s1 := with_owned i 0 (if 0 <? count then count ⊟ 1 else count) (with_pde i zero_pde s) in
  exists a, page_frame_free (PAGE_FRAME_ADDR (get_pde i s)) (frames_state s1) = Some a /\
    pg_inv (with_frames a s1) ({[table_of s i]} ∪ F) (O ∖ {[table_of s i]}) /\
    (forall f, data_frame s O f -> data_frame (with_frames a s1) (O ∖ {[table_of s i]}) f) /\
    undisturbed s F (with_frames a s1) ({[table_of s i]} ∪ F) /\
    forall v, paging_get_physical_address v (with_frames a s1) = paging_get_physical_address v s.
Proof.
  intros Hinv Hown Hempty count s1. destruct (pi_owned _ _ _ Hinv i Hown) as (Hi & Hp & HO).
  destruct (pi_table _ _ _ Hinv i Hi Hp) as [Hr HF]. set (b := table_of s i) in *.
  assert (Haddr : PAGE_FRAME_ADDR (get_pde i s) = 4096 * b).
  { unfold PAGE_FRAME_ADDR, shl32. fold (table_of s i). fold b. rewrite Z.shiftl_mul_pow2 by lia.
    change (2 ^ 12) with 4096. rewrite u32_small; lia. }
  assert (Hdiv : 4096 * b / 4096 = b) by (rewrite Z.mul_comm; by apply Z.div_mul).
  assert (Hbk : block_ok 0 (4096 * b)).
  { split_and!; try lia. change (block_bytes 0) with 4096. rewrite Z.mul_comm. by apply Z.mod_mul. }
  destruct (fa_free (frames_state s) F O (4096 * b)) as (a & Hfree & Hfa & Hag);
    [apply Hinv|done|by rewrite Hdiv|]. rewrite Hdiv in *.
  exists a. rewrite Haddr. split; [done|].
  assert (Hget : forall j, get_pde j (with_frames a s1) = if decide (i = j) then zero_pde else get_pde j s).
  { intros j. apply (get_with_pde s i j zero_pde), zero_fits. }
  assert (Hpr : forall j, table_present (with_frames a s1) j <-> j <> i /\ table_present s j).
  { intros j. unfold table_present. rewrite Hget. case_decide; [subst|]; [split; [done|by intros [? _]]|].
    split; [auto|tauto]. }
  assert (Ht : forall j, j <> i -> table_of (with_frames a s1) j = table_of s j).
  { intros j Hj. unfold table_of. rewrite Hget. by rewrite decide_False. }
  assert (Hne : forall j, 0 <= j < 1024 -> j <> i -> table_present s j -> table_of s j <> b).
  { intros j Hj Hji Hpj He. apply Hji. by eapply (pi_inj _ _ _ Hinv). }
  split_and!.
  - destruct Hinv. constructor; [done|done|..].
    + intros j Hj [Hji Hpj]%Hpr. rewrite Ht by done. destruct (pi_table0 j Hj Hpj) as [? Hn].
      split; [done|]. intros [He%elem_of_singleton|]%elem_of_union; [|done]. by apply (Hne j).
    + intros j k Hj Hk [? ?]%Hpr [? ?]%Hpr. rewrite !Ht by done. by apply pi_inj0.
    + intros j. cbn. rewrite zget_insert. case_decide; [done|]. intros Hj.
      destruct (pi_owned0 j Hj) as (? & ? & ?). rewrite Hpr, Ht by done. split_and!; [lia|lia|done|done|].
      apply elem_of_difference. split; [done|]. intros He%elem_of_singleton. by apply (Hne j).
    + cbn. rewrite count_flags_insert; [|apply NoDup_seqZ|apply elem_of_seqZ; lia].
      fold count in pi_count0. rewrite <- pi_count0. unfold flag. destruct (Z.eqb_spec (zget (page_table_runtime_owned s) i) 0); [done|].
      pose proof (count_flags_insert (seqZ 0 1024) (page_table_runtime_owned s) i 0 (NoDup_seqZ _ _) ltac:(apply elem_of_seqZ; lia)) as Hc.
      pose proof (count_flags_bound (seqZ 0 1024) (<[i:=0]> (page_table_runtime_owned s))) as Hb0.
      pose proof (count_flags_bound (seqZ 0 1024) (page_table_runtime_owned s)) as Hb1.
      rewrite length_seqZ in Hb1. unfold flag in Hc. destruct (Z.eqb_spec (zget (page_table_runtime_owned s) i) 0); [done|].
      destruct (Z.ltb_spec 0 count); [rewrite sub32_small; cbn in *; lia|cbn in *; lia].
    + cbn. intros Hc. destruct (pi_cache0 Hc) as (Hcb & HcO & Hcne). split_and!; [done| |].
      * apply elem_of_difference. split; [done|]. intros He%elem_of_singleton. by apply (Hcne i).
      * intros j Hj [Hji Hpj]%Hpr. rewrite Ht by done. by apply Hcne.
  - intros f (HfO & Hft & Hfc). split_and!; [|intros j Hj [Hji Hpj]%Hpr; rewrite Ht by done; by apply Hft|done].
    apply elem_of_difference. split; [done|]. intros He%elem_of_singleton. by apply (Hft i).
  - intros f (HfF & Hft & Hfc). assert (Hfb : f ∉ {[b]} ∪ F).
    { intros [He%elem_of_singleton|]%elem_of_union; [|done]. by apply (Hft i). }
    split; [|by eapply agrees_same_words].
    split_and!; [done|intros j Hj [Hji Hpj]%Hpr; rewrite Ht by done; by apply Hft|done].
  - intros v. destruct (decide (PAGE_DIRECTORY_INDEX v = i)) as [Hvi|Hvi].
    + rewrite (translate_unfold s v F O Hinv). unfold paging_get_physical_address.
      change (active (with_frames a s1)) with (active s). rewrite (pi_active _ _ _ Hinv). cbn [negb]. cbv zeta.
      rewrite Hget, Hvi, decide_True by done. fold b. rewrite Hempty by apply pt_index_range.
      cbn. by case_match.
    + apply translate_same; [done|rewrite Hpr; tauto|]. intros Hpv.
      destruct (pi_table _ _ _ Hinv _ (pd_index_range v) Hpv) as [? HnF]. rewrite Ht by done.
      split_and!; [done|lia|lia|]. apply (agrees_word ({[b]} ∪ F) s (with_frames a s1)); [done|lia|apply pt_index_range|].
      intros [He%elem_of_singleton|]%elem_of_union; [|done]. revert He. apply Hne; [apply pd_index_range|done|done].
Qed.

Lemma move_frame (F O : gset Z) b :
  b ∈ O -> (F ⊆ {[b]} ∪ F) /\ (O ∖ {[b]} ⊆ O) /\ {[b]} ∪ F ∪ O ∖ {[b]} = F ∪ O.
Proof.
  intros Hb. split_and!; [set_solver..|]. apply set_eq. intros x. destruct (decide (x = b)); set_solver.
Qed.

Lemma zero_pte_fits : fits entry_widths (pte_fields zero_pte).
Proof. unfold fits, entry_widths, pte_fields. simpl. repeat (constructor; [lia|]). constructor. Qed.

(** Pages translate as a whole. *)
Lemma same_page_none s F O virt v :
  pg_inv s F O -> in32 virt -> in32 v -> v / 4096 = virt / 4096 ->
  paging_get_physical_address virt s = None -> paging_get_physical_address v s = None.
Proof.
  intros Hinv Hv Hv' [Hd1 Hd2]%page_indices Hn; [|done..].
  rewrite (translate_unfold s virt F O Hinv) in Hn. rewrite (translate_unfold s v F O Hinv).
  cbv zeta in *. rewrite Hd1, Hd2. by repeat case_match.
Qed.

(** Unmapping a page. *)
Lemma unmap_page_spec s F O virt :
  pg_inv s F O -> in32 virt ->
  exists r s' F' O', paging_unmap_page virt s = Some (r, s') /\
    pg_inv s' F' O' /\ (F ⊆ F') /\ (O' ⊆ O) /\ F' ∪ O' = F ∪ O /\
    (forall f, data_frame s O f -> data_frame s' O' f) /\ undisturbed s F s' F' /\
    (r = true <-> is_Some (paging_get_physical_address virt s)) /\
    forall v, in32 v -> paging_get_physical_address v s' =
      if decide (v / 4096 = virt / 4096) then None else paging_get_physical_address v s.
Proof.
  intros Hinv Hv.
  assert (Hnone : paging_get_physical_address virt s = None ->
    forall v, in32 v -> paging_get_physical_address v s =
      if decide (v / 4096 = virt / 4096) then None else paging_get_physical_address v s).
  { intros Hn v Hv'. case_decide as Hd; [|done]. by apply (same_page_none s F O virt). }
  unfold paging_unmap_page. rewrite (pi_active _ _ _ Hinv). cbn [negb]. cbv zeta.
  destruct (align_down_indices virt Hv) as [-> ->].
  set (i := PAGE_DIRECTORY_INDEX virt) in *. pose proof (pd_index_range virt) as Hi. fold i in Hi.
  pose proof (translate_unfold s virt F O Hinv) as Htr. cbv zeta in Htr. fold i in Htr.
  destruct (Z.eqb_spec (pde_present (get_pde i s)) 0) as [Hz|Hp].
  { exists false, s, F, O. split_and!; try done; [|by apply Hnone]. rewrite Htr. split; [done|by intros []]. }
  destruct (pi_table _ _ _ Hinv i Hi Hp) as [Hr _].
  rewrite get_pte_word by (lia || apply pt_index_range).
  destruct (Z.eqb_spec (pte_present (pte_of_word (word_at s (table_of s i) (PAGE_TABLE_INDEX virt)))) 0) as [Hz|Hpt].
  { exists false, s, F, O. split_and!; try done; [|by apply Hnone]. rewrite Htr. split; [done|by intros []]. }
  destruct (put_entry s F O i (PAGE_TABLE_INDEX virt) zero_pte Hinv Hi Hp (pt_index_range _) zero_pte_fits)
    as (Hinv1 & Hun1 & Htr1).
  change (put_pte _ _ zero_pte s) with
    (paging_clear_pte (paging_get_page_table (get_pde i s)) (PAGE_TABLE_INDEX virt) s) in Hinv1, Hun1, Htr1.
  set (s1 := paging_clear_pte _ _ s) in *.
  assert (Htr1' : forall v, in32 v -> paging_get_physical_address v s1 =
    if decide (v / 4096 = virt / 4096) then None else paging_get_physical_address v s).
  { intros v Hv'. rewrite Htr1. destruct (decide (v / 4096 = virt / 4096)) as [He|Hne].
    - by rewrite decide_True by (by apply page_indices).
    - rewrite decide_False; [done|]. intros Hx. by apply Hne, page_indices. }
  assert (Hyes : true = true <-> is_Some (paging_get_physical_address virt s)).
  { rewrite Htr. split; [by eexists|done]. }
  destruct (Z.eqb_spec (zget (page_table_runtime_owned s1) i) 0) as [Hno|Hown]; cbn [negb andb].
  { by exists true, s1, F, O. }
  change (get_pde i s) with (get_pde i s1).
  destruct (paging_is_page_table_empty (paging_get_page_table (get_pde i s1)) s1) eqn:Ee.
  2:{ by exists true, s1, F, O. }
  rewrite (table_empty_spec s1 i) in Ee by (change (table_of s1 i) with (table_of s i); lia).
  destruct (drop_table s1 F O i Hinv1 Hown Ee) as (a & Ha & Hinv2 & Hdf & Hun2 & Htr2).
  change (page_table_runtime_owned_count (with_pde i zero_pde s1)) with (page_table_runtime_owned_count s1).
  rewrite Ha. cbn [mbind option_bind].
  destruct (pi_owned _ _ _ Hinv1 i Hown) as (_ & _ & HO).
  eexists true, _, _, _. split; [done|]. split; [exact Hinv2|].
  destruct (move_frame F O (table_of s1 i) HO) as (H1 & H2 & H3).
  split; [exact H1|]. split; [exact H2|]. split; [exact H3|].
  split; [intros f Hf; exact (Hdf f Hf)|]. split; [by eapply undisturbed_trans|].
  split; [done|]. intros v Hv'. rewrite Htr2. by apply Htr1'.
Qed.

Lemma translate_entry s F O v pte :
  pg_inv s F O -> table_present s (PAGE_DIRECTORY_INDEX v) ->
  pte = pte_of_word (word_at s (table_of s (PAGE_DIRECTORY_INDEX v)) (PAGE_TABLE_INDEX v)) ->
  paging_get_physical_address v s =
    if pte_present pte =? 0 then None
    else Some (Z.lor (shl32 (pte_page_frame_base pte) 12) (PAGE_OFFSET v)).
Proof.
  intros Hinv Hp ->. rewrite (translate_unfold s v F O Hinv). cbv zeta.
  by destruct (Z.eqb_spec (pde_present (get_pde (PAGE_DIRECTORY_INDEX v) s)) 0).
Qed.

Lemma read_only_unfold s v F O :
  pg_inv s F O -> in32 v ->
  let i := PAGE_DIRECTORY_INDEX v in
  paging_page_is_read_only v s =
    if pde_present (get_pde i s) =? 0 then None
    else
      let pte := pte_of_word (word_at s (table_of s i) (PAGE_TABLE_INDEX v)) in
      if pte_present pte =? 0 then None else Some (pte_read_write pte =? 0).
Proof.
  intros Hinv Hv i. unfold paging_page_is_read_only. rewrite (pi_active _ _ _ Hinv). cbn [negb]. cbv zeta.
  destruct (align_down_indices v Hv) as [-> ->]. fold i.
  destruct (Z.eqb_spec (pde_present (get_pde i s)) 0) as [E|E]; [done|].
  destruct (pi_table _ _ _ Hinv i (pd_index_range v) E) as [Hr _].
  rewrite get_pte_word by (lia || apply pt_index_range). done.
Qed.

Lemma put_entry_read_only s F O i k e :
  pg_inv s F O -> 0 <= i < 1024 -> table_present s i -> 0 <= k < 1024 ->
  fits entry_widths (pte_fields e) ->
  forall v, in32 v ->
    paging_page_is_read_only v (put_pte (paging_get_page_table (get_pde i s)) k e s) =
    if decide (PAGE_DIRECTORY_INDEX v = i /\ PAGE_TABLE_INDEX v = k) then
      if pte_present e =? 0 then None else Some (pte_read_write e =? 0)
    else paging_page_is_read_only v s.
Proof.
  intros Hinv Hi Hp Hk Hf v Hv.
  destruct (put_entry s F O i k e Hinv Hi Hp Hk Hf) as (Hinv' & _).
  destruct (pi_table _ _ _ Hinv i Hi Hp) as [Hr _].
  destruct (put_pte_words s (table_of s i) k e ltac:(lia) Hk) as (Hw & Hwo & _).
  assert (Haddr : phys_to_virt (shl32 (table_of s i) 12) = paging_get_page_table (get_pde i s)) by done.
  rewrite Haddr in Hw, Hwo.
  rewrite (read_only_unfold _ v F O Hinv' Hv), (read_only_unfold s v F O Hinv Hv). cbv zeta.
  assert (Hg : forall j, get_pde j (put_pte (paging_get_page_table (get_pde i s)) k e s) = get_pde j s) by done.
  assert (Ht : forall j, table_of (put_pte (paging_get_page_table (get_pde i s)) k e s) j = table_of s j) by done.
  rewrite Hg, Ht. unfold table_present in *. destruct (decide _) as [[Hd1 Hd2]|Hne].
  - rewrite Hd1, Hd2, Hw, pte_roundtrip by done.
    destruct (Z.eqb_spec (pde_present (get_pde i s)) 0); done.
  - destruct (Z.eqb_spec (pde_present (get_pde (PAGE_DIRECTORY_INDEX v) s)) 0) as [|Hpv]; [done|].
    destruct (pi_table _ _ _ Hinv _ (pd_index_range v) Hpv) as [? _].
    rewrite Hwo; [done|lia|apply pt_index_range|]. intros [He1 He2]. apply Hne. split; [|done].
    by eapply (pi_inj _ _ _ Hinv); try done; apply pd_index_range.
Qed.

Lemma set_read_write_fields v e :
  pte_present (set_pte_read_write v e) = pte_present e /\
  pte_page_frame_base (set_pte_read_write v e) = pte_page_frame_base e /\
  pte_read_write (set_pte_read_write v e) = v.
Proof. done. Qed.

Lemma read_only_fit e :
  fits entry_widths (pte_fields e) -> fits entry_widths (pte_fields (set_pte_read_write 0 e)).
Proof.
  intros Hf. unfold fits, entry_widths, pte_fields in *. cbn.
  repeat (apply Forall2_cons_1 in Hf as [? Hf]). repeat (constructor; [lia|]). constructor.
Qed.

(** Protecting a page keeps every translation, and makes that page and no
    other read-only. *)
Lemma set_read_only_spec s F O virt :
  pg_inv s F O -> in32 virt ->
  exists r s', paging_set_page_read_only virt s = (r, s') /\ pg_inv s' F O /\
    (r = true <-> is_Some (paging_get_physical_address virt s)) /\
    (forall v, paging_get_physical_address v s' = paging_get_physical_address v s) /\
    forall v, in32 v -> paging_page_is_read_only v s' =
      if decide (r = true /\ v / 4096 = virt / 4096) then Some true else paging_page_is_read_only v s.
Proof.
  intros Hinv Hv. unfold paging_set_page_read_only. rewrite (pi_active _ _ _ Hinv). cbn [negb]. cbv zeta.
  destruct (align_down_indices virt Hv) as [-> ->].
  set (i := PAGE_DIRECTORY_INDEX virt) in *. set (k := PAGE_TABLE_INDEX virt).
  pose proof (pd_index_range virt) as Hi. fold i in Hi. pose proof (pt_index_range virt) as Hk. fold k in Hk.
  pose proof (translate_unfold s virt F O Hinv) as Htr. cbv zeta in Htr. fold i k in Htr.
  assert (Hstay : paging_get_physical_address virt s = None -> exists r s', (false, s) = (r, s') /\ pg_inv s' F O /\
    (r = true <-> is_Some (paging_get_physical_address virt s)) /\
    (forall v, paging_get_physical_address v s' = paging_get_physical_address v s) /\
    forall v, in32 v -> paging_page_is_read_only v s' =
      if decide (r = true /\ v / 4096 = virt / 4096) then Some true else paging_page_is_read_only v s).
  { intros Hn. exists false, s. split; [done|]. split; [done|]. rewrite Hn.
    split; [split; [done|by intros []]|]. split; [done|].
    intros v _. by rewrite decide_False by (by intros [? _]). }
  destruct (Z.eqb_spec (pde_present (get_pde i s)) 0) as [Hz|Hp]; [by apply Hstay|].
  destruct (pi_table _ _ _ Hinv i Hi Hp) as [Hr _].
  rewrite get_pte_word by lia.
  remember (pte_of_word (word_at s (table_of s i) k)) as pte eqn:Epte.
  destruct (Z.eqb_spec (pte_present pte) 0) as [Hz|Hpt]; [by apply Hstay|].
  destruct (set_read_write_fields 0 pte) as (He1 & He2 & He3).
  remember (set_pte_read_write 0 pte) as e eqn:Ee.
  assert (He : fits entry_widths (pte_fields e)) by (rewrite Ee; apply read_only_fit; rewrite Epte; apply pte_of_word_fits).
  destruct (put_entry s F O i k e Hinv Hi Hp Hk He) as (Hinv' & _ & Htr').
  pose proof (put_entry_read_only s F O i k e Hinv Hi Hp Hk He) as Hro.
  exists true. eexists. split; [done|]. split; [exact Hinv'|]. rewrite Htr.
  split; [split; [by eexists|done]|]. split.
  - intros v. rewrite Htr'. case_decide as Hd; [|done]. destruct Hd as [Hd1 Hd2].
    rewrite He1, He2. rewrite (translate_entry s F O v pte); [reflexivity|done|by rewrite Hd1|by rewrite Hd1, Hd2].
  - intros v Hv'. rewrite Hro by done.
    destruct (decide (v / 4096 = virt / 4096)) as [Hsame|Hne].
    + rewrite decide_True by (by apply page_indices). rewrite decide_True by done.
      rewrite He1, He3. destruct (Z.eqb_spec (pte_present pte) 0) as [Hc|_]; [by destruct Hpt|reflexivity].
    + rewrite decide_False by (intros Hx; by apply Hne, page_indices).
      by rewrite decide_False by (by intros [_ ?]).
Qed.

End proofs.

(** ** Properties *)

Section properties.
Context {A : Type} `{FrameAllocator A} (realtime : bool).
Implicit Types s : paging A.

(** C3: Mapping a page on either profile always returns; on success the page
    translates to the given frame and every other page of the address space
    translates as before, on failure every page does; page tables never sit in
    a free frame and the count of run-time tables is exact. *)
Theorem paging_map_correct s F O virt phys pde_flags pte_flags :
  pg_inv s F O -> in32 virt -> in32 phys ->
  fits entry_widths (pde_fields pde_flags) -> pde_present pde_flags = 1 ->
  fits entry_widths (pte_fields pte_flags) -> pte_present pte_flags = 1 ->
  exists r s' F' O', paging_map_page realtime virt phys pde_flags pte_flags s = Some (r, s') /\
    pg_inv s' F' O' /\
    forall v, in32 v -> paging_get_physical_address v s' =
      if decide (r = true /\ v / 4096 = virt / 4096) then Some (4096 * (phys / 4096) + v mod 4096)
      else paging_get_physical_address v s.
Proof.
  intros Hinv Hv Hph Hf Hf1 Hg Hg1.
  destruct (map_page_spec realtime s F O virt phys pde_flags pte_flags) as (r & s' & F' & O' & He & Hinv' & _ & _ & _ & _ & Htr);
    [done..|]. by exists r, s', F', O'.
Qed.

(** C37: Mapping a page that was not mapped and unmapping it again restores
    the translation of every page, and gives back every frame that is not
    still held. *)
Theorem paging_map_unmap_roundtrip s F O virt phys pde_flags pte_flags :
  pg_inv s F O -> in32 virt -> in32 phys ->
  fits entry_widths (pde_fields pde_flags) -> pde_present pde_flags = 1 ->
  fits entry_widths (pte_fields pte_flags) -> pte_present pte_flags = 1 ->
  paging_get_physical_address virt s = None ->
  exists r s1 F1 O1, paging_map_page realtime virt phys pde_flags pte_flags s = Some (r, s1) /\
    pg_inv s1 F1 O1 /\
    (r = true -> exists s2 F2 O2, paging_unmap_page virt s1 = Some (true, s2) /\ pg_inv s2 F2 O2 /\
       (F1 ⊆ F2) /\ F2 ∪ O2 = F1 ∪ O1 /\
       forall v, in32 v -> paging_get_physical_address v s2 = paging_get_physical_address v s).
Proof.
  intros Hinv Hv Hph Hf Hf1 Hg Hg1 Hnone.
  destruct (map_page_spec realtime s F O virt phys pde_flags pte_flags) as (r & s1 & F1 & O1 & He & Hinv1 & _ & _ & _ & _ & Htr);
    [done..|].
  exists r, s1, F1, O1. split_and!; [done..|]. intros ->.
  destruct (unmap_page_spec s1 F1 O1 virt Hinv1 Hv) as (r & s2 & F2 & O2 & He2 & Hinv2 & HF & _ & HFO & _ & _ & Hr & Htr2).
  assert (r = true) as ->.
  { apply Hr. rewrite Htr, decide_True by done. by eexists. }
  exists s2, F2, O2. split_and!; try done. intros v Hv'. rewrite Htr2 by done.
  destruct (decide (v / 4096 = virt / 4096)) as [Hd|Hd].
  - symmetry. by apply (same_page_none s F O virt).
  - rewrite Htr by done. by rewrite decide_False by (by intros [_ ?]).
Qed.

(** Write-protecting a mapped page reports success, keeps every
    translation, and makes exactly the pages of that page frame read-only; an
    unmapped page is reported and nothing changes. *)
Theorem paging_protect_correct s F O virt :
  pg_inv s F O -> in32 virt ->
  exists r s', paging_set_page_read_only virt s = (r, s') /\ pg_inv s' F O /\
    (r = true <-> is_Some (paging_get_physical_address virt s)) /\
    (r = true -> paging_page_is_read_only virt s' = Some true) /\
    (forall v, paging_get_physical_address v s' = paging_get_physical_address v s) /\
    forall v, in32 v -> v / 4096 <> virt / 4096 ->
      paging_page_is_read_only v s' = paging_page_is_read_only v s.
Proof.
  intros Hinv Hv. destruct (set_read_only_spec s F O virt Hinv Hv) as (r & s' & He & Hinv' & Hr & Htr & Hro).
  exists r, s'. split; [done|]. split; [done|]. split; [done|]. split_and!.
  - intros ->. by rewrite Hro, decide_True.
  - done.
  - intros v Hv' Hne. by rewrite Hro, decide_False by (done || by intros [_ ?]).
Qed.
End properties.

(** With no page table present the invariant is the allocator's. *)
Lemma blank_paging_inv {A : Type} `{FrameAllocator A} (a : A) F O :
  fa_inv a F O -> pg_inv (mkPaging true ∅ ∅ 0 0 a) F O.
Proof.
  intros Ha. set (p := mkPaging true ∅ ∅ 0 0 a).
  assert (Hnp : forall i, get_pde i p = zero_pde).
  { intros i. unfold get_pde. cbn [directory p]. rewrite zget_empty.
    change 0 with (pde_word zero_pde). apply pde_roundtrip, zero_fits. }
  assert (Hno : forall i, ~ table_present p i)
    by (intros i; unfold table_present; rewrite Hnp; cbn; lia).
  constructor; [done|done|..].
  - intros i _ Hp. exfalso. exact (Hno i Hp).
  - intros i j _ _ Hp. exfalso. exact (Hno i Hp).
  - intros i Hi. exfalso. apply Hi. apply zget_empty.
  - cbn [page_table_runtime_owned_count page_table_runtime_owned p]. by rewrite count_flags_empty.
  - intros Hc. exfalso. apply Hc. reflexivity.
Qed.

(** ** The server's paging on its buddy allocator *)

Definition example_paging : paging Buddy.buddy :=
  mkPaging true ∅ ∅ 0 0 BuddySpec.example_state.

Definition rw_pde : PageDirectoryEntry := mkPde 1 1 0 0 0 0 0 0 0 0 0.
Definition rw_pte : PageTableEntry := mkPte 1 1 0 0 0 0 0 0 0 0 0.

Section example.
#[local] Opaque BuddySpec.example_state.

Lemma boot_local : 0 <= 0 < Numa.numa_policy_get_node_count Numa.numa_boot.
Proof. cbn. lia. Qed.

#[local] Instance example_frames : FrameAllocator Buddy.buddy :=
  server_frames Numa.numa_boot 0 Numa.numa_boot_wf boot_local.

Lemma example_paging_inv :
  pg_inv example_paging
    (BuddySpec.afree BuddySpec.example_sets) ∅.
Proof.
  destruct BuddySpec.example_refines as (H1 & H2 & L & H3 & H4).
  apply blank_paging_inv. split; [exact H1|]. split; [exact H2|]. exists L. split; [exact H3|exact H4].
Qed.

Lemma rw_pde_fits : fits entry_widths (pde_fields rw_pde).
Proof. unfold fits, entry_widths, pde_fields. simpl. repeat (constructor; [lia|]). constructor. Qed.

Lemma rw_pte_fits : fits entry_widths (pte_fields rw_pte).
Proof. unfold fits, entry_widths, pte_fields. simpl. repeat (constructor; [lia|]). constructor. Qed.

Lemma paging_map_correct_witness :
  exists r s' F' O',
    paging_map_page false 0xD0001000 0x00110000 rw_pde rw_pte example_paging = Some (r, s') /\
    pg_inv s' F' O' /\
    forall v, in32 v -> paging_get_physical_address v s' =
      if decide (r = true /\ v / 4096 = 0xD0001000 / 4096)
      then Some (4096 * (0x00110000 / 4096) + v mod 4096)
      else paging_get_physical_address v example_paging.
Proof.
  apply (paging_map_correct false example_paging (BuddySpec.afree BuddySpec.example_sets) ∅);
    [apply example_paging_inv|lia|lia|apply rw_pde_fits|reflexivity|apply rw_pte_fits|reflexivity].
Defined.

Lemma example_unmapped v : paging_get_physical_address v example_paging = None.
Proof.
  unfold paging_get_physical_address, get_pde. cbn [directory active example_paging negb]. cbv zeta.
  rewrite zget_empty. change 0 with (pde_word zero_pde) at 1.
  rewrite pde_roundtrip by apply zero_fits. reflexivity.
Qed.

Lemma paging_map_unmap_roundtrip_witness :
  exists r s1 F1 O1,
    paging_map_page false 0xD0001000 0x00110000 rw_pde rw_pte example_paging = Some (r, s1) /\
    pg_inv s1 F1 O1 /\
    (r = true -> exists s2 F2 O2, paging_unmap_page 0xD0001000 s1 = Some (true, s2) /\ pg_inv s2 F2 O2 /\
       (F1 ⊆ F2) /\ F2 ∪ O2 = F1 ∪ O1 /\
       forall v, in32 v -> paging_get_physical_address v s2 = paging_get_physical_address v example_paging).
Proof.
  apply (paging_map_unmap_roundtrip false example_paging (BuddySpec.afree BuddySpec.example_sets) ∅);
    [apply example_paging_inv|lia|lia|apply rw_pde_fits|reflexivity|apply rw_pte_fits|reflexivity|
     apply example_unmapped].
Defined.

Lemma paging_protect_correct_witness :
  exists r s', paging_set_page_read_only 0xD0001000 example_paging = (r, s') /\
    pg_inv s' (BuddySpec.afree BuddySpec.example_sets) ∅ /\
    (r = true <-> is_Some (paging_get_physical_address 0xD0001000 example_paging)) /\
    (r = true -> paging_page_is_read_only 0xD0001000 s' = Some true) /\
    (forall v, paging_get_physical_address v s' = paging_get_physical_address v example_paging) /\
    forall v, in32 v -> v / 4096 <> 0xD0001000 / 4096 ->
      paging_page_is_read_only v s' = paging_page_is_read_only v example_paging.
Proof. apply paging_protect_correct; [apply example_paging_inv|lia]. Defined.
End example.
