(* ===== verification/Vmm.v ===== *)
(** * Virtual memory manager and pinned memory

    Models kernel/kernel/memory/vmm.c and pinned_memory.c: the bitmap of the
    dynamic virtual range, and the allocations that back a range with frames
    through [Paging].  [None] is an access outside the bitmap. *)

From S2P Require Import Prelude Cpu Pmm BuddyProofs FrameAlloc Paging.

Definition KERNEL_VMM_DYNAMIC_START : Z := 0xD0000000.
Definition KERNEL_VMM_DYNAMIC_END : Z := 0xF0000000.
Definition KERNEL_VMM_DYNAMIC_SIZE : Z := KERNEL_VMM_DYNAMIC_END - KERNEL_VMM_DYNAMIC_START.
Definition VMM_PAGE_COUNT : Z := KERNEL_VMM_DYNAMIC_SIZE / PAGE_SIZE.

#[export] Hint Unfold KERNEL_VMM_DYNAMIC_START KERNEL_VMM_DYNAMIC_END : consts.

(** ** The bitmap *)

Definition vmm_bitmap_set (index : Z) (m : zmap) : zmap :=
  <[index / 8 := u8 (Z.lor (zget m (index / 8)) (Z.shiftl 1 (index mod 8)))]> m.

Definition vmm_bitmap_clear (index : Z) (m : zmap) : zmap :=
  <[index / 8 := u8 (Z.land (zget m (index / 8)) (Z.lnot (Z.shiftl 1 (index mod 8))))]> m.

Definition vmm_bitmap_test (index : Z) (m : zmap) : bool :=
  negb (Z.land (zget m (index / 8)) (Z.shiftl 1 (index mod 8)) =? 0).

Definition in_bitmap (index : Z) : bool := (0 <=? index) && (index <? VMM_PAGE_COUNT).

(** The inner loop of the search: the offset of the first page in use. *)
Fixpoint first_used (m : zmap) (i j : Z) (count : nat) : option Z :=
  match count with
  | O => None
  | S count => if vmm_bitmap_test (i ⊞ j) m then Some j else first_used m i (j + 1) count
  end.

(** The outer loop; [Some None] when no run is found. *)
Fixpoint search (fuel : nat) (m : zmap) (page_count i : Z) : option (option Z) :=
  match fuel with
  | O => None
  | S fuel =>
      if i <=? VMM_PAGE_COUNT ⊟ page_count then
        match first_used m i 0 (Z.to_nat page_count) with
        | None => Some (Some i)
        | Some j => search fuel m page_count (i ⊞ (j ⊞ 1))
        end
      else Some None
  end.

(** Every round of the search advances by at least one page. *)
Definition search_fuel : nat := Z.to_nat (VMM_PAGE_COUNT + 2).

(** [for (i = 0; i < count; ++i) vmm_bitmap_set(start + i);] *)
Fixpoint set_range (m : zmap) (start : Z) (count : nat) : option zmap :=
  match count with
  | O => Some m
  | S count =>
      if in_bitmap start then set_range (vmm_bitmap_set start m) (start ⊞ 1) count else None
  end.

(** [for (i = 0; i < count; ++i) if (vmm_bitmap_test(start + i)) return false;] *)
Fixpoint all_clear (m : zmap) (start : Z) (count : nat) : option bool :=
  match count with
  | O => Some true
  | S count =>
      if in_bitmap start then
        if vmm_bitmap_test start m then Some false else all_clear m (start ⊞ 1) count
      else None
  end.

(** ** State and operations *)

Record vmm (A : Type) := mkVmm {
  vmm_bitmap : zmap;
  vmm_last_search_index : Z;
  vmm_initialized : bool;
  pages : paging A }.
Arguments mkVmm {A}.
Arguments vmm_bitmap {A}.
Arguments vmm_last_search_index {A}.
Arguments vmm_initialized {A}.
Arguments pages {A}.

Section operations.
Context {A : Type} `{FrameAllocator A} (realtime : bool).
Abbreviation vmm := (vmm A).

Definition with_pages (p : paging A) (s : vmm) : vmm :=
  mkVmm (vmm_bitmap s) (vmm_last_search_index s) (vmm_initialized s) p.

Definition with_bitmap (m : zmap) (s : vmm) : vmm :=
  mkVmm m (vmm_last_search_index s) (vmm_initialized s) (pages s).

Definition kernel_vmm_initialize (s : vmm) : bool * vmm :=
  (true, mkVmm ∅ 0 true (pages s)).

Definition kernel_vmm_reserve_pages (page_count : Z) (s : vmm) : option (Z * vmm) :=
  if negb (vmm_initialized s) || (page_count =? 0) || (VMM_PAGE_COUNT <? page_count)
  then Some (0, s)
  else
    found ← search search_fuel (vmm_bitmap s) page_count 0;
    match found with
    | None => Some (0, s)
    | Some found_index =>
        m ← set_range (vmm_bitmap s) found_index (Z.to_nat page_count);
        Some (KERNEL_VMM_DYNAMIC_START ⊞ (found_index ⊠ PAGE_SIZE),
              mkVmm m (found_index ⊞ page_count) (vmm_initialized s) (pages s))
    end.

Definition kernel_vmm_reserve_at (virt page_count : Z) (s : vmm) : option (bool * vmm) :=
  if negb (vmm_initialized s) || (virt =? 0) || (page_count =? 0) then Some (false, s)
  else if (virt <? KERNEL_VMM_DYNAMIC_START)
          || (KERNEL_VMM_DYNAMIC_END <? virt ⊞ (page_count ⊠ PAGE_SIZE)) then Some (false, s)
  else
    let start_index := (virt ⊟ KERNEL_VMM_DYNAMIC_START) / PAGE_SIZE in
    clear ← all_clear (vmm_bitmap s) start_index (Z.to_nat page_count);
    if negb clear then Some (false, s)
    else
      m ← set_range (vmm_bitmap s) start_index (Z.to_nat page_count);
      Some (true, with_bitmap m s).

(** One page of [kernel_vmm_free_pages]. *)
Definition free_page (virt index : Z) (s : vmm) : option vmm :=
  p ← match paging_get_physical_address virt (pages s) with
      | Some phys =>
          a ← page_frame_free phys (frames_state (pages s));
          Some (with_frames a (pages s))
      | None => Some (pages s)
      end;
  '(_, p) ← paging_unmap_page virt p;
  if in_bitmap index then
    Some (with_bitmap (vmm_bitmap_clear index (vmm_bitmap s)) (with_pages p s))
  else None.

Fixpoint free_loop (count : nat) (i virt_start start_index : Z) (s : vmm) : option vmm :=
  match count with
  | O => Some s
  | S count =>
      s ← free_page (virt_start ⊞ (i ⊠ PAGE_SIZE)) (start_index ⊞ i) s;
      free_loop count (i + 1) virt_start start_index s
  end.

Definition kernel_vmm_free_pages (ptr page_count : Z) (s : vmm) : option vmm :=
  if negb (vmm_initialized s) || (ptr =? 0) || (page_count =? 0) then Some s
  else if (ptr <? KERNEL_VMM_DYNAMIC_START) || (KERNEL_VMM_DYNAMIC_END <=? ptr) then Some s
  else free_loop (Z.to_nat page_count) 0 ptr ((ptr ⊟ KERNEL_VMM_DYNAMIC_START) / PAGE_SIZE) s.

Definition vmm_pde : PageDirectoryEntry := mkPde 1 1 0 0 0 0 0 0 0 0 0.
Definition vmm_pte : PageTableEntry := mkPte 1 1 0 0 0 0 0 0 0 0 0.

(** The loop of [kernel_vmm_alloc_pages]; the result is the base or NULL. *)
Fixpoint alloc_loop (count : nat) (i virt_base : Z) (s : vmm) : option (Z * vmm) :=
  match count with
  | O => Some (virt_base, s)
  | S count =>
      '(phys, a) ← page_frame_allocate (frames_state (pages s));
      let s := with_pages (with_frames a (pages s)) s in
      if phys =? 0 then
        s ← kernel_vmm_free_pages virt_base i s;
        Some (0, s)
      else
        '(mapped, p) ← paging_map_page realtime (virt_base ⊞ (i ⊠ PAGE_SIZE)) phys vmm_pde vmm_pte (pages s);
        let s := with_pages p s in
        if negb mapped then
          a ← page_frame_free phys (frames_state (pages s));
          s ← kernel_vmm_free_pages virt_base i (with_pages (with_frames a (pages s)) s);
          Some (0, s)
        else alloc_loop count (i + 1) virt_base s
  end.

Definition kernel_vmm_alloc_pages (page_count : Z) (s : vmm) : option (Z * vmm) :=
  '(virt_base, s) ← kernel_vmm_reserve_pages page_count s;
  if virt_base =? 0 then Some (0, s)
  else alloc_loop (Z.to_nat page_count) 0 virt_base s.

End operations.

(** ** Pinned memory *)

Record pinned (A : Type) := mkPinned {
  pinned_virtual_cursor : Z;
  pinned_allocated_pages : Z;
  pinned_released_pages : Z;
  pinned_initialized : bool;
  ranges : vmm A }.
Arguments mkPinned {A}.
Arguments pinned_virtual_cursor {A}.
Arguments pinned_allocated_pages {A}.
Arguments pinned_released_pages {A}.
Arguments pinned_initialized {A}.
Arguments ranges {A}.

Section pinned_operations.
Context {A : Type} `{FrameAllocator A} (realtime : bool).
Abbreviation pinned := (pinned A).

Definition with_ranges (v : vmm A) (s : pinned) : pinned :=
  mkPinned (pinned_virtual_cursor s) (pinned_allocated_pages s) (pinned_released_pages s)
    (pinned_initialized s) v.

Definition count_allocated (s : pinned) : pinned :=
  mkPinned (pinned_virtual_cursor s) (pinned_allocated_pages s ⊞ 1) (pinned_released_pages s)
    (pinned_initialized s) (ranges s).

Definition kernel_pinned_memory_initialize (s : pinned) : bool * pinned :=
  if pinned_initialized s then (true, s)
  else (true, mkPinned 0xE0000000 0 0 true (ranges s)).

Definition pinned_pte : PageTableEntry := mkPte 1 1 0 0 0 0 0 0 0 1 0.

Fixpoint pinned_loop (count : nat) (i start_virt pages_needed : Z) (s : pinned)
    : option (Z * pinned) :=
  match count with
  | O =>
      Some (start_virt,
            mkPinned (start_virt ⊞ (pages_needed ⊠ PAGE_SIZE)) (pinned_allocated_pages s)
              (pinned_released_pages s) (pinned_initialized s) (ranges s))
  | S count =>
      '(phys, a) ← page_frame_allocate (frames_state (pages (ranges s)));
      let v := with_pages (with_frames a (pages (ranges s))) (ranges s) in
      if phys =? 0 then
        v ← kernel_vmm_free_pages start_virt i v;
        Some (0, with_ranges v s)
      else
        '(mapped, p) ← paging_map_page realtime (start_virt ⊞ (i ⊠ PAGE_SIZE)) phys vmm_pde
                         pinned_pte (pages v);
        let v := with_pages p v in
        if negb mapped then
          v ← kernel_vmm_free_pages start_virt i v;
          Some (0, with_ranges v s)
        else pinned_loop count (i + 1) start_virt pages_needed (count_allocated (with_ranges v s))
  end.

Definition kernel_pinned_alloc (size : Z) (s : pinned) : option (Z * pinned) :=
  if negb (pinned_initialized s) || (size =? 0) then Some (0, s)
  else
    let pages_needed := ((size ⊞ PAGE_SIZE) ⊟ 1) / PAGE_SIZE in
    '(reserved, v) ← kernel_vmm_reserve_pages pages_needed (ranges s);
    let s := with_ranges v s in
    if reserved =? 0 then Some (0, s)
    else pinned_loop (Z.to_nat pages_needed) 0 reserved pages_needed s.

(** One page of [kernel_pinned_free]. *)
Definition unpin_page (virt : Z) (s : pinned) : option pinned :=
  let v := ranges s in
  p ← match paging_get_physical_address virt (pages v) with
      | Some phys =>
          a ← page_frame_free phys (frames_state (pages v));
          Some (with_frames a (pages v))
      | None => Some (pages v)
      end;
  '(_, p) ← paging_unmap_page virt p;
  Some (mkPinned (pinned_virtual_cursor s) (pinned_allocated_pages s)
          (pinned_released_pages s ⊞ 1) (pinned_initialized s) (with_pages p v)).

Fixpoint unpin_loop (count : nat) (i start_virt : Z) (s : pinned) : option pinned :=
  match count with
  | O => Some s
  | S count =>
      s ← unpin_page (start_virt ⊞ (i ⊠ PAGE_SIZE)) s;
      unpin_loop count (i + 1) start_virt s
  end.

Definition kernel_pinned_free (ptr size : Z) (s : pinned) : option pinned :=
  if negb (pinned_initialized s) || (ptr =? 0) || (size =? 0) then Some s
  else
    let pages_to_free := ((size ⊞ PAGE_SIZE) ⊟ 1) / PAGE_SIZE in
    s ← unpin_loop (Z.to_nat pages_to_free) 0 ptr s;
    v ← kernel_vmm_free_pages ptr pages_to_free (ranges s);
    Some (with_ranges v s).

End pinned_operations.
