(* ===== verification/VmmProofs.v ===== *)
(** * Correctness of the virtual memory manager

    The bitmap as a set of pages, the first-fit search, and the invariant that
    ties the pages handed out to the frames behind them. *)

From S2P Require Import Prelude Cpu Pmm BuddyProofs FrameAlloc Paging PagingProofs Vmm.

(** ** The bitmap *)

Lemma vmm_page_count : VMM_PAGE_COUNT = 131072.
Proof. done. Qed.

Definition used (m : zmap) (i : Z) : Prop := vmm_bitmap_test i m = true.

Lemma test_bit i m : 0 <= i -> vmm_bitmap_test i m = Z.testbit (zget m (i / 8)) (i mod 8).
Proof. intros Hi. apply byte_testbit. apply Z.mod_pos_bound. lia. Qed.

Lemma same_bit i j : i / 8 = j / 8 -> i mod 8 = j mod 8 -> i = j.
Proof. intros. pose proof (Z.div_mod i 8). pose proof (Z.div_mod j 8). lia. Qed.

Lemma u8_testbit b k : 0 <= k < 8 -> Z.testbit (u8 b) k = Z.testbit b k.
Proof. intros Hk. unfold u8. rewrite Z.mod_pow2_bits_low by lia. done. Qed.

Lemma test_set i j m : 0 <= i -> 0 <= j ->
  vmm_bitmap_test j (vmm_bitmap_set i m) = if decide (i = j) then true else vmm_bitmap_test j m.
Proof.
  intros Hi Hj. rewrite !test_bit by done. unfold vmm_bitmap_set. rewrite zget_insert.
  pose proof (Z.mod_pos_bound i 8 ltac:(lia)). pose proof (Z.mod_pos_bound j 8 ltac:(lia)).
  destruct (decide (i / 8 = j / 8)) as [He|Hne].
  - rewrite u8_testbit, Z.lor_spec, Z.shiftl_1_l, Z.pow2_bits_eqb by lia. rewrite He.
    destruct (decide (i = j)) as [->|Hij]; [by rewrite Z.eqb_refl, orb_true_r|].
    destruct (Z.eqb_spec (i mod 8) (j mod 8)); [by destruct Hij; apply same_bit|apply orb_false_r].
  - rewrite decide_False; [done|]. by intros ->.
Qed.

Lemma test_clear i j m : 0 <= i -> 0 <= j ->
  vmm_bitmap_test j (vmm_bitmap_clear i m) = if decide (i = j) then false else vmm_bitmap_test j m.
Proof.
  intros Hi Hj. rewrite !test_bit by done. unfold vmm_bitmap_clear. rewrite zget_insert.
  pose proof (Z.mod_pos_bound i 8 ltac:(lia)). pose proof (Z.mod_pos_bound j 8 ltac:(lia)).
  destruct (decide (i / 8 = j / 8)) as [He|Hne].
  - rewrite u8_testbit, Z.land_spec, Z.lnot_spec, Z.shiftl_1_l, Z.pow2_bits_eqb by lia. rewrite He.
    destruct (decide (i = j)) as [->|Hij]; [by rewrite Z.eqb_refl, andb_false_r|].
    destruct (Z.eqb_spec (i mod 8) (j mod 8)); [by destruct Hij; apply same_bit|apply andb_true_r].
  - rewrite decide_False; [done|]. by intros ->.
Qed.

(** ** First fit *)

(** Pages [i, i + n) are free. *)
Definition free_run (m : zmap) (i n : Z) : Prop := forall j, i <= j < i + n -> ~ used m j.

Lemma first_used_spec m i : forall count j,
  0 <= i -> 0 <= j -> i + j + Z.of_nat count < 2 ^ 32 ->
  match first_used m i j count with
  | None => free_run m (i + j) (Z.of_nat count)
  | Some x => j <= x < j + Z.of_nat count /\ used m (i + x) /\ free_run m (i + j) (x - j)
  end.
Proof.
  induction count as [|count IH]; intros j Hi Hj Hb; cbn [first_used]; [intros x Hx; lia|].
  rewrite add32_small by lia. destruct (vmm_bitmap_test (i + j) m) eqn:E.
  - split_and!; [lia..|done|]. intros x Hx. lia.
  - specialize (IH (j + 1) Hi ltac:(lia) ltac:(lia)).
    assert (Hj0 : ~ used m (i + j)) by (unfold used; congruence).
    destruct (first_used m i (j + 1) count) as [x|].
    + destruct IH as (H1 & H2 & H3). split_and!; [lia..|done|]. intros y Hy.
      destruct (decide (y = i + j)) as [->|]; [done|]. apply H3. lia.
    + intros y Hy. destruct (decide (y = i + j)) as [->|]; [done|]. apply IH. lia.
Qed.

(** The search finds the lowest run of free pages, or there is none. *)
Lemma search_spec m n : 0 < n <= VMM_PAGE_COUNT -> forall fuel i,
  0 <= i <= VMM_PAGE_COUNT + 1 -> VMM_PAGE_COUNT + 1 - i < Z.of_nat fuel ->
  (forall k, 0 <= k < i -> ~ free_run m k n) ->
  (exists x, search fuel m n i = Some (Some x) /\ i <= x /\ x + n <= VMM_PAGE_COUNT /\ free_run m x n /\
     forall k, 0 <= k < x -> ~ free_run m k n) \/
  (search fuel m n i = Some None /\ forall k, 0 <= k -> k + n <= VMM_PAGE_COUNT -> ~ free_run m k n).
Proof.
  rewrite vmm_page_count. intros Hn. induction fuel as [|fuel IH]; intros i Hi Hf Hlow; [lia|].
  cbn [search]. rewrite vmm_page_count, sub32_small by lia.
  destruct (Z.leb_spec i (131072 - n)) as [Hle|Hgt].
  - pose proof (first_used_spec m i (Z.to_nat n) 0 ltac:(lia) ltac:(lia) ltac:(lia)) as Hfu.
    destruct (first_used m i 0 (Z.to_nat n)) as [j|].
    + rewrite Z2Nat.id in Hfu by lia. destruct Hfu as (Hj & Hu & _).
      rewrite (add32_small j 1), add32_small by lia.
      destruct (IH (i + (j + 1))) as [(x & H1 & H2 & H3 & H4 & H5)|H]; [lia|lia| | |by right].
      * intros k Hk. destruct (decide (k < i)); [apply Hlow; lia|]. intros Hr. apply (Hr (i + j)); [lia|done].
      * left. exists x. split_and!; [done|lia|done|done|done].
    + rewrite Z2Nat.id, Z.add_0_r in Hfu by lia. left. exists i. split_and!; [done|lia|lia|done|done].
  - right. split; [done|]. intros k Hk Hk'. apply Hlow. lia.
Qed.

Lemma set_range_spec count : forall m start,
  0 <= start -> start + Z.of_nat count <= VMM_PAGE_COUNT ->
  exists m', set_range m start count = Some m' /\
    forall j, 0 <= j -> used m' j <-> used m j \/ start <= j < start + Z.of_nat count.
Proof.
  rewrite vmm_page_count. induction count as [|count IH]; intros m start Hs Hb; cbn [set_range].
  - exists m. split; [done|]. intros j Hj. split; [by left|]. intros [|]; [done|lia].
  - unfold in_bitmap. rewrite vmm_page_count.
    destruct (Z.leb_spec 0 start), (Z.ltb_spec start 131072); try lia. cbn [andb].
    rewrite add32_small by lia. destruct (IH (vmm_bitmap_set start m) (start + 1)) as (m' & -> & Hm); [lia..|].
    exists m'. split; [done|]. intros j Hj. rewrite Hm by done. unfold used. rewrite test_set by lia.
    case_decide; [subst; split; [right; lia|by left]|]. split; (intros [|]; [by left|right; lia]).
Qed.

(** ** The invariant *)

Section proofs.
Context {A : Type} `{FrameAllocator A} (realtime : bool).
Implicit Types s : vmm A.

(** The virtual address of a page of the range. *)
Definition page_virt (i : Z) : Z := 0xD0000000 + 4096 * i.

(** [M] maps the pages handed out with memory to their frames: the page is
    marked, translates to the frame, and no two pages share a frame; the
    frame is held and is not a page table. *)
Record vmm_inv s (F O : gset Z) (M : gmap Z Z) : Prop := {
  vi_init : vmm_initialized s = true;
  vi_pages : pg_inv (pages s) F O;
  vi_range : forall i f, M !! i = Some f -> 0 <= i < VMM_PAGE_COUNT;
  vi_used : forall i f, M !! i = Some f -> used (vmm_bitmap s) i;
  vi_data : forall i f, M !! i = Some f -> data_frame (pages s) O f;
  vi_mapped : forall i f, M !! i = Some f ->
                paging_get_physical_address (page_virt i) (pages s) = Some (4096 * f);
  vi_inj : forall i j f, M !! i = Some f -> M !! j = Some f -> i = j }.

Lemma page_virt_range i : 0 <= i < VMM_PAGE_COUNT -> in32 (page_virt i) /\ page_virt i / 4096 = 0xD0000 + i.
Proof.
  rewrite vmm_page_count. intros Hi. unfold page_virt. split; [lia|].
  replace (0xD0000000 + 4096 * i) with ((0xD0000 + i) * 4096) by lia. by apply Z.div_mul.
Qed.

Lemma data_frame_range p F O f : pg_inv p F O -> data_frame p O f -> 0 < f < 2 ^ 18.
Proof. intros Hinv (HO & _). apply (fa_range _ F O f (pi_frames _ _ _ Hinv)). set_solver. Qed.

(** The frames outside [X] that are neither free nor page tables keep their
    state and their words. *)
Definition kept_but (X : Z -> Prop) (p : paging A) (F : gset Z) (p' : paging A) (F' : gset Z) : Prop :=
  forall f, calm p F f -> ~ X f -> calm p' F' f /\ same_words p p' f.

Lemma kept_but_trans X p1 F1 p2 F2 p3 F3 :
  kept_but X p1 F1 p2 F2 -> kept_but X p2 F2 p3 F3 -> kept_but X p1 F1 p3 F3.
Proof.
  intros H1 H2 f Hf HX. destruct (H1 f Hf HX) as [Hf2 Hw1], (H2 f Hf2 HX) as [Hf3 Hw2]. split; [done|].
  intros q Hq Hd. by rewrite Hw2, Hw1.
Qed.

Lemma kept_but_weaken (X Y : Z -> Prop) p1 F1 p2 F2 :
  (forall f, calm p1 F1 f -> X f -> Y f) -> kept_but X p1 F1 p2 F2 -> kept_but Y p1 F1 p2 F2.
Proof. intros HXY H1 f Hf HY. apply H1; [done|]. intros HX. by apply HY, HXY. Qed.

Lemma undisturbed_kept p F p' F' : undisturbed p F p' F' <-> kept_but (fun _ => False) p F p' F'.
Proof. split; intros H1 f Hf; [intros _|]; apply H1; done || auto. Qed.

Lemma undisturbed_kept_but X p F p' F' : undisturbed p F p' F' -> kept_but X p F p' F'.
Proof. intros H1 f Hf _. by apply H1. Qed.

(** The frames behind the pages [x, x + n). *)
Definition run_frames (M : gmap Z Z) (x n f : Z) : Prop := exists j, x <= j < x + n /\ M !! j = Some f.

(** Giving back a frame that is no page table. *)
Lemma free_data_frame (p : paging A) F O f :
  pg_inv p F O -> data_frame p O f ->
  exists a, page_frame_free (4096 * f) (frames_state p) = Some a /\
    pg_inv (with_frames a p) ({[f]} ∪ F) (O ∖ {[f]}) /\
    (forall v, paging_get_physical_address v (with_frames a p) = paging_get_physical_address v p) /\
    (forall g, g <> f -> data_frame p O g -> data_frame (with_frames a p) (O ∖ {[f]}) g) /\
    kept_but (eq f) p F (with_frames a p) ({[f]} ∪ F).
Proof.
  intros Hinv Hf. pose proof (data_frame_range _ _ _ _ Hinv Hf) as Hr. destruct Hf as (HO & Ht & Hc).
  assert (Hd : 4096 * f / 4096 = f) by (rewrite Z.mul_comm; by apply Z.div_mul).
  assert (Hb : block_ok 0 (4096 * f)).
  { split_and!; try lia. change (block_bytes 0) with 4096. rewrite Z.mul_comm. by apply Z.mod_mul. }
  destruct (fa_free (frames_state p) F O (4096 * f)) as (a & Ha & Hfa & Hag);
    [apply Hinv|done|by rewrite Hd|]. rewrite Hd in *.
  exists a. split; [done|].
  assert (Htab : forall i, 0 <= i < 1024 -> table_present p i ->
            0 < table_of p i < 2 ^ 18 /\ table_of p i ∉ ({[f]} ∪ F : gset Z)).
  { intros i Hi Hp. destruct (pi_table _ _ _ Hinv i Hi Hp) as [? HF]. split; [done|].
    intros [He%elem_of_singleton|]%elem_of_union; [|done]. by apply (Ht i). }
  split_and!.
  - destruct Hinv. constructor; try done.
    + intros i Hi. destruct (pi_owned i Hi) as (? & ? & ?). split_and!; [lia|lia|done|].
      apply elem_of_difference. split; [done|]. intros He%elem_of_singleton. by apply (Ht i).
    + intros Hc0. destruct (pi_cache Hc0) as (? & ? & ?). split_and!; [done| |done].
      apply elem_of_difference. split; [done|]. intros He%elem_of_singleton. by apply Hc.
  - intros v. apply translate_same; [done..|]. intros Hp.
    destruct (Htab _ (pd_index_range v) Hp) as [? HF]. split_and!; [done|lia|lia|].
    apply (agrees_word ({[f]} ∪ F) p (with_frames a p)); [done|lia|apply pt_index_range|done].
  - intros g Hg (HgO & Hgt & Hgc). split_and!; [set_solver|done|done].
  - intros g (HgF & Hgt & Hgc) Hg. assert (g ∉ ({[f]} ∪ F : gset Z)) by set_solver.
    split; [done|]. by eapply agrees_same_words.
Qed.

(** Releasing one page that has memory behind it. *)
Lemma free_page_spec s F O M i f :
  vmm_inv s F O M -> M !! i = Some f ->
  exists s' F' O', free_page (page_virt i) i s = Some s' /\ vmm_inv s' F' O' (delete i M) /\
    kept_but (eq f) (pages s) F (pages s') F' /\
    (forall j, 0 <= j -> used (vmm_bitmap s') j <-> used (vmm_bitmap s) j /\ j <> i).
Proof.
  intros Hinv Hi. pose proof (vi_range _ _ _ _ Hinv i f Hi) as Hr.
  destruct (page_virt_range i Hr) as [Hv Hvd]. unfold free_page.
  rewrite (vi_mapped _ _ _ _ Hinv i f Hi).
  destruct (free_data_frame (pages s) F O f (vi_pages _ _ _ _ Hinv) (vi_data _ _ _ _ Hinv i f Hi))
    as (a & -> & Hinv1 & Htr1 & Hdf1 & Hk1). cbn [mbind option_bind].
  destruct (unmap_page_spec (with_frames a (pages s)) _ _ (page_virt i) Hinv1 Hv)
    as (r & p & F' & O' & -> & Hinv2 & _ & _ & _ & Hdf2 & Hun2 & _ & Htr2). cbn [mbind option_bind].
  unfold in_bitmap. destruct (Z.leb_spec 0 i), (Z.ltb_spec i VMM_PAGE_COUNT); try lia. cbn [andb].
  eexists _, F', O'. split; [done|]. split; [|split].
  - constructor; cbn [vmm_initialized pages vmm_bitmap with_bitmap with_pages].
    + apply Hinv.
    + done.
    + intros j g [_ Hj]%lookup_delete_Some. by eapply (vi_range _ _ _ _ Hinv).
    + intros j g [Hne Hj]%lookup_delete_Some. pose proof (vi_range _ _ _ _ Hinv j g Hj).
      unfold used. rewrite test_clear by lia. rewrite decide_False by done. by eapply (vi_used _ _ _ _ Hinv).
    + intros j g [Hne Hj]%lookup_delete_Some. apply Hdf2, Hdf1.
      * intros ->. apply Hne. by eapply (vi_inj _ _ _ _ Hinv).
      * by eapply (vi_data _ _ _ _ Hinv).
    + intros j g [Hne Hj]%lookup_delete_Some. pose proof (vi_range _ _ _ _ Hinv j g Hj) as Hjr.
      destruct (page_virt_range j Hjr) as [Hjv Hjd].
      rewrite Htr2 by done. rewrite decide_False by lia. rewrite Htr1. by apply (vi_mapped _ _ _ _ Hinv).
    + intros j k g [_ Hj]%lookup_delete_Some [_ Hk]%lookup_delete_Some. by eapply (vi_inj _ _ _ _ Hinv).
  - cbn [pages with_bitmap with_pages]. eapply kept_but_trans; [exact Hk1|by apply undisturbed_kept_but].
  - intros j Hj. cbn [vmm_bitmap with_bitmap with_pages]. unfold used. rewrite test_clear by lia.
    destruct (decide (i = j)) as [->|]; [split; [done|by intros [_ ?]]|]. naive_solver.
Qed.

(** [M'] is [M] without the pages [x, x + n). *)
Definition without_run (M M' : gmap Z Z) (x n : Z) : Prop :=
  forall i, M' !! i = if decide (x <= i < x + n) then None else M !! i.

Lemma free_loop_spec x : forall count s F O M i,
  vmm_inv s F O M -> 0 <= x -> 0 <= i -> x + i + Z.of_nat count <= VMM_PAGE_COUNT ->
  (forall j, x + i <= j < x + i + Z.of_nat count -> is_Some (M !! j)) ->
  exists s' F' O' M', free_loop count i (page_virt x) x s = Some s' /\ vmm_inv s' F' O' M' /\
    without_run M M' (x + i) (Z.of_nat count) /\
    kept_but (run_frames M (x + i) (Z.of_nat count)) (pages s) F (pages s') F' /\
    (forall j, 0 <= j -> used (vmm_bitmap s') j <->
       used (vmm_bitmap s) j /\ ~ (x + i <= j < x + i + Z.of_nat count)).
Proof.
  induction count as [|count IH]; intros s F O M i Hinv Hx Hi Hb HM.
  - exists s, F, O, M. split_and!; [done|done| |done|].
    + intros j. by rewrite decide_False by lia.
    + intros j Hj. split; [intros; split; [done|lia]|by intros [? _]].
  - cbn [free_loop]. destruct (HM (x + i)) as [f Hf]; [lia|].
    assert (Hv : page_virt x ⊞ (i ⊠ PAGE_SIZE) = page_virt (x + i)).
    { rewrite vmm_page_count in Hb. unfold page_virt, PAGE_SIZE. rewrite mul32_small, add32_small by lia. lia. }
    rewrite Hv. rewrite (add32_small x i) by (rewrite vmm_page_count in Hb; lia).
    destruct (free_page_spec s F O M (x + i) f Hinv Hf) as (s1 & F1 & O1 & -> & Hinv1 & Hk1 & Hu1).
    cbn [mbind option_bind].
    destruct (IH s1 F1 O1 (delete (x + i) M) (i + 1)) as (s' & F' & O' & M' & -> & Hinv' & HM' & Hk' & Hu');
      [done|done|lia|lia| |].
    { intros j Hj. rewrite lookup_delete_ne by lia. apply HM. lia. }
    exists s', F', O', M'. split_and!; [done|done| | |].
    2:{ eapply kept_but_trans; (eapply kept_but_weaken; [|done]).
        - intros g _ <-. exists (x + i). split; [lia|done].
        - intros g _ (j & Hj & [_ Hg]%lookup_delete_Some). exists j. split; [lia|done]. }
    + intros j. rewrite HM'. destruct (decide (j = x + i)) as [->|].
      * rewrite lookup_delete_eq. rewrite (decide_True (P := x + i <= x + i < _)) by lia. by case_decide.
      * rewrite lookup_delete_ne by done. repeat case_decide; try done; lia.
    + intros j Hj. rewrite Hu', Hu1 by done. split.
      * intros [[? ?] ?]. split; [done|lia].
      * intros [? ?]. split_and!; [done|lia|lia].
Qed.

Lemma free_pages_spec s F O M x n :
  vmm_inv s F O M -> 0 <= x -> 0 <= n -> x + n <= VMM_PAGE_COUNT -> (n = 0 \/ x < VMM_PAGE_COUNT) ->
  (forall j, x <= j < x + n -> is_Some (M !! j)) ->
  exists s' F' O' M', kernel_vmm_free_pages (page_virt x) n s = Some s' /\ vmm_inv s' F' O' M' /\
    without_run M M' x n /\ kept_but (run_frames M x n) (pages s) F (pages s') F' /\
    (forall j, 0 <= j -> used (vmm_bitmap s') j <-> used (vmm_bitmap s) j /\ ~ (x <= j < x + n)).
Proof.
  intros Hinv Hx Hn Hb Hxn HM. rewrite vmm_page_count in *. unfold kernel_vmm_free_pages.
  rewrite (vi_init _ _ _ _ Hinv). unfold page_virt. destruct (Z.eqb_spec (0xD0000000 + 4096 * x) 0); [lia|].
  destruct (Z.eqb_spec n 0) as [->|]; cbn [negb orb].
  { exists s, F, O, M. split_and!; [done|done| |done|].
    - intros j. by rewrite decide_False by lia.
    - intros j Hj. split; [intros; split; [done|lia]|by intros [? _]]. }
  unfold KERNEL_VMM_DYNAMIC_START, KERNEL_VMM_DYNAMIC_END, PAGE_SIZE.
  destruct (Z.ltb_spec (0xD0000000 + 4096 * x) 0xD0000000), (Z.leb_spec 0xF0000000 (0xD0000000 + 4096 * x)); try lia.
  cbn [orb]. rewrite sub32_small by lia.
  replace ((0xD0000000 + 4096 * x - 0xD0000000) / 4096) with x.
  2:{ replace (0xD0000000 + 4096 * x - 0xD0000000) with (x * 4096) by lia. by rewrite Z.div_mul. }
  destruct (free_loop_spec x (Z.to_nat n) s F O M 0) as (s' & F' & O' & M' & He & Hinv' & HM' & Hk' & Hu');
    rewrite ?vmm_page_count, ?Z2Nat.id, ?Z.add_0_r in *; try done; try lia.
  exists s', F', O', M'. by split_and!.
Qed.

Lemma table_frame_translate (p p' : paging A) F O q :
  pg_inv p F O -> table_frame p F O q p' ->
  forall v, paging_get_physical_address v p' = paging_get_physical_address v p.
Proof.
  intros Hinv ((Ha & Hd & _) & Hq) v.
  assert (Hpde : get_pde (PAGE_DIRECTORY_INDEX v) p' = get_pde (PAGE_DIRECTORY_INDEX v) p)
    by (unfold get_pde; by rewrite Hd).
  apply translate_same; [done|unfold table_present; by rewrite Hpde|]. intros Hp.
  destruct (pi_table _ _ _ Hinv _ (pd_index_range v) Hp) as [? HF]. unfold table_of at 1. rewrite Hpde.
  fold (table_of p (PAGE_DIRECTORY_INDEX v)). split_and!; [done|lia|lia|].
  destruct Hq as [(_ & _ & Hm & _)|(F' & O' & _ & HF' & _ & _ & Hag & _)].
  - unfold word_at. by rewrite Hm.
  - eapply agrees_word; [done|lia|apply pt_index_range|]. auto.
Qed.

(** A change of the page tables that keeps the pages handed out. *)
Lemma vmm_inv_pages s F O M p' F' O' :
  vmm_inv s F O M -> pg_inv p' F' O' ->
  (forall i f, M !! i = Some f -> data_frame p' O' f) ->
  (forall i f, M !! i = Some f ->
     paging_get_physical_address (page_virt i) p' = paging_get_physical_address (page_virt i) (pages s)) ->
  vmm_inv (with_pages p' s) F' O' M.
Proof.
  intros [] Hp Hdf Htr. constructor; cbn [vmm_initialized vmm_bitmap pages with_pages]; try done.
  intros i f Hi. rewrite (Htr i f Hi). by apply vi_mapped0.
Qed.

(** Writing to frames that are neither free nor page tables. *)
Lemma vmm_write s F O M m :
  vmm_inv s F O M ->
  (forall q, 0 <= q < 2 ^ 30 -> ~ calm (pages s) F (q / 4096) ->
     zget m (pmm_phys_to_virt q) = zget (fa_mem (frames_state (pages s))) (pmm_phys_to_virt q)) ->
  let p' := with_frames (fa_set_mem m (frames_state (pages s))) (pages s) in
  vmm_inv (with_pages p' s) F O M /\ (forall f, calm (pages s) F f -> calm p' F f) /\
  forall v, paging_get_physical_address v p' = paging_get_physical_address v (pages s).
Proof.
  intros Hinv Hm p'. pose proof (vi_pages _ _ _ _ Hinv) as Hp.
  assert (Hp' : pg_inv p' F O).
  { apply pg_inv_same_frames; [done|]. apply fa_write; [apply Hp|]. intros q Hq Hf. apply Hm; [done|]. by intros [? _]. }
  assert (Htr : forall v, paging_get_physical_address v p' = paging_get_physical_address v (pages s)).
  { intros v. apply translate_same; [done..|]. intros Ht.
    destruct (pi_table _ _ _ Hp _ (pd_index_range v) Ht) as [Hr _]. split_and!; [done|lia|lia|].
    destruct (table_entry_addr (table_of (pages s) (PAGE_DIRECTORY_INDEX v)) (PAGE_TABLE_INDEX v)) as (_ & Hq & Hd);
      [lia|apply pt_index_range|].
    unfold word_at. cbn [p' frames_state with_frames]. rewrite fa_set_mem_mem. apply Hm; [done|]. rewrite Hd.
    intros (_ & Hc & _). by apply (Hc (PAGE_DIRECTORY_INDEX v)); [apply pd_index_range|..]. }
  split_and!; [|done|done]. apply (vmm_inv_pages s F O); try done. intros i f Hi. by apply (vi_data _ _ _ _ Hinv i).
Qed.

(** A page translates to its frame as a whole. *)
Lemma translate_inside (p : paging A) F O v f o :
  pg_inv p F O -> in32 v -> v mod 4096 = 0 -> 0 <= o < 4096 -> 0 <= f < 2 ^ 20 ->
  paging_get_physical_address v p = Some (4096 * f) ->
  paging_get_physical_address (v + o) p = Some (4096 * f + o).
Proof.
  intros Hp Hv Hal Ho Hf. assert (Hv' : in32 (v + o)) by (Z.to_euclidean_division_equations; lia).
  rewrite !(translate_unfold p _ F O Hp). cbv zeta.
  destruct (page_indices (v + o) v Hv' Hv) as [_ [-> ->]]; [Z.to_euclidean_division_equations; lia|].
  destruct (_ =? 0); [done|]. set (e := pte_of_word _). destruct (_ =? 0); [done|].
  assert (He : 0 <= pte_page_frame_base e < 2 ^ 20).
  { pose proof (pte_of_word_fits (word_at p (table_of p (PAGE_DIRECTORY_INDEX v)) (PAGE_TABLE_INDEX v))) as H1.
    fold e in H1. unfold fits, entry_widths, pte_fields in H1. by decompose_Forall. }
  rewrite !page_address by done. rewrite Hal, Z.add_0_r. intros [= He4]. f_equal.
  Z.to_euclidean_division_equations; lia.
Qed.

Lemma vmm_flags_fit : fits entry_widths (pde_fields vmm_pde) /\ fits entry_widths (pte_fields vmm_pte).
Proof.
  unfold fits, entry_widths, pde_fields, pte_fields. simpl.
  split; repeat (constructor; [lia|]); constructor.
Qed.

(** One round of the allocation loop: no frame, no page table, or one page
    more. *)
Lemma alloc_round s F O M x i :
  vmm_inv s F O M -> 0 <= x -> 0 <= i -> x + i < VMM_PAGE_COUNT ->
  used (vmm_bitmap s) (x + i) -> M !! (x + i) = None ->
  exists phys a, page_frame_allocate (frames_state (pages s)) = Some (phys, a) /\
    let s1 := with_pages (with_frames a (pages s)) s in
    ((phys = 0 /\ vmm_inv s1 F O M /\ undisturbed (pages s) F (pages s1) F) \/
     (phys <> 0 /\ ~ calm (pages s) F (phys / 4096) /\ exists r p F' O',
        paging_map_page realtime (page_virt (x + i)) phys vmm_pde vmm_pte (pages s1) = Some (r, p) /\
        ((r = true /\ vmm_inv (with_pages p s1) F' O' (<[x + i := phys / 4096]> M) /\
          undisturbed (pages s) F p F') \/
         (r = false /\ exists a' F'' O'', page_frame_free phys (frames_state p) = Some a' /\
            vmm_inv (with_pages (with_frames a' p) s1) F'' O'' M /\
            undisturbed (pages s) F (with_frames a' p) F'')))).
Proof.
  intros Hinv Hx Hi Hb Hu HM. pose proof (vi_pages _ _ _ _ Hinv) as Hpg.
  destruct (page_frame_fresh (pages s) F O Hpg) as (phys & a & He & Htf).
  pose proof (table_frame_translate _ _ _ _ _ Hpg Htf) as Htr.
  exists phys, a. split; [done|]. intros s1. destruct Htf as [Hst Hcase].
  destruct Hcase as [(-> & Hinv1 & Hm & Hc)|(F1 & O1 & Hinv1 & HF & HO & [Hbk Hfresh] & Hag & Hdf & Hcm)].
  { left. split; [done|]. split; [apply (vmm_inv_pages s F O M); [done|done| |done]|].
    intros j f Hj. pose proof (vi_data _ _ _ _ Hinv j f Hj) as Hf.
    apply (data_frame_same (pages s) _ O); [done..| |done]. rewrite Hc. intros ? _. by apply Hf.
    change (pages s1) with (with_frames a (pages s)). intros f Hf.
    split; [apply (calm_same (pages s) _ F); [done..| |done]; rewrite Hc; intros ? _; by apply Hf|].
    intros q _ _. by rewrite Hm. }
  right. pose proof Hbk as (_ & Hpr & _). pose proof (block_page_aligned _ _ Hbk) as Hpa. split; [lia|].
  split; [intros Hf; by destruct (Hcm _ Hf)|].
  assert (Hun1 : undisturbed (pages s) F (pages s1) F1).
  { intros f Hf. destruct (Hcm f Hf) as [Hf1 _]. split; [done|]. eapply agrees_same_words; [exact Hag|]. by destruct Hf1. }
  assert (Hinvs : vmm_inv s1 F1 O1 M).
  { apply (vmm_inv_pages s F O M); [done|done| |done]. intros j f Hj. by eapply Hdf, (vi_data _ _ _ _ Hinv). }
  destruct (page_virt_range (x + i)) as [Hv Hvd]; [lia|]. destruct vmm_flags_fit as [Hf1 Hf2].
  destruct (map_page_spec realtime (pages s1) F1 O1 (page_virt (x + i)) phys vmm_pde vmm_pte)
    as (r & p & F' & O' & Hmap & Hinv2 & _ & _ & Hdf2 & Hun2 & Htr2); [done..|lia|done|done|done|done|].
  pose proof (undisturbed_trans _ _ _ _ _ _ Hun1 Hun2) as Hun.
  exists r, p, F', O'. split; [done|].
  assert (Hkeep : forall j f, M !! j = Some f ->
    paging_get_physical_address (page_virt j) p = paging_get_physical_address (page_virt j) (pages s1)).
  { intros j f Hj. pose proof (vi_range _ _ _ _ Hinv j f Hj) as Hjr.
    destruct (page_virt_range j Hjr) as [Hjv Hjd]. rewrite Htr2 by done. rewrite decide_False; [done|].
    intros [_ Hsame]. assert (j = x + i) by lia. congruence. }
  assert (Hne : forall j, M !! j <> Some (phys / 4096)).
  { intros j Hj. destruct (Hdf (phys / 4096)) as [_ Hn]; [by eapply (vi_data _ _ _ _ Hinv)|done]. }
  destruct r; [left|right]; (split; [done|]).
  - split; [|exact Hun]. assert (Hnew : vmm_inv (with_pages p s1) F' O' M).
    { apply (vmm_inv_pages s1 F1 O1 M); [done..| |done]. intros j f Hj. by eapply Hdf2, (vi_data _ _ _ _ Hinvs). }
    constructor; try apply Hnew.
    + intros j f. rewrite lookup_insert_Some. intros [[<- <-]|[_ Hj]]; [lia|by eapply (vi_range _ _ _ _ Hnew)].
    + intros j f. rewrite lookup_insert_Some. intros [[<- <-]|[_ Hj]]; [done|by eapply (vi_used _ _ _ _ Hnew)].
    + intros j f. rewrite lookup_insert_Some. intros [[<- <-]|[_ Hj]]; [by apply Hdf2|by eapply (vi_data _ _ _ _ Hnew)].
    + intros j f. rewrite lookup_insert_Some. intros [[<- <-]|[_ Hj]]; [|by eapply (vi_mapped _ _ _ _ Hnew)].
      cbn [pages with_pages]. rewrite Htr2, decide_True by done. f_equal. unfold page_virt.
      replace (0xD0000000 + 4096 * (x + i)) with ((0xD0000 + (x + i)) * 4096) by lia.
      rewrite Z.mod_mul by lia. lia.
    + intros j k f. rewrite !lookup_insert_Some. intros [[<- <-]|[_ Hj]] [[<- Hk]|[_ Hk]]; try done.
      * by apply Hne in Hk.
      * subst. by apply Hne in Hj.
      * by eapply (vi_inj _ _ _ _ Hnew).
  - destruct (free_data_frame p F' O' (phys / 4096) Hinv2) as (a' & Ha' & Hinv3 & Htr3 & Hdf3 & Hk3); [by apply Hdf2|].
    rewrite Hpa in Ha'. exists a'. eexists _, _. split; [done|]. split; [apply (vmm_inv_pages s1 F1 O1 M); [done|exact Hinv3| |]|].
    + intros j f Hj. apply Hdf3; [intros ->; by apply (Hne j)|]. by eapply Hdf2, (vi_data _ _ _ _ Hinvs).
    + intros j f Hj. rewrite Htr3. by eapply Hkeep.
    + intros f Hf. destruct (Hun f Hf) as [Hf' Hw], (Hcm f Hf) as [_ Hnf]. destruct (Hk3 f Hf') as [Hf3 Hw3]; [by intros <-|].
      split; [done|]. intros q Hq Hd. by rewrite Hw3, Hw.
Qed.

(** The allocation loop either completes the run or undoes what it did; on
    failure the pages from the one that failed on stay marked. *)
Lemma alloc_loop_spec x : forall count s F O M i,
  vmm_inv s F O M -> 0 <= x < VMM_PAGE_COUNT -> 0 <= i -> x + i + Z.of_nat count <= VMM_PAGE_COUNT ->
  (forall j, x <= j < x + i + Z.of_nat count -> used (vmm_bitmap s) j) ->
  (forall j, x <= j < x + i -> is_Some (M !! j)) ->
  (forall j, x + i <= j < x + i + Z.of_nat count -> M !! j = None) ->
  exists v s' F' O' M', alloc_loop realtime count i (page_virt x) s = Some (v, s') /\ vmm_inv s' F' O' M' /\
    kept_but (run_frames M x i) (pages s) F (pages s') F' /\
    ((v = page_virt x /\ vmm_bitmap s' = vmm_bitmap s /\
      (forall j, x + i <= j < x + i + Z.of_nat count -> exists f, M' !! j = Some f /\ ~ calm (pages s) F f) /\
      (forall j, ~ (x + i <= j < x + i + Z.of_nat count) -> M' !! j = M !! j) /\
      undisturbed (pages s) F (pages s') F') \/
     (v = 0 /\ without_run M M' x i /\
      exists k, i <= k < i + Z.of_nat count /\
        forall j, 0 <= j -> used (vmm_bitmap s') j <-> used (vmm_bitmap s) j /\ ~ (x <= j < x + k))).
Proof.
  induction count as [|count IH]; intros s F O M i Hinv Hx Hi Hb Hu HM HN.
  { exists (page_virt x), s, F, O, M. split; [done|]. split; [done|]. split; [done|]. left. split_and!; try done.
    intros j Hj. lia. }
  cbn [alloc_loop].
  destruct (alloc_round s F O M x i) as (phys & a & -> & Hround); [done|lia|done|lia|apply Hu; lia|apply HN; lia|].
  cbn [mbind option_bind]. cbv zeta in *. set (s1 := with_pages (with_frames a (pages s)) s) in *.
  assert (Hv : page_virt x ⊞ (i ⊠ PAGE_SIZE) = page_virt (x + i)).
  { rewrite vmm_page_count in *. unfold page_virt, PAGE_SIZE. rewrite mul32_small, add32_small by lia. lia. }
  rewrite Hv.
  assert (Hundo : forall s2 F2 O2, vmm_inv s2 F2 O2 M -> vmm_bitmap s2 = vmm_bitmap s ->
    exists v s' F' O' M', (s ← kernel_vmm_free_pages (page_virt x) i s2; Some (0, s)) = Some (v, s') /\
      vmm_inv s' F' O' M' /\ v = 0 /\ without_run M M' x i /\
      kept_but (run_frames M x i) (pages s2) F2 (pages s') F' /\
      forall j, 0 <= j -> used (vmm_bitmap s') j <-> used (vmm_bitmap s) j /\ ~ (x <= j < x + i)).
  { intros s2 F2 O2 H2 Hbm.
    destruct (free_pages_spec s2 F2 O2 M x i) as (s' & F' & O' & M' & -> & Hinv' & HM' & Hk' & Hu'); [done|lia..|done|].
    exists 0, s', F', O', M'. rewrite <- Hbm. by split_and!. }
  destruct Hround as [(-> & Hinv1 & Hun1)|(Hphys & Hnc & r & p & F1 & O1 & Hmap & Hr)].
  { cbn [Z.eqb]. destruct (Hundo s1 F O Hinv1 eq_refl) as (v & s' & F' & O' & M' & He & Hinv' & -> & HM' & Hk' & Hu').
    exists 0, s', F', O', M'. split; [done|]. split; [done|].
    split; [eapply kept_but_trans; [by apply undisturbed_kept_but|exact Hk']|]. right. split_and!; [done|done|].
    exists i. split; [lia|done]. }
  destruct (Z.eqb_spec phys 0); [done|]. rewrite Hmap. cbn [mbind option_bind].
  destruct Hr as [(-> & Hinv1 & Hun1)|(-> & a' & F2 & O2 & Hfree & Hinv2 & Hun2)]; cbn [negb].
  - destruct (IH (with_pages p s1) F1 O1 (<[x + i := phys / 4096]> M) (i + 1))
      as (v & s' & F' & O' & M' & -> & Hinv' & Hk' & Hpost); [done|done|lia|lia| | | |].
    { intros j Hj. apply Hu. lia. }
    { intros j Hj. destruct (decide (j = x + i)) as [->|]; [rewrite lookup_insert_eq; by eexists|].
      rewrite lookup_insert_ne by done. apply HM. lia. }
    { intros j Hj. rewrite lookup_insert_ne by lia. apply HN. lia. }
    exists v, s', F', O', M'. split; [done|]. split; [done|]. split.
    { intros f Hf HX. destruct (Hun1 f Hf) as [Hf1 Hw1]. destruct (Hk' f Hf1) as [Hf2 Hw2].
      - intros (j & Hj & [[<- <-]|[Hne Hg]]%lookup_insert_Some); [done|]. apply HX. exists j. split; [lia|done].
      - split; [done|]. intros q Hq Hd. rewrite Hw2 by done. by apply Hw1. }
    destruct Hpost as [(-> & Hbm & Hin & Hout & Hun')|(-> & Hrun & k & Hk & Hku)]; [left|right].
    + assert (Hnew : M' !! (x + i) = Some (phys / 4096)) by (rewrite Hout by lia; apply lookup_insert_eq).
      split_and!; [done|done| | |by eapply undisturbed_trans].
      * intros j Hj. destruct (decide (j = x + i)) as [->|]; [by exists (phys / 4096)|].
        destruct (Hin j) as (f & Hf & Hncf); [lia|]. exists f. split; [done|]. intros Hc. by apply Hncf, Hun1.
      * intros j Hj. rewrite Hout by lia. apply lookup_insert_ne. lia.
    + split_and!; [done| |].
      * intros j. rewrite Hrun. destruct (decide (j = x + i)) as [->|].
        { rewrite decide_True, decide_False by lia. symmetry. apply HN. lia. }
        rewrite lookup_insert_ne by done. repeat case_decide; try done; lia.
      * exists k. split; [lia|done].
  - cbn [pages with_pages]. rewrite Hfree. cbn [mbind option_bind].
    destruct (Hundo _ F2 O2 Hinv2 eq_refl) as (v & s' & F' & O' & M' & He & Hinv' & -> & HM' & Hk' & Hu').
    exists 0, s', F', O', M'. split; [done|]. split; [done|].
    split; [eapply kept_but_trans; [by apply undisturbed_kept_but|exact Hk']|]. right. split_and!; [done|done|].
    exists i. split; [lia|done].
Qed.

(** The lowest run of [n] free pages. *)
Definition lowest_run (m : zmap) (x n : Z) : Prop :=
  0 <= x /\ x + n <= VMM_PAGE_COUNT /\ free_run m x n /\ forall k, 0 <= k < x -> ~ free_run m k n.

Definition no_run (m : zmap) (n : Z) : Prop :=
  forall k, 0 <= k -> k + n <= VMM_PAGE_COUNT -> ~ free_run m k n.

Lemma reserve_spec s n :
  vmm_initialized s = true -> 0 < n <= VMM_PAGE_COUNT ->
  (exists x m, lowest_run (vmm_bitmap s) x n /\
     kernel_vmm_reserve_pages n s =
       Some (page_virt x, mkVmm m (x ⊞ n) (vmm_initialized s) (pages s)) /\
     forall j, 0 <= j -> used m j <-> used (vmm_bitmap s) j \/ x <= j < x + n) \/
  (no_run (vmm_bitmap s) n /\ kernel_vmm_reserve_pages n s = Some (0, s)).
Proof.
  intros Hinit Hn. unfold kernel_vmm_reserve_pages. rewrite Hinit.
  destruct (Z.eqb_spec n 0), (Z.ltb_spec VMM_PAGE_COUNT n); try lia. cbn [negb orb].
  destruct (search_spec (vmm_bitmap s) n Hn search_fuel 0) as [(x & -> & Hx & Hb & Hr & Hlow)|[-> Hno]];
    [rewrite vmm_page_count; lia|unfold search_fuel; rewrite vmm_page_count; lia|intros; lia|left|by right].
  cbn [mbind option_bind].
  destruct (set_range_spec (Z.to_nat n) (vmm_bitmap s) x) as (m & -> & Hm); [lia|lia|].
  rewrite Z2Nat.id in Hm by lia. exists x, m. split; [done|]. split; [|done].
  cbn [mbind option_bind]. rewrite vmm_page_count in *.
  unfold KERNEL_VMM_DYNAMIC_START, PAGE_SIZE, page_virt. rewrite mul32_small, add32_small by lia.
  do 2 f_equal. lia.
Qed.

Lemma vmm_inv_bitmap s F O M m k :
  vmm_inv s F O M -> (forall j, 0 <= j -> used (vmm_bitmap s) j -> used m j) ->
  vmm_inv (mkVmm m k (vmm_initialized s) (pages s)) F O M.
Proof.
  intros [] Hm. constructor; cbn [vmm_initialized vmm_bitmap pages]; try done.
  intros i f Hi. apply Hm; [|by eapply vi_used0]. by eapply vi_range0 in Hi as [? _].
Qed.

Lemma alloc_pages_spec s F O M n :
  vmm_inv s F O M -> 0 < n <= VMM_PAGE_COUNT ->
  exists v s' F' O' M', kernel_vmm_alloc_pages realtime n s = Some (v, s') /\ vmm_inv s' F' O' M' /\
    undisturbed (pages s) F (pages s') F' /\
    (forall j f, M' !! j = Some f -> M !! j = Some f \/ ~ calm (pages s) F f) /\
    ((exists x, v = page_virt x /\ lowest_run (vmm_bitmap s) x n /\
       (forall j, 0 <= j -> used (vmm_bitmap s') j <-> used (vmm_bitmap s) j \/ x <= j < x + n) /\
       (forall j, x <= j < x + n -> is_Some (M' !! j)) /\
       (forall j, ~ (x <= j < x + n) -> M' !! j = M !! j)) \/
     (v = 0 /\ s' = s /\ M' = M /\ no_run (vmm_bitmap s) n) \/
     (v = 0 /\ M' = M /\ exists x k, lowest_run (vmm_bitmap s) x n /\ 0 <= k < n /\
       forall j, 0 <= j -> used (vmm_bitmap s') j <-> used (vmm_bitmap s) j \/ x + k <= j < x + n)).
Proof.
  intros Hinv Hn. unfold kernel_vmm_alloc_pages.
  destruct (reserve_spec s n) as [(x & m & Hrun & -> & Hm)|[Hno ->]]; [by apply (vi_init _ _ _ _ Hinv)|done| |].
  2:{ cbn [mbind option_bind]. rewrite Z.eqb_refl. exists 0, s, F, O, M. split; [done|]. split; [done|].
      split; [done|]. split; [by left|]. right. by left. }
  cbn [mbind option_bind]. pose proof Hrun as (Hx & Hb & Hfree & _). pose proof vmm_page_count.
  destruct (Z.eqb_spec (page_virt x) 0); [unfold page_virt in *; lia|].
  assert (HN : forall j, x <= j < x + n -> M !! j = None).
  { intros j Hj. apply eq_None_not_Some. intros [f Hf]. apply (Hfree j); [done|]. by eapply (vi_used _ _ _ _ Hinv). }
  assert (H1 : vmm_inv (mkVmm m (x ⊞ n) (vmm_initialized s) (pages s)) F O M).
  { apply vmm_inv_bitmap; [done|]. intros j Hj Hu. apply Hm; [done|]. by left. }
  destruct (alloc_loop_spec x (Z.to_nat n) (mkVmm m (x ⊞ n) (vmm_initialized s) (pages s)) F O M 0)
    as (v & s' & F' & O' & M' & He & Hinv' & Hkept & Hpost);
    rewrite ?Z2Nat.id, ?Z.add_0_r in * by lia; [done|lia|lia|lia| |intros; lia|done|].
  { intros j Hj. apply Hm; [lia|]. by right. }
  exists v, s', F', O', M'. split; [done|]. split; [done|].
  destruct Hpost as [(-> & Hbm & Hin & Hout & Hun)|(-> & Hw & k & Hk & Hu)].
  - split; [done|]. split.
    { intros j f Hj. destruct (decide (x <= j < x + n)) as [Hr|Hr]; [right|left].
      - destruct (Hin j Hr) as (g & Hg & Hnc). by simplify_eq.
      - by rewrite <- Hout. }
    left. exists x. cbn [vmm_bitmap] in Hbm. rewrite Hbm. split_and!; [done..| |done].
    intros j Hj. destruct (Hin j Hj) as (f & ? & _). by exists f.
  - assert (HM : M' = M) by (apply map_eq; intros j; rewrite Hw; case_decide; [lia|done]).
    split; [|split; [rewrite HM; by left|]].
    { apply undisturbed_kept. eapply kept_but_weaken; [|exact Hkept]. intros f _ (j & Hj & _). lia. }
    right; right. split; [done|]. split; [done|].
    + exists x, k. split; [done|]. split; [lia|]. intros j Hj. rewrite Hu by done. cbn [vmm_bitmap].
      rewrite Hm by done. split.
      * intros [[?|?] ?]; [by left|right; lia].
      * intros [Hj0|?]; [|split; [by right; lia|lia]]. split; [by left|]. intros Hjx.
        apply (Hfree j); [lia|done].
Qed.
End proofs.

(** ** Properties *)

Section properties.
Context {A : Type} `{FrameAllocator A} (realtime : bool).

(** C4: [kernel_vmm_alloc_pages] returns the base of the lowest run of free
    pages, with every page of it marked and mapped to a frame of its own (the
    invariant [vmm_inv] says that no two pages share a frame and that none is
    a page table), and changes no other page.  When there is no such run, it
    returns NULL and changes nothing; when memory runs out it returns NULL and
    no page keeps a frame, but the pages from the one that failed on stay
    marked.  Frames are told apart by their physical address; that the direct map
    of frames above 256 MiB shares addresses with the dynamic range is
    [HeapServer.direct_map_overlaps]. *)
Theorem vmm_alloc_correct (s : vmm A) F O M n :
  vmm_inv s F O M -> 0 < n <= VMM_PAGE_COUNT ->
  exists v s' F' O' M', kernel_vmm_alloc_pages realtime n s = Some (v, s') /\ vmm_inv s' F' O' M' /\
    ((exists x, v = page_virt x /\ lowest_run (vmm_bitmap s) x n /\
       (forall j, 0 <= j -> used (vmm_bitmap s') j <-> used (vmm_bitmap s) j \/ x <= j < x + n) /\
       (forall j, x <= j < x + n -> is_Some (M' !! j)) /\
       (forall j, ~ (x <= j < x + n) -> M' !! j = M !! j)) \/
     (v = 0 /\ s' = s /\ M' = M /\ no_run (vmm_bitmap s) n) \/
     (v = 0 /\ M' = M /\ exists x k, lowest_run (vmm_bitmap s) x n /\ 0 <= k < n /\
       forall j, 0 <= j -> used (vmm_bitmap s') j <-> used (vmm_bitmap s) j \/ x + k <= j < x + n)).
Proof.
  intros Hinv Hn. destruct (alloc_pages_spec realtime s F O M n Hinv Hn)
    as (v & s' & F' & O' & M' & He & Hinv' & _ & _ & Hpost). by exists v, s', F', O', M'.
Qed.

(** freeing the pages of a successful allocation succeeds and gives back
    exactly the pages that were marked before it, every other page keeping its
    frame. *)
Theorem vmm_alloc_free_roundtrip (s : vmm A) F O M n :
  vmm_inv s F O M -> 0 < n <= VMM_PAGE_COUNT ->
  exists v s1, kernel_vmm_alloc_pages realtime n s = Some (v, s1) /\
    (v <> 0 -> exists s2 F2 O2, kernel_vmm_free_pages v n s1 = Some s2 /\ vmm_inv s2 F2 O2 M /\
       forall j, 0 <= j -> used (vmm_bitmap s2) j <-> used (vmm_bitmap s) j).
Proof.
  intros Hinv Hn. destruct (alloc_pages_spec realtime s F O M n Hinv Hn)
    as (v & s1 & F1 & O1 & M1 & He & Hinv1 & _ & _ & Hpost).
  exists v, s1. split; [done|]. intros Hv. destruct Hpost as [(x & -> & Hrun & Hu & Hin & Hout)|[[? _]|[? _]]]; [|done..].
  destruct Hrun as (Hx & Hb & Hfree & _).
  destruct (free_pages_spec s1 F1 O1 M1 x n) as (s2 & F2 & O2 & M2 & -> & Hinv2 & Hw & _ & Hu2); [done|lia..|done|].
  exists s2, F2, O2. split; [done|]. split.
  - replace M with M2; [done|]. apply map_eq. intros j. rewrite Hw. case_decide as Hj; [|by apply Hout].
    symmetry. apply eq_None_not_Some. intros [f Hf]. apply (Hfree j); [done|]. by eapply (vi_used _ _ _ _ Hinv).
  - intros j Hj. rewrite Hu2, Hu by done. split.
    + intros [[?|?] ?]; [done|lia].
    + intros Hj0. split; [by left|]. intros Hjx. by apply (Hfree j).
Qed.

(** an allocation that fails although a run of free pages exists leaves
    pages of the run marked for good: they were free before the call, belong
    to nobody after it, and no later call returns them. *)
Theorem vmm_failed_alloc_leaks (s s' : vmm A) F O M n :
  vmm_inv s F O M -> 0 < n <= VMM_PAGE_COUNT -> ~ no_run (vmm_bitmap s) n ->
  kernel_vmm_alloc_pages realtime n s = Some (0, s') ->
  exists j F' O', 0 <= j < VMM_PAGE_COUNT /\ ~ used (vmm_bitmap s) j /\ used (vmm_bitmap s') j /\
    vmm_inv s' F' O' M /\ M !! j = None.
Proof.
  intros Hinv Hn Hrun He. destruct (alloc_pages_spec realtime s F O M n Hinv Hn)
    as (v & s1 & F1 & O1 & M1 & He1 & Hinv1 & _ & _ & Hpost).
  rewrite He in He1. injection He1 as <- <-.
  destruct Hpost as [(x & Hx & (? & ? & _) & _)|[(_ & _ & _ & ?)|(_ & -> & x & k & (Hx & Hb & Hfree & _) & Hk & Hu)]].
  - unfold page_virt in Hx. lia.
  - done.
  - assert (Hj : ~ used (vmm_bitmap s) (x + k)) by (apply Hfree; lia).
    exists (x + k), F1, O1. split; [lia|]. split; [done|]. split; [apply Hu; [lia|right; lia]|].
    split; [done|]. apply eq_None_not_Some. intros [f Hf]. apply Hj. by eapply (vi_used _ _ _ _ Hinv).
Qed.
End properties.

(** ** Examples: a server with memory, a client without *)

Lemma blank_vmm_inv {A : Type} `{FrameAllocator A} (p : paging A) F O :
  pg_inv p F O -> vmm_inv (mkVmm ∅ 0 true p) F O ∅.
Proof. intros Hp. constructor; try done; intros *; rewrite lookup_empty; discriminate. Qed.

Section example.
#[local] Opaque BuddySpec.example_state.
#[local] Existing Instance example_frames.

Lemma zero_local : 0 <= 0.
Proof. lia. Qed.

#[local] Instance client_example_frames : FrameAllocator FreeList.freelist :=
  client_frames Numa.numa_boot 0 Numa.numa_boot_wf zero_local.

Definition example_vmm : vmm Buddy.buddy := mkVmm ∅ 0 true example_paging.
Definition empty_vmm : vmm FreeList.freelist :=
  mkVmm ∅ 0 true (mkPaging true ∅ ∅ 0 0 FreeListProofs.example_list).

Lemma example_vmm_inv : vmm_inv example_vmm (BuddySpec.afree BuddySpec.example_sets) ∅ ∅.
Proof. apply blank_vmm_inv, example_paging_inv. Qed.

Lemma empty_vmm_inv : vmm_inv empty_vmm ∅ ∅ ∅.
Proof.
  apply blank_vmm_inv, blank_paging_inv. destruct FreeListProofs.example_list_inv as [L HL].
  split; [|split; [done|set_solver]]. exists L, ∅. split; [done|set_solver].
Qed.

Lemma vmm_alloc_correct_witness :
  exists v s' F' O' M', kernel_vmm_alloc_pages false 3 example_vmm = Some (v, s') /\ vmm_inv s' F' O' M' /\
    ((exists x, v = page_virt x /\ lowest_run (vmm_bitmap example_vmm) x 3 /\
       (forall j, 0 <= j -> used (vmm_bitmap s') j <-> used (vmm_bitmap example_vmm) j \/ x <= j < x + 3) /\
       (forall j, x <= j < x + 3 -> is_Some (M' !! j)) /\
       (forall j, ~ (x <= j < x + 3) -> M' !! j = (∅ : gmap Z Z) !! j)) \/
     (v = 0 /\ s' = example_vmm /\ M' = ∅ /\ no_run (vmm_bitmap example_vmm) 3) \/
     (v = 0 /\ M' = ∅ /\ exists x k, lowest_run (vmm_bitmap example_vmm) x 3 /\ 0 <= k < 3 /\
       forall j, 0 <= j -> used (vmm_bitmap s') j <-> used (vmm_bitmap example_vmm) j \/ x + k <= j < x + 3)).
Proof.
  apply (vmm_alloc_correct false example_vmm (BuddySpec.afree BuddySpec.example_sets) ∅ ∅);
    [apply example_vmm_inv|rewrite vmm_page_count; lia].
Defined.

Lemma vmm_alloc_free_roundtrip_witness :
  exists v s1, kernel_vmm_alloc_pages false 3 example_vmm = Some (v, s1) /\
    (v <> 0 -> exists s2 F2 O2, kernel_vmm_free_pages v 3 s1 = Some s2 /\ vmm_inv s2 F2 O2 ∅ /\
       forall j, 0 <= j -> used (vmm_bitmap s2) j <-> used (vmm_bitmap example_vmm) j).
Proof.
  apply (vmm_alloc_free_roundtrip false example_vmm (BuddySpec.afree BuddySpec.example_sets) ∅ ∅);
    [apply example_vmm_inv|rewrite vmm_page_count; lia].
Defined.

(** Without a free frame a two-page allocation fails and both pages are lost. *)
Lemma vmm_failed_alloc_leaks_witness :
  exists s', kernel_vmm_alloc_pages true 2 empty_vmm = Some (0, s') /\
    exists j F' O', 0 <= j < VMM_PAGE_COUNT /\ ~ used (vmm_bitmap empty_vmm) j /\ used (vmm_bitmap s') j /\
      vmm_inv s' F' O' ∅ /\ (∅ : gmap Z Z) !! j = None.
Proof.
  eexists. assert (He : kernel_vmm_alloc_pages true 2 empty_vmm = Some (0, _)) by (vm_compute; reflexivity).
  split; [exact He|].
  apply (vmm_failed_alloc_leaks true empty_vmm _ ∅ ∅ ∅ 2);
    [apply empty_vmm_inv|rewrite vmm_page_count; lia| |exact He].
  intros Hno. apply (Hno 0); [lia|rewrite vmm_page_count; lia|]. intros j _. discriminate.
Defined.
End example.
