(* ===== verification/HeapInterface.v ===== *)
(** * The kernel heap as its clients see it

    kernel/kernel/memory/heap.c serves the boot-time allocators with
    [kmalloc].  The operations, and what the clients rely on, as two type
    classes; a region is the address and the number of bytes of a live
    allocation. *)

From S2P Require Import Prelude.

Abbreviation region := (Z * Z)%type.

(** A region of the 32-bit address space that does not contain NULL. *)
Definition region_ok (r : region) : Prop := 0 < r.1 /\ 0 < r.2 /\ r.1 + r.2 < 2 ^ 32.

Definition inside (r r' : region) : Prop := r'.1 <= r.1 /\ r.1 + r.2 <= r'.1 + r'.2.
Definition apart (r r' : region) : Prop := r.1 + r.2 <= r'.1 \/ r'.1 + r'.2 <= r.1.

(** Regions that are well formed and pairwise apart. *)
Fixpoint separate (L : list region) : Prop :=
  match L with
  | [] => True
  | r :: L => region_ok r /\ Forall (apart r) L /\ separate L
  end.

Class HeapOps (H : Type) := {
  kmalloc : Z -> H -> option (Z * H);
  kfree : Z -> H -> option H }.

(** [heap_inv h L]: [h] is a sound heap whose live allocations are [L].  The
    call returns; it fails with NULL or hands out a region apart from every
    live one. *)
Class HeapLaws (H : Type) `{HeapOps H} := {
  heap_limit : Z;
  heap_limit_le : heap_limit <= 2 ^ 30;
  heap_inv : H -> list region -> Prop;
  heap_separate h L : heap_inv h L -> separate L;
  heap_kmalloc h L size :
    heap_inv h L -> 0 < size <= heap_limit ->
    exists p h', kmalloc size h = Some (p, h') /\
      if p =? 0 then heap_inv h' L else heap_inv h' ((p, size) :: L);
  heap_kfree h L1 L2 p size :
    heap_inv h (L1 ++ (p, size) :: L2) ->
    exists h', kfree p h = Some h' /\ heap_inv h' (L1 ++ L2) }.

#[global] Arguments heap_limit H {_ _}.
#[global] Arguments heap_limit_le H {_ _}.

Lemma inside_trans r r' r'' : inside r r' -> inside r' r'' -> inside r r''.
Proof. unfold inside. lia. Qed.

Lemma apart_inside r r' s : inside r r' -> apart r' s -> 0 <= r.2 -> apart r s.
Proof. unfold inside, apart. lia. Qed.

Lemma separate_app L L' : separate (L ++ L') -> separate L /\ separate L'.
Proof.
  induction L as [|r L IH]; cbn [app separate]; [done|]. intros (Hr & Ha & Hs).
  apply Forall_app in Ha as [Ha _]. apply IH in Hs as [? ?]. done.
Qed.

Lemma separate_filter (P : region -> Prop) `{forall r, Decision (P r)} L :
  separate L -> separate (filter P L).
Proof.
  induction L as [|r L IH]; cbn [separate]; [done|]. intros (Hr & Ha & Hs).
  rewrite filter_cons. case_decide; [|by apply IH]. cbn [separate]. split_and!; [done| |by apply IH].
  apply Forall_forall. intros x Hx%list_elem_of_filter. rewrite Forall_forall in Ha. apply Ha, Hx.
Qed.

(** Regions carved out of a live one are apart from all the others. *)
Lemma separate_nested live r L :
  separate live -> Forall (fun x => inside x r) live -> Forall (apart r) L -> separate L ->
  separate (live ++ L).
Proof.
  intros Hs Hi Ha HL. induction live as [|x live IH]; [done|].
  apply Forall_cons in Hi as [Hx Hi]. destruct Hs as (Hr & Hxa & Hs). cbn [app separate].
  split_and!; [done| |by apply IH]. apply Forall_app. split; [done|].
  eapply Forall_impl; [exact Ha|]. intros y Hy. eapply apart_inside; [done..|]. destruct Hr. lia.
Qed.

(** ** The simplest lawful heap

    Regions taken in ascending order from one block and never reused. *)

#[export] Instance bump_ops : HeapOps Z := {
  kmalloc size next := Some (if next + size <=? 0xD0000000 then (next, next + size) else (0, next));
  kfree _ next := Some next }.

Definition bump_inv (next : Z) (L : list region) : Prop :=
  0xC0000000 <= next /\ Forall (fun r => r.1 + r.2 <= next) L /\ separate L.

Lemma separate_remove L1 r L2 : separate (L1 ++ r :: L2) -> separate (L1 ++ L2).
Proof.
  induction L1 as [|r' L1 IH]; cbn [app separate]; [by intros (_ & _ & ?)|]. intros (Hr & Ha & Hs).
  split_and!; [done| |by apply IH]. apply Forall_app in Ha as [? [_ ?]%Forall_cons]. by apply Forall_app.
Qed.

Lemma separate_pick L1 r L2 r' : separate (L1 ++ r :: L2) -> r' ∈ L1 ++ L2 -> apart r r'.
Proof.
  induction L1 as [|x L1 IH]; cbn [app separate]; [intros (_ & Ha & _) Hr'; rewrite Forall_forall in Ha; by apply Ha|].
  intros (_ & Ha & Hs) [->|Hr']%elem_of_cons; [|by apply IH].
  apply Forall_app in Ha as [_ [Ha _]%Forall_cons]. unfold apart in *. tauto.
Qed.

#[export] Program Instance bump_laws : HeapLaws Z := {
  heap_limit := 2 ^ 28;
  heap_inv := bump_inv }.
Next Obligation. lia. Qed.
Next Obligation. by intros ?? (_ & _ & ?). Qed.
Next Obligation.
  intros next L size (Hn & Hf & Hs) Hsz. cbn [kmalloc bump_ops].
  destruct (Z.leb_spec (next + size) 0xD0000000); eexists _, _; (split; [done|]).
  - rewrite (proj2 (Z.eqb_neq _ _)) by lia. split_and!; [lia| |].
    + constructor; [cbn; lia|]. eapply Forall_impl; [done|]. cbn. lia.
    + split_and!; [|eapply Forall_impl; [done|]; unfold apart; cbn; lia|done].
      unfold region_ok. cbn. lia.
  - done.
Qed.
Next Obligation.
  intros next L1 L2 p size (Hn & Hf & Hs). exists next. split; [done|]. split_and!; [done| |by eapply separate_remove].
  apply Forall_app in Hf as [? [_ ?]%Forall_cons]. by apply Forall_app.
Qed.
