(* ===== verification/Arena.v ===== *)
(** * Bump allocators

    Models kernel/kernel/memory/stack_allocator.c (a LIFO stack with markers)
    and frame_arena.c (an arena that is emptied once per frame and enforces a
    byte budget).  Both carve regions out of one [kmalloc] block. *)

From S2P Require Import Prelude HeapInterface.

(** The [align_up] that both files define. *)
Definition align_up (value align : Z) : Z :=
  if align =? 0 then value
  else Z.land (value ⊞ (align ⊟ 1)) (not32 (align ⊟ 1)).

(** ** Placement *)

Lemma land_below x m : 0 <= m -> 0 <= x -> 0 <= x - Z.ldiff x m <= m.
Proof.
  intros Hm Hx.
  assert (Hs : forall y z, y - Z.land y z = Z.ldiff y z).
  { intros y z. rewrite Z.sub_nocarry_ldiff.
    - apply Z.bits_inj'. intros n Hn. rewrite !Z.ldiff_spec, Z.land_spec.
      by destruct (Z.testbit y n), (Z.testbit z n).
    - apply Z.bits_inj'. intros n Hn. rewrite Z.ldiff_spec, Z.land_spec, Z.bits_0.
      by destruct (Z.testbit y n), (Z.testbit z n). }
  pose proof (Hs x m) as H1. pose proof (Hs m x) as H2. rewrite (Z.land_comm m x) in H2.
  assert (0 <= Z.ldiff m x) by (apply Z.ldiff_nonneg; lia).
  assert (0 <= Z.land x m) by (apply Z.land_nonneg; lia). lia.
Qed.

(** Rounding up never goes below the value, whatever the alignment. *)
Lemma align_up_bounds v a :
  0 <= v < 2 ^ 32 -> 0 <= a -> v + a <= 2 ^ 32 -> v <= align_up v a <= v + Z.max 0 (a - 1).
Proof.
  intros Hv Ha Hb. unfold align_up. destruct (Z.eqb_spec a 0) as [->|Hne]; [lia|].
  rewrite (sub32_small a 1), add32_small, land_not32 by lia.
  pose proof (land_below (v + (a - 1)) (a - 1) ltac:(lia) ltac:(lia)). lia.
Qed.

(** For a power of two it stops at a multiple of it. *)
Lemma align_up_pow2 v k :
  0 <= k < 32 -> 0 <= v -> v + 2 ^ k <= 2 ^ 32 -> align_up v (2 ^ k) mod 2 ^ k = 0.
Proof.
  intros Hk Hv Hb. assert (0 < 2 ^ k) by lia. assert (2 ^ k < 2 ^ 32) by (apply Z.pow_lt_mono_r; lia).
  unfold align_up. rewrite (proj2 (Z.eqb_neq _ _)), (sub32_small _ 1) by lia.
  apply round_up_spec; lia.
Qed.

Module StackAllocator.

Record stack := mk {
  base : Z;
  capacity : Z;
  offset : Z;
  peak : Z;
  alloc_count : Z;
  rollback_count : Z;
  failed_alloc_count : Z;
  initialized : bool }.

(** The static variables before initialisation. *)
Definition boot : stack := mk 0 0 0 0 0 0 0 false.

Definition kernel_stack_allocator_initialize {H} `{HeapOps H} (capacity_bytes : Z) (h : H) (s : stack)
  : option (bool * H * stack) :=
  if initialized s then Some (true, h, s)
  else if capacity_bytes =? 0 then Some (false, h, s)
  else
    let aligned_capacity := align_up capacity_bytes 16 in
    '(backing, h) ← kmalloc aligned_capacity h;
    if backing =? 0 then Some (false, h, s)
    else Some (true, h, mk backing aligned_capacity 0 0 0 0 0 true).

Definition kernel_stack_alloc_push (size align : Z) (s : stack) : Z * stack :=
  if negb (initialized s) || (size =? 0) then (0, s)
  else
    let effective_align := if align =? 0 then 8 else align in
    let aligned_offset := align_up (offset s) effective_align in
    if (capacity s <? aligned_offset) || (capacity s ⊟ aligned_offset <? size) then
      (0, mk (base s) (capacity s) (offset s) (peak s) (alloc_count s) (rollback_count s)
             (failed_alloc_count s ⊞ 1) (initialized s))
    else
      let offset' := aligned_offset ⊞ size in
      (base s ⊞ aligned_offset,
       mk (base s) (capacity s) offset' (if peak s <? offset' then offset' else peak s)
          (alloc_count s ⊞ 1) (rollback_count s) (failed_alloc_count s) (initialized s)).

Definition kernel_stack_alloc_get_marker (s : stack) : Z := offset s.

Definition kernel_stack_alloc_rollback (marker : Z) (s : stack) : stack :=
  if negb (initialized s) then s
  else if marker <=? offset s then
    mk (base s) (capacity s) marker (peak s) (alloc_count s) (rollback_count s ⊞ 1)
       (failed_alloc_count s) (initialized s)
  else s.


(** *** Correctness

    A run of pushes and rollbacks, with the regions that are live: a push that
    succeeds adds one, a rollback drops those that end above the marker. *)
Inductive call := Push (size align : Z) | Rollback (marker : Z).

Definition call_ok (c : call) : Prop :=
  match c with
  | Push size align => in32 size /\ 0 <= align <= 2 ^ 31
  | Rollback marker => in32 marker
  end.

Definition exec (c : call) (st : stack * list region) : stack * list region :=
  let '(s, L) := st in
  match c with
  | Push size align =>
      let '(p, s') := kernel_stack_alloc_push size align s in
      (s', if p =? 0 then L else (p, size) :: L)
  | Rollback marker =>
      (kernel_stack_alloc_rollback marker s,
       if marker <=? offset s then filter (fun r => r.1 + r.2 <= base s + marker) L else L)
  end.

Definition run (cs : list call) (st : stack * list region) := fold_left (fun st c => exec c st) cs st.

Record ok (s : stack) (L : list region) : Prop := {
  ok_init : initialized s = true;
  ok_region : region_ok (base s, capacity s);
  ok_capacity : capacity s <= 2 ^ 30;
  ok_offset : 0 <= offset s <= peak s;
  ok_peak : peak s <= capacity s;
  ok_live : separate L;
  ok_inside : Forall (fun r => inside r (base s, offset s)) L }.

(** [s'] has the backing block of [s]. *)
Definition same_block (s s' : stack) : Prop := base s' = base s /\ capacity s' = capacity s.

(** A push fails and leaves the stack where it was, or places the region above
    every live one, at a multiple of the alignment from the base. *)
Lemma stack_push_spec s L size align :
  ok s L -> in32 size -> 0 <= align <= 2 ^ 31 ->
  let '(p, s') := kernel_stack_alloc_push size align s in
  same_block s s' /\
  ((p = 0 /\ ok s' L /\ offset s' = offset s) \/
   (p <> 0 /\ base s + offset s <= p /\ p + size = base s + offset s' /\ ok s' ((p, size) :: L) /\
    (forall k, 0 <= k < 32 -> align = 2 ^ k -> (p - base s) mod 2 ^ k = 0))).
Proof.
  intros Hok Hsz Hal. unfold kernel_stack_alloc_push. rewrite (ok_init _ _ Hok). cbn [negb orb].
  destruct (Z.eqb_spec size 0) as [|Hs0]; [split; [by split|by left]|].
  destruct (ok_region _ _ Hok) as (Hb & Hc & Hbc). cbn [fst snd] in Hb, Hc, Hbc.
  pose proof (ok_offset _ _ Hok). pose proof (ok_peak _ _ Hok). pose proof (ok_capacity _ _ Hok).
  set (e := if align =? 0 then 8 else align) in *.
  assert (He : 0 <= e <= 2 ^ 31) by (unfold e; destruct (align =? 0); lia).
  pose proof (align_up_bounds (offset s) e ltac:(lia) ltac:(lia) ltac:(lia)) as Hau.
  match goal with |- context [if ?b then _ else _] => destruct b eqn:Hfit end; (split; [by split|]); [left; split_and!; [done|by destruct Hok|done]|right].
  apply orb_false_iff in Hfit as [Hf1%Z.ltb_ge Hf2]. rewrite sub32_small in Hf2 by lia. apply Z.ltb_ge in Hf2.
  rewrite !add32_small by lia. cbn [offset]. split_and!; try lia.
  - constructor; cbn; try done; try (destruct (Z.ltb_spec (peak s) (align_up (offset s) e + size)); lia).
    + split_and!; [unfold region_ok; cbn; lia| |apply Hok].
      eapply Forall_impl; [exact (ok_inside _ _ Hok)|]. unfold inside, apart; cbn; lia.
    + constructor; [unfold inside; cbn; lia|].
      eapply Forall_impl; [exact (ok_inside _ _ Hok)|]. unfold inside; cbn; lia.
  - intros k Hk ->. assert (e = 2 ^ k) as -> by (unfold e; rewrite (proj2 (Z.eqb_neq _ _)) by lia; done).
    replace (base s + _ - base s) with (align_up (offset s) (2 ^ k)) by lia. apply align_up_pow2; lia.
Qed.

Lemma stack_rollback_spec s L marker :
  ok s L -> in32 marker ->
  same_block s (kernel_stack_alloc_rollback marker s) /\
  ok (kernel_stack_alloc_rollback marker s)
     (if marker <=? offset s then filter (fun r => r.1 + r.2 <= base s + marker) L else L).
Proof.
  intros Hok Hm. unfold kernel_stack_alloc_rollback. rewrite (ok_init _ _ Hok). cbn [negb].
  destruct (Z.leb_spec marker (offset s)); [|by split]. split; [by split|].
  pose proof (ok_offset _ _ Hok). destruct Hok. constructor; cbn; try done; [lia|by apply separate_filter|].
  apply Forall_forall. intros r [Hr1 Hr2]%list_elem_of_filter. rewrite Forall_forall in ok_inside0.
  specialize (ok_inside0 r Hr2). unfold inside in *. cbn in *. lia.
Qed.

Lemma stack_exec_ok c s L :
  ok s L -> call_ok c -> same_block s (exec c (s, L)).1 /\ ok (exec c (s, L)).1 (exec c (s, L)).2.
Proof.
  intros Hok Hc. destruct c as [size align|marker]; cbn [exec].
  - destruct Hc as [Hs Ha]. pose proof (stack_push_spec s L size align Hok Hs Ha) as Hp.
    destruct (kernel_stack_alloc_push size align s) as [p s'].
    destruct Hp as (Hb & [(-> & Hok' & _)|(Hp & _ & _ & Hok' & _)]); [done|].
    by rewrite (proj2 (Z.eqb_neq _ _)).
  - by apply stack_rollback_spec.
Qed.

Lemma stack_run_ok cs : forall s L,
  ok s L -> Forall call_ok cs -> same_block s (run cs (s, L)).1 /\ ok (run cs (s, L)).1 (run cs (s, L)).2.
Proof.
  induction cs as [|c cs IH]; intros s L Hok Hcs; [by split|]. apply Forall_cons in Hcs as [Hc Hcs].
  change (run (c :: cs) (s, L)) with (run cs (exec c (s, L))).
  destruct (stack_exec_ok c s L Hok Hc) as [[Hb1 Hb2] Hok']. destruct (exec c (s, L)) as [s1 L1].
  destruct (IH s1 L1 Hok' Hcs) as [[Hb3 Hb4] Hok'']. cbn [fst] in *. unfold same_block. split; [|done]. by split; congruence.
Qed.

Lemma aligned_capacity c : 0 < c <= 2 ^ 30 -> c <= align_up c 16 <= c + 15.
Proof. intros. pose proof (align_up_bounds c 16). lia. Qed.

Lemma stack_initialize_spec {H} `{HeapLaws H} (h : H) L c :
  heap_inv h L -> 0 < c <= 2 ^ 30 -> align_up c 16 <= heap_limit H ->
  exists b h' s, kernel_stack_allocator_initialize c h boot = Some (b, h', s) /\
    if b then ok s [] /\ heap_inv h' ((base s, capacity s) :: L) else s = boot /\ heap_inv h' L.
Proof.
  intros Hh Hc Hl. pose proof (aligned_capacity c Hc). unfold kernel_stack_allocator_initialize. cbn [initialized boot].
  rewrite (proj2 (Z.eqb_neq _ _)) by lia. set (a := align_up c 16) in *. clearbody a.
  destruct (heap_kmalloc h L a Hh ltac:(lia)) as (p & h' & -> & Hp). cbn.
  destruct (Z.eqb_spec p 0); eexists _, _, _; (split; [done|]); cbn; [done|]. split; [|done].
  pose proof (heap_separate _ _ Hp) as (Hr & _). pose proof (heap_limit_le H).
  constructor; cbn; try done; lia.
Qed.

(** Whatever a heap holds, the stack allocator initialised on it serves
    any sequence of pushes and rollbacks with regions that are live at the same
    time only when they are disjoint, all inside its backing block and hence
    apart from every other live allocation of the heap; the offset and the peak
    stay within the block. *)
Theorem stack_regions_disjoint {H} `{HeapLaws H} (h : H) L c h' s cs :
  heap_inv h L -> 0 < c <= 2 ^ 30 -> align_up c 16 <= heap_limit H ->
  kernel_stack_allocator_initialize c h boot = Some (true, h', s) -> Forall call_ok cs ->
  let '(s', live) := run cs (s, []) in
  heap_inv h' ((base s', capacity s') :: L) /\ separate (live ++ L) /\
  Forall (fun r => inside r (base s', offset s')) live /\
  0 <= offset s' <= peak s' /\ peak s' <= capacity s'.
Proof.
  intros Hh Hc Hl Hi Hcs. destruct (stack_initialize_spec h L c Hh Hc Hl) as (b & h1 & s1 & Hi1 & Hb).
  rewrite Hi in Hi1. simplify_eq. destruct Hb as [Hok Hh'].
  destruct (stack_run_ok cs _ _ Hok Hcs) as [[Hb1 Hb2] Hok']. destruct (run cs (s1, [])) as [s' live]. cbn [fst snd] in *.
  pose proof (ok_offset _ _ Hok'). pose proof (ok_peak _ _ Hok').
  rewrite Hb1, Hb2 in *. split_and!; try lia; [done| |rewrite <- Hb1; apply Hok'].
  apply heap_separate in Hh' as (Hr & Ha & Hs). eapply separate_nested; [apply Hok'| |done..].
  eapply Forall_impl; [apply Hok'|]. unfold inside. cbn. lia.
Qed.

(** The hypotheses hold at a heap that already serves one region. *)
Definition example : stack := mk (0xC0000000 + 64) 1024 0 0 0 0 0 true.

Lemma stack_regions_disjoint_witness :
  exists s' live, run [Push 24 16; Push 100 0; Rollback 40; Push 8 64] (example, []) = (s', live) /\
    length live = 2%nat /\ separate (live ++ [(0xC0000000, 64)]).
Proof.
  pose proof (stack_regions_disjoint (0xC0000000 + 64) [(0xC0000000, 64)] 1020 (0xC0000000 + 64 + 1024)
    example [Push 24 16; Push 100 0; Rollback 40; Push 8 64]) as H.
  destruct (run _ _) as [s' live] eqn:E in H |- *. exists s', live. split; [done|].
  assert (Hl : length live = 2%nat) by (vm_compute in E; by inversion E). split; [done|]. apply H.
  - split_and!; [lia|by repeat constructor|]. split_and!; [|constructor|done]. by vm_compute.
  - lia.
  - by vm_compute.
  - by vm_compute.
  - repeat constructor; lia.
Defined.

(** Pushes only add regions above the offset they start from. *)
Lemma run_pushes ps : forall s L,
  ok s L -> Forall call_ok (uncurry Push <$> ps) ->
  exists s' new, run (uncurry Push <$> ps) (s, L) = (s', new ++ L) /\ ok s' (new ++ L) /\ same_block s s' /\
    offset s <= offset s' /\ Forall (fun r => base s + offset s < r.1 + r.2) new.
Proof.
  induction ps as [|[size align] ps IH]; intros s L Hok Hps.
  - exists s, []. split_and!; try done; lia.
  - apply Forall_cons in Hps as [[Hs Ha] Hps]. pose proof (stack_push_spec s L size align Hok Hs Ha) as Hp.
    change (run (uncurry Push <$> (size, align) :: ps) (s, L))
      with (run (uncurry Push <$> ps) (exec (Push size align) (s, L))). cbn [exec].
    destruct (kernel_stack_alloc_push size align s) as [p s1].
    destruct Hp as ([Hb Hc] & [(-> & Hok' & Ho)|(Hp & Hp1 & Hp2 & Hok' & _)]); cbn [Z.eqb].
    + destruct (IH s1 L Hok' Hps) as (s' & new & Hr & Hok'' & [Hb' Hc'] & Ho' & Hn).
      exists s', new. rewrite Hb, Ho in *. unfold same_block. split_and!; try done; congruence || lia.
    + rewrite (proj2 (Z.eqb_neq _ _)) by done.
      destruct (IH s1 _ Hok' Hps) as (s' & new & Hr & Hok'' & [Hb' Hc'] & Ho' & Hn).
      destruct (ok_live _ _ Hok') as [(_ & Hsz & _) _]. cbn [snd] in Hsz.
      exists s', (new ++ [(p, size)]). rewrite <- app_assoc. cbn [app]. rewrite Hb in *.
      unfold same_block. split_and!; try done; try (congruence || lia). apply Forall_app.
      split; [|repeat constructor; cbn; lia]. eapply Forall_impl; [done|]. cbn. lia.
Qed.

Lemma filter_split (P : region -> Prop) `{forall r, Decision (P r)} new L :
  Forall (fun r => ~ P r) new -> Forall P L -> filter P (new ++ L) = L.
Proof.
  intros Hn HL. induction Hn as [|r new Hr Hn IH]; cbn [app].
  - induction HL as [|r L Hr HL IH]; [done|]. by rewrite filter_cons_True, IH.
  - by rewrite filter_cons_False.
Qed.

(** Rolling back to a marker after any pushes undoes exactly them: the
    live regions and the offset are those of the moment the marker was taken,
    and the next push is placed as it would have been then. *)
Theorem stack_rollback_restores s L ps size align :
  ok s L -> Forall call_ok (uncurry Push <$> ps) ->
  let '(s', L') := run ((uncurry Push <$> ps) ++ [Rollback (kernel_stack_alloc_get_marker s)]) (s, L) in
  L' = L /\ offset s' = offset s /\ ok s' L /\
  (kernel_stack_alloc_push size align s').1 = (kernel_stack_alloc_push size align s).1.
Proof.
  intros Hok Hps. destruct (run_pushes ps s L Hok Hps) as (s1 & new & Hr & Hok1 & [Hb Hc] & Ho & Hn).
  unfold run. rewrite fold_left_app. fold (run (uncurry Push <$> ps) (s, L)). rewrite Hr.
  cbn [fold_left exec]. unfold kernel_stack_alloc_get_marker.
  pose proof (ok_offset _ _ Hok). pose proof (ok_peak _ _ Hok). pose proof (ok_capacity _ _ Hok).
  destruct (stack_rollback_spec s1 (new ++ L) (offset s) Hok1 ltac:(lia)) as [_ Hok2].
  rewrite (proj2 (Z.leb_le _ _)) in * by lia.
  rewrite Hb, filter_split in *;
    try (eapply Forall_impl; [first [exact Hn|apply Hok]|]; unfold inside; cbn; lia).
  unfold kernel_stack_alloc_rollback in *. rewrite (ok_init _ _ Hok1), (proj2 (Z.leb_le _ _)) in * by lia.
  cbn [negb] in *. split_and!; [done..|].
  unfold kernel_stack_alloc_push. cbn [initialized offset capacity base].
  rewrite (ok_init _ _ Hok), Hb, Hc. cbn [negb orb]. by repeat case_match.
Qed.

Lemma stack_example_ok : ok example [].
Proof. constructor; cbn [example base capacity offset peak]; try done; unfold region_ok; cbn [fst snd]; lia. Qed.

(** The hypotheses hold at the example stack, two pushes above the marker. *)
Lemma stack_rollback_restores_witness :
  (kernel_stack_alloc_push 8 0
     (run ([Push 24 16; Push 100 0] ++ [Rollback 0]) (example, [])).1).1 = 0xC0000000 + 64.
Proof.
  pose proof (stack_rollback_restores example [] [(24, 16); (100, 0)] 8 0 stack_example_ok
    ltac:(repeat constructor; lia)) as H.
  cbn [fmap list_fmap uncurry] in H. change (kernel_stack_alloc_get_marker example) with 0 in H.
  destruct (run _ _) as [s' L']. destruct H as (_ & _ & _ & H). cbn [fst]. rewrite H. reflexivity.
Defined.

End StackAllocator.

Module FrameArena.

Record arena := mk {
  base : Z;
  capacity : Z;
  offset : Z;
  peak : Z;
  reset_count : Z;
  failed_alloc_count : Z;
  budget : Z;
  budget_exceeded_count : Z;
  wcet_alloc : Z;
  wcet_reset : Z;
  initialized : bool }.

Definition boot : arena := mk 0 0 0 0 0 0 0 0 0 0 false.

Definition kernel_frame_arena_initialize {H} `{HeapOps H} (capacity_bytes : Z) (h : H) (s : arena)
  : option (bool * H * arena) :=
  if initialized s then Some (true, h, s)
  else if capacity_bytes =? 0 then Some (false, h, s)
  else
    let aligned_capacity := align_up capacity_bytes 16 in
    '(backing, h) ← kmalloc aligned_capacity h;
    if backing =? 0 then Some (false, h, s)
    else Some (true, h, mk backing aligned_capacity 0 0 0 0 0 0 0 0 true).

(** [t0] and [t1] are the readings of the time stamp counter. *)
Definition kernel_frame_arena_alloc (t0 t1 size align : Z) (s : arena) : Z * arena :=
  if negb (initialized s) || (size =? 0) then (0, s)
  else
    let effective_align := if align =? 0 then 8 else align in
    let aligned_offset := align_up (offset s) effective_align in
    if (capacity s <? aligned_offset) || (capacity s ⊟ aligned_offset <? size) then
      (0, mk (base s) (capacity s) (offset s) (peak s) (reset_count s) (failed_alloc_count s ⊞ 1)
             (budget s) (budget_exceeded_count s) (wcet_alloc s) (wcet_reset s) (initialized s))
    else if (0 <? budget s) && (budget s <? aligned_offset ⊞ size) then
      (0, mk (base s) (capacity s) (offset s) (peak s) (reset_count s) (failed_alloc_count s ⊞ 1)
             (budget s) (budget_exceeded_count s ⊞ 1) (wcet_alloc s) (wcet_reset s) (initialized s))
    else
      let offset' := aligned_offset ⊞ size in
      let delta := t1 ⊟ t0 in
      (base s ⊞ aligned_offset,
       mk (base s) (capacity s) offset' (if peak s <? offset' then offset' else peak s)
          (reset_count s) (failed_alloc_count s) (budget s) (budget_exceeded_count s)
          (if wcet_alloc s <? delta then delta else wcet_alloc s) (wcet_reset s) (initialized s)).

Definition kernel_frame_arena_reset (t0 t1 : Z) (s : arena) : arena :=
  if negb (initialized s) then s
  else
    let delta := t1 ⊟ t0 in
    mk (base s) (capacity s) 0 (peak s) (reset_count s ⊞ 1) (failed_alloc_count s)
       (budget s) (budget_exceeded_count s) (wcet_alloc s)
       (if wcet_reset s <? delta then delta else wcet_reset s) (initialized s).

Definition kernel_frame_arena_set_frame_budget (budget_bytes : Z) (s : arena) : arena :=
  mk (base s) (capacity s) (offset s) (peak s) (reset_count s) (failed_alloc_count s)
     budget_bytes (budget_exceeded_count s) (wcet_alloc s) (wcet_reset s) (initialized s).



(** *** Correctness *)
Inductive call := Alloc (t0 t1 size align : Z) | Reset (t0 t1 : Z).

Definition call_ok (c : call) : Prop :=
  match c with
  | Alloc _ _ size align => in32 size /\ 0 <= align <= 2 ^ 31
  | Reset _ _ => True
  end.

(** One call, with the regions handed out since the frame began. *)
Definition exec (c : call) (st : arena * list region) : arena * list region :=
  let '(s, L) := st in
  match c with
  | Alloc t0 t1 size align =>
      let '(p, s') := kernel_frame_arena_alloc t0 t1 size align s in
      (s', if p =? 0 then L else (p, size) :: L)
  | Reset t0 t1 => (kernel_frame_arena_reset t0 t1 s, [])
  end.

Definition run (cs : list call) (st : arena * list region) := fold_left (fun st c => exec c st) cs st.

(** The bytes a frame may use. *)
Definition frame_limit (s : arena) : Z :=
  if budget s =? 0 then capacity s else Z.min (budget s) (capacity s).

Record ok (s : arena) (L : list region) : Prop := {
  ok_init : initialized s = true;
  ok_region : region_ok (base s, capacity s);
  ok_capacity : capacity s <= 2 ^ 30;
  ok_budget : in32 (budget s);
  ok_offset : 0 <= offset s <= peak s;
  ok_peak : peak s <= frame_limit s;
  ok_live : separate L;
  ok_inside : Forall (fun r => inside r (base s, offset s)) L }.

Definition same_block (s s' : arena) : Prop :=
  base s' = base s /\ capacity s' = capacity s /\ budget s' = budget s.

(** A request of a positive size succeeds exactly when it fits, after
    alignment, the bytes the frame may use. *)
Lemma arena_alloc_spec s L t0 t1 size align :
  ok s L -> in32 size -> 0 <= align <= 2 ^ 31 ->
  let '(p, s') := kernel_frame_arena_alloc t0 t1 size align s in
  let start := align_up (offset s) (if align =? 0 then 8 else align) in
  same_block s s' /\
  ((p = 0 /\ ok s' L /\ offset s' = offset s /\ (size = 0 \/ frame_limit s < start + size)) \/
   (p = base s + start /\ p <> 0 /\ offset s' = start + size /\ start + size <= frame_limit s /\
    ok s' ((p, size) :: L))).
Proof.
  intros Hok Hsz Hal. unfold kernel_frame_arena_alloc. rewrite (ok_init _ _ Hok). cbn [negb orb].
  destruct (Z.eqb_spec size 0) as [|Hs0]; [split; [done|left; split_and!; try done; by left]|].
  destruct (ok_region _ _ Hok) as (Hb & Hc & Hbc). cbn [fst snd] in Hb, Hc, Hbc.
  pose proof (ok_offset _ _ Hok). pose proof (ok_peak _ _ Hok) as Hpk. pose proof (ok_capacity _ _ Hok).
  pose proof (ok_budget _ _ Hok).
  set (e := if align =? 0 then 8 else align) in *.
  assert (He : 0 <= e <= 2 ^ 31) by (unfold e; destruct (align =? 0); lia).
  assert (Hlim : frame_limit s <= capacity s) by (unfold frame_limit; destruct (budget s =? 0); lia).
  pose proof (align_up_bounds (offset s) e ltac:(lia) ltac:(lia) ltac:(lia)) as Hau.
  set (start := align_up (offset s) e) in *.
  destruct (Z.ltb_spec (capacity s) start); cbn [orb].
  { split; [done|]. left. split_and!; [done|by destruct Hok|done|lia]. }
  rewrite sub32_small by lia. destruct (Z.ltb_spec (capacity s - start) size).
  { split; [done|]. left. split_and!; [done|by destruct Hok|done|lia]. }
  rewrite (add32_small start size), (add32_small (base s) start) by lia.
  destruct ((0 <? budget s) && (budget s <? start + size)) eqn:Hbud.
  { apply andb_true_iff in Hbud as [?%Z.ltb_lt ?%Z.ltb_lt].
    split; [done|]. left. split_and!; [done|by destruct Hok|done|].
    unfold frame_limit. rewrite (proj2 (Z.eqb_neq _ _)) by lia. lia. }
  assert (start + size <= frame_limit s).
  { unfold frame_limit. destruct (Z.eqb_spec (budget s) 0); [lia|].
    apply andb_false_iff in Hbud as [?%Z.ltb_ge|?%Z.ltb_ge]; lia. }
  split; [done|]. right. cbn [offset]. split_and!; try lia.
  constructor; cbn; try done; try (destruct (Z.ltb_spec (peak s) (start + size)); lia).
  - destruct (Z.ltb_spec (peak s) (start + size)); [done|exact Hpk].
  - split_and!; [unfold region_ok; cbn; lia| |apply Hok].
    eapply Forall_impl; [exact (ok_inside _ _ Hok)|]. unfold inside, apart; cbn; lia.
  - constructor; [unfold inside; cbn; lia|].
    eapply Forall_impl; [exact (ok_inside _ _ Hok)|]. unfold inside; cbn; lia.
Qed.

Lemma arena_exec_ok c s L :
  ok s L -> call_ok c -> same_block s (exec c (s, L)).1 /\ ok (exec c (s, L)).1 (exec c (s, L)).2.
Proof.
  intros Hok Hc. destruct c as [t0 t1 size align|t0 t1]; cbn [exec].
  - destruct Hc as [Hs Ha]. pose proof (arena_alloc_spec s L t0 t1 size align Hok Hs Ha) as Hp.
    destruct (kernel_frame_arena_alloc t0 t1 size align s) as [p s'].
    destruct Hp as (Hb & [(-> & Hok' & _)|(_ & Hp & _ & _ & Hok')]); [done|].
    by rewrite (proj2 (Z.eqb_neq _ _)).
  - cbn [fst snd]. unfold kernel_frame_arena_reset. rewrite (ok_init _ _ Hok). cbn [negb].
    pose proof (ok_offset _ _ Hok). pose proof (ok_peak _ _ Hok). split; [done|].
    constructor; cbn; try apply Hok; try done; lia.
Qed.

Lemma arena_run_ok cs : forall s L,
  ok s L -> Forall call_ok cs -> same_block s (run cs (s, L)).1 /\ ok (run cs (s, L)).1 (run cs (s, L)).2.
Proof.
  induction cs as [|c cs IH]; intros s L Hok Hcs; [done|]. apply Forall_cons in Hcs as [Hc Hcs].
  change (run (c :: cs) (s, L)) with (run cs (exec c (s, L))).
  destruct (arena_exec_ok c s L Hok Hc) as [(Hb1 & Hb2 & Hb3) Hok']. destruct (exec c (s, L)) as [s1 L1].
  destruct (IH s1 L1 Hok' Hcs) as [(Hb4 & Hb5 & Hb6) Hok'']. cbn [fst] in *. unfold same_block.
  split; [|done]. split_and!; congruence.
Qed.

Lemma arena_initialize_spec {H} `{HeapLaws H} (h : H) L c b :
  heap_inv h L -> 0 < c <= 2 ^ 30 -> align_up c 16 <= heap_limit H -> in32 b ->
  exists r h' s, kernel_frame_arena_initialize c h boot = Some (r, h', s) /\
    if r then ok (kernel_frame_arena_set_frame_budget b s) [] /\ heap_inv h' ((base s, capacity s) :: L)
    else s = boot /\ heap_inv h' L.
Proof.
  intros Hh Hc Hl Hb. pose proof (StackAllocator.aligned_capacity c Hc).
  unfold kernel_frame_arena_initialize. cbn [initialized boot].
  rewrite (proj2 (Z.eqb_neq _ _)) by lia. set (a := align_up c 16) in *. clearbody a.
  destruct (heap_kmalloc h L a Hh ltac:(lia)) as (p & h' & -> & Hp). cbn.
  destruct (Z.eqb_spec p 0); eexists _, _, _; (split; [done|]); cbn; [done|]. split; [|done].
  pose proof (heap_separate _ _ Hp) as (Hr & _). pose proof (heap_limit_le H).
  constructor; cbn; try done; try lia. unfold frame_limit. cbn. destruct (b =? 0); lia.
Qed.

(** An arena with a frame budget [b] (0 for none) serves any sequence of
    allocations and frame resets with regions that, within a frame, are
    pairwise disjoint, inside the backing block and apart from every other live
    allocation of the heap; and the bytes used never exceed the budget nor the
    block, at any moment since the initialisation. *)
Theorem frame_arena_bounded {H} `{HeapLaws H} (h : H) L c b h' s cs :
  heap_inv h L -> 0 < c <= 2 ^ 30 -> align_up c 16 <= heap_limit H -> in32 b ->
  kernel_frame_arena_initialize c h boot = Some (true, h', s) -> Forall call_ok cs ->
  let '(s', live) := run cs (kernel_frame_arena_set_frame_budget b s, []) in
  separate (live ++ L) /\ Forall (fun r => inside r (base s, offset s')) live /\
  0 <= offset s' <= peak s' /\ peak s' <= (if b =? 0 then capacity s else Z.min b (capacity s)).
Proof.
  intros Hh Hc Hl Hb Hi Hcs. destruct (arena_initialize_spec h L c b Hh Hc Hl Hb) as (r & h1 & s1 & Hi1 & Hr).
  rewrite Hi in Hi1. simplify_eq. destruct Hr as [Hok Hh'].
  destruct (arena_run_ok cs _ _ Hok Hcs) as [(Hb1 & Hb2 & Hb3) Hok'].
  destruct (run cs _) as [s' live]. cbn [fst snd] in *.
  pose proof (ok_offset _ _ Hok'). pose proof (ok_peak _ _ Hok') as Hpk.
  unfold frame_limit in Hpk. rewrite Hb2, Hb3 in Hpk. cbn in Hb1, Hpk.
  assert (Hin : Forall (fun r => inside r (base s1, offset s')) live) by (rewrite <- Hb1; apply Hok').
  split_and!; try lia; [|done].
  apply heap_separate in Hh' as (Hr & Ha & Hs). eapply separate_nested; [apply Hok'| |done..].
  eapply Forall_impl; [exact Hin|]. unfold inside. cbn. destruct (b =? 0); lia.
Qed.

(** The hypotheses hold with a budget of 128 bytes, which the third
    request exceeds. *)
Lemma frame_arena_bounded_witness :
  exists s' live,
    run [Alloc 0 5 100 0; Reset 5 6; Alloc 7 9 64 16; Alloc 9 10 65 0; Alloc 9 10 8 8]
      (kernel_frame_arena_set_frame_budget 128 (mk (0xC0000000 + 64) 1024 0 0 0 0 0 0 0 0 true), [])
    = (s', live) /\ length live = 2%nat /\ separate (live ++ [(0xC0000000, 64)]) /\ peak s' <= 128.
Proof.
  pose proof (frame_arena_bounded (0xC0000000 + 64) [(0xC0000000, 64)] 1020 128 (0xC0000000 + 64 + 1024)
    (mk (0xC0000000 + 64) 1024 0 0 0 0 0 0 0 0 true)
    [Alloc 0 5 100 0; Reset 5 6; Alloc 7 9 64 16; Alloc 9 10 65 0; Alloc 9 10 8 8]) as H.
  destruct (run _ _) as [s' live] eqn:E in H |- *. exists s', live. split; [done|].
  assert (Hl : length live = 2%nat) by (vm_compute in E; by inversion E). split; [done|].
  assert (HF : Forall call_ok [Alloc 0 5 100 0; Reset 5 6; Alloc 7 9 64 16; Alloc 9 10 65 0; Alloc 9 10 8 8])
    by (repeat constructor; lia).
  destruct H as (? & _ & _ & ?); [|lia|by vm_compute|lia|by vm_compute|done|split; [done|cbn in *; lia]].
  split_and!; [lia|by repeat constructor|]. split_and!; [|constructor|done]. by vm_compute.
Defined.

End FrameArena.
