(* ===== verification/Pool.v ===== *)
(** * Fixed-size pool allocator

    Models kernel/kernel/memory/pool_allocator.c: slots of one size carved out
    of a [kmalloc] block.  The free slots are threaded into a list through
    their first word; their second word holds a cookie that detects double
    frees.  The time stamp counter readings are arguments. *)

From S2P Require Import Prelude HeapInterface Arena.

Definition POOL_COOKIE : Z := 0x504F4F4C.

Record pool := mk {
  mem : zmap;
  kernel_pool_base : Z;
  kernel_pool_free_head : Z;
  kernel_pool_slot_size : Z;
  kernel_pool_object_size : Z;
  kernel_pool_capacity : Z;
  kernel_pool_free_count : Z;
  kernel_pool_peak_used : Z;
  kernel_pool_failed_alloc_count : Z;
  kernel_pool_wcet_alloc : Z;
  kernel_pool_wcet_free : Z;
  kernel_pool_initialized : bool }.

Definition boot (m : zmap) : pool := mk m 0 0 0 0 0 0 0 0 0 0 false.

(** [for (index = ...; index < object_count; ++index)]: push each slot. *)
Fixpoint thread_slots (base slot_size : Z) (count : nat) (index head : Z) (m : zmap) : Z * zmap :=
  match count with
  | O => (head, m)
  | S count =>
      let slot := base ⊞ (index ⊠ slot_size) in
      thread_slots base slot_size count (index ⊞ 1) slot (<[slot ⊞ 4 := POOL_COOKIE]> (<[slot := head]> m))
  end.

Definition pool_slot_size (object_size : Z) : Z :=
  let min_slot := 4 ⊞ 4 in
  let slot_size := align_up object_size 4 in
  if slot_size <? min_slot then align_up min_slot 4 else slot_size.

Definition kernel_pool_allocator_initialize {H} `{HeapOps H} (object_size object_count : Z) (h : H) (s : pool)
  : option (bool * H * pool) :=
  if kernel_pool_initialized s then Some (true, h, s)
  else if (object_size =? 0) || (object_count =? 0) then Some (false, h, s)
  else
    let slot_size := pool_slot_size object_size in
    let total_bytes := slot_size ⊠ object_count in
    '(backing, h) ← kmalloc total_bytes h;
    if backing =? 0 then
      Some (false, h,
        mk (mem s) (kernel_pool_base s) (kernel_pool_free_head s) slot_size object_size
           (kernel_pool_capacity s) (kernel_pool_free_count s) (kernel_pool_peak_used s)
           (kernel_pool_failed_alloc_count s) (kernel_pool_wcet_alloc s) (kernel_pool_wcet_free s)
           (kernel_pool_initialized s))
    else
      let '(head, m) := thread_slots backing slot_size (Z.to_nat object_count) 0 0 (mem s) in
      Some (true, h, mk m backing head slot_size object_size object_count object_count 0 0 0 0 true).

Definition kernel_pool_alloc (t0 t1 : Z) (s : pool) : Z * pool :=
  if negb (kernel_pool_initialized s) || (kernel_pool_free_head s =? 0) then
    (0,
     if kernel_pool_initialized s then
       mk (mem s) (kernel_pool_base s) (kernel_pool_free_head s) (kernel_pool_slot_size s)
          (kernel_pool_object_size s) (kernel_pool_capacity s) (kernel_pool_free_count s)
          (kernel_pool_peak_used s) (kernel_pool_failed_alloc_count s ⊞ 1) (kernel_pool_wcet_alloc s)
          (kernel_pool_wcet_free s) (kernel_pool_initialized s)
     else s)
  else
    let slot := kernel_pool_free_head s in
    let free_count := kernel_pool_free_count s ⊟ 1 in
    let used_count := kernel_pool_capacity s ⊟ free_count in
    let delta := t1 ⊟ t0 in
    (slot,
     mk (<[slot ⊞ 4 := 0]> (mem s)) (kernel_pool_base s) (zget (mem s) slot) (kernel_pool_slot_size s)
        (kernel_pool_object_size s) (kernel_pool_capacity s) free_count
        (if kernel_pool_peak_used s <? used_count then used_count else kernel_pool_peak_used s)
        (kernel_pool_failed_alloc_count s)
        (if kernel_pool_wcet_alloc s <? delta then delta else kernel_pool_wcet_alloc s)
        (kernel_pool_wcet_free s) (kernel_pool_initialized s)).

Definition kernel_pool_free (t0 t1 ptr : Z) (s : pool) : bool * pool :=
  if negb (kernel_pool_initialized s) || (ptr =? 0) then (false, s)
  else
    let base_addr := kernel_pool_base s in
    let end_addr := base_addr ⊞ (kernel_pool_slot_size s ⊠ kernel_pool_capacity s) in
    if (ptr <? base_addr) || (end_addr <=? ptr) then (false, s)
    else if negb ((ptr ⊟ base_addr) mod kernel_pool_slot_size s =? 0) then (false, s)
    else if zget (mem s) (ptr ⊞ 4) =? POOL_COOKIE then (false, s)
    else
      let delta := t1 ⊟ t0 in
      (true,
       mk (<[ptr ⊞ 4 := POOL_COOKIE]> (<[ptr := kernel_pool_free_head s]> (mem s))) base_addr ptr
          (kernel_pool_slot_size s) (kernel_pool_object_size s) (kernel_pool_capacity s)
          (if kernel_pool_free_count s <? kernel_pool_capacity s then kernel_pool_free_count s ⊞ 1
           else kernel_pool_free_count s)
          (kernel_pool_peak_used s) (kernel_pool_failed_alloc_count s) (kernel_pool_wcet_alloc s)
          (if kernel_pool_wcet_free s <? delta then delta else kernel_pool_wcet_free s)
          (kernel_pool_initialized s)).

(** A client writes a word of the block. *)
Definition store (a v : Z) (s : pool) : pool :=
  mk (<[a := v]> (mem s)) (kernel_pool_base s) (kernel_pool_free_head s) (kernel_pool_slot_size s)
     (kernel_pool_object_size s) (kernel_pool_capacity s) (kernel_pool_free_count s)
     (kernel_pool_peak_used s) (kernel_pool_failed_alloc_count s) (kernel_pool_wcet_alloc s)
     (kernel_pool_wcet_free s) (kernel_pool_initialized s).

(** ** Invariant

    [F] lists the free slots from the head of the list; the live slots are the
    others. *)

Definition is_slot (s : pool) (p : Z) : Prop :=
  exists i, 0 <= i < kernel_pool_capacity s /\ p = kernel_pool_base s + i * kernel_pool_slot_size s.

Record pool_ok (s : pool) (F : list Z) : Prop := {
  po_init : kernel_pool_initialized s = true;
  po_region : region_ok (kernel_pool_base s, kernel_pool_slot_size s * kernel_pool_capacity s);
  po_size : 8 <= kernel_pool_slot_size s;
  po_capacity : 0 < kernel_pool_capacity s;
  po_slots : Forall (is_slot s) F;
  po_nodup : NoDup F;
  po_chain : chain (zget (mem s)) (kernel_pool_free_head s) F;
  po_cookie : Forall (fun p => zget (mem s) (p + 4) = POOL_COOKIE) F;
  po_count : kernel_pool_free_count s = Z.of_nat (length F) }.

Definition live (s : pool) (F : list Z) (p : Z) : Prop := is_slot s p /\ p ∉ F.

(** ** Specification

    What a pool promises: a set of slots, those that are live, and the words
    clients left in the live ones.  Only a word that is the cookie keeps a live
    slot from being freed. *)

Inductive op := Alloc | Free (ptr : Z) | Store (a v : Z).

Record view := mkView { v_size : Z; v_slot : Z -> Prop; v_live : Z -> Prop; v_word : Z -> Z }.

Definition in_live (w : view) (a : Z) : Prop :=
  exists p, v_live w p /\ p <= a < p + v_size w /\ (a - p) mod 4 = 0.

(** The words of the slots that stay live are kept. *)
Definition keeps (w w' : view) : Prop :=
  v_size w' = v_size w /\ (forall p, v_slot w' p <-> v_slot w p) /\
  forall a, in_live w a -> in_live w' a -> v_word w' a = v_word w a.

Inductive step (w : view) : op -> Z -> view -> Prop :=
  | step_alloc p w' :
      v_slot w p -> ~ v_live w p -> keeps w w' ->
      (forall q, v_live w' q <-> v_live w q \/ q = p) -> step w Alloc p w'
  | step_full w' :
      (forall p, v_slot w p -> v_live w p) -> keeps w w' ->
      (forall q, v_live w' q <-> v_live w q) -> step w Alloc 0 w'
  | step_free p w' :
      v_live w p -> v_word w (p + 4) <> POOL_COOKIE -> keeps w w' ->
      (forall q, v_live w' q <-> v_live w q /\ q <> p) -> step w (Free p) 1 w'
  | step_reject p w' :
      (v_live w p -> v_word w (p + 4) = POOL_COOKIE) -> keeps w w' ->
      (forall q, v_live w' q <-> v_live w q) -> step w (Free p) 0 w'
  | step_store a v w' :
      v_size w' = v_size w -> (forall p, v_slot w' p <-> v_slot w p) ->
      (forall q, v_live w' q <-> v_live w q) ->
      (forall b, in_live w b -> v_word w' b = if decide (b = a) then v else v_word w b) ->
      step w (Store a v) 0 w'.

Definition abs (s : pool) (F : list Z) : view :=
  mkView (kernel_pool_slot_size s) (is_slot s) (live s F) (zget (mem s)).

(** Clients free any pointer they like, and write only into live slots. *)
Definition legal (s : pool) (F : list Z) (o : op) : Prop :=
  match o with
  | Alloc => True
  | Free ptr => in32 ptr
  | Store a _ => in_live (abs s F) a
  end.

Definition exec (t0 t1 : Z) (o : op) (s : pool) : Z * pool :=
  match o with
  | Alloc => kernel_pool_alloc t0 t1 s
  | Free ptr => let '(b, s') := kernel_pool_free t0 t1 ptr s in (Z.b2z b, s')
  | Store a v => (0, store a v s)
  end.

(** ** Slots *)

Lemma slot_bounds s F p :
  pool_ok s F -> is_slot s p ->
  kernel_pool_base s <= p /\
  p + kernel_pool_slot_size s <= kernel_pool_base s + kernel_pool_slot_size s * kernel_pool_capacity s /\
  0 < p /\ p + kernel_pool_slot_size s < 2 ^ 32.
Proof.
  intros Hok (i & Hi & ->). destruct (po_region _ _ Hok) as (Hb & _ & He). cbn in Hb, He.
  pose proof (po_size _ _ Hok). nia.
Qed.

(** Two slots are the same or do not overlap. *)
Lemma slot_apart s F p q :
  pool_ok s F -> is_slot s p -> is_slot s q -> p <> q ->
  p + kernel_pool_slot_size s <= q \/ q + kernel_pool_slot_size s <= p.
Proof.
  intros Hok (i & Hi & ->) (j & Hj & ->) Hne. pose proof (po_size _ _ Hok).
  assert (i <> j) by congruence. nia.
Qed.

Lemma chain_head_cases nxt h l : chain nxt h l -> h = 0 /\ l = [] \/ h <> 0 /\ exists l', l = h :: l' /\ chain nxt (nxt h) l'.
Proof. destruct l as [|p l]; cbn; [by left|]. intros (-> & Hp & Hc). right. eauto. Qed.

(** Writing words of one slot leaves the list through the other slots alone. *)
Lemma list_kept s F F' m p :
  pool_ok s F -> is_slot s p -> F' ⊆ F -> p ∉ F' ->
  (forall a, zget m a = zget (mem s) a \/ p <= a < p + kernel_pool_slot_size s) ->
  forall q, q ∈ F' -> zget m q = zget (mem s) q /\ zget m (q + 4) = zget (mem s) (q + 4).
Proof.
  intros Hok Hp Hsub Hni Hm q Hq. pose proof (po_size _ _ Hok).
  assert (Hs : is_slot s q). { pose proof (po_slots _ _ Hok) as Hf. rewrite Forall_forall in Hf. by apply Hf, Hsub. }
  assert (q <> p) by (intros ->; done). destruct (slot_apart s F q p Hok Hs Hp ltac:(done)).
  - destruct (Hm q) as [->|]; [|lia]. destruct (Hm (q + 4)) as [->|]; [done|lia].
  - destruct (Hm q) as [->|]; [|lia]. destruct (Hm (q + 4)) as [->|]; [done|lia].
Qed.

(** The part of the invariant that lives in memory. *)
Definition threaded (m : zmap) (h : Z) (F : list Z) : Prop :=
  chain (zget m) h F /\ Forall (fun p => zget m (p + 4) = POOL_COOKIE) F.

Lemma threaded_kept s F F' m h p :
  pool_ok s F -> is_slot s p -> F' ⊆ F -> p ∉ F' ->
  (forall a, zget m a = zget (mem s) a \/ p <= a < p + kernel_pool_slot_size s) ->
  threaded (mem s) h F' -> threaded m h F'.
Proof.
  intros Hok Hp Hsub Hni Hm [Hc Hk]. pose proof (list_kept s F F' m p Hok Hp Hsub Hni Hm) as Hkept.
  split.
  - eapply chain_ext; [|done]. intros q Hq. apply Hkept, Hq.
  - apply Forall_forall. intros q Hq. rewrite Forall_forall in Hk. rewrite (proj2 (Hkept q Hq)). by apply Hk.
Qed.

Definition same_geometry (s s' : pool) : Prop :=
  kernel_pool_initialized s' = kernel_pool_initialized s /\ kernel_pool_base s' = kernel_pool_base s /\
  kernel_pool_slot_size s' = kernel_pool_slot_size s /\ kernel_pool_capacity s' = kernel_pool_capacity s.

Lemma same_slot s s' p : same_geometry s s' -> is_slot s' p <-> is_slot s p.
Proof. intros (_ & Hb & Hz & Hc). unfold is_slot. by rewrite Hb, Hz, Hc. Qed.

Lemma pool_rebuild s F s' F' :
  pool_ok s F -> same_geometry s s' -> Forall (is_slot s) F' -> NoDup F' ->
  threaded (mem s') (kernel_pool_free_head s') F' ->
  kernel_pool_free_count s' = Z.of_nat (length F') -> pool_ok s' F'.
Proof.
  intros Hok Hg Hs Hnd [Hc Hk] Hn. pose proof (same_slot s s') as Hss. destruct Hg as (Hi & Hb & Hz & Hcap).
  destruct Hok. constructor; rewrite ?Hi, ?Hb, ?Hz, ?Hcap; try done.
  eapply Forall_impl; [exact Hs|]. intros p Hp. by apply Hss.
Qed.

(** Memory that changes inside one slot only keeps the words of the live ones
    other than it. *)
Lemma pool_keeps s F s' F' p :
  pool_ok s F -> same_geometry s s' -> is_slot s p ->
  (~ live s F p \/ ~ live s' F' p \/ mem s' = mem s) ->
  (forall a, zget (mem s') a = zget (mem s) a \/ p <= a < p + kernel_pool_slot_size s) ->
  keeps (abs s F) (abs s' F').
Proof.
  intros Hok Hg Hp Hout Hm. pose proof (fun q => same_slot s s' q Hg) as Hss. destruct Hg as (_ & _ & Hz & _).
  split_and!; cbn [v_size v_slot v_word abs]; [done|done|].
  intros a (q & Hl & Hqa & _) (q' & Hl' & Hqa' & _). cbn [v_size v_slot v_live abs] in *.
  destruct Hout as [Hout|[Hout|Hout]]; [| |by rewrite Hout].
  - destruct (Hm a) as [|Ha]; [done|]. destruct (decide (q = p)) as [->|Hne]; [done|].
    destruct (slot_apart s F q p Hok (proj1 Hl) Hp Hne); lia.
  - destruct (Hm a) as [|Ha]; [done|]. destruct (decide (q' = p)) as [->|Hne]; [done|].
    destruct (slot_apart s F q' p Hok (proj1 (Hss q') (proj1 Hl')) Hp Hne); lia.
Qed.

Lemma slots_bound s F : pool_ok s F -> Z.of_nat (length F) <= kernel_pool_capacity s.
Proof.
  intros Hok. pose proof (po_size _ _ Hok). pose proof (po_capacity _ _ Hok).
  set (f := fun i => kernel_pool_base s + i * kernel_pool_slot_size s).
  assert (F ⊆ f <$> seqZ 0 (kernel_pool_capacity s)) as Hsub.
  { intros p Hp. pose proof (po_slots _ _ Hok) as Hf. rewrite Forall_forall in Hf.
    destruct (Hf p Hp) as (i & Hi & ->). apply list_elem_of_fmap. exists i. split; [done|].
    apply elem_of_seqZ. lia. }
  pose proof (submseteq_length _ _ (NoDup_submseteq _ _ (po_nodup _ _ Hok) Hsub)) as Hl.
  rewrite length_fmap, length_seqZ in Hl. lia.
Qed.

Ltac geometry Hok := unfold same_geometry; split_and!; cbn; rewrite ?(po_init _ _ Hok); done.

(** ** Operations *)

Lemma pool_alloc_spec t0 t1 s F :
  pool_ok s F ->
  let '(p, s') := kernel_pool_alloc t0 t1 s in
  exists F', pool_ok s' F' /\ same_geometry s s' /\ step (abs s F) Alloc p (abs s' F').
Proof.
  intros Hok. unfold kernel_pool_alloc. rewrite (po_init _ _ Hok). cbn [negb orb].
  destruct (chain_head_cases _ _ _ (po_chain _ _ Hok)) as [[Hh HF]|[Hh (F' & HF & Hc)]].
  - rewrite Hh. cbn [Z.eqb]. match goal with |- exists F', pool_ok ?x F' /\ _ => set (s' := x) end.
    assert (Hg : same_geometry s s') by geometry Hok. exists F. split; [|split; [done|]].
    { by eapply pool_rebuild; [done|done|apply Hok|apply Hok|split; [cbn; rewrite <- Hh|]; apply Hok|apply Hok]. }
    apply step_full; cbn; try done. intros p Hp. split; [done|]. rewrite HF. by apply not_elem_of_nil.
  - rewrite (proj2 (Z.eqb_neq _ _)) by done. set (p := kernel_pool_free_head s) in *.
    pose proof (po_slots _ _ Hok) as Hs. pose proof (po_cookie _ _ Hok) as Hk. pose proof (po_nodup _ _ Hok) as Hnd.
    pose proof (po_count _ _ Hok) as Hn. pose proof (slots_bound _ _ Hok) as Hb.
    rewrite HF in Hs, Hk, Hnd, Hn, Hb. apply Forall_cons in Hs as [Hp Hs], Hk as [_ Hk]. apply NoDup_cons in Hnd as [Hni Hnd].
    pose proof (slot_bounds s F p Hok Hp). pose proof (po_size _ _ Hok).
    assert (in32 (kernel_pool_capacity s)).
    { destruct (po_region _ _ Hok) as (? & ? & ?). cbn in *. nia. }
    cbn [length] in Hn, Hb. rewrite (add32_small p 4), (sub32_small _ 1) by lia.
    match goal with |- exists F', pool_ok ?x F' /\ _ => set (s' := x) end.
    assert (Hg : same_geometry s s') by geometry Hok.
    assert (Hm : forall a, zget (mem s') a = zget (mem s) a \/ p <= a < p + kernel_pool_slot_size s).
    { intros a. cbn. rewrite zget_insert. case_decide; [right; lia|by left]. }
    exists F'. split_and!; [|done|].
    + eapply pool_rebuild; [done..| |cbn; lia]. eapply threaded_kept; [done..| |done|exact Hm|done]. rewrite HF. intros q Hq. inlist.
    + apply step_alloc; cbn.
      * done.
      * intros [_ Hl]. apply Hl. rewrite HF. inlist.
      * eapply pool_keeps; [done..| |exact Hm]. left. intros [_ Hl]. apply Hl. rewrite HF. inlist.
      * intros q. unfold live. rewrite HF, elem_of_cons, (same_slot s s' q Hg).
        destruct (decide (q = p)) as [->|]; naive_solver.
Qed.

(** The pointers that pass the range and stride checks are the slots. *)
Lemma slot_checks s F p :
  pool_ok s F -> in32 p ->
  is_slot s p <->
  kernel_pool_base s <= p < kernel_pool_base s + kernel_pool_slot_size s * kernel_pool_capacity s /\
  (p - kernel_pool_base s) mod kernel_pool_slot_size s = 0.
Proof.
  intros Hok Hp. pose proof (po_size _ _ Hok). split.
  - intros Hs. pose proof (slot_bounds s F p Hok Hs). split; [lia|]. destruct Hs as (i & _ & ->).
    replace (_ + i * _ - _) with (i * kernel_pool_slot_size s) by lia. apply Z.mod_mul. lia.
  - intros [Hr Hm]. exists ((p - kernel_pool_base s) / kernel_pool_slot_size s).
    pose proof (Z.div_mod (p - kernel_pool_base s) (kernel_pool_slot_size s) ltac:(lia)). split; [|lia].
    split; [apply Z.div_pos; lia|]. apply Z.div_lt_upper_bound; lia.
Qed.

Lemma free_rejects t0 t1 p s F :
  pool_ok s F -> in32 p -> (live s F p -> zget (mem s) (p + 4) = POOL_COOKIE) ->
  kernel_pool_free t0 t1 p s = (false, s).
Proof.
  intros Hok Hp Hl. unfold kernel_pool_free. rewrite (po_init _ _ Hok). cbn [negb orb].
  destruct (Z.eqb_spec p 0); [done|].
  destruct (po_region _ _ Hok) as (Hb & Ht & He). cbn [fst snd] in *. pose proof (po_size _ _ Hok).
  rewrite mul32_small, add32_small by lia.
  destruct (Z.ltb_spec p (kernel_pool_base s)); [done|].
  destruct (Z.leb_spec (kernel_pool_base s + kernel_pool_slot_size s * kernel_pool_capacity s) p); [done|].
  cbn [orb]. rewrite sub32_small by lia.
  destruct (Z.eqb_spec ((p - kernel_pool_base s) mod kernel_pool_slot_size s) 0) as [Hm|]; [|done]. cbn [negb].
  assert (Hs : is_slot s p) by (by apply (slot_checks s F)).
  pose proof (slot_bounds s F p Hok Hs). rewrite add32_small by lia.
  assert (zget (mem s) (p + 4) = POOL_COOKIE) as ->; [|done].
  destruct (decide (p ∈ F)) as [Hin|Hni]; [|by apply Hl].
  pose proof (po_cookie _ _ Hok) as Hk. rewrite Forall_forall in Hk. by apply Hk.
Qed.

Lemma free_accepts t0 t1 p s F :
  pool_ok s F -> live s F p -> zget (mem s) (p + 4) <> POOL_COOKIE ->
  let '(b, s') := kernel_pool_free t0 t1 p s in
  b = true /\ pool_ok s' (p :: F) /\ same_geometry s s' /\ keeps (abs s F) (abs s' (p :: F)).
Proof.
  intros Hok [Hs Hni] Hk. pose proof (slot_bounds s F p Hok Hs). pose proof (po_size _ _ Hok).
  destruct (po_region _ _ Hok) as (Hb & Ht & He). cbn [fst snd] in *.
  pose proof (proj1 (slot_checks s F p Hok ltac:(lia)) Hs) as [Hr Hm].
  assert (in32 (kernel_pool_capacity s)) by nia.
  assert (Hlen : Z.of_nat (length F) < kernel_pool_capacity s).
  { set (f := fun i => kernel_pool_base s + i * kernel_pool_slot_size s).
    assert (p :: F ⊆ f <$> seqZ 0 (kernel_pool_capacity s)) as Hsub.
    { intros q Hq. assert (is_slot s q) as (i & Hi & ->).
      { apply elem_of_cons in Hq as [->|Hq]; [done|]. pose proof (po_slots _ _ Hok) as Hf.
        rewrite Forall_forall in Hf. by apply Hf. }
      apply list_elem_of_fmap. exists i. split; [done|]. apply elem_of_seqZ. lia. }
    assert (NoDup (p :: F)) as Hnd by (apply NoDup_cons; split; [done|apply Hok]).
    pose proof (submseteq_length _ _ (NoDup_submseteq _ _ Hnd Hsub)) as Hl.
    rewrite length_fmap, length_seqZ in Hl. cbn [length] in Hl. lia. }
  unfold kernel_pool_free. rewrite (po_init _ _ Hok). cbn [negb orb].
  rewrite (proj2 (Z.eqb_neq p 0)) by lia. rewrite mul32_small, add32_small by lia.
  rewrite (proj2 (Z.ltb_ge p _)), (proj2 (Z.leb_gt _ p)), sub32_small, Hm by lia. cbn [orb negb Z.eqb].
  rewrite (add32_small p 4), (proj2 (Z.eqb_neq _ _)) by (done || lia). split; [done|].
  match goal with |- pool_ok ?x _ /\ _ => set (s' := x) end.
  assert (Hg : same_geometry s s') by geometry Hok.
  assert (Hmem : forall a, zget (mem s') a = zget (mem s) a \/ p <= a < p + kernel_pool_slot_size s).
  { intros a. cbn. rewrite !zget_insert. repeat case_decide; [right; lia..|by left]. }
  split_and!; [|done|].
  - eapply pool_rebuild; [done|done| | | |].
    + constructor; [done|apply Hok].
    + apply NoDup_cons. split; [done|apply Hok].
    + destruct (threaded_kept s F F (mem s') (kernel_pool_free_head s) p) as [Hc Hck]; try done.
      { split; apply Hok. }
      split.
      * cbn [chain]. split_and!; [done|lia|]. cbn [mem s']. rewrite zget_insert_ne, zget_insert_eq by lia. done.
      * constructor; [|done]. cbn [mem s']. by rewrite zget_insert_eq.
    + cbn. rewrite (po_count _ _ Hok), (proj2 (Z.ltb_lt _ _)), add32_small by lia. lia.
  - apply (pool_keeps s F s' (p :: F) p); [done..| |exact Hmem]. right. left. intros [_ Hl]. apply Hl. inlist.
Qed.

Lemma keeps_refl s F : keeps (abs s F) (abs s F).
Proof. done. Qed.

Lemma pool_free_spec t0 t1 p s F :
  pool_ok s F -> in32 p ->
  let '(b, s') := kernel_pool_free t0 t1 p s in
  exists F', pool_ok s' F' /\ same_geometry s s' /\ step (abs s F) (Free p) (Z.b2z b) (abs s' F').
Proof.
  intros Hok Hp.
  assert (Hd : (live s F p /\ zget (mem s) (p + 4) <> POOL_COOKIE) \/
               (live s F p -> zget (mem s) (p + 4) = POOL_COOKIE)).
  { destruct (decide (zget (mem s) (p + 4) = POOL_COOKIE)); [by right|].
    destruct (decide (p ∈ F)) as [|Hni]; [right; by intros []|].
    destruct (decide (kernel_pool_base s <= p < kernel_pool_base s + kernel_pool_slot_size s * kernel_pool_capacity s /\
      (p - kernel_pool_base s) mod kernel_pool_slot_size s = 0)) as [Hs|Hs]; rewrite <- (slot_checks s F) in Hs by done.
    - left. done.
    - right. by intros []. }
  destruct Hd as [[Hl Hk]|Hl].
  - pose proof (free_accepts t0 t1 p s F Hok Hl Hk) as Ha. destruct (kernel_pool_free t0 t1 p s) as [b s'].
    destruct Ha as (-> & Hok' & Hg & Hkeep). exists (p :: F). split_and!; [done..|].
    apply step_free; cbn; try done. intros q. unfold live.
    rewrite (same_slot s s' q Hg), not_elem_of_cons. naive_solver.
  - rewrite (free_rejects t0 t1 p s F) by done. exists F. split_and!; [done..|]. by apply step_reject.
Qed.

(** C39: One call on a pool is one step of its specification.  An allocation
    returns a slot that is not live, and fails only when all are; a free is
    accepted exactly for a live slot whose second word is not the cookie, so
    that NULL, wild pointers, interior pointers and double frees are all
    refused and change nothing; the words clients wrote in their slots are
    kept. *)
Theorem pool_simulation t0 t1 s F o :
  pool_ok s F -> legal s F o ->
  let '(r, s') := exec t0 t1 o s in
  exists F', pool_ok s' F' /\ same_geometry s s' /\ step (abs s F) o r (abs s' F').
Proof.
  intros Hok Hl. destruct o as [|p|a v]; cbn [exec].
  - by apply pool_alloc_spec.
  - pose proof (pool_free_spec t0 t1 p s F Hok Hl). by destruct (kernel_pool_free t0 t1 p s).
  - destruct Hl as (p & [Hs Hni] & Hpa & Hal). cbn [v_size abs] in Hpa.
    pose proof (slot_bounds s F p Hok Hs). pose proof (po_size _ _ Hok). exists F.
    assert (Hg : same_geometry s (store a v s)) by done.
    split_and!; [|done|].
    + eapply pool_rebuild; [done|done|apply Hok..| |apply Hok].
      eapply threaded_kept; [done|exact Hs|done|exact Hni| |split; apply Hok].
      intros b. cbn. rewrite zget_insert. case_decide; [right; lia|by left].
    + apply step_store; cbn; try done. intros b _. rewrite zget_insert.
      destruct (decide (b = a)) as [->|]; [by rewrite decide_True|by rewrite decide_False].
Qed.

(** ** Initialisation *)

(** The slots [index], [index + 1], ... below [index + count], last first. *)
Fixpoint slots_down (base slot_size : Z) (count : nat) (index : Z) (F : list Z) : list Z :=
  match count with
  | O => F
  | S count => slots_down base slot_size count (index + 1) ((base + index * slot_size) :: F)
  end.

Lemma elem_of_slots_down base sz count : forall index F p,
  p ∈ slots_down base sz count index F <->
  p ∈ F \/ exists i, index <= i < index + Z.of_nat count /\ p = base + i * sz.
Proof.
  induction count as [|count IH]; intros index F p; cbn [slots_down].
  - split; [by left|]. intros [|(i & ? & _)]; [done|lia].
  - rewrite IH, elem_of_cons. split.
    + intros [[->|]|(i & Hi & ->)]; [right; exists index; lia|by left|right; exists i; split; [lia|done]].
    + intros [|(i & Hi & ->)]; [by left; right|].
      destruct (decide (i = index)) as [->|]; [by left; left|]. right. exists i. split; [lia|done].
Qed.

Lemma thread_slots_spec base sz count : forall index head m F,
  0 < base -> 8 <= sz -> 0 <= index -> base + (index + Z.of_nat count) * sz < 2 ^ 32 ->
  threaded m head F -> NoDup F -> Forall (fun q => q + 8 <= base + index * sz) F ->
  let '(h, m') := thread_slots base sz count index head m in
  threaded m' h (slots_down base sz count index F) /\ NoDup (slots_down base sz count index F) /\
  length (slots_down base sz count index F) = (count + length F)%nat.
Proof.
  induction count as [|count IH]; intros index head m F Hb Hsz Hi He [Hc Hk] Hnd Hbelow; [done|].
  cbn [thread_slots slots_down]. rewrite (mul32_small index sz), (add32_small base) by nia.
  rewrite (add32_small (_ + _) 4), (add32_small index 1) by nia.
  set (p := base + index * sz) in *. assert (0 < p) by nia.
  specialize (IH (index + 1) p (<[p + 4 := POOL_COOKIE]> (<[p := head]> m)) (p :: F)).
  destruct (thread_slots _ _ _ _ _ _) as [h m']. destruct IH as (? & ? & Hlen); try done; try lia.
  - rewrite Forall_forall in Hbelow, Hk. split.
    + cbn [chain]. split_and!; [done|lia|]. rewrite zget_insert_ne, zget_insert_eq by lia.
      eapply chain_ext; [|exact Hc]. intros q Hq. specialize (Hbelow q Hq). cbn in Hbelow. by rewrite !zget_insert_ne by lia.
    + constructor; [by rewrite zget_insert_eq|]. apply Forall_forall. intros q Hq. specialize (Hbelow q Hq).
      cbn in Hbelow. rewrite !zget_insert_ne by lia. by apply Hk.
  - apply NoDup_cons. split; [|done]. intros Hp. rewrite Forall_forall in Hbelow. specialize (Hbelow p Hp). cbn in Hbelow. lia.
  - constructor; [lia|]. eapply Forall_impl; [exact Hbelow|]. cbn. lia.
  - split_and!; [done..|]. rewrite Hlen. cbn. lia.
Qed.

Lemma pool_slot_size_spec n : 0 < n <= 2 ^ 30 -> n <= pool_slot_size n /\ 8 <= pool_slot_size n < 2 ^ 31.
Proof.
  intros Hn. pose proof (align_up_bounds n 4 ltac:(lia) ltac:(lia) ltac:(lia)).
  unfold pool_slot_size. change (4 ⊞ 4) with 8. change (align_up 8 4) with 8.
  destruct (Z.ltb_spec (align_up n 4) 8); lia.
Qed.

(** On a lawful heap the initialisation returns; it fails without a
    trace in the heap, or takes one block and leaves a pool of [count] slots,
    each large enough for an object, all of them free. *)
Theorem pool_initialize_correct {H} `{HeapLaws H} (h : H) L m size count :
  heap_inv h L -> 0 < size <= 2 ^ 30 -> 0 < count < 2 ^ 32 ->
  pool_slot_size size * count <= heap_limit H ->
  exists b h' s, kernel_pool_allocator_initialize size count h (boot m) = Some (b, h', s) /\
    if b then
      heap_inv h' ((kernel_pool_base s, kernel_pool_slot_size s * count) :: L) /\
      size <= kernel_pool_slot_size s /\ kernel_pool_capacity s = count /\
      exists F, pool_ok s F /\ length F = Z.to_nat count /\ (forall p, ~ live s F p)
    else heap_inv h' L /\ kernel_pool_initialized s = false.
Proof.
  intros Hh Hs Hc Hl. pose proof (pool_slot_size_spec size Hs) as [Hge Hz]. pose proof (heap_limit_le H).
  unfold kernel_pool_allocator_initialize. cbn [kernel_pool_initialized boot].
  rewrite !(proj2 (Z.eqb_neq _ 0)) by lia. cbn [orb]. set (sz := pool_slot_size size) in *. clearbody sz.
  rewrite mul32_small by nia.
  destruct (heap_kmalloc h L (sz * count) Hh ltac:(nia)) as (p & h' & -> & Hp). cbn.
  destruct (Z.eqb_spec p 0) as [|Hp0]; [by eexists _, _, _|].
  pose proof (heap_separate _ _ Hp) as (Hr & _). destruct Hr as (Hr1 & Hr2 & Hr3). cbn [fst snd] in *.
  pose proof (thread_slots_spec p sz (Z.to_nat count) 0 0 m []) as Ht.
  destruct (thread_slots p sz (Z.to_nat count) 0 0 m) as [head m'].
  destruct Ht as ([Hch Hck] & Hnd & Hlen); try done; try lia; [constructor|].
  eexists _, _, _. split; [done|]. cbn [kernel_pool_base kernel_pool_slot_size kernel_pool_capacity].
  split_and!; [done..|]. eexists. split_and!; [|rewrite Hlen; cbn; lia|].
  - constructor; cbn; try done; try lia; try (rewrite Hlen; cbn; lia).
    apply Forall_forall. intros q [Hq|(i & Hi & ->)]%elem_of_slots_down; [by apply not_elem_of_nil in Hq|].
    exists i. cbn. split; [lia|done].
  - intros q [(i & Hi & ->) Hni]. apply Hni. cbn in *. apply elem_of_slots_down. right. exists i. split; [lia|done].
Qed.

(** The hypotheses hold for eight objects of twenty bytes. *)
Lemma pool_initialize_correct_witness :
  exists b h' s, kernel_pool_allocator_initialize 20 8 0xC0000000 (boot ∅) = Some (b, h', s) /\ b = true /\
    exists F, pool_ok s F /\ length F = 8%nat.
Proof.
  destruct (pool_initialize_correct 0xC0000000 [] ∅ 20 8) as (b & h' & s & Hi & Hb).
  - split_and!; [lia|constructor|done].
  - lia.
  - lia.
  - by vm_compute.
  - exists b, h', s. assert (b = true) as -> by (vm_compute in Hi; by inversion Hi).
    split_and!; [done..|]. destruct Hb as (_ & _ & _ & F & ? & ? & _). eauto.
Defined.

(** An example pool of four slots of eight bytes, the first of them live. *)
Definition example : pool :=
  mk (<[0xC000000C := POOL_COOKIE]> (<[0xC0000014 := POOL_COOKIE]> (<[0xC000001C := POOL_COOKIE]>
     (<[0xC0000010 := 0xC0000008]> (<[0xC0000018 := 0xC0000010]> ∅)))))
     0xC0000000 0xC0000018 8 8 4 3 1 0 0 0 true.

Definition example_free : list Z := [0xC0000018; 0xC0000010; 0xC0000008].

Lemma pool_example_ok : pool_ok example example_free.
Proof.
  constructor; cbn [example kernel_pool_initialized kernel_pool_slot_size kernel_pool_capacity kernel_pool_base]; try done.
  - repeat constructor; cbn; [exists 3|exists 2|exists 1]; cbn; lia.
  - unfold example_free. repeat (constructor; [set_solver|]). constructor.
  - by repeat constructor.
Qed.

(** The hypotheses hold at the example pool, where the only live slot is
    freed and then refused. *)
Lemma pool_simulation_witness :
  let '(r, s') := exec 3 5 (Free 0xC0000000) example in
  r = 1 /\ exists F', pool_ok s' F' /\ step (abs example example_free) (Free 0xC0000000) r (abs s' F').
Proof.
  pose proof (pool_simulation 3 5 example example_free (Free 0xC0000000) pool_example_ok ltac:(cbn; lia)) as H.
  destruct (exec 3 5 (Free 0xC0000000) example) as [r s'] eqn:E.
  split; [vm_compute in E; by inversion E|]. destruct H as (F' & ? & _ & ?). eauto.
Defined.

(** The size of the block is computed in 32 bits without a check: two objects
    of [2 ^ 31 + 8] bytes ask the heap for 16 bytes, and the first slot handed
    out lies outside them. *)
Lemma pool_size_wraps {H} `{HeapOps H} (h h' : H) p m t0 t1 :
  kmalloc 16 h = Some (p, h') -> p <> 0 -> p ⊞ (2 ^ 31 + 8) <> 0 ->
  exists s, kernel_pool_allocator_initialize (2 ^ 31 + 8) 2 h (boot m) = Some (true, h', s) /\
    (kernel_pool_alloc t0 t1 s).1 = p ⊞ (2 ^ 31 + 8).
Proof.
  intros Hk Hp Hq. unfold kernel_pool_allocator_initialize. cbn [kernel_pool_initialized boot].
  change (pool_slot_size (2 ^ 31 + 8)) with (2 ^ 31 + 8). change ((2 ^ 31 + 8) ⊠ 2) with 16. rewrite Hk.
  cbn [mbind option_bind]. rewrite (proj2 (Z.eqb_neq p 0)) by done. eexists. split; [done|].
  unfold kernel_pool_alloc. cbn [kernel_pool_initialized kernel_pool_free_head negb orb].
  change (0 ⊞ 1 ⊠ (2 ^ 31 + 8)) with (2 ^ 31 + 8). by rewrite (proj2 (Z.eqb_neq _ 0)).
Qed.
