(* ===== verification/Ring.v ===== *)
(** * Ring buffer

    Models kernel/kernel/memory/ring_buffer.c: fixed-size slots in a [kmalloc]
    block, one producer end and one consumer end.  The calls are composed of
    the accesses to the shared variables in program order, so that their
    interleavings can be stated; [bytes] is the byte-addressed memory of the
    block. *)

From S2P Require Import Prelude HeapInterface Arena.

(** ** Byte strings in memory *)

(** [memcpy(a, l, length l)] *)
Fixpoint zwrite (m : zmap) (a : Z) (l : list Z) : zmap :=
  match l with
  | [] => m
  | v :: l => zwrite (<[a := v]> m) (a + 1) l
  end.

Fixpoint zread (m : zmap) (a : Z) (n : nat) : list Z :=
  match n with
  | O => []
  | S n => zget m a :: zread m (a + 1) n
  end.

Lemma zget_zwrite l : forall m a b,
  zget (zwrite m a l) b = if decide (a <= b < a + Z.of_nat (length l)) then nth (Z.to_nat (b - a)) l 0 else zget m b.
Proof.
  induction l as [|v l IH]; intros m a b; cbn [zwrite length].
  - by rewrite decide_False by lia.
  - rewrite IH, zget_insert. destruct (decide (a = b)) as [->|Hne].
    + rewrite decide_False, decide_True by lia. by rewrite Z.sub_diag.
    + repeat case_decide; try done; try lia. replace (Z.to_nat (b - a)) with (S (Z.to_nat (b - (a + 1)))) by lia. done.
Qed.

Lemma length_zread n : forall m a, length (zread m a n) = n.
Proof. induction n; intros; cbn; auto. Qed.

Lemma zread_ext n : forall m m' a,
  (forall b, a <= b < a + Z.of_nat n -> zget m' b = zget m b) -> zread m' a n = zread m a n.
Proof.
  induction n as [|n IH]; intros m m' a Hm; cbn [zread]; [done|].
  f_equal; [apply Hm; lia|]. apply IH. intros b Hb. apply Hm. lia.
Qed.

Lemma nth_zread n : forall m a i, (i < n)%nat -> nth i (zread m a n) 0 = zget m (a + Z.of_nat i).
Proof.
  induction n as [|n IH]; intros m a i Hi; [lia|]. destruct i as [|i]; cbn [zread nth].
  - f_equal. lia.
  - rewrite IH by lia. f_equal. lia.
Qed.

(** ** State and operations *)

Inductive KernelRingBufferMode :=
  KERNEL_RING_BUFFER_MODE_LOCAL | KERNEL_RING_BUFFER_MODE_SPSC
| KERNEL_RING_BUFFER_MODE_MPSC | KERNEL_RING_BUFFER_MODE_MPMC.

Record ring := mk {
  bytes : zmap;
  base : Z;
  slot_size : Z;
  capacity : Z;
  head : Z;
  tail : Z;
  count : Z;
  mode : KernelRingBufferMode;
  high_watermark : Z;
  enqueue_count : Z;
  dequeue_count : Z;
  failed_enqueue_count : Z;
  failed_dequeue_count : Z;
  initialized : bool }.

Definition boot (m : zmap) : ring := mk m 0 0 0 0 0 0 KERNEL_RING_BUFFER_MODE_LOCAL 0 0 0 0 0 false.

Definition kernel_ring_buffer_initialize_ex {H} `{HeapOps H} (slot_size slot_count : Z)
  (mode : KernelRingBufferMode) (h : H) (s : ring) : option (bool * H * ring) :=
  if initialized s then Some (true, h, s)
  else if (slot_size =? 0) || (slot_count =? 0) then Some (false, h, s)
  else
    let aligned := align_up slot_size 8 in
    '(backing, h) ← kmalloc (aligned ⊠ slot_count) h;
    if backing =? 0 then
      Some (false, h,
        mk (bytes s) (base s) aligned slot_count (head s) (tail s) (count s) (Ring.mode s) (high_watermark s)
           (enqueue_count s) (dequeue_count s) (failed_enqueue_count s) (failed_dequeue_count s) (initialized s))
    else Some (true, h, mk (bytes s) backing aligned slot_count 0 0 0 mode 0 0 0 0 0 true).

Definition kernel_ring_buffer_initialize {H} `{HeapOps H} (slot_size slot_count : Z) (h : H) (s : ring) :=
  kernel_ring_buffer_initialize_ex slot_size slot_count KERNEL_RING_BUFFER_MODE_LOCAL h s.

Definition with_bytes (m : zmap) (s : ring) : ring :=
  mk m (base s) (slot_size s) (capacity s) (head s) (tail s) (count s) (mode s) (high_watermark s)
     (enqueue_count s) (dequeue_count s) (failed_enqueue_count s) (failed_dequeue_count s) (initialized s).
Definition with_indices (h t c : Z) (s : ring) : ring :=
  mk (bytes s) (base s) (slot_size s) (capacity s) h t c (mode s) (high_watermark s)
     (enqueue_count s) (dequeue_count s) (failed_enqueue_count s) (failed_dequeue_count s) (initialized s).
Definition with_stats (w e d fe fd : Z) (s : ring) : ring :=
  mk (bytes s) (base s) (slot_size s) (capacity s) (head s) (tail s) (count s) (mode s) w e d fe fd (initialized s).

Definition slot_address (index : Z) (s : ring) : Z := base s ⊞ (index ⊠ slot_size s).

(** *** The accesses of [kernel_ring_buffer_enqueue], in order *)

Definition enqueue_refuse (s : ring) : ring :=
  with_stats (high_watermark s) (enqueue_count s) (dequeue_count s) (failed_enqueue_count s ⊞ 1)
    (failed_dequeue_count s) s.

(** [memset] of the slot, then [memcpy] of the message. *)
Definition enqueue_clear (slot : Z) (s : ring) : ring :=
  with_bytes (zfill (bytes s) slot (Z.to_nat (slot_size s)) 0) s.
Definition enqueue_copy (slot : Z) (data : list Z) (s : ring) : ring :=
  with_bytes (zwrite (bytes s) slot data) s.

Definition enqueue_publish (current_tail : Z) (s : ring) : ring :=
  with_indices (head s) ((current_tail ⊞ 1) mod capacity s) (count s) s.
Definition enqueue_admit (s : ring) : ring := with_indices (head s) (tail s) (count s ⊞ 1) s.
Definition enqueue_tally (s : ring) : ring :=
  with_stats (high_watermark s) (enqueue_count s ⊞ 1) (dequeue_count s) (failed_enqueue_count s)
    (failed_dequeue_count s) s.
Definition enqueue_watermark (s : ring) : ring :=
  with_stats (if high_watermark s <? count s then count s else high_watermark s) (enqueue_count s)
    (dequeue_count s) (failed_enqueue_count s) (failed_dequeue_count s) s.

(** [data] is what the argument points to, [None] for NULL; reading past it is
    the result [None]. *)
Definition bad_argument (present : bool) (size : Z) (s : ring) : bool :=
  negb (initialized s) || negb present || (size =? 0) || (slot_size s <? size).

Definition kernel_ring_buffer_enqueue (data : option (list Z)) (size : Z) (s : ring) : option (bool * ring) :=
  if bad_argument (bool_decide (is_Some data)) size s then
    Some (false, if initialized s then enqueue_refuse s else s)
  else if capacity s <=? count s then Some (false, enqueue_refuse s)
  else
    let data := default [] data in
    if Z.of_nat (length data) <? size then None
    else
      let slot := slot_address (tail s) s in
      let s := enqueue_clear slot s in
      let s := enqueue_copy slot (take (Z.to_nat size) data) s in
      let s := enqueue_publish (tail s) s in
      let s := enqueue_admit s in
      let s := enqueue_tally s in
      Some (true, enqueue_watermark s).

(** *** The accesses of [kernel_ring_buffer_dequeue], in order *)

Definition dequeue_refuse (s : ring) : ring :=
  with_stats (high_watermark s) (enqueue_count s) (dequeue_count s) (failed_enqueue_count s)
    (failed_dequeue_count s ⊞ 1) s.

Definition dequeue_copy (slot out_size : Z) (s : ring) : list Z := zread (bytes s) slot (Z.to_nat out_size).
Definition dequeue_advance (current_head : Z) (s : ring) : ring :=
  with_indices ((current_head ⊞ 1) mod capacity s) (tail s) (count s) s.
Definition dequeue_release (s : ring) : ring := with_indices (head s) (tail s) (count s ⊟ 1) s.
Definition dequeue_tally (s : ring) : ring :=
  with_stats (high_watermark s) (enqueue_count s) (dequeue_count s ⊞ 1) (failed_enqueue_count s)
    (failed_dequeue_count s) s.

(** The second component is what was stored through [out_data]. *)
Definition kernel_ring_buffer_dequeue (out_data : bool) (out_size : Z) (s : ring) : bool * list Z * ring :=
  if bad_argument out_data out_size s then (false, [], if initialized s then dequeue_refuse s else s)
  else if count s =? 0 then (false, [], dequeue_refuse s)
  else
    let slot := slot_address (head s) s in
    let out := dequeue_copy slot out_size s in
    let s := dequeue_advance (head s) s in
    let s := dequeue_release s in
    (true, out, dequeue_tally s).

(** ** Contents

    [n] consecutive slots from the head, in the order they will leave. *)

Definition slot_at (i : Z) (s : ring) : list Z :=
  zread (bytes s) (base s + i * slot_size s) (Z.to_nat (slot_size s)).

Definition window (n : Z) (s : ring) : list (list Z) :=
  (fun k => slot_at ((head s + k) mod capacity s) s) <$> seqZ 0 n.

Record shape (s : ring) (n : Z) : Prop := {
  sh_init : initialized s = true;
  sh_region : region_ok (base s, slot_size s * capacity s);
  sh_size : 0 < slot_size s;
  sh_capacity : 0 < capacity s;
  sh_head : 0 <= head s < capacity s;
  sh_count : 0 <= n <= capacity s;
  sh_tail : tail s = (head s + n) mod capacity s }.

(** A message as it lies in its slot. *)
Definition padded (data : list Z) (s : ring) : list Z :=
  data ++ replicate (Z.to_nat (slot_size s) - length data) 0.

Lemma slot_address_ok i s n :
  shape s n -> 0 <= i < capacity s ->
  slot_address i s = base s + i * slot_size s /\ 0 < base s /\
  base s + i * slot_size s + slot_size s <= base s + slot_size s * capacity s < 2 ^ 32.
Proof.
  intros Hs Hi. destruct (sh_region _ _ Hs) as (Hb & _ & He). cbn in Hb, He. pose proof (sh_size _ _ Hs).
  assert (i * slot_size s + slot_size s <= slot_size s * capacity s) by nia.
  unfold slot_address. rewrite mul32_small, add32_small by nia. lia.
Qed.

Lemma shape_bounds s n : shape s n -> 0 <= tail s < capacity s /\ capacity s < 2 ^ 32 /\ slot_size s < 2 ^ 32.
Proof.
  intros Hs. destruct (sh_region _ _ Hs) as (Hb & _ & He). cbn in Hb, He. pose proof (sh_size _ _ Hs).
  pose proof (sh_capacity _ _ Hs). rewrite (sh_tail _ _ Hs).
  pose proof (Z.mod_pos_bound (head s + n) (capacity s) ltac:(lia)). nia.
Qed.

(** Writing one slot leaves the others alone. *)
Lemma slot_at_other i j s m :
  0 <= slot_size s -> i <> j ->
  (forall b, zget m b = zget (bytes s) b \/ base s + i * slot_size s <= b < base s + i * slot_size s + slot_size s) ->
  slot_at j (with_bytes m s) = slot_at j s.
Proof.
  intros Hsz Hne Hm. apply zread_ext. cbn. intros b Hb. destruct (Hm b) as [|Hb']; [done|]. nia.
Qed.

Lemma mod_window h k n cap : 0 <= h < cap -> 0 <= k < n -> n < cap -> (h + k) mod cap <> (h + n) mod cap.
Proof.
  intros Hh Hk Hn He. pose proof (Z.div_mod (h + k) cap ltac:(lia)). pose proof (Z.div_mod (h + n) cap ltac:(lia)).
  assert ((h + n) / cap - (h + k) / cap < 1) by nia. assert (-1 < (h + n) / cap - (h + k) / cap) by nia. nia.
Qed.

(** The slot behind the window may be written at will. *)
Lemma window_fill s n m :
  shape s n -> n < capacity s ->
  (forall b, zget m b = zget (bytes s) b \/
             base s + tail s * slot_size s <= b < base s + tail s * slot_size s + slot_size s) ->
  window n (with_bytes m s) = window n s.
Proof.
  intros Hs Hn Hm. apply list_fmap_ext. intros i k [-> Hk]%lookup_seqZ.
  apply (slot_at_other (tail s)); [pose proof (sh_size _ _ Hs); lia| |done].
  rewrite (sh_tail _ _ Hs). apply not_eq_sym, mod_window; [apply Hs|lia|done].
Qed.

Lemma window_snoc s n : 0 <= n -> window (n + 1) s = window n s ++ [slot_at ((head s + n) mod capacity s) s].
Proof. intros Hn. unfold window. rewrite seqZ_app by lia. rewrite fmap_app. f_equal. Qed.

Lemma window_cons s n t c :
  shape s n -> 0 < n ->
  window n s = slot_at (head s) s :: window (n - 1) (with_indices ((head s + 1) mod capacity s) t c s).
Proof.
  intros Hs Hn. pose proof (sh_head _ _ Hs). unfold window. rewrite seqZ_cons by lia. cbn [fmap list_fmap].
  rewrite Z.add_0_r, Z.mod_small by lia. f_equal.
  rewrite <- (Z.add_0_r (Z.succ 0)), <- fmap_add_seqZ, <- list_fmap_compose. apply list_fmap_ext.
  intros i k _. cbn. unfold slot_at. cbn. f_equal. f_equal. f_equal.
  rewrite Zplus_mod_idemp_l. f_equal. lia.
Qed.

(** ** One producer and one consumer

    Each end runs its call one access at a time, [memset] and [memcpy] one
    byte at a time; the other end may run in between. *)

Inductive producer :=
  | PIdle
  | PCheck (data : list Z)                   (* count >= capacity? *)
  | PSlot (data : list Z)                    (* slot = base + tail * slot_size *)
  | PClear (slot : Z) (k : Z) (data : list Z) (* memset, k bytes done *)
  | PCopy (slot : Z) (wrote todo : list Z)    (* memcpy *)
  | PLoad (data : list Z)                    (* current_tail = tail *)
  | PPublish (current_tail : Z) (data : list Z)
  | PAdmit
  | PTally
  | PMark.

Definition pstep (p : producer) (s : ring) : producer * ring :=
  match p with
  | PIdle => (PIdle, s)
  | PCheck data => if capacity s <=? count s then (PIdle, enqueue_refuse s) else (PSlot data, s)
  | PSlot data => (PClear (slot_address (tail s) s) 0 data, s)
  | PClear slot k data =>
      if k <? slot_size s then (PClear slot (k + 1) data, with_bytes (<[slot + k := 0]> (bytes s)) s)
      else (PCopy slot [] data, s)
  | PCopy slot wrote [] => (PLoad wrote, s)
  | PCopy slot wrote (v :: todo) =>
      (PCopy slot (wrote ++ [v]) todo, with_bytes (<[slot + Z.of_nat (length wrote) := v]> (bytes s)) s)
  | PLoad data => (PPublish (tail s) data, s)
  | PPublish current_tail data => (PAdmit, enqueue_publish current_tail s)
  | PAdmit => (PTally, enqueue_admit s)
  | PTally => (PMark, enqueue_tally s)
  | PMark => (PIdle, enqueue_watermark s)
  end.

Inductive consumer :=
  | CIdle
  | CCheck (out_size : Z)
  | CSlot (out_size : Z)
  | CCopy (slot : Z) (out : list Z) (more : nat)
  | CLoad (out : list Z)
  | CAdvance (current_head : Z) (out : list Z)
  | CRelease
  | CTally.

Definition cstep (c : consumer) (s : ring) : consumer * ring :=
  match c with
  | CIdle => (CIdle, s)
  | CCheck n => if count s =? 0 then (CIdle, dequeue_refuse s) else (CSlot n, s)
  | CSlot n => (CCopy (slot_address (head s) s) [] (Z.to_nat n), s)
  | CCopy slot out O => (CLoad out, s)
  | CCopy slot out (S more) => (CCopy slot (out ++ [zget (bytes s) (slot + Z.of_nat (length out))]) more, s)
  | CLoad out => (CAdvance (head s) out, s)
  | CAdvance current_head out => (CRelease, dequeue_advance current_head s)
  | CRelease => (CTally, dequeue_release s)
  | CTally => (CIdle, dequeue_tally s)
  end.

(** The two ends, and the histories of the messages published and taken. *)
Record cfg := mkCfg { rb : ring; prod : producer; cons : consumer; sent : list (list Z); got : list (list Z) }.

Definition published (p : producer) (s : ring) : list (list Z) :=
  match p with PPublish _ data => [padded data s] | _ => [] end.
Definition taken (c : consumer) : list (list Z) :=
  match c with CAdvance _ out => [out] | _ => [] end.

Inductive step : cfg -> cfg -> Prop :=
  | step_enqueue s c S G data :
      bad_argument true (Z.of_nat (length data)) s = false ->
      step (mkCfg s PIdle c S G) (mkCfg s (PCheck data) c S G)
  | step_dequeue s p S G n :
      bad_argument true n s = false -> 0 <= n ->
      step (mkCfg s p CIdle S G) (mkCfg s p (CCheck n) S G)
  | step_bad_enqueue s c S G :
      step (mkCfg s PIdle c S G) (mkCfg (enqueue_refuse s) PIdle c S G)
  | step_bad_dequeue s p S G :
      step (mkCfg s p CIdle S G) (mkCfg (dequeue_refuse s) p CIdle S G)
  | step_producer s p c S G p' s' :
      pstep p s = (p', s') -> step (mkCfg s p c S G) (mkCfg s' p' c (S ++ published p s) G)
  | step_consumer s p c S G c' s' :
      cstep c s = (c', s') -> step (mkCfg s p c S G) (mkCfg s' p c' S (G ++ taken c)).

(** *** Invariant *)

Definition adm (p : producer) : Z := match p with PAdmit => 1 | _ => 0 end.
Definition filling (p : producer) : Z :=
  match p with PSlot _ | PClear _ _ _ | PCopy _ _ _ | PLoad _ | PPublish _ _ => 1 | _ => 0 end.
Definition rel (c : consumer) : Z := match c with CRelease => 1 | _ => 0 end.
Definition copying (c : consumer) : Z :=
  match c with CSlot _ | CCopy _ _ _ | CLoad _ | CAdvance _ _ => 1 | _ => 0 end.

Definition slot_of (i : Z) (s : ring) : Z := base s + i * slot_size s.
Definition fits_slot (data : list Z) (s : ring) : Prop := Z.of_nat (length data) <= slot_size s.

(** How far the producer has prepared the slot at the tail. *)
Definition prepared (p : producer) (s : ring) : Prop :=
  match p with
  | PCheck data | PSlot data => fits_slot data s
  | PClear slot k data =>
      fits_slot data s /\ slot = slot_of (tail s) s /\ 0 <= k <= slot_size s /\
      forall b, slot <= b < slot + k -> zget (bytes s) b = 0
  | PCopy slot wrote todo =>
      fits_slot (wrote ++ todo) s /\ slot = slot_of (tail s) s /\ slot_at (tail s) s = padded wrote s
  | PLoad data => fits_slot data s /\ slot_at (tail s) s = padded data s
  | PPublish t data => fits_slot data s /\ slot_at (tail s) s = padded data s /\ t = tail s
  | _ => True
  end.

(** [out] is the beginning of a slot. *)
Definition begins (out m : list Z) : Prop := out = take (length out) m.

(** What the consumer has read of the slot at the head. *)
Definition fetched (c : consumer) (s : ring) : Prop :=
  match c with
  | CCheck n | CSlot n => 0 <= n <= slot_size s
  | CCopy slot out more =>
      slot = slot_of (head s) s /\ Z.of_nat (length out + more) <= slot_size s /\ begins out (slot_at (head s) s)
  | CLoad out => begins out (slot_at (head s) s)
  | CAdvance h out => begins out (slot_at (head s) s) /\ h = head s
  | _ => True
  end.

Record inv (x : cfg) (n : Z) : Prop := {
  iv_shape : shape (rb x) n;
  iv_low : adm (prod x) + copying (cons x) <= n;
  iv_high : n + rel (cons x) + filling (prod x) <= capacity (rb x);
  iv_count : count (rb x) = n - adm (prod x) + rel (cons x);
  iv_prod : prepared (prod x) (rb x);
  iv_cons : fetched (cons x) (rb x);
  iv_history : exists took, sent x = took ++ window n (rb x) /\ Forall2 begins (got x) took }.

(** The counters do not take part in the invariant. *)
Definition quiet (s s' : ring) : Prop :=
  bytes s' = bytes s /\ base s' = base s /\ slot_size s' = slot_size s /\ capacity s' = capacity s /\
  head s' = head s /\ tail s' = tail s /\ initialized s' = initialized s.

Lemma quiet_shape s s' n : quiet s s' -> shape s n -> shape s' n.
Proof. intros (E1 & E2 & E3 & E4 & E5 & E6 & E7) []. constructor; by rewrite ?E1, ?E2, ?E3, ?E4, ?E5, ?E6, ?E7. Qed.

Lemma quiet_slot s s' i : quiet s s' -> slot_at i s' = slot_at i s.
Proof. intros (E1 & E2 & E3 & _). unfold slot_at. by rewrite E1, E2, E3. Qed.

Lemma quiet_window s s' n : quiet s s' -> window n s' = window n s.
Proof.
  intros Hq. pose proof (fun i => quiet_slot s s' i Hq) as Hs. destruct Hq as (_ & _ & _ & E4 & E5 & _).
  unfold window. rewrite E4, E5. apply list_fmap_ext. intros. apply Hs.
Qed.

Lemma quiet_prepared p s s' : quiet s s' -> prepared p s -> prepared p s'.
Proof.
  intros Hq. pose proof (quiet_slot s s' (tail s) Hq) as Hs. destruct Hq as (E1 & E2 & E3 & _ & _ & E6 & _).
  destruct p; cbn [prepared]; unfold fits_slot, slot_of, padded; by rewrite ?E6, ?Hs, ?E1, ?E2, ?E3.
Qed.

Lemma quiet_fetched c s s' : quiet s s' -> fetched c s -> fetched c s'.
Proof.
  intros Hq. pose proof (quiet_slot s s' (head s) Hq) as Hs. destruct Hq as (E1 & E2 & E3 & _ & E5 & _).
  destruct c; cbn [fetched]; unfold slot_of; by rewrite ?E5, ?Hs, ?E1, ?E2, ?E3.
Qed.

(** A step that moves one end without touching slots, indices or histories. *)
Lemma inv_quiet s p c S G n s' p' c' :
  inv (mkCfg s p c S G) n -> quiet s s' ->
  adm p' + copying c' <= n -> n + rel c' + filling p' <= capacity s ->
  count s' = n - adm p' + rel c' ->
  prepared p' s -> fetched c' s -> inv (mkCfg s' p' c' S G) n.
Proof.
  intros Hi Hq Hl Hh Hc Hp Hf. destruct Hi as [Hsh _ _ _ _ _ Hhist]. cbn in *. constructor; cbn.
  - by eapply quiet_shape.
  - done.
  - destruct Hq as (_ & _ & _ & -> & _). done.
  - done.
  - by eapply quiet_prepared.
  - by eapply quiet_fetched.
  - by rewrite (quiet_window s s' n Hq).
Qed.

(** Bytes of the slot at the tail change while the producer fills it. *)
Lemma inv_fill s p c S G n m p' :
  inv (mkCfg s p c S G) n -> filling p = 1 -> filling p' = 1 -> adm p = 0 -> adm p' = 0 ->
  (forall b, zget m b = zget (bytes s) b \/ slot_of (tail s) s <= b < slot_of (tail s) s + slot_size s) ->
  prepared p' (with_bytes m s) -> inv (mkCfg (with_bytes m s) p' c S G) n.
Proof.
  intros Hi Hf Hf' Ha Ha' Hm Hp. destruct Hi as [Hsh Hl Hh Hc _ Hfe Hhist]. cbn in *. rewrite Hf, Ha in *.
  assert (Hr : 0 <= rel c) by (destruct c; cbn; lia). assert (Hn : n < capacity s) by lia.
  constructor; cbn [rb prod cons sent got]; rewrite ?Hf', ?Ha'; try done; [by destruct Hsh| |].
  - assert (Hhd : copying c = 1 -> slot_at (head s) (with_bytes m s) = slot_at (head s) s).
    { intros Hcp. apply (slot_at_other (tail s)); [pose proof (sh_size _ _ Hsh); lia| |exact Hm].
      rewrite (sh_tail _ _ Hsh). pose proof (sh_head _ _ Hsh).
      pose proof (mod_window (head s) 0 n (capacity s) ltac:(lia) ltac:(lia) Hn) as Hmod.
      rewrite Z.add_0_r, (Z.mod_small (head s)) in Hmod by lia. done. }
    destruct c; cbn [fetched copying] in *; change (head (with_bytes m s)) with (head s); try done; by rewrite Hhd.
  - by rewrite (window_fill s n m Hsh Hn Hm).
Qed.

Lemma zread_eq m a n l :
  length l = n -> (forall i, (i < n)%nat -> zget m (a + Z.of_nat i) = nth i l 0) -> zread m a n = l.
Proof.
  intros Hl Hi. apply (nth_ext _ _ 0 0); [by rewrite length_zread|].
  rewrite length_zread. intros i Hn. rewrite nth_zread by done. by apply Hi.
Qed.

Lemma length_padded data s : fits_slot data s -> length (padded data s) = Z.to_nat (slot_size s).
Proof. unfold fits_slot, padded. intros. rewrite length_app, length_replicate. lia. Qed.

Lemma nth_padded data s i :
  nth i (padded data s) 0 = if decide (i < length data)%nat then nth i data 0 else 0.
Proof.
  unfold padded. case_decide; [by apply app_nth1|]. rewrite app_nth2 by lia.
  rewrite nth_lookup. destruct (replicate _ 0 !! _) eqn:E; [by apply lookup_replicate in E as [-> _]|done].
Qed.

(** The byte-wise [memset] and [memcpy] of the producer. *)
Lemma clear_done s slot :
  (forall b, slot <= b < slot + slot_size s -> zget (bytes s) b = 0) -> 0 <= slot_size s ->
  slot = slot_of (tail s) s -> slot_at (tail s) s = padded [] s.
Proof.
  intros Hz Hs ->. apply zread_eq; [apply length_padded; unfold fits_slot; cbn; lia|].
  intros i Hi. rewrite nth_padded, decide_False by (cbn; lia). apply Hz. unfold slot_of. lia.
Qed.

Lemma copy_byte s wrote v :
  Z.of_nat (length wrote) < slot_size s -> slot_at (tail s) s = padded wrote s ->
  slot_at (tail s) (with_bytes (<[slot_of (tail s) s + Z.of_nat (length wrote) := v]> (bytes s)) s) =
  padded (wrote ++ [v]) s.
Proof.
  intros Hl Hw. apply zread_eq; cbn [bytes base slot_size with_bytes].
  { apply length_padded. unfold fits_slot. rewrite length_app. cbn. lia. }
  intros i Hi. rewrite zget_insert, nth_padded, length_app. cbn [length].
  assert (Hget : zget (bytes s) (slot_of (tail s) s + Z.of_nat i) = nth i (padded wrote s) 0).
  { rewrite <- Hw. unfold slot_at. by rewrite nth_zread. }
  rewrite nth_padded in Hget. unfold slot_of in *.
  destruct (decide (i = length wrote)) as [->|Hne].
  - rewrite decide_True, decide_True by lia. by rewrite nth_middle || (rewrite app_nth2, Nat.sub_diag by lia).
  - rewrite decide_False, Hget by lia. destruct (decide (i < length wrote)%nat).
    + rewrite decide_True by lia. by rewrite app_nth1.
    + by rewrite decide_False by lia.
Qed.

(** Publishing the prepared slot. *)
Lemma ring_publish_spec s n :
  shape s n -> n < capacity s ->
  shape (enqueue_publish (tail s) s) (n + 1) /\
  window (n + 1) (enqueue_publish (tail s) s) = window n s ++ [slot_at (tail s) s].
Proof.
  intros Hs Hn. pose proof (shape_bounds s n Hs). pose proof (sh_count _ _ Hs). split.
  - destruct Hs. constructor; cbn; try done; [lia|]. rewrite add32_small by lia.
    rewrite sh_tail0 at 1. rewrite Zplus_mod_idemp_l. f_equal. lia.
  - rewrite window_snoc by lia. cbn [head capacity enqueue_publish with_indices].
    rewrite <- (sh_tail _ _ Hs). done.
Qed.

Lemma ring_advance_spec s n :
  shape s n -> 0 < n ->
  shape (dequeue_advance (head s) s) (n - 1) /\
  window n s = slot_at (head s) s :: window (n - 1) (dequeue_advance (head s) s).
Proof.
  intros Hs Hn. pose proof (shape_bounds s n Hs). pose proof (sh_head _ _ Hs). pose proof (sh_count _ _ Hs).
  unfold dequeue_advance. rewrite add32_small by lia. split; [|by apply window_cons].
  pose proof (Z.mod_pos_bound (head s + 1) (capacity s) ltac:(lia)).
  destruct Hs. constructor; cbn; try done; [lia|]. rewrite sh_tail0, Zplus_mod_idemp_l. f_equal. lia.
Qed.

Lemma producer_inv s p c S G n p' s' :
  inv (mkCfg s p c S G) n -> pstep p s = (p', s') ->
  exists n', inv (mkCfg s' p' c (S ++ published p s) G) n'.
Proof.
  intros Hi Hs. pose proof Hi as [Hsh Hl Hh Hc Hp _ Hhist]. cbn [rb prod cons sent got] in *.
  assert (Hrel : 0 <= rel c <= 1) by (destruct c; cbn; lia).
  assert (Hcop : 0 <= copying c <= 1) by (destruct c; cbn; lia).
  pose proof (shape_bounds s n Hsh) as (Ht & Hcap & Hss). pose proof (sh_size _ _ Hsh).
  destruct p as [|data|data|slot k data|slot wrote todo|data|t data| | |]; cbn [pstep published] in *;
    rewrite ?app_nil_r.
  - simplify_eq. eauto.
  - exists n. cbn [adm filling] in *. destruct (Z.leb_spec (capacity s) (count s)); simplify_eq;
      eapply inv_quiet; try done; cbn; try lia; apply Hi.
  - exists n. simplify_eq. eapply inv_quiet; try done; [|apply Hi].
    destruct (slot_address_ok (tail s') s' n Hsh Ht) as [Ha _]. cbn. rewrite Ha.
    split_and!; try done; try lia.
  - exists n. destruct Hp as (Hfit & -> & Hk & Hz). destruct (Z.ltb_spec k (slot_size s)); simplify_eq.
    + eapply inv_fill; try done; cbn.
      * intros b. rewrite zget_insert. case_decide; [right; unfold slot_of in *; cbn in *; lia|by left].
      * split_and!; try done; try lia. intros b Hb. rewrite zget_insert. case_decide; [done|]. apply Hz.
        unfold slot_of in *. cbn in *. lia.
    + eapply inv_quiet; try done; [|apply Hi]. cbn. split_and!; try done.
      eapply clear_done; [|lia|done]. intros b Hb. apply Hz. lia.
  - exists n. destruct Hp as (Hfit & -> & Hw). destruct todo as [|v todo]; simplify_eq.
    + rewrite app_nil_r in Hfit. eapply inv_quiet; try done. apply Hi.
    + unfold fits_slot in Hfit. rewrite length_app in Hfit. cbn [length] in Hfit.
      eapply inv_fill; try done.
      * intros b. rewrite zget_insert. case_decide; [right; unfold slot_of in *; lia|by left].
      * cbn [prepared]. split_and!; [|done|].
        -- unfold fits_slot. rewrite !length_app. cbn. lia.
        -- exact (copy_byte s wrote v ltac:(lia) Hw).
  - exists n. simplify_eq. destruct Hp as [Hfit Hw]. eapply inv_quiet; try done. apply Hi.
  - exists (n + 1). simplify_eq. destruct Hp as (Hfit & Hw & ->). cbn [filling adm] in *.
    destruct (ring_publish_spec s n Hsh ltac:(lia)) as [Hsh' Hwin]. destruct Hhist as (took & -> & Htook).
    constructor; cbn [rb prod cons sent got adm filling prepared]; try done; try (cbn; lia).
    + destruct Hi as [_ _ _ _ _ Hf _]. cbn in Hf. by destruct c.
    + exists took. rewrite Hwin, Hw. split; [by rewrite app_assoc|done].
  - exists n. simplify_eq. cbn [filling adm] in *. eapply inv_quiet; try done; cbn; try lia; [|apply Hi].
    rewrite add32_small; lia.
  - exists n. simplify_eq. eapply inv_quiet; try done. apply Hi.
  - exists n. simplify_eq. eapply inv_quiet; try done. apply Hi.
Qed.

Lemma take_snoc_nth (out m : list Z) :
  begins out m -> (length out < length m)%nat -> begins (out ++ [nth (length out) m 0]) m.
Proof.
  unfold begins. intros Hb Hl. rewrite length_app. cbn [length]. rewrite Nat.add_1_r.
  rewrite (take_S_r _ _ (nth (length out) m 0)); [by rewrite <- Hb|].
  by rewrite nth_lookup_Some' || (destruct (m !! length out) eqn:E; [rewrite nth_lookup, E; done|apply lookup_ge_None in E; lia]).
Qed.

Lemma consumer_inv s p c S G n c' s' :
  inv (mkCfg s p c S G) n -> cstep c s = (c', s') ->
  exists n', inv (mkCfg s' p c' S (G ++ taken c)) n'.
Proof.
  intros Hi Hs. pose proof Hi as [Hsh Hl Hh Hc _ Hf Hhist]. cbn [rb prod cons sent got] in *.
  assert (Hadm : 0 <= adm p <= 1) by (destruct p; cbn; lia).
  assert (Hfil : 0 <= filling p <= 1) by (destruct p; cbn; lia).
  pose proof (shape_bounds s n Hsh) as (Ht & Hcap & Hss). pose proof (sh_size _ _ Hsh).
  pose proof (sh_head _ _ Hsh). pose proof (sh_count _ _ Hsh).
  destruct c as [|k|k|slot out more|out|h out| |]; cbn [cstep taken] in *; rewrite ?app_nil_r.
  - simplify_eq. eauto.
  - exists n. cbn [rel copying] in *. destruct (Z.eqb_spec (count s) 0); simplify_eq;
      eapply inv_quiet; try done; cbn; try lia; apply Hi.
  - exists n. simplify_eq. eapply inv_quiet; try done; [apply Hi|].
    destruct (slot_address_ok (head s') s' n Hsh ltac:(lia)) as [Ha _]. cbn [fetched] in *. rewrite Ha.
    split_and!; [done|cbn; lia|done].
  - exists n. destruct Hf as (-> & Hlen & Hb). destruct more as [|more]; simplify_eq.
    + eapply inv_quiet; try done. apply Hi.
    + eapply inv_quiet; try done; [apply Hi|]. cbn [fetched].
      split_and!; [done|rewrite length_app; cbn; lia|].
      assert (length out < length (slot_at (head s') s'))%nat.
      { unfold slot_at. rewrite length_zread. lia. }
      assert (zget (bytes s') (slot_of (head s') s' + Z.of_nat (length out)) = nth (length out) (slot_at (head s') s') 0) as ->.
      { unfold slot_at. rewrite nth_zread by lia. done. }
      by apply take_snoc_nth.
  - exists n. simplify_eq. eapply inv_quiet; try done. apply Hi.
  - exists (n - 1). simplify_eq. destruct Hf as [Hb ->]. cbn [rel copying] in *.
    destruct (ring_advance_spec s n Hsh ltac:(lia)) as [Hsh' Hwin]. destruct Hhist as (took & -> & Htook).
    constructor; cbn [rb prod cons sent got rel copying fetched]; try done; try (cbn; lia).
    + destruct Hi as [_ _ _ _ Hp _ _]. cbn in Hp. by destruct p.
    + exists (took ++ [slot_at (head s) s]). rewrite Hwin. split; [by rewrite <- app_assoc|].
      apply Forall2_app; [done|]. by repeat constructor.
  - exists n. simplify_eq. cbn [rel copying] in *. eapply inv_quiet; try done; cbn; try lia; [|apply Hi].
    rewrite sub32_small; lia.
  - exists n. simplify_eq. eapply inv_quiet; try done. apply Hi.
Qed.

Lemma bad_argument_false present size s :
  bad_argument present size s = false -> initialized s = true /\ present = true /\ size <> 0 /\ size <= slot_size s.
Proof.
  unfold bad_argument. rewrite !orb_false_iff, !negb_false_iff, Z.eqb_neq, Z.ltb_ge. tauto.
Qed.

Lemma step_inv x y n : inv x n -> step x y -> exists n', inv y n'.
Proof.
  intros Hi Hst. destruct Hst as [s c S G data Hb|s p S G k Hb Hk|s c S G|s p S G|s p c S G p' s' Hp|s p c S G c' s' Hc].
  - exists n. apply bad_argument_false in Hb as (_ & _ & _ & Hb).
    eapply inv_quiet; try done; apply Hi.
  - exists n. apply bad_argument_false in Hb as (_ & _ & _ & Hb).
    eapply inv_quiet; try done; apply Hi.
  - exists n. eapply inv_quiet; try done; apply Hi.
  - exists n. eapply inv_quiet; try done; apply Hi.
  - by eapply producer_inv.
  - by eapply consumer_inv.
Qed.

(** *** Initialisation *)

Lemma ring_initialize_spec {H} `{HeapLaws H} (h : H) L m size n md :
  heap_inv h L -> 0 < size <= 2 ^ 30 -> 0 < n < 2 ^ 32 -> align_up size 8 * n <= heap_limit H ->
  exists b h' s, kernel_ring_buffer_initialize_ex size n md h (boot m) = Some (b, h', s) /\
    if b then shape s 0 /\ count s = 0 /\ capacity s = n /\ size <= slot_size s /\
              heap_inv h' ((base s, slot_size s * capacity s) :: L)
    else initialized s = false /\ heap_inv h' L.
Proof.
  intros Hh Hs Hn Hl. pose proof (align_up_bounds size 8 ltac:(lia) ltac:(lia) ltac:(lia)) as Ha.
  pose proof (heap_limit_le H). unfold kernel_ring_buffer_initialize_ex. cbn [initialized boot].
  rewrite !(proj2 (Z.eqb_neq _ 0)) by lia. cbn [orb]. set (a := align_up size 8) in *. clearbody a.
  rewrite mul32_small by nia. destruct (heap_kmalloc h L (a * n) Hh ltac:(nia)) as (p & h' & -> & Hp). cbn.
  destruct (Z.eqb_spec p 0) as [|Hp0]; eexists _, _, _; (split; [done|]); cbn; [done|].
  pose proof (heap_separate _ _ Hp) as (Hr & _). split_and!; try done; try lia.
  constructor; cbn; try done; lia.
Qed.

Lemma start_inv s : shape s 0 -> count s = 0 -> inv (mkCfg s PIdle CIdle [] []) 0.
Proof.
  intros Hs Hc. pose proof (sh_capacity _ _ Hs). constructor; cbn; try done; try lia. by exists [].
Qed.

(** C10: One producer and one consumer that run at any relative speed, one
    memory access at a time: what the consumer has received is, message by
    message and in order, what the producer sent, nothing is lost, duplicated
    or torn; at most [capacity] messages are under way, and when both ends rest
    the ring holds exactly the messages sent and not yet received. *)
Theorem ring_spsc_fifo {H} `{HeapLaws H} (h : H) L m size n h' s x :
  heap_inv h L -> 0 < size <= 2 ^ 30 -> 0 < n < 2 ^ 32 -> align_up size 8 * n <= heap_limit H ->
  kernel_ring_buffer_initialize_ex size n KERNEL_RING_BUFFER_MODE_SPSC h (boot m) = Some (true, h', s) ->
  rtc step (mkCfg s PIdle CIdle [] []) x ->
  Forall2 begins (got x) (take (length (got x)) (sent x)) /\
  (length (got x) <= length (sent x))%nat /\
  Z.of_nat (length (sent x)) - Z.of_nat (length (got x)) <= capacity (rb x) /\
  (prod x = PIdle -> cons x = CIdle ->
   drop (length (got x)) (sent x) = window (count (rb x)) (rb x) /\
   count (rb x) = Z.of_nat (length (sent x)) - Z.of_nat (length (got x))).
Proof.
  intros Hh Hs Hn Hl Hi Hr.
  destruct (ring_initialize_spec h L m size n KERNEL_RING_BUFFER_MODE_SPSC Hh Hs Hn Hl) as (b & h1 & s1 & Hi1 & Hb).
  rewrite Hi in Hi1. simplify_eq. destruct Hb as (Hsh & Hc & _).
  assert (exists k, inv x k) as (k & Hk).
  { pose proof (start_inv s1 Hsh Hc) as Hst. revert Hst. generalize 0. induction Hr as [x|x y z Hxy Hyz IH]; intros k Hk; [eauto|].
    destruct (step_inv x y k Hk Hxy) as [k' Hk']. by eapply IH. }
  destruct Hk as [Hsh' Hlow Hhigh Hcnt _ _ (took & Hsent & Htook)].
  pose proof (Forall2_length _ _ _ Htook) as Hlen. pose proof (sh_count _ _ Hsh').
  assert (Hw : length (window k (rb x)) = Z.to_nat k) by (unfold window; by rewrite length_fmap, length_seqZ).
  rewrite Hsent, Hlen, take_app_length, drop_app_length, length_app, Hw.
  split_and!; [done|lia|lia|]. intros Hp Hq. rewrite Hp, Hq in Hcnt. cbn in Hcnt.
  replace (count (rb x)) with k by lia. split; [done|lia].
Qed.

(** *** The calls are schedules of the steps *)

Lemma producer_clear s c S G slot data k : forall j,
  0 <= j -> j + Z.of_nat k = slot_size s ->
  rtc step (mkCfg s (PClear slot j data) c S G)
    (mkCfg (with_bytes (zfill (bytes s) (slot + j) k 0) s) (PCopy slot [] data) c S G).
Proof.
  revert s. induction k as [|k IH]; intros s j Hj Hk.
  - eapply rtc_l; [apply step_producer; cbn; rewrite (proj2 (Z.ltb_ge _ _)) by lia; done|].
    cbn. rewrite app_nil_r. by destruct s.
  - eapply rtc_l; [apply step_producer; cbn; rewrite (proj2 (Z.ltb_lt _ _)) by lia; done|].
    cbn [published]. rewrite app_nil_r. cbn [zfill].
    specialize (IH (with_bytes (<[slot + j := 0]> (bytes s)) s) (j + 1) ltac:(lia) ltac:(cbn; lia)).
    cbn in IH. replace (slot + (j + 1)) with (slot + j + 1) in IH by lia. exact IH.
Qed.

Lemma producer_copy c S G slot todo : forall s wrote,
  rtc step (mkCfg s (PCopy slot wrote todo) c S G)
    (mkCfg (with_bytes (zwrite (bytes s) (slot + Z.of_nat (length wrote)) todo) s) (PLoad (wrote ++ todo)) c S G).
Proof.
  induction todo as [|v todo IH]; intros s wrote.
  - eapply rtc_l; [by apply step_producer|]. cbn. rewrite !app_nil_r. by destruct s.
  - eapply rtc_l; [by apply step_producer|]. cbn [published]. rewrite app_nil_r.
    specialize (IH (with_bytes (<[slot + Z.of_nat (length wrote) := v]> (bytes s)) s) (wrote ++ [v])).
    rewrite length_app, <- app_assoc in IH. cbn in IH.
    replace (slot + Z.of_nat (length wrote + 1)) with (slot + Z.of_nat (length wrote) + 1) in IH by lia. exact IH.
Qed.

Lemma consumer_copy p S G slot s k : forall out,
  rtc step (mkCfg s p (CCopy slot out k) S G)
    (mkCfg s p (CLoad (out ++ zread (bytes s) (slot + Z.of_nat (length out)) k)) S G).
Proof.
  induction k as [|k IH]; intros out; (eapply rtc_l; [by apply step_consumer|]); cbn [taken zread]; rewrite ?app_nil_r; [done|].
  specialize (IH (out ++ [zget (bytes s) (slot + Z.of_nat (length out))])).
  rewrite length_app, <- app_assoc in IH. cbn in IH.
  replace (slot + Z.of_nat (length out + 1)) with (slot + Z.of_nat (length out) + 1) in IH by lia. exact IH.
Qed.

Ltac pstep := eapply rtc_l; [by apply step_producer|cbn [published]; rewrite ?app_nil_r].
Ltac cstep := eapply rtc_l; [by apply step_consumer|cbn [taken]; rewrite ?app_nil_r].

(** The code of an enqueue or dequeue call, run without interruption, is
    one of the schedules of the steps above, with the same final state, the
    message published exactly when the call returns true and the bytes it
    returns the ones the consumer receives. *)
Theorem ring_calls_are_schedules s :
  (forall data c S G, bad_argument true (Z.of_nat (length data)) s = false ->
     exists b s', kernel_ring_buffer_enqueue (Some data) (Z.of_nat (length data)) s = Some (b, s') /\
       rtc step (mkCfg s PIdle c S G)
                (mkCfg s' PIdle c (if b then S ++ [padded data s] else S) G)) /\
  (forall n p S G, bad_argument true n s = false -> 0 <= n ->
     let '(b, out, s') := kernel_ring_buffer_dequeue true n s in
       rtc step (mkCfg s p CIdle S G)
                (mkCfg s' p CIdle S (if b then G ++ [out] else G))).
Proof.
  split.
  - intros data c S G Hb. unfold kernel_ring_buffer_enqueue. rewrite bool_decide_eq_true_2, Hb by done.
    apply bad_argument_false in Hb as Hb'. destruct Hb' as (_ & _ & Hnz & Hfit). cbn [default].
    destruct (Z.leb_spec (capacity s) (count s)) as [Hfull|Hroom].
    { eexists _, _. split; [done|]. eapply rtc_l; [by apply step_enqueue|].
      eapply rtc_l; [apply step_producer; cbn; by rewrite (proj2 (Z.leb_le _ _))|]. cbn. by rewrite app_nil_r. }
    change (default [] (Some data)) with data. rewrite Z.ltb_irrefl, Nat2Z.id, firstn_all. eexists _, _. split; [done|].
    eapply rtc_l; [by apply step_enqueue|].
    eapply rtc_l; [apply step_producer; cbn; by rewrite (proj2 (Z.leb_gt _ _))|]. cbn [published]. rewrite app_nil_r.
    pstep. etrans; [apply (producer_clear _ _ _ _ _ _ (Z.to_nat (slot_size s)) 0); lia|].
    etrans; [apply producer_copy|]. cbn [length app]. rewrite !Z.add_0_r.
    pstep. pstep. pstep. pstep. pstep. done.
  - intros n p S G Hb Hn. unfold kernel_ring_buffer_dequeue. rewrite Hb.
    destruct (Z.eqb_spec (count s) 0) as [Hz|Hnz].
    { eapply rtc_l; [by apply step_dequeue|].
      eapply rtc_l; [apply step_consumer; cbn; by rewrite Hz|]. cbn. by rewrite app_nil_r. }
    eapply rtc_l; [by apply step_dequeue|].
    eapply rtc_l; [apply step_consumer; cbn; by rewrite (proj2 (Z.eqb_neq _ _))|]. cbn [taken]. rewrite app_nil_r.
    cstep. etrans; [apply consumer_copy|]. cbn [length app]. rewrite !Z.add_0_r.
    cstep. cstep. cstep. cstep. done.
Qed.

(** *** Progress *)

(** A schedule: at [true] the producer moves, at [false] the consumer. *)
Definition tick (b : bool) (x : cfg) : cfg :=
  if b then let '(p, s) := pstep (prod x) (rb x) in
            mkCfg s p (cons x) (sent x ++ published (prod x) (rb x)) (got x)
  else let '(c, s) := cstep (cons x) (rb x) in
       mkCfg s (prod x) c (sent x) (got x ++ taken (cons x)).

Definition sched (l : list bool) (x : cfg) : cfg := fold_left (fun x b => tick b x) l x.

Lemma tick_step b x : step x (tick b x).
Proof.
  destruct x as [s p c S G]. unfold tick. cbn [rb prod cons sent got]. destruct b.
  - destruct (pstep p s) as [p' s'] eqn:E. by apply step_producer.
  - destruct (cstep c s) as [c' s'] eqn:E. by apply step_consumer.
Qed.

Lemma sched_steps l : forall x, rtc step x (sched l x).
Proof. induction l as [|b l IH]; intros x; [done|]. eapply rtc_l; [apply tick_step|apply IH]. Qed.

(** The accesses a producer still has to make. *)
Definition remaining (p : producer) (size : Z) : nat :=
  match p with
  | PIdle => 0
  | PMark => 1
  | PTally => 2
  | PAdmit => 3
  | PPublish _ _ => 4
  | PLoad _ => 5
  | PCopy _ _ todo => 6 + length todo
  | PClear _ k data => 7 + length data + Z.to_nat (size - k)
  | PSlot data => 8 + length data + Z.to_nat size
  | PCheck data => 9 + length data + Z.to_nat size
  end.

Lemma pstep_remaining p s p' s' :
  pstep p s = (p', s') -> slot_size s' = slot_size s /\ (p = PIdle \/ remaining p' (slot_size s) < remaining p (slot_size s))%nat.
Proof.
  intros Hs. destruct p as [|data|data|slot k data|slot wrote [|v todo]|data|t data| | |]; cbn [pstep] in Hs;
    repeat case_match; simplify_eq; cbn; (split; [done|]); try (by left); right; lia.
Qed.

Lemma cstep_size c s c' s' : cstep c s = (c', s') -> slot_size s' = slot_size s.
Proof. intros Hs. destruct c as [| | |slot out [|more]| | | |]; cbn in Hs; repeat case_match; by simplify_eq. Qed.

(** C38: Neither end ever waits for the other: whatever the consumer does in
    between, an enqueue call has returned once the producer has made
    [9 + length data + slot_size] accesses. *)
Theorem ring_enqueue_wait_free l s p c S G :
  (remaining p (slot_size s) <= count_occ bool_dec l true)%nat ->
  prod (sched l (mkCfg s p c S G)) = PIdle.
Proof.
  revert s p c S G. induction l as [|b l IH]; intros s p c S G Hl; cbn [count_occ] in Hl.
  - assert (Hz : remaining p (slot_size s) = 0%nat) by lia. destruct p; cbn in Hz; done || lia.
  - change (sched (b :: l) (mkCfg s p c S G)) with (sched l (tick b (mkCfg s p c S G))).
    unfold tick. cbn [rb prod cons sent got]. destruct b.
    + destruct (pstep p s) as [p' s'] eqn:E. apply IH. destruct (pstep_remaining p s p' s' E) as [-> [->|Hlt]].
      * cbn in E. simplify_eq. cbn. lia.
      * destruct (bool_dec true true); [lia|done].
    + destruct (cstep c s) as [c' s'] eqn:E. apply IH. rewrite (cstep_size c s c' s' E).
      destruct (bool_dec false true); [done|lia].
Qed.

(** ** Examples *)

Definition example : ring :=
  mk ∅ 0xC0000000 8 2 0 0 0 KERNEL_RING_BUFFER_MODE_SPSC 0 0 0 0 0 true.

(** The bound is reached with a consumer that moves in between. *)
Lemma ring_enqueue_wait_free_witness :
  (remaining (PCheck [1; 2; 3]%Z) 8%Z <= count_occ bool_dec (concat (replicate 20 [true; false])) true)%nat /\
  prod (sched (concat (replicate 20 [true; false])) (mkCfg example (PCheck [1; 2; 3]) (CCheck 3) [] [])) = PIdle.
Proof.
  split; [vm_compute; lia|].
  apply (ring_enqueue_wait_free (concat (replicate 20 [true; false])) example (PCheck [1; 2; 3])).
  vm_compute. lia.
Defined.

(** A message sent while the consumer polls, then received. *)
Definition example_run : cfg :=
  let x := mkCfg example (PCheck [1; 2; 3]) CIdle [] [] in
  let x := sched (replicate 20 true) x in
  let x := mkCfg (rb x) (PCheck [4; 5]) (CCheck 3) (sent x) (got x) in
  sched (concat (replicate 20 [true; false])) x.

Lemma cfg_idle x : prod x = PIdle -> cons x = CIdle -> x = mkCfg (rb x) PIdle CIdle (sent x) (got x).
Proof. destruct x. cbn. by intros -> ->. Qed.

Lemma example_reachable : rtc step (mkCfg example PIdle CIdle [] []) example_run.
Proof.
  eapply rtc_l; [apply (step_enqueue _ _ _ _ [1; 2; 3]); reflexivity|].
  etrans; [apply (sched_steps (replicate 20 true))|].
  rewrite (cfg_idle (sched (replicate 20 true) _)) by (vm_compute; reflexivity).
  eapply rtc_l; [apply (step_enqueue _ _ _ _ [4; 5]); vm_compute; reflexivity|].
  eapply rtc_l; [apply (step_dequeue _ _ _ _ 3); [vm_compute; reflexivity|lia]|].
  apply sched_steps.
Qed.

(** The hypotheses hold on a ring of two slots of eight bytes. *)
Lemma ring_spsc_fifo_witness :
  sent example_run = [[1; 2; 3; 0; 0; 0; 0; 0]; [4; 5; 0; 0; 0; 0; 0; 0]] /\ got example_run = [[1; 2; 3]] /\
  Forall2 begins (got example_run) (take (length (got example_run)) (sent example_run)).
Proof.
  split_and!; [reflexivity..|].
  apply (ring_spsc_fifo 0xC0000000 [] ∅ 8 2 (0xC0000000 + 16) example example_run);
    [|lia|lia|by vm_compute|reflexivity|exact example_reachable].
  split_and!; [lia|constructor|done].
Defined.

(** *** Two producers *)

(** Two producers on the ring, scheduled by a list of booleans. *)
Definition duel (l : list bool) (st : ring * producer * producer) : ring * producer * producer :=
  fold_left (fun '(s, p, q) (b : bool) =>
    if b then let '(p, s) := pstep p s in (s, p, q) else let '(q, s) := pstep q s in (s, p, q)) l st.

(** The modes MPSC and MPMC change nothing in the code, and two producers
    lose messages: here both calls return true and two messages are counted, but
    the first one is in no slot. *)
Theorem ring_two_producers_lose (md : KernelRingBufferMode) :
  let s := mk ∅ 0xC0000000 8 2 0 0 0 md 0 0 0 0 0 true in
  let '(s', p, q) := duel ([true; true; false; false] ++ replicate 20 true ++ replicate 20 false)
                       (s, PCheck [1], PCheck [2]) in
  p = PIdle /\ q = PIdle /\ enqueue_count s' = 2 /\ count s' = 2 /\ failed_enqueue_count s' = 0 /\
  window 2 s' = [[2; 0; 0; 0; 0; 0; 0; 0]; [0; 0; 0; 0; 0; 0; 0; 0]].
Proof. destruct md; vm_compute; done. Qed.
