(* ===== verification/Dialogue.v ===== *)
(** * Dialogue channel

    Models kernel/kernel/dialogue/dialogue_channel.c: two byte rings with
    free-running 32-bit indices.  They are shown equivalent to two bounded
    queues, also when the indices wrap around. *)

From S2P Require Import Prelude.

Definition KERNEL_DIALOGUE_CHANNEL_CAPACITY : Z := 512.
Definition KERNEL_DIALOGUE_CHANNEL_MASK : Z := KERNEL_DIALOGUE_CHANNEL_CAPACITY - 1.

Record DialogueRing := mkRing { bytes : zmap; head : Z; tail : Z }.

Record dialogue := mk {
  dialogue_to_demon : DialogueRing;
  dialogue_to_sovereign : DialogueRing;
  dialogue_dropped : Z }.

(** The boolean is false, and a byte is counted as dropped, when the ring was
    full. *)
Definition dialogue_ring_push (byte : Z) (ring : DialogueRing) (dropped : Z) : bool * DialogueRing * Z :=
  if KERNEL_DIALOGUE_CHANNEL_CAPACITY <=? head ring ⊟ tail ring then (false, ring, dropped ⊞ 1)
  else
    (true,
     mkRing (<[Z.land (head ring) KERNEL_DIALOGUE_CHANNEL_MASK := byte]> (bytes ring)) (head ring ⊞ 1) (tail ring),
     dropped).

Definition dialogue_ring_pop (ring : DialogueRing) : option Z * DialogueRing :=
  if head ring =? tail ring then (None, ring)
  else
    (Some (zget (bytes ring) (Z.land (tail ring) KERNEL_DIALOGUE_CHANNEL_MASK)),
     mkRing (bytes ring) (head ring) (tail ring ⊞ 1)).

Definition kernel_dialogue_channel_reset (s : dialogue) : dialogue :=
  mk (mkRing (bytes (dialogue_to_demon s)) 0 0) (mkRing (bytes (dialogue_to_sovereign s)) 0 0) 0.

Definition kernel_dialogue_channel_offer_to_demon (byte : Z) (s : dialogue) : bool * dialogue :=
  let '(b, r, d) := dialogue_ring_push byte (dialogue_to_demon s) (dialogue_dropped s) in
  (b, mk r (dialogue_to_sovereign s) d).

(** [out] is false for a NULL argument; the result is the byte stored. *)
Definition kernel_dialogue_channel_take_for_demon (out : bool) (s : dialogue) : option Z * dialogue :=
  if negb out then (None, s)
  else
    let '(v, r) := dialogue_ring_pop (dialogue_to_demon s) in
    (v, mk r (dialogue_to_sovereign s) (dialogue_dropped s)).

Definition kernel_dialogue_channel_offer_to_sovereign (byte : Z) (s : dialogue) : bool * dialogue :=
  let '(b, r, d) := dialogue_ring_push byte (dialogue_to_sovereign s) (dialogue_dropped s) in
  (b, mk (dialogue_to_demon s) r d).

Definition kernel_dialogue_channel_take_for_sovereign (out : bool) (s : dialogue) : option Z * dialogue :=
  if negb out then (None, s)
  else
    let '(v, r) := dialogue_ring_pop (dialogue_to_sovereign s) in
    (v, mk (dialogue_to_demon s) r (dialogue_dropped s)).

Definition kernel_dialogue_channel_pending_for_demon (s : dialogue) : Z :=
  head (dialogue_to_demon s) ⊟ tail (dialogue_to_demon s).
Definition kernel_dialogue_channel_pending_for_sovereign (s : dialogue) : Z :=
  head (dialogue_to_sovereign s) ⊟ tail (dialogue_to_sovereign s).
Definition kernel_dialogue_channel_dropped (s : dialogue) : Z := dialogue_dropped s.

(** ** Runs *)

Inductive side := Demon | Sovereign.
Inductive op := Offer (d : side) (byte : Z) | Take (d : side) (out : bool) | Pending (d : side) | Dropped | Reset.

(** What a call returns. *)
Inductive answer := Bool (b : bool) | Byte (v : option Z) | Count (n : Z) | Done.

Definition exec (o : op) (s : dialogue) : answer * dialogue :=
  match o with
  | Offer Demon v => let '(b, s) := kernel_dialogue_channel_offer_to_demon v s in (Bool b, s)
  | Offer Sovereign v => let '(b, s) := kernel_dialogue_channel_offer_to_sovereign v s in (Bool b, s)
  | Take Demon out => let '(v, s) := kernel_dialogue_channel_take_for_demon out s in (Byte v, s)
  | Take Sovereign out => let '(v, s) := kernel_dialogue_channel_take_for_sovereign out s in (Byte v, s)
  | Pending Demon => (Count (kernel_dialogue_channel_pending_for_demon s), s)
  | Pending Sovereign => (Count (kernel_dialogue_channel_pending_for_sovereign s), s)
  | Dropped => (Count (kernel_dialogue_channel_dropped s), s)
  | Reset => (Done, kernel_dialogue_channel_reset s)
  end.

Fixpoint run (os : list op) (s : dialogue) : list answer :=
  match os with
  | [] => []
  | o :: os => let '(a, s) := exec o s in a :: run os s
  end.

(** ** Specification: two queues of at most 512 bytes *)

Record spec := mkSpec { inbound : list Z; outbound : list Z; lost : Z }.

Definition queue (d : side) (q : spec) : list Z := match d with Demon => inbound q | Sovereign => outbound q end.
Definition set_queue (d : side) (l : list Z) (q : spec) : spec :=
  match d with Demon => mkSpec l (outbound q) (lost q) | Sovereign => mkSpec (inbound q) l (lost q) end.

Definition spec_exec (o : op) (q : spec) : answer * spec :=
  match o with
  | Offer d v =>
      if 512 <=? Z.of_nat (length (queue d q)) then (Bool false, mkSpec (inbound q) (outbound q) (lost q ⊞ 1))
      else (Bool true, set_queue d (queue d q ++ [v]) q)
  | Take d out =>
      match out, queue d q with
      | true, v :: l => (Byte (Some v), set_queue d l q)
      | _, _ => (Byte None, q)
      end
  | Pending d => (Count (Z.of_nat (length (queue d q))), q)
  | Dropped => (Count (lost q), q)
  | Reset => (Done, mkSpec [] [] 0)
  end.

Fixpoint spec_run (os : list op) (q : spec) : list answer :=
  match os with
  | [] => []
  | o :: os => let '(a, q) := spec_exec o q in a :: spec_run os q
  end.

(** ** Equivalence *)

Record holds (r : DialogueRing) (l : list Z) : Prop := {
  ho_head : in32 (head r);
  ho_tail : in32 (tail r);
  ho_len : head r ⊟ tail r = Z.of_nat (length l);
  ho_max : Z.of_nat (length l) <= 512;
  ho_byte : forall k, (k < length l)%nat -> zget (bytes r) ((tail r + Z.of_nat k) mod 512) = nth k l 0 }.

Lemma mask_mod x : 0 <= x -> Z.land x KERNEL_DIALOGUE_CHANNEL_MASK = x mod 512.
Proof. intros. change KERNEL_DIALOGUE_CHANNEL_MASK with (Z.ones 9). by rewrite Z.land_ones. Qed.

(** The capacity divides [2 ^ 32], so that the position of a byte survives the
    wrap-around of the index. *)
Lemma wrap_mod x : (x mod 2 ^ 32) mod 512 = x mod 512.
Proof.
  change (2 ^ 32) with (512 * 2 ^ 23). rewrite Z.rem_mul_r by lia.
  rewrite Z.mul_comm, Z.mod_add by lia. apply Z.mod_mod. lia.
Qed.

Lemma head_eq r l : holds r l -> head r = u32 (tail r + Z.of_nat (length l)).
Proof.
  intros Hr. pose proof (ho_head _ _ Hr). rewrite <- (ho_len _ _ Hr). unfold sub32, u32.
  rewrite Zplus_mod_idemp_r. replace (tail r + _) with (head r) by lia. symmetry. apply Z.mod_small. done.
Qed.

Lemma dialogue_push_spec v r l d :
  holds r l ->
  let '(b, r', d') := dialogue_ring_push v r d in
  if 512 <=? Z.of_nat (length l) then b = false /\ r' = r /\ d' = d ⊞ 1
  else b = true /\ holds r' (l ++ [v]) /\ d' = d.
Proof.
  intros Hr. unfold dialogue_ring_push. rewrite (ho_len _ _ Hr). unfold KERNEL_DIALOGUE_CHANNEL_CAPACITY.
  destruct (Z.leb_spec 512 (Z.of_nat (length l))); [done|]. split_and!; [done| |done].
  pose proof (head_eq _ _ Hr) as Hh. pose proof (ho_head _ _ Hr). pose proof (ho_tail _ _ Hr).
  rewrite mask_mod by lia.
  constructor; cbn [head tail bytes]; rewrite ?length_app; cbn [length]; try lia; [apply u32_range| |].
  - rewrite Hh. unfold sub32, add32, u32. rewrite Zplus_mod_idemp_l, Zminus_mod_idemp_l.
    rewrite Z.mod_small; lia.
  - intros k Hk. rewrite zget_insert, Hh. unfold u32. rewrite wrap_mod.
    destruct (decide (k = length l)) as [->|Hne].
    + rewrite decide_True by done. by rewrite nth_middle.
    + rewrite app_nth1 by lia. rewrite decide_False; [apply Hr; lia|]. intros He.
      pose proof (Z.div_mod (tail r + Z.of_nat (length l)) 512 ltac:(lia)).
      pose proof (Z.div_mod (tail r + Z.of_nat k) 512 ltac:(lia)). lia.
Qed.

Lemma dialogue_pop_spec r l :
  holds r l ->
  let '(v, r') := dialogue_ring_pop r in
  match l with [] => v = None /\ r' = r | w :: l => v = Some w /\ holds r' l end.
Proof.
  intros Hr. unfold dialogue_ring_pop. pose proof (ho_len _ _ Hr) as Hn.
  pose proof (ho_head _ _ Hr). pose proof (ho_tail _ _ Hr). pose proof (ho_max _ _ Hr).
  destruct (Z.eqb_spec (head r) (tail r)) as [He|Hne].
  { rewrite He in Hn. unfold sub32 in Hn. rewrite Z.sub_diag in Hn. change (u32 0) with 0 in Hn.
    destruct l; [done|]. cbn [length] in Hn. lia. }
  destruct l as [|w l].
  { exfalso. apply Hne. rewrite (head_eq _ _ Hr). cbn [length]. rewrite Z.add_0_r. by apply u32_small. }
  cbn [length] in *. split.
  - rewrite mask_mod by lia. f_equal. pose proof (ho_byte _ _ Hr 0%nat ltac:(cbn; lia)) as Hb. by rewrite Z.add_0_r in Hb.
  - constructor; cbn [head tail bytes]; try done; try lia; [apply u32_range| |].
    + rewrite (head_eq _ _ Hr). unfold sub32, add32, u32. rewrite Zminus_mod_idemp_l, Zminus_mod_idemp_r. cbn [length].
      rewrite Z.mod_small; lia.
    + intros k Hk. pose proof (ho_byte _ _ Hr (S k) ltac:(cbn; lia)) as Hb. cbn [nth] in Hb. rewrite <- Hb. f_equal.
      unfold add32, u32. rewrite <- Zplus_mod_idemp_l, wrap_mod, Zplus_mod_idemp_l. f_equal. lia.
Qed.

Definition related (s : dialogue) (q : spec) : Prop :=
  holds (dialogue_to_demon s) (inbound q) /\ holds (dialogue_to_sovereign s) (outbound q) /\ dialogue_dropped s = lost q.

Lemma dialogue_exec_spec o s q :
  related s q ->
  let '(a, s') := exec o s in let '(a', q') := spec_exec o q in a = a' /\ related s' q'.
Proof.
  intros (Hd & Hs & Hl). pose proof (ho_len _ _ Hd). pose proof (ho_len _ _ Hs).
  destruct o as [[|] v|[|] [|]|[|]| |]; cbn -[Z.leb].
  - unfold kernel_dialogue_channel_offer_to_demon. pose proof (dialogue_push_spec v _ _ (dialogue_dropped s) Hd) as Hp.
    destruct (dialogue_ring_push _ _ _) as [[b r] d]. case_match; destruct Hp as (-> & ? & ->); subst; by rewrite ?Hl.
  - unfold kernel_dialogue_channel_offer_to_sovereign. pose proof (dialogue_push_spec v _ _ (dialogue_dropped s) Hs) as Hp.
    destruct (dialogue_ring_push _ _ _) as [[b r] d]. case_match; destruct Hp as (-> & ? & ->); subst; by rewrite ?Hl.
  - unfold kernel_dialogue_channel_take_for_demon. pose proof (dialogue_pop_spec _ _ Hd) as Hp. cbn [negb].
    destruct (dialogue_ring_pop _) as [v r]. destruct (inbound q) eqn:E; destruct Hp as [-> Hp]; subst; (split; [done|]).
    all: unfold related; cbn; rewrite ?E; done.
  - done.
  - unfold kernel_dialogue_channel_take_for_sovereign. pose proof (dialogue_pop_spec _ _ Hs) as Hp. cbn [negb].
    destruct (dialogue_ring_pop _) as [v r]. destruct (outbound q) eqn:E; destruct Hp as [-> Hp]; subst; (split; [done|]).
    all: unfold related; cbn; rewrite ?E; done.
  - done.
  - split; [by f_equal|done].
  - split; [by f_equal|done].
  - split; [by f_equal|done].
  - split; [done|]. split_and!; [| |done]; constructor; cbn; (lia || (intros; lia) || done).
Qed.

(** After a reset, and whatever the rings held before, the answers of any
    sequence of calls are those of two queues of 512 bytes: bytes leave in the
    order they entered, a byte is refused and counted exactly when its queue is
    full, and nothing changes when the 32-bit indices wrap around. *)
Theorem dialogue_equivalent os s : run (Reset :: os) s = spec_run (Reset :: os) (mkSpec [] [] 0).
Proof.
  assert (Hr : forall os s q, related s q -> run os s = spec_run os q).
  { clear. induction os as [|o os IH]; intros s q Hr; cbn [run spec_run]; [done|].
    pose proof (dialogue_exec_spec o s q Hr) as He. destruct (exec o s) as [a s'], (spec_exec o q) as [a' q'].
    destruct He as [-> He]. f_equal. by apply IH. }
  cbn [run spec_run exec spec_exec]. f_equal. apply Hr.
  split_and!; [| |done]; constructor; cbn; (lia || (intros; lia) || done).
Qed.
