(* ===== verification/Slab.v ===== *)
(** * Slab caches

    Models kernel/kernel/memory/slab.c (client profile): three caches of 16,
    64 and 256 byte objects carved from donated pages, each with a free list
    threaded through the objects and a cookie against double frees.  The
    server profile's functions are stubs. *)

From S2P Require Import Prelude HeapInterface.

Definition SLAB_FREE_COOKIE : Z := 0x534C4131.
Definition SLAB_NUM_CACHES : Z := 3.
Definition KERNEL_SLAB_SIZE_SMALL : Z := 16.
Definition KERNEL_SLAB_SIZE_MEDIUM : Z := 64.
Definition KERNEL_SLAB_SIZE_LARGE : Z := 256.
Definition SLAB_PAGE_SIZE : Z := 4096.

Record KernelSlabCache := mkCache {
  object_size : Z;
  free_head : Z;
  free_count : Z;
  used_count : Z;
  base : Z;
  end_ : Z }.

Record slab := mk { mem : zmap; slab_caches : list KernelSlabCache }.

Definition boot (m : zmap) : slab :=
  mk m [mkCache KERNEL_SLAB_SIZE_SMALL 0 0 0 0 0;
        mkCache KERNEL_SLAB_SIZE_MEDIUM 0 0 0 0 0;
        mkCache KERNEL_SLAB_SIZE_LARGE 0 0 0 0 0].

(** [while ((cursor + stride) <= page_end)]; [None] when the fuel runs out. *)
Fixpoint populate_loop (fuel : nat) (stride page_end cursor head count : Z) (m : zmap)
  : option (Z * Z * zmap) :=
  match fuel with
  | O => None
  | S fuel =>
      if cursor ⊞ stride <=? page_end then
        populate_loop fuel stride page_end (cursor ⊞ stride) cursor (count ⊞ 1)
          (<[cursor ⊞ 4 := SLAB_FREE_COOKIE]> (<[cursor := head]> m))
      else Some (head, count, m)
  end.

(** A page holds at most 256 objects of the smallest size. *)
Definition populate_fuel : nat := 257.

Definition slab_cache_populate (page_virt page_size : Z) (c : KernelSlabCache) (m : zmap)
  : option (KernelSlabCache * zmap) :=
  let stride := object_size c in
  let page_end := page_virt ⊞ page_size in
  let base' := if (base c =? 0) || (page_virt <? base c) then page_virt else base c in
  let end' := if end_ c <? page_end then page_end else end_ c in
  '(head, count, m) ← populate_loop populate_fuel stride page_end page_virt (free_head c) (free_count c) m;
  Some (mkCache stride head count (used_count c) base' end', m).

Fixpoint initialize_loop (pages : list Z) (i : Z) (s : slab) : option slab :=
  match pages with
  | [] => Some s
  | page :: pages =>
      if page =? 0 then initialize_loop pages (i + 1) s
      else
        let cache_index := Z.to_nat (i mod SLAB_NUM_CACHES) in
        c ← slab_caches s !! cache_index;
        '(c, m) ← slab_cache_populate page SLAB_PAGE_SIZE c (mem s);
        initialize_loop pages (i + 1) (mk m (<[cache_index := c]> (slab_caches s)))
  end.

(** [backing_pages] is the array of [page_count] addresses. *)
Definition kernel_slab_initialize (backing_pages : list Z) (s : slab) : option slab :=
  initialize_loop backing_pages 0 s.

Fixpoint find_size (i : nat) (size : Z) (cs : list KernelSlabCache) : option (nat * KernelSlabCache) :=
  match cs with
  | [] => None
  | c :: cs => if object_size c =? size then Some (i, c) else find_size (S i) size cs
  end.

Definition kernel_slab_alloc (size : Z) (s : slab) : Z * slab :=
  match find_size 0 size (slab_caches s) with
  | None => (0, s)
  | Some (i, c) =>
      if free_head c =? 0 then (0, s)
      else
        let obj := free_head c in
        (obj,
         mk (<[obj ⊞ 4 := 0]> (mem s))
            (<[i := mkCache (object_size c) (zget (mem s) obj) (free_count c ⊟ 1) (used_count c ⊞ 1) (base c) (end_ c)]>
               (slab_caches s)))
  end.

(** The first cache whose range and stride accept the address. *)
Definition accepts (addr : Z) (c : KernelSlabCache) : bool :=
  negb ((addr <? base c) || (end_ c <=? addr)) && ((addr ⊟ base c) mod object_size c =? 0).

Fixpoint find_owner (i : nat) (addr : Z) (cs : list KernelSlabCache) : option (nat * KernelSlabCache) :=
  match cs with
  | [] => None
  | c :: cs => if accepts addr c then Some (i, c) else find_owner (S i) addr cs
  end.

Definition kernel_slab_free (ptr : Z) (s : slab) : bool * slab :=
  if ptr =? 0 then (false, s)
  else
    match find_owner 0 ptr (slab_caches s) with
    | None => (false, s)
    | Some (i, c) =>
        if zget (mem s) (ptr ⊞ 4) =? SLAB_FREE_COOKIE then (false, s)
        else
          (true,
           mk (<[ptr ⊞ 4 := SLAB_FREE_COOKIE]> (<[ptr := free_head c]> (mem s)))
              (<[i := mkCache (object_size c) ptr (free_count c ⊞ 1)
                        (if 0 <? used_count c then used_count c ⊟ 1 else used_count c) (base c) (end_ c)]>
                 (slab_caches s)))
    end.

Definition kernel_slab_get_free_count (object_size : Z) (s : slab) : Z :=
  match find_size 0 object_size (slab_caches s) with Some (_, c) => free_count c | None => 0 end.

Definition kernel_slab_get_used_count (object_size : Z) (s : slab) : Z :=
  match find_size 0 object_size (slab_caches s) with Some (_, c) => used_count c | None => 0 end.

(** The server profile. *)
Module Stub.
Definition kernel_slab_initialize (backing_pages : list Z) (s : slab) : slab := s.
Definition kernel_slab_alloc (size : Z) (s : slab) : Z * slab := (0, s).
Definition kernel_slab_free (ptr : Z) (s : slab) : bool * slab := (false, s).
Definition kernel_slab_get_free_count (object_size : Z) (s : slab) : Z := 0.
Definition kernel_slab_get_used_count (object_size : Z) (s : slab) : Z := 0.
End Stub.

(** The pages of a boot pool: six frames, taken from the top of the free list. *)
Definition boot_pages : list Z := [0xC0405000; 0xC0404000; 0xC0403000; 0xC0402000; 0xC0401000; 0xC0400000].

(** ** Invariant

    [O] maps the address of every object carved so far to the cache it was
    carved for, which fixes its extent; [F i] lists the objects on the free
    list of cache [i].  An object may sit on the list of a cache of smaller
    objects than its own. *)

Definition sz (i : nat) : Z :=
  match i with O => KERNEL_SLAB_SIZE_SMALL | 1%nat => KERNEL_SLAB_SIZE_MEDIUM | _ => KERNEL_SLAB_SIZE_LARGE end.

Record slab_ok (s : slab) (O : Z -> option nat) (F : nat -> list Z) : Prop := {
  so_length : length (slab_caches s) = 3%nat;
  so_size : forall i c, slab_caches s !! i = Some c -> object_size c = sz i;
  so_slot : forall p o, O p = Some o ->
    0 < p /\ p + sz o < 2 ^ 32 /\
    exists c, slab_caches s !! o = Some c /\ 0 <= base c <= p /\ p < end_ c /\ (p - base c) mod sz o = 0;
  so_range : forall i c, slab_caches s !! i = Some c -> base c < end_ c -> O (base c) = Some i /\ O (end_ c - sz i) = Some i;
  so_apart : forall p o p' o', O p = Some o -> O p' = Some o' -> p <> p' ->
    p + sz o <= p' \/ p' + sz o' <= p;
  so_free : forall i p, p ∈ F i -> exists o, O p = Some o /\ sz i <= sz o;
  so_once : forall i j p, p ∈ F i -> p ∈ F j -> i = j;
  so_nodup : forall i, NoDup (F i);
  so_chain : forall i c, slab_caches s !! i = Some c -> chain (zget (mem s)) (free_head c) (F i);
  so_cookie : forall i p, p ∈ F i -> zget (mem s) (p + 4) = SLAB_FREE_COOKIE;
  so_count : forall i c, slab_caches s !! i = Some c -> free_count c = u32 (Z.of_nat (length (F i))) }.

Definition live (O : Z -> option nat) (F : nat -> list Z) (p : Z) : Prop := is_Some (O p) /\ forall i, p ∉ F i.

Lemma sz_range i : 16 <= sz i <= 256 /\ sz i mod 16 = 0 /\ 4096 mod sz i = 0.
Proof. destruct i as [|[|i]]; unfold sz, KERNEL_SLAB_SIZE_SMALL, KERNEL_SLAB_SIZE_MEDIUM, KERNEL_SLAB_SIZE_LARGE; split_and!; lia || done. Qed.

Lemma sz_mono i j : (i <= j)%nat -> sz i <= sz j.
Proof.
  intros Hij. unfold sz, KERNEL_SLAB_SIZE_SMALL, KERNEL_SLAB_SIZE_MEDIUM, KERNEL_SLAB_SIZE_LARGE.
  destruct i as [|[|i]], j as [|[|j]]; lia.
Qed.

Definition upd (F : nat -> list Z) (i : nat) (l : list Z) : nat -> list Z :=
  fun j => if decide (j = i) then l else F j.

Lemma find_size_spec size cs : forall i,
  match find_size i size cs with
  | Some (j, c) => (i <= j)%nat /\ cs !! (j - i)%nat = Some c /\ object_size c = size
  | None => forall c, c ∈ cs -> object_size c <> size
  end.
Proof.
  induction cs as [|c cs IH]; intros i; cbn [find_size]; [by intros c ?%not_elem_of_nil|].
  destruct (Z.eqb_spec (object_size c) size) as [|Hne].
  - by rewrite Nat.sub_diag.
  - specialize (IH (S i)). destruct (find_size (S i) size cs) as [[j c']|].
    + destruct IH as (Hij & Hl & Hs). split_and!; [lia| |done]. by replace (j - i)%nat with (S (j - S i)) by lia.
    + intros c' [->|]%elem_of_cons; [done|by apply IH].
Qed.

(** The owner found is the first cache that accepts the address. *)
Lemma find_owner_spec p cs : forall i o c,
  cs !! o = Some c -> accepts p c = true ->
  exists j c', find_owner i p cs = Some ((i + j)%nat, c') /\ (j <= o)%nat /\ cs !! j = Some c' /\ accepts p c' = true.
Proof.
  induction cs as [|c0 cs IH]; intros i o c Hl Ha; [done|]. cbn [find_owner].
  destruct (accepts p c0) eqn:E.
  - exists 0%nat, c0. rewrite Nat.add_0_r. split_and!; [done|lia|done..].
  - destruct o as [|o]; cbn in Hl; [simplify_eq; congruence|].
    destruct (IH (S i) o c Hl Ha) as (j & c' & Hf & Hj & Hl' & Ha'). exists (S j), c'.
    rewrite Hf. split_and!; [do 2 f_equal; lia|lia|done..].
Qed.

Section step.
Context (s : slab) (O : Z -> option nat) (F : nat -> list Z) (Hok : slab_ok s O F).

Lemma cache_at i : (i < 3)%nat -> exists c, slab_caches s !! i = Some c.
Proof. intros Hi. apply lookup_lt_is_Some. by rewrite (so_length _ _ _ Hok). Qed.

(** Changing memory inside one object, and the list of one cache that does not
    contain it any more, keeps the invariant. *)
Lemma slab_rebuild i c c' m p o l :
  slab_caches s !! i = Some c -> O p = Some o ->
  object_size c' = object_size c -> base c' = base c -> end_ c' = end_ c ->
  (forall a, zget m a = zget (mem s) a \/ p <= a < p + sz o) ->
  (forall j, j <> i -> p ∉ F j) ->
  (forall q, q ∈ l -> q <> p -> q ∈ F i) -> NoDup l ->
  chain (zget m) (free_head c') l ->
  (p ∈ l -> sz i <= sz o /\ zget m (p + 4) = SLAB_FREE_COOKIE) ->
  free_count c' = u32 (Z.of_nat (length l)) ->
  slab_ok (mk m (<[i := c']> (slab_caches s))) O (upd F i l).
Proof.
  intros Hc Hp Es Eb Ee Hm Hj Hl Hnd Hch Hin Hn.
  assert (Hkeep : forall j q, q ∈ F j -> q <> p ->
            zget m q = zget (mem s) q /\ zget m (q + 4) = zget (mem s) (q + 4)).
  { intros j q Hq Hne. destruct (so_free _ _ _ Hok j q Hq) as (o' & Ho' & _).
    pose proof (sz_range o'). pose proof (sz_range o).
    destruct (so_apart _ _ _ Hok q o' p o Ho' Hp Hne);
      (split; [destruct (Hm q)|destruct (Hm (q + 4))]; done || lia). }
  assert (Hlook : forall j cj, <[i := c']> (slab_caches s) !! j = Some cj ->
            (j = i /\ cj = c') \/ (j <> i /\ slab_caches s !! j = Some cj)).
  { intros j cj Hjc. apply list_lookup_insert_Some in Hjc as [(-> & -> & _)|[? ?]]; [by left|by right]. }
  constructor; cbn [mem slab_caches].
  - rewrite length_insert. apply Hok.
  - intros j cj [[-> ->]|[_ Hjc]]%Hlook; [rewrite Es|]; by eapply so_size.
  - intros q oq Hq. destruct (so_slot _ _ _ Hok q oq Hq) as (H1 & H2 & cq & Hcq & H3). split_and!; [done..|].
    destruct (decide (oq = i)) as [->|Hne].
    + exists c'. rewrite list_lookup_insert_eq by (by eapply lookup_lt_Some). simplify_eq. by rewrite Eb, Ee.
    + exists cq. by rewrite list_lookup_insert_ne.
  - intros j cj [[-> ->]|[_ Hjc]]%Hlook; [rewrite Eb, Ee|]; by apply (so_range _ _ _ Hok).
  - apply Hok.
  - intros j q. unfold upd. case_decide as Hd; [|apply Hok]. subst j. intros Hq.
    destruct (decide (q = p)) as [->|Hne]; [exists o; split; [done|by apply Hin]|]. apply (so_free _ _ _ Hok i), Hl; done.
  - intros j k q. unfold upd.
    assert (Hx : forall j', j' <> i -> q ∈ F j' -> q ∈ l -> False).
    { intros j' Hj' Hq Hql. destruct (decide (q = p)) as [->|Hne]; [by apply (Hj j')|].
      apply Hj'. apply (so_once _ _ _ Hok j' i q); [done|by apply Hl]. }
    repeat case_decide; subst; try done; intros ??; [exfalso; eauto..|by eapply (so_once _ _ _ Hok)].
  - intros j. unfold upd. case_decide; [done|apply Hok].
  - intros j cj [[-> ->]|[Hne Hjc]]%Hlook; unfold upd; [by rewrite decide_True|]. rewrite decide_False by done.
    eapply chain_ext; [|by apply (so_chain _ _ _ Hok)]. intros q Hq. apply (Hkeep j q Hq). intros ->. by apply (Hj j).
  - intros j q. unfold upd. case_decide as Hd.
    + intros Hq. destruct (decide (q = p)) as [->|Hne]; [by apply Hin|].
      rewrite (proj2 (Hkeep i q (Hl q Hq Hne) Hne)). apply (so_cookie _ _ _ Hok i). by apply Hl.
    + intros Hq. assert (q <> p) by (intros ->; by apply (Hj j)).
      rewrite (proj2 (Hkeep j q Hq ltac:(done))). by apply (so_cookie _ _ _ Hok j).
  - intros j cj [[-> ->]|[Hne Hjc]]%Hlook; unfold upd; [by rewrite decide_True|].
    rewrite decide_False by done. by apply Hok.
Qed.

End step.

(** ** Specification *)

Inductive op := Alloc (size : Z) | Free (ptr : Z) | Store (a v : Z).

Record view := mkView { v_extent : Z -> option Z; v_live : Z -> Prop; v_word : Z -> Z }.

Definition in_live (w : view) (a : Z) : Prop :=
  exists p e, v_live w p /\ v_extent w p = Some e /\ p <= a < p + e /\ (a - p) mod 4 = 0.

Definition keeps (w w' : view) : Prop :=
  (forall p, v_extent w' p = v_extent w p) /\
  forall a, in_live w a -> in_live w' a -> v_word w' a = v_word w a.

(** An allocation hands out an object of at least the size that is not live;
    freeing a live object whose second word is not the cookie releases it, and
    freeing one that is not live is refused. *)
Inductive step (w : view) : op -> Z -> view -> Prop :=
  | step_alloc size p e w' :
      v_extent w p = Some e -> size <= e -> ~ v_live w p -> keeps w w' ->
      (forall q, v_live w' q <-> v_live w q \/ q = p) -> step w (Alloc size) p w'
  | step_none size w' :
      keeps w w' -> (forall q, v_live w' q <-> v_live w q) -> step w (Alloc size) 0 w'
  | step_free p w' :
      v_live w p -> v_word w (p + 4) <> SLAB_FREE_COOKIE -> keeps w w' ->
      (forall q, v_live w' q <-> v_live w q /\ q <> p) -> step w (Free p) 1 w'
  | step_reject p w' :
      (v_live w p -> v_word w (p + 4) = SLAB_FREE_COOKIE) -> keeps w w' ->
      (forall q, v_live w' q <-> v_live w q) -> step w (Free p) 0 w'
  | step_store a v w' :
      (forall p, v_extent w' p = v_extent w p) -> (forall q, v_live w' q <-> v_live w q) ->
      (forall b, in_live w b -> v_word w' b = if decide (b = a) then v else v_word w b) ->
      step w (Store a v) 0 w'.

Definition abs (s : slab) (O : Z -> option nat) (F : nat -> list Z) : view :=
  mkView (fun p => sz <$> O p) (live O F) (zget (mem s)).

(** A pointer that is not at a whole number of strides behind an object of a
    cache, between the first and the last object of that cache. *)
Definition foreign (O : Z -> option nat) (p : Z) : Prop :=
  forall q q' i, O q = Some i -> O q' = Some i -> q <= p -> p < q' + sz i -> (p - q) mod sz i <> 0.

(** Clients free NULL, an object, live or not, or a foreign pointer, and write
    into live objects. *)
Definition legal (s : slab) (O : Z -> option nat) (F : nat -> list Z) (o : op) : Prop :=
  match o with
  | Alloc _ => True
  | Free ptr => ptr = 0 \/ is_Some (O ptr) \/ foreign O ptr
  | Store a _ => in_live (abs s O F) a
  end.

Definition exec (o : op) (s : slab) : Z * slab :=
  match o with
  | Alloc size => kernel_slab_alloc size s
  | Free ptr => let '(b, s') := kernel_slab_free ptr s in (Z.b2z b, s')
  | Store a v => (0, mk (<[a := v]> (mem s)) (slab_caches s))
  end.

Section steps.
Context (s : slab) (O : Z -> option nat) (F : nat -> list Z) (Hok : slab_ok s O F).

Lemma slab_keeps s' F' p o :
  O p = Some o -> (~ live O F p \/ ~ live O F' p) ->
  (forall a, zget (mem s') a = zget (mem s) a \/ p <= a < p + sz o) ->
  keeps (abs s O F) (abs s' O F').
Proof.
  intros Hp Hout Hm. split; [done|]. intros a (q & e & Hl & He & Ha & _) (q' & e' & Hl' & He' & Ha' & _).
  cbn [v_extent v_live v_word abs] in *. destruct (Hm a) as [|Hin]; [done|].
  destruct (O q) as [oq|] eqn:Eq; cbn in He; [|done]. destruct (O q') as [oq'|] eqn:Eq'; cbn in He'; [|done].
  simplify_eq. assert (q = p).
  { destruct (decide (q = p)); [done|]. destruct (so_apart _ _ _ Hok q oq p o Eq Hp ltac:(done)); lia. }
  assert (q' = p).
  { destruct (decide (q' = p)); [done|]. destruct (so_apart _ _ _ Hok q' oq' p o Eq' Hp ltac:(done)); lia. }
  subst. by destruct Hout.
Qed.

Lemma slab_alloc_spec size :
  let '(p, s') := kernel_slab_alloc size s in
  (p = 0 -> forall i, (i < 3)%nat -> size = sz i -> F i = []) /\
  exists F', slab_ok s' O F' /\ step (abs s O F) (Alloc size) p (abs s' O F').
Proof.
  unfold kernel_slab_alloc. pose proof (find_size_spec size (slab_caches s) 0) as Hf.
  assert (Hinj : forall i j, (i < 3)%nat -> (j < 3)%nat -> sz i = sz j -> i = j).
  { intros [|[|[|i]]] [|[|[|j]]] Hi Hj He; try lia; vm_compute in He; done. }
  destruct (find_size 0 size (slab_caches s)) as [[i c]|].
  2:{ split; [|exists F; split; [done|by apply step_none]]. intros _ i Hi ->.
      destruct (cache_at s O F Hok i Hi) as [c Hc]. exfalso. apply (Hf c); [by eapply list_elem_of_lookup_2|].
      by apply (so_size _ _ _ Hok). }
  destruct Hf as (_ & Hc & Hsz). rewrite Nat.sub_0_r in Hc. rewrite (so_size _ _ _ Hok i c Hc) in Hsz.
  pose proof (so_chain _ _ _ Hok i c Hc) as Hch. pose proof (so_nodup _ _ _ Hok i) as Hnd.
  pose proof (so_count _ _ _ Hok i c Hc) as Hn.
  assert (Hi3 : (i < 3)%nat) by (rewrite <- (so_length _ _ _ Hok); by eapply lookup_lt_Some).
  destruct (F i) as [|p l] eqn:EF.
  { cbn in Hch. rewrite Hch. cbn [Z.eqb]. split; [|exists F; split; [done|by apply step_none]].
    intros _ j Hj ->. by rewrite (Hinj j i). }
  destruct Hch as (Hh & Hp0 & Hch). rewrite Hh, (proj2 (Z.eqb_neq _ _)) by done. split; [done|].
  assert (Hp : p ∈ F i) by (rewrite EF; inlist). apply NoDup_cons in Hnd as [Hni Hnd].
  destruct (so_free _ _ _ Hok i p Hp) as (o & Ho & Hle). destruct (so_slot _ _ _ Hok p o Ho) as (? & ? & _).
  pose proof (sz_range o). rewrite add32_small by lia.
  assert (Hm : forall a, zget (<[p + 4 := 0]> (mem s)) a = zget (mem s) a \/ p <= a < p + sz o).
  { intros a. rewrite zget_insert. case_decide; [right; lia|by left]. }
  assert (Hnl : ~ live O F p) by (intros [_ Hl]; by apply (Hl i)).
  exists (upd F i l). split.
  - eapply slab_rebuild; try done.
    + intros j Hj Hq. apply Hj. by apply (so_once _ _ _ Hok j i p).
    + intros q Hq _. rewrite EF. inlist.
    + cbn. eapply chain_ext; [|exact Hch]. intros q Hq. rewrite zget_insert_ne; [done|].
      assert (Hqf : q ∈ F i) by (rewrite EF; inlist). destruct (so_free _ _ _ Hok i q Hqf) as (oq & Hoq & _).
      pose proof (sz_range oq). assert (q <> p) by (intros ->; done).
      destruct (so_apart _ _ _ Hok q oq p o Hoq Ho ltac:(done)); lia.
    + cbn. rewrite Hn. cbn [length]. unfold sub32, u32. rewrite Zminus_mod_idemp_l. f_equal. lia.
  - eapply step_alloc; cbn [v_extent v_live abs].
    + by rewrite Ho.
    + lia.
    + done.
    + apply (slab_keeps _ _ p o Ho); [by left|exact Hm].
    + intros q. unfold live, upd. split.
      * intros [Hs Hq]. destruct (decide (q = p)) as [->|Hne]; [by right|]. left. split; [done|]. intros j Hj.
        apply (Hq j). case_decide; [|done]. subst j. rewrite EF in Hj. by apply elem_of_cons in Hj as [->|].
      * intros [[Hs Hq]| ->].
        -- split; [done|]. intros j. case_decide; [|apply Hq]. subst. intros Hl. apply (Hq i). rewrite EF. inlist.
        -- split; [by eexists|]. intros j. case_decide; [done|]. intros Hj. by apply (so_once _ _ _ Hok j i p) in Hj.
Qed.

Lemma accepts_home p o c :
  O p = Some o -> slab_caches s !! o = Some c -> accepts p c = true.
Proof.
  intros Ho Hc. destruct (so_slot _ _ _ Hok p o Ho) as (Hp & He & c' & Hc' & Hb & Hend & Hmod). simplify_eq.
  unfold accepts. rewrite (so_size _ _ _ Hok o c Hc), sub32_small, Hmod by (pose proof (sz_range o); lia).
  rewrite (proj2 (Z.ltb_ge _ _)), (proj2 (Z.leb_gt _ _)) by lia. done.
Qed.

(** A foreign pointer has no owner. *)
Lemma foreign_refused p cs : forall i,
  foreign O p -> (forall j c, cs !! j = Some c -> slab_caches s !! (i + j)%nat = Some c) -> find_owner i p cs = None.
Proof.
  induction cs as [|c cs IH]; intros i Hp Hcs; [done|]. cbn [find_owner].
  assert (accepts p c = false) as ->.
  { pose proof (Hcs 0%nat c eq_refl) as Hc. rewrite Nat.add_0_r in Hc. unfold accepts.
    destruct (Z.ltb_spec p (base c)), (Z.leb_spec (end_ c) p); try done. cbn [orb negb andb].
    destruct (so_range _ _ _ Hok i c Hc ltac:(lia)) as [H1 H2].
    destruct (so_slot _ _ _ Hok _ _ H1) as (? & _). destruct (so_slot _ _ _ Hok _ _ H2) as (_ & ? & _).
    rewrite sub32_small, (so_size _ _ _ Hok i c Hc) by lia. apply Z.eqb_neq, (Hp (base c) (end_ c - sz i)); done || lia. }
  apply IH; [done|]. intros j c' Hj. rewrite Nat.add_succ_comm. by apply Hcs.
Qed.

Lemma slab_free_spec p :
  p = 0 \/ is_Some (O p) \/ foreign O p ->
  let '(b, s') := kernel_slab_free p s in
  (b = false -> s' = s) /\ exists F', slab_ok s' O F' /\ step (abs s O F) (Free p) (Z.b2z b) (abs s' O F').
Proof.
  intros Hp. unfold kernel_slab_free. destruct (Z.eqb_spec p 0) as [->|Hp0].
  { split; [done|]. exists F. split; [done|]. apply step_reject; [|done..]. intros [[o Ho] _].
    destruct (so_slot _ _ _ Hok 0 o Ho). lia. }
  destruct Hp as [|[[o Ho]|Hp]]; [done| |].
  2:{ rewrite (foreign_refused p (slab_caches s) 0 Hp) by done. split; [done|]. exists F. split; [done|]. apply step_reject; [|done..].
      intros [[o Ho] _]. pose proof (sz_range o). destruct (Hp p p o Ho Ho); [lia..|]. by rewrite Z.sub_diag, Z.mod_0_l by lia. }
  pose proof (so_slot _ _ _ Hok p o Ho) as (Hpos & Hend & c & Hc & _).
  destruct (find_owner_spec p (slab_caches s) 0 o c Hc (accepts_home p o c Ho Hc)) as (j & c' & -> & Hj & Hc' & _).
  pose proof (sz_range o). pose proof (sz_mono _ _ Hj). cbn [Nat.add]. rewrite add32_small by lia.
  destruct (Z.eqb_spec (zget (mem s) (p + 4)) SLAB_FREE_COOKIE) as [Hk|Hk].
  { split; [done|]. exists F. split; [done|]. by apply step_reject. }
  split; [done|]. assert (Hni : forall i, p ∉ F i) by (intros i Hi; by apply Hk, (so_cookie _ _ _ Hok i)).
  set (m := <[p + 4 := SLAB_FREE_COOKIE]> (<[p := free_head c']> (mem s))).
  assert (Hm : forall a, zget m a = zget (mem s) a \/ p <= a < p + sz o).
  { intros a. unfold m. rewrite !zget_insert. repeat case_decide; [right; lia..|by left]. }
  exists (upd F j (p :: F j)). split.
  - eapply slab_rebuild; try done.
    + intros q [->|]%elem_of_cons; done.
    + apply NoDup_cons. split; [done|apply Hok].
    + cbn [free_head chain]. split_and!; [done..|]. unfold m at 2. rewrite zget_insert_ne, zget_insert_eq by lia.
      eapply chain_ext; [|by apply (so_chain _ _ _ Hok j)]. intros q Hq.
      destruct (so_free _ _ _ Hok j q Hq) as (oq & Hoq & _). pose proof (sz_range oq).
      assert (q <> p) by (intros ->; by apply (Hni j)). unfold m.
      destruct (so_apart _ _ _ Hok q oq p o Hoq Ho ltac:(done)); by rewrite !zget_insert_ne by lia.
    + intros _. split; [done|]. unfold m. by rewrite zget_insert_eq.
    + cbn. rewrite (so_count _ _ _ Hok j c' Hc'). unfold add32, u32. rewrite Zplus_mod_idemp_l. f_equal. lia.
  - apply step_free; cbn [v_live v_word abs].
    + split; [by eexists|done].
    + done.
    + apply (slab_keeps _ _ p o Ho); [|exact Hm]. right. intros [_ Hl]. apply (Hl j). unfold upd.
      rewrite decide_True by done. inlist.
    + intros q. unfold live, upd. split.
      * intros [Hs Hq]. split.
        -- split; [done|]. intros i Hi. apply (Hq i). case_decide; [subst; inlist|done].
        -- intros ->. apply (Hq j). rewrite decide_True by done. inlist.
      * intros [[Hs Hq] Hne]. split; [done|]. intros i. case_decide; [|apply Hq]. subst.
        intros [->|Hi]%elem_of_cons; [done|by apply (Hq j)].
Qed.

End steps.

(** C40: One call on the caches is one step of the specification: the objects
    that are live at the same time never overlap and are at least as large as
    the request, although a freed object may end on the list of another cache
    than the one it came from; a double free is refused; so is NULL and every
    pointer that is not a whole number of strides behind an object of a cache,
    within the objects of that cache, and a refused free changes nothing; the words
    clients wrote are kept; and a request of one of the three sizes fails only when
    the list of its cache is empty. Pointers to other places inside the caches,
    for which [slab_free_interior] shows that the ownership test accepts some, are
    not covered. *)
Theorem slab_simulation s O F o :
  slab_ok s O F -> legal s O F o ->
  let '(r, s') := exec o s in
  (forall size i, o = Alloc size -> r = 0 -> (i < 3)%nat -> size = sz i -> F i = []) /\
  (forall p, o = Free p -> r = 0 -> s' = s) /\
  exists F', slab_ok s' O F' /\ step (abs s O F) o r (abs s' O F').
Proof.
  intros Hok Hl. destruct o as [size|p|a v]; cbn [exec].
  - pose proof (slab_alloc_spec s O F Hok size) as Ha. destruct (kernel_slab_alloc size s) as [p s'].
    destruct Ha as [Hz Ha]. split; [|done]. intros size' i [= <-] Hp. by apply Hz.
  - pose proof (slab_free_spec s O F Hok p Hl) as Hf. destruct (kernel_slab_free p s) as [[] s'], Hf as [Hs Hf]; split_and!; auto; done.
  - split; [done|]. split; [done|]. destruct Hl as (p & e & [[o Ho] Hni] & He & Ha & _). cbn [v_extent v_live abs] in *.
    rewrite Ho in He. cbn in He. simplify_eq. exists F.
    assert (Hm : forall b q, (exists i, q ∈ F i) -> b = q \/ b = q + 4 -> b <> a).
    { intros b q [i Hq] Hb ->. destruct (so_free _ _ _ Hok i q Hq) as (oq & Hoq & _). pose proof (sz_range oq).
      pose proof (sz_range o).
      assert (q <> p) by (intros ->; by apply (Hni i)).
      destruct (so_apart _ _ _ Hok q oq p o Hoq Ho ltac:(done)); lia. }
    split.
    + destruct Hok. constructor; cbn [mem slab_caches]; try done.
      * intros i c Hc. eapply chain_ext; [|by apply so_chain0]. intros q Hq.
        rewrite zget_insert_ne; [done|]. apply not_eq_sym, (Hm q q); eauto.
      * intros i q Hq. rewrite zget_insert_ne; [by apply (so_cookie0 i)|]. apply not_eq_sym, (Hm _ q); eauto.
    + apply step_store; cbn; try done. intros b _. rewrite zget_insert.
      destruct (decide (b = a)) as [->|]; [by rewrite decide_True|by rewrite decide_False].
Qed.

(** ** The memory the caches touch *)

(** The caches only look at the first two words of free objects. *)
Lemma slab_ext s O F m :
  slab_ok s O F ->
  (forall i p, p ∈ F i -> zget m p = zget (mem s) p /\ zget m (p + 4) = zget (mem s) (p + 4)) ->
  slab_ok (mk m (slab_caches s)) O F.
Proof.
  intros Hok Hm. constructor; cbn [mem slab_caches]; try apply Hok.
  - intros i c Hc. eapply chain_ext; [|by apply (so_chain _ _ _ Hok)]. intros q Hq. by apply (Hm i).
  - intros i p Hp. rewrite (proj2 (Hm i p Hp)). by apply (so_cookie _ _ _ Hok i).
Qed.

Lemma slab_take s O F size :
  slab_ok s O F ->
  let '(p, s') := kernel_slab_alloc size s in
  (p = 0 /\ s' = s) \/
  exists F' o, O p = Some o /\ size <= sz o /\ ~ live O F p /\ slab_ok s' O F' /\
    (forall q, live O F' q <-> live O F q \/ q = p) /\
    forall a, ~ (p <= a < p + sz o) -> zget (mem s') a = zget (mem s) a.
Proof.
  intros Hok. pose proof (slab_alloc_spec s O F Hok size) as Hs. revert Hs. unfold kernel_slab_alloc.
  destruct (find_size 0 size (slab_caches s)) as [[i c]|]; [|by left].
  destruct (Z.eqb_spec (free_head c) 0) as [|Hp0]; [by left|]. set (p := free_head c) in *. clearbody p.
  intros (_ & F' & Hok' & Hst). right.
  inversion Hst as [? ? e ? He Hle Hnl _ Hl| | | |]; subst; [|done]. cbn [v_extent v_live abs] in *.
  destruct (O p) as [o|] eqn:Ho; [|done]. cbn in He. simplify_eq. exists F', o. split_and!; try done.
  intros a Ha. destruct (so_slot _ _ _ Hok p o Ho) as (? & ? & _). pose proof (sz_range o).
  cbn [mem]. rewrite add32_small, zget_insert_ne by lia. done.
Qed.

Lemma slab_give s O F p o :
  slab_ok s O F -> live O F p -> O p = Some o -> zget (mem s) (p + 4) <> SLAB_FREE_COOKIE ->
  let '(b, s') := kernel_slab_free p s in
  b = true /\ exists F', slab_ok s' O F' /\ (forall q, live O F' q <-> live O F q /\ q <> p) /\
    forall a, ~ (p <= a < p + sz o) -> zget (mem s') a = zget (mem s) a.
Proof.
  intros Hok Hlp Ho Hck. pose proof (slab_free_spec s O F Hok p (or_intror (or_introl (proj1 Hlp)))) as Hs.
  destruct (so_slot _ _ _ Hok p o Ho) as (Hp & He & c0 & Hc0 & _). pose proof (sz_range o).
  revert Hs. unfold kernel_slab_free. rewrite (proj2 (Z.eqb_neq p 0)) by lia.
  destruct (find_owner_spec p (slab_caches s) 0 o c0 Hc0 (accepts_home s O F Hok p o c0 Ho Hc0)) as (j & c & -> & _).
  rewrite add32_small by lia. rewrite (proj2 (Z.eqb_neq _ _)) by done.
  intros (_ & F' & Hok' & Hst). split; [done|]. exists F'. split; [done|].
  inversion Hst as [| |? ? _ _ _ Hl| |]; subst. split; [done|].
  intros a Ha. cbn [mem]. rewrite !zget_insert_ne by lia. done.
Qed.

(** ** Initialisation *)

Lemma populate_loop_spec page stride r : forall fuel k head count m l,
  0 < page -> page + 8192 <= 2 ^ 32 -> 8 <= stride <= 256 -> 0 <= k -> (k + Z.of_nat r) * stride = 4096 ->
  (r < fuel)%nat -> in32 count -> chain (zget m) head l ->
  Forall (fun q => q + 8 <= page + k * stride \/ page + 4096 <= q) l -> NoDup l ->
  exists head' count' m' new,
    populate_loop fuel stride (page + 4096) (page + k * stride) head count m = Some (head', count', m') /\
    chain (zget m') head' (new ++ l) /\ NoDup (new ++ l) /\
    (forall q, q ∈ new <-> exists j, k <= j < k + Z.of_nat r /\ q = page + j * stride) /\
    (forall q, q ∈ new -> zget m' (q + 4) = SLAB_FREE_COOKIE) /\
    (forall a, zget m' a = zget m a \/ page + k * stride <= a < page + 4096) /\
    count' = u32 (count + Z.of_nat (length new)).
Proof.
  induction r as [|r IH]; intros fuel k head count m l Hp Hpe Hst Hk Hr Hf Hcn Hc Hl Hnd;
    (destruct fuel as [|fuel]; [lia|]); cbn [populate_loop].
  - replace (k * stride) with 4096 by lia.
    rewrite add32_small, (proj2 (Z.leb_gt _ _)) by lia. exists head, count, m, [].
    split_and!; try done; [|intros q Hq; by apply not_elem_of_nil in Hq|by left|cbn; rewrite Z.add_0_r, u32_small by done; done].
    intros q. rewrite elem_of_nil. split; [done|]. intros (j & ? & _). lia.
  - assert (Hin : (k + 1) * stride <= 4096) by nia.
    rewrite (add32_small (page + k * stride) stride), (proj2 (Z.leb_le _ _)), (add32_small _ 4) by nia.
    set (p := page + k * stride) in *.
    replace (p + stride) with (page + (k + 1) * stride) by (unfold p; lia).
    rewrite Forall_forall in Hl.
    destruct (IH fuel (k + 1) p (count ⊞ 1) (<[p + 4 := SLAB_FREE_COOKIE]> (<[p := head]> m)) (p :: l))
      as (head' & count' & m' & new & -> & Hch & Hnd' & Hnew & Hck & Hm & Hcnt); try done; try nia.
    + apply u32_range.
    + cbn [chain]. split_and!; [done|nia|]. rewrite zget_insert_ne, zget_insert_eq by lia.
      eapply chain_ext; [|exact Hc]. intros q Hq. specialize (Hl q Hq). cbn in Hl. by rewrite !zget_insert_ne by nia.
    + constructor; [nia|]. apply Forall_forall. intros q Hq. specialize (Hl q Hq). cbn in Hl. nia.
    + apply NoDup_cons. split; [|done]. intros Hq. specialize (Hl p Hq). cbn in Hl. nia.
    + exists head', count', m', (new ++ [p]). rewrite <- app_assoc. split_and!; try done.
      * intros q. rewrite elem_of_app, Hnew, list_elem_of_singleton. split.
        -- intros [(j & Hj & ->)| ->]; [exists j; split; [lia|done]|exists k; split; [lia|done]].
        -- intros (j & Hj & ->). destruct (decide (j = k)) as [->|]; [by right|]. left. exists j. split; [lia|done].
      * intros q [Hq| ->%list_elem_of_singleton]%elem_of_app; [by apply Hck|].
        destruct (Hm (p + 4)) as [->|]; [by rewrite zget_insert_eq|]. nia.
      * intros a. destruct (Hm a) as [->|]; [|right; nia]. rewrite !zget_insert. repeat case_decide; [right; nia..|by left].
      * rewrite Hcnt, length_app. cbn [length]. unfold add32, u32. rewrite Zplus_mod_idemp_l. f_equal. lia.
Qed.

(** The pages donated so far, and what they were carved into. *)
Record built (s : slab) (O : Z -> option nat) (F : nat -> list Z) (P : list Z) : Prop := {
  bu_ok : slab_ok s O F;
  bu_page : forall p o, O p = Some o -> exists page, page ∈ P /\ page <= p /\ p + sz o <= page + 4096;
  bu_base : forall i c, slab_caches s !! i = Some c -> 0 <= base c /\ base c mod 4096 = 0;
  bu_range : forall i c, slab_caches s !! i = Some c -> base c = 0 /\ end_ c = 0 \/ base c < end_ c;
  bu_none : forall i c p, slab_caches s !! i = Some c -> base c = 0 -> O p <> Some i;
  bu_free : forall p o, O p = Some o -> p ∈ F o }.

Definition page_ok (page : Z) : Prop := 0 < page /\ page mod 4096 = 0 /\ page + 8192 <= 2 ^ 32.

Lemma mod_sz x i : x mod 4096 = 0 -> x mod sz i = 0.
Proof.
  intros Hx. pose proof (sz_range i) as (Hr & _ & Hd). apply Z.mod_divide in Hx as [a ->]; [|lia].
  apply Z.mod_divide in Hd as [b Hb]; [|lia]. apply Z.mod_divide; [lia|]. exists (a * b). rewrite Hb. ring.
Qed.

(** The range of a cache after a page is donated still has its old objects and
    the page, at whole strides from the base. *)
Lemma range_grows (b e page : Z) i :
  page_ok page -> 0 <= b -> b mod 4096 = 0 ->
  let b' := if (b =? 0) || (page <? b) then page else b in
  let e' := if e <? page + 4096 then page + 4096 else e in
  0 < b' <= page /\ b' mod 4096 = 0 /\ page + 4096 <= e' /\ e <= e' /\ (b <> 0 -> b' <= b) /\
  (forall q, (q - page) mod sz i = 0 -> (q - b') mod sz i = 0) /\
  (forall q, (q - b) mod sz i = 0 -> (q - b') mod sz i = 0).
Proof.
  intros (Hp & Hpm & _) Hb Hbm b' e'. pose proof (sz_range i) as (Hr & _).
  assert (Hb' : b' = page \/ b' = b /\ b <> 0 /\ b <= page).
  { unfold b'. destruct (Z.eqb_spec b 0); cbn; [by left|]. destruct (Z.ltb_spec page b); [by left|right; done]. }
  assert (Hm' : b' mod 4096 = 0) by (destruct Hb' as [->|(-> & _)]; done).
  assert (Hshift : forall x, x mod 4096 = 0 -> forall q, (q - x) mod sz i = 0 -> (q - b') mod sz i = 0).
  { intros x Hx q Hq. replace (q - b') with (q - x + (x - b')) by lia.
    rewrite Z.add_mod, Hq, (mod_sz (x - b') i) by (lia || (rewrite Zminus_mod, Hx, Hm'; done)). by rewrite Z.mod_0_l by lia. }
  assert (He' : page + 4096 <= e' /\ e <= e') by (unfold e'; destruct (Z.ltb_spec e (page + 4096)); lia).
  split_and!; try tauto; try (by apply Hshift); unfold b' in *.
  all: destruct (Z.eqb_spec b 0), (Z.ltb_spec page b); cbn [orb] in *; lia.
Qed.

(** Adding fresh objects to a cache. *)
Definition extend (O : Z -> option nat) (new : list Z) (i : nat) : Z -> option nat :=
  fun q => if decide (q ∈ new) then Some i else O q.

Lemma carve s O F i c c' m new :
  slab_ok s O F -> slab_caches s !! i = Some c -> object_size c' = sz i ->
  (forall q, q ∈ new \/ O q = Some i ->
     0 < q /\ q + sz i < 2 ^ 32 /\ 0 <= base c' <= q /\ q < end_ c' /\ (q - base c') mod sz i = 0) ->
  extend O new i (base c') = Some i -> extend O new i (end_ c' - sz i) = Some i ->
  (forall q q' o', q ∈ new -> O q' = Some o' -> q + sz i <= q' \/ q' + sz o' <= q) ->
  (forall q q', q ∈ new -> q' ∈ new -> q <> q' -> q + sz i <= q' \/ q' + sz i <= q) ->
  (forall j q, q ∈ F j -> zget m q = zget (mem s) q /\ zget m (q + 4) = zget (mem s) (q + 4)) ->
  chain (zget m) (free_head c') (new ++ F i) -> NoDup (new ++ F i) ->
  (forall q, q ∈ new -> zget m (q + 4) = SLAB_FREE_COOKIE) ->
  free_count c' = u32 (Z.of_nat (length (new ++ F i))) ->
  slab_ok (mk m (<[i := c']> (slab_caches s))) (extend O new i) (upd F i (new ++ F i)).
Proof.
  intros Hok Hc Es Hslot Hfst Hlst Hout Hnew Hm Hch Hnd Hck Hn.
  assert (Hlook : forall j cj, <[i := c']> (slab_caches s) !! j = Some cj ->
            (j = i /\ cj = c') \/ (j <> i /\ slab_caches s !! j = Some cj)).
  { intros j cj Hjc. apply list_lookup_insert_Some in Hjc as [(-> & -> & _)|[? ?]]; [by left|by right]. }
  assert (Hold : forall j q, q ∈ F j -> q ∉ new).
  { intros j q Hq Hin. destruct (so_free _ _ _ Hok j q Hq) as (o & Ho & _). pose proof (sz_range o). pose proof (sz_range i).
    destruct (Hout q q o Hin Ho); lia. }
  constructor; cbn [mem slab_caches].
  - rewrite length_insert. apply Hok.
  - intros j cj [[-> ->]|[_ Hjc]]%Hlook; [done|]. by eapply so_size.
  - intros q o. unfold extend. intros Hq.
    destruct (decide (o = i)) as [->|Hne].
    + destruct (Hslot q) as (? & ? & ? & ? & ?); [case_decide; [by left|by right]|]. split_and!; [done..|].
      exists c'. rewrite list_lookup_insert_eq by (by eapply lookup_lt_Some). done.
    + case_decide; [congruence|]. destruct (so_slot _ _ _ Hok q o Hq) as (? & ? & cq & ? & ?). split_and!; [done..|].
      exists cq. by rewrite list_lookup_insert_ne.
  - intros j cj [[-> ->]|[_ Hjc]]%Hlook Hlt; [done|]. destruct (so_range _ _ _ Hok j cj Hjc Hlt) as [H1 H2].
    assert (Hkeep : forall q o, O q = Some o -> extend O new i q = Some o).
    { intros q o Hq. unfold extend. case_decide; [|done]. pose proof (sz_range o). pose proof (sz_range i). destruct (Hout q q o); done || lia. }
    split; by apply Hkeep.
  - intros p o p' o'. unfold extend. intros Hp Hp' Hne. repeat case_decide; simplify_eq;
      first [by apply Hnew|by apply Hout|by eapply so_apart|by apply or_comm, Hout].
  - intros j q. unfold upd, extend. destruct (decide (q ∈ new)) as [Hin|Hin].
    + destruct (decide (j = i)) as [->|]; [by exists i|]. intros Hq. by destruct (Hold j q Hq).
    + intros Hq. apply (so_free _ _ _ Hok j). case_decide; [|done]. subst. by apply elem_of_app in Hq as [|].
  - intros j k q. unfold upd. repeat case_decide; subst; rewrite ?elem_of_app; intros Hj Hk; try done.
    + destruct Hj as [Hj|Hj]; [by destruct (Hold k q Hk)|by apply (so_once _ _ _ Hok i k q)].
    + destruct Hk as [Hk|Hk]; [by destruct (Hold j q Hj)|by apply (so_once _ _ _ Hok j i q)].
    + by apply (so_once _ _ _ Hok j k q).
  - intros j. unfold upd. case_decide; [done|apply Hok].
  - intros j cj [[-> ->]|[Hne Hjc]]%Hlook; unfold upd; [by rewrite decide_True|]. rewrite decide_False by done.
    eapply chain_ext; [|by apply (so_chain _ _ _ Hok)]. intros q Hq. by apply (Hm j).
  - intros j q Hq. assert (q ∈ new \/ q ∈ F j) as [Hin|Hin].
    { unfold upd in Hq. case_decide; [|by right]. subst. by apply elem_of_app in Hq. }
    + by apply Hck.
    + rewrite (proj2 (Hm j q Hin)). by apply (so_cookie _ _ _ Hok j).
  - intros j cj [[-> ->]|[Hne Hjc]]%Hlook; unfold upd; [by rewrite decide_True|].
    rewrite decide_False by done. by apply Hok.
Qed.

Lemma donate s O F P page i c :
  built s O F P -> Forall page_ok P -> page_ok page -> page ∉ P -> slab_caches s !! i = Some c ->
  exists c' m' O' F', slab_cache_populate page SLAB_PAGE_SIZE c (mem s) = Some (c', m') /\
    built (mk m' (<[i := c']> (slab_caches s))) O' F' (page :: P) /\
    forall a, zget m' a = zget (mem s) a \/ page <= a < page + 4096.
Proof.
  intros [Hok Hpage Hbase Hrange Hnone Hfree] HP Hpg Hni Hc. pose proof Hpg as (Hp0 & Hpm & Hpe).
  rewrite Forall_forall in HP. pose proof (sz_range i) as (Hsz & _ & Hdiv).
  destruct (Hbase i c Hc) as [Hb0 Hbm].
  destruct (range_grows (base c) (end_ c) page i Hpg Hb0 Hbm) as (Hb1 & Hb2 & He1 & He2 & Hb3 & Hs1 & Hs2).
  (* Objects of other pages are clear of this one. *)
  assert (Hclear : forall q o, O q = Some o -> q + sz o <= page \/ page + 4096 <= q).
  { intros q o Hq. destruct (Hpage q o Hq) as (pg & Hin & ? & ?). destruct (HP pg Hin) as (_ & Hm & _).
    assert (pg <> page) by (intros ->; done).
    pose proof (Z.div_mod pg 4096 ltac:(lia)). pose proof (Z.div_mod page 4096 ltac:(lia)). nia. }
  assert (HFc : forall j q, q ∈ F j -> q + 8 <= page \/ page + 4096 <= q).
  { intros j q Hq. destruct (so_free _ _ _ Hok j q Hq) as (o & Ho & _). pose proof (sz_range o).
    destruct (Hclear q o Ho); lia. }
  unfold slab_cache_populate. rewrite (so_size _ _ _ Hok i c Hc). unfold SLAB_PAGE_SIZE. rewrite add32_small by lia.
  assert (Hn : (0 + Z.of_nat (Z.to_nat (4096 / sz i))) * sz i = 4096).
  { pose proof (Z.div_mod 4096 (sz i) ltac:(lia)). pose proof (Z.div_pos 4096 (sz i)). lia. }
  destruct (populate_loop_spec page (sz i) (Z.to_nat (4096 / sz i)) populate_fuel 0 (free_head c) (free_count c)
    (mem s) (F i)) as (head' & count' & m' & new & Hpop & Hch & Hnd & Hnew & Hck & Hm & Hcnt); try lia.
  { unfold populate_fuel. assert (4096 / sz i <= 256) by (apply Z.div_le_upper_bound; lia). lia. }
  { rewrite (so_count _ _ _ Hok i c Hc). apply u32_range. }
  { by apply Hok. }
  { apply Forall_forall. intros q Hq. destruct (HFc i q Hq); lia. }
  { apply Hok. }
  replace (page + 0 * sz i) with page in Hpop, Hm by lia. rewrite Hpop. cbn [mbind option_bind].
  assert (Hnew' : forall q, q ∈ new -> page <= q /\ q + sz i <= page + 4096 /\ (q - page) mod sz i = 0).
  { intros q (j & Hj & ->)%Hnew. split_and!; [nia..|]. replace (page + j * sz i - page) with (j * sz i) by lia.
    apply Z.mod_mul. lia. }
  assert (Hold : forall q, q ∈ new -> O q = None).
  { intros q Hq. destruct (O q) as [o|] eqn:E; [|done]. pose proof (sz_range o). pose proof (Hnew' q Hq).
    destruct (Hclear q o E); lia. }
  eexists _, m', (extend O new i), (upd F i (new ++ F i)). split; [done|]. split; [|done].
  match goal with |- built (mk _ (<[i := ?x]> _)) _ _ _ => set (c' := x) end.
  assert (Hlook : forall j cj, <[i := c']> (slab_caches s) !! j = Some cj ->
            (j = i /\ cj = c') \/ (j <> i /\ slab_caches s !! j = Some cj)).
  { intros j cj Hjc. apply list_lookup_insert_Some in Hjc as [(-> & -> & _)|[? ?]]; [by left|by right]. }
  constructor.
  - eapply carve; try done; cbn [c' base end_ free_head free_count].
    + intros q [Hq|Hq].
      * pose proof (Hnew' q Hq) as (? & ? & ?). split_and!; try lia. by apply Hs1.
      * destruct (so_slot _ _ _ Hok q i Hq) as (? & ? & cq & Hcq & ? & ? & ?).
        rewrite Hc in Hcq. injection Hcq as <-.
        assert (base c <> 0) by (intros Hz; by apply (Hnone i c q)). specialize (Hb3 ltac:(done)).
        split_and!; try lia. by apply Hs2.
    + assert (page ∈ new) by (apply Hnew; exists 0; lia). unfold extend. case_decide as Hd; [done|].
      destruct (Z.eqb_spec (base c) 0), (Z.ltb_spec page (base c)); cbn [orb] in *; try done.
      apply (so_range _ _ _ Hok); [done|]. destruct (Hrange i c Hc) as [[? _]|]; done.
    + assert (page + 4096 - sz i ∈ new) by (apply Hnew; exists (Z.of_nat (Z.to_nat (4096 / sz i)) - 1); lia).
      unfold extend. case_decide as Hd; [done|]. destruct (Z.ltb_spec (end_ c) (page + 4096)); [done|].
      apply (so_range _ _ _ Hok); [done|]. destruct (Hrange i c Hc) as [[_ ?]|]; lia.
    + intros q q' o' Hq Hq'. pose proof (Hnew' q Hq). destruct (Hclear q' o' Hq'); lia.
    + intros q q' (j & _ & ->)%Hnew (j' & _ & ->)%Hnew Hne. assert (j <> j') by congruence. nia.
    + intros j q Hq. destruct (HFc j q Hq), (Hm q), (Hm (q + 4)); done || lia.
    + rewrite Hcnt, (so_count _ _ _ Hok i c Hc), u32_add_l, length_app. f_equal. lia.
  - intros q o. unfold extend. case_decide as Hd; intros Hq; simplify_eq.
    + exists page. pose proof (Hnew' q Hd). split; [inlist|lia].
    + destruct (Hpage q o Hq) as (pg & ? & ?). exists pg. split; [inlist|done].
  - intros j cj [[-> ->]|[_ Hj]]%Hlook; [cbn; lia|by apply (Hbase j)].
  - intros j cj [[-> ->]|[_ Hj]]%Hlook; [right; cbn; lia|by apply (Hrange j)].
  - intros j cj q [[-> ->]|[Hne Hj]]%Hlook; cbn [base c']; intros Hz; [lia|].
    unfold extend. case_decide; [congruence|by apply (Hnone j cj)].
  - intros q o. unfold extend, upd. case_decide; intros Hq; simplify_eq.
    + rewrite decide_True by done. inlist.
    + case_decide; [subst; apply elem_of_app; right|]; by apply Hfree.
Qed.

Lemma boot_built m : built (boot m) (fun _ => None) (fun _ => []) [].
Proof.
  assert (Hc : forall i c, slab_caches (boot m) !! i = Some c ->
            object_size c = sz i /\ free_head c = 0 /\ free_count c = 0 /\ base c = 0 /\ end_ c = 0).
  { intros [|[|[|i]]] c Hc; cbn in Hc; simplify_eq; done. }
  constructor; try done; [constructor|..]; try done.
  - intros i c Hi. by destruct (Hc i c Hi).
  - intros i c Hi. destruct (Hc i c Hi) as (_ & _ & _ & -> & ->). lia.
  - by intros i p ?%not_elem_of_nil.
  - by intros i j p ?%not_elem_of_nil.
  - intros i. constructor.
  - intros i c Hi. by destruct (Hc i c Hi) as (_ & ? & _).
  - by intros i p ?%not_elem_of_nil.
  - intros i c Hi. by destruct (Hc i c Hi) as (_ & _ & -> & _).
  - intros i c Hi. by destruct (Hc i c Hi) as (_ & _ & _ & -> & _).
  - intros i c Hi. left. by destruct (Hc i c Hi) as (_ & _ & _ & H).
Qed.

Lemma initialize_loop_built pages : forall i s O F P,
  built s O F P -> Forall page_ok P -> Forall page_ok pages -> NoDup (pages ++ P) -> 0 <= i ->
  exists s' O' F', initialize_loop pages i s = Some s' /\ built s' O' F' (rev pages ++ P) /\
    forall a, zget (mem s') a = zget (mem s) a \/ exists page, page ∈ pages /\ page <= a < page + 4096.
Proof.
  induction pages as [|page pages IH]; intros i s O F P Hb HP Hpg Hnd Hi.
  { exists s, O, F. split_and!; [done..|]. by left. }
  apply Forall_cons in Hpg as [Hp Hpg]. cbn [app] in Hnd. apply NoDup_cons in Hnd as [Hni Hnd].
  cbn [initialize_loop]. rewrite (proj2 (Z.eqb_neq _ _)) by (destruct Hp; lia).
  pose proof (Z.mod_pos_bound i SLAB_NUM_CACHES ltac:(done)).
  destruct (cache_at s O F (bu_ok _ _ _ _ Hb) (Z.to_nat (i mod SLAB_NUM_CACHES))) as [c Hc].
  { unfold SLAB_NUM_CACHES in *. lia. }
  rewrite Hc. cbn [mbind option_bind].
  destruct (donate s O F P page (Z.to_nat (i mod SLAB_NUM_CACHES)) c Hb HP Hp) as (c' & m' & O' & F' & -> & Hb' & Hm); [|done|].
  { intros Hin. apply Hni. apply elem_of_app. by right. }
  cbn [mbind option_bind]. cbn [rev]. rewrite <- app_assoc. cbn [app].
  destruct (IH (i + 1) (mk m' (<[Z.to_nat (i mod SLAB_NUM_CACHES) := c']> (slab_caches s))) O' F' (page :: P))
    as (s' & O'' & F'' & He & Hb'' & Hm'); try done; [by constructor| |lia|].
  { rewrite <- Permutation_middle. by apply NoDup_cons. }
  exists s', O'', F''. split_and!; [done..|]. intros a.
  destruct (Hm' a) as [->|(pg & Hin & ?)]; [|right; exists pg; split; [by right|done]].
  cbn [mem]. destruct (Hm a) as [->|?]; [by left|]. right. exists page. split; [left|done].
Qed.

(** Donated distinct pages establish the invariant with every object free. *)
Lemma slab_initialize_spec pages m :
  Forall page_ok pages -> NoDup pages ->
  exists s O F, kernel_slab_initialize pages (boot m) = Some s /\ slab_ok s O F /\ (forall p, ~ live O F p) /\
    (forall p o, O p = Some o -> exists page, page ∈ pages /\ page <= p /\ p + sz o <= page + 4096) /\
    forall a, zget (mem s) a = zget m a \/ exists page, page ∈ pages /\ page <= a < page + 4096.
Proof.
  intros Hp Hnd. destruct (initialize_loop_built pages 0 (boot m) _ _ [] (boot_built m)) as (s & O & F & Hi & Hb & Hm);
    [constructor|done|by rewrite app_nil_r|lia|].
  exists s, O, F. split_and!; [done|apply Hb| | |done].
  - intros p [[o Ho] Hni]. by apply (Hni o), (bu_free _ _ _ _ Hb).
  - intros p o Ho. destruct (bu_page _ _ _ _ Hb p o Ho) as (page & Hin & ?). exists page. split; [|done].
    rewrite app_nil_r in Hin. apply list_elem_of_In, in_rev in Hin. by apply list_elem_of_In.
Qed.

Lemma boot_pages_ok : Forall page_ok boot_pages /\ NoDup boot_pages.
Proof.
  split; [repeat constructor; done|]. unfold boot_pages.
  repeat (apply NoDup_cons; split; [rewrite ?elem_of_cons, elem_of_nil; lia|]). constructor.
Qed.

(** The hypotheses hold after the boot pages are donated, also for the free of
    an address of the screen. *)
Lemma slab_simulation_witness :
  exists s O F, kernel_slab_initialize boot_pages (boot ∅) = Some s /\ slab_ok s O F /\
    (let '(p, s') := exec (Alloc 64) s in exists F', slab_ok s' O F' /\ step (abs s O F) (Alloc 64) p (abs s' O F')) /\
    let '(b, s') := exec (Free 0xB8000) s in exists F', slab_ok s' O F' /\ step (abs s O F) (Free 0xB8000) b (abs s' O F').
Proof.
  destruct (slab_initialize_spec boot_pages ∅ (proj1 boot_pages_ok) (proj2 boot_pages_ok)) as (s & O & F & Hi & Hok & _ & Hpage & _).
  exists s, O, F. split_and!; [done..| |].
  - pose proof (slab_simulation s O F (Alloc 64) Hok I) as H. destruct (exec (Alloc 64) s) as [p s']. apply H.
  - assert (Hf : foreign O 0xB8000).
    { intros q q' i Hq _ Hle _. destruct (Hpage q i Hq) as (page & Hin & ? & _). unfold boot_pages in Hin. rewrite !elem_of_cons, elem_of_nil in Hin. lia. }
    pose proof (slab_simulation s O F (Free 0xB8000) Hok (or_intror (or_intror Hf))) as H. destruct (exec (Free 0xB8000) s) as [b s']. apply H.
Defined.

(** *** Objects change caches *)

(** [n] allocations of one size, and the release of a list of objects. *)
Fixpoint take_objects (n : nat) (size : Z) (s : slab) : list Z * slab :=
  match n with
  | O => ([], s)
  | S n => let '(p, s) := kernel_slab_alloc size s in
           let '(l, s) := take_objects n size s in (p :: l, s)
  end.

Fixpoint release_objects (l : list Z) (s : slab) : bool * slab :=
  match l with
  | [] => (true, s)
  | p :: l => let '(b, s) := kernel_slab_free p s in
              let '(bs, s) := release_objects l s in (b && bs, s)
  end.

(** The pages of one cache are not adjacent, so the ranges of the caches
    overlap: after the boot pages are donated, taking all 128 objects of 64
    bytes and releasing them (every release is accepted) leaves 64 of them on
    the list of the 16 byte cache, and the same happens to half of the 256 byte
    objects; they can no longer serve the size they were carved for. *)
Theorem slab_free_migrates :
  exists s, kernel_slab_initialize boot_pages (boot ∅) = Some s /\
    kernel_slab_get_free_count 16 s = 512 /\ kernel_slab_get_free_count 64 s = 128 /\
    kernel_slab_get_free_count 256 s = 32 /\
    (let '(l, s1) := take_objects 128 64 s in let '(b, s2) := release_objects l s1 in
     b = true /\ kernel_slab_get_free_count 64 s2 = 64 /\ kernel_slab_get_free_count 16 s2 = 576) /\
    (let '(l, s1) := take_objects 32 256 s in let '(b, s2) := release_objects l s1 in
     b = true /\ kernel_slab_get_free_count 256 s2 = 16 /\ kernel_slab_get_free_count 16 s2 = 528).
Proof.
  assert (H : (fun s =>
    (kernel_slab_get_free_count 16 s, kernel_slab_get_free_count 64 s, kernel_slab_get_free_count 256 s,
     (let '(l, s1) := take_objects 128 64 s in let '(b, s2) := release_objects l s1 in
      (b, kernel_slab_get_free_count 64 s2, kernel_slab_get_free_count 16 s2)),
     (let '(l, s1) := take_objects 32 256 s in let '(b, s2) := release_objects l s1 in
      (b, kernel_slab_get_free_count 256 s2, kernel_slab_get_free_count 16 s2))))
    <$> kernel_slab_initialize boot_pages (boot ∅) = Some (512, 128, 32, (true, 64, 576), (true, 16, 528)))
    by (vm_compute; reflexivity).
  destruct (kernel_slab_initialize boot_pages (boot ∅)) as [s|]; [|done]. exists s. split; [done|].
  cbn [fmap option_fmap option_map] in H. revert H.
  destruct (take_objects 128 64 s) as [l s1]. destruct (release_objects l s1) as [b s2].
  destruct (take_objects 32 256 s) as [l' s1']. destruct (release_objects l' s1') as [b' s2'].
  intros H. by simplify_eq.
Qed.

(** A pointer into the middle of a live object is accepted by [kernel_slab_free]
    and put on the free list. *)
Lemma slab_free_interior :
  exists s, kernel_slab_initialize boot_pages (boot ∅) = Some s /\
    let '(l, s1) := take_objects 17 256 s in let p := nth 16 l 0 in
    let '(b, s2) := kernel_slab_free (p + 32) s1 in
    p <> 0 /\ b = true /\ (kernel_slab_alloc 16 s2).1 = p + 32.
Proof.
  assert (H : (fun s =>
    let '(l, s1) := take_objects 17 256 s in let p := nth 16 l 0 in
    let '(b, s2) := kernel_slab_free (p + 32) s1 in
    (p, b, (kernel_slab_alloc 16 s2).1)) <$> kernel_slab_initialize boot_pages (boot ∅)
    = Some (0xC0403F00, true, 0xC0403F20)) by (vm_compute; reflexivity).
  destruct (kernel_slab_initialize boot_pages (boot ∅)) as [s|]; [|done]. exists s. split; [done|].
  cbn [fmap option_fmap option_map] in H. revert H.
  destruct (take_objects 17 256 s) as [l s1]. cbv zeta.
  destruct (kernel_slab_free (nth 16 l 0 + 32) s1) as [b s2]. intros [= H1 H2 H3].
  rewrite H1, H2, H3. split_and!; lia || done.
Qed.
