(* ===== verification/Apic.v ===== *)
(** * Interrupt controllers and the local timer

    Models arch/i386/cpu/pic.c, pit.c, apic.c, irq.c and apic_timer.c.  What
    the code writes to the hardware is the list of [event]s a call produces,
    in order; what it reads from the hardware (ports, model specific
    registers, counters) are arguments, since their values are the device's. *)

From S2P Require Import Prelude Cpu Pmm BuddyProofs FrameAlloc Paging.
From stdpp Require Import strings.
#[local] Open Scope Z_scope.

Inductive event :=
  | Out (port value : Z)
  | In (port : Z)
  | WriteMsr (register value : Z)
  | WriteMmio (address value : Z)
  | Halt.

(** ** 8259 interrupt controllers *)

Module Pic.

Definition PIC1_COMMAND : Z := 0x20.
Definition PIC1_DATA : Z := 0x21.
Definition PIC2_COMMAND : Z := 0xA0.
Definition PIC2_DATA : Z := 0xA1.
Definition PIC_EOI : Z := 0x20.
Definition PIC_READ_ISR : Z := 0x0B.
Definition PIC_VECTOR_OFFSET_MASTER : Z := 0x20.
Definition PIC_VECTOR_OFFSET_SLAVE : Z := 0x28.

Definition pic_io_wait : event := Out 0x80 0.

Definition programmable_interrupt_controller_send_end_of_interrupt (irq_line : Z) : list event :=
  (if 8 <=? irq_line then [Out PIC2_COMMAND PIC_EOI] else []) ++ [Out PIC1_COMMAND PIC_EOI].

(** [current] is the mask read from the data port. *)
Definition programmable_interrupt_controller_set_mask (irq_line current : Z) : list event :=
  let port := if irq_line <? 8 then PIC1_DATA else PIC2_DATA in
  let irq_line := if irq_line <? 8 then irq_line else u8 (irq_line - 8) in
  [In port; Out port (u8 (Z.lor current (Z.shiftl 1 irq_line)))].

Definition programmable_interrupt_controller_clear_mask (irq_line current : Z) : list event :=
  let port := if irq_line <? 8 then PIC1_DATA else PIC2_DATA in
  let irq_line := if irq_line <? 8 then irq_line else u8 (irq_line - 8) in
  [In port; Out port (Z.land current (u8 (Z.lnot (Z.shiftl 1 irq_line))))].

Definition programmable_interrupt_controller_initialize (master_mask slave_mask : Z) : list event :=
  [In PIC1_DATA; In PIC2_DATA;
   Out PIC1_COMMAND 0x11; pic_io_wait; Out PIC2_COMMAND 0x11; pic_io_wait;
   Out PIC1_DATA PIC_VECTOR_OFFSET_MASTER; pic_io_wait; Out PIC2_DATA PIC_VECTOR_OFFSET_SLAVE; pic_io_wait;
   Out PIC1_DATA 0x04; pic_io_wait; Out PIC2_DATA 0x02; pic_io_wait;
   Out PIC1_DATA 0x01; pic_io_wait; Out PIC2_DATA 0x01; pic_io_wait;
   Out PIC1_DATA master_mask; Out PIC2_DATA slave_mask].

(** [isr] is the in-service register of the controller asked. *)
Definition programmable_interrupt_controller_is_in_service (irq_line isr : Z) : bool * list event :=
  if irq_line <? 8 then
    (negb (Z.land isr (u8 (Z.shiftl 1 irq_line)) =? 0), [Out PIC1_COMMAND PIC_READ_ISR; In PIC1_COMMAND])
  else if irq_line <? 16 then
    (negb (Z.land isr (u8 (Z.shiftl 1 (irq_line - 8))) =? 0), [Out PIC2_COMMAND PIC_READ_ISR; In PIC2_COMMAND])
  else (false, []).

End Pic.

(** ** Interval timer *)

Module Pit.

Definition PIT_INPUT_FREQUENCY_HZ : Z := 1193182.

Definition programmable_interval_timer_frequency_to_divisor (target_frequency_hz : Z) : Z :=
  let target_frequency_hz := if target_frequency_hz =? 0 then 1 else target_frequency_hz in
  let divisor := PIT_INPUT_FREQUENCY_HZ / target_frequency_hz in
  let divisor := if divisor =? 0 then 1 else divisor in
  if 0xFFFF <? divisor then 0xFFFF else divisor.

(** The new value of [programmable_interval_timer_frequency_hz]. *)
Definition programmable_interval_timer_initialize (target_frequency_hz : Z) : Z * list event :=
  let divisor := programmable_interval_timer_frequency_to_divisor target_frequency_hz in
  (PIT_INPUT_FREQUENCY_HZ / divisor,
   [Out 0x43 0x34; Out 0x40 (Z.land divisor 0x00FF); Out 0x40 (Z.land (Z.shiftr divisor 8) 0x00FF)]).

End Pit.

(** ** Local APIC *)

Module Apic.

Definition IA32_APIC_BASE_MSR : Z := 0x1B.
Definition IA32_APIC_BASE_X2APIC_MODE_BIT : Z := Z.shiftl 1 10.
Definition IA32_APIC_BASE_ENABLE_BIT : Z := Z.shiftl 1 11.
Definition CPUID_FEAT_ECX_X2APIC : Z := Z.shiftl 1 21.
Definition X2APIC_MSR_BASE : Z := 0x800.
Definition LAPIC_REG_VERSION : Z := 0x30.
Definition LAPIC_REG_EOI : Z := 0xB0.
Definition LAPIC_REG_SPURIOUS : Z := 0xF0.
Definition LAPIC_REG_ICR_LOW : Z := 0x300.
Definition LAPIC_REG_ICR_HIGH : Z := 0x310.
Definition LAPIC_REG_LVT_TIMER : Z := 0x320.
Definition LAPIC_REG_TIMER_INIT : Z := 0x380.
Definition LAPIC_REG_TIMER_CUR : Z := 0x390.
Definition LAPIC_REG_TIMER_DIV : Z := 0x3E0.

Record apic := mk { g_apic_mmio_base : Z; g_x2apic_active : bool }.

(** [value] is what the register or the model specific register holds. *)
Definition apic_read (value : Z) (s : apic) : Z :=
  if g_x2apic_active s then u32 value
  else if negb (g_apic_mmio_base s =? 0) then value
  else 0xFFFFFFFF.

Definition apic_write (reg_offset value : Z) (s : apic) : list event :=
  if g_x2apic_active s then [WriteMsr (X2APIC_MSR_BASE ⊞ Z.shiftr reg_offset 4) value]
  else if negb (g_apic_mmio_base s =? 0) then [WriteMmio (g_apic_mmio_base s ⊞ reg_offset) value]
  else [].

Definition apic_write_icr (high low : Z) (s : apic) : list event :=
  if g_x2apic_active s then
    [WriteMsr (X2APIC_MSR_BASE ⊞ Z.shiftr LAPIC_REG_ICR_LOW 4) (Z.lor (u64 (Z.shiftl high 32)) low)]
  else if negb (g_apic_mmio_base s =? 0) then
    apic_write LAPIC_REG_ICR_HIGH high s ++ apic_write LAPIC_REG_ICR_LOW low s
  else [].

Definition apic_send_eoi (s : apic) : list event := apic_write LAPIC_REG_EOI 0 s.

(** [ecx] is the feature word of CPUID leaf 1, [apic_base] the base register
    and [svr] the spurious vector register. *)
Definition apic_initialize_on_cpu (mmio_virtual_base ecx apic_base svr : Z) : apic * list event :=
  if negb (Z.land ecx CPUID_FEAT_ECX_X2APIC =? 0) then
    (mk mmio_virtual_base true,
     [WriteMsr IA32_APIC_BASE_MSR
        (Z.lor apic_base (Z.lor IA32_APIC_BASE_X2APIC_MODE_BIT IA32_APIC_BASE_ENABLE_BIT))])
  else
    let s := mk mmio_virtual_base false in
    (s,
     [WriteMsr IA32_APIC_BASE_MSR (Z.lor apic_base IA32_APIC_BASE_ENABLE_BIT)] ++
     (if negb (mmio_virtual_base =? 0) then
        apic_write LAPIC_REG_SPURIOUS (Z.lor (apic_read svr s) (Z.shiftl 1 8)) s
      else [])).

End Apic.

(** ** Interrupt requests *)

Module Irq.
Import Pic Apic.

Definition IRQ_LINE_COUNT : Z := 16.
Definition IRQ_CASCADE_LINE : Z := 2.
Definition IRQ_TIMER_LINE : Z := 0.
Definition IRQ_KEYBOARD_LINE : Z := 1.
Definition IRQ_SPURIOUS7_LINE : Z := 7.
Definition IRQ_SPURIOUS15_LINE : Z := 15.
Definition KERNEL_RECONCILER_TICK_SAMPLE_PERIOD : Z := 64.

Record irq := mk {
  interrupt_request_tick_count : Z;
  interrupt_request_spurious_irq7_count : Z;
  interrupt_request_spurious_irq15_count : Z;
  interrupt_request_timer_target_frequency_hz : Z;
  interrupt_request_rtc_periodic_enabled : Z;
  interrupt_request_timer_owner_is_apic : Z;
  interrupt_request_apic_owned_lines : Z }.

Definition boot : irq := mk 0 0 0 100 0 0 0.

(** The boolean tells whether the handler runs [kernel_reconciler_check_periodic]. *)
Definition interrupt_request_timer_handler (a : apic) (s : irq) : bool * irq * list event :=
  let tick := interrupt_request_tick_count s ⊞ 1 in
  (tick mod KERNEL_RECONCILER_TICK_SAMPLE_PERIOD =? 0,
   mk tick (interrupt_request_spurious_irq7_count s) (interrupt_request_spurious_irq15_count s)
      (interrupt_request_timer_target_frequency_hz s) (interrupt_request_rtc_periodic_enabled s)
      (interrupt_request_timer_owner_is_apic s) (interrupt_request_apic_owned_lines s),
   if negb (interrupt_request_timer_owner_is_apic s =? 0) then apic_send_eoi a
   else programmable_interrupt_controller_send_end_of_interrupt IRQ_TIMER_LINE).

(** [masks] are the values read from the data ports, one per line. *)
Definition interrupt_request_mask_all (masks : Z -> Z) : list event :=
  concat ((fun line => programmable_interrupt_controller_set_mask line (masks line)) <$> seqZ 0 IRQ_LINE_COUNT).

Definition interrupt_request_spurious_irq7_handler (isr : Z) (s : irq) : irq * list event :=
  let '(in_service, ev) := programmable_interrupt_controller_is_in_service IRQ_SPURIOUS7_LINE isr in
  if negb in_service then
    (mk (interrupt_request_tick_count s) (interrupt_request_spurious_irq7_count s ⊞ 1)
        (interrupt_request_spurious_irq15_count s) (interrupt_request_timer_target_frequency_hz s)
        (interrupt_request_rtc_periodic_enabled s) (interrupt_request_timer_owner_is_apic s)
        (interrupt_request_apic_owned_lines s), ev)
  else (s, ev ++ programmable_interrupt_controller_send_end_of_interrupt IRQ_SPURIOUS7_LINE).

Definition interrupt_request_spurious_irq15_handler (isr : Z) (s : irq) : irq * list event :=
  let '(in_service, ev) := programmable_interrupt_controller_is_in_service IRQ_SPURIOUS15_LINE isr in
  if negb in_service then
    (mk (interrupt_request_tick_count s) (interrupt_request_spurious_irq7_count s)
        (interrupt_request_spurious_irq15_count s ⊞ 1) (interrupt_request_timer_target_frequency_hz s)
        (interrupt_request_rtc_periodic_enabled s) (interrupt_request_timer_owner_is_apic s)
        (interrupt_request_apic_owned_lines s),
     ev ++ programmable_interrupt_controller_send_end_of_interrupt IRQ_CASCADE_LINE)
  else (s, ev ++ programmable_interrupt_controller_send_end_of_interrupt IRQ_SPURIOUS15_LINE).

Definition with_config (hz rtc owner lines : Z) (s : irq) : irq :=
  mk (interrupt_request_tick_count s) (interrupt_request_spurious_irq7_count s)
     (interrupt_request_spurious_irq15_count s) hz rtc owner lines.

Definition interrupt_request_set_timer_frequency_hz (frequency_hz : Z) (s : irq) : irq :=
  with_config (if frequency_hz =? 0 then 1 else frequency_hz) (interrupt_request_rtc_periodic_enabled s)
    (interrupt_request_timer_owner_is_apic s) (interrupt_request_apic_owned_lines s) s.

Definition interrupt_request_set_realtime_clock_periodic_enabled (enabled : Z) (s : irq) : irq :=
  with_config (interrupt_request_timer_target_frequency_hz s) (if enabled =? 0 then 0 else 1)
    (interrupt_request_timer_owner_is_apic s) (interrupt_request_apic_owned_lines s) s.

Definition interrupt_request_set_timer_owner_is_apic (enabled : Z) (s : irq) : irq :=
  with_config (interrupt_request_timer_target_frequency_hz s) (interrupt_request_rtc_periodic_enabled s)
    (if enabled =? 0 then 0 else 1) (interrupt_request_apic_owned_lines s) s.

Definition interrupt_request_set_line_owner_is_apic (irq_line enabled : Z) (s : irq) : irq :=
  if IRQ_LINE_COUNT <=? irq_line then s
  else
    let lines := interrupt_request_apic_owned_lines s in
    let lines :=
      if negb (enabled =? 0) then Z.lor lines (u16 (Z.shiftl 1 irq_line))
      else Z.land lines (u16 (Z.lnot (Z.shiftl 1 irq_line))) in
    with_config (interrupt_request_timer_target_frequency_hz s) (interrupt_request_rtc_periodic_enabled s)
      (interrupt_request_timer_owner_is_apic s) lines s.

Definition interrupt_request_is_line_owner_apic (irq_line : Z) (s : irq) : Z :=
  if IRQ_LINE_COUNT <=? irq_line then 0
  else if negb (Z.land (interrupt_request_apic_owned_lines s) (Z.shiftl 1 irq_line) =? 0) then 1 else 0.

Definition interrupt_request_set_keyboard_owner_is_apic (enabled : Z) (s : irq) : irq :=
  interrupt_request_set_line_owner_is_apic IRQ_KEYBOARD_LINE enabled s.

Definition interrupt_request_is_keyboard_owner_apic (s : irq) : Z :=
  interrupt_request_is_line_owner_apic IRQ_KEYBOARD_LINE s.

(** *** Ownership is per line *)

(** Handing one line over says nothing about the others. *)
Lemma line_owner_set s l l' e :
  0 <= l < 16 -> 0 <= l' < 16 ->
  interrupt_request_is_line_owner_apic l' (interrupt_request_set_line_owner_is_apic l e s) =
  if decide (l' = l) then (if e =? 0 then 0 else 1) else interrupt_request_is_line_owner_apic l' s.
Proof.
  intros Hl Hl'. unfold interrupt_request_set_line_owner_is_apic, interrupt_request_is_line_owner_apic, IRQ_LINE_COUNT.
  rewrite !(proj2 (Z.leb_gt _ _)) by lia. cbn [interrupt_request_apic_owned_lines with_config].
  rewrite !byte_testbit by lia. rewrite Z.shiftl_1_l.
  assert (Hp : u16 (2 ^ l) = 2 ^ l).
  { apply Z.mod_small. split; [lia|]. apply Z.pow_lt_mono_r; lia. }
  destruct (Z.eqb_spec e 0); cbn [negb].
  - rewrite Z.land_spec. unfold u16. rewrite Z.mod_pow2_bits_low, Z.lnot_spec, Z.pow2_bits_eqb by lia.
    destruct (decide (l' = l)) as [->|]; [by rewrite Z.eqb_refl, andb_false_r|].
    rewrite (proj2 (Z.eqb_neq l l')) by lia. by rewrite andb_true_r.
  - rewrite Z.lor_spec, Hp, Z.pow2_bits_eqb by lia.
    destruct (decide (l' = l)) as [->|]; [by rewrite Z.eqb_refl, orb_true_r|].
    rewrite (proj2 (Z.eqb_neq l l')) by lia. by rewrite orb_false_r.
Qed.

End Irq.

(** ** The local APIC timer *)

Module Timer.
Import Pic Apic Irq.

Definition APIC_CPUID_EDX_BIT_APIC : Z := Z.shiftl 1 9.
Definition IA32_APIC_BASE_BSP_BIT : Z := Z.shiftl 1 8.
Definition IA32_APIC_BASE_PHYSICAL_BASE_MASK : Z := 0xFFFFF000.
Definition APIC_TIMER_MMIO_VIRTUAL_BASE : Z := 0xFFB00000.

Record timer := mk {
  state_name : String.string;
  local_apic_physical_base : Z;
  local_apic_is_bootstrap_processor : Z;
  local_apic_mmio_mapped : Z;
  local_apic_version_register : Z;
  local_apic_calibrated_frequency_hz : Z;
  local_apic_periodic_mode_enabled : Z }.

Definition boot : timer := mk "apic-probe-only"%string 0 0 0 0 0 0.

Definition named (name : String.string) (t : timer) : timer :=
  mk name (local_apic_physical_base t) (local_apic_is_bootstrap_processor t) (local_apic_mmio_mapped t)
     (local_apic_version_register t) (local_apic_calibrated_frequency_hz t) (local_apic_periodic_mode_enabled t).

Definition with_mode (name : String.string) (periodic : Z) (t : timer) : timer :=
  mk name (local_apic_physical_base t) (local_apic_is_bootstrap_processor t) (local_apic_mmio_mapped t)
     (local_apic_version_register t) (local_apic_calibrated_frequency_hz t) periodic.

(** The test that guards every access to the timer. *)
Definition unavailable (a : apic) (t : timer) : bool :=
  (local_apic_mmio_mapped t =? 0) && negb (g_x2apic_active a).

Definition mode_name (a : apic) (x2apic xapic : String.string) : String.string :=
  if g_x2apic_active a then x2apic else xapic.

(** [edx] is the feature word of CPUID leaf 1, [apic_base_msr] the base
    register. *)
Definition advanced_pic_timer_backend_initialize (edx apic_base_msr : Z) (t : timer) : Z * timer :=
  let reset name base bsp := (0, mk name base bsp 0 0 0 0) in
  if Z.land edx APIC_CPUID_EDX_BIT_APIC =? 0 then reset "apic-probe-no-local-apic"%string 0 0
  else if Z.land apic_base_msr IA32_APIC_BASE_ENABLE_BIT =? 0 then
    reset "apic-probe-local-apic-disabled"%string 0 0
  else if negb (Z.land apic_base_msr IA32_APIC_BASE_X2APIC_MODE_BIT =? 0) then
    reset "apic-probe-x2apic-mode-unsupported"%string 0 0
  else
    let base := Z.land apic_base_msr IA32_APIC_BASE_PHYSICAL_BASE_MASK in
    if base =? 0 then reset "apic-probe-mmio-base-invalid"%string 0 0
    else
      reset "apic-probe-xapic-mmio-ready"%string (u32 base)
        (if negb (Z.land apic_base_msr IA32_APIC_BASE_BSP_BIT =? 0) then 1 else 0).

Section mapping.
Context {A : Type} `{FrameAllocator A} (realtime : bool).

Definition mmio_pde_flags : PageDirectoryEntry := mkPde 1 1 0 0 1 0 0 0 0 0 0.
Definition mmio_pte_flags : PageTableEntry := mkPte 1 1 0 0 1 0 0 0 0 0 0.

Definition mapped (t : timer) : timer :=
  mk (state_name t) (local_apic_physical_base t) (local_apic_is_bootstrap_processor t) 1
     (local_apic_version_register t) (local_apic_calibrated_frequency_hz t) (local_apic_periodic_mode_enabled t).

Definition advanced_pic_timer_backend_map_local_apic_mmio (t : timer) (p : paging A)
  : option (bool * timer * paging A) :=
  if local_apic_physical_base t =? 0 then Some (false, t, p)
  else if paging_is_mapped APIC_TIMER_MMIO_VIRTUAL_BASE p then Some (true, mapped t, p)
  else
    '(ok, p) ← paging_map_page realtime APIC_TIMER_MMIO_VIRTUAL_BASE (local_apic_physical_base t)
                 mmio_pde_flags mmio_pte_flags p;
    if negb ok then Some (false, t, p) else Some (true, mapped t, p).

(** [ecx], [apic_base], [svr] and [version] are read by the initialisation of
    the local APIC and from its version register. *)
Definition advanced_pic_timer_backend_late_initialize (ecx apic_base svr version : Z)
  (a : apic) (t : timer) (p : paging A) : option (Z * apic * timer * paging A * list event) :=
  if local_apic_physical_base t =? 0 then Some (0, a, t, p, [])
  else
    '(ok, t, p) ← advanced_pic_timer_backend_map_local_apic_mmio t p;
    if negb ok then Some (0, a, named "apic-late-mmio-map-failed"%string t, p, [])
    else
      let '(a, ev) := apic_initialize_on_cpu APIC_TIMER_MMIO_VIRTUAL_BASE ecx apic_base svr in
      let t := mk (mode_name a "x2apic-ready-lvt-masked"%string "xapic-ready-lvt-masked"%string)
                  (local_apic_physical_base t) (local_apic_is_bootstrap_processor t) (local_apic_mmio_mapped t)
                  (apic_read version a) (local_apic_calibrated_frequency_hz t)
                  (local_apic_periodic_mode_enabled t) in
      Some (1, a, t, p, ev ++ apic_write LAPIC_REG_LVT_TIMER (Z.lor (Z.shiftl 1 16) 0xFE) a).

End mapping.

(** [while (get_tick_count() == start)] and [while (get_tick_count() < end)]:
    the readings consumed; [None] when the counter never gets there. *)
Fixpoint wait_change (start : Z) (ticks : list Z) : option (list Z) :=
  match ticks with
  | [] => None
  | t :: ticks => if t =? start then wait_change start ticks else Some ticks
  end.

Fixpoint wait_until (end_ : Z) (ticks : list Z) : option (list Z) :=
  match ticks with
  | [] => None
  | t :: ticks => if t <? end_ then wait_until end_ ticks else Some ticks
  end.

Definition next_tick (ticks : list Z) : option (Z * list Z) :=
  match ticks with [] => None | t :: ticks => Some (t, ticks) end.

(** [ticks] are the successive readings of the tick counter, [current] the
    reading of the current count. *)
Definition advanced_pic_timer_backend_calibrate_with_pit (pit_frequency_hz : Z) (ticks : list Z) (current : Z)
  (a : apic) (t : timer) : option (Z * timer * list event) :=
  if unavailable a t then Some (0, t, [])
  else if pit_frequency_hz =? 0 then Some (0, named "apic-calibration-pit-frequency-invalid"%string t, [])
  else
    '(start_tick, ticks) ← next_tick ticks;
    ticks ← wait_change start_tick ticks;
    '(start_tick, ticks) ← next_tick ticks;
    let setup := apic_write LAPIC_REG_TIMER_DIV 3 a
                 ++ apic_write LAPIC_REG_LVT_TIMER (Z.lor (Z.shiftl 1 16) 0xFE) a
                 ++ apic_write LAPIC_REG_TIMER_INIT 0xFFFFFFFF a in
    _ ← wait_until (start_tick ⊞ 8) ticks;
    let elapsed := 0xFFFFFFFF ⊟ apic_read current a in
    let ev := setup ++ apic_write LAPIC_REG_TIMER_INIT 0 a in
    if elapsed =? 0 then Some (0, named "apic-calibration-no-progress"%string t, ev)
    else
      let hz := u64 (elapsed * pit_frequency_hz) / 8 in
      let hz := if 0xFFFFFFFF <? hz then 0xFFFFFFFF else hz in
      Some (1, mk (mode_name a "x2apic-calibrated"%string "xapic-calibrated"%string)
                  (local_apic_physical_base t) (local_apic_is_bootstrap_processor t) (local_apic_mmio_mapped t)
                  (local_apic_version_register t) hz (local_apic_periodic_mode_enabled t), ev).

(** [mask] is the interrupt mask read from the first controller. *)
Definition advanced_pic_timer_backend_enable_periodic_mode (target_frequency_hz mask : Z)
  (a : apic) (i : irq) (t : timer) : Z * irq * timer * list event :=
  if unavailable a t then
    (0, interrupt_request_set_timer_owner_is_apic 0 i, with_mode "apic-periodic-not-ready"%string 0 t, [])
  else if local_apic_calibrated_frequency_hz t =? 0 then
    (0, interrupt_request_set_timer_owner_is_apic 0 i,
     with_mode "apic-periodic-missing-calibration"%string 0 t, [])
  else
    let target := if target_frequency_hz =? 0 then 1 else target_frequency_hz in
    let count := local_apic_calibrated_frequency_hz t / target in
    let count := if count =? 0 then 1 else count in
    (1, interrupt_request_set_timer_owner_is_apic 1 i,
     with_mode (mode_name a "x2apic-periodic-active"%string "xapic-periodic-active"%string) 1 t,
     apic_write LAPIC_REG_TIMER_DIV 3 a
     ++ apic_write LAPIC_REG_LVT_TIMER (Z.lor (Z.shiftl 1 17) 32) a
     ++ apic_write LAPIC_REG_TIMER_INIT count a
     ++ programmable_interrupt_controller_set_mask 0 mask).

(** The initial count for a delay. *)
Definition one_shot_count (frequency_hz microseconds : Z) : Z :=
  let ticks := u64 (frequency_hz * microseconds) / 1000000 in
  let ticks := if ticks =? 0 then 1 else ticks in
  if 0xFFFFFFFF <? ticks then 0xFFFFFFFF else ticks.

Definition advanced_pic_timer_backend_arm_one_shot (microseconds : Z) (a : apic) (t : timer)
  : Z * timer * list event :=
  if unavailable a t then (0, t, [])
  else if local_apic_calibrated_frequency_hz t =? 0 then (0, t, [])
  else
    (1, with_mode (mode_name a "x2apic-oneshot"%string "xapic-oneshot"%string) 0 t,
     apic_write LAPIC_REG_TIMER_DIV 3 a
     ++ apic_write LAPIC_REG_LVT_TIMER 32 a
     ++ apic_write LAPIC_REG_TIMER_INIT
          (one_shot_count (local_apic_calibrated_frequency_hz t) microseconds) a).

Definition advanced_pic_timer_backend_disable (a : apic) (t : timer) : timer * list event :=
  if unavailable a t then (t, [])
  else
    (with_mode "apic-timer-stopped"%string 0 t,
     apic_write LAPIC_REG_TIMER_INIT 0 a ++ apic_write LAPIC_REG_LVT_TIMER (Z.lor (Z.shiftl 1 16) 0xFE) a).

(** [value] is what the current count register holds. *)
Definition advanced_pic_timer_backend_read_current_count (value : Z) (a : apic) (t : timer) : Z :=
  if unavailable a t then 0 else apic_read value a.

Definition advanced_pic_timer_backend_signal_end_of_interrupt (a : apic) : list event := apic_send_eoi a.

Definition advanced_pic_timer_backend_get_local_apic_virtual_base (a : apic) (t : timer) : Z :=
  if unavailable a t then 0 else APIC_TIMER_MMIO_VIRTUAL_BASE.

End Timer.
