(* ===== verification/Power.v ===== *)
(** * Power management

    Models kernel/kernel/power/processor_sleep.c, frequency_scaling.c and
    tickless.c.  As in [Apic], readings of hardware (CPUID, the time stamp
    counter, the watched word) are arguments and what is written to it is a
    list of [event]s. *)

From S2P Require Import Prelude Cpu Pmm BuddyProofs FrameAlloc Paging Apic.
#[local] Open Scope Z_scope.

(** ** Sleeping *)

Module Sleep.

Definition PROCESSOR_SLEEP_CPUID_MONITOR_BIT : Z := Z.shiftl 1 3.

Inductive ProcessorSleepMode := PROCESSOR_SLEEP_NONE | PROCESSOR_SLEEP_HALT | PROCESSOR_SLEEP_MONITOR.

Record sleep := mk {
  processor_sleep_monitor_available : bool;
  processor_sleep_monitor_line : Z;
  processor_sleep_sleeps : Z;
  processor_sleep_skipped : Z;
  processor_sleep_halts : Z;
  processor_sleep_asleep : Z;
  processor_sleep_awake : Z;
  processor_sleep_last_wake : Z }.

(** [ecx1] is the feature word of CPUID leaf 1, [ebx5] the line size of leaf 5. *)
Definition kernel_processor_sleep_initialize (ecx1 ebx5 : Z) : sleep :=
  if Z.land ecx1 PROCESSOR_SLEEP_CPUID_MONITOR_BIT =? 0 then mk false 0 0 0 0 0 0 0
  else
    let line := Z.land ebx5 0xFFFF in
    if line =? 0 then mk false 0 0 0 0 0 0 0 else mk true line 0 0 0 0 0 0.

Definition add64 (x y : Z) : Z := u64 (x + y).
Definition sub64 (x y : Z) : Z := u64 (x - y).

Definition processor_sleep_charge_awake (now : Z) (s : sleep) : sleep :=
  if negb (processor_sleep_last_wake s =? 0) && (processor_sleep_last_wake s <? now) then
    mk (processor_sleep_monitor_available s) (processor_sleep_monitor_line s) (processor_sleep_sleeps s)
       (processor_sleep_skipped s) (processor_sleep_halts s) (processor_sleep_asleep s)
       (add64 (processor_sleep_awake s) (sub64 now (processor_sleep_last_wake s))) (processor_sleep_last_wake s)
  else s.

(** A wake-up at [after] from a sleep that began at [before]. *)
Definition woken (halted : bool) (before after : Z) (s : sleep) : sleep :=
  mk (processor_sleep_monitor_available s) (processor_sleep_monitor_line s) (processor_sleep_sleeps s ⊞ 1)
     (processor_sleep_skipped s) (if halted then processor_sleep_halts s ⊞ 1 else processor_sleep_halts s)
     (add64 (processor_sleep_asleep s) (sub64 after before)) (processor_sleep_awake s) after.

Definition processor_sleep_until_interrupt (before after : Z) (s : sleep) : sleep :=
  woken true before after (processor_sleep_charge_awake before s).

(** [watched] is [None] for NULL, else the value of the word when it is read
    after the monitor is armed. *)
Definition processor_sleep_until_write (watched : option Z) (expected before after : Z) (s : sleep)
  : ProcessorSleepMode * sleep :=
  match watched with
  | None => (PROCESSOR_SLEEP_HALT, processor_sleep_until_interrupt before after s)
  | Some value =>
      let s := processor_sleep_charge_awake before s in
      if negb (value =? expected) then
        (PROCESSOR_SLEEP_NONE,
         mk (processor_sleep_monitor_available s) (processor_sleep_monitor_line s) (processor_sleep_sleeps s)
            (processor_sleep_skipped s ⊞ 1) (processor_sleep_halts s) (processor_sleep_asleep s)
            (processor_sleep_awake s) before)
      else if negb (processor_sleep_monitor_available s) then (PROCESSOR_SLEEP_HALT, woken true before after s)
      else (PROCESSOR_SLEEP_MONITOR, woken false before after s)
  end.

Definition kernel_processor_sleep_duty_cycle_permille (s : sleep) : Z :=
  let accounted := add64 (processor_sleep_awake s) (processor_sleep_asleep s) in
  if accounted =? 0 then 1000
  else u32 (u64 (processor_sleep_awake s * 1000) / accounted).

(** *** Every cycle is charged once *)

Inductive call := UntilInterrupt (before after : Z) | UntilWrite (watched : option Z) (expected before after : Z).

Definition exec (c : call) (s : sleep) : sleep :=
  match c with
  | UntilInterrupt before after => processor_sleep_until_interrupt before after s
  | UntilWrite watched expected before after => (processor_sleep_until_write watched expected before after s).2
  end.

Definition run (cs : list call) (s : sleep) : sleep := fold_left (fun s c => exec c s) cs s.

(** The readings of the time stamp counter, which never runs backwards. *)
Definition times (c : call) : Z * Z :=
  match c with UntilInterrupt b a => (b, a) | UntilWrite _ _ b a => (b, a) end.

Fixpoint in_order (now : Z) (cs : list call) : Prop :=
  match cs with
  | [] => True
  | c :: cs => now <= (times c).1 <= (times c).2 /\ (times c).2 < 2 ^ 64 /\ in_order (times c).2 cs
  end.

(** [s] has accounted for every cycle since [start]. *)
Record accounted (start : Z) (s : sleep) : Prop := {
  ac_start : 0 < start <= processor_sleep_last_wake s;
  ac_wake : processor_sleep_last_wake s < 2 ^ 64;
  ac_asleep : 0 <= processor_sleep_asleep s;
  ac_awake : 0 <= processor_sleep_awake s;
  ac_sum : processor_sleep_awake s + processor_sleep_asleep s = processor_sleep_last_wake s - start }.

Lemma u64_small x : 0 <= x < 2 ^ 64 -> u64 x = x.
Proof. apply Z.mod_small. Qed.

Lemma woken_accounted start h before after s :
  0 < start <= before -> before <= after < 2 ^ 64 ->
  0 <= processor_sleep_asleep s -> 0 <= processor_sleep_awake s ->
  processor_sleep_awake s + processor_sleep_asleep s = before - start ->
  accounted start (woken h before after s).
Proof.
  intros. unfold woken, add64, sub64. constructor; cbn; rewrite ?(u64_small (after - before)), ?u64_small by lia; lia.
Qed.

Lemma charge_spec start now s :
  accounted start s -> processor_sleep_last_wake s <= now < 2 ^ 64 ->
  let s' := processor_sleep_charge_awake now s in
  0 <= processor_sleep_asleep s' /\ 0 <= processor_sleep_awake s' /\
  processor_sleep_awake s' + processor_sleep_asleep s' = now - start.
Proof.
  intros [Hs Hw Ha Hb Hsum] Hn. unfold processor_sleep_charge_awake, add64, sub64.
  rewrite (proj2 (Z.eqb_neq _ 0)) by lia. cbn [negb andb].
  destruct (Z.ltb_spec (processor_sleep_last_wake s) now); cbn; [|lia].
  rewrite (u64_small (now - _)), u64_small by lia. lia.
Qed.

Lemma exec_accounted start c s :
  accounted start s -> processor_sleep_last_wake s <= (times c).1 <= (times c).2 -> (times c).2 < 2 ^ 64 ->
  accounted start (exec c s) /\ processor_sleep_last_wake (exec c s) <= (times c).2.
Proof.
  intros Hs Hc Hlt. assert (0 < start <= processor_sleep_last_wake s) by apply Hs.
  destruct c as [before after|[value|] expected before after]; cbn [exec times fst snd] in *.
  - destruct (charge_spec start before s Hs ltac:(lia)) as (? & ? & ?).
    split; [apply woken_accounted; lia|cbn; lia].
  - destruct (charge_spec start before s Hs ltac:(lia)) as (? & ? & ?). cbn [processor_sleep_until_write].
    repeat case_match; cbn [snd]; (split; [|cbn; lia]); try (apply woken_accounted; lia). constructor; cbn; lia.
  - destruct (charge_spec start before s Hs ltac:(lia)) as (? & ? & ?).
    split; [apply woken_accounted; lia|cbn; lia].
Qed.

Lemma run_accounted start cs : forall s,
  accounted start s -> forall now, processor_sleep_last_wake s <= now -> in_order now cs -> accounted start (run cs s).
Proof.
  induction cs as [|c cs IH]; intros s Hs now Hn Hcs; [done|]. cbn [in_order] in Hcs. destruct Hcs as (Hc & Hlt & Hcs).
  change (run (c :: cs) s) with (run cs (exec c s)).
  destruct (exec_accounted start c s Hs ltac:(lia) Hlt) as [Hs' Hw]. by apply (IH _ Hs' (times c).2).
Qed.

(** The first call starts the account. *)
Lemma first_accounted ecx1 ebx5 c :
  let s := exec c (kernel_processor_sleep_initialize ecx1 ebx5) in
  1 <= (times c).1 <= (times c).2 -> (times c).2 < 2 ^ 64 ->
  accounted (times c).1 s /\ processor_sleep_last_wake s <= (times c).2.
Proof.
  intros s Hc Hlt.
  assert (Hz : let s := kernel_processor_sleep_initialize ecx1 ebx5 in
    processor_sleep_asleep s = 0 /\ processor_sleep_awake s = 0 /\ processor_sleep_last_wake s = 0).
  { unfold kernel_processor_sleep_initialize. repeat case_match; done. }
  unfold s. clear s. destruct (kernel_processor_sleep_initialize ecx1 ebx5) as [av li sl sk ha asl awa lw].
  cbn in Hz. destruct Hz as (-> & -> & ->).
  destruct c as [before after|[value|] expected before after]; cbn [exec times fst snd] in *;
    cbn [processor_sleep_until_write]; unfold processor_sleep_until_interrupt, processor_sleep_charge_awake;
    cbn [processor_sleep_last_wake Z.eqb negb andb processor_sleep_monitor_available].
  - split; [apply woken_accounted; cbn; lia|cbn; lia].
  - repeat case_match; cbn [snd]; (split; [|cbn; lia]); try (apply woken_accounted; cbn; lia). constructor; cbn; lia.
  - split; [apply woken_accounted; cbn; lia|cbn; lia].
Qed.

Lemma duty_cycle_range start s :
  accounted start s -> processor_sleep_last_wake s < 2 ^ 54 -> 0 <= kernel_processor_sleep_duty_cycle_permille s <= 1000.
Proof.
  intros [Hs Hw Ha Hb Hsum] Hl. unfold kernel_processor_sleep_duty_cycle_permille, add64.
  rewrite (u64_small (_ + _)) by lia.
  destruct (Z.eqb_spec (processor_sleep_awake s + processor_sleep_asleep s) 0); [lia|].
  rewrite u64_small by lia. rewrite u32_small; [split; [apply Z.div_pos; lia|apply Z.div_le_upper_bound; lia]|].
  split; [apply Z.div_pos; lia|]. apply Z.div_lt_upper_bound; lia.
Qed.

(** Whatever the processor supports and whichever way each call sleeps or
    declines to, the cycles charged as awake and as asleep add up to the time
    from the first call to the last wake-up, each cycle counted once; while the
    counter is below [2 ^ 54] the duty cycle is a fraction of a thousand. *)
Theorem sleep_time_conserved ecx1 ebx5 c cs :
  in_order 1 (c :: cs) ->
  let s := run (c :: cs) (kernel_processor_sleep_initialize ecx1 ebx5) in
  processor_sleep_awake s + processor_sleep_asleep s = processor_sleep_last_wake s - (times c).1 /\
  0 <= processor_sleep_awake s /\ 0 <= processor_sleep_asleep s /\
  (processor_sleep_last_wake s < 2 ^ 54 -> 0 <= kernel_processor_sleep_duty_cycle_permille s <= 1000).
Proof.
  intros (Hc & Hlt & Hcs). destruct (first_accounted ecx1 ebx5 c Hc Hlt) as [Hf Hw].
  change (run (c :: cs) ?s) with (run cs (exec c s)). set (s1 := exec c _) in *. clearbody s1. cbv zeta.
  pose proof (run_accounted _ cs s1 Hf (times c).2 Hw Hcs) as Hs.
  split_and!; try apply Hs. by eapply duty_cycle_range.
Qed.

Definition example_calls : list call :=
  [UntilInterrupt 100 150; UntilWrite (Some 7) 7 160 200; UntilWrite (Some 8) 7 210 210; UntilWrite None 0 220 300].

(** The hypotheses hold for four calls, one of which declines to sleep. *)
Lemma sleep_time_conserved_witness :
  in_order 1 example_calls /\
  let s := run example_calls (kernel_processor_sleep_initialize 8 64) in
  processor_sleep_awake s = 30 /\ processor_sleep_asleep s = 170 /\
  processor_sleep_awake s + processor_sleep_asleep s = processor_sleep_last_wake s - 100.
Proof.
  assert (Ho : in_order 1 example_calls) by (cbn; lia). split; [done|].
  split_and!; [reflexivity..|]. apply (sleep_time_conserved 8 64 _ _ Ho).
Defined.

End Sleep.

(** ** Frequency scaling *)

Module Frequency.

Definition FREQUENCY_SCALING_CPUID_SPEEDSTEP_BIT : Z := Z.shiftl 1 7.
Definition FREQUENCY_SCALING_PERF_CTL_MSR : Z := 0x199.
Definition FREQUENCY_SCALING_LOW_THRESHOLD_PERMILLE : Z := 100.
Definition FREQUENCY_SCALING_HIGH_THRESHOLD_PERMILLE : Z := 600.

Inductive PerformanceState := PERFORMANCE_STATE_LOW | PERFORMANCE_STATE_MEDIUM | PERFORMANCE_STATE_HIGH.

Record scaling := mk {
  frequency_scaling_available : bool;
  frequency_scaling_state : PerformanceState;
  frequency_scaling_applied : Z;
  frequency_scaling_refused : Z;
  frequency_scaling_maximum_ratio : Z }.

(** [ecx] is the feature word of CPUID leaf 1, [status] the status register. *)
Definition kernel_frequency_scaling_initialize (ecx status : Z) : scaling :=
  if Z.land ecx FREQUENCY_SCALING_CPUID_SPEEDSTEP_BIT =? 0 then mk false PERFORMANCE_STATE_HIGH 0 0 0
  else
    let ratio := Z.land (Z.shiftr status 8) 0xFF in
    if ratio =? 0 then mk false PERFORMANCE_STATE_HIGH 0 0 ratio else mk true PERFORMANCE_STATE_HIGH 0 0 ratio.

Definition kernel_frequency_scaling_govern (busy_permille : Z) (deadline_bound : bool) : PerformanceState :=
  if deadline_bound then
    if FREQUENCY_SCALING_HIGH_THRESHOLD_PERMILLE <=? busy_permille then PERFORMANCE_STATE_HIGH
    else PERFORMANCE_STATE_MEDIUM
  else if busy_permille <=? FREQUENCY_SCALING_LOW_THRESHOLD_PERMILLE then PERFORMANCE_STATE_LOW
  else if FREQUENCY_SCALING_HIGH_THRESHOLD_PERMILLE <=? busy_permille then PERFORMANCE_STATE_HIGH
  else PERFORMANCE_STATE_MEDIUM.

Definition requested_ratio (state : PerformanceState) (maximum : Z) : Z :=
  let ratio := match state with
               | PERFORMANCE_STATE_MEDIUM => u16 (maximum / 2)
               | PERFORMANCE_STATE_LOW => u16 (maximum / 4)
               | PERFORMANCE_STATE_HIGH => maximum
               end in
  if ratio =? 0 then 1 else ratio.

Definition kernel_frequency_scaling_request (state : PerformanceState) (s : scaling) : bool * scaling * list event :=
  if negb (frequency_scaling_available s) then
    (false, mk (frequency_scaling_available s) state (frequency_scaling_applied s)
               (frequency_scaling_refused s ⊞ 1) (frequency_scaling_maximum_ratio s), [])
  else
    (true, mk (frequency_scaling_available s) state (frequency_scaling_applied s ⊞ 1)
              (frequency_scaling_refused s) (frequency_scaling_maximum_ratio s),
     [WriteMsr FREQUENCY_SCALING_PERF_CTL_MSR
        (u64 (Z.shiftl (requested_ratio state (frequency_scaling_maximum_ratio s)) 8))]).

(** The three states in the order of their clocks. *)
Definition rank (p : PerformanceState) : Z :=
  match p with PERFORMANCE_STATE_LOW => 0 | PERFORMANCE_STATE_MEDIUM => 1 | PERFORMANCE_STATE_HIGH => 2 end.

(** More load never lowers the clock, and a deadline never allows the lowest. *)
Lemma govern_monotone b b' d :
  b <= b' ->
  rank (kernel_frequency_scaling_govern b d) <= rank (kernel_frequency_scaling_govern b' d) /\
  rank (kernel_frequency_scaling_govern b d) <= rank (kernel_frequency_scaling_govern b true).
Proof.
  intros Hb. unfold kernel_frequency_scaling_govern, FREQUENCY_SCALING_HIGH_THRESHOLD_PERMILLE,
    FREQUENCY_SCALING_LOW_THRESHOLD_PERMILLE. destruct d; bcase; cbn; lia.
Qed.

(** The ratio written is a ratio the processor has: at least one, at most the
    one it was found at, and in the order of the states. *)
Lemma ratio_in_range p p' m :
  0 < m < 2 ^ 8 -> rank p <= rank p' ->
  1 <= requested_ratio p m <= m /\ requested_ratio p m <= requested_ratio p' m.
Proof.
  intros Hm Hp. unfold requested_ratio, u16.
  assert (0 <= m / 4 <= m / 2 /\ m / 2 <= m) by (Z.to_euclidean_division_equations; lia).
  destruct p, p'; cbn in Hp; try lia; rewrite ?Z.mod_small by lia; bcase; lia.
Qed.

End Frequency.

(** ** Tickless operation *)

Module Tickless.
Import Sleep Apic.Apic Irq Timer.

Definition KERNEL_TICKLESS_MAX_SLEEP_MICROSECONDS : Z := 1000000.
Definition KERNEL_TICKLESS_DEFAULT_FREQUENCY_HZ : Z := 1000.

Record tickless := mk {
  tickless_permitted : bool;
  tickless_nominal_hz : Z;
  tickless_ticks_avoided : Z;
  tickless_early_wakes : Z;
  tickless_slept_microseconds : Z }.

Definition boot : tickless := mk false KERNEL_TICKLESS_DEFAULT_FREQUENCY_HZ 0 0 0.

Definition kernel_tickless_enable (no_world_instantiated : bool) (nominal_frequency_hz : Z)
  (a : apic) (t : timer) (s : tickless) : bool * timer * tickless * list event :=
  if negb no_world_instantiated then (false, t, s, [])
  else
    let hz := if negb (nominal_frequency_hz =? 0) then nominal_frequency_hz else tickless_nominal_hz s in
    let '(t, ev) := advanced_pic_timer_backend_disable a t in
    (true, t, mk true hz (tickless_ticks_avoided s) (tickless_early_wakes s) (tickless_slept_microseconds s), ev).

Definition kernel_tickless_disable (periodic_frequency_hz mask : Z) (a : apic) (i : irq) (t : timer) (s : tickless)
  : irq * timer * tickless * list event :=
  let hz := if periodic_frequency_hz =? 0 then tickless_nominal_hz s else periodic_frequency_hz in
  let '(_, i, t, ev) := advanced_pic_timer_backend_enable_periodic_mode hz mask a i t in
  (i, t, mk false hz (tickless_ticks_avoided s) (tickless_early_wakes s) (tickless_slept_microseconds s), ev).

(** [armed_value] and [remaining_value] are the current count before and after
    the sleep, [before] and [after] the time stamp counter. *)
Definition kernel_tickless_sleep (microseconds armed_value remaining_value before after : Z)
  (a : apic) (t : timer) (p : sleep) (s : tickless) : Z * timer * sleep * tickless * list event :=
  let microseconds :=
    if KERNEL_TICKLESS_MAX_SLEEP_MICROSECONDS <? microseconds then KERNEL_TICKLESS_MAX_SLEEP_MICROSECONDS
    else microseconds in
  if negb (tickless_permitted s) then (0, t, processor_sleep_until_interrupt before after p, s, [Halt])
  else
    let timer_hz := local_apic_calibrated_frequency_hz t in
    if timer_hz =? 0 then (0, t, processor_sleep_until_interrupt before after p, s, [Halt])
    else
      let '(ok, t, ev) := advanced_pic_timer_backend_arm_one_shot microseconds a t in
      if ok =? 0 then (0, t, processor_sleep_until_interrupt before after p, s, [Halt])
      else
        let armed := advanced_pic_timer_backend_read_current_count armed_value a t in
        let p := processor_sleep_until_interrupt before after p in
        let remaining := advanced_pic_timer_backend_read_current_count remaining_value a t in
        let '(t, ev') := advanced_pic_timer_backend_disable a t in
        let early := negb (remaining =? 0) && (remaining <=? armed) && negb (armed =? 0) in
        let elapsed :=
          if early then u32 (u64 ((armed ⊟ remaining) * 1000000) / timer_hz) else microseconds in
        (elapsed, t, p,
         mk (tickless_permitted s) (tickless_nominal_hz s)
            (tickless_ticks_avoided s ⊞ u32 (u64 (elapsed * tickless_nominal_hz s) / 1000000))
            (if early then tickless_early_wakes s ⊞ 1 else tickless_early_wakes s)
            (u64 (tickless_slept_microseconds s + elapsed)),
         ev ++ [Halt] ++ ev').

(** *** What a sleep claims *)

(** The count armed for a delay never stands for more than the delay, except
    for the one tick that the shortest delays get. *)
Lemma one_shot_count_spec hz us :
  0 < hz < 2 ^ 32 -> 0 <= us <= 1000000 ->
  1 <= one_shot_count hz us < 2 ^ 32 /\
  (one_shot_count hz us * 1000000 <= hz * us \/ one_shot_count hz us = 1).
Proof.
  intros Hh Hu. unfold one_shot_count. rewrite u64_small by nia.
  assert (0 <= hz * us / 1000000 < 2 ^ 32) by (split; [apply Z.div_pos; nia|apply Z.div_lt_upper_bound; nia]).
  pose proof (Z.mul_div_le (hz * us) 1000000 ltac:(lia)).
  destruct (Z.eqb_spec (hz * us / 1000000) 0); bcase; lia.
Qed.

Lemma early_elapsed hz us armed remaining :
  0 < hz < 2 ^ 32 -> 0 <= us <= 1000000 -> armed <= one_shot_count hz us -> 0 < remaining <= armed ->
  0 <= u32 (u64 ((armed ⊟ remaining) * 1000000) / hz) <= us.
Proof.
  intros Hh Hu Ha Hr. destruct (one_shot_count_spec hz us Hh Hu) as [Hc Hcount].
  rewrite sub32_small, u64_small by lia.
  assert (Hd : 0 <= (armed - remaining) * 1000000 / hz <= us).
  { split; [apply Z.div_pos; lia|]. apply Z.div_le_upper_bound; nia. }
  rewrite u32_small; lia.
Qed.

Lemma with_mode_same name m a t :
  unavailable a (with_mode name m t) = unavailable a t /\
  (forall v, advanced_pic_timer_backend_read_current_count v a (with_mode name m t) =
             advanced_pic_timer_backend_read_current_count v a t).
Proof. done. Qed.

(** A sleep never claims more time than was asked for.  When tickless
    operation is not permitted, or the timer cannot be armed, it claims nothing;
    otherwise the microseconds claimed are at most the delay (and at most a
    second), they are exactly what is added to the total and to the ticks
    avoided, and the timer is left stopped with its vector masked.  The
    hardware may wake the processor early: all that is assumed is that the
    count read after arming is not above the count programmed. *)
Theorem tickless_sleep_honest us av rv before after a t p s :
  0 <= us -> in32 (local_apic_calibrated_frequency_hz t) -> in32 (tickless_nominal_hz s) ->
  0 <= rv -> advanced_pic_timer_backend_read_current_count av a t <=
    one_shot_count (local_apic_calibrated_frequency_hz t) (Z.min us 1000000) ->
  let '(elapsed, t', p', s', ev) := kernel_tickless_sleep us av rv before after a t p s in
  p' = processor_sleep_until_interrupt before after p /\
  0 <= elapsed <= Z.min us 1000000 /\
  ((elapsed = 0 /\ s' = s /\ ev = [Halt]) \/
   (tickless_permitted s = true /\ unavailable a t = false /\
    tickless_slept_microseconds s' = u64 (tickless_slept_microseconds s + elapsed) /\
    tickless_ticks_avoided s' = tickless_ticks_avoided s ⊞ elapsed * tickless_nominal_hz s / 1000000 /\
    local_apic_periodic_mode_enabled t' = 0 /\
    exists ev', ev = ev' ++ apic_write LAPIC_REG_TIMER_INIT 0 a ++
                      apic_write LAPIC_REG_LVT_TIMER (Z.lor (Z.shiftl 1 16) 0xFE) a)).
Proof.
  intros Hus Hhz Hnom Hrv Harm. unfold kernel_tickless_sleep, KERNEL_TICKLESS_MAX_SLEEP_MICROSECONDS.
  replace (if 1000000 <? us then 1000000 else us) with (Z.min us 1000000) by (bcase; lia).
  set (d := Z.min us 1000000) in *. assert (Hd : 0 <= d <= 1000000) by (unfold d; lia).
  destruct (tickless_permitted s) eqn:Ep; cbn [negb]; [|split_and!; try done; try lia; by left].
  destruct (Z.eqb_spec (local_apic_calibrated_frequency_hz t) 0) as [|Hnz]; [split_and!; try done; try lia; by left|].
  unfold advanced_pic_timer_backend_arm_one_shot. destruct (unavailable a t) eqn:Eu.
  { cbn. split_and!; try done; try lia. by left. }
  rewrite (proj2 (Z.eqb_neq _ _)) by done. cbn [Z.eqb].
  match goal with |- context [with_mode ?n 0 t] => destruct (with_mode_same n 0 a t) as [Hu1 Hr1] end.
  set (t1 := with_mode _ 0 t) in *.
  rewrite !Hr1. unfold advanced_pic_timer_backend_disable. rewrite Hu1, Eu.
  set (armed := advanced_pic_timer_backend_read_current_count av a t) in *.
  set (rem := advanced_pic_timer_backend_read_current_count rv a t).
  assert (Hrem : 0 <= rem).
  { unfold rem, advanced_pic_timer_backend_read_current_count, apic_read. rewrite Eu.
    repeat case_match; try lia. pose proof (u32_range rv). lia. }
  set (early := negb (rem =? 0) && (rem <=? armed) && negb (armed =? 0)).
  set (el := if early then _ else _).
  assert (Hel : 0 <= el <= d).
  { unfold el. destruct early eqn:Ee; [|lia]. unfold early in Ee.
    rewrite !andb_true_iff, !negb_true_iff, !Z.eqb_neq, Z.leb_le in Ee. apply early_elapsed; lia. }
  split_and!; try done; try lia. right. cbn [tickless_slept_microseconds tickless_ticks_avoided].
  assert (0 <= el * tickless_nominal_hz s < 2 ^ 64) by nia. rewrite (u64_small (el * _)) by lia.
  rewrite (u32_small (_ / 1000000)).
  2:{ split; [apply Z.div_pos; lia|apply Z.div_lt_upper_bound; nia]. }
  split_and!; try done. eexists. rewrite app_assoc. done.
Qed.

Definition example_apic : apic := Apic.mk APIC_TIMER_MMIO_VIRTUAL_BASE false.
Definition example_timer : timer := Timer.mk String.EmptyString 0xFEE00000 1 1 0x14 62500000 0.
Definition example_sleep : sleep := Sleep.mk false 0 0 0 0 0 0 0.

(** The hypotheses hold when an interrupt ends a delay of 500 microseconds half
    way, and a quarter of a tick is avoided. *)
Lemma tickless_sleep_honest_witness :
  let '(elapsed, t', p', s', ev) :=
    kernel_tickless_sleep 500 31250 15625 1000 2000 example_apic example_timer example_sleep (mk true 1000 0 0 0) in
  elapsed = 250 /\ elapsed <= Z.min 500 1000000 /\ tickless_slept_microseconds s' = 250.
Proof.
  pose proof (tickless_sleep_honest 500 31250 15625 1000 2000 example_apic example_timer example_sleep
    (mk true 1000 0 0 0)) as H.
  destruct (kernel_tickless_sleep _ _ _ _ _ _ _ _ _) as [[[[el t'] p'] s'] ev] eqn:E.
  vm_compute in E. injection E as <- _ _ <- _. split_and!; [done| |done].
  apply H; vm_compute; done.
Defined.

End Tickless.
