(* ===== verification/Inference.v ===== *)
(** * Boot modules and inference resources

    Models arch/i386/boot/boot_module.c and kernel/kernel/ai: model_slot.c,
    tensor_arena.c and inference_budget.c.  Modules are read from the bytes the
    boot loader left, as in [Pmm.Boot]. *)

From S2P Require Import Prelude Cpu Pmm BuddyProofs BuddySpec HeapInterface.
Import Boot.

(** ** Boot modules *)

Module BootModule.

Definition MULTIBOOT_FLAG_MODULES : Z := Z.shiftl 1 3.

(** [while (length < limit && text[length] != 0)] over the bytes at [text]. *)
Fixpoint string_length_from (mem : Z -> Z) (text : Z) (limit : nat) (length : Z) : Z :=
  match limit with
  | O => length
  | S limit => if mem (text ⊞ length) =? 0 then length else string_length_from mem text limit (length + 1)
  end.

Definition boot_module_string_length (mem : Z -> Z) (text limit : Z) : Z :=
  string_length_from mem text (Z.to_nat limit) 0.

(** [suffix] is the list of its bytes, without the terminating zero. *)
Definition boot_module_ends_with (mem : Z -> Z) (text text_length : Z) (suffix : list Z) : bool :=
  let suffix_length := Z.of_nat (length suffix) in
  if text_length <? suffix_length then false
  else
    let tail := text ⊞ (text_length ⊟ suffix_length) in
    forallb (fun i => mem (tail ⊞ i) =? nth (Z.to_nat i) suffix 0) (seqZ 0 suffix_length).

Definition boot_module_count (b : boot) : Z :=
  match multiboot_info b with
  | None => 0
  | Some i =>
      if Z.land (flags i) MULTIBOOT_FLAG_MODULES =? 0 then 0
      else if mods_addr i =? 0 then 0
      else mods_count i
  end.

(** The descriptor of module [k]. *)
Definition mod_start (b : boot) (modules k : Z) : Z := le32 (bytes b) (modules ⊞ 16 * k).
Definition mod_end (b : boot) (modules k : Z) : Z := le32 (bytes b) (modules ⊞ 16 * k + 4).
Definition mod_string (b : boot) (modules k : Z) : Z := le32 (bytes b) (modules ⊞ 16 * k + 8).

(** Is module [k] the one asked for? *)
Definition candidate (b : boot) (suffix : list Z) (count modules k : Z) : bool :=
  if mod_end b modules k <=? mod_start b modules k then false
  else if negb (mod_string b modules k =? 0) then
    let name := pmm_phys_to_virt (mod_string b modules k) in
    boot_module_ends_with (bytes b) name (boot_module_string_length (bytes b) name 256) suffix
  else negb (1 <? count).

(** The loop over the modules from [k]. *)
Fixpoint find_from (b : boot) (suffix : list Z) (count modules : Z) (n : nat) (k : Z) : option (Z * Z) :=
  match n with
  | O => None
  | S n =>
      if candidate b suffix count modules k then
        Some (pmm_phys_to_virt (mod_start b modules k), mod_end b modules k ⊟ mod_start b modules k)
      else find_from b suffix count modules n (k + 1)
  end.

(** The address and the size of the module whose name ends in [suffix], which
    is at most 64 bytes long. *)
Definition boot_module_find (b : boot) (suffix : list Z) : option (Z * Z) :=
  let count := boot_module_count b in
  if count =? 0 then None
  else
    match multiboot_info b with
    | None => None
    | Some i => find_from b (take 64 suffix) count (pmm_phys_to_virt (mods_addr i)) (Z.to_nat count) 0
    end.

Lemma find_from_spec b suffix count modules n : forall k addr size,
  find_from b suffix count modules n k = Some (addr, size) ->
  exists j, k <= j < k + Z.of_nat n /\ candidate b suffix count modules j = true /\
    addr = pmm_phys_to_virt (mod_start b modules j) /\ size = mod_end b modules j ⊟ mod_start b modules j.
Proof.
  induction n as [|n IH]; intros k addr size; cbn [find_from]; [done|].
  destruct (candidate b suffix count modules k) eqn:E.
  - intros [= <- <-]. exists k. split_and!; [lia|lia|done..].
  - intros (j & Hj & Hc & ->& ->)%IH. exists j. split_and!; [lia|lia|done..].
Qed.

End BootModule.

(** ** The model slot *)

Module ModelSlot.
Import BootModule.

Definition KERNEL_MODEL_SLOT_MINIMUM_BYTES : Z := 36.
Definition KERNEL_MODEL_SLOT_MAGIC : Z := 0x4D4C504C.

(** The bytes of the suffix, in ASCII: .lplmind *)
Definition KERNEL_MODEL_SLOT_SUFFIX : list Z := [0x2E; 0x6C; 0x70; 0x6C; 0x6D; 0x69; 0x6E; 0x64].

Inductive ModelSlotState := MODEL_SLOT_EMPTY | MODEL_SLOT_MALFORMED | MODEL_SLOT_LOADED.

Record ModelSlot := mk { state : ModelSlotState; bytes_addr : Z; size : Z; magic : Z }.

Definition read_magic (mem : Z -> Z) (a : Z) : Z :=
  Z.lor (Z.lor (Z.lor (mem a) (shl32 (mem (a ⊞ 1)) 8)) (shl32 (mem (a ⊞ 2)) 16)) (shl32 (mem (a ⊞ 3)) 24).

(** The result is what is stored through [out], which is not NULL. *)
Definition kernel_model_slot_probe (b : boot) : bool * ModelSlot :=
  match boot_module_find b KERNEL_MODEL_SLOT_SUFFIX with
  | None => (false, mk MODEL_SLOT_EMPTY 0 0 0)
  | Some (a, n) =>
      if n <? KERNEL_MODEL_SLOT_MINIMUM_BYTES then (false, mk MODEL_SLOT_MALFORMED a n 0)
      else
        let magic := read_magic (bytes b) a in
        if negb (magic =? KERNEL_MODEL_SLOT_MAGIC) then (false, mk MODEL_SLOT_MALFORMED a n magic)
        else (true, mk MODEL_SLOT_LOADED a n magic)
  end.

Lemma shl_byte x k : 0 <= x < 2 ^ 8 -> 0 <= k <= 24 -> shl32 x k = x * 2 ^ k.
Proof.
  intros Hx Hk. unfold shl32. rewrite Z.shiftl_mul_pow2 by lia. apply u32_small.
  assert (0 < 2 ^ k <= 2 ^ 24) by (split; [lia|apply Z.pow_le_mono_r; lia]). nia.
Qed.

Lemma read_magic_le mem a :
  bytes_ok mem ->
  read_magic mem a = mem a + mem (a ⊞ 1) * 2 ^ 8 + mem (a ⊞ 2) * 2 ^ 16 + mem (a ⊞ 3) * 2 ^ 24.
Proof.
  intros Hm. pose proof (Hm a). pose proof (Hm (a ⊞ 1)). pose proof (Hm (a ⊞ 2)). pose proof (Hm (a ⊞ 3)).
  unfold read_magic. rewrite !shl_byte by (done || lia).
  rewrite (Z.lor_comm (mem a)), lor_low_bits by lia.
  rewrite (Z.lor_comm _ (mem (a ⊞ 2) * _)), lor_low_bits by lia.
  rewrite (Z.lor_comm _ (mem (a ⊞ 3) * _)), lor_low_bits by lia. lia.
Qed.

(** A module that was found lies in pages the memory manager withholds. *)
Lemma found_withheld b suffix addr n p :
  boot_module_find b suffix = Some (addr, n) -> bytes_ok (bytes b) -> 0 <= p -> p + 4096 < 2 ^ 32 ->
  pmm_is_boot_module_page b p = false ->
  p + 4096 <= pmm_virt_to_phys addr \/ pmm_virt_to_phys addr + n <= p.
Proof.
  intros Hf Hb Hp Hpe Hw. unfold boot_module_find, boot_module_count in Hf.
  unfold pmm_is_boot_module_page in Hw. destruct (multiboot_info b) as [i|]; [|done].
  unfold MULTIBOOT_FLAG_MODULES in Hf. destruct (Z.land (flags i) (Z.shiftl 1 3) =? 0); [done|].
  destruct (mods_addr i =? 0); [done|]. rewrite orb_false_r in Hw.
  destruct (mods_count i =? 0); [done|].
  destruct (overlaps p (mods_addr i) _); [done|].
  apply find_from_spec in Hf as (j & Hj & Hc & -> & ->). set (modules := pmm_phys_to_virt (mods_addr i)) in *.
  unfold candidate in Hc. destruct (Z.leb_spec (mod_end b modules j) (mod_start b modules j)) as [|Hlt]; [done|].
  assert (Hr : forall a, in32 (le32 (bytes b) a)).
  { intros a. unfold le32, le16. pose proof (Hb a). pose proof (Hb (a + 1)). pose proof (Hb (a + 2)).
    pose proof (Hb (a + 2 + 1)). lia. }
  pose proof (Hr (modules ⊞ 16 * j)) as Hs. pose proof (Hr (modules ⊞ 16 * j + 4)) as He.
  assert (Ho : overlaps p (mod_start b modules j) (mod_end b modules j) = false).
  { destruct (overlaps p (mod_start b modules j) (mod_end b modules j)) eqn:Eo; [|done].
    apply not_true_iff_false in Hw. destruct Hw. apply existsb_exists. exists j. split.
    - apply list_elem_of_In, elem_of_seqZ. lia.
    - unfold mod_start, mod_end in *. by rewrite (proj2 (Z.leb_gt _ _)). }
  unfold overlaps in Ho. rewrite add32_small in Ho by (unfold PAGE_SIZE; lia).
  fold (mod_start b modules j) in Hs. fold (mod_end b modules j) in He.
  rewrite (sub32_small (mod_end _ _ _)) by lia.
  assert (pmm_virt_to_phys (pmm_phys_to_virt (mod_start b modules j)) = mod_start b modules j) as ->.
  { unfold pmm_virt_to_phys, pmm_phys_to_virt, add32, sub32, u32. rewrite Zminus_mod_idemp_l.
    rewrite Z.mod_small; lia. }
  unfold PAGE_SIZE in Ho. apply andb_false_iff in Ho as [Ho%Z.ltb_ge|Ho%Z.ltb_ge]; lia.
Qed.

(** The slot is loaded exactly when a module with the suffix is there, is
    long enough for a header and begins with the bytes LPLM; and whether loaded
    or malformed, no page that the memory manager hands out at boot overlaps the
    module. *)
Theorem model_slot_sound b :
  bytes_ok (bytes b) ->
  let '(ok, slot) := kernel_model_slot_probe b in
  (ok = true <-> state slot = MODEL_SLOT_LOADED) /\
  (state slot = MODEL_SLOT_EMPTY <-> boot_module_find b KERNEL_MODEL_SLOT_SUFFIX = None) /\
  (ok = true -> 36 <= size slot /\
     bytes b (bytes_addr slot) = 0x4C /\ bytes b (bytes_addr slot ⊞ 1) = 0x50 /\
     bytes b (bytes_addr slot ⊞ 2) = 0x4C /\ bytes b (bytes_addr slot ⊞ 3) = 0x4D) /\
  (state slot <> MODEL_SLOT_EMPTY -> forall l p, initial_pages b = Some l -> p ∈ l -> 0 <= p ->
     p + 4096 <= pmm_virt_to_phys (bytes_addr slot) \/ pmm_virt_to_phys (bytes_addr slot) + size slot <= p).
Proof.
  intros Hb. unfold kernel_model_slot_probe.
  destruct (boot_module_find b KERNEL_MODEL_SLOT_SUFFIX) as [[a n]|] eqn:Ef; [|done].
  assert (Hw : forall l p, initial_pages b = Some l -> p ∈ l -> 0 <= p ->
    p + 4096 <= pmm_virt_to_phys a \/ pmm_virt_to_phys a + n <= p).
  { intros l p Hl Hp H0. unfold initial_pages in Hl. destruct (pmm_get_multiboot_mmap b) as [[base len]|]; [|done].
    destruct (map_pages b _ _ _ _) as [l0|]; cbn in Hl; [|done]. injection Hl as <-.
    apply list_elem_of_filter in Hp as [Hs _]. unfold init_skips in Hs. rewrite !orb_false_iff in Hs.
    destruct Hs as [[[_ Hm] Hlim%Z.leb_gt] _]. eapply found_withheld; try done. unfold PMM_BOOT_MAP_LIMIT in Hlim. lia. }
  destruct (Z.ltb_spec n KERNEL_MODEL_SLOT_MINIMUM_BYTES); cbn; [split_and!; done|].
  destruct (Z.eqb_spec (read_magic (bytes b) a) KERNEL_MODEL_SLOT_MAGIC) as [Hm|]; cbn; [|split_and!; done].
  split_and!; try done. intros _. split; [done|]. rewrite read_magic_le in Hm by done.
  pose proof (Hb a). pose proof (Hb (a ⊞ 1)). pose proof (Hb (a ⊞ 2)). pose proof (Hb (a ⊞ 3)).
  unfold KERNEL_MODEL_SLOT_MAGIC in Hm. lia.
Qed.

(** A loader that passed one module, m.lplmind, of 48 bytes at 2 MiB. *)
Definition example_boot : boot :=
  mkBoot (Some (mkInfo 8 1 0x1000 0 0))
    (fun a => image 0xC0001000 [0; 0; 0x20; 0; 0x30; 0; 0x20; 0; 0; 0x11; 0; 0; 0; 0; 0; 0] a
            + image 0xC0001100 (0x6D :: KERNEL_MODEL_SLOT_SUFFIX) a
            + image 0xC0200000 [0x4C; 0x50; 0x4C; 0x4D] a)
    0xC0200000.

Lemma image_range base l a : Forall (fun v => 0 <= v < 2 ^ 8) l -> 0 <= image base l a < 2 ^ 8.
Proof.
  intros Hl. unfold image. destruct (a <? base); [lia|].
  destruct (nth_in_or_default (Z.to_nat (a - base)) l 0) as [Hin| ->]; [|lia].
  rewrite Forall_forall in Hl. by apply Hl, list_elem_of_In.
Qed.

Lemma image_outside base l a : a < base \/ base + Z.of_nat (length l) <= a -> image base l a = 0.
Proof.
  intros Ha. unfold image. destruct (Z.ltb_spec a base); [done|]. apply nth_overflow. lia.
Qed.

Lemma example_boot_bytes : bytes_ok (bytes example_boot).
Proof.
  intros a. cbn [bytes example_boot].
  pose proof (image_range 0xC0001000 [0; 0; 0x20; 0; 0x30; 0; 0x20; 0; 0; 0x11; 0; 0; 0; 0; 0; 0] a
    ltac:(repeat constructor; lia)).
  pose proof (image_range 0xC0001100 (0x6D :: KERNEL_MODEL_SLOT_SUFFIX) a ltac:(repeat constructor; lia)).
  pose proof (image_range 0xC0200000 [0x4C; 0x50; 0x4C; 0x4D] a ltac:(repeat constructor; lia)).
  destruct (decide (a < 0xC0001100)).
  { rewrite (image_outside 0xC0001100), (image_outside 0xC0200000) by lia. lia. }
  rewrite (image_outside 0xC0001000) by (cbn; lia).
  destruct (decide (a < 0xC0200000)); [rewrite (image_outside 0xC0200000) by lia; lia|].
  rewrite (image_outside 0xC0001100) by (cbn; lia). lia.
Qed.

(** The hypothesis holds for that loader, and its module is loaded. *)
Lemma model_slot_sound_witness :
  exists slot, kernel_model_slot_probe example_boot = (true, slot) /\ size slot = 48 /\
    state slot = MODEL_SLOT_LOADED /\ bytes example_boot (bytes_addr slot) = 0x4C.
Proof.
  pose proof (model_slot_sound example_boot example_boot_bytes) as H.
  destruct (kernel_model_slot_probe example_boot) as [ok slot] eqn:E. exists slot.
  assert (ok = true /\ size slot = 48) as [-> Hs] by (vm_compute in E; by injection E as <- <-).
  destruct H as (H1 & _ & H2 & _). split_and!; [done..|by apply H1|by apply H2].
Defined.

End ModelSlot.

(** ** Tensor arena *)

Module TensorArena.

Record tensor := mk { tensor_arena_base : Z; tensor_arena_size : Z; tensor_arena_high_water : Z }.

Definition boot : tensor := mk 0 0 0.

Definition kernel_tensor_arena_initialize {H} `{HeapOps H} (n : Z) (h : H) (s : tensor)
  : option (bool * H * tensor) :=
  if n =? 0 then Some (false, h, s)
  else if negb (tensor_arena_base s =? 0) then Some (n <=? tensor_arena_size s, h, s)
  else
    '(block, h) ← kmalloc n h;
    if block =? 0 then Some (false, h, s) else Some (true, h, mk block n 0).

Definition kernel_tensor_arena_release {H} `{HeapOps H} (h : H) (s : tensor) : option (H * tensor) :=
  if tensor_arena_base s =? 0 then Some (h, s)
  else h ← kfree (tensor_arena_base s) h; Some (h, mk 0 0 (tensor_arena_high_water s)).

Definition kernel_tensor_arena_record_used (n : Z) (s : tensor) : tensor :=
  if tensor_arena_high_water s <? n then mk (tensor_arena_base s) (tensor_arena_size s) n else s.

(** The arena as a client of the heap: it owns its block while it is ready. *)
Definition holds {H} `{HeapLaws H} (h : H) (L : list region) (s : tensor) : Prop :=
  if tensor_arena_base s =? 0 then heap_inv h L
  else heap_inv h ((tensor_arena_base s, tensor_arena_size s) :: L).

Lemma initialize_holds {H} `{HeapLaws H} (h : H) L s n :
  holds h L s -> 0 <= n <= heap_limit H ->
  exists r h' s', kernel_tensor_arena_initialize n h s = Some (r, h', s') /\ holds h' L s' /\
    (r = true -> tensor_arena_base s' <> 0 /\ n <= tensor_arena_size s').
Proof.
  intros Hh Hn. unfold kernel_tensor_arena_initialize.
  destruct (Z.eqb_spec n 0); [by eexists _, _, _|].
  unfold holds in Hh. destruct (Z.eqb_spec (tensor_arena_base s) 0) as [Hb|Hb]; cbn [negb].
  - destruct (heap_kmalloc h L n Hh ltac:(lia)) as (p & h' & -> & Hp). cbn.
    destruct (Z.eqb_spec p 0) as [|Hp0]; eexists _, _, _; (split; [done|]).
    + split; [|done]. unfold holds. by rewrite Hb.
    + cbn. split; [|lia]. unfold holds. cbn. by rewrite (proj2 (Z.eqb_neq _ _)).
  - eexists _, _, _. split; [done|]. split; [unfold holds; by rewrite (proj2 (Z.eqb_neq _ _))|].
    intros Hr%Z.leb_le. done.
Qed.

Lemma release_holds {H} `{HeapLaws H} (h : H) L s :
  holds h L s ->
  exists h' s', kernel_tensor_arena_release h s = Some (h', s') /\ holds h' L s' /\ tensor_arena_base s' = 0.
Proof.
  unfold holds, kernel_tensor_arena_release. intros Hh. destruct (Z.eqb_spec (tensor_arena_base s) 0) as [Hb|Hb].
  - eexists _, _. split; [done|]. by rewrite Hb.
  - destruct (heap_kfree h [] L (tensor_arena_base s) (tensor_arena_size s) Hh) as (h' & -> & Hh').
    eexists _, _. by split.
Qed.

End TensorArena.

(** ** Inference budget *)

Module Budget.

Record budget := mk {
  inference_budget_granted : Z;
  inference_budget_remaining : Z;
  inference_budget_denied : Z }.

Definition boot : budget := mk 0 0 0.

Definition kernel_inference_budget_open (tokens : Z) (s : budget) : budget :=
  mk tokens tokens (inference_budget_denied s).

Definition kernel_inference_budget_claim (s : budget) : bool * budget :=
  if inference_budget_remaining s =? 0 then
    (false, mk (inference_budget_granted s) (inference_budget_remaining s) (inference_budget_denied s ⊞ 1))
  else (true, mk (inference_budget_granted s) (inference_budget_remaining s ⊟ 1) (inference_budget_denied s)).

Definition kernel_inference_budget_spent (s : budget) : Z :=
  inference_budget_granted s ⊟ inference_budget_remaining s.

Definition kernel_inference_budget_concluding (s : budget) : bool :=
  if inference_budget_granted s =? 0 then true
  else inference_budget_remaining s ⊠ 10 <=? inference_budget_granted s.

(** [n] claims in a row: how many were granted. *)
Fixpoint claims (n : nat) (s : budget) : Z * budget :=
  match n with
  | O => (0, s)
  | S n => let '(b, s) := kernel_inference_budget_claim s in
           let '(k, s) := claims n s in (Z.b2z b + k, s)
  end.

Lemma claims_spec n : forall g r d,
  0 <= r <= g -> g < 2 ^ 32 ->
  exists d', claims n (mk g r d) = (Z.min (Z.of_nat n) r, mk g (r - Z.min (Z.of_nat n) r) d').
Proof.
  induction n as [|n IH]; intros g r d Hr Hg; [exists d; cbn; f_equal; [lia|f_equal; lia]|].
  cbn [claims]. unfold kernel_inference_budget_claim. cbn [inference_budget_remaining inference_budget_granted inference_budget_denied].
  destruct (Z.eqb_spec r 0) as [->|].
  - destruct (IH g 0 (d ⊞ 1) Hr Hg) as [d' ->]. exists d'. f_equal; [cbn; lia|f_equal; lia].
  - rewrite sub32_small by lia. destruct (IH g (r - 1) d ltac:(lia) Hg) as [d' ->]. exists d'.
    f_equal; [cbn; lia|f_equal; lia].
Qed.

(** A budget grants exactly the tokens it was opened with, and tells that
    it is concluding exactly in its last tenth, as long as it is below a tenth
    of [2 ^ 32]. *)
Theorem budget_exact s g n :
  0 <= g < 2 ^ 32 ->
  let '(k, s') := claims n (kernel_inference_budget_open g s) in
  k = Z.min (Z.of_nat n) g /\ kernel_inference_budget_spent s' = k /\
  (g * 10 < 2 ^ 32 -> kernel_inference_budget_concluding s' = (10 * (g - k) <=? g)).
Proof.
  intros Hg. unfold kernel_inference_budget_open.
  destruct (claims_spec n g g (inference_budget_denied s) ltac:(lia) ltac:(lia)) as [d' ->].
  unfold kernel_inference_budget_spent, kernel_inference_budget_concluding.
  cbn [inference_budget_granted inference_budget_remaining].
  set (k := Z.min (Z.of_nat n) g). assert (0 <= k <= g) by lia. split_and!; [done|rewrite sub32_small; lia|].
  intros Hlt. rewrite mul32_small by lia. destruct (Z.eqb_spec g 0) as [Hz|]; bcase; lia || done.
Qed.

(** The hypotheses hold for a budget of nine tokens, all of them claimed. *)
Lemma budget_exact_witness :
  let '(k, s') := claims 9 (kernel_inference_budget_open 9 boot) in
  k = 9 /\ kernel_inference_budget_concluding s' = true.
Proof.
  pose proof (budget_exact boot 9 9 ltac:(lia)) as H. destruct (claims 9 _) as [k s'].
  destruct H as (-> & _ & H). split; [done|]. by rewrite H.
Defined.

(** The test for the last tenth wraps: a budget of 429496730 tokens is
    concluding before the first one is spent. *)
Lemma budget_concluding_wraps s :
  kernel_inference_budget_concluding (kernel_inference_budget_open 429496730 s) = true.
Proof. reflexivity. Qed.

End Budget.
