(* ===== verification/Tlsf.v ===== *)
(** * The two-level segregated fit allocator

    Models kernel/kernel/memory/tlsf.c.  Memory is addressed by words: the
    field of a block header at offset [k] is the entry [b + k] of [mem].  The
    two readings of the time stamp counter that bracket an operation are
    arguments.  [None] is an access outside the table of list heads. *)

From S2P Require Import Prelude.

Definition TLSF_SLI_LOG2 : Z := 2.
Definition TLSF_SLI_COUNT : Z := 4.
Definition TLSF_FLI_COUNT : Z := 16.
Definition TLSF_MIN_BLOCK_SIZE : Z := 16.
Definition TLSF_MAX_BLOCK_SIZE : Z := 2 ^ 16 - 1.
Definition TLSF_ALIGN : Z := 8.
Definition TLSF_ALIGN_MASK : Z := 7.
Definition TLSF_BLOCK_FREE_BIT : Z := 1.
Definition TLSF_BLOCK_PREV_FREE_BIT : Z := 2.
Definition TLSF_BLOCK_FLAG_MASK : Z := 3.
Definition TLSF_BLOCK_OVERHEAD : Z := 8.

#[export] Hint Unfold TLSF_SLI_LOG2 TLSF_SLI_COUNT TLSF_FLI_COUNT TLSF_MIN_BLOCK_SIZE
  TLSF_MAX_BLOCK_SIZE TLSF_ALIGN TLSF_ALIGN_MASK TLSF_BLOCK_FREE_BIT TLSF_BLOCK_PREV_FREE_BIT
  TLSF_BLOCK_FLAG_MASK TLSF_BLOCK_OVERHEAD : consts.

(** The control structure and the memory of the pool.  The head of the list
    of class [(fl, sl)] is entry [4 * fl + sl] of [free_lists]. *)
Record tlsf := mk {
  mem : zmap;
  fl_bitmap : Z;
  sl_bitmap : zmap;
  free_lists : zmap;
  pool_start : Z;
  pool_end : Z;
  pool_size : Z;
  free_bytes : Z;
  alloc_count : Z;
  free_op_count : Z;
  failed_alloc_count : Z;
  wcet_alloc_cycles : Z;
  wcet_free_cycles : Z;
  initialized : bool }.

Definition with_mem (f : zmap -> zmap) (s : tlsf) : tlsf :=
  mk (f (mem s)) (fl_bitmap s) (sl_bitmap s) (free_lists s) (pool_start s) (pool_end s)
     (pool_size s) (free_bytes s) (alloc_count s) (free_op_count s) (failed_alloc_count s)
     (wcet_alloc_cycles s) (wcet_free_cycles s) (initialized s).

Definition with_lists (fl : Z) (sl heads : zmap) (s : tlsf) : tlsf :=
  mk (mem s) fl sl heads (pool_start s) (pool_end s)
     (pool_size s) (free_bytes s) (alloc_count s) (free_op_count s) (failed_alloc_count s)
     (wcet_alloc_cycles s) (wcet_free_cycles s) (initialized s).

Definition with_free_bytes (n : Z) (s : tlsf) : tlsf :=
  mk (mem s) (fl_bitmap s) (sl_bitmap s) (free_lists s) (pool_start s) (pool_end s)
     (pool_size s) n (alloc_count s) (free_op_count s) (failed_alloc_count s)
     (wcet_alloc_cycles s) (wcet_free_cycles s) (initialized s).

Definition count_failed (s : tlsf) : tlsf :=
  mk (mem s) (fl_bitmap s) (sl_bitmap s) (free_lists s) (pool_start s) (pool_end s)
     (pool_size s) (free_bytes s) (alloc_count s) (free_op_count s) (failed_alloc_count s ⊞ 1)
     (wcet_alloc_cycles s) (wcet_free_cycles s) (initialized s).

Definition count_alloc (cycles : Z) (s : tlsf) : tlsf :=
  mk (mem s) (fl_bitmap s) (sl_bitmap s) (free_lists s) (pool_start s) (pool_end s)
     (pool_size s) (free_bytes s) (alloc_count s ⊞ 1) (free_op_count s) (failed_alloc_count s)
     (if wcet_alloc_cycles s <? cycles then cycles else wcet_alloc_cycles s)
     (wcet_free_cycles s) (initialized s).

Definition count_free (cycles : Z) (s : tlsf) : tlsf :=
  mk (mem s) (fl_bitmap s) (sl_bitmap s) (free_lists s) (pool_start s) (pool_end s)
     (pool_size s) (free_bytes s) (alloc_count s) (free_op_count s ⊞ 1) (failed_alloc_count s)
     (wcet_alloc_cycles s)
     (if wcet_free_cycles s <? cycles then cycles else wcet_free_cycles s) (initialized s).

(** ** Bit scans *)

Definition tlsf_clz (v : Z) : Z := if v =? 0 then 32 else 31 - Z.log2 v.

Fixpoint trailing_zeros (n : nat) (i v : Z) : Z :=
  match n with
  | O => 32
  | S n => if Z.testbit v i then i else trailing_zeros n (i + 1) v
  end.

Definition tlsf_ffs (v : Z) : Z := trailing_zeros 32 0 v.

Definition tlsf_log2_floor (v : Z) : Z := 31 ⊟ tlsf_clz v.

(** ** Block headers *)

Definition prev_phys (b : Z) : Z := b + 4.
Definition free_prev (b : Z) : Z := b + 8.
Definition free_next (b : Z) : Z := b + 12.

Definition block_get_size (b : Z) (m : zmap) : Z := Z.land (zget m b) (not32 TLSF_BLOCK_FLAG_MASK).

Definition block_set_size (b sz : Z) (m : zmap) : zmap :=
  <[b := Z.lor sz (Z.land (zget m b) TLSF_BLOCK_FLAG_MASK)]> m.

Definition block_is_free (b : Z) (m : zmap) : bool :=
  negb (Z.land (zget m b) TLSF_BLOCK_FREE_BIT =? 0).

Definition block_set_free (b : Z) (m : zmap) : zmap :=
  <[b := Z.lor (zget m b) TLSF_BLOCK_FREE_BIT]> m.

Definition block_set_used (b : Z) (m : zmap) : zmap :=
  <[b := Z.land (zget m b) (not32 TLSF_BLOCK_FREE_BIT)]> m.

Definition block_is_prev_free (b : Z) (m : zmap) : bool :=
  negb (Z.land (zget m b) TLSF_BLOCK_PREV_FREE_BIT =? 0).

Definition block_set_prev_free (b : Z) (m : zmap) : zmap :=
  <[b := Z.lor (zget m b) TLSF_BLOCK_PREV_FREE_BIT]> m.

Definition block_set_prev_used (b : Z) (m : zmap) : zmap :=
  <[b := Z.land (zget m b) (not32 TLSF_BLOCK_PREV_FREE_BIT)]> m.

Definition block_to_ptr (b : Z) : Z := b ⊞ TLSF_BLOCK_OVERHEAD.
Definition ptr_to_block (ptr : Z) : Z := ptr ⊟ TLSF_BLOCK_OVERHEAD.

Definition block_next_phys (b : Z) (m : zmap) : Z := block_to_ptr b ⊞ block_get_size b m.

Definition block_is_sentinel (b : Z) (m : zmap) : bool := block_get_size b m =? 0.

(** ** Mapping a size to its class *)

Definition mapping_insert (size : Z) : Z * Z :=
  if size <? 2 ^ (TLSF_SLI_LOG2 + 1) then
    let sl := size / (TLSF_MIN_BLOCK_SIZE / TLSF_SLI_COUNT) in
    (0, if TLSF_SLI_COUNT <=? sl then TLSF_SLI_COUNT - 1 else sl)
  else
    let fl := tlsf_log2_floor size in
    let sl := Z.lxor (Z.shiftr size (fl ⊟ TLSF_SLI_LOG2)) (2 ^ TLSF_SLI_LOG2) in
    if TLSF_FLI_COUNT <=? fl then (TLSF_FLI_COUNT - 1, TLSF_SLI_COUNT - 1) else (fl, sl).

Definition mapping_search (size : Z) : Z * Z :=
  let size :=
    if 2 ^ (TLSF_SLI_LOG2 + 1) <=? size
    then size ⊞ (shl32 1 (tlsf_log2_floor size ⊟ TLSF_SLI_LOG2) ⊟ 1)
    else size in
  mapping_insert size.

(** ** Free lists *)

Definition list_index (fl sl : Z) : Z := 4 * fl + sl.

Definition free_list_remove (block : Z) (s : tlsf) : tlsf :=
  let prev := zget (mem s) (free_prev block) in
  let next := zget (mem s) (free_next block) in
  let m := if next =? 0 then mem s else <[free_prev next := prev]> (mem s) in
  let m := if prev =? 0 then m else <[free_next prev := next]> m in
  let '(fl, sl) := mapping_insert (block_get_size block m) in
  let s := with_mem (fun _ => m) s in
  if zget (free_lists s) (list_index fl sl) =? block then
    let heads := <[list_index fl sl := next]> (free_lists s) in
    if next =? 0 then
      let sl_map := Z.land (zget (sl_bitmap s) fl) (not32 (shl32 1 sl)) in
      with_lists
        (if sl_map =? 0 then Z.land (fl_bitmap s) (not32 (shl32 1 fl)) else fl_bitmap s)
        (<[fl := sl_map]> (sl_bitmap s)) heads s
    else with_lists (fl_bitmap s) (sl_bitmap s) heads s
  else s.

Definition free_list_insert (block : Z) (s : tlsf) : tlsf :=
  let '(fl, sl) := mapping_insert (block_get_size block (mem s)) in
  let head := zget (free_lists s) (list_index fl sl) in
  let m := <[free_next block := head]> (<[free_prev block := 0]> (mem s)) in
  let m := if head =? 0 then m else <[free_prev head := block]> m in
  with_lists
    (Z.lor (fl_bitmap s) (shl32 1 fl))
    (<[fl := Z.lor (zget (sl_bitmap s) fl) (shl32 1 sl)]> (sl_bitmap s))
    (<[list_index fl sl := block]> (free_lists s))
    (with_mem (fun _ => m) s).

(** The head of the first non-empty class from [(fl, sl)] on, 0 for none. *)
Definition find_suitable_block (fl sl : Z) (s : tlsf) : option Z :=
  let sl_map := Z.land (zget (sl_bitmap s) fl) (shl32 (2 ^ 32 - 1) sl) in
  let head fl sl_map :=
    let sl := tlsf_ffs sl_map in
    if (fl <? TLSF_FLI_COUNT) && (sl <? TLSF_SLI_COUNT)
    then Some (zget (free_lists s) (list_index fl sl)) else None in
  if sl_map =? 0 then
    let fl_map := Z.land (fl_bitmap s) (shl32 (2 ^ 32 - 1) (fl ⊞ 1)) in
    if fl_map =? 0 then Some 0
    else let fl := tlsf_ffs fl_map in head fl (zget (sl_bitmap s) fl)
  else head fl sl_map.

(** ** Splitting and absorbing *)

Definition block_split (block size : Z) (m : zmap) : Z * zmap :=
  let remaining := (block_get_size block m ⊟ size) ⊟ TLSF_BLOCK_OVERHEAD in
  let rest := block_to_ptr block ⊞ size in
  let m := <[rest := 0]> m in
  let m := block_set_size rest remaining m in
  let m := <[prev_phys rest := block]> m in
  let m := block_set_size block size m in
  let next := block_next_phys rest m in
  let m := if block_is_sentinel next m then m else <[prev_phys next := rest]> m in
  (rest, m).

Definition block_absorb_next (block next : Z) (m : zmap) : zmap :=
  let new_size := (block_get_size block m ⊞ TLSF_BLOCK_OVERHEAD) ⊞ block_get_size next m in
  let m := block_set_size block new_size m in
  let next_next := block_next_phys block m in
  if block_is_sentinel next_next m then m else <[prev_phys next_next := block]> m.

(** ** Operations *)

Definition kernel_tlsf_initialize (buffer size : Z) (s : tlsf) : bool * tlsf :=
  if (buffer =? 0) || (size <? TLSF_BLOCK_OVERHEAD + TLSF_MIN_BLOCK_SIZE + TLSF_BLOCK_OVERHEAD)
  then (false, s)
  else
    let '(buffer, size) :=
      if Z.land buffer TLSF_ALIGN_MASK =? 0 then (buffer, size)
      else
        let aligned := Z.land (buffer ⊞ TLSF_ALIGN_MASK) (not32 TLSF_ALIGN_MASK) in
        (aligned, size ⊟ (aligned ⊟ buffer)) in
    let pool_end := buffer ⊞ size in
    let sentinel := pool_end ⊟ TLSF_BLOCK_OVERHEAD in
    let usable := (size ⊟ TLSF_BLOCK_OVERHEAD) ⊟ TLSF_BLOCK_OVERHEAD in
    let first := buffer in
    let m := <[prev_phys sentinel := 0]> (<[sentinel := 0]> (mem s)) in
    let m := block_set_free first (block_set_size first usable (<[first := 0]> m)) in
    let m := <[free_next first := 0]> (<[free_prev first := 0]> (<[prev_phys first := 0]> m)) in
    let m := <[prev_phys sentinel := first]> m in
    let s := free_list_insert first (mk m 0 ∅ ∅ buffer pool_end size 0 0 0 0 0 0 false) in
    (true, mk (mem s) (fl_bitmap s) (sl_bitmap s) (free_lists s) buffer pool_end size usable
              0 0 0 0 0 true).

Definition kernel_tlsf_alloc (t0 t1 request_size : Z) (s : tlsf) : option (Z * tlsf) :=
  if negb (initialized s) || (request_size =? 0) then Some (0, s)
  else if TLSF_MAX_BLOCK_SIZE <? request_size then Some (0, count_failed s)
  else
    let size := if request_size <? TLSF_MIN_BLOCK_SIZE then TLSF_MIN_BLOCK_SIZE else request_size in
    let size := round_up size TLSF_ALIGN in
    let '(fl, sl) := mapping_search size in
    block ← find_suitable_block fl sl s;
    if block =? 0 then Some (0, count_failed s)
    else
      let s := free_list_remove block s in
      let bsize := block_get_size block (mem s) in
      let s :=
        if (size ⊞ TLSF_BLOCK_OVERHEAD) ⊞ TLSF_MIN_BLOCK_SIZE <=? bsize then
          let '(rest, m) := block_split block size (mem s) in
          let s := with_mem (fun _ => block_set_prev_used rest (block_set_free rest m)) s in
          let s := free_list_insert rest s in
          with_free_bytes (free_bytes s ⊟ (size ⊞ TLSF_BLOCK_OVERHEAD)) s
        else with_free_bytes (free_bytes s ⊟ bsize) s in
      let s := with_mem (block_set_used block) s in
      let next := block_next_phys block (mem s) in
      let s := if block_is_sentinel next (mem s) then s else with_mem (block_set_prev_used next) s in
      Some (block_to_ptr block, count_alloc (t1 ⊟ t0) s).

Definition kernel_tlsf_free (t0 t1 ptr : Z) (s : tlsf) : tlsf :=
  if (ptr =? 0) || negb (initialized s) then s
  else
    let block := ptr_to_block ptr in
    let added_free_bytes := block_get_size block (mem s) in
    let next := block_next_phys block (mem s) in
    let '(added_free_bytes, s) :=
      if negb (block_is_sentinel next (mem s)) && block_is_free next (mem s) then
        let s := free_list_remove next s in
        (added_free_bytes ⊞ TLSF_BLOCK_OVERHEAD, with_mem (block_absorb_next block next) s)
      else (added_free_bytes, s) in
    let prev := zget (mem s) (prev_phys block) in
    let '(block, added_free_bytes, s) :=
      if block_is_prev_free block (mem s) && negb (prev =? 0) && block_is_free prev (mem s) then
        let s := free_list_remove prev s in
        (prev, added_free_bytes ⊞ TLSF_BLOCK_OVERHEAD, with_mem (block_absorb_next prev block) s)
      else (block, added_free_bytes, s) in
    let s := with_mem (block_set_free block) s in
    let s := free_list_insert block s in
    let s := with_free_bytes (free_bytes s ⊞ added_free_bytes) s in
    let next_after := block_next_phys block (mem s) in
    let s := if block_is_sentinel next_after (mem s) then s
             else with_mem (block_set_prev_free next_after) s in
    count_free (t1 ⊟ t0) s.

Definition kernel_tlsf_owns (ptr : Z) (s : tlsf) : bool :=
  if (ptr =? 0) || negb (initialized s) then false
  else (pool_start s <=? ptr) && (ptr <? pool_end s).
