(* ===== verification/Heap.v ===== *)
(** * The kernel heap

    Models kernel/kernel/memory/heap.c in both profiles: [Client] serves
    requests from the slab caches, the TLSF pool, the virtual memory manager
    and a first-fit list, in this order; [Server] from the virtual memory
    manager, the size classes of its domains and a first-fit list that grows
    by frames.  All parts share the memory of the frame allocator, addressed
    through the direct map. *)

From S2P Require Import Prelude Cpu Pmm FrameAlloc Paging Vmm HeapInterface Slab Tlsf.

Definition KERNEL_HEAP_ALIGNMENT : Z := 8.
Definition KERNEL_HEAP_BLOCK_FLAG_FREE : Z := 0x01.
Definition KERNEL_HEAP_BLOCK_FLAG_BIG : Z := 0x02.
Definition KERNEL_HEAP_BLOCK_FLAG_SC : Z := 0x04.
Definition KERNEL_HEAP_BLOCK_FLAG_VMM : Z := 0x08.
Definition KERNEL_HEAP_BLOCK_FLAG_SENS : Z := 0x10.
Definition KERNEL_HEAP_BLOCK_FLAG_SLAB : Z := 0x20.
Definition KERNEL_HEAP_BLOCK_FLAG_TLSF : Z := 0x40.
Definition KERNEL_HEAP_MIN_SPLIT : Z := 32.
Definition KERNEL_HEAP_HEADER_MAGIC : Z := 0x4C50.
Definition HEADER_SIZE : Z := 16.

(** ** The header in front of every block

    [KernelHeapBlock_t] is four words: size; magic, flags and order; reserved
    and canary; next. *)

Definition field (lo n w : Z) : Z := Z.land (Z.shiftr w lo) (Z.ones n).
Definition set_field (lo n v w : Z) : Z := Z.lor (Z.ldiff w (Z.shiftl (Z.ones n) lo)) (Z.shiftl v lo).

Module Header.
Section fields.
Context (b : Z).
Definition size (m : zmap) : Z := zget m b.
Definition magic (m : zmap) : Z := field 0 16 (zget m (b ⊞ 4)).
Definition flags (m : zmap) : Z := field 16 8 (zget m (b ⊞ 4)).
Definition order (m : zmap) : Z := field 24 8 (zget m (b ⊞ 4)).
Definition reserved (m : zmap) : Z := field 0 16 (zget m (b ⊞ 8)).
Definition canary (m : zmap) : Z := field 16 16 (zget m (b ⊞ 8)).
Definition next (m : zmap) : Z := zget m (b ⊞ 12).

Definition set_size (v : Z) (m : zmap) : zmap := <[b := v]> m.
Definition set_magic (v : Z) (m : zmap) : zmap := <[b ⊞ 4 := set_field 0 16 v (zget m (b ⊞ 4))]> m.
Definition set_flags (v : Z) (m : zmap) : zmap := <[b ⊞ 4 := set_field 16 8 v (zget m (b ⊞ 4))]> m.
Definition set_order (v : Z) (m : zmap) : zmap := <[b ⊞ 4 := set_field 24 8 v (zget m (b ⊞ 4))]> m.
Definition set_reserved (v : Z) (m : zmap) : zmap := <[b ⊞ 8 := set_field 0 16 v (zget m (b ⊞ 8))]> m.
Definition set_canary (v : Z) (m : zmap) : zmap := <[b ⊞ 8 := set_field 16 16 v (zget m (b ⊞ 8))]> m.
Definition set_next (v : Z) (m : zmap) : zmap := <[b ⊞ 12 := v]> m.
End fields.
End Header.

(** [(uint16_t) ((0xCAFE ^ size) & 0xFFFF)] *)
Definition canary_of (size : Z) : Z := u16 (Z.land (Z.lxor 0xCAFE size) 0xFFFF).

(** A test of flag bits. *)
Definition has (flags bit : Z) : bool := negb (Z.land flags bit =? 0).

(** ** What both profiles share *)

Record common (A : Type) := mkCommon {
  kernel_heap_free_list : Z;
  kernel_heap_small_free_blocks : Z;
  kernel_heap_small_free_bytes : Z;
  kernel_heap_large_allocation_count : Z;
  kernel_heap_rejected_free_count : Z;
  kernel_heap_double_free_count : Z;
  kernel_heap_initialized : bool;
  vm : vmm A }.
Arguments mkCommon {A}.
Arguments kernel_heap_free_list {A}.
Arguments kernel_heap_small_free_blocks {A}.
Arguments kernel_heap_small_free_bytes {A}.
Arguments kernel_heap_large_allocation_count {A}.
Arguments kernel_heap_rejected_free_count {A}.
Arguments kernel_heap_double_free_count {A}.
Arguments kernel_heap_initialized {A}.
Arguments vm {A}.

Section common.
Context {A : Type} `{FrameAllocator A}.
Abbreviation common := (common A).

Definition frames_of (h : common) : A := frames_state (pages (vm h)).
Definition memory (h : common) : zmap := fa_mem (frames_of h).

Definition with_vm (v : vmm A) (h : common) : common :=
  mkCommon (kernel_heap_free_list h) (kernel_heap_small_free_blocks h) (kernel_heap_small_free_bytes h)
    (kernel_heap_large_allocation_count h) (kernel_heap_rejected_free_count h) (kernel_heap_double_free_count h)
    (kernel_heap_initialized h) v.

Definition with_allocator (a : A) (h : common) : common :=
  with_vm (with_pages (with_frames a (pages (vm h))) (vm h)) h.

Definition with_memory (f : zmap -> zmap) (h : common) : common :=
  with_allocator (fa_set_mem (f (memory h)) (frames_of h)) h.

Definition with_list (head blocks bytes : Z) (h : common) : common :=
  mkCommon head blocks bytes (kernel_heap_large_allocation_count h) (kernel_heap_rejected_free_count h)
    (kernel_heap_double_free_count h) (kernel_heap_initialized h) (vm h).

Definition with_large (n : Z) (h : common) : common :=
  mkCommon (kernel_heap_free_list h) (kernel_heap_small_free_blocks h) (kernel_heap_small_free_bytes h)
    n (kernel_heap_rejected_free_count h) (kernel_heap_double_free_count h) (kernel_heap_initialized h) (vm h).

Definition with_rejected (r d : Z) (h : common) : common :=
  mkCommon (kernel_heap_free_list h) (kernel_heap_small_free_blocks h) (kernel_heap_small_free_bytes h)
    (kernel_heap_large_allocation_count h) r d (kernel_heap_initialized h) (vm h).

Definition kernel_heap_align_up (value align : Z) : Z := round_up value align.
Definition kernel_heap_virt_to_phys (virt : Z) : Z := virt ⊟ KERNEL_VIRTUAL_BASE.
Definition kernel_heap_phys_to_virt (phys : Z) : Z := phys ⊞ KERNEL_VIRTUAL_BASE.

(** Walks over the free list have as much fuel as there are blocks. *)
Definition walk_fuel (h : common) : nat := S (Z.to_nat (kernel_heap_small_free_blocks h)).

(** [while (current->next && current->next < block) current = current->next;] *)
Fixpoint insert_walk (fuel : nat) (block current : Z) (m : zmap) : option Z :=
  match fuel with
  | O => None
  | S fuel =>
      let next := Header.next current m in
      if negb (next =? 0) && (next <? block) then insert_walk fuel block next m else Some current
  end.

Definition kernel_heap_add_free_block (block : Z) (h : common) : option common :=
  let h := with_memory (Header.set_magic block KERNEL_HEAP_HEADER_MAGIC) h in
  let h := with_memory (Header.set_flags block KERNEL_HEAP_BLOCK_FLAG_FREE) h in
  let h := with_memory (Header.set_order block 0) h in
  '(head, h) ←
    if (kernel_heap_free_list h =? 0) || (block <? kernel_heap_free_list h) then
      Some (block, with_memory (Header.set_next block (kernel_heap_free_list h)) h)
    else
      current ← insert_walk (walk_fuel h) block (kernel_heap_free_list h) (memory h);
      let h := with_memory (Header.set_next block (Header.next current (memory h))) h in
      Some (kernel_heap_free_list h, with_memory (Header.set_next current block) h);
  Some (with_list head (kernel_heap_small_free_blocks h ⊞ 1)
          (kernel_heap_small_free_bytes h ⊞ Header.size block (memory h)) h).

Definition kernel_heap_merge_adjacent_blocks (left : Z) (h : common) : bool * common :=
  let m := memory h in
  if (left =? 0) || (Header.next left m =? 0) then (false, h)
  else
    let left_end := left ⊞ Header.size left m in
    if negb (left_end =? Header.next left m) then (false, h)
    else
      let h := with_memory (Header.set_size left (Header.size left m ⊞ Header.size (Header.next left m) m)) h in
      let h := with_memory (Header.set_next left (Header.next (Header.next left (memory h)) (memory h))) h in
      (true, with_list (kernel_heap_free_list h) (kernel_heap_small_free_blocks h ⊟ 1)
               (kernel_heap_small_free_bytes h) h).

(** [while (kernel_heap_merge_adjacent_blocks(block)) {}] *)
Fixpoint coalesce_loop (fuel : nat) (block : Z) (h : common) : option common :=
  match fuel with
  | O => None
  | S fuel =>
      let '(merged, h) := kernel_heap_merge_adjacent_blocks block h in
      if merged then coalesce_loop fuel block h else Some h
  end.

(** [while (current && current != block)]: the block before [block]. *)
Fixpoint previous_walk (fuel : nat) (block prev current : Z) (m : zmap) : option Z :=
  match fuel with
  | O => None
  | S fuel =>
      if negb (current =? 0) && negb (current =? block)
      then previous_walk fuel block current (Header.next current m) m
      else Some prev
  end.

Definition kernel_heap_coalesce_around (block : Z) (h : common) : option common :=
  if block =? 0 then Some h
  else
    h ← coalesce_loop (walk_fuel h) block h;
    prev ← previous_walk (walk_fuel h) block 0 (kernel_heap_free_list h) (memory h);
    if prev =? 0 then Some h else coalesce_loop (walk_fuel h) prev h.

(** A frame becomes a block of the list. *)
Definition add_page (page_phys : Z) (h : common) : option common :=
  let block := kernel_heap_phys_to_virt page_phys in
  let h := with_memory (Header.set_size block PAGE_SIZE) h in
  let h := with_memory (Header.set_magic block KERNEL_HEAP_HEADER_MAGIC) h in
  let h := with_memory (Header.set_next block 0) h in
  let h := with_memory (Header.set_reserved block 0) h in
  kernel_heap_add_free_block block h.

(** The inner loop of the search: the block before the first that is large
    enough, and this block or NULL. *)
Fixpoint first_fit (fuel : nat) (total_size prev current : Z) (m : zmap) : option (Z * Z) :=
  match fuel with
  | O => None
  | S fuel =>
      if current =? 0 then Some (prev, 0)
      else if total_size <=? Header.size current m then Some (prev, current)
      else first_fit fuel total_size current (Header.next current m) m
  end.

(** Take [current] out of the list. *)
Definition unlink (prev current : Z) (h : common) : common :=
  let next := Header.next current (memory h) in
  let h := if negb (prev =? 0) then with_memory (Header.set_next prev next) h
           else with_list next (kernel_heap_small_free_blocks h) (kernel_heap_small_free_bytes h) h in
  with_list (kernel_heap_free_list h) (kernel_heap_small_free_blocks h ⊟ 1)
    (kernel_heap_small_free_bytes h ⊟ Header.size current (memory h)) h.

(** Give the list back what [current] has beyond [total_size]. *)
Definition split_rest (total_size current : Z) (h : common) : option common :=
  let remaining_size := Header.size current (memory h) ⊟ total_size in
  if KERNEL_HEAP_MIN_SPLIT <=? remaining_size then
    let tail := current ⊞ total_size in
    let h := with_memory (Header.set_size tail remaining_size) h in
    let h := with_memory (Header.set_magic tail KERNEL_HEAP_HEADER_MAGIC) h in
    let h := with_memory (Header.set_next tail 0) h in
    let h := with_memory (Header.set_reserved tail 0) h in
    h ← kernel_heap_add_free_block tail h;
    Some (with_memory (Header.set_size current total_size) h)
  else Some h.

Definition mark_used (current : Z) (h : common) : common :=
  let h := with_memory (Header.set_magic current KERNEL_HEAP_HEADER_MAGIC) h in
  let h := with_memory (Header.set_flags current 0) h in
  let h := with_memory (Header.set_order current 0) h in
  with_memory (Header.set_next current 0) h.

Definition unlink_and_split (total_size prev current : Z) (h : common) : option common :=
  h ← split_rest total_size current (unlink prev current h);
  Some (mark_used current h).

(** Where the header at [x] lies in memory: a page of the dynamic range is
    reached through its frame; [None] when it is not mapped. *)
Definition cell (x : Z) (h : common) : option Z :=
  if (KERNEL_VMM_DYNAMIC_START <=? x) && (x <? KERNEL_VMM_DYNAMIC_END) then
    phys ← paging_get_physical_address x (pages (vm h));
    Some (kernel_heap_phys_to_virt phys)
  else Some x.

(** A block of whole pages: its header, or NULL. *)
Definition page_block (realtime : bool) (total_size flags : Z) (h : common) : option (Z * common) :=
  let page_count := ((total_size ⊞ PAGE_SIZE) ⊟ 1) / PAGE_SIZE in
  '(header, v) ← kernel_vmm_alloc_pages realtime page_count (vm h);
  let h := with_vm v h in
  if header =? 0 then Some (0, h)
  else
    c ← cell header h;
    let h := with_memory (Header.set_size c (page_count ⊠ PAGE_SIZE)) h in
    let h := with_memory (Header.set_magic c KERNEL_HEAP_HEADER_MAGIC) h in
    let h := with_memory (Header.set_flags c flags) h in
    let h := with_memory (Header.set_order c 0) h in
    let h := with_memory (Header.set_reserved c (u16 page_count)) h in
    let h := with_memory (Header.set_next c 0) h in
    Some (header, with_large (kernel_heap_large_allocation_count h ⊞ 1) h).

Definition payload_of (size : Z) : Z := kernel_heap_align_up (u32 size) KERNEL_HEAP_ALIGNMENT.
Definition total_of (size : Z) : Z :=
  kernel_heap_align_up (payload_of size ⊞ HEADER_SIZE) KERNEL_HEAP_ALIGNMENT.

(** Requests of whole pages; other requests skip this step. *)
Definition large_request (size : Z) : bool := (PAGE_SIZE <? total_of size) || (1024 <? payload_of size).

Definition user (header : Z) : Z := header ⊞ HEADER_SIZE.

Definition kmalloc_sensitive (realtime : bool) (size : Z) (h : common) : option (Z * common) :=
  if negb (kernel_heap_initialized h) || (size =? 0) then Some (0, h)
  else
    '(header, h) ← page_block realtime (total_of size)
                     (Z.lor KERNEL_HEAP_BLOCK_FLAG_VMM KERNEL_HEAP_BLOCK_FLAG_SENS) h;
    Some (if header =? 0 then 0 else user header, h).

(** The two checks every release starts with: [Some] is the state of a
    release that is refused. *)
Definition refused (c : Z) (h : common) : option common :=
  let m := memory h in
  if negb (Header.magic c m =? KERNEL_HEAP_HEADER_MAGIC)
     || negb (Header.canary c m =? canary_of (Header.size c m)) then
    Some (with_rejected (kernel_heap_rejected_free_count h ⊞ 1) (kernel_heap_double_free_count h) h)
  else if has (Header.flags c m) KERNEL_HEAP_BLOCK_FLAG_FREE then
    Some (with_rejected (kernel_heap_rejected_free_count h ⊞ 1) (kernel_heap_double_free_count h ⊞ 1) h)
  else None.

Definition one_large_less (h : common) : common :=
  if 0 <? kernel_heap_large_allocation_count h
  then with_large (kernel_heap_large_allocation_count h ⊟ 1) h else h.

(** Blocks of whole frames and of whole pages, the same in both profiles. *)
Definition release_pages (header c : Z) (h : common) : option common :=
  let h := one_large_less h in
  v ← kernel_vmm_free_pages header (Header.reserved c (memory h)) (vm h);
  Some (with_vm v h).

Definition release_to_list (header : Z) (h : common) : option common :=
  h ← kernel_heap_add_free_block header (with_memory (Header.set_next header 0) h);
  kernel_heap_coalesce_around header h.

End common.

(** ** The client profile *)

Module Client.

Definition KERNEL_HEAP_CLIENT_BOOT_POOL_PAGES : Z := 8.
Definition KERNEL_SLAB_CACHE_MAX_PAGES : Z := 2.
Definition KERNEL_HEAP_CLIENT_SLAB_PAGES : Z := KERNEL_SLAB_CACHE_MAX_PAGES * 3.
Definition KERNEL_HEAP_CLIENT_TLSF_POOL_SIZE : Z := 4 * 1024 * 1024.

(** The memory of the slab and TLSF states is the shared one; what is stored
    here are their statics. *)
Record client (A : Type) := mk {
  base : common A;
  slab_caches : list KernelSlabCache;
  tlsf_control : tlsf;
  kernel_heap_hot_loop_depth : Z;
  kernel_heap_hot_loop_violation_count : Z;
  kernel_heap_hot_loop_bounded_count : Z }.
Arguments mk {A}.
Arguments base {A}.
Arguments slab_caches {A}.
Arguments tlsf_control {A}.
Arguments kernel_heap_hot_loop_depth {A}.
Arguments kernel_heap_hot_loop_violation_count {A}.
Arguments kernel_heap_hot_loop_bounded_count {A}.

Section operations.
Context {A : Type} `{FrameAllocator A}.
Abbreviation client := (client A).

Definition with_base (h : common A) (s : client) : client :=
  mk h (slab_caches s) (tlsf_control s) (kernel_heap_hot_loop_depth s)
     (kernel_heap_hot_loop_violation_count s) (kernel_heap_hot_loop_bounded_count s).

Definition with_memory (f : zmap -> zmap) (s : client) : client := with_base (Heap.with_memory f (base s)) s.

(** The slab caches and the TLSF pool on the shared memory. *)
Definition slab_view (s : client) : slab := Slab.mk (memory (base s)) (slab_caches s).
Definition tlsf_view (s : client) : tlsf := Tlsf.with_mem (fun _ => memory (base s)) (tlsf_control s).

Definition with_slab (t : slab) (s : client) : client :=
  let s := with_memory (fun _ => Slab.mem t) s in
  mk (base s) (Slab.slab_caches t) (tlsf_control s) (kernel_heap_hot_loop_depth s)
     (kernel_heap_hot_loop_violation_count s) (kernel_heap_hot_loop_bounded_count s).

Definition with_tlsf (t : tlsf) (s : client) : client :=
  let s := with_memory (fun _ => Tlsf.mem t) s in
  mk (base s) (slab_caches s) (Tlsf.with_mem (fun _ => ∅) t) (kernel_heap_hot_loop_depth s)
     (kernel_heap_hot_loop_violation_count s) (kernel_heap_hot_loop_bounded_count s).

Definition in_hot_loop (s : client) : bool := 0 <? kernel_heap_hot_loop_depth s.

Definition count_bounded (s : client) : client :=
  if in_hot_loop s then
    mk (base s) (slab_caches s) (tlsf_control s) (kernel_heap_hot_loop_depth s)
       (kernel_heap_hot_loop_violation_count s) (kernel_heap_hot_loop_bounded_count s ⊞ 1)
  else s.

Definition count_violation (s : client) : client :=
  if in_hot_loop s then
    mk (base s) (slab_caches s) (tlsf_control s) (kernel_heap_hot_loop_depth s)
       (kernel_heap_hot_loop_violation_count s ⊞ 1) (kernel_heap_hot_loop_bounded_count s)
  else s.

Definition kernel_heap_hot_loop_enter (s : client) : client :=
  mk (base s) (slab_caches s) (tlsf_control s) (kernel_heap_hot_loop_depth s ⊞ 1)
     (kernel_heap_hot_loop_violation_count s) (kernel_heap_hot_loop_bounded_count s).

Definition kernel_heap_hot_loop_leave (s : client) : client :=
  mk (base s) (slab_caches s) (tlsf_control s)
     (if 0 <? kernel_heap_hot_loop_depth s then kernel_heap_hot_loop_depth s ⊟ 1 else kernel_heap_hot_loop_depth s)
     (kernel_heap_hot_loop_violation_count s) (kernel_heap_hot_loop_bounded_count s).

(** The loop over the boot pool: the pages given to the slabs so far. *)
Fixpoint boot_pool_loop (count : nat) (slab_backing : list Z) (h : common A) : option (list Z * common A) :=
  match count with
  | O => Some (slab_backing, h)
  | S count =>
      '(page_phys, a) ← page_frame_allocate (frames_of h);
      let h := with_allocator a h in
      if page_phys =? 0 then Some (slab_backing, h)
      else if Z.of_nat (length slab_backing) <? KERNEL_HEAP_CLIENT_SLAB_PAGES then
        boot_pool_loop count (slab_backing ++ [kernel_heap_phys_to_virt page_phys]) h
      else
        h ← add_page page_phys h;
        boot_pool_loop count slab_backing h
  end.

(** [tlsf_pool] is the address of the static array. *)
Definition kernel_heap_build_client_boot_pool (tlsf_pool : Z) (s : client) : option client :=
  '(slab_backing, h) ← boot_pool_loop (Z.to_nat KERNEL_HEAP_CLIENT_BOOT_POOL_PAGES) [] (base s);
  let s := with_base h s in
  s ← match slab_backing with
      | [] => Some s
      | _ => t ← kernel_slab_initialize slab_backing (slab_view s); Some (with_slab t s)
      end;
  Some (with_tlsf (snd (kernel_tlsf_initialize tlsf_pool KERNEL_HEAP_CLIENT_TLSF_POOL_SIZE (tlsf_view s))) s).

Definition kernel_heap_initialize (tlsf_pool : Z) (s : client) : option client :=
  kernel_heap_build_client_boot_pool tlsf_pool
    (mk (mkCommon 0 0 0 0 0 0 true (vm (base s))) (slab_caches s) (tlsf_control s) 0 0 0).

(** The header of a block of the slabs or of TLSF. *)
Definition seal (total_size flag header : Z) (s : client) : client :=
  let s := with_memory (Header.set_size header total_size) s in
  let s := with_memory (Header.set_magic header KERNEL_HEAP_HEADER_MAGIC) s in
  let s := with_memory (Header.set_flags header flag) s in
  with_memory (Header.set_canary header (canary_of (Header.size header (memory (base s))))) s.

(** The search of the list; the pool of the client does not grow. *)
Definition kmalloc_first_fit (total_size : Z) (h : common A) : option (Z * common A) :=
  '(prev, current) ← first_fit (walk_fuel h) total_size 0 (kernel_heap_free_list h) (memory h);
  if current =? 0 then Some (0, h)
  else h ← unlink_and_split total_size prev current h; Some (user current, h).

(** [t0] and [t1] are the readings of the time stamp counter in TLSF. *)
Definition kmalloc (t0 t1 size : Z) (s : client) : option (Z * client) :=
  if negb (kernel_heap_initialized (base s)) || (size =? 0) then Some (0, s)
  else
    let total_size := total_of size in
    let '(obj, t) := kernel_slab_alloc total_size (slab_view s) in
    let s := with_slab t s in
    if negb (obj =? 0) then
      Some (user obj, count_bounded (seal total_size KERNEL_HEAP_BLOCK_FLAG_SLAB obj s))
    else
      '(tlsf_raw, t) ← kernel_tlsf_alloc t0 t1 total_size (tlsf_view s);
      let s := with_tlsf t s in
      if negb (tlsf_raw =? 0) then
        Some (user tlsf_raw, count_bounded (seal total_size KERNEL_HEAP_BLOCK_FLAG_TLSF tlsf_raw s))
      else if in_hot_loop s then Some (0, count_violation s)
      else
        '(header, h) ← if large_request size then page_block true total_size KERNEL_HEAP_BLOCK_FLAG_VMM (base s)
                       else Some (0, base s);
        let s := with_base h s in
        if negb (header =? 0) then Some (user header, s)
        else
          '(p, h) ← kmalloc_first_fit total_size (base s);
          Some (p, with_base h s).

(** A header that the release hands to the slabs, to TLSF or to the list lies
    in the direct map; [None] stands for one that does not. *)
Definition kfree (t0 t1 ptr : Z) (s : client) : option client :=
  if ptr =? 0 then Some s
  else
    let header := ptr ⊟ HEADER_SIZE in
    c ← cell header (base s);
    match refused c (base s) with
    | Some h => Some (with_base h s)
    | None =>
        let flags := Header.flags c (memory (base s)) in
        if has flags KERNEL_HEAP_BLOCK_FLAG_SLAB then
          if negb (c =? header) then None
          else
            let s := with_memory (Header.set_flags header (Z.lor flags KERNEL_HEAP_BLOCK_FLAG_FREE)) s in
            Some (count_bounded (with_slab (snd (kernel_slab_free header (slab_view s))) s))
        else if has flags KERNEL_HEAP_BLOCK_FLAG_TLSF then
          if negb (c =? header) then None
          else
            let s := with_memory (Header.set_flags header (Z.lor flags KERNEL_HEAP_BLOCK_FLAG_FREE)) s in
            Some (count_bounded (with_tlsf (kernel_tlsf_free t0 t1 header (tlsf_view s)) s))
        else
          let s := count_violation s in
          if has flags KERNEL_HEAP_BLOCK_FLAG_BIG then
            let h := one_large_less (base s) in
            a ← page_frame_free (kernel_heap_virt_to_phys header) (frames_of h);
            Some (with_base (with_allocator a h) s)
          else if has flags KERNEL_HEAP_BLOCK_FLAG_VMM then
            h ← release_pages header c (base s); Some (with_base h s)
          else if negb (c =? header) then None
          else h ← release_to_list header (base s); Some (with_base h s)
    end.

End operations.
End Client.

(** ** The server profile *)

Module Server.

Definition KERNEL_HEAP_SIZE_CLASSES : Z := 7.
Definition KERNEL_HEAP_SERVER_DOMAINS : Z := 2.
Definition CPU_TOPOLOGY_MAX_LOGICAL_CPUS_PUBLIC : Z := 32.
Definition kernel_heap_size_class_sizes : list Z := [8; 16; 32; 64; 128; 256; 512].

Record KernelHeapServerDomain := mkDomain {
  size_class_lists : list Z;
  size_class_free_counts : list Z;
  size_class_hit_counts : list Z;
  size_class_refill_counts : list Z;
  first_fit_fallback_count : Z;
  remote_probe_count : Z;
  remote_hit_count : Z }.

Definition empty_domain : KernelHeapServerDomain :=
  let zeros := replicate (Z.to_nat KERNEL_HEAP_SIZE_CLASSES) 0 in mkDomain zeros zeros zeros zeros 0 0 0.

(** [topo] is the state of cpu_topology.c, which a query may change. *)
Record server (A : Type) := mk {
  base : common A;
  topo : Topology.topology;
  kernel_heap_server_domains : list KernelHeapServerDomain;
  kernel_heap_server_active_domain : Z;
  kernel_heap_server_slot_domain_override_enabled : list Z;
  kernel_heap_server_slot_domain_override : list Z }.
Arguments mk {A}.
Arguments base {A}.
Arguments topo {A}.
Arguments kernel_heap_server_domains {A}.
Arguments kernel_heap_server_active_domain {A}.
Arguments kernel_heap_server_slot_domain_override_enabled {A}.
Arguments kernel_heap_server_slot_domain_override {A}.

Definition get (l : list Z) (i : Z) : Z := default 0 (l !! Z.to_nat i).
Definition put (l : list Z) (i v : Z) : list Z := <[Z.to_nat i := v]> l.

(** ** Updates of a domain *)

Definition with_class (sc head free_count : Z) (d : KernelHeapServerDomain) : KernelHeapServerDomain :=
  mkDomain (put (size_class_lists d) sc head) (put (size_class_free_counts d) sc free_count)
    (size_class_hit_counts d) (size_class_refill_counts d)
    (first_fit_fallback_count d) (remote_probe_count d) (remote_hit_count d).

Definition count_hit (sc : Z) (d : KernelHeapServerDomain) : KernelHeapServerDomain :=
  mkDomain (size_class_lists d) (size_class_free_counts d)
    (put (size_class_hit_counts d) sc (get (size_class_hit_counts d) sc ⊞ 1)) (size_class_refill_counts d)
    (first_fit_fallback_count d) (remote_probe_count d) (remote_hit_count d).

Definition count_refill (sc : Z) (d : KernelHeapServerDomain) : KernelHeapServerDomain :=
  mkDomain (size_class_lists d) (size_class_free_counts d) (size_class_hit_counts d)
    (put (size_class_refill_counts d) sc (get (size_class_refill_counts d) sc ⊞ 1))
    (first_fit_fallback_count d ⊞ 1) (remote_probe_count d) (remote_hit_count d).

Definition count_remote (probes hits : Z) (d : KernelHeapServerDomain) : KernelHeapServerDomain :=
  mkDomain (size_class_lists d) (size_class_free_counts d) (size_class_hit_counts d) (size_class_refill_counts d)
    (first_fit_fallback_count d) (remote_probe_count d ⊞ probes) (remote_hit_count d ⊞ hits).

Section operations.
Context {A : Type} `{FrameAllocator A} (ns : Numa.numa).
Abbreviation server := (server A).

Definition with_base (h : common A) (s : server) : server :=
  mk h (topo s) (kernel_heap_server_domains s) (kernel_heap_server_active_domain s)
     (kernel_heap_server_slot_domain_override_enabled s) (kernel_heap_server_slot_domain_override s).

Definition with_memory (f : zmap -> zmap) (s : server) : server := with_base (Heap.with_memory f (base s)) s.

Definition kernel_heap_server_get_domain (domain_index : Z) (s : server) : option KernelHeapServerDomain :=
  if KERNEL_HEAP_SERVER_DOMAINS <=? domain_index then None
  else kernel_heap_server_domains s !! Z.to_nat domain_index.

Definition on_domain (i : Z) (f : KernelHeapServerDomain -> KernelHeapServerDomain) (s : server) : server :=
  mk (base s) (topo s) (alter f (Z.to_nat i) (kernel_heap_server_domains s)) (kernel_heap_server_active_domain s)
     (kernel_heap_server_slot_domain_override_enabled s) (kernel_heap_server_slot_domain_override s).

Definition kernel_heap_server_get_local_domain_index (s : server) : Z * server :=
  let '(logical_slot, topo) := Topology.cpu_topology_get_logical_slot (topo s) in
  let logical_slot := if KERNEL_HEAP_SERVER_DOMAINS <=? logical_slot then 0 else logical_slot in
  (logical_slot,
   mk (base s) topo (kernel_heap_server_domains s) logical_slot
      (kernel_heap_server_slot_domain_override_enabled s) (kernel_heap_server_slot_domain_override s)).

(** Take the first block of a class of a domain; 0 when there is none. *)
Definition pop_bucket (domain_index sc : Z) (s : server) : Z * server :=
  match kernel_heap_server_get_domain domain_index s with
  | None => (0, s)
  | Some d =>
      let block := get (size_class_lists d) sc in
      if block =? 0 then (0, s)
      else (block, on_domain domain_index
                     (with_class sc (Header.next block (memory (base s))) (get (size_class_free_counts d) sc ⊟ 1)) s)
  end.

(** One of the two passes over the other domains: those on the same node as
    the local one, or those on other nodes. *)
Fixpoint remote_pass (same_node : bool) (domains : list Z) (local_domain_index sc : Z) (s : server)
  : option (Z * Z) * server :=
  match domains with
  | [] => (None, s)
  | domain_index :: domains =>
      let on_node := Numa.numa_policy_get_node_for_slot domain_index ns
                     =? Numa.numa_policy_get_node_for_slot local_domain_index ns in
      if (domain_index =? local_domain_index) || negb (eqb on_node same_node)
      then remote_pass same_node domains local_domain_index sc s
      else
        let '(block, s) := pop_bucket domain_index sc s in
        if block =? 0 then remote_pass same_node domains local_domain_index sc s
        else (Some (block, domain_index), s)
  end.

(** The block and the domain that owned it. *)
Definition kernel_heap_server_try_pop_remote_bucket (local_domain_index sc : Z) (s : server)
  : option (Z * Z) * server :=
  if KERNEL_HEAP_SIZE_CLASSES <=? sc then (None, s)
  else
    let domains := seqZ 0 KERNEL_HEAP_SERVER_DOMAINS in
    match remote_pass true domains local_domain_index sc s with
    | (None, s) => remote_pass false domains local_domain_index sc s
    | found => found
    end.

Definition kernel_heap_server_size_class_initialize (s : server) : server :=
  let zeros := replicate (Z.to_nat CPU_TOPOLOGY_MAX_LOGICAL_CPUS_PUBLIC) 0 in
  mk (base s) (topo s) (replicate (Z.to_nat KERNEL_HEAP_SERVER_DOMAINS) empty_domain) 0 zeros zeros.

Definition kernel_heap_initialize (s : server) : server :=
  kernel_heap_server_size_class_initialize (with_base (mkCommon 0 0 0 0 0 0 true (vm (base s))) s).

Definition kernel_heap_grow_small_pool (h : common A) : option (bool * common A) :=
  '(page_phys, a) ← page_frame_allocate (frames_of h);
  let h := with_allocator a h in
  if page_phys =? 0 then Some (false, h)
  else h ← add_page page_phys h; Some (true, h).

(** The outer loop of the search: 0 when the pool cannot grow any more. *)
Fixpoint search_loop (fuel : nat) (total_size : Z) (h : common A) : option (Z * Z * common A) :=
  match fuel with
  | O => None
  | S fuel =>
      '(prev, current) ← first_fit (walk_fuel h) total_size 0 (kernel_heap_free_list h) (memory h);
      if negb (current =? 0) then Some (prev, current, h)
      else
        '(grown, h) ← kernel_heap_grow_small_pool h;
        if negb grown then Some (0, 0, h) else search_loop fuel total_size h
  end.

(** There are at most 2^18 frames to grow by. *)
Definition search_fuel : nat := S (S (Z.to_nat (2 ^ 18))).

(** The smallest class that holds the payload. *)
Fixpoint matching_class (payload_size sc : Z) (sizes : list Z) : option Z :=
  match sizes with
  | [] => None
  | size :: sizes => if size <? payload_size then matching_class payload_size (sc + 1) sizes else Some sc
  end.

Definition class_total (sc : Z) : Z :=
  kernel_heap_align_up (get kernel_heap_size_class_sizes sc ⊞ HEADER_SIZE) KERNEL_HEAP_ALIGNMENT.

(** A block of class [sc] from the local domain or from another one, with the
    domain it belongs to. *)
Definition pop_class (local_domain_index sc : Z) (s : server) : option (Z * Z) * server :=
  let '(block, s) := pop_bucket local_domain_index sc s in
  if negb (block =? 0) then (Some (block, local_domain_index), s)
  else
    let s := on_domain local_domain_index (count_remote 1 0) s in
    match kernel_heap_server_try_pop_remote_bucket local_domain_index sc s with
    | (Some found, s) => (Some found, on_domain local_domain_index (count_remote 0 1) s)
    | (None, s) => (None, s)
    end.

(** The header of a block that leaves a class. *)
Definition hand_out (block sc owner : Z) (s : server) : server :=
  let s := with_memory (Header.set_flags block KERNEL_HEAP_BLOCK_FLAG_SC) s in
  let s := with_memory (Header.set_order block (u8 sc)) s in
  let s := with_memory (Header.set_size block (get kernel_heap_size_class_sizes sc ⊞ HEADER_SIZE)) s in
  let s := with_memory (Header.set_reserved block (u16 owner)) s in
  with_memory (Header.set_next block 0) s.

(** The loop over a batch: the pieces behind the first go to the local domain. *)
Fixpoint batch_loop (pieces : list Z) (current sc local_domain_index : Z) (s : server) : server :=
  match pieces with
  | [] => s
  | i :: pieces =>
      let full := class_total sc in
      if Header.size current (memory (base s)) <? full ⊠ (i ⊞ 1) then s
      else
        let piece := current ⊞ (i ⊠ full) in
        let s := with_memory (Header.set_size piece full) s in
        let s := with_memory (Header.set_flags piece (Z.lor KERNEL_HEAP_BLOCK_FLAG_SC KERNEL_HEAP_BLOCK_FLAG_FREE)) s in
        let s := with_memory (Header.set_order piece (u8 sc)) s in
        let s := with_memory (Header.set_reserved piece (u16 local_domain_index)) s in
        let s := with_memory (Header.set_magic piece KERNEL_HEAP_HEADER_MAGIC) s in
        let s :=
          match kernel_heap_server_get_domain local_domain_index s with
          | Some d =>
              on_domain local_domain_index (with_class sc piece (get (size_class_free_counts d) sc ⊞ 1))
                (with_memory (Header.set_next piece (get (size_class_lists d) sc)) s)
          | None => s
          end in
        batch_loop pieces current sc local_domain_index s
  end.

Definition mark_class (current sc local_domain_index : Z) (s : server) : server :=
  let s := with_memory (Header.set_flags current KERNEL_HEAP_BLOCK_FLAG_SC) s in
  let s := with_memory (Header.set_order current (u8 sc)) s in
  with_memory (Header.set_reserved current (u16 local_domain_index)) s.

(** The class whose size is exactly the payload. *)
Fixpoint exact_class (payload_size sc : Z) (sizes : list Z) : option Z :=
  match sizes with
  | [] => None
  | size :: sizes => if payload_size =? size then Some sc else exact_class payload_size (sc + 1) sizes
  end.

(** From the search of the list on; [matched] is the class to refill. *)
Definition kmalloc_first_fit (matched : option Z) (payload_size total_size local_domain_index : Z) (s : server)
  : option (Z * server) :=
  '(prev, current, h) ← search_loop search_fuel total_size (base s);
  let s := with_base h s in
  if current =? 0 then Some (0, s)
  else
    h ← unlink_and_split total_size prev current (base s);
    let s := with_base h s in
    let s :=
      match matched with
      | Some sc =>
          let s := batch_loop [1; 2; 3] current sc local_domain_index s in
          mark_class current sc local_domain_index (with_memory (Header.set_size current (class_total sc)) s)
      | None =>
          match exact_class payload_size 0 kernel_heap_size_class_sizes with
          | Some sc => mark_class current sc local_domain_index s
          | None => s
          end
      end in
    Some (user current, s).

Definition kmalloc (size : Z) (s : server) : option (Z * server) :=
  if negb (kernel_heap_initialized (base s)) || (size =? 0) then Some (0, s)
  else
    let payload_size := payload_of size in
    '(header, h) ← if large_request size then page_block false (total_of size) KERNEL_HEAP_BLOCK_FLAG_VMM (base s)
                   else Some (0, base s);
    let s := with_base h s in
    if negb (header =? 0) then Some (user header, s)
    else
      let '(local_domain_index, s) := kernel_heap_server_get_local_domain_index s in
      match (if payload_size <=? 512 then matching_class payload_size 0 kernel_heap_size_class_sizes else None) with
      | None => kmalloc_first_fit None payload_size (total_of size) local_domain_index s
      | Some sc =>
          match pop_class local_domain_index sc s with
          | (Some (block, owner), s) =>
              Some (user block, hand_out block sc owner (on_domain local_domain_index (count_hit sc) s))
          | (None, s) =>
              kmalloc_first_fit (Some sc) payload_size (class_total sc ⊠ 4) local_domain_index
                (on_domain local_domain_index (count_refill sc) s)
          end
      end.

Definition kfree (ptr : Z) (s : server) : option server :=
  if ptr =? 0 then Some s
  else
    let header := ptr ⊟ HEADER_SIZE in
    c ← cell header (base s);
    match refused c (base s) with
    | Some h => Some (with_base h s)
    | None =>
        let m := memory (base s) in
        let flags := Header.flags c m in
        let sc := Header.order c m in
        let owner_domain := Header.reserved c m in
        if has flags KERNEL_HEAP_BLOCK_FLAG_BIG then
          let h := one_large_less (base s) in
          a ← page_frame_free_order (kernel_heap_virt_to_phys header) (Header.order c m) (frames_of h);
          Some (with_base (with_allocator a h) s)
        else if has flags KERNEL_HEAP_BLOCK_FLAG_VMM then
          h ← release_pages header c (base s); Some (with_base h s)
        else if negb (c =? header) then None
        else if has flags KERNEL_HEAP_BLOCK_FLAG_SC && (sc <? KERNEL_HEAP_SIZE_CLASSES)
                && (owner_domain <? KERNEL_HEAP_SERVER_DOMAINS) then
          match kernel_heap_server_get_domain owner_domain s with
          | None => None
          | Some d =>
              let s := with_memory (Header.set_flags header (Z.lor flags KERNEL_HEAP_BLOCK_FLAG_FREE)) s in
              let s := with_memory (Header.set_next header (get (size_class_lists d) sc)) s in
              Some (on_domain owner_domain (with_class sc header (get (size_class_free_counts d) sc ⊞ 1)) s)
          end
        else h ← release_to_list header (base s); Some (with_base h s)
    end.

(** One processor warms up every class: four blocks taken, then released. *)
Definition warm_class (s : option server) (payload_size : Z) : option server :=
  s ← s;
  '(p1, s) ← kmalloc payload_size s;
  '(p2, s) ← kmalloc payload_size s;
  '(p3, s) ← kmalloc payload_size s;
  '(p4, s) ← kmalloc payload_size s;
  foldl (fun s p => s ← s; kfree p s) (Some s) [p1; p2; p3; p4].

Definition kernel_heap_initialize_ap_domain (logical_slot : Z) (s : server) : option server :=
  foldl warm_class (Some s) kernel_heap_size_class_sizes.

Definition kernel_heap_set_server_active_domain (domain_index : Z) (s : server) : bool * server :=
  if KERNEL_HEAP_SERVER_DOMAINS <=? domain_index then (false, s)
  else
    let '(logical_slot, topo) := Topology.cpu_topology_get_logical_slot (topo s) in
    let inside := logical_slot <? CPU_TOPOLOGY_MAX_LOGICAL_CPUS_PUBLIC in
    (true,
     mk (base s) topo (kernel_heap_server_domains s) domain_index
        (if inside then put (kernel_heap_server_slot_domain_override_enabled s) logical_slot 1
         else kernel_heap_server_slot_domain_override_enabled s)
        (if inside then put (kernel_heap_server_slot_domain_override s) logical_slot domain_index
         else kernel_heap_server_slot_domain_override s)).

Definition kernel_heap_get_size_class_free_count (sc : Z) (s : server) : Z * server :=
  let '(i, s) := kernel_heap_server_get_local_domain_index s in
  (match kernel_heap_server_get_domain i s with
   | Some d => if sc <? KERNEL_HEAP_SIZE_CLASSES then get (size_class_free_counts d) sc else 0
   | None => 0
   end, s).

Definition kernel_heap_get_size_class_hit_count (sc : Z) (s : server) : Z * server :=
  let '(i, s) := kernel_heap_server_get_local_domain_index s in
  (match kernel_heap_server_get_domain i s with
   | Some d => if sc <? KERNEL_HEAP_SIZE_CLASSES then get (size_class_hit_counts d) sc else 0
   | None => 0
   end, s).

Definition kernel_heap_get_server_domain_count : Z := KERNEL_HEAP_SERVER_DOMAINS.
Definition kernel_heap_get_server_active_domain (s : server) : Z * server := kernel_heap_server_get_local_domain_index s.

Definition kernel_heap_get_server_domain_refill_count (domain_index sc : Z) (s : server) : Z :=
  match kernel_heap_server_get_domain domain_index s with
  | Some d => if sc <? KERNEL_HEAP_SIZE_CLASSES then get (size_class_refill_counts d) sc else 0
  | None => 0
  end.

(** A counter of a domain, 0 for an index out of range. *)
Definition domain_counter (counter : KernelHeapServerDomain -> Z) (domain_index : Z) (s : server) : Z :=
  match kernel_heap_server_get_domain domain_index s with Some d => counter d | None => 0 end.

Definition kernel_heap_get_server_domain_first_fit_fallback_count : Z -> server -> Z := domain_counter first_fit_fallback_count.
Definition kernel_heap_get_server_domain_remote_probe_count : Z -> server -> Z := domain_counter remote_probe_count.
Definition kernel_heap_get_server_domain_remote_hit_count : Z -> server -> Z := domain_counter remote_hit_count.

Definition kernel_heap_get_server_per_cpu_hit_count (slot : Z) (s : server) : Z :=
  match kernel_heap_server_get_domain slot s with
  | None => 0
  | Some d => foldl (fun sum sc => sum ⊞ get (size_class_hit_counts d) sc) 0 (seqZ 0 KERNEL_HEAP_SIZE_CLASSES)
  end.

End operations.
End Server.
