(* ===== verification/HeapList.v ===== *)
(** * The first-fit list of the kernel heap

    The free list of heap.c is kept in ascending order of addresses: the
    operations on it, as operations on the list of the free blocks. *)

From S2P Require Import Prelude Cpu Pmm FrameAlloc Paging Vmm HeapInterface Slab Tlsf Heap.

(** ** Fields of a word *)

Lemma field_bits lo n w i : 0 <= lo -> 0 <= n -> 0 <= i ->
  Z.testbit (field lo n w) i = (i <? n) && Z.testbit w (i + lo).
Proof.
  intros Hl Hn Hi. unfold field. rewrite Z.land_spec, Z.shiftr_spec by lia.
  destruct (Z.ltb_spec i n); [rewrite Z.ones_spec_low by lia|rewrite Z.ones_spec_high by lia].
  - apply andb_true_r.
  - apply andb_false_r.
Qed.

Lemma set_field_bits lo n v w i : 0 <= lo -> 0 <= n -> 0 <= v < 2 ^ n -> 0 <= i ->
  Z.testbit (set_field lo n v w) i =
  if (lo <=? i) && (i <? lo + n) then Z.testbit v (i - lo) else Z.testbit w i.
Proof.
  intros Hl Hn Hv Hi. unfold set_field. rewrite Z.lor_spec, Z.ldiff_spec, !Z.shiftl_spec by lia.
  destruct (Z.leb_spec lo i), (Z.ltb_spec i (lo + n)); cbn [andb].
  - rewrite Z.ones_spec_low by lia. by rewrite andb_false_r.
  - rewrite Z.ones_spec_high by lia. rewrite <- (Z.mod_small v (2 ^ n)), Z.mod_pow2_bits_high by lia.
    by rewrite andb_true_r, orb_false_r.
  - rewrite !(Z.testbit_neg_r _ (i - lo)) by lia. by rewrite andb_true_r, orb_false_r.
  - lia.
Qed.

Lemma field_set_same lo n v w : 0 <= lo -> 0 <= n -> 0 <= v < 2 ^ n -> field lo n (set_field lo n v w) = v.
Proof.
  intros Hl Hn Hv. apply Z.bits_inj'. intros i Hi. rewrite field_bits, set_field_bits by lia.
  destruct (Z.ltb_spec i n); cbn [andb].
  - destruct (Z.leb_spec lo (i + lo)), (Z.ltb_spec (i + lo) (lo + n)); try lia. cbn [andb]. f_equal. lia.
  - rewrite <- (Z.mod_small v (2 ^ n)), Z.mod_pow2_bits_high by lia. done.
Qed.

Lemma field_set_other lo n lo' n' v w :
  0 <= lo -> 0 <= n -> 0 <= lo' -> 0 <= n' -> 0 <= v < 2 ^ n' -> lo + n <= lo' \/ lo' + n' <= lo ->
  field lo n (set_field lo' n' v w) = field lo n w.
Proof.
  intros. apply Z.bits_inj'. intros i Hi. rewrite !field_bits, set_field_bits by lia.
  destruct (Z.ltb_spec i n); cbn [andb]; [|done].
  destruct (Z.leb_spec lo' (i + lo)), (Z.ltb_spec (i + lo) (lo' + n')); cbn [andb]; done || lia.
Qed.

(** ** States that differ in the memory only *)

Section memory.
Context {A : Type} `{FrameAllocator A}.
Implicit Types (h : common A) (m : zmap).

Definition set_memory m h : common A := with_memory (fun _ => m) h.

Lemma with_memory_set f h : with_memory f h = set_memory (f (memory h)) h.
Proof. done. Qed.

Lemma memory_set m h : memory (set_memory m h) = m.
Proof. apply fa_set_mem_mem. Qed.

Lemma set_memory_set m m' h : set_memory m (set_memory m' h) = set_memory m h.
Proof.
  unfold set_memory, with_memory, with_allocator, with_vm, frames_of. cbn. unfold Vmm.with_pages, with_frames. cbn.
  by rewrite fa_set_mem_set.
Qed.

Lemma set_memory_id h : set_memory (memory h) h = h.
Proof.
  unfold set_memory, with_memory, with_allocator, with_vm, memory, frames_of, Vmm.with_pages, with_frames.
  destruct h as [? ? ? ? ? ? ? [? ? ? []]]. cbn. by rewrite fa_set_mem_id.
Qed.

Lemma set_memory_list m x y z h : set_memory m (with_list x y z h) = with_list x y z (set_memory m h).
Proof. done. Qed.

Lemma memory_list x y z h : memory (with_list x y z h) = memory h.
Proof. done. Qed.

Lemma with_list_list x y z x' y' z' h : with_list x y z (with_list x' y' z' h) = with_list x y z h.
Proof. done. Qed.

End memory.

Create Rewrite HintDb heap.
#[export] Hint Rewrite @memory_set @set_memory_set @set_memory_list @memory_list @with_list_list : heap.

(** ** The list of free blocks *)

Abbreviation extent := (Z * Z)%type.
Implicit Types (G : list extent) (m : zmap).

(** From [p] the links lead through the blocks [G] to [q]. *)
Fixpoint seg m (p : Z) G (q : Z) : Prop :=
  match G with
  | [] => p = q
  | (a, n) :: G => p = a /\ Header.size a m = n /\ seg m (Header.next a m) G q
  end.

(** A block: aligned, with room for its header, inside the address space. *)
Definition block_wf (b : extent) : Prop :=
  0 < b.1 /\ b.1 mod 8 = 0 /\ b.2 mod 8 = 0 /\ 16 <= b.2 /\ b.1 + b.2 < 2 ^ 32.

(** Blocks in ascending order, apart from each other, not below [lo]. *)
Fixpoint ascending (lo : Z) G : Prop :=
  match G with
  | [] => True
  | b :: G => lo <= b.1 /\ block_wf b /\ ascending (b.1 + b.2) G
  end.

Definition head_of G : Z := match G with [] => 0 | b :: _ => b.1 end.
Definition total G : Z := foldr (fun b s => b.2 + s) 0 G.

Lemma seg_cons m p b G q :
  seg m p (b :: G) q <-> p = b.1 /\ Header.size b.1 m = b.2 /\ seg m (Header.next b.1 m) G q.
Proof. by destruct b. Qed.

Lemma seg_app m p G1 G2 q : seg m p (G1 ++ G2) q <-> exists r, seg m p G1 r /\ seg m r G2 q.
Proof.
  revert p. induction G1 as [|[a n] G1 IH]; intros p; cbn [app seg].
  - split; [by exists p|]. by intros (r & -> & ?).
  - rewrite IH. split.
    + intros (-> & Hs & r & ? & ?). by exists r.
    + intros (r & (-> & Hs & ?) & ?). split_and!; [done..|]. by exists r.
Qed.

Lemma seg_head m p G : seg m p G 0 -> p = head_of G.
Proof. destruct G as [|[a n] G]; cbn; [done|]. by intros (-> & _). Qed.

Lemma seg_ext m m' p G q :
  (forall b, b ∈ G -> zget m' b.1 = zget m b.1 /\ zget m' (b.1 ⊞ 12) = zget m (b.1 ⊞ 12)) ->
  seg m p G q -> seg m' p G q.
Proof.
  revert p. induction G as [|[a n] G IH]; intros p Hx; cbn [seg]; [done|]. intros (-> & Hs & HG).
  destruct (Hx (a, n)) as [E1 E2]; [left|]. cbn [fst] in *. unfold Header.size, Header.next in *.
  rewrite E1, E2. split_and!; [done..|]. apply IH; [|done]. intros b Hb. apply Hx. by right.
Qed.

Lemma ascending_app lo G1 G2 :
  ascending lo (G1 ++ G2) <->
  ascending lo G1 /\ ascending (match last G1 with Some b => b.1 + b.2 | None => lo end) G2.
Proof.
  revert lo. induction G1 as [|b G1 IH]; intros lo; cbn [app ascending]; [cbn; tauto|].
  rewrite IH. assert (E : match last (b :: G1) with Some c => c.1 + c.2 | None => lo end =
                     match last G1 with Some c => c.1 + c.2 | None => b.1 + b.2 end).
  { rewrite last_cons. by destruct (last G1). }
  rewrite E. tauto.
Qed.

Lemma ascending_lower lo lo' G : lo' <= lo -> ascending lo G -> ascending lo' G.
Proof. destruct G; cbn; [done|]. intros ? (? & ? & ?). split_and!; [lia|done..]. Qed.

Lemma ascending_in lo G b : ascending lo G -> b ∈ G -> lo <= b.1 /\ block_wf b.
Proof.
  revert lo. induction G as [|c G IH]; intros lo; cbn [ascending]; [by intros _ ?%not_elem_of_nil|].
  intros (Hlo & Hc & HG) [->|Hb]%elem_of_cons; [done|]. destruct (IH _ HG Hb) as [? ?].
  split; [|done]. destruct Hc as (_ & _ & _ & ? & _). lia.
Qed.

(** Around a block of the list. *)
Lemma ascending_mid lo G1 b G2 : ascending lo (G1 ++ b :: G2) ->
  (forall c, c ∈ G1 -> c.1 + c.2 <= b.1) /\ block_wf b /\ ascending (b.1 + b.2) G2.
Proof.
  intros [H1 (Hlo & Hb & H2)]%ascending_app. split_and!; [|done..].
  revert lo H1 Hlo. induction G1 as [|c G1 IH]; intros lo H1 Hlo d; [by intros ?%not_elem_of_nil|].
  cbn [ascending] in H1. destruct H1 as (_ & Hc & H1). intros [->|Hd]%elem_of_cons.
  - clear IH. revert c Hc Hlo H1. induction G1 as [|e G1 IH]; intros c Hc Hlo H1; [done|].
    cbn [ascending] in H1. destruct H1 as (He & Hwe & H1). rewrite last_cons_cons in Hlo.
    specialize (IH e Hwe Hlo H1). destruct Hwe as (_ & _ & _ & ? & _). lia.
  - apply (IH _ H1); [|done]. rewrite last_cons in Hlo. by destruct (last G1).
Qed.

(** Two blocks of the list. *)
Lemma ascending_apart lo G b c : ascending lo G -> b ∈ G -> c ∈ G -> b = c \/ b.1 + b.2 <= c.1 \/ c.1 + c.2 <= b.1.
Proof.
  intros H Hb Hc. apply list_elem_of_split in Hb as (G1 & G2 & ->).
  destruct (ascending_mid _ _ _ _ H) as (H1 & _ & H2).
  apply elem_of_app in Hc as [Hc|[->|Hc]%elem_of_cons]; [right; right; auto|by left|].
  right. left. by apply (ascending_in _ _ _ H2).
Qed.

(** ** Insertion *)

(** [b] is apart from the blocks of the list. *)
Definition clear_of (b : extent) G : Prop := forall c, c ∈ G -> b.1 + b.2 <= c.1 \/ c.1 + c.2 <= b.1.

(** The list falls into the blocks below and above [b]. *)
Definition around (b : extent) G G1 G2 : Prop :=
  G = G1 ++ G2 /\ (forall c, c ∈ G1 -> c.1 + c.2 <= b.1) /\ (forall c, c ∈ G2 -> b.1 + b.2 <= c.1).

Lemma around_insert lo b G G1 G2 : around b G G1 G2 -> ascending lo G -> block_wf b -> lo <= b.1 ->
  ascending lo (G1 ++ b :: G2).
Proof.
  intros (-> & H1 & H2) [Ha1 Ha2]%ascending_app Hb Hlo. apply ascending_app. split; [done|]. cbn [ascending].
  split_and!; [|done|].
  - destruct (last G1) as [c|] eqn:E; [|done]. apply H1. by apply last_Some_elem_of.
  - destruct G2 as [|c G2]; [done|]. cbn [ascending] in *. destruct Ha2 as (_ & ? & ?).
    split_and!; [apply H2; left|done..].
Qed.

Lemma insert_walk_spec m b : forall G a n fuel,
  seg m a ((a, n) :: G) 0 -> ascending 0 ((a, n) :: G) -> clear_of b ((a, n) :: G) -> 0 < b.2 -> a < b.1 ->
  (length G < fuel)%nat ->
  exists G1 c k G2, (a, n) :: G = G1 ++ (c, k) :: G2 /\ insert_walk fuel b.1 a m = Some c /\
    around b ((a, n) :: G) (G1 ++ [(c, k)]) G2.
Proof.
  induction G as [|[a' n'] G IH]; intros a n fuel Hs Ha Hc Hb Hlt Hf;
    (destruct fuel as [|fuel]; [cbn in Hf; lia|]); cbn [insert_walk].
  - cbn in Hs. destruct Hs as (_ & _ & ->). exists [], a, n, []. split_and!; [done..|].
    split_and!; [done| |by intros ? ?%not_elem_of_nil]. intros c Hin. destruct (Hc c Hin); [|done].
    cbn [app] in Hin. apply list_elem_of_singleton in Hin as ->. cbn in *. lia.
  - cbn [seg] in Hs. destruct Hs as (_ & Hn & -> & Hn' & Hs). cbn [ascending fst snd] in Ha.
    destruct Ha as (_ & Hw & Hge & Hw' & Ha). assert (Hpos : 0 < a') by apply Hw'.
    destruct (Z.eqb_spec a' 0); [lia|]. cbn [negb andb]. destruct (Z.ltb_spec a' b.1) as [Hlt'|Hge'].
    + destruct (IH a' n' fuel) as (G1 & c & k & G2 & E & He & _ & H1 & H2).
      * done.
      * cbn [ascending fst snd]. split_and!; [lia|done..].
      * intros c Hin. apply Hc. by right.
      * done.
      * done.
      * cbn in Hf. lia.
      * exists ((a, n) :: G1), c, k, G2. cbn [app]. rewrite <- E. split_and!; [done..|].
        split_and!; [cbn [app]; by rewrite E, <- app_assoc| |done].
        intros d [->|Hd]%elem_of_cons; [|by apply H1]. destruct (Hc (a, n)); [left|cbn in *; lia|done].
    + exists [], a, n, ((a', n') :: G). split_and!; [done..|]. split_and!; [done| |].
      * intros c Hin%list_elem_of_singleton. subst c. destruct (Hc (a, n)); [left|cbn in *; lia|done].
      * assert (Hfirst : b.1 + b.2 <= a').
        { destruct (Hc (a', n')); [right; left|done|]. destruct Hw' as (_ & _ & _ & ? & _). cbn in *. lia. }
        intros c [->|Hin]%elem_of_cons; [done|]. destruct (ascending_in _ _ _ Ha Hin) as [? _].
        destruct Hw' as (_ & _ & _ & ? & _). cbn in *. lia.
Qed.

(** The words that insertion writes. *)
Definition links_of G (x : Z) : Prop := exists c, c ∈ G /\ x = c.1 + 12.
Definition changes (P : Z -> Prop) m m' : Prop := forall x, ~ P x -> zget m' x = zget m x.

Lemma changes_trans P m m' m'' : changes P m m' -> changes P m' m'' -> changes P m m''.
Proof. intros H1 H2 x Hx. by rewrite H2, H1. Qed.

Lemma changes_mono (P Q : Z -> Prop) m m' : (forall x, P x -> Q x) -> changes P m m' -> changes Q m m'.
Proof. intros HPQ H x Hx. apply H. intros Hp. by apply Hx, HPQ. Qed.

Lemma changes_insert P m x v : P x -> changes P m (<[x := v]> m).
Proof. intros HP y Hy. apply zget_insert_ne. by intros ->. Qed.

Lemma wf_add b x : block_wf b -> 0 <= x < 16 -> b.1 ⊞ x = b.1 + x.
Proof. intros (? & _ & _ & ? & ?) Hx. apply add32_small. lia. Qed.

Lemma wf_add_pair a n x : block_wf (a, n) -> 0 <= x < 16 -> a ⊞ x = a + x.
Proof. apply (wf_add (a, n)). Qed.

Section insertion.
Context {A : Type} `{FrameAllocator A}.
Implicit Types h : common A.

(** Memory after the header of a new free block is written. *)
Definition freed (b : Z) m : zmap :=
  Header.set_order b 0 (Header.set_flags b KERNEL_HEAP_BLOCK_FLAG_FREE
    (Header.set_magic b KERNEL_HEAP_HEADER_MAGIC m)).

Lemma freed_at b m x : x <> b ⊞ 4 -> zget (freed b m) x = zget m x.
Proof.
  intros Hx. unfold freed, Header.set_order, Header.set_flags, Header.set_magic.
  by rewrite !zget_insert_ne by done.
Qed.

Definition sound_list h G : Prop :=
  seg (memory h) (kernel_heap_free_list h) G 0 /\ ascending 0 G /\
  kernel_heap_small_free_blocks h = Z.of_nat (length G) /\
  kernel_heap_small_free_bytes h = u32 (total G).

Lemma total_app G1 G2 : total (G1 ++ G2) = total G1 + total G2.
Proof. induction G1 as [|b G1 IH]; cbn [app total foldr]; [done|]. fold (total (G1 ++ G2)) (total G1). lia. Qed.

Lemma walk_fuel_enough h G : sound_list h G -> (length G < walk_fuel h)%nat.
Proof. intros (_ & _ & Hc & _). unfold walk_fuel. rewrite Hc. lia. Qed.

(** A write that misses the headers of the list. *)
Lemma seg_write m p G q x v :
  ascending 0 G -> (forall c, c ∈ G -> x <> c.1 /\ x <> c.1 + 12) -> seg m p G q -> seg (<[x := v]> m) p G q.
Proof.
  intros Ha Hx. apply seg_ext. intros c Hc. destruct (Hx c Hc), (ascending_in _ _ _ Ha Hc) as [_ Hw].
  rewrite (wf_add c) by (done || lia). by rewrite !zget_insert_ne.
Qed.

Lemma link_first m p G b :
  seg m p G 0 -> ascending 0 (b :: G) -> Header.size b.1 m = b.2 ->
  seg (Header.set_next b.1 p m) b.1 (b :: G) 0.
Proof.
  intros Hs Ha Hsz. destruct b as [b n]. cbn [fst snd] in *. pose proof Ha as (_ & Hw & Ha'). cbn [fst snd] in *.
  unfold Header.set_next. rewrite (wf_add_pair b n 12) by (done || lia). cbn [fst seg].
  unfold Header.size, Header.next in *. rewrite (wf_add_pair b n 12) by (done || lia). cbn [fst].
  rewrite zget_insert_ne, zget_insert_eq by lia. split_and!; [done..|].
  apply seg_write; [by eapply ascending_lower, Ha'; destruct Hw; cbn in *; lia| |done].
  intros c Hc. destruct (ascending_in _ _ _ Ha' Hc) as [? _]. destruct Hw as (_ & _ & _ & ? & _). cbn in *. lia.
Qed.

Lemma link_after m p G1 c G2 b :
  seg m p (G1 ++ c :: G2) 0 -> ascending 0 (G1 ++ c :: b :: G2) -> Header.size b.1 m = b.2 ->
  seg (Header.set_next c.1 b.1 (Header.set_next b.1 (Header.next c.1 m) m)) p (G1 ++ c :: b :: G2) 0.
Proof.
  intros (r & H1 & H2)%seg_app Ha Hsz. pose proof (ascending_mid _ _ _ _ Ha) as (Hlow & Hwc & Hab).
  apply ascending_app in Ha as [Ha1 _]. destruct c as [c k]. cbn [seg fst snd] in *. destruct H2 as (-> & Hk & H2).
  pose proof Hab as (Hcb & Hwb & _). pose proof Hwc as (Hc0 & _ & _ & Hk16 & _). cbn [fst snd] in *.
  set (m1 := Header.set_next b.1 (Header.next c m) m). assert (Hm1 : seg m1 b.1 (b :: G2) 0).
  { apply link_first; [done| |done]. eapply ascending_lower; [|exact Hab]. lia. }
  unfold Header.set_next at 1. rewrite (wf_add_pair c k 12) by (done || lia). cbn [fst].
  apply seg_app. exists c. split.
  - apply seg_write; [done| |].
    { intros d Hd. specialize (Hlow d Hd). destruct (ascending_in _ _ _ Ha1 Hd) as [_ (_ & _ & _ & ? & _)]. cbn in *. lia. }
    unfold m1, Header.set_next. rewrite (wf_add b 12) by (done || lia). apply seg_write; [done| |done].
    intros d Hd. specialize (Hlow d Hd). destruct (ascending_in _ _ _ Ha1 Hd) as [_ (_ & _ & _ & ? & _)]. cbn in *. lia.
  - apply seg_cons. cbn [fst snd]. unfold Header.size, Header.next. rewrite (wf_add_pair c k 12) by (done || lia).
    rewrite zget_insert_ne, zget_insert_eq by lia. split_and!; [done| |].
    + unfold m1, Header.set_next. rewrite (wf_add b 12), zget_insert_ne by (done || lia). done.
    + apply seg_write; [by eapply ascending_lower, Hab; lia| |done]. intros d Hd.
      destruct (ascending_in _ _ _ Hab Hd) as [? _]. lia.
Qed.

Lemma add_free_block_spec h G b :
  sound_list h G -> block_wf b -> Header.size b.1 (memory h) = b.2 -> clear_of b G ->
  Z.of_nat (length G) + 1 < 2 ^ 32 ->
  exists G1 G2 m', around b G G1 G2 /\
    kernel_heap_add_free_block b.1 h =
      Some (with_list (head_of (G1 ++ b :: G2)) (Z.of_nat (length G) + 1) (u32 (total G + b.2)) (set_memory m' h)) /\
    seg m' (head_of (G1 ++ b :: G2)) (G1 ++ b :: G2) 0 /\
    changes (fun x => x = b.1 + 4 \/ x = b.1 + 12 \/ links_of G x) (memory h) m'.
Proof.
  intros Hl Hb Hsz Hc Hlen. pose proof (walk_fuel_enough _ _ Hl) as Hfuel. destruct Hl as (Hs & Ha & Hn & Hby).
  pose proof Hb as (Hb0 & _ & _ & Hb16 & _). assert (Hbl : 0 <= b.1) by lia.
  unfold kernel_heap_add_free_block. rewrite !with_memory_set. autorewrite with heap.
  change (kernel_heap_free_list (set_memory ?m h)) with (kernel_heap_free_list h).
  change (walk_fuel (set_memory ?m h)) with (walk_fuel h).
  fold (freed b.1 (memory h)). set (m1 := freed b.1 (memory h)).
  assert (Hm1 : forall x, x <> b.1 + 4 -> zget m1 x = zget (memory h) x).
  { intros x Hx. apply freed_at. by rewrite (wf_add b) by (done || lia). }
  assert (Hs1 : seg m1 (kernel_heap_free_list h) G 0).
  { eapply seg_ext; [|exact Hs]. intros c Hin. destruct (ascending_in _ _ _ Ha Hin) as [_ Hw].
    rewrite (wf_add c) by (done || lia). destruct Hw as (_ & _ & _ & ? & _), (Hc c Hin); rewrite !Hm1 by lia; done. }
  assert (Hsz1 : Header.size b.1 m1 = b.2) by (unfold Header.size; rewrite Hm1 by lia; done).
  assert (Hfin : forall d m', Header.size b.1 m' = b.2 ->
     with_list d (kernel_heap_small_free_blocks h ⊞ 1)
       (kernel_heap_small_free_bytes h ⊞ Header.size b.1 m') (set_memory m' h) =
     with_list d (Z.of_nat (length G) + 1) (u32 (total G + b.2)) (set_memory m' h)).
  { intros d m' ->. rewrite Hn, Hby, add32_small by lia. unfold add32. by rewrite u32_add_l. }
  destruct ((kernel_heap_free_list h =? 0) || (b.1 <? kernel_heap_free_list h)) eqn:E.
  - set (m2 := Header.set_next b.1 (kernel_heap_free_list h) m1). cbn [mbind option_bind].
    assert (Har : around b G [] G).
    { split_and!; [done|by intros ? ?%not_elem_of_nil|]. intros c Hin. destruct G as [|d G]; [by apply not_elem_of_nil in Hin|].
      pose proof (seg_head _ _ _ Hs) as Hd. cbn in Hd. destruct (Hc c Hin) as [|Hle]; [done|].
      pose proof Ha as (Hd0 & Hwd & Ha'). destruct Hwd as (? & _ & _ & ? & _).
      assert (d.1 <= c.1) by (apply elem_of_cons in Hin as [->|Hin]; [lia|]; destruct (ascending_in _ _ _ Ha' Hin); lia).
      destruct (ascending_in _ _ _ Ha Hin) as [_ (_ & _ & _ & ? & _)].
      apply orb_true_iff in E as [E%Z.eqb_eq|E%Z.ltb_lt]; lia. }
    assert (Hseg : seg m2 b.1 (b :: G) 0).
    { apply link_first; [done| |done]. by apply (around_insert _ _ _ [] G Har). }
    assert (Hch : changes (fun x => x = b.1 + 4 \/ x = b.1 + 12 \/ links_of G x) (memory h) m2).
    { intros x Hx. unfold m2, Header.set_next. rewrite (wf_add b 12) by (done || lia).
      rewrite zget_insert_ne, Hm1; [done| |]; intros ?; subst; apply Hx; tauto. }
    exists [], G, m2. split; [done|]. cbn [app head_of]. autorewrite with heap. split; [|split; [done|]].
    + apply (f_equal Some), (Hfin b.1 m2). by apply seg_cons in Hseg as (_ & ? & _).
    + done.
  - apply orb_false_iff in E as [E1%Z.eqb_neq E2%Z.ltb_ge]. destruct G as [|[a n] G']; [done|].
    pose proof Hs1 as (Ea & _). rewrite Ea in E1, E2, Hs1 |- *.
    assert (Hlt : a < b.1).
    { destruct (Hc (a, n)) as [?|?]; [left|cbn in *; lia|].
      pose proof Ha as (_ & (_ & _ & _ & ? & _) & _). cbn in *. lia. }
    destruct (insert_walk_spec m1 b G' a n (walk_fuel h) Hs1 Ha Hc ltac:(lia) Hlt) as (G1 & c & k & G2 & E & He & Har);
      [cbn [length] in Hfuel; lia|].
    rewrite He. cbn [mbind option_bind]. autorewrite with heap.
    set (m2 := Header.set_next c b.1 (Header.set_next b.1 (Header.next c m1) m1)).
    assert (Hasc : ascending 0 (G1 ++ (c, k) :: b :: G2)).
    { pose proof (around_insert 0 b _ _ _ Har Ha Hb Hbl) as H'. by rewrite <- app_assoc in H'. }
    assert (Hseg : seg m2 a (G1 ++ (c, k) :: b :: G2) 0).
    { apply (link_after m1 a G1 (c, k) G2 b); [by rewrite <- E|done|done]. }
    assert (Hhd : a = head_of ((G1 ++ [(c, k)]) ++ b :: G2)).
    { rewrite <- app_assoc. by apply seg_head in Hseg. }
    assert (Hch : changes (fun x => x = b.1 + 4 \/ x = b.1 + 12 \/ links_of ((a, n) :: G') x) (memory h) m2).
    { intros x Hx. assert (Hcin : (c, k) ∈ (a, n) :: G') by (rewrite E; inlist).
      destruct (ascending_in _ _ _ Ha Hcin) as [_ Hwc]. unfold m2, Header.set_next.
      rewrite (wf_add_pair c k 12), (wf_add b 12) by (done || lia). cbn [fst].
      rewrite !zget_insert_ne, Hm1; [done|..]; intros ?; subst; apply Hx; [tauto..|]. right. right. by exists (c, k). }
    exists (G1 ++ [(c, k)]), G2, m2. split; [done|]. rewrite <- Hhd. split; [|split; [|done]].
    + rewrite !with_memory_set. autorewrite with heap.
      change (kernel_heap_free_list (set_memory ?m h)) with (kernel_heap_free_list h). rewrite Ea.
      apply (f_equal Some), (Hfin a m2).
      apply seg_app in Hseg as (r & _ & (_ & _ & Hseg)%seg_cons). by apply seg_cons in Hseg as (_ & ? & _).
    + by rewrite <- app_assoc.
Qed.

(** ** Coalescing *)

Definition within (b : extent) (x : Z) : Prop := b.1 <= x < b.1 + b.2.
Definition covered G (x : Z) : Prop := exists c, c ∈ G /\ within c x.

Lemma listed_cons b G x : covered (b :: G) x <-> within b x \/ covered G x.
Proof. unfold covered. setoid_rewrite elem_of_cons. naive_solver. Qed.

Lemma covered_nil x : covered [] x <-> False.
Proof. split; [|done]. by intros (c & ?%not_elem_of_nil & _). Qed.

Lemma covered_app G1 G2 x : covered (G1 ++ G2) x <-> covered G1 x \/ covered G2 x.
Proof. unfold covered. setoid_rewrite elem_of_app. naive_solver. Qed.

(** [h'] is [h] with another list and memory. *)
Definition relisted h h' : Prop := exists d k t m, h' = with_list d k t (set_memory m h).

Lemma relisted_refl h : relisted h h.
Proof.
  exists (kernel_heap_free_list h), (kernel_heap_small_free_blocks h), (kernel_heap_small_free_bytes h), (memory h).
  rewrite set_memory_id. by destruct h.
Qed.

Lemma relisted_trans h h' h'' : relisted h h' -> relisted h' h'' -> relisted h h''.
Proof.
  intros (d & k & t & m & ->) (d' & k' & t' & m' & ->). exists d', k', t', m'. by autorewrite with heap.
Qed.

Lemma ascending_length lo G : 0 <= lo <= 2 ^ 32 -> ascending lo G -> 16 * Z.of_nat (length G) <= 2 ^ 32 - lo.
Proof.
  revert lo. induction G as [|b G IH]; intros lo Hlo; cbn [ascending length]; [lia|].
  intros (Hb & (H0 & _ & _ & Hn & Hfit) & HG). specialize (IH (b.1 + b.2) ltac:(lia) HG). lia.
Qed.

Lemma merge_spec h G1 b G2 :
  sound_list h (G1 ++ b :: G2) ->
  (kernel_heap_merge_adjacent_blocks b.1 h = (false, h)) \/
  exists c G2' h', G2 = c :: G2' /\ c.1 = b.1 + b.2 /\ kernel_heap_merge_adjacent_blocks b.1 h = (true, h') /\
    relisted h h' /\ sound_list h' (G1 ++ (b.1, b.2 + c.2) :: G2') /\ changes (within b) (memory h) (memory h').
Proof.
  intros (Hs & Ha & Hn & Hby). pose proof (ascending_length 0 _ ltac:(lia) Ha) as Hlen.
  pose proof (ascending_mid _ _ _ _ Ha) as (Hlow & Hw & Ha2).
  apply seg_app in Hs as (r & Hs1 & (-> & Hsz & Hs2)%seg_cons).
  unfold kernel_heap_merge_adjacent_blocks. pose proof Hw as (Hb0 & Hb8 & Hn8 & Hb16 & Hfit).
  rewrite (proj2 (Z.eqb_neq b.1 0)) by lia. cbn [orb].
  destruct (Z.eqb_spec (Header.next b.1 (memory h)) 0) as [|Hnz]; [by left|].
  rewrite Hsz, add32_small by lia.
  destruct (Z.eqb_spec (b.1 + b.2) (Header.next b.1 (memory h))) as [He|]; [right|by left]. cbn [negb].
  destruct G2 as [|c G2]; [done|]. pose proof Hs2 as (Hc & Hcs & Hs3)%seg_cons.
  pose proof Ha2 as (_ & Hwc & Ha3). pose proof Hwc as (_ & _ & Hc8 & Hc16 & Hcfit).
  exists c, G2. eexists. split; [done|]. split; [lia|]. split; [reflexivity|].
  rewrite !with_memory_set. autorewrite with heap. change (kernel_heap_small_free_blocks (set_memory ?m h)) with (kernel_heap_small_free_blocks h).
  change (kernel_heap_small_free_bytes (set_memory ?m h)) with (kernel_heap_small_free_bytes h).
  change (kernel_heap_free_list (set_memory ?m h)) with (kernel_heap_free_list h).
  set (m1 := Header.set_size b.1 _ (memory h)). set (m2 := Header.set_next b.1 _ m1).
  split; [do 4 eexists; done|].
  assert (Hm1 : forall x, x <> b.1 -> zget m1 x = zget (memory h) x) by (intros x Hx; apply zget_insert_ne; done).
  assert (Hm2 : forall x, x <> b.1 -> x <> b.1 + 12 -> zget m2 x = zget (memory h) x).
  { intros x Hx Hx'. unfold m2, Header.set_next. rewrite (wf_add b 12), zget_insert_ne by (done || lia). by apply Hm1. }
  assert (Hnew : ascending 0 (G1 ++ (b.1, b.2 + c.2) :: G2)).
  { apply ascending_app in Ha as [Ha1 (Hlo & _)]. apply ascending_app. split; [done|]. cbn [ascending fst snd].
    split_and!; [done| |by replace (b.1 + (b.2 + c.2)) with (c.1 + c.2) by lia].
    unfold block_wf. cbn [fst snd]. split_and!; [lia|done| |lia|lia].
    rewrite Z.add_mod, Hn8, Hc8 by lia. done. }
  split; [split_and!|].
  - autorewrite with heap. apply seg_app. exists b.1. split.
    + eapply seg_ext; [|exact Hs1]. intros d Hd. specialize (Hlow d Hd).
      apply ascending_app in Ha as [Ha1 _]. destruct (ascending_in _ _ _ Ha1 Hd) as [_ Hwd].
      rewrite (wf_add d) by (done || lia). destruct Hwd as (_ & _ & _ & ? & _). rewrite !Hm2 by lia. done.
    + apply seg_cons. cbn [fst snd]. split_and!; [done| |].
      * unfold Header.size. unfold m2, Header.set_next.
        rewrite (wf_add b 12), zget_insert_ne by (done || lia). unfold m1, Header.set_size. rewrite zget_insert_eq.
        rewrite <- He, <- (Hc : _ = c.1) in *. unfold Header.size in *. rewrite Hcs. apply add32_small. lia.
      * unfold Header.next at 1. unfold m2, Header.set_next. rewrite (wf_add b 12), zget_insert_eq by (done || lia).
        assert (Hnx : Header.next b.1 m1 = c.1) by (unfold Header.next; rewrite (wf_add b 12), Hm1 by (done || lia); by rewrite <- (wf_add b 12) by (done || lia)).
        rewrite Hnx. assert (Hnc : Header.next c.1 m1 = Header.next c.1 (memory h)).
        { unfold Header.next. rewrite (wf_add c 12) by (done || lia). apply Hm1. lia. }
        rewrite Hnc. eapply seg_ext; [|exact Hs3]. intros d Hd. destruct (ascending_in _ _ _ Ha3 Hd) as [? Hwd].
        rewrite (wf_add d) by (done || lia). fold m2. rewrite !zget_insert_ne by lia. rewrite !Hm1 by lia. done.
  - done.
  - change (kernel_heap_small_free_blocks (with_list ?x ?y ?z ?w)) with y. rewrite Hn.
    rewrite !length_app in *. cbn [length] in *. rewrite sub32_small by lia. lia.
  - change (kernel_heap_small_free_bytes (with_list ?x ?y ?z ?w)) with z. rewrite Hby. f_equal.
    rewrite !total_app. cbn [total foldr fst snd]. fold (total G2). lia.
  - autorewrite with heap. intros x Hx. unfold within in Hx. apply Hm2; lia.
Qed.

(** What the operations on the list guarantee: only the list and the memory
    change, the memory only where [P] holds, and [Q] is what is free now. *)
Record list_step h h' (P Q : Z -> Prop) : Prop := {
  ls_same : relisted h h';
  ls_changes : changes P (memory h) (memory h');
  ls_list : exists G, sound_list h' G /\ forall x, covered G x <-> Q x }.

Lemma within_join b c x : c.1 = b.1 + b.2 -> 0 <= b.2 -> 0 <= c.2 ->
  within (b.1, b.2 + c.2) x <-> within b x \/ within c x.
Proof. unfold within. cbn. lia. Qed.

Lemma coalesce_loop_spec : forall fuel h G1 b G2,
  sound_list h (G1 ++ b :: G2) -> (length G2 < fuel)%nat ->
  exists h' n G2', coalesce_loop fuel b.1 h = Some h' /\ relisted h h' /\ sound_list h' (G1 ++ (b.1, n) :: G2') /\
    (forall x, covered ((b.1, n) :: G2') x <-> covered (b :: G2) x) /\
    changes (covered (b :: G2)) (memory h) (memory h').
Proof.
  induction fuel as [|fuel IH]; intros h G1 b G2 Hl Hf; [lia|]. cbn [coalesce_loop].
  destruct (merge_spec h G1 b G2 Hl) as [->|(c & G2' & h1 & -> & Hc & -> & Hr1 & Hl1 & Hch1)].
  - exists h, b.2, G2. destruct b as [b n]. split_and!; [done|apply relisted_refl|done..].
  - cbn [length] in Hf.
    assert (Hj : forall x, covered ((b.1, b.2 + c.2) :: G2') x <-> covered (b :: c :: G2') x).
    { intros x. destruct Hl as (_ & Ha & _).
      destruct (ascending_in _ _ b Ha ltac:(inlist)) as [_ (_ & _ & _ & ? & _)].
      destruct (ascending_in _ _ c Ha ltac:(inlist)) as [_ (_ & _ & _ & ? & _)].
      rewrite !listed_cons, within_join by lia. tauto. }
    destruct (IH h1 G1 (b.1, b.2 + c.2) G2' Hl1 ltac:(lia)) as (h' & n & G' & He & Hr & Hl' & Hcov & Hch).
    exists h', n, G'. cbn [fst] in *. split_and!; [done|by eapply relisted_trans|done| |].
    + intros x. by rewrite Hcov.
    + eapply changes_trans; [|eapply changes_mono; [|exact Hch]].
      * eapply changes_mono; [|exact Hch1]. intros x Hx. apply listed_cons. by left.
      * intros x. apply Hj.
Qed.

Lemma previous_walk_spec m b : forall G fuel prev p G2,
  seg m p (G ++ b :: G2) 0 -> ascending 0 (G ++ b :: G2) -> (length G < fuel)%nat ->
  previous_walk fuel b.1 prev p m = Some (match last G with Some c => c.1 | None => prev end).
Proof.
  induction G as [|c G IH]; intros fuel prev p G2 Hs Ha Hf; (destruct fuel as [|fuel]; [lia|]); cbn [previous_walk].
  - apply seg_cons in Hs as (-> & _). by rewrite Z.eqb_refl, andb_false_r.
  - cbn [app] in *. apply seg_cons in Hs as (-> & _ & Hs). pose proof (ascending_mid _ [] _ _ Ha) as (_ & Hw & Ha').
    destruct Hw as (? & _ & _ & ? & _). destruct (ascending_in _ _ b Ha' ltac:(inlist)) as [? _].
    rewrite !(proj2 (Z.eqb_neq c.1 _)) by lia. cbn [negb andb length] in *.
    rewrite (IH fuel c.1 _ G2); [|done|eapply ascending_lower; [|done]; lia|lia]. rewrite last_cons. by destruct (last G).
Qed.

Lemma coalesce_around_spec h G1 b G2 :
  sound_list h (G1 ++ b :: G2) ->
  exists h', kernel_heap_coalesce_around b.1 h = Some h' /\
    list_step h h' (covered (G1 ++ b :: G2)) (covered (G1 ++ b :: G2)).
Proof.
  intros Hl. unfold kernel_heap_coalesce_around. pose proof (walk_fuel_enough _ _ Hl) as Hf.
  destruct (ascending_mid _ _ _ _ (proj1 (proj2 Hl))) as (_ & (? & _) & _).
  rewrite (proj2 (Z.eqb_neq b.1 0)) by lia. rewrite length_app in Hf. cbn [length] in Hf.
  destruct (coalesce_loop_spec (walk_fuel h) h G1 b G2 Hl ltac:(lia)) as (h1 & n & G2' & -> & Hr1 & Hl1 & Hcov1 & Hch1).
  cbn [mbind option_bind]. pose proof (walk_fuel_enough _ _ Hl1) as Hf1. rewrite length_app in Hf1. cbn [length] in Hf1.
  assert (Hch1' : changes (covered (G1 ++ b :: G2)) (memory h) (memory h1)).
  { eapply changes_mono; [|exact Hch1]. intros x Hx. apply covered_app. by right. }
  rewrite (previous_walk_spec _ (b.1, n) G1 (walk_fuel h1) 0 _ G2'); [|apply Hl1..|lia]. cbn [mbind option_bind].
  destruct (last G1) as [c|] eqn:E.
  - apply last_Some in E as [G1' ->]. rewrite <- app_assoc in Hl1. cbn [app] in Hl1.
    destruct (ascending_mid _ _ _ _ (proj1 (proj2 Hl1))) as (_ & (? & _) & _).
    rewrite (proj2 (Z.eqb_neq c.1 0)) by lia. rewrite length_app in Hf1. cbn [length] in Hf1.
    destruct (coalesce_loop_spec (walk_fuel h1) h1 G1' c ((b.1, n) :: G2') Hl1) as (h' & k & G' & He & Hr & Hl' & Hcov & Hch).
    { pose proof (walk_fuel_enough _ _ Hl1) as Hf'. rewrite length_app in Hf'. cbn [length] in Hf'. cbn [length]. lia. }
    exists h'. split; [done|]. constructor.
    + by eapply relisted_trans.
    + eapply changes_trans; [exact Hch1'|]. eapply changes_mono; [|exact Hch]. intros x.
      rewrite listed_cons, Hcov1, !covered_app, (listed_cons c []). tauto.
    + eexists. split; [exact Hl'|]. intros x. rewrite covered_app, Hcov, listed_cons, Hcov1.
      rewrite !covered_app, (listed_cons c []), covered_nil. tauto.
  - apply last_None in E as ->. exists h1. split; [done|]. constructor; [done..|]. eexists. split; [exact Hl1|].
    intros x. cbn [app]. apply Hcov1.
Qed.

Lemma add_free_block_step h G b :
  sound_list h G -> block_wf b -> Header.size b.1 (memory h) = b.2 -> clear_of b G ->
  exists h' G1 G2, kernel_heap_add_free_block b.1 h = Some h' /\ around b G G1 G2 /\
    relisted h h' /\ sound_list h' (G1 ++ b :: G2) /\ changes (covered (b :: G)) (memory h) (memory h').
Proof.
  intros Hl Hb Hsz Hc. pose proof Hl as (Hs & Ha & Hn & Hby). pose proof (ascending_length 0 _ ltac:(lia) Ha).
  destruct (add_free_block_spec h G b Hl Hb Hsz Hc ltac:(lia)) as (G1 & G2 & m' & Har & -> & Hs' & Hch).
  eexists _, G1, G2. split; [done|]. split; [done|]. split; [by do 4 eexists|].
  pose proof Hb as (? & _ & _ & ? & _). autorewrite with heap. split.
  - split_and!; [by autorewrite with heap|eapply around_insert; [done..|lia]| |].
    + cbn. destruct Har as (-> & _). rewrite !length_app. cbn [length]. lia.
    + cbn [with_list kernel_heap_small_free_bytes]. f_equal. destruct Har as (-> & _). rewrite !total_app.
      cbn [total foldr]. fold (total G2). lia.
  - eapply changes_mono; [|exact Hch]. intros x Hx. apply listed_cons. unfold within.
    destruct Hx as [->|[->|(c & Hin & ->)]]; [left; lia..|right]. exists c. split; [done|].
    destruct (ascending_in _ _ _ Ha Hin) as [_ (_ & _ & _ & ? & _)]. unfold within. lia.
Qed.

(** Releasing a block to the list makes its bytes free, and no others. *)
Lemma release_to_list_spec h G b :
  sound_list h G -> block_wf b -> Header.size b.1 (memory h) = b.2 -> clear_of b G ->
  exists h', release_to_list b.1 h = Some h' /\ list_step h h' (covered (b :: G)) (covered (b :: G)).
Proof.
  intros Hl Hb Hsz Hc. unfold release_to_list. rewrite with_memory_set.
  pose proof Hb as (? & _ & _ & ? & _). set (m1 := Header.set_next b.1 0 (memory h)).
  assert (Hm1 : forall x, x <> b.1 + 12 -> zget m1 x = zget (memory h) x).
  { intros x Hx. unfold m1, Header.set_next. rewrite (wf_add b 12) by (done || lia). by rewrite zget_insert_ne. }
  assert (Hl1 : sound_list (set_memory m1 h) G).
  { destruct Hl as (Hs & Ha & Hn & Hby). split_and!; [|done..]. rewrite memory_set.
    eapply seg_ext; [|exact Hs]. intros c Hin. destruct (ascending_in _ _ _ Ha Hin) as [_ Hw].
    rewrite (wf_add c) by (done || lia). destruct Hw as (_ & _ & _ & ? & _), (Hc c Hin); rewrite !Hm1 by lia; done. }
  destruct (add_free_block_step (set_memory m1 h) G b Hl1 Hb) as (h2 & G1 & G2 & -> & Har & Hr2 & Hl2 & Hch2);
    [rewrite memory_set; unfold Header.size; rewrite Hm1 by lia; done|done|].
  cbn [mbind option_bind]. rewrite memory_set in Hch2.
  destruct (coalesce_around_spec h2 G1 b G2 Hl2) as (h' & He & [Hr' Hch' (G' & Hl' & Hcov)]). exists h'. split; [done|].
  assert (Hall : forall x, covered (G1 ++ b :: G2) x <-> covered (b :: G) x).
  { intros x. destruct Har as (-> & _). rewrite listed_cons, !covered_app, listed_cons. tauto. }
  constructor.
  - eapply relisted_trans; [|exact Hr']. eapply relisted_trans; [|exact Hr2].
    exists (kernel_heap_free_list h), (kernel_heap_small_free_blocks h), (kernel_heap_small_free_bytes h), m1. by destruct h.
  - eapply changes_trans; [|eapply changes_mono; [|exact Hch']; intros x; apply Hall].
    eapply changes_trans; [|exact Hch2]. intros x Hx. apply Hm1. intros ->. apply Hx, listed_cons. left. unfold within. lia.
  - exists G'. split; [done|]. intros x. by rewrite Hcov.
Qed.

(** ** First fit *)

Lemma first_fit_spec m n : forall G fuel prev p,
  seg m p G 0 -> ascending 0 G -> (length G < fuel)%nat ->
  (exists q, first_fit fuel n prev p m = Some (q, 0) /\ forall c, c ∈ G -> c.2 < n) \/
  exists G1 c G2, G = G1 ++ c :: G2 /\ n <= c.2 /\ (forall d, d ∈ G1 -> d.2 < n) /\
    first_fit fuel n prev p m = Some (match last G1 with Some d => d.1 | None => prev end, c.1).
Proof.
  induction G as [|c G IH]; intros fuel prev p Hs Ha Hf; (destruct fuel as [|fuel]; [lia|]); cbn [first_fit].
  - cbn in Hs. subst p. left. exists prev. split; [done|]. by intros c ?%not_elem_of_nil.
  - apply seg_cons in Hs as (-> & Hsz & Hs). pose proof Ha as (_ & (? & _ & _ & ? & _) & Ha').
    rewrite (proj2 (Z.eqb_neq c.1 0)), Hsz by lia. destruct (Z.leb_spec n c.2) as [Hle|Hgt].
    + right. exists [], c, G. split_and!; [done..| |done]. by intros d ?%not_elem_of_nil.
    + destruct (IH fuel c.1 _ Hs) as [(q & He & Hall)|(G1 & d & G2 & -> & Hd & Hall & He)];
        [eapply ascending_lower; [|done]; lia|cbn in Hf; lia|left|right].
      * exists q. split; [done|]. intros d [->|Hd]%elem_of_cons; [done|auto].
      * exists (c :: G1), d, G2. split_and!; [done..| |].
        { intros e [->|He']%elem_of_cons; [done|auto]. }
        rewrite He, last_cons. by destruct (last G1).
Qed.

(** Taking a block out of the list. *)
Definition prev_of G1 : Z := match last G1 with Some d => d.1 | None => 0 end.

Lemma unlink_spec h G1 c G2 :
  sound_list h (G1 ++ c :: G2) ->
  let h' := unlink (prev_of G1) c.1 h in
  relisted h h' /\ sound_list h' (G1 ++ G2) /\ changes (covered G1) (memory h) (memory h').
Proof.
  intros (Hs & Ha & Hn & Hby). cbv zeta. pose proof (ascending_length 0 _ ltac:(lia) Ha) as Hlen.
  pose proof (ascending_mid _ _ _ _ Ha) as (Hlow & Hwc & Ha2).
  assert (Ha' : ascending 0 (G1 ++ G2)).
  { apply ascending_app in Ha as [? Hx]. apply ascending_app. split; [done|]. cbn [ascending] in Hx.
    destruct Hx as (Hx & _ & _). eapply ascending_lower; [|exact Ha2]. destruct Hwc as (_ & _ & _ & ? & _). lia. }
  assert (Hcnt : (kernel_heap_small_free_blocks h ⊟ 1) = Z.of_nat (length (G1 ++ G2)) /\
    (kernel_heap_small_free_bytes h ⊟ c.2) = u32 (total (G1 ++ G2))).
  { rewrite Hn, Hby. rewrite !length_app in *. cbn [length] in *. split; [rewrite sub32_small by lia; lia|].
    unfold sub32, u32. rewrite Zminus_mod_idemp_l. f_equal. rewrite !total_app. cbn [total foldr]. fold (total G2). lia. }
  destruct Hcnt as [Hcn Hcb].
  apply seg_app in Hs as (r & Hs1 & (-> & Hsz & Hs2)%seg_cons). unfold unlink, prev_of.
  destruct (last G1) as [d|] eqn:E.
  - apply last_Some in E as [G1' ->]. assert (Hd : d ∈ G1' ++ [d]) by inlist.
    pose proof (Hlow d Hd) as Hdc. pose proof Ha as [Ha1 _]%ascending_app.
    destruct (ascending_in _ _ _ Ha1 Hd) as [_ Hwd]. pose proof Hwd as (? & _ & _ & ? & _).
    rewrite (proj2 (Z.eqb_neq d.1 0)) by lia. cbn [negb]. rewrite with_memory_set. autorewrite with heap.
    set (m1 := Header.set_next d.1 _ (memory h)).
    assert (Hm1 : forall x, x <> d.1 + 12 -> zget m1 x = zget (memory h) x).
    { intros x Hx. unfold m1, Header.set_next. rewrite (wf_add d 12), zget_insert_ne by (done || lia). done. }
    assert (Hsz1 : Header.size c.1 m1 = c.2) by (unfold Header.size; rewrite Hm1 by lia; done). rewrite Hsz1.
    change (kernel_heap_small_free_blocks (set_memory m1 h)) with (kernel_heap_small_free_blocks h).
    change (kernel_heap_small_free_bytes (set_memory m1 h)) with (kernel_heap_small_free_bytes h). rewrite Hcn, Hcb.
    split; [by do 4 eexists|]. split; [split_and!; [|done..]|].
    + autorewrite with heap. apply seg_app in Hs1 as (q & Hs1 & (-> & Hszd & Hnd)%seg_cons).
      rewrite <- app_assoc. apply seg_app. exists d.1. pose proof (ascending_mid _ _ _ [] Ha1) as (Hlow' & _ & _).
      apply ascending_app in Ha1 as [Ha1 _]. split.
      * eapply seg_ext; [|exact Hs1]. intros e He. specialize (Hlow' e He). destruct (ascending_in _ _ _ Ha1 He) as [_ Hwe].
        rewrite (wf_add e) by (done || lia). destruct Hwe as (_ & _ & _ & ? & _). rewrite !Hm1 by lia. done.
      * cbn [app]. apply seg_cons. unfold Header.size. rewrite Hm1 by lia. split_and!; [done..|].
        unfold Header.next at 1. rewrite (wf_add d 12) by (done || lia). unfold m1 at 2, Header.set_next.
        rewrite (wf_add d 12), zget_insert_eq by (done || lia).
        eapply seg_ext; [|exact Hs2]. intros e He. destruct (ascending_in _ _ _ Ha2 He) as [? Hwe].
        rewrite (wf_add e) by (done || lia). destruct Hwc as (_ & _ & _ & ? & _). rewrite !Hm1 by lia. done.
    + autorewrite with heap. intros x Hx. apply Hm1. intros ->. apply Hx. exists d. split; [done|]. unfold within. lia.
  - apply last_None in E as ->. cbn in Hs1. cbn [Z.eqb negb]. rewrite memory_list, Hsz. cbn [app] in *.
    change (kernel_heap_small_free_blocks (with_list ?x ?y ?z h)) with y.
    change (kernel_heap_small_free_bytes (with_list ?x ?y ?z h)) with z. rewrite Hcn, Hcb. autorewrite with heap.
    change (kernel_heap_free_list (with_list ?x ?y ?z h)) with x.
    split; [do 3 eexists; exists (memory h); by rewrite set_memory_id|]. split; [split_and!; done|done].
Qed.

(** The header of a block that leaves the list. *)
Definition marked (b : Z) m : zmap :=
  Header.set_next b 0 (Header.set_order b 0 (Header.set_flags b 0 (Header.set_magic b KERNEL_HEAP_HEADER_MAGIC m))).

Lemma marked_at b m x : x <> b ⊞ 4 -> x <> b ⊞ 12 -> zget (marked b m) x = zget m x.
Proof.
  intros. unfold marked, Header.set_next, Header.set_order, Header.set_flags, Header.set_magic.
  by rewrite !zget_insert_ne.
Qed.

Lemma marked_header b m :
  b ⊞ 4 <> b ⊞ 12 ->
  Header.magic b (marked b m) = KERNEL_HEAP_HEADER_MAGIC /\ Header.flags b (marked b m) = 0.
Proof.
  intros Hne. unfold marked, Header.set_next, Header.set_order, Header.set_flags, Header.set_magic, Header.magic, Header.flags.
  rewrite !zget_insert_ne, !zget_insert_eq by done. unfold KERNEL_HEAP_HEADER_MAGIC. split.
  - rewrite !field_set_other by lia. apply field_set_same; lia.
  - rewrite field_set_other, field_set_same by lia. done.
Qed.

(** The header of what a split leaves over. *)
Definition rest_header (tail remaining : Z) m : zmap :=
  Header.set_reserved tail 0 (Header.set_next tail 0
    (Header.set_magic tail KERNEL_HEAP_HEADER_MAGIC (Header.set_size tail remaining m))).

Lemma rest_header_at b n m x : block_wf (b, n) -> ~ (b <= x < b + 16) -> zget (rest_header b n m) x = zget m x.
Proof.
  intros Hw Hx. unfold rest_header, Header.set_reserved, Header.set_next, Header.set_magic, Header.set_size.
  rewrite !(wf_add_pair b n) by (done || lia). by rewrite !zget_insert_ne by lia.
Qed.

Lemma rest_header_size b n m : block_wf (b, n) -> Header.size b (rest_header b n m) = n.
Proof.
  intros Hw. unfold Header.size, rest_header, Header.set_reserved, Header.set_next, Header.set_magic, Header.set_size.
  rewrite !(wf_add_pair b n) by (done || lia). rewrite !zget_insert_ne by lia. apply zget_insert_eq.
Qed.

(** Writing outside the headers of the list. *)
Lemma sound_list_write h G m :
  sound_list h G -> changes (fun x => ~ covered G x) (memory h) m -> sound_list (set_memory m h) G.
Proof.
  intros (Hs & Ha & Hn & Hby) Hm. split_and!; [|done..]. rewrite memory_set. eapply seg_ext; [|exact Hs].
  intros c Hc. destruct (ascending_in _ _ _ Ha Hc) as [_ Hw]. rewrite (wf_add c) by (done || lia).
  destruct Hw as (_ & _ & _ & ? & _). split; apply Hm; intros Hx; apply Hx; exists c; (split; [done|unfold within; lia]).
Qed.

Lemma relisted_memory h m : relisted h (set_memory m h).
Proof.
  exists (kernel_heap_free_list h), (kernel_heap_small_free_blocks h), (kernel_heap_small_free_bytes h), m. by destruct h.
Qed.

(** Giving the part of [c] behind the first [n] bytes back to the list. *)
Lemma give_back h G c n :
  sound_list h G -> block_wf c -> clear_of c G -> n mod 8 = 0 -> 16 <= n -> n + 32 <= c.2 ->
  let tail := (c.1 + n, c.2 - n) in
  exists h' G', kernel_heap_add_free_block tail.1 (set_memory (rest_header tail.1 tail.2 (memory h)) h) = Some h' /\
    relisted h h' /\ sound_list h' G' /\ (forall x, covered G' x <-> covered (tail :: G) x) /\
    changes (covered (tail :: G)) (memory h) (memory h').
Proof.
  intros Hl (Hc0 & Hc8 & Hcn & Hc16 & Hcf) Hcl Hn8 Hn Hr tail.
  assert (Hwt : block_wf tail).
  { unfold tail, block_wf. cbn [fst snd]. split_and!; try lia.
    - rewrite Z.add_mod, Hc8, Hn8 by lia. done.
    - rewrite Zminus_mod, Hcn, Hn8. done. }
  assert (Hct : clear_of tail G).
  { intros d Hd. destruct (Hcl d Hd); unfold tail; cbn [fst snd]; lia. }
  set (m1 := rest_header tail.1 tail.2 (memory h)).
  assert (Hm1 : forall x, ~ within tail x -> zget m1 x = zget (memory h) x).
  { intros x Hx. apply rest_header_at; [done|]. unfold within, tail in *. cbn [fst snd] in *. lia. }
  assert (Hl1 : sound_list (set_memory m1 h) G).
  { apply sound_list_write; [done|]. intros x Hx. apply Hm1. intros Hin. apply Hx. intros (d & Hd & Hdx).
    destruct (Hct d Hd); unfold within in *; lia. }
  destruct (add_free_block_step (set_memory m1 h) G tail Hl1 Hwt) as (h' & G1 & G2 & He & Har & Hr' & Hl' & Hch);
    [rewrite memory_set; by apply rest_header_size|done|]. rewrite memory_set in Hch.
  exists h', (G1 ++ tail :: G2). split; [done|]. split; [eapply relisted_trans; [apply relisted_memory|done]|].
  split; [done|]. split.
  - intros x. destruct Har as (-> & _). rewrite listed_cons, !covered_app, listed_cons. tauto.
  - eapply changes_trans; [|exact Hch]. intros x Hx. apply Hm1. intros Ht. apply Hx, listed_cons. by left.
Qed.

Lemma split_rest_spec h G c n :
  sound_list h G -> block_wf c -> clear_of c G -> Header.size c.1 (memory h) = c.2 ->
  n mod 8 = 0 -> 16 <= n <= c.2 ->
  exists h' k G', split_rest n c.1 h = Some h' /\ n <= k <= c.2 /\ k mod 8 = 0 /\ relisted h h' /\ sound_list h' G' /\
    (forall x, covered G' x <-> covered G x \/ within c x /\ ~ within (c.1, k) x) /\
    changes (covered (c :: G)) (memory h) (memory h') /\ Header.size c.1 (memory h') = k.
Proof.
  intros Hl Hw Hcl Hsz Hn8 Hn. pose proof Hw as (Hc0 & Hc8 & Hcn & Hc16 & Hcf).
  unfold split_rest. rewrite Hsz, sub32_small by lia. unfold KERNEL_HEAP_MIN_SPLIT.
  destruct (Z.leb_spec 32 (c.2 - n)) as [Hbig|Hsmall].
  2:{ exists h, c.2, G. split_and!; try done; [lia|apply relisted_refl|]. intros x. rewrite <- surjective_pairing. tauto. }
  rewrite add32_small, !with_memory_set by lia. autorewrite with heap. fold (rest_header (c.1 + n) (c.2 - n) (memory h)).
  destruct (give_back h G c n) as (h1 & G' & He & Hr & Hl' & Hcov & Hch); [done..|lia|lia|]. cbn [fst snd] in *.
  rewrite He. cbn [mbind option_bind]. rewrite with_memory_set.
  set (tail := (c.1 + n, c.2 - n)) in *. set (m2 := Header.set_size c.1 n (memory h1)).
  assert (Hcov' : forall x, covered G' x <-> covered G x \/ within c x /\ ~ within (c.1, n) x).
  { intros x. rewrite Hcov, listed_cons. unfold within, tail. cbn [fst snd]. split; [intros [|]; [right; lia|by left]|].
    intros [|]; [by right|left; lia]. }
  exists (set_memory m2 h1), n, G'. autorewrite with heap. split_and!; [done|lia|lia|done| | |done| |].
  - eapply relisted_trans; [exact Hr|apply relisted_memory].
  - apply sound_list_write; [done|]. intros x Hx. apply zget_insert_ne. intros <-. apply Hx. intros Hin%Hcov'.
    destruct Hin as [(d & Hd & Hdx)|[_ Hin]]; [|apply Hin; unfold within; cbn; lia].
    destruct (Hcl d Hd); unfold within in Hdx; lia.
  - eapply changes_trans.
    + eapply changes_mono; [|exact Hch]. intros x. rewrite !listed_cons. unfold within, tail. cbn [fst snd].
      intros [|]; [left; lia|by right].
    + apply changes_insert, listed_cons. left. unfold within. lia.
  - apply zget_insert_eq.
Qed.

Lemma unlink_and_split_spec h G1 c G2 n :
  sound_list h (G1 ++ c :: G2) -> n mod 8 = 0 -> 16 <= n <= c.2 ->
  exists h' k, unlink_and_split n (prev_of G1) c.1 h = Some h' /\ n <= k <= c.2 /\ k mod 8 = 0 /\
    list_step h h' (covered (G1 ++ c :: G2)) (fun x => covered (G1 ++ c :: G2) x /\ ~ within (c.1, k) x) /\
    Header.size c.1 (memory h') = k /\ Header.magic c.1 (memory h') = KERNEL_HEAP_HEADER_MAGIC /\
    Header.flags c.1 (memory h') = 0.
Proof.
  intros Hl Hn8 Hn. pose proof (ascending_mid _ _ _ _ (proj1 (proj2 Hl))) as (Hlow & Hw & Ha2).
  assert (Hcl : clear_of c (G1 ++ G2)).
  { intros d [Hd|Hd]%elem_of_app; [right; auto|left]. by apply (ascending_in _ _ _ Ha2). }
  assert (Hapart : forall x, within c x -> ~ covered (G1 ++ G2) x).
  { intros x Hx (d & Hd & Hdx). destruct (Hcl d Hd); unfold within in *; lia. }
  assert (Hall : forall x, covered (c :: G1 ++ G2) x <-> covered (G1 ++ c :: G2) x).
  { intros x. rewrite listed_cons, !covered_app, listed_cons. tauto. }
  pose proof (unlink_spec h G1 c G2 Hl) as (Hr1 & Hl1 & Hch1). cbv zeta in *.
  unfold unlink_and_split. set (h1 := unlink (prev_of G1) c.1 h) in *.
  pose proof Hw as (Hc0 & _ & _ & Hc16 & Hcf).
  assert (Hsz1 : Header.size c.1 (memory h1) = c.2).
  { pose proof Hl as (Hs & _). apply seg_app in Hs as (r & _ & (-> & Hsz & _)%seg_cons). unfold Header.size in *.
    rewrite Hch1; [done|]. intros Hin. apply (Hapart c.1); [unfold within; lia|]. apply covered_app. by left. }
  destruct (split_rest_spec h1 (G1 ++ G2) c n) as (h2 & k & G' & -> & Hk & Hk8 & Hr2 & Hl2 & Hcov & Hch2 & Hsz2); [done..|].
  cbn [mbind option_bind]. unfold mark_used. rewrite !with_memory_set. autorewrite with heap. fold (marked c.1 (memory h2)).
  set (m3 := marked c.1 (memory h2)). assert (Hm3 : changes (within (c.1, k)) (memory h2) m3).
  { intros x Hx. apply marked_at; rewrite (wf_add c) by (done || lia); unfold within in Hx; cbn [fst snd] in Hx; lia. }
  eexists _, k. split; [done|]. autorewrite with heap. split; [done|]. split; [done|]. split; [|split; [|apply marked_header]].
  - constructor; autorewrite with heap.
    + eapply relisted_trans; [exact Hr1|]. eapply relisted_trans; [exact Hr2|apply relisted_memory].
    + eapply changes_trans; [eapply changes_mono; [|exact Hch1]; intros x Hx; apply covered_app; by left|].
      eapply changes_trans; [eapply changes_mono; [|exact Hch2]; intros x; apply Hall|].
      eapply changes_mono; [|exact Hm3]. intros x Hx. apply Hall, listed_cons. left. unfold within in *. cbn in Hx. lia.
    + exists G'. split.
      * apply sound_list_write; [done|]. eapply changes_mono; [|exact Hm3]. intros x Hx Hin%Hcov.
        destruct Hin as [Hin|[_ Hin]]; [|done]. apply (Hapart x); [unfold within in *; cbn in Hx; lia|done].
      * intros x. rewrite Hcov, <- Hall, listed_cons. split; [|tauto]. intros [Hin|Hin]; [|tauto]. split; [by right|].
        intros Hx. apply (Hapart x); [unfold within in *; cbn in Hx; lia|done].
  - unfold Header.size, m3. rewrite marked_at; [done|rewrite (wf_add c) by (done || lia); lia..].
  - rewrite !(wf_add c) by (done || lia). lia.
Qed.

End insertion.
