(* ===== verification/TlsfProofs.v ===== *)
(** * Correctness of the TLSF allocator

    The header words, the size classes, the free lists with their bitmaps,
    the tiling of the pool by blocks, and the allocator as a map of live
    regions. *)

From S2P Require Import Prelude Tlsf.

(** ** Header words *)

(** The header word of a block of [sz] bytes with its two flags. *)
Definition word (sz : Z) (f p : bool) : Z := sz + (if f then 1 else 0) + (if p then 2 else 0).

Definition size_ok (sz : Z) : Prop := 16 <= sz < 2 ^ 32 /\ sz mod 8 = 0.

Lemma flag_bits (op : Z -> Z -> Z) (fop : bool -> bool -> bool) q r c :
  (forall a b n, Z.testbit (op a b) n = fop (Z.testbit a n) (Z.testbit b n)) ->
  (forall b, fop b false = b) -> 0 <= r < 4 -> 0 <= c < 4 -> 0 <= op r c < 4 ->
  op (q * 4 + r) c = q * 4 + op r c.
Proof.
  intros Hop Hf Hr Hc Ho. change 4 with (2 ^ 2) in *. rewrite <- !lor_low_bits by lia.
  apply Z.bits_inj'. intros n Hn. rewrite Hop, !Z.lor_spec, Hop.
  destruct (Z.ltb_spec n 2).
  - by rewrite Z.mul_pow2_bits_low.
  - rewrite <- (Z.mod_small r (2 ^ 2)), <- (Z.mod_small c (2 ^ 2)) by lia.
    rewrite !Z.mod_pow2_bits_high by lia. rewrite !Hf, !orb_false_r. done.
Qed.

Lemma word_split sz f p : sz mod 8 = 0 ->
  word sz f p = (2 * (sz / 8)) * 4 + ((if f then 1 else 0) + (if p then 2 else 0)).
Proof. intros H. unfold word. pose proof (Z.div_mod sz 8). lia. Qed.

Section words.
Context (sz : Z) (f p : bool) (Hsz : 0 <= sz < 2 ^ 32) (Hal : sz mod 8 = 0).

Lemma word_range : in32 (word sz f p) /\ word sz f p mod 4 = (if f then 1 else 0) + (if p then 2 else 0).
Proof.
  rewrite word_split by done. pose proof (Z.div_mod sz 8). split; [destruct f, p; lia|].
  rewrite Z.add_comm, Z.mod_add by lia. by destruct f, p.
Qed.

Lemma word_size : Z.land (word sz f p) (not32 3) = sz.
Proof.
  destruct word_range as [Hr Hm]. rewrite (land_not32_pow2 _ 2) by lia. change (2 ^ 2) with 4. rewrite Hm.
  unfold word. lia.
Qed.

Lemma word_bit n : 0 <= n < 2 ->
  Z.testbit (word sz f p) n = Z.testbit ((if f then 1 else 0) + (if p then 2 else 0)) n.
Proof.
  intros Hn. rewrite word_split by done. change 4 with (2 ^ 2).
  rewrite <- lor_low_bits by (destruct f, p; lia). rewrite Z.lor_spec, Z.mul_pow2_bits_low by lia. done.
Qed.

Lemma word_free : negb (Z.land (word sz f p) 1 =? 0) = f.
Proof. change 1 with (Z.shiftl 1 0) at 1. rewrite byte_testbit, word_bit by lia. by destruct f, p. Qed.

Lemma word_prev : negb (Z.land (word sz f p) 2 =? 0) = p.
Proof. change 2 with (Z.shiftl 1 1) at 1. rewrite byte_testbit, word_bit by lia. by destruct f, p. Qed.

Lemma word_flags : Z.land (word sz f p) 3 = (if f then 1 else 0) + (if p then 2 else 0).
Proof. change 3 with (Z.ones 2). rewrite Z.land_ones by lia. apply word_range. Qed.

Lemma word_set_free : Z.lor (word sz f p) 1 = word sz true p.
Proof.
  rewrite !word_split by done. rewrite (flag_bits Z.lor orb); try done; try by destruct f, p.
  - apply Z.lor_spec.
  - apply orb_false_r.
Qed.

Lemma word_set_prev_free : Z.lor (word sz f p) 2 = word sz f true.
Proof.
  rewrite !word_split by done. rewrite (flag_bits Z.lor orb); try done; try by destruct f, p.
  - apply Z.lor_spec.
  - apply orb_false_r.
Qed.

Lemma word_set_used : Z.land (word sz f p) (not32 1) = word sz false p.
Proof.
  rewrite land_not32 by (apply word_range || lia). rewrite !word_split by done.
  rewrite (flag_bits Z.ldiff (fun a b => a && negb b)); try done; try by destruct f, p.
  - apply Z.ldiff_spec.
  - apply andb_true_r.
Qed.

Lemma word_set_prev_used : Z.land (word sz f p) (not32 2) = word sz f false.
Proof.
  rewrite land_not32 by (apply word_range || lia). rewrite !word_split by done.
  rewrite (flag_bits Z.ldiff (fun a b => a && negb b)); try done; try by destruct f, p.
  - apply Z.ldiff_spec.
  - apply andb_true_r.
Qed.

Lemma word_set_size sz' : sz' mod 8 = 0 -> Z.lor sz' (Z.land (word sz f p) 3) = word sz' f p.
Proof.
  intros H'. rewrite word_flags, word_split by done. pose proof (Z.div_mod sz' 8 ltac:(lia)).
  replace sz' with (2 * (sz' / 8) * 2 ^ 2) at 1 by lia. apply lor_low_bits; [lia|]. by destruct f, p.
Qed.
End words.

(** ** Size classes *)

(** The least size filed under class [k = 4 * fl + sl]. *)
Definition class_min (k : Z) : Z := (4 + k mod 4) * 2 ^ (k / 4 - 2).

Lemma log2_floor_spec v : 0 < v < 2 ^ 32 ->
  tlsf_log2_floor v = Z.log2 v /\ 0 <= Z.log2 v < 32 /\ 2 ^ Z.log2 v <= v < 2 * 2 ^ Z.log2 v.
Proof.
  intros Hv. pose proof (Z.log2_spec v ltac:(lia)) as Hs. rewrite Z.pow_succ_r in Hs by apply Z.log2_nonneg.
  pose proof (Z.log2_nonneg v). assert (Z.log2 v < 32) by (apply Z.log2_lt_pow2; lia).
  unfold tlsf_log2_floor, tlsf_clz. destruct (Z.eqb_spec v 0); [lia|]. rewrite sub32_small by lia. lia.
Qed.

Lemma index_parts fl sl : 0 <= sl < 4 -> list_index fl sl / 4 = fl /\ list_index fl sl mod 4 = sl.
Proof. intros. unfold list_index. Z.to_euclidean_division_equations; lia. Qed.

Lemma class_min_next k : 8 <= k -> class_min (k + 1) = class_min k + 2 ^ (k / 4 - 2).
Proof.
  intros Hk. unfold class_min. pose proof (Z.div_mod k 4 ltac:(lia)).
  pose proof (Z.mod_pos_bound k 4 ltac:(lia)).
  destruct (decide (k mod 4 = 3)) as [E|].
  - assert ((k + 1) / 4 = k / 4 + 1 /\ (k + 1) mod 4 = 0) as [-> ->]
      by (Z.to_euclidean_division_equations; lia).
    replace (k / 4 + 1 - 2) with (Z.succ (k / 4 - 2)) by lia. rewrite Z.pow_succ_r by lia. lia.
  - assert ((k + 1) / 4 = k / 4 /\ (k + 1) mod 4 = k mod 4 + 1) as [-> ->]
      by (Z.to_euclidean_division_equations; lia). lia.
Qed.

Lemma class_min_mono k k' : 8 <= k <= k' -> class_min k <= class_min k'.
Proof.
  intros [Hk Hkk]. replace k' with (k + Z.of_nat (Z.to_nat (k' - k))) by lia.
  induction (Z.to_nat (k' - k)) as [|n IH]; [rewrite Z.add_0_r; lia|].
  replace (k + Z.of_nat (S n)) with (k + Z.of_nat n + 1) by lia. rewrite class_min_next by lia. lia.
Qed.

(** [mapping_insert] files a size under the class whose bounds enclose it;
    the last class takes everything larger. *)
Lemma mapping_insert_spec size : 16 <= size < 2 ^ 32 ->
  exists k, mapping_insert size = (k / 4, k mod 4) /\ 16 <= k < 64 /\ class_min k <= size /\
    (k < 63 -> size < class_min (k + 1)).
Proof.
  intros Hs. destruct (log2_floor_spec size ltac:(lia)) as (Hl & Hr & Hb).
  unfold mapping_insert. change (2 ^ (TLSF_SLI_LOG2 + 1)) with 8. destruct (Z.ltb_spec size 8); [lia|].
  rewrite Hl. set (fl := Z.log2 size) in *.
  assert (Hfl : 4 <= fl) by (apply (Z.log2_le_mono 16); lia).
  unfold TLSF_FLI_COUNT. destruct (Z.leb_spec 16 fl).
  - exists 63. split; [done|]. split; [lia|]. split; [|lia].
    change (class_min 63) with 57344. assert (2 ^ 16 <= 2 ^ fl) by (apply Z.pow_le_mono_r; lia). lia.
  - rewrite sub32_small by klia. unfold TLSF_SLI_LOG2. rewrite Z.shiftr_div_pow2 by lia.
    assert (Hp : 2 ^ fl = 4 * 2 ^ (fl - 2)) by (change 4 with (2 ^ 2); rewrite <- Z.pow_add_r by lia; f_equal; lia).
    assert (0 < 2 ^ (fl - 2)) by lia. set (g := 2 ^ (fl - 2)) in *.
    assert (Hq : 4 <= size / g < 8) by (split; [apply Z.div_le_lower_bound|apply Z.div_lt_upper_bound]; lia).
    assert (Hx : Z.lxor (size / g) (2 ^ 2) = size / g - 4).
    { assert (size / g = 4 \/ size / g = 5 \/ size / g = 6 \/ size / g = 7) as [->|[->|[->| ->]]] by lia; done. }
    rewrite Hx. destruct (index_parts fl (size / g - 4)) as [Hi1 Hi2]; [lia|].
    exists (list_index fl (size / g - 4)). rewrite Hi1, Hi2. split; [done|].
    assert (Hk : 16 <= list_index fl (size / g - 4) < 64) by (unfold list_index; lia). split; [done|].
    assert (Hm : class_min (list_index fl (size / g - 4)) = size / g * g).
    { unfold class_min. rewrite Hi1, Hi2. fold g. f_equal. lia. }
    rewrite class_min_next, Hi1, Hm by lia. fold g.
    pose proof (Z.div_mod size g ltac:(lia)). pose proof (Z.mod_pos_bound size g ltac:(lia)). lia.
Qed.

(** Every size filed from the searched class on is at least the request, as
    long as the request is not above the largest class minimum. *)
Lemma mapping_search_spec size : 16 <= size <= class_min 63 ->
  exists k, mapping_search size = (k / 4, k mod 4) /\ 16 <= k < 64 /\ size <= class_min k /\
    class_min k <= size + size / 4.
Proof.
  change (class_min 63) with 57344.
  intros Hs. destruct (log2_floor_spec size ltac:(lia)) as (Hl & Hr & Hb).
  unfold mapping_search. change (2 ^ (TLSF_SLI_LOG2 + 1)) with 8. destruct (Z.leb_spec 8 size); [|lia].
  rewrite Hl. set (fl := Z.log2 size) in *.
  assert (Hfl : 4 <= fl) by (apply (Z.log2_le_mono 16); lia).
  assert (Hp : 2 ^ fl = 4 * 2 ^ (fl - 2)) by (change 4 with (2 ^ 2); rewrite <- Z.pow_add_r by lia; f_equal; lia).
  unfold TLSF_SLI_LOG2. rewrite (sub32_small fl), shl32_pow2 by lia. set (g := 2 ^ (fl - 2)) in *.
  assert (0 < g) by (unfold g; lia). rewrite (sub32_small g), add32_small by lia.
  destruct (mapping_insert_spec (size + (g - 1))) as (k & Hk & Hkr & Hlo & Hhi); [lia|].
  exists k. split; [done|]. split; [done|].
  assert (Hg : g <= size / 4) by (apply Z.div_le_lower_bound; lia). split; [|intros; lia].
  destruct (decide (k = 63)) as [->|]; [change (class_min 63) with 57344; lia|].
  specialize (Hhi ltac:(lia)). rewrite class_min_next in Hhi by lia.
  destruct (Z.le_gt_cases size (class_min k)); [done|exfalso].
  assert (4 <= k / 4) by (apply Z.div_le_lower_bound; lia).
  assert (Hlt : fl - 2 < k / 4 - 2) by (apply (Z.pow_lt_mono_r_iff 2); [lia..|]; fold g; lia).
  assert (Hge : 2 ^ (fl + 1) <= 2 ^ (k / 4)) by (apply Z.pow_le_mono_r; lia).
  assert (Hpk : 2 ^ (k / 4) = 4 * 2 ^ (k / 4 - 2)).
  { change 4 with (2 ^ 2) at 2. rewrite <- Z.pow_add_r by lia. f_equal. lia. }
  rewrite Z.pow_add_r in Hge by lia. unfold class_min in *.
  pose proof (Z.mod_pos_bound k 4 ltac:(lia)). nia.
Qed.

(** ** Bit scans *)

Lemma trailing_zeros_spec v : forall n i,
  (forall j, 0 <= j < i -> Z.testbit v j = false) -> 0 <= i ->
  (exists j, i <= j < i + Z.of_nat n /\ Z.testbit v j = true) ->
  let r := trailing_zeros n i v in
  i <= r < i + Z.of_nat n /\ Z.testbit v r = true /\ forall j, 0 <= j < r -> Z.testbit v j = false.
Proof.
  induction n as [|n IH]; intros i Hlow Hi (j & Hj & Hb); [lia|]. cbn [trailing_zeros].
  destruct (Z.testbit v i) eqn:E; [split_and!; [lia..|done|done]|].
  destruct (IH (i + 1)) as (H1 & H2 & H3).
  - intros j' Hj'. destruct (decide (j' = i)) as [->|]; [done|]. apply Hlow. lia.
  - lia.
  - exists j. split; [|done]. destruct (decide (j = i)) as [->|]; [congruence|]. lia.
  - split_and!; [lia..|done|done].
Qed.

Lemma ffs_spec v w : 0 < v < 2 ^ w -> 0 <= w <= 32 ->
  let r := tlsf_ffs v in
  0 <= r < w /\ Z.testbit v r = true /\ forall j, 0 <= j < r -> Z.testbit v j = false.
Proof.
  intros Hv Hw. cbv zeta.
  assert (Hhi : forall j, w <= j -> Z.testbit v j = false).
  { intros j Hj. rewrite <- (Z.mod_small v (2 ^ w)) by lia. apply Z.mod_pow2_bits_high. lia. }
  destruct (trailing_zeros_spec v 32 0) as (H1 & H2 & H3); [intros; lia|lia| |].
  - exists (Z.log2 v). pose proof (Z.log2_nonneg v). rewrite Z.bit_log2 by lia. split; [|done].
    assert (Z.log2 v < w) by (apply Z.log2_lt_pow2; lia). lia.
  - fold (tlsf_ffs v) in *. split_and!; [lia| |done|done].
    destruct (Z.lt_ge_cases (tlsf_ffs v) w); [done|]. rewrite Hhi in H2 by done. done.
Qed.

(** ** The bitmaps *)

(** The contents of the 64 free lists. *)
Abbreviation lists := (Z -> list Z).

Definition set_list (L : lists) (k : Z) (l : list Z) : lists :=
  fun j => if decide (j = k) then l else L j.

Lemma set_list_eq L k l : set_list L k l k = l.
Proof. unfold set_list. by rewrite decide_True. Qed.

Lemma set_list_ne L k l j : j <> k -> set_list L k l j = L j.
Proof. intros. unfold set_list. by rewrite decide_False. Qed.

(** A bit is set exactly when its class has a block. *)
Record bitmaps_ok (flm : Z) (slm : zmap) (L : lists) : Prop := {
  bm_sl : forall fl sl, 0 <= fl < 16 -> 0 <= sl < 4 ->
            Z.testbit (zget slm fl) sl = true <-> L (list_index fl sl) <> [];
  bm_sl_range : forall fl, 0 <= zget slm fl < 2 ^ 4;
  bm_fl : forall fl, 0 <= fl < 16 -> Z.testbit flm fl = true <-> zget slm fl <> 0;
  bm_fl_range : 0 <= flm < 2 ^ 16 }.

Lemma lor_pow2_range x i w : 0 <= i < w -> 0 <= x < 2 ^ w -> 0 <= Z.lor x (2 ^ i) < 2 ^ w.
Proof.
  intros Hi Hx. assert (H0 : 0 <= Z.lor x (2 ^ i)) by (apply Z.lor_nonneg; lia). split; [done|].
  destruct (decide (Z.lor x (2 ^ i) = 0)); [lia|]. apply Z.log2_lt_pow2; [lia|].
  rewrite Z.log2_lor, Z.log2_pow2 by lia.
  destruct (decide (x = 0)) as [->|]; [cbn; lia|]. apply Z.max_lub_lt; [apply Z.log2_lt_pow2; lia|lia].
Qed.

Lemma lor_pow2_bit x i j : 0 <= i -> Z.testbit (Z.lor x (2 ^ i)) j = Z.testbit x j || bool_decide (i = j).
Proof.
  intros Hi. rewrite Z.lor_spec, Z.pow2_bits_eqb by lia. f_equal.
  destruct (Z.eqb_spec i j); [by rewrite bool_decide_true|by rewrite bool_decide_false].
Qed.

Lemma ldiff_pow2_bit x i j : 0 <= i -> Z.testbit (Z.ldiff x (2 ^ i)) j = Z.testbit x j && bool_decide (i <> j).
Proof.
  intros Hi. rewrite Z.ldiff_spec, Z.pow2_bits_eqb by lia. f_equal.
  destruct (Z.eqb_spec i j); [rewrite bool_decide_false by tauto; done|by rewrite bool_decide_true].
Qed.

Lemma bits_zero x w : 0 <= w -> 0 <= x < 2 ^ w -> (forall i, 0 <= i < w -> Z.testbit x i = false) -> x = 0.
Proof.
  intros Hw Hx Hb. apply Z.bits_inj'. intros i Hi. rewrite Z.bits_0.
  destruct (Z.ltb_spec i w); [by apply Hb|].
  rewrite <- (Z.mod_small x (2 ^ w)) by lia. apply Z.mod_pow2_bits_high. lia.
Qed.

Lemma ldiff_range x y w : 0 <= w -> 0 <= x < 2 ^ w -> 0 <= Z.ldiff x y < 2 ^ w.
Proof.
  intros Hw Hx. assert (H0 : 0 <= Z.ldiff x y) by (apply Z.ldiff_nonneg; lia). split; [done|].
  rewrite <- (Z.mod_small x (2 ^ w)), <- Z.land_ones by lia.
  assert (He : Z.ldiff (Z.land x (Z.ones w)) y = Z.land (Z.ldiff x y) (Z.ones w)).
  { apply Z.bits_inj'. intros i Hi. rewrite Z.ldiff_spec, !Z.land_spec, Z.ldiff_spec. by destruct (Z.testbit x i), (Z.testbit (Z.ones w) i), (Z.testbit y i). }
  rewrite He, Z.land_ones by lia. apply Z.mod_pos_bound. lia.
Qed.

Lemma clear_bit x i w : 0 <= x < 2 ^ w -> 0 <= w <= 32 -> 0 <= i < 32 ->
  Z.land x (not32 (shl32 1 i)) = Z.ldiff x (2 ^ i).
Proof.
  intros Hx Hw Hi. rewrite shl32_pow2 by lia. apply land_not32.
  - assert (2 ^ w <= 2 ^ 32) by (apply Z.pow_le_mono_r; lia). lia.
  - split; [lia|]. apply Z.pow_lt_mono_r; lia.
Qed.

Section bitmaps.
Context (flm : Z) (slm : zmap) (L : lists) (k : Z) (l : list Z).
Context (Hok : bitmaps_ok flm slm L) (Hk : 0 <= k < 64).

Lemma class_parts : 0 <= k / 4 < 16 /\ 0 <= k mod 4 < 4 /\ list_index (k / 4) (k mod 4) = k.
Proof. unfold list_index. Z.to_euclidean_division_equations; lia. Qed.

Lemma index_inj fl sl : 0 <= sl < 4 -> list_index fl sl = k <-> fl = k / 4 /\ sl = k mod 4.
Proof. unfold list_index. Z.to_euclidean_division_equations; lia. Qed.

Lemma bitmaps_insert :
  l <> [] ->
  bitmaps_ok (Z.lor flm (2 ^ (k / 4))) (<[k / 4 := Z.lor (zget slm (k / 4)) (2 ^ (k mod 4))]> slm)
    (set_list L k l).
Proof.
  intros Hl. destruct Hok as [Hsl Hsr Hfl Hfr]. destruct class_parts as (H1 & H2 & H3). constructor.
  - intros fl sl Hf Hs. rewrite zget_insert. unfold set_list. pose proof (index_inj fl sl Hs) as Hi.
    case_decide as Hd.
    + subst fl. rewrite lor_pow2_bit by lia.
      destruct (decide (sl = k mod 4)) as [->|Hne].
      * rewrite decide_True by tauto. rewrite bool_decide_true, orb_true_r by done. done.
      * rewrite decide_False by tauto. rewrite bool_decide_false, orb_false_r by done. by apply Hsl.
    + rewrite decide_False by naive_solver. by apply Hsl.
  - intros fl. rewrite zget_insert. case_decide; [|done]. apply lor_pow2_range; [lia|done].
  - intros fl Hf. rewrite lor_pow2_bit, zget_insert by lia. case_decide as Hd.
    + subst. rewrite bool_decide_true, orb_true_r by done. split; [intros _ Hz|done].
      assert (Hb : Z.testbit (Z.lor (zget slm (k / 4)) (2 ^ (k mod 4))) (k mod 4) = true)
        by (rewrite lor_pow2_bit, bool_decide_true, orb_true_r by lia; done).
      by rewrite Hz, Z.bits_0 in Hb.
    + rewrite bool_decide_false, orb_false_r by done. by apply Hfl.
  - apply lor_pow2_range; [lia|done].
Qed.

Lemma bitmaps_same : L k <> [] -> l <> [] -> bitmaps_ok flm slm (set_list L k l).
Proof.
  intros HL Hl. destruct Hok as [Hsl Hsr Hfl Hfr]. constructor; try done.
  intros fl sl Hf Hs. rewrite Hsl by done. unfold set_list. case_decide as Hd; [rewrite Hd|]; done.
Qed.

Lemma bitmaps_remove :
  let sl_map := Z.ldiff (zget slm (k / 4)) (2 ^ (k mod 4)) in
  bitmaps_ok (if sl_map =? 0 then Z.ldiff flm (2 ^ (k / 4)) else flm) (<[k / 4 := sl_map]> slm)
    (set_list L k []).
Proof.
  cbv zeta. destruct Hok as [Hsl Hsr Hfl Hfr]. destruct class_parts as (H1 & H2 & H3).
  set (x := Z.ldiff _ _). constructor.
  - intros fl sl Hf Hs. rewrite zget_insert. unfold set_list. pose proof (index_inj fl sl Hs) as Hi.
    case_decide as Hd.
    + subst fl. unfold x. rewrite ldiff_pow2_bit by lia.
      destruct (decide (sl = k mod 4)) as [->|Hne].
      * rewrite decide_True by tauto. rewrite bool_decide_false, andb_false_r by tauto. done.
      * rewrite decide_False by tauto. rewrite bool_decide_true, andb_true_r by done. by apply Hsl.
    + rewrite decide_False by naive_solver. by apply Hsl.
  - intros fl. rewrite zget_insert. case_decide; [|done]. by apply ldiff_range.
  - intros fl Hf. rewrite zget_insert. destruct (Z.eqb_spec x 0) as [Hx|Hx].
    + rewrite ldiff_pow2_bit by lia. case_decide as Hd.
      * rewrite bool_decide_false, andb_false_r by tauto. done.
      * rewrite bool_decide_true, andb_true_r by done. by apply Hfl.
    + case_decide as Hd; [|by apply Hfl]. subst. rewrite Hfl by done. split; [done|]. intros _ Hz.
      apply Hx. unfold x. by rewrite Hz, Z.ldiff_0_l.
  - destruct (x =? 0); [by apply ldiff_range|done].
Qed.
End bitmaps.

(** ** The doubly linked lists *)

Definition first (l : list Z) : Z := default 0 (head l).
Definition final (l : list Z) : Z := default 0 (last l).

(** Each node points to its neighbours. *)
Definition dll (m : zmap) (l : list Z) : Prop :=
  forall l1 a l2, l = l1 ++ a :: l2 ->
    zget m (free_prev a) = final l1 /\ zget m (free_next a) = first l2.

(** Two nodes are the same or their headers and links do not overlap. *)
Definition apart (a b : Z) : Prop := a = b \/ a + 16 <= b \/ b + 16 <= a.

Record links_ok (m heads : zmap) (L : lists) : Prop := {
  lk_head : forall k, 0 <= k < 64 -> zget heads k = first (L k);
  lk_dll : forall k, dll m (L k);
  lk_pos : forall k a, a ∈ L k -> 0 < a;
  lk_nodup : forall k, NoDup (L k);
  lk_uniq : forall k j a, a ∈ L k -> a ∈ L j -> k = j;
  lk_apart : forall k j a b, a ∈ L k -> b ∈ L j -> apart a b }.

(** [m] and [m'] agree except on the links of the nodes [a]. *)
Definition same_but_links (node : Z -> Prop) (m m' : zmap) : Prop :=
  forall x, (forall a, node a -> x <> free_prev a /\ x <> free_next a) -> zget m' x = zget m x.

Lemma first_in l : first l <> 0 -> first l ∈ l.
Proof. destruct l; cbn; [done|]. intros _. left. Qed.

Lemma final_in l : final l <> 0 -> final l ∈ l.
Proof. unfold final. destruct (last l) eqn:E; [|done]. intros _. by apply last_Some_elem_of. Qed.

Lemma app_middle {A} (l1 l2 k1 k2 : list A) b :
  l1 ++ l2 = k1 ++ b :: k2 ->
  (exists r, l1 = k1 ++ b :: r /\ k2 = r ++ l2) \/ (exists r, l2 = r ++ b :: k2 /\ k1 = l1 ++ r).
Proof.
  revert k1. induction l1 as [|x l1 IH]; intros k1 He; cbn in He; [right; by exists k1|].
  destruct k1 as [|y k1]; cbn in He; injection He as -> He; [left; by exists l1|].
  destruct (IH _ He) as [(r & -> & ->)|(r & -> & ->)]; [left|right]; by exists r.
Qed.

(** The memory after unlinking [a] from between [prev] and [next]. *)
Definition unlinked (m : zmap) (prev next : Z) : zmap :=
  let m := if next =? 0 then m else <[free_prev next := prev]> m in
  if prev =? 0 then m else <[free_next prev := next]> m.

Ltac addr := unfold apart, free_prev, free_next, prev_phys in *; lia.

Lemma unlinked_get m prev next x :
  zget (unlinked m prev next) x =
    if decide (prev <> 0 /\ x = free_next prev) then next
    else if decide (next <> 0 /\ x = free_prev next) then prev else zget m x.
Proof.
  unfold unlinked. destruct (Z.eqb_spec prev 0), (Z.eqb_spec next 0); rewrite ?zget_insert;
    repeat case_decide; try done; naive_solver.
Qed.

Lemma first_app l1 l2 : first (l1 ++ l2) = match l1 with [] => first l2 | a :: _ => a end.
Proof. by destruct l1. Qed.

Lemma final_app l1 l2 : final (l1 ++ l2) = match l2 with [] => final l1 | _ => final l2 end.
Proof.
  unfold final. destruct l2; [by rewrite app_nil_r|]. rewrite last_app.
  destruct (last (z :: l2)) eqn:E; [done|]. by apply last_None in E.
Qed.

Lemma final_snoc l a : final (l ++ [a]) = a.
Proof. unfold final. by rewrite last_snoc. Qed.

Section unlink.
Context (m : zmap) (l1 l2 : list Z) (a : Z).
Context (Hd : dll m (l1 ++ a :: l2)) (Hnd : NoDup (l1 ++ a :: l2)).
Context (Hap : forall x y, x ∈ l1 ++ a :: l2 -> y ∈ l1 ++ a :: l2 -> apart x y).
Context (Hpos : forall x, x ∈ l1 ++ a :: l2 -> 0 < x).

Lemma dll_unlink : dll (unlinked m (final l1) (first l2)) (l1 ++ l2).
Proof.
  intros k1 b k2 He.
  assert (Hin : forall x, x ∈ l1 ++ l2 -> x ∈ l1 ++ a :: l2) by set_solver.
  assert (Hb : b ∈ l1 ++ a :: l2) by (apply Hin; rewrite He; set_solver).
  assert (Hpf : final l1 <> 0 -> final l1 ∈ l1 ++ a :: l2) by (intros ?%final_in; set_solver).
  assert (Hnf : first l2 <> 0 -> first l2 ∈ l1 ++ a :: l2) by (intros ?%first_in; set_solver).
  rewrite !unlinked_get.
  assert (Hd1 : ~ (final l1 <> 0 /\ free_prev b = free_next (final l1))).
  { intros [Hz Heq]. pose proof (Hap _ _ Hb (Hpf Hz)). addr. }
  assert (Hd2 : ~ (first l2 <> 0 /\ free_next b = free_prev (first l2))).
  { intros [Hz Heq]. pose proof (Hap _ _ Hb (Hnf Hz)). addr. }
  rewrite (decide_False (P := final l1 <> 0 /\ free_prev b = _)) by exact Hd1.
  rewrite (decide_False (P := first l2 <> 0 /\ free_next b = _)) by exact Hd2.
  assert (Hbz : b <> 0) by (pose proof (Hpos b Hb); lia).
  assert (Hdis : forall x, x ∈ l1 -> x ∈ l2 -> False).
  { apply NoDup_app in Hnd as (_ & Hnd & _). intros x Hx Hx'. apply (Hnd x Hx). set_solver. }
  destruct (app_middle _ _ _ _ _ He) as [(r & Hl1 & Hk2)|(r & Hl2 & Hk1)].
  - destruct (Hd k1 b (r ++ a :: l2)) as [Hp Hn]; [by rewrite Hl1, <- app_assoc|].
    rewrite Hp, Hn. split.
    + rewrite decide_False; [done|]. intros [Hz Heq]. apply (Hdis b).
      * rewrite Hl1. set_solver.
      * replace b with (first l2) by addr. by apply first_in.
    + rewrite Hk2, !first_app, Hl1. destruct r as [|c r].
      * rewrite final_snoc, decide_True by done. done.
      * rewrite decide_False; [done|]. intros [Hz Heq].
        assert (Hf : final (k1 ++ b :: c :: r) = b) by addr.
        rewrite Hl1 in Hnd. rewrite <- app_assoc in Hnd. apply NoDup_app in Hnd as (_ & _ & Hnd).
        cbn in Hnd. apply NoDup_cons in Hnd as [Hnb _]. apply Hnb.
        rewrite final_app in Hf. unfold final in Hf. rewrite last_cons_cons in Hf.
        destruct (last (c :: r)) eqn:El; [|by apply last_None in El]. cbn in Hf. subst.
        apply last_Some_elem_of in El. set_solver.
  - destruct (Hd (l1 ++ a :: r) b k2) as [Hp Hn]; [by rewrite Hl2, <- app_assoc|].
    rewrite Hp, Hn. split.
    + rewrite Hk1, !final_app, Hl2. destruct r as [|c r].
      * rewrite decide_True by (split; [cbn; done|done]). done.
      * rewrite decide_False.
        { unfold final at 1. rewrite last_cons_cons. done. }
        intros [Hz Heq]. cbn in Heq. assert (c = b) as -> by addr.
        apply NoDup_app in Hnd as (_ & _ & Hnd). rewrite Hl2 in Hnd.
        apply NoDup_cons in Hnd as [_ Hnd]. cbn in Hnd. apply NoDup_cons in Hnd as [Hnb _]. set_solver.
    + rewrite decide_False; [done|]. intros [Hz Heq]. apply (Hdis b).
      * replace b with (final l1) by addr. by apply final_in.
      * rewrite Hl2. set_solver.
Qed.
End unlink.

(** The memory after pushing [b] in front of [head]. *)
Definition pushed (m : zmap) (b head : Z) : zmap :=
  let m := <[free_next b := head]> (<[free_prev b := 0]> m) in
  if head =? 0 then m else <[free_prev head := b]> m.

Lemma pushed_get m b head x :
  zget (pushed m b head) x =
    if decide (head <> 0 /\ x = free_prev head) then b
    else if decide (x = free_next b) then head
    else if decide (x = free_prev b) then 0 else zget m x.
Proof.
  unfold pushed. destruct (Z.eqb_spec head 0); rewrite !zget_insert;
    repeat case_decide; try done; naive_solver.
Qed.

Lemma dll_push m l b :
  dll m l -> NoDup (b :: l) -> 0 < b ->
  (forall x y, x ∈ b :: l -> y ∈ b :: l -> apart x y) -> (forall x, x ∈ l -> 0 < x) ->
  dll (pushed m b (first l)) (b :: l).
Proof.
  intros Hd Hnd Hb Hap Hpos k1 x k2 He. rewrite !pushed_get.
  assert (Hx : x ∈ b :: l) by (rewrite He; set_solver).
  assert (Hf : first l <> 0 -> first l ∈ b :: l) by (intros ?%first_in; set_solver).
  assert (Hne : ~ (first l <> 0 /\ free_next x = free_prev (first l))).
  { intros [Hz Heq]. pose proof (Hap _ _ Hx (Hf Hz)). addr. }
  assert (Hbx : apart b x) by (apply Hap; set_solver).
  rewrite (decide_False (P := first l <> 0 /\ free_next x = _)) by exact Hne.
  apply NoDup_cons in Hnd as [Hnb Hnd]. destruct k1 as [|c k1]; cbn in He; injection He as <- He.
  - rewrite (decide_False (P := _ /\ free_prev b = _)).
    2:{ intros [Hz Heq]. apply Hnb. replace b with (first l) by addr. by apply first_in. }
    rewrite (decide_False (P := free_prev b = free_next b)) by addr.
    rewrite !decide_True by done. by rewrite He.
  - destruct (Hd k1 x k2 He) as [Hp Hn]. rewrite Hp, Hn.
    assert (Hxl : x ∈ l) by (rewrite He; set_solver). assert (x <> b) by (by intros ->).
    rewrite (decide_False (P := free_next x = free_next b)) by addr.
    rewrite (decide_False (P := free_next x = free_prev b)) by addr.
    rewrite (decide_False (P := free_prev x = free_next b)) by addr.
    rewrite (decide_False (P := free_prev x = free_prev b)) by addr.
    split; [|done]. destruct k1 as [|d k1].
    + rewrite decide_True; [done|]. rewrite He. cbn. pose proof (Hpos x Hxl). split; [lia|done].
    + rewrite decide_False; [done|]. rewrite He. cbn. intros [Hz Heq]. assert (d = x) as -> by addr. rewrite He in Hnd.
      cbn in Hnd. apply NoDup_cons in Hnd as [Hnd _]. set_solver.
Qed.

(** ** Filing and unfiling a block *)

(** The blocks that are on some list. *)
Definition filed (L : lists) (a : Z) : Prop := exists k, a ∈ L k.

Record lists_ok (m : zmap) (flm : Z) (slm heads : zmap) (L : lists) : Prop := {
  lo_links : links_ok m heads L;
  lo_bitmaps : bitmaps_ok flm slm L }.

Abbreviation state_lists s := (lists_ok (mem s) (fl_bitmap s) (sl_bitmap s) (free_lists s)).

Lemma dll_ext m m' l :
  (forall a, a ∈ l -> zget m' (free_prev a) = zget m (free_prev a) /\
                      zget m' (free_next a) = zget m (free_next a)) ->
  dll m l -> dll m' l.
Proof.
  intros Hx Hd l1 a l2 He. destruct (Hx a) as [-> ->]; [rewrite He; set_solver|]. by apply Hd.
Qed.

(** What becomes of the lists when list [k] turns into [l]. *)
Lemma links_update m m' heads L k l :
  links_ok m heads L -> dll m' l -> NoDup l -> (forall a, a ∈ l -> 0 < a) ->
  (forall a b j, a ∈ l -> b ∈ l \/ b ∈ L j -> apart a b) ->
  (forall a j, a ∈ l -> a ∈ L j -> j = k) ->
  (forall a j, j <> k -> a ∈ L j -> zget m' (free_prev a) = zget m (free_prev a) /\
                                   zget m' (free_next a) = zget m (free_next a)) ->
  links_ok m' (<[k := first l]> heads) (set_list L k l).
Proof.
  intros [Hh Hd Hp Hn Hu Ha] Hd' Hn' Hp' Ha' Hu' Hx. unfold set_list. constructor.
  - intros j Hj. rewrite zget_insert. destruct (decide (k = j)) as [->|]; [by rewrite decide_True|].
    rewrite decide_False by done. by apply Hh.
  - intros j. case_decide; [done|]. eapply dll_ext; [|apply Hd]. intros a Ha0. by apply (Hx a j).
  - intros j a. case_decide; [apply Hp'|apply Hp].
  - intros j. by case_decide.
  - intros j1 j2 a. destruct (decide (j1 = k)) as [->|], (decide (j2 = k)) as [->|]; intros Hl1 Hl2.
    + done.
    + symmetry. by eapply Hu'.
    + by eapply Hu'.
    + by eapply Hu.
  - assert (Hsym : forall x y, apart x y -> apart y x) by (unfold apart; lia).
    intros j1 j2 a b. destruct (decide (j1 = k)) as [->|], (decide (j2 = k)) as [->|]; intros Hl1 Hl2.
    + apply (Ha' a b k); [done|by left].
    + apply (Ha' a b j2); [done|by right].
    + apply Hsym, (Ha' b a j1); [done|by right].
    + by eapply Ha.
Qed.

(** Two nodes of a well-formed table: the links of one are not the header or
    the links of another. *)
Lemma node_links L m heads a b :
  links_ok m heads L -> filed L a -> filed L b -> a <> b ->
  free_prev a <> free_prev b /\ free_prev a <> free_next b /\ free_next a <> free_next b /\
  free_next a <> free_prev b.
Proof.
  intros Hl [k Ha] [j Hb] Hne. pose proof (lk_apart _ _ _ Hl k j a b Ha Hb). addr.
Qed.

Lemma unlinked_other m prev next x :
  (prev <> 0 -> x <> free_next prev) -> (next <> 0 -> x <> free_prev next) ->
  zget (unlinked m prev next) x = zget m x.
Proof.
  intros H1 H2. rewrite unlinked_get, !decide_False; [done| |]; intros [Hz He]; [by apply H2|by apply H1].
Qed.

Lemma pushed_other m b head x :
  (head <> 0 -> x <> free_prev head) -> x <> free_next b -> x <> free_prev b ->
  zget (pushed m b head) x = zget m x.
Proof.
  intros H1 H2 H3. rewrite pushed_get, !decide_False; try done. intros [Hz He]. by apply H1.
Qed.

Lemma remove_heads heads L k l1 a l2 :
  0 <= k < 64 -> L k = l1 ++ a :: l2 -> NoDup (L k) -> zget heads k = first (L k) ->
  (zget heads k =? a) = match l1 with [] => true | _ => false end.
Proof.
  intros Hk HL Hnd ->. rewrite HL in *. rewrite first_app. destruct l1 as [|c l1]; [apply Z.eqb_refl|].
  apply Z.eqb_neq. intros ->. cbn in Hnd. apply NoDup_cons in Hnd as [Hn _]. set_solver.
Qed.

Lemma links_heads_ext m heads heads' L :
  (forall k, 0 <= k < 64 -> zget heads' k = zget heads k) -> links_ok m heads L -> links_ok m heads' L.
Proof. intros He []. constructor; try done. intros k Hk. rewrite He by done. by apply lk_head0. Qed.

Section remove.
Context (s : tlsf) (L : lists) (k a sz : Z) (l1 l2 : list Z).
Context (Hok : state_lists s L) (Hk : 0 <= k < 64) (HL : L k = l1 ++ a :: l2).

Let m' := unlinked (mem s) (final l1) (first l2).
Let L' := set_list L k (l1 ++ l2).

Lemma remove_neighbours :
  (final l1 <> 0 -> final l1 ∈ L' k /\ final l1 <> a) /\ (first l2 <> 0 -> first l2 ∈ L' k /\ first l2 <> a).
Proof.
  unfold L'. rewrite set_list_eq. destruct Hok as [[_ _ _ Hnd _ _] _]. specialize (Hnd k). rewrite HL in Hnd.
  apply NoDup_app in Hnd as (_ & H1 & [H2 _]%NoDup_cons).
  split; [intros H%final_in|intros H%first_in]; (split; [set_solver|]); intros He; rewrite He in H.
  - apply (H1 a H). set_solver.
  - done.
Qed.

Lemma remove_frame : same_but_links (filed L') (mem s) m'.
Proof.
  intros x Hx. destruct remove_neighbours as [H1 H2]. apply unlinked_other; intros Hz.
  - apply Hx. exists k. by apply H1.
  - apply Hx. exists k. by apply H2.
Qed.

Lemma remove_links : links_ok m' (<[k := first (l1 ++ l2)]> (free_lists s)) L'.
Proof.
  destruct Hok as [Hl _]. pose proof Hl as [Hh Hd Hp Hn Hu Ha].
  assert (Hsub : forall x, x ∈ l1 ++ l2 -> x ∈ L k) by (rewrite HL; set_solver).
  apply (links_update (mem s)); try done.
  - apply (dll_unlink (mem s) l1 l2 a); rewrite <- HL; [apply Hd|apply Hn|intros; by eapply Ha|apply Hp].
  - specialize (Hn k). rewrite HL in Hn. apply NoDup_app in Hn as (? & Hn & [? ?]%NoDup_cons).
    apply NoDup_app. split_and!; [done| |done]. intros x Hx Hx'. apply (Hn x Hx). set_solver.
  - intros x Hx. eapply Hp, Hsub, Hx.
  - intros x y j Hx [Hy|Hy]; [by eapply Ha; apply Hsub|]. by eapply Ha; [apply Hsub|].
  - intros x j Hx Hj. by eapply Hu; [|apply Hsub].
  - intros x j Hj Hx. destruct remove_neighbours as [H1 H2]. unfold L' in *. rewrite set_list_eq in *.
    assert (Hxk : forall y, y ∈ l1 ++ l2 -> x <> y).
    { intros y Hy ->. apply Hj. by eapply Hu; [|apply Hsub]. }
    unfold m'. split; apply unlinked_other; intros Hz.
    all: eapply (node_links L); [done|by exists j| |].
    all: first [exists k; apply Hsub; by apply H1|exists k; apply Hsub; by apply H2|apply Hxk; by apply H1|apply Hxk; by apply H2].
Qed.

Lemma free_list_remove_spec :
  block_get_size a (mem s) = sz -> mapping_insert sz = (k / 4, k mod 4) ->
  exists m' flm slm heads,
    free_list_remove a s = with_lists flm slm heads (with_mem (fun _ => m') s) /\
    lists_ok m' flm slm heads L' /\ same_but_links (filed L') (mem s) m'.
Proof.
  intros Hsz Hmap. pose proof Hok as [Hl Hb]. pose proof Hl as [Hh Hd Hp Hn Hu Ha].
  destruct (Hd k l1 a l2 HL) as [Hprev Hnext].
  unfold free_list_remove. rewrite Hprev, Hnext. fold (unlinked (mem s) (final l1) (first l2)). fold m'.
  assert (Hsz' : block_get_size a m' = sz).
  { unfold block_get_size in *. rewrite remove_frame; [done|]. intros b [j Hj].
    assert (filed L b) as [j' Hb'].
    { unfold L', set_list in Hj. case_decide; [|by exists j]. exists k. rewrite HL. set_solver. }
    assert (Hak : a ∈ L k) by (rewrite HL; set_solver). pose proof (Ha k j' a b Hak Hb'). addr. }
  rewrite Hsz', Hmap. destruct (class_parts k Hk) as (Hc1 & Hc2 & Hc3). rewrite Hc3.
  cbn [with_mem free_lists sl_bitmap fl_bitmap].
  rewrite (remove_heads _ L k l1 a l2); [|done|done|apply Hn|by apply Hh].
  pose proof remove_links as Hlinks. pose proof remove_frame as Hframe.
  destruct l1 as [|c l1'].
  - cbn [app] in *. destruct (Z.eqb_spec (first l2) 0) as [Hz|Hz].
    + eexists m', _, _, _. split; [done|]. split; [|done]. split; [done|]. unfold L'.
      replace l2 with (@nil Z).
      2:{ destruct l2 as [|d l2']; [done|]. exfalso. cbn in Hz.
          assert (Hdk : d ∈ L k) by (rewrite HL; set_solver). apply Hp in Hdk. lia. }
      rewrite (clear_bit _ _ 4) by (apply Hb || lia). rewrite (clear_bit _ _ 16) by (apply Hb || lia).
      by apply bitmaps_remove.
    + eexists m', _, _, _. split; [done|]. split; [|done]. split; [done|].
      apply bitmaps_same; [done|rewrite HL; done|]. by destruct l2.
  - eexists m', _, _, (free_lists s). split; [done|]. split; [|done]. split.
    + eapply links_heads_ext; [|exact Hlinks]. intros j Hj. rewrite zget_insert. case_decide; [subst|done].
      rewrite Hh by done. rewrite HL. done.
    + apply bitmaps_same; [done|rewrite HL; done|done].
Qed.
End remove.

Section insert.
Context (s : tlsf) (L : lists) (k b sz : Z).
Context (Hok : state_lists s L) (Hk : 0 <= k < 64) (Hb : 0 < b).
Context (Hnew : ~ filed L b) (Hap : forall a, filed L a -> apart b a).

Let m' := pushed (mem s) b (first (L k)).
Let L' := set_list L k (b :: L k).

Lemma insert_head : first (L k) <> 0 -> first (L k) ∈ L k /\ first (L k) <> b.
Proof. intros H%first_in. split; [done|]. intros He. apply Hnew. exists k. by rewrite <- He. Qed.

Lemma insert_frame : same_but_links (filed L') (mem s) m'.
Proof.
  intros x Hx. assert (Hbf : filed L' b) by (exists k; unfold L'; rewrite set_list_eq; left).
  apply pushed_other; [|by apply Hx..]. intros Hz. apply Hx. exists k. unfold L'. rewrite set_list_eq.
  right. by apply first_in.
Qed.

Lemma insert_links : links_ok m' (<[k := b]> (free_lists s)) L'.
Proof.
  destruct Hok as [Hl _]. pose proof Hl as [Hh Hd Hp Hn Hu Ha].
  assert (Hnk : forall j, b ∉ L j) by (intros j Hj; apply Hnew; by exists j).
  assert (Hself : forall x, apart x x) by (left; done).
  assert (Hsym : forall x y, apart x y -> apart y x) by (unfold apart; lia).
  apply (links_update (mem s) m' (free_lists s) L k (b :: L k)); try done.
  - apply dll_push; [done| |done| |by apply Hp].
    + by apply NoDup_cons.
    + intros x y [->|Hx]%elem_of_cons [->|Hy]%elem_of_cons; [done| | |by eapply Ha].
      * apply Hap. by exists k.
      * apply Hsym, Hap. by exists k.
  - by apply NoDup_cons.
  - intros x [->|Hx]%elem_of_cons; [done|]. by eapply Hp.
  - intros x y j [->|Hx]%elem_of_cons [[->|Hy]%elem_of_cons|Hy]; [done| | | |by eapply Ha..].
    + apply Hap. by exists k.
    + apply Hap. by exists j.
    + apply Hsym, Hap. by exists k.
  - intros x j [->|Hx]%elem_of_cons Hj; [by destruct (Hnk j)|]. by eapply Hu.
  - intros x j Hj Hx. assert (Hxb : apart b x) by (apply Hap; by exists j).
    assert (x <> b) by (intros ->; by apply (Hnk j)). unfold m'.
    split; (apply pushed_other; [|addr..]); intros Hz; destruct (insert_head Hz) as [Hin _];
      (assert (x <> first (L k)) by (intros ->; apply Hj; by eapply Hu));
      (eapply (node_links L); [done|by exists j|by exists k|done]).
Qed.

Lemma free_list_insert_spec :
  block_get_size b (mem s) = sz -> mapping_insert sz = (k / 4, k mod 4) ->
  exists m' flm slm heads,
    free_list_insert b s = with_lists flm slm heads (with_mem (fun _ => m') s) /\
    lists_ok m' flm slm heads L' /\ same_but_links (filed L') (mem s) m'.
Proof.
  intros Hsz Hmap. pose proof Hok as [Hl Hbm]. unfold free_list_insert. rewrite Hsz, Hmap.
  destruct (class_parts k Hk) as (Hc1 & Hc2 & Hc3). rewrite Hc3, (lk_head _ _ _ Hl) by done.
  eexists m', _, _, _. split; [done|]. split; [|apply insert_frame]. split; [apply insert_links|].
  rewrite !shl32_pow2 by lia. by apply bitmaps_insert.
Qed.
End insert.

(** ** The search *)

Lemma mask_bits x i j w : 0 <= x < 2 ^ w -> w <= 32 -> 0 <= i < 32 -> 0 <= j < w ->
  Z.testbit (Z.land x (shl32 (2 ^ 32 - 1) i)) j = Z.testbit x j && (i <=? j).
Proof.
  intros Hx Hw Hi Hj. rewrite Z.land_spec. f_equal. unfold shl32, u32.
  rewrite Z.mod_pow2_bits_low, Z.shiftl_spec by lia.
  change (2 ^ 32 - 1) with (Z.ones 32). destruct (Z.leb_spec i j).
  - apply Z.ones_spec_low. lia.
  - apply Z.testbit_neg_r. lia.
Qed.

Lemma mask_range x y w : 0 <= w -> 0 <= x < 2 ^ w -> 0 <= y -> 0 <= Z.land x y < 2 ^ w.
Proof.
  intros Hw Hx Hy. split; [apply Z.land_nonneg; lia|].
  rewrite <- (Z.mod_small x (2 ^ w)), <- Z.land_ones by lia.
  rewrite <- Z.land_assoc, (Z.land_comm (Z.ones w)), Z.land_assoc, Z.land_ones by lia.
  apply Z.mod_pos_bound. lia.
Qed.

(** The lowest set bit of a bitmap from position [i] on. *)
Lemma masked_ffs x i w : 0 <= x < 2 ^ w -> 0 <= w <= 32 -> 0 <= i < 32 ->
  let y := Z.land x (shl32 (2 ^ 32 - 1) i) in
  (y = 0 /\ forall j, i <= j < w -> Z.testbit x j = false) \/
  (y <> 0 /\ i <= tlsf_ffs y < w /\ Z.testbit x (tlsf_ffs y) = true /\
   forall j, i <= j < tlsf_ffs y -> Z.testbit x j = false).
Proof.
  intros Hx Hw Hi. cbv zeta. set (y := Z.land x _).
  assert (Hbit : forall j, 0 <= j < w -> Z.testbit y j = Z.testbit x j && (i <=? j))
    by (intros; apply (mask_bits x i j w); lia).
  assert (Hy : 0 <= y < 2 ^ w) by (apply mask_range; [lia|done|apply u32_range]).
  destruct (decide (y = 0)) as [Hz|Hz]; [left|right]; (split; [done|]).
  - intros j Hj. specialize (Hbit j ltac:(lia)). rewrite Hz, Z.bits_0 in Hbit.
    destruct (Z.leb_spec i j); [|lia]. by rewrite andb_true_r in Hbit.
  - destruct (ffs_spec y w) as (H1 & H2 & H3); [lia|lia|]. rewrite Hbit in H2 by lia.
    apply andb_true_iff in H2 as [H2 H2'%Z.leb_le]. split; [lia|]. split; [done|].
    intros j Hj. specialize (H3 j ltac:(lia)). rewrite Hbit in H3 by lia.
    destruct (Z.leb_spec i j); [|lia]. by rewrite andb_true_r in H3.
Qed.

(** The search returns the head of the first non-empty list from class [k]
    on, or NULL when all are empty; it never leaves the table. *)
Lemma find_suitable_spec s L k :
  state_lists s L -> 0 <= k < 64 ->
  (exists j a l, find_suitable_block (k / 4) (k mod 4) s = Some a /\ k <= j < 64 /\ L j = a :: l /\
     forall i, k <= i < j -> L i = []) \/
  (find_suitable_block (k / 4) (k mod 4) s = Some 0 /\ forall i, k <= i < 64 -> L i = []).
Proof.
  intros [Hl Hb] Hk. destruct (class_parts k Hk) as (Hc1 & Hc2 & Hc3).
  set (fl := k / 4) in *. set (sl := k mod 4) in *.
  assert (Hempty : forall f e, 0 <= f < 16 -> 0 <= e < 4 ->
            Z.testbit (zget (sl_bitmap s) f) e = false -> L (list_index f e) = []).
  { intros f e Hf He Hbit. destruct (L (list_index f e)) eqn:E; [done|].
    assert (Z.testbit (zget (sl_bitmap s) f) e = true) by (apply (bm_sl _ _ _ Hb); [done..|by rewrite E]).
    congruence. }
  assert (Hhead : forall f e, 0 <= f < 16 -> 0 <= e < 4 -> Z.testbit (zget (sl_bitmap s) f) e = true ->
            exists a l, zget (free_lists s) (list_index f e) = a /\ L (list_index f e) = a :: l).
  { intros f e Hf He Hbit. apply (bm_sl _ _ _ Hb) in Hbit; [|done..].
    rewrite (lk_head _ _ _ Hl) by (unfold list_index; lia).
    destruct (L (list_index f e)) as [|a l]; [done|]. by exists a, l. }
  assert (Hzero : forall f, 0 <= f < 16 -> Z.testbit (fl_bitmap s) f = false -> zget (sl_bitmap s) f = 0).
  { intros f Hf Hbit. destruct (decide (zget (sl_bitmap s) f = 0)) as [|Hn]; [done|].
    apply (bm_fl _ _ _ Hb) in Hn; [congruence|done]. }
  unfold find_suitable_block.
  destruct (masked_ffs (zget (sl_bitmap s) fl) sl 4) as [[Hz Hlow]|(Hz & Hr & Hbit & Hlow)];
    [apply Hb|lia|lia| |]; cbv zeta in *.
  2:{ set (y := Z.land (zget (sl_bitmap s) fl) _) in *. destruct (Z.eqb_spec y 0); [done|].
      set (e := tlsf_ffs y) in *. unfold TLSF_FLI_COUNT, TLSF_SLI_COUNT.
      destruct (Z.ltb_spec fl 16), (Z.ltb_spec e 4); try lia. cbn [andb]. left.
      destruct (Hhead fl e) as (a & l & Ha & Hal); [lia|lia|done|].
      exists (list_index fl e), a, l. rewrite Ha. split; [done|]. unfold list_index in *. split; [lia|]. split; [done|].
      intros i Hi. replace i with (4 * fl + (i - 4 * fl)) by lia. apply Hempty; [lia|lia|]. apply Hlow. lia. }
  rewrite Hz. cbn [Z.eqb]. rewrite add32_small by lia.
  destruct (masked_ffs (fl_bitmap s) (fl + 1) 16) as [[Hzf Hlowf]|(Hzf & Hrf & Hbitf & Hlowf)];
    [apply Hb|lia|lia| |]; cbv zeta in *.
  - rewrite Hzf. cbn [Z.eqb]. right. split; [done|]. intros i Hi.
    pose proof (class_parts i ltac:(lia)) as (H1 & H2 & H3).
    rewrite <- H3. apply Hempty; [done..|]. destruct (decide (i / 4 = fl)) as [E|].
    + rewrite E. apply Hlow. unfold list_index in *. lia.
    + assert (Hf0 : Z.testbit (fl_bitmap s) (i / 4) = false) by (apply Hlowf; unfold list_index in *; lia).
      rewrite Hzero by done. apply Z.bits_0.
  - set (z := Z.land (fl_bitmap s) _) in *. destruct (Z.eqb_spec z 0); [done|].
    set (f := tlsf_ffs z) in *. pose proof (bm_sl_range _ _ _ Hb f) as Hsr.
    apply (bm_fl _ _ _ Hb) in Hbitf; [|lia].
    destruct (ffs_spec (zget (sl_bitmap s) f) 4) as (He1 & He2 & He3); [lia|lia|].
    set (e := tlsf_ffs (zget (sl_bitmap s) f)) in *. unfold TLSF_FLI_COUNT, TLSF_SLI_COUNT.
    destruct (Z.ltb_spec f 16), (Z.ltb_spec e 4); try lia. cbn [andb]. left.
    destruct (Hhead f e) as (a & l & Ha & Hal); [lia|lia|done|].
    exists (list_index f e), a, l. rewrite Ha. split; [done|]. split; [unfold list_index in *; lia|]. split; [done|].
    intros i Hi. pose proof (class_parts i) as (H1' & H2' & H3'); [unfold list_index in *; lia|].
    rewrite <- H3'. apply Hempty; [done..|].
    destruct (decide (i / 4 = f)) as [E|]; [rewrite E; apply He3; unfold list_index in *; lia|].
    destruct (decide (i / 4 = fl)) as [E|]; [rewrite E; apply Hlow; unfold list_index in *; lia|].
    assert (Hf0 : Z.testbit (fl_bitmap s) (i / 4) = false) by (apply Hlowf; unfold list_index in *; lia).
    rewrite Hzero by done. apply Z.bits_0.
Qed.
