(* ===== verification/TlsfSpec.v ===== *)
(** * The TLSF pool as a row of blocks

    The blocks tile the pool; every operation is a change of the row.  On top
    of it, the allocator as a map from live pointers to their capacity. *)

From S2P Require Import Prelude Tlsf TlsfProofs.

(** ** Blocks in memory *)

Record block := mkBlock { baddr : Z; bsize : Z; bfree : bool; bprev : bool }.

Definition bend (b : block) : Z := baddr b + 8 + bsize b.
Definition bword (b : block) : Z := word (bsize b) (bfree b) (bprev b).

(** The value of [f] at the last block, [x] when there is none. *)
Definition at_last {A} (f : block -> A) (x : A) (B : list block) : A :=
  match last B with Some b => f b | None => x end.

Lemma at_last_cons {A} (f : block -> A) x b B : at_last f x (b :: B) = at_last f (f b) B.
Proof. unfold at_last. destruct B as [|c B]; [done|]. rewrite last_cons_cons. by destruct (last (c :: B)) eqn:E; [|apply last_None in E]. Qed.

Lemma at_last_snoc {A} (f : block -> A) x B b : at_last f x (B ++ [b]) = f b.
Proof. unfold at_last. by rewrite last_snoc. Qed.

Lemma at_last_app {A} (f : block -> A) x B1 B2 : at_last f x (B1 ++ B2) = at_last f (at_last f x B1) B2.
Proof. revert x. induction B1 as [|b B1 IH]; intros x; cbn [app]; [done|]. by rewrite !at_last_cons. Qed.

(** [headers m p a B]: from address [a] on, memory holds the headers of the
    blocks [B] one after the other; [p] is the block before them. *)
Fixpoint headers (m : zmap) (p a : Z) (B : list block) : Prop :=
  match B with
  | [] => True
  | b :: B =>
      baddr b = a /\ size_ok (bsize b) /\ zget m a = bword b /\ zget m (prev_phys a) = p /\
      headers m a (bend b) B
  end.

(** The flag that the previous block is free tells the truth, and no two free
    blocks are neighbours. *)
Fixpoint flags_ok (pf : bool) (B : list block) : Prop :=
  match B with
  | [] => True
  | b :: B => bprev b = pf /\ pf && bfree b = false /\ flags_ok (bfree b) B
  end.

Lemma headers_app m p a B1 B2 :
  headers m p a (B1 ++ B2) <->
  headers m p a B1 /\ headers m (at_last baddr p B1) (at_last bend a B1) B2.
Proof.
  revert p a. induction B1 as [|b B1 IH]; intros p a; cbn [headers app]; [tauto|].
  rewrite !at_last_cons, IH. split; [|naive_solver]. intros (<- & ?). naive_solver.
Qed.

Lemma flags_app pf B1 B2 : flags_ok pf (B1 ++ B2) <-> flags_ok pf B1 /\ flags_ok (at_last bfree pf B1) B2.
Proof.
  revert pf. induction B1 as [|b B1 IH]; intros pf; cbn [flags_ok app]; [tauto|].
  rewrite at_last_cons, IH. tauto.
Qed.

Lemma headers_block m p a B b : headers m p a B -> b ∈ B ->
  size_ok (bsize b) /\ zget m (baddr b) = bword b /\ a <= baddr b /\ bend b <= at_last bend a B.
Proof.
  revert p a. induction B as [|c B IH]; intros p a; [first [inlist|set_solver]|].
  cbn [headers]. intros (<- & Hs & Hw & _ & HB) Hb. rewrite at_last_cons.
  assert (Hend : bend c <= at_last bend (bend c) B).
  { clear IH Hb Hw. revert HB. generalize (baddr c) (bend c). intros q x. revert q x.
    induction B as [|d B IH]; intros q x; [cbn; lia|]. cbn [headers].
    intros (He & Hd & _ & _ & HB). rewrite at_last_cons. specialize (IH _ _ HB).
    unfold bend, size_ok in *. lia. }
  apply elem_of_cons in Hb as [->|Hb]; [done|].
  destruct (IH _ _ HB Hb) as (H1 & H2 & H3 & H4). split_and!; try done.
  unfold bend, size_ok in *. lia.
Qed.

Lemma headers_order m p a B1 b B2 : headers m p a (B1 ++ b :: B2) ->
  (forall c, c ∈ B1 -> bend c <= baddr b) /\ (forall c, c ∈ B2 -> bend b <= baddr c).
Proof.
  intros [H1 H2]%headers_app. cbn [headers] in H2. destruct H2 as (Hb & _ & _ & _ & H2). split.
  - intros c Hc. rewrite Hb. by eapply headers_block.
  - intros c Hc. by eapply (headers_block _ _ _ _ _ H2).
Qed.

(** Distinct blocks of a row do not overlap. *)
Lemma headers_disjoint m p a B b c : headers m p a B -> b ∈ B -> c ∈ B ->
  b = c \/ bend b <= baddr c \/ bend c <= baddr b.
Proof.
  intros H Hb Hc. apply list_elem_of_split in Hb as (B1 & B2 & ->).
  destruct (headers_order _ _ _ _ _ _ H) as [H1 H2].
  apply elem_of_app in Hc as [Hc|[->|Hc]%elem_of_cons]; [right; right; by apply H1|by left|right; left; by apply H2].
Qed.

Lemma headers_ext m m' p a B :
  (forall b, b ∈ B -> zget m' (baddr b) = zget m (baddr b) /\
                      zget m' (prev_phys (baddr b)) = zget m (prev_phys (baddr b))) ->
  headers m p a B -> headers m' p a B.
Proof.
  revert p a. induction B as [|b B IH]; intros p a Hx; cbn [headers]; [done|].
  intros (<- & Hs & Hw & Hp & HB). destruct (Hx b) as [E1 E2]; [left|].
  rewrite E1, E2. split_and!; try done. apply IH; [|done]. intros c Hc. apply Hx. by right.
Qed.

(** Writing the links of blocks of the row leaves the headers alone. *)
Lemma headers_links (node : Z -> Prop) m m' p a B :
  headers m p a B -> (forall n, node n -> exists c, c ∈ B /\ baddr c = n) ->
  same_but_links node m m' -> headers m' p a B.
Proof.
  intros H Hn Hs. eapply headers_ext; [|exact H]. intros b Hb.
  split; apply Hs; intros n (c & Hc & <-)%Hn;
    pose proof (headers_disjoint _ _ _ _ _ _ H Hb Hc) as Hd;
    destruct (headers_block _ _ _ _ _ H Hb) as ([? _] & _), (headers_block _ _ _ _ _ H Hc) as ([? _] & _);
    (destruct Hd as [->|Hd]; [addr|]); unfold bend in *; addr.
Qed.

(** Rewriting the header word of one block. *)
Lemma headers_set m p a B1 b B2 b' w :
  headers m p a (B1 ++ b :: B2) -> baddr b' = baddr b -> bsize b' = bsize b -> w = bword b' ->
  headers (<[baddr b := w]> m) p a (B1 ++ b' :: B2).
Proof.
  intros H Ha Hs ->. pose proof (headers_order _ _ _ _ _ _ H) as [Hlo Hhi].
  pose proof H as [H1 H2]%headers_app. apply headers_app. split.
  - eapply headers_ext; [|exact H1]. intros c Hc. specialize (Hlo c Hc).
    destruct (headers_block _ _ _ _ _ H1 Hc) as ([? _] & _). unfold bend in *.
    rewrite !zget_insert_ne by addr. done.
  - cbn [headers] in *. destruct H2 as (Hb & Hsz & Hw & Hp & H2). rewrite <- Hb in *.
    rewrite Ha, zget_insert_eq, zget_insert_ne by addr. unfold bend in *. rewrite Ha, Hs. split_and!; try done.
    eapply headers_ext; [|exact H2]. intros c Hc. specialize (Hhi c Hc). unfold size_ok in *.
    rewrite !zget_insert_ne by addr. done.
Qed.

(** ** The row and the steps on it *)

(** The blocks fill the pool from [a] to the sentinel at [e]. *)
Record row (m : zmap) (a e : Z) (B : list block) : Prop := {
  row_pos : 0 < a;
  row_fit : e + 8 < 2 ^ 32;
  row_headers : headers m 0 a B;
  row_end : at_last bend a B = e;
  row_sentinel : zget m e = 0 }.

Definition set_bfree (f : bool) (b : block) : block := mkBlock (baddr b) (bsize b) f (bprev b).
Definition set_bprev (f : bool) (b : block) : block := mkBlock (baddr b) (bsize b) (bfree b) f.
Definition set_bsize (n : Z) (b : block) : block := mkBlock (baddr b) n (bfree b) (bprev b).

(** [x] is not part of a block header. *)
Definition no_header (B : list block) (x : Z) : Prop :=
  forall b, b ∈ B -> x <> baddr b /\ x <> prev_phys (baddr b).

(** Memory changed at the headers of [B] only. *)
Definition header_writes (B : list block) (m m' : zmap) : Prop :=
  forall x, no_header B x -> zget m' x = zget m x.

(** Outside the headers and the free blocks. *)
Definition quiet (B : list block) (x : Z) : Prop :=
  forall b, b ∈ B -> x <> baddr b /\ x <> prev_phys (baddr b) /\
    (bfree b = true -> ~ (baddr b <= x < bend b)).

Section row.
Context (m : zmap) (a e : Z).

Lemma row_block B b : row m a e B -> b ∈ B ->
  size_ok (bsize b) /\ zget m (baddr b) = bword b /\ a <= baddr b /\ baddr b + 8 + bsize b <= e.
Proof. intros [_ _ H <- _] Hb. by eapply headers_block. Qed.

Lemma row_size B b : row m a e B -> b ∈ B -> block_get_size (baddr b) m = bsize b.
Proof.
  intros H Hb. destruct (row_block _ _ H Hb) as ([? ?] & Hw & _). unfold block_get_size.
  rewrite Hw. apply word_size; [lia|done].
Qed.

Lemma row_next B b : row m a e B -> b ∈ B -> block_next_phys (baddr b) m = bend b.
Proof.
  intros H Hb. unfold block_next_phys. rewrite (row_size _ _ H Hb).
  destruct (row_block _ _ H Hb) as ([? ?] & Hw & ? & ?), H as [? ? _ _ _].
  unfold block_to_ptr, TLSF_BLOCK_OVERHEAD, bend.
  rewrite (add32_small (baddr b)) by lia. rewrite add32_small by lia. done.
Qed.

Lemma row_flags B b : row m a e B -> b ∈ B ->
  block_is_free (baddr b) m = bfree b /\ block_is_prev_free (baddr b) m = bprev b.
Proof.
  intros H Hb. destruct (row_block _ _ H Hb) as ([? ?] & Hw & _). unfold block_is_free, block_is_prev_free.
  rewrite Hw. split; [apply word_free|apply word_prev]; lia || done.
Qed.

Lemma row_nonsentinel B b : row m a e B -> b ∈ B -> block_is_sentinel (baddr b) m = false.
Proof.
  intros H Hb. unfold block_is_sentinel. rewrite (row_size _ _ H Hb).
  destruct (row_block _ _ H Hb) as ([? ?] & _). apply Z.eqb_neq. lia.
Qed.

(** What follows a block: the next block of the row, or the sentinel. *)
Lemma row_after B1 b B2 : row m a e (B1 ++ b :: B2) ->
  match B2 with
  | [] => bend b = e /\ block_is_sentinel (bend b) m = true
  | c :: _ => baddr c = bend b /\ block_is_sentinel (bend b) m = false
  end.
Proof.
  intros H. pose proof H as [_ _ Hh He Hs]. destruct B2 as [|c B2].
  - rewrite at_last_snoc in He. split; [done|]. unfold block_is_sentinel, block_get_size. by rewrite He, Hs.
  - apply headers_app in Hh as [_ Hh]. cbn [headers] in Hh. destruct Hh as (_ & _ & _ & _ & Hc & _).
    split; [done|]. rewrite <- Hc. apply (row_nonsentinel _ c H). first [inlist|set_solver].
Qed.

Lemma row_before B1 b B2 : row m a e (B1 ++ b :: B2) -> zget m (prev_phys (baddr b)) = at_last baddr 0 B1.
Proof. intros [_ _ [_ Hh]%headers_app _ _]. cbn [headers] in Hh. by destruct Hh as (<- & _ & _ & ? & _). Qed.

Lemma row_set B1 b B2 b' w :
  row m a e (B1 ++ b :: B2) -> baddr b' = baddr b -> bsize b' = bsize b -> w = bword b' ->
  row (<[baddr b := w]> m) a e (B1 ++ b' :: B2).
Proof.
  intros H Ha Hs Hw. destruct (row_block _ b H) as ([? ?] & _ & _ & ?); [first [inlist|set_solver]|].
  destruct H as [Hpos Hfit Hh He Hse]. constructor; [done..| | |].
  - by eapply headers_set.
  - rewrite <- He, !at_last_app, !at_last_cons. by replace (bend b') with (bend b) by (unfold bend; lia).
  - by rewrite zget_insert_ne by lia.
Qed.

Lemma row_set_flags B1 b B2 : row m a e (B1 ++ b :: B2) ->
  row (block_set_free (baddr b) m) a e (B1 ++ set_bfree true b :: B2) /\
  row (block_set_used (baddr b) m) a e (B1 ++ set_bfree false b :: B2) /\
  row (block_set_prev_free (baddr b) m) a e (B1 ++ set_bprev true b :: B2) /\
  row (block_set_prev_used (baddr b) m) a e (B1 ++ set_bprev false b :: B2).
Proof.
  intros H. destruct (row_block _ b H) as ([? ?] & Hw & _); [first [inlist|set_solver]|].
  split_and!; apply (row_set _ b); try done; rewrite Hw; unfold bword; symmetry.
  - by rewrite word_set_free by lia.
  - by rewrite word_set_used by lia.
  - by rewrite word_set_prev_free by lia.
  - by rewrite word_set_prev_used by lia.
Qed.

Lemma row_links (node : Z -> Prop) m' B :
  row m a e B -> (forall n, node n -> exists c, c ∈ B /\ baddr c = n) ->
  same_but_links node m m' -> row m' a e B.
Proof.
  intros H Hn Hs. pose proof H as [Hpos Hfit Hh He Hse]. constructor; [done|done|by eapply headers_links|done|].
  rewrite Hs; [done|]. intros n (c & Hc & <-)%Hn. destruct (row_block _ c H Hc) as ([? ?] & _ & _ & ?). addr.
Qed.
End row.

(** Changing the back pointer of the first block of a row. *)
Lemma headers_relink m q x c B q' :
  headers m q x (c :: B) -> headers (<[prev_phys x := q']> m) q' x (c :: B).
Proof.
  intros H. pose proof (headers_order _ _ _ [] _ _ H) as [_ Hhi]. cbn [headers] in *.
  destruct H as (<- & Hs & Hw & _ & HB). rewrite zget_insert_eq, zget_insert_ne by addr. split_and!; try done.
  eapply headers_ext; [|exact HB]. intros d Hd. specialize (Hhi d Hd). unfold bend, size_ok in *.
  rewrite !zget_insert_ne by addr. done.
Qed.

Lemma at_last_some {A} (f : block -> A) x y B : B <> [] -> at_last f x B = at_last f y B.
Proof. intros HB. unfold at_last. destruct (last B) eqn:E; [done|]. by apply last_None in E. Qed.

Lemma headers_end m p a B : headers m p a B -> a <= at_last bend a B.
Proof.
  destruct B as [|b B]; [done|]. intros H. assert (Hb : b ∈ b :: B) by left.
  destruct (headers_block _ _ _ _ _ H Hb) as ([? _] & _ & ? & ?). unfold bend in *. lia.
Qed.

(** Splitting and absorbing replace the blocks [O] by the blocks [N] that
    cover the same bytes, and relink the block behind them. *)
Lemma row_replace m m' a e B1 O B2 N :
  let x := at_last bend a B1 in let y := at_last bend x O in
  row m a e (B1 ++ O ++ B2) -> headers m' (at_last baddr 0 B1) x N -> N <> [] -> O <> [] ->
  at_last bend x N = y -> (forall z, z < x \/ y <= z -> zget m' z = zget m z) ->
  row (match B2 with [] => m' | _ => <[prev_phys y := at_last baddr 0 N]> m' end) a e (B1 ++ N ++ B2).
Proof.
  cbv zeta. intros H HN HNe HOe HNl Hx. pose proof H as [Hpos Hfit Hh He Hse].
  apply headers_app in Hh as [Hh1 [HO Hh2]%headers_app].
  set (x := at_last bend a B1) in *. set (y := at_last bend x O) in *.
  assert (Hlo : forall c, c ∈ B1 -> bend c <= x) by (intros; by eapply headers_block).
  assert (Hhi : forall c, c ∈ B2 -> y <= baddr c) by (intros; by eapply (headers_block _ _ _ _ _ Hh2)).
  assert (HNb : forall c, c ∈ N -> bend c <= y) by (intros c Hc; rewrite <- HNl; by eapply headers_block).
  pose proof (headers_end _ _ _ _ HO) as Hxy. pose proof (headers_end _ _ _ _ Hh2) as Hye.
  assert (HB1 : headers m' 0 a B1).
  { eapply headers_ext; [|exact Hh1]. intros c Hc. specialize (Hlo c Hc).
    destruct (headers_block _ _ _ _ _ Hh1 Hc) as ([? _] & _). unfold bend in *. rewrite !Hx by addr. done. }
  assert (Hend : at_last bend a (B1 ++ N ++ B2) = e).
  { rewrite <- He, !at_last_app. fold x. by rewrite HNl. }
  assert (Hye' : at_last bend y B2 = e) by (rewrite <- He, !at_last_app; done).
  destruct B2 as [|c B2].
  - split; [done|done| |done|rewrite Hx; [done|right; rewrite <- Hye'; done]].
    apply headers_app. split; [done|]. by rewrite app_nil_r.
  - split; [done|done| |done|].
    2:{ assert (Hc : c ∈ c :: B2) by left. destruct (headers_block _ _ _ _ _ Hh2 Hc) as ([? _] & _ & ? & ?).
        rewrite Hye' in *. unfold bend in *. rewrite zget_insert_ne by addr. rewrite Hx by addr. done. }
    apply headers_app. split; [|apply headers_app; split].
    + eapply headers_ext; [|exact HB1]. intros d Hd. specialize (Hlo d Hd).
      destruct (headers_block _ _ _ _ _ Hh1 Hd) as ([? _] & _). unfold bend in *.
      rewrite !zget_insert_ne by addr. done.
    + eapply headers_ext; [|exact HN]. intros d Hd. specialize (HNb d Hd).
      destruct (headers_block _ _ _ _ _ HN Hd) as ([? _] & _). unfold bend in *.
      rewrite !zget_insert_ne by addr. done.
    + fold x. rewrite HNl, (at_last_some baddr (at_last baddr 0 B1) 0 N) by done.
      eapply headers_relink, headers_ext; [|exact Hh2]. intros d Hd. specialize (Hhi d Hd).
      rewrite !Hx by addr. done.
Qed.

Lemma row_split m a e B1 b B2 size :
  row m a e (B1 ++ b :: B2) -> size_ok size -> size + 24 <= bsize b ->
  exists r m', block_split (baddr b) size m = (r, m') /\ r = baddr b + 8 + size /\
    row m' a e (B1 ++ set_bsize size b :: mkBlock r (bsize b - size - 8) false false :: B2) /\
    header_writes (B1 ++ set_bsize size b :: mkBlock r (bsize b - size - 8) false false :: B2) m m'.
Proof.
  intros H Hs Hle. pose proof Hs as [Hs1 Hs2]. pose proof H as [Hpos Hfit _ _ _].
  assert (Hb : b ∈ B1 ++ b :: B2) by first [inlist|set_solver].
  destruct (row_block _ _ _ _ _ H Hb) as ([Hb1 Hb2] & Hw & Hlo & Hhi).
  unfold block_split. rewrite (row_size _ _ _ _ _ H Hb). unfold block_to_ptr, TLSF_BLOCK_OVERHEAD.
  rewrite (sub32_small (bsize b)), sub32_small, (add32_small (baddr b)), add32_small by lia.
  set (r := baddr b + 8 + size). set (rem := bsize b - size - 8).
  assert (Hrem : size_ok rem).
  { split; [lia|]. unfold rem. Z.to_euclidean_division_equations; lia. }
  set (m3 := <[prev_phys r := baddr b]> (block_set_size r rem (<[r := 0]> m))).
  assert (Hm3 : zget m3 (baddr b) = bword b /\ zget m3 r = word rem false false /\
                zget m3 (prev_phys r) = baddr b).
  { unfold m3, block_set_size. rewrite !zget_insert_ne, !zget_insert_eq by addr.
    split; [done|]. split; [|done]. change (Z.land 0 TLSF_BLOCK_FLAG_MASK) with 0. rewrite Z.lor_0_r. unfold word. lia. }
  destruct Hm3 as (E1 & E2 & E3). set (m4 := block_set_size (baddr b) size m3).
  assert (Hm4 : zget m4 (baddr b) = bword (set_bsize size b)).
  { unfold m4, block_set_size. rewrite zget_insert_eq, E1. unfold bword. cbn [set_bsize bsize bfree bprev]. apply word_set_size; done || lia. }
  assert (Hx4 : forall x, x < baddr b \/ bend b <= x -> zget m4 x = zget m x).
  { intros x Hx. unfold m4, m3, block_set_size. rewrite !zget_insert_ne by (unfold bend in *; addr). done. }
  assert (Hnext : block_next_phys r m4 = bend b).
  { unfold block_next_phys, block_get_size, m4, block_set_size. rewrite zget_insert_ne, E2 by addr.
    rewrite word_size by (destruct Hrem; lia). unfold block_to_ptr, TLSF_BLOCK_OVERHEAD.
    rewrite (add32_small r), add32_small by lia. unfold bend. lia. }
  rewrite Hnext. eexists r, _. split; [done|]. split; [done|].
  pose proof (row_after _ _ _ _ _ _ H) as Haft.
  assert (Hsent : block_is_sentinel (bend b) m4 = match B2 with [] => true | _ => false end).
  { unfold block_is_sentinel, block_get_size in *. rewrite Hx4 by lia. destruct B2; apply Haft. }
  rewrite Hsent.
  assert (Hba : baddr b = at_last bend a B1).
  { destruct H as [_ _ [_ Hh]%headers_app _ _]. apply Hh. }
  assert (HN : headers m4 (at_last baddr 0 B1) (baddr b) [set_bsize size b; mkBlock r rem false false]).
  { pose proof (row_before _ _ _ _ _ _ H) as Hpb. cbn [headers set_bsize baddr bsize].
    change (bend (set_bsize size b)) with r.
        assert (zget m4 r = zget m3 r /\ zget m4 (prev_phys r) = zget m3 (prev_phys r)) as [-> ->].
    { unfold m4, block_set_size. rewrite !zget_insert_ne by addr. done. }
    assert (zget m4 (prev_phys (baddr b)) = zget m (prev_phys (baddr b))) as ->.
    { unfold m4, m3, block_set_size. rewrite !zget_insert_ne by addr. done. }
    by split_and!. }
  split.
  - pose proof (row_replace m m4 a e B1 [b] B2 [set_bsize size b; mkBlock r rem false false] H) as Hrow.
    rewrite <- Hba in Hrow. cbn [app] in Hrow. destruct B2; apply Hrow; try done; unfold at_last, bend; cbn; lia.
  - intros x Hx. assert (zget m4 x = zget m x) as E.
    { destruct (Hx (set_bsize size b)) as [Hx1 _]; [first [inlist|set_solver]|].
      destruct (Hx (mkBlock r rem false false)) as [Hx2 Hx3]; [first [inlist|set_solver]|]. cbn in Hx1, Hx2, Hx3.
      unfold m4, m3, block_set_size. by rewrite !zget_insert_ne by done. }
    destruct B2 as [|c B2]; [done|]. destruct Haft as [Hc' _].
    rewrite zget_insert_ne; [done|]. rewrite <- Hc'. intros He. destruct (Hx c); [first [inlist|set_solver]|done].
Qed.

Lemma row_absorb m a e B1 b c B2 :
  row m a e (B1 ++ b :: c :: B2) ->
  let m' := block_absorb_next (baddr b) (baddr c) m in
  row m' a e (B1 ++ set_bsize (bsize b + 8 + bsize c) b :: B2) /\
  header_writes (B1 ++ set_bsize (bsize b + 8 + bsize c) b :: B2) m m'.
Proof.
  intros H. cbv zeta. pose proof H as [Hpos Hfit Hh He Hse].
  assert (Hb : b ∈ B1 ++ b :: c :: B2) by first [inlist|set_solver].
  assert (Hc : c ∈ B1 ++ b :: c :: B2) by first [inlist|set_solver].
  destruct (row_block _ _ _ _ _ H Hb) as ([Hb1 Hb2] & Hw & Hlo & Hhi).
  destruct (row_block _ _ _ _ _ H Hc) as ([Hc1 Hc2] & _ & Hlo' & Hhi').
  destruct (row_after _ _ _ _ _ _ H) as [Hcb _].
  unfold block_absorb_next. rewrite (row_size _ _ _ _ _ H Hb), (row_size _ _ _ _ _ H Hc).
  unfold TLSF_BLOCK_OVERHEAD, bend in *. rewrite (add32_small (bsize b)), add32_small by lia.
  set (n := bsize b + 8 + bsize c). set (m1 := block_set_size (baddr b) n m).
  assert (Hn : size_ok n).
  { split; [lia|]. unfold n. Z.to_euclidean_division_equations; lia. }
  assert (Hm1 : zget m1 (baddr b) = bword (set_bsize n b)).
  { unfold m1, block_set_size. rewrite zget_insert_eq, Hw. unfold bword. cbn [set_bsize bsize bfree bprev].
    apply word_set_size; apply Hn || done || lia. }
  assert (Hx1 : forall x, x <> baddr b -> zget m1 x = zget m x)
    by (intros x Hx; unfold m1, block_set_size; by rewrite zget_insert_ne by done).
  assert (Hnext : block_next_phys (baddr b) m1 = bend c).
  { unfold block_next_phys, block_get_size. rewrite Hm1. unfold bword. cbn [set_bsize bsize bfree bprev].
    rewrite word_size by (destruct Hn; lia). unfold block_to_ptr, TLSF_BLOCK_OVERHEAD, bend.
    rewrite (add32_small (baddr b)), add32_small by lia. lia. }
  rewrite Hnext.
  assert (H' : row m a e ((B1 ++ [b]) ++ c :: B2)) by (rewrite <- app_assoc; done).
  pose proof (row_after _ _ _ _ _ _ H') as Haft.
  assert (Hsent : block_is_sentinel (bend c) m1 = match B2 with [] => true | _ => false end).
  { unfold block_is_sentinel, block_get_size in *. rewrite Hx1 by (unfold bend; lia). destruct B2; apply Haft. }
  rewrite Hsent. split.
  - assert (Hba : baddr b = at_last bend a B1) by (apply headers_app in Hh as [_ Hh]; apply Hh).
    pose proof (row_replace m m1 a e B1 [b; c] B2 [set_bsize n b] H) as Hrow. cbv zeta in Hrow.
    rewrite <- Hba in Hrow. unfold at_last in Hrow. cbn [last app] in Hrow. 
    pose proof (row_before _ _ _ _ _ _ H) as Hpb.
    destruct B2; apply Hrow; try done; unfold bend; cbn [set_bsize baddr bsize headers];
      try (intros; apply Hx1); try (split_and!; try done; rewrite Hx1 by addr; done); lia.
  - intros x Hx. assert (Hxb : x <> baddr b) by (apply (Hx (set_bsize n b)); first [inlist|set_solver]).
    destruct B2 as [|d B2]; [by apply Hx1|]. destruct Haft as [Hd' _].
    rewrite zget_insert_ne; [by apply Hx1|]. rewrite <- Hd'. intros Heq. destruct (Hx d); [first [inlist|set_solver]|done].
Qed.

(** ** The lists hold the free blocks *)

(** A free, or a used, block of [n] bytes at [a]. *)
Definition free_at (B : list block) (a n : Z) : Prop :=
  exists b, b ∈ B /\ bfree b = true /\ baddr b = a /\ bsize b = n.
Definition used_at (B : list block) (a n : Z) : Prop :=
  exists b, b ∈ B /\ bfree b = false /\ baddr b = a /\ bsize b = n.

Lemma free_at_nil a n : free_at [] a n <-> False.
Proof. split; [|done]. intros (b & Hb & _). first [inlist|set_solver]. Qed.

Lemma used_at_nil a n : used_at [] a n <-> False.
Proof. split; [|done]. intros (b & Hb & _). first [inlist|set_solver]. Qed.

Lemma free_at_cons b B a n :
  free_at (b :: B) a n <-> (bfree b = true /\ baddr b = a /\ bsize b = n) \/ free_at B a n.
Proof. unfold free_at. setoid_rewrite elem_of_cons. naive_solver. Qed.

Lemma used_at_cons b B a n :
  used_at (b :: B) a n <-> (bfree b = false /\ baddr b = a /\ bsize b = n) \/ used_at B a n.
Proof. unfold used_at. setoid_rewrite elem_of_cons. naive_solver. Qed.

Lemma free_at_app B1 B2 a n : free_at (B1 ++ B2) a n <-> free_at B1 a n \/ free_at B2 a n.
Proof. unfold free_at. setoid_rewrite elem_of_app. naive_solver. Qed.

Lemma used_at_app B1 B2 a n : used_at (B1 ++ B2) a n <-> used_at B1 a n \/ used_at B2 a n.
Proof. unfold used_at. setoid_rewrite elem_of_app. naive_solver. Qed.

Create Rewrite HintDb blocks.
#[export] Hint Rewrite free_at_nil used_at_nil free_at_cons used_at_cons free_at_app used_at_app : blocks.

Implicit Types P Q : Z -> Z -> Prop.

(** Class [k] is the class of [n] bytes. *)
Definition classed (n k : Z) : Prop := mapping_insert n = (k / 4, k mod 4).

(** The lists hold exactly the blocks [P]. *)
Definition filing (L : lists) P : Prop := forall k a, a ∈ L k <-> exists n, P a n /\ classed n k.

Lemma class_of n : size_ok n -> exists k, classed n k /\ 16 <= k < 64 /\ class_min k <= n.
Proof.
  intros [Hs _]. destruct (mapping_insert_spec n) as (k & H1 & H2 & H3 & _); [lia|]. by exists k.
Qed.

Lemma classed_inj n k j : classed n k -> classed n j -> k = j.
Proof.
  unfold classed. intros -> [= H1 H2].
  pose proof (Z.div_mod k 4 ltac:(lia)). pose proof (Z.div_mod j 4 ltac:(lia)). lia.
Qed.

#[export] Instance filing_proper L : Proper (pointwise_relation Z (pointwise_relation Z iff) ==> iff) (filing L).
Proof. intros P Q HPQ. unfold filing. by setoid_rewrite HPQ. Qed.

Lemma filing_remove L P k a n l1 l2 :
  filing L P -> classed n k -> L k = l1 ++ a :: l2 -> NoDup (L k) -> (forall n', P a n' -> n' = n) ->
  filing (set_list L k (l1 ++ l2)) (fun x y => P x y /\ x <> a).
Proof.
  intros Hf Hk HL Hnd Hu j x. unfold set_list. rewrite HL in Hnd.
  assert (Hmem : forall x, x ∈ l1 ++ l2 <-> x ∈ L k /\ x <> a).
  { intros z. rewrite HL, !elem_of_app, elem_of_cons. apply NoDup_app in Hnd as (_ & Hn & [Hn' _]%NoDup_cons).
    split.
    - intros [Hz|Hz]; (split; [tauto|]); intros ->; [apply (Hn a Hz); left|done].
    - tauto. }
  transitivity (x ∈ L j /\ x <> a).
  { case_decide as Hd; [subst; apply Hmem|]. split; [|tauto]. intros Hx. split; [done|]. intros ->.
    apply Hf in Hx as (n' & Hn' & Hc). rewrite (Hu n' Hn') in Hc. apply Hd. by eapply classed_inj. }
  rewrite (Hf j x). naive_solver.
Qed.

Lemma filing_insert L P k a n :
  filing L P -> classed n k ->
  filing (set_list L k (a :: L k)) (fun x y => P x y \/ (x = a /\ y = n)).
Proof.
  intros Hf Hk j x. unfold set_list. transitivity ((j = k /\ x = a) \/ x ∈ L j).
  { case_decide; [subst; rewrite elem_of_cons|]; tauto. }
  rewrite (Hf j x). split.
  - intros [[-> ->]|(y & Hy & Hc)]; naive_solver.
  - intros (y & [Hy|[-> ->]] & Hc); [naive_solver|]. left. split; [by eapply classed_inj|done].
Qed.

(** ** Filing and unfiling in a row *)

(** [s'] differs from [s] in memory and in the free lists only. *)
Definition relisted (s s' : tlsf) : Prop :=
  exists m flm slm heads, s' = with_lists flm slm heads (with_mem (fun _ => m) s).

(** The state between two steps: [P] are the blocks that are on a list. *)
Record mid (s : tlsf) (a e : Z) (B : list block) P (L : lists) : Prop := {
  md_row : row (mem s) a e B;
  md_lists : state_lists s L;
  md_filing : filing L P;
  md_within : forall x n, P x n -> exists c, c ∈ B /\ baddr c = x /\ bsize c = n }.

(** Outside the blocks [P]. *)
Definition outside P (x : Z) : Prop := forall a n, P a n -> ~ (a <= x < a + 8 + n).

Lemma row_unique m a e B b c : row m a e B -> b ∈ B -> c ∈ B -> baddr b = baddr c -> b = c.
Proof.
  intros H Hb Hc He. destruct (headers_disjoint _ _ _ _ _ _ (row_headers _ _ _ _ H) Hb Hc) as [?|Hd]; [done|].
  destruct (row_block _ _ _ _ _ H Hb) as ([? _] & _), (row_block _ _ _ _ _ H Hc) as ([? _] & _).
  unfold bend in *. lia.
Qed.

Lemma row_distinct m a e B1 b B2 c : row m a e (B1 ++ b :: B2) -> c ∈ B1 ++ B2 ->
  baddr c <> baddr b /\ (bend c <= baddr b \/ bend b <= baddr c).
Proof.
  intros H Hc. pose proof H as [_ _ Hh _ _]. destruct (headers_order _ _ _ _ _ _ Hh) as [H1 H2].
  destruct (row_block _ _ _ _ b H) as ([? _] & _); [first [inlist|set_solver]|].
  destruct (row_block _ _ _ _ c H) as ([? _] & _); [first [inlist|set_solver]|].
  apply elem_of_app in Hc as [Hc|Hc]; [specialize (H1 c Hc)|specialize (H2 c Hc)]; unfold bend in *; lia.
Qed.

(** The free blocks other than [b]. *)
Lemma free_others m a e B1 b B2 x n : row m a e (B1 ++ b :: B2) ->
  free_at (B1 ++ b :: B2) x n /\ x <> baddr b <-> free_at (B1 ++ B2) x n.
Proof.
  intros H. rewrite !free_at_app, free_at_cons.
  assert (Hd : free_at (B1 ++ B2) x n -> x <> baddr b).
  { intros (c & Hc & _ & <- & _). by eapply row_distinct. }
  rewrite free_at_app in Hd. naive_solver.
Qed.

Lemma unfile s a e B P L b :
  mid s a e B P L -> b ∈ B -> P (baddr b) (bsize b) ->
  exists s' L', free_list_remove (baddr b) s = s' /\ relisted s s' /\
    mid s' a e B (fun x n => P x n /\ x <> baddr b) L' /\
    (forall x, outside P x -> zget (mem s') x = zget (mem s) x).
Proof.
  intros [Hrow Hl Hf Hw] HbB Hb.
  destruct (class_of (bsize b)) as (k & Hk & Hkr & _); [by eapply row_block|].
  assert (Hin : baddr b ∈ L k) by (apply Hf; by exists (bsize b)).
  apply list_elem_of_split in Hin as (l1 & l2 & HL).
  destruct (free_list_remove_spec s L k (baddr b) (bsize b) l1 l2) as (m' & flm & slm & heads & He & Hl' & Hm);
    [done|lia|done|by eapply row_size|done|].
  assert (Hf' : filing (set_list L k (l1 ++ l2)) (fun x n => P x n /\ x <> baddr b)).
  { apply (filing_remove L P k _ (bsize b)); [done|done|done|apply Hl|].
    intros n (c & Hc & Hca & <-)%Hw. by rewrite (row_unique _ _ _ _ _ _ Hrow Hc HbB Hca). }
  eexists _, (set_list L k (l1 ++ l2)). split; [exact He|]. split; [by eexists _, _, _, _|].
  assert (Hnode : forall n, filed (set_list L k (l1 ++ l2)) n -> exists y, P n y).
  { intros n [j (y & [Hy _] & _)%Hf']. by exists y. }
  split; [constructor|].
  - eapply row_links; [done| |done]. intros n [y (c & ? & ? & _)%Hw]%Hnode. by exists c.
  - done.
  - done.
  - intros x n [HP _]. by apply Hw.
  - intros x Hq. apply Hm. intros n [y Hy]%Hnode. pose proof (Hq n y Hy).
    apply Hw in Hy as (c & Hc & <- & <-). destruct (row_block _ _ _ _ _ Hrow Hc) as ([? _] & _). addr.
Qed.

Lemma file s a e B P L b :
  mid s a e B P L -> b ∈ B -> (forall n, ~ P (baddr b) n) ->
  exists s' L', free_list_insert (baddr b) s = s' /\ relisted s s' /\
    mid s' a e B (fun x n => P x n \/ (x = baddr b /\ n = bsize b)) L' /\
    (forall x, outside P x -> ~ (baddr b <= x < bend b) -> zget (mem s') x = zget (mem s) x).
Proof.
  intros [Hrow Hl Hf Hw] HbB Hb.
  destruct (row_block _ _ _ _ _ Hrow HbB) as (Hbs & _ & Hba & _). pose proof (row_pos _ _ _ _ Hrow).
  destruct (class_of (bsize b) Hbs) as (k & Hk & Hkr & _).
  assert (Hout : forall n, filed L n -> n <> baddr b /\ apart (baddr b) n).
  { intros n [j (y & Hy & _)%Hf]. assert (n <> baddr b) by (intros ->; by apply (Hb y)). split; [done|].
    apply Hw in Hy as (c & Hc & <- & <-).
    destruct (headers_disjoint _ _ _ _ _ _ (row_headers _ _ _ _ Hrow) HbB Hc) as [->|Hd]; [done|].
    destruct (row_block _ _ _ _ _ Hrow Hc) as ([? _] & _), Hbs as [? _]. unfold bend in *. addr. }
  destruct (free_list_insert_spec s L k (baddr b) (bsize b)) as (m' & flm & slm & heads & He & Hl' & Hm);
    [done|lia|lia|by intros [? _]%Hout|by intros n [_ ?]%Hout|by eapply row_size|done|].
  pose proof (filing_insert L P k (baddr b) (bsize b) Hf Hk) as Hf'.
  eexists _, (set_list L k (baddr b :: L k)). split; [exact He|]. split; [by eexists _, _, _, _|].
  assert (Hnode : forall n, filed (set_list L k (baddr b :: L k)) n ->
            exists c, c ∈ B /\ baddr c = n /\ (P n (bsize c) \/ n = baddr b /\ bsize c = bsize b)).
  { intros n [j (y & [Hy|[-> ->]] & _)%Hf']; [|by exists b; auto].
    pose proof Hy as (c & Hc & Hcn & <-)%Hw. exists c. auto. }
  split; [constructor|].
  - eapply row_links; [done| |done]. intros n (c & ? & ? & _)%Hnode. by exists c.
  - done.
  - done.
  - intros x n [HP|[-> ->]]; [by apply Hw|by exists b].
  - intros x Hq Hnb. apply Hm. intros n (c & Hc & Hcn & Hpc)%Hnode.
    destruct (row_block _ _ _ _ _ Hrow Hc) as ([? _] & _). unfold bend in *.
    destruct Hpc as [Hy|[-> Hy]]; [pose proof (Hq n _ Hy)|]; addr.
Qed.

(** A step that only rewrites headers. *)
Lemma reheader s a e B P L m' B' :
  mid s a e B P L -> row m' a e B' -> header_writes B' (mem s) m' ->
  (forall x n, P x n -> exists c, c ∈ B' /\ baddr c = x /\ bsize c = n) ->
  mid (with_mem (fun _ => m') s) a e B' P L.
Proof.
  intros [Hrow [Hl Hb] Hf Hw] Hrow' Hhw Hw'. constructor; [done| |done|done].
  split; [|done]. cbn [mem with_mem free_lists]. pose proof Hl as [Hh Hd Hp Hn Hu Ha]. constructor; try done.
  intros k. eapply dll_ext; [|apply Hd]. intros n (y & Hy & _)%Hf.
  apply Hw' in Hy as (c & Hc & <- & _).
  assert (Hno : no_header B' (free_prev (baddr c)) /\ no_header B' (free_next (baddr c))).
  { destruct (row_block _ _ _ _ _ Hrow' Hc) as ([? _] & _).
    split; intros d Hd'; destruct (row_block _ _ _ _ _ Hrow' Hd') as ([? _] & _);
      (destruct (headers_disjoint _ _ _ _ _ _ (row_headers _ _ _ _ Hrow') Hc Hd') as [->|Hdd]; [addr|]);
      unfold bend in *; addr. }
  destruct Hno. split; by apply Hhw.
Qed.
