(* ===== verification/TlsfPool.v ===== *)
(** * Allocation and release in the TLSF pool

    The invariant of the allocator, the steps of [kernel_tlsf_alloc] and
    [kernel_tlsf_free] on the row of blocks, and the properties of the
    allocator seen from its callers. *)

From S2P Require Import Prelude Tlsf TlsfProofs TlsfSpec.

(** ** Helpers on rows *)

Fixpoint free_sum (B : list block) : Z :=
  match B with
  | [] => 0
  | b :: B => (if bfree b then bsize b else 0) + free_sum B
  end.

Lemma free_sum_app B1 B2 : free_sum (B1 ++ B2) = free_sum B1 + free_sum B2.
Proof. induction B1 as [|b B1 IH]; cbn [free_sum app]; lia. Qed.

Lemma free_sum_bound m p a B : headers m p a B -> 0 <= free_sum B <= at_last bend a B - a.
Proof.
  revert p a. induction B as [|b B IH]; intros p a; cbn [headers free_sum]; [cbn; lia|].
  intros (<- & [Hs _] & _ & _ & HB). specialize (IH _ _ HB). rewrite at_last_cons.
  unfold bend in *. destruct (bfree b); lia.
Qed.

Lemma row_free_sum m a e B1 b B2 : row m a e (B1 ++ b :: B2) ->
  0 <= free_sum B1 /\ 0 <= free_sum B2 /\ free_sum (B1 ++ b :: B2) <= e - a.
Proof.
  intros [_ _ Hh He _]. pose proof (free_sum_bound _ _ _ _ Hh). rewrite He in *.
  apply headers_app in Hh as [H1 H2]. cbn [headers] in H2. destruct H2 as (_ & _ & _ & _ & H2).
  pose proof (free_sum_bound _ _ _ _ H1). pose proof (free_sum_bound _ _ _ _ H2). lia.
Qed.

Definition on_head (f : block -> block) (B : list block) : list block :=
  match B with [] => [] | c :: B => f c :: B end.

Section on_head.
Context (p : bool) (B : list block).

Lemma free_at_head x n : free_at (on_head (set_bprev p) B) x n <-> free_at B x n.
Proof. destruct B; [done|]. cbn [on_head]. by rewrite !free_at_cons. Qed.

Lemma used_at_head x n : used_at (on_head (set_bprev p) B) x n <-> used_at B x n.
Proof. destruct B; [done|]. cbn [on_head]. by rewrite !used_at_cons. Qed.

Lemma free_sum_head : free_sum (on_head (set_bprev p) B) = free_sum B.
Proof. by destruct B. Qed.

Lemma flags_head q : flags_ok q B -> (p = true -> match B with [] => True | c :: _ => bfree c = false end) ->
  flags_ok p (on_head (set_bprev p) B).
Proof.
  destruct B as [|c B']; [done|]. cbn. intros (_ & _ & H) Hc. split; [done|]. split; [|done].
  destruct p; [by rewrite Hc|done].
Qed.
End on_head.

#[export] Hint Rewrite free_at_head used_at_head : blocks.

(** ** Steps on the headers *)

Lemma one_header B b m w : b ∈ B -> header_writes B m (<[baddr b := w]> m).
Proof. intros Hb x Hx. rewrite zget_insert_ne; [done|]. destruct (Hx b Hb). done. Qed.

Lemma mid_flags s a e B1 b B2 P L : mid s a e (B1 ++ b :: B2) P L ->
  mid (with_mem (block_set_free (baddr b)) s) a e (B1 ++ set_bfree true b :: B2) P L /\
  mid (with_mem (block_set_used (baddr b)) s) a e (B1 ++ set_bfree false b :: B2) P L /\
  mid (with_mem (block_set_prev_free (baddr b)) s) a e (B1 ++ set_bprev true b :: B2) P L /\
  mid (with_mem (block_set_prev_used (baddr b)) s) a e (B1 ++ set_bprev false b :: B2) P L.
Proof.
  intros H. destruct (row_set_flags _ _ _ _ _ _ (md_row _ _ _ _ _ _ H)) as (H1 & H2 & H3 & H4).
  assert (Hstep : forall w b', row (<[baddr b := w]> (mem s)) a e (B1 ++ b' :: B2) ->
            baddr b' = baddr b -> bsize b' = bsize b ->
            mid (with_mem (fun _ => <[baddr b := w]> (mem s)) s) a e (B1 ++ b' :: B2) P L).
  { intros w b' Hr Ha Hs. eapply reheader; [done|done| |].
    - rewrite <- Ha. apply one_header. inlist.
    - intros x n (c & Hc & Hx & Hn)%(md_within _ _ _ _ _ _ H).
      apply elem_of_app in Hc as [Hc|[->|Hc]%elem_of_cons].
      + exists c. split; [inlist|done].
      + exists b'. split; [inlist|]. by rewrite Ha, Hs.
      + exists c. split; [inlist|done]. }
  split_and!; by apply Hstep.
Qed.

Lemma mid_bytes s a e B P L n : mid s a e B P L -> mid (with_free_bytes n s) a e B P L.
Proof. intros []. by constructor. Qed.

(** Visiting the block after [b], if it is not the sentinel. *)
Lemma mid_after s a e B1 b B2 P L (p : bool) : mid s a e (B1 ++ b :: B2) P L ->
  let next := block_next_phys (baddr b) (mem s) in
  let op := if p then block_set_prev_free else block_set_prev_used in
  let s' := if block_is_sentinel next (mem s) then s else with_mem (op next) s in
  mid s' a e (B1 ++ b :: on_head (set_bprev p) B2) P L /\
  (forall x, no_header (B1 ++ b :: B2) x -> zget (mem s') x = zget (mem s) x).
Proof.
  intros H. cbv zeta. pose proof (md_row _ _ _ _ _ _ H) as Hr.
  rewrite (row_next _ _ _ _ _ Hr) by inlist. pose proof (row_after _ _ _ _ _ _ Hr) as Ha.
  destruct B2 as [|c B2]; destruct Ha as [Hc ->]; [done|]. rewrite <- Hc. cbn [on_head].
  assert (H' : mid s a e ((B1 ++ [b]) ++ c :: B2) P L) by (by rewrite <- app_assoc).
  destruct (mid_flags _ _ _ _ _ _ _ _ H') as (_ & _ & H1 & H2). rewrite <- !app_assoc in H1, H2. split.
  - by destruct p.
  - intros x Hx. destruct (Hx c) as [? _]; [inlist|].
    destruct p; cbn [mem with_mem]; unfold block_set_prev_free, block_set_prev_used; by rewrite zget_insert_ne.
Qed.

Lemma mid_split s a e B1 b B2 P L size :
  mid s a e (B1 ++ b :: B2) P L -> (forall n, ~ P (baddr b) n) -> size_ok size -> size + 24 <= bsize b ->
  exists m', let r := mkBlock (baddr b + 8 + size) (bsize b - size - 8) false false in
    block_split (baddr b) size (mem s) = (baddr r, m') /\
    mid (with_mem (fun _ => m') s) a e (B1 ++ set_bsize size b :: r :: B2) P L /\
    header_writes (B1 ++ set_bsize size b :: r :: B2) (mem s) m'.
Proof.
  intros H Hb Hs Hle.
  destruct (row_split _ _ _ _ _ _ size (md_row _ _ _ _ _ _ H)) as (r & m' & He & -> & Hrow & Hw); [done..|].
  exists m'. cbv zeta. split; [done|]. split; [|done]. eapply reheader; [done..|].
  intros x n Hx. pose proof Hx as (c & Hc & Hcx & Hcn)%(md_within _ _ _ _ _ _ H).
  exists c. split; [|done]. apply elem_of_app in Hc as [Hc|[->|Hc]%elem_of_cons]; [inlist| |inlist].
  subst. by apply Hb in Hx.
Qed.

Lemma quiet_header B x : quiet B x -> no_header B x.
Proof. intros H b Hb. destruct (H b Hb) as (? & ? & _). done. Qed.

Lemma quiet_outside B x : quiet B x -> outside (free_at B) x.
Proof. intros H y n (b & Hb & Hf & <- & <-). destruct (H b Hb) as (_ & _ & Hx). by apply Hx. Qed.

(** ** Taking a free block *)

(** The steps of [kernel_tlsf_alloc] once a block is found. *)
Definition take (block size : Z) (s : tlsf) : tlsf :=
  let s := free_list_remove block s in
  let bsize := block_get_size block (mem s) in
  let s :=
    if (size ⊞ TLSF_BLOCK_OVERHEAD) ⊞ TLSF_MIN_BLOCK_SIZE <=? bsize then
      let '(rest, m) := block_split block size (mem s) in
      let s := with_mem (fun _ => block_set_prev_used rest (block_set_free rest m)) s in
      let s := free_list_insert rest s in
      with_free_bytes (free_bytes s ⊟ (size ⊞ TLSF_BLOCK_OVERHEAD)) s
    else with_free_bytes (free_bytes s ⊟ bsize) s in
  let s := with_mem (block_set_used block) s in
  let next := block_next_phys block (mem s) in
  if block_is_sentinel next (mem s) then s else with_mem (block_set_prev_used next) s.

(** The pool of [s'] is the pool of [s]. *)
Definition same_pool (s s' : tlsf) : Prop :=
  pool_start s' = pool_start s /\ pool_end s' = pool_end s /\ initialized s' = initialized s.

Lemma relisted_pool s s' : relisted s s' -> same_pool s s' /\ free_bytes s' = free_bytes s.
Proof. by intros (m & flm & slm & heads & ->). Qed.

(** The last two steps: [b] becomes used, and its successor learns it. *)
Lemma take_finish s a e B1 b B2 P L :
  mid s a e (B1 ++ b :: B2) P L ->
  let s1 := with_mem (block_set_used (baddr b)) s in
  let next := block_next_phys (baddr b) (mem s1) in
  let s2 := if block_is_sentinel next (mem s1) then s1 else with_mem (block_set_prev_used next) s1 in
  mid s2 a e (B1 ++ set_bfree false b :: on_head (set_bprev false) B2) P L /\ same_pool s s2 /\
  free_bytes s2 = free_bytes s /\
  (forall x, no_header (B1 ++ b :: B2) x -> zget (mem s2) x = zget (mem s) x).
Proof.
  intros H. cbv zeta. destruct (mid_flags _ _ _ _ _ _ _ _ H) as (_ & H1 & _).
  pose proof (mid_after _ _ _ _ _ _ _ _ false H1) as [H2 Hx]. cbv zeta in H2, Hx.
  set (s1 := with_mem (block_set_used (baddr b)) s) in *. cbn [set_bfree baddr] in *.
  split; [done|]. split; [by destruct (block_is_sentinel _ _)|]. split; [by destruct (block_is_sentinel _ _)|].
  intros x Hno. rewrite Hx.
  - cbn [s1 mem with_mem]. unfold block_set_used. rewrite zget_insert_ne; [done|].
    destruct (Hno b) as [? _]; [inlist|done].
  - intros c [Hc|[->|Hc]%elem_of_cons]%elem_of_app; [apply Hno|apply (Hno b)|apply Hno]; inlist.
Qed.

(** Taking the whole block. *)
Lemma take_whole s a e B1 b B2 L size :
  mid s a e (B1 ++ b :: B2) (free_at (B1 ++ b :: B2)) L -> bfree b = true ->
  flags_ok false (B1 ++ b :: B2) -> free_bytes s = free_sum (B1 ++ b :: B2) ->
  16 <= size <= 2 ^ 16 -> size <= bsize b < size + 24 ->
  exists s' B' L', take (baddr b) size s = s' /\ mid s' a e B' (free_at B') L' /\ flags_ok false B' /\
    free_bytes s' = free_sum B' /\ same_pool s s' /\
    (forall x n, used_at B' x n <-> used_at (B1 ++ b :: B2) x n \/ (x = baddr b /\ n = bsize b)) /\
    (forall x, quiet (B1 ++ b :: B2) x -> zget (mem s') x = zget (mem s) x).
Proof.
  intros H Hb Hfl Hfb Hs Hle. assert (HbB : b ∈ B1 ++ b :: B2) by inlist.
  destruct (unfile _ _ _ _ _ _ b H) as (s1 & L1 & He & Hre & H1 & Hx1); [done|by exists b|].
  apply relisted_pool in Hre as [Hpool Hbytes].
  pose proof (md_row _ _ _ _ _ _ H1) as Hr1. destruct (row_block _ _ _ _ _ Hr1 HbB) as ([Hbs _] & _ & _ & Hbe).
  pose proof (row_pos _ _ _ _ Hr1) as Hpos. pose proof (row_fit _ _ _ _ Hr1) as Hfit.
  unfold take. rewrite He. cbv zeta. rewrite (row_size _ _ _ _ _ Hr1 HbB).
  unfold TLSF_BLOCK_OVERHEAD, TLSF_MIN_BLOCK_SIZE. rewrite (add32_small size), add32_small by lia.
  destruct (Z.leb_spec (size + 8 + 16) (bsize b)); [lia|].
  pose proof (mid_bytes _ _ _ _ _ _ (free_bytes s1 ⊟ bsize b) H1) as H2.
  destruct (take_finish _ _ _ _ _ _ _ _ H2) as (H3 & Hp3 & Hb3 & Hx3). cbv zeta in H3, Hp3, Hb3, Hx3.
  set (s3 := if block_is_sentinel _ _ then _ else _) in *. clearbody s3.
  exists s3, (B1 ++ set_bfree false b :: on_head (set_bprev false) B2), L1. split; [done|].
  apply flags_app in Hfl as [Hf1 (Hf2 & Hf3 & Hf4)].
  split; [|split; [|split; [|split; [|split]]]].
  - destruct H3 as [? ? Hf ?]. constructor; [done|done| |].
    + eapply filing_proper; [|exact Hf]. intros x n. rewrite (free_others _ _ _ _ _ _ _ _ Hr1).
      autorewrite with blocks. cbn [set_bfree bfree]. naive_solver.
    + intros x n Hx. destruct Hx as (c & Hc & _ & ? & ?). by exists c.
  - apply flags_app. split; [done|]. cbn [flags_ok set_bfree bprev bfree]. rewrite andb_false_r.
    split_and!; [done|done|]. eapply flags_head; [exact Hf4|done].
  - rewrite Hb3. cbn [free_bytes with_free_bytes]. rewrite Hbytes, Hfb, !free_sum_app. cbn [free_sum set_bfree bfree].
    rewrite Hb, free_sum_head. pose proof (row_free_sum _ _ _ _ _ _ Hr1) as (Hs1 & Hs2 & Hs3).
    rewrite free_sum_app in Hs3. cbn [free_sum] in Hs3. rewrite Hb in Hs3. rewrite sub32_small; lia.
  - destruct Hpool as (E1 & E2 & E3), Hp3 as (E4 & E5 & E6). cbn in E4, E5, E6. unfold same_pool. by rewrite E4, E5, E6.
  - intros x n. autorewrite with blocks. cbn [set_bfree bfree baddr bsize]. rewrite Hb. naive_solver.
  - intros x Hq. rewrite Hx3 by (by apply quiet_header). cbn [mem with_free_bytes]. apply Hx1. by apply quiet_outside.
Qed.

(** Splitting the block and taking its front. *)
Lemma take_front s a e B1 b B2 L size :
  mid s a e (B1 ++ b :: B2) (free_at (B1 ++ b :: B2)) L -> bfree b = true ->
  flags_ok false (B1 ++ b :: B2) -> free_bytes s = free_sum (B1 ++ b :: B2) ->
  size_ok size -> size <= 2 ^ 16 -> size + 24 <= bsize b ->
  exists s' B' L', take (baddr b) size s = s' /\ mid s' a e B' (free_at B') L' /\ flags_ok false B' /\
    free_bytes s' = free_sum B' /\ same_pool s s' /\
    (forall x n, used_at B' x n <-> used_at (B1 ++ b :: B2) x n \/ (x = baddr b /\ n = size)) /\
    (forall x, quiet (B1 ++ b :: B2) x -> zget (mem s') x = zget (mem s) x).
Proof.
  intros H Hb Hfl Hfb Hs Hmax Hle. assert (HbB : b ∈ B1 ++ b :: B2) by inlist.
  destruct (unfile _ _ _ _ _ _ b H) as (s1 & L1 & He & Hre & H1 & Hx1); [done|by exists b|].
  apply relisted_pool in Hre as [Hpool Hbytes].
  pose proof (md_row _ _ _ _ _ _ H1) as Hr1. destruct (row_block _ _ _ _ _ Hr1 HbB) as ([Hbs _] & _ & Hba & Hbe).
  pose proof (row_pos _ _ _ _ Hr1) as Hpos. pose proof (row_fit _ _ _ _ Hr1) as Hfit.
  unfold take. rewrite He. cbv zeta. rewrite (row_size _ _ _ _ _ Hr1 HbB).
  pose proof Hs as [Hs1 _].
  unfold TLSF_BLOCK_OVERHEAD, TLSF_MIN_BLOCK_SIZE. rewrite (add32_small size), add32_small by lia.
  destruct (Z.leb_spec (size + 8 + 16) (bsize b)); [|lia].
  destruct (mid_split _ _ _ _ _ _ _ _ size H1) as (m2 & Hsp & H2 & Hw2); [by intros n [_ ?]|done|done|].
  cbv zeta in Hsp, H2, Hw2. set (r := mkBlock _ _ false false) in *. rewrite Hsp.
  set (b1 := set_bsize size b) in *. set (s2 := with_mem (fun _ => m2) s1) in *.
  assert (H2' : mid s2 a e ((B1 ++ [b1]) ++ r :: B2) _ L1) by (rewrite <- app_assoc; exact H2).
  destruct (mid_flags _ _ _ _ _ _ _ _ H2') as (H3 & _). destruct (mid_flags _ _ _ _ _ _ _ _ H3) as (_ & _ & _ & H4).
  set (r' := set_bprev false (set_bfree true r)) in *. cbn [set_bfree baddr] in H4.
  set (s3 := with_mem (block_set_prev_used (baddr r)) (with_mem (block_set_free (baddr r)) s2)) in *.
  change (with_mem (fun _ => block_set_prev_used (baddr r) (block_set_free (baddr r) m2)) s1) with s3.
  assert (Hfresh : forall n, ~ free_at (B1 ++ b :: B2) (baddr r) n).
  { intros n (c & Hc & _ & Hcr & _). destruct (row_block _ _ _ _ _ Hr1 Hc) as ([Hcs _] & _). cbn in Hcr.
    destruct (headers_disjoint _ _ _ _ _ _ (row_headers _ _ _ _ Hr1) HbB Hc) as [->|Hd]; unfold bend in *; lia. }
  destruct (file _ _ _ _ _ _ r' H4) as (s4 & L4 & He4 & Hre4 & H5 & Hx5).
  { inlist. }
  { intros n [Hn _]. by apply (Hfresh n). }
  change (baddr r') with (baddr r) in He4. rewrite He4. apply relisted_pool in Hre4 as [Hpool4 Hbytes4].
  pose proof (mid_bytes _ _ _ _ _ _ (free_bytes s4 ⊟ (size + 8)) H5) as H6. rewrite <- app_assoc in H6.
  destruct (take_finish _ _ _ _ _ _ _ _ H6) as (H7 & Hp7 & Hb7 & Hx7). cbv zeta in H7, Hp7, Hb7, Hx7.
  change (baddr b1) with (baddr b) in *. cbn [app] in H6, H7, Hx7.
  set (s5 := if block_is_sentinel _ _ then _ else _) in *. clearbody s5.
  exists s5, (B1 ++ set_bfree false b1 :: on_head (set_bprev false) (r' :: B2)), L4. split; [done|].
  apply flags_app in Hfl as [Hf1 (Hf2 & Hf3 & Hf4)]. rewrite Hb in Hf3, Hf4.
  split; [|split; [|split; [|split; [|split]]]].
  - destruct H7 as [? ? Hf ?]. constructor; [done|done| |].
    + eapply filing_proper; [|exact Hf]. intros x n. rewrite (free_others _ _ _ _ _ _ _ _ Hr1).
      autorewrite with blocks. cbn [set_bfree set_bprev r' r bfree baddr bsize]. naive_solver.
    + intros x n (c & Hc & _ & ? & ?). by exists c.
  - apply flags_app. split; [done|]. cbn [flags_ok on_head set_bfree set_bprev set_bsize r' r b1 bprev bfree].
    rewrite andb_false_r. done.
  - rewrite Hb7. cbn [free_bytes with_free_bytes]. rewrite Hbytes4. cbn [s3 s2 with_mem free_bytes].
    rewrite Hbytes, Hfb, !free_sum_app.
    cbn [free_sum on_head set_bfree set_bprev r' r bfree bsize]. rewrite Hb.
    pose proof (row_free_sum _ _ _ _ _ _ Hr1) as (Hs1' & Hs2 & Hs3).
    rewrite free_sum_app in Hs3. cbn [free_sum] in Hs3. rewrite Hb in Hs3. rewrite sub32_small; lia.
  - destruct Hpool as (E1 & E2 & E3), Hpool4 as (E4 & E5 & E6), Hp7 as (E7 & E8 & E9). cbn in *.
    unfold same_pool. by rewrite E7, E8, E9, E4, E5, E6.
  - intros x n. autorewrite with blocks. cbn [on_head set_bfree set_bprev r' r b1 set_bsize bfree baddr bsize].
    rewrite Hb. autorewrite with blocks. naive_solver.
  - intros x Hq.
    assert (Hb' : x < baddr b \/ bend b <= x).
    { destruct (Hq b HbB) as (_ & _ & Hxb). specialize (Hxb Hb). lia. }
    assert (Hno : forall r0, baddr r0 = baddr r -> no_header (B1 ++ b1 :: r0 :: B2) x).
    { intros r0 Hr0 c [Hc|[->|[->|Hc]%elem_of_cons]%elem_of_cons]%elem_of_app.
      - apply (quiet_header _ _ Hq). inlist.
      - apply (quiet_header _ _ Hq b). inlist.
      - rewrite Hr0. cbn [r baddr]. unfold bend in *. addr.
      - apply (quiet_header _ _ Hq). inlist. }
    rewrite Hx7 by (by apply Hno). cbn [mem with_free_bytes]. rewrite Hx5.
    + unfold s3. cbn [mem with_mem s2]. unfold block_set_prev_used, block_set_free.
      assert (x <> baddr r) by (apply (Hno r eq_refl r); inlist).
      rewrite !zget_insert_ne by done. rewrite (Hw2 x) by (by apply Hno). apply Hx1. by apply quiet_outside.
    + intros y n [Hy _]. by apply (quiet_outside _ _ Hq).
    + unfold bend in *. cbn [r' r set_bprev set_bfree baddr bsize]. lia.
Qed.

(** ** Releasing a block *)

(** What may follow a block that is about to become free. *)
Definition used_head (B : list block) : Prop := match B with [] => True | c :: _ => bfree c = false end.

Lemma mid_within_eq s a e B P Q L :
  mid s a e B P L -> (forall x n, P x n <-> Q x n) -> mid s a e B Q L.
Proof.
  intros [H1 H2 H3 H4] HPQ. constructor; [done|done| |].
  - eapply filing_proper; [|exact H3]. intros x n. symmetry. apply HPQ.
  - intros x n Hx%HPQ. by apply H4.
Qed.

(** The first step absorbs the next block when it is free. *)
Definition absorb_after (block added : Z) (s : tlsf) : Z * tlsf :=
  let next := block_next_phys block (mem s) in
  if negb (block_is_sentinel next (mem s)) && block_is_free next (mem s) then
    let s := free_list_remove next s in
    (added ⊞ TLSF_BLOCK_OVERHEAD, with_mem (block_absorb_next block next) s)
  else (added, s).

(** [k] blocks behind [b] were absorbed: [b'] stands for [b], [B2'] for [B2]. *)
Record absorbed (s : tlsf) (a e : Z) (B1 : list block) (b : block) (B2 : list block)
    (s' : tlsf) (k : Z) (b' : block) (B2' : list block) (L' : lists) : Prop := {
  ab_count : 0 <= k <= 1;
  ab_mid : mid s' a e (B1 ++ b' :: B2') (free_at (B1 ++ b' :: B2')) L';
  ab_block : baddr b' = baddr b /\ bfree b' = false /\ bprev b' = bprev b;
  ab_flags : exists q, flags_ok q B2';
  ab_head : used_head B2';
  ab_sum : free_sum B2' + bsize b' = free_sum B2 + bsize b + 8 * k;
  ab_used : forall x n, used_at B2' x n <-> used_at B2 x n;
  ab_pool : same_pool s s' /\ free_bytes s' = free_bytes s;
  ab_mem : forall x, quiet (B1 ++ b :: B2) x -> zget (mem s') x = zget (mem s) x;
  ab_quiet : forall x, quiet (B1 ++ b :: B2) x -> ~ (baddr b <= x < bend b) ->
               quiet (B1 ++ b' :: B2') x /\ ~ (baddr b <= x < bend b') }.

Section release.
Context (s : tlsf) (a e : Z) (B1 B2 : list block) (b : block) (L : lists).
Context (H : mid s a e (B1 ++ b :: B2) (free_at (B1 ++ b :: B2)) L) (Hb : bfree b = false).

Lemma absorb_after_spec : flags_ok false B2 ->
  exists s' k b' B2' L', absorb_after (baddr b) (bsize b) s = (bsize b + 8 * k, s') /\
    absorbed s a e B1 b B2 s' k b' B2' L'.
Proof.
  intros Hfl. pose proof (md_row _ _ _ _ _ _ H) as Hr. unfold absorb_after.
  assert (HbB : b ∈ B1 ++ b :: B2) by inlist.
  destruct (row_block _ _ _ _ _ Hr HbB) as ([Hbs _] & _ & Hba & Hbe).
  rewrite (row_next _ _ _ _ _ Hr HbB). pose proof (row_after _ _ _ _ _ _ Hr) as Haft.
  assert (Hskip : used_head B2 ->
    exists s' k b' B2' L', (bsize b, s) = (bsize b + 8 * k, s') /\ absorbed s a e B1 b B2 s' k b' B2' L').
  { intros Hu. exists s, 0, b, B2, L. rewrite Z.add_0_r. split; [done|]. constructor; try done; try lia. by eexists. }
  destruct B2 as [|c B2']; destruct Haft as [Hc ->]; cbn [negb andb].
  { by apply Hskip. }
  assert (HcB : c ∈ B1 ++ b :: c :: B2') by inlist.
  rewrite <- Hc. destruct (row_flags _ _ _ _ _ Hr HcB) as [-> _].
  destruct (bfree c) eqn:Hcf; [|by apply Hskip]. clear Hskip.
  destruct (unfile _ _ _ _ _ _ c H) as (s1 & L1 & -> & Hre & H1 & Hx1); [done|by exists c|].
  apply relisted_pool in Hre as [Hpool Hbytes].
  destruct (row_absorb _ _ _ _ _ _ _ (md_row _ _ _ _ _ _ H1)) as [Hr2 Hw2]. cbv zeta in Hr2, Hw2.
  set (b' := set_bsize (bsize b + 8 + bsize c) b) in *.
  destruct (row_block _ _ _ _ _ Hr HcB) as ([Hcs _] & _ & _ & Hce).
  destruct Hfl as (_ & _ & Hfl). rewrite Hcf in Hfl.
  assert (Hne : forall d, d ∈ B1 ++ b :: B2' -> baddr d <> baddr c).
  { intros d Hd. assert (Hr' : row (mem s) a e ((B1 ++ [b]) ++ c :: B2')) by (by rewrite <- app_assoc).
    apply (row_distinct _ _ _ _ _ _ d Hr'). rewrite <- app_assoc. inlist. }
  eexists _, 1, b', B2', L1. unfold TLSF_BLOCK_OVERHEAD. rewrite add32_small.
  2:{ pose proof (row_fit _ _ _ _ Hr). pose proof (row_pos _ _ _ _ Hr). lia. }
  split; [reflexivity|].
  assert (Hbe' : bend b' = bend c) by (unfold bend, b'; cbn; unfold bend in Hc; lia).
  assert (Hq' : forall x, quiet (B1 ++ b :: c :: B2') x -> quiet (B1 ++ b' :: B2') x).
  { intros x Hq d [Hd|[->|Hd]%elem_of_cons]%elem_of_app; [apply Hq; inlist| |apply Hq; inlist].
    destruct (Hq b HbB) as (? & ? & _). cbn [b' set_bsize baddr bfree]. rewrite Hb. done. }
  constructor; try done.
  - eapply mid_within_eq.
    + eapply reheader; [exact H1|exact Hr2|exact Hw2|].
      intros x n [(d & Hd & Hdf & <- & <-) Hxc]. exists d. split; [|done].
      apply elem_of_app in Hd as [Hd|[->|[->|Hd]%elem_of_cons]%elem_of_cons]; first [inlist|congruence].
    + intros x n. autorewrite with blocks. cbn [b' set_bsize bfree]. rewrite Hb. split; [naive_solver|].
      intros [Hx|[[? _]|Hx]]; [|done|]; (split; [tauto|]); destruct Hx as (d & Hd & _ & <- & _); apply Hne; inlist.
  - by eexists.
  - destruct B2' as [|d B3]; [done|]. by destruct Hfl as (_ & ? & _).
  - cbn [free_sum b' set_bsize bsize]. rewrite Hcf. lia.
  - intros x n. autorewrite with blocks. rewrite Hcf. naive_solver.
  - intros x Hq. cbn [mem with_mem]. rewrite (Hw2 x); [by apply Hx1, quiet_outside|].
    by apply quiet_header, Hq'.
  - intros x Hq Hnb. split; [by apply Hq'|]. rewrite Hbe'. destruct (Hq c HcB) as (_ & _ & Hxc).
    specialize (Hxc Hcf). lia.
Qed.
End release.

(** The second step lets the previous block absorb this one when it is free. *)
Definition absorb_before (block added : Z) (s : tlsf) : Z * Z * tlsf :=
  let prev := zget (mem s) (prev_phys block) in
  if block_is_prev_free block (mem s) && negb (prev =? 0) && block_is_free prev (mem s) then
    let s := free_list_remove prev s in
    (prev, added ⊞ TLSF_BLOCK_OVERHEAD, with_mem (block_absorb_next prev block) s)
  else (block, added, s).

(** [k] blocks before [b] were joined to it: [b'] stands for them, not filed. *)
Record joined (s : tlsf) (a e : Z) (B1 : list block) (b : block) (B2 : list block)
    (s' : tlsf) (k : Z) (b' : block) (B1' : list block) (L' : lists) : Prop := {
  jn_count : 0 <= k <= 1;
  jn_mid : mid s' a e (B1' ++ b' :: B2) (free_at (B1' ++ B2)) L';
  jn_flags : flags_ok false B1' /\ at_last bfree false B1' = false /\ bprev b' = false;
  jn_sum : free_sum B1' + bsize b' = free_sum B1 + bsize b + 8 * k;
  jn_used : forall x n, used_at B1' x n <-> used_at B1 x n;
  jn_pool : same_pool s s' /\ free_bytes s' = free_bytes s;
  jn_mem : forall x, quiet (B1 ++ b :: B2) x -> zget (mem s') x = zget (mem s) x;
  jn_quiet : forall x, quiet (B1 ++ b :: B2) x -> ~ (baddr b <= x < bend b) ->
               quiet (B1' ++ set_bfree true b' :: B2) x }.

Lemma quiet_free B1 b B2 x : quiet (B1 ++ b :: B2) x -> ~ (baddr b <= x < bend b) ->
  quiet (B1 ++ set_bfree true b :: B2) x.
Proof.
  intros Hq Hx d [Hd|[->|Hd]%elem_of_cons]%elem_of_app; [apply Hq; inlist| |apply Hq; inlist].
  destruct (Hq b) as (? & ? & _); [inlist|]. done.
Qed.

Lemma absorb_before_spec s a e B1 b B2 L added :
  mid s a e (B1 ++ b :: B2) (free_at (B1 ++ b :: B2)) L -> bfree b = false ->
  flags_ok false B1 -> bprev b = at_last bfree false B1 -> 0 <= added -> added + 8 < 2 ^ 32 ->
  exists s' k b' B1' L', absorb_before (baddr b) added s = (baddr b', added + 8 * k, s') /\
    joined s a e B1 b B2 s' k b' B1' L'.
Proof.
  intros H Hb Hfl Hbp Had Had'. pose proof (md_row _ _ _ _ _ _ H) as Hr. unfold absorb_before.
  assert (HbB : b ∈ B1 ++ b :: B2) by inlist.
  rewrite (row_before _ _ _ _ _ _ Hr). destruct (row_flags _ _ _ _ _ Hr HbB) as [_ ->].
  assert (Hskip : at_last bfree false B1 = false ->
    exists s' k b' B1' L', (baddr b, added, s) = (baddr b', added + 8 * k, s') /\ joined s a e B1 b B2 s' k b' B1' L').
  { intros Hu. exists s, 0, b, B1, L. rewrite Z.add_0_r. split; [done|]. constructor; try done; try lia.
    - eapply mid_within_eq; [exact H|]. intros x n. autorewrite with blocks. rewrite Hb. naive_solver.
    - by rewrite Hbp.
    - intros x. apply quiet_free. }
  rewrite Hbp. destruct B1 as [|p B0 _] using rev_ind; [by apply Hskip|].
  rewrite !at_last_snoc in *. destruct (bfree p) eqn:Hpf; [|by apply Hskip]. clear Hskip.
  rewrite <- app_assoc in *. cbn [app] in *.
  assert (HpB : p ∈ B0 ++ p :: b :: B2) by inlist.
  destruct (row_flags _ _ _ _ _ Hr HpB) as [-> _]. rewrite Hpf.
  destruct (row_block _ _ _ _ _ Hr HpB) as ([Hps _] & _ & Hpa & Hpe).
  pose proof (row_pos _ _ _ _ Hr). destruct (Z.eqb_spec (baddr p) 0) as [|_]; [lia|]. cbn [negb andb].
  destruct (unfile _ _ _ _ _ _ p H) as (s1 & L1 & -> & Hre & H1 & Hx1); [done|by exists p|].
  apply relisted_pool in Hre as [Hpool Hbytes].
  destruct (row_absorb _ _ _ _ _ _ _ (md_row _ _ _ _ _ _ H1)) as [Hr2 Hw2]. cbv zeta in Hr2, Hw2.
  set (p' := set_bsize (bsize p + 8 + bsize b) p) in *.
  pose proof (row_after _ _ _ _ _ _ Hr) as [Hpb _].
  eexists _, 1, p', B0, L1. unfold TLSF_BLOCK_OVERHEAD. rewrite add32_small by lia. split; [reflexivity|].
  assert (Hbe' : bend p' = bend b) by (unfold bend, p'; cbn; unfold bend in Hpb; lia).
  apply flags_app in Hfl as [Hf0 (Hpp & Hpq & _)]. rewrite Hpf, andb_true_r in Hpq. rewrite Hpq in Hpp.
  assert (Hq' : forall x, quiet (B0 ++ p :: b :: B2) x -> no_header (B0 ++ p' :: B2) x).
  { intros x Hq d [Hd|[->|Hd]%elem_of_cons]%elem_of_app; [apply (quiet_header _ _ Hq); inlist| |
      apply (quiet_header _ _ Hq); inlist]. by apply (quiet_header _ _ Hq p). }
  constructor; try done.
  - eapply mid_within_eq.
    + eapply reheader; [exact H1|exact Hr2|exact Hw2|].
      intros x n [(d & Hd & Hdf & <- & <-) Hxc]. exists d. split; [|done].
      apply elem_of_app in Hd as [Hd|[->|[->|Hd]%elem_of_cons]%elem_of_cons]; first [inlist|congruence].
    + intros x n. rewrite (free_others _ _ _ _ _ _ _ _ Hr). autorewrite with blocks. rewrite Hb. naive_solver.
  - rewrite free_sum_app. cbn [free_sum p' set_bsize bsize]. rewrite Hpf. lia.
  - intros x n. autorewrite with blocks. rewrite Hpf. naive_solver.
  - intros x Hq. rewrite <- app_assoc in Hq. cbn [mem with_mem]. rewrite (Hw2 x) by (by apply Hq'). by apply Hx1, quiet_outside.
  - intros x Hq Hnb d [Hd|[->|Hd]%elem_of_cons]%elem_of_app; rewrite <- app_assoc in Hq; [apply Hq; inlist| |apply Hq; inlist].
    destruct (Hq p HpB) as (? & ? & Hxp). specialize (Hxp Hpf).
    split; [done|]. split; [done|]. intros _. change (bend (set_bfree true p')) with (bend p'). rewrite Hbe'.
    cbn [set_bfree p' set_bsize baddr]. lia.
Qed.

(** The last steps file the block and tell its successor. *)
Definition file_released (block added : Z) (s : tlsf) : tlsf :=
  let s := with_mem (block_set_free block) s in
  let s := free_list_insert block s in
  let s := with_free_bytes (free_bytes s ⊞ added) s in
  let next_after := block_next_phys block (mem s) in
  if block_is_sentinel next_after (mem s) then s else with_mem (block_set_prev_free next_after) s.

Lemma file_released_spec s a e B1 b B2 L q added :
  mid s a e (B1 ++ b :: B2) (free_at (B1 ++ B2)) L ->
  flags_ok false B1 -> at_last bfree false B1 = false -> bprev b = false -> flags_ok q B2 -> used_head B2 ->
  free_bytes s + added = free_sum B1 + bsize b + free_sum B2 ->
  exists B' L', let s' := file_released (baddr b) added s in
    mid s' a e B' (free_at B') L' /\ flags_ok false B' /\ free_bytes s' = free_sum B' /\ same_pool s s' /\
    (forall x n, used_at B' x n <-> used_at (B1 ++ B2) x n) /\
    (forall x, quiet (B1 ++ set_bfree true b :: B2) x -> zget (mem s') x = zget (mem s) x).
Proof.
  intros H Hf1 Hf2 Hbp Hq Hu Hsum. unfold file_released.
  destruct (mid_flags _ _ _ _ _ _ _ _ H) as (H1 & _). set (b3 := set_bfree true b) in *.
  set (s1 := with_mem (block_set_free (baddr b)) s) in *.
  assert (Hb3 : b3 ∈ B1 ++ b3 :: B2) by inlist.
  destruct (file _ _ _ _ _ _ b3 H1 Hb3) as (s2 & L2 & E2 & Hre & H2 & Hx2).
  { intros n (c & Hc & _ & Hcb & _). by apply (row_distinct _ _ _ _ _ _ _ (md_row _ _ _ _ _ _ H1) Hc). }
  change (baddr b3) with (baddr b) in E2. rewrite E2. apply relisted_pool in Hre as [Hpool Hbytes].
  pose proof (mid_bytes _ _ _ _ _ _ (free_bytes s2 ⊞ added) H2) as H3. cbv zeta.
  destruct (mid_after _ _ _ _ _ _ _ _ true H3) as [H4 Hx4]. cbv zeta in H4, Hx4.
  change (baddr b3) with (baddr b) in H4, Hx4. set (s3 := with_free_bytes (free_bytes s2 ⊞ added) s2) in *.
  assert (Hfields : forall y, let s4 := if y : bool then s3 else with_mem (block_set_prev_free (block_next_phys (baddr b) (mem s3))) s3 in
            free_bytes s4 = free_bytes s2 ⊞ added /\ same_pool s2 s4) by (by intros []).
  specialize (Hfields (block_is_sentinel (block_next_phys (baddr b) (mem s3)) (mem s3))). cbv zeta in Hfields.
  set (s4 := if block_is_sentinel _ _ then _ else _) in *. clearbody s4. destruct Hfields as [Hby4 Hpo4].
  exists (B1 ++ b3 :: on_head (set_bprev true) B2), L2. split; [|split; [|split; [|split; [|split]]]].
  - eapply mid_within_eq; [exact H4|]. intros x n. autorewrite with blocks. cbn [b3 set_bfree bfree baddr bsize].
    naive_solver.
  - apply flags_app. split; [done|]. cbn [flags_ok b3 set_bfree bprev bfree]. rewrite Hbp, Hf2.
    split_and!; [done|done|]. eapply flags_head; [done|]. intros _. exact Hu.
  - rewrite Hby4, Hbytes. cbn [s1 with_mem free_bytes]. rewrite free_sum_app. cbn [free_sum b3 set_bfree bfree bsize].
    rewrite free_sum_head. pose proof (md_row _ _ _ _ _ _ H1) as Hr1.
    pose proof (row_free_sum _ _ _ _ _ _ Hr1) as (? & ? & Hs). rewrite free_sum_app in Hs. cbn [free_sum b3 set_bfree bfree bsize] in Hs.
    pose proof (row_pos _ _ _ _ Hr1). pose proof (row_fit _ _ _ _ Hr1).
    destruct (row_block _ _ _ _ _ Hr1 Hb3) as ([? _] & _). cbn [b3 set_bfree bsize] in *. rewrite add32_small; lia.
  - destruct Hpool as (E3 & E4 & E5), Hpo4 as (E6 & E7 & E8). cbn in E3, E4, E5. unfold same_pool. by rewrite E6, E7, E8.
  - intros x n. autorewrite with blocks. cbn [b3 set_bfree bfree]. naive_solver.
  - intros x Hx. rewrite Hx4 by (by apply quiet_header). cbn [s3 mem with_free_bytes]. rewrite Hx2.
    + cbn [s1 mem with_mem]. unfold block_set_free. rewrite zget_insert_ne; [done|].
      destruct (Hx b3 Hb3) as [Hne _]. by apply not_eq_sym.
    + intros y n Hy. eapply (quiet_outside _ _ Hx). autorewrite with blocks in *. tauto.
    + destruct (Hx b3 Hb3) as (_ & _ & Hr). by apply Hr.
Qed.

(** ** The invariant *)

Record pool (s : tlsf) (B : list block) (L : lists) : Prop := {
  pl_init : initialized s = true;
  pl_align : pool_start s mod 8 = 0;
  pl_mid : mid s (pool_start s) (pool_end s - 8) B (free_at B) L;
  pl_flags : flags_ok false B;
  pl_bytes : free_bytes s = free_sum B }.

Lemma release_spec s B1 b B2 L t0 t1 :
  pool s (B1 ++ b :: B2) L -> bfree b = false ->
  exists B' L', pool (kernel_tlsf_free t0 t1 (baddr b + 8) s) B' L' /\
    (forall x n, used_at B' x n <-> used_at (B1 ++ b :: B2) x n /\ x <> baddr b) /\
    (forall x, quiet (B1 ++ b :: B2) x -> ~ (baddr b <= x < bend b) ->
       zget (mem (kernel_tlsf_free t0 t1 (baddr b + 8) s)) x = zget (mem s) x) /\
    same_pool s (kernel_tlsf_free t0 t1 (baddr b + 8) s).
Proof.
  intros [Hin Hal H Hfl Hfb] Hb. pose proof (md_row _ _ _ _ _ _ H) as Hr.
  assert (HbB : b ∈ B1 ++ b :: B2) by inlist. pose proof (row_pos _ _ _ _ Hr). pose proof (row_fit _ _ _ _ Hr).
  destruct (row_block _ _ _ _ _ Hr HbB) as ([Hbs _] & _ & Hba & Hbe).
  unfold kernel_tlsf_free. rewrite Hin. destruct (Z.eqb_spec (baddr b + 8) 0) as [|_]; [lia|]. cbn [negb orb].
  unfold ptr_to_block, TLSF_BLOCK_OVERHEAD. rewrite sub32_small by lia.
  replace (baddr b + 8 - 8) with (baddr b) by lia. rewrite (row_size _ _ _ _ _ Hr HbB).
  apply flags_app in Hfl as [Hf1 (Hbp & _ & Hf2)]. rewrite Hb in Hf2.
  destruct (absorb_after_spec s _ _ B1 B2 b L H Hb Hf2) as (s1 & k1 & b1 & B2' & L1 & E1 & A1).
  unfold absorb_after, TLSF_BLOCK_OVERHEAD in E1. cbv zeta in E1 |- *. rewrite E1. cbv zeta.
  destruct A1 as [Ak Am (Aa & Af & Ap) [q Aq] Ah As Au [Apo Aby] Amem Aqu].
  rewrite <- Aa.
  destruct (absorb_before_spec s1 (pool_start s) (pool_end s - 8) B1 b1 B2' L1 (bsize b + 8 * k1)) as (s2 & k2 & b2 & B1' & L2 & E2 & J);
    [done|done|done|by rewrite Ap|lia|lia|].
  unfold absorb_before, TLSF_BLOCK_OVERHEAD in E2. cbv zeta in E2 |- *. rewrite E2. cbv zeta.
  destruct J as [Jk Jm (Jf1 & Jf2 & Jp) Js Ju [Jpo Jby] Jmem Jqu].
  destruct (file_released_spec s2 (pool_start s) (pool_end s - 8) B1' b2 B2' L2 q (bsize b + 8 * k1 + 8 * k2))
    as (B' & L' & F1 & F2 & F3 & F4 & F5 & F6); [done..| |].
  { rewrite Jby, Aby, Hfb, free_sum_app. cbn [free_sum]. rewrite Hb. lia. }
  cbv zeta in F1, F2, F3, F4, F6. fold (file_released (baddr b2) (bsize b + 8 * k1 + 8 * k2) s2).
  set (s3 := file_released _ _ s2) in *. clearbody s3.
  destruct Apo as (P1 & P2 & P3), Jpo as (P4 & P5 & P6), F4 as (P7 & P8 & P9).
  exists B', L'. split_and!; [| | |by split_and!; cbn; congruence].
  - assert (Hpl : initialized s3 = true /\ pool_start s3 = pool_start s /\ pool_end s3 = pool_end s) by (split_and!; congruence).
    destruct Hpl as (Q1 & Q2 & Q3). constructor; cbn [count_free initialized pool_start pool_end free_bytes]; try done.
    + by rewrite Q2.
    + rewrite Q2, Q3. destruct F1 as [M1 M2 M3 M4]. by constructor.
  - intros x n. rewrite F5. autorewrite with blocks. rewrite Ju, Au, Hb.
    assert (Hd : used_at (B1 ++ B2) x n -> x <> baddr b).
    { intros (c & Hc & _ & <- & _). by apply (row_distinct _ _ _ _ _ _ _ Hr Hc). }
    rewrite used_at_app in Hd. naive_solver.
  - intros x Hq Hnb. rewrite Aa in Hnb. cbn [mem count_free]. destruct (Aqu x Hq Hnb) as [Hq1 Hn1].
    rewrite F6; [rewrite Jmem by done; by apply Amem|]. apply Jqu; [done|]. by rewrite Aa.
Qed.
