(* ===== verification/TlsfCorrect.v ===== *)
(** * What the TLSF allocator promises its callers

    The allocator as a map from live pointers to their capacity: regions are
    aligned and disjoint, an allocation adds a region, a release removes one,
    and the contents of every other region stay. *)

From S2P Require Import Prelude Tlsf TlsfProofs TlsfSpec TlsfPool.

(** ** Allocation *)

(** The size the allocator works with for a request. *)
Definition adjusted (request : Z) : Z :=
  round_up (if request <? TLSF_MIN_BLOCK_SIZE then TLSF_MIN_BLOCK_SIZE else request) TLSF_ALIGN.

Lemma adjusted_spec n : 0 < n <= class_min 63 ->
  n <= adjusted n <= class_min 63 /\ adjusted n <= Z.max 16 (n + 7) /\ size_ok (adjusted n).
Proof.
  change (class_min 63) with 57344. intros Hn. unfold adjusted, TLSF_MIN_BLOCK_SIZE, TLSF_ALIGN.
  set (v := if n <? 16 then 16 else n). assert (Hv : 16 <= v <= 57344 /\ n <= v /\ (v = 16 \/ v = n)).
  { unfold v. destruct (Z.ltb_spec n 16); lia. }
  destruct (round_up_spec v 3) as [H1 H2]; [lia..|]. change (2 ^ 3) with 8 in *.
  assert (round_up v 8 <= 57344 /\ (v = 16 -> round_up v 8 = 16)) by (Z.to_euclidean_division_equations; lia).
  unfold size_ok. lia.
Qed.

Lemma headers_aligned m p a B b : headers m p a B -> a mod 8 = 0 -> b ∈ B -> baddr b mod 8 = 0.
Proof.
  revert p a. induction B as [|c B IH]; intros p a; [intros; by apply not_elem_of_nil in H1|].
  cbn [headers]. intros (<- & [_ Hs] & _ & _ & HB) Ha [->|Hb]%elem_of_cons; [done|].
  apply (IH _ _ HB); [|done]. unfold bend. Z.to_euclidean_division_equations; lia.
Qed.

Lemma pool_counts s s' B L :
  pool s B L -> mem s' = mem s -> fl_bitmap s' = fl_bitmap s -> sl_bitmap s' = sl_bitmap s ->
  free_lists s' = free_lists s -> same_pool s s' -> free_bytes s' = free_bytes s -> pool s' B L.
Proof.
  intros [H1 H2 [M1 M2 M3 M4] H4 H5] E1 E2 E3 E4 (E5 & E6 & E7) E8.
  constructor; rewrite ?E5, ?E6, ?E7, ?E8; try done. constructor; rewrite ?E1, ?E2, ?E3, ?E4; done.
Qed.

Lemma alloc_spec s B L t0 t1 n :
  pool s B L -> 0 < n <= class_min 63 ->
  (kernel_tlsf_alloc t0 t1 n s = Some (0, count_failed s) /\
   forall x y, free_at B x y -> y < adjusted n + adjusted n / 4) \/
  exists s' b cap B' L', kernel_tlsf_alloc t0 t1 n s = Some (baddr b + 8, s') /\
    b ∈ B /\ bfree b = true /\ adjusted n <= cap < adjusted n + 24 /\ pool s' B' L' /\
    (forall x y, used_at B' x y <-> used_at B x y \/ (x = baddr b /\ y = cap)) /\
    (forall x, quiet B x -> zget (mem s') x = zget (mem s) x) /\ same_pool s s'.
Proof.
  intros Hp Hn. pose proof Hp as [Hin Hal Hm Hfl Hby]. pose proof Hm as [Hrow Hl Hf Hw].
  destruct (adjusted_spec n Hn) as ([Had Had'] & _ & Hsz).
  unfold kernel_tlsf_alloc. rewrite Hin. change (class_min 63) with 57344 in *.
  unfold TLSF_MAX_BLOCK_SIZE. destruct (Z.eqb_spec n 0), (Z.ltb_spec (2 ^ 16 - 1) n); try lia. cbn [negb orb].
  fold (adjusted n). set (size := adjusted n) in *. pose proof Hsz as [Hsz1 _].
  destruct (mapping_search_spec size) as (k & Hk & Hkr & Hge & Hle); [change (class_min 63) with 57344; lia|].
  rewrite Hk. cbv zeta.
  assert (Hclass : forall x y, free_at B x y -> exists j, x ∈ L j /\ 16 <= j < 64 /\ class_min j <= y /\ (j < 63 -> y < class_min (j + 1))).
  { intros x y (b & Hb & Hbf & <- & <-). destruct (row_block _ _ _ _ _ Hrow Hb) as ([? _] & _).
    destruct (mapping_insert_spec (bsize b)) as (j & Hj & Hjr & Hj1 & Hj2); [lia|].
    exists j. split; [|done]. apply Hf. exists (bsize b). split; [by exists b|done]. }
  destruct (find_suitable_spec s L k Hl) as [(j & a & l & -> & Hj & HL & _)|[-> Hnone]]; [lia| |].
  - right. cbn [mbind option_bind].
    assert (Ha : a ∈ L j) by (rewrite HL; left). pose proof Ha as (y & (b & Hb & Hbf & Hba & Hby') & Hcl)%Hf.
    destruct (row_block _ _ _ _ _ Hrow Hb) as ([? _] & _ & Hlo & Hhi). pose proof (row_pos _ _ _ _ Hrow).
    subst a y. destruct (Z.eqb_spec (baddr b) 0) as [|_]; [lia|].
    destruct (Hclass (baddr b) (bsize b)) as (j' & Hj' & _ & Hmin & _); [by exists b|].
    assert (j' = j) as -> by (eapply (lk_uniq _ _ _ (lo_links _ _ _ _ _ Hl)); done).
    pose proof (class_min_mono k j ltac:(lia)).
    fold (take (baddr b) size s).
    apply list_elem_of_split in Hb as (B1 & B2 & ->).
    assert (Htake : exists s' B' L' cap, take (baddr b) size s = s' /\
        mid s' (pool_start s) (pool_end s - 8) B' (free_at B') L' /\ flags_ok false B' /\
        free_bytes s' = free_sum B' /\ same_pool s s' /\ size <= cap < size + 24 /\
        (forall x n, used_at B' x n <-> used_at (B1 ++ b :: B2) x n \/ (x = baddr b /\ n = cap)) /\
        (forall x, quiet (B1 ++ b :: B2) x -> zget (mem s') x = zget (mem s) x)).
    { destruct (Z.le_gt_cases (size + 24) (bsize b)).
      - destruct (take_front s _ _ B1 b B2 L size Hm Hbf Hfl Hby Hsz) as (s' & B' & L' & ? & ? & ? & ? & ? & ? & ?);
          [lia|done|]. exists s', B', L', size. split_and!; try done; lia.
      - destruct (take_whole s _ _ B1 b B2 L size Hm Hbf Hfl Hby) as (s' & B' & L' & ? & ? & ? & ? & ? & ? & ?);
          [lia|lia|]. exists s', B', L', (bsize b). split_and!; try done; lia. }
    destruct Htake as (s' & B' & L' & cap & -> & T1 & T2 & T3 & T4 & T5 & T6 & T7).
    exists (count_alloc (t1 ⊟ t0) s'), b, cap, B', L'. split.
    { unfold block_to_ptr, TLSF_BLOCK_OVERHEAD. pose proof (row_fit _ _ _ _ Hrow). rewrite add32_small by lia. done. }
    split; [inlist|]. split; [done|]. split; [done|]. split; [|by split_and!].
    pose proof T4 as (Q1 & Q2 & Q3). apply (pool_counts s'); try done.
    constructor; rewrite ?Q1, ?Q2, ?Q3; done.
  - left. cbn [mbind option_bind]. rewrite Z.eqb_refl. split; [done|].
    intros x y (j & Hj & Hjr & _ & Hj2)%Hclass.
    destruct (Z.lt_ge_cases j k) as [Hlt|Hge'].
    + specialize (Hj2 ltac:(lia)). pose proof (class_min_mono (j + 1) k ltac:(lia)). lia.
    + rewrite Hnone in Hj by lia. by apply not_elem_of_nil in Hj.
Qed.

(** ** The callers' view *)

Definition tlsf_inv (s : tlsf) (live : gmap Z Z) : Prop :=
  exists B L, pool s B L /\ forall p n, live !! p = Some n <-> used_at B (p - 8) n.

(** [x] lies in a live region. *)
Definition in_live (live : gmap Z Z) (x : Z) : Prop :=
  exists p n, live !! p = Some n /\ p <= x < p + n.

Lemma used_quiet m a e B x b :
  row m a e B -> b ∈ B -> bfree b = false -> baddr b + 8 <= x < bend b -> quiet B x.
Proof.
  intros Hr Hb Hf Hx c Hc. destruct (row_block _ _ _ _ _ Hr Hc) as ([? _] & _).
  destruct (headers_disjoint _ _ _ _ _ _ (row_headers _ _ _ _ Hr) Hb Hc) as [->|Hd].
  - split; [lia|]. split; [addr|congruence].
  - unfold bend in *. split; [lia|]. split; [addr|lia].
Qed.

Lemma live_quiet s B L live x :
  pool s B L -> (forall p n, live !! p = Some n <-> used_at B (p - 8) n) -> in_live live x -> quiet B x.
Proof.
  intros Hp Hl (p & n & (b & Hb & Hf & Ha & <-)%Hl & Hx). pose proof (md_row _ _ _ _ _ _ (pl_mid _ _ _ Hp)) as Hr.
  eapply used_quiet; [done..|]. unfold bend. lia.
Qed.

(** Words outside the pool are of no concern to the allocator. *)
Definition in_pool (s : tlsf) (x : Z) : Prop := pool_start s <= x < pool_end s.

Lemma outside_quiet s B L x : pool s B L -> ~ in_pool s x -> quiet B x.
Proof.
  intros Hp Hx b Hb. destruct (row_block _ _ _ _ _ (md_row _ _ _ _ _ _ (pl_mid _ _ _ Hp)) Hb) as ([? _] & _ & ? & ?).
  unfold in_pool, bend, prev_phys in *. lia.
Qed.

(** The allocator only looks at the words of its pool that are not live. *)
Lemma tlsf_ext s live m :
  tlsf_inv s live ->
  (forall x, in_pool s x -> ~ in_live live x -> zget m x = zget (mem s) x) ->
  tlsf_inv (with_mem (fun _ => m) s) live.
Proof.
  intros (B & L & Hp & Hl) Hx. exists B, L. split; [|done].
  pose proof (fun x => live_quiet _ _ _ _ x Hp Hl) as Hq. destruct Hp as [H1 H2 Hm H4 H5].
  constructor; try done. cbn [pool_start pool_end with_mem]. destruct Hm as [Hr [Hk Hb] Hf Hw].
  assert (Hin : forall b x, b ∈ B -> baddr b <= x < bend b -> in_pool s x).
  { intros b x Hb'. destruct (row_block _ _ _ _ _ Hr Hb') as (_ & _ & ? & ?). unfold in_pool, bend. lia. }
  constructor; [| |done|done].
  - pose proof Hr as [? ? Hh ? ?]. constructor; try done; cbn [mem with_mem].
    + eapply headers_ext; [|exact Hh]. intros b Hb'. destruct (row_block _ _ _ _ _ Hr Hb') as ([? _] & _).
      split; (apply Hx; [apply (Hin b); [done|unfold bend, prev_phys; lia]|]);
        intros Hlx; destruct (Hq _ Hlx b Hb') as (? & ? & _); done.
    + rewrite Hx; [done| |].
      * destruct (last B) as [b|] eqn:E.
        -- apply last_Some_elem_of in E. destruct (row_block _ _ _ _ _ Hr E) as ([? _] & _ & ? & ?). unfold in_pool. lia.
        -- apply last_None in E. subst B. cbn in *. unfold in_pool. lia.
      * intros (p & n & (b & Hb' & _ & Ha & <-)%Hl & Hxb). destruct (row_block _ _ _ _ _ Hr Hb') as (_ & _ & _ & ?). lia.
  - split; [|done]. cbn [mem with_mem free_lists]. destruct Hk as [K1 K2 K3 K4 K5 K6]. constructor; try done.
    intros k. eapply dll_ext; [|apply K2]. intros a (y & (b & Hb' & Hbf & <- & <-) & _)%Hf.
    destruct (row_block _ _ _ _ _ Hr Hb') as ([? _] & _).
    assert (Hfree : forall x, baddr b <= x < bend b -> zget m x = zget (mem s) x).
    { intros x Hxb. apply Hx; [by apply (Hin b)|]. intros Hlx. destruct (Hq _ Hlx b Hb') as (_ & _ & Hn). by apply Hn. }
    unfold bend in Hfree. split; apply Hfree; addr.
Qed.

(** Storing into a live region leaves the allocator alone. *)
Lemma store_spec s live x v :
  tlsf_inv s live -> in_live live x -> tlsf_inv (with_mem (fun m => <[x := v]> m) s) live.
Proof.
  intros Hinv Hx. apply (tlsf_ext s live (<[x := v]> (mem s)) Hinv). intros y _ Hy.
  apply zget_insert_ne. by intros ->.
Qed.

Lemma free_spec s live p n t0 t1 :
  tlsf_inv s live -> live !! p = Some n ->
  tlsf_inv (kernel_tlsf_free t0 t1 p s) (delete p live) /\
  (forall x, in_live (delete p live) x \/ ~ in_pool s x ->
     zget (mem (kernel_tlsf_free t0 t1 p s)) x = zget (mem s) x) /\
  same_pool s (kernel_tlsf_free t0 t1 p s).
Proof.
  intros (B & L & Hp & Hl) Hpn. pose proof Hpn as (b & Hb & Hf & Ha & Hn)%Hl.
  apply list_elem_of_split in Hb as (B1 & B2 & ->).
  destruct (release_spec s B1 b B2 L t0 t1 Hp Hf) as (B' & L' & Hp' & Hu & Hm & Hsame).
  replace (baddr b + 8) with p in * by lia. split_and!; [| |apply Hsame..].
  - exists B', L'. split; [done|]. intros q m. rewrite Hu, <- Hl, lookup_delete_Some.
    split; (intros [H1 H2]; split; [done || lia|done || lia]).
  - intros x [Hx|Hx].
    2:{ apply Hm; [by eapply outside_quiet|]. assert (HbB : b ∈ B1 ++ b :: B2) by inlist.
        destruct (row_block _ _ _ _ _ (md_row _ _ _ _ _ _ (pl_mid _ _ _ Hp)) HbB) as (_ & _ & ? & ?).
        unfold in_pool, bend in *. lia. }
    pose proof Hx as (q & m & [Hne Hq]%lookup_delete_Some & Hr). apply Hm.
    + apply (live_quiet s _ L live); [done..|]. by exists q, m.
    + apply Hl in Hq as (c & Hc & Hcf & Hca & <-).
      pose proof (md_row _ _ _ _ _ _ (pl_mid _ _ _ Hp)) as Hrow.
      assert (HbB : b ∈ B1 ++ b :: B2) by inlist.
      destruct (headers_disjoint _ _ _ _ _ _ (row_headers _ _ _ _ Hrow) HbB Hc) as [->|Hd]; [lia|].
      unfold bend in *. lia.
Qed.

(** Live regions are aligned, inside the pool and apart from each other. *)
Lemma live_region s live p n : tlsf_inv s live -> live !! p = Some n ->
  p mod 8 = 0 /\ 16 <= n /\ pool_start s + 8 <= p /\ p + n + 8 <= pool_end s /\
  forall q m, live !! q = Some m -> q <> p -> p + n + 8 <= q \/ q + m + 8 <= p.
Proof.
  intros (B & L & Hp & Hl) (b & Hb & Hf & Ha & <-)%Hl.
  pose proof (md_row _ _ _ _ _ _ (pl_mid _ _ _ Hp)) as Hr.
  destruct (row_block _ _ _ _ _ Hr Hb) as ([? _] & _ & ? & ?).
  pose proof (headers_aligned _ _ _ _ _ (row_headers _ _ _ _ Hr) (pl_align _ _ _ Hp) Hb).
  split; [Z.to_euclidean_division_equations; lia|]. split_and!; try lia.
  intros q m (c & Hc & _ & Hca & <-)%Hl Hne.
  destruct (headers_disjoint _ _ _ _ _ _ (row_headers _ _ _ _ Hr) Hb Hc) as [->|Hd]; unfold bend in *; lia.
Qed.

Lemma alloc_view s live t0 t1 n :
  tlsf_inv s live -> 0 < n <= class_min 63 ->
  exists p s', kernel_tlsf_alloc t0 t1 n s = Some (p, s') /\
    ((p = 0 /\ mem s' = mem s /\ tlsf_inv s' live) \/
     exists cap, live !! p = None /\ n <= cap < Z.max 40 (n + 31) /\ tlsf_inv s' (<[p := cap]> live) /\
       forall x, in_live live x \/ ~ in_pool s x -> zget (mem s') x = zget (mem s) x) /\
    same_pool s s'.
Proof.
  intros (B & L & Hp & Hl) Hn. pose proof (adjusted_spec n Hn) as ([? ?] & ? & _).
  destruct (alloc_spec s B L t0 t1 n Hp Hn) as [[He _]|(s' & b & cap & B' & L' & He & Hb & Hf & Hc & Hp' & Hu & Hm & Hsame)].
  - exists 0, (count_failed s). split; [done|]. split; [|done]. left. split; [done|]. split; [done|].
    exists B, L. split; [by apply (pool_counts s)|done].
  - exists (baddr b + 8), s'. split; [done|]. split; [|done]. right. exists cap.
    pose proof (md_row _ _ _ _ _ _ (pl_mid _ _ _ Hp)) as Hr.
    assert (Hfresh : live !! (baddr b + 8) = None).
    { apply eq_None_not_Some. intros [m (c & Hc' & Hcf & Hca & _)%Hl].
      assert (c = b) as -> by (apply (row_unique _ _ _ _ _ _ Hr Hc' Hb); lia). congruence. }
    split; [done|]. split; [lia|]. split.
    + exists B', L'. split; [done|]. intros q m. rewrite Hu, <- Hl, lookup_insert_Some.
      split.
      * intros [[<- <-]|[_ ?]]; [right; lia|by left].
      * intros [Hq|[Hq ->]]; [right|left; lia]. split; [|done]. intros <-. congruence.
    + intros x [Hx|Hx]; apply Hm; [by eapply live_quiet|by eapply outside_quiet].
Qed.

(** ** The abstract allocator *)

(** The live regions and the words stored in them. *)
Record heap_view := mkView { regions : gmap Z Z; contents : Z -> Z }.

Inductive request := Alloc (n : Z) | Free (p : Z) | Store (x v : Z).

(** What a caller may ask for. *)
Definition legal (h : heap_view) (r : request) : Prop :=
  match r with
  | Alloc n => 0 < n <= class_min 63
  | Free p => is_Some (regions h !! p)
  | Store x _ => in_live (regions h) x
  end.

(** A fresh region of [cap] bytes at [p]: aligned, and apart from the others. *)
Definition fresh_region (live : gmap Z Z) (p cap : Z) : Prop :=
  p <> 0 /\ p mod 8 = 0 /\ forall q m, live !! q = Some m -> p + cap <= q \/ q + m <= p.

(** Contents are kept in every region that was live before. *)
Definition keeps (live : gmap Z Z) (f g : Z -> Z) : Prop := forall x, in_live live x -> g x = f x.

Inductive spec_step (h : heap_view) : request -> Z -> heap_view -> Prop :=
  | spec_alloc n p cap g :
      n <= cap -> fresh_region (regions h) p cap -> keeps (regions h) (contents h) g ->
      spec_step h (Alloc n) p (mkView (<[p := cap]> (regions h)) g)
  | spec_alloc_fail n g :
      keeps (regions h) (contents h) g -> spec_step h (Alloc n) 0 (mkView (regions h) g)
  | spec_free p g :
      keeps (delete p (regions h)) (contents h) g ->
      spec_step h (Free p) 0 (mkView (delete p (regions h)) g)
  | spec_store x v :
      spec_step h (Store x v) 0 (mkView (regions h) (fun y => if decide (y = x) then v else contents h y)).

(** The implementation; the clock readings are those of the call. *)
Definition exec (t0 t1 : Z) (r : request) (s : tlsf) : option (Z * tlsf) :=
  match r with
  | Alloc n => kernel_tlsf_alloc t0 t1 n s
  | Free p => Some (0, kernel_tlsf_free t0 t1 p s)
  | Store x v => Some (0, with_mem (fun m => <[x := v]> m) s)
  end.

Definition represents (s : tlsf) (h : heap_view) : Prop :=
  tlsf_inv s (regions h) /\ forall x, in_live (regions h) x -> zget (mem s) x = contents h x.

(** C2: Forward simulation: whatever a caller legally asks, the allocator
    answers as the abstract allocator does.  An allocation returns NULL or a
    new aligned region of at least the requested size that overlaps no live
    region; a release removes its region; a store changes its word; and no
    operation changes a word of a region it was not asked to change. *)
Theorem tlsf_simulation (s : tlsf) (h : heap_view) (r : request) (t0 t1 : Z) :
  represents s h -> legal h r ->
  exists v s' h', exec t0 t1 r s = Some (v, s') /\ spec_step h r v h' /\ represents s' h'.
Proof.
  intros [Hinv Hc] Hr. destruct h as [live f]. cbn [regions contents] in *. destruct r as [n|p|x w]; cbn [exec legal regions] in *.
  - destruct (alloc_view s live t0 t1 n Hinv Hr) as (p & s' & He & [(-> & Hm & Hinv')|(cap & Hnew & Hcap & Hinv' & Hm)] & _).
    + exists 0, s', (mkView live (zget (mem s))). split; [done|]. split.
      * by constructor.
      * split; [done|]. cbn. by rewrite Hm.
    + exists p, s', (mkView (<[p := cap]> live) (zget (mem s'))). split; [done|].
      destruct (live_region s' (<[p := cap]> live) p cap Hinv') as (Hal & _ & Hlo & _ & Hd); [apply lookup_insert_eq|].
      split; [|done]. constructor; [lia| |].
      * destruct Hinv' as (B' & L' & Hp' & _). pose proof (row_pos _ _ _ _ (md_row _ _ _ _ _ _ (pl_mid _ _ _ Hp'))).
        split; [lia|]. split; [done|]. intros q m Hq. cbn in Hq. assert (q <> p) by congruence.
        destruct (Hd q m); [by rewrite lookup_insert_ne|done|lia|lia].
      * intros x Hx. cbn in *. rewrite Hm by (by left). by apply Hc.
  - destruct Hr as [n Hn]. destruct (free_spec s live p n t0 t1 Hinv Hn) as (Hinv' & Hm & _).
    exists 0, (kernel_tlsf_free t0 t1 p s), (mkView (delete p live) (zget (mem (kernel_tlsf_free t0 t1 p s)))).
    split; [done|]. split; [|done]. constructor. intros x Hx. cbn in *. rewrite Hm by (by left). apply Hc.
    destruct Hx as (q & m & [_ Hq]%lookup_delete_Some & ?). by exists q, m.
  - exists 0, (with_mem (fun m => <[x := w]> m) s), (mkView live (fun y => if decide (y = x) then w else f y)).
    split; [done|]. split; [constructor|]. split; [by apply store_spec|]. cbn [regions contents mem with_mem].
    intros y Hy. rewrite zget_insert. destruct (decide (x = y)) as [->|]; [by rewrite decide_True|].
    rewrite decide_False by congruence. by apply Hc.
Qed.

(** A request of at most 57344 bytes fails only when every free block is
    smaller than the request, rounded up to a multiple of eight, and a quarter
    more; so a pool with a large enough free block always serves it. *)
Theorem tlsf_alloc_fails_small (s : tlsf) (B : list block) (L : lists) (t0 t1 n : Z) (s' : tlsf) :
  pool s B L -> 0 < n <= class_min 63 -> kernel_tlsf_alloc t0 t1 n s = Some (0, s') ->
  s' = count_failed s /\ forall x y, free_at B x y -> y < adjusted n + adjusted n / 4.
Proof.
  intros Hp Hn He. destruct (alloc_spec s B L t0 t1 n Hp Hn) as [[He' Hf]|(s1 & b & cap & B' & L' & He' & Hb & _)].
  - split; [congruence|done].
  - pose proof (md_row _ _ _ _ _ _ (pl_mid _ _ _ Hp)) as Hr.
    destruct (row_block _ _ _ _ _ Hr Hb) as (_ & _ & ? & _). pose proof (row_pos _ _ _ _ Hr).
    rewrite He in He'. injection He' as ? _. lia.
Qed.

(** Releasing what was just allocated restores the live regions and
    leaves every live word as it was; the counter of free bytes stays the sum
    of the free blocks throughout. *)
Theorem tlsf_alloc_free_roundtrip (s : tlsf) (live : gmap Z Z) (t0 t1 t2 t3 n : Z) :
  tlsf_inv s live -> 0 < n <= class_min 63 ->
  exists p s1, kernel_tlsf_alloc t0 t1 n s = Some (p, s1) /\
    (p <> 0 -> let s2 := kernel_tlsf_free t2 t3 p s1 in
       tlsf_inv s2 live /\ forall x, in_live live x -> zget (mem s2) x = zget (mem s) x).
Proof.
  intros Hinv Hn. destruct (alloc_view s live t0 t1 n Hinv Hn) as (p & s1 & He & Hpost & _).
  exists p, s1. split; [done|]. intros Hp. destruct Hpost as [[? _]|(cap & Hnew & _ & Hinv1 & Hm)]; [done|].
  destruct (free_spec s1 _ p cap t2 t3 Hinv1) as (Hinv2 & Hm2 & _); [apply lookup_insert_eq|].
  cbv zeta. rewrite delete_insert_id in Hinv2, Hm2 by done. split; [done|].
  intros x Hx. rewrite Hm2 by (by left). apply Hm. by left.
Qed.

(** ** Initialisation *)

Lemma empty_lists m : lists_ok m 0 ∅ ∅ (fun _ => []).
Proof.
  split.
  - constructor.
    + intros k _. apply zget_empty.
    + intros k l1 a l2 He. by destruct l1.
    + by intros k a ?%not_elem_of_nil.
    + intros k. apply NoDup_nil_2.
    + by intros k j a ?%not_elem_of_nil.
    + by intros k j a b ?%not_elem_of_nil.
  - constructor; try lia.
    + intros fl sl _ _. rewrite zget_empty, Z.bits_0. done.
    + intros fl. rewrite zget_empty. lia.
    + intros fl _. rewrite zget_empty, Z.bits_0. done.
Qed.

Lemma initialize_row m buffer size :
  0 < buffer -> buffer + size < 2 ^ 32 -> 32 <= size -> size mod 8 = 0 ->
  let sentinel := buffer + size - 8 in
  let m1 := <[prev_phys sentinel := 0]> (<[sentinel := 0]> m) in
  let m2 := block_set_free buffer (block_set_size buffer (size - 16) (<[buffer := 0]> m1)) in
  let m3 := <[free_next buffer := 0]> (<[free_prev buffer := 0]> (<[prev_phys buffer := 0]> m2)) in
  row (<[prev_phys sentinel := buffer]> m3) buffer sentinel [mkBlock buffer (size - 16) true false].
Proof.
  intros Hb Hfit Hs Hm. cbv zeta. unfold block_set_free, block_set_size.
  assert (Hok : size_ok (size - 16)) by (split; [lia|Z.to_euclidean_division_equations; lia]).
  constructor; [lia|lia| |cbn; unfold bend; cbn; lia|].
  - cbn [headers baddr bsize bword bfree bprev]. split; [done|]. split; [done|].
    rewrite !zget_insert_eq. split; [|split; [|done]].
    + rewrite !zget_insert_ne by addr. rewrite zget_insert_eq.
      change (Z.land 0 TLSF_BLOCK_FLAG_MASK) with 0. rewrite Z.lor_0_r.
      replace (size - 16) with (word (size - 16) false false) at 1 by (unfold word; lia).
      apply word_set_free, Hok.
    + rewrite 3!zget_insert_ne by addr. apply zget_insert_eq.
  - rewrite !zget_insert_ne by addr. apply zget_insert_eq.
Qed.

Lemma initialize_spec (buffer size : Z) (s : tlsf) :
  0 < buffer -> buffer mod 8 = 0 -> 32 <= size -> size mod 8 = 0 -> buffer + size < 2 ^ 32 ->
  exists s', kernel_tlsf_initialize buffer size s = (true, s') /\ tlsf_inv s' ∅ /\
    free_bytes s' = size - 16 /\ pool_start s' = buffer /\ pool_end s' = buffer + size /\
    forall x, ~ (buffer <= x < buffer + size) -> zget (mem s') x = zget (mem s) x.
Proof.
  intros Hb Hal Hs Hm Hfit. unfold kernel_tlsf_initialize.
  unfold TLSF_BLOCK_OVERHEAD, TLSF_MIN_BLOCK_SIZE. change (8 + 16 + 8) with 32.
  destruct (Z.eqb_spec buffer 0) as [|_], (Z.ltb_spec size 32) as [|_]; try lia. cbn [orb].
  change TLSF_ALIGN_MASK with (Z.ones 3) at 1. rewrite Z.land_ones by lia. change (2 ^ 3) with 8. rewrite Hal. cbn [Z.eqb].
  rewrite (add32_small buffer), (sub32_small (buffer + size)), (sub32_small size), (sub32_small (size - 8)) by lia.
  replace (size - 8 - 8) with (size - 16) by lia.
  pose proof (initialize_row (mem s) buffer size Hb Hfit Hs Hm) as Hr. cbv zeta in Hr |- *.
  set (m := <[prev_phys (buffer + size - 8) := buffer]> _) in *.
  assert (Hout : forall x, ~ (buffer <= x < buffer + size) -> zget m x = zget (mem s) x).
  { intros x Hx. unfold m, block_set_free, block_set_size. by rewrite !zget_insert_ne by addr. }
  clearbody m.
  set (s0 := mk m 0 ∅ ∅ buffer (buffer + size) size 0 0 0 0 0 0 false).
  set (b := mkBlock buffer (size - 16) true false) in *.
  assert (H0 : mid s0 buffer (buffer + size - 8) [b] (fun _ _ => False) (fun _ => [])).
  { constructor; [done|apply empty_lists| |done]. intros k a. split; [by intros ?%not_elem_of_nil|naive_solver]. }
  destruct (file _ _ _ _ _ _ b H0) as (s1 & L1 & He & Hre & H1 & Hm1); [left|by intros ? []|].
  cbn [baddr b] in He. rewrite He. apply relisted_pool in Hre as [(P1 & P2 & _) _]. cbn in P1, P2.
  eexists. split; [reflexivity|]. split; [|split_and!; try done].
  2:{ intros x Hx. cbn [mem]. rewrite Hm1; [by apply Hout|by intros ? ? []|]. unfold bend. cbn. lia. }
  exists [b], L1. split.
  - constructor; cbn [initialized pool_start pool_end free_bytes mem fl_bitmap sl_bitmap free_lists]; try done;
      [|cbn; lia].
    destruct H1 as [M1 M2 M3 M4]. constructor; cbn [mem fl_bitmap sl_bitmap free_lists]; try done.
    + eapply filing_proper; [|exact M3]. intros x n. autorewrite with blocks. cbn. naive_solver.
    + intros x n. autorewrite with blocks. cbn. intros [(_ & <- & <-)|[]]. exists b. split; [left|done].
  - intros p n. rewrite lookup_empty. autorewrite with blocks. cbn. naive_solver.
Qed.

(** Initialising with an aligned pool of at least 32 bytes succeeds, and
    afterwards nothing is live and all but the two headers is free. *)
Theorem tlsf_initialize_correct (buffer size : Z) (s : tlsf) :
  0 < buffer -> buffer mod 8 = 0 -> 32 <= size -> size mod 8 = 0 -> buffer + size < 2 ^ 32 ->
  exists s', kernel_tlsf_initialize buffer size s = (true, s') /\ tlsf_inv s' ∅ /\
    free_bytes s' = size - 16 /\ pool_start s' = buffer /\ pool_end s' = buffer + size.
Proof.
  intros ? ? ? ? ?. destruct (initialize_spec buffer size s) as (s' & ? & ? & ? & ? & ? & _); [done..|]. by exists s'.
Qed.

Definition cold : tlsf := mk ∅ 0 ∅ ∅ 0 0 0 0 0 0 0 0 0 false.
Definition example_pool : tlsf := snd (kernel_tlsf_initialize 0x100000 4096 cold).

Lemma tlsf_initialize_correct_witness :
  exists s', kernel_tlsf_initialize 0x100000 4096 cold = (true, s') /\ tlsf_inv s' ∅ /\
    free_bytes s' = 4096 - 16 /\ pool_start s' = 0x100000 /\ pool_end s' = 0x100000 + 4096.
Proof. apply tlsf_initialize_correct; [lia|reflexivity|lia|reflexivity|lia]. Defined.

Lemma example_pool_inv : tlsf_inv example_pool ∅.
Proof.
  destruct (initialize_spec 0x100000 4096 cold) as (s' & He & Hinv & _); [done || lia..|].
  unfold example_pool. by rewrite He.
Qed.

Lemma example_represents : represents example_pool (mkView ∅ (fun _ => 0)).
Proof. split; [apply example_pool_inv|]. intros x (p & n & Hp & _). cbn in Hp. by rewrite lookup_empty in Hp. Qed.

Lemma tlsf_simulation_witness :
  exists v s' h', exec 0 0 (Alloc 100) example_pool = Some (v, s') /\
    spec_step (mkView ∅ (fun _ => 0)) (Alloc 100) v h' /\ represents s' h'.
Proof.
  apply (tlsf_simulation example_pool (mkView ∅ (fun _ => 0)) (Alloc 100) 0 0);
    [apply example_represents|split; [lia|vm_compute; discriminate]].
Defined.

Lemma tlsf_alloc_fails_small_witness :
  exists B L s', pool example_pool B L /\ kernel_tlsf_alloc 0 0 5000 example_pool = Some (0, s') /\
    s' = count_failed example_pool /\ forall x y, free_at B x y -> y < adjusted 5000 + adjusted 5000 / 4.
Proof.
  destruct example_pool_inv as (B & L & Hp & _). eexists B, L, _. split; [exact Hp|].
  assert (He : kernel_tlsf_alloc 0 0 5000 example_pool = Some (0, _)) by (vm_compute; reflexivity).
  split; [exact He|].
  apply (tlsf_alloc_fails_small example_pool B L 0 0 5000); [exact Hp|split; [lia|vm_compute; discriminate]|exact He].
Defined.

Lemma tlsf_alloc_free_roundtrip_witness :
  exists p s1, kernel_tlsf_alloc 0 0 100 example_pool = Some (p, s1) /\
    (p <> 0 -> let s2 := kernel_tlsf_free 0 0 p s1 in
       tlsf_inv s2 ∅ /\ forall x, in_live ∅ x -> zget (mem s2) x = zget (mem example_pool) x).
Proof.
  apply (tlsf_alloc_free_roundtrip example_pool ∅ 0 0 0 0 100);
    [apply example_pool_inv|split; [lia|vm_compute; discriminate]].
Defined.

(** The request limit is checked before rounding up the class, so a
    request above 57344 bytes may get a block that is too small: from a fresh
    pool of 57360 bytes a request for 60000 bytes returns a block of 57344. *)
Theorem tlsf_undersized_block :
  exists s1 p s2, kernel_tlsf_initialize 0x100000 57360 cold = (true, s1) /\
    kernel_tlsf_alloc 0 0 60000 s1 = Some (p, s2) /\ p <> 0 /\
    block_get_size (ptr_to_block p) (mem s2) = 57344.
Proof.
  do 3 eexists. split; [vm_compute; reflexivity|]. split; [vm_compute; reflexivity|].
  split; [done|]. vm_compute. reflexivity.
Qed.
