(* ===== verification/HeapClient.v ===== *)
(** * Correctness of the client's heap

    The four sources of the client's [kmalloc] share one memory: the objects
    of the slab caches, the TLSF pool and the first-fit list lie in frames of
    the direct map that paging does not use, the blocks of whole pages in the
    dynamic range of the virtual memory manager.  The invariants of the four
    parts hold together, and every live block keeps its header. *)

From S2P Require Import Prelude Cpu Pmm BuddyProofs FrameAlloc Paging PagingProofs Vmm VmmProofs.
From S2P Require Import Slab Tlsf TlsfProofs TlsfSpec TlsfPool TlsfCorrect HeapInterface Heap HeapList.
Import Heap.Client.

Inductive origin := FromSlab | FromTlsf | FromPages | FromList.

#[export] Instance origin_eq_dec : EqDecision origin.
Proof. solve_decision. Defined.

(** A live block: where it came from, the address of its header, the bytes
    from the header on, and the bytes asked for. *)
Record block := mkBlock { org : origin; hdr : Z; room : Z; len : Z }.

Definition ext (b : block) : extent := (hdr b, room b).
Definition region_of (b : block) : region := (hdr b + 16, len b).

(** What the parts of the heap stand for: free and held frames, the frames
    behind the pages of the dynamic range; the slab objects, carved and free;
    the regions live in TLSF; the free blocks of the list, and the memory the
    list was made from. *)
Record ghost := mkGhost {
  free_frames : gset Z;
  held_frames : gset Z;
  backing : gmap Z Z;
  objects : Z -> option nat;
  free_objects : nat -> list Z;
  live_tlsf : gmap Z Z;
  listed : list extent;
  list_zone : Z -> Prop }.

Section client.
Context {A : Type} `{FrameAllocator A}.
Implicit Types (s : client A) (h : common A) (m : zmap).

(** ** The invariant *)

Implicit Types (g : ghost) (b : block).

Definition slab_zone g (x : Z) : Prop := exists p o, objects g p = Some o /\ p <= x < p + sz o.
Definition zone s g (x : Z) : Prop := slab_zone g x \/ in_pool (tlsf_control s) x \/ list_zone g x.

(** A word of the direct map in a frame that is neither free nor a page table. *)
Definition frame_of (x : Z) : Z := (x - 0xC0000000) / 4096.
Definition quiet_word h (F : gset Z) (x : Z) : Prop :=
  0xC0000000 <= x < 0xD0000000 /\ calm (pages (vm h)) F (frame_of x).

Record core s g : Prop := {
  co_init : kernel_heap_initialized (base s) = true;
  co_vm : vmm_inv (vm (base s)) (free_frames g) (held_frames g) (backing g);
  co_slab : slab_ok (slab_view s) (objects g) (free_objects g);
  co_tlsf : tlsf_inv (tlsf_view s) (live_tlsf g);
  co_list : sound_list (base s) (listed g);
  co_listed : forall x, covered (listed g) x -> list_zone g x;
  co_zone : forall x, zone s g x ->
    quiet_word (base s) (free_frames g) x /\ forall j, backing g !! j <> Some (frame_of x);
  co_slab_apart : forall x, slab_zone g x -> ~ in_pool (tlsf_control s) x /\ ~ list_zone g x;
  co_pool_apart : forall x, in_pool (tlsf_control s) x -> ~ list_zone g x }.

(** The part that handed a block out knows it. *)
Definition owns g b : Prop :=
  match org b with
  | FromSlab => exists o, objects g (hdr b) = Some o /\ room b = sz o /\ Slab.live (objects g) (free_objects g) (hdr b)
  | FromTlsf => live_tlsf g !! hdr b = Some (room b)
  | FromPages => exists x n, hdr b = page_virt x /\ room b = 4096 * n /\ 0 <= x /\ 0 < n < 2 ^ 16 /\
                   x + n <= VMM_PAGE_COUNT /\ forall j, x <= j < x + n -> is_Some (backing g !! j)
  | FromList => block_wf (ext b) /\ clear_of (ext b) (listed g) /\ forall x, within (ext b) x -> list_zone g x
  end.

(** Where a word lies in memory. *)
Definition place g (x : Z) : option Z :=
  if (KERNEL_VMM_DYNAMIC_START <=? x) && (x <? KERNEL_VMM_DYNAMIC_END) then
    f ← backing g !! ((x - KERNEL_VMM_DYNAMIC_START) / 4096); Some (0xC0000000 + 4096 * f + x mod 4096)
  else Some x.

Definition flag_of (o : origin) : Z :=
  match o with
  | FromSlab => KERNEL_HEAP_BLOCK_FLAG_SLAB
  | FromTlsf => KERNEL_HEAP_BLOCK_FLAG_TLSF
  | FromPages => KERNEL_HEAP_BLOCK_FLAG_VMM
  | FromList => 0
  end.

(** The header of a live block: only the slabs and TLSF get a canary. *)
Definition header_ok g m b : Prop :=
  exists c, place g (hdr b) = Some c /\
    Header.magic c m = KERNEL_HEAP_HEADER_MAGIC /\ Header.flags c m = flag_of (org b) /\
    match org b with
    | FromSlab | FromTlsf => Header.canary c m = canary_of (Header.size c m)
    | FromPages => Header.reserved c m = room b / 4096
    | FromList => Header.size c m = room b
    end.

Definition fits_block b : Prop := 0 < len b /\ 16 + len b <= room b.

(** The words of a block stay where they are and keep their values. *)
Definition keeps g m g' m' b : Prop :=
  forall x, within (ext b) x -> place g' x = place g x /\ forall c, place g x = Some c -> zget m' c = zget m c.

Record blocks_ok s g (B : list block) : Prop := {
  bo_owns : Forall (owns g) B;
  bo_header : Forall (header_ok g (memory (base s))) B;
  bo_fits : Forall fits_block B;
  bo_apart : separate (ext <$> B) }.

Definition client_heap_inv s (L : list region) : Prop :=
  exists g B, core s g /\ blocks_ok s g B /\ L = region_of <$> B.

(** ** Places *)

Lemma place_direct g x : x < 0xD0000000 -> place g x = Some x.
Proof.
  intros Hx. unfold place, KERNEL_VMM_DYNAMIC_START. rewrite (proj2 (Z.leb_gt _ _)) by done. done.
Qed.

Lemma page_virt_div j o : 0 <= o < 4096 -> (page_virt j + o - 0xD0000000) / 4096 = j /\ (page_virt j + o) mod 4096 = o.
Proof. intros Ho. unfold page_virt. split; Z.to_euclidean_division_equations; lia. Qed.

Lemma place_page g j o : 0 <= j < VMM_PAGE_COUNT -> 0 <= o < 4096 ->
  place g (page_virt j + o) = f ← backing g !! j; Some (0xC0000000 + 4096 * f + o).
Proof.
  rewrite vmm_page_count. intros Hj Ho. destruct (page_virt_div j o Ho) as [E1 E2].
  unfold place, KERNEL_VMM_DYNAMIC_START, KERNEL_VMM_DYNAMIC_END. rewrite E1, E2. unfold page_virt in *.
  rewrite (proj2 (Z.leb_le _ _)), (proj2 (Z.ltb_lt _ _)) by lia. done.
Qed.

(** A word of a live block lies in a zone, or in a page of the dynamic range. *)
Definition in_page g (x : Z) : Prop :=
  exists j o f, x = page_virt j + o /\ 0 <= j < VMM_PAGE_COUNT /\ 0 <= o < 4096 /\ backing g !! j = Some f /\
    place g x = Some (0xC0000000 + 4096 * f + o).

Lemma owned_word s g b x : core s g -> owns g b -> within (ext b) x ->
  match org b with
  | FromSlab => slab_zone g x
  | FromTlsf => in_pool (tlsf_control s) x
  | FromPages => in_page g x
  | FromList => list_zone g x
  end.
Proof.
  intros Hc Ho Hx. unfold owns in Ho. unfold within, ext in *. cbn [fst snd] in *. destruct (org b).
  - destruct Ho as (o & Ho & Hr & _). exists (hdr b), o. rewrite <- Hr. done.
  - destruct (live_region _ _ _ _ (co_tlsf _ _ Hc) Ho) as (_ & _ & ? & ? & _). cbn in *. unfold in_pool. lia.
  - destruct Ho as (y & n & Eh & Er & Hy & Hn & Hb & Hm). rewrite Eh, Er in Hx.
    set (j := y + (x - page_virt y) / 4096). assert (Hj : y <= j < y + n) by (unfold j; Z.to_euclidean_division_equations; lia).
    destruct (Hm j Hj) as [f Hf]. exists j, ((x - page_virt y) mod 4096), f.
    pose proof (Z.mod_pos_bound (x - page_virt y) 4096 ltac:(lia)).
    assert (Hxe : x = page_virt j + (x - page_virt y) mod 4096).
    { unfold j, page_virt. Z.to_euclidean_division_equations; lia. }
    split_and!; try done; try lia. rewrite Hxe at 1. rewrite place_page by lia. by rewrite Hf.
  - destruct Ho as (_ & _ & Hz). by apply Hz.
Qed.

Lemma zone_place s g x : core s g -> zone s g x -> place g x = Some x.
Proof. intros Hc Hz. destruct (co_zone _ _ Hc x Hz) as [[? _] _]. apply place_direct. lia. Qed.

Lemma owned_cases s g b x : core s g -> owns g b -> within (ext b) x -> zone s g x \/ in_page g x.
Proof.
  intros Hc Ho Hx. pose proof (owned_word _ _ _ _ Hc Ho Hx) as Hw. unfold zone.
  destruct (org b); naive_solver.
Qed.

(** Different words of live blocks lie in different places. *)
Lemma place_inj s g b b' x y c :
  core s g -> owns g b -> owns g b' -> within (ext b) x -> within (ext b') y ->
  place g x = Some c -> place g y = Some c -> x = y.
Proof.
  intros Hc Ho Ho' Hx Hy Ex Ey.
  assert (Hpg : forall z w, zone s g z -> in_page g w -> place g z = Some c -> place g w = Some c -> False).
  { intros z w Hz (j & o & f & _ & _ & Hoo & Hj & Ew) Ez Ew'. rewrite (zone_place s) in Ez by done.
    rewrite Ew in Ew'. simplify_eq. destruct (co_zone _ _ Hc _ Hz) as [_ Hn]. apply (Hn j). rewrite Hj. f_equal.
    unfold frame_of. Z.to_euclidean_division_equations; lia. }
  destruct (owned_cases _ _ _ _ Hc Ho Hx) as [Hzx|Hpx], (owned_cases _ _ _ _ Hc Ho' Hy) as [Hzy|Hpy].
  - rewrite (zone_place s) in Ex, Ey by done. congruence.
  - by destruct (Hpg x y).
  - by destruct (Hpg y x).
  - destruct Hpx as (j & o & f & -> & _ & Hoj & Hj & Ex'), Hpy as (k & o' & f' & -> & _ & Hok & Hk & Ey').
    rewrite Ex' in Ex. rewrite Ey' in Ey. simplify_eq.
    assert (f = f' /\ o = o') as [-> ->] by lia.
    by rewrite (vi_inj _ _ _ _ (co_vm _ _ Hc) j k f').
Qed.

(** The places of live blocks are quiet. *)
Lemma place_quiet s g b x c :
  core s g -> owns g b -> within (ext b) x -> place g x = Some c ->
  0xC0000000 <= c < 2 ^ 32 /\ calm (pages (vm (base s))) (free_frames g) (frame_of c).
Proof.
  intros Hc Ho Hx Ec. destruct (owned_cases _ _ _ _ Hc Ho Hx) as [Hz|Hp].
  - rewrite (zone_place s) in Ec by done. simplify_eq. destruct (co_zone _ _ Hc _ Hz) as [[? ?] _]. split; [lia|done].
  - destruct Hp as (j & o & f & -> & _ & Ho' & Hj & Ec'). rewrite Ec' in Ec. simplify_eq.
    pose proof (vi_data _ _ _ _ (co_vm _ _ Hc) j f Hj) as Hd.
    pose proof (data_frame_range _ _ _ _ (vi_pages _ _ _ _ (co_vm _ _ Hc)) Hd) as Hr.
    assert (Hf : frame_of (0xC0000000 + 4096 * f + o) = f) by (unfold frame_of; Z.to_euclidean_division_equations; lia).
    rewrite Hf. split; [lia|]. destruct Hd as (HO & Ht & Hca). split_and!; [|done|done].
    pose proof (fa_disjoint _ _ _ (pi_frames _ _ _ (vi_pages _ _ _ _ (co_vm _ _ Hc)))). set_solver.
Qed.

(** ** Writing into live blocks *)

(** The places of the words of a block. *)
Definition cells g b (c : Z) : Prop := exists x, within (ext b) x /\ place g x = Some c.

Definition set_client m s : client A := Client.with_memory (fun _ => m) s.

Lemma slab_view_set m s : slab_view (set_client m s) = Slab.mk m (slab_caches s).
Proof. exact (f_equal (fun x => Slab.mk x (slab_caches s)) (memory_set m (base s))). Qed.

Lemma tlsf_view_set m s : tlsf_view (set_client m s) = Tlsf.with_mem (fun _ => m) (tlsf_control s).
Proof. exact (f_equal (fun x => Tlsf.with_mem (fun _ => x) (tlsf_control s)) (memory_set m (base s))). Qed.

Lemma vm_write h F O M (P : Z -> Prop) m :
  vmm_inv (vm h) F O M -> changes P (memory h) m ->
  (forall c, P c -> 0xC0000000 <= c < 2 ^ 32 /\ calm (pages (vm h)) F (frame_of c)) ->
  vmm_inv (vm (set_memory m h)) F O M.
Proof.
  intros Hv Hm HP. apply (vmm_write _ _ _ _ m Hv).
  intros q Hq Hn. apply Hm. intros HPq. apply Hn.
  destruct (HP _ HPq) as [_ Hq']. unfold pmm_phys_to_virt, KERNEL_VIRTUAL_BASE in Hq'. rewrite add32_small in Hq' by lia.
  unfold frame_of in Hq'. by replace (q + 0xC0000000 - 0xC0000000) with q in Hq' by lia.
Qed.

Lemma cells_zone s g b x : core s g -> owns g b -> zone s g x -> cells g b x -> within (ext b) x.
Proof.
  intros Hc Ho Hz (y & Hy & Ey). destruct (owned_cases _ _ _ _ Hc Ho Hy) as [Hzy|Hpy].
  - rewrite (zone_place s) in Ey by done. by simplify_eq.
  - destruct Hpy as (j & o & f & _ & _ & Ho' & Hj & Ey'). rewrite Ey' in Ey. simplify_eq.
    destruct (co_zone _ _ Hc _ Hz) as [_ Hn]. destruct (Hn j). rewrite Hj. f_equal.
    unfold frame_of. Z.to_euclidean_division_equations; lia.
Qed.

Lemma free_object_clear s g b i p : core s g -> owns g b -> p ∈ free_objects g i ->
  forall x, p <= x < p + 16 -> ~ cells g b x.
Proof.
  intros Hc Ho Hp x Hx Hcell. destruct (so_free _ _ _ (co_slab _ _ Hc) i p Hp) as (o & Hpo & _). pose proof (sz_range o).
  assert (Hz : slab_zone g x) by (exists p, o; split; [done|lia]).
  pose proof (cells_zone _ _ _ _ Hc Ho (or_introl Hz) Hcell) as Hw. destruct (co_slab_apart _ _ Hc x Hz) as [Hn1 Hn2].
  pose proof (owned_word _ _ _ _ Hc Ho Hw) as Hb. unfold owns in Ho. destruct (org b); [|done| |done].
  - destruct Ho as (ob & Hob & Hr & Hl). assert (hdr b <> p) by (intros E; apply (proj2 Hl i); by rewrite E).
    unfold within, ext in Hw. cbn in Hw. rewrite Hr in Hw.
    destruct (so_apart _ _ _ (co_slab _ _ Hc) (hdr b) ob p o Hob Hpo ltac:(done)); lia.
  - destruct Hb as (j & o' & f & -> & Hj & Ho' & _). destruct (co_zone _ _ Hc _ (or_introl Hz)) as [[? _] _].
    unfold page_virt in *. lia.
Qed.

Lemma core_write s g b m :
  core s g -> owns g b -> changes (cells g b) (memory (base s)) m -> core (set_client m s) g.
Proof.
  intros Hc Ho Hm. assert (Hvm : vmm_inv (vm (set_memory m (base s))) (free_frames g) (held_frames g) (backing g)).
  { apply (vm_write _ _ _ _ (cells g b) m (co_vm _ _ Hc) Hm). intros c (x & Hx & Ex). by eapply place_quiet. }
  constructor; rewrite ?slab_view_set, ?tlsf_view_set; try apply Hc; try done.
  - apply (slab_ext (slab_view s)); [apply Hc|]. intros i p Hp.
    split; apply Hm; eapply free_object_clear; eauto; lia.
  - apply (tlsf_ext (tlsf_view s)); [apply Hc|]. intros x Hx Hn. apply Hm. intros Hcell.
    assert (Hz : zone s g x) by (right; by left).
    pose proof (cells_zone _ _ _ _ Hc Ho Hz Hcell) as Hw. pose proof (owned_word _ _ _ _ Hc Ho Hw) as Hb.
    unfold owns in Ho. destruct (org b).
    + by destruct (co_slab_apart _ _ Hc x Hb).
    + apply Hn. by exists (hdr b), (room b).
    + destruct Hb as (j & o' & f & -> & Hj & Ho' & _). destruct (co_zone _ _ Hc _ Hz) as [[? _] _].
      unfold page_virt in *. lia.
    + by apply (co_pool_apart _ _ Hc x).
  - apply sound_list_write; [apply Hc|]. eapply changes_mono; [|exact Hm]. intros x Hcell Hcov.
    pose proof (co_listed _ _ Hc x Hcov) as Hl. assert (Hz : zone s g x) by (right; by right).
    pose proof (cells_zone _ _ _ _ Hc Ho Hz Hcell) as Hw. pose proof (owned_word _ _ _ _ Hc Ho Hw) as Hb.
    unfold owns in Ho. destruct (org b).
    + by destruct (co_slab_apart _ _ Hc x Hb).
    + by apply (co_pool_apart _ _ Hc x).
    + destruct Hb as (j & o' & f & -> & Hj & Ho' & _). destruct (co_zone _ _ Hc _ Hz) as [[? _] _].
      unfold page_virt in *. lia.
    + destruct Ho as (_ & Hcl & _), Hcov as (e & He & Hxe). unfold within in *. destruct (Hcl e He); lia.
Qed.

(** Blocks apart from the written one keep their words. *)
Lemma keeps_write s g b b' m :
  core s g -> owns g b -> owns g b' -> apart (ext b) (ext b') -> changes (cells g b) (memory (base s)) m ->
  keeps g (memory (base s)) g m b'.
Proof.
  intros Hc Ho Ho' Hap Hm x Hx. split; [done|]. intros c Ec. apply Hm. intros (y & Hy & Ey).
  assert (x = y) as <- by (by eapply (place_inj s g b' b)). unfold within, apart in *. lia.
Qed.

(** ** Headers *)

Lemma owned_room s g b : core s g -> owns g b -> 16 <= room b.
Proof.
  intros Hc Ho. unfold owns in Ho. destruct (org b).
  - destruct Ho as (o & _ & -> & _). pose proof (sz_range o). lia.
  - apply (live_region _ _ _ _ (co_tlsf _ _ Hc) Ho).
  - destruct Ho as (x & n & _ & -> & ? & ? & _). lia.
  - destruct Ho as ((_ & _ & _ & ? & _) & _). done.
Qed.

Lemma header_place s g b : core s g -> owns g b ->
  exists c, 0xC0000000 <= c /\ c + 16 <= 2 ^ 32 /\
    forall k, 0 <= k < 16 -> place g (hdr b + k) = Some (c + k).
Proof.
  intros Hc Ho. pose proof (owned_room _ _ _ Hc Ho) as Hr.
  assert (Hx : forall k, 0 <= k < 16 -> within (ext b) (hdr b + k)) by (unfold within, ext; cbn; lia).
  assert (Hdir : org b <> FromPages -> forall k, 0 <= k < 16 -> zone s g (hdr b + k)).
  { intros Hn k Hk. pose proof (owned_word _ _ _ _ Hc Ho (Hx k Hk)) as Hb. unfold zone. destruct (org b); tauto. }
  destruct (decide (org b = FromPages)) as [E|E].
  - unfold owns in Ho. rewrite E in Ho. destruct Ho as (x & n & Eh & Er & ? & ? & ? & Hm).
    destruct (Hm x) as [f Hf]; [lia|]. rewrite vmm_page_count in *.
    pose proof (data_frame_range _ _ _ _ (vi_pages _ _ _ _ (co_vm _ _ Hc)) (vi_data _ _ _ _ (co_vm _ _ Hc) x f Hf)).
    exists (0xC0000000 + 4096 * f). split_and!; try lia. intros k Hk. rewrite Eh, place_page by (rewrite ?vmm_page_count; lia).
    by rewrite Hf.
  - exists (hdr b). specialize (Hdir E).
    pose proof (co_zone _ _ Hc _ (Hdir 0 ltac:(lia))) as [[? _] _].
    pose proof (co_zone _ _ Hc _ (Hdir 15 ltac:(lia))) as [[? _] _].
    split_and!; [lia..|]. intros k Hk. apply (zone_place s); [done|]. by apply Hdir.
Qed.

Lemma header_keep s g g' m m' b :
  core s g -> owns g b -> header_ok g m b -> keeps g m g' m' b -> header_ok g' m' b.
Proof.
  intros Hc Ho (c & Ec & Hh) Hk. destruct (header_place _ _ _ Hc Ho) as (c' & ? & ? & Hp).
  pose proof (Hp 0 ltac:(lia)) as E0. rewrite !Z.add_0_r in E0. assert (c' = c) as -> by congruence. clear E0.
  pose proof (owned_room _ _ _ Hc Ho) as Hr. unfold keeps, within, ext in Hk. cbn [fst snd] in Hk.
  destruct (Hk (hdr b)) as [E0 W0]; [lia|]. destruct (Hk (hdr b + 4)) as [_ W4]; [lia|].
  destruct (Hk (hdr b + 8)) as [_ W8]; [lia|].
  specialize (W0 _ Ec). specialize (W4 _ (Hp 4 ltac:(lia))). specialize (W8 _ (Hp 8 ltac:(lia))).
  exists c. split; [congruence|].
  unfold Header.magic, Header.flags, Header.canary, Header.reserved, Header.size in *.
  rewrite (add32_small c 4), (add32_small c 8) in * by lia. by rewrite W0, W4, W8.
Qed.

(** ** Steps that write into one zone *)

Section zone_write.
Context (s : client A) (g : ghost) (P : Z -> Prop) (m : zmap).
Context (Hc : core s g) (Hm : changes P (memory (base s)) m).

Lemma vm_frame : (forall x, P x -> zone s g x) ->
  vmm_inv (vm (set_memory m (base s))) (free_frames g) (held_frames g) (backing g).
Proof.
  intros HP. apply (vm_write _ _ _ _ P m (co_vm _ _ Hc) Hm). intros c Hx. destruct (co_zone _ _ Hc c (HP c Hx)) as [[? ?] _].
  split; [lia|done].
Qed.

Lemma slab_frame : (forall x, P x -> ~ slab_zone g x) ->
  slab_ok (Slab.mk m (slab_caches s)) (objects g) (free_objects g).
Proof.
  intros HP. apply (slab_ext (slab_view s)); [apply Hc|]. intros i p Hp.
  destruct (so_free _ _ _ (co_slab _ _ Hc) i p Hp) as (o & Ho & _). pose proof (sz_range o).
  split; apply Hm; intros Hx; apply (HP _ Hx); exists p, o; (split; [done|lia]).
Qed.

Lemma tlsf_frame : (forall x, P x -> ~ in_pool (tlsf_control s) x) ->
  tlsf_inv (Tlsf.with_mem (fun _ => m) (tlsf_control s)) (live_tlsf g).
Proof.
  intros HP. apply (tlsf_ext (tlsf_view s)); [apply Hc|]. intros x Hx _. apply Hm. intros Hp. by apply (HP x).
Qed.

Lemma list_frame : (forall x, P x -> ~ list_zone g x) -> sound_list (set_memory m (base s)) (listed g).
Proof.
  intros HP. apply sound_list_write; [apply Hc|]. eapply changes_mono; [|exact Hm].
  intros x Hx Hcov. by apply (HP x), (co_listed _ _ Hc).
Qed.

Lemma keeps_frame g' b : backing g' = backing g -> owns g b ->
  (forall x, P x -> zone s g x) -> (forall x, P x -> ~ within (ext b) x) -> keeps g (memory (base s)) g' m b.
Proof.
  intros Eb Ho HP Hn x Hx. split; [unfold place; by rewrite Eb|]. intros c Ec. apply Hm. intros Hp.
  apply (Hn c Hp). apply (cells_zone s g); [done..|by apply HP|by exists x].
Qed.
End zone_write.

Lemma keeps_trans g m g' m' g'' m'' b : keeps g m g' m' b -> keeps g' m' g'' m'' b -> keeps g m g'' m'' b.
Proof.
  intros H1 H2 x Hx. destruct (H1 x Hx) as [E1 W1], (H2 x Hx) as [E2 W2]. split; [congruence|].
  intros c Ec. rewrite W2, W1; congruence.
Qed.

Lemma keeps_block_refl g m b : keeps g m g m b.
Proof. by intros x Hx. Qed.

(** ** Adding and removing a block *)

Lemma owned_region s g b : core s g -> owns g b -> region_ok (ext b).
Proof.
  intros Hc Ho. pose proof (owned_room _ _ _ Hc Ho) as Hr.
  assert (Hx : within (ext b) (hdr b) /\ within (ext b) (hdr b + room b - 1)) by (unfold within, ext; cbn; lia).
  assert (Hin : forall x, within (ext b) x -> 0xC0000000 <= x < 0xF0000000).
  { intros x Hw. destruct (owned_cases _ _ _ _ Hc Ho Hw) as [Hz|(j & o & f & -> & Hj & Ho' & _)].
    - destruct (co_zone _ _ Hc x Hz) as [[? _] _]. lia.
    - rewrite vmm_page_count in Hj. unfold page_virt. lia. }
  pose proof (Hin _ (proj1 Hx)). pose proof (Hin _ (proj2 Hx)). unfold region_ok, ext. cbn. lia.
Qed.

Lemma blocks_move s g s' g' B :
  core s g -> blocks_ok s g B -> Forall (owns g') B ->
  Forall (keeps g (memory (base s)) g' (memory (base s'))) B -> blocks_ok s' g' B.
Proof.
  intros Hc [Ho Hh Hf Ha] Ho' Hk. constructor; [done| |done..].
  rewrite Forall_forall in *. intros b Hb. eapply header_keep; eauto.
Qed.

Lemma blocks_add s g B b :
  core s g -> blocks_ok s g B -> owns g b -> header_ok g (memory (base s)) b -> fits_block b ->
  Forall (fun b' => apart (ext b) (ext b')) B -> blocks_ok s g (b :: B).
Proof.
  intros Hc [Ho Hh Hf Ha] Hob Hhb Hfb Hap. constructor; [by constructor..|]. cbn.
  split_and!; [by eapply owned_region|by apply Forall_fmap|done].
Qed.

Lemma blocks_remove s g B1 b B2 : blocks_ok s g (B1 ++ b :: B2) -> blocks_ok s g (B1 ++ B2).
Proof.
  intros [Ho Hh Hf Ha]. apply Forall_app in Ho as [? [? ?]%Forall_cons], Hh as [? [? ?]%Forall_cons], Hf as [? [? ?]%Forall_cons].
  rewrite fmap_app in Ha. constructor; [by apply Forall_app..|]. rewrite fmap_app. by eapply separate_remove.
Qed.

Lemma blocks_apart B1 b B2 : separate (ext <$> (B1 ++ b :: B2)) -> Forall (fun b' => apart (ext b) (ext b')) (B1 ++ B2).
Proof.
  intros Hs. apply Forall_forall. intros b' Hin. rewrite fmap_app, fmap_cons in Hs.
  apply (separate_pick _ _ _ (ext b') Hs). rewrite <- fmap_app. apply list_elem_of_fmap. eauto.
Qed.

(** Only these parts of the state matter. *)
Lemma core_counters s s' g : base s' = base s -> slab_caches s' = slab_caches s -> tlsf_control s' = tlsf_control s ->
  core s g -> core s' g.
Proof.
  intros E1 E2 E3 Hc. destruct s as [h cs t ? ? ?], s' as [h' cs' t' ? ? ?]. cbn in *. subst. by destruct Hc.
Qed.

(** A step that leaves the live blocks alone. *)
Definition moved s g B s' g' : Prop :=
  core s' g' /\ Forall (owns g') B /\ Forall (keeps g (memory (base s)) g' (memory (base s'))) B.

(** [b] was taken from its part; its header is still to be written. *)
Record taken s g B s' g' b : Prop := {
  tk_core : core s' g';
  tk_owns : Forall (owns g') B;
  tk_keeps : Forall (keeps g (memory (base s)) g' (memory (base s'))) B;
  tk_block : owns g' b;
  tk_fits : fits_block b;
  tk_apart : Forall (fun b' => apart (ext b) (ext b')) B }.

(** The allocation is complete: the live words of the other blocks are kept. *)
Definition served s g B s' (b : block) : Prop :=
  exists g', core s' g' /\ blocks_ok s' g' (b :: B) /\
    Forall (keeps g (memory (base s)) g' (memory (base s'))) B.

(** Writing the header of a new block completes it. *)
Lemma taken_served s g B s' g' b m :
  core s g -> blocks_ok s g B -> taken s g B s' g' b ->
  changes (cells g' b) (memory (base s')) m -> header_ok g' m b -> served s g B (set_client m s') b.
Proof.
  intros Hc HB [Hc' Ho' Hk' Hob Hfit Hap] Hm Hh. exists g'.
  assert (Hcw : core (set_client m s') g') by (by eapply core_write).
  assert (Hmem : memory (base (set_client m s')) = m) by apply memory_set.
  assert (Hk : Forall (keeps g (memory (base s)) g' (memory (base (set_client m s')))) B).
  { rewrite Hmem. rewrite Forall_forall in *. intros b' Hb'. eapply keeps_trans; [by apply Hk'|].
    apply (keeps_write s' g' b); auto. }
  split_and!; [done| |done]. apply blocks_add; try done; [|by rewrite Hmem].
  by apply (blocks_move s g).
Qed.

(** *** Slab caches and TLSF *)

Definition sealed (total_size flag c : Z) m : zmap :=
  let m := Header.set_flags c flag (Header.set_magic c KERNEL_HEAP_HEADER_MAGIC (Header.set_size c total_size m)) in
  Header.set_canary c (canary_of (Header.size c m)) m.

Lemma seal_set total_size flag c s : seal total_size flag c s = set_client (sealed total_size flag c (memory (base s))) s.
Proof.
  unfold seal, set_client, Client.with_memory, with_base.
  cbn [base slab_caches tlsf_control kernel_heap_hot_loop_depth kernel_heap_hot_loop_violation_count
       kernel_heap_hot_loop_bounded_count].
  rewrite !with_memory_set. autorewrite with heap. done.
Qed.

Lemma sealed_spec total_size flag c m :
  0 <= c -> c + 16 <= 2 ^ 32 -> 0 <= flag < 2 ^ 8 ->
  let m' := sealed total_size flag c m in
  changes (within (c, 16)) m m' /\ Header.magic c m' = KERNEL_HEAP_HEADER_MAGIC /\ Header.flags c m' = flag /\
  Header.canary c m' = canary_of (Header.size c m').
Proof.
  intros Hc Hc' Hf m'. unfold m', sealed. set (m1 := Header.set_flags _ _ _).
  assert (Hcan : 0 <= canary_of (Header.size c m1) < 2 ^ 16) by apply Z.mod_pos_bound, eq_refl.
  unfold Header.set_canary, Header.magic, Header.flags, Header.canary. rewrite !(add32_small c) by lia. split_and!.
  - unfold m1, Header.set_flags, Header.set_magic, Header.set_size. rewrite !(add32_small c) by lia.
    repeat (eapply changes_trans; [|apply changes_insert; unfold within; cbn; lia]). done.
  - rewrite zget_insert_ne by lia. unfold m1, Header.set_flags, Header.set_magic. rewrite !(add32_small c) by lia.
    rewrite !zget_insert_eq. rewrite field_set_other, field_set_same by (done || lia). done.
  - rewrite zget_insert_ne by lia. unfold m1, Header.set_flags, Header.set_magic. rewrite !(add32_small c) by lia.
    rewrite !zget_insert_eq. rewrite field_set_same by (done || lia). done.
  - rewrite zget_insert_eq, field_set_same by (done || lia). unfold Header.size. by rewrite zget_insert_ne by lia.
Qed.

Lemma seal_served s g B s' g' b total_size :
  core s g -> blocks_ok s g B -> taken s g B s' g' b -> org b = FromSlab \/ org b = FromTlsf ->
  served s g B (seal total_size (flag_of (org b)) (hdr b) s') b.
Proof.
  intros Hc HB Ht Hb. pose proof (tk_core _ _ _ _ _ _ Ht) as Hc'. pose proof (tk_block _ _ _ _ _ _ Ht) as Ho.
  pose proof (owned_room _ _ _ Hc' Ho) as Hr.
  assert (Hz : forall x, within (ext b) x -> zone s' g' x).
  { intros x Hx. pose proof (owned_word _ _ _ _ Hc' Ho Hx). unfold zone. destruct Hb as [E|E]; rewrite E in *; tauto. }
  assert (Hh : within (ext b) (hdr b) /\ within (ext b) (hdr b + 15)) by (unfold within, ext; cbn; lia).
  pose proof (co_zone _ _ Hc' _ (Hz _ (proj1 Hh))) as [[? _] _].
  pose proof (co_zone _ _ Hc' _ (Hz _ (proj2 Hh))) as [[? _] _].
  rewrite seal_set. destruct (sealed_spec total_size (flag_of (org b)) (hdr b) (memory (base s'))) as (Hch & Hmg & Hfl & Hcn);
    [lia..|destruct Hb as [->| ->]; cbn; unfold KERNEL_HEAP_BLOCK_FLAG_SLAB, KERNEL_HEAP_BLOCK_FLAG_TLSF; lia|].
  apply (taken_served s g B s' g'); try done.
  - eapply changes_mono; [|exact Hch]. intros x Hx. assert (within (ext b) x) by (unfold within, ext in *; cbn in *; lia).
    exists x. split; [done|]. by apply (zone_place s'), Hz.
  - exists (hdr b). split; [apply (zone_place s'), Hz, Hh; done|]. split_and!; [done..|]. revert Hcn. destruct Hb as [->| ->]; done.
Qed.

(** Extents without a common word are apart. *)
Lemma apart_words (e e' : extent) : 0 < e.2 -> 0 < e'.2 -> (forall x, within e x -> ~ within e' x) -> apart e e'.
Proof.
  intros He He' Hx. unfold apart. destruct (Z.le_gt_cases (e.1 + e.2) e'.1); [by left|]. right.
  destruct (Z.le_gt_cases (e'.1 + e'.2) e.1); [done|].
  exfalso. apply (Hx (Z.max e.1 e'.1)); unfold within; lia.
Qed.

Lemma origin_apart s g b b' : core s g -> owns g b -> owns g b' -> org b <> org b' -> apart (ext b) (ext b').
Proof.
  intros Hc Ho Ho' Hne. pose proof (owned_room _ _ _ Hc Ho). pose proof (owned_room _ _ _ Hc Ho').
  apply apart_words; [cbn; lia..|]. intros x Hx Hx'.
  pose proof (owned_word _ _ _ _ Hc Ho Hx) as Hw. pose proof (owned_word _ _ _ _ Hc Ho' Hx') as Hw'.
  assert (Hpg : in_page g x -> zone s g x -> False).
  { intros (j & o & f & -> & Hj & Ho1 & _) Hz. destruct (co_zone _ _ Hc _ Hz) as [[? _] _]. unfold page_virt in *. lia. }
  pose proof (co_slab_apart _ _ Hc x). pose proof (co_pool_apart _ _ Hc x). unfold zone in *.
  destruct (org b), (org b'); done || tauto.
Qed.

Definition with_free_objects (F : nat -> list Z) g : ghost :=
  mkGhost (free_frames g) (held_frames g) (backing g) (objects g) F (live_tlsf g) (listed g) (list_zone g).
Definition with_live_tlsf (T : gmap Z Z) g : ghost :=
  mkGhost (free_frames g) (held_frames g) (backing g) (objects g) (free_objects g) T (listed g) (list_zone g).
Definition with_listed (G : list extent) g : ghost :=
  mkGhost (free_frames g) (held_frames g) (backing g) (objects g) (free_objects g) (live_tlsf g) G (list_zone g).
Definition with_frame_sets (F O : gset Z) (M : gmap Z Z) g : ghost :=
  mkGhost F O M (objects g) (free_objects g) (live_tlsf g) (listed g) (list_zone g).

Lemma slab_view_with (t : slab) s : slab_view (with_slab t s) = t.
Proof.
  destruct t as [mt ct]. exact (f_equal (fun x => Slab.mk x ct) (memory_set mt (base s))).
Qed.

Lemma with_slab_id s : with_slab (slab_view s) s = s.
Proof.
  destruct s as [h cs t d v c]. unfold with_slab, slab_view. cbn.
  by rewrite (set_memory_id h : Heap.with_memory (fun _ => memory h) h = h).
Qed.

(** A step of the caches that writes one object only. *)
Lemma core_slab s g (t : slab) F' p o :
  core s g -> objects g p = Some o -> slab_ok t (objects g) F' ->
  changes (within (p, sz o)) (memory (base s)) (Slab.mem t) ->
  core (with_slab t s) (with_free_objects F' g).
Proof.
  intros Hc Hp Hok Hm.
  assert (Hz : forall x, within (p, sz o) x -> slab_zone g x) by (intros x Hx; by exists p, o).
  constructor; rewrite ?slab_view_with; try apply Hc; try done.
  - apply (vm_frame s g (within (p, sz o))); try done. intros x Hx. left. by apply Hz.
  - unfold tlsf_view. rewrite (memory_set (Slab.mem t) (base s) : memory (base (with_slab t s)) = _).
    apply (tlsf_frame s g (within (p, sz o))); try done. intros x Hx%Hz. by apply (co_slab_apart _ _ Hc).
  - apply (list_frame s g (within (p, sz o))); try done. intros x Hx%Hz. by apply (co_slab_apart _ _ Hc).
Qed.

Lemma slab_alloc_step s g B total_size n :
  core s g -> Forall (owns g) B -> 0 < n -> 16 + n <= total_size ->
  let '(p, t) := kernel_slab_alloc total_size (slab_view s) in
  (p = 0 /\ with_slab t s = s) \/
  exists g' b, taken s g B (with_slab t s) g' b /\ org b = FromSlab /\ hdr b = p /\ len b = n /\ p <> 0.
Proof.
  intros Hc HB Hn Hfit. pose proof (slab_take _ _ _ total_size (co_slab _ _ Hc)) as Ht.
  destruct (kernel_slab_alloc total_size (slab_view s)) as [p t].
  destruct Ht as [[-> ->]|(F' & o & Hp & Hsz & Hnl & Hok & Hl & Hm)]; [left; split; [done|apply with_slab_id]|].
  right. set (g' := with_free_objects F' g). set (b := mkBlock FromSlab p (sz o) n). exists g', b.
  assert (Hc' : core (with_slab t s) g') by (by eapply core_slab).
  assert (Hown : owns g' b) by (exists o; split_and!; [done..|]; apply Hl; by right).
  assert (HB' : Forall (owns g') B).
  { eapply Forall_impl; [exact HB|]. intros b' Hb'. unfold owns in *. destruct (org b'); try done.
    destruct Hb' as (o' & ? & ? & Hl'). exists o'. split_and!; [done..|]. apply Hl. by left. }
  assert (Hap : Forall (fun b' => apart (ext b) (ext b')) B).
  { rewrite Forall_forall in *. intros b' Hb'. destruct (decide (org b' = FromSlab)) as [E|E].
    - pose proof (HB b' Hb') as Ho. unfold owns in Ho. rewrite E in Ho. destruct Ho as (o' & Ho' & Er & Hl').
      assert (p <> hdr b') by (intros ->; done). unfold apart, ext. cbn [fst snd hdr room b]. rewrite Er.
      by apply (so_apart _ _ _ (co_slab _ _ Hc)).
    - apply (origin_apart _ _ _ _ Hc' Hown); [by apply HB'|]. cbn. congruence. }
  split_and!; try done; [|destruct (so_slot _ _ _ (co_slab _ _ Hc) p o Hp); lia].
  constructor; try done; [|split; cbn; lia].
  rewrite (memory_set (Slab.mem t) (base s) : memory (base (with_slab t s)) = _).
  rewrite Forall_forall in *. intros b' Hb'. apply (keeps_frame s g (within (p, sz o))); try done; [by apply HB| |].
  - intros x Hx. left. by exists p, o.
  - intros x Hx Hx'. specialize (Hap b' Hb'). unfold apart, within, ext in *. cbn in *. lia.
Qed.

Lemma tlsf_view_with (t : tlsf) s : tlsf_view (with_tlsf t s) = t.
Proof.
  unfold tlsf_view. rewrite (memory_set (Tlsf.mem t) (base s) : memory (base (with_tlsf t s)) = _).
  by destruct t.
Qed.

Lemma core_tlsf s g (t : tlsf) T :
  core s g -> tlsf_inv t T -> same_pool (tlsf_view s) t ->
  changes (in_pool (tlsf_control s)) (memory (base s)) (Tlsf.mem t) ->
  core (with_tlsf t s) (with_live_tlsf T g).
Proof.
  intros Hc Hinv (E1 & E2 & _) Hm.
  assert (Hz : forall x, in_pool (tlsf_control (with_tlsf t s)) x <-> in_pool (tlsf_control s) x).
  { intros x. unfold in_pool. change (pool_start t <= x < pool_end t <-> in_pool (tlsf_control s) x). by rewrite E1, E2. }
  assert (Hsl : slab_view (with_tlsf t s) = Slab.mk (Tlsf.mem t) (slab_caches s)).
  { unfold slab_view. by rewrite (memory_set (Tlsf.mem t) (base s) : memory (base (with_tlsf t s)) = _). }
  constructor; rewrite ?tlsf_view_with, ?Hsl; try apply Hc; try done.
  - apply (vm_frame s g (in_pool (tlsf_control s))); try done. intros x Hx. right. by left.
  - apply (slab_frame s g (in_pool (tlsf_control s))); try done. intros x Hx Hs. by destruct (co_slab_apart _ _ Hc x Hs).
  - apply (list_frame s g (in_pool (tlsf_control s))); try done. intros x Hx. by apply (co_pool_apart _ _ Hc).
  - intros x Hx. assert (Hx' : zone s g x) by (unfold zone in *; rewrite Hz in Hx; exact Hx).
    exact (co_zone _ _ Hc x Hx').
  - intros x Hx. rewrite Hz. by apply (co_slab_apart _ _ Hc).
  - intros x Hx%Hz. by apply (co_pool_apart _ _ Hc).
Qed.

(** What TLSF keeps: the live regions and the words outside its pool. *)
Lemma tlsf_changes s g (t : tlsf) T :
  (forall x, in_live T x \/ ~ in_pool (tlsf_view s) x -> zget (Tlsf.mem t) x = zget (memory (base s)) x) ->
  changes (fun x => in_pool (tlsf_control s) x /\ ~ in_live T x) (memory (base s)) (Tlsf.mem t).
Proof.
  intros Hm x Hx. destruct (decide (pool_start (tlsf_control s) <= x < pool_end (tlsf_control s))) as [Hp|Hp].
  - destruct (Z.eq_dec (zget (Tlsf.mem t) x) (zget (memory (base s)) x)) as [|Hne]; [done|].
    exfalso. apply Hx. split; [done|]. intros Hl. apply Hne, Hm. by left.
  - apply Hm. by right.
Qed.

Lemma tlsf_keeps s g (t : tlsf) T b : core s g -> owns g b ->
  (forall x, in_live T x \/ ~ in_pool (tlsf_view s) x -> zget (Tlsf.mem t) x = zget (memory (base s)) x) ->
  (org b = FromTlsf -> T !! hdr b = Some (room b)) -> forall T',
  keeps g (memory (base s)) (with_live_tlsf T' g) (memory (base (with_tlsf t s))) b.
Proof.
  intros Hc Ho Hm HT T'. rewrite (memory_set (Tlsf.mem t) (base s) : memory (base (with_tlsf t s)) = _).
  apply (keeps_frame s g _ _ Hc (tlsf_changes s g t T Hm)); try done.
  - intros x [Hx _]. right. by left.
  - intros x [Hx Hn] Hw. pose proof (owned_word _ _ _ _ Hc Ho Hw) as Hb. destruct (org b) eqn:E.
    + by destruct (co_slab_apart _ _ Hc x Hb).
    + apply Hn. exists (hdr b), (room b). split; [by apply HT|done].
    + destruct Hb as (j & o & f & -> & Hj & Ho' & _). destruct (co_zone _ _ Hc (page_virt j + o)) as [[? _] _].
      { right. by left. } unfold page_virt in *. lia.
    + by apply (co_pool_apart _ _ Hc x).
Qed.

Lemma tlsf_alloc_step s g B total_size n t0 t1 :
  core s g -> Forall (owns g) B -> 0 < n -> 16 + n <= total_size -> total_size <= class_min 63 ->
  exists p t, kernel_tlsf_alloc t0 t1 total_size (tlsf_view s) = Some (p, t) /\
    if p =? 0 then exists g', moved s g B (with_tlsf t s) g'
    else exists g' b, taken s g B (with_tlsf t s) g' b /\ org b = FromTlsf /\ hdr b = p /\ len b = n.
Proof.
  intros Hc HB Hn Hfit Hmax.
  destruct (alloc_view _ _ t0 t1 total_size (co_tlsf _ _ Hc)) as (p & t & He & Hpost & Hsame); [lia|].
  exists p, t. split; [done|]. destruct Hpost as [(-> & Hm & Hinv)|(cap & Hnew & Hcap & Hinv & Hm)].
  - cbn [Z.eqb]. exists (with_live_tlsf (live_tlsf g) g). split_and!.
    + apply core_tlsf; try done. intros x _. by rewrite Hm.
    + done.
    + rewrite Forall_forall in *. intros b Hb. apply (tlsf_keeps s g t (live_tlsf g)); auto.
      * intros x _. by rewrite Hm.
      * intros E. specialize (HB b Hb). unfold owns in HB. by rewrite E in HB.
  - destruct (live_region _ _ p cap Hinv) as (_ & _ & Hlo & Hhi & Hd); [apply lookup_insert_eq|].
    destruct Hinv as (B0 & L0 & Hpool & Hl0). pose proof (row_pos _ _ _ _ (md_row _ _ _ _ _ _ (pl_mid _ _ _ Hpool))).
    assert (Hinv : tlsf_inv t (<[p := cap]> (live_tlsf g))) by (by exists B0, L0). clear Hpool Hl0.
    rewrite (proj2 (Z.eqb_neq p 0)) by lia.
    set (g' := with_live_tlsf (<[p := cap]> (live_tlsf g)) g). set (b := mkBlock FromTlsf p cap n). exists g', b.
    assert (Hc' : core (with_tlsf t s) g').
    { apply core_tlsf; try done. eapply changes_mono; [|by apply (tlsf_changes s g t (live_tlsf g))]. by intros x [? _]. }
    assert (Hown : owns g' b) by apply lookup_insert_eq.
    assert (HB' : Forall (owns g') B).
    { eapply Forall_impl; [exact HB|]. intros b' Hb'. unfold owns in *. destruct (org b'); try done.
      cbn. rewrite lookup_insert_ne; [done|]. congruence. }
    split_and!; try done. constructor; try done; [|split; cbn; lia|].
    + rewrite Forall_forall in *. intros b' Hb'. apply (tlsf_keeps s g t (live_tlsf g)); auto.
      intros E. specialize (HB b' Hb'). unfold owns in HB. by rewrite E in HB.
    + rewrite Forall_forall in *. intros b' Hb'. destruct (decide (org b' = FromTlsf)) as [E|E].
      * specialize (HB' b' Hb'). specialize (HB b' Hb'). unfold owns in HB, HB'. rewrite E in HB, HB'.
        assert (hdr b' <> p) by congruence. unfold apart, ext. cbn [fst snd hdr room b].
        destruct (Hd (hdr b') (room b')); [done|done|lia|lia].
      * apply (origin_apart _ _ _ _ Hc' Hown); [by apply HB'|]. cbn. congruence.
Qed.

(** *** The list *)

Lemma core_list s g h' G :
  core s g -> relisted (base s) h' -> changes (list_zone g) (memory (base s)) (memory h') -> sound_list h' G ->
  (forall x, covered G x -> list_zone g x) -> core (with_base h' s) (with_listed G g).
Proof.
  intros Hc (d & k & t & m & ->) Hm Hl Hcov.
  assert (Em : memory (with_list d k t (set_memory m (base s))) = m) by (rewrite memory_list; apply memory_set).
  rewrite Em in Hm. constructor; try apply Hc; try done.
  - apply (vm_frame s g (list_zone g)); try done. intros x Hx. right. by right.
  - unfold slab_view. cbn [with_base base slab_caches]. rewrite Em.
    apply (slab_frame s g (list_zone g)); try done. intros x Hx Hs. by destruct (co_slab_apart _ _ Hc x Hs).
  - unfold tlsf_view. cbn [with_base base tlsf_control]. rewrite Em.
    apply (tlsf_frame s g (list_zone g)); try done. intros x Hx Hp. by apply (co_pool_apart _ _ Hc x).
Qed.

Lemma clear_words (e : extent) G lo : 0 < e.2 -> ascending lo G ->
  clear_of e G <-> forall x, within e x -> ~ covered G x.
Proof.
  intros He Ha. split.
  - intros Hcl x Hx (c & Hc & Hxc). unfold within in *. destruct (Hcl c Hc); lia.
  - intros Hx c Hc. destruct (ascending_in _ _ _ Ha Hc) as [_ (_ & _ & _ & ? & _)].
    apply (apart_words e c); [done|lia|]. intros x Hxe Hxc. apply (Hx x Hxe). by exists c.
Qed.

(** Blocks of the list stay out of it while it only shrinks or grows elsewhere. *)
Lemma owns_listed s g G b lo :
  core s g -> owns g b -> ascending lo G ->
  (org b = FromList -> forall x, covered G x -> covered (listed g) x \/ ~ within (ext b) x) ->
  owns (with_listed G g) b.
Proof.
  intros Hc Ho Ha Hx. unfold owns in *. destruct (org b); try done. destruct Ho as (Hw & Hcl & Hz).
  split_and!; [done| |done]. destruct (co_list _ _ Hc) as (_ & Hasc & _).
  assert (0 < (ext b).2) by (destruct Hw as (_ & _ & _ & ? & _); lia).
  rewrite (clear_words _ _ lo) by done. rewrite (clear_words _ _ 0) in Hcl by done. cbn.
  intros x Hxb Hcov. destruct (Hx eq_refl x Hcov) as [Hcov'|]; [by apply (Hcl x)|done].
Qed.

Lemma list_keeps s g h' G b :
  core s g -> owns g b -> changes (fun x => list_zone g x /\ ~ within (ext b) x) (memory (base s)) (memory h') ->
  keeps g (memory (base s)) (with_listed G g) (memory h') b.
Proof.
  intros Hc Ho Hm. apply (keeps_frame s g _ _ Hc Hm); try done.
  - intros x [Hx _]. right. by right.
  - by intros x [_ Hx].
Qed.

Lemma listed_clear s g b x : core s g -> owns g b -> covered (listed g) x -> list_zone g x /\ ~ within (ext b) x.
Proof.
  intros Hc Ho Hx. pose proof (co_listed _ _ Hc x Hx) as Hz. split; [done|]. intros Hw.
  pose proof (owned_word _ _ _ _ Hc Ho Hw) as Hb. unfold owns in Ho. destruct (org b).
  - by destruct (co_slab_apart _ _ Hc x Hb).
  - by apply (co_pool_apart _ _ Hc x).
  - destruct Hb as (j & o & f & -> & Hj & Ho' & _). destruct (co_zone _ _ Hc (page_virt j + o)) as [[? _] _].
    { right. by right. } unfold page_virt in *. lia.
  - destruct Ho as (Hwf & Hcl & _), (co_list _ _ Hc) as (_ & Ha & _).
    rewrite (clear_words _ _ 0) in Hcl; [by apply (Hcl x)| |done]. destruct Hwf as (_ & _ & _ & ? & _). lia.
Qed.

Lemma list_alloc_step s g B total_size n :
  core s g -> blocks_ok s g B -> 0 < n -> 16 + n <= total_size -> total_size mod 8 = 0 ->
  exists p h', kmalloc_first_fit total_size (base s) = Some (p, h') /\
    if p =? 0 then h' = base s
    else exists b, served s g B (with_base h' s) b /\ region_of b = (p, n).
Proof.
  intros Hc HB Hn Hfit Hmod. pose proof (co_list _ _ Hc) as Hl. pose proof Hl as (Hseg & Hasc & _).
  unfold kmalloc_first_fit.
  destruct (first_fit_spec (memory (base s)) total_size (listed g) (walk_fuel (base s)) 0 _ Hseg Hasc (walk_fuel_enough _ _ Hl))
    as [(q & -> & _)|(G1 & c & G2 & EG & Hc2 & _ & ->)]; cbn [mbind option_bind].
  { exists 0, (base s). done. }
  change (match last G1 with Some d => d.1 | None => 0 end) with (prev_of G1).
  rewrite EG in Hl. destruct (unlink_and_split_spec (base s) G1 c G2 total_size Hl Hmod) as
    (h' & k & Hu & Hk & Hkm & [Hre Hch (G & HG & Hcov)] & Hs & Hmg & Hfl); [lia|].
  rewrite <- EG in Hch, Hcov.
  destruct (ascending_mid 0 G1 c G2) as (_ & Hwc & _); [by rewrite <- EG|].
  assert (Hin : forall x, within (c.1, k) x -> covered (listed g) x).
  { intros x Hx. exists c. split; [rewrite EG; inlist|]. unfold within in *. cbn in *. lia. }
  pose proof Hwc as (Hc0 & Hc8 & _ & _ & Hcb).
  rewrite (proj2 (Z.eqb_neq c.1 0)) by lia. rewrite Hu. cbn [mbind option_bind].
  unfold user, HEADER_SIZE. rewrite add32_small by lia. exists (c.1 + 16), h'. split; [done|].
  rewrite (proj2 (Z.eqb_neq _ 0)) by lia. set (b := mkBlock FromList c.1 k n). exists b. split; [|done].
  exists (with_listed G g). pose proof HG as (_ & Hasc' & _).
  assert (Hc' : core (with_base h' s) (with_listed G g)).
  { apply core_list; try done; [eapply changes_mono; [|exact Hch]; apply Hc|].
    intros x [Hx _]%Hcov. by apply (co_listed _ _ Hc). }
  pose proof HB as [Howns _ _ _]. rewrite Forall_forall in Howns.
  assert (HB' : forall b', b' ∈ B -> owns (with_listed G g) b').
  { intros b' Hb'. apply (owns_listed s g G b' 0); auto. intros _ x [Hx _]%Hcov. by left. }
  assert (Hown : owns (with_listed G g) b).
  { cbn. split_and!.
    - unfold block_wf, ext. cbn. lia.
    - rewrite (clear_words _ _ 0); [|cbn; lia|done]. by intros x Hx [_ ?]%Hcov.
    - intros x Hx. by apply (co_listed _ _ Hc), Hin. }
  assert (Hkeep : Forall (keeps g (memory (base s)) (with_listed G g) (memory h')) B).
  { apply Forall_forall. intros b' Hb'. apply (list_keeps s); auto. eapply changes_mono; [|exact Hch].
    intros x Hx. by apply (listed_clear s g); auto. }
  split_and!; [done| |done]. apply blocks_add; try done.
  - apply (blocks_move s g); try done. by apply Forall_forall.
  - exists c.1. cbn [base with_base]. split; [|done]. apply place_direct.
    destruct (co_zone _ _ Hc c.1) as [[? _] _]; [|lia]. right; right. apply (co_listed _ _ Hc), Hin. unfold within. cbn. lia.
  - split; cbn; lia.
  - apply Forall_forall. intros b' Hb'. pose proof (owned_room _ _ _ Hc' (HB' b' Hb')).
    apply apart_words; [cbn; lia..|]. intros x Hx Hx'. by apply (listed_clear s g b' x Hc (Howns b' Hb')); [apply Hin|].
Qed.

(** *** Whole pages *)

Section vm_step.
Context (s : client A) (g : ghost) (v : vmm A) (F O : gset Z) (M : gmap Z Z) (X : Z -> Prop).
Context (Hc : core s g) (Hv : vmm_inv v F O M).
Context (Hkept : kept_but X (pages (vm (base s))) (free_frames g) (pages v) F).
Context (HX : forall x, zone s g x -> ~ X (frame_of x)).

(** The words of a quiet frame are kept. *)
Lemma quiet_kept c :
  0xC0000000 <= c < 2 ^ 32 -> calm (pages (vm (base s))) (free_frames g) (frame_of c) -> ~ X (frame_of c) ->
  zget (memory (with_vm v (base s))) c = zget (memory (base s)) c.
Proof.
  intros Hr Hq Hn. destruct (Hkept _ Hq Hn) as [_ Hw]. specialize (Hw (c - 0xC0000000) ltac:(lia) eq_refl).
  unfold pmm_phys_to_virt, KERNEL_VIRTUAL_BASE in Hw. rewrite add32_small in Hw by lia.
  by replace (c - 0xC0000000 + 0xC0000000) with c in Hw by lia.
Qed.

Lemma zone_kept x : zone s g x -> zget (memory (with_vm v (base s))) x = zget (memory (base s)) x.
Proof.
  intros Hz. destruct (co_zone _ _ Hc x Hz) as [[? ?] _]. apply quiet_kept; [lia|done|by apply HX].
Qed.

Lemma core_vm :
  (forall j f, M !! j = Some f -> backing g !! j = Some f \/ ~ calm (pages (vm (base s))) (free_frames g) f) ->
  core (with_base (with_vm v (base s)) s) (with_frame_sets F O M g).
Proof.
  intros HM. set (m := memory (with_vm v (base s))). constructor; try apply Hc; try done.
  - apply (slab_ext (slab_view s)); [apply Hc|]. intros i p Hp.
    destruct (so_free _ _ _ (co_slab _ _ Hc) i p Hp) as (o & Ho & _). pose proof (sz_range o).
    split; apply zone_kept; left; exists p, o; (split; [done|lia]).
  - apply (tlsf_ext (tlsf_view s)); [apply Hc|]. intros x Hx _. apply zone_kept. right. by left.
  - destruct (co_list _ _ Hc) as (Hs & Ha & Hrest). split_and!; try apply Hrest; [|done].
    eapply seg_ext; [|exact Hs]. intros e He. destruct (ascending_in _ _ _ Ha He) as [_ Hw].
    rewrite (wf_add e) by (done || lia). destruct Hw as (_ & _ & _ & ? & _).
    split; apply zone_kept; right; right; apply (co_listed _ _ Hc); exists e; (split; [done|unfold within; lia]).
  - intros x Hz. destruct (co_zone _ _ Hc x Hz) as [[Hr Hq] Hn]. split.
    + split; [done|]. by apply (Hkept _ Hq), HX.
    + intros j Hj. destruct (HM j _ Hj) as [Hj'|]; [by apply (Hn j)|done].
Qed.

Lemma vm_keeps b :
  owns g b ->
  (forall j o f, 0 <= o < 4096 -> within (ext b) (page_virt j + o) -> backing g !! j = Some f ->
     M !! j = Some f /\ ~ X f) ->
  keeps g (memory (base s)) (with_frame_sets F O M g) (memory (with_vm v (base s))) b.
Proof.
  intros Ho Hb x Hx. destruct (owned_cases _ _ _ _ Hc Ho Hx) as [Hz|(j & o & f & -> & Hj & Hoo & Hf & Ep)].
  - destruct (co_zone _ _ Hc x Hz) as [[? _] _]. rewrite !place_direct by lia. split; [done|].
    intros c [= <-]. by apply zone_kept.
  - destruct (Hb j o f Hoo Hx Hf) as [HMj HXf]. split.
    + rewrite !place_page by done. cbn. by rewrite HMj, Hf.
    + intros c Ec. destruct (place_quiet _ _ _ _ _ Hc Ho Hx Ec) as [? ?].
      assert (Ef : frame_of c = f).
      { rewrite Ep in Ec. injection Ec as <-. unfold frame_of. Z.to_euclidean_division_equations; lia. }
      apply quiet_kept; [done|done|by rewrite Ef].
Qed.
End vm_step.

Lemma served_large s g B s' b k : served s g B s' b -> served s g B (with_base (with_large k (base s')) s') b.
Proof.
  intros (g' & Hc & HB & Hk). exists g'. split_and!; [|by destruct HB|done]. by destruct Hc.
Qed.

Definition page_header (c size flags count : Z) m : zmap :=
  Header.set_next c 0 (Header.set_reserved c count (Header.set_order c 0 (Header.set_flags c flags
    (Header.set_magic c KERNEL_HEAP_HEADER_MAGIC (Header.set_size c size m))))).

Lemma page_header_spec c size flags count m :
  0 <= c -> c + 16 <= 2 ^ 32 -> 0 <= flags < 2 ^ 8 -> 0 <= count < 2 ^ 16 ->
  let m' := page_header c size flags count m in
  changes (within (c, 16)) m m' /\ Header.magic c m' = KERNEL_HEAP_HEADER_MAGIC /\ Header.flags c m' = flags /\
  Header.reserved c m' = count.
Proof.
  intros Hc Hc' Hf Hn m'. unfold m', page_header, Header.set_next, Header.set_reserved, Header.set_order,
    Header.set_flags, Header.set_magic, Header.set_size, Header.magic, Header.flags, Header.reserved.
  rewrite !(add32_small c) by lia. split_and!.
  - repeat (eapply changes_trans; [|apply changes_insert; unfold within; cbn; lia]). done.
  - repeat (rewrite zget_insert_ne by lia). repeat rewrite zget_insert_eq.
    rewrite !field_set_other, field_set_same by (done || lia). done.
  - repeat (rewrite zget_insert_ne by lia). repeat rewrite zget_insert_eq.
    rewrite field_set_other, field_set_same by (done || lia). done.
  - rewrite zget_insert_ne by lia. rewrite zget_insert_eq, field_set_same by (done || lia). done.
Qed.

(** The whole pages a request needs. *)
Lemma page_count_spec total_size : 0 < total_size <= class_min 63 ->
  let n := ((total_size ⊞ PAGE_SIZE) ⊟ 1) / PAGE_SIZE in 0 < n < 2 ^ 16 /\ total_size <= 4096 * n /\ u16 n = n.
Proof.
  change (class_min 63) with 57344. unfold PAGE_SIZE. intros Hs. rewrite add32_small, sub32_small by lia. cbv zeta.
  assert (Hn : 0 < (total_size + 4096 - 1) / 4096 < 2 ^ 16) by (Z.to_euclidean_division_equations; lia).
  split_and!; [lia|lia|Z.to_euclidean_division_equations; lia|]. apply Z.mod_small. lia.
Qed.

(** Handing out the pages [x, x + k). *)
Lemma pages_taken s g B v F O M x k n :
  core s g -> Forall (owns g) B -> vmm_inv v F O M ->
  undisturbed (pages (vm (base s))) (free_frames g) (pages v) F ->
  (forall j f, M !! j = Some f -> backing g !! j = Some f \/ ~ calm (pages (vm (base s))) (free_frames g) f) ->
  0 <= x -> x + k <= VMM_PAGE_COUNT -> free_run (vmm_bitmap (vm (base s))) x k ->
  (forall j, x <= j < x + k -> is_Some (M !! j)) -> (forall j, ~ (x <= j < x + k) -> M !! j = backing g !! j) ->
  0 < k < 2 ^ 16 -> 0 < n -> 16 + n <= 4096 * k ->
  taken s g B (with_base (with_vm v (base s)) s) (with_frame_sets F O M g) (mkBlock FromPages (page_virt x) (4096 * k) n).
Proof.
  intros Hc HB Hv Hun%undisturbed_kept HM Hx Hxk Hfree Hsome Hrest Hk Hn Hfit.
  assert (Hold : forall j f, backing g !! j = Some f -> ~ (x <= j < x + k)).
  { intros j f Hj Hjx. apply (Hfree j Hjx). by eapply (vi_used _ _ _ _ (co_vm _ _ Hc)). }
  rewrite Forall_forall in HB.
  constructor; try (apply Forall_forall; intros b Hb; specialize (HB b Hb)).
  - apply (core_vm s g v F O M (fun _ => False)); try done. intros y _ [].
  - unfold owns in *. destruct (org b); try done. destruct HB as (y & i & ? & ? & ? & ? & ? & Hy).
    exists y, i. split_and!; try done; try lia. intros j Hj. destruct (Hy j Hj) as [f Hf].
    exists f. cbn. by rewrite Hrest by eauto.
  - apply (vm_keeps s g v F O M (fun _ => False)); auto.
    intros j o f _ _ Hj. split; [|tauto]. by rewrite Hrest by eauto.
  - exists x, k. split_and!; done || lia.
  - split; cbn; lia.
  - pose proof (owned_room _ _ _ Hc HB). apply apart_words; [cbn; lia..|]. intros y Hy Hyb.
    unfold within, ext in Hy. cbn in Hy. rewrite vmm_page_count in *.
    destruct (owned_cases _ _ _ _ Hc HB Hyb) as [Hz|(j & o & f & -> & Hj & Ho & Hf & _)].
    + destruct (co_zone _ _ Hc y Hz) as [[? _] _]. unfold page_virt in *. lia.
    + apply (Hold j f Hf). unfold page_virt in *. lia.
Qed.

(** Writing the header of a block of pages through its first frame. *)
Lemma pages_served s g B s' g' x k n f :
  core s g -> blocks_ok s g B -> taken s g B s' g' (mkBlock FromPages (page_virt x) (4096 * k) n) ->
  0 <= x < VMM_PAGE_COUNT -> 0 < k < 2 ^ 16 -> backing g' !! x = Some f -> 0 < f < 2 ^ 18 -> forall size,
  served s g B
    (set_client (page_header (0xC0000000 + 4096 * f) size KERNEL_HEAP_BLOCK_FLAG_VMM k (memory (base s'))) s')
    (mkBlock FromPages (page_virt x) (4096 * k) n).
Proof.
  intros Hc HB Ht Hx Hk Hf Hfr size. set (c := 0xC0000000 + 4096 * f).
  destruct (page_header_spec c size KERNEL_HEAP_BLOCK_FLAG_VMM k (memory (base s'))) as (Hch & Hmg & Hfl & Hrs);
    [lia|lia|unfold KERNEL_HEAP_BLOCK_FLAG_VMM; lia|lia|].
  assert (Hpl : forall o, 0 <= o < 16 -> place g' (page_virt x + o) = Some (c + o)).
  { intros o Ho. rewrite place_page by lia. by rewrite Hf. }
  apply (taken_served s g B s' g'); try done.
  - eapply changes_mono; [|exact Hch]. intros y Hy. unfold within in Hy. cbn in Hy. exists (page_virt x + (y - c)).
    rewrite Hpl by lia. split; [unfold within; cbn; lia|f_equal; lia].
  - exists c. split; [|split_and!; [done..|cbn; rewrite Hrs; by rewrite Z.mul_comm, Z.div_mul]].
    specialize (Hpl 0 ltac:(lia)). by rewrite !Z.add_0_r in Hpl.
Qed.

Lemma cell_page h F O M x f : vmm_inv (vm h) F O M -> M !! x = Some f ->
  cell (page_virt x) h = Some (0xC0000000 + 4096 * f).
Proof.
  intros Hv Hf. pose proof (data_frame_range _ _ _ _ (vi_pages _ _ _ _ Hv) (vi_data _ _ _ _ Hv x f Hf)).
  pose proof (vi_range _ _ _ _ Hv x f Hf) as Hx. rewrite vmm_page_count in Hx.
  unfold cell, KERNEL_VMM_DYNAMIC_START, KERNEL_VMM_DYNAMIC_END.
  rewrite (proj2 (Z.leb_le _ _)), (proj2 (Z.ltb_lt _ _)) by (unfold page_virt; lia). cbn [andb].
  rewrite (vi_mapped _ _ _ _ Hv x f Hf). cbn [mbind option_bind].
  unfold kernel_heap_phys_to_virt, KERNEL_VIRTUAL_BASE. rewrite add32_small by lia. f_equal. lia.
Qed.

Lemma pages_alloc_step s g B total_size n :
  core s g -> blocks_ok s g B -> 0 < n -> 16 + n <= total_size -> total_size <= class_min 63 ->
  exists p h', page_block true total_size KERNEL_HEAP_BLOCK_FLAG_VMM (base s) = Some (p, h') /\
    if p =? 0 then exists g', moved s g B (with_base h' s) g'
    else exists b, served s g B (with_base h' s) b /\ hdr b = p /\ len b = n /\ p < 0xF0000000.
Proof.
  intros Hc HB Hn Hfit Hmax. destruct (page_count_spec total_size) as (Hk & Hk' & Hku); [lia|].
  unfold page_block. set (k := _ / PAGE_SIZE) in *. pose proof HB as [Howns _ _ _].
  destruct (alloc_pages_spec true _ _ _ _ k (co_vm _ _ Hc)) as (p & v & F & O & M & -> & Hv & Hun & HM & Hpost);
    [rewrite vmm_page_count; lia|]. cbn [mbind option_bind].
  assert (Hfail : M = backing g -> moved s g B (with_base (with_vm v (base s)) s) (with_frame_sets F O M g)).
  { intros ->. pose proof (proj1 (undisturbed_kept _ _ _ _) Hun) as Hkept. split_and!; [|done|].
    - apply (core_vm s g v F O _ (fun _ => False)); try done. intros y _ [].
    - rewrite Forall_forall in *. intros b Hb. apply (vm_keeps s g v F O _ (fun _ => False)); auto. }
  destruct Hpost as [(x & -> & (Hx0 & Hxb & Hfree & _) & _ & Hsome & Hrest)|[(-> & _ & EM & _)|(-> & EM & _)]].
  2,3: cbn [Z.eqb]; do 2 eexists; split; [done|]; cbn [Z.eqb]; eauto.
  assert (Hp0 : page_virt x <> 0 /\ page_virt x < 0xF0000000) by (rewrite vmm_page_count in *; unfold page_virt; lia).
  rewrite (proj2 (Z.eqb_neq (page_virt x) 0)) by lia. destruct (Hsome x ltac:(lia)) as [f Hf].
  pose proof (data_frame_range _ _ _ _ (vi_pages _ _ _ _ Hv) (vi_data _ _ _ _ Hv x f Hf)) as Hfr.
  rewrite (cell_page (with_vm v (base s)) F O M x f Hv Hf). cbn [mbind option_bind].
  rewrite !with_memory_set. autorewrite with heap. rewrite Hku.
  do 2 eexists. split; [done|]. rewrite (proj2 (Z.eqb_neq (page_virt x) 0)) by lia.
  exists (mkBlock FromPages (page_virt x) (4096 * k) n). split; [|split_and!; [done..|lia]].
  pose proof (pages_taken s g B v F O M x k n Hc Howns Hv Hun HM Hx0 Hxb Hfree Hsome Hrest Hk Hn ltac:(lia)) as Ht.
  pose proof (pages_served s g B _ _ x k n f Hc HB Ht ltac:(lia) Hk Hf Hfr (k ⊠ PAGE_SIZE)) as Hs.
  exact (served_large _ _ _ _ _ _ Hs).
Qed.

(** ** Allocation *)

Lemma moved_blocks s g B s' g' : core s g -> blocks_ok s g B -> moved s g B s' g' -> blocks_ok s' g' B.
Proof. intros Hc HB (_ & Ho & Hk). by apply (blocks_move s g). Qed.

Lemma moved_trans s g B s' g' s'' g'' : moved s g B s' g' -> moved s' g' B s'' g'' -> moved s g B s'' g''.
Proof.
  intros (_ & _ & Hk) (Hc' & Ho' & Hk'). split_and!; [done..|]. rewrite Forall_forall in *.
  intros b Hb. eapply keeps_trans; auto.
Qed.

Lemma moved_served s g B s' g' s'' b : moved s g B s' g' -> served s' g' B s'' b -> served s g B s'' b.
Proof.
  intros (_ & _ & Hk) (g'' & Hc' & HB' & Hk'). exists g''. split_and!; [done..|]. rewrite Forall_forall in *.
  intros b' Hb'. eapply keeps_trans; auto.
Qed.

Lemma moved_counters s g B s' g' s'' :
  base s'' = base s' -> slab_caches s'' = slab_caches s' -> tlsf_control s'' = tlsf_control s' ->
  moved s g B s' g' -> moved s g B s'' g'.
Proof. intros E1 E2 E3 (Hc & Ho & Hk). split_and!; [by apply (core_counters s')|done|by rewrite E1]. Qed.

Lemma served_counters s g B s' b s'' :
  base s'' = base s' -> slab_caches s'' = slab_caches s' -> tlsf_control s'' = tlsf_control s' ->
  served s g B s' b -> served s g B s'' b.
Proof.
  intros E1 E2 E3 (g' & Hc & [] & Hk). exists g'. split_and!; [by apply (core_counters s')| |by rewrite E1].
  constructor; [done|by rewrite E1|done..].
Qed.

Lemma count_bounded_same s :
  base (count_bounded s) = base s /\ slab_caches (count_bounded s) = slab_caches s /\
  tlsf_control (count_bounded s) = tlsf_control s.
Proof. unfold count_bounded. by destruct (in_hot_loop s). Qed.

Lemma count_violation_same s :
  base (count_violation s) = base s /\ slab_caches (count_violation s) = slab_caches s /\
  tlsf_control (count_violation s) = tlsf_control s.
Proof. unfold count_violation. by destruct (in_hot_loop s). Qed.

(** The largest request TLSF can serve with the header in front of it. *)
Definition client_limit : Z := class_min 63 - HEADER_SIZE.

Lemma total_of_spec size : 0 < size <= client_limit ->
  16 + size <= total_of size <= class_min 63 /\ total_of size mod 8 = 0.
Proof.
  unfold client_limit, HEADER_SIZE. change (class_min 63) with 57344. intros Hs.
  unfold total_of, payload_of, kernel_heap_align_up, KERNEL_HEAP_ALIGNMENT, HEADER_SIZE. rewrite u32_small by lia.
  destruct (round_up_spec size 3) as [H1 H2]; [lia..|]. change (2 ^ 3) with 8 in *.
  assert (size <= round_up size 8 <= 57328) by (Z.to_euclidean_division_equations; lia).
  rewrite add32_small by lia. destruct (round_up_spec (round_up size 8 + 16) 3) as [H3 H4]; [lia..|]. change (2 ^ 3) with 8 in *.
  split; [|done]. Z.to_euclidean_division_equations; lia.
Qed.

(** What the answer of an allocation means. *)
Definition answered s g B (p size : Z) s' : Prop :=
  if p =? 0 then exists g', moved s g B s' g' else exists b, served s g B s' b /\ region_of b = (p, size).

(** The paths past TLSF: whole pages, then the list. *)
Definition slow_path (size : Z) s : option (Z * client A) :=
  '(header, h) ← if large_request size then page_block true (total_of size) KERNEL_HEAP_BLOCK_FLAG_VMM (base s)
                 else Some (0, base s);
  let s := with_base h s in
  if negb (header =? 0) then Some (user header, s)
  else
    '(p, h) ← kmalloc_first_fit (total_of size) (base s);
    Some (p, with_base h s).

Lemma with_base_id s : with_base (base s) s = s.
Proof. by destruct s. Qed.

Lemma slow_path_answered s g B size :
  core s g -> blocks_ok s g B -> 0 < size <= client_limit ->
  exists p s', slow_path size s = Some (p, s') /\ answered s g B p size s'.
Proof.
  intros Hc HB Hs. destruct (total_of_spec size Hs) as [[Hfit Hmax] Hmod]. unfold slow_path.
  assert (Hlist : forall s1 g1, moved s g B s1 g1 ->
    exists p s', ('(p, h) ← kmalloc_first_fit (total_of size) (base s1); Some (p, with_base h s1)) = Some (p, s') /\
      answered s g B p size s').
  { intros s1 g1 Hmv. pose proof (moved_blocks _ _ _ _ _ Hc HB Hmv) as HB1.
    destruct (list_alloc_step s1 g1 B (total_of size) size (proj1 Hmv) HB1) as (p & h' & -> & Hp); [lia..|done|].
    cbn [mbind option_bind]. do 2 eexists. split; [done|]. unfold answered. destruct (p =? 0).
    - exists g1. by rewrite Hp, with_base_id.
    - destruct Hp as (b & Hb & Hr). exists b. split; [|done]. by apply (moved_served _ _ _ s1 g1). }
  destruct (large_request size).
  - destruct (pages_alloc_step s g B (total_of size) size Hc HB) as (p & h' & -> & Hp); [lia..|].
    cbn [mbind option_bind]. cbv zeta. destruct (Z.eqb_spec p 0) as [|Hp0]; cbn [negb].
    + destruct Hp as [g1 Hmv]. by apply (Hlist _ g1).
    + destruct Hp as (b & Hb & Eh & El & Hmx). do 2 eexists. split; [done|].
      assert (Hpos : 0 < p).
      { pose proof Hb as (g1 & Hc1 & HB1 & _). pose proof (bo_apart _ _ _ HB1) as (Hr & _). destruct Hr as [? _]. cbn in *. lia. }
      unfold answered, user, HEADER_SIZE. rewrite add32_small, (proj2 (Z.eqb_neq _ 0)) by lia.
      exists b. split; [done|]. unfold region_of. by rewrite Eh, El.
  - cbn [mbind option_bind]. cbv zeta. rewrite Z.eqb_refl, with_base_id. cbn [negb]. apply (Hlist s g).
    split_and!; [done|by apply HB|]. apply Forall_forall. intros b _. apply keeps_block_refl.
Qed.

(** A block of the slabs or of TLSF, with its header written. *)
Lemma bounded_answered s g B s' g' b size :
  core s g -> blocks_ok s g B -> taken s g B s' g' b -> org b = FromSlab \/ org b = FromTlsf -> len b = size ->
  answered s g B (user (hdr b)) size (count_bounded (seal (total_of size) (flag_of (org b)) (hdr b) s')).
Proof.
  intros Hc HB Ht Ho El. pose proof (seal_served s g B s' g' b (total_of size) Hc HB Ht Ho) as Hb.
  pose proof (owned_region _ _ _ (tk_core _ _ _ _ _ _ Ht) (tk_block _ _ _ _ _ _ Ht)) as (Hr1 & _ & Hr2).
  pose proof (owned_room _ _ _ (tk_core _ _ _ _ _ _ Ht) (tk_block _ _ _ _ _ _ Ht)). cbn [ext fst snd] in *.
  unfold answered, user, HEADER_SIZE. rewrite add32_small, (proj2 (Z.eqb_neq _ 0)) by lia.
  exists b. split; [|unfold region_of; by rewrite El].
  destruct (count_bounded_same (seal (total_of size) (flag_of (org b)) (hdr b) s')) as (? & ? & ?).
  by eapply served_counters.
Qed.

Lemma client_kmalloc s g B t0 t1 size :
  core s g -> blocks_ok s g B -> 0 < size <= client_limit ->
  exists p s', kmalloc t0 t1 size s = Some (p, s') /\ answered s g B p size s'.
Proof.
  intros Hc HB Hs. destruct (total_of_spec size Hs) as [[Hfit Hmax] Hmod].
  unfold kmalloc. rewrite (co_init _ _ Hc), (proj2 (Z.eqb_neq size 0)) by lia. cbn [negb orb]. cbv zeta.
  pose proof (slab_alloc_step s g B (total_of size) size Hc (bo_owns _ _ _ HB)) as Hsl.
  destruct (kernel_slab_alloc (total_of size) (slab_view s)) as [p t].
  destruct Hsl as [[-> ->]|(g1 & b & Ht & Eo & Eh & El & Hp0)]; [lia|lia| |].
  2:{ rewrite (proj2 (Z.eqb_neq p 0)) by done. cbn [negb]. do 2 eexists. split; [done|]. subst p.
      change KERNEL_HEAP_BLOCK_FLAG_SLAB with (flag_of FromSlab). rewrite <- Eo.
      apply (bounded_answered s g B _ g1); auto. }
  cbn [Z.eqb negb].
  destruct (tlsf_alloc_step s g B (total_of size) size t0 t1 Hc (bo_owns _ _ _ HB)) as (p & t' & -> & Hp); [lia..|].
  cbn [mbind option_bind]. destruct (Z.eqb_spec p 0) as [->|Hp0]; cbn [negb].
  2:{ destruct Hp as (g1 & b & Ht & Eo & Eh & El). do 2 eexists. split; [done|]. subst p.
      change KERNEL_HEAP_BLOCK_FLAG_TLSF with (flag_of FromTlsf). rewrite <- Eo.
      apply (bounded_answered s g B _ g1); auto. }
  destruct Hp as [g1 Hmv]. set (s1 := with_tlsf t' s) in *.
  destruct (in_hot_loop s1).
  - do 2 eexists. split; [done|]. exists g1. destruct (count_violation_same s1) as (? & ? & ?). by eapply moved_counters.
  - destruct (slow_path_answered s1 g1 B size) as (p & s' & Hp & Ha); [apply Hmv|by eapply moved_blocks|done|].
    exists p, s'. split; [exact Hp|]. unfold answered in *. destruct (p =? 0).
    + destruct Ha as [g2 ?]. exists g2. by eapply moved_trans.
    + destruct Ha as (b & ? & ?). exists b. split; [by eapply moved_served|done].
Qed.

(** ** Release *)

(** The checks accept the header of a live block only with its canary, and
    count the block as rejected otherwise. *)
Lemma refused_live g h b c :
  header_ok g (memory h) b -> place g (hdr b) = Some c ->
  (exists r d, refused c h = Some (with_rejected r d h)) \/ refused c h = None.
Proof.
  intros (c' & Ec & Hm & Hf & _) Ec'. assert (c' = c) as -> by congruence. unfold refused. rewrite Hm, Hf.
  cbn [Z.eqb negb orb].
  assert (E : has (flag_of (org b)) KERNEL_HEAP_BLOCK_FLAG_FREE = false) by (by destruct (org b)).
  rewrite E. destruct (negb _ || negb _); [left; by do 2 eexists|by right].
Qed.

Lemma core_rejected s g r d : core s g -> core (with_base (with_rejected r d (base s)) s) g.
Proof. intros Hc. by destruct Hc. Qed.

Lemma core_large s g : core s g -> core (with_base (one_large_less (base s)) s) g.
Proof. intros Hc. unfold one_large_less. destruct (_ <? _); by destruct Hc. Qed.

(** Marking the header of a block. *)
Lemma mark_block s g B1 b B2 :
  core s g -> blocks_ok s g (B1 ++ b :: B2) -> org b <> FromPages -> forall v, 0 <= v < 2 ^ 8 ->
  let s' := Client.with_memory (Header.set_flags (hdr b) v) s in
  moved s g (B1 ++ B2) s' g /\ Header.magic (hdr b) (memory (base s')) = KERNEL_HEAP_HEADER_MAGIC.
Proof.
  intros Hc HB Ho v Hv s'. pose proof HB as [Hown Hhead _ Hap].
  apply Forall_app in Hown as [Hown1 [Hb Hown2]%Forall_cons].
  apply Forall_app in Hhead as [_ [(c & Ec & Hmg & _) _]%Forall_cons].
  destruct (header_place _ _ _ Hc Hb) as (c' & ? & ? & Hp). pose proof (owned_room _ _ _ Hc Hb).
  assert (Hd : forall k, 0 <= k < 16 -> place g (hdr b + k) = Some (hdr b + k)).
  { intros k Hk. assert (Hw : within (ext b) (hdr b + k)) by (unfold within, ext; cbn; lia).
    pose proof (owned_word _ _ _ _ Hc Hb Hw) as Hz. apply (zone_place s); [done|]. unfold zone.
    destruct (org b); tauto. }
  pose proof (Hp 0 ltac:(lia)) as E0. pose proof (Hd 0 ltac:(lia)) as E1. rewrite !Z.add_0_r in *.
  assert (c = hdr b) as -> by congruence. assert (c' = hdr b) as -> by congruence.
  set (m := Header.set_flags (hdr b) v (memory (base s))).
  assert (Hm : changes (cells g b) (memory (base s)) m).
  { unfold m, Header.set_flags. rewrite add32_small by lia. apply changes_insert. exists (hdr b + 4).
    split; [unfold within, ext; cbn; lia|apply Hd; lia]. }
  assert (Em : memory (base s') = m) by apply memory_set. rewrite Em. split.
  - assert (Hoth : Forall (owns g) (B1 ++ B2)) by (by apply Forall_app). split_and!.
    + exact (core_write s g b m Hc Hb Hm).
    + done.
    + rewrite Em. apply Forall_forall. intros b' Hb'. rewrite Forall_forall in Hoth.
      apply (keeps_write s g b); auto. apply blocks_apart in Hap. rewrite Forall_forall in Hap. auto.
  - revert Hmg. unfold m, Header.magic, Header.set_flags. rewrite !(add32_small (hdr b)), zget_insert_eq by lia.
    by rewrite field_set_other by lia.
Qed.

(** Giving a block back to the part it came from. *)
Section give_back.
Context (s : client A) (g : ghost) (B : list block) (b : block).
Context (Hc : core s g) (HB : Forall (owns g) B) (Hb : owns g b) (Hap : Forall (fun b' => apart (ext b) (ext b')) B).

Lemma other_header b' : b' ∈ B -> hdr b' <> hdr b.
Proof.
  intros Hb' E. rewrite Forall_forall in HB, Hap. specialize (Hap b' Hb'). pose proof (owned_room _ _ _ Hc Hb).
  pose proof (owned_room _ _ _ Hc (HB b' Hb')). unfold apart, ext in Hap. cbn in Hap. lia.
Qed.

Lemma slab_release :
  org b = FromSlab -> zget (memory (base s)) (hdr b + 4) <> SLAB_FREE_COOKIE ->
  exists g', moved s g B (with_slab (snd (kernel_slab_free (hdr b) (slab_view s))) s) g'.
Proof.
  intros Eo Hck. pose proof Hb as Hb'. unfold owns in Hb'. rewrite Eo in Hb'. destruct Hb' as (o & Ho & Er & Hl).
  pose proof (slab_give _ _ _ _ _ (co_slab _ _ Hc) Hl Ho Hck) as Hg.
  destruct (kernel_slab_free (hdr b) (slab_view s)) as [r t]. destruct Hg as (_ & F' & Hok & Hlive & Hm). cbn [snd].
  exists (with_free_objects F' g). pose proof other_header as Hne. rewrite Forall_forall in HB, Hap.
  split_and!; [by eapply core_slab|apply Forall_forall; intros b' Hb'..].
  - specialize (HB b' Hb'). unfold owns in *. destruct (org b'); try done. destruct HB as (o' & ? & ? & ?).
    exists o'. split_and!; [done..|]. apply Hlive. split; [done|by apply Hne].
  - rewrite (memory_set (Slab.mem t) (base s) : memory (base (with_slab t s)) = _).
    apply (keeps_frame s g (within (hdr b, sz o))); auto.
    + intros x Hx. left. by exists (hdr b), o.
    + intros x Hx Hx'. specialize (Hap b' Hb'). unfold apart, within, ext in *. cbn in *. rewrite Er in Hap. lia.
Qed.

Lemma tlsf_release t0 t1 :
  org b = FromTlsf -> exists g', moved s g B (with_tlsf (kernel_tlsf_free t0 t1 (hdr b) (tlsf_view s)) s) g'.
Proof.
  intros Eo. pose proof Hb as Hb'. unfold owns in Hb'. rewrite Eo in Hb'.
  destruct (free_spec _ _ _ _ t0 t1 (co_tlsf _ _ Hc) Hb') as (Hinv & Hm & Hsame).
  exists (with_live_tlsf (delete (hdr b) (live_tlsf g)) g). pose proof other_header as Hne. rewrite Forall_forall in HB.
  assert (Hown : forall b', b' ∈ B -> org b' = FromTlsf -> delete (hdr b) (live_tlsf g) !! hdr b' = Some (room b')).
  { intros b' Hin E. specialize (HB b' Hin). unfold owns in HB. rewrite E in HB.
    rewrite lookup_delete_ne; [done|]. apply not_eq_sym. by apply Hne. }
  split_and!.
  - apply core_tlsf; try done. eapply changes_mono; [|by apply (tlsf_changes s g _ (delete (hdr b) (live_tlsf g)))].
    by intros x [? _].
  - apply Forall_forall. intros b' Hin. specialize (Hown b' Hin). specialize (HB b' Hin). unfold owns in *.
    destruct (org b'); try done. by apply Hown.
  - apply Forall_forall. intros b' Hin. apply (tlsf_keeps s g _ (delete (hdr b) (live_tlsf g))); auto.
Qed.

Lemma list_release :
  org b = FromList -> Header.size (hdr b) (memory (base s)) = room b ->
  exists h' g', release_to_list (hdr b) (base s) = Some h' /\ moved s g B (with_base h' s) g'.
Proof.
  intros Eo Es. pose proof Hb as Hb'. unfold owns in Hb'. rewrite Eo in Hb'. destruct Hb' as (Hw & Hcl & Hz).
  destruct (release_to_list_spec (base s) (listed g) (ext b) (co_list _ _ Hc) Hw Es Hcl) as
    (h' & He & [Hre Hch (G & HG & Hcov)]).
  exists h', (with_listed G g). split; [exact He|]. rewrite Forall_forall in HB, Hap.
  assert (Hlz : forall x, covered (ext b :: listed g) x -> list_zone g x).
  { intros x [Hx|Hx]%listed_cons; [by apply Hz|by apply (co_listed _ _ Hc)]. }
  assert (Hoth : forall b' x, b' ∈ B -> within (ext b) x -> ~ within (ext b') x).
  { intros b' x Hin Hx Hx'. specialize (Hap b' Hin). unfold apart, within in *. lia. }
  split_and!; [|apply Forall_forall; intros b' Hin..].
  - apply core_list; try done; [by eapply changes_mono|]. intros x Hx%Hcov. by apply Hlz.
  - destruct HG as (_ & Hasc & _). apply (owns_listed s g G b' 0); auto.
    intros _ x [Hx|Hx]%Hcov%listed_cons; [right; by apply Hoth|by left].
  - apply (list_keeps s); auto. eapply changes_mono; [|exact Hch]. intros x Hx. split; [by apply Hlz|].
    apply listed_cons in Hx as [Hx|Hx]; [by apply Hoth|]. apply (listed_clear s g b' x); auto.
Qed.

Lemma pages_give x n :
  hdr b = page_virt x -> room b = 4096 * n -> 0 <= x -> 0 < n -> x + n <= VMM_PAGE_COUNT ->
  (forall j, x <= j < x + n -> is_Some (backing g !! j)) ->
  exists v g', kernel_vmm_free_pages (page_virt x) n (vm (base s)) = Some v /\
    moved s g B (with_base (with_vm v (base s)) s) g'.
Proof.
  intros Eh Er Hx Hn Hxn Hsome.
  destruct (free_pages_spec _ _ _ _ x n (co_vm _ _ Hc)) as (v & F & O & M & -> & Hv & HM & Hkept & _); [lia..|done|].
  exists v, (with_frame_sets F O M g). split; [done|]. rewrite Forall_forall in HB, Hap.
  assert (HX : forall y, zone s g y -> ~ run_frames (backing g) x n (frame_of y)).
  { intros y Hz (j & _ & Hj). destruct (co_zone _ _ Hc y Hz) as [_ Hno]. by apply (Hno j). }
  assert (Hkeep : forall b' j o f, b' ∈ B -> 0 <= o < 4096 -> within (ext b') (page_virt j + o) ->
            backing g !! j = Some f -> M !! j = Some f /\ ~ run_frames (backing g) x n f).
  { intros b' j o f Hin Ho Hw Hj. assert (Hjx : ~ (x <= j < x + n)).
    { specialize (Hap b' Hin). unfold apart, within, ext in *. cbn [fst snd] in *. rewrite Eh, Er in Hap.
      unfold page_virt in *. lia. }
    split; [rewrite HM; by rewrite decide_False|]. intros (j' & Hj' & Hf).
    rewrite (vi_inj _ _ _ _ (co_vm _ _ Hc) j' j f Hf Hj) in Hj'. done. }
  split_and!; [|apply Forall_forall; intros b' Hin..].
  - apply (core_vm s g v F O M (run_frames (backing g) x n)); try done.
    intros j f. rewrite HM. case_decide; [done|by left].
  - specialize (Hkeep b'). specialize (HB b' Hin). unfold owns in *. destruct (org b'); try done.
    destruct HB as (y & i & Ey & Ei & ? & ? & ? & Hy). exists y, i. split_and!; try done; try lia.
    intros j Hj. destruct (Hy j Hj) as [f Hf]. exists f. apply (Hkeep j 0 f); try done.
    unfold within, ext, page_virt in *. cbn. lia.
  - apply (vm_keeps s g v F O M (run_frames (backing g) x n)); auto. intros j o f. by apply Hkeep.
Qed.

End give_back.

Lemma moved_large s g B : core s g -> Forall (owns g) B -> moved s g B (with_base (one_large_less (base s)) s) g.
Proof.
  intros Hc HB. split_and!; [by apply core_large|done|]. apply Forall_forall. intros b _.
  replace (memory (base (with_base (one_large_less (base s)) s))) with (memory (base s)); [apply keeps_block_refl|].
  unfold one_large_less. cbn. by destruct (_ <? _).
Qed.

Lemma pages_release s g B b c :
  core s g -> Forall (owns g) B -> owns g b -> Forall (fun b' => apart (ext b) (ext b')) B ->
  org b = FromPages -> Header.reserved c (memory (base s)) = room b / 4096 ->
  exists h' g', release_pages (hdr b) c (base s) = Some h' /\ moved s g B (with_base h' s) g'.
Proof.
  intros Hc HB Hb Hap Eo Es. pose proof Hb as Hb'. unfold owns in Hb'. rewrite Eo in Hb'.
  destruct Hb' as (x & n & Eh & Er & Hx & Hn & Hxn & Hsome). unfold release_pages.
  pose proof (moved_large s g B Hc HB) as Hmv.
  destruct (pages_give (with_base (one_large_less (base s)) s) g B b (proj1 Hmv) HB Hap x n) as (v & g' & Hf & Hmv');
    [done|done|lia..|done|].
  replace (memory (one_large_less (base s))) with (memory (base s)) by (unfold one_large_less; by destruct (_ <? _)).
  rewrite Es, Er, Eh, (Z.mul_comm 4096), Z.div_mul by lia. cbn [base with_base] in Hf. rewrite Hf. cbn [mbind option_bind].
  do 2 eexists. split; [done|]. exact (moved_trans _ _ _ _ _ _ _ Hmv Hmv').
Qed.

Lemma direct_header s g b : core s g -> owns g b -> org b <> FromPages -> 0xC0000000 <= hdr b < 0xD0000000.
Proof.
  intros Hc Ho Hn. pose proof (owned_room _ _ _ Hc Ho).
  assert (Hw : within (ext b) (hdr b)) by (unfold within, ext; cbn; lia).
  pose proof (owned_word _ _ _ _ Hc Ho Hw) as Hb. assert (Hz : zone s g (hdr b)) by (unfold zone; destruct (org b); tauto).
  destruct (co_zone _ _ Hc _ Hz) as [[? _] _]. done.
Qed.

Lemma cell_direct h x : x < 0xD0000000 -> cell x h = Some x.
Proof. intros Hx. unfold cell, KERNEL_VMM_DYNAMIC_START. by rewrite (proj2 (Z.leb_gt _ _)) by done. Qed.

Lemma cell_header s g b : core s g -> owns g b -> exists c, cell (hdr b) (base s) = Some c /\ place g (hdr b) = Some c.
Proof.
  intros Hc Ho. destruct (decide (org b = FromPages)) as [E|E].
  - unfold owns in Ho. rewrite E in Ho. destruct Ho as (x & n & Eh & _ & Hx & Hn & Hxn & Hsome).
    destruct (Hsome x ltac:(lia)) as [f Hf]. exists (0xC0000000 + 4096 * f). rewrite Eh.
    split; [by eapply cell_page; [apply Hc|]|].
    pose proof (place_page g x 0 ltac:(lia) ltac:(lia)) as Hp. rewrite !Z.add_0_r in Hp. rewrite Hp, Hf. cbn. f_equal. lia.
  - pose proof (direct_header s g b Hc Ho E). exists (hdr b). split; [apply cell_direct; lia|apply place_direct; lia].
Qed.

(** Two words with different low halves. *)
Lemma magic_not_cookie w : field 0 16 w = KERNEL_HEAP_HEADER_MAGIC -> w <> SLAB_FREE_COOKIE.
Proof. intros Hw ->. by vm_compute in Hw. Qed.

(** A marked block of the slabs or of TLSF goes back to its part. *)
Lemma bounded_release s g B1 b B2 t0 t1 v :
  core s g -> blocks_ok s g (B1 ++ b :: B2) -> 0 <= v < 2 ^ 8 ->
  let s1 := Client.with_memory (Header.set_flags (hdr b) v) s in
  (org b = FromSlab -> exists g', moved s g (B1 ++ B2) (with_slab (snd (kernel_slab_free (hdr b) (slab_view s1))) s1) g') /\
  (org b = FromTlsf -> exists g', moved s g (B1 ++ B2) (with_tlsf (kernel_tlsf_free t0 t1 (hdr b) (tlsf_view s1)) s1) g').
Proof.
  intros Hc HB Hv s1. pose proof HB as [Hown _ _ Hap]. apply Forall_app in Hown as [_ [Hb _]%Forall_cons].
  pose proof (blocks_apart _ _ _ Hap) as Hap'.
  assert (Hmark : org b <> FromPages -> moved s g (B1 ++ B2) s1 g /\
            Header.magic (hdr b) (memory (base s1)) = KERNEL_HEAP_HEADER_MAGIC).
  { intros Hn. by apply (mark_block s g B1 b B2). }
  split; intros Eo; (destruct Hmark as [Hmv Hmg]; [congruence|]); pose proof Hmv as (Hc1 & HB1 & _).
  - destruct (slab_release s1 g (B1 ++ B2) b Hc1 HB1 Hb Hap' Eo) as [g' Hmv'];
      [|exists g'; by eapply moved_trans].
    apply magic_not_cookie. pose proof (direct_header s1 g b Hc1 Hb ltac:(congruence)).
    unfold Header.magic in Hmg. by rewrite add32_small in Hmg by lia.
  - destruct (tlsf_release s1 g (B1 ++ B2) b Hc1 HB1 Hb Hap' t0 t1 Eo) as [g' Hmv']. exists g'. by eapply moved_trans.
Qed.

Lemma client_kfree s g B1 b B2 t0 t1 :
  core s g -> blocks_ok s g (B1 ++ b :: B2) ->
  exists s' g', kfree t0 t1 (hdr b + 16) s = Some s' /\ moved s g (B1 ++ B2) s' g'.
Proof.
  intros Hc HB. pose proof HB as [Hown Hhead _ Hap]. apply Forall_app in Hown as [Hown1 [Hb Hown2]%Forall_cons].
  apply Forall_app in Hhead as [_ [Hh _]%Forall_cons].
  pose proof (owned_region _ _ _ Hc Hb) as (Hr1 & _ & Hr2). pose proof (owned_room _ _ _ Hc Hb). cbn [ext fst snd] in *.
  assert (HB' : Forall (owns g) (B1 ++ B2)) by (by apply Forall_app).
  pose proof (blocks_apart _ _ _ Hap) as Hap'.
  unfold kfree, HEADER_SIZE. rewrite (proj2 (Z.eqb_neq _ 0)), sub32_small by lia. rewrite Z.add_simpl_r.
  destruct (cell_header s g b Hc Hb) as (c & -> & Ec). cbn [mbind option_bind].
  destruct (refused_live g (base s) b c Hh Ec) as [(r & d & ->)| ->].
  { do 2 eexists. split; [done|]. split_and!; [by apply core_rejected|done|].
    apply Forall_forall. intros b' _. apply keeps_block_refl. }
  destruct Hh as (c' & Ec' & _ & Hfl & Hrest). assert (c' = c) as -> by congruence. rewrite Hfl.
  assert (Hcd : org b <> FromPages -> c = hdr b).
  { intros Hn. pose proof (direct_header s g b Hc Hb Hn). rewrite place_direct in Ec by lia. congruence. }
  destruct (bounded_release s g B1 b B2 t0 t1 (Z.lor (flag_of (org b)) KERNEL_HEAP_BLOCK_FLAG_FREE) Hc HB) as [Hsl Htl];
    [destruct (org b); vm_compute; done|].
  set (s1 := Client.with_memory _ s) in Hsl, Htl.
  destruct (count_violation_same s) as (Ev1 & Ev2 & Ev3).
  destruct (org b) eqn:Eo; cbn [flag_of has Z.land Z.eqb negb].
  - destruct (Hsl eq_refl) as [g' Hmv]. cbn. rewrite (Hcd ltac:(done)), Z.eqb_refl. cbn [negb].
    do 2 eexists. split; [done|]. eapply moved_counters; [apply count_bounded_same..|exact Hmv].
  - destruct (Htl eq_refl) as [g' Hmv]. cbn. rewrite (Hcd ltac:(done)), Z.eqb_refl. cbn [negb].
    do 2 eexists. split; [done|]. eapply moved_counters; [apply count_bounded_same..|exact Hmv].
  - cbn. rewrite Ev1. destruct (pages_release s g (B1 ++ B2) b c) as (h' & g' & -> & Hmv); try done.
    do 2 eexists. split; [done|]. by eapply moved_counters, Hmv.
  - specialize (Hcd ltac:(done)). subst c. cbn. rewrite Z.eqb_refl. cbn [negb]. rewrite Ev1.
    destruct (list_release s g (B1 ++ B2) b) as (h' & g' & -> & Hmv); try done.
    do 2 eexists. split; [done|]. by eapply moved_counters, Hmv.
Qed.

(** ** Hot loops *)

(** What an allocation in a hot loop may not touch: the pages, the page tables
    and the bitmap of the dynamic range, and the list. *)
Definition bounded_only s s' : Prop :=
  (exists m, base s' = set_memory m (base s)) /\ kernel_heap_hot_loop_depth s' = kernel_heap_hot_loop_depth s.

Lemma seal_counters total_size flag c s :
  let s' := seal total_size flag c s in
  (exists m, base s' = set_memory m (base s)) /\ kernel_heap_hot_loop_depth s' = kernel_heap_hot_loop_depth s /\
  kernel_heap_hot_loop_violation_count s' = kernel_heap_hot_loop_violation_count s /\
  kernel_heap_hot_loop_bounded_count s' = kernel_heap_hot_loop_bounded_count s.
Proof. cbv zeta. rewrite seal_set. split_and!; try done. by eexists. Qed.

(** The counters of a hot loop: exactly one of them moves. *)
Lemma hot_loop_counts s t0 t1 size p s' :
  in_hot_loop s = true -> kernel_heap_initialized (base s) = true -> size <> 0 ->
  kmalloc t0 t1 size s = Some (p, s') ->
  bounded_only s s' /\
  ((kernel_heap_hot_loop_bounded_count s' = kernel_heap_hot_loop_bounded_count s ⊞ 1 /\
    kernel_heap_hot_loop_violation_count s' = kernel_heap_hot_loop_violation_count s) \/
   (p = 0 /\ kernel_heap_hot_loop_bounded_count s' = kernel_heap_hot_loop_bounded_count s /\
    kernel_heap_hot_loop_violation_count s' = kernel_heap_hot_loop_violation_count s ⊞ 1)).
Proof.
  intros Hh Hi Hs. unfold kmalloc. rewrite Hi, (proj2 (Z.eqb_neq size 0)) by done. cbn [negb orb]. cbv zeta.
  destruct (kernel_slab_alloc (total_of size) (slab_view s)) as [obj t].
  set (s1 := with_slab t s).
  assert (E1 : in_hot_loop s1 = true /\ exists m, base s1 = set_memory m (base s)) by (split; [done|by eexists]).
  destruct E1 as [Eh1 [m1 Em1]].
  assert (Hseal : forall m s2 flag c, base s2 = set_memory m (base s) -> in_hot_loop s2 = true ->
    kernel_heap_hot_loop_depth s2 = kernel_heap_hot_loop_depth s ->
    kernel_heap_hot_loop_violation_count s2 = kernel_heap_hot_loop_violation_count s ->
    kernel_heap_hot_loop_bounded_count s2 = kernel_heap_hot_loop_bounded_count s ->
    let s3 := count_bounded (seal (total_of size) flag c s2) in
    bounded_only s s3 /\ kernel_heap_hot_loop_bounded_count s3 = kernel_heap_hot_loop_bounded_count s ⊞ 1 /\
    kernel_heap_hot_loop_violation_count s3 = kernel_heap_hot_loop_violation_count s).
  { intros m s2 flag c Eb Eh Ed Ev Ec. destruct (seal_counters (total_of size) flag c s2) as ([m' Hb] & Hd & Hv & Hc).
    set (s3 := seal (total_of size) flag c s2) in *. clearbody s3. cbv zeta.
    unfold count_bounded. replace (in_hot_loop s3) with true by (unfold in_hot_loop in *; by rewrite Hd).
    unfold bounded_only. cbn. rewrite Hb, Hd, Hv, Hc, Eb, Ed, Ev, Ec. split_and!; try done. exists m'. by rewrite set_memory_set. }
  destruct (negb (obj =? 0)).
  { intros [= <- <-]. destruct (Hseal m1 s1 KERNEL_HEAP_BLOCK_FLAG_SLAB obj) as (? & ? & ?); auto. }
  destruct (kernel_tlsf_alloc t0 t1 (total_of size) (tlsf_view s1)) as [[raw t']|]; [|done]. cbn [mbind option_bind].
  set (s2 := with_tlsf t' s1).
  assert (E2 : exists m, base s2 = set_memory m (base s)) by (eexists; apply set_memory_set).
  destruct E2 as [m2 Em2]. destruct (negb (raw =? 0)).
  { intros [= <- <-]. destruct (Hseal m2 s2 KERNEL_HEAP_BLOCK_FLAG_TLSF raw) as (? & ? & ?); auto. }
  replace (in_hot_loop s2) with true by done. intros [= <- <-]. unfold count_violation.
  replace (in_hot_loop s2) with true by done. split; [|right; done]. split; [by exists m2|done].
Qed.

End client.
