(* ===== verification/HeapBoot.v ===== *)
(** * The client's heap at boot, and as its callers see it

    [kernel_heap_initialize] establishes the invariant of the client's heap
    with nothing live, as long as all free memory lies below 256 MiB; the heap
    then meets the interface its clients are proved against. *)

From S2P Require Import Prelude Cpu Pmm BuddyProofs FreeListProofs FrameAlloc Paging PagingProofs Vmm VmmProofs.
From S2P Require Import Slab Tlsf TlsfProofs TlsfSpec TlsfPool TlsfCorrect HeapInterface Heap HeapList HeapClient.
Import Heap.Client.

Section boot.
Context {A : Type} `{FrameAllocator A}.
Implicit Types (s : client A) (h : common A) (m : zmap).

(** ** The boot pool *)

(** The frames taken so far: [TP] for the slabs, [TG] for the list. *)
Record booting h (F O : gset Z) (M : gmap Z Z) (pool : Z -> Prop) (TP TG : list Z) (G : list extent) : Prop := {
  bt_init : kernel_heap_initialized h = true;
  bt_vm : vmm_inv (vm h) F O M;
  bt_low : forall f, f ∈ F -> f < 2 ^ 16;
  bt_taken : forall f, f ∈ TP ++ TG -> 0 < f < 2 ^ 16 /\ calm (pages (vm h)) F f /\ forall j, M !! j <> Some f;
  bt_nodup : NoDup (TP ++ TG);
  bt_pool : forall x, pool x -> quiet_word h F x /\ (forall j, M !! j <> Some (frame_of x)) /\ frame_of x ∉ TP ++ TG;
  bt_list : sound_list h G;
  bt_covered : forall x, covered G x -> 0xC0000000 <= x < 0xD0000000 /\ frame_of x ∈ TG }.

(** The direct map address of a frame. *)
Definition virt_of (f : Z) : Z := 0xC0000000 + 4096 * f.

Lemma virt_of_frame f x : virt_of f <= x < virt_of f + 4096 -> frame_of x = f.
Proof. unfold virt_of, frame_of. intros Hx. Z.to_euclidean_division_equations; lia. Qed.

(** The list and the pool do not mind what happens in other frames. *)
Lemma sound_list_same h h' G :
  sound_list h G -> kernel_heap_free_list h' = kernel_heap_free_list h ->
  kernel_heap_small_free_blocks h' = kernel_heap_small_free_blocks h ->
  kernel_heap_small_free_bytes h' = kernel_heap_small_free_bytes h ->
  (forall x, covered G x -> zget (memory h') x = zget (memory h) x) -> sound_list h' G.
Proof.
  intros (Hs & Ha & Hn & Hb) E1 E2 E3 Hm. split_and!; [|done|congruence..]. rewrite E1.
  eapply seg_ext; [|exact Hs]. intros e He. destruct (ascending_in _ _ _ Ha He) as [_ Hw].
  rewrite (wf_add e) by (done || lia). destruct Hw as (_ & _ & _ & ? & _).
  split; apply Hm; exists e; (split; [done|unfold within; lia]).
Qed.

Lemma boot_take h F O M pool TP TG G :
  booting h F O M pool TP TG G ->
  exists p a, page_frame_allocate (frames_of h) = Some (p, a) /\
    if p =? 0 then booting (with_allocator a h) F O M pool TP TG G
    else exists F' O', p = 4096 * (p / 4096) /\ 0 < p / 4096 < 2 ^ 16 /\ (p / 4096 ∉ TP ++ TG) /\
           booting (with_allocator a h) F' O' M pool (TP ++ [p / 4096]) TG G.
Proof.
  intros [Hi Hv Hlow Ht Hnd Hpool Hl Hcov]. pose proof (vi_pages _ _ _ _ Hv) as Hp.
  destruct (page_frame_fresh _ F O Hp) as (p & a & He & Htf). exists p, a. split; [exact He|].
  pose proof (table_frame_translate _ _ _ _ _ Hp Htf) as Htr.
  destruct (fa_allocate _ F O 0 (pi_frames _ _ _ Hp) ltac:(lia)) as (p1 & a1 & He1 & Hp1).
  unfold page_frame_allocate, frames_of in He. rewrite He in He1. injection He1 as <- <-.
  destruct Htf as [Hst Htf].
  destruct Htf as [(-> & Hpg & Hm & Hcache)|(F' & O' & Hpg & HF & HO & [Hblk Hdf] & Hag & Hdat & Hcalm)].
  - cbn [Z.eqb].
    assert (Hc : forall f, calm (pages (vm h)) F f -> calm (with_frames a (pages (vm h))) F f) by done.
    constructor; try done.
    + apply (vmm_inv_pages _ F O M _ F O); try done. intros i f Hif. apply (vi_data _ _ _ _ Hv i f Hif).
    + apply (sound_list_same h); try done. intros x _. exact (f_equal (fun m => zget m x) Hm).
  - destruct Hp1 as [(-> & _)|(_ & Hsub & _)]; [destruct Hblk as (_ & ? & _); lia|].
    pose proof Hblk as (_ & Hpr & Hpm). change (block_bytes 0) with 4096 in Hpm.
    rewrite (proj2 (Z.eqb_neq p 0)) by lia. rewrite frames_0 in Hsub. set (f := p / 4096) in *.
    assert (HfF : f ∈ F) by set_solver. pose proof (Hlow f HfF).
    assert (Hf : f ∉ TP ++ TG) by (intros Hin; destruct (Ht f Hin) as (_ & [Hno _] & _); done).
    assert (Hfp : p = 4096 * f) by (unfold f; Z.to_euclidean_division_equations; lia).
    exists F', O'. split_and!; [done|lia|lia|done|].
    assert (Hperm : forall x, x ∈ (TP ++ [f]) ++ TG <-> x = f \/ x ∈ TP ++ TG) by (intros x; set_solver).
    constructor; try done.
    + apply (vmm_inv_pages _ F O M); try done. intros i fi Hif. apply Hdat. by apply (vi_data _ _ _ _ Hv i).
    + intros x Hx. apply Hlow, HF, Hx.
    + intros x [->|Hx]%Hperm.
      * split_and!; [lia|done| |].
        -- destruct Hdf as (HfO & ? & ?). split_and!; [|done|done].
           pose proof (fa_disjoint _ _ _ (pi_frames _ _ _ Hpg)). set_solver.
        -- intros j Hj. by destruct (Hdat f (vi_data _ _ _ _ Hv j f Hj)).
      * destruct (Ht x Hx) as (? & Hcx & ?). split_and!; [lia|lia| |done]. by apply Hcalm.
    + rewrite <- app_assoc. cbn [app]. rewrite <- Permutation_middle. by apply NoDup_cons.
    + intros x Hx. destruct (Hpool x Hx) as ([? Hq] & ? & Hn). split_and!; [split; [done|by apply Hcalm]|done|].
      rewrite Hperm. intros [E|]; [|done]. by destruct (Hcalm _ Hq) as [_ []].
    + apply (sound_list_same h); try done. intros x Hx. destruct (Hcov x Hx) as [? Hin].
      destruct (Ht (frame_of x)) as (_ & [HnF _] & _); [set_solver|].
      assert (Hnot : (x - 0xC0000000) / 4096 ∉ F') by (intros Hx'; by apply HnF, HF).
      specialize (Hag (x - 0xC0000000) ltac:(lia) Hnot).
      unfold pmm_phys_to_virt, KERNEL_VIRTUAL_BASE in Hag. rewrite add32_small in Hag by lia.
      by replace (x - 0xC0000000 + 0xC0000000) with x in Hag by lia.
Qed.

(** A frame taken becomes a block of the list. *)
Lemma boot_add h F O M pool TP TG G f :
  booting h F O M pool (TP ++ [f]) TG G -> f ∉ TP ++ TG ->
  exists h' G', add_page (4096 * f) h = Some h' /\ booting h' F O M pool TP (f :: TG) G'.
Proof.
  intros [Hi Hv Hlow Ht Hnd Hpool Hl Hcov] Hf.
  assert (Hperm : forall x, x ∈ (TP ++ [f]) ++ TG <-> x ∈ TP ++ f :: TG) by (intros x; set_solver).
  destruct (Ht f) as (Hfr & Hfc & HfM); [set_solver|]. unfold add_page, kernel_heap_phys_to_virt, KERNEL_VIRTUAL_BASE.
  rewrite add32_small by lia. replace (4096 * f + 0xC0000000) with (virt_of f) by (unfold virt_of; lia).
  rewrite !with_memory_set. autorewrite with heap.
  change (Header.set_reserved _ _ _) with (rest_header (virt_of f) PAGE_SIZE (memory h)).
  set (e := (virt_of f, 4096) : extent).
  assert (Hw : block_wf e) by (unfold block_wf, e, virt_of; cbn; split_and!; try lia; Z.to_euclidean_division_equations; lia).
  assert (Hin : forall x, within e x -> 0xC0000000 <= x < 0xD0000000 /\ frame_of x = f).
  { intros x Hx. unfold within, e in Hx. cbn in Hx. split; [unfold virt_of in Hx; lia|by apply virt_of_frame]. }
  assert (Hcl : clear_of e G).
  { destruct Hl as (_ & Ha & _). rewrite (clear_words e G 0) by (done || (cbn; lia)). intros x Hx Hc.
    destruct (Hcov x Hc) as [_ HTG], (Hin x Hx) as [_ <-]. set_solver. }
  set (m := rest_header (virt_of f) PAGE_SIZE (memory h)).
  assert (Hm : changes (within e) (memory h) m).
  { intros x Hx. apply rest_header_at; [exact Hw|]. unfold within, e in Hx. cbn in Hx. lia. }
  assert (Hl1 : sound_list (set_memory m h) G).
  { apply sound_list_write; [done|]. eapply changes_mono; [|exact Hm]. intros x Hx Hc.
    destruct (Hcov x Hc) as [_ HTG], (Hin x Hx) as [_ <-]. set_solver. }
  assert (Hsz : Header.size e.1 (memory (set_memory m h)) = e.2) by (rewrite memory_set; by apply rest_header_size).
  destruct (add_free_block_step (set_memory m h) G e Hl1 Hw Hsz Hcl) as
    (h' & G1 & G2 & Ha & (EG & _) & (d & k & b & m' & ->) & HG & Hch).
  eexists _, _. split; [exact Ha|]. rewrite set_memory_set in *. rewrite memory_list, !memory_set in Hch.
  assert (Hall : changes (covered (e :: G)) (memory h) m').
  { eapply changes_trans; [|exact Hch]. eapply changes_mono; [|exact Hm]. intros x Hx. apply listed_cons. by left. }
  constructor; try done.
  - change (vm (with_list d k b (set_memory m' h))) with (vm (set_memory m' h)).
    apply (vm_write h F O M (covered (e :: G))); [done..|]. intros x [Hx|Hx]%listed_cons.
    + destruct (Hin x Hx) as [? ->]. split; [lia|done].
    + destruct (Hcov x Hx) as [? Hx']. split; [lia|]. apply Ht. set_solver.
  - intros x Hx. apply Ht. by apply Hperm.
  - revert Hnd. rewrite <- app_assoc. done.
  - intros x Hx. destruct (Hpool x Hx) as (Hq & HxM & Hn). split_and!; [exact Hq|done|]. by rewrite <- Hperm.
  - intros x Hx. assert (Hx' : covered (e :: G) x).
    { apply listed_cons. subst G. apply covered_app in Hx as [Hx|[Hx|Hx]%listed_cons];
        [right; apply covered_app; by left|by left|right; apply covered_app; by right]. }
    apply listed_cons in Hx' as [Hx'|Hx'].
    + destruct (Hin x Hx') as [? ->]. split; [done|left].
    + destruct (Hcov x Hx'). split; [done|by right].
Qed.

Lemma boot_pool_loop_spec pool M count : forall h F O TP TG G,
  booting h F O M pool TP TG G ->
  exists h' F' O' TP' TG' G', boot_pool_loop count (virt_of <$> TP) h = Some (virt_of <$> TP', h') /\
    booting h' F' O' M pool TP' TG' G'.
Proof.
  induction count as [|count IH]; intros h F O TP TG G Hb; [by exists h, F, O, TP, TG, G|].
  cbn [boot_pool_loop]. destruct (boot_take _ _ _ _ _ _ _ _ Hb) as (p & a & -> & Hp). cbn [mbind option_bind].
  destruct (p =? 0); [by exists (with_allocator a h), F, O, TP, TG, G|].
  destruct Hp as (F' & O' & Ep & Hr & Hn & Hb'). set (f := p / 4096) in *.
  destruct (_ <? _).
  - replace ((virt_of <$> TP) ++ [kernel_heap_phys_to_virt p]) with (virt_of <$> (TP ++ [f])).
    + by apply (IH (with_allocator a h) F' O' (TP ++ [f]) TG G).
    + rewrite fmap_app, Ep. unfold kernel_heap_phys_to_virt, KERNEL_VIRTUAL_BASE. rewrite add32_small by lia.
      cbn. do 2 f_equal. unfold virt_of. lia.
  - rewrite Ep. destruct (boot_add _ _ _ _ _ _ _ _ _ Hb' Hn) as (h' & G' & -> & Hb''). cbn [mbind option_bind].
    by apply (IH h' F' O' TP (f :: TG) G').
Qed.

(** ** Initialisation *)

(** Where the static pool of TLSF must lie: aligned, in the direct map, in
    frames that are not free, not page tables and not behind a mapped page. *)
Record pool_place h (F : gset Z) (M : gmap Z Z) (pool : Z) : Prop := {
  pp_align : pool mod 8 = 0;
  pp_range : 0xC0000000 <= pool /\ pool + KERNEL_HEAP_CLIENT_TLSF_POOL_SIZE <= 0xD0000000;
  pp_frames : forall x, pool <= x < pool + KERNEL_HEAP_CLIENT_TLSF_POOL_SIZE ->
    calm (pages (vm h)) F (frame_of x) /\ forall j, M !! j <> Some (frame_of x) }.

Definition in_static_pool (pool x : Z) : Prop := pool <= x < pool + KERNEL_HEAP_CLIENT_TLSF_POOL_SIZE.

Lemma boot_start (v : vmm A) F O M pool :
  vmm_inv v F O M -> (forall f, f ∈ F -> f < 2 ^ 16) -> pool_place (mkCommon 0 0 0 0 0 0 true v) F M pool ->
  booting (mkCommon 0 0 0 0 0 0 true v) F O M (in_static_pool pool) [] [] [].
Proof.
  intros Hv Hlow [_ [? ?] Hp]. constructor; try done.
  - by intros f ?%not_elem_of_nil.
  - constructor.
  - intros x Hx. destruct (Hp x Hx) as [? ?]. split_and!; [|done|apply not_elem_of_nil].
    split; [unfold in_static_pool in Hx; lia|done].
  - by intros x Hx%covered_nil.
Qed.

(** The pages for the slabs. *)
Lemma slab_pages TP : NoDup TP -> (forall f, f ∈ TP -> 0 < f < 2 ^ 16) ->
  Forall page_ok (virt_of <$> TP) /\ NoDup (virt_of <$> TP).
Proof.
  intros Hnd Hr. split.
  - apply Forall_fmap, Forall_forall. intros f Hf. specialize (Hr f Hf). unfold page_ok, virt_of. cbn.
    split_and!; try lia. Z.to_euclidean_division_equations; lia.
  - apply NoDup_fmap_2; [|done]. intros f f'. unfold virt_of. lia.
Qed.

Lemma slab_boot_step (backing_pages : list Z) s :
  (match backing_pages with
   | [] => Some s
   | _ => t ← kernel_slab_initialize backing_pages (slab_view s); Some (with_slab t s)
   end) = t ← kernel_slab_initialize backing_pages (slab_view s); Some (with_slab t s).
Proof. destruct backing_pages; [|done]. cbn. by rewrite with_slab_id. Qed.

(** The heap after its three parts are set up on the frames taken. *)
Lemma boot_core h F O M pool TP TG G (ts : slab) so sf (tt : tlsf) d v n :
  booting h F O M (in_static_pool pool) TP TG G ->
  slab_ok ts so sf -> (forall p o, so p = Some o -> exists f, f ∈ TP /\ virt_of f <= p /\ p + sz o <= virt_of f + 4096) ->
  changes (fun x => frame_of x ∈ TP /\ 0xC0000000 <= x < 0xD0000000) (memory h) (Slab.mem ts) ->
  tlsf_inv tt ∅ -> changes (in_static_pool pool) (Slab.mem ts) (Tlsf.mem tt) ->
  pool_start tt = pool -> pool_end tt = pool + KERNEL_HEAP_CLIENT_TLSF_POOL_SIZE ->
  core (mk (set_memory (Tlsf.mem tt) h) (Slab.slab_caches ts) (Tlsf.with_mem (fun _ => ∅) tt) d v n)
    (mkGhost F O M so sf ∅ G (fun x => 0xC0000000 <= x < 0xD0000000 /\ frame_of x ∈ TG)).
Proof.
  intros [Hi Hv Hlow Ht Hnd Hpool Hl Hcov] Hso Hin Hms Hti Hmt E1 E2.
  set (g := mkGhost _ _ _ _ _ _ _ _). set (s := mk _ _ _ _ _ _). apply NoDup_app in Hnd as (_ & Hdis & _).
  assert (Hpl : forall x, in_pool (tlsf_control s) x <-> in_static_pool pool x).
  { intros x. unfold in_pool, in_static_pool. cbn [pool_start pool_end tlsf_control s Tlsf.with_mem]. by rewrite E1, E2. }
  assert (Hsz : forall x, slab_zone g x -> 0xC0000000 <= x < 0xD0000000 /\ frame_of x ∈ TP).
  { intros x (p & o & Hp & Hx). destruct (Hin p o Hp) as (f & Hf & ? & ?). destruct (Ht f) as (? & _); [set_solver|].
    rewrite (virt_of_frame f x) by lia. unfold virt_of in *. split; [lia|done]. }
  assert (Hm : changes (fun x => (frame_of x ∈ TP /\ 0xC0000000 <= x < 0xD0000000) \/ in_static_pool pool x)
            (memory h) (Tlsf.mem tt)).
  { intros x Hx. rewrite Hmt by tauto. apply Hms. tauto. }
  assert (Em : memory (base s) = Tlsf.mem tt) by apply memory_set.
  assert (Hzq : forall x, 0xC0000000 <= x < 0xD0000000 -> frame_of x ∈ TP ++ TG ->
            quiet_word (base s) F x /\ forall j, M !! j <> Some (frame_of x)).
  { intros x Hx Hf. destruct (Ht _ Hf) as (_ & ? & ?). by split. }
  constructor; try done.
  - apply (vm_write h F O M _ _ Hv Hm). intros x [[Hf Hx]|Hx].
    + destruct (Ht (frame_of x)) as (_ & ? & _); [set_solver|]. split; [lia|done].
    + destruct (Hpool x Hx) as ([? ?] & _). split; [lia|done].
  - unfold slab_view. rewrite Em. apply (slab_ext ts); [done|]. intros i p Hp.
    destruct (so_free _ _ _ Hso i p Hp) as (o & Ho & _). pose proof (sz_range o).
    assert (Hno : forall x, p <= x < p + sz o -> ~ in_static_pool pool x).
    { intros x Hx Hx'. destruct (Hsz x) as [_ Hf]; [by exists p, o|]. destruct (Hpool x Hx') as (_ & _ & Hn). set_solver. }
    split; apply Hmt, Hno; lia.
  - unfold tlsf_view. rewrite Em. by destruct tt.
  - apply sound_list_write; [done|]. eapply changes_mono; [|exact Hm]. intros x [[Hf _]|Hx] Hc; destruct (Hcov x Hc) as [_ Hg].
    + by apply (Hdis (frame_of x)).
    + destruct (Hpool x Hx) as (_ & _ & Hn). set_solver.
  - intros x [Hx|[Hx|Hx]].
    + destruct (Hsz x Hx). apply Hzq; [done|set_solver].
    + apply Hpl in Hx. by destruct (Hpool x Hx) as (? & ? & _).
    + destruct Hx. apply Hzq; [done|set_solver].
  - intros x Hx. destruct (Hsz x Hx) as [_ Hf]. rewrite Hpl. split.
    + intros Hx'. destruct (Hpool x Hx') as (_ & _ & Hn). set_solver.
    + intros [_ Hg]. by apply (Hdis (frame_of x)).
  - intros x Hx%Hpl [_ Hg]. destruct (Hpool x Hx) as (_ & _ & Hn). set_solver.
Qed.

Lemma pool_size_ok : 32 <= KERNEL_HEAP_CLIENT_TLSF_POOL_SIZE /\ KERNEL_HEAP_CLIENT_TLSF_POOL_SIZE mod 8 = 0.
Proof. split; [unfold KERNEL_HEAP_CLIENT_TLSF_POOL_SIZE; lia|reflexivity]. Qed.

Lemma tlsf_mem_slab (ts : slab) s : Tlsf.mem (tlsf_view (with_slab ts s)) = Slab.mem ts.
Proof. exact (memory_set (Slab.mem ts) (base s)). Qed.

Lemma with_tlsf_slab (tt : tlsf) (ts : slab) s :
  with_tlsf tt (with_slab ts s) =
  mk (set_memory (Tlsf.mem tt) (base s)) (Slab.slab_caches ts) (Tlsf.with_mem (fun _ => ∅) tt)
     (kernel_heap_hot_loop_depth s) (kernel_heap_hot_loop_violation_count s) (kernel_heap_hot_loop_bounded_count s).
Proof.
  pose proof (set_memory_set (Tlsf.mem tt) (Slab.mem ts) (base s)) as E.
  exact (f_equal (fun h => mk h (Slab.slab_caches ts) (Tlsf.with_mem (fun _ => ∅) tt) (kernel_heap_hot_loop_depth s)
    (kernel_heap_hot_loop_violation_count s) (kernel_heap_hot_loop_bounded_count s)) E).
Qed.

Lemma slab_view_boot s : slab_caches s = Slab.slab_caches (Slab.boot ∅) -> slab_view s = Slab.boot (memory (base s)).
Proof. intros E. unfold slab_view. by rewrite E. Qed.

(** The three parts on the frames of a finished boot pool. *)
Lemma boot_parts s F O M pool TP TG G :
  booting (base s) F O M (in_static_pool pool) TP TG G -> pool mod 8 = 0 ->
  0xC0000000 <= pool -> pool + KERNEL_HEAP_CLIENT_TLSF_POOL_SIZE <= 0xD0000000 ->
  slab_caches s = Slab.slab_caches (Slab.boot ∅) ->
  exists ts, kernel_slab_initialize (virt_of <$> TP) (slab_view s) = Some ts /\
    client_heap_inv (with_tlsf (snd (kernel_tlsf_initialize pool KERNEL_HEAP_CLIENT_TLSF_POOL_SIZE
                       (tlsf_view (with_slab ts s)))) (with_slab ts s)) [].
Proof.
  intros Hb Hpa Hp1 Hp2 Hsl. pose proof Hb as [_ _ _ Ht Hnd _ _ _]. apply NoDup_app in Hnd as (Hnd & _).
  assert (HTP : forall f, f ∈ TP -> 0 < f < 2 ^ 16) by (intros f Hf; apply Ht; set_solver).
  destruct (slab_pages TP Hnd HTP) as [Hpg Hpnd].
  destruct (slab_initialize_spec (virt_of <$> TP) (memory (base s)) Hpg Hpnd) as (ts & so & sf & Hs & Hok & _ & Hin & Hms).
  exists ts. rewrite slab_view_boot by done. split; [exact Hs|].
  destruct (initialize_spec pool KERNEL_HEAP_CLIENT_TLSF_POOL_SIZE (tlsf_view (with_slab ts s)))
    as (tt & -> & Hti & _ & E1 & E2 & Hmt); [lia|done|apply pool_size_ok|apply pool_size_ok|lia|].
  cbn [snd]. rewrite tlsf_mem_slab in Hmt. rewrite with_tlsf_slab.
  exists (mkGhost F O M so sf ∅ G (fun x => 0xC0000000 <= x < 0xD0000000 /\ frame_of x ∈ TG)), [].
  split; [|split; [constructor; constructor|reflexivity]].
  apply (boot_core (base s) F O M pool TP TG G ts so sf tt); [exact Hb|exact Hok| | |exact Hti| |exact E1|exact E2].
  - intros p o Hp. destruct (Hin p o Hp) as (page & (f & -> & Hf)%list_elem_of_fmap & Hr). by exists f.
  - intros x Hx. destruct (Hms x) as [|(page & (f & -> & Hf)%list_elem_of_fmap & Hr)]; [done|].
    exfalso. apply Hx. specialize (HTP f Hf). rewrite (virt_of_frame f x) by done. unfold virt_of in Hr. split; [done|lia].
  - exact Hmt.
Qed.

Lemma initialize_heap s F O M pool :
  vmm_inv (vm (base s)) F O M -> (forall f, f ∈ F -> f < 2 ^ 16) -> pool_place (base s) F M pool ->
  slab_caches s = Slab.slab_caches (Slab.boot ∅) ->
  exists s', kernel_heap_initialize pool s = Some s' /\ client_heap_inv s' [] /\ kernel_heap_hot_loop_depth s' = 0.
Proof.
  intros Hv Hlow Hpool Hsl. set (h0 := mkCommon 0 0 0 0 0 0 true (vm (base s))).
  assert (Hp0 : pool_place h0 F M pool) by (by destruct Hpool). destruct Hpool as [Hpa [Hp1 Hp2] _].
  destruct (boot_pool_loop_spec (in_static_pool pool) M (Z.to_nat KERNEL_HEAP_CLIENT_BOOT_POOL_PAGES) h0 F O [] [] [])
    as (h & F' & O' & TP & TG & G & Hloop & Hb); [by apply boot_start|].
  unfold kernel_heap_initialize, kernel_heap_build_client_boot_pool. fold h0. cbn [base].
  change (virt_of <$> []) with (@nil Z) in Hloop. rewrite Hloop. cbn [mbind option_bind]. rewrite slab_boot_step.
  destruct (boot_parts (with_base h (mk h0 (slab_caches s) (tlsf_control s) 0 0 0)) F' O' M pool TP TG G)
    as (ts & -> & Hinv); [done..|]. cbn [mbind option_bind]. eexists. split; [reflexivity|].
  split; [exact Hinv|reflexivity].
Qed.

(** ** The words of live regions *)

(** The word a pointer of the kernel reads. *)
Definition load (x : Z) h : option Z := c ← cell x h; Some (zget (memory h) c).

Definition words_kept (L : list region) s s' : Prop :=
  forall r x, r ∈ L -> r.1 <= x < r.1 + r.2 -> load x (base s') = load x (base s).

Lemma cell_word s g b x : core s g -> owns g b -> within (ext b) x -> cell x (base s) = place g x.
Proof.
  intros Hc Ho Hx. destruct (owned_cases _ _ _ _ Hc Ho Hx) as [Hz|(j & o & f & -> & Hj & Hoo & Hf & Hp)].
  - destruct (co_zone _ _ Hc x Hz) as [[? _] _]. rewrite place_direct, cell_direct by lia. done.
  - pose proof (co_vm _ _ Hc) as Hv. rewrite Hp. rewrite vmm_page_count in Hj.
    pose proof (data_frame_range _ _ _ _ (vi_pages _ _ _ _ Hv) (vi_data _ _ _ _ Hv j f Hf)).
    unfold cell, KERNEL_VMM_DYNAMIC_START, KERNEL_VMM_DYNAMIC_END.
    rewrite (proj2 (Z.leb_le _ _)), (proj2 (Z.ltb_lt _ _)) by (unfold page_virt; lia). cbn [andb].
    rewrite (translate_inside _ _ _ (page_virt j) f o (vi_pages _ _ _ _ Hv)); try lia;
      [|unfold page_virt; lia|unfold page_virt; Z.to_euclidean_division_equations; lia|by apply (vi_mapped _ _ _ _ Hv)].
    cbn [mbind option_bind]. unfold kernel_heap_phys_to_virt, KERNEL_VIRTUAL_BASE. rewrite add32_small by lia. f_equal. lia.
Qed.

Lemma keeps_words s g B s' g' :
  core s g -> blocks_ok s g B -> core s' g' -> Forall (owns g') B ->
  Forall (keeps g (memory (base s)) g' (memory (base s'))) B -> words_kept (region_of <$> B) s s'.
Proof.
  intros Hc [Ho _ Hf _] Hc' Ho' Hk r x (b & -> & Hb)%list_elem_of_fmap Hx. rewrite Forall_forall in *.
  destruct (Hf b Hb) as [_ Hfit]. assert (Hw : within (ext b) x) by (unfold within, ext, region_of in *; cbn in *; lia).
  unfold load. rewrite (cell_word s' g' b), (cell_word s g b) by auto. destruct (Hk b Hb x Hw) as [-> Hm].
  destruct (place g x) as [c|]; [|done]. cbn [mbind option_bind]. by rewrite Hm.
Qed.

(** ** The interface *)

Lemma fits_separate B : separate (ext <$> B) -> Forall fits_block B -> separate (region_of <$> B).
Proof.
  induction B as [|b B IH]; [done|]. rewrite !fmap_cons. intros (Hr & Ha & Hs) [Hf HB]%Forall_cons. cbn [separate].
  split_and!; [|apply Forall_fmap; rewrite Forall_fmap in Ha; rewrite Forall_forall in *; intros b' Hb'|by apply IH].
  - unfold region_ok, region_of, ext, fits_block in *. cbn in *. lia.
  - specialize (Ha b' Hb'). specialize (HB b' Hb'). unfold apart, region_of, ext, fits_block in *. cbn in *. lia.
Qed.

Lemma client_separate s L : client_heap_inv s L -> separate L.
Proof. intros (g & B & _ & HB & ->). apply fits_separate; apply HB. Qed.

Lemma client_malloc_step s L t0 t1 size :
  client_heap_inv s L -> 0 < size <= client_limit ->
  exists p s', kmalloc t0 t1 size s = Some (p, s') /\ words_kept L s s' /\
    client_heap_inv s' (if p =? 0 then L else (p, size) :: L).
Proof.
  intros (g & B & Hc & HB & ->) Hs. destruct (client_kmalloc s g B t0 t1 size Hc HB Hs) as (p & s' & He & Ha).
  exists p, s'. split; [done|]. unfold answered in Ha. destruct (p =? 0).
  - destruct Ha as (g' & Hmv). pose proof (moved_blocks _ _ _ _ _ Hc HB Hmv) as HB'. destruct Hmv as (Hc' & Ho' & Hk').
    split; [by eapply keeps_words|]. by exists g', B.
  - destruct Ha as (b & (g' & Hc' & HB' & Hk') & Hr). split.
    + eapply keeps_words; try done. by apply (Forall_cons_1 _ b B), (bo_owns _ _ _ HB').
    + exists g', (b :: B). split_and!; [done..|]. by rewrite fmap_cons, Hr.
Qed.

Lemma client_free_step s L1 p size L2 t0 t1 :
  client_heap_inv s (L1 ++ (p, size) :: L2) ->
  exists s', kfree t0 t1 p s = Some s' /\ words_kept (L1 ++ L2) s s' /\ client_heap_inv s' (L1 ++ L2).
Proof.
  intros (g & B & Hc & HB & E). symmetry in E. apply fmap_app_inv in E as (B1 & B' & E1 & E2 & ->).
  symmetry in E2. apply fmap_cons_inv in E2 as (b & B2 & Eb & -> & ->). rewrite E1.
  unfold region_of in Eb. injection Eb as -> ->.
  destruct (client_kfree s g B1 b B2 t0 t1 Hc HB) as (s' & g' & He & Hmv).
  pose proof (blocks_remove _ _ _ _ _ HB) as HB1. pose proof (moved_blocks _ _ _ _ _ Hc HB1 Hmv) as HB'.
  destruct Hmv as (Hc' & Ho' & Hk'). exists s'. split; [done|]. rewrite <- fmap_app.
  split; [by eapply keeps_words|]. by exists g', (B1 ++ B2).
Qed.

End boot.

(** The client's heap meets the interface: what was proved of the arenas, the
    pools and the model memory over any lawful heap holds on this one.  The
    time stamps read during a call may be any function of the state. *)
Section laws.
Context {A : Type} `{FrameAllocator A} (clock : client A -> Z * Z).

#[local] Instance client_ops : HeapOps (client A) := {
  HeapInterface.kmalloc size s := Client.kmalloc (clock s).1 (clock s).2 size s;
  HeapInterface.kfree p s := Client.kfree (clock s).1 (clock s).2 p s }.

#[local] Program Instance client_laws : HeapLaws (client A) := {
  heap_limit := client_limit;
  heap_inv := client_heap_inv }.
Next Obligation. by vm_compute. Qed.
Next Obligation. intros s L. apply client_separate. Qed.
Next Obligation.
  intros s L size Hinv Hs. destruct (client_malloc_step s L (clock s).1 (clock s).2 size Hinv Hs) as (p & s' & He & _ & Hi).
  exists p, s'. split; [exact He|]. by destruct (p =? 0).
Qed.
Next Obligation.
  intros s L1 L2 p size Hinv. destruct (client_free_step s L1 p size L2 (clock s).1 (clock s).2 Hinv) as (s' & He & _ & Hi).
  by exists s'.
Qed.
End laws.

(** ** The theorems *)

Section theorems.
Context {A : Type} `{FrameAllocator A}.

(** C5: The client's [kmalloc] and [kfree] are memory safe across the slab
    caches, TLSF, whole pages and the first-fit list, which share one memory.
    While the invariant holds, live regions are apart; every request of at
    most 57328 bytes returns, with NULL or a new region apart from all live
    ones; every release of a live region returns; and neither changes a word
    that can be read through another live region. *)
Theorem client_heap_sound (s : client A) (L : list region) :
  client_heap_inv s L ->
  separate L /\
  (forall t0 t1 size, 0 < size <= client_limit ->
     exists p s', Client.kmalloc t0 t1 size s = Some (p, s') /\ words_kept L s s' /\
       client_heap_inv s' (if p =? 0 then L else (p, size) :: L)) /\
  (forall t0 t1 L1 p size L2, L = L1 ++ (p, size) :: L2 ->
     exists s', Client.kfree t0 t1 p s = Some s' /\ words_kept (L1 ++ L2) s s' /\ client_heap_inv s' (L1 ++ L2)).
Proof.
  intros Hinv. split_and!; [by eapply client_separate| |].
  - intros t0 t1 size Hs. by apply client_malloc_step.
  - intros t0 t1 L1 p size L2 ->. by eapply client_free_step.
Qed.

(** C6: Initialising the client's heap succeeds with any number of free
    frames, as long as they lie below 256 MiB and the static pool of TLSF is
    neither free nor a page table; afterwards nothing is live. *)
Theorem client_heap_initialize (s : client A) F O M pool :
  vmm_inv (vm (base s)) F O M -> (forall f, f ∈ F -> f < 2 ^ 16) -> pool_place (base s) F M pool ->
  slab_caches s = Slab.slab_caches (Slab.boot ∅) ->
  exists s', Client.kernel_heap_initialize pool s = Some s' /\ client_heap_inv s' [].
Proof.
  intros Hv Hlow Hp Hs. destruct (initialize_heap s F O M pool Hv Hlow Hp Hs) as (s' & He & Hinv & _). by exists s'.
Qed.

(** Inside a hot loop an allocation takes bounded paths only: it changes
    words of memory outside the live regions, but neither the frame allocator, the page tables, the
    bitmap of the dynamic range nor the list; it counts one bounded operation,
    or fails with NULL and counts one violation. *)
Theorem hot_loop_allocation_bounded (s : client A) (L : list region) t0 t1 size :
  client_heap_inv s L -> in_hot_loop s = true -> 0 < size <= client_limit ->
  exists p s', Client.kmalloc t0 t1 size s = Some (p, s') /\ words_kept L s s' /\ bounded_only s s' /\
    ((kernel_heap_hot_loop_bounded_count s' = kernel_heap_hot_loop_bounded_count s ⊞ 1 /\
      kernel_heap_hot_loop_violation_count s' = kernel_heap_hot_loop_violation_count s) \/
     (p = 0 /\ kernel_heap_hot_loop_bounded_count s' = kernel_heap_hot_loop_bounded_count s /\
      kernel_heap_hot_loop_violation_count s' = kernel_heap_hot_loop_violation_count s ⊞ 1)).
Proof.
  intros Hinv Hh Hs. destruct (client_malloc_step s L t0 t1 size Hinv Hs) as (p & s' & He & Hw & _).
  exists p, s'. split; [exact He|]. split; [exact Hw|]. destruct Hinv as (g & B & Hc & _).
  apply (hot_loop_counts s t0 t1 size p s' Hh (co_init _ _ Hc)); [lia|exact He].
Qed.

End theorems.

(** ** A machine with twelve free frames *)

Section example.
#[local] Instance boot_frames : FrameAllocator FreeList.freelist :=
  client_frames Numa.numa_boot 0 Numa.numa_boot_wf zero_local.

Definition boot_frame_list : list Z := [0x800; 0x801; 0x802; 0x803; 0x804; 0x805; 0x806; 0x807; 0x808; 0x809; 0x80A; 0x80B].

Definition stocked : FreeList.freelist :=
  foldr (fun f a => default a (page_frame_free (4096 * f) a)) FreeListProofs.example_list boot_frame_list.

Lemma stock_inv (fs : list Z) : forall a, NoDup fs -> (forall f, f ∈ fs -> 0 < f < 2 ^ 18) ->
  fa_inv a ∅ (list_to_set fs) ->
  fa_inv (foldr (fun f a => default a (page_frame_free (4096 * f) a)) a fs) (list_to_set fs) ∅.
Proof.
  intros a Hnd Hr Ha.
  assert (H : forall gs, gs ⊆ fs -> NoDup gs ->
    fa_inv (foldr (fun f a => default a (page_frame_free (4096 * f) a)) a gs) (list_to_set gs)
      (list_to_set fs ∖ list_to_set gs)).
  { induction gs as [|f gs IH]; intros Hsub Hnd'.
    - cbn [foldr list_to_set]. rewrite difference_empty_L. done.
    - apply NoDup_cons in Hnd' as [Hf Hnd']. cbn [foldr]. assert (Hin : f ∈ fs) by (apply Hsub; left).
      assert (Hd : 4096 * f / 4096 = f) by (rewrite Z.mul_comm; by apply Z.div_mul).
      destruct (fa_free _ _ _ (4096 * f) (IH ltac:(set_solver) Hnd')) as (a' & -> & Ha' & _).
      { specialize (Hr f Hin). split_and!; try lia. change (block_bytes 0) with 4096. rewrite Z.mul_comm. by apply Z.mod_mul. }
      { rewrite Hd. set_solver. }
      rewrite Hd in Ha'. cbn [default list_to_set from_option id].
      replace (list_to_set fs ∖ ({[f]} ∪ list_to_set gs)) with ((list_to_set fs ∖ list_to_set gs) ∖ {[f]} : gset Z)
        by set_solver. done. }
  specialize (H fs ltac:(done) Hnd). by rewrite difference_diag_L in H.
Qed.

Lemma stocked_inv : fa_inv stocked (list_to_set boot_frame_list) ∅.
Proof.
  apply stock_inv.
  - unfold boot_frame_list. repeat (apply NoDup_cons; split; [rewrite ?elem_of_cons, elem_of_nil; lia|]). constructor.
  - intros f. unfold boot_frame_list. rewrite !elem_of_cons, elem_of_nil. lia.
  - destruct FreeListProofs.example_list_inv as [L HL]. split_and!.
    + exists L, ∅. split; [done|set_solver].
    + set_solver.
    + intros i. rewrite elem_of_list_to_set. unfold boot_frame_list. rewrite !elem_of_cons, elem_of_nil. lia.
Qed.

#[local] Opaque stocked.

Definition boot_vmm : vmm FreeList.freelist := mkVmm ∅ 0 true (mkPaging true ∅ ∅ 0 0 stocked).

Definition boot_client : client FreeList.freelist :=
  mk (mkCommon 0 0 0 0 0 0 false boot_vmm) (Slab.slab_caches (Slab.boot ∅)) TlsfCorrect.cold 0 0 0.

Lemma boot_vmm_inv : vmm_inv boot_vmm (list_to_set boot_frame_list) ∅ ∅.
Proof. apply blank_vmm_inv, blank_paging_inv, stocked_inv. Qed.

Lemma boot_frames_low f : f ∈ (list_to_set boot_frame_list : gset Z) -> f < 2 ^ 16 /\ 0x800 <= f.
Proof. rewrite elem_of_list_to_set. unfold boot_frame_list. rewrite !elem_of_cons, elem_of_nil. lia. Qed.

(** The static pool lies in the image of the kernel, at 1 MiB. *)
Lemma boot_pool_place : pool_place (base boot_client) (list_to_set boot_frame_list) ∅ 0xC0100000.
Proof.
  constructor; [reflexivity|unfold KERNEL_HEAP_CLIENT_TLSF_POOL_SIZE; lia|]. intros x Hx. split; [|by intros j].
  split_and!.
  - intros Hf%boot_frames_low. unfold frame_of, KERNEL_HEAP_CLIENT_TLSF_POOL_SIZE in *. Z.to_euclidean_division_equations; lia.
  - intros i _ Hi. destruct Hi. unfold get_pde. cbn [directory]. rewrite zget_empty. reflexivity.
  - done.
Qed.

Lemma client_heap_initialize_witness :
  exists s', Client.kernel_heap_initialize 0xC0100000 boot_client = Some s' /\ client_heap_inv s' [].
Proof.
  apply (client_heap_initialize boot_client (list_to_set boot_frame_list) ∅ ∅ 0xC0100000).
  - apply boot_vmm_inv.
  - intros f Hf. apply boot_frames_low, Hf.
  - apply boot_pool_place.
  - reflexivity.
Defined.

Lemma hundred_ok : 0 < 100 <= client_limit.
Proof. split; [lia|by vm_compute]. Qed.

(** The hypothesis of the theorem holds after boot. *)
Lemma client_heap_sound_witness :
  exists s, Client.kernel_heap_initialize 0xC0100000 boot_client = Some s /\
    exists p s', Client.kmalloc 0 0 100 s = Some (p, s') /\ client_heap_inv s' (if p =? 0 then [] else [(p, 100)]).
Proof.
  destruct (initialize_heap boot_client (list_to_set boot_frame_list) ∅ ∅ 0xC0100000) as (s & Hs & Hinv & _).
  - apply boot_vmm_inv.
  - intros f Hf. apply boot_frames_low, Hf.
  - apply boot_pool_place.
  - reflexivity.
  - exists s. split; [exact Hs|]. destruct (client_heap_sound s [] Hinv) as (_ & Hm & _).
    destruct (Hm 0 0 100 hundred_ok) as (p & s' & He & _ & Hi). exists p, s'. split; [exact He|exact Hi].
Defined.

(** One allocation of a hot loop entered right after boot. *)
Lemma hot_loop_allocation_bounded_witness :
  exists s, Client.kernel_heap_initialize 0xC0100000 boot_client = Some s /\
    exists p s', Client.kmalloc 0 0 100 (kernel_heap_hot_loop_enter s) = Some (p, s') /\
      bounded_only (kernel_heap_hot_loop_enter s) s'.
Proof.
  destruct (initialize_heap boot_client (list_to_set boot_frame_list) ∅ ∅ 0xC0100000) as (s & Hs & Hinv & Hd).
  - apply boot_vmm_inv.
  - intros f Hf. apply boot_frames_low, Hf.
  - apply boot_pool_place.
  - reflexivity.
  - exists s. split; [exact Hs|].
    destruct (hot_loop_allocation_bounded (kernel_heap_hot_loop_enter s) [] 0 0 100) as (p & s' & He & _ & Hb & _).
    + destruct Hinv as (g & B & Hc & [] & E). exists g, B. split; [|split; [by constructor|exact E]].
      by apply (core_counters s).
    + unfold in_hot_loop. cbn [kernel_heap_hot_loop_depth kernel_heap_hot_loop_enter]. rewrite Hd. reflexivity.
    + apply hundred_ok.
    + exists p, s'. split; [exact He|exact Hb].
Defined.

End example.
