(* ===== verification/HeapServer.v ===== *)
(** * What the server's heap does with released memory

    Closed runs of the server profile of heap.c over the buddy allocator, and
    the overlap of the direct map with the dynamic range that bounds the
    memory the heap is sound for. *)

From S2P Require Import Prelude Cpu Pmm BuddyProofs BuddySpec FrameAlloc Paging PagingProofs Vmm VmmProofs.
From S2P Require Import HeapInterface Slab Tlsf Heap.

Section server.
#[local] Existing Instance example_frames.
Import Server.

(** A machine with 28 free frames whose heap was just initialised. *)
Definition server_boot : server Buddy.buddy :=
  kernel_heap_initialize (mk (mkCommon 0 0 0 0 0 0 false example_vmm) example_topology [] 0 [] []).

(** [n] rounds of an allocation followed by its release; the rounds left when
    an allocation fails. *)
Fixpoint churn (n : nat) (size : Z) (s : server Buddy.buddy) : option (nat * server Buddy.buddy) :=
  match n with
  | O => Some (O, s)
  | S n' =>
      '(p, s) ← kmalloc Numa.numa_boot size s;
      if p =? 0 then Some (n, s) else s ← kfree p s; churn n' size s
  end.

(** Without the debug canaries a header of a size-class block carries no canary,
    and the check at the head of [kfree] rejects it unless the memory held one by
    chance.  With 28 free frames, allocating and releasing 512 bytes over and over
    exhausts the memory in the 113th round, with all 112 releases rejected. *)
Lemma server_heap_leaks :
  exists s, churn 200 512 server_boot = Some (88%nat, s) /\
    kernel_heap_rejected_free_count (base s) = 112 /\ kernel_heap_double_free_count (base s) = 0.
Proof.
  assert (H : (fun r : nat * server Buddy.buddy =>
      (r.1, kernel_heap_rejected_free_count (base r.2), kernel_heap_double_free_count (base r.2)))
    <$> churn 200 512 server_boot = Some (88%nat, 112, 0)) by (vm_compute; reflexivity).
  destruct (churn 200 512 server_boot) as [[n s]|]; [|discriminate]. cbn [fmap option_fmap option_map fst snd] in H.
  injection H as -> H1 H2. exists s. split_and!; [reflexivity|exact H1|exact H2].
Qed.

End server.

(** The domain chosen with [kernel_heap_set_server_active_domain] is forgotten
    by the next allocation: the local domain is the logical slot, and it is
    what the active domain becomes. *)
Lemma active_domain_forgotten {A} `{FrameAllocator A} (s : Server.server A) d :
  let s1 := snd (Server.kernel_heap_set_server_active_domain d s) in
  let '(i, s2) := Server.kernel_heap_server_get_local_domain_index s1 in
  Server.kernel_heap_server_active_domain s2 = i /\
  i = let slot := fst (Cpu.Topology.cpu_topology_get_logical_slot (Server.topo s1)) in
      if Server.KERNEL_HEAP_SERVER_DOMAINS <=? slot then 0 else slot.
Proof.
  cbv zeta. unfold Server.kernel_heap_server_get_local_domain_index.
  destruct (Topology.cpu_topology_get_logical_slot _) as [slot t]. done.
Qed.

(** The direct map of physical memory from 256 MiB on is the dynamic range of
    the virtual memory manager: [physical_memory_manager_extend_mapping] maps
    a frame there that a later allocation of pages maps elsewhere. *)
Lemma direct_map_overlaps f :
  2 ^ 16 <= f < 2 ^ 18 -> f < 2 ^ 16 + VMM_PAGE_COUNT ->
  pmm_phys_to_virt (4096 * f) = page_virt (f - 2 ^ 16) /\ 0 <= f - 2 ^ 16 < VMM_PAGE_COUNT.
Proof.
  rewrite vmm_page_count. intros Hf Hf'. unfold pmm_phys_to_virt, KERNEL_VIRTUAL_BASE, page_virt.
  rewrite add32_small by lia. lia.
Qed.
