(* ===== verification/Cxx.v ===== *)
(** * The C++ runtime of the engine module

    Models libkxx/src/cxx_runtime.cpp (operator new and delete over [kmalloc]
    and [kfree]), libkxx/src/support.cpp and the allocator of
    libkxx/include/kstd/allocator.hpp.  The world has the heap, the words that
    hold the headers of aligned blocks, the storage handed out and the objects
    whose lifetime has begun: touching anything else is undefined. *)

From S2P Require Import Prelude HeapInterface Arena.

(** ** Effects *)

(** A call returns, masks interrupts and halts for ever, or has no defined
    behaviour. *)
Inductive outcome (A : Type) := Returns (a : A) | Halts | Undefined.
Arguments Returns {A} a.
Arguments Halts {A}.
Arguments Undefined {A}.

Definition prog (W A : Type) : Type := W -> outcome (A * W).

#[global] Instance prog_ret {W} : MRet (prog W) := fun A a w => Returns (a, w).
#[global] Instance prog_bind {W} : MBind (prog W) := fun A B f m w =>
  match m w with
  | Returns (a, w) => f a w
  | Halts => Halts
  | Undefined => Undefined
  end.

(** [kernel_cxx_fatal] of the runtime and [kstd::fatal]. *)
Definition kernel_cxx_fatal {W A} : prog W A := fun _ => Halts.
Definition fatal {W A} : prog W A := fun _ => Halts.

Definition undefined {W A} : prog W A := fun _ => Undefined.

(** [wp E m Q w]: from [w] the program [m] has defined behaviour; it returns
    in a state that satisfies [Q], or halts, which needs [E]. *)
Definition wp {W A} (E : Prop) (m : prog W A) (Q : A -> W -> Prop) (w : W) : Prop :=
  match m w with
  | Returns (a, w) => Q a w
  | Halts => E
  | Undefined => False
  end.

Section wp.
Context {W : Type}.
Implicit Types (w : W).

Lemma wp_ret {A} E (a : A) Q w : Q a w -> wp E (mret a) Q w.
Proof. done. Qed.

Lemma wp_bind {A B} E (m : prog W A) (f : A -> prog W B) Q w :
  wp E m (fun a => wp E (f a) Q) w -> wp E (m ≫= f) Q w.
Proof. unfold wp, mbind, prog_bind. destruct (m w) as [[a w']| |]; done. Qed.

Lemma wp_mono {A} (E E' : Prop) (m : prog W A) (Q Q' : A -> W -> Prop) w :
  wp E m Q w -> (E -> E') -> (forall a w', Q a w' -> Q' a w') -> wp E' m Q' w.
Proof. unfold wp. destruct (m w) as [[a w']| |]; auto. Qed.

Lemma wp_weaken {A} (E E' : Prop) (m : prog W A) (Q : A -> W -> Prop) w :
  wp E m Q w -> (E -> E') -> wp E' m Q w.
Proof. intros H HE. by eapply wp_mono. Qed.

(** With nothing to halt for, the call returns. *)
Lemma wp_total {A} (m : prog W A) Q w : wp False m Q w -> exists a w', m w = Returns (a, w') /\ Q a w'.
Proof. unfold wp. destruct (m w) as [[a w']| |]; [eauto|done|done]. Qed.

End wp.

(** ** The world *)

Record world (H O : Type) := World {
  heap : H;
  words : zmap;
  storage : zmap;
  objects : gmap Z O }.
Arguments World {H O} heap words storage objects.
Arguments heap {H O} w.
Arguments words {H O} w.
Arguments storage {H O} w.
Arguments objects {H O} w.

Section operations.
Context {H O : Type} `{HeapOps H}.
Implicit Types (w : world H O).

Definition call_kmalloc (size : Z) : prog (world H O) Z := fun w =>
  match kmalloc size (heap w) with
  | Some (p, h) => Returns (p, World h (words w) (storage w) (objects w))
  | None => Undefined
  end.
Definition call_kfree (p : Z) : prog (world H O) unit := fun w =>
  match kfree p (heap w) with
  | Some h => Returns (tt, World h (words w) (storage w) (objects w))
  | None => Undefined
  end.

(** [AlignedAllocationHeader] below an aligned block. *)
Definition set_base_pointer (p base : Z) : prog (world H O) unit := fun w =>
  Returns (tt, World (heap w) (<[p ⊟ 4 := base]> (words w)) (storage w) (objects w)).
Definition base_pointer (p : Z) : prog (world H O) Z := fun w => Returns (zget (words w) (p ⊟ 4), w).

Definition allocate_aligned (size alignment : Z) : prog (world H O) Z :=
  let alignment := if alignment <? 4 then 4 else alignment in
  let overhead := (4 ⊞ alignment) ⊟ 1 in
  base ← call_kmalloc (size ⊞ overhead);
  if base =? 0 then kernel_cxx_fatal
  else
    let raw := base ⊞ 4 in
    let raw := Z.land (raw ⊞ (alignment ⊟ 1)) (not32 (alignment ⊟ 1)) in
    _ ← set_base_pointer raw base;
    mret raw.

Definition free_aligned (pointer : Z) : prog (world H O) unit :=
  if pointer =? 0 then mret tt
  else base ← base_pointer pointer; call_kfree base.

(** The operators; [operator new[]], the sized and the nothrow deletes have
    the same bodies. *)
Definition operator_new (size : Z) : prog (world H O) Z :=
  pointer ← call_kmalloc (if size =? 0 then 1 else size);
  if pointer =? 0 then kernel_cxx_fatal else mret pointer.
Definition operator_new_nothrow (size : Z) : prog (world H O) Z := call_kmalloc (if size =? 0 then 1 else size).
Definition operator_delete (pointer : Z) : prog (world H O) unit := call_kfree pointer.
Definition operator_new_aligned (size alignment : Z) : prog (world H O) Z :=
  allocate_aligned (if size =? 0 then 1 else size) alignment.
Definition operator_delete_aligned (pointer : Z) : prog (world H O) unit := free_aligned pointer.

(** Storage begins and ends with the allocator calls of the containers; the
    objects left in it end with it. *)
Definition begin_storage (p n : Z) : prog (world H O) unit := fun w =>
  Returns (tt, World (heap w) (words w) (<[p := n]> (storage w)) (objects w)).
Definition end_storage (p : Z) : prog (world H O) unit := fun w =>
  match storage w !! p with
  | Some n => Returns (tt, World (heap w) (words w) (delete p (storage w))
                             (filter (fun e => ~ p <= e.1 < p + n) (objects w)))
  | None => Undefined
  end.

(** [KernelAllocator<T>] for a type of size [sz] and alignment [al]. *)
Definition allocate (sz al count : Z) : prog (world H O) Z :=
  if count =? 0 then mret 0
  else if (2 ^ 32 - 1) / sz <? count then fatal
  else
    block ← operator_new_aligned (count ⊠ sz) al;
    _ ← begin_storage block (count ⊠ sz);
    mret block.
Definition deallocate (pointer : Z) : prog (world H O) unit :=
  _ ← end_storage pointer;
  operator_delete_aligned pointer.

(** Placement new of an object of size [sz], its destructor, and access to a
    living object. *)
Definition in_storage (sz a : Z) w : bool :=
  existsb (fun e => (e.1 <=? a) && (a + sz <=? e.1 + e.2)) (map_to_list (storage w)).
Definition construct (sz a : Z) (o : O) : prog (world H O) unit := fun w =>
  if in_storage sz a w then Returns (tt, World (heap w) (words w) (storage w) (<[a := o]> (objects w)))
  else Undefined.
Definition destroy (a : Z) : prog (world H O) unit := fun w =>
  match objects w !! a with
  | Some _ => Returns (tt, World (heap w) (words w) (storage w) (delete a (objects w)))
  | None => Undefined
  end.
Definition read (a : Z) : prog (world H O) O := fun w =>
  match objects w !! a with
  | Some o => Returns (o, w)
  | None => Undefined
  end.
Definition assign (a : Z) (o : O) : prog (world H O) unit := fun w =>
  match objects w !! a with
  | Some _ => Returns (tt, World (heap w) (words w) (storage w) (<[a := o]> (objects w)))
  | None => Undefined
  end.

End operations.

(** ** Invariant *)

(** A block of storage: the payload, and the [kmalloc] region it is cut from. *)
Record block := Block { pay : region; raw : region }.

Definition block_ok (b : block) : Prop :=
  0 < (pay b).2 /\ (raw b).1 + 4 <= (pay b).1 /\ (pay b).1 + (pay b).2 <= (raw b).1 + (raw b).2.

Definition within (r : region) (a : Z) : Prop := r.1 <= a < r.1 + r.2.

Section invariant.
Context {H O : Type} `{HeapLaws H}.
Implicit Types (w : world H O) (B R : list block).

(** The live blocks are exactly [B], in any order: their regions are the live
    regions of the heap, the word below each payload points to its region, and
    objects live in storage only. *)
Record cxx_inv w B : Prop := {
  ci_heap : exists L, heap_inv (heap w) L /\ L ≡ₚ raw <$> B;
  ci_blocks : Forall block_ok B;
  ci_header b : b ∈ B -> zget (words w) ((pay b).1 - 4) = (raw b).1;
  ci_storage p n : storage w !! p = Some n <-> exists b, b ∈ B /\ pay b = (p, n);
  ci_objects a o : objects w !! a = Some o -> exists b, b ∈ B /\ within (pay b) a }.

(** Before the first allocation. *)
Definition fresh_world (h : H) : world H O := World h ∅ ∅ ∅.

Lemma fresh_inv h : heap_inv h [] -> cxx_inv (fresh_world h) [].
Proof.
  intros Hh. split; cbn; [by exists []|done|set_solver| |].
  - intros p n. rewrite lookup_empty. split; [done|]. intros (b & Hb & _). set_solver.
  - intros a o. by rewrite lookup_empty.
Qed.

#[global] Instance separate_perm : Proper ((≡ₚ) ==> iff) separate.
Proof.
  assert (Hone : forall L L', L ≡ₚ L' -> separate L -> separate L').
  { induction 1 as [|r L L' HL IH|r r' L|L L' L'' _ IH _ IH']; cbn [separate]; [done| | |by auto].
    - intros (Hr & Ha & Hs). split_and!; [done|by rewrite <- HL|by apply IH].
    - intros (Hr & [Ha Ha']%Forall_cons & Hr' & Hb & Hs). split_and!; [done| |done|done|done].
      apply Forall_cons. split; [|done]. unfold apart in *. lia. }
  intros L L' HL. split; apply Hone; [done|by symmetry].
Qed.

Lemma inv_separate w B : cxx_inv w B -> separate (raw <$> B).
Proof. intros []. destruct ci_heap0 as (L & Hi & <-). by eapply heap_separate. Qed.

(** Payloads are apart because their regions are. *)
Lemma inv_apart w B b B' : cxx_inv w B -> B ≡ₚ b :: B' -> Forall (fun b' => apart (raw b) (raw b')) B'.
Proof.
  intros Hi HB. pose proof (inv_separate _ _ Hi) as Hs. rewrite HB in Hs. rewrite fmap_cons in Hs.
  destruct Hs as (_ & Ha & _). by rewrite Forall_fmap in Ha.
Qed.

Lemma inv_region w B b : cxx_inv w B -> b ∈ B -> block_ok b /\ region_ok (raw b).
Proof.
  intros Hi Hb. pose proof (inv_separate _ _ Hi) as Hs. destruct Hi.
  rewrite Forall_forall in ci_blocks0. split; [by apply ci_blocks0|].
  apply list_elem_of_split in Hb as (B1 & B2 & ->). rewrite fmap_app in Hs.
  apply separate_app in Hs as [_ Hs]. by destruct Hs.
Qed.

Lemma inv_pay w B b : cxx_inv w B -> b ∈ B ->
  4 < (pay b).1 /\ 0 < (pay b).2 /\ (pay b).1 + (pay b).2 < 2 ^ 32.
Proof. intros Hi Hb. destruct (inv_region _ _ _ Hi Hb) as [(? & ? & ?) (? & ? & ?)]. lia. Qed.

#[global] Instance cxx_inv_perm w : Proper ((≡ₚ) ==> iff) (cxx_inv w).
Proof.
  assert (Hone : forall B B', B ≡ₚ B' -> cxx_inv w B -> cxx_inv w B').
  { intros B B' HB []. split.
    - destruct ci_heap0 as (L & Hi & HL). exists L. split; [done|]. by rewrite HL, HB.
    - by rewrite <- HB.
    - intros b Hb. apply ci_header0. by rewrite HB.
    - intros p n. rewrite ci_storage0. by setoid_rewrite HB.
    - intros a o Ho. destruct (ci_objects0 a o Ho) as (b & Hb & ?). exists b. by rewrite <- HB. }
  intros B B' HB. split; apply Hone; [done|by symmetry].
Qed.

(** Blocks that are not named keep their objects. *)
Definition frame R w w' : Prop :=
  forall b a, b ∈ R -> within (pay b) a -> objects w' !! a = objects w !! a.

Lemma frame_refl R w : frame R w w.
Proof. done. Qed.

Lemma frame_trans R w w' w'' : frame R w w' -> frame R w' w'' -> frame R w w''.
Proof. intros Hf Hf' b a Hb Ha. rewrite (Hf' b a), (Hf b a); done. Qed.

Lemma frame_sub R R' w w' : R ⊆ R' -> frame R' w w' -> frame R w w'.
Proof. intros HR Hf b a Hb. apply Hf. by apply HR. Qed.

(** ** The allocator *)

(** What an aligned request asks of [kmalloc]. *)
Definition overhead (al : Z) : Z := 4 + Z.max 4 al - 1.

(** Cutting the payload out of the region. *)
Lemma aligned_payload base size k :
  0 <= k < 32 -> 0 < base -> 0 < size -> base + (size + overhead (2 ^ k)) < 2 ^ 32 ->
  let al := if 2 ^ k <? 4 then 4 else 2 ^ k in
  let p := Z.land ((base ⊞ 4) ⊞ (al ⊟ 1)) (not32 (al ⊟ 1)) in
  base + 4 <= p /\ p + size <= base + (size + overhead (2 ^ k)) /\ p mod 2 ^ k = 0.
Proof.
  intros Hk Hb Hs Ht. unfold overhead in Ht. set (al := if 2 ^ k <? 4 then 4 else 2 ^ k). cbn zeta.
  assert (Hal : exists j, k <= j < 32 /\ al = 2 ^ j /\ al = Z.max 4 (2 ^ k)).
  { unfold al. destruct (Z.ltb_spec (2 ^ k) 4).
    - exists 2. split_and!; [|lia|done|lia]. assert (k < 2); [|lia]. apply (Z.pow_lt_mono_r_iff 2); lia.
    - exists k. split_and!; [lia|lia|done|lia]. }
  destruct Hal as (j & Hj & Ej & Em). rewrite <- Em in Ht. unfold overhead. rewrite <- Em.
  assert (Hlt : 4 <= al) by lia. rewrite (add32_small base 4), (sub32_small al 1) by lia.
  destruct (round_up_spec (base + 4) j) as [Hr Hm]; [lia..|]. unfold round_up in Hr, Hm. rewrite <- Ej in Hr, Hm.
  split_and!; [lia|lia|]. rewrite Ej in Hm |- *.
  apply Z.mod_divide in Hm; [|lia]. apply Z.mod_divide; [lia|]. eapply Z.divide_trans; [|exact Hm].
  exists (2 ^ (j - k)). rewrite <- Z.pow_add_r by lia. f_equal. lia.
Qed.

Lemma inv_fresh w B h base total p n :
  cxx_inv w B -> (exists L, heap_inv h ((base, total) :: L) /\ L ≡ₚ raw <$> B) ->
  block_ok (Block (p, n) (base, total)) ->
  cxx_inv (World h (<[p - 4 := base]> (words w)) (<[p := n]> (storage w)) (objects w))
    (Block (p, n) (base, total) :: B).
Proof.
  intros Hi (L & Hh & HL) Hok. pose proof (heap_separate _ _ Hh) as Hs. destruct Hs as (Hro & Ha & _).
  assert (Ha' : forall b, b ∈ B -> apart (base, total) (raw b)).
  { intros b Hb. rewrite Forall_forall in Ha. apply Ha. rewrite HL. by apply list_elem_of_fmap_2. }
  pose proof (fun b => inv_region _ _ b Hi) as Hreg. unfold block_ok, region_ok, apart in *. cbn in *. split; cbn [heap words storage objects].
  - exists ((base, total) :: L). split; [done|]. by rewrite HL.
  - constructor; [done|by apply (ci_blocks _ _ Hi)].
  - intros b [->|Hb]%elem_of_cons; [by rewrite zget_insert_eq|].
    destruct (Hreg b Hb). pose proof (Ha' b Hb). rewrite zget_insert_ne by lia. by apply (ci_header _ _ Hi).
  - intros q m. rewrite lookup_insert_Some, (ci_storage _ _ Hi). split.
    + intros [[<- <-]|(Hne & b & Hb & Hp)]; [by eexists; split; [apply list_elem_of_here|]|].
      exists b. split; [by apply elem_of_cons; right|done].
    + intros (b & [->|Hb]%elem_of_cons & Hp); [left; cbn in Hp; by injection Hp|]. right. split; [|by exists b].
      intros ->. destruct (Hreg b Hb). pose proof (Ha' b Hb). rewrite Hp in *. cbn in *. lia.
  - intros a o Ho. destruct (ci_objects _ _ Hi a o Ho) as (b & Hb & ?). exists b. split; [by apply elem_of_cons; right|done].
Qed.

Lemma allocate_spec w B sz k count :
  cxx_inv w B -> 0 <= k < 32 -> 0 < sz -> 0 < count -> count * sz + overhead (2 ^ k) <= heap_limit H ->
  wp True (allocate sz (2 ^ k) count) (fun p w' => exists b,
    pay b = (p, count * sz) /\ p mod 2 ^ k = 0 /\ cxx_inv w' (b :: B) /\ objects w' = objects w) w.
Proof.
  intros Hi Hk Hsz Hc Hlim. pose proof (heap_limit_le H) as Hll. unfold overhead in Hlim.
  unfold allocate. rewrite (proj2 (Z.eqb_neq count 0)) by lia. rewrite (proj2 (Z.ltb_ge _ _)) by (apply Z.div_le_lower_bound; nia).
  rewrite mul32_small by nia. unfold operator_new_aligned. rewrite (proj2 (Z.eqb_neq _ 0)) by nia.
  set (n := count * sz) in *. assert (Hn : 0 < n) by (unfold n; nia).
  unfold allocate_aligned. set (al := if 2 ^ k <? 4 then 4 else 2 ^ k).
  assert (Hal : al = Z.max 4 (2 ^ k)) by (unfold al; destruct (Z.ltb_spec (2 ^ k) 4); lia).
  rewrite (add32_small 4 al), (sub32_small (4 + al) 1), (add32_small n) by lia.
  replace (4 + al - 1) with (overhead (2 ^ k)) by (unfold overhead; lia).
  destruct (ci_heap _ _ Hi) as (L & Hh & HL).
  destruct (heap_kmalloc _ L (n + overhead (2 ^ k)) Hh) as (base & h & He & Hbr); [unfold overhead; lia|].
  do 2 apply wp_bind. unfold wp at 1, call_kmalloc. rewrite He. destruct (Z.eqb_spec base 0) as [Hz|Hz]; [done|].
  apply wp_bind. unfold wp at 1, set_base_pointer. apply wp_ret. apply wp_bind. unfold wp at 1, begin_storage. apply wp_ret.
  cbn [heap words storage objects]. pose proof (heap_separate _ _ Hbr) as Hs. destruct Hs as (Hro & _ & _).
  unfold region_ok in Hro. cbn in Hro.
  destruct (aligned_payload base n k) as (Hp1 & Hp2 & Hp3); [lia..|]. fold al in Hp1, Hp2, Hp3.
  set (p := Z.land _ _) in *. exists (Block (p, n) (base, n + overhead (2 ^ k))). split_and!; [done|done| |done].
  rewrite (sub32_small p 4) by lia. apply inv_fresh; [done|by exists L|]. unfold block_ok. cbn. lia.
Qed.

Lemma deallocate_spec w B b :
  cxx_inv w (b :: B) ->
  wp False (deallocate (pay b).1) (fun _ w' =>
    cxx_inv w' B /\ frame B w w' /\ (forall a, within (pay b) a -> objects w' !! a = None)) w.
Proof.
  intros Hi. assert (Hin : b ∈ b :: B) by apply list_elem_of_here.
  pose proof (inv_pay _ _ _ Hi Hin) as Hp. pose proof (inv_apart _ _ b B Hi ltac:(done)) as Ha.
  rewrite Forall_forall in Ha. pose proof (fun b => inv_region _ _ b Hi) as Hreg. unfold block_ok, region_ok, apart in *.
  unfold deallocate. apply wp_bind. unfold wp at 1, end_storage.
  assert (Hs : storage w !! (pay b).1 = Some (pay b).2).
  { apply (ci_storage _ _ Hi). exists b. split; [done|]. by destruct (pay b). }
  rewrite Hs. unfold operator_delete_aligned, free_aligned. rewrite (proj2 (Z.eqb_neq _ 0)) by lia.
  apply wp_bind. unfold wp at 1, base_pointer. cbn [words]. rewrite sub32_small by lia.
  rewrite (ci_header _ _ Hi b Hin). unfold wp, call_kfree. cbn [heap].
  destruct (ci_heap _ _ Hi) as (L & Hh & HL). rewrite fmap_cons in HL.
  assert (HbL : raw b ∈ L) by (rewrite HL; apply list_elem_of_here).
  apply list_elem_of_split in HbL as (L1 & L2 & ->).
  destruct (raw b) as [rb rn] eqn:Er. destruct (heap_kfree _ L1 L2 rb rn Hh) as (h & He & Hh'). cbn. rewrite He. cbn.
  assert (Hout : forall b' a, b' ∈ B -> within (pay b') a -> ~ within (pay b) a).
  { intros b' a Hb' Ha' Ha''. unfold within in *. pose proof (Ha b' Hb') as Hap. rewrite <- Er in *.
    destruct (Hreg b Hin), (Hreg b' ltac:(by apply elem_of_cons; right)). lia. }
  split_and!; [split; cbn [heap words storage objects]| |].
  - exists (L1 ++ L2). split; [done|]. apply (Permutation.Permutation_cons_inv (a := (rb, rn))).
    by rewrite Permutation.Permutation_middle, HL.
  - pose proof (ci_blocks _ _ Hi) as Hb. by apply Forall_cons in Hb as [_ ?].
  - intros b' Hb'. apply (ci_header _ _ Hi). by apply elem_of_cons; right.
  - intros p n. rewrite lookup_delete_Some, (ci_storage _ _ Hi). split.
    + intros (Hne & b' & [->|Hb']%elem_of_cons & Hpn); [by rewrite Hpn in Hne|by exists b'].
    + intros (b' & Hb' & Hpn). split; [|exists b'; split; [by apply elem_of_cons; right|done]].
      intros Heq. apply (Hout b' p Hb'); unfold within; rewrite ?Hpn, <- ?Heq; cbn; [|lia].
      pose proof (inv_pay _ _ b' Hi ltac:(by apply elem_of_cons; right)) as Hp'. rewrite Hpn in Hp'. cbn in Hp'. lia.
  - intros a o [Ho Hna]%map_lookup_filter_Some. cbn in Hna.
    destruct (ci_objects _ _ Hi a o Ho) as (b' & [->|Hb']%elem_of_cons & Hw); [done|by exists b'].
  - intros b' a Hb' Ha'. cbn [objects]. pose proof (Hout b' a Hb' Ha') as Hna.
    destruct (objects w !! a) as [o|] eqn:Ho; [apply map_lookup_filter_Some; done|apply map_lookup_filter_None; by left].
  - intros a Hb. cbn [objects]. apply map_lookup_filter_None. right. intros o _ Hn. by apply Hn.
Qed.

(** ** Objects *)

Lemma in_storage_block w B b sz a :
  cxx_inv w B -> b ∈ B -> (pay b).1 <= a -> a + sz <= (pay b).1 + (pay b).2 -> in_storage sz a w = true.
Proof.
  intros Hi Hb ? ?. unfold in_storage. apply existsb_exists. exists (pay b). split.
  - destruct (pay b) as [p n] eqn:E. apply list_elem_of_In, elem_of_map_to_list, (ci_storage _ _ Hi). by exists b.
  - rewrite andb_true_iff, !Z.leb_le. lia.
Qed.

Definition with_objects (m : gmap Z O) w : world H O := World (heap w) (words w) (storage w) m.

Lemma inv_objects w B m :
  cxx_inv w B -> (forall a o, m !! a = Some o -> exists b, b ∈ B /\ within (pay b) a) -> cxx_inv (with_objects m w) B.
Proof. intros [] Hm. by split. Qed.

Lemma inv_insert w B b a o :
  cxx_inv w B -> b ∈ B -> within (pay b) a -> cxx_inv (with_objects (<[a := o]> (objects w)) w) B.
Proof.
  intros Hi Hb Ha. apply inv_objects; [done|]. intros a' o' [[<- _]|[_ Ho]]%lookup_insert_Some; [by exists b|].
  by apply (ci_objects _ _ Hi) in Ho.
Qed.

Lemma inv_delete w B a : cxx_inv w B -> cxx_inv (with_objects (delete a (objects w)) w) B.
Proof.
  intros Hi. apply inv_objects; [done|]. intros a' o' [_ Ho]%lookup_delete_Some. by apply (ci_objects _ _ Hi) in Ho.
Qed.

Lemma wp_read E a o w Q : objects w !! a = Some o -> Q o w -> wp E (read a) Q w.
Proof. intros Ho HQ. unfold wp, read. by rewrite Ho. Qed.

Lemma wp_assign E a o o' w Q :
  objects w !! a = Some o' -> Q tt (with_objects (<[a := o]> (objects w)) w) -> wp E (assign a o) Q w.
Proof. intros Ho HQ. unfold wp, assign. by rewrite Ho. Qed.

Lemma wp_destroy E a o w Q :
  objects w !! a = Some o -> Q tt (with_objects (delete a (objects w)) w) -> wp E (destroy a) Q w.
Proof. intros Ho HQ. unfold wp, destroy. by rewrite Ho. Qed.

Lemma wp_construct E sz a o w Q :
  in_storage sz a w = true -> Q tt (with_objects (<[a := o]> (objects w)) w) -> wp E (construct sz a o) Q w.
Proof. intros Ho HQ. unfold wp, construct. by rewrite Ho. Qed.

(** An address in a block is in none of the others. *)
Lemma within_apart w B b R a b' :
  cxx_inv w B -> B ≡ₚ b :: R -> within (pay b) a -> b' ∈ R -> ~ within (pay b') a.
Proof.
  intros Hi HB Ha Hb' Ha'. pose proof (inv_apart _ _ _ _ Hi HB) as Hap. rewrite Forall_forall in Hap.
  specialize (Hap b' Hb'). pose proof (inv_region _ _ b Hi) as Hr. pose proof (inv_region _ _ b' Hi) as Hr'.
  rewrite HB in Hr, Hr'. destruct Hr as [? _]; [apply list_elem_of_here|]. destruct Hr' as [? _]; [by apply elem_of_cons; right|].
  unfold block_ok, apart, within in *. lia.
Qed.

Lemma frame_insert w B b R a o :
  cxx_inv w B -> B ≡ₚ b :: R -> within (pay b) a -> frame R w (with_objects (<[a := o]> (objects w)) w).
Proof.
  intros Hi HB Ha b' a' Hb' Ha'. cbn. apply lookup_insert_ne. intros ->. by eapply within_apart.
Qed.

Lemma frame_delete w B b R a :
  cxx_inv w B -> B ≡ₚ b :: R -> within (pay b) a -> frame R w (with_objects (delete a (objects w)) w).
Proof.
  intros Hi HB Ha b' a' Hb' Ha'. cbn. apply lookup_delete_ne. intros ->. by eapply within_apart.
Qed.

End invariant.

(** A request within seven bytes of the top of the address space passes the
    overflow check of [KernelAllocator], but the size with the overhead of the
    aligned operator wraps: six bytes are taken from the heap and handed out as
    4294967295. *)
Lemma allocate_size_wraps {H O} `{HeapOps H} (w : world H O) base h :
  kmalloc 6 (heap w) = Some (base, h) -> base <> 0 ->
  exists p w', allocate 1 1 (2 ^ 32 - 1) w = Returns (p, w') /\ heap w' = h /\ storage w' !! p = Some (2 ^ 32 - 1).
Proof.
  intros He Hb. unfold allocate, operator_new_aligned, allocate_aligned, call_kmalloc, mbind, prog_bind. cbv zeta.
  cbn [Z.eqb Z.ltb]. change ((2 ^ 32 - 1) ⊠ 1) with (2 ^ 32 - 1).
  change ((2 ^ 32 - 1) / 1 <? 2 ^ 32 - 1) with false. change (2 ^ 32 - 1 =? 0) with false. change (1 <? 4) with true.
  cbn iota. cbv beta. change ((2 ^ 32 - 1) ⊞ ((4 ⊞ 4) ⊟ 1)) with 6. rewrite He.
  rewrite (proj2 (Z.eqb_neq base 0)) by done. eexists _, _. split; [reflexivity|]. cbn [heap storage]. split; [done|].
  apply lookup_insert_eq.
Qed.
