(* ===== verification/Vector.v ===== *)
(** * kstd::vector

    Models libkxx/include/kstd/vector.hpp over the allocator and the object
    model of [Cxx]: contiguous storage with geometric growth.  A vector of
    elements of size [sz] and alignment [2 ^ k] is shown to behave as a list. *)

From S2P Require Import Prelude HeapInterface Cxx.

Record vector := Vector { data : Z; size : Z; capacity : Z }.

Definition empty_vector : vector := Vector 0 0 0.

(** An argument of a constructor of [T]: a temporary, or a reference to an
    object that is read when the new element is constructed. *)
Inductive argument (T : Type) := Temporary (x : T) | Reference (a : Z).
Arguments Temporary {T} x.
Arguments Reference {T} a.

Section operations.
Context {H T : Type} `{HeapOps H} (sz al : Z).
Implicit Types (v : vector).

Abbreviation prog := (prog (world H T)).

Definition slot (p i : Z) : Z := p ⊞ (i ⊠ sz).

Definition value_of (x : argument T) : prog T :=
  match x with Temporary x => mret x | Reference a => read a end.

(** The loop of [reallocate]: [n] elements from index [i]. *)
Fixpoint move_elements (from to i : Z) (n : nat) : prog unit :=
  match n with
  | O => mret tt
  | S n =>
    x ← read (slot from i);
    _ ← construct sz (slot to i) x;
    _ ← destroy (slot from i);
    move_elements from to (i ⊞ 1) n
  end.

Definition reallocate (new_capacity : Z) v : prog vector :=
  fresh ← allocate sz al new_capacity;
  if fresh =? 0 then fatal
  else
    _ ← move_elements (data v) fresh 0 (Z.to_nat (size v));
    _ ← (if data v =? 0 then mret tt else deallocate (data v));
    mret (Vector fresh (size v) new_capacity).

Definition reserve (new_capacity : Z) v : prog vector :=
  if new_capacity <=? capacity v then mret v else reallocate new_capacity v.

Definition emplace_back (x : argument T) v : prog (Z * vector) :=
  v ← (if size v =? capacity v then reallocate (if capacity v =? 0 then 1 else capacity v ⊠ 2) v else mret v);
  let slot := slot (data v) (size v) in
  x ← value_of x;
  _ ← construct sz slot x;
  mret (slot, Vector (data v) (size v ⊞ 1) (capacity v)).

Definition push_back (x : argument T) v : prog vector := '(_, v) ← emplace_back x v; mret v.

Definition pop_back v : prog vector :=
  let size := size v ⊟ 1 in
  _ ← destroy (slot (data v) size);
  mret (Vector (data v) size (capacity v)).

(** [fuel] bounds the loop of [erase]; the size of the vector is enough. *)
Fixpoint shift_down (fuel : nat) (current finish : Z) : prog unit :=
  match fuel with
  | O => undefined
  | S fuel =>
    if current ⊞ sz =? finish then mret tt
    else
      x ← read (current ⊞ sz);
      _ ← assign current x;
      shift_down fuel (current ⊞ sz) finish
  end.

Definition begin_ v : Z := data v.
Definition end_ v : Z := slot (data v) (size v).

Definition erase (position : Z) v : prog (Z * vector) :=
  _ ← shift_down (Z.to_nat (size v)) position (end_ v);
  v ← pop_back v;
  mret (position, v).

(** [for (i = first; i < first + n; ++i) _data[i].~T();] *)
Fixpoint destroy_elements (p i : Z) (n : nat) : prog unit :=
  match n with
  | O => mret tt
  | S n => _ ← destroy (slot p i); destroy_elements p (i ⊞ 1) n
  end.

Definition clear v : prog vector :=
  _ ← destroy_elements (data v) 0 (Z.to_nat (size v));
  mret (Vector (data v) 0 (capacity v)).

Definition destroy_and_free v : prog vector :=
  v ← clear v;
  _ ← (if data v =? 0 then mret tt else deallocate (data v));
  mret (Vector 0 (size v) 0).

Definition swap v other : vector * vector := (other, v).

(** [n] times [emplace_back]. *)
Fixpoint emplace_times (n : nat) (x : argument T) v : prog vector :=
  match n with
  | O => mret v
  | S n => v ← push_back x v; emplace_times n x v
  end.

Definition resize (new_size : Z) (x : argument T) v : prog vector :=
  if new_size <? size v then
    _ ← destroy_elements (data v) new_size (Z.to_nat (size v - new_size));
    mret (Vector (data v) new_size (capacity v))
  else
    v ← reserve new_size v;
    emplace_times (Z.to_nat (new_size - size v)) x v.

Definition at_ (index : Z) v : prog Z :=
  if size v <=? index then fatal else mret (slot (data v) index).
Definition index_ (index : Z) v : Z := slot (data v) index.
Definition front v : Z := slot (data v) 0.
Definition back v : Z := slot (data v) (size v ⊟ 1).
Definition empty v : bool := size v =? 0.

(** [vector(count, value)], [vector(init)] and the iterator range. *)
Definition vector_fill (count : Z) (x : argument T) : prog vector :=
  v ← reserve count empty_vector;
  emplace_times (Z.to_nat count) x v.
Fixpoint emplace_all (xs : list T) v : prog vector :=
  match xs with
  | [] => mret v
  | x :: xs => v ← push_back (Temporary x) v; emplace_all xs v
  end.
Definition vector_init (xs : list T) : prog vector :=
  v ← reserve (Z.of_nat (length xs)) empty_vector;
  emplace_all xs v.
Definition vector_range (xs : list T) : prog vector := emplace_all xs empty_vector.

(** [for (i = 0; i < other._size; ++i) emplace_back(other._data[i]);] *)
Fixpoint emplace_from (other : Z) (i : Z) (n : nat) v : prog vector :=
  match n with
  | O => mret v
  | S n => v ← push_back (Reference (slot other i)) v; emplace_from other (i ⊞ 1) n v
  end.
Definition vector_copy (other : vector) : prog vector :=
  v ← reserve (size other) empty_vector;
  emplace_from (data other) 0 (Z.to_nat (size other)) v.
(** [operator=]: the assignment of a vector to itself returns at once. *)
Definition assign_copy (v other : vector) (same : bool) : prog vector :=
  if same then mret v
  else
    v ← clear v;
    v ← reserve (size other) v;
    emplace_from (data other) 0 (Z.to_nat (size other)) v.
(** The moved vector first, then what is left of the other. *)
Definition vector_move (other : vector) : vector * vector := (other, empty_vector).
Definition assign_move (v other : vector) (same : bool) : prog (vector * vector) :=
  if same then mret (v, v)
  else _ ← destroy_and_free v; mret (other, empty_vector).

End operations.

(** ** Representation *)

Section proofs.
Context {H T : Type} `{HeapLaws H} (sz k : Z) (Hsz : 0 < sz) (Hk : 0 <= k < 32).
Implicit Types (w : world H T) (v : vector) (B R : list block) (l : list T).

Abbreviation al := (2 ^ k).

(** [l] is in the objects of [w] from address [p] on. *)
Definition elements w (p : Z) l : Prop :=
  forall i x, l !! i = Some x -> objects w !! (p + Z.of_nat i * sz) = Some x.

(** [v] owns the blocks [B] (none, or one) and its elements are [l]. *)
Record vec_rep w v B l : Prop := {
  vr_size : size v = Z.of_nat (length l);
  vr_le : size v <= capacity v;
  vr_block : (capacity v = 0 /\ data v = 0 /\ B = []) \/
             (0 < capacity v /\ exists b, B = [b] /\ pay b = (data v, capacity v * sz));
  vr_elements : elements w (data v) l }.

Lemma empty_rep w : vec_rep w empty_vector [] [].
Proof. split; [done|done|by left|]. intros i x Hx. done. Qed.

Lemma slot_eq p i : 0 <= p -> 0 <= i -> p + i * sz < 2 ^ 32 -> slot sz p i = p + i * sz.
Proof. intros. unfold slot. rewrite (mul32_small i sz), add32_small by nia. done. Qed.

Lemma elements_ext w w' p l :
  elements w p l ->
  (forall i : nat, (i < length l)%nat -> objects w' !! (p + Z.of_nat i * sz) = objects w !! (p + Z.of_nat i * sz)) ->
  elements w' p l.
Proof. intros He Hx i x Hi. rewrite Hx; [by apply He|]. by apply lookup_lt_Some in Hi. Qed.

(** Cells of one array. *)
Lemma cell_within b p c i :
  pay b = (p, c * sz) -> 0 <= i < c -> within (pay b) (p + i * sz).
Proof. intros -> Hi. unfold within. cbn. nia. Qed.

Lemma in_cell w B b p c i :
  cxx_inv w B -> b ∈ B -> pay b = (p, c * sz) -> 0 <= i < c -> in_storage sz (p + i * sz) w = true.
Proof. intros Hi Hb Hp Hc. eapply in_storage_block; [done..| |]; rewrite Hp; cbn; nia. Qed.

Lemma block_slot w B b p c i :
  cxx_inv w B -> b ∈ B -> pay b = (p, c * sz) -> 0 <= i <= c -> slot sz p i = p + i * sz /\ c < 2 ^ 32.
Proof.
  intros Hi Hb Hp Hc. pose proof (inv_pay _ _ _ Hi Hb) as Hb'. rewrite Hp in Hb'. cbn in Hb'.
  assert (i * sz <= c * sz) by nia. assert (c <= c * sz) by nia. split; [apply slot_eq; lia|lia].
Qed.

(** ** Moving the elements to a new block *)

Lemma move_spec w b b' R p q c c' l : forall i,
  cxx_inv w (b' :: b :: R) -> pay b = (p, c * sz) -> pay b' = (q, c' * sz) ->
  0 <= i -> i + Z.of_nat (length l) <= c -> i + Z.of_nat (length l) <= c' ->
  elements w (p + i * sz) l ->
  wp False (move_elements sz p q i (length l)) (fun _ w' =>
    cxx_inv w' (b' :: b :: R) /\ elements w' (q + i * sz) l /\ frame R w w' /\
    (forall a, ~ within (pay b) a -> a < q + i * sz -> objects w' !! a = objects w !! a)) w.
Proof.
  revert w. induction l as [|x l IH]; intros w i Hi Hp Hq Hi0 Hc Hc' Hl; cbn [length move_elements].
  { by apply wp_ret. }
  cbn [length] in Hc, Hc'. assert (Hb' : b' ∈ b' :: b :: R) by inlist. assert (Hb : b ∈ b' :: b :: R) by inlist.
  destruct (block_slot _ _ _ _ _ i Hi Hb Hp) as [Es Hi32]; [lia|]. destruct (block_slot _ _ _ _ _ i Hi Hb' Hq) as [Ed _]; [lia|].
  rewrite Es, Ed, (add32_small i 1) by lia.
  pose proof (cell_within b p c i Hp ltac:(lia)) as Hwb. pose proof (cell_within b' q c' i Hq ltac:(lia)) as Hwb'.
  assert (Hne : forall a, within (pay b) a -> ~ within (pay b') a).
  { intros a Ha. eapply (within_apart _ _ b (b' :: R)); [exact Hi|apply Permutation.perm_swap|done|inlist]. }
  assert (Hx0 : objects w !! (p + i * sz) = Some x) by (rewrite <- (Hl 0%nat x eq_refl); f_equal; lia).
  apply wp_bind. eapply wp_read; [done|].
  apply wp_bind. apply wp_construct; [apply (in_cell _ _ b' q c' i Hi Hb' Hq); lia|].
  pose proof (inv_insert w _ b' (q + i * sz) x Hi Hb' Hwb') as Hi1.
  apply wp_bind. eapply wp_destroy.
  { cbn. rewrite lookup_insert_ne; [done|]. intros E. by apply (Hne _ Hwb); rewrite <- E. }
  pose proof (inv_delete _ _ (p + i * sz) Hi1) as Hi2. set (w2 := with_objects (delete _ _) _) in *.
  assert (Hl2 : elements w2 (p + (i + 1) * sz) l).
  { intros j y Hj. pose proof (lookup_lt_Some _ _ _ Hj). cbn. rewrite lookup_delete_ne by nia.
    rewrite lookup_insert_ne.
    - rewrite <- (Hl (S j) y Hj). f_equal. lia.
    - intros E. apply (Hne (p + (i + 1 + Z.of_nat j) * sz)); [apply (cell_within b p c); [done|lia]|].
      replace (p + (i + 1 + Z.of_nat j) * sz) with (q + i * sz) by lia. done. }
  assert (Hf : frame R w w2).
  { intros b0 a Hb0 Ha. cbn. rewrite lookup_delete_ne, lookup_insert_ne; [done| |]; intros <-.
    - by apply (within_apart w _ b' (b :: R) (q + i * sz) b0 Hi); [..|inlist|].
    - by apply (within_apart w _ b (b' :: R) (p + i * sz) b0 Hi); [apply Permutation.perm_swap|..|inlist|]. }
  eapply wp_mono; [apply (IH w2 (i + 1)); (done || lia)|done|].
  intros _ w' (Hi' & Hl' & Hf' & Hlow). split_and!; [done| |by eapply frame_trans|].
  - intros [|j] y Hj; cbn in Hj.
    + injection Hj as <-. replace (q + i * sz + Z.of_nat 0 * sz) with (q + i * sz) by lia.
      rewrite Hlow by (nia || (intros Ha; by apply (Hne _ Ha))). cbn. rewrite lookup_delete_ne, lookup_insert_eq; [done|].
      intros E. apply (Hne _ Hwb). by rewrite E.
    + rewrite <- (Hl' j y Hj). f_equal. lia.
  - intros a Ha Hlt. rewrite Hlow by (done || nia). cbn. rewrite lookup_delete_ne, lookup_insert_ne; [done|nia|].
    by intros <-.
Qed.

Lemma reallocate_spec w v B R l nc :
  cxx_inv w (B ++ R) -> vec_rep w v B l -> size v <= nc -> 0 < nc -> nc * sz + overhead al <= heap_limit H ->
  wp True (reallocate sz al nc v) (fun v' w' => exists B',
    cxx_inv w' (B' ++ R) /\ vec_rep w' v' B' l /\ frame R w w' /\ capacity v' = nc /\ size v' = size v /\
    (forall b a, b ∈ B -> within (pay b) a -> objects w' !! a = None)) w.
Proof.
  intros Hi Hr Hle Hnc Hlim. unfold reallocate. apply wp_bind.
  eapply wp_mono; [by apply (allocate_spec w (B ++ R) sz k nc)|done|]. intros q w1 (b' & Hq & _ & Hi1 & Ho1).
  pose proof (inv_pay _ _ b' Hi1 ltac:(inlist)) as Hpay. rewrite Hq in Hpay. cbn in Hpay.
  rewrite (proj2 (Z.eqb_neq q 0)) by lia. pose proof (vr_size _ _ _ _ Hr) as Hs.
  assert (Hf1 : frame R w w1) by (intros b0 a _ _; by rewrite Ho1).
  assert (Hend : forall w', elements w' q l -> vec_rep w' (Vector q (size v) nc) [b'] l).
  { intros w' He. split; cbn [size capacity data]; [done|done|right|done]. split; [done|]. by exists b'. }
  destruct (vr_block _ _ _ _ Hr) as [(Hc & Hd & ->)|(Hc & b & -> & Hp)].
  - assert (l = []) as -> by (apply length_zero_iff_nil; pose proof (vr_le _ _ _ _ Hr); lia).
    rewrite Hs. cbn [length Z.of_nat Z.to_nat move_elements]. apply wp_bind, wp_ret. rewrite Hd. cbn [Z.eqb].
    apply wp_bind, wp_ret, wp_ret. exists [b']. split_and!; [done| |done|done|done|set_solver].
    rewrite Hs in Hend. apply Hend. by intros i x.
  - cbn [app] in *. pose proof (vr_le _ _ _ _ Hr). rewrite Hs, Nat2Z.id. apply wp_bind. eapply wp_mono.
    { eapply (move_spec w1 b b' R (data v) q (capacity v) nc l 0); [done..|lia|lia|lia|].
      intros i x Hx. rewrite Ho1, Z.mul_0_l, Z.add_0_r. by apply (vr_elements _ _ _ _ Hr). }
    { done. }
    intros _ w2 (Hi2 & He2 & Hf2 & _). rewrite Z.mul_0_l, Z.add_0_r in He2.
    pose proof (inv_pay _ _ b Hi ltac:(inlist)) as Hpb. rewrite Hp in Hpb. cbn in Hpb.
    rewrite (proj2 (Z.eqb_neq (data v) 0)) by lia. apply wp_bind.
    assert (Hi2' : cxx_inv w2 (b :: b' :: R)) by (by rewrite (Permutation.perm_swap b' b)).
    replace (data v) with (pay b).1 by (by rewrite Hp).
    eapply wp_mono; [by apply deallocate_spec|done|]. intros _ w3 (Hi3 & Hf3 & Hd3). apply wp_ret.
    exists [b']. rewrite <- Hs. split_and!; [done| | |done|done|].
    + apply Hend. eapply elements_ext; [done|]. intros i Hi'. apply (Hf3 b'); [inlist|].
      apply (cell_within b' q nc); [done|lia].
    + eapply frame_trans; [done|]. eapply frame_trans; [done|]. eapply frame_sub; [|done]. set_solver.
    + intros b0 a [->|Hno]%elem_of_cons Ha; [by apply Hd3|set_solver].
Qed.

(** What an argument stands for when no element of the vector is meant. *)
Definition denotes w R (x : argument T) (y : T) : Prop :=
  match x with
  | Temporary x => x = y
  | Reference a => objects w !! a = Some y /\ exists b, b ∈ R /\ within (pay b) a
  end.

Lemma denotes_frame w w' R x y : frame R w w' -> denotes w R x y -> denotes w' R x y.
Proof. destruct x as [x|a]; cbn; [done|]. intros Hf [Ho (b & Hb & Ha)]. split; [|by exists b]. by rewrite (Hf b a). Qed.

Lemma wp_value E w R x y Q : denotes w R x y -> Q y w -> wp E (value_of x) Q w.
Proof. destruct x as [x|a]; cbn; [by intros ->|]. intros [Ho _] HQ. by eapply wp_read. Qed.

(** The rest of [emplace_back], with room for the element. *)
Lemma emplace_room w v B R l x y (Q : vector -> world H T -> Prop) :
  cxx_inv w (B ++ R) -> vec_rep w v B l -> size v < capacity v ->
  (forall E Q', Q' y w -> wp E (value_of x) Q' w) ->
  (forall w', cxx_inv w' (B ++ R) -> vec_rep w' (Vector (data v) (size v ⊞ 1) (capacity v)) B (l ++ [y]) ->
     frame R w w' -> size v ⊞ 1 = size v + 1 -> Q (Vector (data v) (size v ⊞ 1) (capacity v)) w') ->
  wp False (y ← value_of x; _ ← construct sz (slot sz (data v) (size v)) y;
            mret (slot sz (data v) (size v), Vector (data v) (size v ⊞ 1) (capacity v)))
    (fun r w' => Q r.2 w') w.
Proof.
  intros Hi Hr Hlt Hx HQ. pose proof (vr_size _ _ _ _ Hr) as Hs.
  destruct (vr_block _ _ _ _ Hr) as [(Hc & _ & _)|(Hc & b & -> & Hp)]; [lia|]. cbn [app] in *.
  assert (Hb : b ∈ b :: R) by inlist. destruct (block_slot _ _ _ _ _ (size v) Hi Hb Hp) as [Es Hs32]; [lia|].
  rewrite Es.
  pose proof (cell_within b _ _ (size v) Hp ltac:(lia)) as Hwb.
  assert (Hsz1 : size v ⊞ 1 = size v + 1) by (apply add32_small; lia).
  apply wp_bind, Hx, wp_bind, wp_construct; [apply (in_cell _ _ b _ _ (size v) Hi Hb Hp); lia|]. apply wp_ret. cbn [snd].
  apply HQ; [by eapply inv_insert| |by eapply frame_insert|done]. rewrite Hsz1. split; cbn [size capacity data].
  - rewrite length_app. cbn. lia.
  - lia.
  - right. split; [done|]. by exists b.
  - intros i z Hz. cbn. apply lookup_app_Some in Hz as [Hz|[Hge Hz]].
    + pose proof (lookup_lt_Some _ _ _ Hz). rewrite lookup_insert_ne by nia. by apply (vr_elements _ _ _ _ Hr).
    + assert (i - length l = 0)%nat by (apply lookup_lt_Some in Hz; cbn in Hz; lia).
      replace (i - length l)%nat with 0%nat in Hz by lia. injection Hz as ->.
      replace (Z.of_nat i) with (size v) by lia. by rewrite lookup_insert_eq.
Qed.

(** The capacity after one more element. *)
Definition grown v : Z := if size v =? capacity v then Z.max 1 (2 * capacity v) else capacity v.
Definition affordable (c : Z) : Prop := c * sz + overhead al <= heap_limit H.

Lemma emplace_back_spec w v B R l x y :
  cxx_inv w (B ++ R) -> vec_rep w v B l -> denotes w R x y -> affordable (grown v) ->
  wp (size v = capacity v) (emplace_back sz al x v) (fun r w' => exists B',
    cxx_inv w' (B' ++ R) /\ vec_rep w' r.2 B' (l ++ [y]) /\ frame R w w' /\ capacity r.2 = grown v) w.
Proof.
  intros Hi Hr Hx Hg. unfold emplace_back. apply wp_bind. pose proof (vr_le _ _ _ _ Hr). unfold grown, affordable in *.
  destruct (Z.eqb_spec (size v) (capacity v)) as [E|E].
  - assert (Hnc : (if capacity v =? 0 then 1 else capacity v ⊠ 2) = Z.max 1 (2 * capacity v)).
    { pose proof (heap_limit_le H). pose proof (vr_size _ _ _ _ Hr). unfold overhead in Hg.
      destruct (Z.eqb_spec (capacity v) 0); [lia|]. rewrite mul32_small by nia. lia. }
    rewrite Hnc. eapply wp_mono; [apply (reallocate_spec w v B R l (Z.max 1 (2 * capacity v))); (done || lia)|done|].
    intros v' w1 (B' & Hi1 & Hr1 & Hf1 & Hc1 & Hs1 & _). apply (wp_weaken False); [|done].
    eapply (emplace_room w1 v' B' R l x y (fun v2 w2 => exists B',
      cxx_inv w2 (B' ++ R) /\ vec_rep w2 v2 B' (l ++ [y]) /\ frame R w w2 /\ capacity v2 = _)); [done|done|lia| |].
    + intros E' Q' HQ'. eapply wp_value; [by eapply denotes_frame|done].
    + intros w2 Hi2 Hr2 Hf2 _. exists B'. split_and!; [done|done|by eapply frame_trans|done].
  - apply wp_ret. apply (wp_weaken False); [|done].
    eapply (emplace_room w v B R l x y (fun v2 w2 => exists B',
      cxx_inv w2 (B' ++ R) /\ vec_rep w2 v2 B' (l ++ [y]) /\ frame R w w2 /\ capacity v2 = _)); [done|done|lia| |].
    + intros E' Q' HQ'. by eapply wp_value.
    + intros w2 Hi2 Hr2 Hf2 _. by exists B.
Qed.

Lemma push_back_spec w v B R l x y :
  cxx_inv w (B ++ R) -> vec_rep w v B l -> denotes w R x y -> affordable (grown v) ->
  wp (size v = capacity v) (push_back sz al x v) (fun v' w' => exists B',
    cxx_inv w' (B' ++ R) /\ vec_rep w' v' B' (l ++ [y]) /\ frame R w w' /\ capacity v' = grown v) w.
Proof.
  intros Hi Hr Hx Hg. unfold push_back. apply wp_bind. eapply wp_mono; [by eapply emplace_back_spec|done|].
  intros [a v'] w' Hw. by apply wp_ret.
Qed.

(** A reference to an element of the vector itself, while there is room. *)
Lemma push_own_spec w v B R l i y :
  cxx_inv w (B ++ R) -> vec_rep w v B l -> l !! i = Some y -> size v < capacity v ->
  wp False (push_back sz al (Reference (slot sz (data v) (Z.of_nat i))) v) (fun v' w' => exists B',
    cxx_inv w' (B' ++ R) /\ vec_rep w' v' B' (l ++ [y]) /\ frame R w w' /\ capacity v' = capacity v) w.
Proof.
  intros Hi Hr Hy Hlt. unfold push_back, emplace_back. rewrite (proj2 (Z.eqb_neq _ _)) by lia.
  apply wp_bind, wp_bind, wp_ret. eapply wp_mono.
  - eapply (emplace_room w v B R l _ y (fun v2 w2 => exists B',
      cxx_inv w2 (B' ++ R) /\ vec_rep w2 v2 B' (l ++ [y]) /\ frame R w w2 /\ capacity v2 = capacity v)); [done|done|lia| |].
    + intros E Q HQ. pose proof (vr_size _ _ _ _ Hr). pose proof (lookup_lt_Some _ _ _ Hy).
      destruct (vr_block _ _ _ _ Hr) as [(Hc & _ & _)|(Hc & b & -> & Hp)]; [lia|]. cbn [value_of].
      destruct (block_slot _ _ b _ _ (Z.of_nat i) Hi ltac:(inlist) Hp) as [-> _]; [lia|].
      eapply wp_read; [by apply (vr_elements _ _ _ _ Hr)|done].
    + intros w2 Hi2 Hr2 Hf2 _. by exists B.
  - done.
  - intros [a v'] w' Hw. by apply wp_ret.
Qed.

Lemma vector_reserve_spec w v B R l nc :
  cxx_inv w (B ++ R) -> vec_rep w v B l -> affordable (Z.max nc (capacity v)) ->
  wp (capacity v < nc) (reserve sz al nc v) (fun v' w' => exists B',
    cxx_inv w' (B' ++ R) /\ vec_rep w' v' B' l /\ frame R w w' /\ capacity v' = Z.max nc (capacity v)) w.
Proof.
  intros Hi Hr Hg. unfold reserve. pose proof (vr_le _ _ _ _ Hr). pose proof (vr_size _ _ _ _ Hr). unfold affordable in Hg.
  destruct (Z.leb_spec nc (capacity v)).
  - apply wp_ret. exists B. split_and!; [done|done|apply frame_refl|lia].
  - rewrite Z.max_l in * by lia. eapply wp_mono; [apply (reallocate_spec w v B R l nc); (done || lia)|done|].
    intros v' w' (B' & Hi' & Hr' & Hf' & Hc' & _). by exists B'.
Qed.

(** ** Destroying elements *)

Lemma destroy_spec w b R p c l : forall i,
  cxx_inv w (b :: R) -> pay b = (p, c * sz) -> 0 <= i -> i + Z.of_nat (length l) <= c -> elements w (p + i * sz) l ->
  wp False (destroy_elements sz p i (length l)) (fun _ w' =>
    cxx_inv w' (b :: R) /\ frame R w w' /\ (forall a, a < p + i * sz -> objects w' !! a = objects w !! a)) w.
Proof.
  revert w. induction l as [|x l IH]; intros w i Hi Hp Hi0 Hc Hl; cbn [length destroy_elements]; [by apply wp_ret|].
  cbn [length] in Hc. assert (Hb : b ∈ b :: R) by inlist.
  destruct (block_slot _ _ _ _ _ i Hi Hb Hp) as [-> Hc32]; [lia|]. rewrite (add32_small i 1) by lia.
  pose proof (cell_within b p c i Hp ltac:(lia)) as Hwb. apply wp_bind.
  assert (Hx0 : objects w !! (p + i * sz) = Some x) by (rewrite <- (Hl 0%nat x eq_refl); f_equal; lia).
  eapply wp_destroy; [done|]. pose proof (inv_delete _ _ (p + i * sz) Hi) as Hi2. set (w2 := with_objects _ _) in *.
  assert (Hf : frame R w w2) by (by eapply frame_delete).
  eapply wp_mono; [apply (IH w2 (i + 1)); try (done || lia)|done|].
  - intros j y Hj. cbn. rewrite lookup_delete_ne by nia. rewrite <- (Hl (S j) y Hj). f_equal. lia.
  - intros _ w' (Hi' & Hf' & Hlow). split_and!; [done|by eapply frame_trans|]. intros a Ha. rewrite Hlow by nia.
    cbn. by rewrite lookup_delete_ne by lia.
Qed.

(** Dropping the tail [l2]. *)
Lemma truncate_spec w v B R l1 l2 :
  cxx_inv w (B ++ R) -> vec_rep w v B (l1 ++ l2) ->
  wp False (destroy_elements sz (data v) (Z.of_nat (length l1)) (length l2)) (fun _ w' =>
    cxx_inv w' (B ++ R) /\ vec_rep w' (Vector (data v) (Z.of_nat (length l1)) (capacity v)) B l1 /\ frame R w w') w.
Proof.
  intros Hi Hr. pose proof (vr_size _ _ _ _ Hr) as Hs. pose proof (vr_le _ _ _ _ Hr). rewrite length_app in Hs.
  assert (Hkeep : forall w', (forall a, a < data v + Z.of_nat (length l1) * sz -> objects w' !! a = objects w !! a) ->
            vec_rep w' (Vector (data v) (Z.of_nat (length l1)) (capacity v)) B l1).
  { intros w' Hlow. split; cbn [size capacity data]; [done|lia|apply (vr_block _ _ _ _ Hr)|].
    intros i x Hx. pose proof (lookup_lt_Some _ _ _ Hx). rewrite Hlow by nia.
    apply (vr_elements _ _ _ _ Hr). by apply lookup_app_l_Some. }
  destruct (vr_block _ _ _ _ Hr) as [(Hc & Hd & ->)|(Hc & b & -> & Hp)].
  - assert (l2 = []) as -> by (apply length_zero_iff_nil; lia). cbn [length destroy_elements]. apply wp_ret. split_and!; [done|by apply Hkeep|done].
  - eapply wp_mono; [apply (destroy_spec w b R _ _ l2 (Z.of_nat (length l1)) Hi Hp); try lia|done|].
    + intros i x Hx. replace (data v + Z.of_nat (length l1) * sz + Z.of_nat i * sz)
        with (data v + Z.of_nat (length l1 + i) * sz) by lia.
      apply (vr_elements _ _ _ _ Hr). rewrite lookup_app_r by lia. by replace (length l1 + i - length l1)%nat with i by lia.
    + intros _ w' (Hi' & Hf' & Hlow). split_and!; [done|by apply Hkeep|done].
Qed.

Lemma clear_spec w v B R l :
  cxx_inv w (B ++ R) -> vec_rep w v B l ->
  wp False (clear sz v) (fun v' w' =>
    cxx_inv w' (B ++ R) /\ vec_rep w' v' B [] /\ frame R w w' /\ v' = Vector (data v) 0 (capacity v)) w.
Proof.
  intros Hi Hr. unfold clear. rewrite (vr_size _ _ _ _ Hr), Nat2Z.id. apply wp_bind.
  eapply wp_mono; [by apply (truncate_spec w v B R [] l)|done|]. intros _ w' (? & ? & ?). by apply wp_ret.
Qed.

Lemma destroy_and_free_spec w v B R l :
  cxx_inv w (B ++ R) -> vec_rep w v B l ->
  wp False (destroy_and_free sz v) (fun v' w' => cxx_inv w' R /\ frame R w w' /\ v' = empty_vector) w.
Proof.
  intros Hi Hr. unfold destroy_and_free. apply wp_bind. eapply wp_mono; [by eapply clear_spec|done|].
  intros v1 w1 (Hi1 & Hr1 & Hf1 & ->). cbn [data size]. apply wp_bind.
  destruct (vr_block _ _ _ _ Hr) as [(Hc & Hd & ->)|(Hc & b & -> & Hp)].
  - rewrite Hd. apply wp_ret, wp_ret. done.
  - cbn [app] in *. pose proof (inv_pay _ _ b Hi1 ltac:(inlist)) as Hpb. rewrite Hp in Hpb. cbn in Hpb.
    rewrite (proj2 (Z.eqb_neq _ 0)) by lia. replace (data v) with (pay b).1 by (by rewrite Hp).
    eapply wp_mono; [by apply deallocate_spec|done|]. intros _ w2 (Hi2 & Hf2 & _). apply wp_ret. split_and!; [done| |done].
    by eapply frame_trans.
Qed.

Lemma pop_back_spec w v B R l x :
  cxx_inv w (B ++ R) -> vec_rep w v B (l ++ [x]) ->
  wp False (pop_back sz v) (fun v' w' =>
    cxx_inv w' (B ++ R) /\ vec_rep w' v' B l /\ frame R w w' /\ capacity v' = capacity v) w.
Proof.
  intros Hi Hr. pose proof (vr_size _ _ _ _ Hr) as Hs. rewrite length_app in Hs. cbn in Hs. pose proof (vr_le _ _ _ _ Hr).
  assert (Hs1 : size v ⊟ 1 = Z.of_nat (length l)).
  { destruct (vr_block _ _ _ _ Hr) as [(Hc & _)|(Hc & b & -> & Hp)]; [lia|].
    destruct (block_slot _ _ b _ _ 0 Hi ltac:(inlist) Hp); [lia|]. rewrite sub32_small by lia. lia. }
  unfold pop_back. rewrite Hs1. pose proof (truncate_spec w v B R l [x] Hi Hr) as Ht. cbn [length destroy_elements] in Ht.
  unfold wp, mbind, prog_bind in *. destruct (destroy _ w) as [[[] w']| |]; [|done..]. cbn in *.
  destruct Ht as (? & ? & ?). done.
Qed.

(** ** Erasing *)

Lemma shift_spec b R p c l : forall w fuel i y,
  cxx_inv w (b :: R) -> pay b = (p, c * sz) -> 0 <= i -> i + 1 + Z.of_nat (length l) <= c -> (length l < fuel)%nat ->
  objects w !! (p + i * sz) = Some y -> elements w (p + (i + 1) * sz) l ->
  wp False (shift_down sz fuel (p + i * sz) (p + (i + 1 + Z.of_nat (length l)) * sz)) (fun _ w' =>
    cxx_inv w' (b :: R) /\ frame R w w' /\ elements w' (p + i * sz) l /\
    (exists z, objects w' !! (p + (i + Z.of_nat (length l)) * sz) = Some z) /\
    (forall a, a < p + i * sz -> objects w' !! a = objects w !! a)) w.
Proof.
  induction l as [|x l IH]; intros w fuel i y Hi Hp Hi0 Hc Hf Hy Hl; (destruct fuel as [|fuel]; [cbn in Hf; lia|]); cbn [shift_down length] in *;
    assert (Hb : b ∈ b :: R) by inlist; pose proof (inv_pay _ _ b Hi Hb) as Hpb; rewrite Hp in Hpb; cbn in Hpb;
    rewrite (add32_small _ sz) by nia.
  - rewrite (proj2 (Z.eqb_eq _ _)) by lia. apply wp_ret. split_and!; [done|done|by intros j z|exists y|done].
    rewrite <- Hy. f_equal. lia.
  - rewrite (proj2 (Z.eqb_neq _ _)) by nia.
    assert (Hx0 : objects w !! (p + i * sz + sz) = Some x) by (rewrite <- (Hl 0%nat x eq_refl); f_equal; lia).
    apply wp_bind. eapply wp_read; [done|]. apply wp_bind. eapply wp_assign; [done|].
    pose proof (cell_within b p c i Hp ltac:(lia)) as Hwb. pose proof (inv_insert _ _ _ _ x Hi Hb Hwb) as Hi2.
    set (w2 := with_objects _ _) in *. assert (Hf2 : frame R w w2) by (by eapply frame_insert).
    replace (p + i * sz + sz) with (p + (i + 1) * sz) by lia.
    replace (i + 1 + Z.of_nat (S (length l))) with (i + 1 + 1 + Z.of_nat (length l)) by lia.
    eapply wp_mono; [apply (IH w2 fuel (i + 1) x); try (done || lia)|done|].
    + cbn. rewrite lookup_insert_ne by lia. rewrite <- Hx0. f_equal. lia.
    + intros j z Hj. cbn. rewrite lookup_insert_ne by nia. rewrite <- (Hl (S j) z Hj). f_equal. lia.
    + intros _ w' (Hi' & Hf' & Hl' & (z & Hz) & Hlow). split_and!; [done|by eapply frame_trans| | |].
      * intros [|j] u Hj; cbn in Hj.
        -- injection Hj as <-. replace (p + i * sz + Z.of_nat 0 * sz) with (p + i * sz) by lia.
           rewrite Hlow by lia. cbn. by rewrite lookup_insert_eq.
        -- rewrite <- (Hl' j u Hj). f_equal. lia.
      * exists z. rewrite <- Hz. f_equal. lia.
      * intros a Ha. rewrite Hlow by lia. cbn. by rewrite lookup_insert_ne by lia.
Qed.

Lemma erase_spec w v B R l1 x l2 :
  cxx_inv w (B ++ R) -> vec_rep w v B (l1 ++ x :: l2) ->
  wp False (erase sz (slot sz (data v) (Z.of_nat (length l1))) v) (fun r w' =>
    cxx_inv w' (B ++ R) /\ vec_rep w' r.2 B (l1 ++ l2) /\ frame R w w' /\ capacity r.2 = capacity v /\
    r.1 = slot sz (data r.2) (Z.of_nat (length l1))) w.
Proof.
  intros Hi Hr. pose proof (vr_size _ _ _ _ Hr) as Hs. rewrite length_app in Hs. cbn in Hs. pose proof (vr_le _ _ _ _ Hr).
  destruct (vr_block _ _ _ _ Hr) as [(Hc & _)|(Hc & b & -> & Hp)]; [lia|].
  destruct (block_slot _ _ b _ _ (Z.of_nat (length l1)) Hi ltac:(inlist) Hp) as [Ep _]; [lia|].
  destruct (block_slot _ _ b _ _ (size v) Hi ltac:(inlist) Hp) as [Ee _]; [lia|].
  pose proof (vr_elements _ _ _ _ Hr) as He. unfold erase, end_. rewrite Ep, Ee. apply wp_bind.
  replace (size v) with (Z.of_nat (length l1) + 1 + Z.of_nat (length l2)) at 2 by lia.
  eapply wp_mono; [apply (shift_spec b R (data v) (capacity v) l2 w _ _ x Hi Hp); try lia|done|].
  - apply He. by rewrite lookup_app_r, Nat.sub_diag by lia.
  - intros i z Hz. replace (data v + (Z.of_nat (length l1) + 1) * sz + Z.of_nat i * sz)
      with (data v + Z.of_nat (length l1 + S i) * sz) by lia.
    apply He. rewrite lookup_app_r by lia. by replace (length l1 + S i - length l1)%nat with (S i) by lia.
  - intros _ w1 (Hi1 & Hf1 & Hl1 & (z & Hz) & Hlow). apply wp_bind.
    eapply wp_mono; [apply (pop_back_spec w1 v [b] R (l1 ++ l2) z Hi1)|done|].
    + split; [rewrite !length_app; cbn; lia|done|by right; split; [|exists b]|].
      intros i u Hu. destruct (decide (i < length l1)%nat) as [Hlt|Hge].
      * rewrite <- app_assoc, lookup_app_l in Hu by done. rewrite Hlow by nia. apply He. by rewrite lookup_app_l.
      * rewrite <- app_assoc, lookup_app_r in Hu by lia.
        replace (Z.of_nat i) with (Z.of_nat (length l1) + Z.of_nat (i - length l1)) by lia.
        rewrite Z.mul_add_distr_r, Z.add_assoc.
        apply lookup_app_Some in Hu as [Hu|[Hge' Hu]]; [by apply Hl1|].
        assert (i - length l1 - length l2 = 0)%nat as E0 by (apply lookup_lt_Some in Hu; cbn in Hu; lia).
        rewrite E0 in Hu. injection Hu as <-. rewrite <- Hz, <- Z.add_assoc, <- Z.mul_add_distr_r. repeat f_equal. lia.
    + intros v2 w2 (Hi2 & Hr2 & Hf2 & Hc2). apply wp_ret. cbn [fst snd]. split_and!; [done|done|by eapply frame_trans|done|].
      symmetry. destruct (vr_block _ _ _ _ Hr2) as [(Hc' & _)|(_ & b2 & [= <-] & Hp2)]; [lia|].
      rewrite Hp in Hp2. injection Hp2 as Hd _. by rewrite <- Hd.
Qed.

(** ** Many elements *)

(** One more element where there is room. *)
Lemma push_room w v B R l x y :
  cxx_inv w (B ++ R) -> vec_rep w v B l -> denotes w R x y -> size v < capacity v -> affordable (capacity v) ->
  wp False (push_back sz al x v) (fun v' w' => exists B',
    cxx_inv w' (B' ++ R) /\ vec_rep w' v' B' (l ++ [y]) /\ frame R w w' /\ capacity v' = capacity v) w.
Proof.
  intros Hi Hr Hx Hlt Hg. assert (Hgr : grown v = capacity v) by (unfold grown; rewrite (proj2 (Z.eqb_neq _ _)) by lia; done).
  eapply wp_mono; [by eapply push_back_spec; [..|rewrite Hgr]|lia|]. rewrite Hgr. auto.
Qed.

Lemma times_spec R x y : forall n w v B l,
  cxx_inv w (B ++ R) -> vec_rep w v B l -> denotes w R x y -> size v + Z.of_nat n <= capacity v -> affordable (capacity v) ->
  wp False (emplace_times sz al n x v) (fun v' w' => exists B',
    cxx_inv w' (B' ++ R) /\ vec_rep w' v' B' (l ++ replicate n y) /\ frame R w w' /\ capacity v' = capacity v) w.
Proof.
  induction n as [|n IH]; intros w v B l Hi Hr Hx Hn Hg; cbn [emplace_times replicate].
  - apply wp_ret. exists B. by rewrite app_nil_r.
  - apply wp_bind. eapply wp_mono; [eapply push_room; (done || lia)|done|].
    intros v1 w1 (B1 & Hi1 & Hr1 & Hf1 & Hc1). pose proof (vr_size _ _ _ _ Hr). pose proof (vr_size _ _ _ _ Hr1) as Hs1.
    rewrite length_app in Hs1. cbn in Hs1.
    eapply wp_mono; [apply (IH w1 v1 B1 (l ++ [y])); [done|done|by eapply denotes_frame|lia|by rewrite Hc1]|done|].
    intros v2 w2 (B2 & Hi2 & Hr2 & Hf2 & Hc2). exists B2. rewrite <- app_assoc in Hr2.
    split_and!; [done|done|by eapply frame_trans|lia].
Qed.

Lemma resize_spec w v B R l x y n :
  cxx_inv w (B ++ R) -> vec_rep w v B l -> denotes w R x y -> affordable (Z.max (Z.of_nat n) (capacity v)) ->
  wp (capacity v < Z.of_nat n) (resize sz al (Z.of_nat n) x v) (fun v' w' => exists B',
    cxx_inv w' (B' ++ R) /\ vec_rep w' v' B' (take n l ++ replicate (n - length l) y) /\ frame R w w') w.
Proof.
  intros Hi Hr Hx Hg. pose proof (vr_size _ _ _ _ Hr) as Hs. unfold resize. destruct (Z.ltb_spec (Z.of_nat n) (size v)).
  - apply wp_bind. rewrite <- (take_drop n l) in Hr. apply (wp_weaken False); [|done].
    pose proof (truncate_spec w v B R (take n l) (drop n l) Hi Hr) as Ht. rewrite length_take, length_drop in Ht.
    replace (Z.to_nat (size v - Z.of_nat n)) with (length l - n)%nat by lia. rewrite Nat.min_l in Ht by lia.
    eapply wp_mono; [exact Ht|done|]. intros _ w' (Hi' & Hr' & Hf'). apply wp_ret. exists B.
    replace (n - length l)%nat with 0%nat by lia. cbn. by rewrite app_nil_r.
  - apply wp_bind. eapply wp_mono; [by apply (vector_reserve_spec w v B R l (Z.of_nat n))|done|].
    intros v1 w1 (B1 & Hi1 & Hr1 & Hf1 & Hc1). pose proof (vr_size _ _ _ _ Hr1) as Hs1.
    eapply wp_mono; [apply (times_spec R x y _ w1 v1 B1 l); [done|done|by eapply denotes_frame|lia|by rewrite Hc1]|done|].
    intros v2 w2 (B2 & Hi2 & Hr2 & Hf2 & _). exists B2. rewrite take_ge by lia.
    replace (Z.to_nat (Z.of_nat n - size v1)) with (n - length l)%nat in Hr2 by lia.
    split_and!; [done|done|by eapply frame_trans].
Qed.

(** Copying the elements of another array. *)
Lemma from_spec R b p c l' : b ∈ R -> pay b = (p, c * sz) -> forall i w v B l,
  0 <= i -> i + Z.of_nat (length l') <= c -> elements w (p + i * sz) l' ->
  cxx_inv w (B ++ R) -> vec_rep w v B l -> size v + Z.of_nat (length l') <= capacity v -> affordable (capacity v) ->
  wp False (emplace_from sz al p i (length l') v) (fun v' w' => exists B',
    cxx_inv w' (B' ++ R) /\ vec_rep w' v' B' (l ++ l') /\ frame R w w') w.
Proof.
  intros Hb Hp. induction l' as [|x l' IH]; intros i w v B l Hi0 Hc Hl' Hi Hr Hn Hg; cbn [length emplace_from] in *.
  - apply wp_ret. exists B. by rewrite app_nil_r.
  - destruct (block_slot w (B ++ R) b p c i Hi ltac:(set_solver) Hp) as [-> Hc32]; [lia|]. rewrite (add32_small i 1) by lia.
    pose proof (cell_within b p c i Hp ltac:(lia)) as Hwb. apply wp_bind.
    eapply wp_mono; [eapply (push_room w v B R l _ x Hi Hr); [|lia|done]|done|].
    + split; [|by exists b]. rewrite <- (Hl' 0%nat x eq_refl). f_equal. lia.
    + intros v1 w1 (B1 & Hi1 & Hr1 & Hf1 & Hc1). pose proof (vr_size _ _ _ _ Hr). pose proof (vr_size _ _ _ _ Hr1) as Hs1.
      rewrite length_app in Hs1. cbn in Hs1.
      eapply wp_mono; [apply (IH (i + 1) w1 v1 B1 (l ++ [x])); try (done || lia)|done|].
      * intros j z Hj. pose proof (lookup_lt_Some _ _ _ Hj).
        replace (p + (i + 1) * sz + Z.of_nat j * sz) with (p + (i + 1 + Z.of_nat j) * sz) by lia.
        rewrite (Hf1 b); [|done|apply (cell_within b p c); [done|lia]]. rewrite <- (Hl' (S j) z Hj). f_equal. lia.
      * by rewrite Hc1.
      * intros v2 w2 (B2 & Hi2 & Hr2 & Hf2). exists B2. rewrite <- app_assoc in Hr2. split_and!; [done|done|by eapply frame_trans].
Qed.

Lemma copy_from w v B R other l' :
  cxx_inv w (B ++ R) -> vec_rep w v B [] -> (exists B', vec_rep w other B' l' /\ B' ⊆ R) ->
  affordable (Z.max (size other) (capacity v)) ->
  wp (capacity v < size other) (v ← reserve sz al (size other) v; emplace_from sz al (data other) 0 (Z.to_nat (size other)) v)
    (fun v' w' => exists B', cxx_inv w' (B' ++ R) /\ vec_rep w' v' B' l' /\ frame R w w') w.
Proof.
  intros Hi Hr (B' & Hr' & Hsub) Hg. pose proof (vr_size _ _ _ _ Hr') as Hs'. pose proof (vr_le _ _ _ _ Hr'). apply wp_bind.
  eapply wp_mono; [by apply (vector_reserve_spec w v B R [] (size other))|done|]. intros v1 w1 (B1 & Hi1 & Hr1 & Hf1 & Hc1).
  rewrite Hs', Nat2Z.id. apply (wp_weaken False); [|done]. pose proof (vr_size _ _ _ _ Hr1) as Hs1. cbn in Hs1.
  destruct (vr_block _ _ _ _ Hr') as [(Hc & _ & _)|(Hc & b & -> & Hp)].
  - assert (l' = []) as -> by (apply length_zero_iff_nil; lia). cbn [length emplace_from]. apply wp_ret. by exists B1.
  - assert (Hb : b ∈ R) by set_solver.
    eapply wp_mono; [apply (from_spec R b _ _ l' Hb Hp 0 w1 v1 B1 []); try (done || lia)|done|].
    + eapply elements_ext; [rewrite Z.mul_0_l, Z.add_0_r; apply (vr_elements _ _ _ _ Hr')|].
      intros i Hi'. rewrite Z.mul_0_l, Z.add_0_r. apply (Hf1 b); [done|]. apply (cell_within b _ (capacity other)); [done|lia].
    + by rewrite Hc1.
    + intros v2 w2 (B2 & Hi2 & Hr2 & Hf2). exists B2. split_and!; [done|done|by eapply frame_trans].
Qed.

(** ** Calls *)

Inductive call :=
| PushBack (x : T) | PushBackOwn (i : nat) | PopBack | Erase (i : nat) | Clear
| Reserve (n : nat) | Resize (n : nat) (x : T) | AssignCopy (other : vector).

Definition run (c : call) v : prog (world H T) vector :=
  match c with
  | PushBack x => push_back sz al (Temporary x) v
  | PushBackOwn i => push_back sz al (Reference (index_ sz (Z.of_nat i) v)) v
  | PopBack => pop_back sz v
  | Erase i => '(_, v) ← erase sz (index_ sz (Z.of_nat i) v) v; mret v
  | Clear => clear sz v
  | Reserve n => reserve sz al (Z.of_nat n) v
  | Resize n x => resize sz al (Z.of_nat n) (Temporary x) v
  | AssignCopy other => assign_copy sz al v other false
  end.

(** The capacity a call needs. *)
Definition needed (c : call) v : Z :=
  match c with
  | PushBack _ => grown v
  | Reserve n | Resize n _ => Z.max (Z.of_nat n) (capacity v)
  | AssignCopy other => Z.max (size other) (capacity v)
  | _ => capacity v
  end.

(** What it does to a list, where it is legal; [src] is the list of the vector
    copied from. *)
Definition spec (c : call) (src l : list T) : option (list T) :=
  match c with
  | PushBack x => Some (l ++ [x])
  | PushBackOwn i => x ← l !! i; Some (l ++ [x])
  | PopBack => match l with [] => None | _ => Some (take (length l - 1) l) end
  | Erase i => if decide (i < length l)%nat then Some (delete i l) else None
  | Clear => Some []
  | Reserve n => Some l
  | Resize n x => Some (take n l ++ replicate (n - length l) x)
  | AssignCopy _ => Some src
  end.

Definition allowed (c : call) w R v src : Prop :=
  match c with
  | PushBackOwn i => size v < capacity v
  | AssignCopy other => exists B', vec_rep w other B' src /\ B' ⊆ R
  | _ => True
  end.

(** C7: A vector behaves as a list: every call the specification defines has
    defined behaviour, or halts because the heap is out of memory while it
    grows; it yields the list of the specification, frees what it replaces and
    leaves every other block alone. *)
Theorem vector_refines_list w v B R l src c l' :
  cxx_inv w (B ++ R) -> vec_rep w v B l -> spec c src l = Some l' -> allowed c w R v src -> affordable (needed c v) ->
  wp (size v = capacity v \/ capacity v < needed c v) (run c v) (fun v' w' => exists B',
    cxx_inv w' (B' ++ R) /\ vec_rep w' v' B' l' /\ frame R w w') w.
Proof.
  intros Hi Hr Hc Ha Hg. destruct c as [x|i| |i| |n|n x|other]; cbn [run spec allowed needed] in *.
  - injection Hc as <-. eapply wp_mono; [by eapply (push_back_spec w v B R l (Temporary x) x)|by left|]. naive_solver.
  - apply bind_Some in Hc as (x & Hx & [= <-]). eapply wp_mono; [by apply (push_own_spec w v B R l i x)|done|]. naive_solver.
  - destruct l as [|a l] using rev_ind; [done|]. assert (l' = l) as ->.
    { rewrite length_app in Hc. cbn in Hc. replace (length l + 1 - 1)%nat with (length l) in Hc by lia.
      rewrite take_app_length in Hc. destruct l; by injection Hc. }
    eapply wp_mono; [by apply (pop_back_spec w v B R l a)|done|]. naive_solver.
  - case_decide as Hlt; [|done]. injection Hc as <-. destruct (lookup_lt_is_Some_2 l i Hlt) as [x Hx].
    pose proof (take_drop_middle l i x Hx) as E. rewrite <- E in Hr. unfold index_.
    pose proof (erase_spec w v B R _ x _ Hi Hr) as He. rewrite length_take, Nat.min_l in He by lia.
    apply wp_bind. eapply wp_mono; [exact He|done|].
    intros [p v'] w' (Hi' & Hr' & Hf' & _). apply wp_ret. exists B. rewrite delete_take_drop. done.
  - injection Hc as <-. eapply wp_mono; [by eapply (clear_spec w v B R l)|done|]. naive_solver.
  - injection Hc as <-. eapply wp_mono; [by eapply (vector_reserve_spec w v B R l)|lia|]. naive_solver.
  - injection Hc as <-. eapply wp_mono; [by eapply (resize_spec w v B R l (Temporary x) x)|lia|]. naive_solver.
  - injection Hc as <-. unfold assign_copy. apply wp_bind. eapply wp_mono; [by eapply clear_spec|done|].
    intros v1 w1 (Hi1 & Hr1 & Hf1 & ->).
    assert (Hsrc : exists B', vec_rep w1 other B' src /\ B' ⊆ R).
    { destruct Ha as (B' & Hr' & Hsub). exists B'. split; [|done]. destruct Hr'. split; [done..|].
      eapply elements_ext; [done|]. intros i Hi'. destruct vr_block0 as [(Hc & _ & _)|(Hc & b & -> & Hp)]; [lia|].
      apply (Hf1 b); [set_solver|]. apply (cell_within b _ (capacity other)); [done|lia]. }
    eapply wp_mono; [apply (copy_from w1 _ B R other src Hi1 Hr1 Hsrc)|cbn; lia|]; cbn [capacity].
    + done.
    + intros v2 w2 (B2 & Hi2 & Hr2 & Hf2). exists B2. split_and!; [done|done|by eapply frame_trans].
Qed.

(** Appending an element of a full vector to itself reads it after the storage
    it lives in has been given back: the call never returns a result. *)
Theorem vector_push_own_undefined w v B R l i :
  cxx_inv w (B ++ R) -> vec_rep w v B l -> (i < length l)%nat -> size v = capacity v -> affordable (grown v) ->
  push_back sz al (Reference (index_ sz (Z.of_nat i) v)) v w ∈ [Halts; Undefined].
Proof.
  intros Hi Hr Hlt Hfull Hg. pose proof (vr_size _ _ _ _ Hr) as Hs. unfold index_, grown, affordable in *.
  rewrite (proj2 (Z.eqb_eq _ _)) in Hg by done. rewrite Z.max_r in Hg by lia.
  destruct (vr_block _ _ _ _ Hr) as [(Hc & _)|(Hc & b & -> & Hp)]; [lia|]. cbn [app] in *.
  destruct (block_slot _ _ b _ _ (Z.of_nat i) Hi ltac:(inlist) Hp) as [-> Hc32]; [lia|].
  unfold push_back, emplace_back, mbind, prog_bind. rewrite (proj2 (Z.eqb_eq _ _)) by done.
  rewrite (proj2 (Z.eqb_neq (capacity v) 0)) by lia. pose proof (heap_limit_le H). unfold overhead in Hg.
  rewrite mul32_small by nia. rewrite (Z.mul_comm _ 2).
  pose proof (reallocate_spec w v [b] R l (2 * capacity v) Hi Hr) as Hre. unfold wp, overhead in Hre.
  destruct (reallocate _ _ _ _ w) as [[v1 w1]| |]; [|set_solver|set_solver].
  destruct Hre as (_ & _ & _ & _ & _ & _ & Hdead); [lia..|]. cbn [value_of]. unfold read.
  rewrite (Hdead b); [set_solver|inlist|]. apply (cell_within b _ (capacity v)); [done|lia].
Qed.

End proofs.

(** ** On a concrete heap *)

Definition boot_world : world Z Z := fresh_world 0xC0000000.

Lemma boot_world_inv : cxx_inv boot_world [].
Proof. apply fresh_inv. by split_and!. Qed.

(** Appending to an empty vector of words. *)
Lemma vector_refines_list_witness :
  wp (size empty_vector = capacity empty_vector \/ capacity empty_vector < 1) (run 4 2 (PushBack 7) empty_vector)
    (fun v w' => exists B', cxx_inv w' (B' ++ []) /\ vec_rep 4 w' v B' [7] /\ frame [] boot_world w') boot_world.
Proof.
  apply (vector_refines_list 4 2 ltac:(lia) ltac:(lia) boot_world empty_vector [] [] [] [] (PushBack 7) [7]).
  - apply boot_world_inv.
  - apply empty_rep.
  - reflexivity.
  - exact I.
  - unfold affordable. by vm_compute.
Defined.

(** A vector of one element, appended to itself. *)
Lemma vector_push_own_undefined_witness :
  exists v w, push_back 4 (2 ^ 2) (Temporary 7) empty_vector boot_world = Returns (v, w) /\
    push_back 4 (2 ^ 2) (Reference (index_ 4 0 v)) v w ∈ [Halts; Undefined].
Proof.
  pose proof (push_back_spec 4 2 ltac:(lia) ltac:(lia) boot_world empty_vector [] [] [] (Temporary 7) 7
    boot_world_inv (empty_rep 4 boot_world) eq_refl ltac:(by vm_compute)) as Hw.
  assert (Hr : exists r, push_back 4 (2 ^ 2) (Temporary 7) empty_vector boot_world = Returns r).
  { eexists. vm_compute. reflexivity. }
  destruct Hr as [[v w] E]. unfold wp in Hw. rewrite E in Hw. exists v, w. split; [exact E|]. destruct Hw as (B & Hi & Hr & _ & Hc).
  apply (vector_push_own_undefined 4 2 ltac:(lia) ltac:(lia) w v B [] [7] 0%nat Hi Hr).
  - cbn. lia.
  - rewrite Hc, (vr_size _ _ _ _ _ Hr). reflexivity.
  - unfold affordable, grown. rewrite Hc, (vr_size _ _ _ _ _ Hr). by vm_compute.
Defined.
