(* ===== verification/HashMap.v ===== *)
(** * kstd::unordered_map

    Models libkxx/include/kstd/unordered_map.hpp: separate chaining with a
    power-of-two array of buckets that doubles when it is full.  The nodes and
    the array are objects of the world of [Cxx]; a map is shown to behave as a
    finite map. *)

From S2P Require Import Prelude HeapInterface Cxx.

Record unordered_map := Map { buckets : Z; bucket_count : Z; msize : Z }.

Definition empty_map : unordered_map := Map 0 0 0.
Definition INITIAL_BUCKETS : Z := 8.

(** What lives in storage: an element of the array of buckets, or a [Node]. *)
Inductive obj (K V : Type) := Bucket (p : Z) | Node (key : K) (value : V) (next : Z).
Arguments Bucket {K V} p.
Arguments Node {K V} key value next.

Record iterator := Iterator { it_bucket : Z; it_bucket_end : Z; it_node : Z }.

Section operations.
Context {H K V : Type} `{HeapOps H} `{EqDecision K} (hash : K -> Z) (node_size node_align : Z).
Implicit Types (m : unordered_map) (key : K).

Abbreviation prog := (prog (world H (obj K V))).

(** [_buckets[i]] *)
Definition bucket_at (p i : Z) : Z := p ⊞ (i ⊠ 4).
Definition read_bucket (a : Z) : prog Z :=
  o ← read a; match o with Bucket p => mret p | Node _ _ _ => undefined end.
Definition read_node (a : Z) : prog (K * V * Z) :=
  o ← read a; match o with Bucket _ => undefined | Node k v n => mret (k, v, n) end.

Definition bucket_index key m : Z := Z.land (hash key) (bucket_count m ⊟ 1).

(** The walks along a chain; the number of elements bounds them. *)
Definition chain_fuel m : nat := S (Z.to_nat (msize m)).

(** [for (node = _buckets[index]; node != nullptr; node = node->next) if (key equal) ...]:
    the node found, or NULL. *)
Fixpoint find_node (fuel : nat) (node : Z) key : prog Z :=
  match fuel with
  | O => undefined
  | S fuel =>
    if node =? 0 then mret 0
    else
      '(k, _, next) ← read_node node;
      if decide (k = key) then mret node else find_node fuel next key
  end.

Definition end_ m : iterator :=
  let bucket_end := bucket_at (buckets m) (bucket_count m) in Iterator bucket_end bucket_end 0.

Definition find key m : prog iterator :=
  if bucket_count m =? 0 then mret (end_ m)
  else
    let index := bucket_index key m in
    first ← read_bucket (bucket_at (buckets m) index);
    node ← find_node (chain_fuel m) first key;
    if node =? 0 then mret (end_ m)
    else mret (Iterator (bucket_at (buckets m) index) (bucket_at (buckets m) (bucket_count m)) node).

Definition contains key m : prog bool := it ← find key m; mret (negb (it_node it =? it_node (end_ m))).

(** [at]: the node whose value is referred to. *)
Definition at_ key m : prog Z :=
  it ← find key m; if it_node it =? it_node (end_ m) then fatal else mret (it_node it).

(** Moving one chain to the fresh array, node by node. *)
Fixpoint rehash_chain (fuel : nat) (node fresh mask : Z) : prog unit :=
  match fuel with
  | O => undefined
  | S fuel =>
    if node =? 0 then mret tt
    else
      '(k, v, next) ← read_node node;
      let index := Z.land (hash k) mask in
      first ← read_bucket (bucket_at fresh index);
      _ ← assign node (Node k v first);
      _ ← assign (bucket_at fresh index) (Bucket node);
      rehash_chain fuel next fresh mask
  end.

Fixpoint rehash (m : unordered_map) (i : Z) (n : nat) (fresh mask : Z) : prog unit :=
  match n with
  | O => mret tt
  | S n =>
    node ← read_bucket (bucket_at (buckets m) i);
    _ ← rehash_chain (chain_fuel m) node fresh mask;
    rehash m (i ⊞ 1) n fresh mask
  end.

(** [for (i = 0; i < count; ++i) fresh[i] = nullptr;] *)
Fixpoint clear_buckets (p i : Z) (n : nat) : prog unit :=
  match n with
  | O => mret tt
  | S n => _ ← construct 4 (bucket_at p i) (Bucket 0); clear_buckets p (i ⊞ 1) n
  end.

Definition reserve_buckets (new_bucket_count : Z) m : prog unordered_map :=
  let new_bucket_count := if new_bucket_count <? INITIAL_BUCKETS then INITIAL_BUCKETS else new_bucket_count in
  if new_bucket_count <=? bucket_count m then mret m
  else
    fresh ← allocate 4 4 new_bucket_count;
    _ ← clear_buckets fresh 0 (Z.to_nat new_bucket_count);
    _ ← rehash m 0 (Z.to_nat (bucket_count m)) fresh (new_bucket_count ⊟ 1);
    _ ← (if buckets m =? 0 then mret tt else deallocate (buckets m));
    mret (Map fresh new_bucket_count (msize m)).

Definition ensure_capacity m : prog unordered_map :=
  if bucket_count m =? 0 then reserve_buckets INITIAL_BUCKETS m
  else if bucket_count m <? msize m ⊞ 1 then reserve_buckets (bucket_count m ⊠ 2) m
  else mret m.

Definition insert_node (index : Z) key (value : V) m : prog (Z * unordered_map) :=
  node ← allocate node_size node_align 1;
  first ← read_bucket (bucket_at (buckets m) index);
  _ ← construct node_size node (Node key value first);
  _ ← assign (bucket_at (buckets m) index) (Bucket node);
  mret (node, Map (buckets m) (bucket_count m) (msize m ⊞ 1)).

(** [emplace]: the node, whether it is new, and the map. *)
Definition emplace key (value : V) m : prog (Z * bool * unordered_map) :=
  m ← ensure_capacity m;
  let index := bucket_index key m in
  first ← read_bucket (bucket_at (buckets m) index);
  node ← find_node (chain_fuel m) first key;
  if node =? 0 then '(node, m) ← insert_node index key value m; mret (node, true, m)
  else mret (node, false, m).
Definition insert (entry : K * V) m : prog (Z * bool * unordered_map) := emplace entry.1 entry.2 m.

(** [operator[]] refers to the value of the node it returns; [V()] is [init]. *)
Definition subscript (init : V) key m : prog (Z * unordered_map) :=
  m ← ensure_capacity m;
  let index := bucket_index key m in
  first ← read_bucket (bucket_at (buckets m) index);
  node ← find_node (chain_fuel m) first key;
  if node =? 0 then insert_node index key init m else mret (node, m).
(** [m[key] = value] *)
Definition subscript_assign (init : V) key (value : V) m : prog unordered_map :=
  '(node, m) ← subscript init key m;
  '(k, _, next) ← read_node node;
  _ ← assign node (Node k value next);
  mret m.

Definition destroy_node (node : Z) : prog unit := _ ← destroy node; deallocate node.

(** The walk of [erase]: [previous] is NULL at the head of the chain. *)
Fixpoint erase_walk (fuel : nat) (bucket previous node : Z) key : prog bool :=
  match fuel with
  | O => undefined
  | S fuel =>
    if node =? 0 then mret false
    else
      '(k, _, next) ← read_node node;
      if decide (k = key) then
        _ ← (if previous =? 0 then assign bucket (Bucket next)
             else '(pk, pv, _) ← read_node previous; assign previous (Node pk pv next));
        _ ← destroy_node node;
        mret true
      else erase_walk fuel bucket node next key
  end.

Definition erase key m : prog (Z * unordered_map) :=
  if bucket_count m =? 0 then mret (0, m)
  else
    let bucket := bucket_at (buckets m) (bucket_index key m) in
    first ← read_bucket bucket;
    found ← erase_walk (chain_fuel m) bucket 0 first key;
    if found : bool then mret (1, Map (buckets m) (bucket_count m) (msize m ⊟ 1)) else mret (0, m).

Fixpoint clear_chain (fuel : nat) (node : Z) : prog unit :=
  match fuel with
  | O => undefined
  | S fuel =>
    if node =? 0 then mret tt
    else
      '(_, _, next) ← read_node node;
      _ ← destroy_node node;
      clear_chain fuel next
  end.

Fixpoint clear_from (m : unordered_map) (i : Z) (n : nat) : prog unit :=
  match n with
  | O => mret tt
  | S n =>
    node ← read_bucket (bucket_at (buckets m) i);
    _ ← clear_chain (chain_fuel m) node;
    _ ← assign (bucket_at (buckets m) i) (Bucket 0);
    clear_from m (i ⊞ 1) n
  end.

Definition clear m : prog unordered_map :=
  _ ← clear_from m 0 (Z.to_nat (bucket_count m));
  mret (Map (buckets m) (bucket_count m) 0).

Definition clear_and_free m : prog unordered_map :=
  m ← clear m;
  _ ← (if buckets m =? 0 then mret tt else deallocate (buckets m));
  mret (Map 0 0 (msize m)).

(** *** Iteration *)

(** [while (bucket != bucket_end && *bucket == nullptr) ++bucket;] *)
Fixpoint skip_empty (fuel : nat) (bucket bucket_end : Z) : prog Z :=
  match fuel with
  | O => undefined
  | S fuel =>
    if bucket =? bucket_end then mret bucket
    else
      first ← read_bucket bucket;
      if first =? 0 then skip_empty fuel (bucket ⊞ 4) bucket_end else mret bucket
  end.

Definition begin_ m : prog iterator :=
  if bucket_count m =? 0 then mret (end_ m)
  else
    let bucket_end := bucket_at (buckets m) (bucket_count m) in
    bucket ← skip_empty (S (Z.to_nat (bucket_count m))) (buckets m) bucket_end;
    if bucket =? bucket_end then mret (Iterator bucket bucket_end 0)
    else first ← read_bucket bucket; mret (Iterator bucket bucket_end first).

(** [while (_node == nullptr && ++_bucket != _bucket_end) _node = *_bucket;] *)
Fixpoint next_bucket (fuel : nat) (it : iterator) : prog iterator :=
  match fuel with
  | O => undefined
  | S fuel =>
    if it_node it =? 0 then
      let bucket := it_bucket it ⊞ 4 in
      if bucket =? it_bucket_end it then mret (Iterator bucket (it_bucket_end it) 0)
      else first ← read_bucket bucket; next_bucket fuel (Iterator bucket (it_bucket_end it) first)
    else mret it
  end.

Definition increment (fuel : nat) (it : iterator) : prog iterator :=
  '(_, _, next) ← read_node (it_node it);
  next_bucket fuel (Iterator (it_bucket it) (it_bucket_end it) next).

(** A range-based [for] over the map: the entries in the order it visits them. *)
Fixpoint visit (fuel step_fuel : nat) (it : iterator) : prog (list (K * V)) :=
  match fuel with
  | O => undefined
  | S fuel =>
    if it_node it =? 0 then mret []
    else
      '(k, v, _) ← read_node (it_node it);
      it ← increment step_fuel it;
      l ← visit fuel step_fuel it;
      mret ((k, v) :: l)
  end.
Definition entries m : prog (list (K * V)) :=
  it ← begin_ m; visit (chain_fuel m) (S (Z.to_nat (bucket_count m))) it.

(** [erase(position)] returns the next iterator. *)
Definition erase_at (position : iterator) m : prog (iterator * unordered_map) :=
  next ← increment (S (Z.to_nat (bucket_count m))) position;
  '(k, _, _) ← read_node (it_node position);
  '(_, m) ← erase k m;
  mret (next, m).

(** The loop of the copies: [for (entry : other) emplace(entry.first, entry.second);] *)
Fixpoint copy_loop (fuel step_fuel : nat) (it : iterator) m : prog unordered_map :=
  match fuel with
  | O => undefined
  | S fuel =>
    if it_node it =? 0 then mret m
    else
      '(k, v, _) ← read_node (it_node it);
      '(_, _, m) ← emplace k v m;
      it ← increment step_fuel it;
      copy_loop fuel step_fuel it m
  end.

Definition copy_into (other m : unordered_map) : prog unordered_map :=
  m ← reserve_buckets (bucket_count other) m;
  it ← begin_ other;
  copy_loop (chain_fuel other) (S (Z.to_nat (bucket_count other))) it m.
Definition map_copy (other : unordered_map) : prog unordered_map := copy_into other empty_map.
Definition assign_copy m (other : unordered_map) (same : bool) : prog unordered_map :=
  if same then mret m else m ← clear_and_free m; copy_into other m.
Definition map_move (other : unordered_map) : unordered_map * unordered_map := (other, empty_map).
Definition assign_move m (other : unordered_map) (same : bool) : prog (unordered_map * unordered_map) :=
  if same then mret (m, m) else _ ← clear_and_free m; mret (other, empty_map).

Definition size m : Z := msize m.
Definition empty m : bool := msize m =? 0.

End operations.
