(* ===== verification/HashMapProofs.v ===== *)
(** * kstd::unordered_map behaves as a finite map

    Proofs about [HashMap]: what a map means in terms of its chains, that
    every operation keeps that meaning, and what it does to the finite map. *)

From S2P Require Import Prelude HeapInterface Cxx HashMap.

(** ** Facts about blocks *)

Section blocks.
Context {H O : Type} `{HeapLaws H}.
Implicit Types (w : world H O) (B : list block).

Lemma starts_nodup B : Forall block_ok B -> separate (raw <$> B) -> NoDup ((fun b => (pay b).1) <$> B).
Proof.
  induction B as [|b B IH]; [intros; apply NoDup_nil_2|]. rewrite fmap_cons. intros [Hb HB]%Forall_cons (Hr & Ha & Hs).
  rewrite fmap_cons. apply NoDup_cons. split; [|by apply IH].
  intros (b' & E & Hb')%list_elem_of_fmap. rewrite Forall_fmap, Forall_forall in Ha. specialize (Ha b' Hb').
  rewrite Forall_forall in HB. specialize (HB b' Hb'). unfold block_ok, apart, compose in *. lia.
Qed.

Lemma inv_starts w B : cxx_inv w B -> NoDup ((fun b => (pay b).1) <$> B).
Proof. intros Hi. apply starts_nodup; [apply (ci_blocks _ _ Hi)|by eapply inv_separate]. Qed.

(** Assigning to a living object. *)
Lemma inv_assign w B a o o' :
  cxx_inv w B -> objects w !! a = Some o' -> cxx_inv (with_objects (<[a := o]> (objects w)) w) B.
Proof. intros Hi Ho. destruct (ci_objects _ _ Hi a o' Ho) as (b & Hb & Ha). by eapply inv_insert. Qed.

End blocks.

Section proofs.
Context {H K V : Type} `{HeapLaws H} `{Countable K} (hash : K -> Z) (nsz nk : Z).
Context (Hhash : forall key, 0 <= hash key < 2 ^ 32) (Hnsz : 0 < nsz) (Hnk : 0 <= nk < 32).

Abbreviation entry := (Z * K * V)%type.
Implicit Types (w : world H (obj K V)) (m : unordered_map) (B R : list block) (e : entry) (c : list entry) (ch : list (list entry)).

Definition addr e : Z := e.1.1.
Definition ekey e : K := e.1.2.
Definition evalue e : V := e.2.
Definition pair_of e : K * V := (ekey e, evalue e).

(** ** Chains in memory *)

Definition first c : Z := match c with [] => 0 | e :: _ => addr e end.

Fixpoint links w c : Prop :=
  match c with
  | [] => True
  | e :: c => addr e <> 0 /\ objects w !! addr e = Some (Node (ekey e) (evalue e) (first c)) /\ links w c
  end.

(** The array at [p] holds the heads of the chains [ch], from index [i]. *)
Definition table_from w (p i : Z) ch : Prop :=
  forall j c, ch !! j = Some c -> objects w !! (p + (i + Z.of_nat j) * 4) = Some (Bucket (first c)) /\ links w c.
Abbreviation table w p ch := (table_from w p 0 ch).

(** No node lies in the array of [n] buckets at [p]. *)
Definition off_cells (p n : Z) (l : list Z) : Prop := forall a i, a ∈ l -> 0 <= i < n -> a <> p + i * 4.

Lemma links_ext w w' c :
  (forall e, e ∈ c -> objects w' !! addr e = objects w !! addr e) -> links w c -> links w' c.
Proof.
  induction c as [|e c IH]; cbn; [done|]. intros Hx (Ha & Ho & Hl). rewrite Hx by inlist.
  split_and!; [done..|]. apply IH; [|done]. intros e' He'. apply Hx. by right.
Qed.

Lemma links_app_r w c1 c2 : links w (c1 ++ c2) -> links w c2.
Proof. induction c1 as [|e c1 IH]; [done|]. intros (_ & _ & Hl). by apply IH. Qed.

Lemma elem_of_chain ch i c e : ch !! i = Some c -> e ∈ c -> e ∈ concat ch.
Proof. intros Hi He. apply list_elem_of_In, in_concat. exists c. split; [by eapply list_elem_of_In, list_elem_of_lookup_2|by apply list_elem_of_In]. Qed.

Lemma elem_of_chain_inv ch e : e ∈ concat ch -> exists i c, ch !! i = Some c /\ e ∈ c.
Proof.
  intros (c & Hc & He)%list_elem_of_In%in_concat. apply list_elem_of_In in Hc, He.
  apply list_elem_of_lookup_1 in Hc as [i Hi]. eauto.
Qed.

Lemma concat_alter ch i e : (i < length ch)%nat -> concat (alter (cons e) i ch) ≡ₚ e :: concat ch.
Proof.
  revert i. induction ch as [|c ch IH]; intros [|i] Hi; cbn in *; [lia..|done|].
  rewrite (IH i) by lia. by rewrite Permutation.Permutation_middle.
Qed.

Lemma chain_split_perm ch i c c1 c2 :
  ch !! i = Some c -> c ≡ₚ c1 ++ c2 -> concat ch ≡ₚ c1 ++ concat (<[i := c2]> ch).
Proof.
  revert i. induction ch as [|x ch IH]; intros [|i] Hi Hc; cbn in *; [done..| |].
  - injection Hi as ->. by rewrite Hc, app_assoc.
  - rewrite (IH i) by done. by rewrite !app_assoc, (Permutation.Permutation_app_comm x c1).
Qed.

(** Putting the node [e] in front of a chain. *)
Lemma table_push w p ch i c a k v :
  table w p ch -> ch !! i = Some c -> a <> 0 -> a ∉ addr <$> concat ch ->
  off_cells p (Z.of_nat (length ch)) (a :: (addr <$> concat ch)) ->
  table (with_objects (<[p + Z.of_nat i * 4 := Bucket a]> (<[a := Node k v (first c)]> (objects w))) w) p
    (alter (cons (a, k, v)) i ch).
Proof.
  intros Ht Hi Ha Hna Hoff j c' Hj. pose proof (lookup_lt_Some _ _ _ Hi) as Hlt.
  assert (Hin : forall i' c' e, ch !! i' = Some c' -> e ∈ c' -> addr e ∈ addr <$> concat ch).
  { intros. apply list_elem_of_fmap_2. by eapply elem_of_chain. }
  assert (Hkeep : forall i' c', ch !! i' = Some c' -> forall e, e ∈ c' ->
            <[p + Z.of_nat i * 4 := Bucket a]> (<[a := Node k v (first c)]> (objects w)) !! addr e = objects w !! addr e).
  { intros i' c0 Hc0 e He. specialize (Hin i' c0 e Hc0 He).
    rewrite lookup_insert_ne, lookup_insert_ne; [done| |].
    - intros ->. done.
    - intros E. apply (Hoff (addr e) (Z.of_nat i)); [by right|lia|done]. }
  assert (Hcell : a <> p + Z.of_nat i * 4) by (apply Hoff; [by left|lia]).
  rewrite Z.add_0_l in *. cbn [objects with_objects]. destruct (decide (j = i)) as [->|Hne].
  - rewrite list_lookup_alter_eq, Hi in Hj. injection Hj as <-. destruct (Ht i c Hi) as [_ Hl].
    split; [by rewrite lookup_insert_eq|]. cbn [links addr fst snd ekey evalue objects with_objects].
    split_and!; [done|by rewrite lookup_insert_ne, lookup_insert_eq|]. eapply links_ext; [|done]. by eapply Hkeep.
  - rewrite list_lookup_alter_ne in Hj by done. pose proof (lookup_lt_Some _ _ _ Hj). destruct (Ht j c' Hj) as [Ho Hl].
    split; [|eapply links_ext; [|done]; by eapply Hkeep].
    rewrite lookup_insert_ne by lia. rewrite lookup_insert_ne; [done|]. apply Hoff; [by left|lia].
Qed.

(** ** Walking a chain *)

Fixpoint chain_find (key : K) c : option entry :=
  match c with
  | [] => None
  | e :: c => if decide (ekey e = key) then Some e else chain_find key c
  end.

Lemma chain_find_None key c : chain_find key c = None <-> key ∉ ekey <$> c.
Proof.
  induction c as [|e c IH]; cbn; [set_solver|]. case_decide; [split; [done|set_solver]|]. rewrite IH. set_solver.
Qed.

Lemma chain_find_Some key c e :
  chain_find key c = Some e -> exists c1 c2, c = c1 ++ e :: c2 /\ ekey e = key /\ key ∉ ekey <$> c1.
Proof.
  induction c as [|e' c IH]; cbn; [done|]. case_decide as Hk.
  - intros [= ->]. exists [], c. set_solver.
  - intros He. destruct (IH He) as (c1 & c2 & -> & Hke & Hn). exists (e' :: c1), c2. split_and!; [done|done|set_solver].
Qed.

Definition found (r : option entry) : Z := match r with Some e => addr e | None => 0 end.

Lemma read_node_entry w e c :
  links w (e :: c) -> read_node (addr e) w = Returns (ekey e, evalue e, first c, w).
Proof. intros (_ & Ho & _). unfold read_node, mbind, prog_bind, read. by rewrite Ho. Qed.

Lemma first_zero w c : links w c -> (first c =? 0) = match c with [] => true | _ => false end.
Proof. destruct c as [|e c]; [done|]. intros (Ha & _). by apply Z.eqb_neq. Qed.

Lemma find_node_eq w key c : forall fuel,
  links w c -> (length c < fuel)%nat -> find_node fuel (first c) key w = Returns (found (chain_find key c), w).
Proof.
  induction c as [|e c IH]; intros [|fuel] Hl Hf; cbn [length] in Hf; [lia|done|lia|].
  cbn [find_node]. rewrite (first_zero w) by done. cbn [first].
  unfold mbind at 1, prog_bind. rewrite (read_node_entry w e c Hl). cbn [chain_find].
  case_decide; [done|]. apply IH; [apply Hl|lia].
Qed.

(** ** Moving chains to a larger array *)

Definition index_of (n : Z) e : nat := Z.to_nat (Z.land (hash (ekey e)) (n - 1)).
Definition place (n : Z) ch e : list (list entry) := alter (cons e) (index_of n e) ch.
Definition spread (n : Z) ch c : list (list entry) := foldl (place n) ch c.

Lemma bucket_eq p n i : 0 <= p -> p + n * 4 < 2 ^ 32 -> 0 <= i <= n -> bucket_at p i = p + i * 4.
Proof. intros. unfold bucket_at. rewrite (mul32_small i 4), add32_small by lia. done. Qed.

Lemma bucket_range key j : 0 <= j -> 0 <= Z.land (hash key) (2 ^ j - 1) < 2 ^ j.
Proof.
  intros Hj. replace (2 ^ j - 1) with (Z.ones j) by (rewrite Z.ones_equiv; lia). rewrite Z.land_ones by lia.
  apply Z.mod_pos_bound. lia.
Qed.

Lemma length_place n ch e : length (place n ch e) = length ch.
Proof. apply length_alter. Qed.

Lemma spread_perm j c : forall ch, 0 <= j -> Z.of_nat (length ch) = 2 ^ j ->
  length (spread (2 ^ j) ch c) = length ch /\ concat (spread (2 ^ j) ch c) ≡ₚ c ++ concat ch.
Proof.
  induction c as [|e c IH]; intros ch Hj Hn; cbn [spread foldl]; [done|].
  destruct (IH (place (2 ^ j) ch e)) as [Hl Hp]; [done|by rewrite length_place|]. rewrite length_place in Hl. split; [done|].
  unfold spread in Hp. rewrite Hp. unfold place. rewrite concat_alter.
  - by rewrite <- Permutation.Permutation_middle.
  - unfold index_of. pose proof (bucket_range (ekey e) j Hj). lia.
Qed.

(** [unchanged l p n w w']: nothing but the nodes [l] and the [n] buckets at
    [p] was assigned. *)
Definition unchanged (l : list Z) (p n : Z) w w' : Prop :=
  forall a, a ∉ l -> (forall i, 0 <= i < n -> a <> p + i * 4) -> objects w' !! a = objects w !! a.

Lemma rehash_chain_spec B p j c : 0 <= j -> 0 <= p -> p + 2 ^ j * 4 < 2 ^ 32 ->
  forall fuel w ch,
  cxx_inv w B -> links w c -> (length c < fuel)%nat -> table w p ch -> Z.of_nat (length ch) = 2 ^ j ->
  NoDup (addr <$> (c ++ concat ch)) -> off_cells p (2 ^ j) (addr <$> (c ++ concat ch)) ->
  wp False (rehash_chain hash fuel (first c) p (2 ^ j - 1)) (fun _ w' =>
    cxx_inv w' B /\ table w' p (spread (2 ^ j) ch c) /\ unchanged (addr <$> c) p (2 ^ j) w w') w.
Proof.
  intros Hj Hp Hpn. induction c as [|e c IH]; intros [|fuel] w ch Hi Hl Hf Ht Hn Hnd Hoff; cbn [length] in Hf; [lia| |lia|].
  { apply wp_ret. split_and!; done. }
  cbn [rehash_chain]. rewrite (first_zero w) by done. cbn [first]. apply wp_bind.
  unfold wp at 1. rewrite (read_node_entry w e c Hl). pose proof (bucket_range (ekey e) j Hj) as Hm.
  rewrite (bucket_eq p (2 ^ j)) by lia. set (i := Z.land _ _) in *.
  destruct (lookup_lt_is_Some_2 ch (Z.to_nat i)) as [ci Hci]; [lia|]. destruct (Ht _ ci Hci) as [Hcell _].
  rewrite Z.add_0_l, Z2Nat.id in Hcell by lia. destruct Hl as (Ha & Ho & Hl).
  rewrite fmap_app, fmap_cons in Hnd, Hoff. cbn [app] in Hnd, Hoff. rewrite <- fmap_app in Hnd, Hoff.
  apply NoDup_cons in Hnd as [Hna Hnd]. assert (Hac : addr e <> p + i * 4) by (apply Hoff; [inlist|lia]).
  apply wp_bind. unfold wp at 1, read_bucket, mbind, prog_bind, read. rewrite Hcell. cbn [mret prog_ret].
  apply wp_bind. eapply wp_assign; [done|]. apply wp_bind.
  eapply wp_assign; [cbn; rewrite lookup_insert_ne by done; exact Hcell|]. cbn [objects with_objects heap words storage].
  set (w1 := with_objects _ _). assert (Hw1 : w1 = with_objects
    (<[p + Z.of_nat (Z.to_nat i) * 4 := Bucket (addr e)]> (<[addr e := Node (ekey e) (evalue e) (first ci)]> (objects w))) w).
  { unfold w1. by rewrite Z2Nat.id by lia. }
  assert (Hi1 : cxx_inv w1 B).
  { pose proof (inv_assign w B _ (Node (ekey e) (evalue e) (first ci)) _ Hi Ho) as Hi0.
    apply (inv_assign _ B (p + i * 4) (Bucket (addr e)) (Bucket (first ci)) Hi0). cbn. by rewrite lookup_insert_ne. }
  assert (Ht1 : table w1 p (place (2 ^ j) ch e)).
  { rewrite Hw1. unfold place, index_of. fold i. destruct e as [[a k] v]. cbn [addr ekey evalue fst snd] in *.
    apply table_push; [done|done|done| |].
    - intros Hin. apply Hna. rewrite fmap_app. inlist.
    - rewrite Hn. intros a' i' Ha' Hi'. apply Hoff; [|done]. rewrite fmap_app.
      apply elem_of_cons in Ha' as [->|Ha']; inlist. }
  assert (Hch : concat (place (2 ^ j) ch e) ≡ₚ e :: concat ch) by (apply concat_alter; unfold index_of; fold i; lia).
  assert (Hl1 : links w1 c).
  { eapply links_ext; [|exact Hl]. intros e' He'. cbn. assert (addr e' ∈ addr <$> c) by (by apply list_elem_of_fmap_2).
    rewrite lookup_insert_ne, lookup_insert_ne; [done| |].
    - intros E. apply Hna. rewrite fmap_app, E. inlist.
    - intros E. apply (Hoff (addr e') i); [rewrite fmap_app; inlist|lia|done]. }
  eapply wp_mono; [apply (IH fuel w1 (place (2 ^ j) ch e)); [done|done|lia|done|by rewrite length_place| |]|done|].
  - rewrite Hch, <- Permutation.Permutation_middle, fmap_cons. by apply NoDup_cons.
  - intros a i' Ha'. apply Hoff. rewrite Hch, <- Permutation.Permutation_middle, fmap_cons in Ha'. done.
  - intros _ w' (Hi' & Ht' & Hu'). split_and!; [done|done|]. intros a Hna' Hnc. rewrite fmap_cons, not_elem_of_cons in Hna'.
    rewrite Hu' by (done || apply Hna'). cbn. rewrite lookup_insert_ne, lookup_insert_ne; [done|apply not_eq_sym, Hna'|]. apply not_eq_sym, Hnc. lia.
Qed.

Lemma rehash_spec B p j q : 0 <= j -> 0 <= p -> p + 2 ^ j * 4 < 2 ^ 32 -> 0 <= q ->
  forall todo i m w ch,
  cxx_inv w B -> buckets m = q -> 0 <= i -> q + (i + Z.of_nat (length todo)) * 4 < 2 ^ 32 ->
  (length (concat todo) < chain_fuel m)%nat ->
  table_from w q i todo -> table w p ch -> Z.of_nat (length ch) = 2 ^ j ->
  NoDup (addr <$> (concat todo ++ concat ch)) -> off_cells p (2 ^ j) (addr <$> (concat todo ++ concat ch)) ->
  off_cells q (i + Z.of_nat (length todo)) (addr <$> concat todo) ->
  (forall i' j', 0 <= i' < i + Z.of_nat (length todo) -> 0 <= j' < 2 ^ j -> q + i' * 4 <> p + j' * 4) ->
  wp False (rehash hash m i (length todo) p (2 ^ j - 1)) (fun _ w' =>
    cxx_inv w' B /\ table w' p (foldl (spread (2 ^ j)) ch todo) /\ unchanged (addr <$> concat todo) p (2 ^ j) w w') w.
Proof.
  intros Hj Hp Hpn Hq. induction todo as [|c todo IH]; intros i m w ch Hi Hqm Hi0 Hqn Hf Htd Ht Hn Hnd Hoff Hoffq Hdisj;
    cbn [length rehash concat foldl] in *.
  { apply wp_ret. split_and!; done. }
  rewrite <- app_assoc in Hnd, Hoff. rewrite length_app in Hf. destruct (Htd 0%nat c eq_refl) as [Hcell Hl]. rewrite Z.add_0_r in Hcell.
  apply wp_bind. rewrite Hqm, (bucket_eq q (i + Z.of_nat (S (length todo)))) by lia.
  unfold wp at 1, read_bucket, mbind, prog_bind, read. rewrite Hcell. cbn [mret prog_ret]. apply wp_bind.
  assert (Hperm : addr <$> c ++ concat todo ++ concat ch ≡ₚ (addr <$> concat todo) ++ (addr <$> c ++ concat ch)).
  { rewrite <- fmap_app, !app_assoc. by rewrite (Permutation.Permutation_app_comm (concat todo) c). }
  rewrite Hperm in Hnd. apply NoDup_app in Hnd as (Hnd1 & Hd & Hnd2).
  eapply wp_mono; [apply (rehash_chain_spec B p j c Hj Hp Hpn _ w ch Hi Hl); [lia|done|done|done|]|done|].
  { intros a i' Ha. apply Hoff. rewrite Hperm. inlist. }
  intros _ w1 (Hi1 & Ht1 & Hu1). rewrite (add32_small i 1) by lia.
  destruct (spread_perm j c ch Hj Hn) as [Hlen Hp1].
  assert (Hperm1 : addr <$> concat todo ++ concat (spread (2 ^ j) ch c) ≡ₚ addr <$> c ++ concat todo ++ concat ch).
  { rewrite Hp1, !app_assoc. by rewrite (Permutation.Permutation_app_comm (concat todo) c). }
  eapply wp_mono; [apply (IH (i + 1) m w1 (spread (2 ^ j) ch c)); try (done || lia)|done|].
  - intros t ct Hct. destruct (Htd (S t) ct Hct) as [Hc Hlt]. pose proof (lookup_lt_Some _ _ _ Hct).
    replace (i + 1 + Z.of_nat t) with (i + Z.of_nat (S t)) by lia. split.
    + rewrite Hu1; [done| |intros; apply Hdisj; lia]. intros Hin.
      apply (Hoffq (q + (i + Z.of_nat (S t)) * 4) (i + Z.of_nat (S t))); [rewrite fmap_app; inlist|lia|done].
    + eapply links_ext; [|exact Hlt]. intros e He. assert (Hin : addr e ∈ addr <$> concat todo).
      { apply list_elem_of_fmap_2. by eapply elem_of_chain. }
      apply Hu1; [intros Hin'; apply (Hd _ Hin); rewrite fmap_app; inlist|].
      intros i' Hi'. apply Hoff; [|done]. rewrite Hperm. inlist.
  - rewrite Hperm1, Hperm. by apply NoDup_app.
  - intros a i' Ha. apply Hoff. by rewrite <- Hperm1.
  - intros a i' Ha Hi'. apply (Hoffq a i'); [rewrite fmap_app; inlist|lia].
  - intros i' j' Hi' Hj'. apply Hdisj; lia.
  - intros _ w' (Hi' & Ht' & Hu'). split_and!; [done|done|]. intros a Hna Hnc.
    rewrite fmap_app, not_elem_of_app in Hna. destruct Hna. by rewrite Hu', Hu1.
Qed.

(** ** Representation *)

(** Each node has a block of its own. *)
Definition node_blocks B (l : list entry) : Prop := pay <$> B ≡ₚ (fun e => (addr e, nsz)) <$> l.

(** [m] owns the blocks [B] and its chains are [ch]. *)
Record map_rep w m B ch : Prop := {
  mr_size : msize m = Z.of_nat (length (concat ch));
  mr_count : bucket_count m = Z.of_nat (length ch);
  mr_keys : NoDup (ekey <$> concat ch);
  mr_hash i c e : ch !! i = Some c -> e ∈ c -> index_of (Z.of_nat (length ch)) e = i;
  mr_load : (length (concat ch) <= length ch)%nat;
  mr_shape : (ch = [] /\ buckets m = 0 /\ B = []) \/
    exists j b N, 3 <= j /\ Z.of_nat (length ch) = 2 ^ j /\ B = b :: N /\
      pay b = (buckets m, Z.of_nat (length ch) * 4) /\ node_blocks N (concat ch);
  mr_table : table w (buckets m) ch }.

(** The finite map it stands for. *)
Definition entries_map (l : list entry) : gmap K V := list_to_map (pair_of <$> l).
Definition contents ch : gmap K V := entries_map (concat ch).

Lemma map_empty_rep w : map_rep w empty_map [] [].
Proof. split; [done|done|apply NoDup_nil_2|done|done|by left|]. intros i c Hc. done. Qed.

Lemma node_block B l e : node_blocks B l -> e ∈ l -> exists b, b ∈ B /\ pay b = (addr e, nsz).
Proof.
  intros Hb He. assert (Hin : (addr e, nsz) ∈ pay <$> B).
  { rewrite Hb. apply (list_elem_of_fmap_2 (fun e => (addr e, nsz))). done. }
  apply list_elem_of_fmap in Hin as (b & E & Hb'). by exists b.
Qed.

Lemma node_blocks_cons B e l :
  node_blocks B (e :: l) -> exists b B', B ≡ₚ b :: B' /\ pay b = (addr e, nsz) /\ node_blocks B' l.
Proof.
  unfold node_blocks. rewrite fmap_cons. intros Hp. symmetry in Hp.
  apply Permutation.Permutation_map_inv in Hp as (B0 & E & Hp). destruct B0 as [|b B0]; [done|].
  injection E as Eb E0. exists b, B0. split_and!; [done|done|]. change (pay <$> B0) with (map pay B0). by rewrite <- E0.
Qed.

Lemma node_blocks_perm B l l' : l ≡ₚ l' -> node_blocks B l -> node_blocks B l'.
Proof. unfold node_blocks. by intros ->. Qed.

(** The separation that the blocks imply. *)
Lemma rep_apart w b N R p n l :
  cxx_inv w (b :: N ++ R) -> pay b = (p, n * 4) -> node_blocks N l ->
  NoDup (addr <$> l) /\ off_cells p n (addr <$> l) /\ (forall e, e ∈ l -> 4 < addr e) /\ 4 < p /\ p + n * 4 < 2 ^ 32.
Proof.
  intros Hi Hp HN. pose proof (inv_starts _ _ Hi) as Hnd. rewrite fmap_cons, fmap_app in Hnd.
  apply NoDup_cons in Hnd as [_ Hnd]. apply NoDup_app in Hnd as (Hnd & _ & _).
  assert (E : (fun b => (pay b).1) <$> N = fst <$> (pay <$> N)) by (by rewrite <- list_fmap_compose).
  rewrite E, HN, <- list_fmap_compose in Hnd. split_and!.
  - exact Hnd.
  - intros a i (e & -> & He)%list_elem_of_fmap Hi' Ha. destruct (node_block N l e HN He) as (b' & Hb' & Hpb').
    apply (within_apart w _ b (N ++ R) (addr e) b' Hi); [done| |inlist|].
    + rewrite Hp, Ha. unfold within. cbn. lia.
    + rewrite Hpb'. unfold within. cbn. lia.
  - intros e He. destruct (node_block N l e HN He) as (b' & Hb' & Hpb').
    pose proof (inv_pay _ _ b' Hi ltac:(inlist)) as Hpay. rewrite Hpb' in Hpay. cbn in Hpay. lia.
  - pose proof (inv_pay _ _ b Hi ltac:(inlist)) as Hpay. rewrite Hp in Hpay. cbn in Hpay. lia.
  - pose proof (inv_pay _ _ b Hi ltac:(inlist)) as Hpay. rewrite Hp in Hpay. cbn in Hpay. lia.
Qed.

(** What lives in a block that is framed is not touched by changes elsewhere. *)
Lemma frame_unchanged w w' b N R p n l :
  cxx_inv w (b :: N ++ R) -> pay b = (p, n * 4) -> node_blocks N l -> unchanged (addr <$> l) p n w w' -> frame R w w'.
Proof.
  intros Hi Hp HN Hu b' a Hb' Ha. apply Hu.
  - intros (e & -> & He)%list_elem_of_fmap. destruct (node_block N l e HN He) as (b0 & Hb0 & Hpb0).
    apply list_elem_of_split in Hb0 as (N1 & N2 & ->).
    apply (within_apart w _ b0 (b :: (N1 ++ N2) ++ R) (addr e) b' Hi); [|rewrite Hpb0; unfold within; cbn; lia|inlist|done].
    cbn. rewrite <- !app_assoc. cbn. by rewrite <- !Permutation.Permutation_middle, Permutation.perm_swap.
  - intros i Hi' ->. apply (within_apart w _ b (N ++ R) (p + i * 4) b' Hi); [done| |inlist|done].
    rewrite Hp. unfold within. cbn. lia.
Qed.

Lemma entries_perm l l' : NoDup (ekey <$> l) -> l ≡ₚ l' -> entries_map l = entries_map l'.
Proof. intros Hnd Hp. apply list_to_map_proper; [by rewrite <- list_fmap_compose|by rewrite Hp]. Qed.

(** ** Growing the array *)

Lemma clear_buckets_spec b R p n : forall (c : nat) i w,
  cxx_inv w (b :: R) -> pay b = (p, n * 4) -> 0 <= i -> i + Z.of_nat c <= n ->
  wp False (clear_buckets p i c) (fun _ w' =>
    cxx_inv w' (b :: R) /\ frame R w w' /\ table_from w' p i (replicate c []) /\
    (forall a, a < p + i * 4 -> objects w' !! a = objects w !! a)) w.
Proof.
  induction c as [|c IH]; intros i w Hi Hp Hi0 Hc; cbn [clear_buckets replicate].
  { apply wp_ret. split_and!; [done|done|by intros j x|done]. }
  assert (Hb : b ∈ b :: R) by inlist. pose proof (inv_pay _ _ b Hi Hb) as Hpay. rewrite Hp in Hpay. cbn in Hpay.
  rewrite (bucket_eq p n), (add32_small i 1) by lia. apply wp_bind. apply wp_construct.
  { eapply in_storage_block; [done..| |]; rewrite Hp; cbn; lia. }
  assert (Hwb : within (pay b) (p + i * 4)) by (rewrite Hp; unfold within; cbn; lia).
  pose proof (inv_insert _ _ _ _ (Bucket 0) Hi Hb Hwb) as Hi1. set (w1 := with_objects _ _) in *.
  eapply wp_mono; [apply (IH (i + 1) w1 Hi1 Hp); lia|done|]. intros _ w' (Hi' & Hf' & Ht' & Hlow). split_and!.
  - done.
  - eapply frame_trans; [|done]. by eapply frame_insert.
  - intros [|t] x Hx; cbn in Hx.
    + injection Hx as <-. rewrite Hlow by lia. cbn. rewrite Z.add_0_r, lookup_insert_eq. done.
    + destruct (Ht' t x Hx) as [Ho Hl]. split; [|done]. rewrite <- Ho. f_equal. lia.
  - intros a Ha. rewrite Hlow by lia. cbn. rewrite lookup_insert_ne by lia. done.
Qed.

Lemma spread_hash j c : forall ch, 0 <= j -> Z.of_nat (length ch) = 2 ^ j ->
  (forall i x e, ch !! i = Some x -> e ∈ x -> index_of (2 ^ j) e = i) ->
  forall i x e, spread (2 ^ j) ch c !! i = Some x -> e ∈ x -> index_of (2 ^ j) e = i.
Proof.
  induction c as [|e0 c IH]; intros ch Hj Hn Hh; cbn [spread foldl]; [done|].
  apply IH; [done|by rewrite length_place|]. intros i x e Hx He. unfold place in Hx.
  destruct (decide (i = index_of (2 ^ j) e0)) as [->|Hne].
  - rewrite list_lookup_alter_eq in Hx. destruct (ch !! _) as [x0|] eqn:E; [|done]. injection Hx as <-.
    apply elem_of_cons in He as [->|He]; [done|]. by eapply Hh.
  - rewrite list_lookup_alter_ne in Hx by done. by eapply Hh.
Qed.

Lemma spread_all j todo : forall ch, 0 <= j -> Z.of_nat (length ch) = 2 ^ j ->
  (forall i x e, ch !! i = Some x -> e ∈ x -> index_of (2 ^ j) e = i) ->
  length (foldl (spread (2 ^ j)) ch todo) = length ch /\
  concat (foldl (spread (2 ^ j)) ch todo) ≡ₚ concat todo ++ concat ch /\
  (forall i x e, foldl (spread (2 ^ j)) ch todo !! i = Some x -> e ∈ x -> index_of (2 ^ j) e = i).
Proof.
  induction todo as [|c todo IH]; intros ch Hj Hn Hh; cbn [foldl concat]; [done|].
  destruct (spread_perm j c ch Hj Hn) as [Hl Hp].
  destruct (IH (spread (2 ^ j) ch c)) as (Hl' & Hp' & Hh'); [done|by rewrite Hl|by apply spread_hash|].
  split_and!; [by rewrite Hl'| |done]. rewrite Hp', Hp, !app_assoc.
  by rewrite (Permutation.Permutation_app_comm (concat todo) c).
Qed.

Lemma concat_nils n : concat (replicate n ([] : list entry)) = [].
Proof. by induction n. Qed.

Definition affordable (bytes : Z) : Prop := bytes <= heap_limit H.

(** What [reserve_buckets] makes of a request. *)
Definition bucket_request (n : Z) : Z := Z.max INITIAL_BUCKETS n.

Lemma reserve_buckets_spec w m B R ch j :
  cxx_inv w (B ++ R) -> map_rep w m B ch -> 0 <= j ->
  affordable (Z.max (bucket_count m) (bucket_request (2 ^ j)) * 4 + overhead 4) ->
  wp (bucket_count m < bucket_request (2 ^ j)) (reserve_buckets hash (2 ^ j) m) (fun m' w' => exists B' ch',
    cxx_inv w' (B' ++ R) /\ map_rep w' m' B' ch' /\ frame R w w' /\ concat ch' ≡ₚ concat ch /\
    bucket_count m' = Z.max (bucket_count m) (bucket_request (2 ^ j))) w.
Proof.
  intros Hi Hr Hj Hg. unfold reserve_buckets, bucket_request, affordable in *.
  assert (Hreq : exists j', 3 <= j' /\ (if 2 ^ j <? INITIAL_BUCKETS then INITIAL_BUCKETS else 2 ^ j) = 2 ^ j' /\
                            Z.max INITIAL_BUCKETS (2 ^ j) = 2 ^ j').
  { unfold INITIAL_BUCKETS. destruct (Z.ltb_spec (2 ^ j) 8); [exists 3; lia|]. exists j. split_and!; [|done|lia].
    apply (Z.pow_le_mono_r_iff 2); lia. }
  destruct Hreq as (j' & Hj' & -> & Ereq). rewrite Ereq in *.
  destruct (Z.leb_spec (2 ^ j') (bucket_count m)) as [Hle|Hgt].
  { apply wp_ret. exists B, ch. rewrite Z.max_l by lia. split_and!; [done|done|done|done|done]. }
  rewrite Z.max_r in * by lia. apply wp_bind. change 4 with (2 ^ 2) at 2.
  eapply wp_mono; [apply (allocate_spec w (B ++ R) 4 2 (2 ^ j') Hi); [lia..|exact Hg]|done|].
  intros p w1 (b' & Hp & _ & Hi1 & Ho1). pose proof (heap_limit_le H). apply wp_bind.
  eapply wp_mono; [apply (clear_buckets_spec b' (B ++ R) p (2 ^ j') (Z.to_nat (2 ^ j')) 0 w1 Hi1 Hp); lia|done|].
  intros _ w2 (Hi2 & Hf2 & Ht2 & _). apply wp_bind.
  pose proof (inv_pay _ _ b' Hi2 ltac:(inlist)) as Hpay. rewrite Hp in Hpay. cbn in Hpay.
  set (fr := replicate (Z.to_nat (2 ^ j')) []) in *. assert (Hfr : concat fr = []) by apply concat_nils.
  assert (Hlfr : Z.of_nat (length fr) = 2 ^ j') by (unfold fr; rewrite length_replicate; lia).
  rewrite (sub32_small _ 1) by lia.
  assert (Hfh : forall i x e, fr !! i = Some x -> e ∈ x -> index_of (2 ^ j') e = i).
  { intros i x e [-> _]%lookup_replicate. set_solver. }
  destruct (spread_all j' ch fr ltac:(lia) Hlfr Hfh) as (Hlen & Hperm & Hhash'). rewrite Hfr, app_nil_r in Hperm.
  set (ch' := foldl _ fr ch) in *.
  assert (Hdone : forall w' N, node_blocks N (concat ch) -> table w' p ch' ->
            map_rep w' (Map p (2 ^ j') (msize m)) (b' :: N) ch').
  { intros w' N HN Ht'. split; cbn [msize bucket_count buckets].
    - by rewrite Hperm, (mr_size _ _ _ _ Hr).
    - lia.
    - rewrite Hperm. apply (mr_keys _ _ _ _ Hr).
    - rewrite Hlen, Hlfr. exact Hhash'.
    - rewrite Hperm. pose proof (mr_load _ _ _ _ Hr). pose proof (mr_count _ _ _ _ Hr). lia.
    - right. exists j', b', N. rewrite Hlen, Hlfr. split_and!; [done|done|done|done|]. by eapply node_blocks_perm.
    - done. }
  pose proof (mr_count _ _ _ _ Hr) as Hcnt.
  destruct (mr_shape _ _ _ _ Hr) as [(-> & Hb0 & ->)|(j0 & b & N & Hj0 & Hn0 & -> & Hpb & HN)].
  - cbn [length] in Hcnt. rewrite Hcnt, Hb0. cbn [Z.to_nat rehash Z.eqb]. apply wp_ret, wp_bind, wp_ret, wp_ret.
    exists [b'], ch'. split_and!; [done| | |done|done].
    + apply Hdone; [by unfold node_blocks|]. cbn in ch'. exact Ht2.
    + intros b0 a Hb0' Ha. rewrite (Hf2 b0) by done. by rewrite Ho1.
  - rewrite Hcnt, Nat2Z.id. cbn [app] in *.
    assert (Hi2' : cxx_inv w2 (b :: N ++ b' :: R)).
    { by rewrite <- Permutation.Permutation_middle, Permutation.perm_swap. }
    destruct (rep_apart w2 b N (b' :: R) (buckets m) (Z.of_nat (length ch)) (concat ch) Hi2' Hpb HN)
      as (Hnd & Hoffq & Haddr & Hq4 & Hq32).
    assert (Hoffp : off_cells p (2 ^ j') (addr <$> concat ch)).
    { intros a i (e & -> & He)%list_elem_of_fmap Hi' Ha. destruct (node_block N _ e HN He) as (b0 & Hb0 & Hpb0).
      apply (within_apart w2 _ b' (b :: N ++ R) (addr e) b0 Hi2); [done| |inlist|].
      - rewrite Hp, Ha. unfold within. cbn. lia.
      - rewrite Hpb0. unfold within. cbn. lia. }
    assert (Htd : table_from w2 (buckets m) 0 ch).
    { intros t c Hc. destruct (mr_table _ _ _ _ Hr t c Hc) as [Ho Hl]. pose proof (lookup_lt_Some _ _ _ Hc).
      rewrite Z.add_0_l in *. split.
      - rewrite (Hf2 b); [by rewrite Ho1|inlist|]. rewrite Hpb. unfold within. cbn. lia.
      - eapply links_ext; [|exact Hl]. intros e He.
        destruct (node_block N _ e HN ltac:(by eapply elem_of_chain)) as (b0 & Hb0 & Hpb0).
        rewrite (Hf2 b0); [by rewrite Ho1|inlist|]. rewrite Hpb0. unfold within. cbn. lia. }
    eapply wp_mono; [apply (rehash_spec (b' :: b :: N ++ R) p j' (buckets m) ltac:(lia) ltac:(lia) ltac:(lia) ltac:(lia)
      ch 0 m w2 fr Hi2 eq_refl ltac:(lia)); rewrite ?Hfr, ?app_nil_r, ?Z.add_0_l; try done|done|].
    + unfold chain_fuel. rewrite (mr_size _ _ _ _ Hr). lia.
    + intros i' i2 Hi' Hi2'' E. apply (within_apart w2 _ b' (b :: N ++ R) (p + i2 * 4) b Hi2); [done| |inlist|].
      * rewrite Hp. unfold within. cbn. lia.
      * rewrite Hpb, <- E. unfold within. cbn. lia.
    + intros _ w3 (Hi3 & Ht3 & Hu3). fold ch' in Ht3. rewrite (proj2 (Z.eqb_neq (buckets m) 0)) by lia. apply wp_bind.
      assert (Hi3' : cxx_inv w3 (b :: b' :: N ++ R)) by (by rewrite (Permutation.perm_swap b' b)).
      replace (buckets m) with (pay b).1 at 1 by (by rewrite Hpb).
      eapply wp_mono; [by apply deallocate_spec|done|]. intros _ w4 (Hi4 & Hf4 & _). apply wp_ret.
      exists (b' :: N), ch'. split_and!; [done| | |done|done].
      * apply Hdone; [done|]. intros t c Hc. destruct (Ht3 t c Hc) as [Ho Hl]. pose proof (lookup_lt_Some _ _ _ Hc).
        rewrite Z.add_0_l in *. split.
        -- rewrite (Hf4 b'); [done|inlist|]. rewrite Hp. unfold within. cbn. lia.
        -- eapply links_ext; [|exact Hl]. intros e He.
           destruct (node_block N (concat ch) e HN) as (b0 & Hb0 & Hpb0).
           { rewrite <- Hperm. by eapply elem_of_chain. }
           apply (Hf4 b0); [inlist|]. rewrite Hpb0. unfold within. cbn. lia.
      * intros b0 a Hb0 Ha. rewrite (Hf4 b0) by (done || inlist). rewrite Hu3.
        -- rewrite (Hf2 b0) by (done || inlist). by rewrite Ho1.
        -- intros (e & -> & He)%list_elem_of_fmap. destruct (node_block N _ e HN He) as (b1 & Hb1 & Hpb1).
           apply list_elem_of_split in Hb1 as (N1 & N2 & ->).
           apply (within_apart w2 _ b1 (b' :: b :: (N1 ++ N2) ++ R) (addr e) b0 Hi2);
             [|rewrite Hpb1; unfold within; cbn; lia|inlist|done].
           rewrite <- !app_assoc. cbn. rewrite <- !Permutation.Permutation_middle.
           by rewrite (Permutation.perm_swap b1 b), (Permutation.perm_swap b1 b').
        -- intros i' Hi' ->. apply (within_apart w2 _ b' (b :: N ++ R) (p + i' * 4) b0 Hi2); [done| |inlist|done].
           rewrite Hp. unfold within. cbn. lia.
Qed.

(** ** Looking up *)

(** A map with an array, and the blocks it owns. *)
Record ready w m b N R ch j : Prop := {
  rd_inv : cxx_inv w ((b :: N) ++ R);
  rd_rep : map_rep w m (b :: N) ch;
  rd_exponent : 3 <= j;
  rd_length : Z.of_nat (length ch) = 2 ^ j;
  rd_array : pay b = (buckets m, 2 ^ j * 4);
  rd_nodes : node_blocks N (concat ch) }.

Lemma rep_ready w m B R ch :
  cxx_inv w (B ++ R) -> map_rep w m B ch -> 0 < bucket_count m ->
  exists b N j, B = b :: N /\ ready w m b N R ch j.
Proof.
  intros Hi Hr Hc. pose proof (mr_count _ _ _ _ Hr).
  destruct (mr_shape _ _ _ _ Hr) as [(-> & _)|(j & b & N & Hj & Hn & -> & Hpb & HN)]; [cbn in *; lia|].
  exists b, N, j. split; [done|]. split; [done..|by rewrite <- Hn|done].
Qed.

Lemma ready_bounds w m b N R ch j :
  ready w m b N R ch j -> 4 < buckets m /\ buckets m + 2 ^ j * 4 < 2 ^ 32 /\ 8 <= 2 ^ j /\ bucket_count m = 2 ^ j.
Proof.
  intros []. destruct (rep_apart _ _ _ _ _ _ _ rd_inv0 rd_array0 rd_nodes0) as (_ & _ & _ & ? & ?). split_and!; [done|done| |].
  - change 8 with (2 ^ 3). apply Z.pow_le_mono_r; lia.
  - by rewrite (mr_count _ _ _ _ rd_rep0).
Qed.

(** The bucket of a key: its cell and its chain. *)
Lemma ready_bucket w m b N R ch j key : ready w m b N R ch j -> exists c,
  let i := Z.to_nat (Z.land (hash key) (2 ^ j - 1)) in
  ch !! i = Some c /\ 0 <= Z.of_nat i < 2 ^ j /\
  bucket_at (buckets m) (bucket_index hash key m) = buckets m + Z.of_nat i * 4 /\
  objects w !! (buckets m + Z.of_nat i * 4) = Some (Bucket (first c)) /\ links w c /\
  (length c < chain_fuel m)%nat /\ (forall e, e ∈ concat ch -> ekey e = key -> e ∈ c).
Proof.
  intros Hrd. pose proof (ready_bounds _ _ _ _ _ _ _ Hrd) as (? & ? & ? & Hcnt). destruct Hrd as [Hi Hr Hj Hn Hpb HN].
  pose proof (bucket_range key j ltac:(lia)) as Hm. cbn zeta.
  unfold bucket_index. rewrite Hcnt, (sub32_small _ 1) by lia. set (i := Z.land _ _) in *.
  destruct (lookup_lt_is_Some_2 ch (Z.to_nat i)) as [c Hc]; [lia|]. exists c.
  destruct (mr_table _ _ _ _ Hr _ c Hc) as [Ho Hl]. rewrite Z.add_0_l in Ho. rewrite Z2Nat.id in * by lia.
  split_and!; [done|lia|lia|apply (bucket_eq _ (2 ^ j)); lia|done|done| |].
  - unfold chain_fuel. rewrite (mr_size _ _ _ _ Hr), Nat2Z.id.
    rewrite (chain_split_perm ch _ c c [] Hc) by (by rewrite app_nil_r). rewrite length_app. lia.
  - intros e He Hk. destruct (elem_of_chain_inv ch e He) as (i' & c' & Hc' & He').
    pose proof (mr_hash _ _ _ _ Hr i' c' e Hc' He') as Hix. unfold index_of in Hix. rewrite Hn, Hk in Hix. fold i in Hix.
    rewrite <- Hix, Hc in Hc'. by injection Hc' as <-.
Qed.

Lemma contents_chain ch key c :
  NoDup (ekey <$> concat ch) -> (forall e, e ∈ concat ch -> ekey e = key -> e ∈ c) -> (forall e, e ∈ c -> e ∈ concat ch) ->
  contents ch !! key = evalue <$> chain_find key c.
Proof.
  intros Hnd0 Hc Hin. unfold contents, entries_map. assert (Hnd : NoDup (pair_of <$> concat ch).*1).
  { by rewrite <- list_fmap_compose. }
  destruct (chain_find key c) as [e|] eqn:E; cbn.
  - apply chain_find_Some in E as (c1 & c2 & -> & <- & _). apply elem_of_list_to_map_1; [done|].
    apply (list_elem_of_fmap_2 pair_of), Hin. inlist.
  - apply not_elem_of_list_to_map_1. intros Hk. apply list_elem_of_fmap in Hk as ([k v] & -> & Hk).
    apply list_elem_of_fmap in Hk as (e & [= -> ->] & He). apply chain_find_None in E. apply E.
    apply (list_elem_of_fmap_2 ekey). by apply Hc.
Qed.

(** The walk along the bucket of [key]. *)
Lemma ready_find w m b N R ch j key :
  ready w m b N R ch j -> exists c, let a := bucket_at (buckets m) (bucket_index hash key m) in
  read_bucket a w = Returns (first c, w) /\
  find_node (chain_fuel m) (first c) key w = Returns (found (chain_find key c), w) /\
  contents ch !! key = evalue <$> chain_find key c /\
  (forall e, chain_find key c = Some e -> addr e <> 0 /\ e ∈ concat ch /\ ekey e = key /\
     exists next, objects w !! addr e = Some (Node key (evalue e) next)).
Proof.
  intros Hrd. destruct (ready_bucket _ _ _ _ _ _ _ key Hrd) as (c & Hc & _ & Hat & Ho & Hl & Hf & Hown). exists c. cbn zeta.
  split_and!.
  - unfold read_bucket, mbind, prog_bind, read. by rewrite Hat, Ho.
  - by apply find_node_eq.
  - apply contents_chain; [apply (mr_keys _ _ _ _ (rd_rep _ _ _ _ _ _ _ Hrd))|done|]. intros e He. by eapply elem_of_chain.
  - intros e (c1 & c2 & -> & <- & _)%chain_find_Some. pose proof (links_app_r _ _ _ Hl) as (Ha & Hoe & _).
    split_and!; [done|apply (elem_of_chain ch _ _ e Hc); inlist|done|eauto].
Qed.

(** [find] returns [end()] for an absent key, the node of the key otherwise. *)
Lemma find_spec w m B R ch key :
  cxx_inv w (B ++ R) -> map_rep w m B ch ->
  exists it, find hash key m w = Returns (it, w) /\
    (if it_node it =? 0 then contents ch !! key = None
     else exists v, contents ch !! key = Some v /\ exists next, objects w !! it_node it = Some (Node key v next)).
Proof.
  intros Hi Hr. unfold find. pose proof (mr_count _ _ _ _ Hr) as Hcnt. destruct (Z.eqb_spec (bucket_count m) 0) as [E0|E0].
  { destruct ch; [|cbn in Hcnt; lia]. eexists. split; [done|]. done. }
  destruct (rep_ready _ _ _ _ _ Hi Hr ltac:(lia)) as (b & N & j & -> & Hrd).
  destruct (ready_find _ _ _ _ _ _ _ key Hrd) as (c & Hrb & Hfn & Hcon & Hsome).
  unfold mbind, prog_bind. rewrite Hrb, Hfn, Hcon. destruct (chain_find key c) as [e|]; cbn [found].
  - destruct (Hsome e eq_refl) as (Ha & _ & _ & Ho). rewrite (proj2 (Z.eqb_neq _ 0)) by done. eexists. split; [done|].
    cbn [it_node]. rewrite (proj2 (Z.eqb_neq _ 0)) by done. by exists (evalue e).
  - eexists. split; [done|]. done.
Qed.

(** ** Inserting *)

(** A new entry joins the chains. *)
Lemma place_rep w m b N ch j p k v nb :
  map_rep w m (b :: N) ch -> 3 <= j -> Z.of_nat (length ch) = 2 ^ j -> pay b = (buckets m, 2 ^ j * 4) ->
  node_blocks N (concat ch) -> pay nb = (p, nsz) -> k ∉ ekey <$> concat ch -> (length (concat ch) < length ch)%nat ->
  forall w', table w' (buckets m) (place (2 ^ j) ch (p, k, v)) ->
  map_rep w' (Map (buckets m) (bucket_count m) (msize m + 1)) (b :: nb :: N) (place (2 ^ j) ch (p, k, v)) /\
  contents (place (2 ^ j) ch (p, k, v)) = <[k := v]> (contents ch).
Proof.
  intros Hr Hj Hn Hpb HN Hnb Hk Hlt w' Ht. pose proof (bucket_range k j ltac:(lia)) as Hm.
  assert (Hp : concat (place (2 ^ j) ch (p, k, v)) ≡ₚ (p, k, v) :: concat ch).
  { apply concat_alter. unfold index_of. cbn. lia. }
  assert (Hnd : NoDup (ekey <$> (p, k, v) :: concat ch)).
  { rewrite fmap_cons. apply NoDup_cons. split; [done|apply (mr_keys _ _ _ _ Hr)]. }
  split.
  - split; cbn [msize bucket_count buckets]; rewrite ?length_place.
    + rewrite Hp, (mr_size _ _ _ _ Hr). cbn [length]. lia.
    + apply (mr_count _ _ _ _ Hr).
    + by rewrite Hp.
    + rewrite Hn. intros i c e Hc He. unfold place in Hc.
      destruct (decide (i = index_of (2 ^ j) (p, k, v))) as [->|Hne].
      * rewrite list_lookup_alter_eq in Hc. destruct (ch !! _) as [c0|] eqn:E; [|done]. injection Hc as <-.
        apply elem_of_cons in He as [->|He]; [done|]. rewrite <- Hn in E |- *. by apply (mr_hash _ _ _ _ Hr _ _ _ E).
      * rewrite list_lookup_alter_ne in Hc by done. rewrite <- Hn. by eapply (mr_hash _ _ _ _ Hr).
    + rewrite Hp. cbn [length]. lia.
    + right. exists j, b, (nb :: N). split_and!; [done|done|done|by rewrite Hn|].
      eapply node_blocks_perm; [symmetry; exact Hp|]. unfold node_blocks in HN |- *. by rewrite !fmap_cons, Hnb, HN.
    + done.
  - unfold contents. rewrite (entries_perm _ ((p, k, v) :: concat ch)); [done|by rewrite Hp|done].
Qed.

Lemma insert_node_spec w m b N R ch j key v :
  ready w m b N R ch j -> key ∉ ekey <$> concat ch -> (length (concat ch) < length ch)%nat -> affordable (nsz + overhead (2 ^ nk)) ->
  wp True (insert_node nsz (2 ^ nk) (bucket_index hash key m) key v m) (fun r w' => exists B' ch',
    cxx_inv w' (B' ++ R) /\ map_rep w' r.2 B' ch' /\ frame R w w' /\ contents ch' = <[key := v]> (contents ch) /\
    (r.1, key, v) ∈ concat ch' /\ bucket_count r.2 = bucket_count m) w.
Proof.
  intros Hrd Hk Hlt Hg. unfold insert_node, affordable in *. apply wp_bind.
  pose proof (ready_bounds _ _ _ _ _ _ _ Hrd) as (Hb4 & Hb32 & Hj8 & _).
  destruct (ready_bucket _ _ _ _ _ _ _ key Hrd) as (c & Hc & Hir & Hat & Ho & Hl & _ & _).
  destruct Hrd as [Hi Hr Hj Hn Hpb HN].
  eapply wp_mono; [apply (allocate_spec w ((b :: N) ++ R) nsz nk 1 Hi); lia|done|].
  intros p w1 (nb & Hnb & _ & Hi1 & Ho1). rewrite Z.mul_1_l in Hnb.
  pose proof (inv_pay _ _ nb Hi1 ltac:(inlist)) as Hpay. rewrite Hnb in Hpay. cbn in Hpay.
  set (i := Z.to_nat (Z.land (hash key) (2 ^ j - 1))) in *. rewrite Hat.
  assert (Hwp : within (pay nb) p) by (rewrite Hnb; unfold within; cbn; lia).
  assert (Hoff : off_cells (buckets m) (2 ^ j) (p :: (addr <$> concat ch))).
  { intros a i' [->|Ha]%elem_of_cons Hi'.
    - intros E. apply (within_apart w1 _ nb ((b :: N) ++ R) p b Hi1); [done|done|inlist|].
      rewrite Hpb, E. unfold within. cbn. lia.
    - destruct (rep_apart _ _ _ _ _ _ _ Hi Hpb HN) as (_ & Hoff & _). by apply Hoff. }
  assert (Hpn : p ∉ addr <$> concat ch).
  { intros (e & E & He)%list_elem_of_fmap. destruct (node_block N _ e HN He) as (b0 & Hb0 & Hpb0).
    apply (within_apart w1 _ nb ((b :: N) ++ R) p b0 Hi1); [done|done|inlist|]. rewrite Hpb0, E. unfold within. cbn. lia. }
  apply wp_bind. unfold wp at 1, read_bucket, mbind, prog_bind, read. rewrite Ho1, Ho. cbn [mret prog_ret].
  apply wp_bind, wp_construct; [eapply (in_storage_block w1 _ nb); [done|inlist|rewrite Hnb; cbn; lia..]|].
  assert (Hcell : p <> buckets m + Z.of_nat i * 4) by (apply Hoff; [inlist|lia]).
  apply wp_bind. eapply wp_assign; [cbn; rewrite lookup_insert_ne by done; rewrite Ho1; exact Ho|]. apply wp_ret.
  cbn [objects with_objects heap words storage fst snd]. set (w2 := with_objects _ _).
  assert (Hi2 : cxx_inv w2 (nb :: (b :: N) ++ R)).
  { pose proof (inv_insert w1 _ nb p (Node key v (first c)) Hi1 ltac:(inlist) Hwp) as Hi0.
    apply (inv_assign _ _ (buckets m + Z.of_nat i * 4) (Bucket p) (Bucket (first c)) Hi0).
    cbn. rewrite lookup_insert_ne by done. by rewrite Ho1. }
  assert (Ht2 : table w2 (buckets m) (place (2 ^ j) ch (p, key, v))).
  { assert (Ht1 : table w1 (buckets m) ch).
    { intros t x Hx. destruct (mr_table _ _ _ _ Hr t x Hx) as [? Hlx]. rewrite Ho1. split; [done|].
      eapply links_ext; [|exact Hlx]. intros. by rewrite Ho1. }
    pose proof (table_push w1 (buckets m) ch i c p key v Ht1 Hc ltac:(lia) Hpn) as Hpush. rewrite Hn in Hpush.
    specialize (Hpush Hoff). exact Hpush. }
  destruct (place_rep w m b N ch j p key v nb Hr Hj Hn Hpb HN Hnb Hk Hlt w2 Ht2) as [Hr2 Hcon].
  rewrite (add32_small (msize m) 1) by (rewrite (mr_size _ _ _ _ Hr); lia).
  exists (b :: nb :: N), (place (2 ^ j) ch (p, key, v)). split_and!; [|done| |done| |done].
  - cbn [app] in *. by rewrite Permutation.perm_swap.
  - intros b0 a Hb0 Ha. cbn. rewrite lookup_insert_ne, lookup_insert_ne; [by rewrite Ho1| |]; intros <-.
    + by apply (within_apart w1 _ nb ((b :: N) ++ R) p b0 Hi1); [| |inlist|].
    + apply (within_apart w _ b (N ++ R) (buckets m + Z.of_nat i * 4) b0 Hi); [done| |inlist|done].
      rewrite Hpb. unfold within. cbn. lia.
  - unfold place. rewrite concat_alter by (unfold index_of; cbn; lia). inlist.
Qed.

(** The capacity after [ensure_capacity]. *)
Definition room m : Z :=
  if bucket_count m =? 0 then INITIAL_BUCKETS
  else if bucket_count m <? msize m + 1 then bucket_count m * 2 else bucket_count m.

Lemma ensure_capacity_spec w m B R ch :
  cxx_inv w (B ++ R) -> map_rep w m B ch -> affordable (room m * 4 + overhead 4) ->
  wp True (ensure_capacity hash m) (fun m' w' => exists b N ch' j,
    ready w' m' b N R ch' j /\ frame R w w' /\ concat ch' ≡ₚ concat ch /\ (length (concat ch') < length ch')%nat /\
    bucket_count m' = room m) w.
Proof.
  intros Hi Hr Hg. pose proof (mr_count _ _ _ _ Hr) as Hcnt. pose proof (mr_size _ _ _ _ Hr) as Hs.
  pose proof (mr_load _ _ _ _ Hr) as Hload. pose proof (heap_limit_le H).
  assert (Hend : forall m' w', (exists B' ch', cxx_inv w' (B' ++ R) /\ map_rep w' m' B' ch' /\ frame R w w' /\
            concat ch' ≡ₚ concat ch /\ bucket_count m' = room m) -> Z.of_nat (length (concat ch)) < room m ->
            exists b N ch' j, ready w' m' b N R ch' j /\ frame R w w' /\ concat ch' ≡ₚ concat ch /\
              (length (concat ch') < length ch')%nat /\ bucket_count m' = room m).
  { intros m' w' (B' & ch' & Hi' & Hr' & Hf' & Hp' & Hc') Hlt. pose proof (mr_count _ _ _ _ Hr').
    destruct (rep_ready _ _ _ _ _ Hi' Hr' ltac:(lia)) as (b & N & j & -> & Hrd). exists b, N, ch', j.
    split_and!; [done|done|done| |done]. rewrite Hp'. lia. }
  set (n := room m) in *. unfold ensure_capacity. unfold room in n. destruct (Z.eqb_spec (bucket_count m) 0) as [E0|E0].
  - eapply wp_mono; [apply (reserve_buckets_spec w m B R ch 3 Hi Hr ltac:(lia)); unfold affordable, bucket_request; rewrite E0; exact Hg|done|].
    intros m' w' Hw. apply Hend; [|unfold n, INITIAL_BUCKETS; lia]. by rewrite E0 in Hw.
  - destruct (rep_ready _ _ _ _ _ Hi Hr ltac:(lia)) as (b & N & j & -> & Hrd).
    pose proof (ready_bounds _ _ _ _ _ _ _ Hrd) as (Hb4 & Hb32 & Hj8 & Hc2). pose proof (rd_exponent _ _ _ _ _ _ _ Hrd).
    rewrite (add32_small (msize m) 1) by lia. destruct (Z.ltb_spec (bucket_count m) (msize m + 1)) as [Hfull|Hroom].
    + assert (E2 : bucket_count m ⊠ 2 = 2 ^ (j + 1)) by (rewrite mul32_small, Z.pow_add_r by lia; lia). rewrite E2.
      assert (Hmax : Z.max (bucket_count m) (bucket_request (2 ^ (j + 1))) = n).
      { unfold bucket_request, INITIAL_BUCKETS, n. rewrite Z.pow_add_r by lia. lia. }
      eapply wp_mono; [apply (reserve_buckets_spec w m (b :: N) R ch (j + 1) Hi Hr ltac:(lia)); by rewrite Hmax|done|].
      rewrite Hmax. intros m' w' Hw. apply Hend; [exact Hw|]. unfold n. lia.
    + apply wp_ret. apply Hend; [by exists (b :: N), ch|]. unfold n. lia.
Qed.

(** What an insertion may ask of the heap. *)
Definition insert_affordable m : Prop :=
  affordable (room m * 4 + overhead 4) /\ affordable (nsz + overhead (2 ^ nk)).

Lemma emplace_spec w m B R ch key v :
  cxx_inv w (B ++ R) -> map_rep w m B ch -> insert_affordable m ->
  wp True (emplace hash nsz (2 ^ nk) key v m) (fun r w' => exists B' ch',
    cxx_inv w' (B' ++ R) /\ map_rep w' r.2 B' ch' /\ frame R w w' /\
    contents ch' = (if contents ch !! key is Some _ then contents ch else <[key := v]> (contents ch)) /\
    r.1.2 = negb (bool_decide (is_Some (contents ch !! key))) /\ bucket_count r.2 = room m) w.
Proof.
  intros Hi Hr [Hg1 Hg2]. unfold emplace. apply wp_bind. eapply wp_mono; [by eapply ensure_capacity_spec|done|].
  intros m1 w1 (b & N & ch1 & j & Hrd & Hf1 & Hp1 & Hlt & Hb1).
  assert (Hcon1 : contents ch1 = contents ch).
  { apply entries_perm; [apply (mr_keys _ _ _ _ (rd_rep _ _ _ _ _ _ _ Hrd))|done]. }
  destruct (ready_find _ _ _ _ _ _ _ key Hrd) as (c & Hrb & Hfn & Hcon & Hsome). rewrite <- Hcon1.
  apply wp_bind. unfold wp at 1. rewrite Hrb. apply wp_bind. unfold wp at 1. rewrite Hfn.
  destruct (chain_find key c) as [e|] eqn:E; cbn [found fmap option_fmap option_map] in *.
  - destruct (Hsome e eq_refl) as (Ha & _). rewrite (proj2 (Z.eqb_neq _ 0)) by done. apply wp_ret.
    exists (b :: N), ch1. rewrite Hcon. split_and!; [apply Hrd|apply Hrd|done|done|done|done].
  - cbn [Z.eqb]. apply wp_bind. eapply wp_mono; [apply (insert_node_spec w1 m1 b N R ch1 j key v Hrd); [|done|done]|done|].
    + intros Hk. apply list_elem_of_fmap in Hk as (e & -> & He). apply (not_elem_of_list_to_map_2 _ _ Hcon).
      rewrite <- list_fmap_compose. by apply (list_elem_of_fmap_2 ekey).
    + intros [p m2] w2 (B2 & ch2 & Hi2 & Hr2 & Hf2 & Hc2 & _ & Hb2). apply wp_ret. exists B2, ch2. rewrite Hcon.
      split_and!; [done|done|by eapply frame_trans|done|done|cbn in *; lia].
Qed.

(** Every entry of a chain is its node in memory. *)
Lemma chain_object w c e :
  links w c -> e ∈ c -> addr e <> 0 /\ exists next, objects w !! addr e = Some (Node (ekey e) (evalue e) next).
Proof.
  intros Hl (c1 & c2 & ->)%list_elem_of_split. pose proof (links_app_r _ _ _ Hl) as (Ha & Ho & _). eauto.
Qed.

Lemma rep_object w m B ch e :
  map_rep w m B ch -> e ∈ concat ch -> addr e <> 0 /\ exists next, objects w !! addr e = Some (Node (ekey e) (evalue e) next).
Proof.
  intros Hr (i & c & Hc & He)%elem_of_chain_inv. destruct (mr_table _ _ _ _ Hr i c Hc) as [_ Hl]. by eapply chain_object.
Qed.

(** Writing the value of a node. *)
Definition update (a : Z) (v : V) e : entry := if decide (addr e = a) then (addr e, ekey e, v) else e.

Lemma addr_update a v e : addr (update a v e) = addr e.
Proof. unfold update. by case_decide. Qed.
Lemma ekey_update a v e : ekey (update a v e) = ekey e.
Proof. unfold update. by case_decide. Qed.
Lemma first_update a v c : first (update a v <$> c) = first c.
Proof. destruct c; [done|]. apply addr_update. Qed.

Lemma chain_links_update w a k v0 v next c :
  objects w !! a = Some (Node k v0 next) -> links w c ->
  links (with_objects (<[a := Node k v next]> (objects w)) w) (update a v <$> c).
Proof.
  intros Ho. induction c as [|e c IH]; [done|]. intros (Ha & Hoe & Hl). rewrite fmap_cons. cbn [links].
  rewrite addr_update, ekey_update, first_update. split_and!; [done| |by apply IH]. cbn. unfold update. case_decide as Hd.
  - subst a. rewrite lookup_insert_eq. rewrite Ho in Hoe. by injection Hoe as -> _ ->.
  - by rewrite lookup_insert_ne.
Qed.

Lemma entries_update l e v :
  NoDup (addr <$> l) -> NoDup (ekey <$> l) -> e ∈ l ->
  entries_map (update (addr e) v <$> l) = <[ekey e := v]> (entries_map l).
Proof.
  intros Hna Hnd (l1 & l2 & ->)%list_elem_of_split.
  assert (Hp : l1 ++ e :: l2 ≡ₚ e :: l1 ++ l2) by (by rewrite Permutation.Permutation_middle).
  assert (Hid : update (addr e) v <$> (l1 ++ l2) = l1 ++ l2).
  { rewrite <- (list_fmap_id (l1 ++ l2)) at 2. apply list_fmap_ext. intros i x Hx. unfold update. case_decide as Hd; [|done].
    exfalso. rewrite Hp, fmap_cons in Hna. apply NoDup_cons in Hna as [Hna _]. apply Hna. rewrite <- Hd.
    apply list_elem_of_fmap_2. by eapply list_elem_of_lookup_2. }
  assert (Hu : update (addr e) v <$> (l1 ++ e :: l2) ≡ₚ (addr e, ekey e, v) :: l1 ++ l2).
  { rewrite Hp, fmap_cons, Hid. unfold update. by rewrite decide_True. }
  rewrite (entries_perm _ _) with (2 := Hu).
  - rewrite (entries_perm (l1 ++ e :: l2) _ Hnd Hp). unfold entries_map. cbn. by rewrite insert_insert_eq.
  - rewrite Hu. rewrite Hp in Hnd. exact Hnd.
Qed.

Lemma update_rep w m b N R ch j e v next :
  ready w m b N R ch j -> e ∈ concat ch -> objects w !! addr e = Some (Node (ekey e) (evalue e) next) ->
  let w' := with_objects (<[addr e := Node (ekey e) v next]> (objects w)) w in exists ch',
    cxx_inv w' ((b :: N) ++ R) /\ map_rep w' m (b :: N) ch' /\ frame R w w' /\
    contents ch' = <[ekey e := v]> (contents ch).
Proof.
  intros Hrd He Ho w'. pose proof (ready_bounds _ _ _ _ _ _ _ Hrd) as (Hb4 & Hb32 & Hj8 & _). destruct Hrd as [Hi Hr Hj Hn Hpb HN].
  destruct (rep_apart _ _ _ _ _ _ _ Hi Hpb HN) as (Hna & Hoff & _).
  set (u := update (addr e) v). set (us := fun c => u <$> c). exists (us <$> ch).
  assert (Hcc : concat (us <$> ch) = u <$> concat ch) by (symmetry; apply concat_map).
  assert (Hlen : length (concat (us <$> ch)) = length (concat ch)) by (by rewrite Hcc, length_fmap).
  assert (Hks : ekey <$> concat (us <$> ch) = ekey <$> concat ch).
  { rewrite Hcc, <- list_fmap_compose. apply list_fmap_ext. intros i x _. apply ekey_update. }
  split_and!.
  - by eapply inv_assign.
  - split; rewrite ?Hlen, ?length_fmap, ?Hks; try apply Hr.
    + intros i c e' Hc He'. apply list_lookup_fmap_Some in Hc as (c0 & -> & Hc0).
      apply list_elem_of_fmap in He' as (e0 & -> & He0). unfold index_of. unfold u. rewrite ekey_update.
      by apply (mr_hash _ _ _ _ Hr i c0 e0).
    + right. exists j, b, N. split_and!; [done|done|done|by rewrite Hn|]. unfold node_blocks in *. rewrite HN, Hcc, <- list_fmap_compose.
      assert (E : (fun e0 => (addr e0, nsz)) <$> concat ch = (fun e0 => (addr (u e0), nsz)) <$> concat ch).
      { apply list_fmap_ext. intros i x _. unfold u. by rewrite addr_update. }
      rewrite E. done.
    + intros i c Hc. apply list_lookup_fmap_Some in Hc as (c0 & -> & Hc0). destruct (mr_table _ _ _ _ Hr i c0 Hc0) as [Hcell Hl].
      pose proof (lookup_lt_Some _ _ _ Hc0). unfold us, u. rewrite first_update. split; [|by eapply chain_links_update].
      cbn. rewrite lookup_insert_ne; [done|]. apply Hoff; [by apply list_elem_of_fmap_2|lia].
  - destruct (node_block N _ e HN He) as (b0 & Hb0 & Hpb0). apply list_elem_of_split in Hb0 as (N1 & N2 & ->).
    apply (frame_sub R (b :: (N1 ++ N2) ++ R)); [intros x Hx; inlist|]. eapply (frame_insert w _ b0); [exact Hi| |].
    + cbn. rewrite <- !app_assoc. cbn. by rewrite <- !Permutation.Permutation_middle, Permutation.perm_swap.
    + rewrite Hpb0. unfold within. cbn. lia.
  - unfold contents. rewrite Hcc. apply entries_update; [done|apply (mr_keys _ _ _ _ Hr)|done].
Qed.

Lemma assign_node_spec w m B R ch e v :
  cxx_inv w (B ++ R) -> map_rep w m B ch -> e ∈ concat ch -> 0 < bucket_count m ->
  wp False ('(k, _, next) ← read_node (addr e); _ ← assign (addr e) (Node k v next); mret m) (fun m' w' => exists B' ch',
    cxx_inv w' (B' ++ R) /\ map_rep w' m' B' ch' /\ frame R w w' /\ contents ch' = <[ekey e := v]> (contents ch)) w.
Proof.
  intros Hi Hr He Hc. destruct (rep_ready _ _ _ _ _ Hi Hr Hc) as (b & N & j & -> & Hrd).
  destruct (rep_object _ _ _ _ e Hr He) as (_ & next & Ho). apply wp_bind.
  unfold wp at 1, read_node, mbind, prog_bind, read. rewrite Ho. cbn [mret prog_ret]. apply (wp_bind _ (assign _ _)).
  eapply wp_assign; [exact Ho|]. apply wp_ret. destruct (update_rep _ _ _ _ _ _ _ e v next Hrd He Ho) as (ch' & Hw).
  by exists (b :: N), ch'.
Qed.

Lemma subscript_assign_spec w m B R ch init key v :
  cxx_inv w (B ++ R) -> map_rep w m B ch -> insert_affordable m ->
  wp True (subscript_assign hash nsz (2 ^ nk) init key v m) (fun m' w' => exists B' ch',
    cxx_inv w' (B' ++ R) /\ map_rep w' m' B' ch' /\ frame R w w' /\ contents ch' = <[key := v]> (contents ch)) w.
Proof.
  intros Hi Hr [Hg1 Hg2]. unfold subscript_assign, subscript. do 2 apply wp_bind.
  eapply wp_mono; [by eapply ensure_capacity_spec|done|]. intros m1 w1 (b & N & ch1 & j & Hrd & Hf1 & Hp1 & Hlt & Hb1).
  assert (Hcon1 : contents ch1 = contents ch).
  { apply entries_perm; [apply (mr_keys _ _ _ _ (rd_rep _ _ _ _ _ _ _ Hrd))|done]. }
  pose proof (ready_bounds _ _ _ _ _ _ _ Hrd) as (_ & _ & Hj8 & Hc1).
  destruct (ready_find _ _ _ _ _ _ _ key Hrd) as (c & Hrb & Hfn & Hcon & Hsome). rewrite <- Hcon1.
  apply wp_bind. unfold wp at 1. rewrite Hrb. apply wp_bind. unfold wp at 1. rewrite Hfn.
  destruct (chain_find key c) as [e|] eqn:E; cbn [found fmap option_fmap option_map] in *.
  - destruct (Hsome e eq_refl) as (Ha & He & Hk & _). rewrite (proj2 (Z.eqb_neq _ 0)) by done. apply wp_ret. cbn beta iota.
    eapply wp_mono; [apply (assign_node_spec w1 m1 (b :: N) R ch1 e v); [apply Hrd|apply Hrd|done|lia]|done|].
    intros m2 w2 (B2 & ch2 & Hi2 & Hr2 & Hf2 & Hc2). exists B2, ch2. rewrite <- Hk. split_and!; [done|done|by eapply frame_trans|done].
  - cbn [Z.eqb]. eapply wp_mono; [apply (insert_node_spec w1 m1 b N R ch1 j key init Hrd); [|done|done]|done|].
    + intros Hk. apply list_elem_of_fmap in Hk as (e & -> & He). apply (not_elem_of_list_to_map_2 _ _ Hcon).
      rewrite <- list_fmap_compose. by apply (list_elem_of_fmap_2 ekey).
    + intros [p m2] w2 (B2 & ch2 & Hi2 & Hr2 & Hf2 & Hc2 & Hin & Hpos). cbn [fst snd] in *.
      eapply wp_mono; [apply (assign_node_spec w2 m2 B2 R ch2 (p, key, init) v Hi2 Hr2 Hin ltac:(lia))|done|].
      intros m3 w3 (B3 & ch3 & Hi3 & Hr3 & Hf3 & Hc3). exists B3, ch3. rewrite Hc3, Hc2. cbn [ekey fst snd].
      rewrite insert_insert_eq. split_and!; [done|done|by do 2 (eapply frame_trans; [done|])|done].
Qed.

(** ** Erasing *)

(** The address of the node before the rest of a walk. *)
Definition previous (prev : Z) c : Z := match last c with Some e => addr e | None => prev end.

Definition unlink (bucket prev next : Z) : prog (world H (obj K V)) unit :=
  if prev =? 0 then assign bucket (Bucket next)
  else '(pk, pv, _) ← read_node prev; assign prev (Node pk pv next).

Lemma erase_walk_found w bucket key e c2 : forall c1 fuel prev,
  links w (c1 ++ e :: c2) -> ekey e = key -> key ∉ ekey <$> c1 -> (length (c1 ++ e :: c2) < fuel)%nat ->
  erase_walk fuel bucket prev (first (c1 ++ e :: c2)) key w =
  (_ ← unlink bucket (previous prev c1) (first c2); _ ← destroy_node (addr e); mret true) w.
Proof.
  induction c1 as [|x c1 IH]; intros [|fuel] prev Hl Hk Hni Hf; cbn [app length] in *; [lia| |lia|]; cbn [erase_walk];
    rewrite (first_zero w) by done; cbn [first]; unfold mbind at 1, prog_bind at 1; rewrite (read_node_entry w _ _ Hl).
  - by rewrite decide_True.
  - rewrite fmap_cons, not_elem_of_cons in Hni. destruct Hni as [Hx Hni]. rewrite decide_False by congruence.
    rewrite IH; [|apply Hl|done|done|lia]. unfold previous. destruct c1 as [|y c1]; [done|].
    rewrite last_cons_cons. destruct (last (y :: c1)) eqn:E; [done|]. by apply last_None in E.
Qed.

Lemma erase_walk_absent w bucket key c : forall fuel prev,
  links w c -> key ∉ ekey <$> c -> (length c < fuel)%nat -> erase_walk fuel bucket prev (first c) key w = Returns (false, w).
Proof.
  induction c as [|x c IH]; intros [|fuel] prev Hl Hni Hf; cbn [length] in Hf; [lia|done|lia|]; cbn [erase_walk].
  rewrite (first_zero w) by done; cbn [first]; unfold mbind at 1, prog_bind at 1; rewrite (read_node_entry w _ _ Hl).
  rewrite fmap_cons, not_elem_of_cons in Hni. destruct Hni as [Hx Hni]. rewrite decide_False by congruence.
  apply IH; [apply Hl|done|lia].
Qed.

(** Taking one node out of a chain by its predecessor. *)
Lemma links_relink w x e c2 : forall c1,
  links w (c1 ++ x :: e :: c2) -> NoDup (addr <$> (c1 ++ x :: c2)) ->
  links (with_objects (<[addr x := Node (ekey x) (evalue x) (first c2)]> (objects w)) w) (c1 ++ x :: c2).
Proof.
  induction c1 as [|y c1 IH]; cbn [app]; rewrite fmap_cons; intros Hl [Hni Hnd]%NoDup_cons.
  - destruct Hl as (Hx & _ & _ & _ & Hl). cbn [links objects with_objects]. rewrite lookup_insert_eq. split_and!; [done|done|].
    eapply links_ext; [|exact Hl]. intros e' He'. cbn. apply lookup_insert_ne. intros E. apply Hni. rewrite E.
    by apply list_elem_of_fmap_2.
  - destruct Hl as (Hy & Ho & Hl). cbn [links objects with_objects]. rewrite lookup_insert_ne.
    + split_and!; [done| |by apply IH]. rewrite Ho. by destruct c1.
    + intros E. apply Hni. rewrite <- E. apply list_elem_of_fmap_2. inlist.
Qed.

Lemma first_app_cons c1 x c2 c2' : first (c1 ++ x :: c2) = first (c1 ++ x :: c2').
Proof. by destruct c1. Qed.

Lemma chain_unlink_spec w m b N R ch j i c1 e c2 :
  ready w m b N R ch j -> ch !! i = Some (c1 ++ e :: c2) ->
  wp False (unlink (buckets m + Z.of_nat i * 4) (previous 0 c1) (first c2)) (fun _ w' =>
    cxx_inv w' ((b :: N) ++ R) /\ table w' (buckets m) (<[i := c1 ++ c2]> ch) /\
    unchanged (addr <$> concat ch) (buckets m) (2 ^ j) w w' /\ is_Some (objects w' !! addr e)) w.
Proof.
  intros Hrd Hc. pose proof (ready_bounds _ _ _ _ _ _ _ Hrd) as (Hb4 & Hb32 & Hj8 & _). destruct Hrd as [Hi Hr Hj Hn Hpb HN].
  destruct (rep_apart _ _ _ _ _ _ _ Hi Hpb HN) as (Hna & Hoff & _). pose proof (lookup_lt_Some _ _ _ Hc) as Hlt.
  destruct (mr_table _ _ _ _ Hr i _ Hc) as [Hcell Hl]. rewrite Z.add_0_l in Hcell.
  assert (Hin : forall i' c' e', ch !! i' = Some c' -> e' ∈ c' -> addr e' ∈ addr <$> concat ch).
  { intros. apply list_elem_of_fmap_2. by eapply elem_of_chain. }
  assert (Hdis : forall i' c' x e', i' <> i -> ch !! i' = Some c' -> e' ∈ c' -> x ∈ c1 ++ e :: c2 -> addr x <> addr e').
  { intros i' c' x e' Hne Hc' He' Hx. rewrite (chain_split_perm ch i _ (c1 ++ e :: c2) [] Hc) in Hna by (by rewrite app_nil_r).
    rewrite fmap_app in Hna. apply NoDup_app in Hna as (_ & Hd & _). intros E.
    apply (Hd (addr x)); [by apply list_elem_of_fmap_2|]. rewrite E. apply list_elem_of_fmap_2.
    apply (elem_of_chain _ i' c'); [by rewrite list_lookup_insert_ne|done]. }
  destruct c1 as [|x c1 _] using rev_ind; unfold previous.
  - cbn [last app unlink Z.eqb]. eapply wp_assign; [exact Hcell|]. split_and!.
    + by eapply inv_assign.
    + intros i' c' Hc'. rewrite Z.add_0_l. cbn [objects with_objects]. destruct (decide (i' = i)) as [->|Hne].
      * rewrite list_lookup_insert_eq in Hc' by done. injection Hc' as <-. split; [by rewrite lookup_insert_eq|].
        cbn [app] in Hl. eapply links_ext; [|apply Hl]. intros e' He'. cbn. apply lookup_insert_ne, not_eq_sym.
        apply Hoff; [|lia]. eapply Hin; [exact Hc|inlist].
      * rewrite list_lookup_insert_ne in Hc' by done. destruct (mr_table _ _ _ _ Hr i' c' Hc') as [Hcell' Hl'].
        rewrite Z.add_0_l in Hcell'. split; [by rewrite lookup_insert_ne by lia|]. eapply links_ext; [|exact Hl'].
        intros e' He'. cbn. apply lookup_insert_ne, not_eq_sym. apply Hoff; [by eapply Hin|lia].
    + intros a _ Ha. cbn. apply lookup_insert_ne, not_eq_sym, Ha. lia.
    + destruct Hl as (_ & Ho & _). cbn. rewrite lookup_insert_ne; [by rewrite Ho|]. apply not_eq_sym, Hoff; [|lia].
      eapply Hin; [exact Hc|inlist].
  - rewrite last_snoc. rewrite <- app_assoc in Hc, Hl, Hcell, Hdis. cbn [app] in Hc, Hl, Hcell, Hdis.
    destruct (links_app_r _ _ _ Hl) as (Hx & Hox & _ & Hoe & _).
    unfold unlink. rewrite (proj2 (Z.eqb_neq _ _)) by done. apply wp_bind.
    unfold wp at 1, read_node, mbind, prog_bind, read. rewrite Hox. cbn [mret prog_ret]. eapply wp_assign; [exact Hox|].
    assert (Hxc : addr x <> buckets m + Z.of_nat i * 4) by (apply Hoff; [eapply Hin; [exact Hc|inlist]|lia]).
    assert (Hnd : NoDup (addr <$> (c1 ++ x :: e :: c2))).
    { rewrite (chain_split_perm ch i _ (c1 ++ x :: e :: c2) [] Hc) in Hna by (by rewrite app_nil_r).
      rewrite fmap_app in Hna. by apply NoDup_app in Hna as (? & _). }
    split_and!.
    + by eapply inv_assign.
    + intros i' c' Hc'. rewrite Z.add_0_l. cbn [objects with_objects]. destruct (decide (i' = i)) as [->|Hne].
      * rewrite list_lookup_insert_eq in Hc' by done. injection Hc' as <-. rewrite <- app_assoc. cbn [app]. split.
        -- rewrite lookup_insert_ne by done. by rewrite (first_app_cons c1 x c2 (e :: c2)).
        -- apply (links_relink w x e c2 c1 Hl).
           assert (Hp : c1 ++ x :: e :: c2 ≡ₚ e :: c1 ++ x :: c2).
           { rewrite <- !Permutation.Permutation_middle. by rewrite Permutation.perm_swap. }
           rewrite Hp, fmap_cons in Hnd. by apply NoDup_cons in Hnd as [_ ?].
      * rewrite list_lookup_insert_ne in Hc' by done. destruct (mr_table _ _ _ _ Hr i' c' Hc') as [Hcell' Hl'].
        rewrite Z.add_0_l in Hcell'. pose proof (lookup_lt_Some _ _ _ Hc'). split.
        -- rewrite lookup_insert_ne; [done|]. apply Hoff; [eapply Hin; [exact Hc|inlist]|lia].
        -- eapply links_ext; [|exact Hl']. intros e' He'. cbn. apply lookup_insert_ne. eapply Hdis; [done|done|done|inlist].
    + intros a Ha _. cbn. apply lookup_insert_ne. intros E. apply Ha. rewrite <- E. eapply Hin; [exact Hc|inlist].
    + cbn. destruct (decide (addr x = addr e)) as [E|E]; [rewrite E, lookup_insert_eq; done|].
      rewrite lookup_insert_ne by done. by rewrite Hoe.
Qed.

(** Giving a node back. *)
Lemma destroy_node_spec w B e nb :
  cxx_inv w (nb :: B) -> pay nb = (addr e, nsz) -> is_Some (objects w !! addr e) ->
  wp False (destroy_node (addr e)) (fun _ w' => cxx_inv w' B /\ frame B w w') w.
Proof.
  intros Hi Hnb [o Ho]. unfold destroy_node. apply wp_bind. eapply wp_destroy; [exact Ho|].
  replace (addr e) with (pay nb).1 at 1 by (by rewrite Hnb).
  eapply wp_mono; [apply deallocate_spec; by apply inv_delete|done|]. intros _ w' (Hi' & Hf' & _). split; [done|].
  eapply frame_trans; [|exact Hf']. apply (frame_delete w (nb :: B) nb); [done|done|]. rewrite Hnb. unfold within. cbn. lia.
Qed.

(** A table whose nodes and array lie in framed blocks stays. *)
Lemma table_frame w w' b N R p ch :
  pay b = (p, Z.of_nat (length ch) * 4) -> node_blocks N (concat ch) -> frame (b :: N ++ R) w w' ->
  table w p ch -> table w' p ch.
Proof.
  intros Hpb HN Hf Ht i c Hc. destruct (Ht i c Hc) as [Ho Hl]. pose proof (lookup_lt_Some _ _ _ Hc). split.
  - rewrite (Hf b); [done|inlist|]. rewrite Hpb. unfold within. cbn. lia.
  - eapply links_ext; [|exact Hl]. intros e He. destruct (node_block N _ e HN ltac:(by eapply elem_of_chain)) as (b0 & Hb0 & Hpb0).
    apply (Hf b0); [inlist|]. rewrite Hpb0. unfold within. cbn. lia.
Qed.

(** One entry fewer. *)
Lemma remove_rep w m b N N' ch j i c1 e c2 :
  map_rep w m (b :: N) ch -> 3 <= j -> Z.of_nat (length ch) = 2 ^ j /\ 2 ^ j < 2 ^ 32 -> pay b = (buckets m, 2 ^ j * 4) ->
  ch !! i = Some (c1 ++ e :: c2) -> node_blocks N' (concat (<[i := c1 ++ c2]> ch)) ->
  (forall w', table w' (buckets m) (<[i := c1 ++ c2]> ch) ->
     map_rep w' (Map (buckets m) (bucket_count m) (msize m ⊟ 1)) (b :: N') (<[i := c1 ++ c2]> ch)) /\
  contents (<[i := c1 ++ c2]> ch) = delete (ekey e) (contents ch).
Proof.
  intros Hr Hj [Hn Hn32] Hpb Hc HN'.
  assert (Hp : concat ch ≡ₚ e :: concat (<[i := c1 ++ c2]> ch)).
  { apply (chain_split_perm ch i _ [e] (c1 ++ c2) Hc). by rewrite <- Permutation.Permutation_middle. }
  pose proof (mr_keys _ _ _ _ Hr) as Hnd. rewrite Hp, fmap_cons in Hnd. pose proof Hnd as Hnd'. apply NoDup_cons in Hnd as [Hni Hnd].
  pose proof (mr_size _ _ _ _ Hr) as Hs. rewrite Hp in Hs. cbn [length] in Hs. pose proof (mr_load _ _ _ _ Hr) as Hload.
  pose proof (mr_count _ _ _ _ Hr) as Hcnt. rewrite Hp in Hload. cbn [length] in Hload. split.
  - intros w' Ht. split; cbn [msize bucket_count buckets]; rewrite ?length_insert; try done.
    + rewrite sub32_small; lia.
    + intros i' c e' Hc' He'. destruct (decide (i' = i)) as [->|Hne].
      * rewrite list_lookup_insert_eq in Hc' by (by eapply lookup_lt_Some). injection Hc' as <-.
        apply (mr_hash _ _ _ _ Hr i _ e' Hc). apply elem_of_app in He' as [?|?]; inlist.
      * rewrite list_lookup_insert_ne in Hc' by done. by apply (mr_hash _ _ _ _ Hr i' c e').
    + lia.
    + right. exists j, b, N'. by rewrite Hn.
  - unfold contents. rewrite (entries_perm (concat ch) _ (mr_keys _ _ _ _ Hr) Hp). unfold entries_map. rewrite fmap_cons.
    cbn [list_to_map pair_of foldr fst snd]. symmetry. apply delete_insert_id. apply not_elem_of_list_to_map_1.
    by rewrite <- list_fmap_compose.
Qed.

Lemma map_erase_spec w m B R ch key :
  cxx_inv w (B ++ R) -> map_rep w m B ch ->
  wp False (erase hash key m) (fun r w' => exists B' ch',
    cxx_inv w' (B' ++ R) /\ map_rep w' r.2 B' ch' /\ frame R w w' /\ contents ch' = delete key (contents ch) /\
    r.1 = (if contents ch !! key is Some _ then 1 else 0)) w.
Proof.
  intros Hi Hr. unfold erase. pose proof (mr_count _ _ _ _ Hr) as Hcnt. destruct (Z.eqb_spec (bucket_count m) 0) as [E0|E0].
  { destruct ch; [|cbn in Hcnt; lia]. apply wp_ret. exists B, []. split_and!; [done|done|done| |done].
    unfold contents, entries_map. cbn. by rewrite delete_empty. }
  destruct (rep_ready _ _ _ _ _ Hi Hr ltac:(lia)) as (b & N & j & -> & Hrd).
  destruct (ready_bucket _ _ _ _ _ _ _ key Hrd) as (c & Hc & _ & Hat & Ho & Hl & Hf & Hown). cbn zeta in *.
  set (i := Z.to_nat _) in *. rewrite Hat. apply wp_bind. unfold wp at 1, read_bucket, mbind, prog_bind, read. rewrite Ho.
  cbn [mret prog_ret]. apply wp_bind.
  rewrite (contents_chain ch key c (mr_keys _ _ _ _ Hr) Hown) by (intros e He; by eapply elem_of_chain).
  destruct (chain_find key c) as [e|] eqn:E; cbn [fmap option_fmap option_map].
  - apply chain_find_Some in E as (c1 & c2 & -> & Hk & Hni). unfold wp at 1. rewrite erase_walk_found by done.
    apply (wp_bind False (unlink _ _ _)).
    eapply wp_mono; [by apply (chain_unlink_spec w m b N R ch j i c1 e c2)|done|]. intros _ w1 (Hi1 & Ht1 & Hu1 & Hs1).
    assert (Hj32 : 2 ^ j < 2 ^ 32).
    { pose proof (ready_bounds _ _ _ _ _ _ _ Hrd). lia. }
    destruct Hrd as [_ _ Hj Hn Hpb HN].
    assert (Hp : concat ch ≡ₚ e :: concat (<[i := c1 ++ c2]> ch)).
    { apply (chain_split_perm ch i _ [e] (c1 ++ c2) Hc). by rewrite <- Permutation.Permutation_middle. }
    destruct (node_blocks_cons N e _ (node_blocks_perm _ _ _ Hp HN)) as (nb & N' & HNp & Hnb & HN').
    assert (Hi1' : cxx_inv w1 (nb :: (b :: N') ++ R)).
    { cbn [app] in *. rewrite HNp in Hi1. cbn in Hi1. by rewrite Permutation.perm_swap. }
    apply wp_bind. eapply wp_mono; [by apply (destroy_node_spec w1 ((b :: N') ++ R) e nb)|done|]. intros _ w2 [Hi2 Hf2]. apply wp_ret.
    cbn beta iota. destruct (remove_rep w m b N N' ch j i c1 e c2 Hr Hj (conj Hn Hj32) Hpb Hc HN') as [Hrem Hcon].
    exists (b :: N'), (<[i := c1 ++ c2]> ch). rewrite <- Hk. split_and!; [done| | |done|done].
    + apply Hrem. eapply (table_frame w1 w2 b N' R); [by rewrite length_insert, Hn|done|done|done].
    + apply (frame_trans R w w1); [by apply (frame_unchanged w w1 b N R (buckets m) (2 ^ j) (concat ch))|].
      eapply frame_sub; [|exact Hf2]. intros x Hx. inlist.
  - unfold wp at 1. rewrite (erase_walk_absent w _ key c _ 0 Hl); [|by apply chain_find_None|done]. apply wp_ret.
    exists (b :: N), ch. split_and!; [done|done|done| |done]. rewrite delete_id; [done|].
    rewrite (contents_chain ch key c (mr_keys _ _ _ _ Hr) Hown) by (intros e He; by eapply elem_of_chain). by rewrite E.
Qed.

End proofs.
