(* ===== verification/HashMapSpec.v ===== *)
(** * kstd::unordered_map: clearing, iterating, copying

    The rest of the proofs about [HashMap], and the theorem that every call is
    the corresponding operation on a finite map. *)

From S2P Require Import Prelude HeapInterface Cxx HashMap HashMapProofs.

Section proofs.
Context {H K V : Type} `{HeapLaws H} `{Countable K} (hash : K -> Z) (nsz nk : Z).
Context (Hhash : forall key, 0 <= hash key < 2 ^ 32) (Hnsz : 0 < nsz) (Hnk : 0 <= nk < 32).

Abbreviation entry := (Z * K * V)%type.
Abbreviation table w p ch := (table_from w p 0 ch).
Abbreviation rep := (map_rep hash nsz).
Implicit Types (w : world H (obj K V)) (m : unordered_map) (B R N : list block) (e : entry) (c : list entry) (ch : list (list entry)).

(** ** Clearing *)

Lemma clear_chain_spec R c : forall fuel w N l,
  cxx_inv w (N ++ R) -> node_blocks nsz N (c ++ l) -> links w c -> (length c < fuel)%nat ->
  wp False (clear_chain fuel (first c)) (fun _ w' => exists N',
    N' ⊆ N /\ cxx_inv w' (N' ++ R) /\ node_blocks nsz N' l /\ frame (N' ++ R) w w') w.
Proof.
  induction c as [|e c IH]; intros [|fuel] w N l Hi HN Hl Hf; cbn [length app] in *; [lia| |lia|].
  { apply wp_ret. by exists N. }
  cbn [clear_chain]. rewrite (first_zero w) by done. cbn [first]. apply wp_bind. unfold wp at 1.
  rewrite (read_node_entry w e c Hl). destruct Hl as (Ha & Ho & Hl).
  destruct (node_blocks_cons nsz N e _ HN) as (nb & N1 & HNp & Hnb & HN1). rewrite HNp in Hi. cbn [app] in Hi.
  apply wp_bind. eapply wp_mono; [apply (destroy_node_spec nsz Hnsz w (N1 ++ R) e nb Hi Hnb); by rewrite Ho|done|].
  intros _ w1 [Hi1 Hf1].
  assert (Hl1 : links w1 c).
  { eapply links_ext; [|exact Hl]. intros e' He'.
    destruct (node_block nsz N1 _ e' HN1 ltac:(inlist)) as (b0 & Hb0 & Hpb0).
    apply (Hf1 b0); [inlist|]. rewrite Hpb0. unfold within. cbn. lia. }
  eapply wp_mono; [apply (IH fuel w1 N1 l Hi1 HN1 Hl1); lia|done|]. intros _ w2 (N2 & Hsub & Hi2 & HN2 & Hf2).
  exists N2. split_and!; [|done|done|].
  - intros x Hx. rewrite HNp. right. by apply Hsub.
  - intros b0 a Hb0 Ha0. rewrite (Hf2 b0) by done. apply (Hf1 b0); [|done].
    apply elem_of_app in Hb0 as [Hb0|Hb0]; [apply elem_of_app; left; by apply Hsub|inlist].
Qed.

Lemma clear_from_spec R b p n todo : pay b = (p, n * 4) -> forall i m w N,
  cxx_inv w (N ++ b :: R) -> node_blocks nsz N (concat todo) -> table_from w p i todo -> buckets m = p ->
  0 <= i -> i + Z.of_nat (length todo) <= n -> (length (concat todo) < chain_fuel m)%nat ->
  wp False (clear_from m i (length todo)) (fun _ w' =>
    cxx_inv w' (b :: R) /\ table_from w' p i (replicate (length todo) ([] : list entry)) /\ frame R w w' /\
    (forall a, within (pay b) a -> a < p + i * 4 -> objects w' !! a = objects w !! a)) w.
Proof.
  intros Hpb. induction todo as [|c todo IH]; intros i m w N Hi HN Ht Hm Hi0 Hn Hf; cbn [length clear_from concat replicate] in *.
  { assert (N = []) as ->.
    { unfold node_blocks in HN. apply Permutation.Permutation_sym, Permutation.Permutation_nil, fmap_nil_inv in HN. done. }
    apply wp_ret. split_and!; [done|by intros ? ?|done|done]. }
  pose proof (inv_pay _ _ b Hi ltac:(inlist)) as Hpay. rewrite Hpb in Hpay. cbn in Hpay. rewrite length_app in Hf.
  rewrite Hm, (bucket_eq p n), (add32_small i 1) by lia. destruct (Ht 0%nat c eq_refl) as [Hcell Hl]. rewrite Z.add_0_r in Hcell.
  apply wp_bind. unfold wp at 1, read_bucket, mbind, prog_bind, read. rewrite Hcell. cbn [mret prog_ret]. apply wp_bind.
  eapply wp_mono; [apply (clear_chain_spec (b :: R) c _ w N (concat todo) Hi HN Hl); lia|done|].
  intros _ w1 (N1 & Hsub & Hi1 & HN1 & Hf1).
  assert (Hwb : within (pay b) (p + i * 4)) by (rewrite Hpb; unfold within; cbn; lia).
  apply wp_bind. eapply wp_assign; [rewrite (Hf1 b); [exact Hcell|inlist|done]|].
  pose proof (inv_insert w1 _ b (p + i * 4) (Bucket 0) Hi1 ltac:(inlist) Hwb) as Hi2. set (w2 := with_objects _ _) in *.
  assert (Hf2 : frame (N1 ++ R) w1 w2).
  { apply (frame_insert w1 _ b (N1 ++ R) _ _ Hi1); [by rewrite <- Permutation.Permutation_middle|done]. }
  eapply wp_mono; [apply (IH (i + 1) m w2 N1 Hi2 HN1)|done|]; [|done|lia|lia|lia|].
  - intros t ct Hct. destruct (Ht (S t) ct Hct) as [Hc Hlt]. pose proof (lookup_lt_Some _ _ _ Hct).
    replace (i + 1 + Z.of_nat t) with (i + Z.of_nat (S t)) by lia. split.
    + cbn. rewrite lookup_insert_ne by lia. rewrite (Hf1 b); [exact Hc|inlist|]. rewrite Hpb. unfold within. cbn. lia.
    + eapply links_ext; [|exact Hlt]. intros e He.
      destruct (node_block nsz N1 _ e HN1 ltac:(by eapply elem_of_chain)) as (b0 & Hb0 & Hpb0).
      assert (Hw0 : within (pay b0) (addr e)) by (rewrite Hpb0; unfold within; cbn; lia).
      rewrite (Hf2 b0), (Hf1 b0) by (done || inlist). done.
  - intros _ w3 (Hi3 & Ht3 & Hf3 & Hlow). split_and!; [done| | |].
    + intros [|t] x Hx; cbn in Hx.
      * injection Hx as <-. rewrite Z.add_0_r, Hlow by (done || lia). cbn. by rewrite lookup_insert_eq.
      * destruct (Ht3 t x Hx) as [Ho Hlx]. split; [|done]. rewrite <- Ho. f_equal. lia.
    + intros b0 a Hb0 Ha. rewrite (Hf3 b0), (Hf2 b0), (Hf1 b0) by (done || inlist). done.
    + intros a Ha Hlt. rewrite Hlow by (done || lia). cbn. rewrite lookup_insert_ne by lia. apply (Hf1 b); [inlist|done].
Qed.

Lemma map_clear_spec w m B R ch :
  cxx_inv w (B ++ R) -> rep w m B ch ->
  wp False (clear m) (fun m' w' => exists B' ch',
    cxx_inv w' (B' ++ R) /\ rep w' m' B' ch' /\ frame R w w' /\ contents ch' = ∅ /\
    m' = Map (buckets m) (bucket_count m) 0) w.
Proof.
  intros Hi Hr. unfold clear. pose proof (mr_count _ _ _ _ _ _ Hr) as Hcnt.
  destruct (mr_shape _ _ _ _ _ _ Hr) as [(-> & Hb & ->)|(j & b & N & Hj & Hn & -> & Hpb & HN)].
  - rewrite Hcnt. cbn [length Z.of_nat Z.to_nat clear_from]. apply wp_bind, wp_ret, wp_ret. exists [], [].
    split_and!; [done| |done|done|done]. destruct Hr. by split.
  - rewrite Hcnt, Nat2Z.id. apply wp_bind. assert (Hi' : cxx_inv w (N ++ b :: R)) by (by rewrite <- Permutation.Permutation_middle).
    eapply wp_mono; [apply (clear_from_spec R b (buckets m) (Z.of_nat (length ch)) ch Hpb 0 m w N Hi' HN); try (done || lia)|done|].
    + apply (mr_table _ _ _ _ _ _ Hr).
    + unfold chain_fuel. rewrite (mr_size _ _ _ _ _ _ Hr). lia.
    + intros _ w1 (Hi1 & Ht1 & Hf1 & _). apply wp_ret. exists [b], (replicate (length ch) []).
      split_and!; [done| |done|by unfold contents; rewrite concat_nils|done].
      split; cbn [msize bucket_count buckets]; rewrite ?concat_nils, ?length_replicate; try done.
      * apply NoDup_nil_2.
      * intros i c e [-> _]%lookup_replicate He. by apply not_elem_of_nil in He.
      * cbn. lia.
      * right. exists j, b, []. split_and!; [done|done|done|done|]. by unfold node_blocks.
Qed.

Lemma clear_and_free_spec w m B R ch :
  cxx_inv w (B ++ R) -> rep w m B ch ->
  wp False (clear_and_free m) (fun m' w' => cxx_inv w' R /\ frame R w w' /\ m' = empty_map) w.
Proof.
  intros Hi Hr. unfold clear_and_free. apply wp_bind. eapply wp_mono; [by eapply map_clear_spec|done|].
  intros m1 w1 (B1 & ch1 & Hi1 & Hr1 & Hf1 & _ & ->). cbn [buckets msize].
  destruct (mr_shape _ _ _ _ _ _ Hr1) as [(-> & Hb & ->)|(j & b & N & Hj & Hn & -> & Hpb & HN)]; cbn [buckets] in *.
  - rewrite Hb. cbn [Z.eqb]. apply wp_bind, wp_ret, wp_ret. done.
  - assert (N = []) as ->.
    { pose proof (mr_size _ _ _ _ _ _ Hr1) as Hs. cbn [msize] in Hs. destruct (concat ch1); [|cbn in Hs; lia].
      unfold node_blocks in HN. apply Permutation.Permutation_sym, Permutation.Permutation_nil, fmap_nil_inv in HN. done. }
    pose proof (inv_pay _ _ b Hi1 ltac:(inlist)) as Hpay. rewrite Hpb in Hpay. cbn in Hpay.
    rewrite (proj2 (Z.eqb_neq _ _)) by lia. apply wp_bind. replace (buckets m) with (pay b).1 by (by rewrite Hpb).
    eapply wp_mono; [by apply deallocate_spec|done|]. intros _ w2 (Hi2 & Hf2 & _). apply wp_ret.
    split_and!; [done|by eapply frame_trans|done].
Qed.

(** ** Iterating *)

(** The iterator [it] has the entries [l] before it. *)
Definition cursor (p : Z) ch (it : iterator) (l : list entry) : Prop :=
  (it_node it = 0 /\ l = []) \/
  exists i c0 e c, ch !! i = Some (c0 ++ e :: c) /\
    it = Iterator (p + Z.of_nat i * 4) (p + Z.of_nat (length ch) * 4) (addr e) /\
    l = e :: c ++ concat (drop (S i) ch).

Lemma next_bucket_spec w p ch c : 0 <= p -> p + Z.of_nat (length ch) * 4 < 2 ^ 32 -> table w p ch -> forall k fuel i c0,
  ch !! i = Some (c0 ++ c) -> (length ch - i = k)%nat -> (k < fuel)%nat ->
  exists it, next_bucket fuel (Iterator (p + Z.of_nat i * 4) (p + Z.of_nat (length ch) * 4) (first c)) w = Returns (it, w) /\
    cursor p ch it (c ++ concat (drop (S i) ch)).
Proof.
  intros Hp Hp32 Ht k. revert c. induction k as [|k IH]; intros c fuel i c0 Hc Hk Hf; pose proof (lookup_lt_Some _ _ _ Hc); [lia|].
  destruct fuel as [|fuel]; [lia|]. cbn [next_bucket it_node it_bucket it_bucket_end].
  destruct (Ht i _ Hc) as [_ Hl]. pose proof (links_app_r _ _ _ Hl) as Hlc. rewrite (first_zero w) by done.
  destruct c as [|e c].
  2:{ eexists. split; [done|]. right. by exists i, c0, e, c. }
  rewrite add32_small by lia. destruct (Z.eqb_spec (p + Z.of_nat i * 4 + 4) (p + Z.of_nat (length ch) * 4)) as [E|E].
  - eexists. split; [done|]. left. split; [done|]. cbn [app]. by rewrite drop_ge by lia.
  - destruct (lookup_lt_is_Some_2 ch (S i)) as [c' Hc']; [lia|]. destruct (Ht (S i) c' Hc') as [Hcell _].
    rewrite Z.add_0_l in Hcell. replace (p + Z.of_nat i * 4 + 4) with (p + Z.of_nat (S i) * 4) by lia.
    unfold mbind, prog_bind, read_bucket, mbind, prog_bind, read. rewrite Hcell. cbn [mret prog_ret].
    destruct (IH c' fuel (S i) [] Hc' ltac:(lia) ltac:(lia)) as (it & He & Hcur). exists it. split; [exact He|].
    cbn [app]. rewrite (drop_S ch c' (S i)) by done. exact Hcur.
Qed.

Lemma increment_spec w p ch it e l fuel :
  0 <= p -> p + Z.of_nat (length ch) * 4 < 2 ^ 32 -> table w p ch -> cursor p ch it (e :: l) -> (length ch < fuel)%nat ->
  exists it', increment fuel it w = Returns (it', w) /\ cursor p ch it' l.
Proof.
  intros Hp Hp32 Ht [[_ Hn]|(i & c0 & e' & c & Hc & -> & [= -> ->])] Hf; [done|].
  pose proof (lookup_lt_Some _ _ _ Hc). destruct (Ht i _ Hc) as [_ Hl]. pose proof (links_app_r _ _ _ Hl) as Hlc.
  unfold increment, mbind, prog_bind. cbn [it_node it_bucket it_bucket_end]. rewrite (read_node_entry w e' c Hlc).
  apply (next_bucket_spec w p ch c Hp Hp32 Ht (length ch - i)%nat fuel i (c0 ++ [e'])); [|done|lia]. by rewrite <- app_assoc.
Qed.

(** [begin()]: every entry is ahead. *)
Lemma skip_empty_spec w p ch : 0 <= p -> p + Z.of_nat (length ch) * 4 < 2 ^ 32 -> table w p ch -> forall k fuel i,
  (length ch - i = k)%nat -> (i <= length ch)%nat -> (k < fuel)%nat -> concat (take i ch) = [] ->
  exists i', skip_empty fuel (p + Z.of_nat i * 4) (p + Z.of_nat (length ch) * 4) w = Returns (p + Z.of_nat i' * 4, w) /\
    (i' <= length ch)%nat /\ concat (take i' ch) = [] /\ (forall c, ch !! i' = Some c -> c <> []).
Proof.
  intros Hp Hp32 Ht. induction k as [|k IH]; intros [|fuel] i Hk Hi Hf Hemp; try lia; cbn [skip_empty].
  - rewrite (proj2 (Z.eqb_eq _ _)) by lia. exists i. split_and!; [done|done|done|]. intros c Hc%lookup_lt_Some. lia.
  - rewrite (proj2 (Z.eqb_neq _ _)) by lia. destruct (lookup_lt_is_Some_2 ch i) as [c Hc]; [lia|].
    destruct (Ht i c Hc) as [Hcell Hl]. rewrite Z.add_0_l in Hcell.
    unfold mbind, prog_bind, read_bucket, mbind, prog_bind, read. rewrite Hcell. cbn [mret prog_ret].
    rewrite (first_zero w) by done. destruct c as [|e c].
    + rewrite add32_small by lia. replace (p + Z.of_nat i * 4 + 4) with (p + Z.of_nat (S i) * 4) by lia.
      apply IH; [lia..|]. by rewrite (take_S_r _ _ [] Hc), concat_app, Hemp.
    + exists i. split_and!; [done|done|done|]. rewrite Hc. by intros c' [= <-].
Qed.

Lemma begin_spec w m B R ch :
  cxx_inv w (B ++ R) -> rep w m B ch ->
  exists it, begin_ m w = Returns (it, w) /\ cursor (buckets m) ch it (concat ch).
Proof.
  intros Hi Hr. unfold begin_. pose proof (mr_count _ _ _ _ _ _ Hr) as Hcnt. destruct (Z.eqb_spec (bucket_count m) 0) as [E0|E0].
  { destruct ch; [|cbn in Hcnt; lia]. eexists. split; [done|]. by left. }
  destruct (rep_ready _ _ _ _ _ _ _ Hi Hr ltac:(lia)) as (b & N & j & -> & Hrd).
  pose proof (ready_bounds _ _ Hnsz _ _ _ _ _ _ _ Hrd) as (Hb4 & Hb32 & Hj8 & Hc2). pose proof (mr_table _ _ _ _ _ _ Hr) as Ht.
  rewrite (bucket_eq (buckets m) (2 ^ j)) by lia. rewrite Hcnt, Nat2Z.id.
  destruct (skip_empty_spec w (buckets m) ch ltac:(lia) ltac:(lia) Ht (length ch) (S (length ch)) 0%nat) as (i & He & Hi' & Hemp & Hne);
    [lia|lia|lia|done|]. rewrite Z.mul_0_l, Z.add_0_r in He. unfold mbind, prog_bind. rewrite He.
  destruct (Z.eqb_spec (buckets m + Z.of_nat i * 4) (buckets m + Z.of_nat (length ch) * 4)) as [E|E].
  - eexists. split; [done|]. left. split; [done|]. assert (i = length ch) as -> by lia. by rewrite firstn_all in Hemp.
  - destruct (lookup_lt_is_Some_2 ch i) as [c Hc]; [lia|]. destruct (Ht i c Hc) as [Hcell _]. rewrite Z.add_0_l in Hcell.
    unfold read_bucket, mbind, prog_bind, read. rewrite Hcell. cbn [mret prog_ret]. eexists. split; [done|]. right.
    destruct c as [|e c]; [by apply Hne in Hc|]. exists i, [], e, c. split_and!; [done|done|].
    rewrite <- (take_drop i ch) at 1. rewrite concat_app, Hemp. cbn [app]. by rewrite (drop_S ch (e :: c) i Hc).
Qed.

(** A range-based [for] visits the chains in the order of the buckets, each
    from its most recent entry to its oldest. *)
Lemma visit_spec w p ch sf l :
  0 <= p -> p + Z.of_nat (length ch) * 4 < 2 ^ 32 -> table w p ch -> (length ch < sf)%nat -> forall fuel it,
  cursor p ch it l -> (length l < fuel)%nat -> visit fuel sf it w = Returns (pair_of <$> l, w).
Proof.
  intros Hp Hp32 Ht Hsf. induction l as [|e l IH]; intros [|fuel] it Hcur Hf; cbn [length] in Hf; [lia| |lia|]; cbn [visit].
  - by destruct Hcur as [[-> _]|(? & ? & ? & ? & _ & _ & [=])].
  - pose proof Hcur as Hcur'. destruct Hcur as [[_ Hbad]|(i & c0 & e' & c & Hc & -> & [= <- _])]; [done|]. cbn [it_node].
    destruct (Ht i _ Hc) as [_ Hl]. pose proof (links_app_r _ _ _ Hl) as Hlc. rewrite (proj2 (Z.eqb_neq _ 0)) by apply Hlc.
    unfold mbind, prog_bind. rewrite (read_node_entry w e c Hlc).
    destruct (increment_spec w p ch _ e l sf Hp Hp32 Ht Hcur' Hsf) as (it' & -> & Hcur1).
    rewrite (IH fuel it' Hcur1 ltac:(lia)). done.
Qed.

(** ** Copying *)

Lemma rep_size w m B ch : rep w m B ch -> msize m = Z.of_nat (base.size (contents ch)).
Proof.
  intros Hr. rewrite (mr_size _ _ _ _ _ _ Hr). unfold contents, entries_map. rewrite map_size_list_to_map.
  - by rewrite length_fmap.
  - rewrite <- list_fmap_compose. apply (mr_keys _ _ _ _ _ _ Hr).
Qed.

(** What [emplace] does to a finite map. *)
Definition map_emplace (k : K) (v : V) (M : gmap K V) : gmap K V := if M !! k is Some _ then M else <[k := v]> M.

Lemma map_emplace_size k v (M : gmap K V) : (base.size (map_emplace k v M) <= S (base.size M))%nat.
Proof. unfold map_emplace. destruct (M !! k) eqn:E; [lia|]. by rewrite map_size_insert_None. Qed.

Lemma map_emplace_union e l (M : gmap K V) :
  map_emplace (ekey e) (evalue e) M ∪ entries_map l = M ∪ entries_map (e :: l).
Proof.
  unfold map_emplace. change (entries_map (e :: l)) with (<[ekey e := evalue e]> (entries_map l)).
  destruct (M !! ekey e) as [v|] eqn:E.
  - apply map_eq. intros k. rewrite !lookup_union. destruct (decide (k = ekey e)) as [->|Hne].
    + rewrite E, lookup_insert_eq. by destruct (entries_map l !! ekey e).
    + by rewrite lookup_insert_ne.
  - by rewrite <- insert_union_l, insert_union_r.
Qed.

Lemma copy_loop_spec R p cho sf l :
  0 <= p -> p + Z.of_nat (length cho) * 4 < 2 ^ 32 -> (length cho < sf)%nat -> forall fuel w m B ch it,
  (forall w', frame R w w' -> table w' p cho) -> (length l < fuel)%nat ->
  cxx_inv w (B ++ R) -> rep w m B ch -> cursor p cho it l ->
  msize m + Z.of_nat (length l) <= bucket_count m -> affordable (H := H) (bucket_count m * 4 + overhead 4) ->
  affordable (H := H) (nsz + overhead (2 ^ nk)) ->
  wp True (copy_loop hash nsz (2 ^ nk) fuel sf it m) (fun m' w' => exists B' ch',
    cxx_inv w' (B' ++ R) /\ rep w' m' B' ch' /\ frame R w w' /\ contents ch' = contents ch ∪ entries_map l) w.
Proof.
  intros Hp Hp32 Hsf. induction l as [|e l IH]; intros [|fuel] w m B ch it Ht Hf Hi Hr Hcur Hroom Ha1 Ha2;
    cbn [length] in *; [lia| |lia|]; cbn [copy_loop].
  - destruct Hcur as [[-> _]|(? & ? & ? & ? & _ & _ & [=])]. cbn [Z.eqb]. apply wp_ret. exists B, ch.
    split_and!; [done|done|done|]. unfold entries_map. cbn. by rewrite map_union_empty.
  - pose proof (Ht w (frame_refl R w)) as Htw. pose proof Hcur as Hcur'.
    destruct Hcur as [[_ Hbad]|(i & c0 & e' & c & Hc & -> & [= <- _])]; [done|]. cbn [it_node].
    destruct (Htw i _ Hc) as [_ Hl]. pose proof (links_app_r _ _ _ Hl) as Hlc. destruct Hlc as (Hnz & Ho & Hlc).
    rewrite (proj2 (Z.eqb_neq _ 0)) by done. apply wp_bind. unfold wp at 1.
    rewrite (read_node_entry w e c) by done. apply wp_bind. pose proof (mr_size _ _ _ _ _ _ Hr).
    assert (Hrm : room m = bucket_count m).
    { unfold room. rewrite (proj2 (Z.eqb_neq _ _)), (proj2 (Z.ltb_ge _ _)) by lia. done. }
    eapply wp_mono; [apply (emplace_spec hash nsz nk Hhash Hnsz Hnk w m B R ch (ekey e) (evalue e) Hi Hr); split; [by rewrite Hrm|done]|done|].
    intros [[a fresh] m1] w1 (B1 & ch1 & Hi1 & Hr1 & Hf1 & Hc1 & _ & Hb1). cbn [fst snd] in *. rewrite Hrm in Hb1.
    assert (Htw1 : table w1 p cho) by (by apply Ht).
    destruct (increment_spec w1 p cho _ e l sf Hp Hp32 Htw1 Hcur' Hsf) as (it' & Hinc & Hcur1).
    apply wp_bind. unfold wp at 1. rewrite Hinc.
    assert (Hsz : msize m1 <= msize m + 1).
    { rewrite (rep_size _ _ _ _ Hr1), (rep_size _ _ _ _ Hr), Hc1.
      pose proof (map_emplace_size (ekey e) (evalue e) (contents ch)) as Hs. unfold map_emplace in Hs. lia. }
    eapply wp_mono; [apply (IH fuel w1 m1 B1 ch1 it'); try (done || lia)|done|].
    + intros w' Hf'. apply Ht. by eapply frame_trans.
    + by rewrite Hb1.
    + intros m2 w2 (B2 & ch2 & Hi2 & Hr2 & Hf2 & Hc2). exists B2, ch2. split_and!; [done|done|by eapply frame_trans|].
      rewrite Hc2, Hc1. apply map_emplace_union.
Qed.

(** The array of a map is framed with its blocks. *)
Lemma rep_table_frame w other Bo R R' cho :
  R ≡ₚ Bo ++ R' -> rep w other Bo cho -> forall w', frame R w w' -> table w' (buckets other) cho.
Proof.
  intros HR Hro w' Hf. destruct (mr_shape _ _ _ _ _ _ Hro) as [(-> & _)|(j & b & N & Hj & Hn & -> & Hpb & HN)]; [by intros ? ?|].
  eapply (table_frame nsz Hnsz w w' b N R'); [done|done| |apply (mr_table _ _ _ _ _ _ Hro)].
  eapply frame_sub; [|exact Hf]. intros x. by rewrite HR.
Qed.

Lemma rep_array_bounds w m B R ch :
  cxx_inv w (B ++ R) -> rep w m B ch -> 0 <= buckets m /\ buckets m + Z.of_nat (length ch) * 4 < 2 ^ 32.
Proof.
  intros Hi Hr. destruct (mr_shape _ _ _ _ _ _ Hr) as [(-> & -> & _)|(j & b & N & Hj & Hn & -> & Hpb & HN)]; [cbn; lia|].
  pose proof (inv_pay _ _ b Hi ltac:(inlist)) as Hpay. rewrite Hpb in Hpay. cbn in Hpay. lia.
Qed.

Lemma reserve_like w m B ch : rep w m B ch -> exists j, 0 <= j /\ bucket_request (bucket_count m) = bucket_request (2 ^ j) /\
  reserve_buckets (H := H) (V := V) hash (bucket_count m) empty_map = reserve_buckets hash (2 ^ j) empty_map.
Proof.
  intros Hr. pose proof (mr_count _ _ _ _ _ _ Hr) as Hc. destruct (mr_shape _ _ _ _ _ _ Hr) as [(-> & _)|(j & ? & ? & Hj & Hn & _)].
  - exists 0. cbn in Hc. by rewrite Hc.
  - exists j. rewrite Hc, Hn. split_and!; [lia|done|done].
Qed.

Lemma entries_spec w m B R ch :
  cxx_inv w (B ++ R) -> rep w m B ch -> entries m w = Returns (pair_of <$> concat ch, w).
Proof.
  intros Hi Hr. destruct (begin_spec w m B R ch Hi Hr) as (it & Hb & Hcur). destruct (rep_array_bounds _ _ _ _ _ Hi Hr).
  unfold entries, mbind, prog_bind. rewrite Hb. apply (visit_spec w (buckets m) ch); try done.
  - apply (mr_table _ _ _ _ _ _ Hr).
  - rewrite (mr_count _ _ _ _ _ _ Hr). lia.
  - unfold chain_fuel. rewrite (mr_size _ _ _ _ _ _ Hr). lia.
Qed.

(** Copying a map that lives in the framed blocks into an empty one. *)
Lemma copy_into_spec w R R' other Bo cho :
  cxx_inv w R -> R ≡ₚ Bo ++ R' -> rep w other Bo cho ->
  affordable (H := H) (bucket_request (bucket_count other) * 4 + overhead 4) -> affordable (H := H) (nsz + overhead (2 ^ nk)) ->
  wp True (copy_into hash nsz (2 ^ nk) other empty_map) (fun m' w' => exists B' ch',
    cxx_inv w' (B' ++ R) /\ rep w' m' B' ch' /\ frame R w w' /\ contents ch' = contents cho) w.
Proof.
  intros Hi HR Hro Ha1 Ha2. unfold copy_into. pose proof Hi as Hi'. rewrite HR in Hi'. apply wp_bind.
  destruct (reserve_like _ _ _ _ Hro) as (j & Hj & Hreq & ->). rewrite Hreq in Ha1.
  assert (Hmax : Z.max (bucket_count empty_map) (bucket_request (2 ^ j)) = bucket_request (2 ^ j)).
  { unfold bucket_request, INITIAL_BUCKETS. cbn. lia. }
  eapply wp_mono; [apply (reserve_buckets_spec hash nsz nk Hhash Hnsz Hnk w empty_map [] R [] j Hi (map_empty_rep hash nsz w) Hj); by rewrite Hmax|done|].
  rewrite Hmax. intros m1 w1 (B1 & ch1 & Hi1 & Hr1 & Hf1 & Hp1 & Hb1).
  assert (Hro1 : rep w1 other Bo cho).
  { pose proof (rep_table_frame w other Bo R R' cho HR Hro w1 Hf1). by destruct Hro. }
  assert (Hi1' : cxx_inv w1 (Bo ++ R' ++ B1)).
  { rewrite app_assoc, <- HR. by rewrite Permutation.Permutation_app_comm. }
  destruct (begin_spec w1 other Bo (R' ++ B1) cho Hi1' Hro1) as (it & Hbeg & Hcur).
  apply wp_bind. unfold wp at 1. rewrite Hbeg. destruct (rep_array_bounds _ _ _ _ _ Hi' Hro) as [Hb0 Hb32].
  pose proof (mr_count _ _ _ _ _ _ Hro) as Hco. pose proof (mr_size _ _ _ _ _ _ Hro) as Hso. pose proof (mr_load _ _ _ _ _ _ Hro) as Hlo.
  assert (Hs1 : msize m1 = 0) by (rewrite (mr_size _ _ _ _ _ _ Hr1), Hp1; done).
  eapply wp_mono; [apply (copy_loop_spec R (buckets other) cho (S (Z.to_nat (bucket_count other))) (concat cho) Hb0 Hb32
    ltac:(rewrite Hco; lia) (chain_fuel other) w1 m1 B1 ch1 it); try done|done|].
  - intros w' Hf'. eapply rep_table_frame; [done|exact Hro|]. by eapply frame_trans.
  - unfold chain_fuel. rewrite Hso. lia.
  - rewrite Hs1, Hb1, <- Hreq. unfold bucket_request. lia.
  - by rewrite Hb1.
  - intros m2 w2 (B2 & ch2 & Hi2 & Hr2 & Hf2 & Hc2). exists B2, ch2. split_and!; [done|done|by eapply frame_trans|].
    rewrite Hc2. assert (E : contents ch1 = ∅).
    { unfold contents. apply Permutation.Permutation_sym, Permutation.Permutation_nil in Hp1. by rewrite Hp1. }
    by rewrite E, map_empty_union.
Qed.

(** ** Calls *)

Inductive call :=
| Emplace (k : K) (v : V) | Assign (k : K) (v : V) | Erase (k : K) | Find (k : K) | Clear | AssignCopy (other : unordered_map).

Inductive answer := Flag (b : bool) | Count (n : Z) | Value (v : option V) | Done.

(** [init] is the value [V()] that [operator[]] begins with. *)
Definition run (init : V) (c : call) m : prog (world H (obj K V)) (answer * unordered_map) :=
  match c with
  | Emplace k v => '(_, fresh, m) ← emplace hash nsz (2 ^ nk) k v m; mret (Flag fresh, m)
  | Assign k v => m ← subscript_assign hash nsz (2 ^ nk) init k v m; mret (Done, m)
  | Erase k => '(n, m) ← erase hash k m; mret (Count n, m)
  | Find k =>
    it ← find hash k m;
    if it_node it =? it_node (end_ m) then mret (Value None, m)
    else '(_, v, _) ← read_node (it_node it); mret (Value (Some v), m)
  | Clear => m ← clear m; mret (Done, m)
  | AssignCopy other => m ← assign_copy hash nsz (2 ^ nk) m other false; mret (Done, m)
  end.

(** The same calls on a finite map; [src] is the map copied from. *)
Definition spec (c : call) (src M : gmap K V) : answer * gmap K V :=
  match c with
  | Emplace k v => (Flag (negb (bool_decide (is_Some (M !! k)))), map_emplace k v M)
  | Assign k v => (Done, <[k := v]> M)
  | Erase k => (Count (if M !! k is Some _ then 1 else 0), delete k M)
  | Find k => (Value (M !! k), M)
  | Clear => (Done, ∅)
  | AssignCopy _ => (Done, src)
  end.

(** The requests a call may make are ones the heap serves. *)
Definition payable (c : call) m : Prop :=
  match c with
  | Emplace _ _ | Assign _ _ => insert_affordable (H := H) nsz nk m
  | AssignCopy other => affordable (H := H) (bucket_request (bucket_count other) * 4 + overhead 4) /\
      affordable (H := H) (nsz + overhead (2 ^ nk))
  | _ => True
  end.

(** The map copied from is another one. *)
Definition legal (c : call) w R (src : gmap K V) : Prop :=
  match c with
  | AssignCopy other => exists Bo R' cho, R ≡ₚ Bo ++ R' /\ rep w other Bo cho /\ contents cho = src
  | _ => True
  end.

Definition allocates (c : call) : Prop :=
  match c with Emplace _ _ | Assign _ _ | AssignCopy _ => True | _ => False end.

(** C8: An unordered map behaves as a finite map: every call has defined
    behaviour, or halts because the heap is out of memory while it allocates;
    its answer and the map after it are those of the specification, and every
    block it does not own is left alone. *)
Theorem unordered_map_refines_map w m B R ch src init (o : call) :
  cxx_inv w (B ++ R) -> rep w m B ch -> legal o w R src -> payable o m ->
  wp (allocates o) (run init o m) (fun r w' => exists B' ch',
    cxx_inv w' (B' ++ R) /\ rep w' r.2 B' ch' /\ frame R w w' /\ (r.1, contents ch') = spec o src (contents ch)) w.
Proof.
  intros Hi Hr Hl Hp. destruct o as [k v|k v|k|k| |other]; cbn [run spec legal payable allocates] in *; [apply wp_bind..| |apply wp_bind].
  - eapply wp_mono; [by apply (emplace_spec hash nsz nk Hhash Hnsz Hnk w m B R ch k v)|done|].
    intros [[a fresh] m'] w' (B' & ch' & Hi' & Hr' & Hf' & Hc' & E & _). cbn [fst snd] in E. apply wp_ret. exists B', ch'. by rewrite Hc', E.
  - eapply wp_mono; [by apply (subscript_assign_spec hash nsz nk Hhash Hnsz Hnk w m B R ch init k v)|done|].
    intros m' w' (B' & ch' & Hi' & Hr' & Hf' & Hc'). apply wp_ret. exists B', ch'. by rewrite Hc'.
  - eapply wp_mono; [by apply (map_erase_spec hash nsz nk Hhash Hnsz Hnk w m B R ch k)|done|].
    intros [n m'] w' (B' & ch' & Hi' & Hr' & Hf' & Hc' & E). cbn in E. apply wp_ret. exists B', ch'. by rewrite Hc', E.
  - destruct (find_spec hash nsz nk Hhash Hnsz Hnk w m B R ch k Hi Hr) as (it & Hfd & Hit). unfold wp at 1. rewrite Hfd.
    cbn [end_ it_node]. destruct (it_node it =? 0).
    + apply wp_ret. exists B, ch. by rewrite Hit.
    + destruct Hit as (v & Hv & next & Ho). apply wp_bind. unfold wp at 1, read_node, mbind, prog_bind, read. rewrite Ho.
      cbn [mret prog_ret]. apply wp_ret. exists B, ch. by rewrite Hv.
  - apply wp_bind. eapply wp_mono; [by eapply map_clear_spec|done|].
    intros m' w' (B' & ch' & Hi' & Hr' & Hf' & Hc' & _). apply wp_ret. exists B', ch'. by rewrite Hc'.
  - destruct Hl as (Bo & R' & cho & HR & Hro & <-), Hp as [Ha1 Ha2]. unfold assign_copy. apply wp_bind.
    eapply wp_mono; [by eapply clear_and_free_spec|done|]. intros m1 w1 (Hi1 & Hf1 & ->).
    assert (Hro1 : rep w1 other Bo cho).
    { pose proof (rep_table_frame w other Bo R R' cho HR Hro w1 Hf1). by destruct Hro. }
    eapply wp_mono; [by eapply copy_into_spec|done|]. intros m2 w2 (B2 & ch2 & Hi2 & Hr2 & Hf2 & Hc2).
    apply wp_ret. exists B2, ch2. rewrite Hc2. split_and!; [done|done|by eapply frame_trans|done].
Qed.

End proofs.

(** ** On a concrete heap *)

Definition boot_map : world Z (obj Z Z) := fresh_world 0xC0000000.

Lemma boot_map_inv : cxx_inv boot_map [].
Proof. apply fresh_inv. by split_and!. Qed.

Lemma unordered_map_refines_map_witness :
  wp True (run (H := Z) u32 12 2 0 (Emplace 5 7) empty_map) (fun r w' => exists B' ch',
    cxx_inv w' (B' ++ []) /\ map_rep u32 12 w' r.2 B' ch' /\ frame [] boot_map w' /\
    (r.1, contents ch') = (Flag true, {[5 := 7]})) boot_map.
Proof.
  apply (unordered_map_refines_map u32 12 2 u32_range ltac:(lia) ltac:(lia) boot_map empty_map [] [] [] ∅ 0 (Emplace 5 7)).
  - apply boot_map_inv.
  - apply map_empty_rep.
  - exact I.
  - split; unfold affordable; by vm_compute.
Defined.

(** Two keys of one bucket, inserted as 0 and then 8, are visited as 8 and then
    0, and a copy of the map visits them in the opposite order again. *)
Definition two_keys : prog (world Z (obj Z Z)) (list (Z * Z) * list (Z * Z)) :=
  '(_, _, m) ← emplace u32 12 4 0 10 empty_map;
  '(_, _, m) ← emplace u32 12 4 8 20 m;
  l ← entries m;
  m' ← map_copy u32 12 4 m;
  l' ← entries m';
  mret (l, l').

Lemma iteration_order :
  match two_keys boot_map with Returns (r, _) => r = ([(8, 20); (0, 10)], [(0, 10); (8, 20)]) | _ => False end.
Proof. vm_compute. reflexivity. Qed.
