(* ===== verification/KString.v ===== *)
(** * kstd::string

    Models libkxx/include/kstd/string.hpp: a buffer of 24 bytes inside the
    object, or a block of the heap whose pointer shares the first four bytes of
    that buffer.  Bytes on the heap are the objects of the world of [Cxx]. *)

From S2P Require Import Prelude HeapInterface Cxx.

(** [union_] is the 24 bytes of the union of [_inline] and [_heap]. *)
Record string := Str { union_ : list Z; ssize : Z; scapacity : Z }.

Definition INLINE_CAPACITY : Z := 23.

(** [_heap]: the first four bytes of the union. *)
Definition heap_of (u : list Z) : Z :=
  nth 0 u 0 + nth 1 u 0 * 2 ^ 8 + nth 2 u 0 * 2 ^ 16 + nth 3 u 0 * 2 ^ 24.
Definition pointer_bytes (p : Z) : list Z := [p mod 2 ^ 8; p / 2 ^ 8 mod 2 ^ 8; p / 2 ^ 16 mod 2 ^ 8; p / 2 ^ 24 mod 2 ^ 8].
Definition set_heap (p : Z) (u : list Z) : list Z := pointer_bytes p ++ drop 4 u.

Definition is_inline (s : string) : bool := scapacity s =? INLINE_CAPACITY.

(** What a [const char *] argument points to: an array of the caller, the
    inline buffer of the string itself, or the heap. *)
Inductive text := Bytes (l : list Z) | InlineAt (offset : Z) | HeapAt (a : Z).

(** A fresh object: the bytes of the buffer are not set. *)
Definition raw_string : string := Str (replicate 24 0) 0 INLINE_CAPACITY.

Section operations.
Context {H : Type} `{HeapOps H}.
Implicit Types (s : string).

Abbreviation prog := (prog (world H Z)).

Definition data s : text := if is_inline s then InlineAt 0 else HeapAt (heap_of (union_ s)).
Definition shift (t : text) (n : Z) : text :=
  match t with
  | Bytes l => Bytes (drop (Z.to_nat n) l)
  | InlineAt o => InlineAt (o + n)
  | HeapAt a => HeapAt (a ⊞ n)
  end.

(** Reading [n] bytes; [s] is the string itself. *)
Fixpoint read_heap (a : Z) (n : nat) : prog (list Z) :=
  match n with
  | O => mret []
  | S n => c ← read a; l ← read_heap (a ⊞ 1) n; mret (c :: l)
  end.
Definition read_bytes s (t : text) (n : Z) : prog (list Z) :=
  match t with
  | Bytes l => if n <=? Z.of_nat (length l) then mret (take (Z.to_nat n) l) else undefined
  | InlineAt o => if o + n <=? 24 then mret (take (Z.to_nat n) (drop (Z.to_nat o) (union_ s))) else undefined
  | HeapAt a => read_heap a (Z.to_nat n)
  end.

(** Writing bytes, [memcpy] to the string or one character. *)
Fixpoint write_heap (a : Z) (l : list Z) : prog unit :=
  match l with
  | [] => mret tt
  | c :: l => _ ← construct 1 a c; write_heap (a ⊞ 1) l
  end.
Definition overwrite (u : list Z) (o : Z) (l : list Z) : list Z :=
  take (Z.to_nat o) u ++ l ++ drop (Z.to_nat o + length l) u.
Definition write_bytes s (t : text) (l : list Z) : prog string :=
  match t with
  | Bytes _ => undefined
  | InlineAt o =>
    if o + Z.of_nat (length l) <=? 24 then mret (Str (overwrite (union_ s) o l) (ssize s) (scapacity s)) else undefined
  | HeapAt a => _ ← write_heap a l; mret s
  end.

(** [memcpy] is not defined on ranges that overlap. *)
Definition overlapping (dst t : text) (n : Z) : bool :=
  match dst, t with
  | InlineAt a, InlineAt b | HeapAt a, HeapAt b => (a <? b + n) && (b <? a + n)
  | _, _ => false
  end.
Definition memcpy s (dst t : text) (n : Z) : prog string :=
  if overlapping dst t n then undefined
  else l ← read_bytes s t n; write_bytes s dst l.

(** [while (new_capacity < minimum) new_capacity *= 2u;] *)
Fixpoint grow_capacity (fuel : nat) (capacity minimum : Z) : option Z :=
  if capacity <? minimum then
    match fuel with
    | O => None
    | S fuel => grow_capacity fuel (capacity ⊠ 2) minimum
    end
  else Some capacity.

(** Thirty-two doublings either reach the minimum or have reached zero. *)
Definition grow_to (minimum : Z) s : prog string :=
  match grow_capacity 32 (if scapacity s =? 0 then INLINE_CAPACITY else scapacity s) minimum with
  | None => undefined
  | Some new_capacity =>
    fresh ← allocate 1 1 (new_capacity ⊞ 1);
    old ← read_bytes s (data s) (ssize s);
    _ ← write_heap fresh old;
    _ ← write_heap (fresh ⊞ ssize s) [0];
    _ ← (if is_inline s then mret tt else deallocate (heap_of (union_ s)));
    mret (Str (set_heap fresh (union_ s)) (ssize s) new_capacity)
  end.

Definition reserve (new_capacity : Z) s : prog string :=
  if new_capacity <=? scapacity s then mret s else grow_to new_capacity s.

Definition assign (t : text) (length : Z) s : prog string :=
  s ← (if scapacity s <? length then grow_to length s else mret s);
  let dst := data s in
  s ← memcpy s dst t length;
  s ← mret (Str (union_ s) length (scapacity s));
  write_bytes s (shift dst (ssize s)) [0].

Definition append (t : text) (length : Z) s : prog string :=
  if length =? 0 then mret s
  else
    s ← (if scapacity s <? ssize s ⊞ length then grow_to (ssize s ⊞ length) s else mret s);
    let dst := data s in
    s ← memcpy s (shift dst (ssize s)) t length;
    s ← mret (Str (union_ s) (ssize s ⊞ length) (scapacity s));
    write_bytes s (shift dst (ssize s)) [0].

Definition push_back (c : Z) s : prog string := append (Bytes [c]) 1 s.

Definition clear s : prog string :=
  write_bytes (Str (union_ s) 0 (scapacity s)) (data s) [0].

(** [c_length] of an array of the caller, up to its first NUL. *)
Fixpoint c_length (l : list Z) : option Z :=
  match l with
  | [] => None
  | c :: l => if c =? 0 then Some 0 else n ← c_length l; Some (1 + n)
  end.

(** The constructors. *)
Definition string_empty : string := Str (0 :: replicate 23 0) 0 INLINE_CAPACITY.
Definition string_text (t : text) (length : Z) : prog string := assign t length raw_string.
Definition string_c_str (l : list Z) : prog string :=
  match c_length l with Some n => assign (Bytes l) n raw_string | None => undefined end.

Definition release s : prog unit := if is_inline s then mret tt else deallocate (heap_of (union_ s)).

(** [take]: the string that takes over, then what is left of the other. *)
Definition take_over (u : list Z) (other : string) : prog (string * string) :=
  if is_inline other then
    if ssize other <? 24 then
      mret (Str (overwrite u 0 (take (Z.to_nat (ssize other + 1)) (union_ other))) (ssize other) (scapacity other),
            Str (overwrite (union_ other) 0 [0]) 0 INLINE_CAPACITY)
    else undefined
  else
    mret (Str (set_heap (heap_of (union_ other)) u) (ssize other) (scapacity other),
          Str (overwrite (set_heap 0 (union_ other)) 0 [0]) 0 INLINE_CAPACITY).
Definition string_move (other : string) : prog (string * string) := take_over (union_ raw_string) other.
Definition assign_move s (other : string) (same : bool) : prog (string * string) :=
  if same then mret (s, s) else _ ← release s; take_over (union_ s) other.

Definition at_ (index : Z) s : prog text := if ssize s <=? index then fatal else mret (shift (data s) index).

(** [view()] and [operator==]. *)
Definition view s : prog (list Z) := read_bytes s (data s) (ssize s).
Definition equals (l : list Z) s : prog bool := v ← view s; mret (bool_decide (v = l)).

End operations.

(** ** Representation *)

Section proofs.
Context {H : Type} `{HeapLaws H}.
Implicit Types (w : world H Z) (s : string) (B R : list block) (l : list Z).

(** The bytes [l] are on the heap from address [a]. *)
Definition on_heap w (a : Z) l : Prop := forall i c, l !! i = Some c -> objects w !! (a + Z.of_nat i) = Some c.

(** The byte at index [i] of [data()]. *)
Definition byte w s (i : nat) : option Z :=
  if is_inline s then union_ s !! i else objects w !! (heap_of (union_ s) + Z.of_nat i).

(** [s] owns the blocks [B] (none, or one), its text is [l] and a NUL follows. *)
Record str_rep w s B l : Prop := {
  sr_union : length (union_ s) = 24%nat;
  sr_size : ssize s = Z.of_nat (length l);
  sr_le : ssize s <= scapacity s;
  sr_where : (scapacity s = INLINE_CAPACITY /\ B = []) \/
             (INLINE_CAPACITY < scapacity s /\ exists b, B = [b] /\ pay b = (heap_of (union_ s), scapacity s + 1));
  sr_text i c : (l ++ [0]) !! i = Some c -> byte w s i = Some c }.

(** A text of the caller, or in blocks other than the string's own. *)
Definition text_is w R (t : text) l : Prop :=
  match t with
  | Bytes l' => take (length l) l' = l
  | InlineAt _ => False
  | HeapAt a => on_heap w a l /\ 0 < a /\ exists b, b ∈ R /\ (pay b).1 <= a /\ a + Z.of_nat (length l) <= (pay b).1 + (pay b).2
  end.

Lemma string_empty_rep w : str_rep w string_empty [] [].
Proof. split; [done|done|done|by left|]. by intros [|i] c; cbn. Qed.

Lemma heap_set p u : 0 <= p < 2 ^ 32 -> heap_of (set_heap p u) = p.
Proof.
  intros Hp. unfold heap_of, set_heap, pointer_bytes. cbn [app nth].
  pose proof (Z.div_mod p (2 ^ 8) ltac:(lia)). pose proof (Z.div_mod (p / 2 ^ 8) (2 ^ 8) ltac:(lia)).
  pose proof (Z.div_mod (p / 2 ^ 16) (2 ^ 8) ltac:(lia)).
  assert (E1 : p / 2 ^ 16 = p / 2 ^ 8 / 2 ^ 8) by (rewrite Z.div_div by lia; done).
  assert (E2 : p / 2 ^ 24 = p / 2 ^ 16 / 2 ^ 8) by (rewrite Z.div_div by lia; done).
  assert (E3 : p / 2 ^ 24 mod 2 ^ 8 = p / 2 ^ 24).
  { apply Z.mod_small. split; [apply Z.div_pos; lia|]. apply Z.div_lt_upper_bound; lia. }
  lia.
Qed.

Lemma length_set_heap p u : length u = 24%nat -> length (set_heap p u) = 24%nat.
Proof. intros Hu. unfold set_heap. rewrite length_app, length_drop, Hu. done. Qed.

(** ** Bytes on the heap *)

Lemma read_heap_spec w l : forall a,
  on_heap w a l -> 0 <= a -> a + Z.of_nat (length l) < 2 ^ 32 -> read_heap a (length l) w = Returns (l, w).
Proof.
  induction l as [|c l IH]; intros a Hl Ha Hb; cbn [read_heap length] in *; [done|].
  unfold mbind, prog_bind, read. pose proof (Hl 0%nat c eq_refl) as E. rewrite Z.add_0_r in E. rewrite E.
  rewrite add32_small by lia. rewrite IH; [done| |lia|lia]. intros i x Hx. rewrite <- (Hl (S i) x Hx). f_equal. lia.
Qed.

Lemma write_heap_spec b R l : forall w a,
  cxx_inv w (b :: R) -> (pay b).1 <= a -> a + Z.of_nat (length l) <= (pay b).1 + (pay b).2 ->
  wp False (write_heap a l) (fun _ w' => cxx_inv w' (b :: R) /\ frame R w w' /\ on_heap w' a l /\
    (forall x, x < a \/ a + Z.of_nat (length l) <= x -> objects w' !! x = objects w !! x)) w.
Proof.
  induction l as [|c l IH]; intros w a Hi Ha Hb; cbn [write_heap length] in *.
  { apply wp_ret. split_and!; [done|done|by intros i x|done]. }
  assert (Hin : b ∈ b :: R) by inlist. pose proof (inv_pay _ _ b Hi Hin) as Hp. rewrite (add32_small a 1) by lia.
  apply wp_bind, wp_construct; [apply (in_storage_block w (b :: R) b 1 a Hi Hin); lia|].
  assert (Hw : within (pay b) a) by (unfold within; lia). pose proof (inv_insert w _ b a c Hi Hin Hw) as Hi1.
  eapply wp_mono; [apply (IH _ (a + 1) Hi1); lia|done|]. intros _ w' (Hi' & Hf' & Hl' & Hout). split_and!.
  - done.
  - eapply frame_trans; [by eapply frame_insert|done].
  - intros [|i] x Hx; cbn in Hx.
    + injection Hx as <-. rewrite Z.add_0_r, Hout by lia. cbn. by rewrite lookup_insert_eq.
    + rewrite <- (Hl' i x Hx). f_equal. lia.
  - intros x Hx. rewrite Hout by lia. cbn. by rewrite lookup_insert_ne by lia.
Qed.

Lemma on_heap_app w a l l' : on_heap w a l -> on_heap w (a + Z.of_nat (length l)) l' -> on_heap w a (l ++ l').
Proof.
  intros Hl Hl' i c Hc. apply lookup_app_Some in Hc as [Hc|[Hge Hc]]; [by apply Hl|].
  rewrite <- (Hl' _ _ Hc). f_equal. lia.
Qed.

Lemma on_heap_app_inv w a l l' : on_heap w a (l ++ l') -> on_heap w a l.
Proof. intros Hl i c Hc. apply Hl. by apply lookup_app_l_Some. Qed.

Lemma on_heap_ext w w' a l :
  on_heap w a l -> (forall x, a <= x < a + Z.of_nat (length l) -> objects w' !! x = objects w !! x) -> on_heap w' a l.
Proof. intros Hl Hx i c Hc. pose proof (lookup_lt_Some _ _ _ Hc). rewrite Hx by lia. by apply Hl. Qed.

(** ** Growing *)

Lemma grow_capacity_spec minimum : minimum <= 2 ^ 30 -> forall fuel c,
  23 <= c -> minimum <= c * 2 ^ Z.of_nat fuel -> c <= 2 ^ 30 ->
  exists nc, grow_capacity fuel c minimum = Some nc /\ c <= nc /\ minimum <= nc /\ (nc = c \/ nc < 2 * minimum).
Proof.
  intros Hm. induction fuel as [|fuel IH]; intros c Hc Hf Hc2; cbn [grow_capacity].
  - rewrite (proj2 (Z.ltb_ge _ _)) by lia. exists c. split; [done|lia].
  - destruct (Z.ltb_spec c minimum) as [Hlt|Hge]; [|exists c; split; [done|lia]].
    rewrite mul32_small by lia. rewrite Nat2Z.inj_succ, Z.pow_succ_r in Hf by lia.
    destruct (Z.leb_spec (c * 2) (2 ^ 30)).
    + destruct (IH (c * 2)) as (nc & He & H1' & H2' & H3'); [lia|lia|lia|]. exists nc. split; [done|]. lia.
    + assert (E : grow_capacity fuel (c * 2) minimum = Some (c * 2)).
      { destruct fuel; cbn [grow_capacity]; rewrite (proj2 (Z.ltb_ge _ _)) by lia; done. }
      rewrite E. exists (c * 2). split; [done|]. lia.
Qed.

Definition affordable (minimum : Z) : Prop := 2 * minimum + overhead 1 <= heap_limit H.

Lemma rep_on_heap w s B l : str_rep w s B l -> is_inline s = false -> on_heap w (heap_of (union_ s)) (l ++ [0]).
Proof. intros Hr Hin i c Hc. pose proof (sr_text _ _ _ _ Hr i c Hc) as Hb. unfold byte in Hb. by rewrite Hin in Hb. Qed.

Lemma read_data w s B R l :
  cxx_inv w (B ++ R) -> str_rep w s B l -> read_bytes s (data s) (ssize s) w = Returns (l, w).
Proof.
  intros Hi Hr. pose proof (sr_size _ _ _ _ Hr) as Hs. pose proof (sr_le _ _ _ _ Hr). unfold data.
  destruct (is_inline s) eqn:Ei; unfold is_inline, INLINE_CAPACITY in Ei.
  - cbn [read_bytes]. rewrite (proj2 (Z.leb_le _ _)) by lia. change (Z.to_nat 0) with 0%nat. rewrite drop_0, Hs, Nat2Z.id.
    assert (E : take (length l) (union_ s) = l); [|by rewrite E].
    apply list_eq. intros i. destruct (decide (i < length l)%nat) as [Hlt|Hge].
    + rewrite lookup_take_lt by done. destruct (lookup_lt_is_Some_2 l i Hlt) as [c Hc]. rewrite Hc.
      pose proof (sr_text _ _ _ _ Hr i c ltac:(by apply lookup_app_l_Some)) as Hb. unfold byte, is_inline, INLINE_CAPACITY in Hb. by rewrite Ei in Hb.
    + rewrite lookup_take_ge, lookup_ge_None_2 by lia. done.
  - cbn [read_bytes]. rewrite Hs, Nat2Z.id. destruct (sr_where _ _ _ _ Hr) as [(Hc & _)|(Hc & b & -> & Hpb)]; [unfold INLINE_CAPACITY in Hc; lia|].
    pose proof (inv_pay _ _ b Hi ltac:(inlist)) as Hp. rewrite Hpb in Hp. cbn in Hp.
    apply read_heap_spec; [eapply on_heap_app_inv; by eapply rep_on_heap|lia|lia].
Qed.

Lemma grow_to_spec w s B R l minimum :
  cxx_inv w (B ++ R) -> str_rep w s B l -> scapacity s < minimum -> affordable minimum ->
  wp True (grow_to minimum s) (fun s' w' => exists B',
    cxx_inv w' (B' ++ R) /\ str_rep w' s' B' l /\ frame R w w' /\ minimum <= scapacity s' /\ ssize s' = ssize s) w.
Proof.
  intros Hi Hr Hm Ha. pose proof (sr_size _ _ _ _ Hr) as Hs. pose proof (sr_le _ _ _ _ Hr) as Hle. unfold affordable, overhead in Ha.
  pose proof (heap_limit_le H). assert (Hc23 : INLINE_CAPACITY <= scapacity s) by (destruct (sr_where _ _ _ _ Hr) as [(-> & _)|[? _]]; lia).
  unfold INLINE_CAPACITY in *.
  destruct (grow_capacity_spec minimum ltac:(lia) 32 (scapacity s)) as (nc & He & Hn1 & Hn2 & Hn3); [lia|lia|lia|].
  unfold grow_to. rewrite (proj2 (Z.eqb_neq (scapacity s) 0)), He by lia. rewrite add32_small by lia. apply wp_bind.
  eapply wp_mono; [apply (allocate_spec w (B ++ R) 1 0 (nc + 1) Hi); unfold overhead; lia|done|].
  intros p w1 (b' & Hpb & _ & Hi1 & Ho1). rewrite Z.mul_1_r in Hpb.
  pose proof (inv_pay _ _ b' Hi1 ltac:(inlist)) as Hpay. rewrite Hpb in Hpay. cbn in Hpay.
  assert (Hr1 : str_rep w1 s B l).
  { destruct Hr as [Hu Hs' Hle' Hw Ht]. split; [done..|]. intros i c Hc. specialize (Ht i c Hc). unfold byte in *. by rewrite Ho1. }
  assert (Hi1' : cxx_inv w1 (B ++ b' :: R)) by (by rewrite <- Permutation.Permutation_middle).
  apply wp_bind. unfold wp at 1. rewrite (read_data w1 s B (b' :: R) l Hi1' Hr1). apply wp_bind.
  eapply wp_mono; [apply (write_heap_spec b' (B ++ R) l w1 p Hi1); rewrite Hpb; cbn; lia|done|].
  intros _ w2 (Hi2 & Hf2 & Hl2 & _). rewrite (add32_small p) by lia. apply wp_bind.
  eapply wp_mono; [apply (write_heap_spec b' (B ++ R) [0] w2 (p + ssize s) Hi2); rewrite Hpb; cbn; lia|done|].
  intros _ w3 (Hi3 & Hf3 & Hl3 & Hout3).
  assert (Hfin : forall w', frame (b' :: R) w3 w' -> frame R w w' /\ str_rep w' (Str (set_heap p (union_ s)) (ssize s) nc) [b'] l).
  { intros w' Hf'. split.
    - intros b0 a Hb0 Ha0. rewrite (Hf' b0), (Hf3 b0), (Hf2 b0) by (done || inlist). by rewrite Ho1.
    - split; cbn [union_ ssize scapacity]; [apply length_set_heap, Hr|done|lia|right; split; [unfold INLINE_CAPACITY; lia|]|].
      { exists b'. by rewrite heap_set by lia. }
      unfold byte, is_inline, INLINE_CAPACITY. cbn [scapacity union_]. rewrite (proj2 (Z.eqb_neq nc 23)), heap_set by lia.
      apply (on_heap_ext w3).
      + apply on_heap_app; [|by rewrite <- Hs]. eapply on_heap_ext; [done|]. intros x Hx. apply Hout3. lia.
      + intros x Hx. rewrite length_app in Hx. cbn in Hx. apply (Hf' b'); [inlist|]. rewrite Hpb. unfold within. cbn. lia. }
  unfold is_inline. destruct (sr_where _ _ _ _ Hr) as [(Hc & ->)|(Hc & b & -> & Hb)].
  - rewrite (proj2 (Z.eqb_eq _ _)) by done. apply wp_bind, wp_ret, wp_ret. exists [b']. cbn [scapacity ssize].
    destruct (Hfin w3 (frame_refl _ _)). split_and!; [done|done|done|lia|done].
  - unfold INLINE_CAPACITY in *. rewrite (proj2 (Z.eqb_neq _ _)) by lia. apply wp_bind.
    assert (Hi3' : cxx_inv w3 (b :: b' :: R)) by (by rewrite Permutation.perm_swap).
    replace (heap_of (union_ s)) with (pay b).1 by (by rewrite Hb).
    eapply wp_mono; [by apply deallocate_spec|done|]. intros _ w4 (Hi4 & Hf4 & _). apply wp_ret. exists [b'].
    cbn [scapacity ssize]. destruct (Hfin w4 Hf4). split_and!; [done|done|done|lia|done].
Qed.

(** ** Writing *)

Lemma lookup_overwrite u o l i :
  (o + length l <= length u)%nat ->
  overwrite u (Z.of_nat o) l !! i =
  if decide (o <= i < o + length l)%nat then l !! (i - o)%nat else u !! i.
Proof.
  intros Hu. unfold overwrite. rewrite Nat2Z.id. destruct (decide (i < o)%nat) as [Hlt|Hge].
  - rewrite decide_False by lia. rewrite lookup_app_l by (rewrite length_take; lia). by apply lookup_take_lt.
  - rewrite lookup_app_r, length_take, Nat.min_l by (rewrite ?length_take; lia). case_decide as Hd.
    + rewrite lookup_app_l by lia. done.
    + rewrite lookup_app_r, lookup_drop by lia. f_equal. lia.
Qed.

Lemma length_overwrite u o l : (o + length l <= length u)%nat -> length (overwrite u (Z.of_nat o) l) = length u.
Proof. intros Hu. unfold overwrite. rewrite Nat2Z.id, !length_app, length_take, length_drop. lia. Qed.

(** The room for a string: its buffer, or its block. *)
Definition roomy s B : Prop :=
  length (union_ s) = 24%nat /\
  ((scapacity s = INLINE_CAPACITY /\ B = []) \/
   (INLINE_CAPACITY < scapacity s /\ exists b, B = [b] /\ pay b = (heap_of (union_ s), scapacity s + 1))).

(** [memcpy(data() + o, l, length l)] within the capacity and its NUL. *)
Lemma write_bytes_spec w s B R o l :
  cxx_inv w (B ++ R) -> roomy s B -> Z.of_nat (o + length l) <= scapacity s + 1 ->
  wp False (write_bytes s (shift (data s) (Z.of_nat o)) l) (fun s' w' =>
    cxx_inv w' (B ++ R) /\ roomy s' B /\ frame R w w' /\ ssize s' = ssize s /\ scapacity s' = scapacity s /\ data s' = data s /\
    (forall i : nat, byte w' s' i = if decide (o <= i < o + length l)%nat then l !! (i - o)%nat else byte w s i)) w.
Proof.
  intros Hi [Hu Hw] Ho. unfold data. destruct (is_inline s) eqn:Ei; pose proof Ei as Ei'; unfold is_inline, INLINE_CAPACITY in Ei'.
  - cbn [shift write_bytes]. rewrite Z.add_0_l. rewrite (proj2 (Z.leb_le _ _)) by lia. apply wp_ret. unfold byte, is_inline in *. cbn [scapacity union_ ssize].
    rewrite Ei. split_and!; try done.
    + destruct Hw as [[? ->]|[Hc _]]; [|unfold INLINE_CAPACITY in Hc; lia]. split; [cbn [union_]|by left].
      rewrite length_overwrite by (unfold INLINE_CAPACITY in *; lia). done.
    + intros i. apply lookup_overwrite. lia.
  - destruct Hw as [[Hc _]|(Hc & b & -> & Hpb)]; [unfold INLINE_CAPACITY in Hc; lia|].
    pose proof (inv_pay _ _ b Hi ltac:(inlist)) as Hp. rewrite Hpb in Hp. cbn in Hp. cbn [shift write_bytes].
    rewrite add32_small by lia. apply wp_bind.
    eapply wp_mono; [apply (write_heap_spec b R l w _ Hi); rewrite Hpb; cbn; lia|done|].
    intros _ w' (Hi' & Hf' & Hl' & Hout). apply wp_ret. unfold byte. rewrite Ei. split_and!; try done.
    + split; [done|]. right. split; [done|]. by exists b.
    + intros i. case_decide as Hd.
      * destruct (lookup_lt_is_Some_2 l (i - o)%nat) as [c Hc']; [lia|]. rewrite Hc', <- (Hl' _ _ Hc'). f_equal. lia.
      * apply Hout. lia.
Qed.

Lemma read_text w B R s t l :
  cxx_inv w (B ++ R) -> text_is w R t l -> read_bytes s t (Z.of_nat (length l)) w = Returns (l, w).
Proof.
  intros Hi. destruct t as [l'|o|a]; cbn [text_is read_bytes]; [| done |].
  - intros E. assert (Hle : (length l <= length l')%nat) by (rewrite <- E, length_take; lia).
    rewrite (proj2 (Z.leb_le _ _)), Nat2Z.id, E by lia. done.
  - intros (Hl & Ha & b & Hb & H1' & H2'). rewrite Nat2Z.id. pose proof (inv_pay _ _ b Hi ltac:(inlist)). apply read_heap_spec; [done|lia|lia].
Qed.

Lemma text_apart w s B R t l o :
  cxx_inv w (B ++ R) -> roomy s B -> text_is w R t l -> Z.of_nat (o + length l) <= scapacity s + 1 ->
  overlapping (shift (data s) (Z.of_nat o)) t (Z.of_nat (length l)) = false.
Proof.
  intros Hi [Hu Hw] Ht Ho. unfold data. destruct (is_inline s) eqn:Ei; unfold is_inline in Ei; cbn [shift overlapping];
    (destruct t as [l'|o'|a]; [done|done|]).
  - done.
  - destruct Hw as [[Hc _]|(Hc & b & -> & Hpb)]; [lia|]. destruct Ht as (_ & Ha & b' & Hb' & H1' & H2').
    pose proof (inv_pay _ _ b Hi ltac:(inlist)) as Hp. rewrite Hpb in Hp. cbn in Hp. rewrite add32_small by lia.
    pose proof (inv_apart _ _ b R Hi ltac:(done)) as Hap. rewrite Forall_forall in Hap. specialize (Hap b' Hb').
    destruct (inv_region _ _ b Hi ltac:(inlist)) as [(_ & Hb1 & Hb2) _], (inv_region _ _ b' Hi ltac:(inlist)) as [(_ & Hc1 & Hc2) _].
    rewrite Hpb in Hb1, Hb2. cbn in Hb1, Hb2. unfold apart in Hap. apply andb_false_iff. rewrite !Z.ltb_ge. lia.
Qed.

Lemma text_frame w w' R t l : frame R w w' -> text_is w R t l -> text_is w' R t l.
Proof.
  destruct t as [l'|o|a]; cbn; [done..|]. intros Hf (Hl & Ha & b & Hb & H1' & H2'). split_and!; [|done|by exists b].
  eapply on_heap_ext; [done|]. intros x Hx. apply (Hf b); [done|]. unfold within. lia.
Qed.

(** A part of the string's own text, from index [o]. *)
Definition own s l (t : text) (o : nat) l' : Prop :=
  t = shift (data s) (Z.of_nat o) /\ (o + length l' <= length l)%nat /\ l' = take (length l') (drop o l).

Lemma read_own w s B R l t o l' :
  cxx_inv w (B ++ R) -> str_rep w s B l -> own s l t o l' -> read_bytes s t (Z.of_nat (length l')) w = Returns (l', w).
Proof.
  intros Hi Hr (-> & Hle & Hl'). pose proof (sr_size _ _ _ _ Hr) as Hs. pose proof (sr_le _ _ _ _ Hr).
  assert (Hb : forall i c, l' !! i = Some c -> byte w s (o + i) = Some c).
  { intros i c Hc. apply (sr_text _ _ _ _ Hr). apply lookup_app_l_Some. rewrite <- lookup_drop.
    rewrite Hl' in Hc. by apply lookup_take_Some in Hc as [? _]. }
  unfold data, byte in *. destruct (is_inline s) eqn:Ei; unfold is_inline, INLINE_CAPACITY in Ei; cbn [shift read_bytes].
  - rewrite Z.add_0_l, (proj2 (Z.leb_le _ _)), !Nat2Z.id by lia. unfold mret, prog_ret. do 2 f_equal.
    apply list_eq. intros i. destruct (decide (i < length l')%nat) as [Hlt|Hge].
    + rewrite lookup_take_lt, lookup_drop by done. destruct (lookup_lt_is_Some_2 l' i Hlt) as [c Hc]. rewrite Hc. by apply Hb.
    + rewrite lookup_take_ge, lookup_ge_None_2 by lia. done.
  - destruct (sr_where _ _ _ _ Hr) as [(Hc & _)|(Hc & b & -> & Hpb)]; [unfold INLINE_CAPACITY in Hc; lia|].
    pose proof (inv_pay _ _ b Hi ltac:(inlist)) as Hp. rewrite Hpb in Hp. cbn in Hp. rewrite add32_small, Nat2Z.id by lia.
    apply read_heap_spec; [|lia|lia]. intros i c Hc'. rewrite <- (Hb i c Hc'). f_equal. lia.
Qed.

Lemma own_apart w s B R l t o l' p :
  cxx_inv w (B ++ R) -> str_rep w s B l -> own s l t o l' -> (o + length l' <= p \/ p + length l' <= o)%nat -> (p <= length l)%nat ->
  overlapping (shift (data s) (Z.of_nat p)) t (Z.of_nat (length l')) = false.
Proof.
  intros Hi Hr (-> & Hle & _) Hp Hpl. pose proof (sr_size _ _ _ _ Hr). pose proof (sr_le _ _ _ _ Hr). unfold data.
  destruct (is_inline s) eqn:Ei; unfold is_inline, INLINE_CAPACITY in Ei; cbn [shift overlapping].
  - apply andb_false_iff. rewrite !Z.ltb_ge. lia.
  - destruct (sr_where _ _ _ _ Hr) as [(Hc & _)|(Hc & b & -> & Hpb)]; [unfold INLINE_CAPACITY in Hc; lia|].
    pose proof (inv_pay _ _ b Hi ltac:(inlist)) as Hpay. rewrite Hpb in Hpay. cbn in Hpay. rewrite !add32_small by lia.
    apply andb_false_iff. rewrite !Z.ltb_ge. lia.
Qed.

(** Writing a text at offset [o] and the NUL behind it. *)
Lemma put_spec w s B R l o t l' dst (new_size : string -> Z) :
  cxx_inv w (B ++ R) -> roomy s B -> dst = shift (data s) (Z.of_nat o) ->
  (forall s', ssize s' = ssize s -> new_size s' = Z.of_nat (o + length l')) -> (forall i c, l !! i = Some c -> byte w s i = Some c) -> length l = o ->
  overlapping dst t (Z.of_nat (length l')) = false -> read_bytes s t (Z.of_nat (length l')) w = Returns (l', w) ->
  Z.of_nat (o + length l') <= scapacity s ->
  wp False (s' ← memcpy s dst t (Z.of_nat (length l'));
            s' ← mret (Str (union_ s') (new_size s') (scapacity s'));
            write_bytes s' (shift (data s) (ssize s')) [0]) (fun s' w' =>
    cxx_inv w' (B ++ R) /\ str_rep w' s' B (l ++ l') /\ frame R w w' /\ scapacity s' = scapacity s) w.
Proof.
  intros Hi Hrm -> Hns Hl Hlen Hov Hrd Ho. apply wp_bind. unfold memcpy. rewrite Hov.
  apply wp_bind. unfold wp at 1. rewrite Hrd.
  eapply wp_mono; [apply (write_bytes_spec w s B R o l' Hi Hrm); lia|done|].
  intros s1 w1 (Hi1 & Hrm1 & Hf1 & Hs1 & Hc1 & Hd1 & Hb1). apply wp_bind, wp_ret.
  rewrite (Hns s1 Hs1). cbn [ssize]. set (s2 := Str (union_ s1) (Z.of_nat (o + length l')) (scapacity s1)).
  assert (Hd2 : data s = data s2) by (by rewrite <- Hd1). rewrite Hd2.
  eapply wp_mono; [apply (write_bytes_spec w1 s2 B R (o + length l') [0] Hi1 Hrm1); cbn; lia|done|].
  intros s3 w3 (Hi3 & [Hu3 Hw3] & Hf3 & Hs3 & Hc3 & _ & Hb3). cbn [ssize scapacity s2] in *.
  split_and!; [done| |by eapply frame_trans|by rewrite Hc3, Hc1]. split; [done| |lia|done|].
  - rewrite Hs3, length_app. lia.
  - intros i c Hc. rewrite Hb3. cbn [length]. change (byte w1 s2 i) with (byte w1 s1 i). rewrite Hb1. rewrite lookup_app, length_app in Hc.
    rewrite <- Hlen in *. destruct ((l ++ l') !! i) as [x|] eqn:Ex.
    + injection Hc as ->. pose proof (lookup_lt_Some _ _ _ Ex) as Hlt. rewrite length_app in Hlt. rewrite decide_False by lia.
      apply lookup_app_Some in Ex as [Ex|[Hge Ex]].
      * pose proof (lookup_lt_Some _ _ _ Ex). rewrite decide_False by lia. by apply Hl.
      * pose proof (lookup_lt_Some _ _ _ Ex). rewrite decide_True by lia. done.
    + apply lookup_ge_None in Ex. rewrite length_app in Ex. pose proof (lookup_lt_Some _ _ _ Hc) as Hlt. cbn in Hlt.
      rewrite decide_True by lia. done.
Qed.

Lemma rep_roomy w s B l : str_rep w s B l -> roomy s B.
Proof. intros []. done. Qed.

Lemma append_spec w s B R l t l' :
  cxx_inv w (B ++ R) -> str_rep w s B l ->
  (text_is w R t l' \/ (exists o, own s l t o l') /\ Z.of_nat (length l + length l') <= scapacity s) ->
  affordable (Z.of_nat (length l + length l')) ->
  wp (scapacity s < Z.of_nat (length l + length l')) (append t (Z.of_nat (length l')) s) (fun s' w' => exists B',
    cxx_inv w' (B' ++ R) /\ str_rep w' s' B' (l ++ l') /\ frame R w w') w.
Proof.
  intros Hi Hr Ht Ha. unfold append. destruct (Z.eqb_spec (Z.of_nat (length l')) 0) as [E|E].
  { assert (l' = []) as -> by (apply length_zero_iff_nil; lia). apply wp_ret. exists B. by rewrite app_nil_r. }
  pose proof (sr_size _ _ _ _ Hr) as Hs. pose proof (heap_limit_le H). pose proof Ha as Ha'. unfold affordable, overhead in Ha'.
  rewrite add32_small by lia. replace (ssize s + Z.of_nat (length l')) with (Z.of_nat (length l + length l')) by lia.
  assert (Hput : forall s1 B1 w1, cxx_inv w1 (B1 ++ R) -> str_rep w1 s1 B1 l -> frame R w w1 ->
    Z.of_nat (length l + length l') <= scapacity s1 ->
    overlapping (shift (data s1) (Z.of_nat (length l))) t (Z.of_nat (length l')) = false ->
    read_bytes s1 t (Z.of_nat (length l')) w1 = Returns (l', w1) ->
    wp False (s' ← memcpy s1 (shift (data s1) (ssize s1)) t (Z.of_nat (length l'));
      s' ← mret (Str (union_ s') (ssize s' ⊞ Z.of_nat (length l')) (scapacity s'));
      write_bytes s' (shift (data s1) (ssize s')) [0]) (fun s' w' => exists B',
      cxx_inv w' (B' ++ R) /\ str_rep w' s' B' (l ++ l') /\ frame R w w') w1).
  { intros s1 B1 w1 Hi1 Hr1 Hf1 Hc1 Hov Hrd. pose proof (sr_size _ _ _ _ Hr1) as Hs1. eapply wp_mono.
    - apply (put_spec w1 s1 B1 R l (length l) t l' _ (fun s' => ssize s' ⊞ Z.of_nat (length l')) Hi1 (rep_roomy _ _ _ _ Hr1)).
      + by rewrite Hs1.
      + intros s' ->. rewrite Hs1, add32_small by lia. lia.
      + intros i c Hc. apply (sr_text _ _ _ _ Hr1). by apply lookup_app_l_Some.
      + done.
      + by rewrite Hs1.
      + done.
      + done.
    - done.
    - intros s' w' (Hi' & Hr' & Hf' & _). exists B1. split_and!; [done|done|by eapply frame_trans]. }
  apply wp_bind. destruct (Z.ltb_spec (scapacity s) (Z.of_nat (length l + length l'))) as [Hlt|Hge].
  - eapply wp_mono; [by apply (grow_to_spec w s B R l)|done|]. intros s1 w1 (B1 & Hi1 & Hr1 & Hf1 & Hc1 & _).
    apply (wp_weaken False); [|done]. destruct Ht as [Ht|[_ ?]]; [|lia]. pose proof (text_frame w w1 R t l' Hf1 Ht).
    apply (Hput s1 B1 w1); [done..|eapply text_apart; try done; [by eapply rep_roomy|lia]|by eapply read_text].
  - apply wp_ret. apply (wp_weaken False); [|done]. apply (Hput s B w); [done..|lia| |]; destruct Ht as [Ht|[[o Ht] _]].
    + eapply text_apart; try done; [by eapply rep_roomy|lia].
    + eapply own_apart; try done. left. apply Ht.
    + by eapply read_text.
    + by eapply read_own.
Qed.

Lemma shift_data_0 w s B R : cxx_inv w (B ++ R) -> roomy s B -> data s = shift (data s) (Z.of_nat 0).
Proof.
  intros Hi [Hu Hw]. unfold data. destruct (is_inline s) eqn:Ei; [done|]. unfold is_inline in Ei.
  destruct Hw as [[Hc _]|(Hc & b & -> & Hpb)]; [lia|]. pose proof (inv_pay _ _ b Hi ltac:(inlist)) as Hp. rewrite Hpb in Hp.
  cbn in Hp. cbn [shift]. rewrite add32_small by lia. f_equal. lia.
Qed.

Lemma assign_spec w s B R l t l' :
  cxx_inv w (B ++ R) -> str_rep w s B l ->
  (text_is w R t l' \/ exists o, own s l t o l' /\ (length l' <= o)%nat) -> affordable (Z.of_nat (length l')) ->
  wp (scapacity s < Z.of_nat (length l')) (assign t (Z.of_nat (length l')) s) (fun s' w' => exists B',
    cxx_inv w' (B' ++ R) /\ str_rep w' s' B' l' /\ frame R w w') w.
Proof.
  intros Hi Hr Ht Ha. unfold assign.
  assert (Hput : forall s1 B1 w1, cxx_inv w1 (B1 ++ R) -> roomy s1 B1 -> frame R w w1 -> Z.of_nat (length l') <= scapacity s1 ->
    overlapping (shift (data s1) (Z.of_nat 0)) t (Z.of_nat (length l')) = false ->
    read_bytes s1 t (Z.of_nat (length l')) w1 = Returns (l', w1) ->
    wp False (s' ← memcpy s1 (data s1) t (Z.of_nat (length l'));
      s' ← mret (Str (union_ s') (Z.of_nat (length l')) (scapacity s'));
      write_bytes s' (shift (data s1) (ssize s')) [0]) (fun s' w' => exists B',
      cxx_inv w' (B' ++ R) /\ str_rep w' s' B' l' /\ frame R w w') w1).
  { intros s1 B1 w1 Hi1 Hr1 Hf1 Hc1 Hov Hrd. eapply wp_mono.
    - apply (put_spec w1 s1 B1 R [] 0 t l' _ (fun _ => Z.of_nat (length l')) Hi1 Hr1);
        [by eapply shift_data_0|done|done|done|by rewrite (shift_data_0 w1 s1 B1 R)|done|done].
    - done.
    - intros s' w' (Hi' & Hr' & Hf' & _). exists B1. split_and!; [done|done|by eapply frame_trans]. }
  apply wp_bind. destruct (Z.ltb_spec (scapacity s) (Z.of_nat (length l'))) as [Hlt|Hge].
  - eapply wp_mono; [by apply (grow_to_spec w s B R l)|done|]. intros s1 w1 (B1 & Hi1 & Hr1 & Hf1 & Hc1 & _).
    apply (wp_weaken False); [|done].
    destruct Ht as [Ht|(o & (_ & ? & _) & _)]; [|pose proof (sr_size _ _ _ _ Hr); pose proof (sr_le _ _ _ _ Hr); lia].
    pose proof (text_frame w w1 R t l' Hf1 Ht). pose proof (rep_roomy _ _ _ _ Hr1).
    apply (Hput s1 B1 w1); [done..|eapply text_apart; try done; lia|by eapply read_text].
  - apply wp_ret. apply (wp_weaken False); [|done]. pose proof (rep_roomy _ _ _ _ Hr).
    apply (Hput s B w); [done..|lia| |]; destruct Ht as [Ht|(o & Ht & Ho)].
    + eapply text_apart; try done. lia.
    + eapply own_apart; try done; lia.
    + by eapply read_text.
    + by eapply read_own.
Qed.

Lemma string_clear_spec w s B R l :
  cxx_inv w (B ++ R) -> str_rep w s B l ->
  wp False (clear s) (fun s' w' => cxx_inv w' (B ++ R) /\ str_rep w' s' B [] /\ frame R w w') w.
Proof.
  intros Hi Hr. unfold clear. pose proof (rep_roomy _ _ _ _ Hr) as Hrm. rewrite (shift_data_0 w s B R Hi Hrm).
  set (s0 := Str (union_ s) 0 (scapacity s)). change (data s) with (data s0). pose proof (sr_le _ _ _ _ Hr). pose proof (sr_size _ _ _ _ Hr).
  eapply wp_mono; [apply (write_bytes_spec w s0 B R 0 [0] Hi Hrm); cbn; lia|done|].
  intros s1 w1 (Hi1 & [Hu1 Hw1] & Hf1 & Hs1 & Hc1 & _ & Hb1). split_and!; [done| |done]. cbn [ssize scapacity s0] in *.
  split; [done|done|lia|done|]. intros [|i] c Hc; [|done]. rewrite Hb1. cbn in *. done.
Qed.

Lemma string_reserve_spec w s B R l n :
  cxx_inv w (B ++ R) -> str_rep w s B l -> affordable n ->
  wp (scapacity s < n) (reserve n s) (fun s' w' => exists B',
    cxx_inv w' (B' ++ R) /\ str_rep w' s' B' l /\ frame R w w') w.
Proof.
  intros Hi Hr Ha. unfold reserve. destruct (Z.leb_spec n (scapacity s)); [apply wp_ret; by exists B|].
  eapply wp_mono; [by apply (grow_to_spec w s B R l n)|done|]. intros s1 w1 (B1 & Hi1 & Hr1 & Hf1 & _). by exists B1.
Qed.

(** Moving takes the text over and leaves the empty string behind. *)
Lemma take_over_spec w R u other B l :
  cxx_inv w (B ++ R) -> str_rep w other B l -> length u = 24%nat ->
  exists s' other', take_over u other w = Returns ((s', other'), w) /\ str_rep w s' B l /\ str_rep w other' [] [].
Proof.
  intros Hi Hr Hu. unfold take_over. pose proof (sr_size _ _ _ _ Hr) as Hs. pose proof (sr_le _ _ _ _ Hr) as Hle.
  pose proof (sr_union _ _ _ _ Hr) as Huo. pose proof (sr_text _ _ _ _ Hr) as Ht. destruct (is_inline other) eqn:Ei.
  - unfold is_inline, INLINE_CAPACITY in Ei. rewrite (proj2 (Z.ltb_lt _ _)) by lia. eexists _, _. split; [done|].
    assert (Hlen : length (take (Z.to_nat (ssize other + 1)) (union_ other)) = S (length l)) by (rewrite length_take; lia).
    split; split; cbn [union_ ssize scapacity].
    + change 0 with (Z.of_nat 0). by rewrite length_overwrite by lia.
    + done.
    + done.
    + destruct (sr_where _ _ _ _ Hr) as [?|[Hc _]]; [by left|unfold INLINE_CAPACITY in Hc; lia].
    + intros i c Hc. unfold byte in *. unfold is_inline in *. cbn [scapacity union_]. specialize (Ht i c Hc).
      assert (E : (scapacity other =? INLINE_CAPACITY) = true) by done. rewrite E in *.
      pose proof (lookup_lt_Some _ _ _ Hc) as Hlt. rewrite length_app in Hlt. cbn in Hlt.
      change 0 with (Z.of_nat 0). rewrite lookup_overwrite, decide_True, Nat.sub_0_r, lookup_take_lt by lia. done.
    + change 0 with (Z.of_nat 0) at 1. by rewrite length_overwrite by (cbn; lia).
    + done.
    + done.
    + by left.
    + intros [|i] c Hc; [|done]. cbn in Hc. unfold byte, is_inline. cbn [scapacity union_]. rewrite Z.eqb_refl.
      change 0 with (Z.of_nat 0) at 1. rewrite lookup_overwrite by (cbn; lia). done.
  - eexists _, _. split; [done|]. unfold is_inline, INLINE_CAPACITY in Ei.
    destruct (sr_where _ _ _ _ Hr) as [[Hc _]|(Hc & b & -> & Hpb)]; [unfold INLINE_CAPACITY in Hc; lia|].
    pose proof (inv_pay _ _ b Hi ltac:(inlist)) as Hp. rewrite Hpb in Hp. cbn in Hp. split; split; cbn [union_ ssize scapacity].
    + by apply length_set_heap.
    + done.
    + done.
    + right. split; [done|]. exists b. by rewrite heap_set by lia.
    + intros i c Hc'. specialize (Ht i c Hc'). unfold byte, is_inline, INLINE_CAPACITY in *. cbn [scapacity union_].
      rewrite Ei in *. by rewrite heap_set by lia.
    + change 0 with (Z.of_nat 0) at 2. rewrite length_overwrite; rewrite length_set_heap; (done || (cbn; lia)).
    + done.
    + done.
    + by left.
    + intros [|i] c Hc'; [|done]. cbn in Hc'. unfold byte, is_inline. cbn [scapacity union_]. rewrite Z.eqb_refl.
      change 0 with (Z.of_nat 0) at 2. rewrite lookup_overwrite by (rewrite length_set_heap; (done || (cbn; lia))). done.
Qed.

(** ** Calls *)

Inductive call :=
| Append (t : text) (l : list Z) | PushBack (c : Z) | Assign (t : text) (l : list Z) | Clear | Reserve (n : Z).

Definition run (c : call) s : prog (world H Z) string :=
  match c with
  | Append t l => append t (Z.of_nat (length l)) s
  | PushBack c => push_back c s
  | Assign t l => assign t (Z.of_nat (length l)) s
  | Clear => clear s
  | Reserve n => reserve n s
  end.

(** The text after a call. *)
Definition spec (c : call) l : list Z :=
  match c with
  | Append _ l' => l ++ l'
  | PushBack c => l ++ [c]
  | Assign _ l' => l'
  | Clear => []
  | Reserve _ => l
  end.

(** The text passed is not the string's own; or a part of it, which is appended
    without growing, or assigned from behind the characters it replaces. *)
Definition legal (c : call) w R s l : Prop :=
  match c with
  | Append t l' => text_is w R t l' \/ (exists o, own s l t o l') /\ Z.of_nat (length l + length l') <= scapacity s
  | Assign t l' => text_is w R t l' \/ exists o, own s l t o l' /\ (length l' <= o)%nat
  | _ => True
  end.

(** The number of characters a call makes room for. *)
Definition wanted (c : call) l : Z :=
  match c with
  | Append _ l' => Z.of_nat (length l + length l')
  | PushBack _ => Z.of_nat (length l + 1)
  | Assign _ l' => Z.of_nat (length l')
  | Clear => 0
  | Reserve n => n
  end.


End proofs.

(** ** Growth that does not end *)

(** The capacities the doubling goes through from the inline one. *)
Definition orbit : list Z := (fun k => (23 * 2 ^ Z.of_nat k) mod 2 ^ 32) <$> seq 0 33.

Lemma orbit_closed : forall c, c ∈ orbit -> c <= 0xE0000000 /\ c ⊠ 2 ∈ orbit.
Proof.
  assert (E : forallb (fun c => (c <=? 0xE0000000) && existsb (Z.eqb (c ⊠ 2)) orbit) orbit = true) by (vm_compute; reflexivity).
  intros c Hc%list_elem_of_In. rewrite forallb_forall in E. apply E, andb_true_iff in Hc as [Hle Hex].
  apply existsb_exists in Hex as (c' & Hin & Heq). rewrite (proj1 (Z.eqb_eq _ _) Heq). split; [lia|by apply list_elem_of_In].
Qed.

(** A request above 0xE0000000 bytes is never reached: the doubling wraps to
    zero and stays there. *)
Lemma grow_never_ends minimum fuel : 0xE0000000 < minimum -> grow_capacity fuel INLINE_CAPACITY minimum = None.
Proof.
  intros Hm. assert (Hgen : forall c, c ∈ orbit -> grow_capacity fuel c minimum = None).
  { induction fuel as [|fuel IH]; intros c Hc; destruct (orbit_closed c Hc) as [Hle Hn]; cbn [grow_capacity];
      rewrite (proj2 (Z.ltb_lt _ _)) by lia; [done|by apply IH]. }
  apply Hgen, list_elem_of_In. vm_compute. by left.
Qed.

(** ** On a concrete heap *)

Definition boot_string : world Z Z := fresh_world 0xC0000000.


Definition letters (n : nat) : list Z := (fun i => 97 + Z.of_nat i) <$> seq 0 n.

(** [s += s] with [n] letters in [s]. *)
Definition append_self (n : nat) : prog (world Z Z) (list Z) :=
  s ← string_text (Bytes (letters n)) (Z.of_nat n);
  s ← append (data s) (ssize s) s;
  view s.

(** Appending a string to itself is wrong when the text has to grow: the
    pointer to the new block replaces the first four characters before they are
    copied, or the block that holds them has been given back. *)
Theorem string_append_self_corrupts :
  match append_self 12 boot_string with
  | Returns (l, _) => l = letters 12 ++ pointer_bytes 0xC0000004 ++ drop 4 (letters 12)
  | _ => False
  end /\ append_self 24 boot_string = Undefined.
Proof. split; vm_compute; reflexivity. Qed.
