(* ===== verification/InputRing.v ===== *)
(** * The byte ring between an input interrupt and the main loop

    keyboard.c and ps2_mouse.c keep the same five variables: a ring of 256
    bytes with free-running indices, the interrupts counted and the bytes
    dropped.  The handler owns the head, the main loop owns the tail.

    The handler runs with interrupts off, so it is one step.  The main loop
    is interrupted between any two of its accesses to the shared variables:
    a consumer is the tree of its accesses, and [run] delivers before each
    access the interrupts that arrive there. *)

From S2P Require Import Prelude.

Definition RING_CAPACITY : Z := 256.
Definition RING_MASK : Z := RING_CAPACITY - 1.

Record input := mkInput {
  ring : zmap;
  ring_head : Z;
  ring_tail : Z;
  irq_count : Z;
  dropped_count : Z }.

Definition idle : input := mkInput ∅ 0 0 0 0.

(** The handler's accesses to the ring for one byte. *)
Definition ring_put (byte : Z) (s : input) : input :=
  let head := ring_head s in
  let tail := ring_tail s in
  if RING_CAPACITY <=? head ⊟ tail
  then mkInput (ring s) (ring_head s) (ring_tail s) (irq_count s) (dropped_count s ⊞ 1)
  else mkInput (<[Z.land head RING_MASK := byte]> (ring s)) (head ⊞ 1) (ring_tail s) (irq_count s) (dropped_count s).

Definition count_irq (s : input) : input :=
  mkInput (ring s) (ring_head s) (ring_tail s) (irq_count s ⊞ 1) (dropped_count s).

Definition set_tail (tail : Z) (s : input) : input :=
  mkInput (ring s) (ring_head s) tail (irq_count s) (dropped_count s).

Definition pending_count (s : input) : Z := ring_head s ⊟ ring_tail s.

(** ** Consumers *)

(** [Stuck] is a loop that ran out of fuel. *)
Inductive consumer (A : Type) :=
  | Done (a : A)
  | Stuck
  | Head (k : Z -> consumer A)
  | Tail (k : Z -> consumer A)
  | Slot (index : Z) (k : Z -> consumer A)
  | SetTail (tail : Z) (k : consumer A).
Arguments Done {A} a.
Arguments Stuck {A}.
Arguments Head {A} k.
Arguments Tail {A} k.
Arguments Slot {A} index k.
Arguments SetTail {A} tail k.

Fixpoint bind {A B} (m : consumer A) (f : A -> consumer B) : consumer B :=
  match m with
  | Done a => f a
  | Stuck => Stuck
  | Head k => Head (fun v => bind (k v) f)
  | Tail k => Tail (fun v => bind (k v) f)
  | Slot i k => Slot i (fun v => bind (k v) f)
  | SetTail v k => SetTail v (bind k f)
  end.

(** ** Interleaving with a handler

    [X] is what one interrupt reads from the device, [isr] the handler. *)

Section interleaving.
  Context {X : Type} (isr : X -> input -> input).

Definition interrupts (xs : list X) (s : input) : input := fold_left (fun s x => isr x s) xs s.

(** [arrivals] are the interrupts before each of the accesses to come. *)
Fixpoint run {A} (m : consumer A) (arrivals : list (list X)) (s : input) : option (A * list (list X) * input) :=
  let s' := interrupts (hd [] arrivals) s in
  match m with
  | Done a => Some (a, arrivals, s)
  | Stuck => None
  | Head k => run (k (ring_head s')) (tl arrivals) s'
  | Tail k => run (k (ring_tail s')) (tl arrivals) s'
  | Slot i k => run (k (zget (ring s') i)) (tl arrivals) s'
  | SetTail v k => run k (tl arrivals) (set_tail v s')
  end.

Lemma run_bind {A B} (m : consumer A) (f : A -> consumer B) : forall arrivals s,
  run (bind m f) arrivals s = '(a, arrivals, s) ← run m arrivals s; run (f a) arrivals s.
Proof. induction m as [a| |k IH|k IH|i k IH|v m IH]; intros arrivals s; cbn; rewrite ?IH; done. Qed.

(** ** The queue

    [sent] are the interrupts so far, [accepted] the bytes the handler put in
    the ring and [consumed] those the main loop took out. *)

Variable byte_of : X -> option Z.

Record queue (s : input) (sent : list X) (accepted consumed : list Z) : Prop := {
  q_head : ring_head s = u32 (Z.of_nat (length accepted));
  q_tail : ring_tail s = u32 (Z.of_nat (length consumed));
  q_prefix : consumed `prefix_of` accepted;
  q_bound : Z.of_nat (length accepted) - Z.of_nat (length consumed) <= RING_CAPACITY;
  q_slots i x : (length consumed <= i)%nat -> accepted !! i = Some x -> zget (ring s) (Z.of_nat i mod 256) = x;
  q_sent : accepted `sublist_of` omap byte_of sent;
  q_irqs : irq_count s = u32 (Z.of_nat (length sent));
  q_dropped : dropped_count s = u32 (Z.of_nat (length (omap byte_of sent)) - Z.of_nat (length accepted)) }.

Lemma omap_length (sent : list X) : (length (omap byte_of sent) <= length sent)%nat.
Proof. induction sent as [|x l IH]; cbn; [lia|]. destruct (byte_of x); cbn; lia. Qed.

Lemma queue_idle : queue idle [] [] [].
Proof. split; cbn; try done. Qed.

Lemma land_mask n : 0 <= n -> Z.land (u32 n) RING_MASK = n mod 256.
Proof.
  intros Hn. change RING_MASK with (Z.ones 8). rewrite Z.land_ones by lia. unfold u32.
  change (2 ^ 8) with 256. change (2 ^ 32) with (256 * 16777216).
  rewrite Z.rem_mul_r, Z.mul_comm, Z_mod_plus_full, Z.mod_mod by lia. done.
Qed.

Lemma distance a b : 0 <= a - b < 2 ^ 32 -> u32 a ⊟ u32 b = a - b.
Proof. intros H. unfold sub32, u32. rewrite <- Zminus_mod. by apply Z.mod_small. Qed.

Lemma queue_pending s sent accepted consumed :
  queue s sent accepted consumed ->
  pending_count s = Z.of_nat (length accepted) - Z.of_nat (length consumed) /\ 0 <= pending_count s <= 256.
Proof.
  intros Hq. pose proof (prefix_length _ _ (q_prefix _ _ _ _ Hq)). pose proof (q_bound _ _ _ _ Hq). unfold RING_CAPACITY in *.
  unfold pending_count. rewrite (q_head _ _ _ _ Hq), (q_tail _ _ _ _ Hq), distance by lia. lia.
Qed.

(** What one interrupt does to the queue: the byte is accepted unless 256
    bytes are pending, and then it is counted. *)
Lemma put_queue x b s sent accepted consumed :
  byte_of x = Some b -> queue s sent accepted consumed ->
  queue (ring_put b (count_irq s)) (sent ++ [x])
    (accepted ++ if 256 <=? Z.of_nat (length accepted) - Z.of_nat (length consumed) then [] else [b]) consumed.
Proof.
  intros Hb Hq. destruct (queue_pending _ _ _ _ Hq) as [Hp Hr]. pose proof Hq as [Hh Ht Hpre Hbd Hsl Hse Hi Hd].
  unfold pending_count, RING_CAPACITY in *. unfold ring_put, RING_CAPACITY. cbn [ring_head ring_tail count_irq ring irq_count dropped_count].
  assert (Ho : omap byte_of (sent ++ [x]) = omap byte_of sent ++ [b]) by (rewrite omap_app; cbn; by rewrite Hb).
  rewrite Hp. destruct (Z.leb_spec 256 (Z.of_nat (length accepted) - Z.of_nat (length consumed))).
  - rewrite app_nil_r. split; cbn; try done; rewrite ?Ho, ?length_app; cbn.
    + by apply sublist_inserts_r.
    + rewrite Hi. unfold add32. rewrite u32_add_l. f_equal. lia.
    + rewrite Hd. unfold add32. rewrite u32_add_l. f_equal. lia.
  - split; cbn; rewrite ?Ho, ?length_app; cbn [length].
    + rewrite Hh. unfold add32. rewrite u32_add_l. f_equal. lia.
    + done.
    + by apply prefix_app_r.
    + unfold RING_CAPACITY. lia.
    + intros i y Hi' Hy. rewrite Hh, land_mask by lia. rewrite zget_insert.
      destruct (decide (i = length accepted)) as [->|Hne].
      * rewrite decide_True by done. rewrite lookup_app_r, Nat.sub_diag in Hy by lia. by injection Hy.
      * assert (Hlt : (i < length accepted)%nat) by (apply lookup_lt_Some in Hy; rewrite length_app in Hy; cbn in Hy; lia).
        rewrite decide_False; [apply Hsl; [done|by rewrite lookup_app_l in Hy by lia]|].
        intros He. assert (Z.of_nat (length accepted) mod 256 = Z.of_nat i mod 256) as Hm by done.
        pose proof (Z.div_mod (Z.of_nat (length accepted)) 256). pose proof (Z.div_mod (Z.of_nat i) 256). lia.
    + apply sublist_app; done.
    + rewrite Hi. unfold add32. rewrite u32_add_l. f_equal. lia.
    + rewrite Hd. f_equal. lia.
Qed.

Lemma skip_queue x s sent accepted consumed :
  byte_of x = None -> queue s sent accepted consumed -> queue (count_irq s) (sent ++ [x]) accepted consumed.
Proof.
  intros Hb [Hh Ht Hpre Hbd Hsl Hse Hi Hd].
  assert (Ho : omap byte_of (sent ++ [x]) = omap byte_of sent) by (rewrite omap_app; cbn; by rewrite Hb, app_nil_r).
  split; cbn; rewrite ?Ho; try done. rewrite Hi, length_app. unfold add32. rewrite u32_add_l. f_equal. cbn. lia.
Qed.

(** The handler stores the byte its interrupt carries, if any. *)
Hypothesis isr_spec : forall x s, isr x s = match byte_of x with Some b => ring_put b (count_irq s) | None => count_irq s end.

Lemma interrupts_queue xs : forall s sent accepted consumed,
  queue s sent accepted consumed ->
  exists more, queue (interrupts xs s) (sent ++ xs) (accepted ++ more) consumed /\ (length more <= length xs)%nat.
Proof.
  induction xs as [|x xs IH]; intros s sent accepted consumed Hq; cbn.
  - exists []. by rewrite !app_nil_r.
  - rewrite isr_spec. destruct (byte_of x) as [b|] eqn:Hb.
    + destruct (IH _ _ _ _ (put_queue _ _ _ _ _ _ Hb Hq)) as (more & H & Hl). eexists. rewrite <- !app_assoc in H. split; [exact H|].
      rewrite length_app. destruct (256 <=? _); cbn; lia.
    + destruct (IH _ _ _ _ (skip_queue _ _ _ _ _ Hb Hq)) as (more & H & Hl). exists more. rewrite <- app_assoc in H. split; [done|lia].
Qed.

(** ** Reasoning about consumers

    A consumer [holds] when, whatever interrupts arrive, at most [n] of them,
    it returns with the queue still consistent and [Q] of the result, of the
    bytes accepted meanwhile and of the bytes it took. *)

Definition holds {A} (n : nat) (m : consumer A) (Q : A -> list Z -> list Z -> Prop) (accepted consumed : list Z) : Prop :=
  forall arrivals s sent, (length (concat arrivals) <= n)%nat -> queue s sent accepted consumed ->
  exists a later s' sent' more taken,
    run m arrivals s = Some (a, later, s') /\ concat arrivals = sent' ++ concat later /\
    queue s' (sent ++ sent') (accepted ++ more) (consumed ++ taken) /\ (length more <= length sent')%nat /\ Q a more taken.

Lemma arrivals_split (arrivals : list (list X)) : concat arrivals = hd [] arrivals ++ concat (tl arrivals).
Proof. by destruct arrivals. Qed.

Lemma holds_done {A} n (a : A) (Q : A -> list Z -> list Z -> Prop) accepted consumed :
  Q a [] [] -> holds n (Done a) Q accepted consumed.
Proof. intros HQ arrivals s sent _ Hq. exists a, arrivals, s, [], [], []. by rewrite !app_nil_r. Qed.

Lemma holds_weaken {A} n (m : consumer A) (Q Q' : A -> list Z -> list Z -> Prop) accepted consumed :
  holds n m Q accepted consumed -> (forall a more taken, Q a more taken -> Q' a more taken) -> holds n m Q' accepted consumed.
Proof.
  intros Hm HQ arrivals s sent Hn Hq.
  destruct (Hm arrivals s sent Hn Hq) as (a & later & s' & sent' & more & taken & H1 & H2 & H3 & H4 & H5).
  exists a, later, s', sent', more, taken. split_and!; auto.
Qed.

(** One access that does not write, after the interrupts before it. *)
Lemma holds_access {A} n (m : consumer A) (k : input -> consumer A) (Q : A -> list Z -> list Z -> Prop) accepted consumed :
  (forall arrivals s, run m arrivals s = run (k (interrupts (hd [] arrivals) s)) (tl arrivals) (interrupts (hd [] arrivals) s)) ->
  (forall s sent more, (length more <= n)%nat -> queue s sent (accepted ++ more) consumed ->
     holds (n - length more) (k s) (fun a more' taken => Q a (more ++ more') taken) (accepted ++ more) consumed) ->
  holds n m Q accepted consumed.
Proof.
  intros Hrun Hk arrivals s sent Hn Hq. rewrite arrivals_split, length_app in Hn.
  destruct (interrupts_queue (hd [] arrivals) _ _ _ _ Hq) as (more & Hq' & Hm).
  destruct (Hk _ _ more ltac:(lia) Hq' (tl arrivals) _ _ ltac:(lia) Hq') as (a & later & s' & sent' & more' & taken & H1 & H2 & H3 & H4 & H5).
  exists a, later, s', (hd [] arrivals ++ sent'), (more ++ more'), taken. rewrite Hrun, H1, arrivals_split, H2, !app_assoc, !length_app.
  split_and!; try done. lia.
Qed.

Lemma holds_tail {A} n (k : Z -> consumer A) (Q : A -> list Z -> list Z -> Prop) accepted consumed :
  (forall more, (length more <= n)%nat ->
     holds (n - length more) (k (u32 (Z.of_nat (length consumed)))) (fun a more' taken => Q a (more ++ more') taken) (accepted ++ more) consumed) ->
  holds n (Tail k) Q accepted consumed.
Proof.
  intros Hk. apply (holds_access _ _ (fun s => k (ring_tail s))); [done|].
  intros s sent more Hn Hq. rewrite (q_tail _ _ _ _ Hq). by apply Hk.
Qed.

Lemma holds_head {A} n (k : Z -> consumer A) (Q : A -> list Z -> list Z -> Prop) accepted consumed :
  (forall more, (length more <= n)%nat ->
     Z.of_nat (length (accepted ++ more)) - Z.of_nat (length consumed) <= 256 ->
     holds (n - length more) (k (u32 (Z.of_nat (length (accepted ++ more))))) (fun a more' taken => Q a (more ++ more') taken) (accepted ++ more) consumed) ->
  holds n (Head k) Q accepted consumed.
Proof.
  intros Hk. apply (holds_access _ _ (fun s => k (ring_head s))); [done|].
  intros s sent more Hn Hq. rewrite (q_head _ _ _ _ Hq). by apply Hk, (q_bound _ _ _ _ Hq).
Qed.

Lemma holds_slot {A} n i x (k : Z -> consumer A) (Q : A -> list Z -> list Z -> Prop) accepted consumed :
  (length consumed <= i)%nat -> accepted !! i = Some x ->
  (forall more, (length more <= n)%nat ->
     holds (n - length more) (k x) (fun a more' taken => Q a (more ++ more') taken) (accepted ++ more) consumed) ->
  holds n (Slot (Z.of_nat i mod 256) k) Q accepted consumed.
Proof.
  intros Hi Hx Hk. apply (holds_access _ _ (fun s => k (zget (ring s) (Z.of_nat i mod 256)))); [done|].
  intros s sent more Hn Hq. rewrite (q_slots _ _ _ _ Hq i x); [by apply Hk|done|by apply lookup_app_l_Some].
Qed.

(** Moving the tail takes the bytes it passes. *)
Lemma take_queue taken s sent accepted consumed :
  queue s sent accepted consumed -> (consumed ++ taken) `prefix_of` accepted ->
  queue (set_tail (u32 (Z.of_nat (length (consumed ++ taken)))) s) sent accepted (consumed ++ taken).
Proof.
  intros [Hh Ht Hpre Hbd Hsl Hse Hi Hd] Hp. split; cbn; try done.
  - rewrite length_app. lia.
  - intros i x Hi'. apply Hsl. rewrite length_app in Hi'. lia.
Qed.

Lemma holds_set_tail {A} n taken (k : consumer A) (Q : A -> list Z -> list Z -> Prop) accepted consumed :
  (consumed ++ taken) `prefix_of` accepted ->
  (forall more, (length more <= n)%nat ->
     holds (n - length more) k (fun a more' taken' => Q a (more ++ more') (taken ++ taken')) (accepted ++ more) (consumed ++ taken)) ->
  holds n (SetTail (u32 (Z.of_nat (length (consumed ++ taken)))) k) Q accepted consumed.
Proof.
  intros Hp Hk arrivals s sent Hn Hq. rewrite arrivals_split, length_app in Hn.
  destruct (interrupts_queue (hd [] arrivals) _ _ _ _ Hq) as (more & Hq' & Hm).
  apply (take_queue taken) in Hq'; [|by apply prefix_app_r].
  destruct (Hk more ltac:(lia) (tl arrivals) _ _ ltac:(lia) Hq') as (a & later & s' & sent' & more' & taken' & H1 & H2 & H3 & H4 & H5).
  exists a, later, s', (hd [] arrivals ++ sent'), (more ++ more'), (taken ++ taken'). cbn [run].
  rewrite H1, arrivals_split, H2, !app_assoc, !length_app. split_and!; try done. lia.
Qed.

Lemma holds_bind {A B} n (m : consumer A) (f : A -> consumer B) (Q : B -> list Z -> list Z -> Prop) accepted consumed :
  holds n m (fun a more taken => (length more <= n)%nat ->
             holds (n - length more) (f a) (fun b more' taken' => Q b (more ++ more') (taken ++ taken'))
               (accepted ++ more) (consumed ++ taken)) accepted consumed ->
  holds n (bind m f) Q accepted consumed.
Proof.
  intros Hm arrivals s sent Hn Hq.
  destruct (Hm arrivals s sent Hn Hq) as (a & later & s' & sent' & more & taken & H1 & H2 & H3 & H4 & H5).
  rewrite H2, length_app in Hn.
  destruct (H5 ltac:(lia) later s' _ ltac:(lia) H3) as (b & later' & s'' & sent'' & more' & taken' & H6 & H7 & H8 & H9 & H10).
  exists b, later', s'', (sent' ++ sent''), (more ++ more'), (taken ++ taken').
  rewrite run_bind, H1. cbn. rewrite H6, H2, H7, !app_assoc, !length_app. split_and!; try done. lia.
Qed.

End interleaving.
