(* ===== verification/Keyboard.v ===== *)
(** * Keyboard

    Models arch/i386/drivers/ps2_keyboard.c (the scan code decoder with its
    layouts, modifiers and the bitmap of held keys) and keyboard.c (the ring
    between the interrupt handler and the main loop).  A [char] is the signed
    byte of the i386 target. *)

From S2P Require Import Prelude Cpu Apic InputRing.

(** ** The decoder *)

Module Ps2.

Definition personal_system_2_layout_us_base : list Z :=
  [0; 27; 49; 50; 51; 52; 53; 54; 55; 56; 57; 48; 45; 61; 8; 9;
   113; 119; 101; 114; 116; 121; 117; 105; 111; 112; 91; 93; 10; 0; 97; 115;
   100; 102; 103; 104; 106; 107; 108; 59; 39; 96; 0; 92; 122; 120; 99; 118;
   98; 110; 109; 44; 46; 47; 0; 42; 0; 32; 0; 0].
Definition personal_system_2_layout_us_shift : list Z :=
  [0; 27; 33; 64; 35; 36; 37; 94; 38; 42; 40; 41; 95; 43; 8; 9;
   81; 87; 69; 82; 84; 89; 85; 73; 79; 80; 123; 125; 10; 0; 65; 83;
   68; 70; 71; 72; 74; 75; 76; 58; 34; 126; 0; 124; 90; 88; 67; 86;
   66; 78; 77; 60; 62; 63; 0; 42; 0; 32; 0; 0].
Definition personal_system_2_layout_fr_base : list Z :=
  [0; 27; 38; -126; 34; 39; 40; 45; -118; 95; -121; -123; 41; 61; 8; 9;
   97; 122; 101; 114; 116; 121; 117; 105; 111; 112; 94; 36; 10; 0; 113; 115;
   100; 102; 103; 104; 106; 107; 108; 109; -105; -3; 0; 42; 119; 120; 99; 118;
   98; 110; 44; 59; 58; 33; 0; 42; 0; 32].
Definition personal_system_2_layout_fr_shift : list Z :=
  [0; 27; 49; 50; 51; 52; 53; 54; 55; 56; 57; 48; -8; 43; 8; 9;
   65; 90; 69; 82; 84; 89; 85; 73; 79; 80; 0; -100; 10; 0; 81; 83;
   68; 70; 71; 72; 74; 75; 76; 77; 37; -4; 0; -26; 87; 88; 67; 86;
   66; 78; 63; 46; 47; 21; 0; 42; 0; 32].
Definition personal_system_2_layout_fr_altgr : list Z :=
  [0; 0; 0; 126; 35; 123; 91; 124; 96; 92; 94; 64; 93; 125].
Definition personal_system_2_layout_us_altgr : list Z := [].

Inductive PersonalSystem2KeyboardLayout :=
  PERSONAL_SYSTEM_2_KEYBOARD_LAYOUT_UNITED_STATES_QWERTY | PERSONAL_SYSTEM_2_KEYBOARD_LAYOUT_FRENCH_AZERTY.

Record keyboard := mk {
  personal_system_2_shift_left_state : Z;
  personal_system_2_shift_right_state : Z;
  personal_system_2_ctrl_left_state : Z;
  personal_system_2_ctrl_right_state : Z;
  personal_system_2_alt_left_state : Z;
  personal_system_2_alt_right_state : Z;
  personal_system_2_caps_lock_state : Z;
  personal_system_2_extended_pending : Z;
  personal_system_2_key_down_bitmap : zmap;
  personal_system_2_active_layout : PersonalSystem2KeyboardLayout }.

Definition boot : keyboard := mk 0 0 0 0 0 0 0 0 ∅ PERSONAL_SYSTEM_2_KEYBOARD_LAYOUT_UNITED_STATES_QWERTY.

(** [base], [shift] and [altgr]. *)
Definition personal_system_2_keyboard_select_tables (s : keyboard) : list Z * list Z * list Z :=
  match personal_system_2_active_layout s with
  | PERSONAL_SYSTEM_2_KEYBOARD_LAYOUT_FRENCH_AZERTY =>
    (personal_system_2_layout_fr_base, personal_system_2_layout_fr_shift, personal_system_2_layout_fr_altgr)
  | PERSONAL_SYSTEM_2_KEYBOARD_LAYOUT_UNITED_STATES_QWERTY =>
    (personal_system_2_layout_us_base, personal_system_2_layout_us_shift, personal_system_2_layout_us_altgr)
  end.

(** Entry [code] of a table of 128 characters whose tail is zero. *)
Definition entry (table : list Z) (code : Z) : Z := nth (Z.to_nat code) table 0.

Definition swap_case (decoded : Z) : Z :=
  if (97 <=? decoded) && (decoded <=? 122) then decoded - 97 + 65
  else if (65 <=? decoded) && (decoded <=? 90) then decoded - 65 + 97
  else decoded.

Definition personal_system_2_keyboard_translate_make_code (code : Z) (s : keyboard) : Z :=
  if 128 <=? code then 0
  else
    let '(base, shift, altgr) := personal_system_2_keyboard_select_tables s in
    let decoded :=
      if negb (personal_system_2_alt_right_state s =? 0) then entry altgr code
      else if negb (personal_system_2_shift_left_state s =? 0) || negb (personal_system_2_shift_right_state s =? 0)
      then entry shift code
      else entry base code in
    if negb (personal_system_2_caps_lock_state s =? 0) then swap_case decoded else decoded.

Definition with_shift (l r : Z) (s : keyboard) : keyboard :=
  mk l r (personal_system_2_ctrl_left_state s) (personal_system_2_ctrl_right_state s) (personal_system_2_alt_left_state s)
    (personal_system_2_alt_right_state s) (personal_system_2_caps_lock_state s) (personal_system_2_extended_pending s)
    (personal_system_2_key_down_bitmap s) (personal_system_2_active_layout s).
Definition with_ctrl (l r : Z) (s : keyboard) : keyboard :=
  mk (personal_system_2_shift_left_state s) (personal_system_2_shift_right_state s) l r (personal_system_2_alt_left_state s)
    (personal_system_2_alt_right_state s) (personal_system_2_caps_lock_state s) (personal_system_2_extended_pending s)
    (personal_system_2_key_down_bitmap s) (personal_system_2_active_layout s).
Definition with_alt (l r : Z) (s : keyboard) : keyboard :=
  mk (personal_system_2_shift_left_state s) (personal_system_2_shift_right_state s) (personal_system_2_ctrl_left_state s)
    (personal_system_2_ctrl_right_state s) l r (personal_system_2_caps_lock_state s) (personal_system_2_extended_pending s)
    (personal_system_2_key_down_bitmap s) (personal_system_2_active_layout s).
Definition with_caps (c : Z) (s : keyboard) : keyboard :=
  mk (personal_system_2_shift_left_state s) (personal_system_2_shift_right_state s) (personal_system_2_ctrl_left_state s)
    (personal_system_2_ctrl_right_state s) (personal_system_2_alt_left_state s) (personal_system_2_alt_right_state s) c
    (personal_system_2_extended_pending s) (personal_system_2_key_down_bitmap s) (personal_system_2_active_layout s).
Definition with_keys (pending : Z) (m : zmap) (s : keyboard) : keyboard :=
  mk (personal_system_2_shift_left_state s) (personal_system_2_shift_right_state s) (personal_system_2_ctrl_left_state s)
    (personal_system_2_ctrl_right_state s) (personal_system_2_alt_left_state s) (personal_system_2_alt_right_state s)
    (personal_system_2_caps_lock_state s) pending m (personal_system_2_active_layout s).

(** The update of the bitmap for a key that is not extended. *)
Definition track (code pressed : Z) (m : zmap) : zmap :=
  let index := u8 (Z.shiftr code 3) in
  let mask := u8 (Z.shiftl 1 (Z.land code 7)) in
  if negb (pressed =? 0) then <[index := u8 (Z.lor (zget m index) mask)]> m
  else <[index := Z.land (zget m index) (u8 (Z.lnot mask))]> m.

Definition personal_system_2_keyboard_decode_scancode (scancode : Z) (s : keyboard) : Z * keyboard :=
  if scancode =? 0xE0 then (0, with_keys 1 (personal_system_2_key_down_bitmap s) s)
  else
    let is_break := if negb (Z.land scancode 0x80 =? 0) then 1 else 0 in
    let pressed := if is_break =? 0 then 1 else 0 in
    let code := Z.land scancode 0x7F in
    let extended := personal_system_2_extended_pending s in
    let m := personal_system_2_key_down_bitmap s in
    let s := with_keys 0 (if extended =? 0 then track code pressed m else m) s in
    if negb (extended =? 0) then
      if code =? 0x1D then (0, with_ctrl (personal_system_2_ctrl_left_state s) pressed s)
      else if code =? 0x38 then (0, with_alt (personal_system_2_alt_left_state s) pressed s)
      else (0, s)
    else if code =? 0x2A then (0, with_shift pressed (personal_system_2_shift_right_state s) s)
    else if code =? 0x36 then (0, with_shift (personal_system_2_shift_left_state s) pressed s)
    else if code =? 0x1D then (0, with_ctrl pressed (personal_system_2_ctrl_right_state s) s)
    else if code =? 0x38 then (0, with_alt pressed (personal_system_2_alt_right_state s) s)
    else if code =? 0x3A then
      (0, if negb (pressed =? 0) then with_caps (Z.lxor (personal_system_2_caps_lock_state s) 1) s else s)
    else if negb (is_break =? 0) then (0, s)
    else (personal_system_2_keyboard_translate_make_code code s, s).

Definition personal_system_2_keyboard_is_code_held (code : Z) (s : keyboard) : Z :=
  if 128 <=? code then 0
  else if negb (Z.land (zget (personal_system_2_key_down_bitmap s) (Z.shiftr code 3)) (Z.shiftl 1 (Z.land code 7)) =? 0)
  then 1 else 0.

(** [for (code = 0; code < 128; ++code) ...]: [n] codes from [code]. *)
Fixpoint character_held (base : list Z) (character code : Z) (n : nat) (s : keyboard) : Z :=
  match n with
  | O => 0
  | S n =>
    if negb (entry base code =? character) then character_held base character (code + 1) n s
    else if negb (personal_system_2_keyboard_is_code_held code s =? 0) then 1
    else character_held base character (code + 1) n s
  end.
Definition personal_system_2_keyboard_is_character_held (character : Z) (s : keyboard) : Z :=
  let base :=
    match personal_system_2_active_layout s with
    | PERSONAL_SYSTEM_2_KEYBOARD_LAYOUT_FRENCH_AZERTY => personal_system_2_layout_fr_base
    | PERSONAL_SYSTEM_2_KEYBOARD_LAYOUT_UNITED_STATES_QWERTY => personal_system_2_layout_us_base
    end in
  character_held base character 0 128 s.

Definition personal_system_2_keyboard_set_layout (layout : PersonalSystem2KeyboardLayout) (s : keyboard) : keyboard :=
  mk (personal_system_2_shift_left_state s) (personal_system_2_shift_right_state s) (personal_system_2_ctrl_left_state s)
    (personal_system_2_ctrl_right_state s) (personal_system_2_alt_left_state s) (personal_system_2_alt_right_state s)
    (personal_system_2_caps_lock_state s) (personal_system_2_extended_pending s) (personal_system_2_key_down_bitmap s) layout.

Definition either (a b : Z) : Z := if negb (a =? 0) || negb (b =? 0) then 1 else 0.
Definition personal_system_2_keyboard_get_shift_state (s : keyboard) : Z :=
  either (personal_system_2_shift_left_state s) (personal_system_2_shift_right_state s).
Definition personal_system_2_keyboard_get_ctrl_state (s : keyboard) : Z :=
  either (personal_system_2_ctrl_left_state s) (personal_system_2_ctrl_right_state s).
Definition personal_system_2_keyboard_get_alt_state (s : keyboard) : Z :=
  either (personal_system_2_alt_left_state s) (personal_system_2_alt_right_state s).

Definition personal_system_2_keyboard_reset_modifiers (s : keyboard) : keyboard :=
  mk 0 0 0 0 0 0 0 0 (zfill (personal_system_2_key_down_bitmap s) 0 16 0) (personal_system_2_active_layout s).

(** ** Keys and the stream of scan codes *)

(** A stream of bytes as key events: the code, whether it had the prefix
    [0xE0], and whether it is a press. *)
Record key_event := Key { ke_code : Z; ke_extended : bool; ke_press : bool }.

Fixpoint parse (extended : bool) (codes : list Z) : list key_event :=
  match codes with
  | [] => []
  | c :: codes =>
    if c =? 0xE0 then parse true codes
    else Key (c mod 128) extended (c <? 128) :: parse false codes
  end.

(** The last event of a key decides whether it is down. *)
Fixpoint down (code : Z) (extended : bool) (was : bool) (l : list key_event) : bool :=
  match l with
  | [] => was
  | e :: l => down code extended (if (ke_code e =? code) && Bool.eqb (ke_extended e) extended then ke_press e else was) l
  end.

(** Caps lock changes with every press of its key. *)
Fixpoint caps (was : bool) (l : list key_event) : bool :=
  match l with
  | [] => was
  | e :: l => caps (if (ke_code e =? 0x3A) && negb (ke_extended e) && ke_press e then negb was else was) l
  end.

(** Decoding a stream: the characters (zero for none) and the final state. *)
Fixpoint decode_all (codes : list Z) (s : keyboard) : list Z * keyboard :=
  match codes with
  | [] => ([], s)
  | c :: codes =>
    let '(x, s) := personal_system_2_keyboard_decode_scancode c s in
    let '(l, s) := decode_all codes s in (x :: l, s)
  end.

(** The state agrees with what is known of the keys: [held code extended],
    caps lock, and whether a prefix is pending. *)
Record agrees (s : keyboard) (held : Z -> bool -> bool) (capital pending : bool) : Prop := {
  ag_keys code : 0 <= code < 128 ->
    Z.testbit (zget (personal_system_2_key_down_bitmap s) (code / 8)) (code mod 8) = held code false;
  ag_bytes i : 0 <= zget (personal_system_2_key_down_bitmap s) i < 2 ^ 8;
  ag_shift_left : personal_system_2_shift_left_state s = Z.b2z (held 0x2A false);
  ag_shift_right : personal_system_2_shift_right_state s = Z.b2z (held 0x36 false);
  ag_ctrl_left : personal_system_2_ctrl_left_state s = Z.b2z (held 0x1D false);
  ag_ctrl_right : personal_system_2_ctrl_right_state s = Z.b2z (held 0x1D true);
  ag_alt_left : personal_system_2_alt_left_state s = Z.b2z (held 0x38 false);
  ag_alt_right : personal_system_2_alt_right_state s = Z.b2z (held 0x38 true);
  ag_caps : personal_system_2_caps_lock_state s = Z.b2z capital;
  ag_pending : personal_system_2_extended_pending s = Z.b2z pending }.

Lemma byte_split c : 0 <= c < 256 ->
  Z.land c 0x7F = c mod 128 /\ negb (Z.land c 0x80 =? 0) = negb (c <? 128).
Proof.
  intros Hc. split; [exact (Z.land_ones c 7 ltac:(lia))|]. change (Z.land c 0x80) with (Z.land c (Z.shiftl 1 7)). rewrite byte_testbit by lia.
  rewrite Z.testbit_odd, Z.shiftr_div_pow2 by lia. change (2 ^ 7) with 128. destruct (Z.ltb_spec c 128).
  - by rewrite Z.div_small by lia.
  - replace (c / 128) with 1; [done|]. apply Z.div_unique with (c - 128); lia.
Qed.

Lemma code_split code : 0 <= code < 128 -> Z.shiftr code 3 = code / 8 /\ Z.land code 7 = code mod 8 /\ 0 <= code / 8 < 16 /\ 0 <= code mod 8 < 8.
Proof.
  intros Hc. split_and!; [by rewrite Z.shiftr_div_pow2 by lia|exact (Z.land_ones code 3 ltac:(lia))|..];
    try (apply Z.mod_pos_bound; lia); [apply Z.div_pos; lia|apply Z.div_lt_upper_bound; lia].
Qed.

(** The bitmap: the bit of the key, and no other. *)
Lemma track_bit code pressed m code' :
  0 <= code < 128 -> 0 <= code' < 128 -> (forall i, 0 <= zget m i < 2 ^ 8) ->
  Z.testbit (zget (track code pressed m) (code' / 8)) (code' mod 8) =
  if decide (code' = code) then negb (pressed =? 0) else Z.testbit (zget m (code' / 8)) (code' mod 8).
Proof.
  intros Hc Hc' Hm. destruct (code_split code Hc) as (E1 & E2 & Hi & Hb), (code_split code' Hc') as (_ & _ & Hi' & Hb').
  unfold track. rewrite E1, E2. unfold u8. rewrite (Z.mod_small (code / 8)) by lia. rewrite Z.shiftl_1_l.
  assert (Hmask : 2 ^ (code mod 8) mod 2 ^ 8 = 2 ^ (code mod 8)).
  { apply Z.mod_small. split; [lia|]. apply Z.pow_lt_mono_r; lia. }
  rewrite Hmask. assert (Hcase : code' = code \/ (code / 8 <> code' / 8 \/ (code / 8 = code' / 8 /\ code mod 8 <> code' mod 8))).
  { pose proof (Z.div_mod code 8 ltac:(lia)). pose proof (Z.div_mod code' 8 ltac:(lia)). lia. }
  destruct (Z.eqb_spec pressed 0) as [->|Hp]; cbn [negb]; rewrite zget_insert; destruct Hcase as [->|[Hne|[Heq Hne]]].
  - rewrite !decide_True by done. rewrite Z.land_spec, Z.mod_pow2_bits_low, Z.lnot_spec, Z.pow2_bits_true by lia. apply andb_false_r.
  - rewrite decide_False by done. rewrite decide_False; [done|]. by intros ->.
  - rewrite decide_True by done. rewrite decide_False by (intros ->; done). rewrite Heq.
    rewrite Z.land_spec, Z.mod_pow2_bits_low, Z.lnot_spec, Z.pow2_bits_false by lia. apply andb_true_r.
  - rewrite !decide_True by done. rewrite Z.mod_pow2_bits_low, Z.lor_spec, Z.pow2_bits_true by lia. apply orb_true_r.
  - rewrite decide_False by done. rewrite decide_False; [done|]. by intros ->.
  - rewrite decide_True by done. rewrite decide_False by (intros ->; done). rewrite Heq.
    rewrite Z.mod_pow2_bits_low, Z.lor_spec, Z.pow2_bits_false by lia. apply orb_false_r.
Qed.

Lemma track_byte code pressed m i :
  0 <= code < 128 -> (forall i, 0 <= zget m i < 2 ^ 8) -> 0 <= zget (track code pressed m) i < 2 ^ 8.
Proof.
  intros Hc Hm. unfold track. assert (Hland : forall x y, 0 <= x < 2 ^ 8 -> 0 <= Z.land x y < 2 ^ 8).
  { intros x y Hx. rewrite <- (Z.mod_small x (2 ^ 8)) by lia. rewrite <- Z.land_ones by lia.
    rewrite <- Z.land_assoc, (Z.land_comm _ y), Z.land_assoc, Z.land_ones by lia. apply Z.mod_pos_bound. lia. }
  destruct (negb _); rewrite zget_insert; case_decide; try apply Hm; [apply Z.mod_pos_bound; lia|by apply Hland].
Qed.

(** What one byte does to the knowledge of the keys. *)
Definition learn (c : Z) (pending : bool) (held : Z -> bool -> bool) : Z -> bool -> bool :=
  if c =? 0xE0 then held
  else fun code e => if (c mod 128 =? code) && Bool.eqb pending e then c <? 128 else held code e.

Definition learn_caps (c : Z) (pending capital : bool) : bool :=
  if negb (c =? 0xE0) && (c mod 128 =? 0x3A) && negb pending && (c <? 128) then negb capital else capital.

Lemma decode_agrees c s held capital pending :
  0 <= c < 256 -> agrees s held capital pending ->
  agrees (personal_system_2_keyboard_decode_scancode c s).2 (learn c pending held) (learn_caps c pending capital) (c =? 0xE0).
Proof.
  intros Hc Hag. unfold personal_system_2_keyboard_decode_scancode, learn, learn_caps.
  destruct (Z.eqb_spec c 0xE0) as [->|Hne]; cbn [negb andb snd].
  { destruct Hag. split; try done. }
  destruct (byte_split c Hc) as [-> ->]. pose proof (Z.mod_pos_bound c 128 ltac:(lia)) as Hr.
  assert (Hpressed : (if (if negb (c <? 128) then 1 else 0) =? 0 then 1 else 0) = Z.b2z (c <? 128)) by (by destruct (c <? 128)).
  rewrite Hpressed. assert (Hnz : negb (Z.b2z (c <? 128) =? 0) = (c <? 128)) by (by destruct (c <? 128)).
  set (code := c mod 128) in *. set (p := c <? 128) in *. rewrite (ag_pending _ _ _ _ Hag).
  destruct Hag as [Hk Hb Hsl Hsr Hcl Hcr Hal Har Hcap Hpend].
  destruct pending; cbn [Z.b2z Z.eqb negb andb Bool.eqb].
  - repeat case_match; (split; cbn [snd]; [intros code' Hc'; rewrite andb_false_r; by apply Hk|done|..]);
      cbn; rewrite ?andb_false_r, ?andb_true_r; try done; bcase; try lia; done.
  - assert (Hk' : forall code', 0 <= code' < 128 ->
      Z.testbit (zget (track code (Z.b2z p) (personal_system_2_key_down_bitmap s)) (code' / 8)) (code' mod 8) =
      if (code =? code') && true then p else held code' false).
    { intros code' Hc'. rewrite track_bit by done. rewrite Hnz, Hk by done. rewrite andb_true_r.
      destruct (Z.eqb_spec code code'); case_decide; congruence. }
    pose proof (fun i => track_byte code (Z.b2z p) _ i Hr Hb) as Hb'. rewrite Hnz. rewrite !andb_true_r.
    repeat case_match; (split; cbn [snd]; [exact Hk'|exact Hb'|..]);
      cbn; rewrite ?andb_false_r, ?andb_true_r; try done; bcase; try lia; try done; try congruence.
  rewrite Hcap. by destruct capital.
Qed.

(** The knowledge after a stream of bytes is that of its last key events. *)
Lemma stream_agrees codes : forall s held capital pending,
  Forall (fun c => 0 <= c < 256) codes -> agrees s held capital pending -> exists pending',
  agrees (decode_all codes s).2 (fun code e => down code e (held code e) (parse pending codes))
    (caps capital (parse pending codes)) pending'.
Proof.
  induction codes as [|c codes IH]; intros s held capital pending Hcs Hag; cbn [decode_all]; [by exists pending|].
  apply Forall_cons in Hcs as [Hc Hcs]. pose proof (decode_agrees c s held capital pending Hc Hag) as Hag'.
  destruct (personal_system_2_keyboard_decode_scancode c s) as [x s1]. cbn [snd] in Hag'.
  destruct (IH s1 _ _ _ Hcs Hag') as (pending' & Hag''). destruct (decode_all codes s1) as [l s2]. cbn [snd] in *.
  exists pending'. unfold learn, learn_caps in Hag''. cbn [parse]. destruct (c =? 0xE0) eqn:Ec; [exact Hag''|].
  cbn [down caps ke_code ke_extended ke_press]. cbn [negb andb] in Hag''.
  destruct Hag''. split; cbn beta; try done.
Qed.

Lemma boot_agrees : agrees boot (fun _ _ => false) false false.
Proof. split; cbn; try done; intros; by rewrite zget_empty, ?Z.bits_0. Qed.

Lemma held_bit code s held capital pending :
  agrees s held capital pending -> 0 <= code < 128 ->
  personal_system_2_keyboard_is_code_held code s = Z.b2z (held code false).
Proof.
  intros Hag Hc. unfold personal_system_2_keyboard_is_code_held. rewrite (proj2 (Z.leb_gt _ _)) by lia.
  destruct (code_split code Hc) as (-> & -> & _ & Hb). rewrite byte_testbit, (ag_keys _ _ _ _ Hag) by lia. by destruct (held code false).
Qed.

(** Two streams that agree on every key event agree on the state. *)
Definition key_down (codes : list Z) (code : Z) (extended : bool) : bool := down code extended false (parse false codes).

(** After any stream of scan codes the driver's state is what the last
    event of each key says: a key is held exactly when its last event was a
    press, the modifiers are the states of their keys, and caps lock is the
    parity of its presses. *)
Theorem keyboard_tracks_keys codes code :
  Forall (fun c => 0 <= c < 256) codes -> 0 <= code < 128 ->
  let s := (decode_all codes boot).2 in
  personal_system_2_keyboard_is_code_held code s = Z.b2z (key_down codes code false) /\
  personal_system_2_keyboard_get_shift_state s = Z.b2z (key_down codes 0x2A false || key_down codes 0x36 false) /\
  personal_system_2_keyboard_get_ctrl_state s = Z.b2z (key_down codes 0x1D false || key_down codes 0x1D true) /\
  personal_system_2_keyboard_get_alt_state s = Z.b2z (key_down codes 0x38 false || key_down codes 0x38 true) /\
  personal_system_2_caps_lock_state s = Z.b2z (caps false (parse false codes)).
Proof.
  intros Hcs Hc s. destruct (stream_agrees codes _ _ _ _ Hcs boot_agrees) as (pending & Hag). fold s in Hag.
  assert (He : forall a b, either (Z.b2z a) (Z.b2z b) = Z.b2z (a || b)) by (by intros [] []).
  unfold personal_system_2_keyboard_get_shift_state, personal_system_2_keyboard_get_ctrl_state, personal_system_2_keyboard_get_alt_state.
  split_and!.
  - by rewrite (held_bit code s _ _ _ Hag Hc).
  - by rewrite (ag_shift_left _ _ _ _ Hag), (ag_shift_right _ _ _ _ Hag), He.
  - by rewrite (ag_ctrl_left _ _ _ _ Hag), (ag_ctrl_right _ _ _ _ Hag), He.
  - by rewrite (ag_alt_left _ _ _ _ Hag), (ag_alt_right _ _ _ _ Hag), He.
  - apply (ag_caps _ _ _ _ Hag).
Qed.

(** Left shift and A pressed, left shift released. *)
Lemma keyboard_tracks_keys_witness :
  Forall (fun c => 0 <= c < 256) [0x2A; 0x1E; 0xAA] /\
  personal_system_2_keyboard_is_code_held 0x1E (decode_all [0x2A; 0x1E; 0xAA] boot).2 = 1.
Proof.
  assert (Hcs : Forall (fun c => 0 <= c < 256) [0x2A; 0x1E; 0xAA]) by (repeat constructor; lia).
  split; [exact Hcs|]. destruct (keyboard_tracks_keys [0x2A; 0x1E; 0xAA] 0x1E Hcs) as (H & _); [lia|exact H].
Defined.

(** [is_character_held] finds a held key of the active layout. *)
Lemma character_held_spec base character s n : forall code,
  character_held base character code n s = 1 <->
  exists k, code <= k < code + Z.of_nat n /\ entry base k = character /\ personal_system_2_keyboard_is_code_held k s <> 0.
Proof.
  induction n as [|n IH]; intros code; cbn [character_held]; [split; [done|intros (k & ? & _); lia]|].
  assert (Hnext : (exists k, code + 1 <= k < code + 1 + Z.of_nat n /\ entry base k = character /\
            personal_system_2_keyboard_is_code_held k s <> 0) ->
          exists k, code <= k < code + Z.of_nat (S n) /\ entry base k = character /\ personal_system_2_keyboard_is_code_held k s <> 0).
  { intros (k & Hk & ?). exists k. split; [lia|done]. }
  destruct (Z.eqb_spec (entry base code) character) as [E|E]; cbn [negb];
    [destruct (Z.eqb_spec (personal_system_2_keyboard_is_code_held code s) 0) as [Eh|Eh]; cbn [negb]|];
    rewrite ?IH; (split; [try exact Hnext|]).
  - intros (k & Hk & He & Hh). exists k. split; [|done]. destruct (decide (k = code)) as [->|]; [done|lia].
  - intros _. exists code. split; [lia|done].
  - done.
  - intros (k & Hk & He & Hh). exists k. split; [|done]. destruct (decide (k = code)) as [->|]; [done|lia].
Qed.

(** When the code that releases a shift key is lost, the letters after it stay
    shifted. *)
Lemma dropped_release_latches :
  (decode_all [0x2A; 0xAA; 0x1E] boot).1 = [0; 0; 97] /\ (decode_all [0x2A; 0x1E] boot).1 = [0; 65] /\
  personal_system_2_keyboard_get_shift_state (decode_all [0x2A; 0x1E] boot).2 = 1.
Proof. repeat split; vm_compute; reflexivity. Qed.

End Ps2.

(** ** The ring of scan codes and its reader *)

Module Kbd.
Import Ps2 Apic.Pic Apic.Apic Apic.Irq Apic.Timer.

Definition KEYBOARD_DATA_PORT : Z := 0x60.

(** [scan_code] is what the data port reads. *)
Definition keyboard_interrupt_handler (r : irq) (a : apic) (scan_code : Z) (s : input) : input * list event :=
  (ring_put scan_code (count_irq s),
   In KEYBOARD_DATA_PORT ::
   (if negb (interrupt_request_is_keyboard_owner_apic r =? 0) then advanced_pic_timer_backend_signal_end_of_interrupt a
    else programmable_interrupt_controller_send_end_of_interrupt IRQ_KEYBOARD_LINE)).

Definition keyboard_scancode_ring_pop : consumer (option Z) :=
  Tail (fun tail => Head (fun head =>
    if head =? tail then Done None
    else Slot (Z.land tail RING_MASK) (fun scan_code => SetTail (tail ⊞ 1) (Done (Some scan_code))))).

(** What only the main loop writes. *)
Record reader := mkReader { decoder : keyboard; keyboard_printable_count : Z; keyboard_last_printable_char : Z }.

Fixpoint pop_loop (fuel : nat) (r : reader) : consumer (option Z * reader) :=
  match fuel with
  | O => Stuck
  | S fuel =>
    bind keyboard_scancode_ring_pop (fun popped =>
    match popped with
    | None => Done (None, r)
    | Some scan_code =>
      let '(decoded, d) := personal_system_2_keyboard_decode_scancode scan_code (decoder r) in
      if decoded =? 0 then pop_loop fuel (mkReader d (keyboard_printable_count r) (keyboard_last_printable_char r))
      else Done (Some decoded, mkReader d (keyboard_printable_count r ⊞ 1) decoded)
    end)
  end.

Definition keyboard_try_pop_char (fuel : nat) (out_char : Z) (r : reader) : consumer (option Z * reader) :=
  if out_char =? 0 then Done (None, r) else pop_loop fuel r.

Definition keyboard_get_pending_char_count (s : input) : Z := pending_count s.
Definition keyboard_get_ring_capacity : Z := RING_CAPACITY.
Definition keyboard_get_dropped_char_count (s : input) : Z := dropped_count s.
Definition keyboard_get_irq_count (s : input) : Z := irq_count s.

(** [azerty] is the build's choice. *)
Definition keyboard_interrupt_initialize (azerty : bool) (d : keyboard) : keyboard :=
  personal_system_2_keyboard_set_layout
    (if azerty then PERSONAL_SYSTEM_2_KEYBOARD_LAYOUT_FRENCH_AZERTY
     else PERSONAL_SYSTEM_2_KEYBOARD_LAYOUT_UNITED_STATES_QWERTY) d.

Definition start (d : keyboard) : reader := mkReader d 0 0.

(** [calls] calls of [keyboard_try_pop_char], with the characters they gave. *)
Fixpoint session (isr : Z -> input -> input) (fuel calls : nat) (out_char : Z) (r : reader) (arrivals : list (list Z)) (s : input)
    : option (list Z * reader * list (list Z) * input) :=
  match calls with
  | O => Some ([], r, arrivals, s)
  | S calls =>
    '(popped, r, arrivals, s) ← run isr (keyboard_try_pop_char fuel out_char r) arrivals s;
    '(chars, r, arrivals, s) ← session isr fuel calls out_char r arrivals s;
    Some (option_list popped ++ chars, r, arrivals, s)
  end.

(** *** Popping *)

Section reading.
  Context (r : irq) (a : apic).

Abbreviation isr := (fun code s => (keyboard_interrupt_handler r a code s).1).
Abbreviation holds := (holds isr Some).
Abbreviation queue := (queue Some).

Lemma stores code s : isr code s = ring_put code (count_irq s).
Proof. done. Qed.

Lemma pop_holds n accepted consumed :
  consumed `prefix_of` accepted ->
  holds n keyboard_scancode_ring_pop (fun popped more taken =>
    match popped with
    | None => accepted = consumed /\ taken = []
    | Some code => taken = [code] /\ (consumed ++ [code]) `prefix_of` (accepted ++ more)
    end) accepted consumed.
Proof.
  intros [pending ->]. apply (holds_tail isr Some stores). intros more1 _. apply (holds_head isr Some stores). intros more2 _ Hb.
  destruct (Z.eqb_spec (u32 (Z.of_nat (length (((consumed ++ pending) ++ more1) ++ more2)))) (u32 (Z.of_nat (length consumed)))) as [E|E].
  - apply holds_done. split; [|done].
    assert (Hd : u32 (Z.of_nat (length (((consumed ++ pending) ++ more1) ++ more2))) ⊟ u32 (Z.of_nat (length consumed)) = 0)
      by (rewrite E; unfold sub32; by rewrite Z.sub_diag).
    rewrite distance in Hd by (rewrite !length_app in *; lia). rewrite !length_app in Hd.
    destruct pending; [by rewrite app_nil_r|cbn in Hd; lia].
  - destruct (pending ++ more1 ++ more2) as [|code rest] eqn:El.
    { rewrite <- !app_assoc, El, app_nil_r in E. done. }
    rewrite land_mask by lia. rewrite <- !app_assoc, El.
    eapply (holds_slot isr Some stores _ (length consumed) code); [done|by rewrite lookup_app_r, Nat.sub_diag by lia|].
    intros more3 _. replace (u32 (Z.of_nat (length consumed)) ⊞ 1) with (u32 (Z.of_nat (length (consumed ++ [code])))).
    2:{ unfold add32. rewrite u32_add_l, length_app. f_equal. cbn. lia. }
    apply (holds_set_tail isr Some stores).
    + rewrite <- !app_assoc. apply prefix_app, (prefix_app_r [code] [code]). done.
    + intros more4 _. apply holds_done. split; [done|]. rewrite !app_assoc, <- (app_assoc consumed).
      exists (rest ++ more3 ++ more4). rewrite <- !app_assoc. rewrite (app_assoc pending), (app_assoc (pending ++ _)).
      rewrite <- (app_assoc pending), El. cbn. by rewrite ?app_nil_r, <- ?app_assoc.
Qed.

(** What a call may give for the codes it took: characters that decode to
    nothing, up to the first that does. *)
Definition gives (r r' : reader) (popped : option Z) (taken : list Z) : Prop :=
  decoder r' = (decode_all taken (decoder r)).2 /\
  filter (fun c => c <> 0) (decode_all taken (decoder r)).1 = option_list popped /\
  match popped with
  | None => keyboard_printable_count r' = keyboard_printable_count r /\
            keyboard_last_printable_char r' = keyboard_last_printable_char r
  | Some c => keyboard_printable_count r' = keyboard_printable_count r ⊞ 1 /\ keyboard_last_printable_char r' = c
  end.

Lemma decode_cons code taken d :
  (decode_all (code :: taken) d) =
  ((personal_system_2_keyboard_decode_scancode code d).1 :: (decode_all taken (personal_system_2_keyboard_decode_scancode code d).2).1,
   (decode_all taken (personal_system_2_keyboard_decode_scancode code d).2).2).
Proof. cbn [decode_all]. destruct (personal_system_2_keyboard_decode_scancode code d) as [x d']. cbn. by destruct (decode_all taken d'). Qed.

Lemma loop_holds fuel : forall n rd accepted consumed,
  consumed `prefix_of` accepted -> (length accepted - length consumed + n < fuel)%nat ->
  holds n (pop_loop fuel rd) (fun '(popped, rd') more taken => gives rd rd' popped taken) accepted consumed.
Proof.
  induction fuel as [|fuel IH]; intros n rd accepted consumed Hp Hf; [lia|]. cbn [pop_loop].
  apply holds_bind. eapply holds_weaken; [by apply pop_holds|]. cbn beta.
  intros [code|] more taken; [|intros [_ ->] _; by apply holds_done].
  intros [-> Hp'] Hn. destruct (personal_system_2_keyboard_decode_scancode code (decoder rd)) as [x d] eqn:Ed.
  destruct (Z.eqb_spec x 0) as [->|Hx].
  - eapply holds_weaken; [apply IH; [done|]|].
    { pose proof (prefix_length _ _ Hp'). rewrite !length_app in *. cbn in *. lia. }
    intros [popped rd'] more' taken' (H1 & H2 & H3). unfold gives. cbn [app]. rewrite decode_cons, Ed. cbn [fst snd decoder] in *. split; [done|]. split; [|done]. by rewrite filter_cons_False by auto.
  - apply holds_done. unfold gives. cbn [app]. rewrite decode_cons, Ed. cbn [fst snd decode_all]. split; [done|].
    by rewrite filter_cons_True by auto.
Qed.

Lemma decode_app codes codes' : forall d,
  decode_all (codes ++ codes') d =
  ((decode_all codes d).1 ++ (decode_all codes' (decode_all codes d).2).1, (decode_all codes' (decode_all codes d).2).2).
Proof.
  induction codes as [|c codes IH]; intros d; [cbn; by destruct (decode_all codes' d)|].
  cbn [app]. rewrite !decode_cons, IH. done.
Qed.

Lemma omap_some (l : list Z) : omap Some l = l.
Proof. induction l as [|x l IH]; cbn; [done|]. by rewrite IH. Qed.

(** The reader holds what decoding the consumed codes gives. *)
Record told (d : keyboard) (rd : reader) (consumed chars : list Z) : Prop := {
  told_decoder : decoder rd = (decode_all consumed d).2;
  told_chars : chars = filter (fun c => c <> 0) (decode_all consumed d).1;
  told_count : keyboard_printable_count rd = u32 (Z.of_nat (length chars));
  told_last : keyboard_last_printable_char rd = default 0 (last chars) }.

Lemma told_gives d rd rd' popped taken consumed chars :
  told d rd consumed chars -> gives rd rd' popped taken -> told d rd' (consumed ++ taken) (chars ++ option_list popped).
Proof.
  intros [H1 H2 H3 H4] (G1 & G2 & G3). rewrite H1 in *. split; rewrite ?decode_app; cbn [fst snd].
  - done.
  - by rewrite filter_app, <- H2, G2.
  - destruct popped as [c|]; destruct G3 as [-> _]; rewrite H3, length_app; cbn; [|by rewrite Nat.add_0_r].
    unfold add32. rewrite u32_add_l. f_equal. lia.
  - destruct popped as [c|]; destruct G3 as [_ ->]; cbn; [by rewrite last_snoc|by rewrite app_nil_r].
Qed.

Lemma session_holds fuel calls out_char d : forall rd arrivals s sent accepted consumed chars,
  out_char <> 0 -> queue s sent accepted consumed -> told d rd consumed chars ->
  (length sent + length (concat arrivals) < fuel)%nat ->
  exists chars' rd' later s' sent' accepted' consumed',
    session isr fuel calls out_char rd arrivals s = Some (chars', rd', later, s') /\
    sent ++ concat arrivals = sent' ++ concat later /\ queue s' sent' accepted' consumed' /\
    told d rd' consumed' (chars ++ chars').
Proof.
  induction calls as [|calls IH]; intros rd arrivals s sent accepted consumed chars Hout Hq Ht Hf; cbn [session].
  { exists [], rd, arrivals, s, sent, accepted, consumed. by rewrite app_nil_r. }
  unfold keyboard_try_pop_char. rewrite (proj2 (Z.eqb_neq _ _) Hout).
  pose proof (sublist_length _ _ (q_sent _ _ _ _ _ Hq)) as Hl. rewrite (omap_some sent) in Hl.
  edestruct (loop_holds fuel (length (concat arrivals)) rd accepted consumed) as
    (res & later & s1 & sent1 & more & taken & H1 & H2 & H3 & H4 & H5); [apply (q_prefix _ _ _ _ _ Hq)|lia|done|exact Hq|].
  destruct res as [popped rd1]. rewrite H1. cbn [mbind option_bind].
  destruct (IH rd1 later s1 _ _ _ _ Hout H3 (told_gives _ _ _ _ _ _ _ Ht H5)) as
    (chars' & rd' & later' & s' & sent' & acc' & con' & H6 & H7 & H8 & H9); [rewrite H2, !length_app in *; lia|].
  rewrite H6. cbn. eexists _, rd', later', s', sent', acc', con'. split; [done|].
  split; [by rewrite H2, app_assoc|]. split; [done|]. by rewrite app_assoc.
Qed.

End reading.

(** C16: Whatever interrupts arrive between the accesses of the main loop, the
    characters its calls return are the decodings, in order, of the scan codes
    taken from the ring; these are a prefix of the codes the handler accepted,
    which are those that arrived but for the ones counted as dropped, and no
    call loops longer than codes arrive. *)
Theorem keyboard_session_exact r a fuel calls d out_char arrivals :
  out_char <> 0 -> (length (concat arrivals) < fuel)%nat ->
  exists chars rd later s sent accepted consumed,
    session (fun code s => (keyboard_interrupt_handler r a code s).1) fuel calls out_char (start d) arrivals idle =
      Some (chars, rd, later, s) /\
    concat arrivals = sent ++ concat later /\
    chars = filter (fun c => c <> 0) (decode_all consumed d).1 /\ decoder rd = (decode_all consumed d).2 /\
    keyboard_printable_count rd = u32 (Z.of_nat (length chars)) /\
    keyboard_last_printable_char rd = default 0 (last chars) /\
    consumed `prefix_of` accepted /\ accepted `sublist_of` sent /\
    keyboard_get_pending_char_count s = Z.of_nat (length accepted) - Z.of_nat (length consumed) /\
    keyboard_get_dropped_char_count s = u32 (Z.of_nat (length sent) - Z.of_nat (length accepted)) /\
    keyboard_get_irq_count s = u32 (Z.of_nat (length sent)).
Proof.
  intros Hout Hf. destruct (session_holds r a fuel calls out_char d (start d) arrivals idle [] [] [] [] Hout)
    as (chars & rd & later & s & sent & accepted & consumed & H1 & H2 & H3 & [H4 H5 H6 H7]); [by apply queue_idle|by split|done|].
  pose proof (q_sent _ _ _ _ _ H3) as Hs. pose proof (q_dropped _ _ _ _ _ H3) as Hd. rewrite (omap_some sent) in Hs, Hd.
  exists chars, rd, later, s, sent, accepted, consumed. split_and!; try done.
  - apply (q_prefix _ _ _ _ _ H3).
  - apply (queue_pending _ _ _ _ _ H3).
  - apply (q_irqs _ _ _ _ _ H3).
Qed.

(** Two calls while A arrives, then shift in the middle of the second call. *)
Lemma keyboard_session_exact_witness :
  (length (concat [[0x1E]; []; []; []; []; [0x2A]; []; [0x1E]]) < 8)%nat /\
  exists chars rd later s,
    session (fun code s => (keyboard_interrupt_handler Irq.boot (Apic.Apic.mk 0 false) code s).1) 8 2 1 (start Ps2.boot)
      [[0x1E]; []; []; []; []; [0x2A]; []; [0x1E]] idle = Some (chars, rd, later, s) /\
    keyboard_printable_count rd = u32 (Z.of_nat (length chars)).
Proof.
  split; [cbn; lia|].
  destruct (keyboard_session_exact Irq.boot (Apic.Apic.mk 0 false) 8 2 Ps2.boot 1 [[0x1E]; []; []; []; []; [0x2A]; []; [0x1E]])
    as (chars & rd & later & s & _ & _ & _ & H & _ & _ & _ & Hc & _); [lia|cbn; lia|].
  by exists chars, rd, later, s.
Defined.

End Kbd.
