(* ===== verification/Mouse.v ===== *)
(** * PS/2 mouse

    Models arch/i386/drivers/ps2_mouse.c: the bounded exchanges with the
    controller, the interrupt handler and the assembly of packets from the
    byte ring.  What the controller answers is a function from the number of
    reads so far to the byte read. *)

From S2P Require Import Prelude Cpu Apic InputRing.
Import Apic.Pic Apic.Apic Apic.Irq Apic.Timer.

Definition PERSONAL_SYSTEM_2_DATA_PORT : Z := 0x60.
Definition PERSONAL_SYSTEM_2_STATUS_PORT : Z := 0x64.
Definition PERSONAL_SYSTEM_2_COMMAND_PORT : Z := 0x64.
Definition PERSONAL_SYSTEM_2_STATUS_OUTPUT_FULL : Z := 0x01.
Definition PERSONAL_SYSTEM_2_STATUS_INPUT_FULL : Z := 0x02.
Definition PERSONAL_SYSTEM_2_STATUS_FROM_AUX : Z := 0x20.
Definition PERSONAL_SYSTEM_2_COMMAND_ENABLE_AUXILIARY : Z := 0xA8.
Definition PERSONAL_SYSTEM_2_COMMAND_READ_CONFIGURATION : Z := 0x20.
Definition PERSONAL_SYSTEM_2_COMMAND_WRITE_CONFIGURATION : Z := 0x60.
Definition PERSONAL_SYSTEM_2_COMMAND_WRITE_TO_AUXILIARY : Z := 0xD4.
Definition PERSONAL_SYSTEM_2_MOUSE_SET_DEFAULTS : Z := 0xF6.
Definition PERSONAL_SYSTEM_2_MOUSE_ENABLE_REPORTS : Z := 0xF4.
Definition PERSONAL_SYSTEM_2_MOUSE_ACKNOWLEDGE : Z := 0xFA.
Definition PERSONAL_SYSTEM_2_CONFIGURATION_AUXILIARY_INTERRUPT : Z := 0x02.
Definition PERSONAL_SYSTEM_2_CONFIGURATION_AUXILIARY_CLOCK_OFF : Z := 0x20.
Definition IRQ_MOUSE_LINE : Z := 12.
Definition PERSONAL_SYSTEM_2_SPIN_BUDGET : nat := Z.to_nat 100000.

(** ** Talking to the controller *)

(** Reads done, and what was written so far. *)
Record link := mkLink { reads : Z; written : list event }.

Section controller.
  Context (answer : Z -> Z).

Definition read_port (l : link) : Z * link := (answer (reads l), mkLink (reads l + 1) (written l)).
Definition write_port (port value : Z) (l : link) : link := mkLink (reads l) (written l ++ [Out port value]).

Fixpoint wait (ready : Z -> bool) (budget : nat) (l : link) : bool * link :=
  match budget with
  | O => (false, l)
  | S budget => let '(status, l) := read_port l in if ready status then (true, l) else wait ready budget l
  end.

Definition personal_system_2_wait_for_input_clear (l : link) : bool * link :=
  wait (fun status => Z.land status PERSONAL_SYSTEM_2_STATUS_INPUT_FULL =? 0) PERSONAL_SYSTEM_2_SPIN_BUDGET l.

Definition personal_system_2_wait_for_output_full (l : link) : bool * link :=
  wait (fun status => negb (Z.land status PERSONAL_SYSTEM_2_STATUS_OUTPUT_FULL =? 0)) PERSONAL_SYSTEM_2_SPIN_BUDGET l.

Definition personal_system_2_write_command (command : Z) (l : link) : bool * link :=
  let '(ok, l) := personal_system_2_wait_for_input_clear l in
  if negb ok then (false, l) else (true, write_port PERSONAL_SYSTEM_2_COMMAND_PORT command l).

Definition personal_system_2_write_data (value : Z) (l : link) : bool * link :=
  let '(ok, l) := personal_system_2_wait_for_input_clear l in
  if negb ok then (false, l) else (true, write_port PERSONAL_SYSTEM_2_DATA_PORT value l).

Definition personal_system_2_read_data (l : link) : option Z * link :=
  let '(ok, l) := personal_system_2_wait_for_output_full l in
  if negb ok then (None, l) else let '(value, l) := read_port l in (Some value, l).

Definition personal_system_2_mouse_send (value : Z) (l : link) : bool * link :=
  let '(ok, l) := personal_system_2_write_command PERSONAL_SYSTEM_2_COMMAND_WRITE_TO_AUXILIARY l in
  if negb ok then (false, l)
  else
    let '(ok, l) := personal_system_2_write_data value l in
    if negb ok then (false, l)
    else
      let '(response, l) := personal_system_2_read_data l in
      match response with
      | None => (false, l)
      | Some response => (response =? PERSONAL_SYSTEM_2_MOUSE_ACKNOWLEDGE, l)
      end.

(** [masks] are the masks the two controllers hold; the result tells whether
    the device is present, and then the handler is registered. *)
Definition personal_system_2_mouse_initialize (masks : Z -> Z) (l : link) : bool * link :=
  let '(ok, l) := personal_system_2_write_command PERSONAL_SYSTEM_2_COMMAND_ENABLE_AUXILIARY l in
  if negb ok then (false, l) else
  let '(ok, l) := personal_system_2_write_command PERSONAL_SYSTEM_2_COMMAND_READ_CONFIGURATION l in
  if negb ok then (false, l) else
  let '(configuration, l) := personal_system_2_read_data l in
  match configuration with
  | None => (false, l)
  | Some configuration =>
    let configuration := Z.lor configuration PERSONAL_SYSTEM_2_CONFIGURATION_AUXILIARY_INTERRUPT in
    let configuration := Z.land configuration (u8 (Z.lnot PERSONAL_SYSTEM_2_CONFIGURATION_AUXILIARY_CLOCK_OFF)) in
    let '(ok, l) := personal_system_2_write_command PERSONAL_SYSTEM_2_COMMAND_WRITE_CONFIGURATION l in
    if negb ok then (false, l) else
    let '(ok, l) := personal_system_2_write_data configuration l in
    if negb ok then (false, l) else
    let '(ok, l) := personal_system_2_mouse_send PERSONAL_SYSTEM_2_MOUSE_SET_DEFAULTS l in
    if negb ok then (false, l) else
    let '(ok, l) := personal_system_2_mouse_send PERSONAL_SYSTEM_2_MOUSE_ENABLE_REPORTS l in
    if negb ok then (false, l) else
    (true, mkLink (reads l) (written l ++ programmable_interrupt_controller_clear_mask 2 (masks 2)
                                      ++ programmable_interrupt_controller_clear_mask IRQ_MOUSE_LINE (masks IRQ_MOUSE_LINE)))
  end.

(** *** Every exchange is bounded *)

(** [l'] follows [l] after at most [n] reads, and wrote only to the
    controller's own ports. *)
Definition within_budget (n : Z) (l l' : link) : Prop :=
  reads l <= reads l' <= reads l + n /\
  exists ws, written l' = written l ++ ws /\ Forall (fun e => exists v, e = Out PERSONAL_SYSTEM_2_DATA_PORT v \/ e = Out PERSONAL_SYSTEM_2_COMMAND_PORT v) ws.

Lemma budget_refl l : within_budget 0 l l.
Proof. split; [lia|]. exists []. by rewrite app_nil_r. Qed.

Lemma budget_trans n n' l l' l'' : within_budget n l l' -> within_budget n' l' l'' -> within_budget (n + n') l l''.
Proof.
  intros [H1 (ws & H2 & H3)] [H4 (ws' & H5 & H6)]. split; [lia|]. exists (ws ++ ws'). rewrite H5, H2, app_assoc. split; [done|].
  by apply Forall_app.
Qed.

Lemma budget_mono n n' l l' : within_budget n l l' -> n <= n' -> within_budget n' l l'.
Proof. intros [H1 H2] ?. split; [lia|done]. Qed.

Lemma wait_budget ready budget : forall l, within_budget (Z.of_nat budget) l (wait ready budget l).2.
Proof.
  induction budget as [|budget IH]; intros l; cbn [wait]; [apply budget_refl|]. cbn [read_port].
  assert (H1 : within_budget 1 l (mkLink (reads l + 1) (written l))) by (split; cbn; [lia|]; exists []; by rewrite app_nil_r).
  destruct (ready _); cbn [snd]; [eapply budget_mono; [exact H1|lia]|].
  eapply budget_mono; [eapply budget_trans; [exact H1|apply IH]|lia].
Qed.

Lemma spin_reads : Z.of_nat PERSONAL_SYSTEM_2_SPIN_BUDGET = 100000.
Proof. unfold PERSONAL_SYSTEM_2_SPIN_BUDGET. lia. Qed.

Lemma clear_budget l : within_budget 100000 l (personal_system_2_wait_for_input_clear l).2.
Proof. rewrite <- spin_reads. apply wait_budget. Qed.

Lemma full_budget l : within_budget 100000 l (personal_system_2_wait_for_output_full l).2.
Proof. rewrite <- spin_reads. apply wait_budget. Qed.

Lemma write_budget port v l :
  port = PERSONAL_SYSTEM_2_DATA_PORT \/ port = PERSONAL_SYSTEM_2_COMMAND_PORT -> within_budget 0 l (write_port port v l).
Proof.
  intros Hp. split; cbn; [lia|]. eexists. split; [done|]. constructor; [|constructor]. destruct Hp as [->| ->]; eauto.
Qed.

Lemma command_budget c l : within_budget 100000 l (personal_system_2_write_command c l).2.
Proof.
  unfold personal_system_2_write_command. pose proof (clear_budget l) as H.
  destruct (personal_system_2_wait_for_input_clear l) as [[] l']; cbn [negb snd] in *; [|done].
  apply (budget_trans 100000 0 l l'); [done|]. apply write_budget. by right.
Qed.

Lemma data_budget v l : within_budget 100000 l (personal_system_2_write_data v l).2.
Proof.
  unfold personal_system_2_write_data. pose proof (clear_budget l) as H.
  destruct (personal_system_2_wait_for_input_clear l) as [[] l']; cbn [negb snd] in *; [|done].
  apply (budget_trans 100000 0 l l'); [done|]. apply write_budget. by left.
Qed.

Lemma read_budget l : within_budget 100001 l (personal_system_2_read_data l).2.
Proof.
  unfold personal_system_2_read_data. pose proof (full_budget l) as H.
  destruct (personal_system_2_wait_for_output_full l) as [[] l']; cbn [negb snd read_port] in *.
  - apply (budget_trans 100000 1 l l'); [done|]. split; cbn; [lia|]. exists []. by rewrite app_nil_r.
  - by apply (budget_mono 100000).
Qed.

Lemma send_budget v l : within_budget 300001 l (personal_system_2_mouse_send v l).2.
Proof.
  unfold personal_system_2_mouse_send.
  pose proof (command_budget PERSONAL_SYSTEM_2_COMMAND_WRITE_TO_AUXILIARY l) as H.
  destruct (personal_system_2_write_command _ l) as [[] l1]; cbn [negb snd] in *; [|eapply budget_mono; [exact H|lia]].
  pose proof (budget_trans _ _ _ _ _ H (data_budget v l1)) as H1.
  destruct (personal_system_2_write_data v l1) as [[] l2]; cbn [negb snd] in *; [|eapply budget_mono; [exact H1|lia]].
  pose proof (budget_trans _ _ _ _ _ H1 (read_budget l2)) as H2.
  by destruct (personal_system_2_read_data l2) as [[] l3]; cbn [snd] in *.
Qed.

(** The reads and the writes of the probe. *)
Lemma mouse_exchange masks l :
  let '(present, l') := personal_system_2_mouse_initialize masks l in
  reads l <= reads l' <= reads l + 1100003 /\
  exists exchange,
    Forall (fun e => exists v, e = Out PERSONAL_SYSTEM_2_DATA_PORT v \/ e = Out PERSONAL_SYSTEM_2_COMMAND_PORT v) exchange /\
    written l' = written l ++ exchange ++
      (if present then programmable_interrupt_controller_clear_mask 2 (masks 2) ++
                       programmable_interrupt_controller_clear_mask IRQ_MOUSE_LINE (masks IRQ_MOUSE_LINE) else []).
Proof.
  assert (Hend : forall n l', within_budget n l l' -> n <= 1100003 ->
    reads l <= reads l' <= reads l + 1100003 /\ exists exchange,
    Forall (fun e => exists v, e = Out PERSONAL_SYSTEM_2_DATA_PORT v \/ e = Out PERSONAL_SYSTEM_2_COMMAND_PORT v) exchange /\
    written l' = written l ++ exchange ++ []).
  { intros n l' [H (ws & Hw & Hf)] Hn. split; [lia|]. exists ws. by rewrite app_nil_r. }
  unfold personal_system_2_mouse_initialize.
  pose proof (command_budget PERSONAL_SYSTEM_2_COMMAND_ENABLE_AUXILIARY l) as H1.
  destruct (personal_system_2_write_command _ l) as [[] l1]; cbn [negb snd] in *; [|by eapply Hend].
  pose proof (budget_trans _ _ _ _ _ H1 (command_budget PERSONAL_SYSTEM_2_COMMAND_READ_CONFIGURATION l1)) as H2.
  destruct (personal_system_2_write_command _ l1) as [[] l2]; cbn [negb snd] in *; [|by eapply Hend].
  pose proof (budget_trans _ _ _ _ _ H2 (read_budget l2)) as H3.
  destruct (personal_system_2_read_data l2) as [[c|] l3]; cbn [negb snd] in *; [|by eapply Hend].
  pose proof (budget_trans _ _ _ _ _ H3 (command_budget PERSONAL_SYSTEM_2_COMMAND_WRITE_CONFIGURATION l3)) as H4.
  destruct (personal_system_2_write_command _ l3) as [[] l4]; cbn [negb snd] in *; [|by eapply Hend].
  set (c' := Z.land _ _). pose proof (budget_trans _ _ _ _ _ H4 (data_budget c' l4)) as H5.
  destruct (personal_system_2_write_data c' l4) as [[] l5]; cbn [negb snd] in *; [|by eapply Hend].
  pose proof (budget_trans _ _ _ _ _ H5 (send_budget PERSONAL_SYSTEM_2_MOUSE_SET_DEFAULTS l5)) as H6.
  destruct (personal_system_2_mouse_send _ l5) as [[] l6]; cbn [negb snd] in *; [|by eapply Hend].
  pose proof (budget_trans _ _ _ _ _ H6 (send_budget PERSONAL_SYSTEM_2_MOUSE_ENABLE_REPORTS l6)) as H7.
  destruct (personal_system_2_mouse_send _ l6) as [[] l7]; cbn [negb snd] in *; [|by eapply Hend].
  destruct H7 as [H7 (ws & Hw & Hf)]. split; [cbn; lia|]. exists ws. cbn [written]. by rewrite Hw, <- !app_assoc.
Qed.

(** C30: Whatever the controller answers, probing for a mouse ends after at
    most 1 100 003 port reads.  When it fails only the controller's ports were
    written, and when it succeeds the cascade line and the mouse line are
    unmasked after that. *)
Theorem mouse_probe_bounded masks l :
  let '(present, l') := personal_system_2_mouse_initialize masks l in
  reads l <= reads l' <= reads l + 1100003 /\
  exists exchange,
    Forall (fun e => exists v, e = Out PERSONAL_SYSTEM_2_DATA_PORT v \/ e = Out PERSONAL_SYSTEM_2_COMMAND_PORT v) exchange /\
    written l' = written l ++ exchange ++
      (if present then programmable_interrupt_controller_clear_mask 2 (masks 2) ++
                       programmable_interrupt_controller_clear_mask IRQ_MOUSE_LINE (masks IRQ_MOUSE_LINE) else []).
Proof. apply mouse_exchange. Qed.

End controller.

(** ** Bytes and packets *)

(** [status] and [data] are what the two ports read; the data port is read
    only when the status announces a byte of the mouse. *)
Definition personal_system_2_mouse_interrupt_handler (r : irq) (a : apic) (status data : Z) (s : input) : input * list event :=
  let s := count_irq s in
  let aux := negb (Z.land status PERSONAL_SYSTEM_2_STATUS_FROM_AUX =? 0) &&
             negb (Z.land status PERSONAL_SYSTEM_2_STATUS_OUTPUT_FULL =? 0) in
  (if aux then ring_put data s else s,
   In PERSONAL_SYSTEM_2_STATUS_PORT :: (if aux then [In PERSONAL_SYSTEM_2_DATA_PORT] else []) ++
   (if negb (interrupt_request_is_line_owner_apic IRQ_MOUSE_LINE r =? 0)
    then advanced_pic_timer_backend_signal_end_of_interrupt a
    else programmable_interrupt_controller_send_end_of_interrupt IRQ_MOUSE_LINE)).

Record PersonalSystem2MousePacket := mkPacket {
  delta_x : Z; delta_y : Z; button_left : Z; button_right : Z; button_middle : Z }.

Definition personal_system_2_mouse_ring_peek (offset : Z) : consumer (option Z) :=
  Tail (fun tail => Head (fun head =>
    if head ⊟ tail <=? offset then Done None
    else Slot (Z.land (tail ⊞ offset) RING_MASK) (fun byte => Done (Some byte)))).

Definition axis (flags raw overflow sign : Z) : Z :=
  if negb (Z.land flags overflow =? 0) then 0
  else if negb (Z.land flags sign =? 0) then raw - 256 else raw.

Definition packet (flags raw_x raw_y : Z) : PersonalSystem2MousePacket :=
  mkPacket (axis flags raw_x 0x40 0x10) (axis flags raw_y 0x80 0x20)
    (if negb (Z.land flags 0x01 =? 0) then 1 else 0)
    (if negb (Z.land flags 0x02 =? 0) then 1 else 0)
    (if negb (Z.land flags 0x04 =? 0) then 1 else 0).

(** The second component is the resynchronization count. *)
Fixpoint packet_loop (fuel : nat) (resynchronized : Z) : consumer (option PersonalSystem2MousePacket * Z) :=
  match fuel with
  | O => Stuck
  | S fuel =>
    bind (personal_system_2_mouse_ring_peek 0) (fun flags =>
    match flags with
    | None => Done (None, resynchronized)
    | Some flags =>
      if Z.land flags 0x08 =? 0
      then Tail (fun tail => SetTail (tail ⊞ 1) (packet_loop fuel (resynchronized ⊞ 1)))
      else
        bind (personal_system_2_mouse_ring_peek 1) (fun raw_x =>
        match raw_x with
        | None => Done (None, resynchronized)
        | Some raw_x =>
          bind (personal_system_2_mouse_ring_peek 2) (fun raw_y =>
          match raw_y with
          | None => Done (None, resynchronized)
          | Some raw_y => Tail (fun tail => SetTail (tail ⊞ 3) (Done (Some (packet flags raw_x raw_y), resynchronized)))
          end)
        end)
    end)
  end.

Definition personal_system_2_mouse_try_pop_packet (fuel : nat) (out_packet resynchronized : Z)
    : consumer (option PersonalSystem2MousePacket * Z) :=
  if out_packet =? 0 then Done (None, resynchronized) else packet_loop fuel resynchronized.

Definition personal_system_2_mouse_get_pending_byte_count (s : input) : Z := pending_count s.
Definition personal_system_2_mouse_get_irq_count (s : input) : Z := irq_count s.
Definition personal_system_2_mouse_get_ring_capacity : Z := RING_CAPACITY.
Definition personal_system_2_mouse_get_dropped_byte_count (s : input) : Z := dropped_count s.

(** *** Framing a stream of bytes: packets, bytes of an unfinished packet,
    and bytes skipped because they are no header *)

Definition header (b : Z) : bool := negb (Z.land b 0x08 =? 0).

Fixpoint frame (l : list Z) : list PersonalSystem2MousePacket * list Z * nat :=
  match l with
  | [] => ([], [], O)
  | f :: l' =>
    if negb (header f) then let '(ps, rest, n) := frame l' in (ps, rest, S n)
    else
      match l' with
      | x :: l'' =>
        match l'' with
        | y :: l''' => let '(ps, rest, n) := frame l''' in (packet f x y :: ps, rest, n)
        | [] => ([], l, O)
        end
      | [] => ([], l, O)
      end
  end.

(** The bytes a mouse sends for a movement and its buttons. *)
Definition encode (p : PersonalSystem2MousePacket) : list Z :=
  [8 + button_left p + 2 * button_right p + 4 * button_middle p
     + (if delta_x p <? 0 then 16 else 0) + (if delta_y p <? 0 then 32 else 0);
   delta_x p mod 256; delta_y p mod 256].

Definition reportable (p : PersonalSystem2MousePacket) : Prop :=
  -256 <= delta_x p < 256 /\ -256 <= delta_y p < 256 /\
  0 <= button_left p <= 1 /\ 0 <= button_right p <= 1 /\ 0 <= button_middle p <= 1.

Lemma packet_encode p : reportable p ->
  match encode p with [f; x; y] => header f = true /\ packet f x y = p | _ => False end.
Proof.
  destruct p as [dx dy bl br bm]. intros (Hx & Hy & Hl & Hr & Hm). cbn in Hx, Hy, Hl, Hr, Hm |- *.
  assert (Ex : dx mod 256 = if dx <? 0 then dx + 256 else dx).
  { destruct (Z.ltb_spec dx 0); [|by rewrite Z.mod_small by lia]. rewrite <- (Z_mod_plus_full dx 1), Z.mod_small by lia. lia. }
  assert (Ey : dy mod 256 = if dy <? 0 then dy + 256 else dy).
  { destruct (Z.ltb_spec dy 0); [|by rewrite Z.mod_small by lia]. rewrite <- (Z_mod_plus_full dy 1), Z.mod_small by lia. lia. }
  rewrite Ex, Ey. assert (Hb : forall b, 0 <= b <= 1 -> b = 0 \/ b = 1) by lia.
  destruct (Hb bl Hl) as [-> | ->], (Hb br Hr) as [-> | ->], (Hb bm Hm) as [-> | ->]; destruct (dx <? 0), (dy <? 0);
    (split; [reflexivity|]); unfold packet, axis;
    repeat match goal with |- context [Z.land ?f ?m =? 0] =>
      let v := eval vm_compute in (Z.land f m =? 0) in change (Z.land f m =? 0) with v end;
    cbn [negb]; f_equal; lia.
Qed.

(** The packets a mouse sends come back as they were: framing the bytes
    of any reports gives these reports, skips nothing and leaves nothing. *)
Theorem mouse_packets_roundtrip ps :
  Forall reportable ps -> frame (concat (encode <$> ps)) = (ps, [], O).
Proof.
  induction 1 as [|p ps Hp _ IH]; [done|]. pose proof (packet_encode p Hp) as He.
  cbn [fmap list_fmap concat]. destruct (encode p) as [|f [|x [|y [|? ?]]]]; try done. destruct He as [Hf He].
  cbn [app frame]. by rewrite Hf, IH, He.
Qed.

(** A diagonal movement with the left button held. *)
Lemma mouse_packets_roundtrip_witness :
  Forall reportable [mkPacket (-3) 200 1 0 0] /\
  frame (concat (encode <$> [mkPacket (-3) 200 1 0 0])) = ([mkPacket (-3) 200 1 0 0], [], O).
Proof.
  assert (H : Forall reportable [mkPacket (-3) 200 1 0 0]) by (repeat constructor; cbn; lia).
  split; [exact H|]. apply (mouse_packets_roundtrip [mkPacket (-3) 200 1 0 0] H).
Defined.

(** Framing goes on where it stopped, when it stopped between packets. *)
Lemma frame_app n : forall l l' ps k, (length l < n)%nat -> frame l = (ps, [], k) ->
  frame (l ++ l') = let '(ps', rest, k') := frame l' in (ps ++ ps', rest, (k + k')%nat).
Proof.
  induction n as [|n IH]; intros l l' ps k Hn Hf; [lia|].
  destruct l as [|f l]; cbn [frame app] in *; [injection Hf as <- <-; by destruct (frame l') as [[? ?] ?]|].
  destruct (negb (header f)) eqn:Eh.
  - destruct (frame l) as [[ps1 rest1] k1] eqn:E. injection Hf as -> -> <-. cbn in Hn.
    rewrite (IH l l' _ _ ltac:(lia) E). by destruct (frame l') as [[? ?] ?].
  - destruct l as [|x [|y l]]; try done. destruct (frame l) as [[ps1 rest1] k1] eqn:E. injection Hf as <- -> ->. cbn in Hn.
    cbn [app]. rewrite (IH l l' _ _ ltac:(lia) E). by destruct (frame l') as [[? ?] ?].
Qed.

(** Calls of [personal_system_2_mouse_try_pop_packet], with their packets. *)
Fixpoint session (isr : Z * Z -> input -> input) (fuel calls : nat) (out_packet resynchronized : Z)
    (arrivals : list (list (Z * Z))) (s : input) : option (list PersonalSystem2MousePacket * Z * list (list (Z * Z)) * input) :=
  match calls with
  | O => Some ([], resynchronized, arrivals, s)
  | S calls =>
    '(popped, resynchronized, arrivals, s) ← run isr (personal_system_2_mouse_try_pop_packet fuel out_packet resynchronized) arrivals s;
    '(ps, resynchronized, arrivals, s) ← session isr fuel calls out_packet resynchronized arrivals s;
    Some (option_list popped ++ ps, resynchronized, arrivals, s)
  end.

(** The byte an interrupt carries. *)
Definition mouse_byte (x : Z * Z) : option Z :=
  if negb (Z.land x.1 PERSONAL_SYSTEM_2_STATUS_FROM_AUX =? 0) && negb (Z.land x.1 PERSONAL_SYSTEM_2_STATUS_OUTPUT_FULL =? 0)
  then Some x.2 else None.

Section reading.
  Context (r : irq) (a : apic).

Abbreviation isr := (fun x s => (personal_system_2_mouse_interrupt_handler r a x.1 x.2 s).1).
Abbreviation holds := (holds isr mouse_byte).
Abbreviation queue := (queue mouse_byte).

Lemma mouse_stores x s : isr x s = match mouse_byte x with Some b => ring_put b (count_irq s) | None => count_irq s end.
Proof. unfold mouse_byte, personal_system_2_mouse_interrupt_handler. cbn [fst]. by destruct (negb _ && negb _). Qed.

Lemma peek_holds n k accepted consumed :
  0 <= k < 3 -> consumed `prefix_of` accepted ->
  holds n (personal_system_2_mouse_ring_peek k) (fun o more taken => taken = [] /\
    match o with
    | None => exists early late, more = early ++ late /\ (length (accepted ++ early) <= length consumed + Z.to_nat k)%nat
    | Some b => (accepted ++ more) !! (length consumed + Z.to_nat k)%nat = Some b
    end) accepted consumed.
Proof.
  intros Hk [pending ->]. apply (holds_tail isr mouse_byte mouse_stores). intros more1 _.
  apply (holds_head isr mouse_byte mouse_stores). intros more2 _ Hb.
  rewrite distance by (rewrite !length_app in *; lia).
  destruct (Z.leb_spec (Z.of_nat (length (((consumed ++ pending) ++ more1) ++ more2)) - Z.of_nat (length consumed)) k) as [E|E].
  - apply holds_done. split; [done|]. exists (more1 ++ more2), []. rewrite app_nil_r, !app_assoc. split; [by rewrite app_nil_r|lia].
  - unfold add32. rewrite u32_add_l, land_mask by lia. set (all := ((consumed ++ pending) ++ more1) ++ more2) in *.
    destruct (lookup_lt_is_Some_2 all (length consumed + Z.to_nat k)) as [b Hlk]; [lia|].
    replace (Z.of_nat (length consumed) + k) with (Z.of_nat (length consumed + Z.to_nat k)) by lia.
    eapply (holds_slot isr mouse_byte mouse_stores _ _ b); [lia|done|]. intros more3 _.
    apply holds_done. split; [done|]. rewrite app_nil_r, !app_assoc. fold all. by apply lookup_app_l_Some.
Qed.

(** What a call may do with the bytes it finds. *)
Definition assembles (accepted consumed : list Z) (res res' : Z) (popped : option PersonalSystem2MousePacket) (more taken : list Z) : Prop :=
  exists k, frame taken = (option_list popped, [], k) /\ res' = u32 (res + Z.of_nat k) /\
  match popped with
  | Some _ => True
  | None => exists early late rest, more = early ++ late /\ accepted ++ early = consumed ++ taken ++ rest /\ frame rest = ([], rest, O)
  end.

Lemma advance (consumed taken : list Z) :
  u32 (Z.of_nat (length consumed)) ⊞ Z.of_nat (length taken) = u32 (Z.of_nat (length (consumed ++ taken))).
Proof. unfold add32. rewrite u32_add_l, length_app. f_equal. lia. Qed.

Lemma assembles_skip accepted consumed res res' popped f m more taken :
  header f = false -> assembles (accepted ++ m) (consumed ++ [f]) (res ⊞ 1) res' popped more taken ->
  assembles accepted consumed res res' popped (m ++ more) (f :: taken).
Proof.
  intros Hf (k & Hfr & Hr & Hp). exists (S k). cbn [frame]. rewrite Hf, Hfr. split; [done|]. split.
  - rewrite Hr. unfold add32. rewrite u32_add_l. f_equal. lia.
  - destruct popped; [done|]. destruct Hp as (early & late & rest & -> & He & Hfr'). exists (m ++ early), late, rest.
    rewrite !app_assoc in *. split; [done|]. rewrite He, <- !app_assoc. by split.
Qed.

(** Nothing was taken and what is in the queue is no whole packet. *)
Lemma assembles_none accepted consumed res early late rest :
  in32 res -> accepted ++ early = consumed ++ rest -> frame rest = ([], rest, O) ->
  assembles accepted consumed res res None (early ++ late) [].
Proof. intros Hr He Hf. exists O. rewrite Z.add_0_r, u32_small by done. split_and!; try done. by exists early, late, rest. Qed.

Lemma header_holds n res f q consumed :
  in32 res -> header f = true ->
  holds n (bind (personal_system_2_mouse_ring_peek 1) (fun raw_x =>
        match raw_x with
        | None => Done (None, res)
        | Some raw_x =>
          bind (personal_system_2_mouse_ring_peek 2) (fun raw_y =>
          match raw_y with
          | None => Done (None, res)
          | Some raw_y => Tail (fun tail => SetTail (tail ⊞ 3) (Done (Some (packet f raw_x raw_y), res)))
          end)
        end))
    (fun '(popped, res') more taken => assembles (consumed ++ f :: q) consumed res res' popped more taken) (consumed ++ f :: q) consumed.
Proof.
  intros Hr Hf. apply holds_bind. eapply holds_weaken; [apply peek_holds; [lia|by apply prefix_app_r]|]. cbn beta.
  change (Z.to_nat 1) with 1%nat. intros ox m1 t1 [-> Hx] Hm1. rewrite app_nil_r.
  destruct ox as [x|].
  2:{ apply holds_done. rewrite !app_nil_r. destruct Hx as (early & late & -> & Hlen).
      apply (assembles_none _ _ _ _ _ [f]); [done| |by cbn; rewrite Hf].
      rewrite !length_app in Hlen. cbn in Hlen. destruct q, early; cbn in *; try lia. by rewrite app_nil_r. }
  rewrite <- app_assoc in Hx |- *. rewrite lookup_app_r in Hx by lia. rewrite Nat.add_comm, Nat.add_sub in Hx. cbn in Hx.
  apply holds_bind. eapply holds_weaken; [apply peek_holds; [lia|by apply prefix_app_r]|]. cbn beta.
  change (Z.to_nat 2) with 2%nat. intros oy m2 t2 [-> Hy] Hm2. rewrite app_nil_r.
  destruct oy as [y|].
  2:{ apply holds_done. rewrite !app_nil_r. destruct Hy as (early & late & -> & Hlen).
      rewrite app_assoc. apply (assembles_none _ _ _ _ _ [f; x]); [done| |by cbn; rewrite Hf].
      rewrite !length_app in Hlen. cbn in Hlen. destruct (q ++ m1) as [|? [|? ?]] eqn:E; try done.
      - injection Hx as ->. apply (f_equal length) in E as E'. rewrite length_app in E'. cbn in E'.
        destruct early; [|cbn in *; lia]. rewrite app_nil_r, <- app_assoc. cbn. by rewrite E.
      - apply (f_equal length) in E. rewrite length_app in E. cbn in *. lia. }
  rewrite <- app_assoc in Hy |- *. rewrite lookup_app_r in Hy by lia. rewrite Nat.add_comm, Nat.add_sub in Hy. cbn in Hy.
  assert (Hq : exists l, (q ++ m1) ++ m2 = x :: y :: l).
  { destruct (q ++ m1) as [|x' q'] eqn:E; [done|]. injection Hx as ->. cbn in Hy |- *.
    destruct (q' ++ m2) as [|y' l]; [done|]. injection Hy as ->. by exists l. }
  destruct Hq as [l Hl]. apply (holds_tail isr mouse_byte mouse_stores). intros m3 _.
  change 3 with (Z.of_nat (length [f; x; y])). rewrite advance.
  apply (holds_set_tail isr mouse_byte mouse_stores).
  { rewrite <- app_assoc. apply prefix_app. cbn. rewrite Hl. exists (l ++ m3). done. }
  intros m4 _. apply holds_done. exists O. cbn [frame app]. rewrite Hf. cbn. by rewrite Z.add_0_r, u32_small.
Qed.

Lemma packets_holds fuel : forall n res accepted consumed,
  in32 res -> consumed `prefix_of` accepted -> (length accepted - length consumed + n < fuel)%nat ->
  holds n (packet_loop fuel res) (fun '(popped, res') more taken => assembles accepted consumed res res' popped more taken) accepted consumed.
Proof.
  induction fuel as [|fuel IH]; intros n res accepted consumed Hr [q ->] Hfu; [lia|]. cbn [packet_loop].
  apply holds_bind. eapply holds_weaken; [apply peek_holds; [lia|by apply prefix_app_r]|]. cbn beta.
  change (Z.to_nat 0) with 0%nat. rewrite Nat.add_0_r. intros flags m1 t1 [-> Hf] Hm1. rewrite app_nil_r.
  destruct flags as [f|].
  2:{ apply holds_done. rewrite !app_nil_r. destruct Hf as (early & late & -> & Hlen).
      apply (assembles_none _ _ _ _ _ []); [done| |done]. rewrite !length_app in Hlen. destruct q, early; cbn in *; try lia.
      by rewrite !app_nil_r. }
  rewrite <- app_assoc in Hf |- *. rewrite lookup_app_r, Nat.sub_diag in Hf by lia.
  destruct (q ++ m1) as [|f' q'] eqn:Eq; [done|]. injection Hf as ->.
  destruct (Z.land f 0x08 =? 0) eqn:Eh.
  - apply (holds_tail isr mouse_byte mouse_stores). intros m2 Hm2.
    change 1 with (Z.of_nat (length [f])) at 1. rewrite advance. apply (holds_set_tail isr mouse_byte mouse_stores).
    { rewrite <- app_assoc. apply prefix_app. by exists (q' ++ m2). }
    intros m3 Hm3. eapply holds_weaken; [apply IH; [apply u32_range| |]|].
    + rewrite <- !app_assoc. apply prefix_app. by exists (q' ++ m2 ++ m3).
    + apply (f_equal length) in Eq. rewrite !length_app in *. cbn in *. lia.
    + intros [popped res'] more taken Ha. rewrite !app_assoc. cbn [app]. apply assembles_skip; [unfold header; by rewrite Eh|].
      rewrite !app_assoc, <- (app_assoc consumed), Eq. exact Ha.
  - eapply holds_weaken; [by apply header_holds; [|unfold header; by rewrite Eh]|].
    intros [popped res'] more taken Ha. rewrite app_nil_l. cbn [app].
    destruct Ha as (k & H1 & H2 & H3). exists k. split_and!; [done|done|]. destruct popped; [done|].
    destruct H3 as (early & late & rest & -> & He & H4). exists (m1 ++ early), late, rest.
    rewrite <- !app_assoc, (app_assoc q), Eq. by rewrite <- app_assoc in He.
Qed.

Lemma mouse_session_holds fuel calls out_packet : forall res arrivals s sent accepted consumed ps k,
  out_packet <> 0 -> queue s sent accepted consumed -> frame consumed = (ps, [], k) -> res = u32 (Z.of_nat k) ->
  (length sent + length (concat arrivals) < fuel)%nat ->
  exists ps' res' later s' sent' accepted' consumed' k',
    session isr fuel calls out_packet res arrivals s = Some (ps', res', later, s') /\
    sent ++ concat arrivals = sent' ++ concat later /\ queue s' sent' accepted' consumed' /\
    frame consumed' = (ps ++ ps', [], k') /\ res' = u32 (Z.of_nat k').
Proof.
  induction calls as [|calls IH]; intros res arrivals s sent accepted consumed ps k Hout Hq Hfr Hr Hf; cbn [session].
  { exists [], res, arrivals, s, sent, accepted, consumed, k. by rewrite app_nil_r. }
  unfold personal_system_2_mouse_try_pop_packet. rewrite (proj2 (Z.eqb_neq _ _) Hout).
  pose proof (sublist_length _ _ (q_sent _ _ _ _ _ Hq)) as Hl. pose proof (omap_length mouse_byte sent) as Ho.
  edestruct (packets_holds fuel (length (concat arrivals)) res accepted consumed) as
    (rs & later & s1 & sent1 & more & taken & H1 & H2 & H3 & H4 & H5);
    [rewrite Hr; apply u32_range|apply (q_prefix _ _ _ _ _ Hq)|lia|done|exact Hq|].
  destruct rs as [popped res1]. destruct H5 as (k1 & Hk & Hres & _). rewrite H1. cbn [mbind option_bind].
  assert (Hfr1 : frame (consumed ++ taken) = (ps ++ option_list popped, [], (k + k1)%nat)).
  { by rewrite (frame_app (S (length consumed)) consumed taken ps k ltac:(lia) Hfr), Hk. }
  destruct (IH res1 later s1 _ _ _ _ _ Hout H3 Hfr1) as
    (ps' & res' & later' & s' & sent' & acc' & con' & k' & H6 & H7 & H8 & H9 & H10).
  { rewrite Hres, Hr, u32_add_l. f_equal. lia. }
  { rewrite H2, !length_app in *. lia. }
  rewrite H6. cbn. eexists _, res', later', s', sent', acc', con', k'. split; [done|].
  split; [by rewrite H2, app_assoc|]. split; [done|]. by rewrite app_assoc.
Qed.

End reading.

(** C20: Whatever interrupts arrive between the accesses of the main loop, the
    packets its calls return are the framing of the bytes taken from the ring,
    which end between two packets; these bytes are a prefix of those the
    handler accepted, which are the mouse's bytes in order but for the ones
    counted as dropped, and the resynchronization count is the number of
    bytes skipped. *)
Theorem mouse_session_exact r a fuel calls out_packet arrivals :
  out_packet <> 0 -> (length (concat arrivals) < fuel)%nat ->
  exists ps res later s sent accepted consumed skipped,
    session (fun x s => (personal_system_2_mouse_interrupt_handler r a x.1 x.2 s).1) fuel calls out_packet 0 arrivals idle =
      Some (ps, res, later, s) /\
    concat arrivals = sent ++ concat later /\
    frame consumed = (ps, [], skipped) /\ res = u32 (Z.of_nat skipped) /\
    consumed `prefix_of` accepted /\ accepted `sublist_of` omap mouse_byte sent /\
    personal_system_2_mouse_get_pending_byte_count s = Z.of_nat (length accepted) - Z.of_nat (length consumed) /\
    personal_system_2_mouse_get_dropped_byte_count s =
      u32 (Z.of_nat (length (omap mouse_byte sent)) - Z.of_nat (length accepted)) /\
    personal_system_2_mouse_get_irq_count s = u32 (Z.of_nat (length sent)).
Proof.
  intros Hout Hf. destruct (mouse_session_holds r a fuel calls out_packet 0 arrivals idle [] [] [] [] 0 Hout)
    as (ps & res & later & s & sent & accepted & consumed & k & H1 & H2 & H3 & H4 & H5); [by apply queue_idle|done|done|done|].
  exists ps, res, later, s, sent, accepted, consumed, k. split_and!; try done.
  - apply (q_prefix _ _ _ _ _ H3).
  - apply (q_sent _ _ _ _ _ H3).
  - apply (queue_pending _ _ _ _ _ H3).
  - apply (q_dropped _ _ _ _ _ H3).
  - apply (q_irqs _ _ _ _ _ H3).
Qed.

(** A stray byte, a packet and a keyboard's interrupt, during two calls. *)
Lemma mouse_session_exact_witness :
  (length (concat [[(0x21, 0x01)]; [(0x01, 0x1E); (0x21, 0x08)]; []; [(0x21, 5)]; []; []; []; [(0x21, 7)]]) < 9)%nat /\
  exists ps res later s,
    session (fun x s => (personal_system_2_mouse_interrupt_handler Irq.boot (Apic.Apic.mk 0 false) x.1 x.2 s).1) 9 2 1 0
      [[(0x21, 0x01)]; [(0x01, 0x1E); (0x21, 0x08)]; []; [(0x21, 5)]; []; []; []; [(0x21, 7)]] idle = Some (ps, res, later, s).
Proof.
  split; [cbn; lia|].
  destruct (mouse_session_exact Irq.boot (Apic.Apic.mk 0 false) 9 2 1
    [[(0x21, 0x01)]; [(0x01, 0x1E); (0x21, 0x08)]; []; [(0x21, 5)]; []; []; []; [(0x21, 7)]])
    as (ps & res & later & s & _ & _ & _ & _ & H & _); [lia|cbn; lia|].
  by exists ps, res, later, s.
Defined.
