(* ===== verification/Rtc.v ===== *)
(** * Real-time clock

    Models arch/i386/drivers/rtc.c.  The registers change while they are
    read: [answer n reg] is what register [reg] holds at the [n]-th read. *)

From S2P Require Import Prelude Cpu Apic.
Import Apic.Pic.

Definition CMOS_INDEX_PORT : Z := 0x70.
Definition CMOS_DATA_PORT : Z := 0x71.
Definition RTC_REGISTER_A : Z := 0x0A.
Definition RTC_REGISTER_B : Z := 0x0B.
Definition RTC_REGISTER_C : Z := 0x0C.
Definition RTC_REG_A_UPDATE_IN_PROGRESS : Z := 0x80.
Definition RTC_REG_A_RATE_MASK : Z := 0x0F.
Definition RTC_REG_B_24HOUR_MODE : Z := 0x02.
Definition RTC_REG_B_BINARY_MODE : Z := 0x04.
Definition RTC_REG_B_PERIODIC_IRQ : Z := 0x40.
Definition RTC_PERIODIC_RATE_64HZ : Z := 0x0A.
Definition IRQ_RTC_LINE : Z := 8.

(** Reads done, and the port accesses so far. *)
Record cmos := mkCmos { clock : nat; accesses : list event }.

Record rtc := mkRtc {
  realtime_clock_periodic_interrupt_count : Z;
  realtime_clock_periodic_interrupt_enabled : Z }.

Record RealtimeClockTime := mkTime { second : Z; minute : Z; hour : Z; day : Z; month : Z; year : Z }.

(** The seven registers of one pass. *)
Record raw := mkRaw {
  raw_second : Z; raw_minute : Z; raw_hour : Z; raw_day : Z; raw_month : Z; raw_year : Z; register_b : Z }.

Definition realtime_clock_bcd_to_binary (value : Z) : Z := u8 (Z.land value 0x0F + Z.shiftr value 4 * 10).

Definition realtime_clock_write_register (reg value : Z) (c : cmos) : cmos :=
  mkCmos (clock c) (accesses c ++ [Out CMOS_INDEX_PORT reg; Out CMOS_DATA_PORT value]).

Section device.
  Context (answer : nat -> Z -> Z).

Definition realtime_clock_read_register (reg : Z) (c : cmos) : Z * cmos :=
  (answer (clock c) reg, mkCmos (S (clock c)) (accesses c ++ [Out CMOS_INDEX_PORT reg; In CMOS_DATA_PORT])).

Definition realtime_clock_is_update_in_progress (c : cmos) : bool * cmos :=
  let '(a, c) := realtime_clock_read_register RTC_REGISTER_A c in
  (negb (Z.land a RTC_REG_A_UPDATE_IN_PROGRESS =? 0), c).

Definition realtime_clock_read_raw (c : cmos) : raw * cmos :=
  let '(second, c) := realtime_clock_read_register 0x00 c in
  let '(minute, c) := realtime_clock_read_register 0x02 c in
  let '(hour, c) := realtime_clock_read_register 0x04 c in
  let '(day, c) := realtime_clock_read_register 0x07 c in
  let '(month, c) := realtime_clock_read_register 0x08 c in
  let '(year, c) := realtime_clock_read_register 0x09 c in
  let '(register_b, c) := realtime_clock_read_register RTC_REGISTER_B c in
  (mkRaw second minute hour day month year register_b, c).

Definition realtime_clock_interrupt_handler (s : rtc) (c : cmos) : rtc * cmos :=
  let s := mkRtc (realtime_clock_periodic_interrupt_count s ⊞ 1) (realtime_clock_periodic_interrupt_enabled s) in
  let '(_, c) := realtime_clock_read_register RTC_REGISTER_C c in
  (s, mkCmos (clock c) (accesses c ++ programmable_interrupt_controller_send_end_of_interrupt IRQ_RTC_LINE)).

Definition realtime_clock_initialize (c : cmos) : rtc * cmos :=
  let '(b, c) := realtime_clock_read_register RTC_REGISTER_B c in
  let c := realtime_clock_write_register RTC_REGISTER_B (Z.land b (u8 (Z.lnot RTC_REG_B_PERIODIC_IRQ))) c in
  let '(_, c) := realtime_clock_read_register RTC_REGISTER_C c in
  (mkRtc 0 0, c).

Definition realtime_clock_set_periodic_interrupt_enabled (enabled : Z) (s : rtc) (c : cmos) : rtc * cmos :=
  let '(a, c) := realtime_clock_read_register RTC_REGISTER_A c in
  let c := realtime_clock_write_register RTC_REGISTER_A
             (Z.lor (Z.land a (u8 (Z.lnot RTC_REG_A_RATE_MASK))) RTC_PERIODIC_RATE_64HZ) c in
  let '(b, c) := realtime_clock_read_register RTC_REGISTER_B c in
  let b := if negb (enabled =? 0) then Z.lor b RTC_REG_B_PERIODIC_IRQ else Z.land b (u8 (Z.lnot RTC_REG_B_PERIODIC_IRQ)) in
  let c := realtime_clock_write_register RTC_REGISTER_B b c in
  let '(_, c) := realtime_clock_read_register RTC_REGISTER_C c in
  (mkRtc (realtime_clock_periodic_interrupt_count s) (if negb (enabled =? 0) then 1 else 0), c).

Definition same_reading (r1 r2 : raw) : bool :=
  (raw_second r1 =? raw_second r2) && (raw_minute r1 =? raw_minute r2) && (raw_hour r1 =? raw_hour r2) &&
  (raw_day r1 =? raw_day r2) && (raw_month r1 =? raw_month r2) && (raw_year r1 =? raw_year r2).

(** [while (realtime_clock_is_update_in_progress());] *)
Fixpoint wait_update (fuel : nat) (c : cmos) : option cmos :=
  match fuel with
  | O => None
  | S fuel => let '(busy, c) := realtime_clock_is_update_in_progress c in if busy then wait_update fuel c else Some c
  end.

Fixpoint read_stable (fuel : nat) (c : cmos) : option (raw * cmos) :=
  match fuel with
  | O => None
  | S fuel' =>
    c ← wait_update fuel c;
    let '(r1, c) := realtime_clock_read_raw c in
    c ← wait_update fuel c;
    let '(r2, c) := realtime_clock_read_raw c in
    if same_reading r1 r2 then Some (r2, c) else read_stable fuel' c
  end.

(** From the registers to the time, by the mode bits of register B. *)
Definition decode (r : raw) : RealtimeClockTime :=
  let bcd := Z.land (register_b r) RTC_REG_B_BINARY_MODE =? 0 in
  let number x := if bcd then realtime_clock_bcd_to_binary x else x in
  let hour := if bcd then Z.lor (Z.land (raw_hour r) 0x80) (realtime_clock_bcd_to_binary (Z.land (raw_hour r) 0x7F)) else raw_hour r in
  let hour :=
    if Z.land (register_b r) RTC_REG_B_24HOUR_MODE =? 0 then
      let is_pm := negb (Z.land hour 0x80 =? 0) in
      let hour := Z.land hour 0x7F in
      let hour := if is_pm && (hour <? 12) then u8 (hour + 12) else hour in
      if negb is_pm && (hour =? 12) then 0 else hour
    else Z.land hour 0x7F in
  mkTime (number (raw_second r)) (number (raw_minute r)) hour (number (raw_day r)) (number (raw_month r))
    (u16 (2000 + number (raw_year r))).

(** A null [time_snapshot] reads nothing. *)
Definition realtime_clock_read_time (fuel : nat) (time_snapshot : Z) (c : cmos) : option (option RealtimeClockTime * cmos) :=
  if time_snapshot =? 0 then Some (None, c)
  else '(r, c) ← read_stable fuel c; Some (Some (decode r), c).

(** *** No torn reading *)

(** The registers hold a clock's value: the time registers of read [n] are
    those of [shown n]. *)
Definition shows (shown : nat -> raw) : Prop := forall n,
  answer n 0x00 = raw_second (shown n) /\ answer n 0x02 = raw_minute (shown n) /\ answer n 0x04 = raw_hour (shown n) /\
  answer n 0x07 = raw_day (shown n) /\ answer n 0x08 = raw_month (shown n) /\ answer n 0x09 = raw_year (shown n) /\
  answer n RTC_REGISTER_B = register_b (shown n).

(** Between reads [a] and [b] the clock advances at most once. *)
Definition one_update (shown : nat -> raw) (a b : nat) : Prop :=
  exists u, forall n, (a <= n < b)%nat -> shown n = if (n <? u)%nat then shown a else shown (b - 1)%nat.

Lemma wait_later fuel : forall c c', wait_update fuel c = Some c' -> (clock c < clock c')%nat.
Proof.
  induction fuel as [|fuel IH]; intros c c' H; cbn in H; [done|].
  destruct (negb _); [apply IH in H; cbn in H; lia|]. injection H as <-. cbn. lia.
Qed.

Lemma raw_clock c : clock (realtime_clock_read_raw c).2 = (clock c + 7)%nat.
Proof. cbn. lia. Qed.

(** A pass reads each register at its own time. *)
Lemma raw_reads shown c : shows shown ->
  (realtime_clock_read_raw c).1 =
  mkRaw (raw_second (shown (clock c))) (raw_minute (shown (S (clock c)))) (raw_hour (shown (S (S (clock c)))))
    (raw_day (shown (S (S (S (clock c)))))) (raw_month (shown (S (S (S (S (clock c)))))))
    (raw_year (shown (S (S (S (S (S (clock c)))))))) (register_b (shown (S (S (S (S (S (S (clock c))))))))).
Proof. intros Hs. cbn -[shows]. f_equal; match goal with |- answer ?n _ = _ => destruct (Hs n) as (? & ? & ? & ? & ? & ? & ?); assumption end. Qed.

Lemma same_reading_eq r1 r2 : same_reading r1 r2 = true -> register_b r1 = register_b r2 -> r1 = r2.
Proof.
  unfold same_reading. rewrite !andb_true_iff, !Z.eqb_eq. destruct r1, r2. cbn. intros (((((-> & ->) & ->) & ->) & ->) & ->) ->. done.
Qed.

(** A pass with no update inside reads one value of the clock. *)
Lemma pass_whole shown c v : shows shown ->
  (forall n, (clock c <= n < clock c + 7)%nat -> shown n = v) -> (realtime_clock_read_raw c).1 = v.
Proof. intros Hs Hv. rewrite (raw_reads shown c Hs). rewrite !Hv; [by destruct v|lia..]. Qed.

(** Two equal passes around at most one update read a value of the clock. *)
Lemma passes_not_torn shown mode a b c1 c2 :
  shows shown -> (forall n, register_b (shown n) = mode) -> one_update shown a b ->
  (a <= clock c1)%nat -> (clock c1 + 7 <= clock c2)%nat -> (clock c2 + 7 <= b)%nat ->
  same_reading (realtime_clock_read_raw c1).1 (realtime_clock_read_raw c2).1 = true ->
  exists n, (a <= n < b)%nat /\ (realtime_clock_read_raw c2).1 = shown n.
Proof.
  intros Hs Hm [u Hu] H1 H2 H3 Heq.
  assert (Hrb : forall c, register_b (realtime_clock_read_raw c).1 = mode).
  { intros c. rewrite (raw_reads shown c Hs). cbn. apply Hm. }
  apply same_reading_eq in Heq; [|by rewrite !Hrb].
  destruct (decide (u <= clock c2)%nat).
  - exists (b - 1)%nat. split; [lia|]. apply (pass_whole shown); [done|]. intros n Hn. rewrite Hu by lia.
    by rewrite (proj2 (Nat.ltb_ge n u)) by lia.
  - exists a. split; [lia|]. rewrite <- Heq. apply (pass_whole shown); [done|]. intros n' Hn. rewrite Hu by lia.
    by rewrite (proj2 (Nat.ltb_lt n' u)) by lia.
Qed.

Lemma stable_not_torn shown mode fuel : forall c r c',
  shows shown -> (forall n, register_b (shown n) = mode) -> read_stable fuel c = Some (r, c') ->
  exists a, (clock c <= a < clock c')%nat /\
    (one_update shown a (clock c') -> exists n, (a <= n < clock c')%nat /\ r = shown n).
Proof.
  induction fuel as [|fuel IH]; intros c r c' Hs Hm H; [done|]. cbn [read_stable] in H.
  destruct (wait_update (S fuel) c) as [c1|] eqn:E1; [|done]. cbn [mbind option_bind] in H.
  pose proof (raw_clock c1) as Hc1. destruct (realtime_clock_read_raw c1) as [r1 c2] eqn:Er1. cbn [snd] in Hc1.
  destruct (wait_update (S fuel) c2) as [c3|] eqn:E3; [|done]. cbn [mbind option_bind] in H.
  pose proof (raw_clock c3) as Hc3. destruct (realtime_clock_read_raw c3) as [r2 c4] eqn:Er2. cbn [snd] in Hc3.
  apply wait_later in E1, E3.
  destruct (same_reading r1 r2) eqn:Es.
  - injection H as <- <-. exists (clock c). split; [lia|]. intros Hu.
    replace r2 with (realtime_clock_read_raw c3).1 by by rewrite Er2.
    apply (passes_not_torn shown mode (clock c) (clock c4) c1 c3); try done; try lia. by rewrite Er1, Er2.
  - apply IH in H as (a & Ha & Hn); [|done|done]. exists a. split; [lia|done].
Qed.

(** C29: A time the driver returns is never torn: on a clock that keeps its mode
    and changes its registers at once, the selection and the reading of a register
    being one access, it is around at most one update a value the clock showed.  When no update is in progress
    and none comes, the call returns after one round. *)
Theorem rtc_read_not_torn shown mode fuel time_snapshot c :
  shows shown -> (forall n, register_b (shown n) = mode) -> time_snapshot <> 0 ->
  (forall time c', realtime_clock_read_time fuel time_snapshot c = Some (time, c') ->
     exists a, (clock c <= a < clock c')%nat /\
     (one_update shown a (clock c') -> exists n, (a <= n < clock c')%nat /\ time = Some (decode (shown n)))) /\
  ((0 < fuel)%nat ->
   (forall n, (clock c <= n < clock c + 16)%nat ->
      shown n = shown (clock c) /\ Z.land (answer n RTC_REGISTER_A) RTC_REG_A_UPDATE_IN_PROGRESS = 0) ->
   exists c', realtime_clock_read_time fuel time_snapshot c = Some (Some (decode (shown (clock c))), c')).
Proof.
  intros Hs Hm Ht. unfold realtime_clock_read_time. rewrite (proj2 (Z.eqb_neq _ _) Ht). split.
  - intros time c' H. destruct (read_stable fuel c) as [[r c1]|] eqn:E; [|done]. cbn in H. injection H as <- <-.
    destruct (stable_not_torn shown mode fuel c r c1 Hs Hm E) as (a & Ha & Hn). exists a. split; [done|].
    intros Hu. destruct (Hn Hu) as (n & Hr & ->). by exists n.
  - intros Hf Hq. destruct fuel as [|fuel]; [lia|].
    assert (Hw : forall c1, (clock c <= clock c1 < clock c + 16)%nat ->
      exists c2, wait_update (S fuel) c1 = Some c2 /\ clock c2 = S (clock c1)).
    { intros c1 Hc1. cbn [wait_update realtime_clock_is_update_in_progress realtime_clock_read_register].
      destruct (Hq _ Hc1) as [_ ->]. by eexists. }
    cbn [read_stable]. destruct (Hw c) as (c1 & -> & H1); [lia|]. cbn [mbind option_bind].
    pose proof (raw_clock c1) as Hc1. pose proof (pass_whole shown c1 (shown (clock c)) Hs) as Hp1.
    destruct (realtime_clock_read_raw c1) as [r1 c2]. cbn [fst snd] in Hc1, Hp1. rewrite Hp1; [|intros; apply Hq; lia].
    destruct (Hw c2) as (c3 & -> & H3); [lia|]. cbn [mbind option_bind].
    pose proof (raw_clock c3) as Hc3. pose proof (pass_whole shown c3 (shown (clock c)) Hs) as Hp3.
    destruct (realtime_clock_read_raw c3) as [r2 c4]. cbn [fst snd] in Hc3, Hp3. rewrite Hp3; [|intros; apply Hq; lia].
    unfold same_reading. rewrite !Z.eqb_refl. cbn. by exists c4.
Qed.

End device.

(** 23:59:59 of 31 December 2026, the year ending at the tenth read. *)
Definition new_year (n : nat) (reg : Z) : Z :=
  if reg =? RTC_REGISTER_B then 0x02
  else if (n <? 9)%nat then default 0 ((list_to_map [(0, 0x59); (2, 0x59); (4, 0x23); (7, 0x31); (8, 0x12); (9, 0x26)] : zmap) !! reg)
  else default 0 ((list_to_map [(0, 0); (2, 0); (4, 0); (7, 1); (8, 1); (9, 0x27)] : zmap) !! reg).

Definition new_year_shown (n : nat) : raw :=
  if (n <? 9)%nat then mkRaw 0x59 0x59 0x23 0x31 0x12 0x26 0x02 else mkRaw 0 0 0 1 1 0x27 0x02.

Lemma rtc_read_not_torn_witness :
  shows new_year new_year_shown /\
  exists a c', (realtime_clock_read_time new_year 5 1 (mkCmos 0 [])) = Some (Some (mkTime 0 0 0 1 1 2027), c') /\ (0 <= a < clock c')%nat.
Proof.
  assert (Hs : shows new_year new_year_shown).
  { intros n. unfold new_year, new_year_shown. destruct (n <? 9)%nat; vm_compute; repeat split. }
  split; [exact Hs|].
  destruct (rtc_read_not_torn new_year new_year_shown 0x02 5 1 (mkCmos 0 []) Hs) as [H _]; [|done|].
  { intros n. unfold new_year_shown. by destruct (n <? 9)%nat. }
  assert (Hr : exists c', realtime_clock_read_time new_year 5 1 (mkCmos 0 []) = Some (Some (mkTime 0 0 0 1 1 2027), c')).
  { eexists. vm_compute. reflexivity. }
  destruct Hr as [c' Hr]. destruct (H _ _ Hr) as (a & Ha & _). exists a, c'. exact (conj Hr Ha).
Defined.

(** ** Encodings *)

(** The registers a clock in a given mode holds for a time. *)
Definition to_bcd (x : Z) : Z := x / 10 * 16 + x mod 10.

Definition encode (binary hours24 : bool) (t : RealtimeClockTime) : raw :=
  let number x := if binary then x else to_bcd x in
  let h :=
    if hours24 then number (hour t)
    else let h12 := if hour t mod 12 =? 0 then 12 else hour t mod 12 in
         if hour t <? 12 then number h12 else number h12 + 0x80 in
  mkRaw (number (second t)) (number (minute t)) h (number (day t)) (number (month t)) (number (year t - 2000))
    ((if hours24 then RTC_REG_B_24HOUR_MODE else 0) + (if binary then RTC_REG_B_BINARY_MODE else 0)).

Definition valid_time (t : RealtimeClockTime) : Prop :=
  0 <= second t < 60 /\ 0 <= minute t < 60 /\ 0 <= hour t < 24 /\ 1 <= day t <= 31 /\ 1 <= month t <= 12 /\ 2000 <= year t < 2100.

Lemma below_forall (P : Z -> bool) (n : nat) x : forallb P (seqZ 0 (Z.of_nat n)) = true -> 0 <= x < Z.of_nat n -> P x = true.
Proof. rewrite forallb_forall. intros H Hx. apply H, list_elem_of_In, elem_of_seqZ. lia. Qed.

Lemma bcd_roundtrip x : 0 <= x < 100 -> realtime_clock_bcd_to_binary (to_bcd x) = x.
Proof.
  intros Hx. apply Z.eqb_eq.
  exact (below_forall (fun x => realtime_clock_bcd_to_binary (to_bcd x) =? x) 100 x (ltac:(vm_compute; reflexivity)) Hx).
Qed.

Lemma hour_roundtrip binary hours24 h : 0 <= h < 24 ->
  hour (decode (encode binary hours24 (mkTime 0 0 h 1 1 2000))) = h.
Proof.
  intros Hh. apply Z.eqb_eq.
  apply (below_forall (fun h => hour (decode (encode binary hours24 (mkTime 0 0 h 1 1 2000))) =? h) 24 h); [|done].
  destruct binary, hours24; vm_compute; reflexivity.
Qed.

(** In each of the four modes of the clock, BCD or binary and 12 or 24
    hours, decoding the registers of a time gives the time. *)
Theorem rtc_modes_roundtrip binary hours24 t : valid_time t -> decode (encode binary hours24 t) = t.
Proof.
  intros (Hs & Hm & Hh & Hd & Hmo & Hy). pose proof (hour_roundtrip binary hours24 (hour t) Hh) as Hhour.
  destruct t as [s m h d mo y]. cbn [second minute hour day month year] in *.
  unfold decode, encode in Hhour |- *. cbn [raw_hour register_b hour second minute day month year raw_second raw_minute raw_day raw_month raw_year] in Hhour |- *.
  assert (Hb : (Z.land ((if hours24 then RTC_REG_B_24HOUR_MODE else 0) + (if binary then RTC_REG_B_BINARY_MODE else 0)) RTC_REG_B_BINARY_MODE =? 0) = negb binary)
    by by destruct binary, hours24.
  rewrite Hb in Hhour |- *. rewrite Hhour.
  assert (Hn' : forall x, 0 <= x < 100 -> (if negb binary then realtime_clock_bcd_to_binary (if binary then x else to_bcd x) else if binary then x else to_bcd x) = x).
  { intros x Hx. destruct binary; cbn; [done|]. by apply bcd_roundtrip. }
  rewrite !Hn' by lia. f_equal. rewrite Zplus_minus. apply Z.mod_small. lia.
Qed.

(** Half past midnight in 12-hour BCD. *)
Lemma rtc_modes_roundtrip_witness :
  valid_time (mkTime 0 30 0 1 1 2026) /\ decode (encode false false (mkTime 0 30 0 1 1 2026)) = mkTime 0 30 0 1 1 2026.
Proof.
  assert (H : valid_time (mkTime 0 30 0 1 1 2026)) by (unfold valid_time; cbn; lia).
  split; [exact H|]. apply (rtc_modes_roundtrip false false _ H).
Defined.
