(* ===== verification/Terminal.v ===== *)
(** * Text terminal and serial port

    Models libc/include/ctype.h, include/kernel/drivers/vga.h,
    arch/i386/drivers/tty.c and serial.c.  A [char] is a signed byte, as on
    the i386 target; the text page is the map from the index of a cell to the
    16-bit entry. *)

From S2P Require Import Prelude Cpu Apic.

(** ** Characters *)

Module Ctype.

Definition bounds (c lo hi : Z) : bool := (lo <=? c) && (c <=? hi).
Definition iscntrl (c : Z) : bool := bounds c 0 32.
Definition isprint (c : Z) : bool := bounds c 32 126.
Definition isspace (c : Z) : bool := bounds c 9 13 || (c =? 32) || (c =? 127).

End Ctype.
Import Ctype.

Definition vga_entry (uc color : Z) : Z := Z.lor uc (Z.shiftl color 8).

(** ** Digits

    Both printers take the digits from the least significant one and emit the
    buffer backwards. *)

Fixpoint digits (fuel : nat) (n base : Z) : list Z :=
  match fuel with
  | O => []
  | S fuel => if 0 <? n then n mod base :: digits fuel (n / base) base else []
  end.

(** The value of digits, the least significant first. *)
Fixpoint value (base : Z) (ds : list Z) : Z := match ds with [] => 0 | d :: ds => d + base * value base ds end.

Lemma digits_value base fuel : forall n, 2 <= base -> 0 <= n < base ^ Z.of_nat fuel ->
  value base (digits fuel n base) = n /\ Forall (fun d => 0 <= d < base) (digits fuel n base).
Proof.
  induction fuel as [|fuel IH]; intros n Hb Hn; cbn [digits value].
  - change (Z.of_nat 0) with 0 in Hn. rewrite Z.pow_0_r in Hn. split; [lia|constructor].
  - destruct (Z.ltb_spec 0 n); cbn [value]; [|split; [lia|constructor]].
    rewrite Nat2Z.inj_succ, Z.pow_succ_r in Hn by lia.
    destruct (IH (n / base) Hb) as [-> Hf].
    { split; [apply Z.div_pos; lia|apply Z.div_lt_upper_bound; lia]. }
    pose proof (Z.div_mod n base). pose proof (Z.mod_pos_bound n base). split; [lia|]. constructor; [lia|done].
Qed.

(** No leading zero. *)
Lemma digits_last base fuel : forall n, 2 <= base -> 0 < n < base ^ Z.of_nat fuel ->
  exists d, last (digits fuel n base) = Some d /\ 0 < d.
Proof.
  induction fuel as [|fuel IH]; intros n Hb Hn; cbn [digits].
  - change (Z.of_nat 0) with 0 in Hn. rewrite Z.pow_0_r in Hn. lia.
  - rewrite (proj2 (Z.ltb_lt 0 n)) by lia. rewrite Nat2Z.inj_succ, Z.pow_succ_r in Hn by lia.
    pose proof (Z.div_mod n base). pose proof (Z.mod_pos_bound n base).
    destruct (decide (n / base = 0)) as [E|E].
    + exists (n mod base). rewrite E. split; [by destruct fuel|]. rewrite E in *. lia.
    + assert (0 <= n / base) by (apply Z.div_pos; lia).
      destruct (IH (n / base)) as (d & Hd & Hp); [done|split; [lia|apply Z.div_lt_upper_bound; lia]|].
      exists d. split; [|done]. rewrite last_cons, Hd. done.
Qed.

Lemma digits_length base k fuel : forall n, 2 <= base -> n < base ^ Z.of_nat k -> (length (digits fuel n base) <= k)%nat.
Proof.
  revert fuel. induction k as [|k IH]; intros fuel n Hb Hn; (destruct fuel as [|fuel]; [cbn; lia|]); cbn [digits].
  - assert (n < 1) by exact Hn. by rewrite (proj2 (Z.ltb_ge 0 n)) by lia.
  - destruct (0 <? n); cbn [length]; [|lia].
    apply le_n_S, IH; [done|]. rewrite Nat2Z.inj_succ, Z.pow_succ_r in Hn by lia. apply Z.div_lt_upper_bound; lia.
Qed.

(** ** Text mode *)

Module Tty.

Definition VGA_WIDTH : Z := 80.
Definition VGA_HEIGHT : Z := 25.

Record tty := mk {
  terminal_row : Z;
  terminal_column : Z;
  terminal_color : Z;
  terminal_buffer : zmap }.

(** The cursor variables are 16 bits wide. *)
Definition with_cursor (row column : Z) (s : tty) : tty := mk (u16 row) (u16 column) (terminal_color s) (terminal_buffer s).
Definition with_buffer (b : zmap) (s : tty) : tty := mk (terminal_row s) (terminal_column s) (terminal_color s) b.

Definition terminal_putentryat (c color row col : Z) (s : tty) : tty :=
  let index := u16 (row * VGA_WIDTH + col) in
  with_buffer (<[index := vga_entry (u8 c) color]> (terminal_buffer s)) s.

(** One row of the loops below. *)
Definition scroll_row (b : zmap) (row : Z) : zmap :=
  fold_left (fun b col => <[(row - 1) * VGA_WIDTH + col := zget b (row * VGA_WIDTH + col)]> b) (seqZ 0 VGA_WIDTH) b.

Definition blank_row (color : Z) (b : zmap) (row : Z) : zmap :=
  fold_left (fun b col => <[row * VGA_WIDTH + col := vga_entry 32 color]> b) (seqZ 0 VGA_WIDTH) b.

Definition terminal_scroll (s : tty) : tty :=
  with_buffer (fold_left scroll_row (seqZ 1 (VGA_HEIGHT - 1)) (terminal_buffer s)) s.

Definition terminal_delete_last_line (s : tty) : tty :=
  with_buffer (blank_row (terminal_color s) (terminal_buffer s) (VGA_HEIGHT - 1)) s.

Definition terminal_clear (s : tty) : tty :=
  with_buffer (fold_left (blank_row (terminal_color s)) (seqZ 0 VGA_HEIGHT) (terminal_buffer s)) s.

Definition terminal_initialize (s : tty) : tty := terminal_clear s.

Definition terminal_reset_pos (s : tty) : tty := with_cursor 0 0 s.

Definition terminal_setcolor (color : Z) (s : tty) : tty :=
  mk (terminal_row s) (terminal_column s) color (terminal_buffer s).

Definition terminal_getcolor (s : tty) : Z := terminal_color s.

(** The two tests that end [terminal_putchar]. *)
Definition settle (s : tty) : tty :=
  let s := if VGA_WIDTH <=? terminal_column s then with_cursor (terminal_row s + 1) 0 s else s in
  if VGA_HEIGHT <=? terminal_row s
  then let s := terminal_delete_last_line (terminal_scroll s) in with_cursor (VGA_HEIGHT - 1) (terminal_column s) s
  else s.

Definition terminal_putchar (c : Z) (s : tty) : tty :=
  let row := terminal_row s in
  let column := terminal_column s in
  if negb (isprint c) && negb (isspace c) then s
  else if (c =? 13) || (c =? 10) then settle (with_cursor (row + 1) 0 s)
  else if c =? 11 then settle (with_cursor (row + 1) column s)
  else if c =? 9 then settle (with_cursor row (Z.land (column + 4) (not32 3)) s)
  else if c =? 127 then
    if 0 <? column then settle (terminal_putentryat 32 (terminal_color s) row (column - 1) (with_cursor row (column - 1) s))
    else if row =? 0 then s
    else settle (terminal_putentryat 32 (terminal_color s) (row - 1) (VGA_WIDTH - 1) (with_cursor (row - 1) (VGA_WIDTH - 1) s))
  else settle (with_cursor row (column + 1) (terminal_putentryat c (terminal_color s) row column s)).

(** A C string is the list of its bytes; the loop stops at the first zero. *)
Fixpoint terminal_write_string (data : list Z) (s : tty) : tty :=
  match data with
  | [] => s
  | c :: data => if c =? 0 then s else terminal_write_string data (terminal_putchar c s)
  end.

Definition hexadecimal : list Z := [48; 49; 50; 51; 52; 53; 54; 55; 56; 57; 65; 66; 67; 68; 69; 70].

Definition puts (l : list Z) (s : tty) : tty := fold_left (fun s c => terminal_putchar c s) l s.

(** [num] is a [long] of 32 bits; negating the least one is undefined.  The
    loop ends in 64 turns, since the number is divided by two at least. *)
Definition terminal_write_number (num base : Z) (s : tty) : option tty :=
  if (base <? 2) || (16 <? base) then Some s
  else if num =? - 2 ^ 31 then None
  else
    let s := if num <? 0 then terminal_putchar 45 s else s in
    let n := if num <? 0 then - num else num in
    if n =? 0 then Some (terminal_putchar 48 s)
    else Some (puts (reverse ((fun d => nth (Z.to_nat d) hexadecimal 0) <$> digits 64 n base)) s).

(** *** The paper behind the screen

    What the terminal shows is the window of 25 lines below [top] of a paper
    that is never copied: a line feed at the bottom moves the window down over
    a fresh line. *)

Record paper := mkPaper { cell : gmap (Z * Z) Z; top : Z; line : Z; col : Z; ink : Z }.

Definition look (p : paper) (r c : Z) : Z := default 0 (cell p !! (r, c)).
Definition mark (r c e : Z) (p : paper) : paper := mkPaper (<[(r, c) := e]> (cell p)) (top p) (line p) (col p) (ink p).
Definition at_cursor (l c : Z) (p : paper) : paper := mkPaper (cell p) (top p) l c (ink p).

Definition fresh_line (l : Z) (p : paper) : paper := fold_left (fun p c => mark l c (vga_entry 32 (ink p)) p) (seqZ 0 80) p.

Definition feed (p : paper) : paper :=
  if line p <? top p + 25 then p
  else let q := fresh_line (top p + 25) p in mkPaper (cell q) (top q + 1) (line q) (col q) (ink q).

Definition newline_at (c : Z) (p : paper) : paper := feed (at_cursor (line p + 1) c p).

Definition forward (c : Z) (p : paper) : paper := if c <? 80 then at_cursor (line p) c p else newline_at 0 p.

Definition type_char (c : Z) (p : paper) : paper :=
  if negb (isprint c) && negb (isspace c) then p
  else if (c =? 13) || (c =? 10) then newline_at 0 p
  else if c =? 11 then newline_at (col p) p
  else if c =? 9 then forward (col p - col p mod 4 + 4) p
  else if c =? 127 then
    if 0 <? col p then mark (line p) (col p - 1) (vga_entry 32 (ink p)) (at_cursor (line p) (col p - 1) p)
    else if line p =? top p then p
    else mark (line p - 1) 79 (vga_entry 32 (ink p)) (at_cursor (line p - 1) 79 p)
  else forward (col p + 1) (mark (line p) (col p) (vga_entry (u8 c) (ink p)) p).

Definition type_string (data : list Z) (p : paper) : paper := fold_left (fun p c => type_char c p) data p.

Definition fresh_page (color : Z) : paper :=
  fold_left (fun p l => fresh_line l p) (seqZ 0 25) (mkPaper ∅ 0 0 0 color).

(** The screen shows the window, the cursor is on it, and nothing outside the
    page was written. *)
Record shows (base : zmap) (s : tty) (p : paper) : Prop := {
  sh_row : terminal_row s = line p - top p;
  sh_on : 0 <= terminal_row s < VGA_HEIGHT;
  sh_column : terminal_column s = col p;
  sh_in : 0 <= terminal_column s < VGA_WIDTH;
  sh_color : terminal_color s = ink p;
  sh_cells r c : 0 <= r < VGA_HEIGHT -> 0 <= c < VGA_WIDTH -> zget (terminal_buffer s) (r * VGA_WIDTH + c) = look p (top p + r) c;
  sh_outside i : ~ (0 <= i < 2000) -> zget (terminal_buffer s) i = zget base i }.

(** *** The page *)

Lemma blank_row_get color b row i :
  zget (blank_row color b row) i = if decide (row * 80 <= i < row * 80 + 80) then vga_entry 32 color else zget b i.
Proof.
  assert (H : forall n : nat, zget (fold_left (fun b col => <[row * VGA_WIDTH + col := vga_entry 32 color]> b) (seqZ 0 (Z.of_nat n)) b) i =
    if decide (row * 80 <= i < row * 80 + Z.of_nat n) then vga_entry 32 color else zget b i).
  { unfold VGA_WIDTH. induction n as [|n IH]; [rewrite decide_False by lia; done|].
    rewrite seqZ_S, fold_left_app. cbn [fold_left]. rewrite zget_insert, IH, Z.add_0_l. repeat case_decide; try done; lia. }
  exact (H 80%nat).
Qed.

Lemma scroll_row_get b row i : 1 <= row ->
  zget (scroll_row b row) i = if decide ((row - 1) * 80 <= i < row * 80) then zget b (i + 80) else zget b i.
Proof.
  intros Hrow. unfold scroll_row, VGA_WIDTH.
  assert (H : forall n : nat, (n <= 80)%nat -> forall i,
    zget (fold_left (fun b col => <[(row - 1) * 80 + col := zget b (row * 80 + col)]> b) (seqZ 0 (Z.of_nat n)) b) i =
    if decide ((row - 1) * 80 <= i < (row - 1) * 80 + Z.of_nat n) then zget b (i + 80) else zget b i).
  { induction n as [|n IH]; intros Hn j; [rewrite decide_False by lia; done|].
    rewrite seqZ_S, fold_left_app. cbn [fold_left]. rewrite zget_insert, Z.add_0_l, !IH by lia.
    repeat case_decide; try lia; try done. f_equal. lia. }
  rewrite (H 80%nat) by lia. repeat case_decide; try done; lia.
Qed.

Lemma scroll_get b i :
  zget (fold_left scroll_row (seqZ 1 (VGA_HEIGHT - 1)) b) i = if decide (0 <= i < 1920) then zget b (i + 80) else zget b i.
Proof.
  assert (H : forall (n : nat) i, zget (fold_left scroll_row (seqZ 1 (Z.of_nat n)) b) i =
    if decide (0 <= i < Z.of_nat n * 80) then zget b (i + 80) else zget b i).
  { induction n as [|n IH]; intros j; [rewrite decide_False by lia; done|].
    rewrite seqZ_S, fold_left_app. cbn [fold_left]. rewrite scroll_row_get, !IH by lia. repeat case_decide; try lia; done. }
  exact (H 24%nat i).
Qed.

Lemma clear_get color b i :
  zget (fold_left (blank_row color) (seqZ 0 VGA_HEIGHT) b) i = if decide (0 <= i < 2000) then vga_entry 32 color else zget b i.
Proof.
  assert (H : forall (n : nat) i, zget (fold_left (blank_row color) (seqZ 0 (Z.of_nat n)) b) i =
    if decide (0 <= i < Z.of_nat n * 80) then vga_entry 32 color else zget b i).
  { induction n as [|n IH]; intros j; [rewrite decide_False by lia; done|].
    rewrite seqZ_S, fold_left_app. cbn [fold_left]. rewrite blank_row_get, IH. repeat case_decide; try lia; done. }
  exact (H 25%nat i).
Qed.

Lemma fresh_line_look l p :
  let q := fresh_line l p in
  top q = top p /\ line q = line p /\ col q = col p /\ ink q = ink p /\
  forall r c, look q r c = if decide (r = l /\ 0 <= c < 80) then vga_entry 32 (ink p) else look p r c.
Proof.
  unfold fresh_line.
  assert (H : forall n : nat, let q := fold_left (fun p c => mark l c (vga_entry 32 (ink p)) p) (seqZ 0 (Z.of_nat n)) p in
    top q = top p /\ line q = line p /\ col q = col p /\ ink q = ink p /\
    forall r c, look q r c = if decide (r = l /\ 0 <= c < Z.of_nat n) then vga_entry 32 (ink p) else look p r c).
  { induction n as [|n IH]; cbn zeta in *.
    - split_and!; try done. intros r c. by rewrite decide_False by lia.
    - rewrite seqZ_S, fold_left_app. cbn [fold_left]. destruct IH as (H1 & H2 & H3 & H4 & H5). split_and!; try done.
      intros r c. unfold look, mark in *. cbn [cell]. rewrite lookup_insert, H4, Z.add_0_l. specialize (H5 r c).
      destruct (decide ((l, Z.of_nat n) = (r, c))) as [E|E]; [injection E as <- <-; by rewrite decide_True by lia|].
      rewrite H5. repeat case_decide; try done; [lia|]. destruct E. f_equal; lia. }
  exact (H 80%nat).
Qed.

Lemma fresh_page_fields color :
  top (fresh_page color) = 0 /\ line (fresh_page color) = 0 /\ col (fresh_page color) = 0 /\ ink (fresh_page color) = color /\
  forall r c, 0 <= r < 25 -> 0 <= c < 80 -> look (fresh_page color) r c = vga_entry 32 color.
Proof.
  assert (H : forall n : nat, let q := fold_left (fun p l => fresh_line l p) (seqZ 0 (Z.of_nat n)) (mkPaper ∅ 0 0 0 color) in
    top q = 0 /\ line q = 0 /\ col q = 0 /\ ink q = color /\
    forall r c, 0 <= r < Z.of_nat n -> 0 <= c < 80 -> look q r c = vga_entry 32 color).
  { induction n as [|n IH]; cbn zeta in *; [split_and!; try done; lia|].
    rewrite seqZ_S, fold_left_app. cbn [fold_left]. destruct IH as (H1 & H2 & H3 & H4 & H5).
    match goal with |- context [fresh_line ?l ?p] => destruct (fresh_line_look l p) as (F1 & F2 & F3 & F4 & F5) end.
    rewrite F1, F2, F3, F4. split_and!; try done. intros r c Hr Hc. rewrite F5. case_decide; [by rewrite H4|]. apply H5; lia. }
  exact (H 25%nat).
Qed.

(** *** The screen shows the paper *)

Lemma u16_small x : 0 <= x < 2 ^ 16 -> u16 x = x.
Proof. apply Z.mod_small. Qed.

Section page.
  Context (base : zmap).

Lemma move_shows s p r c :
  shows base s p -> 0 <= r < 25 -> 0 <= c < 80 -> shows base (with_cursor r c s) (at_cursor (top p + r) c p).
Proof.
  intros [] Hr Hc. split; cbn; rewrite ?u16_small by lia; try done; lia.
Qed.

Lemma mark_shows s p ch r c :
  shows base s p -> 0 <= r < 25 -> 0 <= c < 80 ->
  shows base (terminal_putentryat ch (terminal_color s) r c s) (mark (top p + r) c (vga_entry (u8 ch) (ink p)) p).
Proof.
  intros [] Hr Hc. split; cbn; try done.
  - intros r' c' Hr' Hc'. unfold VGA_WIDTH, VGA_HEIGHT in *. rewrite u16_small by lia. rewrite zget_insert, sh_cells0 by lia.
    unfold look, mark. cbn. rewrite lookup_insert, sh_color0.
    repeat case_decide; try done; try (simplify_eq; lia). destruct H0. f_equal; lia.
  - intros i Hi. unfold VGA_WIDTH. rewrite u16_small by lia. rewrite zget_insert_ne by lia. by apply sh_outside0.
Qed.

Lemma look_cell p q r c : cell p = cell q -> look p r c = look q r c.
Proof. unfold look. by intros ->. Qed.

(** A line feed, with the cursor on column [c]. *)
Lemma newline_shows s p c :
  shows base s p -> 0 <= c < 80 -> shows base (settle (with_cursor (terminal_row s + 1) c s)) (newline_at c p).
Proof.
  intros Hs Hc. pose proof Hs as []. unfold settle, VGA_WIDTH, VGA_HEIGHT in *. cbn [terminal_column with_cursor].
  rewrite (u16_small c), (proj2 (Z.leb_gt 80 c)) by lia. cbn [terminal_row with_cursor]. rewrite (u16_small (terminal_row s + 1)) by lia.
  unfold newline_at, feed. cbn [line top at_cursor].
  destruct (Z.leb_spec 25 (terminal_row s + 1)).
  - rewrite (proj2 (Z.ltb_ge _ _)) by lia. set (p1 := at_cursor (line p + 1) c p).
    destruct (fresh_line_look (top p + 25) p1) as (F1 & F2 & F3 & F4 & F5). set (q := fresh_line (top p + 25) p1) in *. cbn zeta.
    split; unfold with_cursor, terminal_delete_last_line, terminal_scroll, with_buffer, VGA_WIDTH, VGA_HEIGHT; cbn -[u16 fold_left seqZ zget look].
    + rewrite F2, F1. cbn [line top p1 at_cursor]. rewrite u16_small by lia. lia.
    + rewrite u16_small by lia. lia.
    + rewrite F3. cbn [col p1 at_cursor]. by rewrite !(u16_small c) by lia.
    + rewrite !(u16_small c) by lia. lia.
    + rewrite F4. done.
    + intros r c' Hr Hc'. rewrite blank_row_get, scroll_get, (look_cell _ q), F1, F5 by done. cbn [top ink p1 at_cursor].
      destruct (decide (r = 24)) as [->|].
      * rewrite !decide_True by lia. by rewrite sh_color0.
      * rewrite decide_False, decide_True, decide_False by lia. replace (r * 80 + c' + 80) with ((r + 1) * 80 + c') by lia.
        rewrite sh_cells0, (look_cell p1 p) by (done || lia). f_equal. lia.
    + intros i Hi. rewrite blank_row_get, scroll_get, !decide_False by lia. by apply sh_outside0.
  - rewrite (proj2 (Z.ltb_lt _ _)) by lia. replace (line p + 1) with (top p + (terminal_row s + 1)) by lia.
    replace (mk (u16 (terminal_row s + 1)) (u16 c) (terminal_color s) (terminal_buffer s)) with (with_cursor (terminal_row s + 1) c s) by done.
    apply move_shows; [done|lia|lia].
Qed.

Lemma settled s p : shows base s p -> settle s = s.
Proof. intros []. unfold settle. rewrite (proj2 (Z.leb_gt VGA_WIDTH _)) by lia. by rewrite (proj2 (Z.leb_gt VGA_HEIGHT _)) by lia. Qed.

Lemma forward_shows s p c :
  shows base s p -> 0 <= c <= 80 -> shows base (settle (with_cursor (terminal_row s) c s)) (forward c p).
Proof.
  intros Hs Hc. pose proof Hs as []. unfold forward, VGA_WIDTH, VGA_HEIGHT in *. destruct (Z.ltb_spec c 80).
  - assert (Hm : shows base (with_cursor (terminal_row s) c s) (at_cursor (line p) c p)).
    { replace (line p) with (top p + terminal_row s) by lia. apply move_shows; [done|lia|lia]. }
    by rewrite (settled _ _ Hm).
  - assert (c = 80) as -> by lia. replace (settle (with_cursor (terminal_row s) 80 s)) with (settle (with_cursor (terminal_row s + 1) 0 s));
      [by apply newline_shows|].
    unfold settle. cbn [terminal_column with_cursor]. rewrite !(u16_small 80), !(u16_small 0) by lia.
    replace (VGA_WIDTH <=? 0) with false by done. replace (VGA_WIDTH <=? 80) with true by done. cbn [terminal_row with_cursor terminal_color terminal_buffer].
    by rewrite (u16_small (terminal_row s)) by lia.
Qed.

Lemma tab_stop column : 0 <= column < 80 -> Z.land (column + 4) (not32 3) = column - column mod 4 + 4.
Proof.
  intros Hc. change 3 with (2 ^ 2 - 1). rewrite land_not32_pow2 by lia. change (2 ^ 2) with 4.
  replace (column + 4) with (column + 1 * 4) at 2 by lia. rewrite Z_mod_plus_full. lia.
Qed.

Lemma putchar_shows s p c : shows base s p -> shows base (terminal_putchar c s) (type_char c p).
Proof.
  intros Hs. pose proof Hs as []. unfold terminal_putchar, type_char, VGA_WIDTH, VGA_HEIGHT in *.
  destruct (negb (isprint c) && negb (isspace c)); [done|]. destruct ((c =? 13) || (c =? 10)); [by apply newline_shows|].
  destruct (c =? 11). { rewrite <- sh_column0. by apply newline_shows. }
  destruct (c =? 9).
  { rewrite tab_stop, sh_column0 by lia. apply forward_shows; [done|]. pose proof (Z.mod_pos_bound (col p) 4). pose proof (Z.div_mod (col p) 4).
    assert (col p / 4 < 20) by (apply Z.div_lt_upper_bound; lia). lia. }
  destruct (c =? 127).
  - rewrite <- sh_column0. destruct (Z.ltb_spec 0 (terminal_column s)).
    + assert (Hm : shows base (terminal_putentryat 32 (terminal_color s) (terminal_row s) (terminal_column s - 1)
                     (with_cursor (terminal_row s) (terminal_column s - 1) s))
                   (mark (line p) (terminal_column s - 1) (vga_entry 32 (ink p)) (at_cursor (line p) (terminal_column s - 1) p))).
      { replace (line p) with (top p + terminal_row s) by lia.
        apply (mark_shows (with_cursor (terminal_row s) (terminal_column s - 1) s) (at_cursor (top p + terminal_row s) (terminal_column s - 1) p)
                 32 (terminal_row s) (terminal_column s - 1)); [apply move_shows; [done|lia|lia]|lia|lia]. }
      by rewrite (settled _ _ Hm).
    + replace (line p =? top p) with (terminal_row s =? 0) by (destruct (Z.eqb_spec (terminal_row s) 0), (Z.eqb_spec (line p) (top p)); lia).
      destruct (Z.eqb_spec (terminal_row s) 0); [done|]. change (80 - 1) with 79.
      assert (Hm : shows base (terminal_putentryat 32 (terminal_color s) (terminal_row s - 1) 79 (with_cursor (terminal_row s - 1) 79 s))
                   (mark (line p - 1) 79 (vga_entry 32 (ink p)) (at_cursor (line p - 1) 79 p))).
      { replace (line p - 1) with (top p + (terminal_row s - 1)) by lia.
        apply (mark_shows (with_cursor (terminal_row s - 1) 79 s) (at_cursor (top p + (terminal_row s - 1)) 79 p)
                 32 (terminal_row s - 1) 79); [apply move_shows; [done|lia|lia]|lia|lia]. }
      by rewrite (settled _ _ Hm).
  - rewrite <- sh_column0. replace (line p) with (top p + terminal_row s) by lia.
    apply (forward_shows (terminal_putentryat c (terminal_color s) (terminal_row s) (terminal_column s) s)); [|lia].
    apply mark_shows; [done|lia|lia].
Qed.

Lemma string_shows data : forall s p, Forall (fun c => c <> 0) data -> shows base s p ->
  shows base (terminal_write_string data s) (type_string data p).
Proof.
  induction data as [|c data IH]; intros s p Hd Hs; [done|]. apply Forall_cons in Hd as [Hc Hd]. cbn.
  rewrite (proj2 (Z.eqb_neq c 0)) by done. apply IH; [done|]. by apply putchar_shows.
Qed.

Lemma clear_shows color : 0 <= color ->
  shows base (terminal_reset_pos (terminal_clear (mk 0 0 color base))) (fresh_page color).
Proof.
  intros Hc. destruct (fresh_page_fields color) as (F1 & F2 & F3 & F4 & F5).
  split; cbn -[fold_left seqZ zget look fresh_page]; rewrite ?F1, ?F2, ?F3, ?F4; [reflexivity|split; [vm_compute; discriminate|reflexivity]|reflexivity|split; [vm_compute; discriminate|reflexivity]|reflexivity| |].
  - intros r c Hr Hc'. unfold VGA_WIDTH, VGA_HEIGHT in *. rewrite clear_get, decide_True by lia.
    by rewrite Z.add_0_l, F5 by lia.
  - intros i Hi. by rewrite clear_get, decide_False by lia.
Qed.

End page.

(** C19: The terminal shows the last lines of what was written: after clearing
    the screen and writing any string, the 25 lines are the window at the end
    of a paper on which every character was typed once, the cursor is on the
    screen, and no memory outside the 2000 cells was written. *)
Theorem terminal_shows_paper base color data :
  0 <= color < 256 -> Forall (fun c => -128 <= c < 128 /\ c <> 0) data ->
  shows base (terminal_write_string data (terminal_reset_pos (terminal_clear (mk 0 0 color base))))
    (type_string data (fresh_page color)).
Proof.
  intros Hc Hd. apply string_shows; [|apply clear_shows; lia].
  eapply Forall_impl; [exact Hd|]. by intros c [_ ?].
Qed.

(** A character, a line feed and a rubout that goes back over it. *)
Lemma terminal_shows_paper_witness :
  Forall (fun c => -128 <= c < 128 /\ c <> 0) [65; 10; 127] /\
  shows ∅ (terminal_write_string [65; 10; 127] (terminal_reset_pos (terminal_clear (mk 0 0 15 ∅)))) (type_string [65; 10; 127] (fresh_page 15)).
Proof.
  assert (H : Forall (fun c => -128 <= c < 128 /\ c <> 0) [65; 10; 127]) by (repeat constructor; lia).
  split; [exact H|]. apply (terminal_shows_paper ∅ 15 [65; 10; 127]); [lia|exact H].
Defined.

(** The digit a character stands for. *)
Definition digit_of (c : Z) : Z := if c <? 65 then c - 48 else c - 55.

Lemma hexadecimal_digit d : 0 <= d < 16 -> digit_of (nth (Z.to_nat d) hexadecimal 0) = d.
Proof.
  intros Hd. assert (H : forall k : nat, (k < 16)%nat -> digit_of (nth k hexadecimal 0) = Z.of_nat k).
  { intros k Hk. do 16 (destruct k as [|k]; [reflexivity|]). lia. }
  rewrite H by lia. lia.
Qed.

Lemma digit_chars ds : Forall (fun d => 0 <= d < 16) ds -> digit_of <$> ((fun d => nth (Z.to_nat d) hexadecimal 0) <$> ds) = ds.
Proof. induction 1 as [|d ds Hd _ IH]; [done|]. cbn [fmap list_fmap]. by rewrite hexadecimal_digit, IH. Qed.

(** A number is printed as its sign and digits: for every base up to 16
    and every [long] but the least, the terminal receives a minus for a
    negative number and then digits that read back to its absolute value, at
    most 32 of them, and no leading zero but for zero itself. *)
Theorem terminal_number_roundtrip num base s :
  2 <= base <= 16 -> - 2 ^ 31 < num < 2 ^ 31 ->
  exists ds, terminal_write_number num base s = Some (puts ((if num <? 0 then [45] else []) ++ ds) s) /\
    value base (digit_of <$> reverse ds) = Z.abs num /\ (length ds <= 32)%nat /\
    (num <> 0 -> exists c, head ds = Some c /\ 0 < digit_of c).
Proof.
  intros Hb Hn. unfold terminal_write_number. rewrite (proj2 (Z.ltb_ge base 2)), (proj2 (Z.ltb_ge 16 base)) by lia.
  rewrite (proj2 (Z.eqb_neq num (- 2 ^ 31))) by lia. cbn [orb].
  replace (if num <? 0 then - num else num) with (Z.abs num) by (destruct (Z.ltb_spec num 0); lia).
  set (n := Z.abs num). assert (Hn' : 0 <= n < 2 ^ 31) by (unfold n; lia).
  assert (Hs : forall ds, puts ((if num <? 0 then [45] else []) ++ ds) s = puts ds (if num <? 0 then terminal_putchar 45 s else s)).
  { intros ds. unfold puts. rewrite fold_left_app. by destruct (num <? 0). }
  destruct (Z.eqb_spec n 0) as [E|E].
  - exists [48]. rewrite Hs, E. split_and!; [done|cbn; lia|cbn; lia|lia].
  - assert (Hp : n < base ^ Z.of_nat 32).
    { apply (Z.lt_le_trans _ (2 ^ 31)); [lia|]. apply (Z.le_trans _ (2 ^ 32)); [lia|]. change (Z.of_nat 32) with 32. apply Z.pow_le_mono_l. lia. }
    assert (Hp64 : n < base ^ Z.of_nat 64).
    { eapply Z.lt_le_trans; [exact Hp|]. apply Z.pow_le_mono_r; lia. }
    destruct (digits_value base 64 n) as [Hv Hf]; [lia|lia|]. destruct (digits_last base 64 n) as (d & Hd & Hd0); [lia|lia|].
    eexists. rewrite Hs. split_and!; [reflexivity| | |].
    + by rewrite reverse_involutive, digit_chars by (eapply Forall_impl; [exact Hf|cbn; lia]).
    + rewrite length_reverse, length_fmap. apply digits_length; lia.
    + intros _. rewrite head_reverse, fmap_last, Hd. cbn [fmap option_fmap option_map]. eexists. split; [done|].
      rewrite hexadecimal_digit; [done|]. apply last_Some in Hd as [l El]. rewrite El, Forall_app, Forall_singleton in Hf. lia.
Qed.

(** A hexadecimal number. *)
Lemma terminal_number_roundtrip_witness :
  (- 2 ^ 31 < -255 < 2 ^ 31) /\
  exists ds, terminal_write_number (-255) 16 (mk 0 0 15 ∅) = Some (puts ([45] ++ ds) (mk 0 0 15 ∅)) /\ value 16 (digit_of <$> reverse ds) = 255.
Proof.
  split; [lia|].
  destruct (terminal_number_roundtrip (-255) 16 (mk 0 0 15 ∅)) as (ds & H1 & H2 & _); [lia|lia|]. exists ds. exact (conj H1 H2).
Defined.

(** The backspace character is not printed, nor is it a rubout. *)
Lemma putchar_backspace s : terminal_putchar 8 s = s.
Proof. reflexivity. Qed.

(** *** The state stays typed *)

(** The cursor is on the screen, the cells are 16-bit words, and memory past
    the page is what it was in [base]. *)
Record typed (base : zmap) (s : tty) : Prop := {
  ty_row : 0 <= terminal_row s < VGA_HEIGHT;
  ty_column : 0 <= terminal_column s < VGA_WIDTH;
  ty_color : 0 <= terminal_color s < 2 ^ 8;
  ty_cells i : 0 <= zget (terminal_buffer s) i < 2 ^ 16;
  ty_outside i : ~ (0 <= i < 2000) -> zget (terminal_buffer s) i = zget base i }.

(** Before [settle] the cursor can be one past the end. *)
Record loose (base : zmap) (s : tty) : Prop := {
  lo_row : 0 <= terminal_row s <= VGA_HEIGHT;
  lo_column : 0 <= terminal_column s <= VGA_WIDTH;
  lo_color : 0 <= terminal_color s < 2 ^ 8;
  lo_cells i : 0 <= zget (terminal_buffer s) i < 2 ^ 16;
  lo_outside i : ~ (0 <= i < 2000) -> zget (terminal_buffer s) i = zget base i }.

Inductive op :=
  | Putchar (c : Z)
  | Write_string (data : list Z)
  | Write_number (num base : Z)
  | Setcolor (color : Z)
  | Clear
  | Initialize
  | Reset_pos.

Definition perform (o : op) (s : tty) : option tty :=
  match o with
  | Putchar c => Some (terminal_putchar c s)
  | Write_string data => Some (terminal_write_string data s)
  | Write_number num base => terminal_write_number num base s
  | Setcolor color => Some (terminal_setcolor color s)
  | Clear => Some (terminal_clear s)
  | Initialize => Some (terminal_initialize s)
  | Reset_pos => Some (terminal_reset_pos s)
  end.

Fixpoint perform_all (l : list op) (s : tty) : option tty :=
  match l with
  | [] => Some s
  | o :: l => s ← perform o s; perform_all l s
  end.

(** Colours are bytes; the least [long] is not printed. *)
Definition well_called (o : op) : Prop :=
  match o with
  | Write_number num _ => - 2 ^ 31 < num < 2 ^ 31
  | Setcolor color => 0 <= color < 2 ^ 8
  | _ => True
  end.

Section typing.
  Context (base : zmap).

Lemma vga_entry_range c color : 0 <= c < 2 ^ 8 -> 0 <= color < 2 ^ 8 -> 0 <= vga_entry c color < 2 ^ 16.
Proof.
  intros Hc Hk. unfold vga_entry. rewrite Z.lor_comm, Z.shiftl_mul_pow2, lor_low_bits by lia. lia.
Qed.

Lemma typed_loose s : typed base s -> loose base s.
Proof. intros []. split; try done; lia. Qed.

Lemma cursor_loose s row column :
  loose base s -> 0 <= row <= VGA_HEIGHT -> 0 <= column <= VGA_WIDTH -> loose base (with_cursor row column s).
Proof. intros [] Hr Hc. unfold VGA_WIDTH, VGA_HEIGHT in *. split; cbn -[u16]; rewrite ?u16_small by lia; done. Qed.

Lemma entry_loose s c color row column :
  loose base s -> 0 <= color < 2 ^ 8 -> 0 <= row < VGA_HEIGHT -> 0 <= column < VGA_WIDTH ->
  loose base (terminal_putentryat c color row column s).
Proof.
  intros [] Hk Hr Hc. unfold VGA_WIDTH, VGA_HEIGHT in *.
  split; cbn -[u16]; unfold VGA_WIDTH; try done; intros i; rewrite u16_small by lia; rewrite zget_insert.
  - case_decide; [|done]. apply vga_entry_range; [apply Z.mod_pos_bound; lia|done].
  - intros Hi. rewrite decide_False by lia. by apply lo_outside0.
Qed.

Lemma settle_typed s : loose base s -> typed base (settle s).
Proof.
  intros Hs. unfold settle.
  set (s1 := if VGA_WIDTH <=? terminal_column s then _ else s).
  assert (H1 : 0 <= terminal_row s1 <= 26 /\ 0 <= terminal_column s1 < 80 /\
    terminal_color s1 = terminal_color s /\ terminal_buffer s1 = terminal_buffer s).
  { destruct Hs. unfold s1, VGA_WIDTH, VGA_HEIGHT in *. destruct (Z.leb_spec 80 (terminal_column s)); cbn -[u16]; rewrite ?u16_small by lia; split_and!; done || lia. }
  destruct Hs, H1 as (Hr & Hc & Ec & Eb). clearbody s1. destruct (Z.leb_spec VGA_HEIGHT (terminal_row s1)); unfold VGA_WIDTH, VGA_HEIGHT in *.
  - split; cbn -[u16 blank_row fold_left seqZ scroll_row]; rewrite ?u16_small by lia; unfold VGA_WIDTH, VGA_HEIGHT in *; rewrite ?Ec, ?Eb; try lia.
    + intros i. rewrite blank_row_get. case_decide; [by apply vga_entry_range|]. rewrite scroll_get. case_decide; apply lo_cells0.
    + intros i Hi. rewrite blank_row_get, decide_False, scroll_get, decide_False by lia. by apply lo_outside0.
  - split; unfold VGA_WIDTH, VGA_HEIGHT in *; rewrite ?Ec, ?Eb; done || lia.
Qed.

Lemma putchar_typed s c : typed base s -> typed base (terminal_putchar c s).
Proof.
  intros Hs. pose proof (typed_loose s Hs) as Hl. pose proof Hs as []. unfold terminal_putchar.
  destruct (negb (isprint c) && negb (isspace c)); [done|].
  destruct (c =? 9) eqn:E9; [rewrite tab_stop by done|];
    [pose proof (Z.mod_pos_bound (terminal_column s) 4 ltac:(lia)); pose proof (Z.div_mod (terminal_column s) 4 ltac:(lia))|];
    unfold VGA_WIDTH, VGA_HEIGHT in *; repeat case_match; try done; apply settle_typed;
    repeat first [done | apply cursor_loose | apply entry_loose]; unfold VGA_WIDTH, VGA_HEIGHT; lia.
Qed.

Lemma string_typed data : forall s, typed base s -> typed base (terminal_write_string data s).
Proof. induction data as [|c data IH]; intros s Hs; [done|]. cbn. case_match; [done|]. by apply IH, putchar_typed. Qed.

Lemma puts_typed l : forall s, typed base s -> typed base (puts l s).
Proof. induction l as [|c l IH]; intros s Hs; [done|]. by apply IH, putchar_typed. Qed.

Lemma number_typed num b s : - 2 ^ 31 < num -> typed base s -> exists s', terminal_write_number num b s = Some s' /\ typed base s'.
Proof.
  intros Hn Hs. unfold terminal_write_number. rewrite (proj2 (Z.eqb_neq num (- 2 ^ 31))) by lia.
  repeat case_match; eexists; (split; [reflexivity|]); eauto using putchar_typed, puts_typed.
Qed.

Lemma clear_typed s : typed base s -> typed base (terminal_clear s).
Proof.
  intros []. split; cbn -[fold_left blank_row seqZ]; try done; intros i; rewrite clear_get.
  - case_decide; [by apply vga_entry_range|done].
  - intros Hi. rewrite decide_False by lia. by apply ty_outside0.
Qed.

End typing.

(** C28: Every operation of the terminal keeps its state typed: from a typed
    state any sequence of calls (numbers other than the least [long], colours
    of a byte) returns, the cursor stays on the screen of 80
    by 25, every cell is a 16-bit word, the colour a byte, and nothing outside
    the 2000 cells of the page is written. *)
Theorem terminal_state_typed base ops s :
  typed base s -> Forall well_called ops -> exists s', perform_all ops s = Some s' /\ typed base s'.
Proof.
  intros Hs Ho. revert s Hs. induction Ho as [|o ops Hw _ IH]; intros s Hs; [by exists s|]. cbn [perform_all].
  assert (exists s', perform o s = Some s' /\ typed base s') as (s' & -> & Hs'); [|by apply IH].
  destruct o; cbn [perform well_called] in *; [| |apply number_typed; [lia|done]| | | |]; eexists; (split; [reflexivity|]);
    eauto using putchar_typed, string_typed, clear_typed; destruct Hs; split; try done; cbn; unfold VGA_HEIGHT, VGA_WIDTH; lia.
Qed.

(** From the state of the boot, on a blank screen. *)
Lemma terminal_state_typed_witness :
  exists s', perform_all [Initialize; Setcolor 7; Write_string [72; 105; 10]; Write_number (-42) 10; Putchar 127] (mk 0 0 15 ∅) = Some s' /\
    typed ∅ s'.
Proof.
  apply (terminal_state_typed ∅ [Initialize; Setcolor 7; Write_string [72; 105; 10]; Write_number (-42) 10; Putchar 127] (mk 0 0 15 ∅)).
  - split; cbn; unfold VGA_HEIGHT, VGA_WIDTH; try lia; intros i; rewrite ?zget_empty; done || lia.
  - repeat constructor; cbn; lia.
Defined.

End Tty.

(** ** Serial port *)

Module Serial.

Definition BASE_SERIAL_SPEED : Z := 115200.

Record Serial := mkSerial { port : Z; initialized : Z; speed : Z }.

(** [echo] is the byte the loopback test reads. *)
Definition serial_initialize (com_port baud echo : Z) : Serial * list event :=
  let setup :=
    [Out (com_port + 1) 0x00; Out (com_port + 3) 0x80;
     Out com_port (BASE_SERIAL_SPEED / baud mod 256); Out (com_port + 1) (BASE_SERIAL_SPEED / baud mod 256);
     Out (com_port + 3) 0x03; Out (com_port + 2) 0xC7; Out (com_port + 4) 0x0B; Out (com_port + 4) 0x1E;
     Out com_port 0xAE; In com_port] in
  if negb (echo =? 0xAE) then (mkSerial com_port 0 baud, setup)
  else (mkSerial com_port 1 baud, setup ++ [Out (com_port + 4) 0x0F]).

(** The line status values still to be read, and the bytes sent. *)
Record uart := mkUart { status : list Z; sent : list Z }.

Definition can_write (status : Z) : bool := negb (Z.land status 0x20 =? 0).
Definition can_read (status : Z) : bool := negb (Z.land status 0x01 =? 0).

(** [while (!ready) ;], [None] when the line never becomes ready. *)
Fixpoint await (ready : Z -> bool) (l : list Z) : option (list Z) :=
  match l with [] => None | v :: l => if ready v then Some l else await ready l end.

Definition serial_write_char (c : Z) (u : uart) : option uart :=
  l ← await can_write (status u); Some (mkUart l (sent u ++ [u8 c])).

Fixpoint write_all (l : list Z) (u : uart) : option uart :=
  match l with [] => Some u | c :: l => u ← serial_write_char c u; write_all l u end.

Fixpoint serial_write_string (data : list Z) (u : uart) : option uart :=
  match data with
  | [] => Some u
  | c :: data => if c =? 0 then Some u else u ← serial_write_char c u; serial_write_string data u
  end.

(** Negating the least [int32_t] is undefined. *)
Definition serial_write_int (i : Z) (u : uart) : option uart :=
  if i =? - 2 ^ 31 then None
  else
    u ← (if i <? 0 then serial_write_char 45 u else Some u);
    let i := if i <? 0 then - i else i in
    if i =? 0 then serial_write_char 48 u
    else write_all (reverse ((fun d => 48 + d) <$> digits 32 i 10)) u.

Definition nibble_char (nibble : Z) : Z := if nibble <? 10 then 48 + nibble else 65 + nibble - 10.

(** [n] nibbles, the most significant first. *)
Definition hex (n i : Z) : list Z :=
  [48; 120] ++ ((fun j => nibble_char (Z.land (Z.shiftr i ((n - 1 - j) * 4)) 0xF)) <$> seqZ 0 n).

Definition serial_write_hex8 (i : Z) (u : uart) : option uart := serial_write_string (hex 2 i) u.
Definition serial_write_hex16 (i : Z) (u : uart) : option uart := serial_write_string (hex 4 i) u.
Definition serial_write_hex32 (i : Z) (u : uart) : option uart := serial_write_string (hex 8 i) u.
Definition serial_write_hex64 (i : Z) (u : uart) : option uart := serial_write_string (hex 16 i) u.

Definition serial_write_binary8 (i : Z) (u : uart) : option uart :=
  serial_write_string
    ([48; 98] ++ ((fun j => if negb (Z.land i (Z.shiftl 1 (7 - j)) =? 0) then 49 else 48) <$> seqZ 0 8)) u.

(** [data] is what the data port reads. *)
Definition serial_read_char (data : Z) (u : uart) : option (Z * uart) :=
  l ← await can_read (status u); Some (data, mkUart l (sent u)).

(** [valid]: neither pointer is null. *)
Definition serial_try_read_char (valid : bool) (data : Z) (u : uart) : option Z * uart :=
  if negb valid then (None, u)
  else
    match status u with
    | [] => (None, u)
    | v :: l => if negb (can_read v) then (None, mkUart l (sent u)) else (Some data, mkUart l (sent u))
    end.

(** *** What is sent *)

Definition room (u : uart) : nat := length (filter (fun v => can_write v = true) (status u)).

Lemma await_room l : (0 < length (filter (fun v => can_write v = true) l))%nat ->
  exists l', await can_write l = Some l' /\
    length (filter (fun v => can_write v = true) l) = S (length (filter (fun v => can_write v = true) l')).
Proof.
  induction l as [|v l IH]; intros H; [cbn in H; lia|]. cbn [await]. destruct (can_write v) eqn:E.
  - exists l. by rewrite filter_cons_True.
  - rewrite filter_cons_False in * by congruence. by apply IH.
Qed.

Lemma char_sent c u : (0 < room u)%nat -> exists u', serial_write_char c u = Some u' /\ sent u' = sent u ++ [u8 c] /\ room u = S (room u').
Proof.
  intros H. destruct (await_room _ H) as (l' & E & Hl). unfold serial_write_char. rewrite E. cbn. eexists. split_and!; done.
Qed.

Lemma all_sent l : forall u, (length l <= room u)%nat ->
  exists u', write_all l u = Some u' /\ sent u' = sent u ++ (u8 <$> l) /\ room u = (length l + room u')%nat.
Proof.
  induction l as [|c l IH]; intros u Hu; cbn [write_all length fmap list_fmap] in *.
  - exists u. by rewrite app_nil_r.
  - destruct (char_sent c u) as (u1 & -> & H1 & H2); [lia|]. cbn [mbind option_bind].
    destruct (IH u1) as (u' & -> & H3 & H4); [lia|]. exists u'. rewrite H3, H1, <- app_assoc. split_and!; [done|done|lia].
Qed.

Lemma string_is_all l : Forall (fun c => c <> 0) l -> forall u, serial_write_string l u = write_all l u.
Proof.
  induction 1 as [|c l Hc _ IH]; intros u; [done|]. cbn. rewrite (proj2 (Z.eqb_neq c 0)) by done.
  destruct (serial_write_char c u); cbn; [apply IH|done].
Qed.

Lemma minus_48 (l : list Z) : (fun c => c - 48) <$> ((fun d => 48 + d) <$> l) = l.
Proof. induction l as [|d l IH]; [done|]. cbn [fmap list_fmap]. rewrite IH. f_equal. lia. Qed.

(** Every [int32_t] but the least is sent as its decimal digits, once the
    line is ready often enough: a minus for a negative number, then at most
    ten digits that read back to the absolute value. *)
Theorem serial_int_roundtrip i u :
  - 2 ^ 31 < i < 2 ^ 31 -> (11 <= room u)%nat ->
  exists u' ds, serial_write_int i u = Some u' /\
    sent u' = sent u ++ (if i <? 0 then [45] else []) ++ ds /\
    value 10 ((fun c => c - 48) <$> reverse ds) = Z.abs i /\ Forall (fun c => 48 <= c <= 57) ds /\ (length ds <= 10)%nat.
Proof.
  intros Hi Hr. unfold serial_write_int. rewrite (proj2 (Z.eqb_neq i (- 2 ^ 31))) by lia.
  assert (H1 : exists u1, (if i <? 0 then serial_write_char 45 u else Some u) = Some u1 /\
    sent u1 = sent u ++ (if i <? 0 then [45] else []) /\ (10 <= room u1)%nat).
  { destruct (i <? 0); [|exists u; rewrite app_nil_r; split_and!; [done|done|lia]].
    destruct (char_sent 45 u) as (u1 & H1 & H2 & H3); [lia|]. exists u1. split_and!; [done|done|lia]. }
  destruct H1 as (u1 & -> & Hs1 & Hr1). cbn [mbind option_bind].
  replace (if i <? 0 then - i else i) with (Z.abs i) by (destruct (Z.ltb_spec i 0); lia).
  destruct (Z.eqb_spec (Z.abs i) 0) as [E|E].
  - destruct (char_sent 48 u1) as (u' & H2 & H3 & _); [lia|]. exists u', [48]. rewrite E.
    split_and!; [done|by rewrite H3, Hs1, <- app_assoc|done|by repeat constructor|cbn; lia].
  - destruct (digits_value 10 32 (Z.abs i)) as [Hv Hf]; [lia|lia|].
    assert (Hl : (length (digits 32 (Z.abs i) 10) <= 10)%nat) by (apply digits_length; lia).
    set (cs := (fun d => 48 + d) <$> digits 32 (Z.abs i) 10).
    assert (Hc : Forall (fun c => 48 <= c <= 57) cs) by (apply Forall_fmap; eapply Forall_impl; [exact Hf|cbn; lia]).
    destruct (all_sent (reverse cs) u1) as (u' & H2 & H3 & _); [rewrite length_reverse; unfold cs; rewrite length_fmap; lia|].
    exists u', (reverse cs). split_and!; [done| | | |].
    + rewrite H3, Hs1, <- app_assoc. do 2 f_equal. apply Forall_reverse in Hc. clear - Hc.
      induction Hc as [|c l Hc _ IH]; [done|]. cbn. rewrite IH. f_equal. apply Z.mod_small. lia.
    + rewrite reverse_involutive. unfold cs. by rewrite minus_48, Hv.
    + by apply Forall_reverse.
    + rewrite length_reverse. unfold cs. rewrite length_fmap. lia.
Qed.

(** A line that is ready every other time. *)
Definition half_ready : uart := mkUart (concat (replicate 11 [0; 0x60])) [].

Lemma serial_int_roundtrip_witness :
  (11 <= room half_ready)%nat /\
  exists u' ds, serial_write_int (-1024) half_ready = Some u' /\ sent u' = [] ++ [45] ++ ds.
Proof.
  assert (H : (11 <= room half_ready)%nat) by (vm_compute; lia).
  split; [exact H|].
  destruct (serial_int_roundtrip (-1024) half_ready) as (u' & ds & H1 & H2 & _); [lia|exact H|].
  exists u', ds. exact (conj H1 H2).
Defined.

(** Hexadecimal digits read back to the number. *)
Definition nibble_of (c : Z) : Z := if c <? 65 then c - 48 else c - 55.

Lemma nibble_roundtrip d : 0 <= d < 16 -> nibble_of (nibble_char d) = d.
Proof. intros Hd. unfold nibble_of, nibble_char. destruct (Z.ltb_spec d 10); [destruct (Z.ltb_spec (48 + d) 65)|destruct (Z.ltb_spec (65 + d - 10) 65)]; lia. Qed.

Lemma hex_roundtrip n i : 0 <= i < 16 ^ Z.of_nat n ->
  fold_left (fun acc c => acc * 16 + nibble_of c) (drop 2 (hex (Z.of_nat n) i)) 0 = i.
Proof.
  intros Hi. unfold hex. cbn [app drop].
  assert (H : forall k : nat, (k <= n)%nat ->
    fold_left (fun acc c => acc * 16 + nibble_of c)
      ((fun j => nibble_char (Z.land (Z.shiftr i ((Z.of_nat n - 1 - j) * 4)) 0xF)) <$> seqZ 0 (Z.of_nat k)) 0 =
    Z.shiftr i ((Z.of_nat n - Z.of_nat k) * 4)).
  { induction k as [|k IH]; intros Hk.
    - cbn [fold_left seqZ fmap list_fmap Z.of_nat Z.to_nat seq]. rewrite Z.sub_0_r, Z.shiftr_div_pow2 by lia.
      replace (2 ^ (Z.of_nat n * 4)) with (16 ^ Z.of_nat n) by (rewrite Z.mul_comm, Z.pow_mul_r by lia; done).
      symmetry. by apply Z.div_small.
    - rewrite seqZ_S, fmap_app, fold_left_app, IH by lia. cbn [fmap list_fmap fold_left].
      change 0xF with (Z.ones 4). rewrite Z.land_ones by lia. change (2 ^ 4) with 16. rewrite nibble_roundtrip by (apply Z.mod_pos_bound; lia).
      replace ((Z.of_nat n - Z.of_nat k) * 4) with ((Z.of_nat n - 1 - (0 + Z.of_nat k)) * 4 + 4) by lia.
      replace (Z.of_nat n - Z.of_nat (S k)) with (Z.of_nat n - 1 - (0 + Z.of_nat k)) by lia.
      set (sh := (Z.of_nat n - 1 - (0 + Z.of_nat k)) * 4). rewrite <- Z.shiftr_shiftr by lia.
      rewrite (Z.shiftr_div_pow2 _ 4) by lia. change (2 ^ 4) with 16. pose proof (Z.div_mod (Z.shiftr i sh) 16). lia. }
  etrans; [exact (H n ltac:(lia))|]. rewrite Z.sub_diag. apply Z.shiftr_0_r.
Qed.

(** The divisor latch is loaded with the low byte twice, so at the 9600 baud
    the kernel asks for (divisor 12) it holds 3084. *)
Lemma divisor_latch com_port baud echo :
  exists rest, (serial_initialize com_port baud echo).2 =
    [Out (com_port + 1) 0x00; Out (com_port + 3) 0x80;
     Out com_port (BASE_SERIAL_SPEED / baud mod 256); Out (com_port + 1) (BASE_SERIAL_SPEED / baud mod 256)] ++ rest.
Proof. unfold serial_initialize. destruct (negb (echo =? 0xAE)); by eexists. Qed.

End Serial.
