(* ===== verification/Console.v ===== *)
(** * Interactive console

    Models core/console.c, built with the console: the line editor fed by the
    keyboard and the serial port, and the commands it runs. While a framebuffer is
    available the loop reads its input and waits for escape only. The figures the
    commands print are read from the components through [figures]; what the console
    does to the terminal, the serial port and the PCI bus is the sequence of its
    calls, [effect]. *)

From S2P Require Import Prelude Cpu Apic InputRing Keyboard Terminal.
From stdpp Require Import strings.
From Stdlib Require Import Ascii.
Import Keyboard.Ps2 Terminal.Tty.
#[local] Open Scope Z_scope.

(** The bytes of a literal. *)
Fixpoint text (s : String.string) : list Z :=
  match s with String.EmptyString => [] | String.String c s => Z.of_nat (nat_of_ascii c) :: text s end.

Definition KERNEL_CONSOLE_COMMANDS : list (list Z) :=
  [text "help"; text "stats"; text "ap"; text "kbd"; text "pci"; text "layout"; text "layout us"; text "layout fr"; text "exit"].

Definition KERNEL_CONSOLE_COMMAND_MAX : Z := 63.
Definition KEY_ECHAP : Z := 27.

(** Two C strings, without their terminators. *)
Fixpoint kernel_string_equals (lhs rhs : list Z) : bool :=
  match lhs, rhs with
  | l :: lhs, r :: rhs => if negb (l =? r) then false else kernel_string_equals lhs rhs
  | [], [] => true
  | _, _ => false
  end.

Definition kernel_console_layout_name (d : keyboard) : list Z :=
  match personal_system_2_active_layout d with
  | PERSONAL_SYSTEM_2_KEYBOARD_LAYOUT_FRENCH_AZERTY => text "fr (AZERTY)"
  | PERSONAL_SYSTEM_2_KEYBOARD_LAYOUT_UNITED_STATES_QWERTY => text "us (QWERTY)"
  end.

(** The calls of the console, in order. *)
Inductive effect :=
  | Putchar (c : Z)
  | Screen (l : list Z)
  | Number (n : Z)
  | SerialLine (l : list Z)
  | PciScan
  | PciReport.

Record figures := mkFigures {
  heap_strategy_name : list Z; free_page_count : Z;
  discovered_cpu_count : Z; online_cpu_count : Z; reported_online_count : Z;
  startup_attempt_count : Z; startup_success_count : Z; ack_success_count : Z; ack_timeout_count : Z;
  keyboard_irqs : Z; keyboard_printables : Z; keyboard_pending : Z; keyboard_dropped : Z;
  pci_device_count : Z }.

Definition help_line (index : nat) (command : list Z) : list effect :=
  [Screen (match index with O => text " " | _ => text ", " end); Screen command].

Definition kernel_console_execute_command (f : figures) (command : list Z) (d : keyboard) : list effect * keyboard :=
  if bool_decide (command = []) then ([], d)
  else if kernel_string_equals command (text "help") then
    ([Screen (10 :: text "commands:")] ++ concat (imap help_line KERNEL_CONSOLE_COMMANDS) ++
     [Screen [10]; SerialLine (text "[Laplace Kernel]: cmd help" ++ [10])], d)
  else if kernel_string_equals command (text "stats") then
    ([Screen (10 :: text "[stats] heap strategy="); Screen (heap_strategy_name f);
      Screen (text ", pmm free pages="); Number (free_page_count f); Screen [10]], d)
  else if kernel_string_equals command (text "ap") then
    ([Screen (10 :: text "[ap] discovered="); Number (discovered_cpu_count f); Screen (text ", online="); Number (online_cpu_count f);
      Screen (text ", reported="); Number (reported_online_count f); Screen (text ", startup_attempts=");
      Number (startup_attempt_count f); Screen (text ", startup_success="); Number (startup_success_count f);
      Screen (text ", tramp_ack_ok="); Number (ack_success_count f); Screen (text ", tramp_ack_to="); Number (ack_timeout_count f);
      Screen [10]], d)
  else if kernel_string_equals command (text "kbd") then
    ([Screen (10 :: text "[kbd] irq="); Number (keyboard_irqs f); Screen (text ", printable="); Number (keyboard_printables f);
      Screen (text ", pending="); Number (keyboard_pending f); Screen (text ", dropped="); Number (keyboard_dropped f);
      Screen [10]], d)
  else if kernel_string_equals command (text "pci") then
    ([PciScan; Screen (10 :: text "[pci] "); Number (pci_device_count f); Screen (text " device(s) (full list on serial)" ++ [10]);
      PciReport], d)
  else if kernel_string_equals command (text "layout") then
    ([Screen (10 :: text "[layout] current="); Screen (kernel_console_layout_name d);
      Screen (text " (use: layout us | layout fr)" ++ [10])], d)
  else if kernel_string_equals command (text "layout us") then
    ([Screen (10 :: text "[layout] switched to us (QWERTY)" ++ [10])],
     personal_system_2_keyboard_set_layout PERSONAL_SYSTEM_2_KEYBOARD_LAYOUT_UNITED_STATES_QWERTY d)
  else if kernel_string_equals command (text "layout fr") then
    ([Screen (10 :: text "[layout] switched to fr (AZERTY)" ++ [10])],
     personal_system_2_keyboard_set_layout PERSONAL_SYSTEM_2_KEYBOARD_LAYOUT_FRENCH_AZERTY d)
  else if kernel_string_equals command (text "exit") then ([], d)
  else ([Screen (10 :: text "unknown command: "); Screen command; Screen [10]], d).

(** ** The loop *)

(** One look at the inputs: what the keyboard and then the serial port have, and
    the figures of the moment. *)
Record poll := mkPoll { key_char : option Z; serial_char : option Z; seen : figures }.

Definition incoming (p : poll) : Z :=
  match key_char p with Some c => u8 c | None => match serial_char p with Some c => c | None => 0 end end.

Record console := mkConsole {
  command_buffer : zmap;
  command_length : Z;
  done_ : bool;
  layout : keyboard;
  effects : list effect }.

(** The C string at the start of the buffer of 64 bytes. *)
Fixpoint c_string (b : zmap) (i : Z) (n : nat) : list Z :=
  match n with
  | O => []
  | S n => if zget b i =? 0 then [] else zget b i :: c_string b (i + 1) n
  end.

Definition kernel_console_print_prompt : effect := Screen (10 :: text "> ").

(** [framebuffer] is the answer of [framebuffer_available]. *)
Definition begin_loop (framebuffer : bool) (d : keyboard) : console :=
  mkConsole ∅ 0 false d (if negb framebuffer then [kernel_console_print_prompt] else []).

(** One turn of the loop; [None] is a store outside the buffer. *)
Definition turn (framebuffer : bool) (p : poll) (s : console) : option console :=
  let c := incoming p in
  if done_ s then Some s
  else if c =? 0 then Some s
  else if c =? KEY_ECHAP then Some (mkConsole (command_buffer s) (command_length s) true (layout s) (effects s))
  else if framebuffer then Some s
  else if (c =? 13) || (c =? 10) then
    if 64 <=? command_length s then None
    else
      let b := <[command_length s := 0]> (command_buffer s) in
      let out := effects s ++ [Putchar 10] in
      if 0 <? command_length s then
        let command := c_string b 0 64 in
        let '(es, d) := kernel_console_execute_command (seen p) command (layout s) in
        if kernel_string_equals command (text "exit")
        then Some (mkConsole b (command_length s) true d (out ++ es))
        else Some (mkConsole (<[0 := 0]> b) 0 false d (out ++ es ++ [kernel_console_print_prompt]))
      else Some (mkConsole (<[0 := 0]> b) 0 false (layout s) (out ++ [kernel_console_print_prompt]))
  else if (c =? 8) || (c =? 127) then
    if 0 <? command_length s then
      let length := command_length s - 1 in
      Some (mkConsole (<[length := 0]> (command_buffer s)) length false (layout s) (effects s ++ [Putchar 8]))
    else Some s
  else if (32 <=? c) && (c <=? 126) then
    if command_length s <? KERNEL_CONSOLE_COMMAND_MAX then
      Some (mkConsole (<[command_length s := c]> (command_buffer s)) (command_length s + 1) false (layout s) (effects s ++ [Putchar c]))
    else Some s
  else Some s.

Fixpoint kernel_console_run_interactive_loop (framebuffer : bool) (polls : list poll) (s : console) : option console :=
  match polls with
  | [] => Some s
  | p :: polls => s ← turn framebuffer p s; kernel_console_run_interactive_loop framebuffer polls s
  end.

(** What an effect does to the screen; a count is converted to [long]. *)
Definition render (e : effect) (t : tty) : option tty :=
  match e with
  | Putchar c => Some (terminal_putchar c t)
  | Screen l => Some (terminal_write_string l t)
  | Number n => terminal_write_number (if n <? 2 ^ 31 then n else n - 2 ^ 32) 10 t
  | SerialLine _ | PciScan | PciReport => Some t
  end.

Fixpoint render_all (es : list effect) (t : tty) : option tty :=
  match es with [] => Some t | e :: es => t ← render e t; render_all es t end.

(** ** What a session looks like

    The line being edited, the characters that reached the terminal, the calls
    to the serial port and the PCI bus, the layout, and whether the session is over. *)

Record session := mkSession {
  line : list Z; shown : list Z; calls : list effect; active : PersonalSystem2KeyboardLayout; closed : bool }.

(** A number below [10 ^ k] in decimal. *)
Fixpoint decimal_upto (k : nat) (n : Z) : list Z :=
  match k with
  | O => []
  | S k => if n <? 10 then [48 + n] else decimal_upto k (n / 10) ++ [48 + n mod 10]
  end.
Definition decimal (n : Z) : list Z := decimal_upto 10 n.

Definition layout_text (l : PersonalSystem2KeyboardLayout) : list Z :=
  match l with
  | PERSONAL_SYSTEM_2_KEYBOARD_LAYOUT_FRENCH_AZERTY => text "fr (AZERTY)"
  | PERSONAL_SYSTEM_2_KEYBOARD_LAYOUT_UNITED_STATES_QWERTY => text "us (QWERTY)"
  end.

(** The reply to a command, between line feeds. *)
Definition reply (f : figures) (l : PersonalSystem2KeyboardLayout) (command : list Z) : list Z :=
  if bool_decide (command = text "help") then text "commands: help, stats, ap, kbd, pci, layout, layout us, layout fr, exit"
  else if bool_decide (command = text "stats") then
    text "[stats] heap strategy=" ++ heap_strategy_name f ++ text ", pmm free pages=" ++ decimal (free_page_count f)
  else if bool_decide (command = text "ap") then
    text "[ap] discovered=" ++ decimal (discovered_cpu_count f) ++ text ", online=" ++ decimal (online_cpu_count f) ++
    text ", reported=" ++ decimal (reported_online_count f) ++ text ", startup_attempts=" ++ decimal (startup_attempt_count f) ++
    text ", startup_success=" ++ decimal (startup_success_count f) ++ text ", tramp_ack_ok=" ++ decimal (ack_success_count f) ++
    text ", tramp_ack_to=" ++ decimal (ack_timeout_count f)
  else if bool_decide (command = text "kbd") then
    text "[kbd] irq=" ++ decimal (keyboard_irqs f) ++ text ", printable=" ++ decimal (keyboard_printables f) ++
    text ", pending=" ++ decimal (keyboard_pending f) ++ text ", dropped=" ++ decimal (keyboard_dropped f)
  else if bool_decide (command = text "pci") then text "[pci] " ++ decimal (pci_device_count f) ++ text " device(s) (full list on serial)"
  else if bool_decide (command = text "layout") then text "[layout] current=" ++ layout_text l ++ text " (use: layout us | layout fr)"
  else if bool_decide (command = text "layout us") then text "[layout] switched to us (QWERTY)"
  else if bool_decide (command = text "layout fr") then text "[layout] switched to fr (AZERTY)"
  else text "unknown command: " ++ command.

Definition new_layout (command : list Z) (l : PersonalSystem2KeyboardLayout) : PersonalSystem2KeyboardLayout :=
  if bool_decide (command = text "layout us") then PERSONAL_SYSTEM_2_KEYBOARD_LAYOUT_UNITED_STATES_QWERTY
  else if bool_decide (command = text "layout fr") then PERSONAL_SYSTEM_2_KEYBOARD_LAYOUT_FRENCH_AZERTY
  else l.

Definition other_calls (command : list Z) : list effect :=
  if bool_decide (command = text "help") then [SerialLine (text "[Laplace Kernel]: cmd help" ++ [10])]
  else if bool_decide (command = text "pci") then [PciScan; PciReport]
  else [].

Definition prompt : list Z := 10 :: text "> ".

(** A line is entered. *)
Definition enter (f : figures) (e : session) : session :=
  if bool_decide (line e = []) then mkSession [] (shown e ++ [10] ++ prompt) (calls e) (active e) false
  else if bool_decide (line e = text "exit") then mkSession (line e) (shown e ++ [10]) (calls e) (active e) true
  else mkSession [] (shown e ++ [10] ++ [10] ++ reply f (active e) (line e) ++ [10] ++ prompt)
         (calls e ++ other_calls (line e)) (new_layout (line e) (active e)) false.

(** Escape ends the session; with a framebuffer nothing else has an effect. *)
Definition react (framebuffer : bool) (p : poll) (e : session) : session :=
  let c := incoming p in
  if closed e then e
  else if c =? 27 then mkSession (line e) (shown e) (calls e) (active e) true
  else if framebuffer then e
  else if (c =? 13) || (c =? 10) then enter (seen p) e
  else if (c =? 8) || (c =? 127) then
    if bool_decide (line e = []) then e else mkSession (removelast (line e)) (shown e ++ [8]) (calls e) (active e) false
  else if (32 <=? c) && (c <=? 126) && (length (line e) <? 63)%nat then mkSession (line e ++ [c]) (shown e ++ [c]) (calls e) (active e) false
  else e.

Definition opened (framebuffer : bool) (d : keyboard) : session :=
  mkSession [] (if framebuffer then [] else prompt) [] (personal_system_2_active_layout d) false.

(** The counts print as they are below [2 ^ 31]. *)
Definition printable (f : figures) : Prop :=
  Forall (fun c => c <> 0) (heap_strategy_name f) /\
  Forall (fun n => 0 <= n < 2 ^ 31) [free_page_count f; discovered_cpu_count f; online_cpu_count f; reported_online_count f;
    startup_attempt_count f; startup_success_count f; ack_success_count f; ack_timeout_count f;
    keyboard_irqs f; keyboard_printables f; keyboard_pending f; keyboard_dropped f; pci_device_count f].

(** ** The calls of the console on the terminal *)

(** The characters that effects write. *)
Definition written (e : effect) : list Z :=
  match e with Putchar c => [c] | Screen l => l | Number n => decimal n | _ => [] end.

Definition plain (e : effect) : Prop :=
  match e with Screen l => Forall (fun c => c <> 0) l | Number n => 0 <= n < 2 ^ 31 | _ => True end.

Definition elsewhere (e : effect) : bool := match e with SerialLine _ | PciScan | PciReport => true | _ => false end.

Lemma puts_app l l' t : puts (l ++ l') t = puts l' (puts l t).
Proof. unfold puts. by rewrite fold_left_app. Qed.

Lemma write_string_puts l : Forall (fun c => c <> 0) l -> forall t, terminal_write_string l t = puts l t.
Proof. induction 1 as [|c l Hc _ IH]; intros t; [done|]. cbn [terminal_write_string]. rewrite (proj2 (Z.eqb_neq c 0) Hc). apply IH. Qed.

(** The digits of the terminal are those of the decimal number. *)
Lemma digits_decimal k : forall K n, (k <= K)%nat -> 0 < n < 10 ^ Z.of_nat k ->
  reverse ((fun d => nth (Z.to_nat d) hexadecimal 0) <$> digits K n 10) = decimal_upto k n.
Proof.
  assert (Hd : forall d, 0 <= d < 10 -> nth (Z.to_nat d) hexadecimal 0 = 48 + d).
  { intros d Hd. assert (d = 0 \/ d = 1 \/ d = 2 \/ d = 3 \/ d = 4 \/ d = 5 \/ d = 6 \/ d = 7 \/ d = 8 \/ d = 9) as Hc by lia.
    repeat (destruct Hc as [->|Hc]; [reflexivity|]). by subst. }
  induction k as [|k IH]; intros [|K] n HK Hn; [cbn in Hn; lia|cbn in Hn; lia|lia|]. cbn [digits decimal_upto].
  rewrite (proj2 (Z.ltb_lt 0 n)) by lia. cbn [fmap list_fmap]. rewrite reverse_cons.
  pose proof (Z.mod_pos_bound n 10 ltac:(lia)). rewrite Hd by lia. rewrite Nat2Z.inj_succ, Z.pow_succ_r in Hn by lia.
  destruct (Z.ltb_spec n 10).
  - rewrite Z.div_small, Z.mod_small by lia. destruct K; cbn [digits]; reflexivity.
  - rewrite (IH K); [done|lia|]. split; [apply Z.div_str_pos; lia|apply Z.div_lt_upper_bound; lia].
Qed.

Lemma number_decimal n t : 0 <= n < 2 ^ 31 -> render (Number n) t = Some (puts (decimal n) t).
Proof.
  intros Hn. cbn [render]. rewrite (proj2 (Z.ltb_lt n (2 ^ 31))) by lia. unfold terminal_write_number. cbn [Z.ltb Z.compare orb Pos.compare Pos.compare_cont].
  rewrite (proj2 (Z.eqb_neq n (- 2 ^ 31))), (proj2 (Z.ltb_ge n 0)) by lia. destruct (Z.eqb_spec n 0) as [->|]; [done|].
  unfold decimal. by rewrite (digits_decimal 10) by lia.
Qed.

Lemma render_written es : Forall plain es -> forall t, render_all es t = Some (puts (concat (written <$> es)) t).
Proof.
  induction 1 as [|e es He _ IH]; intros t; [done|]. cbn [render_all fmap list_fmap concat]. rewrite puts_app.
  assert (render e t = Some (puts (written e) t)) as ->; [|apply IH].
  destruct e; cbn [plain written] in *; [done|cbn; by rewrite write_string_puts|by apply number_decimal|done..].
Qed.

Lemma equals_spec l r : kernel_string_equals l r = bool_decide (l = r).
Proof.
  revert r. induction l as [|x l IH]; intros [|y r]; cbn; try (by rewrite ?bool_decide_eq_true_2); try (by rewrite bool_decide_eq_false_2).
  destruct (Z.eqb_spec x y) as [->|]; cbn [negb].
  - rewrite IH. apply bool_decide_ext. split; [by intros ->|by intros [= ->]].
  - symmetry. apply bool_decide_eq_false_2. by intros [= -> _].
Qed.

Lemma c_string_line l : forall b i n, (length l < n)%nat -> Forall (fun c => 32 <= c <= 126) l ->
  (forall k c, l !! k = Some c -> zget b (i + Z.of_nat k) = c) -> zget b (i + Z.of_nat (length l)) = 0 -> c_string b i n = l.
Proof.
  induction l as [|x l IH]; intros b i n Hn Hc Hl H0; (destruct n as [|n]; [cbn in Hn; lia|]); cbn [c_string].
  - rewrite Z.add_0_r in H0. by rewrite H0.
  - apply Forall_cons in Hc as [Hx Hc]. pose proof (Hl 0%nat x eq_refl) as H1. rewrite Z.add_0_r in H1.
    rewrite H1, (proj2 (Z.eqb_neq x 0)) by lia. f_equal. apply IH; [cbn in Hn; lia|done| |].
    + intros k c Hk. rewrite <- (Hl (S k) c Hk). f_equal. lia.
    + rewrite <- H0. f_equal. cbn [length]. lia.
Qed.

(** Effects that write [out] on the terminal and make the other calls [others]. *)
Record performs (es : list effect) (out : list Z) (others : list effect) : Prop := {
  pf_plain : Forall plain es;
  pf_written : concat (written <$> es) = out;
  pf_elsewhere : List.filter elsewhere es = others }.

Lemma performs_app es es' out out' others others' : performs es out others -> performs es' out' others' -> performs (es ++ es') (out ++ out') (others ++ others').
Proof.
  intros [H1 <- <-] [H2 <- <-]. split; [by apply Forall_app|by rewrite fmap_app, concat_app|by rewrite List.filter_app].
Qed.

Lemma closed_plain l : forallb (fun c => negb (c =? 0)) l = true -> Forall (fun c => c <> 0) l.
Proof. intros H. rewrite forallb_forall in H. apply Forall_forall. intros c Hc%list_elem_of_In%H. by destruct (Z.eqb_spec c 0). Qed.

Ltac plain_effects := repeat match goal with |- Forall plain (_ :: _) => apply Forall_cons; split end; try (apply Forall_nil; exact I); try exact I; try (apply closed_plain; reflexivity); try assumption.

Ltac literal_tests :=
  repeat match goal with |- context [bool_decide (text ?a = text ?b)] =>
    let r := eval vm_compute in (bool_decide (text a = text b)) in change (bool_decide (text a = text b)) with r end; cbv iota.

Ltac join_text := cbn -[decimal]; repeat (rewrite <- app_assoc; cbn -[decimal]); rewrite ?app_nil_r; reflexivity.

Lemma execute_performs f command d es d' :
  command <> [] -> command <> text "exit" -> Forall (fun c => 32 <= c <= 126) command -> printable f ->
  kernel_console_execute_command f command d = (es, d') ->
  performs es ([10] ++ reply f (personal_system_2_active_layout d) command ++ [10]) (other_calls command) /\
  personal_system_2_active_layout d' = new_layout command (personal_system_2_active_layout d).
Proof.
  intros Hne Hexit Hch [Hname Hnum]. assert (Hcp : Forall (fun c => c <> 0) command) by (eapply Forall_impl; [exact Hch|]; cbn; lia).
  rewrite !Forall_cons in Hnum. destruct Hnum as (N1 & N2 & N3 & N4 & N5 & N6 & N7 & N8 & N9 & N10 & N11 & N12 & N13 & _).
  unfold kernel_console_execute_command, reply, other_calls, new_layout. rewrite (bool_decide_eq_false_2 (command = [])) by done. rewrite !equals_spec.
  rewrite (bool_decide_eq_false_2 (command = text "exit")) by done. clear Hexit.
  destruct (decide (command = text "help")) as [->|H1]; [literal_tests; intros [= <- <-]; split; [split; [cbn [imap concat app help_line KERNEL_CONSOLE_COMMANDS]; plain_effects|vm_compute; reflexivity|reflexivity]|reflexivity]|].
  rewrite (bool_decide_eq_false_2 (command = text "help")) by done.
  destruct (decide (command = text "stats")) as [->|H2]; [literal_tests; intros [= <- <-]; split; [split; [plain_effects|join_text|reflexivity]|reflexivity]|].
  rewrite (bool_decide_eq_false_2 (command = text "stats")) by done.
  destruct (decide (command = text "ap")) as [->|H3]; [literal_tests; intros [= <- <-]; split; [split; [plain_effects|join_text|reflexivity]|reflexivity]|].
  rewrite (bool_decide_eq_false_2 (command = text "ap")) by done.
  destruct (decide (command = text "kbd")) as [->|H4]; [literal_tests; intros [= <- <-]; split; [split; [plain_effects|join_text|reflexivity]|reflexivity]|].
  rewrite (bool_decide_eq_false_2 (command = text "kbd")) by done.
  destruct (decide (command = text "pci")) as [->|H5]; [literal_tests; intros [= <- <-]; split; [split; [plain_effects|join_text|reflexivity]|reflexivity]|].
  rewrite (bool_decide_eq_false_2 (command = text "pci")) by done.
  destruct (decide (command = text "layout")) as [->|H6];
    [literal_tests; intros [= <- <-]; unfold kernel_console_layout_name; destruct (personal_system_2_active_layout d); (split; [split; [plain_effects|vm_compute; reflexivity|reflexivity]|reflexivity])|].
  rewrite (bool_decide_eq_false_2 (command = text "layout")) by done.
  destruct (decide (command = text "layout us")) as [->|H7]; [literal_tests; intros [= <- <-]; split; [split; [plain_effects|vm_compute; reflexivity|reflexivity]|reflexivity]|].
  rewrite (bool_decide_eq_false_2 (command = text "layout us")) by done.
  destruct (decide (command = text "layout fr")) as [->|H8]; [literal_tests; intros [= <- <-]; split; [split; [plain_effects|vm_compute; reflexivity|reflexivity]|reflexivity]|].
  rewrite (bool_decide_eq_false_2 (command = text "layout fr")) by done.
  intros [= <- <-]. split; [split; [plain_effects|join_text|reflexivity]|reflexivity].
Qed.

(** ** The session is the one described *)

(** The buffer holds the line, which fits, unless the loop has ended. *)
Record follows (s : console) (e : session) : Prop := {
  fo_length : closed e = false -> command_length s = Z.of_nat (length (line e));
  fo_bound : (length (line e) <= 63)%nat;
  fo_chars : Forall (fun c => 32 <= c <= 126) (line e);
  fo_buffer i c : closed e = false -> line e !! i = Some c -> zget (command_buffer s) (Z.of_nat i) = c;
  fo_done : done_ s = closed e;
  fo_layout : personal_system_2_active_layout (layout s) = active e;
  fo_effects : performs (effects s) (shown e) (calls e) }.

Lemma performs_char es out others c : performs es out others -> performs (es ++ [Putchar c]) (out ++ [c]) others.
Proof. intros H. rewrite <- (app_nil_r others). apply performs_app; [done|]. split; [by repeat constructor|done|done]. Qed.

Lemma performs_prompt es out others : performs es out others -> performs (es ++ [kernel_console_print_prompt]) (out ++ prompt) others.
Proof. intros H. rewrite <- (app_nil_r others). apply performs_app; [done|]. split; [plain_effects|done|done]. Qed.

Lemma opened_follows fb d : follows (begin_loop fb d) (opened fb d).
Proof.
  destruct fb; split; cbn; try done; try lia; (split; [plain_effects|done|done]).
Qed.

(** The line as the string in the buffer. *)
Lemma buffer_line s e : follows s e -> closed e = false -> c_string (<[command_length s := 0]> (command_buffer s)) 0 64 = line e.
Proof.
  intros [Hlen Hb Hch Hbuf _ _ _] Hc. specialize (Hlen Hc). apply c_string_line; [lia|done| |by rewrite Z.add_0_l, Hlen, zget_insert_eq].
  intros k y Hk. rewrite Z.add_0_l, zget_insert_ne; [by apply Hbuf|]. apply lookup_lt_Some in Hk. lia.
Qed.

(** The turn of an end of line. *)
Lemma turn_enter p s e : follows s e -> closed e = false -> incoming p = 13 \/ incoming p = 10 -> printable (seen p) ->
  exists s', turn false p s = Some s' /\ follows s' (enter (seen p) e).
Proof.
  intros Hs Hc Hin Hf. pose proof Hs as [Hlen Hb Hch Hbuf Hd Hlay Heff]. specialize (Hlen Hc). pose proof (buffer_line s e Hs Hc) as Hline.
  unfold turn. rewrite Hd, Hc. cbv zeta. assert (((incoming p =? 13) || (incoming p =? 10)) = true) as -> by (apply orb_true_iff; rewrite !Z.eqb_eq; lia).
  rewrite (proj2 (Z.eqb_neq (incoming p) 0)), (proj2 (Z.eqb_neq (incoming p) KEY_ECHAP)) by (unfold KEY_ECHAP; lia).
  rewrite (proj2 (Z.leb_gt 64 _)) by lia. rewrite Hline. unfold enter.
  destruct (bool_decide_reflect (line e = [])) as [E|E].
  { rewrite Hlen, E. cbn [length Z.of_nat Z.ltb Z.compare]. eexists. split; [done|]. rewrite app_assoc. split; cbn; try done; [lia|].
    apply performs_prompt, performs_char, Heff. }
  assert (0 <? command_length s = true) as -> by (apply Z.ltb_lt; rewrite Hlen; destruct (line e); [done|cbn; lia]).
  rewrite equals_spec. destruct (kernel_console_execute_command (seen p) (line e) (layout s)) as [es d'] eqn:Ex.
  destruct (bool_decide_reflect (line e = text "exit")) as [Ee|Ee].
  - rewrite Ee in Ex. vm_compute in Ex. injection Ex as <- <-. eexists. split; [done|]. rewrite app_nil_r. split; cbn; try done. by apply performs_char.
  - destruct (execute_performs (seen p) (line e) (layout s) es d' E Ee Hch Hf Ex) as [Hp Hl]. eexists. split; [done|]. rewrite Hlay in *.
    split; cbn [closed line command_length command_buffer done_ layout effects active shown calls]; try done; [cbn; lia|].
    replace (shown e ++ [10] ++ [10] ++ reply (seen p) (active e) (line e) ++ [10] ++ prompt)
      with (((shown e ++ [10]) ++ ([10] ++ reply (seen p) (active e) (line e) ++ [10])) ++ prompt) by (rewrite <- !app_assoc; done).
    rewrite app_assoc. apply performs_prompt, performs_app; [by apply performs_char|done].
Qed.

Lemma turn_react fb p s e : follows s e -> printable (seen p) -> exists s', turn fb p s = Some s' /\ follows s' (react fb p e).
Proof.
  intros Hs Hf. pose proof Hs as [Hlen Hb Hch Hbuf Hd Hlay Heff]. unfold react. destruct (closed e) eqn:Ec.
  { exists s. unfold turn. by rewrite Hd. }
  destruct ((incoming p =? 13) || (incoming p =? 10)) eqn:E1.
  { apply orb_true_iff in E1. rewrite !Z.eqb_eq in E1. rewrite (proj2 (Z.eqb_neq (incoming p) 27)) by lia. destruct fb; [|by apply turn_enter].
    exists s. split; [|done]. unfold turn, KEY_ECHAP. rewrite Hd, (proj2 (Z.eqb_neq (incoming p) 0)), (proj2 (Z.eqb_neq (incoming p) 27)) by lia. done. }
  specialize (Hlen eq_refl). unfold turn. rewrite Hd, E1. cbv zeta. unfold KEY_ECHAP.
  destruct (Z.eqb_spec (incoming p) 0) as [->|E0]; [exists s; split; [done|by destruct fb]|].
  destruct (incoming p =? 27). { eexists. split; [done|]. split; cbn; done. }
  destruct fb; [by exists s|]. destruct ((incoming p =? 8) || (incoming p =? 127)).
  - destruct (bool_decide_reflect (line e = [])) as [E|E].
    + rewrite Hlen, E. cbn. by exists s.
    + assert (Hl0 : (0 < length (line e))%nat) by (destruct (line e); [done|cbn; lia]).
      rewrite (proj2 (Z.ltb_lt 0 _)) by lia. eexists. split; [done|]. rewrite removelast_firstn_len.
      split; cbn [closed line command_length command_buffer done_ layout effects active shown calls]; try done.
      * intros _. rewrite Hlen, length_take. lia.
      * rewrite length_take. lia.
      * by apply Forall_take.
      * intros i y _ Hy. apply lookup_take_Some in Hy as [Hy Hi]. rewrite Hlen, zget_insert_ne by lia. by apply Hbuf.
      * by apply performs_char.
  - destruct ((32 <=? incoming p) && (incoming p <=? 126)) eqn:E2; cbn [andb]; [|by exists s].
    apply andb_true_iff in E2 as [H1%Z.leb_le H2%Z.leb_le]. unfold KERNEL_CONSOLE_COMMAND_MAX.
    destruct (Z.ltb_spec (command_length s) 63); destruct (Nat.ltb_spec (length (line e)) 63); try lia; [|by exists s].
    eexists. split; [done|]. split; cbn [closed line command_length command_buffer done_ layout effects active shown calls]; try done.
    + intros _. rewrite Hlen, length_app. cbn. lia.
    + rewrite length_app. cbn. lia.
    + apply Forall_app. by repeat constructor.
    + intros i y _ Hy. rewrite Hlen. destruct (decide (i = length (line e))) as [->|].
      * rewrite zget_insert_eq. rewrite lookup_app_r, Nat.sub_diag in Hy by lia. by injection Hy.
      * rewrite zget_insert_ne by lia. apply Hbuf; [done|]. rewrite lookup_app_l in Hy; [done|].
        apply lookup_lt_Some in Hy. rewrite length_app in Hy. cbn in Hy. lia.
    + by apply performs_char.
Qed.

(** C22: The console holds the session described, whatever characters arrive from
    the keyboard and the serial port: no store leaves the command buffer; the terminal
    receives the prompts, the echo of the characters and rubouts, of which a line keeps
    63, and the reply of every line that is entered, with the figures of the moment,
    which are below [2 ^ 31], in decimal; the serial port and the PCI bus are used by
    [help] and [pci] alone; the layout is that of the last layout command; and [exit] or
    escape ends the session. While a framebuffer is available nothing is shown or
    run, and only escape has an effect. *)
Theorem console_session_exact fb polls d t :
  Forall (fun p => printable (seen p)) polls ->
  let e := fold_left (fun e p => react fb p e) polls (opened fb d) in
  exists s, kernel_console_run_interactive_loop fb polls (begin_loop fb d) = Some s /\
    render_all (effects s) t = Some (puts (shown e) t) /\ List.filter elsewhere (effects s) = calls e /\
    personal_system_2_active_layout (layout s) = active e /\ done_ s = closed e.
Proof.
  intros Hp. cbv zeta.
  assert (H : forall polls s e, Forall (fun p => printable (seen p)) polls -> follows s e ->
    exists s', kernel_console_run_interactive_loop fb polls s = Some s' /\ follows s' (fold_left (fun e p => react fb p e) polls e)).
  { clear. induction polls as [|p polls IH]; intros s e Hp Hs; cbn; [by exists s|]. inversion_clear Hp as [|? ? Hf Hp'].
    destruct (turn_react fb p s e Hs Hf) as (s1 & -> & Hs1). cbn. by apply IH. }
  destruct (H polls (begin_loop fb d) (opened fb d) Hp (opened_follows fb d)) as (s & H1 & [_ _ _ _ Hd Hl [Hpl <- <-]]).
  exists s. split; [done|]. split; [by apply render_written|done].
Qed.

(** A session of three lines. *)
Definition example_figures : figures := mkFigures (text "tlsf") 1200 4 4 3 3 3 3 0 17 12 0 0 5.
Definition typed (l : list Z) : list poll := (fun c => mkPoll (Some c) None example_figures) <$> l.
Definition example_keys : list Z := text "layout fr" ++ [13] ++ text "stat" ++ [8; 116] ++ text "s" ++ [13] ++ text "exit" ++ [10].

Lemma console_session_exact_witness :
  let t := mk 0 0 15 ∅ in
  exists s, kernel_console_run_interactive_loop false (typed example_keys) (begin_loop false Ps2.boot) = Some s /\
    render_all (effects s) t = Some (puts (prompt ++ text "layout fr" ++ [10; 10] ++ text "[layout] switched to fr (AZERTY)" ++ [10] ++
      prompt ++ text "stat" ++ [8] ++ text "ts" ++ [10; 10] ++ text "[stats] heap strategy=tlsf, pmm free pages=1200" ++ [10] ++ prompt ++ text "exit" ++ [10]) t) /\
    List.filter elsewhere (effects s) = [] /\ personal_system_2_active_layout (layout s) = PERSONAL_SYSTEM_2_KEYBOARD_LAYOUT_FRENCH_AZERTY /\ done_ s = true.
Proof.
  apply (console_session_exact false (typed example_keys) Ps2.boot (mk 0 0 15 ∅)).
  apply Forall_fmap, Forall_forall. intros c _. split; [apply closed_plain; reflexivity|]. repeat (apply Forall_cons; split; [cbn; lia|]). by apply Forall_nil.
Defined.

(** A rubout takes the character out of the command but leaves it on the
    screen: the backspace it echoes is not a character the terminal handles. *)
Lemma rubout_not_shown p s t :
  done_ s = false -> (incoming p = 8 \/ incoming p = 127) -> 0 < command_length s ->
  exists s', turn false p s = Some s' /\ command_length s' = command_length s - 1 /\
    effects s' = effects s ++ [Putchar 8] /\ render (Putchar 8) t = Some t.
Proof.
  intros Hd Hc Hl. unfold turn. rewrite Hd. destruct Hc as [-> | ->]; cbn -[render]; rewrite (proj2 (Z.ltb_lt _ _)) by done; by eexists.
Qed.
