(* ===== verification/Integrity.v ===== *)
(** * What the kernel declared and what it does

    Models memory/section_protection.c, memory/backpressure.c and
    core/reconciler.c: the read-only pages of the kernel image, the registry
    of queues with the cost of a loss, and the pass that compares the counters
    of the system with its declaration. *)

From S2P Require Import Prelude Cpu Pmm BuddyProofs BuddySpec FrameAlloc Paging PagingProofs.

(** ** Section protection *)

Module Section_.

Definition SECTION_PROTECTION_PAGE_SIZE_BYTES : Z := 4096.
Definition SECTION_PROTECTION_FAULT_PROTECTION_VIOLATION : Z := 0x1.
Definition SECTION_PROTECTION_FAULT_WRITE_ACCESS : Z := 0x2.
Definition WRITE_PROTECT_BIT : Z := 0x00010000.

Record section := mk {
  section_protection_active : bool;
  section_protection_read_only_page_count : Z;
  section_protection_probe_is_armed : bool;
  section_protection_probe_target : Z;
  section_protection_probe_resume_address : Z;
  section_protection_recovered_fault_count : Z }.

Definition boot : section := mk false 0 false 0 0 0.

Definition with_pages (active : bool) (count : Z) (s : section) : section :=
  mk active count (section_protection_probe_is_armed s) (section_protection_probe_target s)
     (section_protection_probe_resume_address s) (section_protection_recovered_fault_count s).

Definition with_probe (armed : bool) (target resume faults : Z) (s : section) : section :=
  mk (section_protection_active s) (section_protection_read_only_page_count s) armed target resume faults.

Section paging.
  Context {A : Type} `{FrameAllocator A}.

(** The loop over the pages; it would not end on a range that reaches the
    last page of the address space. *)
Fixpoint protect_loop (fuel : nat) (page range_end count : Z) (all : bool) (p : paging A) : option (bool * Z * paging A) :=
  if range_end <=? page then Some (all, count, p)
  else
    match fuel with
    | O => None
    | S fuel =>
      let '(ok, p) := paging_set_page_read_only page p in
      if ok then protect_loop fuel (page ⊞ SECTION_PROTECTION_PAGE_SIZE_BYTES) range_end (count ⊞ 1) all p
      else protect_loop fuel (page ⊞ SECTION_PROTECTION_PAGE_SIZE_BYTES) range_end count false p
    end.

(** [enforced]: the build targets a processor with write protection. *)
Definition kernel_section_protection_apply (enforced : bool) (fuel : nat) (range_start range_end : Z) (s : section) (p : paging A)
    : option (bool * section * paging A) :=
  if negb enforced then Some (false, with_pages false 0 s, p)
  else if range_end <=? range_start then Some (false, with_pages false 0 s, p)
  else
    '(all, count, p) ← protect_loop fuel range_start range_end 0 true p;
    Some (all, with_pages all count s, p).

End paging.

Definition kernel_section_protection_is_active (s : section) : bool := section_protection_active s.
Definition kernel_section_protection_write_protect_is_enabled (control_register_0 : Z) : bool :=
  negb (Z.land control_register_0 WRITE_PROTECT_BIT =? 0).
Definition kernel_section_protection_get_read_only_page_count (s : section) : Z := section_protection_read_only_page_count s.

(** The page fault handler's part: [Some resume] takes the fault over. *)
Definition kernel_section_protection_handle_page_fault (err_code fault_address : Z) (s : section) : option Z * section :=
  if negb (section_protection_probe_is_armed s) then (None, s)
  else if section_protection_probe_resume_address s =? 0 then (None, s)
  else if negb (fault_address =? section_protection_probe_target s) then (None, s)
  else
    let expected_bits := Z.lor SECTION_PROTECTION_FAULT_PROTECTION_VIOLATION SECTION_PROTECTION_FAULT_WRITE_ACCESS in
    if negb (Z.land err_code expected_bits =? expected_bits) then (None, s)
    else (Some (section_protection_probe_resume_address s),
          with_probe false (section_protection_probe_target s) (section_protection_probe_resume_address s)
            (section_protection_recovered_fault_count s ⊞ 1) s).

(** The probe on a byte of memory: [resume] is the address of the label after
    the store, [writable] what the page tables say.  A store to a read-only
    page raises a fault with the error code of a protected write; [None] when
    no one takes the fault over. *)
Definition kernel_section_protection_probe_write (target resume : Z) (writable : bool) (mem : zmap) (s : section)
    : option (bool * zmap * section) :=
  if target =? 0 then Some (false, mem, s)
  else
    let before := section_protection_recovered_fault_count s in
    let original_value := zget mem target in
    let s := with_probe true target resume (section_protection_recovered_fault_count s) s in
    '(mem, s) ← (if writable then Some (<[target := 0]> mem, s)
                 else match kernel_section_protection_handle_page_fault 0x3 target s with
                      | (Some _, s) => Some (mem, s)
                      | (None, _) => None
                      end);
    let s := with_probe false 0 0 (section_protection_recovered_fault_count s) s in
    let did_fault := negb (section_protection_recovered_fault_count s =? before) in
    Some (did_fault, if negb did_fault then <[target := original_value]> mem else mem, s).

(** *** Protecting a range *)

Section proofs.
  Context {A : Type} `{FrameAllocator A}.

(** What protecting the pages of a range does: translations stay, exactly the
    mapped pages become read-only, and the result tells whether all are. *)
Record protects (page : Z) (n : nat) (count : Z) (all : bool) (p : paging A) (r : bool) (k : Z) (p' : paging A) : Prop := {
  pr_translate v : paging_get_physical_address v p' = paging_get_physical_address v p;
  pr_all : r = true <-> all = true /\ forall i, 0 <= i < Z.of_nat n -> is_Some (paging_get_physical_address (page + 4096 * i) p);
  pr_count : r = true -> k = count + Z.of_nat n;
  pr_inside v : page <= v < page + 4096 * Z.of_nat n -> in32 v -> is_Some (paging_get_physical_address (4096 * (v / 4096)) p) ->
    paging_page_is_read_only v p' = Some true;
  pr_outside v : ~ (page <= v < page + 4096 * Z.of_nat n) -> in32 v -> paging_page_is_read_only v p' = paging_page_is_read_only v p }.

Lemma protects_none page count all p : protects page 0 count all p all count p.
Proof. split; try done; try lia. split; [|by intros [? _]]. intros ->. split; [done|lia]. Qed.

(** The page at [page] and then the rest. *)
Lemma protects_page page n count all p ok p1 all' count' r k p' :
  page mod 4096 = 0 ->
  (ok = true <-> is_Some (paging_get_physical_address page p)) ->
  (forall v, paging_get_physical_address v p1 = paging_get_physical_address v p) ->
  (forall v, in32 v -> paging_page_is_read_only v p1 =
     if decide (ok = true /\ v / 4096 = page / 4096) then Some true else paging_page_is_read_only v p) ->
  (if ok then all' = all /\ count' = count + 1 else all' = false) ->
  protects (page + 4096) n count' all' p1 r k p' -> protects page (S n) count all p r k p'.
Proof.
  intros Hal Hok Htr Hro Hstep [Ptr Pall Pcount Pin Pout].
  assert (Hdm : page = 4096 * (page / 4096)) by (pose proof (Z.div_mod page 4096); lia).
  assert (Hpg : forall v, v / 4096 = page / 4096 <-> page <= v < page + 4096).
  { intros v. pose proof (Z.div_mod v 4096). pose proof (Z.mod_pos_bound v 4096). split; [lia|]. intros Hv.
    symmetry. apply (Z.div_unique v 4096 (page / 4096) (v - page)); lia. }
  split.
  - intros v. by rewrite Ptr, Htr.
  - rewrite Pall. destruct ok.
    + destruct Hstep as [-> _]. split; intros [Ha Hi]; (split; [done|]); intros i Hi'.
      * destruct (decide (i = 0)) as [->|]; [rewrite Z.mul_0_r, Z.add_0_r; by apply Hok|].
        specialize (Hi (i - 1) ltac:(lia)). rewrite Htr in Hi. by replace (page + 4096 * i) with (page + 4096 + 4096 * (i - 1)) by lia.
      * rewrite Htr. replace (page + 4096 + 4096 * i) with (page + 4096 * (i + 1)) by lia. apply Hi. lia.
    + rewrite Hstep. split; [by intros []|]. intros [_ Hi]. specialize (Hi 0 ltac:(lia)). rewrite Z.mul_0_r, Z.add_0_r in Hi.
      apply Hok in Hi. done.
  - intros Hr. specialize (Pcount Hr). apply Pall in Hr as [Ha _]. destruct ok; [lia|by rewrite Hstep in Ha].
  - intros v Hv Hv32 Hs. destruct (decide (page + 4096 <= v)); [apply Pin; [lia|done|by rewrite Htr]|].
    rewrite Pout, Hro, decide_True; [done| |done|lia|done]. assert (Hsame : v / 4096 = page / 4096) by (apply Hpg; lia).
    split; [|done]. apply Hok. by rewrite Hsame, <- Hdm in Hs.
  - intros v Hv Hv32. rewrite Pout, Hro, decide_False; [done| |done|lia|done]. intros [_ E%Hpg]. lia.
Qed.

Lemma loop_protects range_end F O n : forall fuel page count all p,
  pg_inv p F O -> 0 <= page -> page mod 4096 = 0 -> range_end <= 2 ^ 32 - 4096 -> range_end = page + 4096 * Z.of_nat n ->
  0 <= count -> count + Z.of_nat n < 2 ^ 32 -> (n <= fuel)%nat ->
  exists r k p', protect_loop fuel page range_end count all p = Some (r, k, p') /\ pg_inv p' F O /\ protects page n count all p r k p'.
Proof.
  induction n as [|n IH]; intros fuel page count all p Hp H0 Hal Hmax He Hc Hk Hf.
  - exists all, count, p. split_and!; [|done|apply protects_none]. destruct fuel; cbn; by rewrite (proj2 (Z.leb_le range_end page)) by lia.
  - destruct fuel as [|fuel]; [lia|]. cbn [protect_loop]. rewrite (proj2 (Z.leb_gt range_end page)) by lia.
    destruct (set_read_only_spec p F O page Hp ltac:(lia)) as (ok & p1 & -> & Hp1 & Hok & Htr & Hro).
    unfold SECTION_PROTECTION_PAGE_SIZE_BYTES. rewrite (add32_small page 4096) by lia.
    assert (Hal' : (page + 4096) mod 4096 = 0) by (rewrite <- Hal, <- (Z_mod_plus_full page 1 4096); f_equal; lia).
    destruct ok.
    + rewrite (add32_small count 1) by lia.
      destruct (IH fuel (page + 4096) (count + 1) all p1) as (r & k & p' & E & Hp' & Hpr); try done; try lia.
      exists r, k, p'. split_and!; [done|done|]. by eapply (protects_page page n count all p true p1).
    + destruct (IH fuel (page + 4096) count false p1) as (r & k & p' & E & Hp' & Hpr); try done; try lia.
      exists r, k, p'. split_and!; [done|done|]. by eapply (protects_page page n count all p false p1).
Qed.

(** C18: Applying the protection on a page-aligned range returns, keeps every
    translation and every page outside the range, and makes each mapped page
    of the range read-only; it reports success exactly when all pages of the
    range are mapped, and then counts them all. *)
Theorem section_protection_sound (p : paging A) F O s range_start n fuel :
  pg_inv p F O -> 0 <= range_start -> range_start mod 4096 = 0 -> (0 < n <= fuel)%nat -> range_start + 4096 * Z.of_nat n <= 2 ^ 32 - 4096 ->
  exists r s' p',
    kernel_section_protection_apply true fuel range_start (range_start + 4096 * Z.of_nat n) s p = Some (r, s', p') /\
    pg_inv p' F O /\ (forall v, paging_get_physical_address v p' = paging_get_physical_address v p) /\
    kernel_section_protection_is_active s' = r /\
    (r = true <-> forall i, 0 <= i < Z.of_nat n -> is_Some (paging_get_physical_address (range_start + 4096 * i) p)) /\
    (r = true -> kernel_section_protection_get_read_only_page_count s' = Z.of_nat n) /\
    (forall v, in32 v -> range_start <= v < range_start + 4096 * Z.of_nat n ->
       is_Some (paging_get_physical_address (4096 * (v / 4096)) p) -> paging_page_is_read_only v p' = Some true) /\
    (forall v, in32 v -> ~ (range_start <= v < range_start + 4096 * Z.of_nat n) ->
       paging_page_is_read_only v p' = paging_page_is_read_only v p).
Proof.
  intros Hp H0 Hal Hn Hmax. unfold kernel_section_protection_apply. cbn [negb]. rewrite (proj2 (Z.leb_gt _ range_start)) by lia.
  destruct (loop_protects (range_start + 4096 * Z.of_nat n) F O n fuel range_start 0 true p)
    as (r & k & p' & -> & Hp' & [Ptr Pall Pcount Pin Pout]); try done; try lia.
  exists r, (with_pages r k s), p'. split_and!; try done; cbn.
  - rewrite Pall. split; [by intros [_ ?]|done].
  - auto.
  - auto.
Qed.

End proofs.

#[local] Existing Instance example_frames.

(** One page of the kernel image, not mapped: the protection reports failure. *)
Lemma section_protection_sound_witness :
  exists r s' p', kernel_section_protection_apply true 1 0xC0100000 (0xC0100000 + 4096 * Z.of_nat 1) boot example_paging = Some (r, s', p') /\
    kernel_section_protection_is_active s' = r.
Proof.
  destruct (section_protection_sound example_paging _ _ boot 0xC0100000 1 1 example_paging_inv) as (r & s' & p' & H1 & _ & _ & H2 & _);
    [lia|reflexivity|lia|lia|]. exists r, s', p'. exact (conj H1 H2).
Defined.

(** A probe is a question: it answers whether the page refused the store,
    leaves memory as it was and the handler disarmed. *)
Lemma probe_answers target resume writable mem s :
  target <> 0 -> resume <> 0 -> in32 (section_protection_recovered_fault_count s) ->
  exists mem' s', kernel_section_protection_probe_write target resume writable mem s = Some (negb writable, mem', s') /\
    (forall a, zget mem' a = zget mem a) /\ section_protection_probe_is_armed s' = false /\
    section_protection_recovered_fault_count s' = section_protection_recovered_fault_count s ⊞ (if writable then 0 else 1).
Proof.
  intros Ht Hr Hc. unfold kernel_section_protection_probe_write. rewrite (proj2 (Z.eqb_neq _ _) Ht).
  assert (Hne : section_protection_recovered_fault_count s ⊞ 1 <> section_protection_recovered_fault_count s).
  { destruct (decide (section_protection_recovered_fault_count s = 2 ^ 32 - 1)) as [->|]; [done|rewrite add32_small; lia]. }
  assert (H0 : section_protection_recovered_fault_count s ⊞ 0 = section_protection_recovered_fault_count s) by (rewrite add32_small; lia).
  destruct writable; cbn [mbind option_bind negb].
  - cbn. rewrite Z.eqb_refl. cbn [negb]. eexists _, _. split; [done|]. split_and!; [|done|by rewrite H0].
    intros a. rewrite insert_insert_eq, zget_insert. by case_decide as E; [rewrite E|].
  - unfold kernel_section_protection_handle_page_fault. cbn -[add32]. rewrite (proj2 (Z.eqb_neq _ _) Hr), Z.eqb_refl. cbn -[add32].
    change (negb (Z.land 3 _ =? _)) with false. cbn -[add32]. rewrite (proj2 (Z.eqb_neq _ _) Hne). cbn [negb]. by eexists _, _.
Qed.

(** No other fault is taken over: the handler declines unless the probe is
    armed and the fault is a write to its target. *)
Lemma foreign_fault_declined err_code fault_address s :
  section_protection_probe_is_armed s = false \/ fault_address <> section_protection_probe_target s \/ Z.land err_code 3 <> 3 ->
  kernel_section_protection_handle_page_fault err_code fault_address s = (None, s).
Proof.
  unfold kernel_section_protection_handle_page_fault. destruct (section_protection_probe_is_armed s); cbn [negb]; [|done].
  destruct (section_protection_probe_resume_address s =? 0); [done|].
  destruct (Z.eqb_spec fault_address (section_protection_probe_target s)); cbn [negb]; [|done].
  intros [?|[?|Hb]]; [done..|]. change (Z.lor _ _) with 3. by rewrite (proj2 (Z.eqb_neq _ _) Hb).
Qed.

End Section_.

(** ** Queues and the cost of a loss *)

Module Backpressure.

Definition KERNEL_BACKPRESSURE_MAX_QUEUES : Z := 8.

Inductive KernelBackpressurePolicy := DROP_TOLERATED | DROP_CORRUPTS.

(** [drop_count] names the counter of the queue; its value is read through
    the environment [drops]. *)
Record queue := mkQueue { name : Z; policy : KernelBackpressurePolicy; capacity_items : Z; drop_count : Z }.

Record registry := mkRegistry { backpressure_queues : gmap Z queue; backpressure_queue_count : Z }.

Definition kernel_backpressure_reset (s : registry) : registry := mkRegistry (backpressure_queues s) 0.

(** Null pointers are zero. *)
Definition kernel_backpressure_register (name : Z) (policy : KernelBackpressurePolicy) (capacity_items drop_count : Z) (s : registry)
    : bool * registry :=
  if (name =? 0) || (drop_count =? 0) then (false, s)
  else if KERNEL_BACKPRESSURE_MAX_QUEUES <=? backpressure_queue_count s then (false, s)
  else (true, mkRegistry (<[backpressure_queue_count s := mkQueue name policy capacity_items drop_count]> (backpressure_queues s))
                (backpressure_queue_count s ⊞ 1)).

Definition kernel_backpressure_get_queue_count (s : registry) : Z := backpressure_queue_count s.

Definition kernel_backpressure_get_queue (index : Z) (s : registry) : option queue :=
  if backpressure_queue_count s <=? index then None else backpressure_queues s !! index.

Section counters.
  Context (drops : Z -> Z).

Definition add_drops (wanted : queue -> bool) (total : Z) (q : option queue) : Z :=
  match q with Some q => if wanted q then total ⊞ drops (drop_count q) else total | None => total end.

(** The loop of both sums, over the queues registered. *)
Definition sum_drops (wanted : queue -> bool) (s : registry) : Z :=
  fold_left (fun total index => add_drops wanted total (backpressure_queues s !! index)) (seqZ 0 (backpressure_queue_count s)) 0.

Definition kernel_backpressure_get_total_drop_count (s : registry) : Z := sum_drops (fun _ => true) s.

Definition corrupts (q : queue) : bool := match policy q with DROP_CORRUPTS => true | DROP_TOLERATED => false end.

Definition kernel_backpressure_get_intolerant_drop_count (s : registry) : Z := sum_drops corrupts s.

(** The queues registered, in order. *)
Definition holds (s : registry) (qs : list queue) : Prop :=
  backpressure_queue_count s = Z.of_nat (length qs) /\ (length qs <= 8)%nat /\
  forall i, (i < length qs)%nat -> backpressure_queues s !! Z.of_nat i = qs !! i.

Lemma register_holds s qs name pol cap dc :
  holds s qs ->
  let '(ok, s') := kernel_backpressure_register name pol cap dc s in
  ok = (negb (name =? 0) && negb (dc =? 0) && (length qs <? 8)%nat) /\
  holds s' (if ok then qs ++ [mkQueue name pol cap dc] else qs).
Proof.
  intros (Hc & Hl & Hq). unfold kernel_backpressure_register, KERNEL_BACKPRESSURE_MAX_QUEUES.
  destruct (name =? 0); [done|]. destruct (dc =? 0); [done|]. cbn [orb negb andb]. rewrite Hc.
  destruct (Z.leb_spec 8 (Z.of_nat (length qs))); destruct (Nat.ltb_spec (length qs) 8); try lia; [done|].
  split; [done|]. split; [cbn -[add32]; rewrite length_app, add32_small by lia; cbn; lia|]. split; [rewrite length_app; cbn; lia|].
  intros i Hi. rewrite length_app in Hi. cbn in Hi |- *. destruct (decide (i = length qs)) as [->|].
  - by rewrite lookup_insert_eq, lookup_app_r, Nat.sub_diag by lia.
  - rewrite lookup_insert_ne, lookup_app_l by lia. apply Hq. lia.
Qed.

(** The sum of the counters of the wanted queues, modulo 2^32. *)
Lemma sum_drops_spec wanted s qs : holds s qs ->
  sum_drops wanted s = u32 (foldr (fun q t => drops (drop_count q) + t) 0 (filter (fun q => wanted q = true) qs)).
Proof.
  intros (Hc & Hl & Hq). unfold sum_drops. rewrite Hc.
  assert (H : forall n, (n <= length qs)%nat ->
    fold_left (fun total index => add_drops wanted total (backpressure_queues s !! index)) (seqZ 0 (Z.of_nat n)) 0 =
    u32 (foldr (fun q t => drops (drop_count q) + t) 0 (filter (fun q => wanted q = true) (take n qs)))).
  { induction n as [|n IH]; intros Hn; [done|]. destruct (lookup_lt_is_Some_2 qs n) as [q Eq]; [lia|].
    rewrite seqZ_S, fold_left_app, IH by lia. cbn [fold_left]. rewrite Z.add_0_l, Hq, Eq by lia.
    rewrite (take_S_r _ _ q Eq), filter_app, foldr_app. cbn [add_drops]. destruct (wanted q) eqn:E.
    - rewrite filter_cons_True by done. cbn [filter list_filter foldr]. unfold add32. rewrite u32_add_l, Z.add_0_r. f_equal.
      generalize (filter (fun q => wanted q = true) (take n qs)) as l. induction l as [|x l IHl]; cbn; [lia|]. rewrite <- IHl. lia.
    - by rewrite filter_cons_False by congruence. }
  rewrite (H (length qs)) by lia. by rewrite firstn_all.
Qed.

End counters.

End Backpressure.

(** ** Reconciler *)

Module Reconciler.
Import Section_ Backpressure.

Definition SECTION_PROTECTION : Z := 0.
Definition WRITE_PROTECT : Z := 1.
Definition READ_ONLY_PAGE_COUNT : Z := 2.
Definition FRAME_ARENA : Z := 3.
Definition REAL_TIME : Z := 4.
Definition QUEUE_INTEGRITY : Z := 5.
Definition KERNEL_RECONCILER_PERIODIC_WAIT_LIMIT : nat := 256.

Record declaration := mkDeclaration {
  frame_arena_capacity_bytes : Z;
  real_time_violation_budget : Z;
  read_only_page_count : Z;
  require_section_protection : bool;
  require_write_protect : bool }.

Record reconciler := mk {
  reconciler_declaration : declaration;
  reconciler_is_declared : bool;
  reconciler_real_time_violation_baseline : Z;
  reconciler_pass_count : Z;
  reconciler_drift_count : Z;
  reconciler_drift_mask : Z;
  reconciler_periodic_pass_count : Z }.

Definition boot : reconciler := mk (mkDeclaration 0 0 0 false false) false 0 0 0 0 0.

(** What a pass reads of the other components: the section protection, CR0,
    the arena's peak, the heap's violation count, the queues and their
    counters. *)
Record world := mkWorld {
  w_section : section;
  w_control_register_0 : Z;
  w_arena_peak : Z;
  w_violations : Z;
  w_queues : registry;
  w_drops : Z -> Z }.

Definition with_mask (mask : Z) (s : reconciler) : reconciler :=
  mk (reconciler_declaration s) (reconciler_is_declared s) (reconciler_real_time_violation_baseline s)
     (reconciler_pass_count s) (reconciler_drift_count s) mask (reconciler_periodic_pass_count s).

Definition reconciler_evaluate (invariant : Z) (holds : bool) (s : reconciler) : Z * reconciler :=
  if holds then (0, s) else (1, with_mask (Z.lor (reconciler_drift_mask s) (Z.shiftl 1 invariant)) s).

(** A null [declaration] is ignored. *)
Definition kernel_reconciler_declare (d : option declaration) (w : world) (s : reconciler) : reconciler :=
  match d with
  | None => s
  | Some d => mk d true (w_violations w) 0 0 0 (reconciler_periodic_pass_count s)
  end.

Definition reconciler_real_time_violations_since_declaration (w : world) (s : reconciler) : Z :=
  let current := w_violations w in
  if current <=? reconciler_real_time_violation_baseline s then 0 else current ⊟ reconciler_real_time_violation_baseline s.

Definition kernel_reconciler_check (w : world) (s : reconciler) : Z * reconciler :=
  if negb (reconciler_is_declared s) then (0, s)
  else
    let d := reconciler_declaration s in
    let '(drifted, s) :=
      if require_section_protection d then
        let '(d1, s) := reconciler_evaluate SECTION_PROTECTION (kernel_section_protection_is_active (w_section w)) s in
        let '(d2, s) := reconciler_evaluate READ_ONLY_PAGE_COUNT
          (kernel_section_protection_get_read_only_page_count (w_section w) =? read_only_page_count d) s in
        (d1 + d2, s)
      else (0, s) in
    let '(drifted, s) :=
      if require_write_protect d then
        let '(d3, s) := reconciler_evaluate WRITE_PROTECT
          (kernel_section_protection_write_protect_is_enabled (w_control_register_0 w)) s in (drifted + d3, s)
      else (drifted, s) in
    let '(d4, s) := reconciler_evaluate FRAME_ARENA (w_arena_peak w <=? frame_arena_capacity_bytes d) s in
    let '(d5, s) := reconciler_evaluate REAL_TIME
      (reconciler_real_time_violations_since_declaration w s <=? real_time_violation_budget d) s in
    let '(d6, s) := reconciler_evaluate QUEUE_INTEGRITY
      (kernel_backpressure_get_intolerant_drop_count (w_drops w) (w_queues w) =? 0) s in
    let drifted := drifted + d4 + d5 + d6 in
    (drifted,
     mk (reconciler_declaration s) (reconciler_is_declared s) (reconciler_real_time_violation_baseline s)
        (reconciler_pass_count s ⊞ 1)
        (if 0 <? drifted then reconciler_drift_count s ⊞ 1 else reconciler_drift_count s)
        (reconciler_drift_mask s) (reconciler_periodic_pass_count s)).

Definition kernel_reconciler_check_periodic (w : world) (s : reconciler) : reconciler :=
  let '(_, s) := kernel_reconciler_check w s in
  mk (reconciler_declaration s) (reconciler_is_declared s) (reconciler_real_time_violation_baseline s)
     (reconciler_pass_count s) (reconciler_drift_count s) (reconciler_drift_mask s) (reconciler_periodic_pass_count s ⊞ 1).

(** [halts] are the values of the pass count after each halt. *)
Fixpoint wait_loop (spins : nat) (count : Z) (halts : list Z) : bool :=
  match spins with
  | O => 0 <? count
  | S spins => if 0 <? count then true else wait_loop spins (hd count halts) (tl halts)
  end.

Definition kernel_reconciler_wait_for_periodic_pass (halts : list Z) (s : reconciler) : bool :=
  wait_loop KERNEL_RECONCILER_PERIODIC_WAIT_LIMIT (reconciler_periodic_pass_count s) halts.

(** *** What the history of passes records *)

(** Whether an invariant is broken in a world, by its number. *)
Definition broken (d : declaration) (baseline : Z) (w : world) (i : Z) : bool :=
  if i =? SECTION_PROTECTION then require_section_protection d && negb (section_protection_active (w_section w))
  else if i =? READ_ONLY_PAGE_COUNT then
    require_section_protection d && negb (section_protection_read_only_page_count (w_section w) =? read_only_page_count d)
  else if i =? WRITE_PROTECT then require_write_protect d && negb (Z.testbit (w_control_register_0 w) 16)
  else if i =? FRAME_ARENA then frame_arena_capacity_bytes d <? w_arena_peak w
  else if i =? REAL_TIME then real_time_violation_budget d <? Z.max 0 (w_violations w - baseline)
  else if i =? QUEUE_INTEGRITY then negb (kernel_backpressure_get_intolerant_drop_count (w_drops w) (w_queues w) =? 0)
  else false.

Definition drifts (d : declaration) (baseline : Z) (w : world) : list Z := filter (fun i => broken d baseline w i = true) (seqZ 0 6).

Definition passes (ws : list world) (s : reconciler) : list Z * reconciler :=
  fold_left (fun '(rs, s) w => let '(r, s) := kernel_reconciler_check w s in (rs ++ [r], s)) ws ([], s).

Lemma evaluate_eq i h s :
  reconciler_evaluate i h s =
  (Z.b2z (negb h), with_mask (Z.lor (reconciler_drift_mask s) (if h then 0 else Z.shiftl 1 i)) s).
Proof. unfold reconciler_evaluate. destruct h; [|done]. rewrite Z.lor_0_r. by destruct s. Qed.

Lemma bit_of i h k : 0 <= i -> 0 <= k -> Z.testbit (if h : bool then 0 else Z.shiftl 1 k) i = negb h && (i =? k).
Proof.
  intros Hi Hk. destruct h; [apply Z.bits_0|]. rewrite Z.shiftl_1_l, Z.pow2_bits_eqb by done. cbn. apply Z.eqb_sym.
Qed.

Lemma drifts_count d b w :
  Z.of_nat (length (drifts d b w)) =
  Z.b2z (broken d b w 0) + Z.b2z (broken d b w 2) + Z.b2z (broken d b w 1) + Z.b2z (broken d b w 3) + Z.b2z (broken d b w 4) + Z.b2z (broken d b w 5).
Proof.
  unfold drifts. change (seqZ 0 6) with [0; 1; 2; 3; 4; 5].
  assert (H : forall i l, Z.of_nat (length (filter (fun i => broken d b w i = true) (i :: l))) =
    Z.b2z (broken d b w i) + Z.of_nat (length (filter (fun i => broken d b w i = true) l))).
  { intros i l. destruct (broken d b w i) eqn:E; [rewrite filter_cons_True by done; cbn; lia|by rewrite filter_cons_False by congruence]. }
  rewrite !H. cbn [filter list_filter length]. lia.
Qed.

Lemma broken_between d b w i : ~ (0 <= i < 6) -> broken d b w i = false.
Proof.
  intros Hi. unfold broken. by rewrite !(proj2 (Z.eqb_neq i _)) by (unfold SECTION_PROTECTION, READ_ONLY_PAGE_COUNT, WRITE_PROTECT, FRAME_ARENA, REAL_TIME, QUEUE_INTEGRITY; lia).
Qed.

Lemma since_declaration w s :
  in32 (w_violations w) -> in32 (reconciler_real_time_violation_baseline s) ->
  reconciler_real_time_violations_since_declaration w s = Z.max 0 (w_violations w - reconciler_real_time_violation_baseline s).
Proof.
  intros Hw Hb. unfold reconciler_real_time_violations_since_declaration.
  destruct (Z.leb_spec (w_violations w) (reconciler_real_time_violation_baseline s)); [lia|]. rewrite sub32_small; lia.
Qed.

(** One pass: the result counts the broken invariants, the mask gains them. *)
Record passed (w : world) (s : reconciler) (r : Z) (s' : reconciler) : Prop := {
  pa_result : r = Z.of_nat (length (drifts (reconciler_declaration s) (reconciler_real_time_violation_baseline s) w));
  pa_declaration : reconciler_declaration s' = reconciler_declaration s;
  pa_declared : reconciler_is_declared s' = true;
  pa_baseline : reconciler_real_time_violation_baseline s' = reconciler_real_time_violation_baseline s;
  pa_passes : reconciler_pass_count s' = reconciler_pass_count s ⊞ 1;
  pa_drifts : reconciler_drift_count s' = if 0 <? r then reconciler_drift_count s ⊞ 1 else reconciler_drift_count s;
  pa_mask i : 0 <= i -> Z.testbit (reconciler_drift_mask s') i =
    Z.testbit (reconciler_drift_mask s) i || broken (reconciler_declaration s) (reconciler_real_time_violation_baseline s) w i }.

(** The comparisons of a pass, in their order. *)
Definition comparisons (w : world) (d : declaration) (baseline : Z) : list (Z * bool) :=
  (if require_section_protection d
   then [(0, section_protection_active (w_section w));
         (2, section_protection_read_only_page_count (w_section w) =? read_only_page_count d)] else []) ++
  (if require_write_protect d then [(1, kernel_section_protection_write_protect_is_enabled (w_control_register_0 w))] else []) ++
  [(3, w_arena_peak w <=? frame_arena_capacity_bytes d);
   (4, Z.max 0 (w_violations w - baseline) <=? real_time_violation_budget d);
   (5, kernel_backpressure_get_intolerant_drop_count (w_drops w) (w_queues w) =? 0)].

Definition failures (l : list (Z * bool)) : Z := foldr (fun c t => Z.b2z (negb c.2) + t) 0 l.
Definition gained (l : list (Z * bool)) (m : Z) : Z := fold_left (fun m c => Z.lor m (if c.2 : bool then 0 else Z.shiftl 1 c.1)) l m.

Lemma gained_bit l : forall m i, 0 <= i -> Forall (fun c => 0 <= c.1) l ->
  Z.testbit (gained l m) i = Z.testbit m i || existsb (fun c => negb c.2 && (i =? c.1)) l.
Proof.
  induction l as [|[k h] l IH]; intros m i Hi Hl; cbn [gained fold_left existsb]; [by rewrite orb_false_r|].
  apply Forall_cons in Hl as [Hk Hl]. fold (gained l (Z.lor m (if (k, h).2 : bool then 0 else Z.shiftl 1 (k, h).1))).
  rewrite IH by done. cbn [fst snd] in *. by rewrite Z.lor_spec, bit_of, orb_assoc.
Qed.

(** A pass is its comparisons, counted. *)
Lemma check_compares w s :
  reconciler_is_declared s = true -> in32 (w_violations w) -> in32 (reconciler_real_time_violation_baseline s) ->
  let l := comparisons w (reconciler_declaration s) (reconciler_real_time_violation_baseline s) in
  kernel_reconciler_check w s =
  (failures l,
   mk (reconciler_declaration s) true (reconciler_real_time_violation_baseline s) (reconciler_pass_count s ⊞ 1)
      (if 0 <? failures l then reconciler_drift_count s ⊞ 1 else reconciler_drift_count s)
      (gained l (reconciler_drift_mask s)) (reconciler_periodic_pass_count s)).
Proof.
  intros Hd Hw Hb. cbv zeta. unfold kernel_reconciler_check, comparisons. rewrite Hd. cbn [negb].
  destruct s as [d dd b pc dc mask per]. cbn [reconciler_declaration reconciler_is_declared reconciler_real_time_violation_baseline] in *. subst dd.
  destruct (require_section_protection d), (require_write_protect d); rewrite !evaluate_eq; cbn -[Z.lor Z.add Z.b2z Z.max add32 sub32 Z.leb];
    rewrite since_declaration by done; cbn -[Z.lor Z.add Z.b2z Z.max add32 sub32 Z.leb];
    unfold failures; cbn -[Z.lor Z.add Z.b2z Z.max add32 sub32 Z.leb];
    rewrite ?Z.add_0_r, ?Z.add_0_l, ?Z.add_assoc; reflexivity.
Qed.

Lemma broken_cases d b w :
  broken d b w 0 = require_section_protection d && negb (section_protection_active (w_section w)) /\
  broken d b w 1 = require_write_protect d && negb (kernel_section_protection_write_protect_is_enabled (w_control_register_0 w)) /\
  broken d b w 2 = require_section_protection d && negb (section_protection_read_only_page_count (w_section w) =? read_only_page_count d) /\
  broken d b w 3 = negb (w_arena_peak w <=? frame_arena_capacity_bytes d) /\
  broken d b w 4 = negb (Z.max 0 (w_violations w - b) <=? real_time_violation_budget d) /\
  broken d b w 5 = negb (kernel_backpressure_get_intolerant_drop_count (w_drops w) (w_queues w) =? 0).
Proof.
  unfold broken. cbn [Z.eqb Pos.eqb SECTION_PROTECTION READ_ONLY_PAGE_COUNT WRITE_PROTECT FRAME_ARENA REAL_TIME QUEUE_INTEGRITY].
  split_and!; try done; try apply Z.ltb_antisym.
  unfold kernel_section_protection_write_protect_is_enabled. change WRITE_PROTECT_BIT with (Z.shiftl 1 16). by rewrite byte_testbit by lia.
Qed.

Lemma comparisons_bit d b w i : 0 <= i ->
  existsb (fun c => negb c.2 && (i =? c.1)) (comparisons w d b) = broken d b w i.
Proof.
  intros Hi. destruct (broken_cases d b w) as (B0 & B1 & B2 & B3 & B4 & B5). unfold comparisons.
  destruct (decide (i < 6)).
  - assert (i = 0 \/ i = 1 \/ i = 2 \/ i = 3 \/ i = 4 \/ i = 5) as [-> |[-> |[-> |[-> |[-> | ->]]]]] by lia;
      rewrite ?B0, ?B1, ?B2, ?B3, ?B4, ?B5; destruct (require_section_protection d), (require_write_protect d);
      cbn -[Z.max Z.leb]; rewrite ?andb_false_r, ?andb_true_r, ?orb_false_r; reflexivity.
  - rewrite broken_between by lia. destruct (require_section_protection d), (require_write_protect d); cbn [app existsb fst snd];
      rewrite !(proj2 (Z.eqb_neq i _)) by lia; by rewrite !andb_false_r.
Qed.

Lemma comparisons_failures d b w : failures (comparisons w d b) = Z.of_nat (length (drifts d b w)).
Proof.
  rewrite drifts_count. destruct (broken_cases d b w) as (-> & -> & -> & -> & -> & ->). unfold comparisons, failures.
  destruct (require_section_protection d), (require_write_protect d); cbn [app foldr fst snd andb]; change (Z.b2z false) with 0; lia.
Qed.

Lemma comparisons_nonneg d b w : Forall (fun c => 0 <= c.1) (comparisons w d b).
Proof. unfold comparisons. destruct (require_section_protection d), (require_write_protect d); repeat constructor; cbn; lia. Qed.

Lemma check_passed w s :
  reconciler_is_declared s = true -> in32 (w_violations w) -> in32 (reconciler_real_time_violation_baseline s) ->
  let '(r, s') := kernel_reconciler_check w s in passed w s r s'.
Proof.
  intros Hd Hw Hb. rewrite (check_compares w s Hd Hw Hb). rewrite comparisons_failures. split; try done.
  intros i Hi. cbn [reconciler_drift_mask]. rewrite gained_bit by (done || apply comparisons_nonneg). by rewrite comparisons_bit.
Qed.

(** The state after the passes over [ws], which returned [rs]. *)
Record history (d : declaration) (base : Z) (ws : list world) (rs : list Z) (s : reconciler) : Prop := {
  hi_declaration : reconciler_declaration s = d;
  hi_declared : reconciler_is_declared s = true;
  hi_baseline : reconciler_real_time_violation_baseline s = base;
  hi_results : rs = (fun w => Z.of_nat (length (drifts d base w))) <$> ws;
  hi_mask i : 0 <= i -> Z.testbit (reconciler_drift_mask s) i = existsb (fun w => broken d base w i) ws;
  hi_passes : reconciler_pass_count s = u32 (Z.of_nat (length ws));
  hi_drifts : reconciler_drift_count s = u32 (Z.of_nat (length (filter (fun w => drifts d base w <> []) ws))) }.

Lemma history_pass d base ws rs s w :
  in32 base -> in32 (w_violations w) -> history d base ws rs s ->
  let '(r, s') := kernel_reconciler_check w s in history d base (ws ++ [w]) (rs ++ [r]) s'.
Proof.
  intros Hb Hw [H1 H2 H3 H4 H5 H6 H7]. pose proof (check_passed w s H2 Hw ltac:(by rewrite H3)) as Hp.
  destruct (kernel_reconciler_check w s) as [r s']. destruct Hp as [P1 P2 P3 P4 P5 P6 P7]. rewrite H1, H3 in *.
  split; try done.
  - by rewrite fmap_app, H4, P1.
  - intros i Hi. rewrite P7, H5, existsb_app by done. cbn. by rewrite orb_false_r.
  - rewrite P5, H6, length_app. unfold add32. rewrite u32_add_l. f_equal. cbn. lia.
  - rewrite P6, H7, filter_app, length_app, P1. destruct (drifts d base w) as [|x l] eqn:E.
    + rewrite filter_cons_False by (intros Hn; by apply Hn). cbn. by rewrite Nat.add_0_r.
    + rewrite filter_cons_True by (by rewrite E). rewrite (proj2 (Z.ltb_lt _ _)) by (cbn; lia). unfold add32. rewrite u32_add_l. f_equal. cbn. lia.
Qed.

(** C27: The reconciler's history is exact: after a declaration and any passes,
    each pass returned the number of invariants broken in the world it saw,
    the sticky mask has the bit of an invariant exactly when some pass found
    it broken, and the counters are the passes and the passes with a drift. *)
Theorem reconciler_history_exact d w0 s0 ws :
  in32 (w_violations w0) -> Forall (fun w => in32 (w_violations w)) ws ->
  let '(rs, s) := passes ws (kernel_reconciler_declare (Some d) w0 s0) in
  rs = (fun w => Z.of_nat (length (drifts d (w_violations w0) w))) <$> ws /\
  (forall i, 0 <= i -> Z.testbit (reconciler_drift_mask s) i = existsb (fun w => broken d (w_violations w0) w i) ws) /\
  reconciler_pass_count s = u32 (Z.of_nat (length ws)) /\
  reconciler_drift_count s = u32 (Z.of_nat (length (filter (fun w => drifts d (w_violations w0) w <> []) ws))).
Proof.
  intros H0 Hws. assert (H : let '(rs, s) := passes ws (kernel_reconciler_declare (Some d) w0 s0) in history d (w_violations w0) ws rs s).
  { unfold passes. induction ws as [|w ws IH] using rev_ind; [split; try done; intros; apply Z.bits_0|].
    apply Forall_app in Hws as [Hws Hw]. apply Forall_inv in Hw. specialize (IH Hws). rewrite fold_left_app. cbn [fold_left].
    destruct (fold_left _ ws _) as [rs s]. pose proof (history_pass _ _ _ _ _ w H0 Hw IH) as Hp.
    by destruct (kernel_reconciler_check w s) as [r s']. }
  destruct (passes ws _) as [rs s]. destruct H. done.
Qed.

(** One pass in which only the frame arena is over its capacity. *)
Lemma reconciler_history_exact_witness :
  let w := mkWorld Section_.boot 0 4097 3 (mkRegistry ∅ 0) (fun _ => 0) in
  Forall (fun w => in32 (w_violations w)) [w] /\
  (passes [w] (kernel_reconciler_declare (Some (mkDeclaration 4096 0 0 false false)) w boot)).1 = [1].
Proof.
  set (w := mkWorld Section_.boot 0 4097 3 (mkRegistry ∅ 0) (fun _ => 0)).
  assert (Hw : in32 (w_violations w)) by (cbn; lia).
  assert (H : Forall (fun w => in32 (w_violations w)) [w]) by (constructor; [exact Hw|constructor]).
  split; [exact H|]. pose proof (reconciler_history_exact (mkDeclaration 4096 0 0 false false) w boot [w] Hw H) as Hx.
  destruct (passes [w] _) as [rs s]. destruct Hx as [Hx _]. rewrite Hx. vm_compute. reflexivity.
Defined.

End Reconciler.
