(* ===== verification/Acpi.v ===== *)
(** * ACPI tables

    Models arch/i386/cpu/acpi.c: the search for the root pointer in the BIOS
    areas, the walk over the RSDT, and the parser of the MADT with the
    queries on what it found.

    The bytes of the tables are [mem], by physical address. The code reads them
    through the page tables of [Paging], in which [acpi_map_physical_const] maps
    the pages of a table first; a read without a translation is a fault, [None]. *)

From S2P Require Import Prelude Cpu Pmm BuddyProofs FrameAlloc Paging PagingProofs.

(** ** The search for a table *)

Module Tables.

Definition ACPI_RSDP_SIGNATURE : list Z := [82; 83; 68; 32; 80; 84; 82; 32].
Definition ACPI_MADT_SIGNATURE : list Z := [65; 80; 73; 67].
Definition ACPI_RSDT_SIGNATURE : list Z := [82; 83; 68; 84].
Definition ACPI_RSDP_SCAN_ALIGN : Z := 16.
Definition ACPI_BDA_EBDA_PTR_PHYS : Z := 0x40E.
Definition ACPI_BIOS_SCAN_START : Z := 0xE0000.
Definition ACPI_BIOS_SCAN_END : Z := 0x100000.
Definition ACPI_LOW_MEM_END : Z := 0x100000.
Definition sizeof_rsdp : Z := 36.
Definition sizeof_sdt_header : Z := 36.

Definition pde_flags : PageDirectoryEntry := mkPde 1 1 0 0 0 0 0 0 0 0 0.
Definition pte_flags : PageTableEntry := mkPte 1 1 0 0 0 0 0 0 0 0 0.

(** *** Reading

    [rd p] is the byte at pointer [p], or a fault. *)

Definition load16 (rd : Z -> option Z) (p : Z) : option Z := x ← rd p; y ← rd (p + 1); Some (x + y * 2 ^ 8).
Definition load32 (rd : Z -> option Z) (p : Z) : option Z := x ← load16 rd p; y ← load16 rd (p + 2); Some (x + y * 2 ^ 16).
Definition load64 (rd : Z -> option Z) (p : Z) : option Z := x ← load32 rd p; y ← load32 rd (p + 4); Some (x + y * 2 ^ 32).

Fixpoint byte_sum (rd : Z -> option Z) (ptr : Z) (n : nat) : option Z :=
  match n with O => Some 0 | S n => b ← rd ptr; s ← byte_sum rd (ptr + 1) n; Some (u8 (b + s)) end.

Definition acpi_checksum_is_valid (rd : Z -> option Z) (ptr length : Z) : option bool :=
  if length =? 0 then Some false else s ← byte_sum rd ptr (Z.to_nat length); Some (s =? 0).

Fixpoint acpi_signature_matches (rd : Z -> option Z) (ptr : Z) (signature : list Z) : option bool :=
  match signature with
  | [] => Some true
  | c :: signature => b ← rd ptr; if negb (b =? c) then Some false else acpi_signature_matches rd (ptr + 1) signature
  end.

(** *** Mapping *)

(** One turn per page of the physical memory. *)
Definition map_fuel : nat := Z.to_nat (2 ^ 20).

Section mapping.
  Context {A : Type} `{FrameAllocator A} (realtime : bool).

Fixpoint map_loop (fuel : nat) (map_virt map_phys virt_end : Z) (p : paging A) : option (bool * paging A) :=
  if virt_end <? map_virt then Some (true, p)
  else
    match fuel with
    | O => None
    | S fuel =>
      '(ok, p) ← (if paging_is_mapped map_virt p then Some (true, p)
                  else paging_map_page realtime map_virt map_phys pde_flags pte_flags p);
      if negb ok then Some (false, p)
      else if 0xFFFFF000 <=? map_phys then Some (true, p)
      else map_loop fuel (map_virt ⊞ 4096) (map_phys ⊞ 4096) virt_end p
    end.

(** [None] of the inner option is the null pointer. *)
Definition acpi_map_physical_const (physical_address size : Z) (p : paging A) : option (option Z * paging A) :=
  if size =? 0 then Some (None, p)
  else
    let virt_start := physical_address ⊞ KERNEL_VIRTUAL_BASE in
    let virt_end := virt_start ⊞ (size - 1) in
    if physical_address <? ACPI_LOW_MEM_END then Some (Some virt_start, p)
    else
      let map_phys := Z.land physical_address 0xFFFFF000 in
      let map_virt := map_phys ⊞ KERNEL_VIRTUAL_BASE in
      '(ok, p) ← map_loop map_fuel map_virt map_phys virt_end p;
      Some (if (ok : bool) then Some virt_start else None, p).

(** A table that crosses physical 1 GiB wraps in the window: no page of it is
    mapped, and the pointer is returned all the same. *)
Lemma map_across_window size p :
  4096 < size < 2 ^ 30 -> acpi_map_physical_const 0x3FFFF000 size p = Some (Some 0xFFFFF000, p).
Proof.
  intros Hs. unfold acpi_map_physical_const. rewrite (proj2 (Z.eqb_neq size 0)) by lia.
  change (0x3FFFF000 ⊞ KERNEL_VIRTUAL_BASE) with 0xFFFFF000. change (0x3FFFF000 <? ACPI_LOW_MEM_END) with false.
  change (Z.land 0x3FFFF000 0xFFFFF000) with 0x3FFFF000. change (0x3FFFF000 ⊞ KERNEL_VIRTUAL_BASE) with 0xFFFFF000.
  assert (Hw : 0xFFFFF000 ⊞ (size - 1) = size - 4097).
  { unfold add32, u32. symmetry. apply Z.mod_unique with (q := 1); lia. }
  cbv zeta. rewrite Hw. generalize map_fuel. intros fuel. destruct fuel; cbn [map_loop]; by rewrite (proj2 (Z.ltb_lt (size - 4097) 0xFFFFF000)) by lia.
Qed.

End mapping.

(** *** The search *)

Section search.
  Context {A : Type} `{FrameAllocator A} (realtime : bool) (mem : Z -> Z).
  Implicit Types p : paging A.
  Local Abbreviation map_const := (acpi_map_physical_const realtime).

(** A byte through the page tables. *)
Definition reader p (ptr : Z) : option Z := mem <$> paging_get_physical_address (u32 ptr) p.

Definition acpi_read_ebda_base_physical p : option (Z * paging A) :=
  '(bda_ptr, p) ← map_const ACPI_BDA_EBDA_PTR_PHYS 2 p;
  match bda_ptr with
  | None => Some (0, p)
  | Some ptr => x ← reader p ptr; y ← reader p (ptr + 1); Some (Z.shiftl (Z.lor x (Z.shiftl y 8)) 4, p)
  end.

(** One candidate of the scan: the pointer if it is a root pointer. *)
Definition candidate (addr : Z) p : option (option Z * paging A) :=
  '(ptr, p) ← map_const addr sizeof_rsdp p;
  match ptr with
  | None => Some (None, p)
  | Some ptr =>
    same ← acpi_signature_matches (reader p) ptr ACPI_RSDP_SIGNATURE;
    if negb same then Some (None, p)
    else
      valid ← acpi_checksum_is_valid (reader p) ptr 20;
      if negb valid then Some (None, p)
      else
        revision ← reader p (ptr + 15);
        if 2 <=? revision then
          rsdp_length ← load32 (reader p) (ptr + 20);
          if rsdp_length <? sizeof_rsdp then Some (None, p)
          else
            '(ptr, p) ← map_const addr rsdp_length p;
            match ptr with
            | None => Some (None, p)
            | Some ptr =>
              valid ← acpi_checksum_is_valid (reader p) ptr rsdp_length;
              Some (if negb valid then None else Some ptr, p)
            end
        else Some (Some ptr, p)
  end.

Fixpoint acpi_find_rsdp_in_range (fuel : nat) (addr end_phys : Z) p : option (option Z * paging A) :=
  if addr + sizeof_rsdp <=? end_phys then
    match fuel with
    | O => None
    | S fuel =>
      '(found, p) ← candidate addr p;
      match found with
      | Some ptr => Some (Some ptr, p)
      | None => acpi_find_rsdp_in_range fuel (addr + ACPI_RSDP_SCAN_ALIGN) end_phys p
      end
    end
  else Some (None, p).

(** The BIOS area has 8192 paragraphs. *)
Definition scan_fuel : nat := Z.to_nat 8192.

Definition acpi_find_rsdp p : option (option Z * paging A) :=
  '(ebda_base, p) ← acpi_read_ebda_base_physical p;
  '(found, p) ← (if (0x80000 <=? ebda_base) && (ebda_base <? ACPI_BIOS_SCAN_END)
                 then acpi_find_rsdp_in_range scan_fuel ebda_base (ebda_base + 1024) p else Some (None, p));
  match found with
  | Some rsdp => Some (Some rsdp, p)
  | None => acpi_find_rsdp_in_range scan_fuel ACPI_BIOS_SCAN_START ACPI_BIOS_SCAN_END p
  end.

Definition acpi_map_sdt_full (physical_address : Z) p : option (option Z * paging A) :=
  '(header, p) ← map_const physical_address sizeof_sdt_header p;
  match header with
  | None => Some (None, p)
  | Some header =>
    length ← load32 (reader p) (header + 4);
    if length <? sizeof_sdt_header then Some (None, p) else map_const physical_address length p
  end.

(** The entries of the RSDT from the [i]-th on. *)
Fixpoint find_entry (rsdt : Z) (signature : list Z) (i : Z) (n : nat) p : option (option Z * paging A) :=
  match n with
  | O => Some (None, p)
  | S n =>
    sdt_physical_address ← load32 (reader p) (rsdt + sizeof_sdt_header + 4 * i);
    '(sdt, p) ← acpi_map_sdt_full sdt_physical_address p;
    match sdt with
    | None => find_entry rsdt signature (i + 1) n p
    | Some sdt =>
      same ← acpi_signature_matches (reader p) sdt signature;
      if negb same then find_entry rsdt signature (i + 1) n p
      else
        length ← load32 (reader p) (sdt + 4);
        valid ← acpi_checksum_is_valid (reader p) sdt length;
        if (valid : bool) then Some (Some sdt, p) else find_entry rsdt signature (i + 1) n p
    end
  end.

Definition advanced_configuration_and_power_interface_find_table (signature : list Z) p : option (option Z * paging A) :=
  '(rsdp, p) ← acpi_find_rsdp p;
  match rsdp with
  | None => Some (None, p)
  | Some rsdp =>
    rsdt_address ← load32 (reader p) (rsdp + 16);
    if rsdt_address =? 0 then Some (None, p)
    else
      '(rsdt, p) ← acpi_map_sdt_full rsdt_address p;
      match rsdt with
      | None => Some (None, p)
      | Some rsdt =>
        same ← acpi_signature_matches (reader p) rsdt ACPI_RSDT_SIGNATURE;
        if negb same then Some (None, p)
        else
          length ← load32 (reader p) (rsdt + 4);
          valid ← acpi_checksum_is_valid (reader p) rsdt length;
          if negb valid then Some (None, p)
          else find_entry rsdt signature 0 (Z.to_nat ((length - sizeof_sdt_header) / 4)) p
      end
  end.

End search.

(** *** The tables in memory *)

Section tables.
  Context (mem : Z -> Z).

Definition bytes_at (a n : Z) : list Z := mem <$> seqZ a n.
Definition signed (signature : list Z) (a : Z) : bool := bool_decide (bytes_at a (Z.of_nat (length signature)) = signature).
Definition sums_to_zero (a n : Z) : bool := foldr Z.add 0 (bytes_at a n) mod 2 ^ 8 =? 0.
Definition length_of (a : Z) : Z := le32 mem (a + 4).

(** A root pointer has a length and a second checksum from revision 2 on. *)
Definition is_root (a : Z) : bool :=
  signed ACPI_RSDP_SIGNATURE a && sums_to_zero a 20 &&
  (if 2 <=? mem (a + 15) then (36 <=? le32 mem (a + 20)) && sums_to_zero a (le32 mem (a + 20)) else true).

Definition is_table (signature : list Z) (a : Z) : bool :=
  (36 <=? length_of a) && signed signature a && sums_to_zero a (length_of a).

(** The paragraphs of an area that leave room for a root pointer. *)
Definition paragraphs (start end_ : Z) : list Z := (fun i => start + 16 * i) <$> seqZ 0 ((end_ - start - 36) / 16 + 1).

(** The first KiB of the extended BIOS data area, then the BIOS area. *)
Definition ebda : Z := 16 * le16 mem 0x40E.
Definition areas : list Z :=
  (if (0x80000 <=? ebda) && (ebda <? 0x100000) then paragraphs ebda (ebda + 1024) else []) ++ paragraphs 0xE0000 0x100000.

Definition root : option Z := List.find is_root areas.

(** The physical addresses the RSDT lists. *)
Definition listed (t : Z) : list Z := (fun i => le32 mem (t + 36 + 4 * i)) <$> seqZ 0 ((length_of t - 36) / 4).

Definition table_of (signature : list Z) : option Z :=
  r ← root;
  let t := le32 mem (r + 16) in
  if t =? 0 then None else if is_table ACPI_RSDT_SIGNATURE t then List.find (is_table signature) (listed t) else None.

(** *** Reads where the memory is mapped *)

Definition reads (rd : Z -> option Z) (ptr a n : Z) : Prop := forall i, 0 <= i < n -> rd (ptr + i) = Some (mem (a + i)).

Section reads.
  Context (rd : Z -> option Z) (ptr a n : Z) (Hrd : reads rd ptr a n).

Lemma reads_at i : 0 <= i < n -> rd (ptr + i) = Some (mem (a + i)).
Proof. apply Hrd. Qed.

Lemma load16_reads i : 0 <= i -> i + 2 <= n -> load16 rd (ptr + i) = Some (le16 mem (a + i)).
Proof.
  intros H0 H1. unfold load16. rewrite reads_at by lia. cbn [mbind option_bind]. rewrite <- Z.add_assoc, reads_at by lia. unfold le16. by rewrite Z.add_assoc.
Qed.

Lemma load32_reads i : 0 <= i -> i + 4 <= n -> load32 rd (ptr + i) = Some (le32 mem (a + i)).
Proof.
  intros H0 H1. unfold load32. rewrite load16_reads by lia. cbn [mbind option_bind].
  rewrite <- Z.add_assoc, load16_reads by lia. unfold le32. by rewrite Z.add_assoc.
Qed.

Lemma sum_reads k : forall i, 0 <= i -> i + Z.of_nat k <= n ->
  byte_sum rd (ptr + i) k = Some (foldr Z.add 0 (bytes_at (a + i) (Z.of_nat k)) mod 2 ^ 8).
Proof.
  induction k as [|k IH]; intros i H0 H1; [done|]. cbn [byte_sum]. rewrite reads_at by lia. cbn [mbind option_bind].
  rewrite <- Z.add_assoc, IH by lia. cbn [mbind option_bind]. unfold bytes_at. rewrite (seqZ_cons (a + i)) by lia. cbn [fmap list_fmap foldr].
  replace (Z.pred (Z.of_nat (S k))) with (Z.of_nat k) by lia. replace (Z.succ (a + i)) with (a + (i + 1)) by lia.
  unfold u8. by rewrite Zplus_mod_idemp_r.
Qed.

Lemma checksum_reads k : 0 < k <= n -> acpi_checksum_is_valid rd ptr k = Some (sums_to_zero a k).
Proof.
  intros Hk. unfold acpi_checksum_is_valid, sums_to_zero. rewrite (proj2 (Z.eqb_neq k 0)) by lia.
  pose proof (sum_reads (Z.to_nat k) 0 ltac:(lia) ltac:(lia)) as H. rewrite !Z.add_0_r in H. rewrite H. cbn. by rewrite Z2Nat.id by lia.
Qed.

Lemma signature_reads signature : forall i, 0 <= i -> i + Z.of_nat (length signature) <= n ->
  acpi_signature_matches rd (ptr + i) signature = Some (signed signature (a + i)).
Proof.
  unfold signed, bytes_at. induction signature as [|c l IH]; intros i H0 H1; [done|]. cbn [acpi_signature_matches length] in *.
  rewrite reads_at by lia. cbn [mbind option_bind]. rewrite (seqZ_cons (a + i)) by lia. cbn [fmap list_fmap].
  replace (Z.pred (Z.of_nat (S (length l)))) with (Z.of_nat (length l)) by lia. replace (Z.succ (a + i)) with (a + (i + 1)) by lia.
  destruct (Z.eqb_spec (mem (a + i)) c) as [->|Hne]; cbn [negb].
  - rewrite <- Z.add_assoc, IH by lia. f_equal. apply bool_decide_ext. split; [by intros ->|]. intros E. by injection E.
  - rewrite bool_decide_false; [done|]. intros E. by injection E.
Qed.

End reads.

Lemma reads_less rd ptr a n k : reads rd ptr a n -> k <= n -> reads rd ptr a k.
Proof. intros H Hk i Hi. apply H. lia. Qed.

End tables.

(** *** Mapping reaches the table *)

Definition window (a : Z) : Z := a ⊞ KERNEL_VIRTUAL_BASE.

Lemma window_value a : in32 a -> window a = if decide (a < 2 ^ 30) then a + 0xC0000000 else a - 2 ^ 30.
Proof.
  intros Ha. unfold window, add32, u32, KERNEL_VIRTUAL_BASE. case_decide; [apply Z.mod_small; lia|].
  symmetry. apply Z.mod_unique with (q := 1); lia.
Qed.

Lemma window_back v : in32 v -> v ⊟ KERNEL_VIRTUAL_BASE = if decide (v < 0xC0000000) then v + 2 ^ 30 else v - 0xC0000000.
Proof.
  intros Hv. unfold sub32, u32, KERNEL_VIRTUAL_BASE. case_decide; [|apply Z.mod_small; lia].
  symmetry. apply Z.mod_unique with (q := -1); lia.
Qed.

Lemma window_aligned a : in32 a -> a mod 4096 = 0 -> window a mod 4096 = 0.
Proof.
  intros Ha Hal. rewrite window_value by done. case_decide; [replace (a + 0xC0000000) with (a + 786432 * 4096) by lia|
    replace (a - 2 ^ 30) with (a + (-262144) * 4096) by lia]; by rewrite Z.mod_add.
Qed.

(** The page of an address in the window. *)
Lemma window_page a v : in32 a -> a mod 4096 = 0 -> in32 v -> v / 4096 = window a / 4096 ->
  v = window a + v mod 4096 /\ v ⊟ KERNEL_VIRTUAL_BASE = a + v mod 4096.
Proof.
  intros Ha Hal Hv Hp. pose proof (window_aligned a Ha Hal) as Hwa. pose proof (Z.div_mod v 4096). pose proof (Z.div_mod (window a) 4096).
  pose proof (Z.mod_pos_bound v 4096). pose proof (Z.div_mod a 4096). assert (Hv0 : v = window a + v mod 4096) by lia. split; [done|].
  rewrite window_back by done. rewrite (window_value a Ha) in Hv0. repeat case_decide; lia.
Qed.

Section mapped.
  Context {A : Type} `{FrameAllocator A} (realtime : bool) (mem : Z -> Z).
  Implicit Types (p q : paging A) (F O : gset Z).
  Local Abbreviation tr := paging_get_physical_address.

(** An address that is not mapped to anything but its place in the window. *)
Definition straight p (v : Z) : Prop := tr v p = None \/ tr v p = Some (v ⊟ KERNEL_VIRTUAL_BASE).

(** The page tables only gain entries of the window, the free frames only go. *)
Definition grows p F q F' : Prop :=
  (exists O', pg_inv q F' O') /\ (F' ⊆ F) /\ (forall v a, in32 v -> tr v p = Some a -> tr v q = Some a) /\
  (forall v, in32 v -> straight p v -> straight q v).

Lemma grows_refl p F O : pg_inv p F O -> grows p F p F.
Proof. intros Hp. unfold grows. split_and!; eauto. Qed.

Lemma grows_trans p F q F' r F'' : grows p F q F' -> grows q F' r F'' -> grows p F r F''.
Proof. intros (_ & HF & Ht & Hs) (HO & HF' & Ht' & Hs'). unfold grows. split_and!; [done|set_solver|naive_solver|naive_solver]. Qed.

Lemma flags_fit : fits entry_widths (pde_fields pde_flags) /\ fits entry_widths (pte_fields pte_flags).
Proof. split; unfold fits, entry_widths, pde_fields, pte_fields; simpl; repeat (constructor; [lia|]); constructor. Qed.

(** One page of the window. *)
Lemma map_page_grows p F O virt phys :
  pg_inv p F O -> in32 phys -> phys mod 4096 = 0 -> virt = window phys -> tr virt p = None ->
  exists r q F', paging_map_page realtime virt phys pde_flags pte_flags p = Some (r, q) /\ grows p F q F' /\
    (r = false -> F' = ∅) /\ (r = true -> forall v, in32 v -> v / 4096 = virt / 4096 -> is_Some (tr v q)).
Proof.
  intros Hp Hph Hal -> Hnone. assert (Hv : in32 (window phys)) by apply u32_range. destruct flags_fit as [Hf Hg].
  destruct (map_page_spec realtime p F O (window phys) phys pde_flags pte_flags) as (r & q & F' & O' & E & Hq & HF & _ & _ & _ & Htr); try done.
  exists r, q, F'. split; [done|]. unfold grows. split_and!.
  - by exists O'.
  - done.
  - intros v a Hv' Ha. rewrite Htr by done. destruct (decide _) as [[_ Hpg]|]; [|done].
    by rewrite (same_page_none p F O (window phys) v) in Ha.
  - intros v Hv' Hs. unfold straight. rewrite Htr by done. destruct (decide _) as [[_ Hpg]|]; [|done]. right. f_equal.
    destruct (window_page phys v) as [_ ->]; [done..|]. pose proof (Z.div_mod phys 4096). lia.
  - intros ->. apply (map_refused realtime p F O) in E; [set_solver|done].
  - intros -> v Hv' Hpg. rewrite Htr, decide_True by done. by eexists.
Qed.

Lemma mapped_page p F O virt v : pg_inv p F O -> in32 virt -> in32 v -> v / 4096 = virt / 4096 -> paging_is_mapped virt p = true -> is_Some (tr v p).
Proof.
  intros Hp Hv Hv' Hpg Hm. apply not_eq_None_Some. intros Hn. unfold paging_is_mapped in Hm.
  by rewrite (same_page_none p F O v virt) in Hm by done.
Qed.

(** The page at [virt], then those behind it. *)
Lemma map_loop_grows n : forall virt phys virt_end p F O,
  pg_inv p F O -> in32 phys -> phys mod 4096 = 0 -> virt = window phys -> virt_end < 0xFFFFF000 -> 2 ^ 32 - phys <= 4096 * Z.of_nat n ->
  exists r q F', map_loop realtime n virt phys virt_end p = Some (r, q) /\ grows p F q F' /\ (r = false -> F' = ∅) /\
    (r = true -> forall i, 0 <= i < 2 ^ 32 - phys -> virt + i <= virt_end -> is_Some (tr (virt + i) q)).
Proof.
  induction n as [|n IH]; intros virt phys virt_end p F O Hp Hph Hal Hw He Hn; [lia|]. cbn [map_loop].
  assert (Hv : in32 virt) by (rewrite Hw; apply u32_range).
  destruct (Z.ltb_spec virt_end virt) as [Hd|Hd]; [exists true, p, F; split_and!; [done|by eapply grows_refl|done|intros; lia]|].
  assert (Hva : virt mod 4096 = 0).
  { rewrite Hw. by apply window_aligned. }
  assert (Hstep : exists r q F1, (if paging_is_mapped virt p then Some (true, p) else paging_map_page realtime virt phys pde_flags pte_flags p) = Some (r, q) /\
    grows p F q F1 /\ (r = false -> F1 = ∅) /\ (r = true -> forall v, in32 v -> v / 4096 = virt / 4096 -> is_Some (tr v q))).
  { destruct (paging_is_mapped virt p) eqn:Em.
    - exists true, p, F. split_and!; [done|by eapply grows_refl|done|]. intros _ v Hv' Hpg. by apply (mapped_page p F O virt).
    - apply (map_page_grows p F O); try done. unfold paging_is_mapped in Em. by destruct (tr virt p). }
  destruct Hstep as (r & q & F1 & -> & Hg & Hr0 & Hr1). cbn [mbind option_bind].
  destruct r; cbn [negb]; [|exists false, q, F1; split_and!; [done|done|done|done]]. specialize (Hr1 eq_refl).
  assert (Hpage : forall i, 0 <= i < 4096 -> is_Some (tr (virt + i) q)).
  { intros i Hi. apply Hr1; [pose proof (Z.div_mod virt 4096); lia|]. symmetry. apply Z.div_unique with (r := i); [lia|]. pose proof (Z.div_mod virt 4096). lia. }
  destruct (Z.leb_spec 0xFFFFF000 phys).
  { exists true, q, F1. split_and!; [done|done|done|]. intros _ i Hi _. apply Hpage. pose proof (Z.div_mod phys 4096). lia. }
  rewrite (add32_small virt), (add32_small phys) by lia. destruct Hg as ((O1 & Hq) & HF & Ht & Hs).
  destruct (IH (virt + 4096) (phys + 4096) virt_end q F1 O1 Hq) as (r & q2 & F2 & E & Hg2 & Hf2 & Hc2); [lia| | |done|lia|].
  { replace (phys + 4096) with (phys + 1 * 4096) by lia. by rewrite Z.mod_add. }
  { rewrite Hw, !window_value by lia. rewrite Hw, window_value in Hd by done. repeat case_decide; lia. }
  exists r, q2, F2. split_and!; [done|eapply grows_trans; [|done]; unfold grows; split_and!; eauto|done|]. intros Hr i Hi Hle.
  destruct (decide (i < 4096)).
  - destruct (Hpage i ltac:(lia)) as [a Ha]. destruct Hg2 as (_ & _ & Ht2 & _). exists a. apply Ht2; [lia|done].
  - replace (virt + i) with (virt + 4096 + (i - 4096)) by lia. apply Hc2; [done|lia|lia].
Qed.

(** *** The search finds the table *)

(** The first MiB is mapped, as the boot code leaves it. *)
Definition low p : Prop := forall a, 0 <= a < 2 ^ 20 -> tr (0xC0000000 + a) p = Some a.

(** A range that the window reaches: in the first MiB, or above it in pages that
    are not used for anything else, and not across the end of the window. *)
Definition placed p (a n : Z) : Prop :=
  in32 a /\ 0 < n /\
  (a + n <= 2 ^ 20 \/
   (2 ^ 20 <= a /\ a + n <= 2 ^ 32 /\ window a + n <= 0xFFFFF000 /\ forall i, 0 <= i < n -> straight p (window a + i))).

Abbreviation table_length a := (Z.max 36 (length_of mem a)).

(** What the firmware left, seen from the page tables [p]. *)
Record firmware p : Prop := {
  fw_bytes : bytes_ok mem;
  fw_low : low p;
  fw_ebda : ebda mem < 0x100000 -> ebda mem + 1024 <= 0x100000;
  fw_roots a : a ∈ areas mem -> signed mem ACPI_RSDP_SIGNATURE a = true -> sums_to_zero mem a 20 = true ->
    2 <= mem (a + 15) -> 36 <= le32 mem (a + 20) -> a + le32 mem (a + 20) <= 0x100000;
  fw_tables r : root mem = Some r -> let t := le32 mem (r + 16) in t <> 0 ->
    placed p t (table_length t) /\
    (is_table mem ACPI_RSDT_SIGNATURE t = true -> forall a, a ∈ listed mem t -> placed p a (table_length a)) }.

Lemma grows_low p F q F' : grows p F q F' -> low p -> low q.
Proof. intros (_ & _ & Ht & _) Hl a Ha. apply Ht; [lia|by apply Hl]. Qed.

Lemma grows_placed p F q F' a n : grows p F q F' -> placed p a n -> placed q a n.
Proof.
  intros (_ & _ & _ & Hs) (Ha & Hn & Hp). split; [done|]. split; [done|]. destruct Hp as [?|(? & ? & ? & Hst)]; [by left|right].
  split_and!; [done..|]. intros i Hi. apply Hs; [|by apply Hst]. pose proof (u32_range (a + KERNEL_VIRTUAL_BASE)). unfold window, add32 in *. lia.
Qed.

Lemma grows_reads p F q F' ptr a n : grows p F q F' -> reads mem (reader mem p) ptr a n -> reads mem (reader mem q) ptr a n.
Proof.
  intros (_ & _ & Ht & _) Hr i Hi. specialize (Hr i Hi). unfold reader in *.
  destruct (tr (u32 (ptr + i)) p) as [x|] eqn:E; [|done]. by rewrite (Ht _ _ (u32_range _) E).
Qed.

Lemma low_reads p a n : low p -> 0 <= a -> a + n <= 2 ^ 20 -> reads mem (reader mem p) (window a) a n.
Proof.
  intros Hl Ha Hn i Hi. unfold reader. rewrite window_value, decide_True, u32_small by lia.
  replace (a + 0xC0000000 + i) with (0xC0000000 + (a + i)) by lia. by rewrite Hl by lia.
Qed.

Lemma map_low p a n : 0 <= a -> 0 < n -> a + n <= 2 ^ 20 -> acpi_map_physical_const realtime a n p = Some (Some (window a), p).
Proof.
  intros Ha Hn Hl. unfold acpi_map_physical_const. rewrite (proj2 (Z.eqb_neq n 0)) by lia.
  unfold ACPI_LOW_MEM_END. by rewrite (proj2 (Z.ltb_lt a 0x100000)) by lia.
Qed.

Lemma map_high p F O a n : pg_inv p F O -> placed p a n -> 2 ^ 20 <= a ->
  exists r q F', acpi_map_physical_const realtime a n p = Some (r, q) /\ grows p F q F' /\
    ((r = Some (window a) /\ reads mem (reader mem q) (window a) a n) \/ (r = None /\ F' = ∅)).
Proof.
  intros Hp (Ha & Hn & Hpl) Hhi. destruct Hpl as [?|(_ & Hend & Hwin & Hst)]; [lia|].
  unfold acpi_map_physical_const. rewrite (proj2 (Z.eqb_neq n 0)) by lia. unfold ACPI_LOW_MEM_END. rewrite (proj2 (Z.ltb_ge a 0x100000)) by lia. cbv zeta.
  assert (Hal : Z.land a 0xFFFFF000 = a - a mod 4096).
  { change 0xFFFFF000 with (not32 (2 ^ 12 - 1)). rewrite land_not32_pow2 by lia. change (2 ^ 12) with 4096. pose proof (Z.div_mod a 4096). lia. }
  rewrite Hal. set (b := a - a mod 4096). pose proof (Z.mod_pos_bound a 4096 ltac:(lia)) as Hm.
  assert (Hb : b mod 4096 = 0) by (unfold b; rewrite Zminus_mod_idemp_r, Z.sub_diag; done).
  assert (Hb20 : 2 ^ 20 <= b) by (pose proof (Z.div_mod a 4096); pose proof (Z.div_le_mono (2 ^ 20) a 4096 ltac:(lia) Hhi) as Hq; change (2 ^ 20 / 4096) with 256 in Hq; lia).
  assert (Hwb : window a = window b + a mod 4096) by (pose proof (Z.div_mod a 4096 ltac:(lia)); rewrite !window_value by lia; unfold b; repeat case_decide; lia).
  assert (Hwr : in32 (window b)) by apply u32_range. assert (Hwa : in32 (window a)) by apply u32_range.
  change (a ⊞ KERNEL_VIRTUAL_BASE) with (window a). change (b ⊞ KERNEL_VIRTUAL_BASE) with (window b). rewrite (add32_small (window a) (n - 1)) by lia.
  destruct (map_loop_grows map_fuel (window b) b (window a + (n - 1)) p F O Hp) as (r & q & F' & -> & Hg & Hf & Hc);
    [lia|done|done|lia|unfold map_fuel; lia|]. cbn [mbind option_bind].
  exists (if r then Some (window a) else None), q, F'. split; [done|]. split; [done|]. destruct r; [left|right; by split; [|apply Hf]].
  split; [done|]. intros i Hi. unfold reader. rewrite u32_small by lia.
  destruct (Hc eq_refl (a mod 4096 + i)) as [x Hx]; [lia|lia|]. rewrite Z.add_assoc, <- Hwb in Hx. rewrite Hx. cbn. do 2 f_equal.
  destruct Hg as (_ & _ & _ & Hs). destruct (Hs (window a + i) ltac:(lia) (Hst i Hi)) as [E|E]; [congruence|].
  rewrite Hx in E. injection E as ->. rewrite window_back, window_value in * by lia. repeat case_decide; lia.
Qed.

Section firmware.
  Context (p0 : paging A) (F0 O0 : gset Z) (Hinv : pg_inv p0 F0 O0) (Hfw : firmware p0).

(** Mapping a range. *)
Lemma map_placed p F a n : grows p0 F0 p F -> placed p0 a n ->
  exists r q F', acpi_map_physical_const realtime a n p = Some (r, q) /\ grows p F q F' /\
    ((r = Some (window a) /\ reads mem (reader mem q) (window a) a n) \/ (r = None /\ F' = ∅)).
Proof.
  intros Hg Hp. pose proof (grows_placed _ _ _ _ _ _ Hg Hp) as Hp'. pose proof Hg as ((O & Hpi) & _). pose proof Hp as (Ha & Hn & [Hl|(Hh & _)]).
  - exists (Some (window a)), p, F. rewrite map_low by lia. split; [done|]. split; [by eapply grows_refl|]. left. split; [done|].
    apply low_reads; [|lia|done]. eapply grows_low; [exact Hg|apply Hfw].
  - by apply (map_high p F O).
Qed.

Lemma sdt_mapped p F a : grows p0 F0 p F -> placed p0 a (table_length a) ->
  exists r q F', acpi_map_sdt_full realtime mem a p = Some (r, q) /\ grows p F q F' /\
    ((r = (if 36 <=? length_of mem a then Some (window a) else None) /\ reads mem (reader mem q) (window a) a (table_length a)) \/ (r = None /\ F' = ∅)).
Proof.
  intros Hg Hp. unfold acpi_map_sdt_full, sizeof_sdt_header.
  assert (Hless : forall n, 0 < n <= table_length a -> placed p0 a n).
  { intros n Hn. destruct Hp as (Ha & _ & Hp). split_and!; [lia|lia|lia|]. destruct Hp as [?|(? & ? & ? & Hs)]; [left; lia|right].
    split_and!; [lia|lia|lia|]. intros i Hi. apply Hs. lia. }
  destruct (map_placed p F a 36 Hg (Hless 36 ltac:(lia))) as (r & q & F1 & -> & Hg1 & [(-> & Hr)|(-> & HF)]); cbn [mbind option_bind].
  2:{ exists None, q, F1. split; [done|]. split; [done|]. by right. }
  rewrite (load32_reads mem _ _ _ _ Hr) by lia. cbn [mbind option_bind]. fold (length_of mem a).
  destruct (Z.ltb_spec (length_of mem a) 36).
  { exists None, q, F1. split; [done|]. split; [done|]. left. rewrite (proj2 (Z.leb_gt 36 _)) by lia. split; [done|].
    replace (table_length a) with 36 by lia. done. }
  rewrite (proj2 (Z.leb_le 36 _)) by lia.
  destruct (map_placed q F1 a (length_of mem a) (grows_trans _ _ _ _ _ _ Hg Hg1) (Hless (length_of mem a) ltac:(lia))) as (r & q2 & F2 & E & Hg2 & Ho).
  exists r, q2, F2. split; [done|]. split; [by eapply grows_trans|]. replace (table_length a) with (length_of mem a) by lia. done.
Qed.

(** The outcome for a list of tables: the first one that fits, or any that
    fits when the frames for page tables have run out. *)
Definition settles (signature l : list Z) (o : option Z) q F' : Prop :=
  (o = List.find (is_table mem signature) l \/ (F' = ∅ /\ forall a, o = Some a -> a ∈ l /\ is_table mem signature a = true)) /\
  forall a, o = Some a -> reads mem (reader mem q) (window a) a (length_of mem a).

Lemma settles_skip signature a l o q F' :
  is_table mem signature a = false -> settles signature l o q F' -> settles signature (a :: l) o q F'.
Proof.
  intros Ha [Ho Hr]. split; [|done]. cbn [List.find]. rewrite Ha. destruct Ho as [->|[HF Hx]]; [by left|right]. split; [done|].
  intros b Hb. destruct (Hx b Hb). split; [by right|done].
Qed.

Lemma settles_lost signature a l o q F F' : F = ∅ -> F' ⊆ F -> settles signature l o q F' -> settles signature (a :: l) o q F'.
Proof.
  intros -> HF [Ho Hr]. split; [|done]. right. split; [set_solver|]. intros b ->. destruct Ho as [Ho|[_ Hx]].
  - symmetry in Ho. apply find_some in Ho as [Hin Ht]. split; [right; by apply list_elem_of_In|done].
  - destruct (Hx b eq_refl). split; [by right|done].
Qed.

Lemma entries_found signature t : length signature = 4%nat -> 36 <= length_of mem t -> forall n i p F,
  grows p0 F0 p F -> reads mem (reader mem p) (window t) t (length_of mem t) ->
  0 <= i -> 36 + 4 * (i + Z.of_nat n) <= length_of mem t ->
  let l := (fun i => le32 mem (t + 36 + 4 * i)) <$> seqZ i (Z.of_nat n) in
  (forall a, a ∈ l -> placed p0 a (table_length a)) ->
  exists o q F', find_entry realtime mem (window t) signature i n p = Some (window <$> o, q) /\ grows p F q F' /\ settles signature l o q F'.
Proof.
  intros Hsig Hlen. induction n as [|n IH]; intros i p F Hg Hr Hi Hn l Hpl; cbn [find_entry].
  { exists None, p, F. split; [done|]. pose proof Hg as ((O & Hp) & _). split; [by eapply grows_refl|]. split; [by left|done]. }
  unfold sizeof_sdt_header. rewrite <- Z.add_assoc, (load32_reads mem _ _ _ _ Hr), Z.add_assoc by lia. cbn [mbind option_bind].
  unfold l in *. clear l. rewrite seqZ_cons in * by lia. cbn [fmap list_fmap] in *. replace (Z.pred (Z.of_nat (S n))) with (Z.of_nat n) in * by lia.
  replace (Z.succ i) with (i + 1) in * by lia. set (a := le32 mem (t + 36 + 4 * i)) in *.
  destruct (sdt_mapped p F a Hg (Hpl a ltac:(by left))) as (r & q & F1 & -> & Hg1 & Ho). cbn [mbind option_bind].
  assert (Hrest : exists o q' F', find_entry realtime mem (window t) signature (i + 1) n q = Some (window <$> o, q') /\ grows p F q' F' /\ F' ⊆ F1 /\
    settles signature ((fun i => le32 mem (t + 36 + 4 * i)) <$> seqZ (i + 1) (Z.of_nat n)) o q' F').
  { destruct (IH (i + 1) q F1) as (o & q' & F' & E & Hg' & Hs); [by eapply grows_trans|by eapply grows_reads|lia|lia|intros x Hx; apply Hpl; by right|].
    exists o, q', F'. split; [done|]. split; [by eapply grows_trans|]. split; [apply Hg'|done]. }
  destruct Hrest as (o & q' & F' & Erest & Hg' & HF & Hs).
  destruct Ho as [(-> & Hra)|(-> & HF1)]; [|exists o, q', F'; split; [done|]; split; [done|]; by eapply settles_lost].
  assert (Hskip : is_table mem signature a = false -> exists o q' F', find_entry realtime mem (window t) signature (i + 1) n q = Some (window <$> o, q') /\
    grows p F q' F' /\ settles signature (a :: ((fun i => le32 mem (t + 36 + 4 * i)) <$> seqZ (i + 1) (Z.of_nat n))) o q' F').
  { intros Ha. exists o, q', F'. split; [done|]. split; [done|]. by apply settles_skip. }
  unfold is_table in Hskip. destruct (Z.leb_spec 36 (length_of mem a)) as [Hla|]; [|by apply Hskip]. cbn [andb] in Hskip.
  replace (table_length a) with (length_of mem a) in Hra by lia.
  pose proof (signature_reads mem _ _ _ _ Hra signature 0 ltac:(lia) ltac:(lia)) as Hsg. rewrite !Z.add_0_r in Hsg. rewrite Hsg. cbn [mbind option_bind].
  destruct (signed mem signature a) eqn:Es; cbn [negb andb] in *; [|by apply Hskip].
  rewrite (load32_reads mem _ _ _ _ Hra) by lia. cbn [mbind option_bind]. fold (length_of mem a).
  rewrite (checksum_reads mem _ _ _ _ Hra) by lia. cbn [mbind option_bind].
  destruct (sums_to_zero mem a (length_of mem a)) eqn:Ez; [|by apply Hskip].
  exists (Some a), q, F1. split; [done|]. split; [done|]. split; [|by intros b [= <-]]. left. cbn [List.find]. unfold is_table.
  by rewrite (proj2 (Z.leb_le 36 _)), Es, Ez by lia.
Qed.

(** The scan for the root pointer only reads the first MiB. *)
Definition short_root (a : Z) : Prop :=
  0 <= a /\ a + 36 <= 0x100000 /\
  (signed mem ACPI_RSDP_SIGNATURE a = true -> sums_to_zero mem a 20 = true -> 2 <= mem (a + 15) -> 36 <= le32 mem (a + 20) ->
   a + le32 mem (a + 20) <= 0x100000).

Lemma candidate_found a p : low p -> short_root a ->
  candidate realtime mem a p = Some (if is_root mem a then Some (window a) else None, p).
Proof.
  intros Hl (H0 & H1 & Hs). unfold candidate, sizeof_rsdp. rewrite map_low by lia. cbn [mbind option_bind].
  pose proof (low_reads p a 36 Hl H0 ltac:(lia)) as Hr. unfold is_root.
  pose proof (signature_reads mem _ _ _ _ Hr ACPI_RSDP_SIGNATURE 0 ltac:(lia) ltac:(cbn; lia)) as Hsg. rewrite !Z.add_0_r in Hsg. rewrite Hsg.
  cbn [mbind option_bind]. destruct (signed mem _ a); cbn [negb andb]; [|done].
  rewrite (checksum_reads mem _ _ _ _ Hr) by lia. cbn [mbind option_bind]. destruct (sums_to_zero mem a 20); cbn [negb andb]; [|done].
  rewrite (reads_at mem _ _ _ _ Hr) by lia. cbn [mbind option_bind]. destruct (Z.leb_spec 2 (mem (a + 15))); [|done].
  rewrite (load32_reads mem _ _ _ _ Hr) by lia. cbn [mbind option_bind].
  destruct (Z.ltb_spec (le32 mem (a + 20)) 36) as [Hlt|Hge]; [by rewrite (proj2 (Z.leb_gt 36 _)) by lia|].
  rewrite (proj2 (Z.leb_le 36 _)) by lia. specialize (Hs eq_refl eq_refl ltac:(done) Hge). rewrite map_low by lia. cbn [mbind option_bind andb].
  rewrite (checksum_reads mem _ _ _ _ (low_reads p a (le32 mem (a + 20)) Hl H0 ltac:(lia))) by lia. cbn. by destruct (sums_to_zero mem a _).
Qed.

Lemma paragraphs_step start end_ :
  paragraphs start end_ = if start + 36 <=? end_ then start :: paragraphs (start + 16) end_ else [].
Proof.
  unfold paragraphs. destruct (Z.leb_spec (start + 36) end_) as [Hle|Hgt].
  - rewrite seqZ_cons by (pose proof (Z.div_pos (end_ - start - 36) 16); lia). cbn [fmap list_fmap]. f_equal; [lia|].
    replace ((end_ - (start + 16) - 36) / 16 + 1) with (Z.pred ((end_ - start - 36) / 16 + 1)).
    + rewrite <- (Z.add_0_l 1) at 1. rewrite <- (fmap_add_seqZ 1 0), <- list_fmap_compose. apply list_fmap_ext. intros k x _. cbn. lia.
    + replace (end_ - start - 36) with (end_ - (start + 16) - 36 + 1 * 16) by lia. rewrite Z.div_add; lia.
  - rewrite seqZ_nil; [done|]. pose proof (Z.div_lt_upper_bound (end_ - start - 36) 16 0). lia.
Qed.

Lemma range_found p end_phys n : low p -> forall addr, end_phys < addr + 16 * Z.of_nat n + 36 -> (forall a, a ∈ paragraphs addr end_phys -> short_root a) ->
  acpi_find_rsdp_in_range realtime mem n addr end_phys p = Some (window <$> List.find (is_root mem) (paragraphs addr end_phys), p).
Proof.
  intros Hl. induction n as [|n IH]; intros addr Hn Ha; rewrite paragraphs_step in *; cbn [acpi_find_rsdp_in_range]; unfold sizeof_rsdp.
  - by rewrite (proj2 (Z.leb_gt _ _)) by lia.
  - destruct (addr + 36 <=? end_phys); [|done]. rewrite candidate_found by (done || apply Ha; by left). cbn [mbind option_bind List.find].
    destruct (is_root mem addr); [done|]. apply IH; [unfold ACPI_RSDP_SCAN_ALIGN; lia|]. intros a Hin. apply Ha. by right.
Qed.

Lemma scan_fuel_covers : 16 * Z.of_nat scan_fuel = 0x20000.
Proof. unfold scan_fuel. lia. Qed.

Lemma find_app (test : Z -> bool) l l' : List.find test (l ++ l') = match List.find test l with Some x => Some x | None => List.find test l' end.
Proof. induction l as [|x l IH]; [done|]. cbn. by destruct (test x). Qed.

Lemma paragraph_range a start end_ : a ∈ paragraphs start end_ -> start <= a /\ a + 36 <= end_.
Proof.
  unfold paragraphs. intros (i & -> & Hi)%list_elem_of_fmap. apply elem_of_seqZ in Hi. pose proof (Z.div_mod (end_ - start - 36) 16).
  pose proof (Z.mod_pos_bound (end_ - start - 36) 16). lia.
Qed.

Lemma root_found p F : grows p0 F0 p F -> acpi_find_rsdp realtime mem p = Some (window <$> root mem, p).
Proof.
  intros Hg. pose proof (grows_low _ _ _ _ Hg (fw_low _ Hfw)) as Hl. unfold acpi_find_rsdp, acpi_read_ebda_base_physical, ACPI_BDA_EBDA_PTR_PHYS.
  rewrite map_low by lia. cbn [mbind option_bind]. pose proof (low_reads p 0x40E 2 Hl ltac:(lia) ltac:(lia)) as Hr.
  pose proof (reads_at mem _ _ _ _ Hr 0 ltac:(lia)) as R0. pose proof (reads_at mem _ _ _ _ Hr 1 ltac:(lia)) as R1. rewrite !Z.add_0_r in R0.
  rewrite R0, R1. cbn [mbind option_bind]. pose proof (fw_bytes _ Hfw) as Hb.
  assert (He : Z.shiftl (Z.lor (mem 0x40E) (Z.shiftl (mem (0x40E + 1)) 8)) 4 = ebda mem).
  { pose proof (Hb 0x40E). pose proof (Hb (0x40E + 1)). unfold ebda, le16. rewrite Z.lor_comm, !Z.shiftl_mul_pow2, lor_low_bits by lia. lia. }
  rewrite He. assert (Hin : forall a, a ∈ areas mem -> short_root a).
  { intros a Ha. split_and!; [..|by apply (fw_roots _ Hfw)]; unfold areas in Ha; apply elem_of_app in Ha as [Ha|Ha].
    1,3: destruct (Z.leb_spec 0x80000 (ebda mem)), (Z.ltb_spec (ebda mem) 0x100000); cbn [andb] in Ha; try (by apply not_elem_of_nil in Ha);
      apply paragraph_range in Ha; pose proof (fw_ebda _ Hfw); lia.
    all: apply paragraph_range in Ha; lia. }
  unfold root, areas in *. rewrite find_app. unfold ACPI_BIOS_SCAN_END, ACPI_BIOS_SCAN_START.
  assert (Hfirst : (if (0x80000 <=? ebda mem) && (ebda mem <? 0x100000) then acpi_find_rsdp_in_range realtime mem scan_fuel (ebda mem) (ebda mem + 1024) p else Some (None, p)) =
    Some (window <$> List.find (is_root mem) (if (0x80000 <=? ebda mem) && (ebda mem <? 0x100000) then paragraphs (ebda mem) (ebda mem + 1024) else []), p)).
  { destruct (_ && _); [|done]. apply range_found; [done|rewrite scan_fuel_covers; lia|]. intros a Ha. apply Hin, elem_of_app. by left. }
  rewrite Hfirst. cbn [mbind option_bind]. destruct (List.find (is_root mem) _); [done|]. cbn [fmap option_fmap option_map].
  apply range_found; [done|rewrite scan_fuel_covers; lia|]. intros a Ha. apply Hin, elem_of_app. by right.
Qed.

Lemma root_low r : root mem = Some r -> 0 <= r /\ r + 36 <= 2 ^ 20.
Proof.
  intros Hr. apply find_some in Hr as [Hin%list_elem_of_In _]. unfold areas in Hin. apply elem_of_app in Hin as [Ha|Ha].
  - destruct (Z.leb_spec 0x80000 (ebda mem)), (Z.ltb_spec (ebda mem) 0x100000); cbn [andb] in Ha; try (by apply not_elem_of_nil in Ha).
    apply paragraph_range in Ha. pose proof (fw_ebda _ Hfw). lia.
  - apply paragraph_range in Ha. lia.
Qed.

End firmware.

(** C17: The search for a table, through the page tables it extends itself,
    always returns and never faults, on a machine whose first MiB is mapped and
    whose tables lie in pages of the window that nothing else uses and do not
    cross the end of the window. It returns the first table with the signature
    and a valid length and checksum that the RSDT lists, where the RSDT is that of
    the first valid root pointer of the EBDA and then of the BIOS area, unless
    no free frame is left for page tables: then it may miss tables, but what it
    returns is still a valid table with the signature. Every byte of the table
    can be read at the pointer returned, and no translation changes. *)
Theorem acpi_find_table_exact signature p F O :
  length signature = 4%nat -> pg_inv p F O -> firmware p ->
  exists o q F' O', advanced_configuration_and_power_interface_find_table realtime mem signature p = Some (window <$> o, q) /\ pg_inv q F' O' /\
    (o = table_of mem signature \/ F' = ∅) /\
    (forall a, o = Some a -> is_table mem signature a = true /\ reads mem (reader mem q) (window a) a (length_of mem a)) /\
    (forall v a, in32 v -> tr v p = Some a -> tr v q = Some a).
Proof.
  intros Hsig Hinv Hfw. pose proof (grows_refl p F O Hinv) as Hg0.
  assert (Hdone : forall o q F', grows p F q F' -> (o = table_of mem signature \/ F' = ∅) ->
    (forall a, o = Some a -> is_table mem signature a = true /\ reads mem (reader mem q) (window a) a (length_of mem a)) ->
    exists o' q' F' O', Some (window <$> o, q) = Some (window <$> o', q') /\ pg_inv q' F' O' /\ (o' = table_of mem signature \/ F' = ∅) /\
    (forall a, o' = Some a -> is_table mem signature a = true /\ reads mem (reader mem q') (window a) a (length_of mem a)) /\
    (forall v a, in32 v -> tr v p = Some a -> tr v q' = Some a)).
  { intros o q F' ((O' & Hq) & _ & Ht & _) Ho Ha. by exists o, q, F', O'. }
  unfold advanced_configuration_and_power_interface_find_table. rewrite (root_found p F Hfw p F Hg0). cbn [mbind option_bind].
  assert (Hnone : forall q F', grows p F q F' -> (None = table_of mem signature \/ F' = ∅) -> exists o' q' F' O', Some (None, q) = Some (window <$> o', q') /\ _)
    by (intros q F' Hq Ho; by apply (Hdone None q F')).
  destruct (root mem) as [r|] eqn:Er; cbn [fmap option_fmap option_map mbind option_bind]; [|apply (Hnone p F); [done|left; unfold table_of; by rewrite Er]].
  destruct (root_low p Hfw r Er) as [Hr0 Hr1]. rewrite (load32_reads mem _ _ _ _ (low_reads p r 36 (fw_low _ Hfw) Hr0 Hr1)) by lia. cbn [mbind option_bind].
  pose proof (fw_tables _ Hfw r Er) as Hpt. set (t := le32 mem (r + 16)) in *. cbv zeta in Hpt.
  assert (Ht : table_of mem signature = if t =? 0 then None else if is_table mem ACPI_RSDT_SIGNATURE t then List.find (is_table mem signature) (listed mem t) else None)
    by (unfold table_of; by rewrite Er).
  destruct (Z.eqb_spec t 0) as [|Ht0]; [by apply (Hnone p F); auto|]. destruct (Hpt Ht0) as [Hpt' Hpl].
  destruct (sdt_mapped p F Hfw p F t Hg0 Hpt') as (o & q & F1 & -> & Hg1 & [(-> & Hrd)|(-> & HF)]); cbn [mbind option_bind]; [|by apply (Hnone q F1); auto].
  assert (Hit : is_table mem ACPI_RSDT_SIGNATURE t = (36 <=? length_of mem t) && signed mem ACPI_RSDT_SIGNATURE t && sums_to_zero mem t (length_of mem t)) by done.
  rewrite Hit in Ht, Hpl. clear Hit.
  destruct (Z.leb_spec 36 (length_of mem t)) as [Hlen|]; cbn [andb] in Ht, Hpl; [|by apply (Hnone q F1); auto].
  replace (table_length t) with (length_of mem t) in Hrd by lia.
  pose proof (signature_reads mem _ _ _ _ Hrd ACPI_RSDT_SIGNATURE 0 ltac:(lia) ltac:(cbn; lia)) as Hsg. rewrite !Z.add_0_r in Hsg. rewrite Hsg.
  cbn [mbind option_bind]. destruct (signed mem ACPI_RSDT_SIGNATURE t); cbn [negb andb] in Ht, Hpl |- *; [|by apply (Hnone q F1); auto].
  rewrite (load32_reads mem _ _ _ _ Hrd) by lia. cbn [mbind option_bind]. fold (length_of mem t).
  rewrite (checksum_reads mem _ _ _ _ Hrd) by lia. cbn [mbind option_bind].
  destruct (sums_to_zero mem t (length_of mem t)); cbn [negb]; [|by apply (Hnone q F1); auto].
  assert (Hc : 0 <= (length_of mem t - 36) / 4 /\ 4 * ((length_of mem t - 36) / 4) <= length_of mem t - 36).
  { split; [apply Z.div_pos; lia|]. pose proof (Z.div_mod (length_of mem t - 36) 4). pose proof (Z.mod_pos_bound (length_of mem t - 36) 4). lia. }
  unfold sizeof_sdt_header. destruct (entries_found p F O Hinv Hfw signature t Hsig Hlen (Z.to_nat ((length_of mem t - 36) / 4)) 0 q F1 Hg1 Hrd) as (o & q2 & F2 & -> & Hg2 & Ho & Hrr).
  { lia. } { lia. } { rewrite Z2Nat.id by lia. by apply Hpl. }
  rewrite Z2Nat.id in Ho by lia. fold (listed mem t) in Ho. apply (Hdone o q2 F2).
  - by eapply grows_trans.
  - rewrite Ht. destruct Ho as [->|[-> _]]; auto.
  - intros a ->. split; [|by apply Hrr]. destruct Ho as [Ho|[_ Hx]]; [symmetry in Ho; by apply find_some in Ho as [_ ?]|by apply Hx].
Qed.

End mapped.

(** *** A machine with one table above the first MiB *)

Section example.

#[local] Instance acpi_example_frames : FrameAllocator FreeList.freelist :=
  client_frames Numa.numa_boot 0 Numa.numa_boot_wf (Z.le_refl 0).

(** The page table of the boot code, in frame 0x150, maps the first MiB. *)
Definition example_table : zmap := list_to_map ((fun i => (0xC0150000 + 4 * i, 4096 * i + 3)) <$> seqZ 0 256).

(** Frame 0x300 is free. *)
Definition example_free : FreeList.freelist :=
  default FreeListProofs.example_list (page_frame_free 0x300000 (fa_set_mem example_table FreeListProofs.example_list)).

Definition acpi_paging : paging FreeList.freelist := mkPaging true {[768 := 0x00150003]} ∅ 0 0 example_free.

Definition example_rsdp : list Z := [82; 83; 68; 32; 80; 84; 82; 32; 220; 0; 0; 0; 0; 0; 0; 0; 0; 0; 254; 7].
Definition example_rsdt : list Z :=
  [82; 83; 68; 84; 40; 0; 0; 0; 1; 133; 0; 0; 0; 0; 0; 0; 0; 0; 0; 0; 0; 0; 0; 0; 0; 0; 0; 0; 0; 0; 0; 0; 0; 0; 0; 0; 0; 16; 254; 7].
Definition example_madt : list Z :=
  [65; 80; 73; 67; 44; 0; 0; 0; 1; 216; 0; 0; 0; 0; 0; 0; 0; 0; 0; 0; 0; 0; 0; 0; 0; 0; 0; 0; 0; 0; 0; 0; 0; 0; 0; 0; 0; 0; 224; 254; 0; 0; 0; 0].

Definition placed_at (base : Z) (l : list Z) : list (Z * Z) := zip (seqZ base (Z.of_nat (length l))) l.
Definition example_contents : zmap :=
  list_to_map (placed_at 0xE0000 example_rsdp ++ placed_at 0x7FE0000 example_rsdt ++ placed_at 0x7FE1000 example_madt).
Definition example_memory (a : Z) : Z := u8 (zget example_contents a).

Lemma example_free_inv : fa_inv example_free {[0x300]} ∅.
Proof.
  assert (H0 : fa_inv (fa_set_mem example_table FreeListProofs.example_list) ∅ {[0x300]}).
  { apply fa_write; [|intros q _ Hq; set_solver]. destruct FreeListProofs.example_list_inv as [L HL].
    split; [exists L, ∅; split; [done|set_solver]|]. split; [set_solver|]. intros i. rewrite elem_of_singleton. lia. }
  destruct (fa_free _ _ _ 0x300000 H0) as (a & E & Ha & _); [by split_and!|set_solver|].
  unfold example_free. rewrite E. cbn [default from_option id]. change (0x300000 / 4096) with 0x300 in Ha.
  replace ({[0x300]} : gset Z) with ({[0x300]} ∪ ∅ : gset Z) by set_solver. replace (∅ : gset Z) with ({[0x300]} ∖ {[0x300]} : gset Z) at 2 by set_solver. exact Ha.
Qed.

Lemma acpi_pde i : get_pde i acpi_paging = if decide (i = 768) then pde_of_word 0x00150003 else zero_pde.
Proof.
  unfold get_pde, acpi_paging. cbn [directory]. case_decide as Hi; [by rewrite Hi|].
  rewrite <- insert_empty, zget_insert_ne, zget_empty by done. change 0 with (pde_word zero_pde). apply pde_roundtrip, zero_fits.
Qed.

Lemma acpi_paging_inv : pg_inv acpi_paging {[0x300]} ∅.
Proof.
  assert (Hp : forall i, table_present acpi_paging i -> i = 768).
  { intros i Hi. unfold table_present in Hi. rewrite acpi_pde in Hi. by case_decide. }
  constructor; [done|apply example_free_inv|..].
  - intros i _ ->%Hp. unfold PagingProofs.table_of. rewrite acpi_pde, decide_True by done. split; [by vm_compute|]. rewrite elem_of_singleton. by vm_compute.
  - by intros i j _ _ ->%Hp ->%Hp.
  - intros i Hi. exfalso. apply Hi, zget_empty.
  - cbn [page_table_runtime_owned_count page_table_runtime_owned acpi_paging]. by rewrite count_flags_empty.
  - intros Hc. exfalso. by apply Hc.
Qed.

(** The pages of the first MiB, then their bytes. *)
Lemma acpi_low : low acpi_paging.
Proof.
  assert (Hpages : forallb (fun k => bool_decide (paging_get_physical_address (0xC0000000 + 4096 * k) acpi_paging = Some (4096 * k))) (seqZ 0 256) = true)
    by (vm_compute; reflexivity).
  rewrite forallb_forall in Hpages. intros a Ha. specialize (Hpages (a / 4096)). rewrite bool_decide_eq_true in Hpages.
  assert (Hk : 0 <= a / 4096 < 256) by (split; [apply Z.div_pos; lia|apply Z.div_lt_upper_bound; lia]).
  specialize (Hpages ltac:(apply list_elem_of_In, elem_of_seqZ; lia)). pose proof (Z.div_mod a 4096 ltac:(lia)) as Hdm. pose proof (Z.mod_pos_bound a 4096 ltac:(lia)).
  assert (Hmod : (0xC0000000 + a) mod 4096 = a mod 4096) by (replace (0xC0000000 + a) with (a + 786432 * 4096) by lia; apply Z.mod_add; lia).
  assert (Hmod0 : (0xC0000000 + 4096 * (a / 4096)) mod 4096 = 0) by (replace (0xC0000000 + 4096 * (a / 4096)) with ((786432 + a / 4096) * 4096) by lia; apply Z.mod_mul; lia).
  assert (Hpg : (0xC0000000 + a) / 4096 = (0xC0000000 + 4096 * (a / 4096)) / 4096).
  { replace (0xC0000000 + a) with (786432 * 4096 + a) by lia. replace (0xC0000000 + 4096 * (a / 4096)) with ((786432 + a / 4096) * 4096) by lia.
    rewrite Z.div_add_l, Z.div_mul by lia. done. }
  apply page_indices in Hpg as [E1 E2]; [|lia|lia].
  rewrite (translate_unfold _ _ _ _ acpi_paging_inv) in Hpages. rewrite (translate_unfold _ _ _ _ acpi_paging_inv). cbv zeta in *. rewrite E1, E2.
  destruct (_ =? 0); [done|]. destruct (_ =? 0); [done|]. 
  match goal with |- context [pte_page_frame_base ?e] => set (b := pte_page_frame_base e) in * end.
  assert (Hb : 0 <= b < 2 ^ 20) by (eapply fits_base; [apply pte_of_word_fits|reflexivity]). clearbody b. rewrite page_address in Hpages |- * by done. injection Hpages as Hx. f_equal. lia.
Qed.

Lemma example_unmapped_table t n : t = 0x7FE0000 /\ n = 40 \/ t = 0x7FE1000 /\ n = 44 -> placed acpi_paging t n.
Proof.
  intros Ht. assert (Hnone : forall k, 0xC7C00000 <= k < 0xC8000000 -> paging_get_physical_address k acpi_paging = None).
  { intros k Hk. rewrite (translate_unfold _ _ _ _ acpi_paging_inv). cbv zeta. rewrite acpi_pde, decide_False; [done|].
    intros E. pose proof (indices_page k ltac:(lia)) as Hp. rewrite E in Hp. pose proof (pt_index_range k). pose proof (Z.div_mod k 4096 ltac:(lia)).
    pose proof (Z.mod_pos_bound k 4096 ltac:(lia)). lia. }
  destruct Ht as [[-> ->]|[-> ->]]; (split; [lia|]; split; [lia|]; right; change (window _) with 0xC7FE0000 || change (window _) with 0xC7FE1000;
    split_and!; [lia|lia|lia|]; intros i Hi; left; apply Hnone; lia).
Qed.

Lemma example_firmware : firmware example_memory acpi_paging.
Proof.
  assert (Hroot : root example_memory = Some 0xE0000) by (vm_compute; reflexivity). constructor.
  - intros a. apply Z.mod_pos_bound. lia.
  - apply acpi_low.
  - intros _. by vm_compute.
  - assert (Hall : forallb (fun a => negb (signed example_memory ACPI_RSDP_SIGNATURE a) || (example_memory (a + 15) <? 2)) (areas example_memory) = true) by (vm_compute; reflexivity).
    intros a Ha Hs _ Hrev. rewrite forallb_forall in Hall. specialize (Hall a ltac:(by apply list_elem_of_In)). rewrite Hs in Hall. apply Z.ltb_lt in Hall. lia.
  - intros r. rewrite Hroot. intros [= <-]. change (le32 example_memory (0xE0000 + 16)) with 0x7FE0000. cbv zeta. intros _.
    change (length_of example_memory 0x7FE0000) with 40. change (Z.max 36 40) with 40. split; [apply example_unmapped_table; auto|]. intros _ a Ha.
    change (listed example_memory 0x7FE0000) with [0x7FE1000] in Ha. apply list_elem_of_singleton in Ha as ->.
    change (length_of example_memory 0x7FE1000) with 44. change (Z.max 36 44) with 44. apply example_unmapped_table. auto.
Qed.

Lemma example_table_found :
  fst <$> advanced_configuration_and_power_interface_find_table true example_memory ACPI_MADT_SIGNATURE acpi_paging = Some (Some 0xC7FE1000).
Proof. vm_compute. reflexivity. Qed.

Lemma example_table_of : table_of example_memory ACPI_MADT_SIGNATURE = Some 0x7FE1000.
Proof. vm_compute. reflexivity. Qed.

(** The example's table is found, and read through the page table made for it. *)
Lemma acpi_find_table_exact_witness :
  exists o q F' O', advanced_configuration_and_power_interface_find_table true example_memory ACPI_MADT_SIGNATURE acpi_paging = Some (window <$> o, q) /\
    pg_inv q F' O' /\ (o = Some 0x7FE1000 \/ F' = ∅).
Proof.
  destruct (acpi_find_table_exact true example_memory ACPI_MADT_SIGNATURE acpi_paging {[0x300]} ∅ eq_refl acpi_paging_inv example_firmware)
    as (o & q & F' & O' & H1 & H2 & H3 & _).
  rewrite example_table_of in H3. exists o, q, F', O'. split; [exact H1|]. split; [exact H2|exact H3].
Defined.

End example.

End Tables.

(** ** The interrupt topology table *)

Module Madt.
Import Tables.

Definition MAX_LOCAL_APIC_COUNT : nat := 32.
Definition MAX_IOAPIC_COUNT : nat := 8.
Definition MAX_ISO_COUNT : nat := 16.
Definition sizeof_madt : Z := 44.

Inductive state_name :=
  | NotInitialized | Search | NotFound | ChecksumInvalid | EntryLengthInvalid | EntryOutOfBounds | Lapic64Unsupported
  | ReadyNoIoapic | ReadyIoapicFound.

Record LocalApicInfo := mkLapic { acpi_processor_id : Z; apic_id : Z; lapic_flags : Z }.
Record IoApicInfo := mkIoApic { io_id : Z; physical_base : Z; gsi_base : Z }.
Record IsoInfo := mkIso { bus : Z; source_irq : Z; global_system_interrupt : Z; iso_flags : Z }.

(** An array with its count is the list of the entries filled. *)
Record madt := mk {
  acpi_madt_state_name : state_name;
  acpi_madt_available : Z;
  acpi_madt_local_apic_physical_base : Z;
  acpi_madt_local_apic_info : list LocalApicInfo;
  acpi_madt_io_apic_info : list IoApicInfo;
  acpi_madt_iso_info : list IsoInfo }.

Definition with_state (n : state_name) (s : madt) : madt :=
  mk n (acpi_madt_available s) (acpi_madt_local_apic_physical_base s) (acpi_madt_local_apic_info s)
     (acpi_madt_io_apic_info s) (acpi_madt_iso_info s).
Definition with_base (b : Z) (s : madt) : madt :=
  mk (acpi_madt_state_name s) (acpi_madt_available s) b (acpi_madt_local_apic_info s) (acpi_madt_io_apic_info s) (acpi_madt_iso_info s).
Definition with_lapics (l : list LocalApicInfo) (s : madt) : madt :=
  mk (acpi_madt_state_name s) (acpi_madt_available s) (acpi_madt_local_apic_physical_base s) l (acpi_madt_io_apic_info s) (acpi_madt_iso_info s).
Definition with_ioapics (l : list IoApicInfo) (s : madt) : madt :=
  mk (acpi_madt_state_name s) (acpi_madt_available s) (acpi_madt_local_apic_physical_base s) (acpi_madt_local_apic_info s) l (acpi_madt_iso_info s).
Definition with_isos (l : list IsoInfo) (s : madt) : madt :=
  mk (acpi_madt_state_name s) (acpi_madt_available s) (acpi_madt_local_apic_physical_base s) (acpi_madt_local_apic_info s) (acpi_madt_io_apic_info s) l.

(** Appending to an array that may be full: then the entry is not read. *)
Definition record_entry {E} (limit : nat) (l : list E) (e : option E) : option (list E) :=
  if (length l <? limit)%nat then x ← e; Some (l ++ [x]) else Some l.

(** [rd p] is the byte at pointer [p]; [false] is the error return. *)
Definition parse_entry (rd : Z -> option Z) (p : Z) (s : madt) : option (bool * madt) :=
  type ← rd p;
  length ← rd (p + 1);
  if (type =? 0) && (8 <=? length) then
    l ← record_entry MAX_LOCAL_APIC_COUNT (acpi_madt_local_apic_info s)
          (x ← rd (p + 2); y ← rd (p + 3); z ← load32 rd (p + 4); Some (mkLapic x y z));
    Some (true, with_lapics l s)
  else if (type =? 1) && (12 <=? length) then
    l ← record_entry MAX_IOAPIC_COUNT (acpi_madt_io_apic_info s)
          (x ← rd (p + 2); y ← load32 rd (p + 4); z ← load32 rd (p + 8); Some (mkIoApic x y z));
    Some (true, with_ioapics l s)
  else if (type =? 2) && (10 <=? length) then
    l ← record_entry MAX_ISO_COUNT (acpi_madt_iso_info s)
          (w ← rd (p + 2); x ← rd (p + 3); y ← load32 rd (p + 4); z ← load16 rd (p + 8); Some (mkIso w x y z));
    Some (true, with_isos l s)
  else if (type =? 5) && (12 <=? length) then
    address ← load64 rd (p + 4);
    if negb (Z.shiftr address 32 =? 0) then Some (false, with_state Lapic64Unsupported s)
    else Some (true, with_base (u32 address) s)
  else Some (true, s).

(** The walk over the entries; an entry is at least two bytes long. *)
Fixpoint parse_loop (fuel : nat) (rd : Z -> option Z) (p entry_end : Z) (s : madt) : option (bool * madt) :=
  if p + 2 <=? entry_end then
    match fuel with
    | O => None
    | S fuel =>
      length ← rd (p + 1);
      if length <? 2 then Some (false, with_state EntryLengthInvalid s)
      else if entry_end <? p + length then Some (false, with_state EntryOutOfBounds s)
      else
        '(ok, s) ← parse_entry rd p s;
        if negb ok then Some (false, s) else parse_loop fuel rd (p + length) entry_end s
    end
  else Some (true, s).

Definition finish (s : madt) : madt :=
  mk (if (length (acpi_madt_io_apic_info s) =? 0)%nat then ReadyNoIoapic else ReadyIoapicFound) 1 (acpi_madt_local_apic_physical_base s)
     (acpi_madt_local_apic_info s) (acpi_madt_io_apic_info s) (acpi_madt_iso_info s).

(** [ptr] is the table. *)
Definition acpi_parse_madt (rd : Z -> option Z) (ptr : Z) (s : madt) : option (Z * madt) :=
  length ← load32 rd (ptr + 4);
  valid ← acpi_checksum_is_valid rd ptr length;
  if negb valid then Some (0, with_state ChecksumInvalid s)
  else
    base ← load32 rd (ptr + 36);
    '(ok, s) ← parse_loop (Z.to_nat length) rd (ptr + sizeof_madt) (ptr + length) (with_base base s);
    Some (if (ok : bool) then (1, finish s) else (0, s)).

Section search.
  Context {A : Type} `{FrameAllocator A} (realtime : bool).

Definition advanced_configuration_and_power_interface_madt_initialize (mem : Z -> Z) (s : madt) (p : paging A) : option (madt * paging A) :=
  let s := mk Search 0 0 [] [] [] in
  '(sdt, p) ← advanced_configuration_and_power_interface_find_table realtime mem ACPI_MADT_SIGNATURE p;
  match sdt with
  | None => Some (with_state NotFound s, p)
  | Some sdt => '(_, s) ← acpi_parse_madt (reader mem p) sdt s; Some (s, p)
  end.

End search.

(** *** Queries *)

(** Fields of an entry, zero past the count. *)
Definition field {E} (l : list E) (f : E -> Z) (index : Z) : Z :=
  if Z.of_nat (length l) <=? index then 0 else match l !! Z.to_nat index with Some e => f e | None => 0 end.

Definition madt_get_local_apic_count (s : madt) : Z := Z.of_nat (length (acpi_madt_local_apic_info s)).
Definition madt_get_local_apic_id (index : Z) (s : madt) : Z := field (acpi_madt_local_apic_info s) apic_id index.
Definition madt_is_local_apic_enabled (index : Z) (s : madt) : Z :=
  field (acpi_madt_local_apic_info s) (fun e => if negb (Z.land (lapic_flags e) 1 =? 0) then 1 else 0) index.
Definition madt_get_enabled_local_apic_count (s : madt) : Z :=
  fold_left (fun count e => if negb (Z.land (lapic_flags e) 1 =? 0) then u8 (count + 1) else count) (acpi_madt_local_apic_info s) 0.
Definition madt_get_io_apic_count (s : madt) : Z := Z.of_nat (length (acpi_madt_io_apic_info s)).
Definition madt_get_io_apic_id (index : Z) (s : madt) : Z := field (acpi_madt_io_apic_info s) io_id index.
Definition madt_get_io_apic_physical_base (index : Z) (s : madt) : Z := field (acpi_madt_io_apic_info s) physical_base index.
Definition madt_get_io_apic_gsi_base (index : Z) (s : madt) : Z := field (acpi_madt_io_apic_info s) gsi_base index.

Definition find_iso (irq : Z) (l : list IsoInfo) : option IsoInfo :=
  List.find (fun iso => (bus iso =? 0) && (source_irq iso =? irq)) l.

(** The interrupt and the flags of an ISA line, [None] without a MADT. *)
Definition madt_resolve_isa_irq (irq : Z) (s : madt) : option (Z * Z) :=
  if acpi_madt_available s =? 0 then None
  else match find_iso irq (acpi_madt_iso_info s) with
       | Some iso => Some (global_system_interrupt iso, iso_flags iso)
       | None => Some (irq, 0)
       end.

(** The loop keeps the best unit so far, by its index and base. *)
Fixpoint best_io_apic (gsi index : Z) (l : list IoApicInfo) (best : option (Z * Z)) : option (Z * Z) :=
  match l with
  | [] => best
  | e :: l =>
    best_io_apic gsi (index + 1) l
      (if gsi <? gsi_base e then best
       else match best with
            | None => Some (index, gsi_base e)
            | Some (_, b) => if b <? gsi_base e then Some (index, gsi_base e) else best
            end)
  end.

Definition madt_find_io_apic_for_gsi (gsi : Z) (s : madt) : option Z :=
  if (acpi_madt_available s =? 0) || (length (acpi_madt_io_apic_info s) =? 0)%nat then None
  else fst <$> best_io_apic gsi 0 (acpi_madt_io_apic_info s) None.

(** *** The parser stays in the table *)

(** The bytes that can be read. *)
Definition readable (rd : Z -> option Z) (lo hi : Z) : Prop := forall a, lo <= a < hi -> exists b, rd a = Some b /\ 0 <= b < 2 ^ 8.

Section readable.
  Context (rd : Z -> option Z) (lo hi : Z) (Hrd : readable rd lo hi).

Lemma byte_readable a : lo <= a < hi -> exists b, rd a = Some b /\ 0 <= b < 2 ^ 8.
Proof. apply Hrd. Qed.

Lemma load16_readable a : lo <= a -> a + 2 <= hi -> exists v, load16 rd a = Some v /\ 0 <= v < 2 ^ 16.
Proof.
  intros H1 H2. unfold load16. destruct (byte_readable a) as (x & Ex & ?), (byte_readable (a + 1)) as (y & Ey & ?); [lia..|]. rewrite Ex. cbn [mbind option_bind]. rewrite Ey. cbn. eexists. split; [done|lia].
Qed.

Lemma load32_readable a : lo <= a -> a + 4 <= hi -> exists v, load32 rd a = Some v /\ in32 v.
Proof.
  intros H1 H2. unfold load32. destruct (load16_readable a) as (x & Ex & ?), (load16_readable (a + 2)) as (y & Ey & ?); [lia..|]. rewrite Ex. cbn [mbind option_bind]. rewrite Ey. cbn. eexists. split; [done|lia].
Qed.

Lemma load64_readable a : lo <= a -> a + 8 <= hi -> exists v, load64 rd a = Some v.
Proof.
  intros H1 H2. unfold load64. destruct (load32_readable a) as (x & Ex & ?), (load32_readable (a + 4)) as (y & Ey & ?); [lia..|]. rewrite Ex. cbn [mbind option_bind]. rewrite Ey. by eexists.
Qed.

Lemma sum_readable n : forall a, lo <= a -> a + Z.of_nat n <= hi -> exists v, byte_sum rd a n = Some v.
Proof.
  induction n as [|n IH]; intros a H1 H2; [by eexists|]. cbn [byte_sum]. destruct (byte_readable a) as (x & -> & _); [lia|].
  destruct (IH (a + 1)) as [v Hv]; [lia|lia|]. cbn [mbind option_bind]. rewrite Hv. by eexists.
Qed.

End readable.

Definition within_limits (s : madt) : Prop :=
  (length (acpi_madt_local_apic_info s) <= 32)%nat /\ (length (acpi_madt_io_apic_info s) <= 8)%nat /\ (length (acpi_madt_iso_info s) <= 16)%nat.

Lemma record_readable {E} limit (l : list E) (e : option E) : is_Some e -> (length l <= limit)%nat ->
  exists l', record_entry limit l e = Some l' /\ (length l' <= limit)%nat.
Proof.
  intros [x ->] Hl. unfold record_entry. destruct (Nat.ltb_spec (length l) limit); [|by eexists]. eexists. split; [done|]. rewrite length_app. cbn. lia.
Qed.

Ltac read_field Hrd :=
  match goal with
  | |- context [load64 _ ?a] => destruct (load64_readable _ _ _ Hrd a) as (? & ->); [lia|lia|]
  | |- context [load32 _ ?a] => destruct (load32_readable _ _ _ Hrd a) as (? & -> & ?); [lia|lia|]
  | |- context [load16 _ ?a] => destruct (load16_readable _ _ _ Hrd a) as (? & -> & ?); [lia|lia|]
  | rd : Z -> option Z |- context [?rd ?a] => destruct (byte_readable _ _ _ Hrd a) as (? & -> & ?); [lia|]
  end; cbn [mbind option_bind].

(** One entry is read inside its own length. *)
Lemma parse_entry_inside rd p n s : readable rd p (p + n) -> rd (p + 1) = Some n -> 2 <= n -> within_limits s ->
  exists ok s', parse_entry rd p s = Some (ok, s') /\ within_limits s'.
Proof.
  intros Hrd Hn H2 (L1 & L2 & L3). unfold parse_entry. destruct (byte_readable _ _ _ Hrd p) as (t & -> & _); [lia|]. rewrite Hn. cbn [mbind option_bind].
  destruct (Z.leb_spec 8 n), (Z.leb_spec 12 n), (Z.leb_spec 10 n); rewrite ?andb_true_r, ?andb_false_r; try lia;
    repeat match goal with |- context [if t =? ?k then _ else _] => destruct (t =? k) end;
    try (eexists _, _; split; [done|by split_and!]);
    try (repeat read_field Hrd; match goal with |- context [record_entry ?m ?l (Some ?e)] =>
           destruct (record_readable m l (Some e) ltac:(by eexists) ltac:(done)) as (l' & -> & ?) end;
         cbn [mbind option_bind]; eexists _, _; split; [done|by split_and!]).
  all: repeat read_field Hrd; case_match; (eexists _, _; split; [done|by split_and!]).
Qed.

Lemma parse_loop_inside rd hi n : forall p s, readable rd p hi -> hi - p <= 2 * Z.of_nat n + 1 -> within_limits s ->
  exists ok s', parse_loop n rd p hi s = Some (ok, s') /\ within_limits s'.
Proof.
  induction n as [|n IH]; intros p s Hrd Hn Hs; cbn [parse_loop].
  - rewrite (proj2 (Z.leb_gt (p + 2) hi)) by lia. by eexists _, _.
  - destruct (Z.leb_spec (p + 2) hi); [|by eexists _, _]. destruct (byte_readable _ _ _ Hrd (p + 1)) as (len & Hlen & Hr); [lia|]. rewrite Hlen.
    cbn [mbind option_bind]. destruct (Z.ltb_spec len 2); [by eexists _, _|]. destruct (Z.ltb_spec hi (p + len)); [by eexists _, _|].
    destruct (parse_entry_inside rd p len s) as (ok & s1 & -> & Hs1); [intros a Ha; apply Hrd; lia|done|lia|done|]. cbn [mbind option_bind].
    destruct ok; cbn [negb]; [|by eexists _, _]. apply IH; [intros a Ha; apply Hrd; lia|lia|done].
Qed.

(** C24: Whatever bytes an interrupt table holds, the MADT parser returns, no
    array overflows, and no byte is read outside the table or, when the table is
    shorter than its fixed part of 44 bytes, outside those 44 bytes: the parser does
    not fault although nothing else can be read. *)
Theorem madt_parse_stays_inside rd ptr length s :
  load32 rd (ptr + 4) = Some length -> readable rd ptr (ptr + Z.max sizeof_madt length) -> within_limits s ->
  exists v s', acpi_parse_madt rd ptr s = Some (v, s') /\ within_limits s'.
Proof.
  unfold sizeof_madt. intros Hl Hrd Hs. unfold acpi_parse_madt, acpi_checksum_is_valid, sizeof_madt. rewrite Hl. cbn [mbind option_bind].
  destruct (load32_readable _ _ _ Hrd (ptr + 4)) as (? & E & Hr); [lia|lia|]. rewrite Hl in E. injection E as <-.
  destruct (Z.eqb_spec length 0); cbn [mbind option_bind negb]; [by eexists _, _|].
  destruct (sum_readable _ _ _ Hrd (Z.to_nat length) ptr) as [v ->]; [lia|lia|]. cbn [mbind option_bind].
  destruct (v =? 0); cbn [negb]; [|by eexists _, _]. destruct (load32_readable _ _ _ Hrd (ptr + 36)) as (base & -> & _); [lia|lia|]. cbn [mbind option_bind].
  destruct (parse_loop_inside rd (ptr + length) (Z.to_nat length) (ptr + 44) (with_base base s)) as (ok & s' & -> & Hs'); [intros a Ha; apply Hrd; lia|lia|done|].
  cbn [mbind option_bind]. by destruct ok; eexists _, _.
Qed.

(** The bytes of a table that can be read when nothing else can. *)
Definition only (base : Z) (l : list Z) (a : Z) : option Z := if a <? base then None else l !! Z.to_nat (a - base).

Lemma only_readable base l : Forall (fun b => 0 <= b < 2 ^ 8) l -> readable (only base l) base (base + Z.of_nat (length l)).
Proof.
  intros Hl a Ha. unfold only. rewrite (proj2 (Z.ltb_ge a base)) by lia.
  destruct (lookup_lt_is_Some_2 l (Z.to_nat (a - base)) ltac:(lia)) as [b Hb]. exists b. split; [done|]. exact (Forall_lookup_1 _ _ _ _ Hl Hb).
Qed.

(** A table of 44 bytes with no entries. *)
Lemma madt_parse_stays_inside_witness :
  exists v s', acpi_parse_madt (only 0xC7FE1000 example_madt) 0xC7FE1000 (mk Search 0 0 [] [] []) = Some (v, s') /\ within_limits s'.
Proof.
  apply (madt_parse_stays_inside (only 0xC7FE1000 example_madt) 0xC7FE1000 44).
  - vm_compute. reflexivity.
  - apply (only_readable 0xC7FE1000 example_madt). unfold example_madt. repeat (constructor; [lia|]). constructor.
  - split_and!; cbn; lia.
Defined.

(** A table of less than 44 bytes is read past its end: the local APIC address
    of one of 36 bytes is what follows it in memory, and a fault when nothing does. *)
Lemma short_madt_reads_past rd ptr s :
  load32 rd (ptr + 4) = Some 36 -> acpi_checksum_is_valid rd ptr 36 = Some true ->
  acpi_parse_madt rd ptr s = base ← load32 rd (ptr + 36); Some (1, finish (with_base base s)).
Proof.
  intros Hl Hc. unfold acpi_parse_madt, sizeof_madt. rewrite Hl. cbn [mbind option_bind]. rewrite Hc. cbn [mbind option_bind negb].
  assert (H : forall n s, parse_loop n rd (ptr + 44) (ptr + 36) s = Some (true, s)).
  { intros [|n] s'; cbn [parse_loop]; by rewrite (proj2 (Z.leb_gt _ _)) by lia. }
  destruct (load32 rd (ptr + 36)); cbn [mbind option_bind]; [|done]. by rewrite H.
Qed.

(** *** The parser reads what a table says *)

Inductive entry :=
  | Lapic (i : LocalApicInfo)
  | Ioapic (reserved : Z) (i : IoApicInfo)
  | Iso (i : IsoInfo)
  | Address (reserved0 reserved1 : Z) (base : Z)
  | Other (type : Z) (payload : list Z).

Definition bytes2 (v : Z) : list Z := [v mod 2 ^ 8; v / 2 ^ 8 mod 2 ^ 8].
Definition bytes4 (v : Z) : list Z := bytes2 v ++ bytes2 (v / 2 ^ 16).

Definition encode (e : entry) : list Z :=
  match e with
  | Lapic i => [0; 8; acpi_processor_id i; apic_id i] ++ bytes4 (lapic_flags i)
  | Ioapic r i => [1; 12; io_id i; r] ++ bytes4 (physical_base i) ++ bytes4 (gsi_base i)
  | Iso i => [2; 10; bus i; source_irq i] ++ bytes4 (global_system_interrupt i) ++ bytes2 (iso_flags i)
  | Address r0 r1 b => [5; 12; r0; r1] ++ bytes4 b ++ bytes4 0
  | Other type payload => [type; 2 + Z.of_nat (length payload)] ++ payload
  end.

Definition wf_entry (e : entry) : Prop :=
  match e with
  | Lapic i => in32 (lapic_flags i)
  | Ioapic _ i => in32 (physical_base i) /\ in32 (gsi_base i)
  | Iso i => in32 (global_system_interrupt i) /\ 0 <= iso_flags i < 2 ^ 16
  | Address _ _ b => in32 b
  | Other type _ => type <> 0 /\ type <> 1 /\ type <> 2 /\ type <> 5
  end.

Definition learn (s : madt) (e : entry) : madt :=
  match e with
  | Lapic i => with_lapics (take MAX_LOCAL_APIC_COUNT (acpi_madt_local_apic_info s ++ [i])) s
  | Ioapic _ i => with_ioapics (take MAX_IOAPIC_COUNT (acpi_madt_io_apic_info s ++ [i])) s
  | Iso i => with_isos (take MAX_ISO_COUNT (acpi_madt_iso_info s ++ [i])) s
  | Address _ _ b => with_base b s
  | Other _ _ => s
  end.

Definition stored (rd : Z -> option Z) (p : Z) (l : list Z) : Prop := forall i b, l !! i = Some b -> rd (p + Z.of_nat i) = Some b.

Lemma stored_app rd p l l' : stored rd p (l ++ l') -> stored rd p l /\ stored rd (p + Z.of_nat (length l)) l'.
Proof.
  intros H. split; intros i b Hi.
  - apply H. by apply lookup_app_l_Some.
  - replace (p + Z.of_nat (length l) + Z.of_nat i) with (p + Z.of_nat (length l + i)) by lia. apply H.
    rewrite lookup_app_r by lia. by replace (length l + i - length l)%nat with i by lia.
Qed.

Lemma load16_low rd p v : stored rd p (bytes2 v) -> load16 rd p = Some (v mod 2 ^ 16).
Proof.
  intros H. unfold load16. pose proof (H 0%nat _ eq_refl) as H0. pose proof (H 1%nat _ eq_refl) as H1.
  rewrite Z.add_0_r in H0. change (Z.of_nat 1) with 1 in H1. rewrite H0, H1. cbn [mbind option_bind]. f_equal.
  change (2 ^ 16) with (2 ^ 8 * 2 ^ 8). rewrite Z.rem_mul_r by lia. lia.
Qed.

Lemma load16_stored rd p v : 0 <= v < 2 ^ 16 -> stored rd p (bytes2 v) -> load16 rd p = Some v.
Proof. intros Hv H. rewrite (load16_low rd p v H). f_equal. by apply Z.mod_small. Qed.

Lemma load32_stored rd p v : in32 v -> stored rd p (bytes4 v) -> load32 rd p = Some v.
Proof.
  intros Hv H. apply stored_app in H as [H1 H2]. unfold load32. rewrite (load16_low rd p v H1). cbn [mbind option_bind].
  change (Z.of_nat (length (bytes2 v))) with 2 in H2.
  rewrite (load16_stored rd (p + 2) (v / 2 ^ 16)); [cbn; f_equal; pose proof (Z.div_mod v (2 ^ 16)); lia| |done].
  split; [apply Z.div_pos; lia|apply Z.div_lt_upper_bound; lia].
Qed.

Lemma stored_head rd p a b c d l : stored rd p ([a; b; c; d] ++ l) ->
  rd p = Some a /\ rd (p + 1) = Some b /\ rd (p + 2) = Some c /\ rd (p + 3) = Some d /\ stored rd (p + 4) l.
Proof.
  intros H. apply stored_app in H as [H1 H2]. split_and!; [|by apply (H1 1%nat)|by apply (H1 2%nat)|by apply (H1 3%nat)|exact H2].
  rewrite <- (Z.add_0_r p). by apply (H1 0%nat).
Qed.

Lemma record_take {E} limit (l : list E) e : (length l <= limit)%nat -> record_entry limit l (Some e) = Some (take limit (l ++ [e])).
Proof.
  intros Hl. unfold record_entry. destruct (Nat.ltb_spec (length l) limit); [by rewrite take_ge by (rewrite length_app; cbn; lia)|].
  assert (length l = limit) as <- by lia. by rewrite take_app_length.
Qed.

Lemma parse_encoded rd p e s : wf_entry e -> within_limits s -> stored rd p (encode e) ->
  rd (p + 1) = Some (Z.of_nat (length (encode e))) /\ parse_entry rd p s = Some (true, learn s e).
Proof.
  intros Hw (L1 & L2 & L3) Hs. unfold parse_entry. destruct e as [[id aid fl]|r [id pb gb]|[b src gsi fl]|r0 r1 base|type payload]; cbn [encode wf_entry learn] in *.
  - apply stored_head in Hs as (-> & -> & -> & -> & H4). split; [done|]. cbn -[Z.add record_entry load32 take]. rewrite (load32_stored rd (p + 4) fl Hw H4).
    cbn [mbind option_bind]. by rewrite record_take.
  - apply stored_head in Hs as (-> & -> & -> & -> & H4). apply stored_app in H4 as [H4 H8]. split; [done|]. cbn -[Z.add record_entry load32 take].
    change (Z.of_nat (length (bytes4 pb))) with 4 in H8. rewrite <- Z.add_assoc in H8. change (4 + 4) with 8 in H8.
    rewrite (load32_stored rd (p + 4) pb (proj1 Hw) H4). cbn [mbind option_bind]. rewrite (load32_stored rd (p + 8) gb (proj2 Hw) H8).
    cbn [mbind option_bind]. by rewrite record_take.
  - apply stored_head in Hs as (-> & -> & -> & -> & H4). apply stored_app in H4 as [H4 H8]. split; [done|]. cbn -[Z.add record_entry load32 load16 take].
    change (Z.of_nat (length (bytes4 gsi))) with 4 in H8. rewrite <- Z.add_assoc in H8. change (4 + 4) with 8 in H8.
    rewrite (load32_stored rd (p + 4) gsi (proj1 Hw) H4). cbn [mbind option_bind]. rewrite (load16_stored rd (p + 8) fl (proj2 Hw) H8).
    cbn [mbind option_bind]. by rewrite record_take.
  - apply stored_head in Hs as (-> & -> & _ & _ & H4). apply stored_app in H4 as [H4 H8]. split; [done|]. cbn -[Z.add Z.shiftr u32 with_base load64].
    change (Z.of_nat (length (bytes4 base))) with 4 in H8. unfold load64.
    rewrite (load32_stored rd (p + 4) base Hw H4). cbn [mbind option_bind]. rewrite (load32_stored rd (p + 4 + 4) 0 ltac:(lia) H8).
    cbn [mbind option_bind]. rewrite Z.mul_0_l, Z.add_0_r, Z.shiftr_div_pow2, Z.div_small by lia. cbn [negb Z.eqb]. by rewrite u32_small.
  - pose proof (Hs 0%nat type eq_refl) as H0. rewrite Z.add_0_r in H0. pose proof (Hs 1%nat _ eq_refl) as H1. change (Z.of_nat 1) with 1 in H1.
    rewrite H0, H1. cbn [mbind option_bind]. destruct Hw as (W0 & W1 & W2 & W5). rewrite !(proj2 (Z.eqb_neq type _)) by done. cbn. split; [f_equal; lia|done].
Qed.

Lemma learn_limits s e : within_limits s -> within_limits (learn s e).
Proof. intros (L1 & L2 & L3). destruct e; split_and!; cbn -[take]; try done; rewrite length_take; apply Nat.le_min_l. Qed.

Lemma parse_all rd es : forall n p s, Forall wf_entry es -> within_limits s -> stored rd p (concat (encode <$> es)) -> (length es <= n)%nat ->
  parse_loop n rd p (p + Z.of_nat (length (concat (encode <$> es)))) s = Some (true, fold_left learn es s).
Proof.
  induction es as [|e es IH]; intros n p s Hw Hlim Hs Hn.
  - destruct n; cbn; by rewrite (proj2 (Z.leb_gt _ _)) by lia.
  - destruct n as [|n]; [cbn in Hn; lia|]. apply Forall_cons in Hw as [He Hw]. cbn [fmap list_fmap concat fold_left] in *.
    apply stored_app in Hs as [Hs1 Hs2]. destruct (parse_encoded rd p e s He Hlim Hs1) as [Hl Hp]. cbn [parse_loop].
    assert (Hlen : 2 <= Z.of_nat (length (encode e))) by (destruct e; cbn; rewrite ?length_app; cbn; lia).
    rewrite length_app, Nat2Z.inj_add. rewrite (proj2 (Z.leb_le (p + 2) _)) by lia. rewrite Hl. cbn [mbind option_bind].
    rewrite (proj2 (Z.ltb_ge _ 2)) by lia. rewrite (proj2 (Z.ltb_ge _ (p + _))) by lia. rewrite Hp. cbn [mbind option_bind negb].
    rewrite Z.add_assoc. apply IH; [done|by apply learn_limits|done|cbn in Hn; lia].
Qed.

(** What the entries say, kind by kind. *)
Definition lapics_of (es : list entry) : list LocalApicInfo := omap (fun e => match e with Lapic i => Some i | _ => None end) es.
Definition ioapics_of (es : list entry) : list IoApicInfo := omap (fun e => match e with Ioapic _ i => Some i | _ => None end) es.
Definition isos_of (es : list entry) : list IsoInfo := omap (fun e => match e with Iso i => Some i | _ => None end) es.
Definition bases_of (es : list entry) : list Z := omap (fun e => match e with Address _ _ b => Some b | _ => None end) es.

Lemma take_step {E} limit (l : list E) e l' : take limit (take limit (l ++ [e]) ++ l') = take limit (l ++ e :: l').
Proof.
  change (e :: l') with ([e] ++ l'). rewrite app_assoc. generalize (l ++ [e]). clear. intros l.
  destruct (decide (length l <= limit)%nat).
  - by rewrite (take_ge l) by lia.
  - rewrite (take_app_le (take limit l)), take_take, Nat.min_id by (rewrite length_take; lia). by rewrite take_app_le by lia.
Qed.

Lemma learn_all es : forall s, within_limits s ->
  fold_left learn es s =
  mk (acpi_madt_state_name s) (acpi_madt_available s) (default (acpi_madt_local_apic_physical_base s) (last (bases_of es)))
     (take MAX_LOCAL_APIC_COUNT (acpi_madt_local_apic_info s ++ lapics_of es))
     (take MAX_IOAPIC_COUNT (acpi_madt_io_apic_info s ++ ioapics_of es))
     (take MAX_ISO_COUNT (acpi_madt_iso_info s ++ isos_of es)).
Proof.
  induction es as [|e es IH]; intros s Hs; cbn [fold_left].
  - destruct Hs as (H1 & H2 & H3). cbn. rewrite !app_nil_r, !take_ge by done. by destruct s.
  - rewrite IH by (by apply learn_limits). destruct e; cbn -[take]; rewrite ?take_step; try done.
    rewrite last_cons. fold (bases_of es). by destruct (last (bases_of es)).
Qed.

(** C23: The MADT parser reads what the table says: a table with a valid
    checksum whose entries are well formed gives the first 32 local APICs, 8
    I/O APICs and 16 overrides it lists, in order, and the local APIC address
    of its last address entry, or of its header. *)
Theorem madt_parse_roundtrip rd ptr es base flags state :
  Forall wf_entry es -> in32 base ->
  stored rd (ptr + 36) (bytes4 base ++ flags ++ concat (encode <$> es)) -> length flags = 4%nat ->
  let n := 44 + Z.of_nat (length (concat (encode <$> es))) in
  load32 rd (ptr + 4) = Some n -> acpi_checksum_is_valid rd ptr n = Some true ->
  acpi_parse_madt rd ptr (mk state 0 0 [] [] []) =
    Some (1, mk (match ioapics_of es with [] => ReadyNoIoapic | _ => ReadyIoapicFound end) 1
               (default base (last (bases_of es)))
               (take 32 (lapics_of es)) (take 8 (ioapics_of es)) (take 16 (isos_of es))).
Proof.
  intros Hw Hb Hs Hf n Hl Hc. unfold acpi_parse_madt, sizeof_madt. rewrite Hl. cbn [mbind option_bind]. rewrite Hc. cbn [mbind option_bind negb].
  apply stored_app in Hs as [Hs1 Hs2]. apply stored_app in Hs2 as [_ Hs3]. rewrite Hf in Hs3.
  change (Z.of_nat (length (bytes4 base))) with 4 in Hs3. rewrite (load32_stored rd (ptr + 36) base Hb Hs1). cbn [mbind option_bind].
  replace (ptr + 36 + 4 + Z.of_nat 4) with (ptr + 44) in Hs3 by lia. unfold n.
  replace (ptr + (44 + Z.of_nat (length (concat (encode <$> es))))) with (ptr + 44 + Z.of_nat (length (concat (encode <$> es)))) by lia.
  rewrite parse_all; [|done|by split_and!; cbn; lia|done|].
  2:{ assert (length es <= length (concat (encode <$> es)))%nat; [|lia]. clear. induction es as [|e es IH]; [done|]. cbn. rewrite length_app.
      assert (1 <= length (encode e))%nat by (destruct e; cbn; lia). lia. }
  cbn [mbind option_bind]. rewrite learn_all by (split_and!; cbn; lia). unfold finish. cbn -[take].
  by destruct (ioapics_of es).
Qed.

(** A processor, an I/O APIC and the timer override. *)
Definition small_madt : list Z :=
  [65; 80; 73; 67; 74; 0; 0; 0; 1; 214; 0; 0; 0; 0; 0; 0; 0; 0; 0; 0; 0; 0; 0; 0; 0; 0; 0; 0; 0; 0; 0; 0; 0; 0; 0; 0; 0; 0; 224; 254; 0; 0; 0; 0; 0; 8; 0; 0; 1; 0; 0; 0; 1; 12; 2; 0; 0; 0; 192; 254; 0; 0; 0; 0; 2; 10; 0; 0; 2; 0; 0; 0; 0; 0].

Definition small_entries : list entry :=
  [Lapic (mkLapic 0 0 1); Ioapic 0 (mkIoApic 2 0xFEC00000 0); Iso (mkIso 0 0 2 0)].

Fixpoint storedb (rd : Z -> option Z) (p : Z) (l : list Z) : bool :=
  match l with [] => true | b :: l => bool_decide (rd p = Some b) && storedb rd (p + 1) l end.

Lemma storedb_ok rd l : forall p, storedb rd p l = true -> stored rd p l.
Proof.
  induction l as [|b l IH]; intros p H i c Hi; [done|]. cbn in H. apply andb_true_iff in H as [H1%bool_decide_eq_true H2].
  destruct i as [|i]; [injection Hi as <-; by rewrite Z.add_0_r|]. rewrite <- (IH _ H2 i c Hi). f_equal. lia.
Qed.

Lemma madt_parse_roundtrip_witness :
  acpi_parse_madt (only 0xC00F1000 small_madt) 0xC00F1000 (mk Search 0 0 [] [] []) =
    Some (1, mk ReadyIoapicFound 1 0xFEE00000 [mkLapic 0 0 1] [mkIoApic 2 0xFEC00000 0] [mkIso 0 0 2 0]).
Proof.
  apply (madt_parse_roundtrip (only 0xC00F1000 small_madt) 0xC00F1000 small_entries 0xFEE00000 [0; 0; 0; 0] Search).
  - repeat constructor; cbn; lia.
  - lia.
  - apply storedb_ok. vm_compute. reflexivity.
  - reflexivity.
  - vm_compute. reflexivity.
  - vm_compute. reflexivity.
Defined.

(** *** The I/O APIC of an interrupt *)

Definition best_of (gsi : Z) (l : list IoApicInfo) (best : option (Z * Z)) : Prop :=
  match best with
  | Some (i, b) => (exists e, 0 <= i /\ l !! Z.to_nat i = Some e /\ b = gsi_base e) /\ b <= gsi /\
                   forall e, e ∈ l -> gsi_base e <= gsi -> gsi_base e <= b
  | None => forall e, e ∈ l -> gsi < gsi_base e
  end.

Lemma best_io_apic_spec gsi l : forall seen best,
  best_of gsi seen best -> best_of gsi (seen ++ l) (best_io_apic gsi (Z.of_nat (length seen)) l best).
Proof.
  induction l as [|e l IH]; intros seen best Hb; cbn [best_io_apic]; [by rewrite app_nil_r|].
  replace (Z.of_nat (length seen) + 1) with (Z.of_nat (length (seen ++ [e]))) by (rewrite length_app; cbn; lia).
  change (e :: l) with ([e] ++ l). rewrite app_assoc. apply IH.
  assert (Hin : forall x, x ∈ seen ++ [e] -> x ∈ seen \/ x = e) by (intros x Hx; apply elem_of_app in Hx as [?|?%list_elem_of_singleton]; auto).
  assert (Hhere : (seen ++ [e]) !! Z.to_nat (Z.of_nat (length seen)) = Some e) by (by rewrite Nat2Z.id, lookup_app_r, Nat.sub_diag by lia).
  destruct (Z.ltb_spec gsi (gsi_base e)); destruct best as [[i b]|]; cbn [best_of] in *.
  - destruct Hb as ((e' & H0 & He' & Hb') & Hle & Hall). split_and!; [exists e'; split_and!; [done|by apply lookup_app_l_Some|done]|done|].
    intros x [Hx| ->]%Hin Hxl; [by apply Hall|lia].
  - intros x [Hx| ->]%Hin; [by apply Hb|done].
  - destruct Hb as ((e' & H0 & He' & Hb') & Hle & Hall). destruct (Z.ltb_spec b (gsi_base e)); cbn [best_of].
    + split_and!; [exists e; split_and!; [lia|done|done]|done|]. intros x [Hx| ->]%Hin Hxl; [specialize (Hall x Hx Hxl); lia|lia].
    + split_and!; [exists e'; split_and!; [done|by apply lookup_app_l_Some|done]|done|]. intros x [Hx| ->]%Hin Hxl; [by apply Hall|lia].
  - split_and!; [exists e; split_and!; [lia|done|done]|done|]. intros x [Hx| ->]%Hin Hxl; [specialize (Hb x Hx); lia|lia].
Qed.

(** The I/O APIC of an interrupt is the one whose range starts last at or
    before it. *)
Lemma io_apic_for_gsi gsi s index :
  madt_find_io_apic_for_gsi gsi s = Some index ->
  exists e, 0 <= index /\ acpi_madt_io_apic_info s !! Z.to_nat index = Some e /\ gsi_base e <= gsi /\
    forall e', e' ∈ acpi_madt_io_apic_info s -> gsi_base e' <= gsi -> gsi_base e' <= gsi_base e.
Proof.
  unfold madt_find_io_apic_for_gsi. destruct (_ || _); [done|]. pose proof (best_io_apic_spec gsi (acpi_madt_io_apic_info s) [] None) as Hb.
  cbn [length app] in Hb. change (Z.of_nat 0) with 0 in Hb. destruct (best_io_apic gsi 0 _ None) as [[i b]|]; [|done]. intros [= <-].
  assert (Hs : best_of gsi (acpi_madt_io_apic_info s) (Some (i, b))) by (apply Hb; intros e He; by apply elem_of_nil in He).
  cbn [best_of fst] in Hs |- *. destruct Hs as ((e & H0 & He & ->) & Hle & Hall). by exists e.
Qed.

End Madt.
