(* ===== verification/Bus.v ===== *)
(** * I/O APIC and PCI

    Models arch/i386/cpu/ioapic.c and pci.c.  The registers of a device are a
    map in the state: a write through the selector and the window, or through
    the address and data ports, sets the register that the device selects, as
    the devices' manuals say. *)

From S2P Require Import Prelude Cpu Pmm BuddyProofs FrameAlloc Paging Apic Acpi.
Import Acpi.Madt.

(** ** Interrupt routing *)

Module Ioapic.

Definition IOAPIC_MMIO_BASE_VIRT : Z := 0xFFB10000.
Definition IOAPIC_MMIO_STRIDE : Z := 0x1000.
Definition IOAPIC_REGISTER_VERSION : Z := 0x01.
Definition IOAPIC_REGISTER_REDIRECT : Z := 0x10.
Definition IOAPIC_REDIR_LOW_VECTOR_MASK : Z := 0xFF.
Definition IOAPIC_REDIR_LOW_POLARITY_ACTIVE_LOW : Z := Z.shiftl 1 13.
Definition IOAPIC_REDIR_LOW_TRIGGER_LEVEL : Z := Z.shiftl 1 15.
Definition IOAPIC_REDIR_LOW_MASKED : Z := Z.shiftl 1 16.
Definition ACPI_ISO_POLARITY_MASK : Z := 0x3.
Definition ACPI_ISO_POLARITY_ACTIVE_HIGH : Z := 0x1.
Definition ACPI_ISO_POLARITY_ACTIVE_LOW : Z := 0x3.
Definition ACPI_ISO_TRIGGER_MASK : Z := 0xC.
Definition ACPI_ISO_TRIGGER_EDGE : Z := 0x4.
Definition ACPI_ISO_TRIGGER_LEVEL : Z := 0xC.
Definition INPUT_OUTPUT_APIC_MAX_COUNT : Z := 8.
Definition INPUT_OUTPUT_APIC_MAX_ROUTES : Z := 2.

Inductive state_name :=
  | InitStart | AcpiUnavailable | NoIoapic | MmioMapFailed | NoMappedUnits | MappedNoRoutes | MaskedRoutesReady
  | EnableRouteMissing | EnableUnitIndexInvalid | EnableUnitUnmapped | EnableUnderflow | EnableRelativeInvalid | EnableActive.

Record unit_ := mkUnit {
  u_id : Z; u_physical_base : Z; u_virtual_base : Z; u_gsi_base : Z; u_redirection_entry_count : Z; u_mapped : bool }.

Record route := mkRoute {
  r_isa_irq : Z; r_gsi : Z; r_vector : Z; r_io_apic_index : Z; r_io_apic_id : Z; r_masked : Z; r_iso_flags : Z; r_destination : Z }.

(** The registers of the units, by virtual base and register index. *)
Abbreviation registers := (gmap (Z * Z) Z).

(** The routes array with its count is the list of the routes. *)
Record ioapic := mk {
  io_apic_state_name : state_name;
  io_apic_mapped_count : Z;
  io_apic_units : gmap Z unit_;
  io_apic_routes : list route;
  hw : registers }.

Definition zero_unit : unit_ := mkUnit 0 0 0 0 0 false.
Definition get_unit (index : Z) (s : ioapic) : unit_ := default zero_unit (io_apic_units s !! index).

Definition with_name (n : state_name) (s : ioapic) : ioapic :=
  mk n (io_apic_mapped_count s) (io_apic_units s) (io_apic_routes s) (hw s).
Definition with_unit (index : Z) (u : unit_) (s : ioapic) : ioapic :=
  mk (io_apic_state_name s) (io_apic_mapped_count s) (<[index := u]> (io_apic_units s)) (io_apic_routes s) (hw s).
Definition with_routes (l : list route) (s : ioapic) : ioapic :=
  mk (io_apic_state_name s) (io_apic_mapped_count s) (io_apic_units s) l (hw s).
Definition with_hw (h : registers) (s : ioapic) : ioapic :=
  mk (io_apic_state_name s) (io_apic_mapped_count s) (io_apic_units s) (io_apic_routes s) h.

(** The selector register is eight bits wide. *)
Definition io_apic_register_read (base reg_index : Z) (s : ioapic) : Z := default 0 (hw s !! (base, u8 reg_index)).
Definition io_apic_register_write (base reg_index value : Z) (s : ioapic) : ioapic :=
  with_hw (<[(base, u8 reg_index) := value]> (hw s)) s.

Definition io_apic_extract_redirection_count (base : Z) (s : ioapic) : Z :=
  Z.land (Z.shiftr (io_apic_register_read base IOAPIC_REGISTER_VERSION s) 16) 0xFF + 1.

Fixpoint find_unit (gsi index : Z) (n : nat) (s : ioapic) : option (Z * Z) :=
  match n with
  | O => None
  | S n =>
    let u := get_unit index s in
    if negb (u_mapped u) then find_unit gsi (index + 1) n s
    else if u_redirection_entry_count u =? 0 then find_unit gsi (index + 1) n s
    else
      let gsi_end := u_gsi_base u ⊞ u_redirection_entry_count u in
      if (gsi <? u_gsi_base u) || (gsi_end <=? gsi) then find_unit gsi (index + 1) n s
      else Some (index, gsi ⊟ u_gsi_base u)
  end.

Definition io_apic_find_unit_for_gsi (gsi : Z) (s : ioapic) : option (Z * Z) := find_unit gsi 0 8 s.

Definition io_apic_build_redirection_low (vector iso_flags : Z) : Z :=
  let polarity := Z.land iso_flags ACPI_ISO_POLARITY_MASK in
  let trigger := Z.land iso_flags ACPI_ISO_TRIGGER_MASK in
  let low := Z.lor 0 (Z.land vector IOAPIC_REDIR_LOW_VECTOR_MASK) in
  let low := if polarity =? ACPI_ISO_POLARITY_ACTIVE_LOW then Z.lor low IOAPIC_REDIR_LOW_POLARITY_ACTIVE_LOW else low in
  let low := if polarity =? ACPI_ISO_POLARITY_ACTIVE_HIGH then Z.land low (not32 IOAPIC_REDIR_LOW_POLARITY_ACTIVE_LOW) else low in
  let low := if trigger =? ACPI_ISO_TRIGGER_LEVEL then Z.lor low IOAPIC_REDIR_LOW_TRIGGER_LEVEL else low in
  let low := if trigger =? ACPI_ISO_TRIGGER_EDGE then Z.land low (not32 IOAPIC_REDIR_LOW_TRIGGER_LEVEL) else low in
  Z.lor low IOAPIC_REDIR_LOW_MASKED.

Definition redir_reg_index (gsi_relative : Z) : Z := u8 (IOAPIC_REGISTER_REDIRECT + u8 (gsi_relative * 2)).

Definition io_apic_program_masked_isa_route (isa_irq : Z) (m : madt) (s : ioapic) : Z * ioapic :=
  if INPUT_OUTPUT_APIC_MAX_ROUTES <=? Z.of_nat (length (io_apic_routes s)) then (0, s)
  else
    match madt_resolve_isa_irq isa_irq m with
    | None => (0, s)
    | Some (gsi, iso_flags) =>
      match io_apic_find_unit_for_gsi gsi s with
      | None => (0, s)
      | Some (unit_index, gsi_relative) =>
        if 0x7F <? gsi_relative then (0, s)
        else
          let u := get_unit unit_index s in
          let vector := u8 (Pic.PIC_VECTOR_OFFSET_MASTER + isa_irq) in
          let redir_low := io_apic_build_redirection_low vector iso_flags in
          let reg := redir_reg_index gsi_relative in
          let s := io_apic_register_write (u_virtual_base u) (reg + 1) 0 s in
          let s := io_apic_register_write (u_virtual_base u) reg redir_low s in
          (1, with_routes (io_apic_routes s ++ [mkRoute isa_irq gsi vector unit_index (u_id u) 1 iso_flags 0]) s)
      end
    end.

Fixpoint find_route (isa_irq : Z) (i : nat) (l : list route) : option nat :=
  match l with
  | [] => None
  | r :: l => if r_isa_irq r =? isa_irq then Some i else find_route isa_irq (S i) l
  end.

Definition io_apic_find_programmed_route_index_by_irq (isa_irq : Z) (s : ioapic) : option nat := find_route isa_irq 0 (io_apic_routes s).

Definition input_output_apic_enable_isa_route (isa_irq : Z) (s : ioapic) : Z * ioapic :=
  match io_apic_find_programmed_route_index_by_irq isa_irq s with
  | None => (0, with_name EnableRouteMissing s)
  | Some i =>
    match io_apic_routes s !! i with
    | None => (0, s)
    | Some r =>
      if INPUT_OUTPUT_APIC_MAX_COUNT <=? r_io_apic_index r then (0, with_name EnableUnitIndexInvalid s)
      else
        let u := get_unit (r_io_apic_index r) s in
        if negb (u_mapped u) then (0, with_name EnableUnitUnmapped s)
        else if r_gsi r <? u_gsi_base u then (0, with_name EnableUnderflow s)
        else
          let gsi_relative := r_gsi r ⊟ u_gsi_base u in
          if 0x7F <? gsi_relative then (0, with_name EnableRelativeInvalid s)
          else
            let reg := redir_reg_index gsi_relative in
            let redir_low := Z.land (io_apic_register_read (u_virtual_base u) reg s) (not32 IOAPIC_REDIR_LOW_MASKED) in
            let s := io_apic_register_write (u_virtual_base u) reg redir_low s in
            (1, with_name EnableActive
                  (with_routes (<[i := mkRoute (r_isa_irq r) (r_gsi r) (r_vector r) (r_io_apic_index r) (r_io_apic_id r) 0
                                         (r_iso_flags r) (r_destination r)]> (io_apic_routes s)) s))
    end
  end.

Definition input_output_apic_set_isa_route_destination (isa_irq apic_id : Z) (s : ioapic) : Z * ioapic :=
  match io_apic_find_programmed_route_index_by_irq isa_irq s with
  | None => (0, s)
  | Some i =>
    match io_apic_routes s !! i with
    | None => (0, s)
    | Some r =>
      if INPUT_OUTPUT_APIC_MAX_COUNT <=? r_io_apic_index r then (0, s)
      else
        let u := get_unit (r_io_apic_index r) s in
        if negb (u_mapped u) then (0, s)
        else if r_gsi r <? u_gsi_base u then (0, s)
        else
          let gsi_relative := r_gsi r ⊟ u_gsi_base u in
          if 0x7F <? gsi_relative then (0, s)
          else
            let reg := redir_reg_index gsi_relative in
            let redir_high := Z.land (io_apic_register_read (u_virtual_base u) (reg + 1) s) (not32 0xFF000000) in
            let redir_high := Z.lor redir_high (Z.shiftl apic_id 24) in
            let s := io_apic_register_write (u_virtual_base u) (reg + 1) redir_high s in
            (1, with_routes (<[i := mkRoute (r_isa_irq r) (r_gsi r) (r_vector r) (r_io_apic_index r) (r_io_apic_id r) (r_masked r)
                                     (r_iso_flags r) apic_id]> (io_apic_routes s)) s)
    end
  end.

(** *** Initialization *)

Definition mmio_pde : PageDirectoryEntry := mkPde 1 1 0 0 1 0 0 0 0 0 0.
Definition mmio_pte : PageTableEntry := mkPte 1 1 0 0 1 0 0 0 0 0 0.

Section paging.
  Context {A : Type} `{FrameAllocator A} (realtime : bool).

Definition io_apic_map_unit (index : Z) (s : ioapic) (p : paging A) : option (bool * ioapic * paging A) :=
  let virt_base := IOAPIC_MMIO_BASE_VIRT + index * IOAPIC_MMIO_STRIDE in
  let u := get_unit index s in
  let set mapped := with_unit index (mkUnit (u_id u) (u_physical_base u) virt_base (u_gsi_base u) (u_redirection_entry_count u) mapped) s in
  '(ok, p) ← (if negb (paging_is_mapped virt_base p)
              then paging_map_page realtime virt_base (u_physical_base u) mmio_pde mmio_pte p else Some (true, p));
  Some (if (ok : bool) then (true, set true, p) else (false, set (u_mapped u), p)).

(** The loop over the units the MADT lists; [None] of the result ends the
    initialization. *)
Fixpoint init_units (m : madt) (index : Z) (n : nat) (s : ioapic) (p : paging A) : option (bool * ioapic * paging A) :=
  match n with
  | O => Some (true, s, p)
  | S n =>
    let s := with_unit index (mkUnit (madt_get_io_apic_id index m) (madt_get_io_apic_physical_base index m)
                                (u_virtual_base (get_unit index s)) (madt_get_io_apic_gsi_base index m)
                                (u_redirection_entry_count (get_unit index s)) (u_mapped (get_unit index s))) s in
    if u_physical_base (get_unit index s) =? 0 then init_units m (index + 1) n s p
    else
      '(ok, s, p) ← io_apic_map_unit index s p;
      if negb ok then Some (false, with_name MmioMapFailed s, p)
      else
        let u := get_unit index s in
        let s := with_unit index (mkUnit (u_id u) (u_physical_base u) (u_virtual_base u) (u_gsi_base u)
                                    (io_apic_extract_redirection_count (u_virtual_base u) s) (u_mapped u)) s in
        let s := mk (io_apic_state_name s) (u8 (io_apic_mapped_count s + 1)) (io_apic_units s) (io_apic_routes s) (hw s) in
        init_units m (index + 1) n s p
  end.

Definition input_output_apic_initialize_routing_scaffold (m : madt) (s : ioapic) (p : paging A) : option (ioapic * paging A) :=
  let s := mk InitStart 0 ∅ [] (hw s) in
  if acpi_madt_available m =? 0 then Some (with_name AcpiUnavailable s, p)
  else
    let io_apic_count := madt_get_io_apic_count m in
    if io_apic_count =? 0 then Some (with_name NoIoapic s, p)
    else
      let io_apic_count := if INPUT_OUTPUT_APIC_MAX_COUNT <? io_apic_count then INPUT_OUTPUT_APIC_MAX_COUNT else io_apic_count in
      '(ok, s, p) ← init_units m 0 (Z.to_nat io_apic_count) s p;
      if negb ok then Some (s, p)
      else if io_apic_mapped_count s =? 0 then Some (with_name NoMappedUnits s, p)
      else
        let '(_, s) := io_apic_program_masked_isa_route 0 m s in
        let '(_, s) := io_apic_program_masked_isa_route 1 m s in
        Some (with_name (if (length (io_apic_routes s) =? 0)%nat then MappedNoRoutes else MaskedRoutesReady) s, p).

End paging.

(** *** What a route programs *)

Definition reg_of (base r : Z) (s : ioapic) : Z := default 0 (hw s !! (base, r)).

Lemma redir_reg rel : 0 <= rel <= 0x77 -> redir_reg_index rel = 0x10 + 2 * rel.
Proof. intros H. unfold redir_reg_index, IOAPIC_REGISTER_REDIRECT, u8. rewrite (Z.mod_small (rel * 2)) by lia. rewrite Z.mod_small; lia. Qed.

(** The check admits eight entries too many: the selector wraps, and the
    first of them is the identification register. *)
Lemma redir_reg_wraps rel : 0x78 <= rel <= 0x7F -> redir_reg_index rel = 2 * (rel - 0x78).
Proof.
  intros H. unfold redir_reg_index, IOAPIC_REGISTER_REDIRECT, u8. rewrite (Z.mod_small (rel * 2)) by lia.
  symmetry. apply Z.mod_unique with (q := 1); lia.
Qed.

Lemma find_unit_spec gsi n s : forall index i rel, find_unit gsi index n s = Some (i, rel) ->
  index <= i < index + Z.of_nat n /\ u_mapped (get_unit i s) = true /\ u_gsi_base (get_unit i s) <= gsi /\ rel = gsi ⊟ u_gsi_base (get_unit i s).
Proof.
  induction n as [|n IH]; intros index i rel; cbn [find_unit]; [done|]. intros H.
  assert (Hnext : find_unit gsi (index + 1) n s = Some (i, rel) -> index <= i < index + Z.of_nat (S n) /\ u_mapped (get_unit i s) = true /\
    u_gsi_base (get_unit i s) <= gsi /\ rel = gsi ⊟ u_gsi_base (get_unit i s)).
  { intros Hx. destruct (IH _ _ _ Hx) as (? & ?). split; [lia|done]. }
  destruct (u_mapped (get_unit index s)) eqn:Em; cbn [negb] in H; [|by apply Hnext].
  destruct (u_redirection_entry_count (get_unit index s) =? 0); [by apply Hnext|].
  destruct (Z.ltb_spec gsi (u_gsi_base (get_unit index s))); cbn [orb] in H; [by apply Hnext|].
  destruct (_ <=? gsi); [by apply Hnext|]. injection H as <- <-. split_and!; [lia|lia|done|done|done].
Qed.

Lemma find_route_snoc irq l r : forall i, find_route irq i l = None -> r_isa_irq r = irq -> find_route irq i (l ++ [r]) = Some (i + length l)%nat.
Proof.
  induction l as [|r' l IH]; intros i Hn Hr; cbn in *.
  - by rewrite (proj2 (Z.eqb_eq _ _) Hr), Nat.add_0_r.
  - destruct (r_isa_irq r' =? irq); [done|]. rewrite IH by done. f_equal. lia.
Qed.

(** The bits of the programmed word: [h1] and [h2] say whether the polarity is
    low or high, [h3] and [h4] whether the trigger is level or edge. *)
Definition low_word (vector : Z) (h1 h2 h3 h4 : bool) : Z :=
  let low := if h1 then Z.lor vector IOAPIC_REDIR_LOW_POLARITY_ACTIVE_LOW else vector in
  let low := if h2 then Z.land low (not32 IOAPIC_REDIR_LOW_POLARITY_ACTIVE_LOW) else low in
  let low := if h3 then Z.lor low IOAPIC_REDIR_LOW_TRIGGER_LEVEL else low in
  let low := if h4 then Z.land low (not32 IOAPIC_REDIR_LOW_TRIGGER_LEVEL) else low in
  Z.lor low IOAPIC_REDIR_LOW_MASKED.

Definition low_ok (h1 h2 h3 h4 : bool) (vector : Z) : bool :=
  let low := Z.land (low_word vector h1 h2 h3 h4) (not32 IOAPIC_REDIR_LOW_MASKED) in
  (Z.land low 0xFF =? vector) && eqb (Z.testbit low 13) h1 && eqb (Z.testbit low 15) h3 && negb (Z.testbit low 16).

Lemma low_word_ok vector h1 h2 h3 h4 :
  0 <= vector < 256 -> (h1 = true -> h2 = false) -> (h3 = true -> h4 = false) -> low_ok h1 h2 h3 h4 vector = true.
Proof.
  intros Hv H12 H34. assert (Hall : forallb (low_ok h1 h2 h3 h4) (seqZ 0 256) = true).
  { destruct h1; [rewrite (H12 eq_refl)|destruct h2]; (destruct h3; [rewrite (H34 eq_refl)|destruct h4]); vm_compute; reflexivity. }
  rewrite forallb_forall in Hall. apply Hall, list_elem_of_In, elem_of_seqZ. lia.
Qed.

Lemma redirection_bits vector fl :
  0 <= vector < 256 ->
  let low := Z.land (io_apic_build_redirection_low vector fl) (not32 IOAPIC_REDIR_LOW_MASKED) in
  Z.land low 0xFF = vector /\ Z.testbit low 13 = (Z.land fl 3 =? 3) /\ Z.testbit low 15 = (Z.land fl 12 =? 12) /\ Z.testbit low 16 = false.
Proof.
  intros Hv. cbv zeta.
  assert (E : io_apic_build_redirection_low vector fl = low_word vector (Z.land fl 3 =? 3) (Z.land fl 3 =? 1) (Z.land fl 12 =? 12) (Z.land fl 12 =? 4)).
  { unfold io_apic_build_redirection_low, low_word. rewrite Z.lor_0_l. change IOAPIC_REDIR_LOW_VECTOR_MASK with (Z.ones 8).
    by rewrite (Z.land_ones vector 8), Z.mod_small by lia. }
  rewrite E. assert (Hok : low_ok (Z.land fl 3 =? 3) (Z.land fl 3 =? 1) (Z.land fl 12 =? 12) (Z.land fl 12 =? 4) vector = true)
    by (apply low_word_ok; [done|intros E0; apply Z.eqb_eq in E0; by rewrite E0..]).
  unfold low_ok in Hok. rewrite !andb_true_iff, !eqb_true_iff, Z.eqb_eq, negb_true_iff in Hok.
  by destruct Hok as (((H1 & H2) & H3) & H4).
Qed.

Lemma reg_write base r v s b r' : 0 <= r < 256 ->
  reg_of b r' (io_apic_register_write base r v s) = if decide (b = base /\ r' = r) then v else reg_of b r' s.
Proof.
  intros Hr. unfold reg_of, io_apic_register_write, u8. cbn [hw with_hw]. rewrite (Z.mod_small r) by lia. rewrite lookup_insert.
  destruct (decide (b = base /\ r' = r)) as [[-> ->]|Hne]; [by rewrite decide_True|]. rewrite decide_False; [done|]. intros [= -> ->]. by apply Hne.
Qed.

(** Enabling a route opens the mask of its entry and touches nothing else. *)
Lemma enable_spec isa_irq s i r :
  io_apic_find_programmed_route_index_by_irq isa_irq s = Some i -> io_apic_routes s !! i = Some r ->
  let u := get_unit (r_io_apic_index r) s in
  let rel := r_gsi r ⊟ u_gsi_base u in
  r_io_apic_index r < 8 -> u_mapped u = true -> u_gsi_base u <= r_gsi r -> rel <= 0x77 ->
  exists s', input_output_apic_enable_isa_route isa_irq s = (1, s') /\
  forall b q, reg_of b q s' = if decide (b = u_virtual_base u /\ q = 0x10 + 2 * rel)
                              then Z.land (reg_of b q s) (not32 IOAPIC_REDIR_LOW_MASKED) else reg_of b q s.
Proof.
  intros Hi Hr u rel Hidx Hm Hb Hrel. unfold input_output_apic_enable_isa_route, INPUT_OUTPUT_APIC_MAX_COUNT. rewrite Hi, Hr.
  rewrite (proj2 (Z.leb_gt 8 _)) by lia. fold u. rewrite Hm. cbn [negb]. rewrite (proj2 (Z.ltb_ge _ (u_gsi_base u))) by lia. fold rel.
  assert (Hrel0 : 0 <= rel) by apply u32_range. rewrite (proj2 (Z.ltb_ge 0x7F rel)), (redir_reg rel) by lia.
  eexists. split; [reflexivity|]. intros b q.
  match goal with |- reg_of b q ?x = _ => change (reg_of b q x) with (reg_of b q (io_apic_register_write (u_virtual_base u) (0x10 + 2 * rel)
    (Z.land (io_apic_register_read (u_virtual_base u) (0x10 + 2 * rel) s) (not32 IOAPIC_REDIR_LOW_MASKED)) s)) end.
  rewrite reg_write by lia. case_decide as E; [|done]. destruct E as [-> ->]. unfold io_apic_register_read, reg_of, u8.
  by rewrite Z.mod_small by lia.
Qed.

(** Programming a route writes the two words of its entry. *)
Lemma program_spec isa_irq m s gsi fl index rel :
  madt_resolve_isa_irq isa_irq m = Some (gsi, fl) -> io_apic_find_unit_for_gsi gsi s = Some (index, rel) -> 0 <= rel <= 0x77 ->
  (length (io_apic_routes s) < 2)%nat ->
  let u := get_unit index s in
  let vector := u8 (Pic.PIC_VECTOR_OFFSET_MASTER + isa_irq) in
  exists s', io_apic_program_masked_isa_route isa_irq m s = (1, s') /\
    io_apic_routes s' = io_apic_routes s ++ [mkRoute isa_irq gsi vector index (u_id u) 1 fl 0] /\ io_apic_units s' = io_apic_units s /\
    forall b q, reg_of b q s' =
      if decide (b = u_virtual_base u /\ q = 0x10 + 2 * rel) then io_apic_build_redirection_low vector fl
      else if decide (b = u_virtual_base u /\ q = 0x10 + 2 * rel + 1) then 0 else reg_of b q s.
Proof.
  intros Hres Hfind Hrel Hn u vector. unfold io_apic_program_masked_isa_route, INPUT_OUTPUT_APIC_MAX_ROUTES.
  rewrite (proj2 (Z.leb_gt 2 _)) by lia. rewrite Hres, Hfind, (proj2 (Z.ltb_ge 0x7F rel)) by lia. rewrite (redir_reg rel) by lia.
  eexists. split; [reflexivity|]. split; [done|]. split; [done|]. intros b q. fold u vector.
  match goal with |- reg_of b q (with_routes _ ?x) = _ => change (reg_of b q (with_routes _ x)) with (reg_of b q x) end.
  by rewrite !reg_write by lia.
Qed.



End Ioapic.

(** ** PCI configuration *)

Module Pci.

Definition INVALID_VENDOR_ID : Z := 0xFFFF.
Definition MULTIFUNCTION_MASK : Z := 0x80.
Definition MAX_DEVICES : nat := 64.
Definition REGISTER_BASE_ADDRESS_0 : Z := 0x10.
Definition BASE_ADDRESS_REGISTER_COUNT : Z := 6.

Definition build_address (bus device function offset : Z) : Z :=
  Z.lor (Z.lor (Z.lor (Z.lor (Z.shiftl 1 31) (Z.shiftl bus 16)) (Z.shiftl (Z.land device 0x1F) 11))
          (Z.shiftl (Z.land function 0x07) 8)) (Z.land offset 0xFC).

Record Device := mkDevice {
  d_bus : Z; d_device : Z; d_function : Z; vendor_id : Z; device_id : Z; revision_id : Z; prog_interface : Z; subclass : Z;
  class_code : Z; header_type : Z }.

Record BaseAddressRegister := mkBar { b_index : Z; is_io : Z; is_64bit : Z; prefetchable : Z; base : Z; size : Z }.

(** The devices behind the ports: what the data port reads once an address
    is selected, and what a write to it does. *)
Section ports.
  Context {D : Type} (data_in : Z -> D -> Z) (data_out : Z -> Z -> D -> D).

Definition config_read_dword (bus device function offset : Z) (d : D) : Z := data_in (build_address bus device function offset) d.

Definition config_read_word (bus device function offset : Z) (d : D) : Z :=
  Z.land (Z.shiftr (config_read_dword bus device function offset d) (Z.land offset 2 * 8)) 0xFFFF.

Definition config_read_byte (bus device function offset : Z) (d : D) : Z :=
  Z.land (Z.shiftr (config_read_dword bus device function offset d) (Z.land offset 3 * 8)) 0xFF.

Definition config_write_dword (bus device function offset value : Z) (d : D) : D :=
  data_out (build_address bus device function offset) value d.

Definition config_write_word (bus device function offset value : Z) (d : D) : D :=
  let dword := config_read_dword bus device function offset d in
  let shift := Z.land offset 2 * 8 in
  config_write_dword bus device function offset (Z.lor (Z.land dword (not32 (shl32 0xFFFF shift))) (shl32 value shift)) d.

Definition config_write_byte (bus device function offset value : Z) (d : D) : D :=
  let dword := config_read_dword bus device function offset d in
  let shift := Z.land offset 3 * 8 in
  config_write_dword bus device function offset (Z.lor (Z.land dword (not32 (shl32 0xFF shift))) (shl32 value shift)) d.

Definition describe (bus device function : Z) (d : D) : Device :=
  let identity := config_read_dword bus device function 0x00 d in
  let classification := config_read_dword bus device function 0x08 d in
  let header := config_read_dword bus device function 0x0C d in
  mkDevice bus device function (Z.land identity 0xFFFF) (Z.land (Z.shiftr identity 16) 0xFFFF) (Z.land classification 0xFF)
    (Z.land (Z.shiftr classification 8) 0xFF) (Z.land (Z.shiftr classification 16) 0xFF) (Z.land (Z.shiftr classification 24) 0xFF)
    (Z.land (Z.shiftr header 16) 0xFF).

(** The array with its count is the list of the devices recorded. *)
Definition record_function (bus device function : Z) (d : D) (l : list Device) : list Device :=
  if (MAX_DEVICES <=? length l)%nat then l else l ++ [describe bus device function d].

Definition scan_function (bus device : Z) (d : D) (l : list Device) (function : Z) : list Device :=
  if config_read_word bus device function 0x00 d =? INVALID_VENDOR_ID then l else record_function bus device function d l.

Definition function_count (bus device : Z) (d : D) : Z :=
  if negb (Z.land (config_read_byte bus device 0 0x0E d) MULTIFUNCTION_MASK =? 0) then 8 else 1.

Definition scan_device (bus : Z) (d : D) (l : list Device) (device : Z) : list Device :=
  if config_read_word bus device 0 0x00 d =? INVALID_VENDOR_ID then l
  else fold_left (scan_function bus device d) (seqZ 0 (function_count bus device d)) l.

Definition scan (d : D) : list Device :=
  fold_left (fun l bus => fold_left (scan_device bus d) (seqZ 0 32) l) (seqZ 0 256) [].

Definition get_device (index : Z) (l : list Device) : option Device :=
  if Z.of_nat (length l) <=? index then None else l !! Z.to_nat index.

Definition find_by_class (class sub : Z) (l : list Device) : option Device :=
  List.find (fun c => (class_code c =? class) && (subclass c =? sub)) l.

Definition read_base_address_register (bus device function index : Z) (d : D) : option (bool * BaseAddressRegister) * D :=
  if BASE_ADDRESS_REGISTER_COUNT <=? index then (None, d)
  else
    let offset := u8 (REGISTER_BASE_ADDRESS_0 + index * 4) in
    let original := config_read_dword bus device function offset d in
    let d := config_write_dword bus device function offset 0xFFFFFFFF d in
    let probe := config_read_dword bus device function offset d in
    let d := config_write_dword bus device function offset original d in
    if negb (Z.land original 1 =? 0) then
      let mask := Z.land probe 0xFFFFFFFC in
      let size := if mask =? 0 then 0 else Z.land (not32 mask ⊞ 1) 0xFFFF in
      (Some (negb (size =? 0), mkBar index (Z.land original 1) 0 0 (Z.land original 0xFFFFFFFC) size), d)
    else
      let is_64bit := if Z.land (Z.shiftr original 1) 0x3 =? 0x2 then 1 else 0 in
      let base_high :=
        if negb (is_64bit =? 0) && (index <? BASE_ADDRESS_REGISTER_COUNT - 1)
        then config_read_dword bus device function (u8 (offset + 4)) d else 0 in
      let size_mask := Z.land probe 0xFFFFFFF0 in
      let size := if size_mask =? 0 then 0 else not32 size_mask ⊞ 1 in
      (Some (negb (size =? 0),
             mkBar index 0 is_64bit (if negb (Z.land original 0x8 =? 0) then 1 else 0)
               (Z.lor (Z.shiftl base_high 32) (Z.land original 0xFFFFFFF0)) size), d).

(** *** The scan *)

(** The functions that answer, in the order of their addresses. *)
Definition functions_of (d : D) (bus device : Z) : list (Z * Z * Z) :=
  if config_read_word bus device 0 0x00 d =? INVALID_VENDOR_ID then []
  else (fun function => (bus, device, function)) <$>
         filter (fun function => config_read_word bus device function 0x00 d <> INVALID_VENDOR_ID) (seqZ 0 (function_count bus device d)).

Definition present (d : D) : list (Z * Z * Z) :=
  concat ((fun bus => concat (functions_of d bus <$> seqZ 0 32)) <$> seqZ 0 256).

Definition describe3 (d : D) (a : Z * Z * Z) : Device := describe a.1.1 a.1.2 a.2 d.

Definition capped (l : list Device) : list Device := take MAX_DEVICES l.

Lemma record_capped bus device function d l :
  record_function bus device function d (capped l) = capped (l ++ [describe bus device function d]).
Proof.
  unfold record_function, capped. rewrite length_take. destruct (Nat.leb_spec MAX_DEVICES (MAX_DEVICES `min` length l)).
  - rewrite take_app_le by lia. done.
  - rewrite (take_ge l), (take_ge (l ++ _)); [done|rewrite length_app; cbn; lia|lia].
Qed.

Lemma functions_capped bus device d fs : forall l,
  fold_left (scan_function bus device d) fs (capped l) =
  capped (l ++ (describe3 d <$> ((fun function => (bus, device, function)) <$>
                filter (fun function => config_read_word bus device function 0x00 d <> INVALID_VENDOR_ID) fs))).
Proof.
  induction fs as [|f fs IH]; intros l; cbn [fold_left]; [by rewrite app_nil_r|]. unfold scan_function at 2.
  destruct (Z.eqb_spec (config_read_word bus device f 0 d) INVALID_VENDOR_ID).
  - rewrite IH. by rewrite filter_cons_False by (intros Hx; by apply Hx).
  - rewrite record_capped, IH, filter_cons_True by done. cbn [fmap list_fmap]. by rewrite <- app_assoc.
Qed.

Lemma devices_capped bus d devices : forall l,
  fold_left (scan_device bus d) devices (capped l) = capped (l ++ (describe3 d <$> concat (functions_of d bus <$> devices))).
Proof.
  induction devices as [|dev devices IH]; intros l; cbn [fold_left fmap list_fmap concat]; [by rewrite app_nil_r|].
  unfold scan_device at 2. unfold functions_of at 1. destruct (config_read_word bus dev 0 0 d =? INVALID_VENDOR_ID); [apply IH|].
  rewrite functions_capped, IH, fmap_app, <- app_assoc. reflexivity.
Qed.

Lemma buses_capped d devices buses : forall l,
  fold_left (fun l bus => fold_left (scan_device bus d) devices l) buses (capped l) =
  capped (l ++ (describe3 d <$> concat ((fun bus => concat (functions_of d bus <$> devices)) <$> buses))).
Proof.
  induction buses as [|bus buses IH]; intros l; cbn [fold_left fmap list_fmap concat]; [by rewrite app_nil_r|].
  rewrite devices_capped, IH, fmap_app, <- app_assoc. reflexivity.
Qed.

Lemma scan_present d : scan d = take MAX_DEVICES (describe3 d <$> present d).
Proof. unfold scan, present. apply (buses_capped d (seqZ 0 32) (seqZ 0 256) []). Qed.

(** *** Sizing a base address register *)

(** Address [a] is a memory base address register of [2 ^ k] bytes at [base]:
    writes keep the bits above the size, the low bits [kind] are fixed, and
    other registers do not change. *)
Record memory_bar (a k base kind : Z) (d : D) : Prop := {
  mb_size : 4 <= k <= 31;
  mb_kind : 0 <= kind < 16 /\ kind mod 2 = 0;
  mb_base : 0 <= base < 2 ^ 32 /\ base mod 2 ^ k = 0;
  mb_read : data_in a d = base + kind;
  mb_write v w : in32 v -> in32 w -> data_in a (data_out a w (data_out a v d)) = Z.land w (2 ^ 32 - 2 ^ k) + kind;
  mb_probe v : in32 v -> data_in a (data_out a v d) = Z.land v (2 ^ 32 - 2 ^ k) + kind;
  mb_other v w a' : a' <> a -> data_in a' (data_out a w (data_out a v d)) = data_in a' d }.

Lemma mask_not32 k : 0 <= k <= 32 -> 2 ^ 32 - 2 ^ k = not32 (2 ^ k - 1).
Proof. intros. unfold not32. lia. Qed.

Lemma land_size x k : 0 <= k <= 32 -> in32 x -> Z.land x (2 ^ 32 - 2 ^ k) = x - x mod 2 ^ k.
Proof. intros Hk Hx. rewrite mask_not32 by done. by apply land_not32_pow2. Qed.

Lemma pow_split k j : 0 <= j <= k -> exists q, 2 ^ k = q * 2 ^ j /\ 0 < q.
Proof. intros H. exists (2 ^ (k - j)). split; [rewrite <- Z.pow_add_r by lia; f_equal; lia|lia]. Qed.

Lemma mod_pow_16 x k : 4 <= k -> x mod 2 ^ k = 0 -> x mod 16 = 0.
Proof.
  intros Hk Hx. destruct (pow_split k 4 ltac:(lia)) as (q & Eq & Hq). change (2 ^ 4) with 16 in Eq.
  pose proof (Z.div_mod x (2 ^ k) ltac:(lia)) as Hd. rewrite Hx, Eq in Hd.
  rewrite Hd. replace (q * 16 * (x / (q * 16)) + 0) with (q * (x / (q * 16)) * 16) by lia. apply Z.mod_mul. lia.
Qed.

(** Dropping the four low bits of a register drops its fixed bits. *)
Lemma drop_kind x k kind : 4 <= k -> in32 x -> x mod 2 ^ k = 0 -> 0 <= kind < 16 -> Z.land (x + kind) 0xFFFFFFF0 = x.
Proof.
  intros Hk Hx Hm Hkd. apply mod_pow_16 in Hm; [|done].
  pose proof (Z.div_mod x 16 ltac:(lia)).
  change 0xFFFFFFF0 with (2 ^ 32 - 2 ^ 4). rewrite land_size by lia. change (2 ^ 4) with 16.
  rewrite <- Z.add_mod_idemp_l, Hm, Z.add_0_l, Z.mod_small by lia. lia.
Qed.

(** What a write of the original value leaves is the original value. *)
Lemma restore_kept x k kind :
  4 <= k <= 31 -> in32 x -> x mod 2 ^ k = 0 -> 0 <= kind < 16 ->
  in32 (x + kind) /\ Z.land (x + kind) (2 ^ 32 - 2 ^ k) = x.
Proof.
  intros Hk Hx Hm Hkd. pose proof (mod_pow_16 x k ltac:(lia) Hm). pose proof (Z.div_mod x 16 ltac:(lia)).
  assert (in32 (x + kind)) by lia. split; [done|]. rewrite land_size by lia.
  assert (2 ^ 4 <= 2 ^ k) by (apply Z.pow_le_mono_r; lia).
  rewrite <- Z.add_mod_idemp_l, Hm, Z.add_0_l, Z.mod_small by lia. lia.
Qed.

Lemma size_of_mask k : 4 <= k <= 31 -> in32 (2 ^ 32 - 2 ^ k) /\ (2 ^ 32 - 2 ^ k) mod 2 ^ k = 0 /\
  2 ^ 32 - 2 ^ k <> 0 /\ not32 (2 ^ 32 - 2 ^ k) ⊞ 1 = 2 ^ k.
Proof.
  intros Hk. assert (2 ^ k <= 2 ^ 31) by (apply Z.pow_le_mono_r; lia).
  destruct (pow_split 32 k ltac:(lia)) as (q & Eq & Hq). repeat split; try lia.
  - rewrite Eq. replace (q * 2 ^ k - 2 ^ k) with ((q - 1) * 2 ^ k) by lia. apply Z.mod_mul. lia.
  - unfold not32. rewrite add32_small; lia.
Qed.

Lemma low_half h x : in32 x -> Z.land (Z.lor (Z.shiftl h 32) x) (2 ^ 32 - 1) = x.
Proof.
  intros Hx. change (2 ^ 32 - 1) with (Z.ones 32).
  rewrite Z.land_lor_distr_l, !Z.land_ones, Z.shiftl_mul_pow2, Z.mod_mul, Z.mod_small by lia. done.
Qed.


End ports.

(** A bus with one register: a 16 KiB prefetchable memory region at [0xFEBC0000]. *)
Definition one_bar : Z := build_address 0 3 0 0x10.

Definition one_in (a : Z) (d : Z) : Z := if a =? one_bar then d else 0.

Definition one_out (a v : Z) (d : Z) : Z := if a =? one_bar then Z.land v (2 ^ 32 - 2 ^ 14) + 8 else d.


(** *** The devices of a machine *)

(** A function is the 256 bytes of its configuration space. A device with one
    function may answer for the other numbers too. *)
Abbreviation card := (Z -> Z).

Inductive installed :=
  | Single (first : card) (alias : Z -> option card)
  | Multi (first : card) (others : Z -> option card).

(** The device at each bus and device number. *)
Abbreviation machine := (Z -> Z -> option installed).

Definition answers (x : installed) (function : Z) : option card :=
  match x with Single first rest | Multi first rest => if function =? 0 then Some first else rest function end.

(** Configuration mechanism 1: the host bridge splits the address word, and
    reads all ones where nothing answers. *)
Definition host_bridge (address : Z) (m : machine) : Z :=
  match (if address / 2 ^ 31 =? 1 then m (address / 2 ^ 16 mod 2 ^ 8) (address / 2 ^ 11 mod 2 ^ 5) else None) with
  | Some x => match answers x (address / 2 ^ 8 mod 2 ^ 3) with Some c => le32 c (address mod 2 ^ 8) | None => 0xFFFFFFFF end
  | None => 0xFFFFFFFF
  end.

Definition valid_card (c : card) : Prop := bytes_ok c /\ le16 c 0 <> 0xFFFF.

(** Bit 7 of the header type of function 0 is set on devices with several functions. *)
Definition valid_device (x : installed) : Prop :=
  (forall f c, answers x f = Some c -> valid_card c) /\
  match x with Single first _ => first 14 < 128 | Multi first _ => 128 <= first 14 end.

Definition valid_machine (m : machine) : Prop := forall bus device x, m bus device = Some x -> valid_device x.

(** The functions of a device, and what identifies one. *)
Definition functions (x : installed) : list (Z * card) :=
  match x with
  | Single first _ => [(0, first)]
  | Multi first others => (0, first) :: omap (fun f => (fun c => (f, c)) <$> others f) [1; 2; 3; 4; 5; 6; 7]
  end.

Definition identity (bus device : Z) (fc : Z * card) : Device :=
  let '(f, c) := fc in mkDevice bus device f (le16 c 0) (le16 c 2) (c 8) (c 9) (c 10) (c 11) (c 14).

Definition all_functions (m : machine) : list Device :=
  bus ← seqZ 0 256; device ← seqZ 0 32;
  match m bus device with Some x => identity bus device <$> functions x | None => [] end.

Lemma build_address_sum bus device function offset :
  0 <= bus < 256 -> 0 <= device < 32 -> 0 <= function < 8 -> 0 <= offset < 256 ->
  build_address bus device function offset = 2 ^ 31 + bus * 2 ^ 16 + device * 2 ^ 11 + function * 2 ^ 8 + offset / 4 * 4.
Proof.
  intros Hb Hd Hf Ho. unfold build_address.
  change (Z.land device 0x1F) with (Z.land device (Z.ones 5)). change (Z.land function 0x07) with (Z.land function (Z.ones 3)). rewrite !Z.land_ones, !(Z.mod_small _ (2 ^ _)) by lia.
  assert (Z.land offset 0xFC = offset / 4 * 4) as ->.
  { replace (offset / 4 * 4) with (Z.shiftl (Z.shiftr offset 2) 2) by (rewrite Z.shiftl_mul_pow2, Z.shiftr_div_pow2 by lia; reflexivity).
    rewrite <- Z.ldiff_ones_r by lia. change 0xFC with (Z.ldiff (Z.ones 8) (Z.ones 2)).
    rewrite Z.ldiff_land, Z.land_assoc, Z.land_ones, Z.mod_small by lia. by rewrite Z.ldiff_land. }
  rewrite !Z.shiftl_mul_pow2 by lia.
  pose proof (Z.div_mod offset 4 ltac:(lia)). pose proof (Z.mod_pos_bound offset 4 ltac:(lia)).
  assert (0 <= offset / 4 * 4 < 2 ^ 8) by lia. rewrite <- !Z.lor_assoc.
  rewrite (lor_low_bits function), (lor_low_bits device), (lor_low_bits bus), (lor_low_bits 1) by lia. lia.
Qed.

Section machine.
  Context (m : machine) (Hm : valid_machine m).
  Implicit Types c : card.

Lemma bridge_read bus device function offset :
  0 <= bus < 256 -> 0 <= device < 32 -> 0 <= function < 8 -> 0 <= offset < 256 ->
  config_read_dword host_bridge bus device function offset m =
    match m bus device with
    | Some x => match answers x function with Some c => le32 c (offset / 4 * 4) | None => 0xFFFFFFFF end
    | None => 0xFFFFFFFF
    end.
Proof.
  intros Hb Hd Hf Ho. unfold config_read_dword, host_bridge. rewrite build_address_sum by done.
  pose proof (Z.div_mod offset 4 ltac:(lia)). pose proof (Z.mod_pos_bound offset 4 ltac:(lia)). set (o := offset / 4 * 4) in *.
  assert (Ho' : 0 <= o < 256) by lia. clearbody o. set (a := 2 ^ 31 + _ + _ + _ + o).
  assert (a / 2 ^ 31 = 1) as -> by (symmetry; apply Z.div_unique with (r := a - 2 ^ 31); unfold a; lia).
  assert (a / 2 ^ 16 mod 2 ^ 8 = bus) as ->.
  { replace (a / 2 ^ 16) with (bus + 2 ^ 7 * 2 ^ 8) by (apply Z.div_unique with (r := device * 2 ^ 11 + function * 2 ^ 8 + o); unfold a; lia).
    rewrite Z.mod_add, Z.mod_small by lia. done. }
  assert (a / 2 ^ 11 mod 2 ^ 5 = device) as ->.
  { replace (a / 2 ^ 11) with (device + (2 ^ 15 + bus) * 2 ^ 5) by (apply Z.div_unique with (r := function * 2 ^ 8 + o); unfold a; lia).
    rewrite Z.mod_add, Z.mod_small by lia. done. }
  assert (a / 2 ^ 8 mod 2 ^ 3 = function) as ->.
  { replace (a / 2 ^ 8) with (function + ((2 ^ 15 + bus) * 2 ^ 5 + device) * 2 ^ 3) by (apply Z.div_unique with (r := o); unfold a; lia).
    rewrite Z.mod_add, Z.mod_small by lia. done. }
  assert (a mod 2 ^ 8 = o) as ->.
  { replace a with (o + (((2 ^ 15 + bus) * 2 ^ 5 + device) * 2 ^ 3 + function) * 2 ^ 8) by (unfold a; lia).
    rewrite Z.mod_add, Z.mod_small by lia. done. }
  done.
Qed.

(** The fields of a word of four bytes. *)
Lemma word_fields c a : bytes_ok c ->
  Z.land (le32 c a) 0xFFFF = le16 c a /\ Z.land (Z.shiftr (le32 c a) 16) 0xFFFF = le16 c (a + 2) /\
  Z.land (le32 c a) 0xFF = c a /\ Z.land (Z.shiftr (le32 c a) 8) 0xFF = c (a + 1) /\
  Z.land (Z.shiftr (le32 c a) 16) 0xFF = c (a + 2) /\ Z.land (Z.shiftr (le32 c a) 24) 0xFF = c (a + 3).
Proof.
  intros Hc. pose proof (Hc a). pose proof (Hc (a + 1)). pose proof (Hc (a + 2)). pose proof (Hc (a + 3)).
  assert (Hf : forall x k n q r, 0 <= k -> 0 <= n -> 0 <= r < 2 ^ n -> x / 2 ^ k = r + q * 2 ^ n -> Z.land (Z.shiftr x k) (Z.ones n) = r).
  { intros x k n q r Hk Hn Hr Hx. rewrite Z.land_ones, Z.shiftr_div_pow2, Hx, Z.mod_add, Z.mod_small by lia. done. }
  assert (Hd : forall x k q r, 0 <= r < k -> x = q * k + r -> x / k = q) by (intros x k q r Hr ->; symmetry; apply Z.div_unique with (r := r); lia).
  change 0xFFFF with (Z.ones 16). change 0xFF with (Z.ones 8). rewrite <- (Z.shiftr_0_r (le32 c a)) at 1 3.
  unfold le32, le16. replace (a + 2 + 1) with (a + 3) by lia. split_and!.
  - apply Hf with (q := c (a + 2) + c (a + 3) * 2 ^ 8); try lia. change (2 ^ 0) with 1. rewrite Z.div_1_r. lia.
  - apply Hf with (q := 0); try lia. apply Hd with (r := c a + c (a + 1) * 2 ^ 8); lia.
  - apply Hf with (q := c (a + 1) + c (a + 2) * 2 ^ 8 + c (a + 3) * 2 ^ 16); try lia. change (2 ^ 0) with 1. rewrite Z.div_1_r. lia.
  - apply Hf with (q := c (a + 2) + c (a + 3) * 2 ^ 8); try lia. apply Hd with (r := c a); lia.
  - apply Hf with (q := c (a + 3)); try lia. apply Hd with (r := c a + c (a + 1) * 2 ^ 8); lia.
  - apply Hf with (q := 0); try lia. apply Hd with (r := c a + c (a + 1) * 2 ^ 8 + c (a + 2) * 2 ^ 16); lia.
Qed.

Lemma bit_set x : 0 <= x < 256 -> negb (Z.land x MULTIFUNCTION_MASK =? 0) = (128 <=? x).
Proof.
  intros Hx. assert (H : forallb (fun x => eqb (negb (Z.land x MULTIFUNCTION_MASK =? 0)) (128 <=? x)) (seqZ 0 256) = true) by (vm_compute; reflexivity).
  rewrite forallb_forall in H. apply eqb_prop, H, list_elem_of_In, elem_of_seqZ. lia.
Qed.

Section device.
  Context (bus device : Z) (Hb : 0 <= bus < 256) (Hd : 0 <= device < 32).

Lemma vendor_read f : 0 <= f < 8 ->
  config_read_word host_bridge bus device f 0 m =
    match m bus device with Some x => match answers x f with Some c => le16 c 0 | None => INVALID_VENDOR_ID end | None => INVALID_VENDOR_ID end.
Proof.
  intros Hf. unfold config_read_word. rewrite bridge_read by lia. change (Z.land 0 2 * 8) with 0. rewrite Z.shiftr_0_r.
  destruct (m bus device) as [x|] eqn:Ex; [|done]. destruct (answers x f) as [c|] eqn:Ec; [|done].
  apply word_fields. by eapply (Hm bus device x).
Qed.

Lemma describe_card f x c : m bus device = Some x -> answers x f = Some c -> 0 <= f < 8 -> describe host_bridge bus device f m = identity bus device (f, c).
Proof.
  intros Hx Hc Hf. assert (Hok : bytes_ok c) by (by eapply (Hm bus device x)). unfold describe. rewrite !bridge_read by lia. rewrite Hx, Hc. cbv zeta.
  change (0 / 4 * 4) with 0. change (8 / 4 * 4) with 8. change (12 / 4 * 4) with 12.
  destruct (word_fields c 0 Hok) as (-> & -> & _), (word_fields c 8 Hok) as (_ & _ & -> & -> & -> & ->), (word_fields c 12 Hok) as (_ & _ & _ & _ & -> & _). done.
Qed.

Lemma count_functions x : m bus device = Some x -> function_count host_bridge bus device m = match x with Single _ _ => 1 | Multi _ _ => 8 end.
Proof.
  intros Hx. destruct (Hm bus device x Hx) as [Hc Hh]. unfold function_count, config_read_byte. rewrite bridge_read, Hx by lia.
  change (14 / 4 * 4) with 12. change (Z.land 14 3 * 8) with 16.
  destruct x as [c r|c r]; cbn [answers Z.eqb]; (destruct (Hc 0 c eq_refl) as [Hok _]); destruct (word_fields c 12 Hok) as (_ & _ & _ & _ & -> & _);
    change (12 + 2) with 14; pose proof (Hok 14); rewrite bit_set by lia.
  - by rewrite (proj2 (Z.leb_gt 128 (c 14))) by lia.
  - by rewrite (proj2 (Z.leb_le 128 (c 14))) by lia.
Qed.

Lemma functions_read x fs : m bus device = Some x -> Forall (fun f => 0 <= f < 8) fs ->
  describe3 host_bridge m <$> ((fun f => (bus, device, f)) <$> filter (fun f => config_read_word host_bridge bus device f 0 m <> INVALID_VENDOR_ID) fs) =
    identity bus device <$> omap (fun f => (fun c => (f, c)) <$> answers x f) fs.
Proof.
  intros Hx. induction 1 as [|f fs Hf _ IH]; [done|]. cbn [omap list_omap]. destruct (answers x f) as [c|] eqn:Ec; cbn [fmap option_fmap option_map].
  - rewrite filter_cons_True; [|rewrite vendor_read, Hx, Ec by done; by apply (proj1 (Hm bus device x Hx) f c)].
    cbn [fmap list_fmap]. f_equal; [by apply (describe_card f x)|exact IH].
  - rewrite filter_cons_False; [exact IH|]. rewrite vendor_read, Hx, Ec by done. intros Hn. by apply Hn.
Qed.

Lemma device_read : describe3 host_bridge m <$> functions_of host_bridge m bus device =
  match m bus device with Some x => identity bus device <$> functions x | None => [] end.
Proof.
  unfold functions_of. rewrite vendor_read by lia. destruct (m bus device) as [x|] eqn:Ex; [|by rewrite Z.eqb_refl].
  assert (exists c, answers x 0 = Some c) as [c Hc] by (destruct x; by eexists). rewrite Hc.
  destruct (proj1 (Hm bus device x Ex) 0 c Hc) as [_ Hv]. change 0xFFFF with INVALID_VENDOR_ID in Hv. rewrite (proj2 (Z.eqb_neq _ _) Hv).
  rewrite (functions_read x), (count_functions x) by (done || (rewrite (count_functions x) by done; destruct x; repeat constructor; lia)).
  destruct x as [c' r|c' r]; reflexivity.
Qed.

End device.
End machine.

(** C25: The scan finds the devices: on a machine whose functions have vendor
    identifiers other than 0xFFFF and whose devices say in bit 7 of their header
    type whether they have several functions, it records, in the order of their
    addresses, the first 64 functions, each with its identity, although devices
    with one function may answer for all numbers. *)
Theorem pci_scan_exact m : valid_machine m -> scan host_bridge m = take 64 (all_functions m).
Proof.
  intros Hm. rewrite scan_present. unfold MAX_DEVICES, present, all_functions. f_equal.
  assert (Hcat : forall {X} (f : X -> list (Z * Z * Z)) (g : X -> list Device) l,
    (forall x, x ∈ l -> describe3 host_bridge m <$> f x = g x) -> describe3 host_bridge m <$> concat (f <$> l) = l ≫= g).
  { intros X f g l. induction l as [|x l IH]; intros Hl; [done|]. cbn [fmap list_fmap concat mbind list_bind]. rewrite fmap_app. f_equal.
    - apply Hl. by left.
    - apply IH. intros y Hy. apply Hl. by right. }
  apply Hcat. intros bus Hb%elem_of_seqZ. apply Hcat. intros device Hd%elem_of_seqZ. apply device_read; done || lia.
Qed.

(** A bridge, and a card that answers for every function number. *)
Definition bridge_card : card := fun a => nth (Z.to_nat a) [0x86; 0x80; 0x37; 0x12; 0; 0; 0; 0; 2; 0; 0; 6; 0; 0; 0] 0.
Definition audio_card : card := fun a => nth (Z.to_nat a) [0x86; 0x80; 0x68; 0x26; 0; 0; 0; 0; 1; 0; 3; 4; 0; 0; 0] 0.
Definition usb_card : card := fun a => nth (Z.to_nat a) [0x86; 0x80; 0x34; 0x29; 0; 0; 0; 0; 3; 0; 3; 0xC; 0; 0; 0x80] 0.

Definition example_machine : machine := fun bus device =>
  if negb (bus =? 0) then None
  else if device =? 0 then Some (Single bridge_card (fun _ => None))
  else if device =? 4 then Some (Single audio_card (fun _ => Some audio_card))
  else if device =? 29 then Some (Multi usb_card (fun f => if f =? 7 then Some usb_card else None))
  else None.

Lemma nth_byte (l : list Z) a : forallb (fun b => (0 <=? b) && (b <? 256)) l = true -> 0 <= nth (Z.to_nat a) l 0 < 2 ^ 8.
Proof.
  intros Hl. rewrite forallb_forall in Hl. destruct (nth_in_or_default (Z.to_nat a) l 0) as [Hin|E]; [|rewrite E; lia]. specialize (Hl _ Hin). lia.
Qed.

Lemma pci_scan_exact_witness :
  scan host_bridge example_machine =
    [mkDevice 0 0 0 0x8086 0x1237 2 0 0 6 0; mkDevice 0 4 0 0x8086 0x2668 1 0 3 4 0;
     mkDevice 0 29 0 0x8086 0x2934 3 0 3 0xC 0x80; mkDevice 0 29 7 0x8086 0x2934 3 0 3 0xC 0x80].
Proof.
  transitivity (take 64 (all_functions example_machine)); [|vm_compute; reflexivity]. apply pci_scan_exact.
  intros bus device x. unfold example_machine.
  repeat match goal with |- (if ?b then _ else _) = _ -> _ => destruct b end; intros [= <-]; (split; [|vm_compute; first [reflexivity|discriminate]]);
    intros f c; cbn [answers]; repeat case_match; intros [= <-]; (split; [intros a; by apply nth_byte|vm_compute; discriminate]).
Defined.

End Pci.
