(* ===== verification/Interleave.v ===== *)
(** * Code that runs while others run

    One processor's code as a computation over a shared machine: before each
    of its accesses the agents that a schedule names make a step each. A triple
    holds for every schedule, so its assertions must survive the others' steps.
    [Smp] uses it for the start of the processors, [Tlb] for the invalidation
    of translations, [Hda] for the audio controller. *)

From S2P Require Import Prelude.

Definition code (M X A : Type) : Type := list (list X) -> M -> A * list (list X) * M.

#[export] Instance code_ret {M X} : MRet (code M X) := fun A a sch m => (a, sch, m).
#[export] Instance code_bind {M X} : MBind (code M X) := fun A B f c sch m => let '(a, sch, m) := c sch m in f a sch m.

Section interleave.
Context {M X : Type} (step : X -> M -> M).

(** An access; a schedule that is used up lets nobody else run. *)
Definition access {A} (f : M -> A * M) : code M X A := fun sch m =>
  let '(moves, sch) := match sch with [] => ([], []) | moves :: sch => (moves, sch) end in
  let '(a, m) := f (fold_left (fun m x => step x m) moves m) in
  (a, sch, m).

Definition update (f : M -> M) : code M X unit := access (fun m => (tt, f m)).

(** ** Triples *)

Definition triple {A} (P : M -> Prop) (c : code M X A) (Q : A -> M -> Prop) : Prop :=
  forall sch m, P m -> let '(x, _, m') := c sch m in Q x m'.

Lemma triple_ret {A} (P : M -> Prop) (x : A) Q : (forall m, P m -> Q x m) -> triple P (mret x) Q.
Proof. intros H sch m Hp. by apply H. Qed.

Lemma triple_bind {A B} P R Q (c : code M X A) (f : A -> code M X B) :
  triple P c R -> (forall x, triple (R x) (f x) Q) -> triple P (c ≫= f) Q.
Proof.
  intros Hc Hf sch m Hp. unfold mbind, code_bind. specialize (Hc sch m Hp). destruct (c sch m) as [[x sch'] m']. by apply Hf.
Qed.

Lemma triple_seq {A B} (P R : M -> Prop) Q (c : code M X A) (f : A -> code M X B) :
  triple P c (fun _ => R) -> (forall x, triple R (f x) Q) -> triple P (c ≫= f) Q.
Proof. intros Hc Hf. exact (triple_bind P (fun _ => R) Q c f Hc Hf). Qed.

Lemma triple_mono {A} (P P' : M -> Prop) (Q Q' : A -> M -> Prop) c :
  triple P c Q -> (forall m, P' m -> P m) -> (forall x m, Q x m -> Q' x m) -> triple P' c Q'.
Proof. intros H HP HQ sch m Hp. specialize (H sch m (HP m Hp)). destruct (c sch m) as [[x sch'] m']. by apply HQ. Qed.

Lemma triple_any {A} (c : code M X A) P : triple P c (fun _ _ => True).
Proof. intros sch m _. by destruct (c sch m) as [[]]. Qed.

Lemma triple_pure {A} (P : M -> Prop) (p : Prop) (c : code M X A) Q : (p -> triple P c Q) -> triple (fun m => P m /\ p) c Q.
Proof. intros H sch m [Hp Hq]. by apply H. Qed.

Lemma triple_cases {A} (p q : Prop) (P : M -> Prop) (c : code M X A) Q :
  (p -> triple (fun _ => True) c Q) -> (q -> triple P c Q) -> triple (fun m => p \/ (q /\ P m)) c Q.
Proof. intros H1 H2 sch m [Hp|[Hq HP]]; [by apply H1|by apply H2]. Qed.

Lemma triple_or {A} (P P' : M -> Prop) (c : code M X A) Q : triple P c Q -> triple P' c Q -> triple (fun m => P m \/ P' m) c Q.
Proof. intros H1 H2 sch m [Hp|Hp]; [by apply H1|by apply H2]. Qed.

Lemma triple_exists {A B} (P : B -> M -> Prop) (c : code M X A) Q :
  (forall x, triple (P x) c Q) -> triple (fun m => exists x, P x m) c Q.
Proof. intros H sch m [x Hx]. by apply (H x). Qed.

(** An assertion that the others' steps keep holds at the access. *)
Lemma triple_access {A} (P : M -> Prop) (f : M -> A * M) (Q : A -> M -> Prop) :
  (forall x m, P m -> P (step x m)) -> (forall m, P m -> Q (f m).1 (f m).2) -> triple P (access f) Q.
Proof.
  intros Hst Hf sch m Hp. unfold access.
  destruct (match sch with [] => ([], []) | moves :: sch => (moves, sch) end) as [moves sch'].
  assert (Hs : P (fold_left (fun m x => step x m) moves m)).
  { revert m Hp. induction moves as [|x moves IH]; intros m Hp; [done|]. by apply IH, Hst. }
  specialize (Hf _ Hs). by destruct (f _).
Qed.

Lemma triple_update (P : M -> Prop) (f : M -> M) (Q : unit -> M -> Prop) :
  (forall x m, P m -> P (step x m)) -> (forall m, P m -> Q tt (f m)) -> triple P (update f) Q.
Proof. intros Hst Hf. by apply triple_access. Qed.

End interleave.
