(* ===== verification/Smp.v ===== *)
(** * Starting the other processors

    Models kernel/core/smp.c, arch/i386/cpu/ap_bootstrap.c, ap_startup.c,
    ap_trampoline.c, ap_trampoline_blob.S and apic_ipi.c.  The boot processor
    and the processors it wakes share a mailbox and two words of low memory:
    a woken processor makes one access per step, and the boot processor's code
    runs with steps of the others before each of its own accesses, as a
    schedule says.  The lines written to the serial port are left out. *)

From S2P Require Import Prelude Cpu Pmm BuddyProofs FrameAlloc Paging Apic Interleave.
Import Topology Apic.Apic.

(** ** Stacks and slots: ap_bootstrap.c *)

Module Bootstrap.

Definition AP_BOOTSTRAP_STACK_SIZE : Z := 8192.
Definition AP_BOOTSTRAP_MAX_APS : Z := 31.
Definition CPU_TOPOLOGY_MAX_LOGICAL_CPUS_PUBLIC : Z := 32.

Record entry := mkEntry {
  apic_id : Z;
  logical_slot : Z;
  stack_base : Z;
  stack_size : Z;
  initialized : Z;
  booted : Z }.

Definition no_entry : entry := mkEntry 0 0 0 0 0 0.

(** [ready] is [application_processor_bootstrap_initialized]. *)
Record table := mkTable {
  entries : list entry;
  ap_count : Z;
  next_entry_index : Z;
  ready : bool }.

Definition empty_table : table := mkTable (replicate 32 no_entry) 0 0 false.

Definition get_entry (slot : Z) (b : table) : entry := default no_entry (entries b !! Z.to_nat slot).

Definition with_entry (slot : Z) (e : entry) (b : table) : table :=
  mkTable (<[Z.to_nat slot := e]> (entries b)) (ap_count b) (next_entry_index b) (ready b).

(** The loop over the slots; [stacks] is the address of the static array. *)
Fixpoint initialize_loop (stacks : Z) (t : topology) (slots : list Z) (static_stack_index : Z) (b : table) : Z * table :=
  match slots with
  | [] => (1, mkTable (entries b) (ap_count b) (next_entry_index b) true)
  | slot :: slots =>
    let id := cpu_topology_get_apic_id_at_slot slot t in
    if (id =? 0xFF) || (id =? local_apic_id t) then initialize_loop stacks t slots static_stack_index b
    else if AP_BOOTSTRAP_MAX_APS <=? static_stack_index then (0, b)
    else
      let e := mkEntry id slot (stacks ⊞ (static_stack_index ⊠ AP_BOOTSTRAP_STACK_SIZE)) AP_BOOTSTRAP_STACK_SIZE 1 0 in
      let b := with_entry slot e b in
      initialize_loop stacks t slots (static_stack_index ⊞ 1)
        (mkTable (entries b) (ap_count b ⊞ 1) (next_entry_index b) (ready b))
  end.

Definition application_processor_bootstrap_initialize (stacks : Z) (t : topology) (b : table) : Z * table :=
  if ready b then (1, b)
  else initialize_loop stacks t (seqZ 0 CPU_TOPOLOGY_MAX_LOGICAL_CPUS_PUBLIC) 0 b.

Fixpoint find_entry (l : list entry) (id : Z) : option entry :=
  match l with
  | [] => None
  | e :: l => if negb (initialized e =? 0) && (apic_id e =? id) then Some e else find_entry l id
  end.

Definition application_processor_bootstrap_get_entry_by_apic_id (id : Z) (b : table) : option entry := find_entry (entries b) id.

Definition application_processor_bootstrap_get_entry_by_slot (slot : Z) (b : table) : option entry :=
  if (32 <=? slot) || (initialized (get_entry slot b) =? 0) then None else Some (get_entry slot b).

(** NULL is 0. *)
Definition application_processor_bootstrap_get_ap_stack_top (slot : Z) (b : table) : Z :=
  match application_processor_bootstrap_get_entry_by_slot slot b with
  | None => 0
  | Some e => stack_base e ⊞ stack_size e
  end.

Definition application_processor_bootstrap_get_ap_stack_phys (slot : Z) (b : table) : Z :=
  let stack_virt := application_processor_bootstrap_get_ap_stack_top slot b in
  if stack_virt =? 0 then 0 else stack_virt ⊟ KERNEL_VIRTUAL_BASE.

Definition application_processor_bootstrap_mark_booted (slot : Z) (b : table) : table :=
  match application_processor_bootstrap_get_entry_by_slot slot b with
  | None => b
  | Some e => with_entry slot (mkEntry (apic_id e) (logical_slot e) (stack_base e) (stack_size e) (initialized e) 1) b
  end.

Definition application_processor_bootstrap_is_booted (slot : Z) (b : table) : Z :=
  match application_processor_bootstrap_get_entry_by_slot slot b with None => 0 | Some e => booted e end.

Definition application_processor_bootstrap_reset_iteration (b : table) : table :=
  mkTable (entries b) (ap_count b) 0 (ready b).

(** The loop ends because the index grows to 32. *)
Fixpoint next_loop (fuel : nat) (b : table) : option entry * table :=
  match fuel with
  | O => (None, b)
  | S fuel =>
    if next_entry_index b <? 32 then
      let index := next_entry_index b in
      let b := mkTable (entries b) (ap_count b) (index ⊞ 1) (ready b) in
      let e := get_entry index b in
      if negb (initialized e =? 0) && (booted e =? 0) then (Some e, b) else next_loop fuel b
    else (None, b)
  end.

Definition application_processor_bootstrap_next_unbooted_ap (b : table) : option entry * table := next_loop 33 b.

End Bootstrap.

(** ** The machine *)

Module Machine.
Import Bootstrap.

Definition AP_TRAMPOLINE_STARTUP_VECTOR : Z := 0x08.
Definition AP_TRAMPOLINE_ACK_MAGIC : Z := 0x4150.
Definition AP_TRAMPOLINE_C_ENTRY_MAGIC : Z := 0x4350.

(** The words of the mailbox at physical address 0x7D00. *)
Record mailbox := mkMail {
  m_apic_id : Z;
  m_cr3 : Z;
  m_stack_top : Z;
  m_c_entry : Z;
  m_logical_slot : Z;
  m_main_loop : Z }.

Record regs := mkRegs { cr3 : Z; esp : Z; eax : Z; ebx : Z; ecx : Z; edx : Z }.

Definition zero_regs : regs := mkRegs 0 0 0 0 0 0.

(** Where a woken processor is in ap_trampoline_blob.S: each place names what
    it has done last. *)
Inductive place :=
  | Begun
  | Acknowledged
  | Cleared
  | Paged
  | Stacked
  | Entry_read
  | Id_read
  | Slot_read
  | Ready_to_call
  | Called
  | Signalled
  | Looping.

(** A processor waits for a startup interrupt, runs the trampoline, or has
    jumped to an address that is not the kernel's. *)
Inductive processor :=
  | Waiting
  | At (p : place) (r : regs)
  | Lost.

Record ipi := mkIpi {
  apic_ipi_lapic_base : Z;
  apic_ipi_init_attempt_count : Z;
  apic_ipi_sipi_attempt_count : Z;
  apic_ipi_startup_sequence_attempt_count : Z;
  apic_ipi_startup_sequence_success_count : Z }.

Record trampoline := mkTrampoline {
  ap_trampoline_installed : Z;
  ap_trampoline_install_count : Z;
  ap_trampoline_ack_wait_count : Z;
  ap_trampoline_ack_success_count : Z;
  ap_trampoline_ack_timeout_count : Z;
  ap_trampoline_c_entry_wait_count : Z;
  ap_trampoline_c_entry_success_count : Z;
  ap_trampoline_c_entry_timeout_count : Z }.

(** The variables of ap_startup.c; [bitmap] has 32 bytes. *)
Record startup := mkStartup {
  kernel_cr3_cached : Z;
  context : Z * Z * Z;
  reported_online_count : Z;
  last_reported_apic_id : Z;
  reported_apic_bitmap : zmap }.

(** [low] is the trampoline's code in low memory, [directory0] the first word
    of the page directory, [polls] the reads of the interrupt command register
    so far, [warmed] the slots whose heap domain has been initialised. *)
Record machine := mkMachine {
  mail : mailbox;
  ack : Z;
  marker : Z;
  processors : gmap Z processor;
  topo : topology;
  boots : table;
  started : startup;
  lapic : apic;
  sender : ipi;
  tramp : trampoline;
  low : list Z;
  directory0 : Z;
  polls : nat;
  warmed : list Z }.

Definition with_mail (x : mailbox) (m : machine) : machine :=
  mkMachine x (ack m) (marker m) (processors m) (topo m) (boots m) (started m) (lapic m) (sender m) (tramp m) (low m) (directory0 m) (polls m) (warmed m).
Definition with_words (a k : Z) (m : machine) : machine :=
  mkMachine (mail m) a k (processors m) (topo m) (boots m) (started m) (lapic m) (sender m) (tramp m) (low m) (directory0 m) (polls m) (warmed m).
Definition with_processor (id : Z) (p : processor) (m : machine) : machine :=
  mkMachine (mail m) (ack m) (marker m) (<[id := p]> (processors m)) (topo m) (boots m) (started m) (lapic m) (sender m) (tramp m) (low m) (directory0 m) (polls m) (warmed m).
Definition with_topo (x : topology) (m : machine) : machine :=
  mkMachine (mail m) (ack m) (marker m) (processors m) x (boots m) (started m) (lapic m) (sender m) (tramp m) (low m) (directory0 m) (polls m) (warmed m).
Definition with_boots (x : table) (m : machine) : machine :=
  mkMachine (mail m) (ack m) (marker m) (processors m) (topo m) x (started m) (lapic m) (sender m) (tramp m) (low m) (directory0 m) (polls m) (warmed m).
Definition with_started (x : startup) (m : machine) : machine :=
  mkMachine (mail m) (ack m) (marker m) (processors m) (topo m) (boots m) x (lapic m) (sender m) (tramp m) (low m) (directory0 m) (polls m) (warmed m).
Definition with_lapic (x : apic) (m : machine) : machine :=
  mkMachine (mail m) (ack m) (marker m) (processors m) (topo m) (boots m) (started m) x (sender m) (tramp m) (low m) (directory0 m) (polls m) (warmed m).
Definition with_sender (x : ipi) (m : machine) : machine :=
  mkMachine (mail m) (ack m) (marker m) (processors m) (topo m) (boots m) (started m) (lapic m) x (tramp m) (low m) (directory0 m) (polls m) (warmed m).
Definition with_tramp (x : trampoline) (m : machine) : machine :=
  mkMachine (mail m) (ack m) (marker m) (processors m) (topo m) (boots m) (started m) (lapic m) (sender m) x (low m) (directory0 m) (polls m) (warmed m).
Definition with_low (x : list Z) (m : machine) : machine :=
  mkMachine (mail m) (ack m) (marker m) (processors m) (topo m) (boots m) (started m) (lapic m) (sender m) (tramp m) x (directory0 m) (polls m) (warmed m).
Definition with_directory0 (x : Z) (m : machine) : machine :=
  mkMachine (mail m) (ack m) (marker m) (processors m) (topo m) (boots m) (started m) (lapic m) (sender m) (tramp m) (low m) x (polls m) (warmed m).
Definition polled (m : machine) : machine :=
  mkMachine (mail m) (ack m) (marker m) (processors m) (topo m) (boots m) (started m) (lapic m) (sender m) (tramp m) (low m) (directory0 m) (S (polls m)) (warmed m).
Definition warm (slot : Z) (m : machine) : machine :=
  mkMachine (mail m) (ack m) (marker m) (processors m) (topo m) (boots m) (started m) (lapic m) (sender m) (tramp m) (low m) (directory0 m) (polls m) (warmed m ++ [slot]).

End Machine.

(** ** Code that runs on a woken processor *)

Module Startup.
Import Bootstrap Machine.

Section code.
(** Addresses of the kernel's objects and functions, and what the processor
    with a given identifier finds in its feature word, its base register and
    its spurious vector register. *)
Context (page_directory page_tables initialize_cpu_address main_loop_address : Z).
Context (local : Z -> Z * Z * Z).

Definition application_processor_startup_get_kernel_cr3 (s : startup) : Z * startup :=
  if kernel_cr3_cached s =? 0 then
    let c := page_directory ⊟ KERNEL_VIRTUAL_BASE in
    (c, mkStartup c (context s) (reported_online_count s) (last_reported_apic_id s) (reported_apic_bitmap s))
  else (kernel_cr3_cached s, s).

Definition ap_startup_try_mark_reported_apic_id (id : Z) (s : startup) : Z * startup :=
  let byte_index := Z.shiftr id 3 in
  let bit_mask := u8 (Z.shiftl 1 (Z.land id 7)) in
  let byte := zget (reported_apic_bitmap s) byte_index in
  if negb (Z.land byte bit_mask =? 0) then (0, s)
  else (1, mkStartup (kernel_cr3_cached s) (context s) (reported_online_count s) (last_reported_apic_id s)
             (<[byte_index := Z.lor byte bit_mask]> (reported_apic_bitmap s))).

Definition ap_startup_record_online_event (id slot : Z) (m : machine) : machine :=
  let t := (cpu_topology_register_discovered_apic_id id (topo m)).2 in
  let m := with_topo (cpu_topology_mark_apic_id_online id t) m in
  let '(first, s) := ap_startup_try_mark_reported_apic_id id (started m) in
  let s := if first =? 0 then s
           else mkStartup (kernel_cr3_cached s) (context s) (reported_online_count s ⊞ 1) id (reported_apic_bitmap s) in
  with_boots (application_processor_bootstrap_mark_booted slot (boots m)) (with_started s m).

Definition application_processor_startup_report_bootstrap_ack (id slot : Z) (m : machine) : machine :=
  ap_startup_record_online_event id slot m.

Definition application_processor_startup_ensure_low_identity_mapping (m : machine) : Z * machine :=
  let page_tables_phys := Z.land (page_tables ⊟ KERNEL_VIRTUAL_BASE) 0xFFFFF000 in
  let m := if Z.land (directory0 m) 1 =? 0 then with_directory0 (Z.lor page_tables_phys 3) m else m in
  ((if Z.land (directory0 m) 1 =? 0 then 0 else 1), m).

(** The processor that runs this is the one whose registers it uses. *)
Definition application_processor_startup_initialize_cpu (self id slot stack_top : Z) (m : machine) : machine :=
  let s := started m in
  let s := mkStartup (kernel_cr3_cached s) (id, slot, 1) (reported_online_count s) (last_reported_apic_id s) (reported_apic_bitmap s) in
  let '(_, s) := application_processor_startup_get_kernel_cr3 s in
  let m := with_started s m in
  let '(ecx, apic_base, svr) := local self in
  let '(a, _) := apic_initialize_on_cpu (g_apic_mmio_base (lapic m)) ecx apic_base svr in
  warm slot (ap_startup_record_online_event id slot (with_lapic a m)).

(** ** The trampoline: ap_trampoline_blob.S *)

Definition step (self : Z) (m : machine) : machine :=
  let at_ p r := with_processor self (At p r) in
  match processors m !! self with
  | Some (At Begun r) => at_ Acknowledged r (with_words AP_TRAMPOLINE_ACK_MAGIC (marker m) m)
  | Some (At Acknowledged r) => at_ Cleared r (with_words (ack m) 0 m)
  | Some (At Cleared r) => at_ Paged (mkRegs (m_cr3 (mail m)) (esp r) (eax r) (ebx r) (ecx r) (edx r)) m
  | Some (At Paged r) => at_ Stacked (mkRegs (cr3 r) (m_stack_top (mail m)) (eax r) (ebx r) (ecx r) (edx r)) m
  | Some (At Stacked r) => at_ Entry_read (mkRegs (cr3 r) (esp r) (m_c_entry (mail m)) (ebx r) (ecx r) (edx r)) m
  | Some (At Entry_read r) => at_ Id_read (mkRegs (cr3 r) (esp r) (eax r) (u8 (m_apic_id (mail m))) (ecx r) (edx r)) m
  | Some (At Id_read r) => at_ Slot_read (mkRegs (cr3 r) (esp r) (eax r) (ebx r) (m_logical_slot (mail m)) (edx r)) m
  | Some (At Slot_read r) => at_ Ready_to_call (mkRegs (cr3 r) (esp r) (eax r) (ebx r) (ecx r) (m_stack_top (mail m))) m
  | Some (At Ready_to_call r) =>
    if eax r =? initialize_cpu_address
    then at_ Called r (application_processor_startup_initialize_cpu self (ebx r) (ecx r) (edx r) m)
    else with_processor self Lost m
  | Some (At Called r) => at_ Signalled r (with_words (ack m) AP_TRAMPOLINE_C_ENTRY_MAGIC m)
  | Some (At Signalled r) =>
    let target := m_main_loop (mail m) in
    if (target =? main_loop_address) || (target =? 0)
    then at_ Looping (mkRegs (cr3 r) (esp r) target (ebx r) (ecx r) (edx r)) m
    else with_processor self Lost m
  | _ => m
  end.

(** ** Interrupts between processors: what the hardware does with a command *)

(** INIT puts its target back to waiting; a startup interrupt is taken by a
    waiting processor only, and starts it in the trampoline. *)
Definition deliver (target low_word : Z) (m : machine) : machine :=
  let mode := Z.land (Z.shiftr low_word 8) 7 in
  match processors m !! target with
  | None => m
  | Some p =>
    if mode =? 5 then with_processor target Waiting m
    else if mode =? 6 then
      match p with
      | Waiting => if Z.land low_word 0xFF =? AP_TRAMPOLINE_STARTUP_VECTOR
                   then with_processor target (At Begun zero_regs) m else with_processor target Lost m
      | _ => m
      end
    else m
  end.

(** The destination is the high word itself in x2APIC mode, its top byte
    otherwise. *)
Definition receive (l : list event) (m : machine) : machine :=
  match l with
  | [WriteMsr r v] => if r =? 0x830 then deliver (Z.shiftr v 32) (Z.land v 0xFFFFFFFF) m else m
  | [WriteMmio _ high; WriteMmio _ low_word] => deliver (Z.shiftr high 24) low_word m
  | _ => m
  end.

End code.

End Startup.

(** ** Code that runs on the boot processor *)

Module Bsp.
Import Bootstrap Machine Startup.

(** The boot processor's code, between steps of the others. *)
Definition code (A : Type) : Type := Interleave.code machine Z A.

Definition KERNEL_AP_TRAMPOLINE_ACK_SPIN_LIMIT : nat := Z.to_nat 200000.
Definition KERNEL_AP_TRAMPOLINE_C_ENTRY_SPIN_LIMIT : nat := Z.to_nat 300000.
Definition KERNEL_AP_STARTUP_MAX_ATTEMPTS : nat := 3.
Definition DELIVERY_SPIN_LIMIT : nat := Z.to_nat 100000.

(** What the boot processor counts. *)
Record tally := mkTally {
  attempted : Z;
  delivered : Z;
  retries_consumed : Z;
  sequence_failures : Z;
  acknowledgement_timeouts : Z;
  c_entry_timeouts : Z }.

(** [sequence_ok], [ack_ok], [c_entry_ok] and [attempts_used]. *)
Record outcome := mkOutcome { sequence_ok : Z; ack_ok : Z; c_entry_ok : Z; attempts_used : Z }.

Section code.
Context (page_directory page_tables initialize_cpu_address main_loop_address : Z).
Context (local : Z -> Z * Z * Z).

(** [icr n] is what the interrupt command register holds at the [n]th read,
    [stacks] the address of the static stacks, [blob] the trampoline. *)
Context (icr : nat -> Z) (stacks : Z) (blob : list Z).

Definition act {A} (f : machine -> A * machine) : code A :=
  access (step page_directory initialize_cpu_address main_loop_address local) f.

Definition store (f : machine -> machine) : code unit := act (fun m => (tt, f m)).

(** *** apic_ipi.c *)

(** With the vectors that get a handler. *)
Definition advanced_pic_ipi_initialize (lapic_virtual_base : Z) (m : machine) : list Z * machine :=
  let x := sender m in
  let based b := with_sender (mkIpi b (apic_ipi_init_attempt_count x) (apic_ipi_sipi_attempt_count x)
    (apic_ipi_startup_sequence_attempt_count x) (apic_ipi_startup_sequence_success_count x)) m in
  if lapic_virtual_base =? 0 then ([], based 0) else ([0x40], based lapic_virtual_base).

(** [svr] is what the spurious interrupt register holds. *)
Definition advanced_pic_ipi_enable_local_apic (svr : Z) (m : machine) : list event :=
  apic_write LAPIC_REG_SPURIOUS (Z.lor (apic_read svr (lapic m)) (Z.shiftl 1 8)) (lapic m).

Definition advanced_pic_ipi_is_ready (m : machine) : bool := negb (apic_ipi_lapic_base (sender m) =? 0).

Fixpoint delivery_loop (n : nat) : code Z :=
  match n with
  | O => mret 0
  | S n =>
    w ← act (fun m => (apic_read (icr (polls m)) (lapic m), polled m));
    if Z.land w (Z.shiftl 1 12) =? 0 then mret 1 else delivery_loop n
  end.

Definition advanced_pic_ipi_wait_delivery : code Z :=
  active ← act (fun m => (g_x2apic_active (lapic m), m));
  if active : bool then mret 1 else delivery_loop DELIVERY_SPIN_LIMIT.

Definition count_sender (i s a k : Z) (m : machine) : machine :=
  let x := sender m in
  with_sender (mkIpi (apic_ipi_lapic_base x) (apic_ipi_init_attempt_count x ⊞ i) (apic_ipi_sipi_attempt_count x ⊞ s)
    (apic_ipi_startup_sequence_attempt_count x ⊞ a) (apic_ipi_startup_sequence_success_count x ⊞ k)) m.

Definition write_icr (high low_word : Z) : code unit :=
  store (fun m => receive (apic_write_icr high low_word (lapic m)) m).

Definition advanced_pic_ipi_send_init (id : Z) : code Z :=
  _ ← store (count_sender 1 0 0 0);
  ok ← advanced_pic_ipi_wait_delivery;
  if ok =? 0 then mret 0
  else
    _ ← write_icr (shl32 id 24) (Z.lor (Z.lor 0x500 (Z.shiftl 1 14)) (Z.shiftl 1 15));
    advanced_pic_ipi_wait_delivery.

Definition advanced_pic_ipi_send_sipi (id startup_vector : Z) : code Z :=
  _ ← store (count_sender 0 1 0 0);
  ok ← advanced_pic_ipi_wait_delivery;
  if ok =? 0 then mret 0
  else
    _ ← write_icr (shl32 id 24) (Z.lor startup_vector 0x600);
    advanced_pic_ipi_wait_delivery.

(** The delay loops let the others run. *)
Definition pause : code unit := store (fun m => m).

Definition advanced_pic_ipi_send_startup_sequence (id startup_vector : Z) : code Z :=
  _ ← store (count_sender 0 0 1 0);
  ok ← advanced_pic_ipi_send_init id;
  if ok =? 0 then mret 0
  else
    _ ← pause;
    ok ← advanced_pic_ipi_send_sipi id startup_vector;
    if ok =? 0 then mret 0
    else
      _ ← pause;
      ok ← advanced_pic_ipi_send_sipi id startup_vector;
      if ok =? 0 then mret 0
      else _ ← store (count_sender 0 0 0 1); mret 1.

(** *** ap_trampoline.c *)

Definition count_tramp (f : trampoline -> trampoline) : code unit := store (fun m => with_tramp (f (tramp m)) m).

Definition application_processor_trampoline_reset_acknowledgement : code unit :=
  _ ← store (fun m => with_words 0 (marker m) m);
  store (fun m => with_words (ack m) 0 m).

Definition application_processor_trampoline_install : code Z :=
  _ ← store (with_low blob);
  _ ← count_tramp (fun x => mkTrampoline 1 (ap_trampoline_install_count x ⊞ 1) (ap_trampoline_ack_wait_count x)
        (ap_trampoline_ack_success_count x) (ap_trampoline_ack_timeout_count x) (ap_trampoline_c_entry_wait_count x)
        (ap_trampoline_c_entry_success_count x) (ap_trampoline_c_entry_timeout_count x));
  _ ← application_processor_trampoline_reset_acknowledgement;
  _ ← store (fun m => with_words (ack m) 0 m);
  mret 1.

Definition count_waits (w s t cw cs ct : Z) (x : trampoline) : trampoline :=
  mkTrampoline (ap_trampoline_installed x) (ap_trampoline_install_count x) (ap_trampoline_ack_wait_count x ⊞ w)
    (ap_trampoline_ack_success_count x ⊞ s) (ap_trampoline_ack_timeout_count x ⊞ t) (ap_trampoline_c_entry_wait_count x ⊞ cw)
    (ap_trampoline_c_entry_success_count x ⊞ cs) (ap_trampoline_c_entry_timeout_count x ⊞ ct).

(** [for (spin = 0; spin < limit; ++spin) if the word is the magic return 1;] *)
Fixpoint spin (limit : nat) (word : machine -> Z) (magic : Z) : code Z :=
  match limit with
  | O => mret 0
  | S limit => w ← act (fun m => (word m, m)); if w =? magic then mret 1 else spin limit word magic
  end.

Definition application_processor_trampoline_wait_for_acknowledgement (spin_limit : nat) : code Z :=
  _ ← count_tramp (count_waits 1 0 0 0 0 0);
  seen ← spin spin_limit ack AP_TRAMPOLINE_ACK_MAGIC;
  if seen =? 0 then _ ← count_tramp (count_waits 0 0 1 0 0 0); mret 0
  else _ ← count_tramp (count_waits 0 1 0 0 0 0); mret 1.

Definition application_processor_trampoline_wait_for_c_entry (spin_limit : nat) : code Z :=
  _ ← count_tramp (count_waits 0 0 0 1 0 0);
  seen ← spin spin_limit marker AP_TRAMPOLINE_C_ENTRY_MAGIC;
  if seen =? 0 then _ ← count_tramp (count_waits 0 0 0 0 0 1); mret 0
  else _ ← count_tramp (count_waits 0 0 0 0 1 0); mret 1.

Definition mail_word (f : mailbox -> mailbox) : code unit := store (fun m => with_mail (f (mail m)) m).

Definition application_processor_trampoline_configure_handoff (id slot stack_top c_entry main_loop cr3_physical : Z) : code unit :=
  _ ← mail_word (fun x => mkMail id (m_cr3 x) (m_stack_top x) (m_c_entry x) (m_logical_slot x) (m_main_loop x));
  _ ← mail_word (fun x => mkMail (m_apic_id x) cr3_physical (m_stack_top x) (m_c_entry x) (m_logical_slot x) (m_main_loop x));
  _ ← mail_word (fun x => mkMail (m_apic_id x) (m_cr3 x) stack_top (m_c_entry x) (m_logical_slot x) (m_main_loop x));
  _ ← mail_word (fun x => mkMail (m_apic_id x) (m_cr3 x) (m_stack_top x) c_entry (m_logical_slot x) (m_main_loop x));
  _ ← mail_word (fun x => mkMail (m_apic_id x) (m_cr3 x) (m_stack_top x) (m_c_entry x) slot (m_main_loop x));
  mail_word (fun x => mkMail (m_apic_id x) (m_cr3 x) (m_stack_top x) (m_c_entry x) (m_logical_slot x) main_loop).

(** *** smp.c *)

Definition count (a d r s k c : Z) (x : tally) : tally :=
  mkTally (attempted x ⊞ a) (delivered x ⊞ d) (retries_consumed x ⊞ r) (sequence_failures x ⊞ s)
    (acknowledgement_timeouts x ⊞ k) (c_entry_timeouts x ⊞ c).

Definition kernel_cr3 : code Z :=
  act (fun m => let '(c, s) := application_processor_startup_get_kernel_cr3 page_directory (started m) in (c, with_started s m)).

(** The attempts at one processor. *)
Fixpoint attempts (n : nat) (attempt : Z) (e : entry) (o : outcome) (c : tally) : code (outcome * tally) :=
  match n with
  | O => mret (o, c)
  | S n =>
    top ← act (fun m => (application_processor_bootstrap_get_ap_stack_top (logical_slot e) (boots m), m));
    if top =? 0 then attempts n (attempt + 1) e o (count 0 0 0 1 0 0 c)
    else
      let o := mkOutcome (sequence_ok o) (ack_ok o) (c_entry_ok o) (u8 (attempt + 1)) in
      _ ← application_processor_trampoline_reset_acknowledgement;
      cr3_physical ← kernel_cr3;
      _ ← application_processor_trampoline_configure_handoff (apic_id e) (logical_slot e) top
            initialize_cpu_address main_loop_address cr3_physical;
      s ← advanced_pic_ipi_send_startup_sequence (apic_id e) AP_TRAMPOLINE_STARTUP_VECTOR;
      let o := mkOutcome s (ack_ok o) (c_entry_ok o) (attempts_used o) in
      if s =? 0 then attempts n (attempt + 1) e o (count 0 0 0 1 0 0 c)
      else
        a ← application_processor_trampoline_wait_for_acknowledgement KERNEL_AP_TRAMPOLINE_ACK_SPIN_LIMIT;
        let o := mkOutcome s a (c_entry_ok o) (attempts_used o) in
        if a =? 0 then attempts n (attempt + 1) e o (count 0 0 0 0 1 0 c)
        else
          k ← application_processor_trampoline_wait_for_c_entry KERNEL_AP_TRAMPOLINE_C_ENTRY_SPIN_LIMIT;
          let o := mkOutcome s a k (attempts_used o) in
          if k =? 0 then attempts n (attempt + 1) e o (count 0 0 0 0 0 1 c) else mret (o, c)
  end.

(** What the summary gets after the attempts. *)
Definition conclude (o : outcome) (c : tally) : tally :=
  let c := if 1 <? attempts_used o then count 0 0 (attempts_used o - 1) 0 0 0 c else c in
  if negb (sequence_ok o =? 0) && negb (ack_ok o =? 0) && negb (c_entry_ok o =? 0) then count 0 1 0 0 0 0 c else c.

(** Each turn takes a later entry of the table, so 33 turns are enough. *)
Fixpoint start_loop (fuel : nat) (c : tally) : code tally :=
  match fuel with
  | O => mret c
  | S fuel =>
    next ← act (fun m => let '(e, b) := application_processor_bootstrap_next_unbooted_ap (boots m) in (e, with_boots b m));
    match next with
    | None => mret c
    | Some e =>
      '(o, c) ← attempts KERNEL_AP_STARTUP_MAX_ATTEMPTS 0 e (mkOutcome 0 0 0 0) (count 1 0 0 0 0 0 c);
      start_loop fuel (conclude o c)
    end
  end.

(** [None] when the start is skipped. *)
Definition kernel_symmetric_multiprocessing_try_start_discovered_aps : code (option tally) :=
  ok ← act (fun m => let '(r, b) := application_processor_bootstrap_initialize stacks (topo m) (boots m) in (r, with_boots b m));
  if ok =? 0 then mret None
  else
    is_ready ← act (fun m => (advanced_pic_ipi_is_ready m, m));
    if negb is_ready then mret None
    else
      mapped ← act (application_processor_startup_ensure_low_identity_mapping page_tables);
      if mapped =? 0 then mret None
      else
        installed ← application_processor_trampoline_install;
        if installed =? 0 then mret None
        else
          _ ← store (fun m => with_boots (application_processor_bootstrap_reset_iteration (boots m)) m);
          c ← start_loop 33 (mkTally 0 0 0 0 0 0);
          mret (Some c).

End code.

End Bsp.
