(* ===== verification/SmpProofs.v ===== *)
(** * Starting the other processors: every processor gets its own stack

    Properties of [Smp]: the table of stacks, and what a run of the boot
    processor guarantees when it reports no failure, whatever the schedule. *)

From S2P Require Import Prelude Cpu Pmm BuddyProofs FrameAlloc Paging Apic Interleave Smp.
Import Topology Apic.Apic Bootstrap Machine Startup Bsp.

(** ** The table of stacks *)

(** Slot [slot] holds a processor other than the boot processor. *)
Definition is_ap (t : topology) (slot : Z) : bool :=
  let id := cpu_topology_get_apic_id_at_slot slot t in negb ((id =? 0xFF) || (id =? local_apic_id t)).

(** The number of such slots below. *)
Definition rank (t : topology) (slot : Z) : Z := Z.of_nat (length (filter (fun s => is_ap t s = true) (seqZ 0 slot))).

Definition entry_of (stacks : Z) (t : topology) (slot : Z) : entry :=
  if is_ap t slot
  then mkEntry (cpu_topology_get_apic_id_at_slot slot t) slot (stacks + 8192 * rank t slot) 8192 1 0
  else no_entry.

Lemma rank_succ t slot : 0 <= slot -> rank t (slot + 1) = rank t slot + (if is_ap t slot then 1 else 0).
Proof.
  intros Hs. unfold rank. replace (seqZ 0 (slot + 1)) with (seqZ 0 slot ++ [slot]).
  - rewrite filter_app, length_app, Nat2Z.inj_add. f_equal. destruct (is_ap t slot) eqn:E.
    + by rewrite filter_cons_True.
    + rewrite filter_cons_False by (by rewrite E). done.
  - replace (slot + 1) with (Z.of_nat (S (Z.to_nat slot))) by lia. rewrite seqZ_S.
    replace (Z.of_nat (Z.to_nat slot)) with slot by lia. done.
Qed.

Lemma rank_mono t i j : 0 <= i <= j -> 0 <= rank t i <= rank t j.
Proof.
  intros Hij. assert (H : forall n : nat, 0 <= rank t i <= rank t (i + Z.of_nat n)).
  { induction n as [|n IH]; [rewrite Z.add_0_r; unfold rank; lia|].
    replace (i + Z.of_nat (S n)) with (i + Z.of_nat n + 1) by lia. rewrite rank_succ by lia. destruct (is_ap t _); lia. }
  specialize (H (Z.to_nat (j - i))). replace (i + Z.of_nat (Z.to_nat (j - i))) with j in H by lia. done.
Qed.

(** A successful initialisation lays the stacks out in the order of the slots. *)
Record laid (stacks : Z) (t : topology) (b : table) : Prop := {
  la_length : length (entries b) = 32%nat;
  la_entry slot : 0 <= slot < 32 -> get_entry slot b = entry_of stacks t slot;
  la_rank : rank t 32 <= 31;
  la_ready : ready b = true }.

Lemma get_with_entry i j e b :
  length (entries b) = 32%nat -> 0 <= i < 32 -> 0 <= j -> get_entry j (with_entry i e b) = if decide (j = i) then e else get_entry j b.
Proof.
  intros Hl Hi Hj. unfold get_entry, with_entry. cbn. case_decide as E.
  - subst. by rewrite list_lookup_insert_eq by lia.
  - by rewrite list_lookup_insert_ne by lia.
Qed.

Lemma initialize_loop_laid stacks t : 0 <= stacks -> stacks + 31 * 8192 <= 2 ^ 32 -> forall n s b b',
  s + Z.of_nat n = 32 -> 0 <= s -> length (entries b) = 32%nat ->
  (forall slot, 0 <= slot < s -> get_entry slot b = entry_of stacks t slot) ->
  (forall slot, s <= slot < 32 -> get_entry slot b = no_entry) -> rank t s <= 31 ->
  initialize_loop stacks t (seqZ s (Z.of_nat n)) (rank t s) b = (1, b') -> laid stacks t b'.
Proof.
  intros Hst Hst'. induction n as [|n IH]; intros s b b' Hn Hs Hl Hlo Hhi Hr H.
  - cbn in H. injection H as <-. split; cbn; [done| |by replace 32 with s by lia|done].
    intros slot Hsl. apply Hlo. lia.
  - rewrite seqZ_cons in H by lia. replace (Z.pred (Z.of_nat (S n))) with (Z.of_nat n) in H by lia.
    replace (Z.succ s) with (s + 1) in H by lia. cbn [initialize_loop] in H. pose proof (rank_succ t s Hs) as Hsucc. unfold is_ap in Hsucc.
    destruct ((cpu_topology_get_apic_id_at_slot s t =? 0xFF) || (cpu_topology_get_apic_id_at_slot s t =? local_apic_id t)) eqn:E; cbn [negb] in Hsucc.
    + rewrite Z.add_0_r in Hsucc. rewrite <- Hsucc in H.
      eapply (IH (s + 1)); try exact H; try done; try lia; [|intros slot Hsl; apply Hhi; lia].
      intros slot Hsl. destruct (decide (slot = s)) as [->|]; [|apply Hlo; lia]. rewrite Hhi by lia. unfold entry_of, is_ap. by rewrite E.
    + destruct (Z.leb_spec AP_BOOTSTRAP_MAX_APS (rank t s)) as [|Hlt]; [done|]. unfold AP_BOOTSTRAP_MAX_APS, AP_BOOTSTRAP_STACK_SIZE in *.
      pose proof (rank_mono t 0 s). assert (E0 : rank t 0 = 0) by done.
      rewrite mul32_small, !add32_small in H by lia. rewrite <- Hsucc in H.
      eapply (IH (s + 1)); try exact H; try done; try lia.
      * cbn. by rewrite length_insert.
      * intros slot Hsl. change (get_entry slot (with_entry s (mkEntry (cpu_topology_get_apic_id_at_slot s t) s (stacks + rank t s * 8192) 8192 1 0) b) = entry_of stacks t slot).
        rewrite get_with_entry by lia. case_decide as Es; [|apply Hlo; lia].
        subst slot. unfold entry_of, is_ap. rewrite E. cbn [negb]. by rewrite (Z.mul_comm 8192).
      * intros slot Hsl. change (get_entry slot (with_entry s (mkEntry (cpu_topology_get_apic_id_at_slot s t) s (stacks + rank t s * 8192) 8192 1 0) b) = no_entry).
        rewrite get_with_entry, decide_False by lia. apply Hhi. lia.
Qed.

Lemma empty_get slot : 0 <= slot < 32 -> get_entry slot empty_table = no_entry.
Proof. intros H. unfold get_entry, empty_table, entries. by rewrite (lookup_replicate_2 32 no_entry) by lia. Qed.

Lemma initialize_unfold stacks t :
  application_processor_bootstrap_initialize stacks t empty_table = initialize_loop stacks t (seqZ 0 (Z.of_nat 32)) (rank t 0) empty_table.
Proof. unfold application_processor_bootstrap_initialize. reflexivity. Qed.

Lemma initialize_result stacks t l k b : (initialize_loop stacks t l k b).1 = 0 \/ (initialize_loop stacks t l k b).1 = 1.
Proof. revert k b. induction l as [|x l IH]; intros k b; cbn [initialize_loop]; [by right|]. repeat case_match; first [apply IH|by left]. Qed.

Lemma bootstrap_laid stacks t b :
  0 <= stacks -> stacks + 31 * 8192 <= 2 ^ 32 ->
  application_processor_bootstrap_initialize stacks t empty_table = (1, b) -> laid stacks t b.
Proof.
  intros Hs Hs' H. rewrite initialize_unfold in H. assert (E0 : rank t 0 = 0) by reflexivity.
  eapply (initialize_loop_laid stacks t Hs Hs' 32 0 empty_table b); [lia|lia|reflexivity|intros; lia|exact empty_get|lia|exact H].
Qed.

(** The stacks of two processors do not overlap. *)
Lemma stacks_disjoint stacks t i j :
  0 <= i < j -> is_ap t i = true -> is_ap t j = true ->
  stack_base (entry_of stacks t i) + 8192 <= stack_base (entry_of stacks t j).
Proof.
  intros Hij Hi Hj. unfold entry_of. rewrite Hi, Hj. cbn. pose proof (rank_succ t i). rewrite Hi in *.
  pose proof (rank_mono t (i + 1) j). lia.
Qed.

(** ** The processors of a topology *)

Abbreviation id_at t slot := (cpu_topology_get_apic_id_at_slot slot t).

(** Registered identifiers are bytes. *)
Definition byte_ids (t : topology) : Prop :=
  Forall (fun x => 0 <= x < 256 \/ x = INVALID_APIC_ID) (apic_id_to_slot t).

Lemma ap_slot t slot :
  wf t -> byte_ids t -> 0 <= slot < 32 -> is_ap t slot = true ->
  slot < discovered_cpu_count t /\ apic_id_to_slot t !! Z.to_nat slot = Some (id_at t slot) /\ 0 <= id_at t slot < 255.
Proof.
  intros Hw Hb Hs Ha. destruct (lookup_lt_is_Some_2 (apic_id_to_slot t) (Z.to_nat slot)) as [x Hx].
  { rewrite (wf_table t Hw). lia. }
  pose proof (Forall_lookup_1 _ _ _ _ Hb Hx) as Hr. cbn in Hr.
  assert (E : id_at t slot = if x =? INVALID_APIC_ID then 255 else x).
  { unfold cpu_topology_get_apic_id_at_slot, MAX_LOGICAL_CPUS. rewrite (proj2 (Z.leb_gt 32 slot)), Hx by lia. cbn [default].
    unfold default, id. destruct (Z.eqb_spec x INVALID_APIC_ID); [done|].
    change 0xFF with (Z.ones 8). rewrite Z.land_ones, Z.mod_small by lia. done. }
  unfold is_ap in Ha. rewrite E in *. destruct (Z.eqb_spec x INVALID_APIC_ID) as [|Hne]; [done|].
  destruct (Z.eqb_spec x 255) as [|H255]; [done|]. split_and!; [|done|lia|lia].
  destruct (Z.lt_ge_cases slot (discovered_cpu_count t)) as [|Hge]; [done|].
  pose proof (wf_empty t Hw (Z.to_nat slot)) as He. rewrite He in Hx by lia. by injection Hx.
Qed.

Lemma ap_ids_distinct t i j :
  wf t -> byte_ids t -> 0 <= i < 32 -> 0 <= j < 32 -> is_ap t i = true -> is_ap t j = true -> id_at t i = id_at t j -> i = j.
Proof.
  intros Hw Hb Hi Hj Ai Aj E. destruct (ap_slot t i Hw Hb Hi Ai) as (Ci & Li & _), (ap_slot t j Hw Hb Hj Aj) as (Cj & Lj & _).
  cut (Z.to_nat i = Z.to_nat j); [lia|].
  eapply (NoDup_lookup _ _ _ (id_at t i) (wf_nodup t Hw)); rewrite lookup_take_lt by lia; [done|by rewrite E].
Qed.

(** Reporting a registered processor leaves the identifiers alone and puts its
    slot online. *)
Lemma online_known t slot id :
  wf t -> 0 <= slot < discovered_cpu_count t -> apic_id_to_slot t !! Z.to_nat slot = Some id -> 0 <= id < 255 ->
  let t' := cpu_topology_mark_apic_id_online id (cpu_topology_register_discovered_apic_id id t).2 in
  wf t' /\ apic_id_to_slot t' = apic_id_to_slot t /\ discovered_cpu_count t' = discovered_cpu_count t /\
  cpu_topology_is_logical_slot_online slot t' = true /\
  forall s, cpu_topology_is_logical_slot_online s t = true -> cpu_topology_is_logical_slot_online s t' = true.
Proof.
  intros Hw Hs Hl Hid. pose proof (wf_count t Hw). pose proof (wf_online t Hw).
  assert (Em : Z.land id 0xFF = id) by (change 0xFF with (Z.ones 8); rewrite Z.land_ones, Z.mod_small; lia).
  assert (Er : cpu_topology_register_apic_id_internal id t = (slot, t)).
  { unfold cpu_topology_register_apic_id_internal. pose proof (wf_table t Hw).
    by rewrite (find_slot_unique _ _ _ slot) by (try apply (wf_nodup t Hw); done || lia). }
  unfold cpu_topology_register_discovered_apic_id. rewrite Em, Er. cbn [snd]. cbn zeta.
  split; [apply mark_online_wf; done|]. unfold cpu_topology_mark_apic_id_online. rewrite Em, Er.
  unfold cpu_topology_is_logical_slot_online, MAX_LOGICAL_CPUS in *. rewrite (proj2 (Z.leb_gt 32 slot)) by lia.
  destruct (lookup_lt_is_Some_2 (online_by_slot t) (Z.to_nat slot)) as [o Ho]; [lia|]. rewrite Ho.
  destruct o; cbn; rewrite ?Ho; [done|]. split_and!; [done|done|by rewrite list_lookup_insert_eq by lia|].
  intros s. destruct (32 <=? s); [done|]. destruct (decide (Z.to_nat s = Z.to_nat slot)) as [->|].
  - by rewrite list_lookup_insert_eq by lia.
  - by rewrite list_lookup_insert_ne by done.
Qed.

(** ** Interrupt commands *)

Definition INIT_WORD : Z := 0xC500.
Definition SIPI_WORD : Z := 0x608.

(** Where the two commands go, with an interrupt controller in either mode. *)
Lemma commands_go x :
  0 <= x < 256 ->
  Z.shiftr (shl32 x 24) 24 = x /\
  (forall w, w = INIT_WORD \/ w = SIPI_WORD ->
     Z.shiftr (Z.lor (u64 (Z.shiftl (shl32 x 24) 32)) w) 32 = x * 2 ^ 24 /\
     Z.land (Z.lor (u64 (Z.shiftl (shl32 x 24) 32)) w) 0xFFFFFFFF = w).
Proof.
  intros Hx.
  assert (H : forallb (fun x => (Z.shiftr (shl32 x 24) 24 =? x) &&
    forallb (fun w => (Z.shiftr (Z.lor (u64 (Z.shiftl (shl32 x 24) 32)) w) 32 =? x * 2 ^ 24) &&
                      (Z.land (Z.lor (u64 (Z.shiftl (shl32 x 24) 32)) w) 0xFFFFFFFF =? w)) [INIT_WORD; SIPI_WORD]) (seqZ 0 256) = true)
    by (vm_compute; reflexivity).
  rewrite forallb_forall in H. specialize (H x). rewrite <- list_elem_of_In, elem_of_seqZ in H. specialize (H ltac:(lia)).
  apply andb_prop in H as [H1 H2]. split; [by apply Z.eqb_eq|]. rewrite forallb_forall in H2. intros w Hw.
  assert (Hin : List.In w [INIT_WORD; SIPI_WORD]) by (destruct Hw as [-> | ->]; cbn; tauto).
  specialize (H2 w Hin). apply andb_prop in H2 as [H2 H3]. split; by apply Z.eqb_eq.
Qed.

(** ** The invariant of a run without failures *)

Section runs.
Context (page_directory page_tables ia la : Z) (local : Z -> Z * Z * Z) (icr : nat -> Z) (stacks : Z) (blob : list Z).
Context (t : topology) (a : apic).

Abbreviation step := (step page_directory ia la local).
Abbreviation act := (act page_directory ia la local).
Abbreviation store := (store page_directory ia la local).

Hypothesis Hwf : wf t.
Hypothesis Hbytes : byte_ids t.
Hypothesis Hstacks : 0 <= stacks /\ stacks + 31 * 8192 < 2 ^ 32.
Hypothesis Hrank : rank t 32 <= 31.

(** All processors have the boot processor's kind of local APIC. *)
Hypothesis Hlocal : forall id,
  let '(ecx, apic_base, svr) := local id in (apic_initialize_on_cpu (g_apic_mmio_base a) ecx apic_base svr).1 = a.

Abbreviation id slot := (id_at t slot).
Abbreviation base slot := (stacks + 8192 * rank t slot).
Abbreviation top slot := (base slot + 8192).
Abbreviation ap slot := (0 <= slot < 32 /\ is_ap t slot = true).

(** The table entry of a slot, with its [booted] flag. *)
Definition marked (slot flag : Z) : entry :=
  if is_ap t slot then mkEntry (id slot) slot (base slot) 8192 1 flag else no_entry.

(** The registers of a processor that was started for [slot]. *)
Definition owns (slot : Z) (r : regs) : Prop := esp r = top slot /\ ebx r = id slot /\ ecx r = slot.

Definition arrived (slot : Z) (m : machine) : Prop :=
  get_entry slot (boots m) = marked slot 1 /\ cpu_topology_is_logical_slot_online slot (topo m) = true.

Definition settled (slot : Z) (m : machine) : Prop :=
  exists p r, processors m !! (id slot) = Some (At p r) /\ (p = Signalled \/ p = Looping) /\ owns slot r /\ arrived slot m.

(** How far the processor of [slot] is, and what the marker says of it. *)
Definition progress (slot : Z) (m : machine) : Prop :=
  (exists c, mail m = mkMail (id slot) c (top slot) ia slot la) /\
  match processors m !! (id slot) with
  | None | Some Waiting => marker m = 0
  | Some (At p r) =>
    match p with
    | Begun | Acknowledged | Cleared | Paged => marker m = 0
    | Stacked => marker m = 0 /\ esp r = top slot
    | Entry_read => marker m = 0 /\ esp r = top slot /\ eax r = ia
    | Id_read => marker m = 0 /\ esp r = top slot /\ eax r = ia /\ ebx r = id slot
    | Slot_read | Ready_to_call => marker m = 0 /\ owns slot r /\ eax r = ia
    | Called => marker m = 0 /\ owns slot r /\ arrived slot m
    | Signalled | Looping => owns slot r /\ arrived slot m
    end
  | Some Lost => False
  end.

(** [done] are the slots whose processors have arrived, [current] is the one
    that is being started. *)
Record inv (n : Z) (done : list Z) (current : option Z) (m : machine) : Prop := {
  i_done slot : slot ∈ done -> (ap slot) /\ settled slot m;
  i_others x p : processors m !! x = Some p -> Forall (fun slot => x <> id slot) (done ++ option_list current) -> p = Waiting;
  i_keys x p : processors m !! x = Some p -> 0 <= x < 256;
  i_loop : done <> [] -> m_main_loop (mail m) = la;
  i_lapic : lapic m = a;
  i_length : length (entries (boots m)) = 32%nat;
  i_ready : ready (boots m) = true;
  i_next : next_entry_index (boots m) = n;
  i_table slot : 0 <= slot < 32 -> exists flag, get_entry slot (boots m) = marked slot flag /\
    (slot ∈ done -> flag = 1) /\ (slot ∉ done -> current <> Some slot -> flag = 0);
  i_wf : wf (topo m);
  i_ids : apic_id_to_slot (topo m) = apic_id_to_slot t;
  i_count : discovered_cpu_count (topo m) = discovered_cpu_count t;
  i_current slot : current = Some slot -> (ap slot) /\ (slot ∉ done) /\ progress slot m }.

(** A step of a processor that only changes that processor. *)
Lemma inv_move n done current m x p :
  inv n done current m -> 0 <= x < 256 ->
  (forall slot, slot ∈ done -> x = id slot -> settled slot (with_processor x p m)) ->
  (Forall (fun slot => x <> id slot) (done ++ option_list current) -> p = Waiting) ->
  (forall slot, current = Some slot -> x = id slot -> progress slot (with_processor x p m)) ->
  inv n done current (with_processor x p m).
Proof.
  intros [] Hx Hd Ho Hc. split; try done; cbn [processors with_processor].
  - intros slot Hin. destruct (i_done0 slot Hin) as [Ha Hs]. split; [done|]. destruct (decide (x = id slot)) as [E|E]; [by apply Hd|].
    destruct Hs as (p0 & r & Hp & Hr). exists p0, r. cbn. by rewrite lookup_insert_ne.
  - intros y q Hq Hall. destruct (decide (x = y)) as [->|].
    + rewrite lookup_insert_eq in Hq. injection Hq as <-. by apply Ho.
    + rewrite lookup_insert_ne in Hq by done. by eapply i_others0.
  - intros y q Hq. destruct (decide (x = y)) as [->|]; [done|]. rewrite lookup_insert_ne in Hq by done. by eapply i_keys0.
  - intros slot Hs. destruct (i_current0 slot Hs) as (Ha & Hn & Hp). split; [done|]. split; [done|].
    destruct (decide (x = id slot)) as [E|E]; [by apply Hc|]. destruct Hp as [Hm Hp]. split; [done|]. cbn. by rewrite lookup_insert_ne.
Qed.

(** Other fields of the machine, as far as the invariant looks at them. *)
Lemma inv_same n done current m m' :
  inv n done current m -> processors m' = processors m -> boots m' = boots m -> lapic m' = lapic m -> topo m' = topo m ->
  (done <> [] -> m_main_loop (mail m') = la) -> (forall slot, current = Some slot -> mail m' = mail m /\ marker m' = marker m) ->
  inv n done current m'.
Proof.
  intros [] Ep Eb El Et Hm Hc. split; rewrite ?Ep, ?Eb, ?El, ?Et; try done.
  - intros slot Hin. destruct (i_done0 slot Hin) as [Ha (p & r & H1 & H2 & H3 & H4)]. split; [done|].
    exists p, r. unfold arrived. rewrite Ep, Eb, Et. done.
  - intros slot Hs. destruct (i_current0 slot Hs) as (Ha & Hn & Hp). destruct (Hc slot Hs) as [Em Ek]. split; [done|]. split; [done|].
    unfold progress, arrived in *. by rewrite Ep, Eb, Et, Em, Ek.
Qed.

Lemma done_ids n done s m slot : inv n done (Some s) m -> slot ∈ done -> id slot <> id s.
Proof.
  intros Hi Hin E. destruct (i_done _ _ _ _ Hi slot Hin) as [[Hr Ha] _]. destruct (i_current _ _ _ _ Hi s eq_refl) as ([Hr' Ha'] & Hn & _).
  rewrite (ap_ids_distinct t slot s Hwf Hbytes Hr Hr' Ha Ha' E) in Hin. done.
Qed.

(** The processor that is being started moves on. *)
Lemma inv_advance n done s m m' p :
  inv n done (Some s) m -> processors m' = <[id s := p]> (processors m) -> mail m' = mail m -> lapic m' = a ->
  length (entries (boots m')) = 32%nat -> ready (boots m') = true -> next_entry_index (boots m') = n ->
  (forall slot, 0 <= slot < 32 -> slot <> s -> get_entry slot (boots m') = get_entry slot (boots m)) ->
  (exists flag, get_entry s (boots m') = marked s flag) -> wf (topo m') ->
  apic_id_to_slot (topo m') = apic_id_to_slot t -> discovered_cpu_count (topo m') = discovered_cpu_count t ->
  (forall slot, cpu_topology_is_logical_slot_online slot (topo m) = true -> cpu_topology_is_logical_slot_online slot (topo m') = true) ->
  progress s m' -> inv n done (Some s) m'.
Proof.
  intros Hi Ep Em El Hl Hr Hnx Hb Hbs Hw Hids Hcnt Hon Hp. pose proof (done_ids n done s m) as Hne. pose proof Hi as [].
  destruct (i_current0 s eq_refl) as ([Hs Hs'] & Hn & _). split; try done; rewrite ?Ep, ?Em; try done.
  - intros slot Hin. destruct (i_done0 slot Hin) as [[Hr' Ha] (q & r & H1 & H2 & H3 & H4 & H5)]. split; [done|].
    exists q, r. rewrite Ep, lookup_insert_ne by (intros E; by apply (Hne slot Hi Hin)). split_and!; [done|done|done|].
    split; [rewrite Hb; [done|done|congruence]|by apply Hon].
  - intros x q Hq Hall. apply (i_others0 x q); [|done]. rewrite lookup_insert_ne in Hq; [done|].
    intros <-. apply Forall_app in Hall as [_ Hall]. cbn in Hall. inversion_clear Hall as [|? ? H1 H2]. by apply H1.
  - intros x q Hq. destruct (decide (x = id s)) as [->|]; [destruct (ap_slot t s Hwf Hbytes Hs Hs') as (_ & _ & ?); lia|].
    rewrite lookup_insert_ne in Hq by done. by eapply i_keys0.
  - intros slot Hsl. destruct (decide (slot = s)) as [->|].
    + destruct Hbs as [flag Hf]. exists flag. split; [done|]. split; [done|]. intros _ []. done.
    + rewrite Hb by done. by apply i_table0.
  - intros slot [= <-]. done.
Qed.

(** The C code of a processor that arrives. *)
Lemma initialize_arrives n done s m stack_top :
  inv n done (Some s) m ->
  let m' := application_processor_startup_initialize_cpu page_directory local (id s) (id s) s stack_top m in
  processors m' = processors m /\ mail m' = mail m /\ marker m' = marker m /\ lapic m' = a /\
  length (entries (boots m')) = 32%nat /\ ready (boots m') = true /\ next_entry_index (boots m') = n /\
  (forall slot, 0 <= slot < 32 -> slot <> s -> get_entry slot (boots m') = get_entry slot (boots m)) /\
  wf (topo m') /\ apic_id_to_slot (topo m') = apic_id_to_slot t /\ discovered_cpu_count (topo m') = discovered_cpu_count t /\
  (forall slot, cpu_topology_is_logical_slot_online slot (topo m) = true -> cpu_topology_is_logical_slot_online slot (topo m') = true) /\
  arrived s m'.
Proof.
  intros []. destruct (i_current0 s eq_refl) as ([Hs Ha] & Hn & _). destruct (ap_slot t s Hwf Hbytes Hs Ha) as (Hc & Hl & Hb).
  rewrite <- i_ids0, <- i_count0 in *.
  destruct (online_known (topo m) s (id s) i_wf0 ltac:(lia) Hl Hb) as (K1 & K2 & K3 & K4 & K5).
  destruct (i_table0 s Hs) as (flag & Hf & _). specialize (Hlocal (id s)).
  unfold application_processor_startup_initialize_cpu, arrived.
  destruct (local (id s)) as [[ecx0 base0] svr0].
  set (s0 := mkStartup _ _ _ _ _). destruct (application_processor_startup_get_kernel_cr3 page_directory s0) as [c s1].
  assert (El : lapic (with_started s1 m) = a) by exact i_lapic0. rewrite El.
  destruct (apic_initialize_on_cpu _ ecx0 base0 svr0) as [a' ev]. cbn [fst] in Hlocal. subst a'.
  unfold ap_startup_record_online_event, application_processor_bootstrap_mark_booted, application_processor_bootstrap_get_entry_by_slot.
  cbn [topo with_lapic with_started started boots with_topo]. destruct (ap_startup_try_mark_reported_apic_id _ s1) as [first s2].
  unfold marked in *. rewrite Ha in *. rewrite (proj2 (Z.leb_gt 32 s)), Hf by lia. cbn [orb initialized Z.eqb].
  cbn zeta. cbn [processors mail marker lapic boots topo warm with_boots with_started with_topo with_lapic apic_id logical_slot stack_base stack_size].
  split_and!; try done.
  - cbn. by rewrite length_insert.
  - intros slot Hsl Hne. by rewrite get_with_entry, decide_False by lia.
  - by rewrite get_with_entry, decide_True by lia.
Qed.

Lemma u8_id s : 0 <= s < 32 -> is_ap t s = true -> u8 (id s) = id s.
Proof. intros Hs Ha. destruct (ap_slot t s Hwf Hbytes Hs Ha) as (_ & _ & ?). apply Z.mod_small. lia. Qed.

(** An advance that changes the processor and the two words only. *)
Lemma inv_word n done s m p w :
  inv n done (Some s) m -> progress s (with_processor (id s) p (with_words (ack m) w m)) ->
  forall k, inv n done (Some s) (with_processor (id s) p (with_words k w m)).
Proof.
  intros Hi Hp k. pose proof Hi as []. destruct (i_current0 s eq_refl) as ([Hs _] & _). destruct (i_table0 s Hs) as (flag & Hf & _).
  eapply (inv_advance n done s m _ p); try done. by exists flag.
Qed.

Lemma inv_current n done s m p r :
  inv n done (Some s) m -> processors m !! (id s) = Some (At p r) -> inv n done (Some s) (step (id s) m).
Proof.
  intros Hi Ep. destruct (i_current _ _ _ _ Hi s eq_refl) as ([Hs Ha] & Hn & [(c & Em) Hp]). rewrite Ep in Hp.
  assert (Hmk : forall p r, (let m' := with_processor (id s) (At p r) m in
     match p with
     | Begun | Acknowledged | Cleared | Paged => marker m = 0
     | Stacked => marker m = 0 /\ esp r = top s
     | Entry_read => marker m = 0 /\ esp r = top s /\ eax r = ia
     | Id_read => marker m = 0 /\ esp r = top s /\ eax r = ia /\ ebx r = id s
     | Slot_read | Ready_to_call => marker m = 0 /\ owns s r /\ eax r = ia
     | Called => marker m = 0 /\ owns s r /\ arrived s m
     | Signalled | Looping => owns s r /\ arrived s m
     end) -> inv n done (Some s) (with_processor (id s) (At p r) m)).
  { intros p0 r0 Hpr. apply inv_move; [done| | | |].
    - by eapply (i_keys _ _ _ _ Hi).
    - intros slot Hin E. by destruct (done_ids n done s m slot Hi Hin).
    - intros Hall. apply Forall_app in Hall as [_ Hall]. inversion_clear Hall as [|? ? H1 H2]. by destruct H1.
    - intros slot [= <-] _. split; [by exists c|]. cbn [processors with_processor]. rewrite lookup_insert_eq. exact Hpr. }
  unfold Startup.step. rewrite Ep. destruct p; cbn [mail] in *; rewrite ?Em; cbn [m_cr3 m_stack_top m_c_entry m_apic_id m_logical_slot m_main_loop].
  - rewrite Hp. apply (inv_word n done s m); [done|]. split; [by exists c|]. cbn. by rewrite lookup_insert_eq.
  - apply (inv_word n done s m); [done|]. split; [by exists c|]. cbn. by rewrite lookup_insert_eq.
  - by apply Hmk.
  - apply Hmk. cbn. tauto.
  - apply Hmk. cbn. tauto.
  - apply Hmk. cbn. rewrite u8_id by done. naive_solver.
  - apply Hmk. unfold owns. cbn. naive_solver.
  - apply Hmk. unfold owns in *. cbn. naive_solver.
  - destruct Hp as (Hk & (Ho1 & Ho2 & Ho3) & He). rewrite He, Z.eqb_refl, Ho2, Ho3.
    destruct (initialize_arrives n done s m (edx r) Hi) as (K1 & K2 & K3 & K4 & K5 & K6 & K6' & K7 & K8 & K9 & K10 & K11 & K12).
    eapply (inv_advance n done s m _ (At Called r)); cbn [processors mail lapic boots topo with_processor]; try done.
    + by rewrite K1.
    + exists 1. apply K12.
    + split; [exists c; by cbn [mail with_processor]; rewrite K2|]. cbn [processors with_processor marker]. rewrite lookup_insert_eq.
      split; [by rewrite K3|]. split; [done|exact K12].
  - apply (inv_word n done s m); [done|]. split; [by exists c|]. cbn. rewrite lookup_insert_eq. apply Hp.
  - rewrite Z.eqb_refl. cbn [orb]. apply Hmk. done.
  - done.
Qed.

Lemma inv_settled n done current m slot :
  inv n done current m -> slot ∈ done -> inv n done current (step (id slot) m).
Proof.
  intros Hi Hin. destruct (i_done _ _ _ _ Hi slot Hin) as [[Hs Ha] (p & r & Ep & Hp & Ho & Har)]. unfold Startup.step. rewrite Ep.
  destruct Hp as [-> | ->]; [|done]. rewrite (i_loop _ _ _ _ Hi) by (intros ->; by apply not_elem_of_nil in Hin). rewrite Z.eqb_refl. cbn [orb].
  apply inv_move; [done|by eapply (i_keys _ _ _ _ Hi)| | |].
  - intros slot' Hin' E. destruct (i_done _ _ _ _ Hi slot' Hin') as [[Hs' Ha'] _].
    rewrite <- (ap_ids_distinct t slot slot' Hwf Hbytes Hs Hs' Ha Ha' E).
    exists Looping, (mkRegs (cr3 r) (esp r) la (ebx r) (ecx r) (edx r)). cbn. rewrite lookup_insert_eq. split; [done|]. split; [by right|]. done.
  - intros Hall. rewrite Forall_app in Hall. destruct Hall as [Hall _]. rewrite Forall_forall in Hall. by destruct (Hall slot Hin).
  - intros slot' -> E. by destruct (done_ids n done slot' m slot Hi Hin).
Qed.

Lemma inv_step n done current m x : inv n done current m -> inv n done current (step x m).
Proof.
  intros Hi. destruct (processors m !! x) as [[|p r|]|] eqn:Ep; try (by unfold Startup.step; rewrite Ep).
  destruct (decide (Exists (fun slot => x = id slot) (done ++ option_list current))) as [Hex|Hex].
  - apply Exists_exists in Hex as (slot & Hin & ->). apply elem_of_app in Hin as [Hin|Hin]; [by apply inv_settled|].
    destruct current as [s|]; cbn in Hin; [|by apply not_elem_of_nil in Hin]. apply list_elem_of_singleton in Hin as ->. by eapply inv_current.
  - assert (At p r = Waiting); [|done]. apply (i_others _ _ _ _ Hi x); [done|]. apply Forall_forall. intros slot Hin E. apply Hex, Exists_exists. by exists slot.
Qed.

Lemma triple_act {A} (P : machine -> Prop) (f : machine -> A * machine) (Q : A -> machine -> Prop) :
  (forall x m, P m -> P (step x m)) -> (forall m, P m -> Q (f m).1 (f m).2) -> triple P (act f) Q.
Proof. apply triple_access. Qed.

Lemma triple_store (P : machine -> Prop) (f : machine -> machine) (Q : unit -> machine -> Prop) :
  (forall x m, P m -> P (step x m)) -> (forall m, P m -> Q tt (f m)) -> triple P (store f) Q.
Proof. apply triple_update. Qed.

(** ** The mailbox and the marker between starts *)

Lemma step_mail x m : mail (step x m) = mail m.
Proof.
  unfold Startup.step. destruct (processors m !! x) as [[|p r|]|]; try done. destruct p; try done; case_match; try done.
  cbn [mail with_processor]. unfold application_processor_startup_initialize_cpu, ap_startup_record_online_event.
  repeat case_match; done.
Qed.

Lemma quiet_marker n done m x : inv n done None m -> marker (step x m) = marker m.
Proof.
  intros Hi. unfold Startup.step. destruct (processors m !! x) as [[|p r|]|] eqn:Ep; try done.
  destruct (decide (Exists (fun slot => x = id slot) done)) as [Hex|Hex].
  - apply Exists_exists in Hex as (slot & Hin & ->). destruct (i_done _ _ _ _ Hi slot Hin) as [_ (p' & r' & E & Hp & _)].
    rewrite E in Ep. injection Ep as -> ->. destruct Hp as [-> | ->]; [|done]. case_match; done.
  - assert (At p r = Waiting); [|done]. apply (i_others _ _ _ _ Hi x); [done|]. cbn [option_list]. rewrite app_nil_r.
    apply Forall_forall. intros slot Hin E. apply Hex, Exists_exists. by exists slot.
Qed.

(** Nobody is being started and the marker is clear. *)
Definition calm (n : Z) (done : list Z) (P : mailbox -> Prop) (m : machine) : Prop :=
  inv n done None m /\ marker m = 0 /\ P (mail m).

Lemma calm_step n done P x m : calm n done P m -> calm n done P (step x m).
Proof.
  intros (Hi & Hk & Hp). split; [by apply inv_step|]. by rewrite (quiet_marker n done), step_mail.
Qed.

Lemma reset_calm n done :
  triple (inv n done None) (application_processor_trampoline_reset_acknowledgement page_directory ia la local)
    (fun _ => calm n done (fun _ => True)).
Proof.
  eapply (triple_bind _ (fun _ => inv n done None)).
  - apply triple_store; [intros x m; apply inv_step|]. intros m Hi. apply (inv_same n done None m); try done. apply (i_loop _ _ _ _ Hi).
  - intros _. apply triple_store; [intros x m; apply inv_step|]. intros m Hi. split; [|done].
    apply (inv_same n done None m); try done. apply (i_loop _ _ _ _ Hi).
Qed.

Lemma mail_calm n done (P Q : mailbox -> Prop) f :
  (forall x, P x -> Q (f x)) -> (forall x, m_main_loop x = la -> m_main_loop (f x) = la) ->
  triple (calm n done P) (mail_word page_directory ia la local f) (fun _ => calm n done Q).
Proof.
  intros Hf Hl. apply triple_store; [intros x m; apply calm_step|]. intros m (Hi & Hk & Hp). split; [|split; [done|by apply Hf]].
  apply (inv_same n done None m); try done. intros Hd. apply Hl, (i_loop _ _ _ _ Hi Hd).
Qed.

Lemma configure_calm n done s slot_top c :
  triple (calm n done (fun _ => True))
    (application_processor_trampoline_configure_handoff page_directory ia la local (id s) s slot_top ia la c)
    (fun _ => calm n done (fun x => x = mkMail (id s) c slot_top ia s la)).
Proof.
  unfold application_processor_trampoline_configure_handoff.
  eapply triple_seq; [apply (mail_calm n done _ (fun x => m_apic_id x = id s)); done|intros _].
  eapply triple_seq; [apply (mail_calm n done _ (fun x => m_apic_id x = id s /\ m_cr3 x = c)); naive_solver|intros _].
  eapply triple_seq; [apply (mail_calm n done _ (fun x => m_apic_id x = id s /\ m_cr3 x = c /\ m_stack_top x = slot_top)); naive_solver|intros _].
  eapply triple_seq;
    [apply (mail_calm n done _ (fun x => m_apic_id x = id s /\ m_cr3 x = c /\ m_stack_top x = slot_top /\ m_c_entry x = ia)); naive_solver|intros _].
  eapply triple_seq;
    [apply (mail_calm n done _ (fun x => m_apic_id x = id s /\ m_cr3 x = c /\ m_stack_top x = slot_top /\ m_c_entry x = ia /\ m_logical_slot x = s)); naive_solver|intros _].
  apply mail_calm; [|done]. intros x (<- & <- & <- & <- & <-). done.
Qed.

(** The start of [s] begins. *)
Lemma begin_start n done s c m :
  ap s -> s ∉ done -> calm n done (fun x => x = mkMail (id s) c (top s) ia s la) m ->
  inv n done (Some s) m /\ (processors m !! (id s) = None \/ processors m !! (id s) = Some Waiting).
Proof.
  intros [Hs Ha] Hn (Hi & Hk & Hm). pose proof Hi as [].
  assert (Hw : processors m !! (id s) = None \/ processors m !! (id s) = Some Waiting).
  { destruct (processors m !! (id s)) as [p|] eqn:Ep; [right|by left]. f_equal. apply (i_others0 (id s)); [done|].
    cbn [option_list]. rewrite app_nil_r. apply Forall_forall. intros slot Hin E. destruct (i_done0 slot Hin) as [[Hs' Ha'] _].
    rewrite (ap_ids_distinct t s slot Hwf Hbytes Hs Hs' Ha Ha' E) in Hn. done. }
  split; [|done]. split; try done.
  - intros x p Hp Hall. apply (i_others0 x p); [done|]. apply Forall_app in Hall as [Hall _]. cbn [option_list]. by rewrite app_nil_r.
  - intros slot Hsl. destruct (i_table0 slot Hsl) as (flag & Hf & H1 & H0). exists flag. split; [done|]. split; [done|]. intros Hnd _. by apply H0.
  - intros slot [= <-]. split; [done|]. split; [done|]. split; [by exists c|]. by destruct Hw as [-> | ->].
Qed.

Lemma receive_command x w b m :
  0 <= x < 256 -> w = INIT_WORD \/ w = SIPI_WORD -> (forall y p, processors m !! y = Some p -> 0 <= y < 256) ->
  receive (apic_write_icr (shl32 x 24) w b) m = m \/ receive (apic_write_icr (shl32 x 24) w b) m = deliver x w m.
Proof.
  intros Hx Hw Hk. destruct (commands_go x Hx) as [H1 H2]. destruct (H2 w Hw) as [H3 H4].
  unfold apic_write_icr. destruct (g_x2apic_active b) eqn:Ex.
  - change (X2APIC_MSR_BASE ⊞ Z.shiftr LAPIC_REG_ICR_LOW 4) with 0x830. cbn [receive]. rewrite Z.eqb_refl, H3, H4.
    destruct (decide (x = 0)) as [->|]; [by right|]. left. unfold deliver.
    destruct (processors m !! (x * 2 ^ 24)) eqn:E; [|done]. apply Hk in E. lia.
  - destruct (g_apic_mmio_base b =? 0) eqn:Eb; cbn [negb]; [by left|]. unfold apic_write. rewrite Ex, Eb. cbn [negb app receive].
    rewrite H1. by right.
Qed.

(** The processor of [s] has not left its wait. *)
Definition before (s : Z) (m : machine) : Prop := processors m !! (id s) = None \/ processors m !! (id s) = Some Waiting.

Lemma step_other x y m : x <> y -> processors (step x m) !! y = processors m !! y.
Proof.
  intros Hne. unfold Startup.step. destruct (processors m !! x) as [[|p r|]|]; try done.
  assert (Hi : forall i sl st, processors (application_processor_startup_initialize_cpu page_directory local x i sl st m) = processors m).
  { intros i sl st. unfold application_processor_startup_initialize_cpu, ap_startup_record_online_event. repeat case_match; done. }
  destruct p; try case_match; cbn [processors with_processor with_words]; rewrite ?Hi, ?lookup_insert_ne by done; done.
Qed.

Lemma before_step s x m : before s m -> before s (step x m).
Proof.
  unfold before. destruct (decide (x = id s)) as [->|Hne]; [|by rewrite step_other].
  unfold Startup.step. intros [E|E]; rewrite E; rewrite E; tauto.
Qed.

Lemma inv_start n done s m p :
  inv n done (Some s) m -> before s m -> processors m !! (id s) <> None -> p = Waiting \/ p = At Begun zero_regs ->
  inv n done (Some s) (with_processor (id s) p m).
Proof.
  intros Hi Hb Hnn Hp. destruct (i_current _ _ _ _ Hi s eq_refl) as ([Hs Ha] & Hn & [(c & Em) Hm]).
  assert (Hk : marker m = 0) by (by destruct Hb as [E|E]; rewrite E in Hm).
  apply inv_move; [done| | | |].
  - destruct (processors m !! (id s)) eqn:E; [|done]. by eapply (i_keys _ _ _ _ Hi).
  - intros slot Hin E. by destruct (done_ids n done s m slot Hi Hin).
  - intros Hall. apply Forall_app in Hall as [_ Hall]. inversion_clear Hall as [|? ? H1 H2]. by destruct H1.
  - intros slot [= <-] _. split; [by exists c|]. cbn [processors with_processor]. rewrite lookup_insert_eq. by destruct Hp as [-> | ->].
Qed.

Lemma inv_range n done s m : inv n done (Some s) m -> 0 <= id s < 256.
Proof. intros Hi. destruct (i_current _ _ _ _ Hi s eq_refl) as ([Hs Ha] & _). destruct (ap_slot t s Hwf Hbytes Hs Ha) as (_ & _ & ?). lia. Qed.

Lemma init_received n done s m :
  inv n done (Some s) m -> before s m ->
  inv n done (Some s) (receive (apic_write_icr (shl32 (id s) 24) INIT_WORD (lapic m)) m) /\
  before s (receive (apic_write_icr (shl32 (id s) 24) INIT_WORD (lapic m)) m).
Proof.
  intros Hi Hb. destruct (receive_command (id s) INIT_WORD (lapic m) m) as [-> | ->]; [by eapply inv_range|by left|apply (i_keys _ _ _ _ Hi)|done|].
  unfold deliver. destruct (processors m !! (id s)) as [p|] eqn:Ep; [|done].
  change (Z.land (Z.shiftr INIT_WORD 8) 7 =? 5) with true. cbn match. split; [apply inv_start; [done|done|by rewrite Ep|by left]|].
  right. cbn. by rewrite lookup_insert_eq.
Qed.

Lemma sipi_received n done s m :
  inv n done (Some s) m -> inv n done (Some s) (receive (apic_write_icr (shl32 (id s) 24) SIPI_WORD (lapic m)) m).
Proof.
  intros Hi. destruct (receive_command (id s) SIPI_WORD (lapic m) m) as [-> | ->]; [by eapply inv_range|by right|apply (i_keys _ _ _ _ Hi)|done|].
  unfold deliver. destruct (processors m !! (id s)) as [p|] eqn:Ep; [|done].
  change (Z.land (Z.shiftr SIPI_WORD 8) 7 =? 5) with false. change (Z.land (Z.shiftr SIPI_WORD 8) 7 =? 6) with true.
  change (Z.land SIPI_WORD 0xFF =? AP_TRAMPOLINE_STARTUP_VECTOR) with true. cbn match. destruct p; try done.
  apply inv_start; [done|by right|by rewrite Ep|by right].
Qed.

(** ** Assertions that the bookkeeping of the boot processor keeps *)

Definition alike (m m' : machine) : Prop :=
  processors m' = processors m /\ boots m' = boots m /\ lapic m' = lapic m /\ topo m' = topo m /\ mail m' = mail m /\ marker m' = marker m.

Record stable (P : machine -> Prop) : Prop := {
  s_step x m : P m -> P (step x m);
  s_alike m m' : alike m m' -> P m -> P m' }.

Lemma inv_stable n done current : stable (inv n done current).
Proof.
  split; [intros; by apply inv_step|]. intros m m' (E1 & E2 & E3 & E4 & E5 & E6) Hi. apply (inv_same n done current m); try done.
  rewrite E5. apply (i_loop _ _ _ _ Hi).
Qed.

Lemma before_stable s : stable (before s).
Proof. split; [intros; by apply before_step|]. intros m m' (E1 & _). unfold before. by rewrite E1. Qed.

Lemma both_stable P Q : stable P -> stable Q -> stable (fun m => P m /\ Q m).
Proof. intros [] []. split; naive_solver. Qed.

Lemma calm_stable n done P : stable (calm n done P).
Proof.
  split; [intros; by apply calm_step|]. intros m m' Ha (Hi & Hk & Hp). split; [by eapply (s_alike _ (inv_stable n done None))|].
  destruct Ha as (_ & _ & _ & _ & -> & ->). done.
Qed.

Lemma keep_act {A} P (f : machine -> A * machine) : stable P -> (forall m, alike m (f m).2) -> triple P (act f) (fun _ => P).
Proof. intros [] Hf. apply triple_act; [done|]. intros m Hp. by eapply s_alike0. Qed.

Lemma keep_store P f : stable P -> (forall m, alike m (f m)) -> triple P (store f) (fun _ => P).
Proof. intros Hs Hf. by apply keep_act. Qed.

Lemma keep_wait P : stable P -> triple P (advanced_pic_ipi_wait_delivery page_directory ia la local icr) (fun _ => P).
Proof.
  intros Hs. unfold advanced_pic_ipi_wait_delivery. eapply triple_seq; [by apply keep_act|]. intros active.
  destruct active; [by apply triple_ret|]. generalize DELIVERY_SPIN_LIMIT. intros k. induction k as [|k IH]; [by apply triple_ret|].
  cbn [delivery_loop]. eapply triple_seq; [by apply keep_act|]. intros w. case_match; [by apply triple_ret|done].
Qed.

Lemma keep_spin P k word magic :
  stable P -> triple P (spin page_directory ia la local k word magic) (fun r m => P m /\ (r = 0 \/ r = 1)).
Proof.
  intros Hs. induction k as [|k IH]; [apply triple_ret; tauto|]. cbn [spin]. eapply triple_seq; [by apply keep_act|]. intros w.
  case_match; [apply triple_ret; tauto|done].
Qed.

(** A wait that succeeds has read the magic number. *)
Lemma spin_mail P R k word magic :
  stable P -> (forall m, P m -> word m = magic -> R m) ->
  triple P (spin page_directory ia la local k word magic) (fun r m => (r = 0 /\ P m) \/ (r = 1 /\ R m)).
Proof.
  intros Hs HR. induction k as [|k IH]; [apply triple_ret; tauto|]. cbn [spin].
  apply (triple_bind P (fun w m => P m /\ (w = magic -> R m))).
  - apply triple_act; [apply (s_step _ Hs)|]. intros m Hp. cbn. split; [done|]. by apply HR.
  - intros w. destruct (Z.eqb_spec w magic) as [->|].
    + apply triple_ret. intros m [_ HR']. right. split; [done|]. by apply HR'.
    + eapply triple_mono; [exact IH|by intros m []|done].
Qed.

(** ** The start of one processor *)

Lemma send_init_keeps n done s :
  let P := fun m => inv n done (Some s) m /\ before s m in
  triple P (advanced_pic_ipi_send_init page_directory ia la local icr (id s)) (fun _ => P).
Proof.
  intros P. assert (Hs : stable P) by (apply both_stable; [apply inv_stable|apply before_stable]).
  unfold advanced_pic_ipi_send_init. eapply triple_seq; [by apply keep_store|]. intros _.
  eapply triple_seq; [by apply keep_wait|]. intros ok. case_match; [by apply triple_ret|].
  eapply triple_seq; [|intros _; by apply keep_wait]. apply triple_store; [apply (s_step _ Hs)|]. intros m [Hi Hb].
  by apply init_received.
Qed.

Lemma send_sipi_keeps n done s :
  triple (inv n done (Some s)) (advanced_pic_ipi_send_sipi page_directory ia la local icr (id s) AP_TRAMPOLINE_STARTUP_VECTOR)
    (fun _ => inv n done (Some s)).
Proof.
  pose proof (inv_stable n done (Some s)) as Hs.
  unfold advanced_pic_ipi_send_sipi. eapply triple_seq; [by apply keep_store|]. intros _.
  eapply triple_seq; [by apply keep_wait|]. intros ok. case_match; [by apply triple_ret|].
  eapply triple_seq; [|intros _; by apply keep_wait]. apply triple_store; [apply (s_step _ Hs)|]. intros m Hi.
  by apply sipi_received.
Qed.

Lemma send_startup_keeps n done s :
  triple (fun m => inv n done (Some s) m /\ before s m)
    (advanced_pic_ipi_send_startup_sequence page_directory ia la local icr (id s) AP_TRAMPOLINE_STARTUP_VECTOR)
    (fun r m => inv n done (Some s) m /\ (r = 0 \/ r = 1)).
Proof.
  pose proof (inv_stable n done (Some s)) as Hs.
  assert (Hb : stable (fun m => inv n done (Some s) m /\ before s m)) by (apply both_stable; [apply inv_stable|apply before_stable]).
  unfold advanced_pic_ipi_send_startup_sequence. eapply triple_seq; [by apply keep_store|]. intros _.
  eapply triple_seq; [apply send_init_keeps|]. intros ok. case_match; [apply triple_ret; tauto|].
  eapply triple_seq; [by apply keep_store|]. intros _.
  apply (triple_mono (inv n done (Some s)) _ (fun r m => inv n done (Some s) m /\ (r = 0 \/ r = 1)) _); [|by intros m []|done].
  eapply triple_seq; [apply send_sipi_keeps|]. intros ok2. case_match; [apply triple_ret; tauto|].
  eapply triple_seq; [by apply keep_store|]. intros _.
  eapply triple_seq; [apply send_sipi_keeps|]. intros ok3. case_match; [apply triple_ret; tauto|].
  eapply triple_seq; [by apply keep_store|]. intros _. apply triple_ret. tauto.
Qed.

Lemma wait_ack_keeps P k :
  stable P -> triple P (application_processor_trampoline_wait_for_acknowledgement page_directory ia la local k)
    (fun r m => P m /\ (r = 0 \/ r = 1)).
Proof.
  intros Hs. unfold application_processor_trampoline_wait_for_acknowledgement. eapply triple_seq; [by apply keep_store|]. intros _.
  eapply triple_seq; [eapply triple_mono; [by apply keep_spin|done|by intros ? ? []]|]. intros seen.
  case_match; (eapply triple_seq; [by apply keep_store|]); intros _; apply triple_ret; tauto.
Qed.

(** The processor of [s] has arrived. *)
Lemma arrival n done s m :
  inv n done (Some s) m -> marker m = AP_TRAMPOLINE_C_ENTRY_MAGIC -> inv n (s :: done) None m.
Proof.
  intros Hi Hk. pose proof Hi as []. destruct (i_current0 s eq_refl) as (Ha & Hn & [(c & Em) Hp]). rewrite Hk in Hp.
  destruct (processors m !! (id s)) as [p|] eqn:Ep; [|done]. destruct p as [|p r|]; [done| |done].
  assert (Hset : (p = Signalled \/ p = Looping) /\ owns s r /\ arrived s m) by (destruct p; naive_solver).
  destruct Hset as (Hq & Ho & Harr). split; try done.
  - intros slot [->|Hin]%elem_of_cons; [|by apply i_done0]. split; [done|]. by exists p, r.
  - intros x q Hx Hall. apply (i_others0 x q); [done|]. cbn [option_list] in *. rewrite app_nil_r in Hall.
    inversion_clear Hall as [|? ? H1 H2]. apply Forall_app. split; [done|]. by constructor.
  - intros _. by rewrite Em.
  - intros slot Hsl. destruct (i_table0 slot Hsl) as (flag & Hf & H1 & H0). destruct (decide (slot = s)) as [->|].
    + exists 1. split; [apply Harr|]. split; [done|]. intros Hns. exfalso. apply Hns. left.
    + exists flag. split; [done|]. split.
      * intros [->|Hin]%elem_of_cons; [done|by apply H1].
      * intros Hns _. apply H0; [|congruence]. intros Hin. apply Hns. by right.
Qed.

Lemma wait_c_entry_arrives n done s k :
  triple (inv n done (Some s)) (application_processor_trampoline_wait_for_c_entry page_directory ia la local k)
    (fun r m => r = 0 \/ (r = 1 /\ inv n (s :: done) None m)).
Proof.
  pose proof (inv_stable n done (Some s)) as Hs. unfold application_processor_trampoline_wait_for_c_entry.
  eapply triple_seq; [by apply keep_store|]. intros _.
  apply (triple_bind _ (fun r m => (r = 0 /\ inv n done (Some s) m) \/ (r = 1 /\ inv n (s :: done) None m))).
  - apply spin_mail; [done|]. intros m. apply arrival.
  - intros seen. destruct (Z.eqb_spec seen 0) as [->|].
    + apply (triple_seq _ (fun _ => True)); [apply triple_any|]. intros _. apply triple_ret. by left.
    + apply (triple_mono (inv n (s :: done) None) _ (fun r m => r = 1 /\ inv n (s :: done) None m) _); [|naive_solver|tauto].
      eapply triple_seq; [apply keep_store; [apply inv_stable|done]|]. intros _. by apply triple_ret.
Qed.

(** ** What the summary counts *)

Definition faulty (k : Z) (c : tally) : Prop :=
  0 <= sequence_failures c /\ 0 <= acknowledgement_timeouts c /\ 0 <= c_entry_timeouts c /\
  0 < sequence_failures c + acknowledgement_timeouts c + c_entry_timeouts c <= k.

Lemma faulty_count k c x y z s w e :
  faulty k c -> 0 <= s /\ 0 <= w /\ 0 <= e -> k + s + w + e < 2 ^ 32 -> faulty (k + s + w + e) (count x y z s w e c).
Proof. intros (H1 & H2 & H3 & H4) Hs Hk. unfold faulty. cbn. rewrite !add32_small by lia. lia. Qed.

Lemma faulty_mono k k' c : faulty k c -> k <= k' -> faulty k' c.
Proof. unfold faulty. lia. Qed.

(** A failure stays in the summary. *)
Lemma attempts_faulty n k attempt e o c :
  faulty k c -> k + Z.of_nat n < 2 ^ 32 ->
  triple (fun _ => True) (attempts page_directory ia la local icr n attempt e o c) (fun r _ => faulty (k + Z.of_nat n) r.2).
Proof.
  revert k attempt o c. induction n as [|n IH]; intros k attempt o c Hc Hk.
  - apply triple_ret. intros _ _. cbn. by rewrite Z.add_0_r.
  - assert (Hone : forall o' s w e', 0 <= s /\ 0 <= w /\ 0 <= e' -> s + w + e' = 1 ->
      triple (fun _ => True) (attempts page_directory ia la local icr n (attempt + 1) e o' (count 0 0 0 s w e' c))
        (fun r _ => faulty (k + Z.of_nat (S n)) r.2)).
    { intros o' s w e' Hp H1. replace (k + Z.of_nat (S n)) with (k + s + w + e' + Z.of_nat n) by lia. apply IH; [|lia].
      apply faulty_count; [done|done|lia]. }
    cbn [attempts].
    repeat first [ apply Hone; lia
                 | apply triple_ret; intros _ _; apply (faulty_mono k); [done|lia]
                 | case_match
                 | eapply (triple_seq _ (fun _ => True)); [apply triple_any|intros ?; cbv zeta] ].
Qed.

Lemma conclude_faulty k o c : faulty k c -> k < 2 ^ 32 -> faulty k (conclude o c).
Proof.
  intros Hc Hk. unfold conclude.
  assert (H : forall c x y z, faulty k c -> faulty k (count x y z 0 0 0 c)).
  { intros c' x y z Hc'. replace k with (k + 0 + 0 + 0) by lia. apply faulty_count; [done|lia|lia]. }
  repeat case_match; repeat apply H; done.
Qed.

Lemma start_faulty fuel k c :
  faulty k c -> k + 3 * Z.of_nat fuel < 2 ^ 32 ->
  triple (fun _ => True) (start_loop page_directory ia la local icr fuel c) (fun c _ => faulty (k + 3 * Z.of_nat fuel) c).
Proof.
  revert k c. induction fuel as [|fuel IH]; intros k c Hc Hk.
  - apply triple_ret. intros _ _. by rewrite Z.mul_0_r, Z.add_0_r.
  - cbn [start_loop]. eapply (triple_seq _ (fun _ => True)); [apply triple_any|]. intros [e|].
    + apply (triple_bind _ (fun r _ => faulty (k + 3) r.2)).
      * apply (attempts_faulty 3); [|lia]. replace k with (k + 0 + 0 + 0) by lia. apply faulty_count; [done|lia|lia].
      * intros [o c']. cbn [snd]. intros sch m Hc'. replace (k + 3 * Z.of_nat (S fuel)) with (k + 3 + 3 * Z.of_nat fuel) by lia.
        apply IH; [|lia|done]. apply conclude_faulty; [done|lia].
    + apply triple_ret. intros _ _. apply (faulty_mono k); [done|lia].
Qed.

(** ** A start without failures *)

Lemma top_range s : ap s -> 8192 <= top s < 2 ^ 32.
Proof.
  intros [Hs Ha]. destruct Hstacks as [H1 H2]. pose proof (rank_mono t s s ltac:(lia)). pose proof (rank_mono t (s + 1) 32 ltac:(lia)).
  rewrite rank_succ, Ha in H0 by lia. lia.
Qed.

Lemma stack_top_of n done s m :
  inv n done None m -> ap s -> application_processor_bootstrap_get_ap_stack_top s (boots m) = top s.
Proof.
  intros Hi Hs. destruct (i_table _ _ _ _ Hi s (proj1 Hs)) as (flag & Hf & _). pose proof (top_range s Hs). destruct Hs as [Hs Ha].
  unfold application_processor_bootstrap_get_ap_stack_top, application_processor_bootstrap_get_entry_by_slot.
  rewrite (proj2 (Z.leb_gt 32 s)), Hf by lia. unfold marked. rewrite Ha. cbn [orb initialized stack_base stack_size Z.eqb].
  apply add32_small. pose proof (rank_mono t s s ltac:(lia)). destruct Hstacks. lia.
Qed.

(** The first attempt succeeds, or the summary shows that it did not. *)
Lemma attempts_clean n done s o k :
  ap s -> s ∉ done ->
  triple (inv n done None)
    (attempts page_directory ia la local icr KERNEL_AP_STARTUP_MAX_ATTEMPTS 0 (marked s 0) o (mkTally (k + 1) k 0 0 0 0))
    (fun r m => faulty 3 r.2 \/ (r = (mkOutcome 1 1 1 1, mkTally (k + 1) k 0 0 0 0) /\ inv n (s :: done) None m)).
Proof.
  intros Hs Hn.
  assert (Hretry : forall P at_ o' f w e, (f, w, e) = (1, 0, 0) \/ (f, w, e) = (0, 1, 0) \/ (f, w, e) = (0, 0, 1) ->
    triple P (attempts page_directory ia la local icr 2 at_ (marked s 0) o' (count 0 0 0 f w e (mkTally (k + 1) k 0 0 0 0)))
      (fun r m => faulty 3 r.2 \/ (r = (mkOutcome 1 1 1 1, mkTally (k + 1) k 0 0 0 0) /\ inv n (s :: done) None m))).
  { intros P at_ o' f w e He. eapply triple_mono; [apply (attempts_faulty 2 1)|done|by left]; [|done].
    destruct He as [[= -> -> ->]|[[= -> -> ->]|[= -> -> ->]]]; unfold faulty; cbn; done. }
  unfold KERNEL_AP_STARTUP_MAX_ATTEMPTS. generalize dependent 2%nat. intros two Hretry. cbn [attempts].
  assert (Els : logical_slot (marked s 0) = s /\ apic_id (marked s 0) = id s) by (unfold marked; rewrite (proj2 Hs); done).
  destruct Els as [Els Eid]. rewrite Els, Eid.
  apply (triple_bind _ (fun x m => inv n done None m /\ x = top s)).
  { apply triple_act; [intros x m; apply inv_step|]. intros m Hi. split; [done|]. by apply (stack_top_of n done). }
  intros x. apply triple_pure. intros ->. rewrite (proj2 (Z.eqb_neq (top s) 0)) by (pose proof (top_range s Hs); lia).
  eapply triple_seq; [apply reset_calm|]. intros _.
  eapply triple_seq; [apply keep_act; [apply calm_stable|]|]; [intros m; by destruct (application_processor_startup_get_kernel_cr3 _ _)|].
  intros c. eapply triple_seq; [apply configure_calm|]. intros _. cbv zeta.
  apply (triple_bind _ (fun r m => inv n done (Some s) m /\ (r = 0 \/ r = 1))).
  { eapply (triple_mono _ _ _ _ _ (send_startup_keeps n done s)); [|tauto]. intros m Hm. by eapply begin_start. }
  intros r. apply triple_pure. intros [-> | ->]; cbn [Z.eqb]; [apply Hretry; tauto|].
  eapply triple_bind; [apply wait_ack_keeps, inv_stable|]. intros w. apply triple_pure. intros [-> | ->]; cbn [Z.eqb]; [apply Hretry; tauto|].
  eapply triple_bind; [apply wait_c_entry_arrives|]. intros e. cbv beta. destruct (Z.eqb_spec e 0) as [->|]; [apply Hretry; tauto|].
  apply triple_ret. intros m [?|[-> Hm]]; [done|]. right. done.
Qed.

(** ** The loop over the processors *)

Definition at_index (j : Z) (b : table) : table := mkTable (entries b) (ap_count b) j (ready b).

Lemma next_loop_finds fuel b n :
  0 <= n <= 32 -> (32 - n < Z.of_nat fuel) -> next_entry_index b = n -> (forall j, n <= j < 32 -> get_entry j b = marked j 0) ->
  (next_loop fuel b = (None, at_index 32 b) /\ forall j, n <= j < 32 -> is_ap t j = false) \/
  (exists j, n <= j < 32 /\ is_ap t j = true /\ (forall i, n <= i < j -> is_ap t i = false) /\
             next_loop fuel b = (Some (marked j 0), at_index (j + 1) b)).
Proof.
  revert b n. induction fuel as [|fuel IH]; intros b n Hn Hf En Hg; [lia|]. cbn [next_loop]. rewrite En.
  destruct (Z.ltb_spec n 32) as [Hlt|].
  2:{ left. split; [|intros; lia]. replace 32 with n by lia. destruct b; cbn in *; by subst. }
  rewrite add32_small by lia. fold (at_index (n + 1) b). change (get_entry n (at_index (n + 1) b)) with (get_entry n b).
  rewrite Hg by lia. destruct (is_ap t n) eqn:Ea.
  - right. exists n. split; [lia|]. split; [done|]. split; [intros; lia|]. unfold marked. by rewrite Ea.
  - replace (marked n 0) with no_entry by (unfold marked; by rewrite Ea). cbn [initialized no_entry Z.eqb negb andb].
    destruct (IH (at_index (n + 1) b) (n + 1)) as [[-> Hall]|(j & Hj & Hja & Hall & ->)]; [lia|lia|done| | |].
    + intros j Hj. change (get_entry j (at_index (n + 1) b)) with (get_entry j b). apply Hg. lia.
    + left. split; [done|]. intros j Hj. destruct (decide (j = n)) as [->|]; [done|]. apply Hall. lia.
    + right. exists j. split; [lia|]. split; [done|]. split; [|done]. intros i Hi. destruct (decide (i = n)) as [->|]; [done|]. apply Hall. lia.
Qed.

Lemma rank_flat i j : 0 <= i <= j -> (forall k, i <= k < j -> is_ap t k = false) -> rank t j = rank t i.
Proof.
  intros Hij. replace j with (i + Z.of_nat (Z.to_nat (j - i))) by lia. generalize (Z.to_nat (j - i)). intros k.
  induction k as [|k IH]; intros Hall; [by rewrite Z.add_0_r|].
  replace (i + Z.of_nat (S k)) with (i + Z.of_nat k + 1) by lia. rewrite rank_succ, Hall, IH by (try lia; intros; apply Hall; lia). lia.
Qed.

(** The processors below the cursor have been started, and those only. *)
Definition reached (n : Z) (done : list Z) (m : machine) : Prop :=
  inv n done None m /\ 0 <= n <= 32 /\ (forall slot, slot ∈ done -> slot < n) /\ (forall slot, 0 <= slot < n -> is_ap t slot = true -> slot ∈ done).

Lemma inv_index n n' done m b :
  inv n done None m -> b = at_index n' (boots m) -> inv n' done None (with_boots b m).
Proof.
  intros [] ->. by split.
Qed.

Definition follows (n : Z) (done : list Z) (next : option entry) (m : machine) : Prop :=
  (next = None /\ reached 32 done m /\ rank t 32 = rank t n) \/
  (exists j, next = Some (marked j 0) /\ ap j /\ (j ∉ done) /\ rank t (j + 1) = rank t n + 1 /\
     inv (j + 1) done None m /\ (forall m', inv (j + 1) (j :: done) None m' -> reached (j + 1) (j :: done) m') /\ n <= j).

Lemma next_follows n done :
  triple (reached n done)
    (act (fun m => let '(e, b) := application_processor_bootstrap_next_unbooted_ap (boots m) in (e, with_boots b m)))
    (follows n done).
Proof.
  apply triple_act; [intros x m (Hi & Hr); split; [by apply inv_step|done]|]. intros m (Hi & Hn & Hlt & Hall).
  unfold application_processor_bootstrap_next_unbooted_ap.
  destruct (next_loop_finds 33 (boots m) n) as [[-> Hno]|(j & Hj & Ha & Hno & ->)]; [done|lia|apply (i_next _ _ _ _ Hi)| | |].
  - intros j Hj. destruct (i_table _ _ _ _ Hi j) as (flag & -> & _ & H0); [lia|]. f_equal. apply H0; [|done].
    intros Hin. apply Hlt in Hin. lia.
  - left. split; [done|]. cbn [snd]. split; [|by apply rank_flat]. split; [by eapply inv_index|]. split; [lia|].
    split; [intros slot Hin; apply Hlt in Hin; lia|]. intros slot Hs Hap. destruct (decide (slot < n)); [by apply Hall; [lia|]|].
    by rewrite Hno in Hap by lia.
  - right. exists j. split; [done|]. split; [split; [lia|done]|]. split; [intros Hin; apply Hlt in Hin; lia|].
    split; [rewrite rank_succ, Ha, (rank_flat n j) by (done || lia); done|]. split; [by eapply inv_index|].
    split; [|lia]. intros m' Hi'. split; [done|]. split; [lia|]. split.
    + intros slot [->|Hin]%elem_of_cons; [lia|]. apply Hlt in Hin. lia.
    + intros slot Hs Hap. destruct (decide (slot = j)) as [->|]; [left|]. right. destruct (decide (slot < n)); [by apply Hall; [lia|]|].
      by rewrite Hno in Hap by lia.
Qed.

Lemma triple_follows {A} n done next (c : code A) Q :
  (next = None -> rank t 32 = rank t n -> triple (reached 32 done) c Q) ->
  (forall j, next = Some (marked j 0) -> ap j -> j ∉ done -> rank t (j + 1) = rank t n + 1 ->
     (forall m', inv (j + 1) (j :: done) None m' -> reached (j + 1) (j :: done) m') -> n <= j -> triple (inv (j + 1) done None) c Q) ->
  triple (follows n done next) c Q.
Proof.
  intros H1 H2 sch m [(? & ? & ?)|(j & ? & ? & ? & ? & ? & ? & ?)]; [by apply H1|]. by eapply (H2 j).
Qed.

(** A run of the loop counts a failure or starts every processor. *)
Lemma start_loop_clean fuel n done :
  0 <= n <= 32 -> (32 - n < Z.of_nat fuel <= 33) ->
  triple (reached n done) (start_loop page_directory ia la local icr fuel (mkTally (rank t n) (rank t n) 0 0 0 0))
    (fun c m => faulty (3 + 3 * Z.of_nat fuel) c \/
                (c = mkTally (rank t 32) (rank t 32) 0 0 0 0 /\ exists done, reached 32 done m)).
Proof.
  revert n done. induction fuel as [|fuel IH]; intros n done Hn Hf; [lia|].
  cbn [start_loop]. eapply triple_bind; [apply next_follows|]. intros next. apply triple_follows.
  { intros -> E. apply triple_ret. intros m Hr. right. rewrite E. split; [done|]. by exists done. }
  intros j -> Ha Hnd Er Hnext Hnj. pose proof (rank_mono t 0 n ltac:(lia)). pose proof (rank_mono t (j + 1) 32 ltac:(lia)).
  replace (count 1 0 0 0 0 0 _) with (mkTally (rank t n + 1) (rank t n) 0 0 0 0)
    by (unfold count; cbn; rewrite !add32_small by lia; f_equal; lia).
  eapply triple_bind; [by apply attempts_clean|]. intros [o c]. apply triple_cases.
  - intros Hbad. eapply triple_mono; [apply (start_faulty fuel 3); [by apply conclude_faulty|lia]|done|].
    intros c' m Hc'. left. apply (faulty_mono (3 + 3 * Z.of_nat fuel)); [done|lia].
  - intros [= -> ->]. replace (conclude _ _) with (mkTally (rank t (j + 1)) (rank t (j + 1)) 0 0 0 0)
      by (unfold conclude; cbn; unfold count; cbn; rewrite Er, !add32_small by lia; f_equal; lia).
    eapply triple_mono; [apply (IH (j + 1) (j :: done)); lia|done|].
    intros c' m' [Hbad|Hok]; [left; by apply (faulty_mono (3 + 3 * Z.of_nat fuel)); [|lia]|by right].
Qed.

(** ** The whole start *)

(** The machine before the start. *)
Record asleep (m : machine) : Prop := {
  z_waiting x p : processors m !! x = Some p -> p = Waiting /\ 0 <= x < 256;
  z_topo : topo m = t;
  z_lapic : lapic m = a;
  z_boots : boots m = empty_table }.

Lemma asleep_step x m : asleep m -> asleep (step x m).
Proof.
  intros Hz. unfold Startup.step. destruct (processors m !! x) as [p|] eqn:E; [|done].
  by destruct (z_waiting m Hz x p E) as [-> _].
Qed.

Lemma laid_inv m b : asleep m -> laid stacks t b -> inv (next_entry_index b) [] None (with_boots b m).
Proof.
  intros [] []. split; cbn [processors mail lapic boots topo with_boots]; try done.
  - intros slot Hin. by apply not_elem_of_nil in Hin.
  - intros x p Hp _. by destruct (z_waiting0 x p Hp).
  - intros x p Hp. by destruct (z_waiting0 x p Hp).
  - intros slot Hs. exists 0. split; [by apply la_entry0|]. split; [|done]. intros Hin. by apply not_elem_of_nil in Hin.
  - by rewrite z_topo0.
  - by rewrite z_topo0.
  - by rewrite z_topo0.
Qed.

Lemma install_keeps n :
  triple (inv n [] None) (application_processor_trampoline_install page_directory ia la local blob) (fun _ => inv n [] None).
Proof.
  pose proof (inv_stable n [] None) as Hs. unfold application_processor_trampoline_install.
  eapply triple_seq; [by apply keep_store|]. intros _. eapply triple_seq; [by apply keep_store|]. intros _.
  eapply triple_seq; [apply reset_calm|]. intros _.
  apply (triple_mono (inv n [] None) _ (fun _ => inv n [] None) _); [|by intros m []|done].
  eapply triple_seq; [|intros _; by apply triple_ret].
  apply triple_store; [apply (s_step _ Hs)|]. intros m Hi. apply (inv_same n [] None m); try done.
Qed.

Lemma initialize_inv :
  triple asleep
    (act (fun m => let '(r, b) := application_processor_bootstrap_initialize stacks (topo m) (boots m) in (r, with_boots b m)))
    (fun r m => r <> 0 -> exists n, inv n [] None m).
Proof.
  apply triple_act; [intros x m; apply asleep_step|]. intros m Hz. rewrite (z_topo m Hz), (z_boots m Hz).
  destruct (application_processor_bootstrap_initialize stacks t empty_table) as [r b] eqn:E. cbn [fst snd]. intros Hr.
  exists (next_entry_index b). apply laid_inv; [done|]. apply bootstrap_laid; [lia|lia|]. rewrite E. f_equal.
  destruct (initialize_result stacks t (seqZ 0 (Z.of_nat 32)) (rank t 0) empty_table) as [Er|Er];
    rewrite <- initialize_unfold, E in Er; cbn in Er; congruence.
Qed.

Definition reported (r : option tally) (m : machine) : Prop :=
  match r with
  | None => True
  | Some c => faulty 102 c \/ (c = mkTally (rank t 32) (rank t 32) 0 0 0 0 /\ exists done, reached 32 done m)
  end.

Lemma triple_none P : triple P (mret None : Bsp.code (option tally)) reported.
Proof. by apply triple_ret. Qed.

Lemma try_start_reports :
  triple asleep
    (kernel_symmetric_multiprocessing_try_start_discovered_aps page_directory page_tables ia la local icr stacks blob) reported.
Proof.
  unfold kernel_symmetric_multiprocessing_try_start_discovered_aps. eapply triple_bind; [apply initialize_inv|]. intros r. cbv beta.
  destruct (Z.eqb_spec r 0) as [->|Hr]; [apply triple_none|].
  eapply triple_mono; [apply (triple_exists (fun n m => inv n [] None m))|naive_solver|done]. intros n.
  pose proof (inv_stable n [] None) as Hs.
  eapply triple_seq; [by apply keep_act|]. intros ready. destruct ready; [|apply triple_none]. cbn [negb].
  eapply triple_seq; [apply keep_act; [done|]|].
  { intros m. unfold application_processor_startup_ensure_low_identity_mapping. cbn [snd]. by destruct (_ =? 0). }
  intros mapped. case_match; [apply triple_none|].
  eapply triple_seq; [apply install_keeps|]. intros installed. case_match; [apply triple_none|].
  apply (triple_seq _ (reached 0 [])).
  { apply triple_store; [apply (s_step _ Hs)|]. intros m Hi. split; [by eapply inv_index|]. split; [lia|].
    split; [intros slot Hin; by apply not_elem_of_nil in Hin|intros; lia]. }
  intros _. eapply triple_bind; [apply (start_loop_clean 33 0 []); lia|]. intros c. by apply triple_ret.
Qed.

End runs.

(** C11: Whatever the order in which the processors run and whatever the
    interrupt controller answers, a start whose summary shows no failed
    sequence and no timeout has started every discovered processor: each runs
    the kernel's loop, or is about to, on the stack of its own slot with its
    own identifier, is marked booted and online, and no two stacks overlap; a
    processor that was not discovered still waits. *)
Theorem smp_startup_exact page_directory page_tables initialize_cpu main_loop local icr stacks blob t a sch m c sch' m' :
  wf t -> byte_ids t -> 0 <= stacks /\ stacks + 31 * 8192 < 2 ^ 32 -> rank t 32 <= 31 ->
  (forall id, let '(ecx, apic_base, svr) := local id in
     (apic_initialize_on_cpu (g_apic_mmio_base a) ecx apic_base svr).1 = a) ->
  asleep t a m ->
  kernel_symmetric_multiprocessing_try_start_discovered_aps page_directory page_tables initialize_cpu main_loop local icr stacks blob sch m
    = (Some c, sch', m') ->
  sequence_failures c = 0 -> acknowledgement_timeouts c = 0 -> c_entry_timeouts c = 0 ->
  attempted c = rank t 32 /\ delivered c = rank t 32 /\ retries_consumed c = 0 /\
  (forall slot, 0 <= slot < 32 -> is_ap t slot = true ->
     let id := cpu_topology_get_apic_id_at_slot slot t in
     application_processor_bootstrap_is_booted slot (boots m') = 1 /\
     cpu_topology_is_logical_slot_online slot (topo m') = true /\
     exists p r, processors m' !! id = Some (At p r) /\ (p = Signalled \/ p = Looping) /\
       esp r = stacks + 8192 * rank t slot + 8192 /\ ebx r = id /\ ecx r = slot /\
       forall other, 0 <= other < slot -> is_ap t other = true ->
         stacks + 8192 * rank t other + 8192 <= esp r - 8192) /\
  (forall x p, processors m' !! x = Some p ->
     (forall slot, 0 <= slot < 32 -> is_ap t slot = true -> x <> cpu_topology_get_apic_id_at_slot slot t) -> p = Waiting).
Proof.
  intros Hw Hb Hs Hr Hl Hz Hrun F1 F2 F3.
  pose proof (try_start_reports page_directory page_tables initialize_cpu main_loop local icr stacks blob t a Hw Hb Hs Hr Hl sch m Hz) as H.
  rewrite Hrun in H. destruct H as [(_ & _ & _ & Hf)|[-> [done (Hi & _ & _ & Hall)]]]; [lia|].
  destruct Hi as [Hid Hio _ _ _ _ _ _ _ _ _ _ _]. split; [done|]. split; [done|]. split; [done|].
  split.
  - intros slot Hsl Ha. destruct (Hid slot (Hall slot Hsl Ha)) as [_ (p & r & Hp & Hq & (Ho1 & Ho2 & Ho3) & He & Hon)].
    split; [|split; [done|]].
    + unfold application_processor_bootstrap_is_booted, application_processor_bootstrap_get_entry_by_slot.
      rewrite (proj2 (Z.leb_gt 32 slot)), He by lia. unfold marked. by rewrite Ha.
    + exists p, r. split_and!; [done|done|done|done|done|]. intros other Hoth Hoa.
      pose proof (stacks_disjoint stacks t other slot Hoth Hoa Ha) as Hd. unfold entry_of in Hd. rewrite Ha, Hoa in Hd. cbn in Hd. lia.
  - intros x p Hp Hne. apply (Hio x p Hp). rewrite app_nil_r. apply Forall_forall. intros slot Hin.
    destruct (Hid slot Hin) as [[Hsl Ha] _]. by apply Hne.
Qed.

Definition three_topology : topology :=
  run [RegisterDiscovered 1; RegisterDiscovered 4] (cpu_topology_initialize 0 0x200 (Topology.mk false 0 false 0 [] 0 [] 0 [])).

Definition three_machine : machine :=
  mkMachine (mkMail 0 0 0 0 0 0) 0 0 {[1 := Waiting; 4 := Waiting]} three_topology empty_table
    (mkStartup 0 (0, 0, 0) 0 0 ∅) (Apic.mk 0xFEE00000 false) (mkIpi 0xFEE00000 0 0 0 0) (mkTrampoline 0 0 0 0 0 0 0 0) [] 0 0 [].

Definition three_run : option tally * list (list Z) * machine :=
  kernel_symmetric_multiprocessing_try_start_discovered_aps 0xC0110000 0xC0111000 0xC0100000 0xC0101000 (fun _ => (0, 0xFEE00000, 0))
    (fun _ => 0) 0xC0200000 [0xFA] (replicate 200 [4; 1]) three_machine.

Lemma three_asleep : asleep three_topology (Apic.mk 0xFEE00000 false) three_machine.
Proof.
  split; [|done|done|done]. cbn [processors three_machine].
  intros x p [[<- <-]|[_ [<- <-]%lookup_singleton_Some]]%lookup_insert_Some; (split; [done|lia]).
Qed.

Lemma smp_startup_exact_witness :
  let m' := three_run.2 in
  (forall slot, 0 <= slot < 32 -> is_ap three_topology slot = true ->
     application_processor_bootstrap_is_booted slot (boots m') = 1) /\
  is_ap three_topology 1 = true /\ is_ap three_topology 2 = true.
Proof.
  split; [|split; vm_compute; reflexivity].
  assert (Hc : three_run.1.1 = Some (mkTally 2 2 0 0 0 0)) by (vm_compute; reflexivity).
  destruct three_run as [[o sch'] m'] eqn:E. cbn [fst snd] in *. subst o.
  destruct (smp_startup_exact 0xC0110000 0xC0111000 0xC0100000 0xC0101000 (fun _ => (0, 0xFEE00000, 0)) (fun _ => 0%Z) 0xC0200000 [0xFA]
    three_topology (Apic.mk 0xFEE00000 false) (replicate 200 [4; 1]) three_machine (mkTally 2 2 0 0 0 0) sch' m') as (_ & _ & _ & H & _).
  - apply (run_ok [RegisterDiscovered 1; RegisterDiscovered 4]), initialize_wf.
  - apply (bool_decide_unpack _). vm_compute. exact I.
  - lia.
  - apply Z.leb_le. vm_compute. reflexivity.
  - intros _. reflexivity.
  - exact three_asleep.
  - exact E.
  - reflexivity.
  - reflexivity.
  - reflexivity.
  - intros slot Hs Ha. by destruct (H slot Hs Ha).
Defined.

(** ** What a start cannot do *)

(** With an interrupt controller in x2APIC mode the commands name the processor
    [id * 2 ^ 24], which is not there: nobody receives them. *)
Lemma x2apic_commands_miss id w a m :
  0 < id < 256 -> w = INIT_WORD \/ w = SIPI_WORD -> g_x2apic_active a = true ->
  (forall x p, processors m !! x = Some p -> 0 <= x < 256) -> receive (apic_write_icr (shl32 id 24) w a) m = m.
Proof.
  intros Hid Hw Ha Hk. destruct (commands_go id) as [_ H]; [lia|]. destruct (H w Hw) as [H1 H2].
  unfold apic_write_icr. rewrite Ha. change (X2APIC_MSR_BASE ⊞ Z.shiftr LAPIC_REG_ICR_LOW 4) with 0x830. cbn [receive].
  rewrite Z.eqb_refl, H1, H2. unfold deliver. destruct (processors m !! (id * 2 ^ 24)) eqn:E; [|done]. apply Hk in E. lia.
Qed.

(** A processor that acknowledged and was then given up takes whatever the
    mailbox holds when it gets there: the stack, identifier and slot of the
    processor that is being started after it. *)
Lemma late_processor_shares page_directory initialize_cpu main_loop local x r m :
  processors m !! x = Some (At Paged r) ->
  let s := Startup.step page_directory initialize_cpu main_loop local x in
  exists r', processors (s (s (s (s m)))) !! x = Some (At Slot_read r') /\
    esp r' = m_stack_top (mail m) /\ ebx r' = u8 (m_apic_id (mail m)) /\ ecx r' = m_logical_slot (mail m).
Proof.
  intros E. cbv zeta.
  assert (H : forall p r m, processors (with_processor x (At p r) m) !! x = Some (At p r)) by (intros; apply lookup_insert_eq).
  unfold Startup.step at 4. rewrite E. unfold Startup.step at 3. rewrite H. unfold Startup.step at 2. rewrite H.
  unfold Startup.step. rewrite H. rewrite H. eexists. split; [reflexivity|]. done.
Qed.
