(* ===== verification/Tlb.v ===== *)
(** * Invalidating translations on every processor: apic_ipi.c

    A processor that changes the page tables sends an interrupt to the others
    and waits until they have invalidated the page ([Shootdown]). The others
    fill their buffers from the page tables and run the handler between the
    accesses of the sender, in any order. A processor takes the interrupt
    through the descriptor table it has loaded, and not while its interrupt
    controller has the same vector in service; the handler does not tell the
    controller that it has finished. *)

From S2P Require Import Prelude Cpu Apic Interleave.
Import Apic.Apic.

Module Shootdown.

Definition APIC_IPI_TLB_SHOOTDOWN_SPIN_LIMIT : nat := Z.to_nat 1000000.
Definition DELIVERY_SPIN_LIMIT : nat := Z.to_nat 100000.
Definition TLB_VECTOR : Z := 0x40.
Definition ALL : Z := 0xFFFFFFFF.

(** Where a processor is in [apic_ipi_tlb_shootdown_handler]: outside, after
    its comparison, after the invalidation; or shut down, because it found no
    gate for the interrupt. *)
Inductive place := Outside | Compared (all : bool) | Invalidated | Lost.

(** [requested] and [in_service] are the bits of vector 0x40 in the registers
    of the local interrupt controller, [table] says whether the processor has
    loaded the kernel's interrupt descriptor table, [cached] are the pages
    whose translations it holds. *)
Record cpu := mkCpu { requested : bool; in_service : bool; table : bool; at_ : place; cached : gset Z }.

(** [own] are the sender's translations, [mapped] the pages that the page
    tables map, [online] the topology's count, [polls] the reads of the
    interrupt command register so far. *)
Record machine := mkMachine {
  addr : Z;
  pending : Z;
  timeout_count : Z;
  others : list cpu;
  own : gset Z;
  mapped : gset Z;
  online : Z;
  lapic : apic;
  polls : nat }.

Definition with_words (a p : Z) (m : machine) : machine :=
  mkMachine a p (timeout_count m) (others m) (own m) (mapped m) (online m) (lapic m) (polls m).
Definition with_others (l : list cpu) (m : machine) : machine :=
  mkMachine (addr m) (pending m) (timeout_count m) l (own m) (mapped m) (online m) (lapic m) (polls m).
Definition with_own (s : gset Z) (m : machine) : machine :=
  mkMachine (addr m) (pending m) (timeout_count m) (others m) s (mapped m) (online m) (lapic m) (polls m).
Definition with_mapped (s : gset Z) (m : machine) : machine :=
  mkMachine (addr m) (pending m) (timeout_count m) (others m) (own m) s (online m) (lapic m) (polls m).
Definition polled (m : machine) : machine :=
  mkMachine (addr m) (pending m) (timeout_count m) (others m) (own m) (mapped m) (online m) (lapic m) (S (polls m)).
Definition count_timeout (m : machine) : machine :=
  mkMachine (addr m) (pending m) (timeout_count m ⊞ 1) (others m) (own m) (mapped m) (online m) (lapic m) (polls m).

Definition page_of (virt_addr : Z) : Z := Z.shiftr virt_addr 12.

Definition paging_invlpg (virt_addr : Z) (s : gset Z) : gset Z := s ∖ {[page_of virt_addr]}.
Definition paging_flush_tlb (s : gset Z) : gset Z := ∅.

(** ** The other processors *)

(** The interrupt is taken, if the controller lets it through, and the handler
    runs: the comparison, the invalidation, whose address is read again, and
    the subtraction. Nothing writes the end of interrupt register. *)
Definition apic_ipi_tlb_shootdown_handler (i : nat) (m : machine) : machine :=
  match others m !! i with
  | None => m
  | Some c =>
    let put c := with_others (<[i := c]> (others m)) in
    match at_ c with
    | Outside =>
      if requested c && negb (in_service c)
      then put (mkCpu false true (table c) (if table c then Compared (addr m =? ALL) else Lost) (cached c)) m else m
    | Compared true => put (mkCpu (requested c) (in_service c) (table c) Invalidated (paging_flush_tlb (cached c))) m
    | Compared false => put (mkCpu (requested c) (in_service c) (table c) Invalidated (paging_invlpg (addr m) (cached c))) m
    | Invalidated =>
      put (mkCpu (requested c) (in_service c) (table c) Outside (cached c)) (with_words (addr m) (pending m ⊟ 1) m)
    | Lost => m
    end
  end.

(** A processor runs its handler, or uses a page: the hardware keeps the
    translation of a page that the tables map. *)
Inductive move := Run (i : nat) | Fill (i : nat) (page : Z) | Fill_own (page : Z).

Definition step (x : move) (m : machine) : machine :=
  match x with
  | Run i => apic_ipi_tlb_shootdown_handler i m
  | Fill i page =>
    match others m !! i with
    | Some c => if decide (page ∈ mapped m)
                then with_others (<[i := mkCpu (requested c) (in_service c) (table c) (at_ c) ({[page]} ∪ cached c)]> (others m)) m else m
    | None => m
    end
  | Fill_own page => if decide (page ∈ mapped m) then with_own ({[page]} ∪ own m) m else m
  end.

(** ** The sender *)

Definition code (A : Type) : Type := Interleave.code machine move A.
Abbreviation act := (access step).
Abbreviation store := (update step).

Definition signal (c : cpu) : cpu := mkCpu true (in_service c) (table c) (at_ c) (cached c).

(** What the hardware does with a fixed interrupt for all but the sender. *)
Definition receive (l : list event) (m : machine) : machine :=
  let to_all low_word :=
    if (Z.land (Z.shiftr low_word 18) 3 =? 3) && (Z.land low_word 0xFF =? TLB_VECTOR)
    then with_others (signal <$> others m) m else m in
  match l with
  | [WriteMsr r v] => if r =? 0x830 then to_all (Z.land v 0xFFFFFFFF) else m
  | [WriteMmio _ _; WriteMmio _ low_word] => to_all low_word
  | _ => m
  end.

Section sender.
(** [icr n] is what the interrupt command register holds at the [n]th read. *)
Context (icr : nat -> Z).

Fixpoint delivery_loop (n : nat) : code Z :=
  match n with
  | O => mret 0
  | S n =>
    w ← act (fun m => (apic_read (icr (polls m)) (lapic m), polled m));
    if Z.land w (Z.shiftl 1 12) =? 0 then mret 1 else delivery_loop n
  end.

Definition advanced_pic_ipi_wait_delivery : code Z :=
  active ← act (fun m => (g_x2apic_active (lapic m), m));
  if active : bool then mret 1 else delivery_loop DELIVERY_SPIN_LIMIT.

Definition advanced_pic_ipi_send_fixed (apic_id vector shorthand : Z) : code Z :=
  ok ← advanced_pic_ipi_wait_delivery;
  if ok =? 0 then mret 0
  else
    let low_word := Z.lor vector (shl32 shorthand 18) in
    let high := if shorthand =? 0 then shl32 apic_id 24 else 0 in
    _ ← store (fun m => receive (apic_write_icr high low_word (lapic m)) m);
    advanced_pic_ipi_wait_delivery.

(** [while (pending > 0) if (++spin_guard >= LIMIT) { ...; break; }] *)
Fixpoint wait (n : nat) : code unit :=
  match n with
  | O => _ ← store (fun m => with_words (addr m) 0 m); store count_timeout
  | S n => p ← act (fun m => (pending m, m)); if p =? 0 then mret tt else wait n
  end.

Definition announce (virt_addr cpu_count : Z) : code unit :=
  _ ← store (fun m => with_words virt_addr (pending m) m);
  _ ← store (fun m => with_words (addr m) (cpu_count ⊟ 1) m);
  _ ← advanced_pic_ipi_send_fixed 0 TLB_VECTOR 3;
  mret tt.

Definition advanced_pic_ipi_broadcast_tlb_shootdown (virt_addr : Z) : code unit :=
  cpu_count ← act (fun m => (online m, m));
  if cpu_count <=? 1 then store (fun m => with_own (paging_invlpg virt_addr (own m)) m)
  else
    _ ← announce virt_addr cpu_count;
    _ ← wait APIC_IPI_TLB_SHOOTDOWN_SPIN_LIMIT;
    store (fun m => with_own (paging_invlpg virt_addr (own m)) m).

Definition advanced_pic_ipi_broadcast_tlb_flush : code unit := advanced_pic_ipi_broadcast_tlb_shootdown ALL.

(** What [paging_unmap_page] does to translations: the entry is cleared, then
    the page is invalidated everywhere. *)
Definition unmap (virt_addr : Z) : code unit :=
  _ ← store (fun m => with_mapped (mapped m ∖ {[page_of virt_addr]}) m);
  advanced_pic_ipi_broadcast_tlb_shootdown virt_addr.

Fixpoint unmap_all (l : list Z) : code unit :=
  match l with
  | [] => mret tt
  | virt_addr :: l => _ ← unmap virt_addr; unmap_all l
  end.

End sender.

(** ** What the others keep *)

Definition busy (c : cpu) : bool := requested c || match at_ c with Outside => false | _ => true end.

Fixpoint busy_count (l : list cpu) : Z := match l with [] => 0 | c :: l => Z.b2z (busy c) + busy_count l end.

Lemma busy_count_range l : 0 <= busy_count l <= Z.of_nat (length l).
Proof. induction l as [|c l IH]; [done|]. cbn [busy_count length]. destruct (busy c); cbn [Z.b2z]; lia. Qed.

Lemma busy_count_insert l i c c' :
  l !! i = Some c -> busy_count (<[i := c']> l) = busy_count l - Z.b2z (busy c) + Z.b2z (busy c').
Proof.
  revert i. induction l as [|d l IH]; intros [|i] Hi; try done; cbn [lookup list_lookup insert list_insert busy_count] in *.
  - injection Hi as ->. lia.
  - change (busy_count (d :: <[i := c']> l) = Z.b2z (busy d) + busy_count l - Z.b2z (busy c) + Z.b2z (busy c')).
    cbn [busy_count]. rewrite (IH i Hi). lia.
Qed.

Lemma busy_count_zero l : busy_count l = 0 -> Forall (fun c => busy c = false) l.
Proof.
  induction l as [|c l IH]; [done|]. cbn [busy_count]. pose proof (busy_count_range l). intros E.
  destruct (busy c) eqn:Eb; cbn [Z.b2z] in E; [lia|]. constructor; [done|]. apply IH. lia.
Qed.

(** Nobody is in the handler or about to enter it. *)
Definition quiet (m : machine) : Prop := Forall (fun c => busy c = false) (others m).

(** No processor can use or get the translation of [page]. *)
Definition gone (m : machine) (page : Z) : Prop :=
  (page ∉ mapped m) /\ (page ∉ own m) /\ Forall (fun c => page ∉ cached c) (others m).

(** What holds throughout: [pages] are those invalidated before. *)
Record steady (T : Z) (pages : list Z) (m : machine) : Prop := {
  st_time : timeout_count m = T;
  st_online : online m = 1 + Z.of_nat (length (others m));
  st_bound : online m < 2 ^ 32;
  st_gone : Forall (gone m) pages }.

Lemma gone_put m i c c' page :
  others m !! i = Some c -> (page ∉ cached c -> page ∉ cached c') -> gone m page -> gone (with_others (<[i := c']> (others m)) m) page.
Proof.
  intros Hi Hc (H1 & H2 & H3). split; [done|]. split; [done|]. apply Forall_insert; [done|]. apply Hc. by eapply (Forall_lookup_1 _ _ i) in H3.
Qed.

Lemma steady_put T pages m i c c' :
  steady T pages m -> others m !! i = Some c -> (forall page, page ∈ pages -> page ∉ cached c -> page ∉ cached c') ->
  steady T pages (with_others (<[i := c']> (others m)) m).
Proof.
  intros [] Hi Hc. split; cbn; try done; [by rewrite length_insert|].
  rewrite Forall_forall in *. intros page Hp. eapply gone_put; [done|by apply Hc|by apply st_gone0].
Qed.

Lemma steady_step T pages x m : steady T pages m -> steady T pages (step x m).
Proof.
  intros Hs. pose proof Hs as []. destruct x as [i|i page|page]; cbn [step].
  - unfold apic_ipi_tlb_shootdown_handler. destruct (others m !! i) as [c|] eqn:Ei; [|done].
    destruct (at_ c) as [|[]| |]; [destruct (requested c && negb (in_service c)); [|done]| | | |done]; try (eapply steady_put; [done|done|]); unfold paging_flush_tlb, paging_invlpg; try set_solver.
    change (others m) with (others (with_words (addr m) (pending m ⊟ 1) m)). eapply steady_put; [by split|done|done].
  - destruct (others m !! i) as [c|] eqn:Ei; [|done]. case_decide; [|done]. eapply steady_put; [done|done|]. cbn [cached].
    intros q Hq Hc. rewrite Forall_forall in st_gone0. destruct (st_gone0 q Hq) as [Hm _]. set_solver.
  - case_decide as Hm; [|done]. split; try done. rewrite Forall_forall in *. intros q Hq. destruct (st_gone0 q Hq) as (H1 & H2 & H3).
    split; [done|]. split; [|done]. cbn. set_solver.
Qed.

Lemma step_mapped x m : mapped (step x m) = mapped m.
Proof. destruct x; cbn [step]; unfold apic_ipi_tlb_shootdown_handler; repeat case_match; done. Qed.

Lemma quiet_put m i c c' : quiet m -> others m !! i = Some c -> busy c' = busy c -> quiet (with_others (<[i := c']> (others m)) m).
Proof.
  intros Hq Hi Hb. unfold quiet in *. cbn. apply Forall_insert; [done|]. rewrite Hb. by eapply (Forall_lookup_1 _ _ i) in Hq.
Qed.

(** Before the interrupt is sent. *)
Definition ready (T : Z) (pages : list Z) (m : machine) : Prop := steady T pages m /\ quiet m.

Definition unsent (T : Z) (pages : list Z) (virt : Z) (Q : machine -> Prop) (m : machine) : Prop :=
  ready T pages m /\ (page_of virt ∉ mapped m) /\ Q m.

Lemma quiet_step x m : quiet m -> quiet (step x m) /\ addr (step x m) = addr m /\ pending (step x m) = pending m.
Proof.
  intros Hq. destruct x as [i|i page|page]; cbn [step].
  - unfold apic_ipi_tlb_shootdown_handler. destruct (others m !! i) as [c|] eqn:Ei; [|done].
    pose proof (Forall_lookup_1 _ _ _ _ Hq Ei) as Hb. unfold busy in Hb. cbn in Hb. by destruct (requested c), (at_ c).
  - destruct (others m !! i) as [c|] eqn:Ei; [|done]. case_decide; [|done]. split; [|done]. by eapply quiet_put.
  - by case_decide.
Qed.

(** After it: what a processor has done about the page. *)
Definition good (virt : Z) (c : cpu) : Prop :=
  match at_ c with
  | Outside => requested c = true \/ (page_of virt ∉ cached c)
  | Compared all => requested c = false /\ all = (virt =? ALL)
  | Invalidated => requested c = false /\ (page_of virt ∉ cached c)
  | Lost => True
  end.

Definition sent (T : Z) (pages : list Z) (virt : Z) (m : machine) : Prop :=
  steady T pages m /\ (page_of virt ∉ mapped m) /\ addr m = virt /\ pending m = busy_count (others m) /\ Forall (good virt) (others m).

Lemma sent_put m virt i c c' w :
  others m !! i = Some c -> pending m = busy_count (others m) -> Forall (good virt) (others m) ->
  good virt c' -> w = pending m - Z.b2z (busy c) + Z.b2z (busy c') ->
  w = busy_count (<[i := c']> (others m)) /\ Forall (good virt) (<[i := c']> (others m)).
Proof.
  intros Hi Hp Hg Hc ->. rewrite (busy_count_insert _ _ _ _ Hi), Hp. split; [done|]. by apply Forall_insert.
Qed.

Lemma sent_step T pages virt x m : sent T pages virt m -> sent T pages virt (step x m).
Proof.
  intros (Hs & Hv & Ha & Hp & Hg). split; [by apply steady_step|]. split; [by rewrite step_mapped|]. pose proof Hs as [].
  destruct x as [i|i page|page]; cbn [step].
  - unfold apic_ipi_tlb_shootdown_handler. destruct (others m !! i) as [c|] eqn:Ei; [|done].
    pose proof (Forall_lookup_1 _ _ _ _ Hg Ei) as Hc. unfold good in Hc. pose proof (busy_count_range (others m)).
    destruct (at_ c) as [|all| |] eqn:Eat; [| | |done].
    + destruct (requested c) eqn:Er; [|done]. destruct (in_service c); [done|]. split; [done|].
      eapply sent_put; try done; [destruct (table c); [by rewrite Ha|done]|]. unfold busy. rewrite Er, Eat. destruct (table c); cbn; lia.
    + destruct Hc as [Er ->]. destruct (virt =? ALL); (split; [done|]); (eapply sent_put; [done|done|done| |]).
      all: try (unfold busy; cbn [pending with_others requested at_]; rewrite Er, Eat; cbn; lia).
      all: unfold good, paging_invlpg, paging_flush_tlb; cbn; rewrite ?Ha; split; [done|set_solver].
    + destruct Hc as [Er Hc]. split; [done|]. eapply (sent_put m); try done; [by right|].
      cbn [pending with_words with_others]. pose proof (busy_count_insert _ _ _ (mkCpu false false true Outside ∅) Ei) as Hb.
      pose proof (busy_count_range (<[i := mkCpu false false true Outside ∅]> (others m))).
      unfold busy in *. rewrite Er, Eat in *. cbn in *. rewrite sub32_small by lia. lia.
  - destruct (others m !! i) as [c|] eqn:Ei; [|done]. case_decide as Hm; [|done]. split; [done|].
    eapply (sent_put m); try done; [|unfold busy; cbn; lia]. pose proof (Forall_lookup_1 _ _ _ _ Hg Ei) as Hc. unfold good in *. cbn.
    destruct (at_ c); [destruct Hc; [by left|right]|done|split; [by apply Hc|]|done]; set_solver.
  - by case_decide.
Qed.

Lemma ready_step T pages x m : ready T pages m -> ready T pages (step x m).
Proof. intros [Hs Hq]. split; [by apply steady_step|by apply quiet_step]. Qed.

Lemma step_time x m : timeout_count (step x m) = timeout_count m.
Proof. destruct x; cbn [step]; unfold apic_ipi_tlb_shootdown_handler; repeat case_match; done. Qed.

Lemma step_online x m : online (step x m) = online m.
Proof. destruct x; cbn [step]; unfold apic_ipi_tlb_shootdown_handler; repeat case_match; done. Qed.

(** What the words hold, as far as the others leave it alone. *)
Definition words (k : Z) (a p : option Z) (m : machine) : Prop :=
  online m = k /\ match a with Some a => addr m = a | None => True end /\ match p with Some p => pending m = p | None => True end.

Lemma unsent_step T pages virt k a p x m : unsent T pages virt (words k a p) m -> unsent T pages virt (words k a p) (step x m).
Proof.
  intros (Hr & Hm & Hw). split; [by apply ready_step|]. rewrite step_mapped. split; [done|]. destruct Hr as [_ Hq].
  destruct (quiet_step x m Hq) as (_ & Ea & Ep). unfold words. by rewrite step_online, Ea, Ep.
Qed.

(** ** The sender *)

Section runs.
Context (icr : nat -> Z).

Lemma keep_delivery (P : machine -> Prop) :
  (forall x m, P m -> P (step x m)) -> (forall m, P m -> P (polled m)) -> triple P (advanced_pic_ipi_wait_delivery icr) (fun _ => P).
Proof.
  intros Hs Hp. unfold advanced_pic_ipi_wait_delivery. eapply triple_seq; [by apply triple_access|]. intros active.
  destruct active; [by apply triple_ret|]. generalize DELIVERY_SPIN_LIMIT. intros k. induction k as [|k IH]; [by apply triple_ret|].
  cbn [delivery_loop]. eapply triple_seq; [by apply triple_access|]. intros w. case_match; [by apply triple_ret|done].
Qed.

Lemma signal_all a m :
  let m' := receive (apic_write_icr 0 (Z.lor TLB_VECTOR (shl32 3 18)) a) m in
  m' = m \/ m' = with_others (signal <$> others m) m.
Proof.
  cbv zeta. unfold apic_write_icr. destruct (g_x2apic_active a) eqn:Ex; [by right|].
  destruct (g_apic_mmio_base a =? 0) eqn:Eb; cbn [negb]; [by left|]. unfold apic_write. rewrite Ex, Eb. by right.
Qed.

Lemma signalled_sent T pages virt m :
  unsent T pages virt (words (online m) (Some virt) (Some (online m - 1))) m ->
  sent T pages virt (with_others (signal <$> others m) m).
Proof.
  intros ((Hs & Hq) & Hm & (_ & Ha & Hp)). unfold quiet in Hq. rewrite (st_online _ _ _ Hs) in Hp. split; [|split; [done|]; split; [done|]; split].
  - destruct Hs. split; cbn; try done; [by rewrite length_fmap|]. eapply Forall_impl; [done|]. intros page (H1 & H2 & H3).
    split; [done|]. split; [done|]. cbn. by apply Forall_fmap.
  - cbn [pending others with_others]. rewrite Hp. clear. rewrite Z.add_simpl_l. induction (others m) as [|c l IH]; [done|]. cbn [fmap list_fmap busy_count length].
    unfold busy at 1. cbn [requested signal orb Z.b2z]. cbn [fmap] in IH. lia.
  - cbn [others with_others]. apply Forall_fmap. eapply Forall_impl; [exact Hq|]. intros c Hb. unfold good, busy in *. cbn.
    apply orb_false_elim in Hb as [_ Hb]. destruct (at_ c); [by left|done..].
Qed.

(** [F] is what else is known of the others before the interrupt is sent, [G]
    what is known of them afterwards. *)
Section framed.
Context (F G : list cpu -> Prop).
Context (F_step : forall x m, F (others m) -> F (others (step x m))).
Context (G_step : forall x m, G (others m) -> G (others (step x m))).
Context (F_G : forall l, F l -> G (signal <$> l)).

Definition before (T : Z) (pages : list Z) (virt : Z) (W : machine -> Prop) (m : machine) : Prop :=
  unsent T pages virt W m /\ F (others m).
Definition after (T : Z) (pages : list Z) (virt : Z) (m : machine) : Prop := sent T pages virt m /\ G (others m).

Lemma before_moves T pages virt k a p x m :
  before T pages virt (words k a p) m -> before T pages virt (words k a p) (step x m).
Proof. intros [Hu Hf]. split; [by apply unsent_step|by apply F_step]. Qed.

Lemma after_step T pages virt x m : after T pages virt m -> after T pages virt (step x m).
Proof. intros [Hs Hg]. split; [by apply sent_step|by apply G_step]. Qed.

Lemma underway_step T pages virt k a p x m :
  before T pages virt (words k a p) m \/ after T pages virt m ->
  before T pages virt (words k a p) (step x m) \/ after T pages virt (step x m).
Proof. intros [H|H]; [left; by apply before_moves|right; by apply after_step]. Qed.

Lemma before_polled T pages virt k a p m : before T pages virt (words k a p) m -> before T pages virt (words k a p) (polled m).
Proof. intros [((Hs & Hq) & Hw) Hf]. split; [split; [split; [|done]|done]|done]. destruct Hs; by split. Qed.

Lemma after_polled T pages virt m : after T pages virt m -> after T pages virt (polled m).
Proof. intros [(Hs & Hw) Hg]. split; [|done]. split; [|done]. destruct Hs; by split. Qed.

(** After the announcement the interrupt is on its way, or was not sent. *)
Lemma announce_sends T pages virt k :
  1 < k < 2 ^ 32 ->
  triple (before T pages virt (words k None None)) (announce icr virt k)
    (fun _ m => before T pages virt (words k (Some virt) (Some (k - 1))) m \/ after T pages virt m).
Proof.
  intros Hk. set (Q := before T pages virt (words k (Some virt) (Some (k - 1)))).
  unfold announce. apply (triple_seq _ (before T pages virt (words k (Some virt) None))).
  { apply triple_update; [intros; by apply before_moves|]. intros m [((Hs & Hq) & Hm & Hw & _) Hf].
    split; [|done]. split; [split; [|done]|done]. destruct Hs; by split. }
  intros _. apply (triple_seq _ Q).
  { apply triple_update; [intros; by apply before_moves|]. intros m [((Hs & Hq) & Hm & Hw & Ha & _) Hf]. split; [|done].
    split; [split; [|done]|]; [destruct Hs; by split|]. split; [done|]. split; [done|]. split; [done|]. cbn. apply sub32_small. lia. }
  intros _. apply (triple_seq _ (fun m => Q m \/ after T pages virt m)); [|intros _; by apply triple_ret].
  unfold advanced_pic_ipi_send_fixed. cbn [Z.eqb].
  apply (triple_seq _ Q). { apply keep_delivery; intros; [by apply before_moves|by apply before_polled]. }
  intros ok. case_match; [apply triple_ret; by left|]. apply (triple_seq _ (fun m => Q m \/ after T pages virt m)).
  - apply triple_update; [intros; by apply before_moves|]. intros m [HQ Hf].
    destruct (signal_all (lapic m) m) as [-> | ->]; [by left|]. right. split; [|by apply F_G].
    apply signalled_sent. destruct HQ as (? & ? & Hk' & ?). by rewrite Hk'.
  - intros _. apply keep_delivery; [intros; by apply underway_step|].
    intros m [Hb|Ha]; [left; by apply before_polled|right; by apply after_polled].
Qed.

(** The wait ends with everybody done, or is counted as a timeout. *)
Lemma wait_ends T pages virt k n :
  0 <= T < 2 ^ 32 - 1 -> 1 < k < 2 ^ 32 ->
  triple (fun m => before T pages virt (words k (Some virt) (Some (k - 1))) m \/ after T pages virt m) (wait n)
    (fun _ m => timeout_count m = T + 1 \/ (after T pages virt m /\ quiet m)).
Proof.
  intros HT Hk. set (P m := before T pages virt (words k (Some virt) (Some (k - 1))) m \/ after T pages virt m).
  assert (Hst : forall x m, P m -> P (step x m)) by (intros; by apply underway_step).
  induction n as [|n IH]; cbn [wait].
  - apply (triple_seq _ (fun m => timeout_count m = T)).
    + apply triple_update; [done|]. intros m [[((Hs & _) & _) _]|[(Hs & _) _]]; apply (st_time _ _ _ Hs).
    + intros _. apply triple_update; [intros x m <-; apply step_time|]. intros m Ht. left. cbn. rewrite Ht. apply add32_small. lia.
  - apply (triple_bind _ (fun p m => P m /\ (p = 0 -> after T pages virt m /\ quiet m))).
    + apply triple_access; [done|]. intros m Hm. split; [done|]. cbn. destruct Hm as [[(_ & _ & _ & _ & Hp) _]|Hs]; [lia|].
      intros Hz. split; [done|]. destruct Hs as [(_ & _ & _ & Hp & _) _]. apply busy_count_zero. lia.
    + intros p. destruct (Z.eqb_spec p 0) as [->|]; [apply triple_ret; intros m [_ H]; right; by apply H|].
      eapply triple_mono; [exact IH|by intros m []|done].
Qed.

Lemma own_gone T pages virt m :
  steady T pages m -> quiet m -> page_of virt ∉ mapped m -> Forall (fun c => page_of virt ∉ cached c) (others m) ->
  ready T (page_of virt :: pages) (with_own (paging_invlpg virt (own m)) m).
Proof.
  intros [] Hq Hm Hc. unfold paging_invlpg. split; [|done]. split; try done. constructor.
  - split; [done|]. split; [cbn; set_solver|done].
  - eapply Forall_impl; [done|]. intros page (H1 & H2 & H3). split; [done|]. split; [cbn; set_solver|done].
Qed.

Lemma broadcast_ends T pages virt :
  0 <= T < 2 ^ 32 - 1 ->
  triple (before T pages virt (fun _ => True)) (advanced_pic_ipi_broadcast_tlb_shootdown icr virt)
    (fun _ m => timeout_count m = T + 1 \/ (ready T (page_of virt :: pages) m /\ ((others m = [] /\ F (others m)) \/ G (others m)))).
Proof.
  intros HT. unfold advanced_pic_ipi_broadcast_tlb_shootdown.
  apply (triple_bind _ (fun k m => before T pages virt (words k None None) m)).
  { apply triple_access; [|by intros m [(Hr & Hm & _) Hf]]. intros x m [(Hr & Hm & _) Hf]. split; [|by apply F_step].
    split; [by apply ready_step|]. by rewrite step_mapped. }
  intros k. destruct (Z.leb_spec k 1) as [Hk|Hk].
  - apply triple_update; [intros; by apply before_moves|]. intros m [((Hs & Hq) & Hm & Ho & _) Hf]. right.
    assert (Hnil : others m = []). { pose proof (st_online _ _ _ Hs). by destruct (others m); [|cbn [length] in *; lia]. }
    split; [|by left]. apply own_gone; [done|done|done|]. by rewrite Hnil.
  - intros sch m Hu. assert (Hk' : k < 2 ^ 32). { destruct Hu as [((Hs & _) & _ & <- & _) _]. apply (st_bound _ _ _ Hs). }
    revert sch m Hu. apply (triple_bind _ _ _ _ _ (announce_sends T pages virt k ltac:(lia))). intros _.
    apply (triple_bind _ _ _ _ _ (wait_ends T pages virt k _ HT ltac:(lia))). intros _. apply triple_update.
    + intros x m [Ht|[Hs Hq]]; [left; by rewrite step_time|]. right. split; [by apply after_step|by apply quiet_step].
    + intros m [Ht|[[(Hs & Hm & _ & _ & Hg) HG] Hq]]; [by left|]. right. split; [|by right]. apply own_gone; [done|done|done|]. unfold quiet in Hq.
      eapply Forall_impl; [apply Forall_and; split; [exact Hg|exact Hq]|].
      intros c [Hc Hb]. unfold good, busy in *. destruct (at_ c); [|by rewrite orb_true_r in Hb|by apply Hc|by rewrite orb_true_r in Hb].
      destruct Hc as [Hr|Hc]; [by rewrite Hr in Hb|done].
Qed.

(** Clearing the entry comes first. *)
Lemma unmap_ends T pages virt :
  0 <= T < 2 ^ 32 - 1 ->
  triple (fun m => ready T pages m /\ F (others m)) (unmap icr virt)
    (fun _ m => timeout_count m = T + 1 \/ (ready T (page_of virt :: pages) m /\ ((others m = [] /\ F (others m)) \/ G (others m)))).
Proof.
  intros HT. unfold unmap. eapply triple_seq; [|intros _; by apply broadcast_ends].
  apply triple_update; [intros x m [H Hf]; split; [by apply ready_step|by apply F_step]|].
  intros m [[[] Hq] Hf]. split; [|done]. split; [split; [|done]|split; [cbn; set_solver|done]]. split; try done.
  eapply Forall_impl; [done|]. intros page (H1 & H2 & H3). split; [cbn; set_solver|done].
Qed.

End framed.

(** A timeout stays in the counter. *)
Lemma keep_time {A} T (f : machine -> A * machine) :
  (forall m, timeout_count (f m).2 = timeout_count m) -> triple (fun m => timeout_count m = T) (act f) (fun _ m => timeout_count m = T).
Proof. intros Hf. apply triple_access; [intros x m <-; apply step_time|]. intros m <-. apply Hf. Qed.

Lemma broadcast_counts T virt :
  0 <= T < 2 ^ 32 - 1 ->
  triple (fun m => timeout_count m = T) (advanced_pic_ipi_broadcast_tlb_shootdown icr virt)
    (fun _ m => timeout_count m = T \/ timeout_count m = T + 1).
Proof.
  intros HT. assert (Hst : forall x m, timeout_count m = T -> timeout_count (step x m) = T) by (intros x m <-; apply step_time).
  unfold advanced_pic_ipi_broadcast_tlb_shootdown. eapply triple_seq; [by apply keep_time|]. intros k. case_match.
  { apply (triple_mono (fun m => timeout_count m = T) _ (fun _ m => timeout_count m = T) _); [by apply keep_time|done|by left]. }
  apply (triple_seq _ (fun m => timeout_count m = T)).
  { unfold announce, advanced_pic_ipi_send_fixed. cbn [Z.eqb]. do 2 (apply (triple_seq _ (fun m => timeout_count m = T)); [apply (keep_time T); done|intros _]).
    eapply (triple_seq _ (fun m => timeout_count m = T)); [|intros _; by apply triple_ret].
    eapply triple_seq; [by apply keep_delivery|]. intros ok. case_match; [by apply triple_ret|].
    eapply triple_seq; [|intros _; by apply keep_delivery]. apply triple_update; [done|]. intros m Ht.
    by destruct (signal_all (lapic m) m) as [-> | ->]. }
  intros _. apply (triple_seq _ (fun m => timeout_count m = T \/ timeout_count m = T + 1)).
  - generalize APIC_IPI_TLB_SHOOTDOWN_SPIN_LIMIT. intros n. induction n as [|n IH]; cbn [wait].
    + eapply triple_seq; [by apply keep_time|]. intros _. apply triple_update; [done|]. intros m Ht. right. cbn. rewrite Ht. apply add32_small. lia.
    + eapply triple_seq; [by apply keep_time|]. intros p. case_match; [apply triple_ret; by left|done].
  - intros _. apply triple_update; [intros x m; by rewrite step_time|]. done.
Qed.

Lemma unmap_counts T virt :
  0 <= T < 2 ^ 32 - 1 ->
  triple (fun m => timeout_count m = T) (unmap icr virt) (fun _ m => timeout_count m = T \/ timeout_count m = T + 1).
Proof. intros HT. unfold unmap. eapply triple_seq; [by apply keep_time|]. intros _. by apply broadcast_counts. Qed.

Lemma session_ends T pages l n :
  0 <= T -> T + n + Z.of_nat (length l) < 2 ^ 32 -> 0 <= n ->
  triple (fun m => (T < timeout_count m <= T + n) \/ ready T pages m) (unmap_all icr l)
    (fun _ m => (T < timeout_count m <= T + n + Z.of_nat (length l)) \/ ready T (reverse (page_of <$> l) ++ pages) m).
Proof.
  revert pages n. induction l as [|virt l IH]; intros pages n HT Hn Hn0; cbn [length] in Hn |- *.
  { apply triple_ret. intros m [H|H]; [left; cbn; lia|by right]. }
  cbn [unmap_all]. apply (triple_seq _ (fun m => (T < timeout_count m <= T + (n + 1)) \/ ready T (page_of virt :: pages) m)).
  - apply triple_or.
    + intros sch m Hm. pose proof (unmap_counts (timeout_count m) virt ltac:(lia) sch m eq_refl) as Hb.
      destruct (unmap icr virt sch m) as [[u sch'] m']. left. lia.
    + eapply triple_mono; [apply (unmap_ends (fun _ => True) (fun _ => True) (fun _ _ H => H) (fun _ _ H => H) (fun _ H => H) T pages virt); lia|done|].
      intros _ m [H|[H _]]; [left; lia|by right].
  - intros _. eapply triple_mono; [apply (IH (page_of virt :: pages) (n + 1)); lia|done|]. intros _ m [H|H]; [left; lia|right].
    rewrite fmap_cons, reverse_cons, <- app_assoc. exact H.
Qed.

End runs.

(** C14: Pages are unmapped one after the other while the other processors run,
    use the mapped pages and take their interrupts in any order. When the
    timeout counter has not moved, no processor, the sender included, still
    holds the translation of any of the pages, and all have left the handler. *)
Theorem tlb_shootdown_sound icr l sch m sch' m' :
  quiet m -> online m = 1 + Z.of_nat (length (others m)) -> online m < 2 ^ 32 ->
  0 <= timeout_count m -> timeout_count m + Z.of_nat (length l) < 2 ^ 32 ->
  unmap_all icr l sch m = (tt, sch', m') -> timeout_count m' = timeout_count m ->
  quiet m' /\ forall virt_addr, virt_addr ∈ l ->
    (page_of virt_addr ∉ own m') /\ forall i c, others m' !! i = Some c -> page_of virt_addr ∉ cached c.
Proof.
  intros Hq Ho Hb Ht Hl Hrun Hsame.
  pose proof (session_ends icr (timeout_count m) [] l 0 Ht ltac:(lia) ltac:(lia) sch m) as H. rewrite Hrun in H.
  destruct H as [H|[Hs Hq']]; [|lia|]. { right. split; [by split|done]. }
  split; [done|]. intros virt Hin. pose proof (st_gone _ _ _ Hs) as Hg. rewrite app_nil_r, Forall_reverse, Forall_fmap in Hg.
  rewrite Forall_forall in Hg. destruct (Hg virt Hin) as (_ & Hown & Hall). split; [done|]. intros i c Hi. by eapply (Forall_lookup_1 _ _ i) in Hall.
Qed.

Definition two_others : machine :=
  mkMachine 0 0 0 [mkCpu false false true Outside {[5; 7]}; mkCpu false false true Outside {[5; 6]}] {[5]} {[5; 6; 7]} 3 (Apic.mk 0xFEE00000 false) 0.

Abbreviation two_run := (unmap_all (fun _ => 0) [0x5000] (replicate 40 [Run 0; Fill 0 7; Run 1; Fill 1 6]) two_others).

Lemma tlb_shootdown_sound_witness :
  (forall i c, others two_run.2 !! i = Some c -> 5 ∉ cached c) /\ (5 ∉ own two_run.2) /\
  others two_run.2 = [mkCpu false true true Outside {[7]}; mkCpu false true true Outside {[6]}].
Proof.
  assert (Ht : timeout_count two_run.2 = 0) by (vm_compute; reflexivity).
  assert (Ho : others two_run.2 = [mkCpu false true true Outside {[7]}; mkCpu false true true Outside {[6]}]) by (vm_compute; reflexivity).
  destruct two_run as [[[] sch'] m'] eqn:E. cbn [snd] in *.
  destruct (tlb_shootdown_sound (fun _ => 0) [0x5000] (replicate 40 [Run 0; Fill 0 7; Run 1; Fill 1 6]) two_others sch' m') as [_ H].
  - by repeat constructor.
  - reflexivity.
  - reflexivity.
  - cbn. lia.
  - cbn. lia.
  - exact E.
  - exact Ht.
  - destruct (H 0x5000) as [H1 H2]; [left|]. split; [exact H2|]. split; [exact H1|exact Ho].
Defined.

(** ** Processors that do not answer *)

(** A processor that has no table, or whose controller still has the vector
    in service, and is not in the handler. *)
Definition deaf (c : cpu) : Prop := at_ c = Lost \/ (at_ c = Outside /\ (in_service c = true \/ table c = false)).

Definition unheard (i : nat) (l : list cpu) : Prop := exists c, l !! i = Some c /\ deaf c.
Definition pends (i : nat) (l : list cpu) : Prop := exists c, l !! i = Some c /\ deaf c /\ busy c = true.

(** Those who have taken an interrupt have it in service. *)
Definition serving (c : cpu) : Prop :=
  match at_ c with
  | Outside => requested c = true \/ in_service c = true
  | Compared _ | Invalidated => in_service c = true
  | Lost => True
  end.

(** A property of one processor that its own steps and its accesses keep. *)
Lemma each_step (K : cpu -> Prop) :
  (forall c, K c -> at_ c = Outside -> requested c && negb (in_service c) = true ->
     forall all, K (mkCpu false true (table c) (if table c then Compared all else Lost) (cached c))) ->
  (forall c all s, K c -> at_ c = Compared all -> K (mkCpu (requested c) (in_service c) (table c) Invalidated s)) ->
  (forall c, K c -> at_ c = Invalidated -> K (mkCpu (requested c) (in_service c) (table c) Outside (cached c))) ->
  (forall c s, K c -> K (mkCpu (requested c) (in_service c) (table c) (at_ c) s)) ->
  forall x m i c, others m !! i = Some c -> K c -> exists c', others (step x m) !! i = Some c' /\ K c'.
Proof.
  intros H1 H2 H3 H4 x m i c Hi Hk.
  assert (Hput : forall j d d', others m !! j = Some d -> (K d -> K d') -> exists c', <[j := d']> (others m) !! i = Some c' /\ K c').
  { intros j d d' Hj Hd. destruct (decide (i = j)) as [<-|].
    - exists d'. rewrite list_lookup_insert_eq by (by eapply lookup_lt_Some). split; [done|]. apply Hd. congruence.
    - exists c. by rewrite list_lookup_insert_ne. }
  destruct x as [j|j page|page]; cbn [step]; [unfold apic_ipi_tlb_shootdown_handler| |]; [| |case_decide; by exists c].
  - destruct (others m !! j) as [d|] eqn:Ej; [|by exists c]. destruct (at_ d) as [|[]| |] eqn:Ed; [|eapply Hput; [done|]; intros; by eapply H2..| |by exists c].
    + destruct (requested d && negb (in_service d)) eqn:Er; [|by exists c]. eapply Hput; [done|]. intros. by apply H1.
    + eapply Hput; [done|]. intros. by apply H3.
  - destruct (others m !! j) as [d|] eqn:Ej; [|by exists c]. case_decide; [|by exists c]. eapply Hput; [done|]. apply H4.
Qed.

Lemma unheard_step i x m : unheard i (others m) -> unheard i (others (step x m)).
Proof.
  intros (c & Hi & Hd). revert Hi Hd. apply each_step; clear; unfold deaf; cbn [at_ in_service table].
  2-3: intuition congruence. 2: done.
  intros c Hd Ho Hr all. left. destruct (in_service c); [by rewrite andb_false_r in Hr|]. by destruct Hd as [Hd|[_ [ | ->]]]; [congruence|..].
Qed.

Lemma pends_step i x m : pends i (others m) -> pends i (others (step x m)).
Proof.
  intros (c & Hi & Hd). revert Hi Hd. apply (each_step (fun c => deaf c /\ busy c = true)); clear; unfold deaf, busy; cbn [at_ in_service table requested].
  2-3: intuition congruence. 2: done.
  intros c [Hd _] Ho Hr all. destruct (in_service c); [by rewrite andb_false_r in Hr|].
  destruct Hd as [Hd|[_ [ | ->]]]; [congruence|done|]. split; [by left|done].
Qed.

Lemma step_others x m : length (others (step x m)) = length (others m).
Proof. destruct x; cbn [step]; unfold apic_ipi_tlb_shootdown_handler; repeat case_match; cbn; by rewrite ?length_insert. Qed.

Lemma serving_step x m : Forall serving (others m) -> Forall serving (others (step x m)).
Proof.
  intros Hs. apply Forall_lookup_2. intros i c' Hi'.
  destruct (lookup_lt_is_Some_2 (others m) i) as [c Hi]; [rewrite <- (step_others x); by eapply lookup_lt_Some|].
  assert (exists d, others (step x m) !! i = Some d /\ serving d) as (d & Hd & Hk); [|congruence].
  pose proof (Forall_lookup_1 _ _ _ _ Hs Hi) as Hk. revert Hi Hk. apply each_step; clear; unfold serving; cbn [at_ in_service requested].
  - intros c _ _ _ all. by destruct (table c).
  - intros c all _ Hk Ha. by rewrite Ha in Hk.
  - intros c Hk Ha. rewrite Ha in Hk. by right.
  - done.
Qed.

Section unanswered.
Context (icr : nat -> Z).

(** A shootdown that one of the others does not hear times out. *)
Lemma unheard_times_out T pages virt i :
  0 <= T < 2 ^ 32 - 1 ->
  triple (fun m => ready T pages m /\ unheard i (others m)) (unmap icr virt) (fun _ m => timeout_count m = T + 1).
Proof.
  intros HT. eapply triple_mono; [apply (unmap_ends icr (unheard i) (pends i)) with (T := T) (pages := pages); [apply unheard_step|apply pends_step| |done]|done|].
  - intros l (c & Hi & Hd). exists (signal c). by rewrite list_lookup_fmap, Hi.
  - intros _ m [Ht|[[_ Hq] [Hn|(c & Hi & _ & Hb)]]]; [done| |].
    + destruct Hn as [Hn (c & Hi & _)]. by rewrite Hn in Hi.
    + pose proof (Forall_lookup_1 _ _ _ _ Hq Hi) as Hb'. cbn in Hb'. congruence.
Qed.

(** After one that did not, all the others have the vector in service. *)
Lemma answered_unheard T pages virt :
  0 <= T < 2 ^ 32 - 1 ->
  triple (fun m => ready T pages m /\ others m <> []) (unmap icr virt)
    (fun _ m => timeout_count m = T + 1 \/ (ready T (page_of virt :: pages) m /\ unheard 0 (others m))).
Proof.
  intros HT. assert (Hne : forall x m, others m <> [] -> others (step x m) <> []).
  { intros x m Hm E. apply (f_equal length) in E. rewrite step_others in E. by destruct (others m). }
  eapply triple_mono; [apply (unmap_ends icr (fun l => l <> [] /\ Forall (fun c => busy c = false) l)
    (fun l => l <> [] /\ Forall serving l)) with (T := T) (pages := pages); [| | |done]|intros m [Hr Hm]; split; [exact Hr|by destruct Hr]|].
  - intros x m [Hm Hq]. split; [by apply Hne|by apply quiet_step].
  - intros x m [Hm Hs]. split; [by apply Hne|by apply serving_step].
  - intros l [Hl Hq]. split; [by destruct l|]. apply Forall_fmap. eapply Forall_impl; [exact Hq|]. intros c Hb. unfold busy, serving in *. cbn.
    apply orb_false_elim in Hb as [_ Hb]. destruct (at_ c); [by left|done..].
  - intros _ m [Ht|[Hr [[Hn [Hne' _]]|[Hn Hs]]]]; [by left|done|]. right. split; [done|]. destruct Hr as [_ Hq]. unfold quiet, unheard in *.
    destruct (others m) as [|c l]; [done|]. exists c. split; [done|]. apply Forall_inv in Hs, Hq. unfold serving, busy, deaf in *.
    apply orb_false_elim in Hq as [Hr Ho]. destruct (at_ c); try done. right. split; [done|]. left. destruct Hs; congruence.
Qed.

End unanswered.

Lemma quiet_ready m :
  quiet m -> online m = 1 + Z.of_nat (length (others m)) -> online m < 2 ^ 32 -> ready (timeout_count m) [] m.
Proof. intros Hq Ho Hb. split; [by split|done]. Qed.

(** A processor that was started by the trampoline has no descriptor table: a
    shootdown waits for it in vain. *)
Lemma unloaded_table_times_out icr virt_addr sch m i c :
  quiet m -> online m = 1 + Z.of_nat (length (others m)) -> online m < 2 ^ 32 -> 0 <= timeout_count m < 2 ^ 32 - 1 ->
  others m !! i = Some c -> table c = false ->
  timeout_count (unmap icr virt_addr sch m).2 = timeout_count m + 1.
Proof.
  intros Hq Ho Hb Ht Hi Hc. pose proof (unheard_times_out icr (timeout_count m) [] virt_addr i Ht sch m) as H.
  destruct (unmap icr virt_addr sch m) as [[u sch'] m']. apply H. split; [by apply quiet_ready|]. exists c. split; [done|].
  pose proof (Forall_lookup_1 _ _ _ _ Hq Hi) as Hb'. unfold busy in Hb'. cbn in Hb'. apply orb_false_elim in Hb' as [_ Hb'].
  unfold deaf. destruct (at_ c); try done. right. split; [done|by right].
Qed.

(** C32: The handler never writes the end of interrupt register, so a processor
    answers one shootdown only. Of two pages that are unmapped one after the
    other on a machine with at least two processors, at least one runs into
    the timeout, whatever the other processors do in between. *)
Theorem tlb_second_shootdown_times_out icr first second sch m sch' m' :
  quiet m -> others m <> [] -> online m = 1 + Z.of_nat (length (others m)) -> online m < 2 ^ 32 ->
  0 <= timeout_count m < 2 ^ 32 - 2 -> unmap_all icr [first; second] sch m = (tt, sch', m') ->
  timeout_count m' = timeout_count m + 1 \/ timeout_count m' = timeout_count m + 2.
Proof.
  intros Hq Hn Ho Hb Ht Hrun. set (T := timeout_count m) in *.
  assert (H : triple (fun m => ready T [] m /\ others m <> []) (unmap_all icr [first; second])
            (fun _ m => timeout_count m = T + 1 \/ timeout_count m = T + 2)).
  - cbn [unmap_all]. apply (triple_seq _ (fun m => timeout_count m = T + 1 \/ (ready T [page_of first] m /\ unheard 0 (others m)))).
    { apply answered_unheard. lia. }
    intros _. apply (triple_seq _ (fun m => timeout_count m = T + 1 \/ timeout_count m = T + 2)); [|intros _; by apply triple_ret]. apply triple_or.
    + replace (T + 2) with (T + 1 + 1) by lia. apply unmap_counts. lia.
    + eapply triple_mono; [apply (unheard_times_out icr T [page_of first] second 0); lia|done|by left].
  - specialize (H sch m). rewrite Hrun in H. apply H. split; [by apply quiet_ready|done].
Qed.

(** The other processor answers for page 5 at once. *)
Definition answered : machine :=
  mkMachine 0 0 0 [mkCpu false false true Outside {[5; 6]}] ∅ {[5; 6]} 2 (Apic.mk 0xFEE00000 false) 0.

Lemma tlb_second_shootdown_times_out_witness :
  let m' := (unmap_all (fun _ => 0) [0x5000; 0x6000] (replicate 40 [Run 0; Run 0; Run 0]) answered).2 in
  timeout_count m' = 1 \/ timeout_count m' = 2.
Proof.
  cbv zeta. destruct (unmap_all (fun _ => 0) [0x5000; 0x6000] (replicate 40 [Run 0; Run 0; Run 0]) answered) as [[[] sch'] m'] eqn:E.
  apply (tlb_second_shootdown_times_out (fun _ => 0) 0x5000 0x6000 (replicate 40 [Run 0; Run 0; Run 0]) answered sch' m').
  - by repeat constructor.
  - done.
  - reflexivity.
  - reflexivity.
  - cbn. lia.
  - exact E.
Defined.

(** ** What a shootdown does not do *)

(** A flush of everything leaves the sender's own buffer as it is, but for the
    last page of the address space. *)
Lemma flush_keeps_own icr sch m :
  online m <= 1 -> own (advanced_pic_ipi_broadcast_tlb_flush icr ([] :: [] :: sch) m).2 = own m ∖ {[0xFFFFF]}.
Proof.
  intros Ho. unfold advanced_pic_ipi_broadcast_tlb_flush, advanced_pic_ipi_broadcast_tlb_shootdown, mbind, code_bind, update, access.
  cbn [fold_left]. by rewrite (proj2 (Z.leb_le _ _) Ho).
Qed.

Lemma wait_idle n sch m :
  pending m <> 0 -> wait n (replicate n [] ++ [] :: [] :: sch) m = (tt, sch, count_timeout (with_words (addr m) 0 m)).
Proof.
  intros Hp. induction n as [|n IH]; [done|]. cbn [wait replicate app]. unfold mbind at 1, code_bind at 1, access at 1.
  cbn [fold_left]. by rewrite (proj2 (Z.eqb_neq _ _) Hp).
Qed.

Lemma unmap_run icr virt sch m sch1 m1 sch2 m2 :
  1 < online m -> announce icr virt (online m) sch (with_mapped (mapped m ∖ {[page_of virt]}) m) = (tt, sch1, m1) ->
  wait APIC_IPI_TLB_SHOOTDOWN_SPIN_LIMIT sch1 m1 = (tt, [] :: sch2, m2) ->
  unmap icr virt ([] :: [] :: sch) m = (tt, sch2, with_own (paging_invlpg virt (own m2)) m2).
Proof.
  intros Ho Ha Hw. unfold unmap, advanced_pic_ipi_broadcast_tlb_shootdown, mbind, code_bind, update, access. cbn [fold_left].
  cbn [online with_mapped]. rewrite (proj2 (Z.leb_gt _ _) Ho), Ha, Hw. done.
Qed.

(** A handler that was given up but is still to subtract its acknowledgement
    acknowledges the next page instead: the second request returns without a
    timeout while the other processor holds its translation. *)
Definition one_other : machine :=
  mkMachine 0 0 0 [mkCpu false false true Outside {[5; 6]}] ∅ {[5; 6]} 2 (Apic.mk 0xFEE00000 false) 0.

(** It acknowledges 0x5000 only once the sender has asked for 0x6000. *)
Definition late_second : list (list move) := [[]; []; []; []; []; []; []; []; []; [Run 0]; []].
Definition late_schedule : list (list move) :=
  [] :: [] :: [] :: [] :: [] :: [] :: [] :: [Run 0; Run 0] :: [] ::
  (replicate APIC_IPI_TLB_SHOOTDOWN_SPIN_LIMIT [] ++ [] :: [] :: [] :: late_second).

Lemma late_first_announced tl :
  announce (fun _ => 0) 0x5000 2 ([] :: [] :: [] :: [] :: [] :: [Run 0; Run 0] :: [] :: tl)
    (with_mapped (mapped one_other ∖ {[page_of 0x5000]}) one_other) =
  (tt, tl, mkMachine 0x5000 1 0 [mkCpu false true true Invalidated (paging_invlpg 0x5000 {[5; 6]})] ∅ (mapped one_other ∖ {[page_of 0x5000]}) 2
             (Apic.mk 0xFEE00000 false) 2).
Proof. vm_compute. reflexivity. Qed.

Definition late_middle : machine :=
  mkMachine 0x5000 0 1 [mkCpu false true true Invalidated (paging_invlpg 0x5000 {[5; 6]})] (paging_invlpg 0x5000 ∅)
    (mapped one_other ∖ {[page_of 0x5000]}) 2 (Apic.mk 0xFEE00000 false) 2.

Lemma late_second_announced tl :
  announce (fun _ => 0) 0x6000 2 ([] :: [] :: [] :: [] :: [] :: [] :: [] :: tl)
    (with_mapped (mapped late_middle ∖ {[page_of 0x6000]}) late_middle) =
  (tt, tl, mkMachine 0x6000 1 1 [mkCpu true true true Invalidated (paging_invlpg 0x5000 {[5; 6]})] (paging_invlpg 0x5000 ∅)
             (mapped late_middle ∖ {[page_of 0x6000]}) 2 (Apic.mk 0xFEE00000 false) 4).
Proof. vm_compute. reflexivity. Qed.

Lemma wait_sees moves sch m :
  pending (fold_left (fun m x => step x m) moves m) = 0 ->
  wait APIC_IPI_TLB_SHOOTDOWN_SPIN_LIMIT (moves :: sch) m = (tt, sch, fold_left (fun m x => step x m) moves m).
Proof.
  assert (E : APIC_IPI_TLB_SHOOTDOWN_SPIN_LIMIT = S (Z.to_nat 999999)) by (unfold APIC_IPI_TLB_SHOOTDOWN_SPIN_LIMIT; lia).
  rewrite E. intros Hp. cbn [wait]. unfold mbind, code_bind, access. by rewrite Hp.
Qed.

Lemma late_acknowledgement_counts :
  exists m c, unmap_all (fun _ => 0) [0x5000; 0x6000] late_schedule one_other = (tt, [], m) /\
    timeout_count m = 1 /\ others m = [c] /\ 6 ∈ cached c.
Proof.
  eexists _, (mkCpu true true true Outside (paging_invlpg 0x5000 {[5; 6]})). split.
  - cbn [unmap_all]. unfold mbind, code_bind, late_schedule.
    erewrite (unmap_run _ 0x5000); [|done|apply late_first_announced|by apply wait_idle].
    change (with_own _ _) with late_middle. unfold late_second.
    erewrite (unmap_run _ 0x6000); [reflexivity|done|apply late_second_announced|by apply wait_sees].
  - split; [done|]. split; [done|]. cbn [cached]. unfold paging_invlpg. vm_compute page_of. set_solver.
Qed.

End Shootdown.
