(* ===== verification/Framebuffer.v ===== *)
(** * The linear framebuffer: framebuffer.c

    [Fb] has the driver's state, the mapping of the video memory through the
    page tables of [Paging] and the range bitmap of [Vmm], and the drawing
    primitives. A store goes through the translation of its address; one that
    has none is a fault. The theorems show that the mapping reaches the video
    memory and that the primitives paint exactly the clipped shapes. *)

From S2P Require Import Prelude Cpu Pmm BuddyProofs FrameAlloc Paging PagingProofs Vmm VmmProofs.

Module Fb.

Record color_t := mkColor { r : Z; g : Z; b : Z; a : Z }.

Record framebuffer_info_t := mkInfo {
  buffer : Z;
  physical_addr : Z;
  width : Z;
  height : Z;
  pitch : Z;
  bpp : Z;
  red_pos : Z;
  red_mask : Z;
  green_pos : Z;
  green_mask : Z;
  blue_pos : Z;
  blue_mask : Z;
  initialized : bool }.

(** The fields of [MultibootInfo_t] that the driver reads. *)
Record multiboot := mkMultiboot {
  flags : Z;
  framebuffer_addr : Z;
  framebuffer_pitch : Z;
  framebuffer_width : Z;
  framebuffer_height : Z;
  framebuffer_bpp : Z;
  framebuffer_type : Z;
  framebuffer_red_field_position : Z;
  framebuffer_red_mask_size : Z;
  framebuffer_green_field_position : Z;
  framebuffer_green_mask_size : Z;
  framebuffer_blue_field_position : Z;
  framebuffer_blue_mask_size : Z }.

(** [vram] holds the words of the video memory by physical address. *)
Record state (A : Type) := mkState { fb_info : framebuffer_info_t; space : vmm A; vram : zmap }.
Arguments mkState {A}.
Arguments fb_info {A}.
Arguments space {A}.
Arguments vram {A}.

Section operations.
Context {A : Type} `{FrameAllocator A}.

(** The virtual address of [framebuffer_page_table]. *)
Context (framebuffer_page_table : Z).
Abbreviation state := (state A).

Definition with_vram (v : zmap) (s : state) : state := mkState (fb_info s) (space s) v.

(** ** Mapping *)

(** The entry of page [i], after the loop that clears the table. *)
Definition fb_pte (page_phys : Z) : PageTableEntry := mkPte 1 1 0 1 0 0 0 0 0 0 (Z.shiftr page_phys 12).

(** [for (i = 0; i < num_pages && i < 1024; i++)] *)
Fixpoint map_loop (count : nat) (i phys_addr : Z) (p : paging A) : paging A :=
  match count with
  | O => p
  | S count => map_loop count (i + 1) phys_addr (put_pte framebuffer_page_table i (fb_pte (phys_addr ⊞ (i ⊠ 0x1000))) p)
  end.

(** The fields of the directory entry that the code does not assign stay. *)
Definition fb_pde (pt_phys : Z) (e : PageDirectoryEntry) : PageDirectoryEntry :=
  mkPde 1 1 0 1 0 (pde_accessed e) (pde_reserved_zero e) 0 (pde_ignored e) (pde_available e) (Z.shiftr pt_phys 12).

(** NULL is 0; the result of the reservation is not looked at. *)
Definition map_framebuffer (phys_addr size : Z) (s : vmm A) : option (Z * vmm A) :=
  let num_pages := (size ⊞ 0xFFF) / 0x1000 in
  let virt_addr := 0xE0000000 in
  let pd_index := Z.shiftr virt_addr 22 in
  if negb (active (pages s)) then Some (0, s)
  else
    let p := with_mem (fun m => zero_words m framebuffer_page_table 1024) (pages s) in
    let p := map_loop (Z.to_nat (Z.min num_pages 1024)) 0 phys_addr p in
    let pt_phys := framebuffer_page_table ⊟ 0xC0000000 in
    let p := with_pde pd_index (fb_pde pt_phys (get_pde pd_index p)) p in
    '(_, s) ← kernel_vmm_reserve_at virt_addr num_pages (with_pages p s);
    Some (virt_addr, s).

Definition mask_or_8 (size : Z) : Z := if size =? 0 then 8 else size.

Definition framebuffer_init (multiboot_info : option multiboot) (s : state) : option (bool * state) :=
  if initialized (fb_info s) then Some (true, s)
  else
    match multiboot_info with
    | None => Some (false, s)
    | Some mb =>
      if Z.land (flags mb) (Z.shiftl 1 12) =? 0 then Some (false, s)
      else if negb (framebuffer_type mb =? 1) then Some (false, s)
      else if negb (framebuffer_bpp mb =? 32) then Some (false, s)
      else
        let info buf ok := mkInfo buf (u32 (framebuffer_addr mb)) (framebuffer_width mb) (framebuffer_height mb)
          (framebuffer_pitch mb) (framebuffer_bpp mb)
          (framebuffer_red_field_position mb) (mask_or_8 (framebuffer_red_mask_size mb))
          (framebuffer_green_field_position mb) (mask_or_8 (framebuffer_green_mask_size mb))
          (framebuffer_blue_field_position mb) (mask_or_8 (framebuffer_blue_mask_size mb)) ok in
        let fb_size := framebuffer_pitch mb ⊠ framebuffer_height mb in
        '(buf, sp) ← map_framebuffer (u32 (framebuffer_addr mb)) fb_size (space s);
        if buf =? 0 then Some (false, mkState (info buf false) sp (vram s))
        else Some (true, mkState (info buf true) sp (vram s))
    end.

(** ** Pixels *)

(** [fb_info.buffer[index]] *)
Definition store_pixel (index pixel : Z) (s : state) : option state :=
  p ← paging_get_physical_address (buffer (fb_info s) ⊞ (4 ⊠ index)) (pages (space s));
  Some (with_vram (<[p := pixel]> (vram s)) s).

Definition load_pixel (index : Z) (s : state) : option Z :=
  p ← paging_get_physical_address (buffer (fb_info s) ⊞ (4 ⊠ index)) (pages (space s));
  Some (zget (vram s) p).

Definition framebuffer_color_to_pixel (color : color_t) (s : state) : Z :=
  let i := fb_info s in
  if negb (initialized i) then 0
  else Z.lor (Z.lor (shl32 (r color) (red_pos i)) (shl32 (g color) (green_pos i))) (shl32 (b color) (blue_pos i)).

Definition row (y : Z) (s : state) : Z := y ⊠ (pitch (fb_info s) / 4).

Definition framebuffer_put_pixel (x y : Z) (color : color_t) (s : state) : option state :=
  let i := fb_info s in
  if negb (initialized i) then Some s
  else if (width i <=? x) || (height i <=? y) then Some s
  else store_pixel (row y s ⊞ x) (framebuffer_color_to_pixel color s) s.

(** [(pixel >> pos) & ((1 << size) - 1)], kept in a byte. *)
Definition field (pixel pos size : Z) : Z := u8 (Z.land (Z.shiftr pixel pos) (shl32 1 size ⊟ 1)).

Definition framebuffer_get_pixel (x y : Z) (s : state) : option color_t :=
  let i := fb_info s in
  if negb (initialized i) then Some (mkColor 0 0 0 255)
  else if (width i <=? x) || (height i <=? y) then Some (mkColor 0 0 0 255)
  else
    pixel ← load_pixel (row y s ⊞ x) s;
    Some (mkColor (field pixel (red_pos i) (red_mask i)) (field pixel (green_pos i) (green_mask i))
                  (field pixel (blue_pos i) (blue_mask i)) 255).

(** ** Shapes *)

(** [for (...; count times; ...) buffer[index] = pixel, index += stride] *)
Fixpoint run (count : nat) (index stride pixel : Z) (s : state) : option state :=
  match count with
  | O => Some s
  | S count => s ← store_pixel index pixel s; run count (index ⊞ stride) stride pixel s
  end.

(** A loop [for (i = from; i <= to; i++)] that does not end is [None]. *)
Definition inclusive (from to : Z) : option nat :=
  if to <? from then Some O else if to =? 0xFFFFFFFF then None else Some (Z.to_nat (to - from + 1)).

Definition framebuffer_clear (color : color_t) (s : state) : option state :=
  let i := fb_info s in
  if negb (initialized i) then Some s
  else run (Z.to_nat (width i ⊠ height i)) 0 1 (framebuffer_color_to_pixel color s) s.

Definition framebuffer_draw_hline (x1 x2 y : Z) (color : color_t) (s : state) : option state :=
  let i := fb_info s in
  if negb (initialized i) then Some s
  else
    let '(x1, x2) := if x2 <? x1 then (x2, x1) else (x1, x2) in
    if height i <=? y then Some s
    else
      let x2 := if width i <=? x2 then width i ⊟ 1 else x2 in
      count ← inclusive x1 x2;
      run count (row y s ⊞ x1) 1 (framebuffer_color_to_pixel color s) s.

Definition framebuffer_draw_vline (x y1 y2 : Z) (color : color_t) (s : state) : option state :=
  let i := fb_info s in
  if negb (initialized i) then Some s
  else
    let '(y1, y2) := if y2 <? y1 then (y2, y1) else (y1, y2) in
    if width i <=? x then Some s
    else
      let y2 := if height i <=? y2 then height i ⊟ 1 else y2 in
      count ← inclusive y1 y2;
      run count (row y1 s ⊞ x) (pitch i / 4) (framebuffer_color_to_pixel color s) s.

Definition framebuffer_draw_rect (x y w h : Z) (color : color_t) (s : state) : option state :=
  if negb (initialized (fb_info s)) || (w =? 0) || (h =? 0) then Some s
  else
    s ← framebuffer_draw_hline x ((x ⊞ w) ⊟ 1) y color s;
    s ← framebuffer_draw_hline x ((x ⊞ w) ⊟ 1) ((y ⊞ h) ⊟ 1) color s;
    s ← framebuffer_draw_vline x y ((y ⊞ h) ⊟ 1) color s;
    framebuffer_draw_vline ((x ⊞ w) ⊟ 1) y ((y ⊞ h) ⊟ 1) color s.

(** The rows of a filled rectangle, from row [i] on. *)
Fixpoint fill_rows (count : nat) (i x y w pixel : Z) (s : state) : option state :=
  match count with
  | O => Some s
  | S count => s ← run (Z.to_nat w) (row (y ⊞ i) s ⊞ x) 1 pixel s; fill_rows count (i ⊞ 1) x y w pixel s
  end.

Definition framebuffer_fill_rect (x y w h : Z) (color : color_t) (s : state) : option state :=
  let i := fb_info s in
  if negb (initialized i) || (w =? 0) || (h =? 0) then Some s
  else if (width i <=? x) || (height i <=? y) then Some s
  else
    let w := if width i <? x ⊞ w then width i ⊟ x else w in
    let h := if height i <? y ⊞ h then height i ⊟ y else h in
    fill_rows (Z.to_nat h) 0 x y w (framebuffer_color_to_pixel color s) s.

(** ** What a primitive draws *)

Definition stride (i : framebuffer_info_t) : Z := pitch i / 4.
Definition on (i : framebuffer_info_t) (x y : Z) : Prop := (0 <= x < width i) /\ (0 <= y < height i).

(** The physical address of a pixel. *)
Definition cell (i : framebuffer_info_t) (x y : Z) : Z := physical_addr i + 4 * (y * stride i + x).

(** The driver can draw: the whole screen is mapped. *)
Record ready (s : state) : Prop := {
  r_init : initialized (fb_info s) = true;
  r_width : 0 < width (fb_info s) <= stride (fb_info s);
  r_height : 0 < height (fb_info s);
  r_fits : 4 * (height (fb_info s) * stride (fb_info s)) <= 0x400000;
  r_buffer : buffer (fb_info s) = 0xE0000000;
  r_maps off : 0 <= off < 4 * (height (fb_info s) * stride (fb_info s)) ->
    paging_get_physical_address (0xE0000000 + off) (pages (space s)) = Some (physical_addr (fb_info s) + off) }.

(** The pixels of [cov] have been set to [pixel], and nothing else changed. *)
Record drawn (s s' : state) (cov : Z -> Z -> bool) (pixel : Z) : Prop := {
  d_info : fb_info s' = fb_info s;
  d_space : space s' = space s;
  d_cells x y : on (fb_info s) x y ->
    zget (vram s') (cell (fb_info s) x y) = if cov x y then pixel else zget (vram s) (cell (fb_info s) x y);
  d_rest p : (forall x y, on (fb_info s) x y -> p <> cell (fb_info s) x y) -> zget (vram s') p = zget (vram s) p }.

Lemma drawn_nothing s cov pixel : (forall x y, on (fb_info s) x y -> cov x y = false) -> drawn s s cov pixel.
Proof. intros Hc. split; try done. intros x y Hon. by rewrite Hc. Qed.

Lemma drawn_ext s s' c c' pixel : drawn s s' c pixel -> (forall x y, on (fb_info s) x y -> c x y = c' x y) -> drawn s s' c' pixel.
Proof. intros [] Hc. split; try done. intros x y Hon. rewrite <- Hc by done. by apply d_cells0. Qed.

Lemma drawn_trans s s1 s2 c c' pixel :
  drawn s s1 c pixel -> drawn s1 s2 c' pixel -> drawn s s2 (fun x y => c x y || c' x y) pixel.
Proof.
  intros [] []. rewrite d_info0 in *. split; [congruence|congruence| |].
  - intros x y Hon. rewrite d_cells1, d_cells0 by done. by destruct (c x y), (c' x y).
  - intros p Hp. rewrite d_rest1 by done. by apply d_rest0.
Qed.

Lemma ready_drawn s s' c pixel : ready s -> drawn s s' c pixel -> ready s'.
Proof. intros [] []. split; rewrite ?d_info0, ?d_space0; done. Qed.

Lemma cell_inj i x y x' y' : width i <= stride i -> on i x y -> on i x' y' -> cell i x y = cell i x' y' -> x = x' /\ y = y'.
Proof. intros Hw [Hx Hy] [Hx' Hy'] E. unfold cell in E. assert (y = y') by nia. split; [subst; lia|done]. Qed.

Lemma index_range s x y : ready s -> on (fb_info s) x y ->
  0 <= y * stride (fb_info s) + x < height (fb_info s) * stride (fb_info s).
Proof. intros [] [Hx Hy]. nia. Qed.

(** One store, and that it stays within the words of the screen. *)
Lemma store_drawn s x y pixel :
  ready s -> on (fb_info s) x y ->
  exists s', store_pixel (y * stride (fb_info s) + x) pixel s = Some s' /\ drawn s s' (fun px py => (px =? x) && (py =? y)) pixel.
Proof.
  intros Hr Hon. pose proof (index_range s x y Hr Hon) as Hi. pose proof Hr as []. unfold store_pixel.
  rewrite r_buffer0, mul32_small, add32_small, r_maps0 by lia. cbn [mbind option_bind]. eexists. split; [reflexivity|].
  change (physical_addr (fb_info s) + 4 * (y * stride (fb_info s) + x)) with (cell (fb_info s) x y). split; try done; cbn [vram with_vram].
  - intros px py Hp. destruct (Z.eqb_spec px x) as [->|Hx]; cbn [andb].
    + destruct (Z.eqb_spec py y) as [->|Hy]; [by rewrite zget_insert_eq|]. rewrite zget_insert_ne; [done|].
      intros E. destruct (cell_inj (fb_info s) _ _ _ _ ltac:(lia) Hon Hp E). done.
    + rewrite zget_insert_ne; [done|]. intros E. destruct (cell_inj (fb_info s) _ _ _ _ ltac:(lia) Hon Hp E). done.
  - intros p Hp. rewrite zget_insert_ne; [done|]. intros E. by apply (Hp x y Hon).
Qed.

Lemma run_drawn dx dy pixel count : forall s x y,
  ready s -> (dx = 1 /\ dy = 0) \/ (dx = 0 /\ dy = 1) ->
  (count <> O -> on (fb_info s) x y /\ on (fb_info s) (x + dx * (Z.of_nat count - 1)) (y + dy * (Z.of_nat count - 1))) ->
  exists s', run count (y * stride (fb_info s) + x) (dy * stride (fb_info s) + dx) pixel s = Some s' /\
    drawn s s' (fun px py => (x <=? px) && (px <=? x + dx * (Z.of_nat count - 1)) && (y <=? py) && (py <=? y + dy * (Z.of_nat count - 1))
                             && negb (Nat.eqb count 0)) pixel.
Proof.
  induction count as [|count IH]; intros s x y Hr Hd Hon; cbn [run].
  { exists s. split; [done|]. apply drawn_nothing. intros px py _. by rewrite andb_false_r. }
  destruct (Hon ltac:(done)) as [H1 H2]. destruct (store_drawn s x y pixel Hr H1) as (s1 & E & Hdr). rewrite E. cbn [mbind option_bind].
  pose proof (index_range s x y Hr H1) as Hi. pose proof (r_width s Hr). pose proof (r_fits s Hr). pose proof (r_height s Hr).
  assert (Hst : dy * stride (fb_info s) + dx <= 0x200000) by nia.
  rewrite add32_small by (destruct Hd as [[-> ->]|[-> ->]]; lia).
  replace (y * stride (fb_info s) + x + (dy * stride (fb_info s) + dx)) with ((y + dy) * stride (fb_info s) + (x + dx)) by lia.
  rewrite <- (d_info _ _ _ _ Hdr). destruct (IH s1 (x + dx) (y + dy)) as (s2 & E2 & Hdr2); [by eapply ready_drawn|done| |].
  - intros Hc. rewrite (d_info _ _ _ _ Hdr). unfold on in *. destruct Hd as [[-> ->]|[-> ->]]; lia.
  - exists s2. split; [done|]. eapply drawn_ext; [by eapply drawn_trans|]. intros px py _. cbv beta.
    destruct count as [|count]; [rewrite andb_false_r, orb_false_r|cbn [Nat.eqb negb]; rewrite !andb_true_r];
    apply eq_true_iff_eq; rewrite ?orb_true_iff, ?andb_true_iff, ?Z.eqb_eq, ?Z.leb_le; destruct Hd as [[-> ->]|[-> ->]]; cbn; lia.
Qed.

Lemma row_index s x y : ready s -> on (fb_info s) x y -> row y s ⊞ x = y * stride (fb_info s) + x.
Proof.
  intros Hr Hon. pose proof (index_range s x y Hr Hon). pose proof (r_fits s Hr). pose proof (r_width s Hr). destruct Hon as [Hx Hy].
  unfold row, stride in *. rewrite mul32_small, add32_small by nia. done.
Qed.

(** A horizontal run of [n] pixels, and a vertical one. *)
Lemma hrun_drawn s x y n pixel :
  ready s -> 0 <= n -> 0 <= x -> x + n <= width (fb_info s) -> 0 <= y < height (fb_info s) ->
  exists s', run (Z.to_nat n) (row y s ⊞ x) 1 pixel s = Some s' /\
    drawn s s' (fun px py => (py =? y) && (x <=? px) && (px <? x + n)) pixel.
Proof.
  intros Hr Hn Hx Hw Hy. destruct (decide (n = 0)) as [->|].
  { exists s. split; [done|]. apply drawn_nothing. intros px py _. destruct (Z.leb_spec x px), (Z.ltb_spec px (x + 0)); rewrite ?andb_false_r; (done || lia). }
  destruct (run_drawn 1 0 pixel (Z.to_nat n) s x y Hr) as (s' & E & Hd); [by left|intros _; unfold on; lia|].
  exists s'. rewrite row_index by (unfold on; (done || lia)). split; [exact E|]. eapply drawn_ext; [done|]. intros px py _. cbv beta.
  apply eq_true_iff_eq. rewrite !andb_true_iff, negb_true_iff, Nat.eqb_neq, Z.eqb_eq, !Z.leb_le, Z.ltb_lt. lia.
Qed.

Lemma vrun_drawn s x y n pixel :
  ready s -> 0 <= n -> 0 <= y -> y + n <= height (fb_info s) -> 0 <= x < width (fb_info s) -> 0 < n ->
  exists s', run (Z.to_nat n) (row y s ⊞ x) (pitch (fb_info s) / 4) pixel s = Some s' /\
    drawn s s' (fun px py => (px =? x) && (y <=? py) && (py <? y + n)) pixel.
Proof.
  intros Hr Hn Hy Hh Hx H0.
  destruct (run_drawn 0 1 pixel (Z.to_nat n) s x y Hr) as (s' & E & Hd); [by right|intros _; unfold on; lia|].
  exists s'. rewrite row_index by (unfold on; (done || lia)). split.
  - rewrite <- E. f_equal. unfold stride. lia.
  - eapply drawn_ext; [done|]. intros px py _. cbv beta.
    apply eq_true_iff_eq. rewrite !andb_true_iff, negb_true_iff, Nat.eqb_neq, Z.eqb_eq, !Z.leb_le, Z.ltb_lt. lia.
Qed.

(** Clipping a run to the screen. *)
Lemma inclusive_clip lo hi limit :
  in32 lo -> lo <= hi < 2 ^ 32 -> 0 < limit < 2 ^ 32 ->
  inclusive lo (if limit <=? hi then limit ⊟ 1 else hi) = Some (Z.to_nat (Z.max 0 (Z.min (hi + 1) limit - lo))).
Proof.
  intros Hlo Hhi Hl. unfold inclusive. rewrite sub32_small by lia.
  destruct (Z.leb_spec limit hi); repeat (case_match; try lia); f_equal; lia.
Qed.

Lemma sorted_pair x y : (if y <? x then (y, x) else (x, y)) = (Z.min x y, Z.max x y).
Proof. destruct (Z.ltb_spec y x); f_equal; lia. Qed.

Lemma hline_drawn s x1 x2 y c :
  ready s -> in32 x1 -> in32 x2 -> 0 <= y ->
  exists s', framebuffer_draw_hline x1 x2 y c s = Some s' /\
    drawn s s' (fun px py => (py =? y) && (Z.min x1 x2 <=? px) && (px <=? Z.max x1 x2)) (framebuffer_color_to_pixel c s).
Proof.
  intros Hr H1 H2 Hy. pose proof (r_width s Hr). pose proof (r_height s Hr). pose proof (r_fits s Hr). unfold framebuffer_draw_hline. rewrite (r_init s Hr), sorted_pair. cbn [negb].
  destruct (Z.leb_spec (height (fb_info s)) y).
  { exists s. split; [done|]. apply drawn_nothing. intros px py [_ Hpy]. by rewrite (proj2 (Z.eqb_neq py y)) by lia. }
  rewrite inclusive_clip by nia. cbn [mbind option_bind].
  destruct (decide (Z.min x1 x2 < width (fb_info s))).
  - destruct (hrun_drawn s (Z.min x1 x2) y (Z.max 0 (Z.min (Z.max x1 x2 + 1) (width (fb_info s)) - Z.min x1 x2)) (framebuffer_color_to_pixel c s))
      as (s' & E & Hd); [done|lia|lia|lia|lia|]. exists s'. split; [exact E|]. eapply drawn_ext; [done|]. intros px py [Hpx _]. cbv beta.
    apply eq_true_iff_eq. rewrite !andb_true_iff, Z.eqb_eq, !Z.leb_le, Z.ltb_lt. lia.
  - replace (Z.max 0 _) with 0 by lia. exists s. split; [done|]. apply drawn_nothing. intros px py [Hpx _].
    rewrite (proj2 (Z.leb_gt (Z.min x1 x2) px)), andb_false_r by lia. done.
Qed.

Lemma vline_drawn s x y1 y2 c :
  ready s -> in32 y1 -> in32 y2 -> 0 <= x ->
  exists s', framebuffer_draw_vline x y1 y2 c s = Some s' /\
    drawn s s' (fun px py => (px =? x) && (Z.min y1 y2 <=? py) && (py <=? Z.max y1 y2)) (framebuffer_color_to_pixel c s).
Proof.
  intros Hr H1 H2 Hx. pose proof (r_width s Hr). pose proof (r_height s Hr). pose proof (r_fits s Hr). unfold framebuffer_draw_vline. rewrite (r_init s Hr), sorted_pair. cbn [negb].
  destruct (Z.leb_spec (width (fb_info s)) x).
  { exists s. split; [done|]. apply drawn_nothing. intros px py [Hpx _]. by rewrite (proj2 (Z.eqb_neq px x)) by lia. }
  rewrite inclusive_clip by nia. cbn [mbind option_bind].
  destruct (decide (Z.min y1 y2 < height (fb_info s))).
  - destruct (vrun_drawn s x (Z.min y1 y2) (Z.max 0 (Z.min (Z.max y1 y2 + 1) (height (fb_info s)) - Z.min y1 y2)) (framebuffer_color_to_pixel c s))
      as (s' & E & Hd); [done|lia|lia|lia|lia|lia|]. exists s'. split; [exact E|]. eapply drawn_ext; [done|]. intros px py [_ Hpy]. cbv beta.
    apply eq_true_iff_eq. rewrite !andb_true_iff, Z.eqb_eq, !Z.leb_le, Z.ltb_lt. lia.
  - replace (Z.max 0 _) with 0 by lia. exists s. split; [done|]. apply drawn_nothing. intros px py [_ Hpy].
    rewrite (proj2 (Z.leb_gt (Z.min y1 y2) py)), andb_false_r by lia. done.
Qed.

Lemma pixel_drawn s s' cov pixel c : drawn s s' cov pixel -> framebuffer_color_to_pixel c s' = framebuffer_color_to_pixel c s.
Proof. intros []. unfold framebuffer_color_to_pixel. by rewrite d_info0. Qed.

Lemma rect_drawn s x y w h c :
  ready s -> 0 <= x -> 0 <= y -> 0 <= w -> 0 <= h -> x + w <= 2 ^ 32 -> y + h <= 2 ^ 32 ->
  exists s', framebuffer_draw_rect x y w h c s = Some s' /\
    drawn s s' (fun px py => (x <=? px) && (px <? x + w) && (y <=? py) && (py <? y + h) &&
                             ((px =? x) || (px =? x + w - 1) || (py =? y) || (py =? y + h - 1))) (framebuffer_color_to_pixel c s).
Proof.
  intros Hr Hx Hy Hw Hh Hxw Hyh. unfold framebuffer_draw_rect. rewrite (r_init s Hr). cbn [negb orb].
  destruct (decide (w = 0 \/ h = 0)) as [Hz|Hnz].
  { exists s. split; [destruct Hz as [-> | ->]; [done|by rewrite orb_true_r]|]. apply drawn_nothing. intros px py _.
    apply not_true_iff_false. rewrite !andb_true_iff, !Z.leb_le, !Z.ltb_lt. lia. }
  rewrite (proj2 (Z.eqb_neq w 0)), (proj2 (Z.eqb_neq h 0)) by lia. cbn [orb].
  assert (Ex : (x ⊞ w) ⊟ 1 = x + w - 1) by (unfold sub32, add32; rewrite <- Z.add_opp_r, u32_add_l, Z.add_opp_r; apply u32_small; lia).
  assert (Ey : (y ⊞ h) ⊟ 1 = y + h - 1) by (unfold sub32, add32; rewrite <- Z.add_opp_r, u32_add_l, Z.add_opp_r; apply u32_small; lia).
  rewrite Ex, Ey.
  destruct (hline_drawn s x (x + w - 1) y c Hr) as (s1 & -> & D1); [lia..|]. cbn [mbind option_bind]. pose proof (ready_drawn _ _ _ _ Hr D1) as R1.
  destruct (hline_drawn s1 x (x + w - 1) (y + h - 1) c R1) as (s2 & -> & D2); [lia..|]. cbn [mbind option_bind]. pose proof (ready_drawn _ _ _ _ R1 D2) as R2.
  destruct (vline_drawn s2 x y (y + h - 1) c R2) as (s3 & -> & D3); [lia..|]. cbn [mbind option_bind]. pose proof (ready_drawn _ _ _ _ R2 D3) as R3.
  destruct (vline_drawn s3 (x + w - 1) y (y + h - 1) c R3) as (s4 & -> & D4); [lia..|].
  rewrite (pixel_drawn _ _ _ _ _ D3), (pixel_drawn _ _ _ _ _ D2), (pixel_drawn _ _ _ _ _ D1) in D4.
  rewrite (pixel_drawn _ _ _ _ _ D2), (pixel_drawn _ _ _ _ _ D1) in D3. rewrite (pixel_drawn _ _ _ _ _ D1) in D2.
  exists s4. split; [done|]. eapply drawn_ext; [exact (drawn_trans _ _ _ _ _ _ (drawn_trans _ _ _ _ _ _ (drawn_trans _ _ _ _ _ _ D1 D2) D3) D4)|].
  intros px py _. cbv beta. apply eq_true_iff_eq. rewrite !orb_true_iff, !andb_true_iff, !orb_true_iff, !Z.eqb_eq, !Z.leb_le, !Z.ltb_lt. lia.
Qed.

Lemma fill_rows_drawn x y w pixel count : forall s i,
  ready s -> 0 <= i -> 0 <= x -> 0 <= y -> 0 <= w -> x + w <= width (fb_info s) -> y + i + Z.of_nat count <= height (fb_info s) ->
  exists s', fill_rows count i x y w pixel s = Some s' /\
    drawn s s' (fun px py => (x <=? px) && (px <? x + w) && (y + i <=? py) && (py <? y + i + Z.of_nat count)) pixel.
Proof.
  induction count as [|count IH]; intros s i Hr Hi Hx Hy Hw Hxw Hyh; cbn [fill_rows].
  { exists s. split; [done|]. apply drawn_nothing. intros px py _. apply not_true_iff_false. rewrite !andb_true_iff, !Z.leb_le, !Z.ltb_lt. lia. }
  pose proof (r_fits s Hr). pose proof (r_width s Hr). pose proof (r_height s Hr). assert (height (fb_info s) < 2 ^ 31) by nia.
  rewrite (add32_small y i), (add32_small i 1) by lia.
  destruct (hrun_drawn s x (y + i) w pixel) as (s1 & -> & D1); [done|lia..|]. cbn [mbind option_bind].
  destruct (IH s1 (i + 1)) as (s2 & -> & D2); [by eapply ready_drawn|lia..|rewrite (d_info _ _ _ _ D1); lia|rewrite (d_info _ _ _ _ D1); lia|].
  exists s2. split; [done|]. eapply drawn_ext; [by eapply drawn_trans|]. intros px py _. cbv beta.
  apply eq_true_iff_eq. rewrite !orb_true_iff, !andb_true_iff, !Z.eqb_eq, !Z.leb_le, !Z.ltb_lt. lia.
Qed.

Lemma fill_drawn s x y w h c :
  ready s -> 0 <= x -> 0 <= y -> 0 <= w -> 0 <= h -> x + w < 2 ^ 32 -> y + h < 2 ^ 32 ->
  exists s', framebuffer_fill_rect x y w h c s = Some s' /\
    drawn s s' (fun px py => (x <=? px) && (px <? x + w) && (y <=? py) && (py <? y + h)) (framebuffer_color_to_pixel c s).
Proof.
  intros Hr Hx Hy Hw Hh Hxw Hyh. pose proof (r_fits s Hr). pose proof (r_width s Hr). pose proof (r_height s Hr).
  assert (height (fb_info s) < 2 ^ 31) by nia. assert (width (fb_info s) < 2 ^ 31) by nia.
  unfold framebuffer_fill_rect. rewrite (r_init s Hr). cbn [negb orb].
  destruct (decide (w = 0 \/ h = 0 \/ width (fb_info s) <= x \/ height (fb_info s) <= y)) as [Hz|Hnz].
  { exists s. split.
    - destruct (Z.eqb_spec w 0), (Z.eqb_spec h 0), (Z.leb_spec (width (fb_info s)) x), (Z.leb_spec (height (fb_info s)) y); (done || lia).
    - apply drawn_nothing. intros px py [Hpx Hpy]. apply not_true_iff_false. rewrite !andb_true_iff, !Z.leb_le, !Z.ltb_lt. lia. }
  rewrite (proj2 (Z.eqb_neq w 0)), (proj2 (Z.eqb_neq h 0)), (proj2 (Z.leb_gt (width _) x)), (proj2 (Z.leb_gt (height _) y)) by lia. cbn [orb].
  rewrite !add32_small, !sub32_small by lia.
  set (w' := if width (fb_info s) <? x + w then width (fb_info s) - x else w).
  set (h' := if height (fb_info s) <? y + h then height (fb_info s) - y else h).
  assert (Ew : w' = Z.min w (width (fb_info s) - x)) by (unfold w'; case_match; lia).
  assert (Eh : h' = Z.min h (height (fb_info s) - y)) by (unfold h'; case_match; lia).
  destruct (fill_rows_drawn x y w' (framebuffer_color_to_pixel c s) (Z.to_nat h') s 0) as (s1 & -> & D1); [done|lia..|].
  exists s1. split; [done|]. eapply drawn_ext; [done|]. intros px py [Hpx Hpy]. cbv beta.
  apply eq_true_iff_eq. rewrite !andb_true_iff, !Z.leb_le, !Z.ltb_lt. lia.
Qed.

(** *** The words of the rows

    A row may be longer than the screen is wide: the words behind its pixels
    are padding. *)
Definition inside (i : framebuffer_info_t) (x y : Z) : Prop := (0 <= x < stride i) /\ (0 <= y < height i).

(** As [drawn], for all words of the rows. *)
Record painted (s s' : state) (cov : Z -> Z -> bool) (pixel : Z) : Prop := {
  p_info : fb_info s' = fb_info s;
  p_space : space s' = space s;
  p_words x y : inside (fb_info s) x y ->
    zget (vram s') (cell (fb_info s) x y) = if cov x y then pixel else zget (vram s) (cell (fb_info s) x y);
  p_rest p : (forall x y, inside (fb_info s) x y -> p <> cell (fb_info s) x y) -> zget (vram s') p = zget (vram s) p }.

Lemma ready_painted s s' c pixel : ready s -> painted s s' c pixel -> ready s'.
Proof. intros [] []. split; rewrite ?p_info0, ?p_space0; done. Qed.

Lemma word_inj i x y x' y' : inside i x y -> inside i x' y' -> cell i x y = cell i x' y' -> x = x' /\ y = y'.
Proof. intros [Hx Hy] [Hx' Hy'] E. unfold cell in E. assert (y = y') by nia. split; [subst; lia|done]. Qed.

(** What draws on the screen leaves the padding alone. *)
Lemma drawn_painted s s' cov pixel : ready s -> drawn s s' cov pixel -> painted s s' (fun x y => (x <? width (fb_info s)) && cov x y) pixel.
Proof.
  intros Hr [Hi Hs Hc Hrest]. pose proof (r_width s Hr). split; [done|done| |].
  - intros x y Hin. destruct (Z.ltb_spec x (width (fb_info s))); cbn [andb]; [apply Hc; split; [destruct Hin; lia|apply Hin]|].
    apply Hrest. intros px py [Hpx Hpy] E. destruct (word_inj _ _ _ px py Hin) as [-> _]; [split; lia|done|lia].
  - intros p Hp. apply Hrest. intros x y [Hx Hy]. apply Hp. split; lia.
Qed.

(** Consecutive words from an index on. *)
Lemma run_painted pixel count : forall s index,
  ready s -> 0 <= index -> index + Z.of_nat count <= height (fb_info s) * stride (fb_info s) ->
  exists s', run count index 1 pixel s = Some s' /\
    painted s s' (fun x y => (index <=? y * stride (fb_info s) + x) && (y * stride (fb_info s) + x <? index + Z.of_nat count)) pixel.
Proof.
  induction count as [|count IH]; intros s index Hr Hi Hn; pose proof Hr as []; cbn [run].
  { exists s. split; [done|]. split; try done. intros x y _.
    destruct (Z.leb_spec index (y * stride (fb_info s) + x)), (Z.ltb_spec (y * stride (fb_info s) + x) (index + Z.of_nat 0)); done || lia. }
  unfold store_pixel. rewrite r_buffer0, mul32_small, (add32_small 0xE0000000), r_maps0 by lia. cbn [mbind option_bind]. rewrite add32_small by lia.
  match goal with |- context [run count (index + 1) 1 pixel ?s1] => destruct (IH s1 (index + 1)) as (s' & -> & [Pi Ps Pw Pr]) end; [by split|lia|cbn [fb_info with_vram]; lia|].
  cbn [fb_info space vram with_vram] in *. exists s'. split; [done|]. split; [done|done| |].
  - intros x y Hin. rewrite Pw by done. unfold cell. destruct (Z.leb_spec (index + 1) (y * stride (fb_info s) + x)),
      (Z.ltb_spec (y * stride (fb_info s) + x) (index + 1 + Z.of_nat count)), (Z.leb_spec index (y * stride (fb_info s) + x)),
      (Z.ltb_spec (y * stride (fb_info s) + x) (index + Z.of_nat (S count))); cbn [andb]; try lia; try done;
      [rewrite zget_insert_ne by lia; done..| |rewrite zget_insert_ne by lia; done].
    replace (y * stride (fb_info s) + x) with index by lia. by rewrite zget_insert_eq.
  - intros p Hp. rewrite Pr by done. apply zget_insert_ne. intros E.
    pose proof (Z.div_mod index (stride (fb_info s)) ltac:(lia)). pose proof (Z.mod_pos_bound index (stride (fb_info s)) ltac:(lia)).
    apply (Hp (index mod stride (fb_info s)) (index / stride (fb_info s))); [split; [lia|nia]|]. unfold cell. lia.
Qed.

(** Clearing sets as many words as the screen has pixels, from the first on. *)
Lemma clear_painted s c : ready s ->
  exists s', framebuffer_clear c s = Some s' /\
    painted s s' (fun x y => y * stride (fb_info s) + x <? width (fb_info s) * height (fb_info s)) (framebuffer_color_to_pixel c s).
Proof.
  intros Hr. pose proof (r_width s Hr). pose proof (r_height s Hr). pose proof (r_fits s Hr). unfold framebuffer_clear. rewrite (r_init s Hr), mul32_small by nia.
  destruct (run_painted (framebuffer_color_to_pixel c s) (Z.to_nat (width (fb_info s) * height (fb_info s))) s 0 Hr) as (s' & E & [Pi Ps Pw Pr]); [lia|nia|].
  exists s'. split; [exact E|]. split; [done|done| |done]. intros x y Hin. rewrite Pw by done. destruct Hin as [Hx Hy].
  rewrite (proj2 (Z.leb_le 0 _)), Z.add_0_l, Z2Nat.id by nia. done.
Qed.

(** With padding, the words that are cleared end before the screen does. *)
Lemma clear_stops_early s s' c x y :
  ready s -> framebuffer_clear c s = Some s' -> on (fb_info s) x y -> width (fb_info s) * height (fb_info s) <= y * stride (fb_info s) + x ->
  zget (vram s') (cell (fb_info s) x y) = zget (vram s) (cell (fb_info s) x y).
Proof.
  intros Hr E [Hx Hy] Hxy. pose proof (r_width s Hr). destruct (clear_painted s c Hr) as (s1 & E1 & P). rewrite E in E1. injection E1 as <-.
  rewrite (p_words _ _ _ _ P) by (split; lia). by rewrite (proj2 (Z.ltb_ge _ _)).
Qed.

(** ** Programs that draw *)

Inductive op :=
  | Clear (c : color_t)
  | Put_pixel (x y : Z) (c : color_t)
  | Draw_hline (x1 x2 y : Z) (c : color_t)
  | Draw_vline (x y1 y2 : Z) (c : color_t)
  | Draw_rect (x y w h : Z) (c : color_t)
  | Fill_rect (x y w h : Z) (c : color_t).

Definition draw (o : op) : state -> option state :=
  match o with
  | Clear c => framebuffer_clear c
  | Put_pixel x y c => framebuffer_put_pixel x y c
  | Draw_hline x1 x2 y c => framebuffer_draw_hline x1 x2 y c
  | Draw_vline x y1 y2 c => framebuffer_draw_vline x y1 y2 c
  | Draw_rect x y w h c => framebuffer_draw_rect x y w h c
  | Fill_rect x y w h c => framebuffer_fill_rect x y w h c
  end.

Definition draw_all (l : list op) (s : state) : option state := foldl (fun s o => s ≫= draw o) (Some s) l.

(** The shape of an operation, on an unbounded plane; clearing has none of its own. *)
Definition shape (o : op) (px py : Z) : bool :=
  match o with
  | Clear _ => false
  | Put_pixel x y _ => (px =? x) && (py =? y)
  | Draw_hline x1 x2 y _ => (py =? y) && (Z.min x1 x2 <=? px) && (px <=? Z.max x1 x2)
  | Draw_vline x y1 y2 _ => (px =? x) && (Z.min y1 y2 <=? py) && (py <=? Z.max y1 y2)
  | Draw_rect x y w h _ =>
    (x <=? px) && (px <? x + w) && (y <=? py) && (py <? y + h) &&
    ((px =? x) || (px =? x + w - 1) || (py =? y) || (py =? y + h - 1))
  | Fill_rect x y w h _ => (x <=? px) && (px <? x + w) && (y <=? py) && (py <? y + h)
  end.

Definition color_of (o : op) : color_t :=
  match o with
  | Clear c | Put_pixel _ _ c | Draw_hline _ _ _ c | Draw_vline _ _ _ c | Draw_rect _ _ _ _ c | Fill_rect _ _ _ _ c => c
  end.

(** The words an operation sets: its shape clipped to the screen. Clearing sets as
    many words as the screen has pixels, which is the screen when there is no padding. *)
Definition covers (i : framebuffer_info_t) (o : op) (px py : Z) : bool :=
  match o with
  | Clear _ => py * stride i + px <? width i * height i
  | _ => (px <? width i) && shape o px py
  end.

(** The arguments are words, and the far sides of rectangles too. *)
Definition drawable (o : op) : Prop :=
  match o with
  | Clear _ => True
  | Put_pixel x y _ => 0 <= x /\ 0 <= y
  | Draw_hline x1 x2 y _ => in32 x1 /\ in32 x2 /\ 0 <= y
  | Draw_vline x y1 y2 _ => in32 y1 /\ in32 y2 /\ 0 <= x
  | Draw_rect x y w h _ | Fill_rect x y w h _ => 0 <= x /\ 0 <= y /\ 0 <= w /\ 0 <= h /\ x + w < 2 ^ 32 /\ y + h < 2 ^ 32
  end.

Lemma put_pixel_drawn s x y c : ready s -> 0 <= x -> 0 <= y ->
  exists s', framebuffer_put_pixel x y c s = Some s' /\ drawn s s' (fun px py => (px =? x) && (py =? y)) (framebuffer_color_to_pixel c s).
Proof.
  intros Hr H1 H2. unfold framebuffer_put_pixel. rewrite (r_init s Hr). cbn [negb]. destruct (decide (on (fb_info s) x y)) as [Hon|Hoff].
  - pose proof Hon as [Hx Hy]. rewrite (proj2 (Z.leb_gt (width _) x)), (proj2 (Z.leb_gt (height _) y)), row_index by (done || lia). cbn [orb]. by apply store_drawn.
  - exists s. split; [|apply drawn_nothing; intros px py Hp; apply not_true_iff_false; rewrite andb_true_iff, !Z.eqb_eq; by intros [-> ->]].
    destruct (Z.leb_spec (width (fb_info s)) x), (Z.leb_spec (height (fb_info s)) y); try done. destruct Hoff. split; lia.
Qed.

Lemma draw_painted s o : ready s -> drawable o ->
  exists s', draw o s = Some s' /\ painted s s' (covers (fb_info s) o) (framebuffer_color_to_pixel (color_of o) s).
Proof.
  intros Hr Hd.
  assert (Hlift : forall r, (exists s', r = Some s' /\ drawn s s' (shape o) (framebuffer_color_to_pixel (color_of o) s)) ->
    exists s', r = Some s' /\ painted s s' (fun x y => (x <? width (fb_info s)) && shape o x y) (framebuffer_color_to_pixel (color_of o) s)).
  { intros r (s' & E & D). exists s'. split; [done|by apply drawn_painted]. }
  destruct o; cbn [draw shape covers color_of drawable] in *; [by apply clear_painted|apply Hlift..].
  - destruct Hd. by apply put_pixel_drawn.
  - destruct Hd as (? & ? & ?). by apply hline_drawn.
  - destruct Hd as (? & ? & ?). by apply vline_drawn.
  - apply rect_drawn; (done || lia).
  - apply fill_drawn; (done || lia).
Qed.

(** What a program leaves at a word: the colour of the last operation that sets it. *)
Definition paint (s : state) (px py : Z) (old : Z) (l : list op) : Z :=
  foldl (fun v o => if covers (fb_info s) o px py then framebuffer_color_to_pixel (color_of o) s else v) old l.

Lemma draw_all_painted l : forall s s0,
  ready s -> fb_info s = fb_info s0 -> Forall drawable l ->
  exists s', draw_all l s = Some s' /\ fb_info s' = fb_info s0 /\ space s' = space s /\
    (forall x y, inside (fb_info s0) x y -> zget (vram s') (cell (fb_info s0) x y) = paint s0 x y (zget (vram s) (cell (fb_info s0) x y)) l) /\
    (forall p, (forall x y, inside (fb_info s0) x y -> p <> cell (fb_info s0) x y) -> zget (vram s') p = zget (vram s) p).
Proof.
  induction l as [|o l IH]; intros s s0 Hr Ei Hl; [by exists s|]. inversion_clear Hl as [|? ? Ho Hl'].
  destruct (draw_painted s o Hr Ho) as (s1 & E & D). pose proof (p_info _ _ _ _ D) as Ei1.
  destruct (IH s1 s0) as (s' & E' & Hi & Hs & Hc & Hrest); [by eapply ready_painted|congruence|done|].
  exists s'. unfold draw_all in *. cbn [foldl]. cbn [mbind option_bind]. rewrite E. split; [done|]. split; [done|]. split; [rewrite Hs; apply (p_space _ _ _ _ D)|].
  split.
  - intros x y Hon. rewrite Hc by done. unfold paint. cbn [foldl]. f_equal. rewrite <- Ei in *. rewrite (p_words _ _ _ _ D) by done.
    unfold framebuffer_color_to_pixel. by rewrite Ei.
  - intros p Hp. rewrite Hrest by done. apply (p_rest _ _ _ _ D). by rewrite Ei.
Qed.

(** ** The mapping reaches the video memory *)

Lemma shiftr_page x : Z.shiftr x 12 = x / 4096.
Proof. by rewrite Z.shiftr_div_pow2. Qed.

Lemma fb_pte_fits p : in32 p -> fits entry_widths (pte_fields (fb_pte p)).
Proof.
  intros Hp. unfold fits, entry_widths, pte_fields, fb_pte. cbn. repeat (constructor; [lia|]). constructor; [|constructor].
  rewrite shiftr_page. split; [apply Z.div_pos; lia|]. apply Z.div_lt_upper_bound; lia.
Qed.

Lemma fb_pde_fits p e : in32 p -> fits entry_widths (pde_fields e) -> fits entry_widths (pde_fields (fb_pde p e)).
Proof.
  intros Hp Hf. unfold fits, entry_widths, pde_fields, fb_pde in *. cbn.
  repeat (apply Forall2_cons_1 in Hf as [? Hf]). repeat (constructor; [lia|]). constructor; [|constructor].
  rewrite shiftr_page. split; [apply Z.div_pos; lia|]. apply Z.div_lt_upper_bound; lia.
Qed.

Lemma map_loop_entry phys count : forall i p k,
  0 <= i -> 0 <= phys -> phys + 4096 * (i + Z.of_nat count) <= 2 ^ 32 -> i <= k < i + Z.of_nat count ->
  get_pte framebuffer_page_table k (map_loop count i phys p) = fb_pte (phys + 4096 * k).
Proof.
  assert (Hout : forall c i p k, k < i -> get_pte framebuffer_page_table k (map_loop c i phys p) = get_pte framebuffer_page_table k p).
  { induction c as [|c IH]; intros i p k Hk; cbn [map_loop]; [done|]. rewrite IH by lia. unfold get_pte, put_pte, with_mem.
    cbn [frames_state with_frames]. rewrite fa_set_mem_mem, zget_insert_ne by lia. done. }
  induction count as [|count IH]; intros i p k Hi Hp Hb Hk; [lia|]. cbn [map_loop]. rewrite mul32_small, add32_small by lia.
  destruct (decide (k = i)) as [->|]; [|rewrite IH by lia; done]. rewrite Hout by lia. unfold get_pte, put_pte, with_mem.
  cbn [frames_state with_frames]. rewrite fa_set_mem_mem, zget_insert_eq, (Z.mul_comm i). apply pte_roundtrip, fb_pte_fits. lia.
Qed.

Lemma map_loop_directory phys count : forall i p,
  directory (map_loop count i phys p) = directory p /\ active (map_loop count i phys p) = active p.
Proof. induction count as [|count IH]; intros i p; cbn [map_loop]; [done|]. by destruct (IH (i + 1) (put_pte framebuffer_page_table i (fb_pte (phys ⊞ (i ⊠ 0x1000))) p)) as [-> ->]. Qed.

(** The reservation does not fault and leaves the page tables alone. *)
Lemma reserve_total (s : vmm A) n : 0 <= n <= 1024 ->
  exists ok s', kernel_vmm_reserve_at 0xE0000000 n s = Some (ok, s') /\ pages s' = pages s.
Proof.
  intros Hn. unfold kernel_vmm_reserve_at. destruct (_ || _ || _); [by eexists _, _|]. case_match; [by eexists _, _|].
  change ((0xE0000000 ⊟ KERNEL_VMM_DYNAMIC_START) / PAGE_SIZE) with 65536.
  assert (Hc : forall count m i, 0 <= i -> i + Z.of_nat count <= 131072 -> exists r, all_clear m i count = Some r).
  { clear. induction count as [|count IH]; intros m i Hi Hb; cbn [all_clear]; [by eexists|]. unfold in_bitmap. rewrite vmm_page_count.
    destruct (Z.leb_spec 0 i), (Z.ltb_spec i 131072); try lia. cbn [andb]. case_match; [by eexists|]. rewrite add32_small by lia. apply IH; lia. }
  destruct (Hc (Z.to_nat n) (vmm_bitmap s) 65536) as [free ->]; [lia|lia|]. cbn [mbind option_bind]. destruct free; cbn [negb]; [|by eexists _, _].
  destruct (set_range_spec (Z.to_nat n) (vmm_bitmap s) 65536) as (m & -> & _); [lia|rewrite vmm_page_count; lia|]. cbn [mbind option_bind]. by eexists _, _.
Qed.

Lemma fb_indices off : 0 <= off < 0x400000 ->
  PAGE_DIRECTORY_INDEX (0xE0000000 + off) = 896 /\ PAGE_TABLE_INDEX (0xE0000000 + off) = off / 4096.
Proof.
  intros Hoff. pose proof (indices_page (0xE0000000 + off) ltac:(lia)) as H0. pose proof (pt_index_range (0xE0000000 + off)).
  replace (0xE0000000 + off) with (off + 0xE0000 * 4096) in H0 at 1 by lia. rewrite Z.div_add in H0 by lia.
  assert (0 <= off / 4096 < 1024) by (split; [apply Z.div_pos; lia|apply Z.div_lt_upper_bound; lia]). lia.
Qed.

Lemma map_translates phys size s :
  (exists b, 0 <= b < 2 ^ 18 /\ framebuffer_page_table = 0xC0000000 + 4096 * b) ->
  phys mod 4096 = 0 -> 0 <= phys -> phys + 0x400000 <= 2 ^ 32 -> 0 <= size <= 0x400000 -> active (pages s) = true ->
  exists s', map_framebuffer phys size s = Some (0xE0000000, s') /\
    forall off, 0 <= off < size -> paging_get_physical_address (0xE0000000 + off) (pages s') = Some (phys + off).
Proof.
  intros (b & Hb & Hbt) Hal Hp Hp' Hsz Hact. unfold map_framebuffer. rewrite Hact, add32_small by lia. cbn [negb].
  change (Z.shiftr 0xE0000000 22) with 896. set (n := (size + 0xFFF) / 0x1000).
  assert (Hn : 0 <= n <= 1024 /\ size <= 4096 * n).
  { unfold n. pose proof (Z.div_mod (size + 0xFFF) 0x1000 ltac:(lia)). pose proof (Z.mod_pos_bound (size + 0xFFF) 0x1000 ltac:(lia)). lia. }
  rewrite Z.min_l by lia. set (p1 := map_loop _ _ _ _). set (p2 := with_pde _ _ _).
  destruct (reserve_total (with_pages p2 s) n) as (ok & s' & -> & Es); [lia|]. cbn [mbind option_bind]. eexists. split; [done|].
  intros off Hoff. rewrite Es. cbn [pages with_pages]. destruct (fb_indices off) as [Ei Ej]; [lia|].
  unfold paging_get_physical_address. rewrite Ei, Ej.
  assert (Ept : framebuffer_page_table ⊟ 0xC0000000 = 4096 * b) by (rewrite sub32_small by lia; lia).
  assert (Ea : active p2 = true) by (unfold p2, p1; cbn [active with_pde]; by rewrite (proj2 (map_loop_directory _ _ _ _))). rewrite Ea. cbn [negb].
  assert (Epde : get_pde 896 p2 = fb_pde (4096 * b) (get_pde 896 p1)).
  { unfold p2. rewrite Ept, get_with_pde, decide_True by (done || (apply fb_pde_fits; [lia|apply pde_of_word_fits])). done. }
  rewrite Epde. cbn [pde_present fb_pde Z.eqb].
  assert (Et : paging_get_page_table (fb_pde (4096 * b) (get_pde 896 p1)) = framebuffer_page_table).
  { unfold paging_get_page_table, PAGE_FRAME_ADDR. cbn [pde_page_table_base fb_pde]. rewrite shiftr_page, (Z.mul_comm 4096), Z.div_mul by lia.
    destruct (table_entry_addr b 0 Hb ltac:(lia)) as [Hq _]. unfold pmm_phys_to_virt, KERNEL_VIRTUAL_BASE in Hq. rewrite add32_small in Hq by lia. lia. }
  rewrite Et. assert (Hk : 0 <= off / 4096 < n) by (split; [apply Z.div_pos; lia|apply Z.div_lt_upper_bound; lia]).
  change (get_pte framebuffer_page_table (off / 4096) p2) with (get_pte framebuffer_page_table (off / 4096) p1).
  unfold p1. rewrite map_loop_entry by lia. cbn [pte_present fb_pte Z.eqb pte_page_frame_base].
  pose proof (Z.div_mod phys 4096 ltac:(lia)) as Hd. pose proof (Z.div_mod off 4096 ltac:(lia)) as Hdo.
  rewrite shiftr_page. replace (phys + 4096 * (off / 4096)) with ((phys / 4096 + off / 4096) * 4096) by lia. rewrite Z.div_mul by lia.
  rewrite page_address by (split; [apply Z.add_nonneg_nonneg; apply Z.div_pos; lia|lia]). f_equal.
  replace ((0xE0000000 + off) mod 4096) with (off mod 4096) by (replace (0xE0000000 + off) with (off + 0xE0000 * 4096) by lia; by rewrite Z.mod_add). lia.
Qed.

(** What the driver knows after a successful initialisation. *)
Definition described (mb : multiboot) : framebuffer_info_t :=
  mkInfo 0xE0000000 (framebuffer_addr mb) (framebuffer_width mb) (framebuffer_height mb) (framebuffer_pitch mb) 32
    (framebuffer_red_field_position mb) (mask_or_8 (framebuffer_red_mask_size mb))
    (framebuffer_green_field_position mb) (mask_or_8 (framebuffer_green_mask_size mb))
    (framebuffer_blue_field_position mb) (mask_or_8 (framebuffer_blue_mask_size mb)) true.

(** A mode the driver takes: a direct colour buffer of 32 bits per pixel on a
    page boundary, of at most 4 MiB. *)
Record usable (mb : multiboot) : Prop := {
  u_flag : Z.testbit (flags mb) 12 = true;
  u_type : framebuffer_type mb = 1;
  u_bpp : framebuffer_bpp mb = 32;
  u_width : 0 < framebuffer_width mb <= framebuffer_pitch mb / 4;
  u_height : 0 < framebuffer_height mb;
  u_size : framebuffer_pitch mb * framebuffer_height mb <= 0x400000;
  u_page : framebuffer_addr mb mod 4096 = 0;
  u_addr : 0 <= framebuffer_addr mb /\ framebuffer_addr mb + 0x400000 <= 2 ^ 32 }.

Lemma init_ready mb s :
  usable mb -> (exists b, 0 <= b < 2 ^ 18 /\ framebuffer_page_table = 0xC0000000 + 4096 * b) ->
  initialized (fb_info s) = false -> active (pages (space s)) = true ->
  exists s1, framebuffer_init (Some mb) s = Some (true, s1) /\ ready s1 /\ fb_info s1 = described mb /\ vram s1 = vram s.
Proof.
  intros [] Ht Hi Ha. unfold framebuffer_init. rewrite Hi, u_type0, u_bpp0. cbn [Z.eqb negb].
  assert (Hf : (Z.land (flags mb) (Z.shiftl 1 12) =? 0) = false).
  { apply Z.eqb_neq. intros E. apply (f_equal (fun z => Z.testbit z 12)) in E. rewrite Z.land_spec, u_flag0 in E. done. }
  change (32 =? 32) with true. rewrite Hf, (u32_small (framebuffer_addr mb)) by lia. cbn [negb].
  assert (Hp : 0 <= framebuffer_pitch mb) by (destruct (Z.lt_ge_cases (framebuffer_pitch mb) 0); [|done]; pose proof (Z.div_lt_upper_bound (framebuffer_pitch mb) 4 0); lia).
  rewrite mul32_small by nia.
  destruct (map_translates (framebuffer_addr mb) (framebuffer_pitch mb * framebuffer_height mb) (space s)) as (sp & -> & Hm); [done|done|lia|lia|nia|done|].
  cbn [mbind option_bind]. change (0xE0000000 =? 0) with false. eexists. split; [reflexivity|].
  assert (Hst : 4 * (framebuffer_pitch mb / 4) <= framebuffer_pitch mb) by (apply Z.mul_div_le; lia).
  assert (Hfit : 4 * (framebuffer_height mb * (framebuffer_pitch mb / 4)) <= framebuffer_pitch mb * framebuffer_height mb).
  { rewrite (Z.mul_comm (framebuffer_pitch mb)), Z.mul_assoc, (Z.mul_comm 4), <- Z.mul_assoc. apply Z.mul_le_mono_nonneg_l; lia. }
  split; [|by unfold described]. split; unfold stride; cbn [fb_info initialized width height pitch buffer space physical_addr]; try done; [lia|].
  intros off Hoff. apply Hm. lia.
Qed.

End operations.

(** ** Colours come back *)

Lemma byte_bit c n : 0 <= c < 256 -> n < 0 \/ 8 <= n -> Z.testbit c n = false.
Proof.
  intros Hc [Hn|Hn]; [by apply Z.testbit_neg_r|]. destruct (decide (c = 0)) as [->|]; [apply Z.testbit_0_l|].
  apply Z.bits_above_log2; [lia|]. assert (Z.log2 c < 8); [|lia]. apply Z.log2_lt_pow2; lia.
Qed.

Definition apart (p q : Z) : Prop := p + 8 <= q \/ q + 8 <= p.

Lemma field_of_lor p q q' c d e :
  0 <= p <= 24 -> 0 <= q <= 24 -> 0 <= q' <= 24 -> apart p q -> apart p q' -> 0 <= c < 256 -> 0 <= d < 256 -> 0 <= e < 256 ->
  forall pixel, (forall n, 0 <= n -> Z.testbit pixel n = Z.testbit c (n - p) || Z.testbit d (n - q) || Z.testbit e (n - q')) ->
  field pixel p 8 = c.
Proof.
  intros Hp Hq Hq' Ha Ha' Hc Hd He pixel Hb. unfold field. change (shl32 1 8 ⊟ 1) with (Z.ones 8). rewrite Z.land_ones by lia.
  unfold u8. rewrite Z.mod_mod by lia. apply Z.bits_inj_iff'. intros n Hn. destruct (Z.lt_ge_cases n 8).
  - rewrite Z.mod_pow2_bits_low, Z.shiftr_spec, Hb by lia. replace (n + p - p) with n by lia.
    unfold apart in *. rewrite (byte_bit d), (byte_bit e), !orb_false_r by lia. done.
  - rewrite Z.mod_pow2_bits_high by lia. symmetry. apply byte_bit; lia.
Qed.

Lemma shl32_bit c p n : 0 <= c < 256 -> 0 <= p <= 24 -> 0 <= n -> Z.testbit (shl32 c p) n = Z.testbit c (n - p).
Proof.
  intros Hc Hp Hn. unfold shl32. rewrite u32_small; [by rewrite Z.shiftl_spec|]. rewrite Z.shiftl_mul_pow2 by lia.
  assert (1 <= 2 ^ p <= 2 ^ 24) by (split; [apply (Z.pow_le_mono_r 2 0); lia|apply Z.pow_le_mono_r; lia]). nia.
Qed.

(** The colour fields of a mode do not overlap. *)
Definition separate (i : framebuffer_info_t) : Prop :=
  0 <= red_pos i <= 24 /\ 0 <= green_pos i <= 24 /\ 0 <= blue_pos i <= 24 /\
  red_mask i = 8 /\ green_mask i = 8 /\ blue_mask i = 8 /\
  apart (red_pos i) (green_pos i) /\ apart (red_pos i) (blue_pos i) /\ apart (green_pos i) (blue_pos i).

Definition byte_color (c : color_t) : Prop := 0 <= r c < 256 /\ 0 <= g c < 256 /\ 0 <= b c < 256 /\ a c = 255.

Lemma get_pixel_color {A} `{FrameAllocator A} (s : state A) x y c :
  ready s -> on (fb_info s) x y -> separate (fb_info s) -> byte_color c ->
  zget (vram s) (cell (fb_info s) x y) = framebuffer_color_to_pixel c s -> framebuffer_get_pixel x y s = Some c.
Proof.
  intros Hr Hon (P1 & P2 & P3 & M1 & M2 & M3 & A1 & A2 & A3) (C1 & C2 & C3 & C4) Hv.
  pose proof (index_range s x y Hr Hon). pose proof Hr as []. unfold framebuffer_get_pixel. rewrite r_init0, row_index by done.
  destruct Hon as [Hx Hy]. rewrite (proj2 (Z.leb_gt (width _) x)), (proj2 (Z.leb_gt (height _) y)) by lia. cbn [negb orb].
  unfold load_pixel. rewrite r_buffer0, mul32_small, add32_small, r_maps0 by lia. cbn [mbind option_bind].
  change (physical_addr (fb_info s) + 4 * (y * stride (fb_info s) + x)) with (cell (fb_info s) x y). rewrite Hv, M1, M2, M3.
  unfold framebuffer_color_to_pixel. rewrite r_init0. cbn [negb]. unfold apart in *.
  assert (Hbits : forall n, 0 <= n -> Z.testbit (Z.lor (Z.lor (shl32 (r c) (red_pos (fb_info s))) (shl32 (g c) (green_pos (fb_info s)))) (shl32 (b c) (blue_pos (fb_info s)))) n
    = Z.testbit (r c) (n - red_pos (fb_info s)) || Z.testbit (g c) (n - green_pos (fb_info s)) || Z.testbit (b c) (n - blue_pos (fb_info s))).
  { intros n Hn. by rewrite !Z.lor_spec, !shl32_bit by lia. }
  rewrite (field_of_lor _ (green_pos (fb_info s)) (blue_pos (fb_info s)) (r c) (g c) (b c)) by (done || unfold apart; lia).
  rewrite (field_of_lor _ (red_pos (fb_info s)) (blue_pos (fb_info s)) (g c) (r c) (b c))
    by (try (unfold apart; lia); intros n Hn; rewrite Hbits by done; by rewrite (orb_comm (Z.testbit (r c) _))).
  rewrite (field_of_lor _ (red_pos (fb_info s)) (green_pos (fb_info s)) (b c) (r c) (g c))
    by (try (unfold apart; lia); intros n Hn; rewrite Hbits by done; by rewrite orb_comm, orb_assoc).
  destruct c; cbn in *. by subst.
Qed.

(** C15: A direct colour mode of 32 bits per pixel and at most 4 MiB on a page
    boundary is mapped at 0xE0000000 so that every address of its rows reaches its own
    word of the video memory. Any program of drawing calls whose rectangles end below
    [2 ^ 32] then ends without a fault and leaves in each word of the rows the
    colour of the last call that covers it, the lines and rectangles clipped to the
    screen. Clearing covers the first width * height words, padding included, so
    with padding it misses the end of the screen. The colour of a pixel is read
    back when the colour fields are separate bytes, and no word outside the rows
    changes. *)
Theorem framebuffer_paints {A} `{FrameAllocator A} table mb (s : state A) l :
  usable mb -> (exists b, 0 <= b < 2 ^ 18 /\ table = 0xC0000000 + 4096 * b) ->
  initialized (fb_info s) = false -> active (pages (space s)) = true -> Forall drawable l ->
  exists s1 s2, framebuffer_init table (Some mb) s = Some (true, s1) /\ draw_all l s1 = Some s2 /\
    (forall x y, inside (described mb) x y ->
       let address := 0xE0000000 + 4 * (y * (framebuffer_pitch mb / 4) + x) in
       let word := framebuffer_addr mb + 4 * (y * (framebuffer_pitch mb / 4) + x) in
       paging_get_physical_address address (pages (space s2)) = Some word /\
       zget (vram s2) word = paint s1 x y (zget (vram s) word) l /\
       (x < framebuffer_width mb -> separate (described mb) -> Forall (fun o => byte_color (color_of o)) l ->
        forall l1 o l2, l = l1 ++ o :: l2 -> covers (described mb) o x y = true -> Forall (fun o => covers (described mb) o x y = false) l2 ->
        framebuffer_get_pixel x y s2 = Some (color_of o))) /\
    (forall p, (forall x y, inside (described mb) x y -> p <> framebuffer_addr mb + 4 * (y * (framebuffer_pitch mb / 4) + x)) ->
       zget (vram s2) p = zget (vram s) p).
Proof.
  intros Hu Ht Hi Ha Hl. destruct (init_ready table mb s Hu Ht Hi Ha) as (s1 & E1 & Hr & Ei & Ev).
  destruct (draw_all_painted l s1 s1 Hr eq_refl Hl) as (s2 & E2 & Hi2 & Hs2 & Hc & Hrest). exists s1, s2.
  split; [done|]. split; [done|]. rewrite Ei in *. rewrite Ev in *. split; [|exact Hrest].
  assert (Hr2 : ready s2). { destruct Hr. split; rewrite ?Hi2, ?Hs2; rewrite <- ?Ei; done. }
  intros x y Hin. cbv zeta. split; [|split; [by apply Hc|]].
  - pose proof Hin as [Hx Hy]. pose proof (r_maps s2 Hr2) as Hm.
    rewrite Hi2 in *. apply Hm. change (stride (described mb)) with (framebuffer_pitch mb / 4) in *. nia.
  - intros Hw Hsep Hcol l1 o l2 -> Ho Hl2.
    assert (Hon : on (described mb) x y) by (destruct Hin; split; [cbn; lia|done]).
    apply get_pixel_color; [done|by rewrite Hi2|by rewrite Hi2| |].
    + apply Forall_app in Hcol as [_ Hcol]. by inversion_clear Hcol.
    + rewrite Hi2, Hc by done. unfold paint. rewrite foldl_app. cbn [foldl]. rewrite Ei, Ho. unfold framebuffer_color_to_pixel. rewrite Hi2, Ei.
      clear - Hl2. induction Hl2 as [|o' l2 Ho' Hl2 IH]; [done|]. cbn [foldl]. by rewrite Ho'.
Qed.

Section example.
#[local] Opaque BuddySpec.example_state.
#[local] Existing Instance example_frames.

Definition vga : multiboot := mkMultiboot 0x1000 0xFD000000 4096 800 768 32 1 16 8 8 8 0 8.

Definition off : state Buddy.buddy := mkState (mkInfo 0 0 0 0 0 0 0 0 0 0 0 0 false) example_vmm ∅.

Definition red : color_t := mkColor 255 0 0 255.
Definition blue : color_t := mkColor 0 0 255 255.

Abbreviation example_program := [Clear blue; Fill_rect 10 10 100 100 red; Draw_vline 20 700 0 blue].

(** A screen of 800 pixels in rows of 1024 words. *)
Lemma framebuffer_paints_witness :
  exists s1 s2, framebuffer_init 0xC0200000 (Some vga) off = Some (true, s1) /\ draw_all example_program s1 = Some s2 /\
    framebuffer_get_pixel 20 40 s2 = Some blue /\ framebuffer_get_pixel 21 40 s2 = Some red /\ framebuffer_get_pixel 700 400 s2 = Some blue.
Proof.
  destruct (framebuffer_paints 0xC0200000 vga off example_program) as (s1 & s2 & H1 & H2 & H3 & _).
  - split; [reflexivity|reflexivity|reflexivity|change (0 < 800 <= 1024); lia|reflexivity|discriminate|reflexivity|change (0 <= 0xFD000000 /\ 0xFD000000 + 0x400000 <= 2 ^ 32); lia].
  - exists 0x200. lia.
  - reflexivity.
  - reflexivity.
  - constructor; [done|]. constructor; [cbn; lia|]. constructor; [cbn; lia|constructor].
  - exists s1, s2. split; [exact H1|]. split; [exact H2|].
    assert (Hs : separate (described vga)) by (unfold separate, apart; cbn; lia).
    assert (Hc : Forall (fun o => byte_color (color_of o)) example_program) by (repeat (constructor; [unfold byte_color; cbn; lia|]); constructor).
    assert (Hin : forall x y, 0 <= x < 800 -> 0 <= y < 768 -> inside (described vga) x y).
    { intros x y Hx Hy. split; [change (0 <= x < 1024); lia|change (0 <= y < 768); lia]. }
    split; [|split].
    + destruct (H3 20 40 (Hin 20 40 ltac:(lia) ltac:(lia))) as (_ & _ & H4).
      exact (H4 eq_refl Hs Hc [Clear blue; Fill_rect 10 10 100 100 red] (Draw_vline 20 700 0 blue) [] eq_refl eq_refl (Forall_nil_2 _)).
    + destruct (H3 21 40 (Hin 21 40 ltac:(lia) ltac:(lia))) as (_ & _ & H4).
      exact (H4 eq_refl Hs Hc [Clear blue] (Fill_rect 10 10 100 100 red) [Draw_vline 20 700 0 blue] eq_refl eq_refl (Forall_cons_2 _ (Draw_vline 20 700 0 blue) [] eq_refl (Forall_nil_2 _))).
    + destruct (H3 700 400 (Hin 700 400 ltac:(lia) ltac:(lia))) as (_ & _ & H4).
      exact (H4 eq_refl Hs Hc [] (Clear blue) [Fill_rect 10 10 100 100 red; Draw_vline 20 700 0 blue] eq_refl eq_refl
        (Forall_cons_2 _ (Fill_rect 10 10 100 100 red) [_] eq_refl (Forall_cons_2 _ (Draw_vline 20 700 0 blue) [] eq_refl (Forall_nil_2 _)))).
Defined.

End example.

End Fb.
