(* ===== verification/Libc.v ===== *)
(** * The C library: string functions and printf

    The byte loops of libc/string on a byte memory with 32-bit addresses
    ([Bytes]), and [printf] of libc/stdio over any console ([Printf]). *)

From S2P Require Import Prelude.

Module Bytes.

(** [for (i = 0; i < size; ++i) dst[i] = src[i];] from index [i] on. *)
Fixpoint copy_up (n : nat) (i dst src : Z) (m : zmap) : zmap :=
  match n with
  | O => m
  | S n => copy_up n (i ⊞ 1) dst src (<[dst ⊞ i := zget m (src ⊞ i)]> m)
  end.

(** [for (i = size; i != 0; --i) dst[i - 1] = src[i - 1];] *)
Fixpoint copy_down (n : nat) (dst src : Z) (m : zmap) : zmap :=
  match n with
  | O => m
  | S n => let i := Z.of_nat n in copy_down n dst src (<[dst ⊞ i := zget m (src ⊞ i)]> m)
  end.

Definition memcpy (dst src size : Z) (m : zmap) : Z * zmap := (dst, copy_up (Z.to_nat size) 0 dst src m).

Definition memmove (dst src size : Z) (m : zmap) : Z * zmap :=
  if dst <? src then (dst, copy_up (Z.to_nat size) 0 dst src m) else (dst, copy_down (Z.to_nat size) dst src m).

Fixpoint set_loop (n : nat) (i buf value : Z) (m : zmap) : zmap :=
  match n with
  | O => m
  | S n => set_loop n (i ⊞ 1) buf value (<[buf ⊞ i := u8 value]> m)
  end.

Definition memset (buf value size : Z) (m : zmap) : Z * zmap := (buf, set_loop (Z.to_nat size) 0 buf value m).

Fixpoint compare_loop (n : nat) (i x y : Z) (m : zmap) : Z :=
  match n with
  | O => 0
  | S n =>
    if zget m (x ⊞ i) <? zget m (y ⊞ i) then -1
    else if zget m (y ⊞ i) <? zget m (x ⊞ i) then 1
    else compare_loop n (i ⊞ 1) x y m
  end.

Definition memcmp (x y size : Z) (m : zmap) : Z := compare_loop (Z.to_nat size) 0 x y m.

(** [None] when no terminator is found within [fuel] bytes. *)
Fixpoint length_loop (fuel : nat) (s len : Z) (m : zmap) : option Z :=
  match fuel with
  | O => None
  | S fuel => if zget m (s ⊞ len) =? 0 then Some len else length_loop fuel s (len ⊞ 1) m
  end.

(** ** Copies *)

Lemma copy_up_out n : forall i dst src m p,
  0 <= i -> 0 <= dst -> dst + i + Z.of_nat n <= 2 ^ 32 -> p < dst + i \/ dst + i + Z.of_nat n <= p ->
  zget (copy_up n i dst src m) p = zget m p.
Proof.
  induction n as [|n IH]; intros i dst src m p Hi Hd Hb Hp; cbn [copy_up]; [done|].
  destruct (decide (n = O)) as [->|]; [|rewrite (add32_small i), IH by lia; rewrite (add32_small dst), zget_insert_ne by lia; done].
  cbn [copy_up]. rewrite add32_small, zget_insert_ne by lia. done.
Qed.

(** Copying upwards is right when the destination is below or apart. *)
Lemma copy_up_spec n : forall i dst src m,
  0 <= i -> 0 <= dst -> 0 <= src -> dst + i + Z.of_nat n <= 2 ^ 32 -> src + i + Z.of_nat n <= 2 ^ 32 ->
  dst <= src \/ src + i + Z.of_nat n <= dst + i ->
  forall k, i <= k < i + Z.of_nat n -> zget (copy_up n i dst src m) (dst + k) = zget m (src + k).
Proof.
  induction n as [|n IH]; intros i dst src m Hi Hd Hs Hbd Hbs Hov k Hk; [lia|]. cbn [copy_up].
  rewrite (add32_small dst i), (add32_small src i) by lia. destruct (decide (n = O)) as [->|].
  { cbn [copy_up]. replace k with i by lia. by rewrite zget_insert_eq. }
  rewrite (add32_small i 1) by lia. destruct (decide (k = i)) as [->|].
  - rewrite copy_up_out by lia. by rewrite zget_insert_eq.
  - rewrite IH by lia. rewrite zget_insert_ne by lia. done.
Qed.

Lemma copy_down_out n : forall dst src m p,
  0 <= dst -> dst + Z.of_nat n <= 2 ^ 32 -> p < dst \/ dst + Z.of_nat n <= p -> zget (copy_down n dst src m) p = zget m p.
Proof.
  induction n as [|n IH]; intros dst src m p Hd Hb Hp; cbn [copy_down]; [done|]. rewrite IH, add32_small, zget_insert_ne by lia. done.
Qed.

Lemma copy_down_spec n : forall dst src m,
  0 <= src <= dst -> dst + Z.of_nat n <= 2 ^ 32 ->
  forall k, 0 <= k < Z.of_nat n -> zget (copy_down n dst src m) (dst + k) = zget m (src + k).
Proof.
  induction n as [|n IH]; intros dst src m Hs Hb k Hk; [lia|]. cbn [copy_down]. rewrite !add32_small by lia.
  destruct (decide (k = Z.of_nat n)) as [->|].
  - rewrite copy_down_out by lia. by rewrite zget_insert_eq.
  - rewrite IH by lia. rewrite zget_insert_ne by lia. done.
Qed.

(** [memmove] puts at every address of the destination the byte its
    source address held before the call, however the two ranges overlap, and
    changes no other byte; [memcpy] does the same when the ranges are apart. *)
Theorem memmove_exact dst src size m :
  0 <= dst -> 0 <= src -> 0 <= size -> dst + size <= 2 ^ 32 -> src + size <= 2 ^ 32 ->
  let copied m' := forall p, zget m' p = if decide (dst <= p < dst + size) then zget m (src + (p - dst)) else zget m p in
  (exists m', memmove dst src size m = (dst, m') /\ copied m') /\
  (dst + size <= src \/ src + size <= dst -> exists m', memcpy dst src size m = (dst, m') /\ copied m').
Proof.
  intros Hd Hs Hn Hbd Hbs copied.
  assert (Hup : dst <= src \/ src + size <= dst -> copied (copy_up (Z.to_nat size) 0 dst src m)).
  { intros Ho p. case_decide as Hp; [|apply copy_up_out; lia].
    replace p with (dst + (p - dst)) at 1 by lia. apply copy_up_spec; lia. }
  split.
  - unfold memmove. destruct (Z.ltb_spec dst src); eexists; (split; [reflexivity|]); [apply Hup; lia|].
    intros p. case_decide as Hp; [|apply copy_down_out; lia]. replace p with (dst + (p - dst)) at 1 by lia. apply copy_down_spec; lia.
  - intros Ho. eexists. split; [reflexivity|]. apply Hup. lia.
Qed.

Lemma memmove_exact_witness :
  exists m', memmove 102 100 3 (<[102 := 9]> (<[101 := 8]> (<[100 := 7]> ∅))) = (102, m') /\
    zget m' 104 = 9 /\ zget m' 103 = 8 /\ zget m' 102 = 7.
Proof.
  destruct (memmove_exact 102 100 3 (<[102 := 9]> (<[101 := 8]> (<[100 := 7]> ∅)))) as [(m' & E & H) _]; [lia..|].
  exists m'. split; [exact E|]. rewrite !H. split; [reflexivity|]. split; reflexivity.
Defined.

(** ** The other functions *)

Lemma memset_exact buf value size m :
  0 <= buf -> 0 <= size -> buf + size <= 2 ^ 32 ->
  forall p, zget (memset buf value size m).2 p = if decide (buf <= p < buf + size) then u8 value else zget m p.
Proof.
  intros Hb Hn Hs p. unfold memset. cbn [snd].
  assert (H : forall n i m, 0 <= i -> buf + i + Z.of_nat n <= 2 ^ 32 ->
    zget (set_loop n i buf value m) p = if decide (buf + i <= p < buf + i + Z.of_nat n) then u8 value else zget m p).
  { induction n as [|n IH]; intros i m' Hi Hbi; cbn [set_loop]; [by rewrite decide_False by lia|].
    rewrite (add32_small buf i) by lia. destruct (decide (n = O)) as [->|].
    - cbn [set_loop]. rewrite zget_insert. repeat case_decide; try lia; done.
    - rewrite (add32_small i 1), IH, zget_insert by lia. repeat case_decide; try lia; done. }
  rewrite H by lia. replace (buf + 0 + Z.of_nat (Z.to_nat size)) with (buf + size) by lia. by rewrite Z.add_0_r.
Qed.

(** The sign is that of the first byte that differs. *)
Lemma memcmp_exact x y size m :
  0 <= x -> 0 <= y -> 0 <= size -> x + size <= 2 ^ 32 -> y + size <= 2 ^ 32 ->
  (memcmp x y size m = 0 /\ forall k, 0 <= k < size -> zget m (x + k) = zget m (y + k)) \/
  (exists k, 0 <= k < size /\ (forall j, 0 <= j < k -> zget m (x + j) = zget m (y + j)) /\
     ((memcmp x y size m = -1 /\ zget m (x + k) < zget m (y + k)) \/ (memcmp x y size m = 1 /\ zget m (y + k) < zget m (x + k)))).
Proof.
  intros Hx Hy Hs Hbx Hby. unfold memcmp.
  assert (H : forall n i, 0 <= i -> i + Z.of_nat n = size -> (forall j, 0 <= j < i -> zget m (x + j) = zget m (y + j)) ->
    (compare_loop n i x y m = 0 /\ forall k, 0 <= k < size -> zget m (x + k) = zget m (y + k)) \/
    (exists k, 0 <= k < size /\ (forall j, 0 <= j < k -> zget m (x + j) = zget m (y + j)) /\
       ((compare_loop n i x y m = -1 /\ zget m (x + k) < zget m (y + k)) \/ (compare_loop n i x y m = 1 /\ zget m (y + k) < zget m (x + k))))).
  { induction n as [|n IH]; intros i Hi Hn Heq; cbn [compare_loop]; [left; split; [done|]; intros k Hk; apply Heq; lia|].
    rewrite (add32_small x i), (add32_small y i) by lia. destruct (Z.ltb_spec (zget m (x + i)) (zget m (y + i))); [right; exists i; split; [lia|]; split; [done|]; by left|].
    destruct (Z.ltb_spec (zget m (y + i)) (zget m (x + i))); [right; exists i; split; [lia|]; split; [done|]; by right|].
    assert (Heq' : forall j, 0 <= j < i + 1 -> zget m (x + j) = zget m (y + j)).
    { intros j Hj. destruct (decide (j = i)) as [->|]; [lia|]. apply Heq. lia. }
    destruct (decide (n = O)) as [->|]; [cbn [compare_loop]; left; split; [done|]; intros k Hk; apply Heq'; lia|].
    rewrite add32_small by lia. apply IH; [lia|lia|done]. }
  apply H; [lia|lia|]. intros j Hj. lia.
Qed.

(** The length is the distance to the first zero byte; the loop finds it. *)
Lemma strlen_exact s k m :
  0 <= s -> 0 <= k -> s + k < 2 ^ 32 -> zget m (s + k) = 0 -> (forall j, 0 <= j < k -> zget m (s + j) <> 0) ->
  length_loop (S (Z.to_nat k)) s 0 m = Some k.
Proof.
  intros Hs Hk Hb Hz Hnz.
  assert (H : forall n len, 0 <= len -> len + Z.of_nat n = k -> length_loop (S n) s len m = Some k).
  { induction n as [|n IH]; intros len Hl Hn.
    - cbn [length_loop]. rewrite (add32_small s len) by lia. replace len with k by lia. by rewrite Hz.
    - change (length_loop (S (S n)) s len m) with (if zget m (s ⊞ len) =? 0 then Some len else length_loop (S n) s (len ⊞ 1) m).
      rewrite (add32_small s len), (add32_small len 1), (proj2 (Z.eqb_neq _ _) (Hnz len ltac:(lia))) by lia. apply IH; lia. }
  apply H; lia.
Qed.

End Bytes.

Module Printf.

Definition INT_MAX : Z := 2147483647.

(** What is read with [va_arg]. *)
Inductive arg := Int (v : Z) | Pointer (s : list Z).

Section printf.
(** The console behind [putchar], which never reports the end of a file. *)
Context {C : Type} (putchar : Z -> C -> C).

Definition print (data : list Z) (c : C) : C := foldl (fun c b => putchar b c) c data.

(** [while (format[amount] && format[amount] != '%') amount++;] *)
Fixpoint text_run (l : list Z) : nat :=
  match l with
  | [] => O
  | b :: l => if b =? 37 then O else S (text_run l)
  end.

(** One turn of the loop on the rest of the format; [None] as the rest when
    the call returns -1. *)
Definition turn (format : list Z) (args : list arg) (written : Z) (c : C) : option (option (list Z * list arg * Z) * C) :=
  let maxrem := INT_MAX - written in
  match format with
  | [] => None
  | x :: rest =>
    if negb (x =? 37) || (default 0 (head rest) =? 37) then
      let format := if x =? 37 then rest else format in
      let amount := S (text_run (tail format)) in
      if maxrem <? Z.of_nat amount then Some (None, c)
      else Some (Some (drop amount format, args, written + Z.of_nat amount), print (take amount format) c)
    else
      let y := default 0 (head rest) in
      if y =? 99 then
        match args with
        | Int v :: args => if maxrem =? 0 then Some (None, c) else Some (Some (tail rest, args, written + 1), print [u8 v] c)
        | _ => None
        end
      else if y =? 115 then
        match args with
        | Pointer s :: args =>
          if maxrem <? Z.of_nat (length s) then Some (None, c)
          else Some (Some (tail rest, args, written + Z.of_nat (length s)), print s c)
        | _ => None
        end
      else
        if maxrem <? Z.of_nat (length format) then Some (None, c)
        else Some (Some ([], args, written + Z.of_nat (length format)), print format c)
  end.

(** Every turn takes at least a character; [None] is a call whose arguments do
    not fit its format. *)
Fixpoint printf_loop (fuel : nat) (format : list Z) (args : list arg) (written : Z) (c : C) : option (Z * C) :=
  match format, fuel with
  | [], _ => Some (written, c)
  | _, O => None
  | _, S fuel =>
    '(next, c) ← turn format args written c;
    match next with
    | None => Some (-1, c)
    | Some (format, args, written) => printf_loop fuel format args written c
    end
  end.

Definition printf (format : list Z) (args : list arg) (c : C) : option (Z * C) :=
  printf_loop (length format) format args 0 c.

Definition puts (s : list Z) (c : C) : option (Z * C) := printf [37; 115; 10] [Pointer s] c.

(** ** What a format says *)

Inductive piece := Lit (b : Z) | Percent | Char (v : Z) | Text (s : list Z).

Definition encode (p : piece) : list Z :=
  match p with Lit b => [b] | Percent => [37; 37] | Char _ => [37; 99] | Text _ => [37; 115] end.

Definition render (p : piece) : list Z :=
  match p with Lit b => [b] | Percent => [37] | Char v => [u8 v] | Text s => s end.

Definition argument (p : piece) : list arg :=
  match p with Char v => [Int v] | Text s => [Pointer s] | _ => [] end.

Definition plain (p : piece) : Prop := match p with Lit b => b <> 37 | _ => True end.

Abbreviation format_of ps := (ps ≫= encode).
Abbreviation output_of ps := (ps ≫= render).
Abbreviation arguments_of ps := (ps ≫= argument).

(** The literal characters at the front. *)
Fixpoint literals (ps : list piece) : list Z * list piece :=
  match ps with
  | Lit b :: ps => let '(l, ps) := literals ps in (b :: l, ps)
  | _ => ([], ps)
  end.

Lemma literals_spec ps : Forall plain ps ->
  let '(l, qs) := literals ps in
  (length qs <= length ps)%nat /\ Forall plain qs /\ format_of ps = l ++ format_of qs /\ output_of ps = l ++ output_of qs /\
  arguments_of ps = arguments_of qs /\ text_run (format_of ps) = length l.
Proof.
  induction 1 as [|p ps Hp Hps IH]; [done|]. destruct p as [b| |v|s]; cbn [literals]; try (split_and!; [done|by constructor|done..]).
  destruct (literals ps) as [l qs]. destruct IH as (I1 & I2 & I3 & I4 & I5 & I6). cbn in Hp.
  split_and!; [cbn; lia|done|cbn; by rewrite I3|cbn; by rewrite I4|done|]. cbn. rewrite (proj2 (Z.eqb_neq b 37)) by done. by rewrite I6.
Qed.

Lemma print_app l1 l2 c : print (l1 ++ l2) c = print l2 (print l1 c).
Proof. apply foldl_app. Qed.

(** A chunk: a first character and the literals that follow. *)
Lemma chunk_turn b ps args w c format :
  Forall plain ps -> (format = b :: format_of ps /\ b <> 37) \/ (format = 37 :: b :: format_of ps /\ b = 37) ->
  w + Z.of_nat (length (b :: output_of ps)) <= INT_MAX ->
  let '(l, qs) := literals ps in
  turn format args w c = Some (Some (format_of qs, args, w + Z.of_nat (length (b :: l))), print (b :: l) c).
Proof.
  intros Hps Hf Hw. pose proof (literals_spec ps Hps) as H. destruct (literals ps) as [l qs].
  destruct H as (_ & _ & E1 & E2 & _ & E3). rewrite E2 in Hw. cbn [length] in Hw. rewrite length_app in Hw.
  assert (Hd : drop (S (length l)) (b :: l ++ format_of qs) = format_of qs /\ take (S (length l)) (b :: l ++ format_of qs) = b :: l).
  { cbn. by rewrite drop_app_length, take_app_length. }
  destruct Hd as [Hd1 Hd2]. unfold turn. destruct Hf as [[-> Hb]|[-> ->]].
  - rewrite (proj2 (Z.eqb_neq b 37)) by done. cbn [negb orb tail]. rewrite E3.
    rewrite (proj2 (Z.ltb_ge _ _)) by lia. rewrite E1, Hd1, Hd2. done.
  - change (negb (37 =? 37) || (default 0 (head (37 :: format_of ps)) =? 37)) with true. change (37 =? 37) with true. cbn [tail]. rewrite E3.
    rewrite (proj2 (Z.ltb_ge _ _)) by lia. rewrite E1, Hd1, Hd2. done.
Qed.

Lemma loop_turn fuel x format args w c format' args' w' c' :
  turn (x :: format) args w c = Some (Some (format', args', w'), c') ->
  printf_loop (S fuel) (x :: format) args w c = printf_loop fuel format' args' w' c'.
Proof. intros E. cbn [printf_loop]. by rewrite E. Qed.

Lemma printf_loop_pieces k : forall ps fuel w c,
  (length ps <= k)%nat -> (length (format_of ps) <= fuel)%nat -> Forall plain ps -> 0 <= w ->
  w + Z.of_nat (length (output_of ps)) <= INT_MAX ->
  printf_loop fuel (format_of ps) (arguments_of ps) w c = Some (w + Z.of_nat (length (output_of ps)), print (output_of ps) c).
Proof.
  induction k as [|k IH]; intros [|p ps] fuel w c Hk Hf Hpl Hw Hm; try (cbn in Hk; lia); try (by destruct fuel; cbn; rewrite Z.add_0_r).
  inversion_clear Hpl as [|? ? Hp Hps].
  assert (Hchunk : forall b, (p = Lit b /\ b <> 37) \/ (p = Percent /\ b = 37) ->
    printf_loop fuel (format_of (p :: ps)) (arguments_of (p :: ps)) w c = Some (w + Z.of_nat (length (output_of (p :: ps))), print (output_of (p :: ps)) c)).
  { intros b Hb. assert (Eo : output_of (p :: ps) = b :: output_of ps) by (by destruct Hb as [[-> ?]|[-> ->]]). rewrite Eo in *.
    assert (Ea : arguments_of (p :: ps) = arguments_of ps) by (by destruct Hb as [[-> ?]|[-> ->]]). rewrite Ea.
    pose proof (literals_spec ps Hps) as Hl. assert (Ht : forall fmt, (fmt = b :: format_of ps /\ b <> 37) \/ (fmt = 37 :: b :: format_of ps /\ b = 37) -> _)
      by (intros fmt Hfmt; exact (chunk_turn b ps (arguments_of ps) w c fmt Hps Hfmt Hm)).
    destruct (literals ps) as [l qs]. destruct Hl as (L1 & L2 & L3 & L4 & L5 & _). cbn [length] in Hk.
    assert (Hrest : forall fuel, (length (format_of qs) <= fuel)%nat ->
      printf_loop fuel (format_of qs) (arguments_of ps) (w + Z.of_nat (length (b :: l))) (print (b :: l) c)
      = Some (w + Z.of_nat (length (b :: output_of ps)), print (b :: output_of ps) c)).
    { intros fuel' Hf'. rewrite L5, L4 in *. cbn [length] in *. rewrite length_app in *. rewrite IH by (done || lia). f_equal. f_equal; [lia|].
      change (b :: l ++ output_of qs) with ((b :: l) ++ output_of qs). by rewrite print_app. }
    destruct Hb as [[-> Hb]|[-> ->]]; cbn in Hf; rewrite L3, length_app in Hf; (destruct fuel as [|fuel]; [lia|]).
    - cbn [mbind list_bind encode app]. erewrite loop_turn; [|apply Ht; by left]. apply Hrest. lia.
    - cbn [mbind list_bind encode app]. erewrite loop_turn; [|apply Ht; by right]. apply Hrest. lia. }
  destruct p as [b| |v|s]; [apply (Hchunk b); left; done|apply (Hchunk 37); by right| |]; clear Hchunk; cbn in Hk, Hf, Hm;
    (destruct fuel as [|fuel]; [lia|]); cbn [mbind list_bind encode argument render app].
  - erewrite loop_turn; [|cbn; rewrite (proj2 (Z.eqb_neq _ _)) by lia; reflexivity]. rewrite IH by (done || lia). cbn [length]. f_equal. f_equal. lia.
  - rewrite length_app in Hm. erewrite loop_turn; [|cbn; rewrite (proj2 (Z.ltb_ge _ _)) by lia; reflexivity]. rewrite IH by (done || lia).
    rewrite length_app, print_app. f_equal. f_equal. lia.
Qed.

(** C33: A call whose format consists of ordinary characters, [%%], [%c] and
    [%s], with an argument for each directive, prints the characters, a percent
    sign, the argument's byte and the argument's text, in that order, and
    returns the number of bytes printed, provided an [int] can hold it; the
    format is the list of its bytes before the NUL, and [putchar] does not fail. *)
Theorem printf_exact ps c :
  Forall plain ps -> Z.of_nat (length (output_of ps)) <= INT_MAX ->
  printf (format_of ps) (arguments_of ps) c = Some (Z.of_nat (length (output_of ps)), print (output_of ps) c).
Proof. intros Hp Hm. unfold printf. by rewrite (printf_loop_pieces (length ps)). Qed.

(** A directive that is not known prints the rest of the format as it is. *)
Lemma printf_unknown x rest args c :
  x <> 37 -> x <> 99 -> x <> 115 -> Z.of_nat (S (S (length rest))) <= INT_MAX ->
  printf (37 :: x :: rest) args c = Some (Z.of_nat (length (37 :: x :: rest)), print (37 :: x :: rest) c).
Proof.
  intros H1 H2 H3 Hl. unfold printf. change (length (37 :: x :: rest)) with (S (S (length rest))) in *.
  rewrite (loop_turn _ _ _ _ _ _ [] args (0 + Z.of_nat (S (S (length rest)))) (print (37 :: x :: rest) c)); [done|].
  unfold turn. change (default 0 (head (x :: rest))) with x. change (37 =? 37) with true. change (length (37 :: x :: rest)) with (S (S (length rest))).
  rewrite (proj2 (Z.eqb_neq x 37)), (proj2 (Z.eqb_neq x 99)), (proj2 (Z.eqb_neq x 115)) by done. cbn [negb orb].
  rewrite (proj2 (Z.ltb_ge _ _)) by lia. done.
Qed.

End printf.

Lemma printf_exact_witness :
  printf cons [104; 105; 32; 37; 115; 37; 37; 37; 99] [Pointer [98; 111; 98]; Int 33] []
  = Some (8, [33; 37; 98; 111; 98; 32; 105; 104]).
Proof.
  apply (printf_exact cons [Lit 104; Lit 105; Lit 32; Text [98; 111; 98]; Percent; Char 33] []); [|discriminate].
  constructor; [discriminate|]. constructor; [discriminate|]. constructor; [discriminate|]. constructor; [exact I|].
  constructor; [exact I|]. constructor; [exact I|]. constructor.
Defined.

End Printf.
