(* ===== verification/Interrupts.v ===== *)
(** * Descriptor tables, interrupt entry and exceptions

    [Tables] encodes the segment and gate descriptors as gdt.c and idt.c do and
    reads them back as the processor does. [Entry] has the delivery of an
    interrupt, the stubs of isr_stubs.s instruction by instruction on a stack in
    memory, the dispatch of isr.c and the return. [Panics] has the exception
    handlers of exception.c. *)

From S2P Require Import Prelude Cpu Pmm BuddyProofs FrameAlloc Paging Apic Integrity.
From stdpp Require Import strings.
From Stdlib Require Import Ascii.
#[local] Open Scope Z_scope.

Module Tables.

(** ** Segments: gdt.c *)

Record gdt_entry := mkEntry {
  limit_low : Z;
  base_low : Z;
  base_middle : Z;
  access_byte : Z;
  flags : Z;
  base_high : Z }.

Definition global_descriptor_table_encode_entry (base limit access flags : Z) : gdt_entry :=
  let clamped_limit := if 0xFFFFF <? limit then 0xFFFFF else limit in
  mkEntry (Z.land clamped_limit 0xFFFF) (Z.land base 0xFFFF) (Z.land (Z.shiftr base 16) 0xFF) access
    (u8 (Z.lor (Z.land (Z.shiftr clamped_limit 16) 0x0F) (Z.land flags 0xF0))) (Z.land (Z.shiftr base 24) 0xFF).

Definition TSS_SIZE : Z := 108.

Record tss_t := mkTss { estack_pointer0 : Z; segment_selector0 : Z; io_map_base : Z }.

(** [esp] is what [asmutils_get_current_stack_pointer] returns. *)
Definition task_state_segment_initialize (kernel_ss_selector esp : Z) : tss_t := mkTss esp kernel_ss_selector TSS_SIZE.

Definition global_descriptor_table_initialize (tss_address esp : Z) : list gdt_entry * tss_t :=
  ([global_descriptor_table_encode_entry 0 0 0 0;
    global_descriptor_table_encode_entry 0 0xFFFFF 0x9A 0xC0;
    global_descriptor_table_encode_entry 0 0xFFFFF 0x92 0xC0;
    global_descriptor_table_encode_entry 0 0xFFFFF 0xFA 0xC0;
    global_descriptor_table_encode_entry 0 0xFFFFF 0xF2 0xC0;
    global_descriptor_table_encode_entry tss_address (TSS_SIZE - 1) 0x89 0x40],
   task_state_segment_initialize 0x10 esp).

(** What the processor takes from a descriptor: the limit counts pages when
    the granularity bit is set. *)
Definition segment_base (e : gdt_entry) : Z := base_low e + 2 ^ 16 * base_middle e + 2 ^ 24 * base_high e.
Definition segment_limit (e : gdt_entry) : Z :=
  let l := limit_low e + 2 ^ 16 * Z.land (flags e) 0x0F in
  if Z.testbit (flags e) 7 then l * 4096 + 4095 else l.
Definition segment_present (e : gdt_entry) : bool := Z.testbit (access_byte e) 7.
Definition segment_dpl (e : gdt_entry) : Z := Z.land (Z.shiftr (access_byte e) 5) 3.
Definition segment_is_code (e : gdt_entry) : bool := Z.testbit (access_byte e) 4 && Z.testbit (access_byte e) 3.

(** ** Gates: idt.c *)

Record idt_entry := mkGate { isr_low : Z; selector : Z; reserved : Z; type_attributes : Z; isr_high : Z }.

Definition interrupt_descriptor_table_encode_flat_entry (isr k_code_selector flags : Z) : idt_entry :=
  mkGate (Z.land isr 0xFFFF) k_code_selector 0 flags (Z.shiftr isr 16).

Definition GDT_KERNEL_CODE_SELECTOR : Z := 0x08.
Definition IDT_KERNEL_INTERRUPT_GATE : Z := 0x8E.
Definition IDT_USER_INTERRUPT_GATE : Z := 0xEE.
Definition PIC_VECTOR_OFFSET_MASTER : Z := 0x20.

Definition interrupt_descriptor_table_clear : list idt_entry :=
  replicate 256 (interrupt_descriptor_table_encode_flat_entry 0 0 0).

(** [for (i = 0; i < count; ++i)] over the addresses of the stubs. *)
Fixpoint interrupt_descriptor_table_install_vector_range (base : nat) (stubs : list Z) (idt : list idt_entry) : list idt_entry :=
  match stubs with
  | [] => idt
  | s :: stubs =>
    interrupt_descriptor_table_install_vector_range (S base) stubs
      (<[base := interrupt_descriptor_table_encode_flat_entry s GDT_KERNEL_CODE_SELECTOR IDT_KERNEL_INTERRUPT_GATE]> idt)
  end.

Section idt.
(** The address of the stub of a vector. *)
Context (stub : Z -> Z).

Definition idt_exception_stubs : list Z := stub <$> seqZ 0 32.
Definition idt_irq_stubs : list Z := stub <$> seqZ 32 16.

Definition interrupt_descriptor_table_initialize : list idt_entry :=
  let idt := interrupt_descriptor_table_clear in
  let idt := interrupt_descriptor_table_install_vector_range 0 idt_exception_stubs idt in
  let idt := interrupt_descriptor_table_install_vector_range (Z.to_nat PIC_VECTOR_OFFSET_MASTER) idt_irq_stubs idt in
  let idt := <[64%nat := interrupt_descriptor_table_encode_flat_entry (stub 64) GDT_KERNEL_CODE_SELECTOR IDT_KERNEL_INTERRUPT_GATE]> idt in
  <[128%nat := interrupt_descriptor_table_encode_flat_entry (stub 128) GDT_KERNEL_CODE_SELECTOR IDT_USER_INTERRUPT_GATE]> idt.

End idt.

Definition gate_offset (e : idt_entry) : Z := isr_low e + 2 ^ 16 * isr_high e.
Definition gate_present (e : idt_entry) : bool := Z.testbit (type_attributes e) 7.
Definition gate_dpl (e : idt_entry) : Z := Z.land (Z.shiftr (type_attributes e) 5) 3.
Definition gate_type (e : idt_entry) : Z := Z.land (type_attributes e) 0x0F.

(** ** What the processor reads back *)

Lemma land_ffff x : Z.land x 0xFFFF = x mod 2 ^ 16.
Proof. change 0xFFFF with (Z.ones 16). by rewrite Z.land_ones. Qed.

Lemma gate_roundtrip isr sel flags : in32 isr -> gate_offset (interrupt_descriptor_table_encode_flat_entry isr sel flags) = isr.
Proof.
  intros Hi. unfold gate_offset, interrupt_descriptor_table_encode_flat_entry. cbn [isr_low isr_high].
  rewrite land_ffff, Z.shiftr_div_pow2 by lia. pose proof (Z.div_mod isr (2 ^ 16) ltac:(lia)). lia.
Qed.

Lemma segment_roundtrip base limit access flags :
  in32 base -> 0 <= limit -> in32 flags ->
  let e := global_descriptor_table_encode_entry base limit access flags in
  segment_base e = base /\
  segment_limit e = (if Z.testbit flags 7 then Z.min limit 0xFFFFF * 4096 + 4095 else Z.min limit 0xFFFFF).
Proof.
  intros Hb Hl Hf e. unfold e, global_descriptor_table_encode_entry, segment_base, segment_limit.
  cbn [base_low base_middle base_high limit_low Tables.flags].
  set (l := if 0xFFFFF <? limit then 0xFFFFF else limit).
  assert (El : l = Z.min limit 0xFFFFF) by (unfold l; destruct (Z.ltb_spec 0xFFFFF limit); lia).
  rewrite !land_ffff. change 0xFF with (Z.ones 8). change 0x0F with (Z.ones 4). rewrite !Z.land_ones, !Z.shiftr_div_pow2 by lia.
  split.
  - pose proof (Z.div_mod base (2 ^ 16) ltac:(lia)). pose proof (Z.div_mod (base / 2 ^ 16) (2 ^ 8) ltac:(lia)) as H1.
    rewrite Z.div_div in H1 by lia. change (2 ^ 16 * 2 ^ 8) with (2 ^ 24) in H1.
    rewrite (Z.mod_small (base / 2 ^ 24)) by (split; [apply Z.div_pos; lia|apply Z.div_lt_upper_bound; lia]). lia.
  - assert (Hbits : forall n, 0 <= n < 8 -> Z.testbit (u8 (Z.lor ((l / 2 ^ 16) mod 2 ^ 4) (Z.land flags 0xF0))) n
      = if n <? 4 then Z.testbit ((l / 2 ^ 16) mod 2 ^ 4) n else Z.testbit flags n).
    { intros n Hn. unfold u8. rewrite Z.mod_pow2_bits_low, Z.lor_spec, Z.land_spec by lia.
      assert (Hc : n = 0 \/ n = 1 \/ n = 2 \/ n = 3 \/ n = 4 \/ n = 5 \/ n = 6 \/ n = 7) by lia.
      destruct Hc as [->|[->|[->|[->|[->|[->|[->| ->]]]]]]]; cbn [Z.ltb Z.compare Pos.compare Pos.compare_cont];
        rewrite ?andb_false_r, ?orb_false_r, ?andb_true_r, ?(Z.mod_pow2_bits_high _ 4) by lia; done. }
    rewrite (Hbits 7) by lia. change (7 <? 4) with false. cbn match.
    assert (En : (u8 (Z.lor ((l / 2 ^ 16) mod 2 ^ 4) (Z.land flags 0xF0))) mod 2 ^ 4 = (l / 2 ^ 16) mod 2 ^ 4).
    { apply Z.bits_inj_iff'. intros n Hn. destruct (Z.lt_ge_cases n 4).
      - rewrite Z.mod_pow2_bits_low, Hbits by lia. by rewrite (proj2 (Z.ltb_lt n 4)).
      - by rewrite !Z.mod_pow2_bits_high by lia. }
    rewrite En, (Z.mod_small (l / 2 ^ 16)) by (split; [apply Z.div_pos; lia|apply Z.div_lt_upper_bound; lia]).
    pose proof (Z.div_mod l (2 ^ 16) ltac:(lia)). rewrite <- El. destruct (Z.testbit flags 7); lia.
Qed.

Lemma install_range stubs : forall base idt,
  (base + length stubs <= length idt)%nat ->
  length (interrupt_descriptor_table_install_vector_range base stubs idt) = length idt /\
  forall i, interrupt_descriptor_table_install_vector_range base stubs idt !! i =
    if decide (base <= i < base + length stubs)%nat
    then (fun s => interrupt_descriptor_table_encode_flat_entry s GDT_KERNEL_CODE_SELECTOR IDT_KERNEL_INTERRUPT_GATE) <$> stubs !! (i - base)%nat
    else idt !! i.
Proof.
  induction stubs as [|s stubs IH]; intros base idt Hl; cbn [interrupt_descriptor_table_install_vector_range length] in *.
  { split; [done|]. intros i. by rewrite decide_False by lia. }
  destruct (IH (S base) (<[base := interrupt_descriptor_table_encode_flat_entry s GDT_KERNEL_CODE_SELECTOR IDT_KERNEL_INTERRUPT_GATE]> idt)) as [E1 E2];
    [rewrite length_insert; lia|]. rewrite E1, length_insert. split; [done|]. intros i. rewrite E2. destruct (decide (i = base)) as [->|].
  - rewrite decide_False, decide_True, Nat.sub_diag, list_lookup_insert_eq by lia. done.
  - repeat case_decide; try lia; [|by rewrite list_lookup_insert_ne by done].
    replace (i - base)%nat with (S (i - S base))%nat by lia. done.
Qed.

(** The vectors with a stub; 0x80 is for software. *)
Definition installed (v : Z) : bool := (v <? 48) || (v =? 64) || (v =? 128).

Lemma idt_lookup stub v : 0 <= v < 256 ->
  interrupt_descriptor_table_initialize stub !! Z.to_nat v = Some (
    if installed v
    then interrupt_descriptor_table_encode_flat_entry (stub v) GDT_KERNEL_CODE_SELECTOR
           (if v =? 128 then IDT_USER_INTERRUPT_GATE else IDT_KERNEL_INTERRUPT_GATE)
    else interrupt_descriptor_table_encode_flat_entry 0 0 0).
Proof.
  intros Hv. unfold interrupt_descriptor_table_initialize, installed.
  destruct (install_range (idt_exception_stubs stub) 0 interrupt_descriptor_table_clear) as [L1 E1];
    [unfold idt_exception_stubs, interrupt_descriptor_table_clear; rewrite length_fmap, length_seqZ, length_replicate; lia|].
  destruct (install_range (idt_irq_stubs stub) (Z.to_nat PIC_VECTOR_OFFSET_MASTER)
    (interrupt_descriptor_table_install_vector_range 0 (idt_exception_stubs stub) interrupt_descriptor_table_clear)) as [L2 E2];
    [rewrite L1; unfold idt_irq_stubs, interrupt_descriptor_table_clear, PIC_VECTOR_OFFSET_MASTER; rewrite length_fmap, length_seqZ, length_replicate; lia|].
  assert (Hl1 : length (idt_exception_stubs stub) = 32%nat) by (unfold idt_exception_stubs; by rewrite length_fmap, length_seqZ).
  assert (Hl2 : length (idt_irq_stubs stub) = 16%nat) by (unfold idt_irq_stubs; by rewrite length_fmap, length_seqZ).
  assert (Hl3 : length interrupt_descriptor_table_clear = 256%nat) by (unfold interrupt_descriptor_table_clear; by rewrite length_replicate).
  rewrite Hl1 in E1. rewrite Hl2 in E2. unfold PIC_VECTOR_OFFSET_MASTER in *.
  destruct (Z.eqb_spec v 128) as [->|H128]; [rewrite list_lookup_insert_eq; [done|rewrite length_insert, L2, L1, Hl3; lia]|].
  rewrite list_lookup_insert_ne by lia. destruct (Z.eqb_spec v 64) as [->|H64]; [rewrite list_lookup_insert_eq; [done|rewrite L2, L1, Hl3; lia]|].
  rewrite list_lookup_insert_ne, E2, E1 by lia. rewrite !orb_false_r. destruct (Z.ltb_spec v 48).
  - unfold idt_exception_stubs, idt_irq_stubs. case_decide as Hd.
    + rewrite list_lookup_fmap, lookup_seqZ_lt by lia. cbn -[Z.to_nat]. do 3 f_equal. lia.
    + rewrite decide_True by (change (Z.to_nat 0x20) with 32%nat in *; lia). rewrite list_lookup_fmap, lookup_seqZ_lt by lia. cbn -[Z.to_nat]. do 3 f_equal. lia.
  - rewrite !decide_False by lia. unfold interrupt_descriptor_table_clear. apply lookup_replicate_2. lia.
Qed.

End Tables.

Module Entry.
Import Tables.

(** ** The processor and its memory *)

Record regs := mkRegs { eax : Z; ecx : Z; edx : Z; ebx : Z; esp : Z; ebp : Z; esi : Z; edi : Z }.

(** [F] is the state of the floating point unit. *)
Record core (F : Type) := mkCore {
  gpr : regs;
  eip : Z;
  eflags : Z;
  cs : Z;
  ss : Z;
  ds : Z;
  es : Z;
  fs : Z;
  gs : Z;
  fpu : F }.
Arguments mkCore {F}.
Arguments gpr {F}.
Arguments eip {F}.
Arguments eflags {F}.
Arguments cs {F}.
Arguments ss {F}.
Arguments ds {F}.
Arguments es {F}.
Arguments fs {F}.
Arguments gs {F}.
Arguments fpu {F}.

(** [InterruptFrame_t] *)
Record frame := mkFrame {
  f_ds : Z; f_edi : Z; f_esi : Z; f_ebp : Z; f_esp : Z; f_ebx : Z; f_edx : Z; f_ecx : Z; f_eax : Z;
  f_int_no : Z; f_err_code : Z; f_eip : Z; f_cs : Z; f_eflags : Z }.

(** What a handler does: it returns, perhaps after
    [interrupt_frame_set_resume_address], or prints and halts. *)
Inductive text_piece := Text (s : string) | Hex32 (v : Z).
Inductive result (K : Type) := Return (k : K) (resume : option Z) | Panic (text : list text_piece).
Arguments Return {K}.
Arguments Panic {K}.

Section entry.
Context {F K : Type}.
Abbreviation handler := (frame -> K -> result K).

(** [mem] holds the words of the stacks by address, [area] is
    [isr_fpu_save_area], [table] is [g_isr_table]. *)
Record machine := mkMachine { cpu : core F; mem : zmap; area : F; kernel : K; table : gmap Z handler }.

Definition with_cpu (c : core F) (m : machine) : machine := mkMachine c (mem m) (area m) (kernel m) (table m).
Definition with_mem (x : zmap) (m : machine) : machine := mkMachine (cpu m) x (area m) (kernel m) (table m).
Definition with_area (x : F) (m : machine) : machine := mkMachine (cpu m) (mem m) x (kernel m) (table m).
Definition with_kernel (k : K) (m : machine) : machine := mkMachine (cpu m) (mem m) (area m) k (table m).

Definition set_gpr (r : regs) (c : core F) : core F :=
  mkCore r (eip c) (eflags c) (cs c) (ss c) (ds c) (es c) (fs c) (gs c) (fpu c).
Definition set_esp (x : Z) (r : regs) : regs := mkRegs (eax r) (ecx r) (edx r) (ebx r) x (ebp r) (esi r) (edi r).
Definition set_eax (x : Z) (r : regs) : regs := mkRegs x (ecx r) (edx r) (ebx r) (esp r) (ebp r) (esi r) (edi r).
(** [movw %ax, %ds] and so on for the four data segments. *)
Definition set_data (x : Z) (c : core F) : core F :=
  mkCore (gpr c) (eip c) (eflags c) (cs c) (ss c) x x x x (fpu c).
Definition set_fpu (x : F) (c : core F) : core F :=
  mkCore (gpr c) (eip c) (eflags c) (cs c) (ss c) (ds c) (es c) (fs c) (gs c) x.
Definition set_code (i f s : Z) (c : core F) : core F :=
  mkCore (gpr c) i f s (ss c) (ds c) (es c) (fs c) (gs c) (fpu c).
Definition set_stack (s p : Z) (c : core F) : core F :=
  mkCore (set_esp p (gpr c)) (eip c) (eflags c) (cs c) s (ds c) (es c) (fs c) (gs c) (fpu c).

Definition esp_of (m : machine) : Z := esp (gpr (cpu m)).
Definition move_esp (x : Z) (m : machine) : machine := with_cpu (set_gpr (set_esp x (gpr (cpu m))) (cpu m)) m.

Definition push (w : Z) (m : machine) : machine :=
  let sp := esp_of m ⊟ 4 in with_mem (<[sp := w]> (mem m)) (move_esp sp m).
Definition pushes (ws : list Z) (m : machine) : machine := foldl (fun m w => push w m) m ws.

(** The word [k] places above the top of the stack. *)
Definition word (k : Z) (m : machine) : Z := zget (mem m) (esp_of m + 4 * k).

(** ** Delivery, as the processor does it

    [soft] says that an instruction asked for it, [err] is the error code that
    the processor pushes. [None] is a further fault. *)

Definition IF_TF_NT : Z := 0x4300.
Definition ring (s : Z) : Z := Z.land s 3.

Definition deliver (gdt : list gdt_entry) (idt : list idt_entry) (tss : tss_t) (v : Z) (soft : bool) (err : option Z) (m : machine) : option machine :=
  g ← idt !! Z.to_nat v;
  if negb (gate_present g) || negb (gate_type g =? 0xE) then None
  else if soft && (gate_dpl g <? ring (cs (cpu m))) then None
  else
    d ← gdt !! Z.to_nat (selector g / 8);
    if negb (segment_present d && segment_is_code d && (segment_dpl d =? 0)) then None
    else
      let old := cpu m in
      let m := if ring (cs old) =? 0 then m
               else pushes [ss old; esp (gpr old)] (with_cpu (set_stack (segment_selector0 tss) (estack_pointer0 tss) old) m) in
      let m := pushes ([eflags old; cs old; eip old] ++ option_list err) m in
      Some (with_cpu (set_code (gate_offset g) (Z.ldiff (eflags old) IF_TF_NT) (selector g) (cpu m)) m).

(** ** isr_stubs.s *)

Definition has_error (n : Z) : bool := bool_decide (n ∈ [8; 10; 11; 12; 13; 14; 17; 21]).

Definition KERNEL_DS_SELECTOR : Z := 0x10.

Definition isr (n : Z) (m : machine) : machine := if has_error n then push n m else pushes [0; n] m.

Definition pusha (m : machine) : machine :=
  let r := gpr (cpu m) in pushes [eax r; ecx r; edx r; ebx r; esp r; ebp r; esi r; edi r] m.

(** From [movl %ds, %eax] up to the call: the frame's address is on the top of
    the stack. *)
Definition save_segments (m : machine) : machine :=
  let m := with_cpu (set_gpr (set_eax (ds (cpu m)) (gpr (cpu m))) (cpu m)) m in
  let m := push (eax (gpr (cpu m))) m in
  let m := with_cpu (set_data KERNEL_DS_SELECTOR (cpu m)) m in
  let m := with_area (fpu (cpu m)) m in
  push (esp_of m) m.

Definition isr_common_enter (m : machine) : machine := save_segments (pusha m).

Definition read_frame (p : Z) (m : machine) : frame :=
  let w k := zget (mem m) (p + 4 * k) in
  mkFrame (w 0) (w 1) (w 2) (w 3) (w 4) (w 5) (w 6) (w 7) (w 8) (w 9) (w 10) (w 11) (w 12) (w 13).

(** ** isr.c *)

Definition interrupt_service_routine_register_handler (v : Z) (h : handler) (m : machine) : machine :=
  mkMachine (cpu m) (mem m) (area m) (kernel m) (<[u8 v := h]> (table m)).

Definition ISR_EXCEPTION_NAMES : list string :=
  ["#DE Divide Error Fault"; "#DB Debug Exception Trap"; "#NMI Non-Maskable Interrupt"; "#BP Breakpoint Trap";
   "#OF Overflow Trap"; "#BR BOUND Range Exceeded Fault"; "#UD Invalid Opcode (Undefined Opcode) Fault";
   "#NM Device Not Available (No Math Coprocessor) Fault"; "#DF Double Fault Abort";
   "Coprocessor Segment Overrun (reserved) Fault"; "#TS Invalid TSS Fault"; "#NP Segment Not Present Fault";
   "#SS Stack-Segment Fault"; "#GP General Protection Fault"; "#PF Page Fault"; "Reserved (15)";
   "#MF x87 Floating-Point Error (Math Fault)"; "#AC Alignment Check Fault"; "#MC Machine Check Abort";
   "#XF SIMD Floating-Point Exception Fault"; "#VE Virtualization Exception Fault";
   "#CP Control Protection Exception Fault"; "Reserved (22)"; "Reserved (23)"; "Reserved (24)"; "Reserved (25)";
   "Reserved (26)"; "Reserved (27)"; "Reserved (28)"; "Reserved (29)"; "Reserved (30)"; "Reserved (31)"]%string.

(** A carriage return and a line feed. *)
Definition eol : string := String.String (ascii_of_nat 13) (String.String (ascii_of_nat 10) String.EmptyString).

Definition line (label : string) (v : Z) : list text_piece := [Text label; Hex32 v; Text eol].

Definition isr_default_handler (f : frame) : list text_piece :=
  let name := if f_int_no f <? 32 then default "Unknown interrupt"%string (ISR_EXCEPTION_NAMES !! Z.to_nat (f_int_no f)) else "Unknown interrupt"%string in
  [Text eol; Text eol; Text "[KERNEL PANIC] Unhandled exception: "%string; Text name; Text eol] ++
  line "  int_no  = " (f_int_no f) ++ line "  err_code= " (f_err_code f) ++ line "  eip     = " (f_eip f) ++
  line "  cs      = " (f_cs f) ++ line "  eflags  = " (f_eflags f) ++ line "  eax     = " (f_eax f) ++
  line "  ecx     = " (f_ecx f) ++ line "  edx     = " (f_edx f) ++ line "  ebx     = " (f_ebx f) ++
  line "  esp     = " (f_esp f) ++ line "  ebp     = " (f_ebp f) ++ line "  esi     = " (f_esi f) ++
  line "  edi     = " (f_edi f) ++ line "  ds      = " (f_ds f) ++ [Text "--- HALTED ---"%string; Text eol].

Definition interrupt_service_routine_dispatch (f : frame) (m : machine) : result K :=
  match table m !! f_int_no f with
  | Some h => h f (kernel m)
  | None => Panic (isr_default_handler f)
  end.

(** What compiled code may leave behind: the registers that a call does not
    preserve, the flags, the floating point state and the stack below the
    frame. *)
Record clobber := mkClobber { c_eax : Z; c_ecx : Z; c_edx : Z; c_eflags : Z; c_fpu : F; c_stack : zmap }.

Definition EIP_OFFSET : Z := 44.

(** [call interrupt_service_routine_dispatch] with the frame's address on the
    stack. *)
Definition call_dispatch (x : clobber) (m : machine) : machine + list text_piece :=
  let p := word 0 m in
  match interrupt_service_routine_dispatch (read_frame p m) m with
  | Panic t => inr t
  | Return k resume =>
    let r := gpr (cpu m) in
    let c := mkCore (mkRegs (c_eax x) (c_ecx x) (c_edx x) (ebx r) (esp r) (ebp r) (esi r) (edi r)) (eip (cpu m)) (c_eflags x)
               (cs (cpu m)) (ss (cpu m)) (ds (cpu m)) (es (cpu m)) (fs (cpu m)) (gs (cpu m)) (c_fpu x) in
    let kept := filter (fun '(q, _) => p <= q) (mem m) in
    let low := filter (fun '(q, _) => q < p) (c_stack x) in
    let mem' := match resume with Some a => <[p + EIP_OFFSET := a]> kept | None => kept end in
    inl (mkMachine c (mem' ∪ low) (area m) k (table m))
  end.

(** After the call. [popa] skips the saved stack pointer. *)
Definition isr_common_leave (m : machine) : machine :=
  let m := move_esp (esp_of m ⊞ 4) m in
  let m := with_cpu (set_fpu (area m) (cpu m)) m in
  let m := with_cpu (set_gpr (set_eax (word 0 m) (gpr (cpu m))) (cpu m)) m in
  let m := move_esp (esp_of m ⊞ 4) m in
  let m := with_cpu (set_data (u16 (eax (gpr (cpu m)))) (cpu m)) m in
  let m := with_cpu (set_gpr (mkRegs (word 7 m) (word 6 m) (word 5 m) (word 4 m) (esp_of m ⊞ 32) (word 2 m) (word 1 m) (word 0 m)) (cpu m)) m in
  move_esp (esp_of m ⊞ 8) m.

(** A return to an outer ring takes the stack from the stack. *)
Definition iret (m : machine) : machine :=
  let c := cpu m in
  let outer := negb (ring (word 1 m) =? ring (cs c)) in
  let c' := set_code (word 0 m) (word 2 m) (word 1 m) c in
  with_cpu (if outer then set_stack (word 4 m) (word 3 m) c' else set_gpr (set_esp (esp_of m ⊞ 12) (gpr c')) c') m.

(** Delivery to return. The stub that runs is the one whose address the gate
    holds. *)
Definition interrupt (stub : Z -> Z) (gdt : list gdt_entry) (idt : list idt_entry) (tss : tss_t)
    (v : Z) (soft : bool) (err : option Z) (x : clobber) (m : machine) : option (machine + list text_piece) :=
  m ← deliver gdt idt tss v soft err m;
  n ← list_find (fun n => stub n = eip (cpu m)) (seqZ 0 256);
  Some match call_dispatch x (isr_common_enter (isr n.2 m)) with
       | inl m => inl (iret (isr_common_leave m))
       | inr t => inr t
       end.

(** ** The stack during an interrupt *)

(** [ws] has been pushed from [sp] down since [m0]. *)
Record stacked (sp : Z) (ws : list Z) (m0 m : machine) : Prop := {
  k_esp : esp_of m = sp - 4 * Z.of_nat (length ws);
  k_words i w : ws !! i = Some w -> zget (mem m) (sp - 4 * (Z.of_nat i + 1)) = w;
  k_above q : sp <= q -> zget (mem m) q = zget (mem m0) q }.

Lemma stacked_push sp ws m0 m w :
  stacked sp ws m0 m -> 4096 <= sp < 2 ^ 32 -> (length ws < 1000)%nat -> stacked sp (ws ++ [w]) m0 (push w m).
Proof.
  intros [] Hsp Hl. unfold push. assert (Es : esp_of m ⊟ 4 = sp - 4 * (Z.of_nat (length ws) + 1)) by (rewrite k_esp0, sub32_small by lia; lia).
  split; cbn [esp_of gpr cpu mem with_mem move_esp with_cpu set_gpr set_esp esp]; rewrite Es.
  - rewrite length_app. cbn. lia.
  - intros i x Hi. apply lookup_app_Some in Hi as [Hi|[Hle Hi]].
    + pose proof (lookup_lt_Some _ _ _ Hi). rewrite zget_insert_ne by lia. by apply k_words0.
    + assert (i = length ws) as -> by (apply list_lookup_singleton_Some in Hi as [? _]; lia). rewrite Nat.sub_diag in Hi. injection Hi as <-. by rewrite zget_insert_eq.
  - intros q Hq. rewrite zget_insert_ne by lia. by apply k_above0.
Qed.

Lemma stacked_pushes sp m0 ws' : forall ws m,
  stacked sp ws m0 m -> 4096 <= sp < 2 ^ 32 -> (length ws + length ws' <= 1000)%nat -> stacked sp (ws ++ ws') m0 (pushes ws' m).
Proof.
  induction ws' as [|w ws' IH]; intros ws m Hs Hsp Hl; [by rewrite app_nil_r|]. cbn [length] in Hl.
  change (pushes (w :: ws') m) with (pushes ws' (push w m)). replace (ws ++ w :: ws') with ((ws ++ [w]) ++ ws') by (by rewrite <- app_assoc).
  apply IH; [apply stacked_push; [done|done|lia]|done|]. rewrite length_app. cbn. lia.
Qed.

(** Pushes move nothing but the stack pointer. *)
Lemma pushes_same ws : forall m,
  cpu (pushes ws m) = set_gpr (set_esp (esp_of (pushes ws m)) (gpr (cpu m))) (cpu m) /\
  area (pushes ws m) = area m /\ kernel (pushes ws m) = kernel m /\ table (pushes ws m) = table m.
Proof.
  induction ws as [|w ws IH]; intros m; [by destruct m as [[[]]]|]. change (pushes (w :: ws) m) with (pushes ws (push w m)).
  destruct (IH (push w m)) as (E & -> & -> & ->). split; [|done]. rewrite E. done.
Qed.

Lemma stacked_cpu sp ws m0 m c : stacked sp ws m0 m -> esp (gpr c) = esp_of m -> stacked sp ws m0 (with_cpu c m).
Proof. intros [] E. split; [|done|done]. change (esp (gpr c) = sp - 4 * Z.of_nat (length ws)). by rewrite E. Qed.

Lemma stacked_area sp ws m0 m x : stacked sp ws m0 m -> stacked sp ws m0 (with_area x m).
Proof. by intros []. Qed.

(** The words of the frame, from its address up. *)
Lemma stacked_frame sp ws m0 m k w :
  stacked sp ws m0 m -> reverse ws !! k = Some w -> zget (mem m) (esp_of m + 4 * Z.of_nat k) = w.
Proof.
  intros [] Hk. pose proof (lookup_lt_Some _ _ _ Hk) as Hl. rewrite length_reverse in Hl. rewrite reverse_lookup in Hk by lia.
  rewrite k_esp0. apply k_words0 in Hk. rewrite <- Hk. f_equal. lia.
Qed.

(** *** From the frame back to the interrupted code *)

Lemma leave_state m P :
  esp_of m = P - 4 -> 0 < P -> P + 56 < 2 ^ 32 ->
  let w k := zget (mem m) (P + 4 * k) in
  let outer := negb (ring (w 12) =? ring (cs (cpu m))) in
  iret (isr_common_leave m) =
  with_cpu (mkCore (mkRegs (w 8) (w 7) (w 6) (w 5) (if outer then w 14 else P + 56) (w 3) (w 2) (w 1)) (w 11) (w 13) (w 12)
    (if outer then w 15 else ss (cpu m)) (u16 (w 0)) (u16 (w 0)) (u16 (w 0)) (u16 (w 0)) (area m)) m.
Proof.
  intros Hp H0 Hb w outer. destruct m as [[[a0 c0 d0 b0 sp bp0 si0 di0] i0 fl0 cs0 ss0 ds0 es0 fs0 gs0 fp0] mm ar kn tb].
  cbn in Hp. subst sp. unfold w in *. clear w. unfold outer. clear outer.
  cbv beta iota zeta delta [iret isr_common_leave word esp_of move_esp with_cpu set_gpr set_esp set_eax set_data set_fpu set_code set_stack
    cpu mem gpr esp eax area ecx edx ebx ebp esi edi eip eflags cs ss ds es fs gs fpu kernel table].
  rewrite (add32_small (P - 4) 4) by lia. replace (P - 4 + 4) with P by lia.
  rewrite (add32_small P 4), (add32_small (P + 4) 32), (add32_small (P + 4 + 32) 8), (add32_small (P + 4 + 32 + 8) 12) by lia.
  rewrite <- !Z.add_assoc. change (4 + (32 + (8 + 12))) with 56.
  change (4 + (32 + (8 + 4 * 1))) with (4 * 12). by destruct (negb (ring (zget mm (P + 4 * 12)) =? ring cs0)).
Qed.

(** *** From the interrupted code to the frame *)

Lemma save_state sp A m0 m :
  stacked sp A m0 m -> 4096 <= sp < 2 ^ 32 -> (length A <= 20)%nat ->
  let W := A ++ [ds (cpu m)] in
  let m' := save_segments m in
  stacked sp (W ++ [sp - 4 * Z.of_nat (length W)]) m0 m' /\ area m' = fpu (cpu m) /\ kernel m' = kernel m /\ table m' = table m /\
  cs (cpu m') = cs (cpu m) /\ ss (cpu m') = ss (cpu m).
Proof.
  intros Hs Hsp Hl W m'. split; [|split_and!; reflexivity].
  assert (H2 : stacked sp A m0 (with_cpu (set_gpr (set_eax (ds (cpu m)) (gpr (cpu m))) (cpu m)) m)) by (apply stacked_cpu; [exact Hs|reflexivity]).
  apply (stacked_push _ _ _ _ (ds (cpu m))) in H2; [|done|lia].
  assert (HW : (length W <= 21)%nat) by (unfold W; rewrite length_app; cbn; lia).
  fold W in H2. set (m3 := push (ds (cpu m)) _) in H2.
  assert (H4 : stacked sp W m0 (with_area (fpu (cpu m3)) (with_cpu (set_data KERNEL_DS_SELECTOR (cpu m3)) m3)))
    by (apply stacked_area, stacked_cpu; [exact H2|reflexivity]).
  set (m4 := with_area _ _) in H4. rewrite <- (k_esp _ _ _ _ H4). change m' with (push (esp_of m4) m4). apply stacked_push; [exact H4|done|lia].
Qed.

Lemma enter_state sp A m0 m :
  stacked sp A m0 m -> 4096 <= sp < 2 ^ 32 -> (length A <= 10)%nat ->
  let r := gpr (cpu m) in
  let W := (A ++ [eax r; ecx r; edx r; ebx r; esp r; ebp r; esi r; edi r]) ++ [ds (cpu m)] in
  let m' := isr_common_enter m in
  stacked sp (W ++ [sp - 4 * Z.of_nat (length W)]) m0 m' /\ area m' = fpu (cpu m) /\ kernel m' = kernel m /\ table m' = table m /\
  cs (cpu m') = cs (cpu m) /\ ss (cpu m') = ss (cpu m).
Proof.
  intros Hs Hsp Hl r W m'. set (B := [eax r; ecx r; edx r; ebx r; esp r; ebp r; esi r; edi r]) in *.
  destruct (pushes_same B m) as (C1 & C2 & C3 & C4).
  destruct (save_state sp (A ++ B) m0 (pusha m)) as (H1 & H2 & H3 & H4 & H5 & H6);
    [apply (stacked_pushes sp m0 B A m Hs Hsp); cbn; lia|done|rewrite length_app; cbn; lia|].
  assert (E : cpu (pusha m) = set_gpr (set_esp (esp_of (pusha m)) (gpr (cpu m))) (cpu m)) by exact C1.
  rewrite E in *. split_and!; [exact H1|exact H2|by rewrite <- C3|by rewrite <- C4|exact H5|exact H6].
Qed.

(** The state of the kernel's tables. *)
Section delivery.
Context (stub : Z -> Z) (tss_address boot_esp : Z).
Hypothesis Hstub : forall v, 0 <= v < 256 -> in32 (stub v).
Abbreviation gdt := ((global_descriptor_table_initialize tss_address boot_esp).1).
Abbreviation idt := (interrupt_descriptor_table_initialize stub).
Abbreviation tss := ((global_descriptor_table_initialize tss_address boot_esp).2).

(** Where the frame goes, and the words the processor pushes. *)
Definition entry_stack (c : core F) : Z := if ring (cs c) =? 0 then esp (gpr c) else boot_esp.
Definition pushed (c : core F) (err : option Z) : list Z :=
  (if ring (cs c) =? 0 then [] else [ss c; esp (gpr c)]) ++ [eflags c; cs c; eip c] ++ option_list err.

Lemma ring_range x : 0 <= ring x <= 3.
Proof. unfold ring. assert (E : Z.land x 3 = x mod 4) by (change 3 with (Z.ones 2); by rewrite Z.land_ones). rewrite E. pose proof (Z.mod_pos_bound x 4). lia. Qed.

Lemma deliver_gate v soft err (m : machine) :
  0 <= v < 256 -> installed v = true -> soft = false \/ ring (cs (cpu m)) = 0 \/ v = 128 ->
  deliver gdt idt tss v soft err m =
  let old := cpu m in
  let m1 := if ring (cs old) =? 0 then m
            else pushes [ss old; esp (gpr old)] (with_cpu (set_stack 0x10 boot_esp old) m) in
  let m2 := pushes ([eflags old; cs old; eip old] ++ option_list err) m1 in
  Some (with_cpu (set_code (stub v) (Z.ldiff (eflags old) IF_TF_NT) 8 (cpu m2)) m2).
Proof.
  intros Hv Hin Hsoft. unfold deliver. rewrite idt_lookup, Hin by done. cbn [mbind option_bind].
  set (fl := if v =? 128 then IDT_USER_INTERRUPT_GATE else IDT_KERNEL_INTERRUPT_GATE).
  assert (Hfl : fl = 0xEE /\ v = 128 \/ fl = 0x8E) by (unfold fl; destruct (Z.eqb_spec v 128); [by left|by right]).
  assert (Hg : gate_present (interrupt_descriptor_table_encode_flat_entry (stub v) GDT_KERNEL_CODE_SELECTOR fl) = true /\
    gate_type (interrupt_descriptor_table_encode_flat_entry (stub v) GDT_KERNEL_CODE_SELECTOR fl) = 0xE /\
    gate_dpl (interrupt_descriptor_table_encode_flat_entry (stub v) GDT_KERNEL_CODE_SELECTOR fl) = if fl =? 0xEE then 3 else 0).
  { unfold gate_present, gate_type, gate_dpl. cbn [type_attributes interrupt_descriptor_table_encode_flat_entry]. by destruct Hfl as [[-> _]| ->]. }
  destruct Hg as (-> & -> & ->). change (negb true || negb (0xE =? 0xE)) with false. cbn match.
  assert (Hs : soft && ((if fl =? 0xEE then 3 else 0) <? ring (cs (cpu m))) = false).
  { pose proof (ring_range (cs (cpu m))). destruct soft; [|done]. cbn [andb]. apply Z.ltb_ge. destruct Hfl as [[-> _]|Hfl]; [rewrite Z.eqb_refl; lia|].
    destruct Hsoft as [?|[E| ->]]; [done|case_match; lia|done]. }
  rewrite Hs, (gate_roundtrip (stub v)) by (by apply Hstub). reflexivity.
Qed.

Lemma deliver_state v soft err (m : machine) :
  0 <= v < 256 -> installed v = true -> soft = false \/ ring (cs (cpu m)) = 0 \/ v = 128 -> 4096 <= entry_stack (cpu m) < 2 ^ 32 ->
  exists m1, deliver gdt idt tss v soft err m = Some m1 /\ stacked (entry_stack (cpu m)) (pushed (cpu m) err) m m1 /\
    gpr (cpu m1) = set_esp (esp_of m1) (gpr (cpu m)) /\ eip (cpu m1) = stub v /\ cs (cpu m1) = 8 /\
    ss (cpu m1) = (if ring (cs (cpu m)) =? 0 then ss (cpu m) else 0x10) /\ ds (cpu m1) = ds (cpu m) /\ fpu (cpu m1) = fpu (cpu m) /\
    kernel m1 = kernel m /\ table m1 = table m.
Proof.
  intros Hv Hin Hsoft Hst. rewrite deliver_gate by done. cbv zeta. eexists. split; [reflexivity|].
  unfold entry_stack, pushed in *. set (X := [eflags (cpu m); cs (cpu m); eip (cpu m)] ++ option_list err).
  assert (HX : (length X <= 4)%nat) by (unfold X; rewrite length_app; destruct err; cbn; lia).
  destruct (ring (cs (cpu m)) =? 0).
  - destruct (pushes_same X m) as (C1 & _ & C3 & C4).
    assert (Hs : stacked (esp (gpr (cpu m))) X m (pushes X m)).
    { apply (stacked_pushes (esp (gpr (cpu m))) m X [] m); [split; [unfold esp_of; cbn [length]; lia|done|done]|done|cbn [length]; lia]. }
    split; [by apply stacked_cpu|]. cbn [cpu with_cpu gpr set_code esp_of kernel table eip cs ss ds fpu]. rewrite C3, C4, C1. done.
  - set (Y := [ss (cpu m); esp (gpr (cpu m))]). set (m0 := with_cpu _ m).
    destruct (pushes_same Y m0) as (D1 & _ & D3 & D4). destruct (pushes_same X (pushes Y m0)) as (C1 & _ & C3 & C4).
    assert (Hs : stacked boot_esp (Y ++ X) m (pushes X (pushes Y m0))).
    { apply stacked_pushes; [|done|unfold Y; cbn [length]; lia]. apply (stacked_pushes boot_esp m Y [] m0); [split; [cbn [length]; change (esp_of m0) with boot_esp; lia|done|done]|done|unfold Y; cbn [length]; lia]. }
    split; [by apply stacked_cpu|]. cbn [cpu with_cpu gpr set_code esp_of kernel table eip cs ss ds fpu]. rewrite C3, C4, C1, D3, D4, D1. done.
Qed.

Hypothesis Hinj : forall v w, 0 <= v < 256 -> 0 <= w < 256 -> stub v = stub w -> v = w.

Lemma find_stub v : 0 <= v < 256 -> list_find (fun n => stub n = stub v) (seqZ 0 256) = Some (Z.to_nat v, v).
Proof.
  intros Hv. apply list_find_Some. split; [rewrite lookup_seqZ_lt by lia; f_equal; lia|]. split; [done|].
  intros j y Hj Hlt E. rewrite lookup_seqZ_lt in Hj by lia. injection Hj as <-. apply Hinj in E; lia.
Qed.

(** All the words below the frame's own: what the processor and the stub have
    pushed when the vector number is on the stack. *)
Definition entry_words (c : core F) (err : option Z) (v : Z) : list Z :=
  (if ring (cs c) =? 0 then [] else [ss c; esp (gpr c)]) ++ [eflags c; cs c; eip c; default 0 err; v].

Lemma isr_state v soft err (m : machine) :
  0 <= v < 256 -> installed v = true -> soft = false \/ ring (cs (cpu m)) = 0 \/ v = 128 -> 4096 <= entry_stack (cpu m) < 2 ^ 32 ->
  (is_Some err <-> has_error v = true) ->
  exists m1 m2, deliver gdt idt tss v soft err m = Some m1 /\ m2 = isr v m1 /\ eip (cpu m1) = stub v /\
    stacked (entry_stack (cpu m)) (entry_words (cpu m) err v) m m2 /\
    gpr (cpu m2) = set_esp (esp_of m2) (gpr (cpu m)) /\ cs (cpu m2) = 8 /\
    ss (cpu m2) = (if ring (cs (cpu m)) =? 0 then ss (cpu m) else 0x10) /\ ds (cpu m2) = ds (cpu m) /\ fpu (cpu m2) = fpu (cpu m) /\
    kernel m2 = kernel m /\ table m2 = table m.
Proof.
  intros Hv Hin Hsoft Hst He. destruct (deliver_state v soft err m Hv Hin Hsoft Hst) as (m1 & E & Hs & G & Ei & Ec & Es & Ed & Ef & Ek & Et).
  set (Z0 := if has_error v then [v] else [0; v]).
  assert (Ez : isr v m1 = pushes Z0 m1) by (unfold isr, Z0; by destruct (has_error v)).
  assert (Ea : pushed (cpu m) err ++ Z0 = entry_words (cpu m) err v).
  { unfold pushed, entry_words, Z0. rewrite <- app_assoc. f_equal. destruct err as [e|], (has_error v) eqn:Eh; cbn; try done.
    - by pose proof (proj1 He (mk_is_Some _ _ eq_refl)).
    - by destruct (proj2 He eq_refl) as [? ?]. }
  destruct (pushes_same Z0 m1) as (C1 & _ & C3 & C4). exists m1, (isr v m1). rewrite Ez. split; [done|]. split; [done|]. split; [done|].
  split; [rewrite <- Ea; apply stacked_pushes; [done|done|]|].
  - unfold pushed, Z0. rewrite !length_app. destruct (_ =? 0), err, (has_error v); cbn; lia.
  - rewrite C3, C4, C1. cbn [gpr set_gpr cs ss ds fpu]. rewrite G. done.
Qed.

Lemma kept_above (mm : zmap) (low : zmap) P q : P <= q ->
  zget (filter (fun '(q, _) => P <= q) mm ∪ filter (fun '(q, _) => q < P) low) q = zget mm q.
Proof.
  intros Hq. unfold zget. f_equal. destruct (mm !! q) as [w|] eqn:E.
  - apply lookup_union_Some_l. by apply map_lookup_filter_Some.
  - apply lookup_union_None. split; [by apply map_lookup_filter_None; left|]. apply map_lookup_filter_None. right. intros w _. lia.
Qed.

(** What the handler is shown. *)
Definition frame_of (c : core F) (err : option Z) (v : Z) : frame :=
  let r := gpr c in
  mkFrame (ds c) (edi r) (esi r) (ebp r) (entry_stack c - 4 * Z.of_nat (length (entry_words c err v))) (ebx r) (edx r) (ecx r) (eax r)
    v (default 0 err) (eip c) (cs c) (eflags c).

Definition frame_address (c : core F) (err : option Z) (v : Z) : Z :=
  entry_stack c - 4 * Z.of_nat (length (entry_words c err v)) - 36.

(** All the words from the frame's address up to the interrupted stack. *)
Definition frame_words (c : core F) (err : option Z) (v : Z) : list Z :=
  let f := frame_of c err v in
  [f_ds f; f_edi f; f_esi f; f_ebp f; f_esp f; f_ebx f; f_edx f; f_ecx f; f_eax f; v; default 0 err; eip c; cs c; eflags c] ++
  (if ring (cs c) =? 0 then [] else [esp (gpr c); ss c]).

Lemma framed v soft err (m : machine) :
  0 <= v < 256 -> installed v = true -> soft = false \/ ring (cs (cpu m)) = 0 \/ v = 128 -> 4096 <= entry_stack (cpu m) < 2 ^ 32 ->
  (is_Some err <-> has_error v = true) ->
  let c := cpu m in let P := frame_address c err v in
  exists m1 m3, deliver gdt idt tss v soft err m = Some m1 /\ eip (cpu m1) = stub v /\ m3 = isr_common_enter (isr v m1) /\
    word 0 m3 = P /\ esp_of m3 = P - 4 /\ (forall k w, frame_words c err v !! k = Some w -> zget (mem m3) (P + 4 * Z.of_nat k) = w) /\
    (forall q, entry_stack c <= q -> zget (mem m3) q = zget (mem m) q) /\
    cs (cpu m3) = 8 /\ ss (cpu m3) = (if ring (cs c) =? 0 then ss c else 0x10) /\ area m3 = fpu c /\ kernel m3 = kernel m /\ table m3 = table m.
Proof.
  intros Hv Hin Hsoft Hst He c P. destruct (isr_state v soft err m Hv Hin Hsoft Hst He) as (m1 & m2 & E & E2 & Ei & Hs & G & Ec & Es & Ed & Ef & Ek & Et).
  assert (Hc : cpu m = c) by reflexivity. rewrite Hc in *. clearbody c.
  assert (HA : (length (entry_words c err v) <= 10)%nat) by (unfold entry_words; rewrite length_app; case_match; cbn; lia).
  destruct (enter_state (entry_stack c) (entry_words c err v) m m2 Hs Hst HA) as (H1 & H2 & H3 & H4 & H5 & H6).
  exists m1, (isr_common_enter m2). split; [done|]. split; [done|]. split; [by rewrite E2|].
  assert (Esp : esp (gpr (cpu m2)) = entry_stack c - 4 * Z.of_nat (length (entry_words c err v))) by (apply (k_esp _ _ _ _ Hs)).
  rewrite G, Ed in H1. cbn [eax ecx edx ebx esp ebp esi edi set_esp] in H1. change (esp_of m2) with (esp (gpr (cpu m2))) in H1. rewrite Esp in H1.
  set (W := (entry_words c err v ++ _) ++ _) in H1.
  assert (EW : reverse W = frame_words c err v).
  { unfold W, frame_words, frame_of, entry_words. rewrite !reverse_app. by destruct (ring (cs c) =? 0). }
  assert (EP : entry_stack c - 4 * Z.of_nat (length W) = P) by (unfold P, frame_address, W; rewrite !length_app; cbn [length]; lia).
  rewrite EP in H1. pose proof (k_esp _ _ _ _ H1) as Ep. rewrite length_app in Ep. cbn [length] in Ep.
  assert (Hw : forall k w, frame_words c err v !! k = Some w -> zget (mem (isr_common_enter m2)) (P + 4 * Z.of_nat k) = w).
  { intros k w Hk. rewrite <- EW in Hk. rewrite <- (stacked_frame _ _ _ _ (S k) w H1); [f_equal; lia|]. by rewrite reverse_snoc. }
  split; [apply (stacked_frame _ _ _ _ 0 P H1); by rewrite reverse_snoc|]. split; [lia|]. split; [done|]. split; [apply (k_above _ _ _ _ H1)|].
  rewrite H2, H3, H4, H5, H6. done.
Qed.

Lemma framed_read c err v (m3 : machine) :
  (forall k w, frame_words c err v !! k = Some w -> zget (mem m3) (frame_address c err v + 4 * Z.of_nat k) = w) ->
  read_frame (frame_address c err v) m3 = frame_of c err v.
Proof.
  intros Hw. unfold read_frame, frame_of.
  f_equal; [exact (Hw 0%nat _ eq_refl)|exact (Hw 1%nat _ eq_refl)|exact (Hw 2%nat _ eq_refl)|exact (Hw 3%nat _ eq_refl)|exact (Hw 4%nat _ eq_refl)|exact (Hw 5%nat _ eq_refl)|exact (Hw 6%nat _ eq_refl)|exact (Hw 7%nat _ eq_refl)|exact (Hw 8%nat _ eq_refl)|exact (Hw 9%nat _ eq_refl)|exact (Hw 10%nat _ eq_refl)|exact (Hw 11%nat _ eq_refl)|exact (Hw 12%nat _ eq_refl)|exact (Hw 13%nat _ eq_refl)].
Qed.

(** The stubs save one data segment register and load all four from it. *)
Definition one_segment (c : core F) : core F :=
  mkCore (gpr c) (eip c) (eflags c) (cs c) (ss c) (ds c) (ds c) (ds c) (ds c) (fpu c).

(** The return, from the memory that the handler left. *)
Lemma resumed c err v resume m :
  let P := frame_address c err v in
  4096 <= entry_stack c < 2 ^ 32 ->
  esp_of m = P - 4 -> cs (cpu m) = 8 -> ss (cpu m) = (if ring (cs c) =? 0 then ss c else 0x10) -> area m = fpu c ->
  (forall k w, frame_words c err v !! k = Some w -> k <> 11%nat -> zget (mem m) (P + 4 * Z.of_nat k) = w) ->
  zget (mem m) (P + 44) = default (eip c) resume ->
  0 <= ds c < 2 ^ 16 ->
  iret (isr_common_leave m) = with_cpu (set_code (default (eip c) resume) (eflags c) (cs c) (one_segment c)) m.
Proof.
  intros P Hst Hesp Hcs Hss Hfp Hw Hip Hds.
  assert (HP : P + 56 = entry_stack c - (if ring (cs c) =? 0 then 0 else 8)).
  { unfold P, frame_address, entry_words. rewrite length_app. case_match; cbn [length]; lia. }
  rewrite (leave_state m P Hesp) by (case_match; lia). f_equal.
  rewrite (Hw 0%nat _ eq_refl ltac:(done) : zget (mem m) (P + 4 * 0) = _), (Hw 1%nat _ eq_refl ltac:(done) : zget (mem m) (P + 4 * 1) = _),
    (Hw 2%nat _ eq_refl ltac:(done) : zget (mem m) (P + 4 * 2) = _), (Hw 3%nat _ eq_refl ltac:(done) : zget (mem m) (P + 4 * 3) = _),
    (Hw 5%nat _ eq_refl ltac:(done) : zget (mem m) (P + 4 * 5) = _), (Hw 6%nat _ eq_refl ltac:(done) : zget (mem m) (P + 4 * 6) = _),
    (Hw 7%nat _ eq_refl ltac:(done) : zget (mem m) (P + 4 * 7) = _), (Hw 8%nat _ eq_refl ltac:(done) : zget (mem m) (P + 4 * 8) = _),
    (Hip : zget (mem m) (P + 4 * 11) = _), (Hw 12%nat _ eq_refl ltac:(done) : zget (mem m) (P + 4 * 12) = _),
    (Hw 13%nat _ eq_refl ltac:(done) : zget (mem m) (P + 4 * 13) = _).
  rewrite Hcs, Hss, Hfp. cbn [f_ds f_edi f_esi f_ebp f_ebx f_edx f_ecx f_eax frame_of].
  assert (Eu : u16 (ds c) = ds c) by (apply Z.mod_small; lia). rewrite Eu. change (ring 8) with 0.
  unfold set_code, one_segment. destruct (Z.eqb_spec (ring (cs c)) 0) as [Er|Er]; cbn [negb].
  - unfold entry_stack in HP. rewrite (proj2 (Z.eqb_eq _ _) Er) in HP. rewrite HP, Z.sub_0_r. destruct c as [[] ? ? ? ? ? ? ? ? ?]. cbn in *. by subst.
  - assert (Hr : (ring (cs c) =? 0) = false) by (by apply Z.eqb_neq).
    rewrite (Hw 14%nat (esp (gpr c)) ltac:(unfold frame_words; by rewrite Hr) ltac:(done) : zget (mem m) (P + 4 * 14) = _),
      (Hw 15%nat (ss c) ltac:(unfold frame_words; by rewrite Hr) ltac:(done) : zget (mem m) (P + 4 * 15) = _).
    destruct c as [[] ? ? ? ? ? ? ? ? ?]. cbn in *. by subst.
Qed.

(** C12: An interrupt with a stub, taken in the kernel or in user mode, shows
    its handler a frame with the interrupted registers, the vector and the error
    code. When the handler returns, whatever registers, flags, floating point
    state and stack below the frame it left, the interrupted code goes on with
    every general register, its code, stack and DS segments, the flags and the
    floating point state as before, at its own address or at the one the handler
    chose, and no word of the stack above the frame has changed. ES, FS and GS
    are not preserved: all three come back with the value of DS. Without a
    handler the frame is printed. *)
Theorem interrupt_return_exact v soft err (x : clobber) (m : machine) :
  0 <= v < 256 -> installed v = true -> soft = false \/ ring (cs (cpu m)) = 0 \/ v = 128 ->
  (is_Some err <-> has_error v = true) -> 4096 <= entry_stack (cpu m) < 2 ^ 32 ->
  0 <= ds (cpu m) < 2 ^ 16 ->
  let c := cpu m in
  match interrupt_service_routine_dispatch (frame_of c err v) m with
  | Panic t => interrupt stub gdt idt tss v soft err x m = Some (inr t)
  | Return k resume =>
    exists m', interrupt stub gdt idt tss v soft err x m = Some (inl m') /\
      cpu m' = set_code (default (eip c) resume) (eflags c) (cs c) (one_segment c) /\ kernel m' = k /\ table m' = table m /\
      forall q, entry_stack c <= q -> zget (mem m') q = zget (mem m) q
  end.
Proof.
  intros Hv Hin Hsoft He Hst Hds c.
  destruct (framed v soft err m Hv Hin Hsoft Hst He) as (m1 & m3 & Hd & Ei & Em & Hp & Hesp & Hw & Hab & Hcs & Hss & Har & Hk & Ht).
  fold c in Hp, Hesp, Hw, Hab, Hss, Har. set (P := frame_address c err v) in *.
  assert (Hint : interrupt stub gdt idt tss v soft err x m =
    Some match call_dispatch x m3 with inl m => inl (iret (isr_common_leave m)) | inr t => inr t end).
  { unfold interrupt. rewrite Hd. cbn [mbind option_bind]. rewrite Ei, find_stub by done. cbn [mbind option_bind snd]. by rewrite Em. }
  rewrite Hint. unfold call_dispatch. pose proof (framed_read c err v m3 Hw) as Hf. fold P in Hf. rewrite Hp, Hf.
  assert (Hdis : interrupt_service_routine_dispatch (frame_of c err v) m3 = interrupt_service_routine_dispatch (frame_of c err v) m)
    by (unfold interrupt_service_routine_dispatch; by rewrite Hk, Ht).
  rewrite Hdis. destruct (interrupt_service_routine_dispatch (frame_of c err v) m) as [k resume|t]; [|done].
  set (mm := match resume with Some a => <[P + EIP_OFFSET := a]> _ | None => _ end).
  set (low := filter _ (c_stack x)).
  assert (Hmm : forall q, P <= q -> zget (mm ∪ low) q = if decide (q = P + 44 /\ is_Some resume) then default 0 resume else zget (mem m3) q).
  { intros q Hq. unfold mm. destruct resume as [a|].
    - rewrite <- insert_union_l. unfold EIP_OFFSET. destruct (decide (q = P + 44)) as [->|].
      + rewrite zget_insert_eq, decide_True by (split; [done|by eexists]). done.
      + rewrite zget_insert_ne, decide_False by (done || tauto). by apply kept_above.
    - rewrite decide_False by (intros [_ [? ?]]; done). by apply kept_above. }
  assert (HPst : P + 56 <= entry_stack c).
  { unfold P, frame_address, entry_words. rewrite length_app. case_match; cbn [length]; lia. }
  eexists. split; [reflexivity|]. rewrite (resumed c err v resume); cbn [cpu mem area cs ss kernel table with_cpu].
  - split; [done|]. split; [done|]. split; [done|]. intros q Hq. rewrite Hmm, decide_False by (try lia; intros [? _]; lia). by apply Hab.
  - done.
  - exact Hesp.
  - exact Hcs.
  - exact Hss.
  - exact Har.
  - intros j w Hj Hne. rewrite Hmm, decide_False by (try (intros [? _]); lia). by apply Hw.
  - rewrite Hmm by lia. destruct resume as [a|]; [rewrite decide_True by (split; [done|by eexists]); done|].
    rewrite decide_False by (intros [_ [? ?]]; done). exact (Hw 11%nat (eip c) eq_refl).
  - exact Hds.
Qed.

(** A vector without a gate is a further fault: also 0xFF, which an enabled
    local interrupt controller uses for spurious interrupts. *)
Lemma missing_gate_faults v soft err (m : machine) :
  0 <= v < 256 -> installed v = false -> deliver gdt idt tss v soft err m = None.
Proof. intros Hv Hin. unfold deliver. rewrite idt_lookup, Hin by done. done. Qed.

End delivery.

(** The save area is one for the machine: a processor whose interrupt is
    entered while another is in its handler leaves its own floating point
    state to the other. *)
Lemma shared_area (m1 m2 : machine) :
  fpu (cpu (isr_common_leave (with_area (area (save_segments m2)) (save_segments m1)))) = fpu (cpu m2).
Proof. done. Qed.

End entry.

(** ** An example: a page fault in user mode that is stepped over

    The code keeps data of its own behind FS and GS, which it loses. *)

Definition step_over : frame -> Z -> result Z := fun f k => Return (k + f_err_code f) (Some (f_eip f + 2)).

Definition user_core : core Z := mkCore (mkRegs 1 2 3 4 0xBFFFF000 6 7 8) 0x400000 0x202 0x1B 0x23 0x23 0x23 0x33 0x3B 77.
Definition user_machine : machine := mkMachine user_core ∅ 0 100 {[14 := step_over]}.
Definition wild : clobber := mkClobber 90 91 92 93 94 {[ 0xC0007FF0 := 95 ]}.

Lemma interrupt_return_exact_witness :
  exists m', interrupt (fun v => 0xC0100000 + 16 * v) (global_descriptor_table_initialize 0xC0200000 0xC0008000).1
    (interrupt_descriptor_table_initialize (fun v => 0xC0100000 + 16 * v)) (global_descriptor_table_initialize 0xC0200000 0xC0008000).2
    14 false (Some 5) wild user_machine = Some (inl m') /\
    cpu m' = set_code 0x400002 0x202 0x1B (one_segment user_core) /\ fs (cpu m') = 0x23 /\ kernel m' = 105.
Proof.
  pose proof (interrupt_return_exact (fun v => 0xC0100000 + 16 * v) 0xC0200000 0xC0008000 ltac:(cbv beta; intros; lia) ltac:(cbv beta; intros; lia)
    14 false (Some 5) wild user_machine ltac:(lia) eq_refl ltac:(by left) ltac:(by split) ltac:(vm_compute; done) ltac:(cbn; lia)) as H.
  cbv zeta in H. change (interrupt_service_routine_dispatch _ user_machine) with (@Return Z 105 (Some 0x400002)) in H.
  destruct H as (m' & H1 & H2 & H3 & _). exists m'. split; [exact H1|]. split; [exact H2|]. split; [by rewrite H2|exact H3].
Defined.

End Entry.

(** ** exception.c *)

Module Panics.
Import Entry.

(** [b ? x : y] *)
Definition choose (b : bool) (x y : string) : string := if b then x else y.


Definition panic (name : string) (l : list text_piece) : list text_piece :=
  [Text eol; Text eol; Text "[KERNEL PANIC] "%string; Text name; Text eol] ++ l.

Definition exception_handle_double_fault (f : frame) : list text_piece :=
  panic "#DF Double Fault" (line "  err_code= " (f_err_code f)).
Definition exception_handle_debug_exception (f : frame) : list text_piece :=
  panic "#DB Debug Exception" (line "  err_code= " (f_err_code f) ++ line "  eip     = " (f_eip f)).
Definition exception_handle_breakpoint (f : frame) : list text_piece :=
  panic "#BP Breakpoint" (line "  err_code= " (f_err_code f) ++ line "  eip     = " (f_eip f)).
Definition exception_handle_invalid_opcode (f : frame) : list text_piece :=
  panic "#UD Invalid Opcode" (line "  err_code= " (f_err_code f) ++ line "  eip     = " (f_eip f)).

Definition exception_handle_general_protection_fault (f : frame) : list text_piece :=
  let error_code := f_err_code f in
  panic "#GP General Protection Fault"
    (line "  err_code       = " error_code ++ line "  selector_index = " (Z.shiftr error_code 3) ++
     [Text "  external       = "%string; Text (choose (negb (Z.land error_code 1 =? 0)) "yes" "no"); Text eol;
      Text "  table          = "%string;
      Text (choose (negb (Z.land (Z.shiftr error_code 1) 1 =? 0)) "IDT" (choose (negb (Z.land (Z.shiftr error_code 2) 1 =? 0)) "LDT" "GDT")); Text eol] ++
     line "  eip            = " (f_eip f)).

(** [fault_address] is the page fault register, [intact] what the stack guard
    says. *)
Definition exception_handle_page_fault (fault_address : Z) (intact : bool) (f : frame) (s : Section_.section)
    : result Section_.section :=
  let error_code := f_err_code f in
  let bit n := negb (Z.land error_code n =? 0) in
  match Section_.kernel_section_protection_handle_page_fault error_code fault_address s with
  | (Some resume, s) => Return s (Some resume)
  | (None, _) =>
    Panic (panic "#PF Page Fault"
      (line "  cr2            = " fault_address ++ line "  err_code       = " error_code ++
       [Text "  reason         = "%string; Text (choose (bit 0x1) "protection violation" "non-present page"); Text eol;
        Text "  access         = "%string; Text (choose (bit 0x2) "write" "read"); Text eol;
        Text "  privilege      = "%string; Text (choose (bit 0x4) "user" "supervisor"); Text eol;
        Text "  reserved_write = "%string; Text (choose (bit 0x8) "yes" "no"); Text eol;
        Text "  instruction    = "%string; Text (choose (bit 0x10) "fetch" "data"); Text eol] ++
       line "  eip            = " (f_eip f) ++
       [Text "  stack_guard    = "%string; Text (choose (intact) "intact" "CLOBBERED (stack overflow?)"); Text eol]))
  end.

Section install.
Context {F : Type} (fault_address : Z) (intact : bool).

Definition interrupt_exception_initialize (m : machine (F := F) (K := Section_.section)) : machine :=
  let halts h : frame -> Section_.section -> result Section_.section := fun f _ => Panic (h f) in
  let m := interrupt_service_routine_register_handler 1 (halts exception_handle_debug_exception) m in
  let m := interrupt_service_routine_register_handler 3 (halts exception_handle_breakpoint) m in
  let m := interrupt_service_routine_register_handler 6 (halts exception_handle_invalid_opcode) m in
  let m := interrupt_service_routine_register_handler 8 (halts exception_handle_double_fault) m in
  let m := interrupt_service_routine_register_handler 13 (halts exception_handle_general_protection_fault) m in
  interrupt_service_routine_register_handler 14 (exception_handle_page_fault fault_address intact) m.

(** A page fault is stepped over exactly when it is the one that the probe of
    the section protection waits for; every other one is printed. *)
Lemma page_fault_resumes (m : machine (F := F) (K := Section_.section)) f :
  f_int_no f = 14 ->
  interrupt_service_routine_dispatch f (interrupt_exception_initialize m) = exception_handle_page_fault fault_address intact f (kernel m).
Proof.
  intros E. unfold interrupt_service_routine_dispatch, interrupt_exception_initialize, interrupt_service_routine_register_handler.
  cbn [table kernel]. rewrite E. change (u8 14) with 14. by rewrite lookup_insert_eq.
Qed.

End install.

End Panics.
