(* ===== verification/Requests.v ===== *)
(** * Interrupt requests at work

    Models [interrupt_request_initialize] of irq.c with everything it calls: the
    interrupt controllers, the timer, the table of handlers, the keyboard, the
    mouse and the clock, and then the interrupts that arrive. The two 8259
    controllers are a model of the hardware, fed with the port accesses of the
    code; the handlers are those of [Apic], [Keyboard], [Mouse] and [Rtc]. *)

From S2P Require Import Prelude Cpu Apic InputRing Keyboard Mouse Rtc.
Import Apic.Pic Apic.Pit Apic.Apic Apic.Irq Keyboard.Ps2 Keyboard.Kbd.

(** ** The 8259 controllers *)

(** [expects] is the initialisation word that the next write to the data port
    is taken for, 0 when it is the mask. *)
Record chip := mkChip { imr : Z; in_service : Z; offset : Z; expects : nat }.

(** A command with bit 4 starts the initialisation, 0x20 ends the interrupt of
    the highest priority in service. *)
Definition command (v : Z) (c : chip) : chip :=
  if Z.testbit v 4 then mkChip 0 0 (offset c) 2
  else if v =? 0x20 then mkChip (imr c) (Z.land (in_service c) (in_service c - 1)) (offset c) (expects c)
  else c.

(** The words 2, 3 and 4 follow the first. *)
Definition data_write (v : Z) (c : chip) : chip :=
  match expects c with
  | 2%nat => mkChip (imr c) (in_service c) (Z.land v 0xF8) 3
  | 3%nat => mkChip (imr c) (in_service c) (offset c) 4
  | 4%nat => mkChip (imr c) (in_service c) (offset c) 0
  | _ => mkChip v (in_service c) (offset c) (expects c)
  end.

Definition pics : Type := chip * chip.

Definition feed_one (p : pics) (e : event) : pics :=
  match e with
  | Out port v =>
    if port =? PIC1_COMMAND then (command v p.1, p.2)
    else if port =? PIC1_DATA then (data_write v p.1, p.2)
    else if port =? PIC2_COMMAND then (p.1, command v p.2)
    else if port =? PIC2_DATA then (p.1, data_write v p.2)
    else p
  | _ => p
  end.

Definition feed (l : list event) (p : pics) : pics := fold_left feed_one l p.

Definition mask_of (line : Z) (p : pics) : Z := if line <? 8 then imr p.1 else imr p.2.

(** An interrupt waits while one of the same or a higher priority is served. *)
Definition open_ (k : Z) (c : chip) : bool :=
  negb (Z.testbit (imr c) k) && (Z.land (in_service c) (2 ^ (k + 1) - 1) =? 0) && (expects c =? 0)%nat.

Definition serve_bit (k : Z) (c : chip) : chip := mkChip (imr c) (Z.lor (in_service c) (2 ^ k)) (offset c) (expects c).

(** What arrives: a line, with what the keyboard controller's status and data
    ports read then, or a request that is gone when it is acknowledged. *)
Inductive signal := Line (l status data : Z) | Noise7 | Noise15.

(** The vector the processor gets, if any. *)
Definition raise (x : signal) (p : pics) : option (Z * pics) :=
  match x with
  | Line l _ _ =>
    if (0 <=? l) && (l <? 8) && negb (l =? IRQ_CASCADE_LINE) && open_ l p.1 then Some (offset p.1 + l, (serve_bit l p.1, p.2))
    else if (8 <=? l) && (l <? 16) && open_ IRQ_CASCADE_LINE p.1 && open_ (l - 8) p.2
    then Some (offset p.2 + (l - 8), (serve_bit IRQ_CASCADE_LINE p.1, serve_bit (l - 8) p.2))
    else None
  | Noise7 => if (expects p.1 =? 0)%nat then Some (offset p.1 + 7, p) else None
  | Noise15 => if open_ IRQ_CASCADE_LINE p.1 && (expects p.2 =? 0)%nat
               then Some (offset p.2 + 7, (serve_bit IRQ_CASCADE_LINE p.1, p.2)) else None
  end.

(** ** The kernel's state *)

(** The functions that are put into the table of handlers. *)
Inductive service := Exception_ (v : Z) | Timer_ | Spurious7 | Spurious15 | Keyboard_ | Mouse_ | Clock_.

Record world := mkWorld {
  config : irq;
  controller : apic;
  chips : pics;
  handlers : gmap Z service;
  keys : input;
  layout : keyboard;
  pointer : input;
  present : bool;
  time : rtc;
  cells : cmos;
  pit_hz : Z;
  enabled : bool }.

Definition with_config (x : irq) (w : world) : world :=
  mkWorld x (controller w) (chips w) (handlers w) (keys w) (layout w) (pointer w) (present w) (time w) (cells w) (pit_hz w) (enabled w).
Definition with_chips (x : pics) (w : world) : world :=
  mkWorld (config w) (controller w) x (handlers w) (keys w) (layout w) (pointer w) (present w) (time w) (cells w) (pit_hz w) (enabled w).
Definition with_keys (x : input) (w : world) : world :=
  mkWorld (config w) (controller w) (chips w) (handlers w) x (layout w) (pointer w) (present w) (time w) (cells w) (pit_hz w) (enabled w).
Definition with_layout (x : keyboard) (w : world) : world :=
  mkWorld (config w) (controller w) (chips w) (handlers w) (keys w) x (pointer w) (present w) (time w) (cells w) (pit_hz w) (enabled w).
Definition with_pointer (x : input) (w : world) : world :=
  mkWorld (config w) (controller w) (chips w) (handlers w) (keys w) (layout w) x (present w) (time w) (cells w) (pit_hz w) (enabled w).
Definition with_present (b : bool) (w : world) : world :=
  mkWorld (config w) (controller w) (chips w) (handlers w) (keys w) (layout w) (pointer w) b (time w) (cells w) (pit_hz w) (enabled w).
Definition with_clock (x : rtc) (c : cmos) (w : world) : world :=
  mkWorld (config w) (controller w) (chips w) (handlers w) (keys w) (layout w) (pointer w) (present w) x c (pit_hz w) (enabled w).
Definition with_hz (x : Z) (w : world) : world :=
  mkWorld (config w) (controller w) (chips w) (handlers w) (keys w) (layout w) (pointer w) (present w) (time w) (cells w) x (enabled w).

Definition asmutils_enable_interrupts (w : world) : world :=
  mkWorld (config w) (controller w) (chips w) (handlers w) (keys w) (layout w) (pointer w) (present w) (time w) (cells w) (pit_hz w) true.

(** The table is indexed by a byte. *)
Definition interrupt_service_routine_register_handler (v : Z) (h : service) (w : world) : world :=
  mkWorld (config w) (controller w) (chips w) (<[u8 v := h]> (handlers w)) (keys w) (layout w) (pointer w) (present w) (time w)
    (cells w) (pit_hz w) (enabled w).

Definition send (l : list event) (w : world) : world := with_chips (feed l (chips w)) w.

(** ** irq.c *)

Section requests.
(** What the keyboard controller and the clock answer, and the build's layout. *)
Context (answer : Z -> Z) (cell : nat -> Z -> Z) (azerty : bool).

Definition clear_mask (line : Z) (w : world) : world :=
  send (programmable_interrupt_controller_clear_mask line (mask_of line (chips w))) w.

Definition set_mask (line : Z) (w : world) : world :=
  send (programmable_interrupt_controller_set_mask line (mask_of line (chips w))) w.

Definition mask_all (w : world) : world := fold_left (fun w line => set_mask line w) (seqZ 0 IRQ_LINE_COUNT) w.

Definition interrupt_exception_initialize (w : world) : world :=
  fold_left (fun w v => interrupt_service_routine_register_handler v (Exception_ v) w) [1; 3; 6; 8; 13; 14] w.

Definition keyboard_start (w : world) : world :=
  let w := interrupt_service_routine_register_handler (PIC_VECTOR_OFFSET_MASTER + IRQ_KEYBOARD_LINE) Keyboard_ w in
  with_layout (keyboard_interrupt_initialize azerty (layout w)) w.

Definition mouse_start (w : world) : world :=
  let '(found, l) := personal_system_2_mouse_initialize answer (fun line => mask_of line (chips w)) (mkLink 0 []) in
  let w := if found then interrupt_service_routine_register_handler (PIC_VECTOR_OFFSET_SLAVE + (IRQ_MOUSE_LINE - 8)) Mouse_ w else w in
  with_present found (send (written l) w).

Definition clock_start (w : world) : world :=
  let w := interrupt_service_routine_register_handler (PIC_VECTOR_OFFSET_SLAVE + 0) Clock_ w in
  let '(t, c) := realtime_clock_initialize cell (cells w) in with_clock t c w.

Definition clock_periodic (on : Z) (w : world) : world :=
  let '(t, c) := realtime_clock_set_periodic_interrupt_enabled cell on (time w) (cells w) in with_clock t c w.

Definition timer_start (w : world) : world :=
  let '(hz, ev) := programmable_interval_timer_initialize (interrupt_request_timer_target_frequency_hz (config w)) in
  with_hz hz (send ev w).

Definition interrupt_request_initialize (w : world) : world :=
  let w := send (programmable_interrupt_controller_initialize (imr (chips w).1) (imr (chips w).2)) w in
  let w := mask_all w in
  let w := timer_start w in
  let w := interrupt_exception_initialize w in
  let w := interrupt_service_routine_register_handler (PIC_VECTOR_OFFSET_MASTER + IRQ_TIMER_LINE) Timer_ w in
  let w := interrupt_service_routine_register_handler (PIC_VECTOR_OFFSET_MASTER + IRQ_SPURIOUS7_LINE) Spurious7 w in
  let w := interrupt_service_routine_register_handler (PIC_VECTOR_OFFSET_MASTER + IRQ_SPURIOUS15_LINE) Spurious15 w in
  let w := keyboard_start w in
  let w := mouse_start w in
  let w := clock_start w in
  let w :=
    if negb (interrupt_request_rtc_periodic_enabled (config w) =? 0)
    then clear_mask IRQ_RTC_LINE (clear_mask IRQ_CASCADE_LINE (clock_periodic 1 w))
    else clock_periodic 0 w in
  asmutils_enable_interrupts (clear_mask IRQ_KEYBOARD_LINE (clear_mask IRQ_TIMER_LINE w)).

(** ** An interrupt *)

(** The handler that the table has for the vector; [None] is the panic of the
    default handler. *)
Definition interrupt_service_routine_dispatch (v : Z) (x : signal) (w : world) : option world :=
  let '(status, data) := match x with Line _ status data => (status, data) | _ => (0, 0) end in
  match handlers w !! v with
  | None | Some (Exception_ _) => None
  | Some Timer_ =>
    let '(_, c, ev) := interrupt_request_timer_handler (controller w) (config w) in Some (send ev (with_config c w))
  | Some Spurious7 =>
    let '(c, ev) := interrupt_request_spurious_irq7_handler (in_service (chips w).1) (config w) in Some (send ev (with_config c w))
  | Some Spurious15 =>
    let '(c, ev) := interrupt_request_spurious_irq15_handler (in_service (chips w).2) (config w) in Some (send ev (with_config c w))
  | Some Keyboard_ =>
    let '(k, ev) := keyboard_interrupt_handler (config w) (controller w) data (keys w) in Some (send ev (with_keys k w))
  | Some Mouse_ =>
    let '(p, ev) := personal_system_2_mouse_interrupt_handler (config w) (controller w) status data (pointer w) in
    Some (send ev (with_pointer p w))
  | Some Clock_ =>
    let '(t, c) := realtime_clock_interrupt_handler cell (time w) (mkCmos (clock (cells w)) []) in
    Some (send (accesses c) (with_clock t (mkCmos (clock c) (accesses (cells w) ++ accesses c)) w))
  end.

Definition interrupt (w : world) (x : signal) : option world :=
  if negb (enabled w) then Some w
  else match raise x (chips w) with
       | None => Some w
       | Some (v, p) => interrupt_service_routine_dispatch v x (with_chips p w)
       end.

Fixpoint session (w : world) (l : list signal) : option world :=
  match l with
  | [] => Some w
  | x :: l => w ← interrupt w x; session w l
  end.

(** ** After the initialisation *)

Lemma feed_app l l' p : feed (l ++ l') p = feed l' (feed l p).
Proof. apply fold_left_app. Qed.

Lemma send_nil w : send [] w = w.
Proof. by destruct w. Qed.

Lemma send_app l l' w : send (l ++ l') w = send l' (send l w).
Proof. unfold send. by rewrite feed_app. Qed.

(** The ports of the keyboard controller are not those of the 8259s. *)
Lemma send_exchange l w :
  Forall (fun e => exists v, e = Out PERSONAL_SYSTEM_2_DATA_PORT v \/ e = Out PERSONAL_SYSTEM_2_COMMAND_PORT v) l -> send l w = w.
Proof.
  intros H. induction H as [|e l (v & [-> | ->]) _ IH]; [apply send_nil| |].
  all: change (?e :: l) with ([e] ++ l); rewrite send_app; by destruct w as [? ? []].
Qed.

Lemma mouse_start_spec w :
  exists found, mouse_start w =
    with_present found (if found : bool then
      clear_mask IRQ_MOUSE_LINE (clear_mask IRQ_CASCADE_LINE (interrupt_service_routine_register_handler 0x2C Mouse_ w)) else w).
Proof.
  unfold mouse_start. pose proof (mouse_exchange answer (fun line => mask_of line (chips w)) (mkLink 0 [])) as H.
  destruct (personal_system_2_mouse_initialize _ _ _) as [found l]. destruct H as (_ & ws & Hf & ->). exists found. f_equal.
  cbn [written app]. rewrite send_app, (send_exchange ws _ Hf). destruct found; [|apply send_nil]. rewrite send_app. by destruct w as [? ? [] ].
Qed.

(** Every mask bit is set, whatever the masks were. *)
Lemma masks_full m : 0 <= m < 256 -> fold_left (fun c k => u8 (Z.lor c (Z.shiftl 1 k))) (seqZ 0 8) m = 0xFF.
Proof.
  intros Hm. assert (H : forallb (fun m => fold_left (fun c k => u8 (Z.lor c (Z.shiftl 1 k))) (seqZ 0 8) m =? 0xFF) (seqZ 0 256) = true)
    by (vm_compute; reflexivity).
  rewrite forallb_forall in H. apply Z.eqb_eq, H, list_elem_of_In, elem_of_seqZ. lia.
Qed.

Definition quiet_chips (found periodic : bool) : pics :=
  (mkChip (if found || periodic then 0xF8 else 0xFC) 0 0x20 0,
   mkChip (if found then (if periodic then 0xEE else 0xEF) else (if periodic then 0xFE else 0xFF)) 0 0x28 0).

Lemma set_masks_low ks m s o c2 w :
  Forall (fun k => 0 <= k < 8) ks -> chips w = (mkChip m s o 0, c2) ->
  fold_left (fun w line => set_mask line w) ks w =
  with_chips (mkChip (fold_left (fun c k => u8 (Z.lor c (Z.shiftl 1 k))) ks m) s o 0, c2) w.
Proof.
  intros Hk. revert m w. induction Hk as [|k ks Hk _ IH]; intros m w Hw; [by destruct w; cbn in *; rewrite Hw|]. cbn [fold_left].
  rewrite (IH (u8 (Z.lor m (Z.shiftl 1 k)))); [by destruct w|]. unfold set_mask, send, mask_of, programmable_interrupt_controller_set_mask.
  rewrite (proj2 (Z.ltb_lt k 8)), Hw by lia. done.
Qed.

Lemma set_masks_high ks m s o c1 w :
  Forall (fun k => 0 <= k < 8) ks -> chips w = (c1, mkChip m s o 0) ->
  fold_left (fun w line => set_mask line w) (Z.add 8 <$> ks) w =
  with_chips (c1, mkChip (fold_left (fun c k => u8 (Z.lor c (Z.shiftl 1 k))) ks m) s o 0) w.
Proof.
  intros Hk. revert m w. induction Hk as [|k ks Hk _ IH]; intros m w Hw; [by destruct w; cbn in *; rewrite Hw|]. rewrite fmap_cons. cbn [fold_left].
  rewrite (IH (u8 (Z.lor m (Z.shiftl 1 k)))); [by destruct w|]. unfold set_mask, send, mask_of, programmable_interrupt_controller_set_mask.
  rewrite (proj2 (Z.ltb_ge (8 + k) 8)), Hw by lia. replace (u8 (8 + k - 8)) with k by (unfold u8; rewrite Z.mod_small; lia). done.
Qed.

Lemma masked_chips w :
  0 <= imr (chips w).1 < 256 -> 0 <= imr (chips w).2 < 256 ->
  mask_all (send (programmable_interrupt_controller_initialize (imr (chips w).1) (imr (chips w).2)) w) =
  with_chips (mkChip 0xFF 0 0x20 0, mkChip 0xFF 0 0x28 0) w.
Proof.
  intros H1 H2. apply masks_full in H1, H2. unfold mask_all.
  change (seqZ 0 IRQ_LINE_COUNT) with (seqZ 0 8 ++ (Z.add 8 <$> seqZ 0 8)). rewrite fold_left_app.
  assert (Hs : Forall (fun k => 0 <= k < 8) (seqZ 0 8)) by (apply Forall_seqZ; lia).
  rewrite (set_masks_low (seqZ 0 8) (imr (chips w).1) 0 0x20 (mkChip (imr (chips w).2) 0 0x28 0)); [|done|by destruct w as [? ? [[] []]]].
  erewrite set_masks_high; [|done|reflexivity]. rewrite H1, H2. by destruct w.
Qed.

(** The controllers wait, and every vector that they can raise has its handler. *)
Record armed (found periodic : bool) (w : world) : Prop := {
  ar_chips : chips w = quiet_chips found periodic;
  ar_enabled : enabled w = true;
  ar_timer : handlers w !! 0x20 = Some Timer_;
  ar_keyboard : handlers w !! 0x21 = Some Keyboard_;
  ar_seven : handlers w !! 0x27 = Some Spurious7;
  ar_clock : handlers w !! 0x28 = Some Clock_;
  ar_mouse : found = true -> handlers w !! 0x2C = Some Mouse_;
  ar_fifteen : handlers w !! 0x2F = Some Spurious15 }.

Definition periodic (w : world) : bool := negb (interrupt_request_rtc_periodic_enabled (config w) =? 0).

(** What the initialisation leaves alone. *)
Record fresh (w w' : world) : Prop := {
  fr_config : config w' = config w;
  fr_keys : keys w' = keys w;
  fr_pointer : pointer w' = pointer w;
  fr_ticks : realtime_clock_periodic_interrupt_count (time w') = 0 }.

Ltac handler_lookup := repeat first [rewrite lookup_insert_eq | rewrite lookup_insert_ne by done]; done.

Lemma initialize_arms w :
  0 <= imr (chips w).1 < 256 -> 0 <= imr (chips w).2 < 256 ->
  let w' := interrupt_request_initialize w in armed (present w') (periodic w) w' /\ fresh w w'.
Proof.
  intros H1 H2. cbv zeta. unfold interrupt_request_initialize. rewrite (masked_chips w H1 H2). clear H1 H2.
  match goal with |- context [mouse_start ?w1] => destruct (mouse_start_spec w1) as [found ->] end.
  destruct w as [cf ct ch h k l p b ti ce hz en]. unfold periodic.
  destruct found, (negb (interrupt_request_rtc_periodic_enabled cf =? 0)) eqn:E; cbn -[lookup insert].
  all: rewrite ?E; split; split; intros; try reflexivity; try discriminate; cbn -[lookup insert]; handler_lookup.
Qed.

(** ** What arrives afterwards *)

Lemma raise_line found per l status data :
  raise (Line l status data) (quiet_chips found per) =
  let p := quiet_chips found per in
  if l =? 0 then Some (0x20, (serve_bit 0 p.1, p.2))
  else if l =? 1 then Some (0x21, (serve_bit 1 p.1, p.2))
  else if (l =? 8) && per then Some (0x28, (serve_bit 2 p.1, serve_bit 0 p.2))
  else if (l =? 12) && found then Some (0x2C, (serve_bit 2 p.1, serve_bit 4 p.2))
  else None.
Proof.
  destruct (decide (0 <= l < 16)) as [Hl|Hl].
  - assert (Hin : l ∈ seqZ 0 16) by (apply elem_of_seqZ; lia). revert Hin. change (seqZ 0 16) with [0; 1; 2; 3; 4; 5; 6; 7; 8; 9; 10; 11; 12; 13; 14; 15].
    rewrite !elem_of_cons. intros H. destruct found, per; repeat (destruct H as [-> | H]; [reflexivity|]); by apply elem_of_nil in H.
  - cbn [raise]. assert ((0 <=? l) && (l <? 8) = false) as -> by lia. assert ((8 <=? l) && (l <? 16) = false) as -> by lia.
    cbn [andb]. by rewrite !(proj2 (Z.eqb_neq l _)) by lia.
Qed.

(** Both controllers deliver to the 8259's handlers only. *)
Definition ours (w : world) : Prop :=
  interrupt_request_timer_owner_is_apic (config w) = 0 /\ interrupt_request_apic_owned_lines (config w) = 0.

(** The six counters: timer, keyboard, mouse, clock, and the two of noise. *)
Definition counters (w : world) : list Z :=
  [interrupt_request_tick_count (config w); irq_count (keys w); irq_count (pointer w);
   realtime_clock_periodic_interrupt_count (time w);
   interrupt_request_spurious_irq7_count (config w); interrupt_request_spurious_irq15_count (config w)].

(** What a signal adds to them. *)
Definition counted (found per : bool) (x : signal) : list Z :=
  match x with
  | Line l _ _ => [Z.b2z (l =? 0); Z.b2z (l =? 1); Z.b2z ((l =? 12) && found); Z.b2z ((l =? 8) && per); 0; 0]
  | Noise7 => [0; 0; 0; 0; 1; 0]
  | Noise15 => [0; 0; 0; 0; 0; Z.b2z (found || per)]
  end.

(** A handler that ends its interrupt brings the controllers back. *)
Lemma armed_again found per w w' :
  armed found per w -> chips w' = quiet_chips found per -> handlers w' = handlers w -> enabled w' = enabled w -> armed found per w'.
Proof. intros [] Hc Hh He. split; rewrite ?Hc, ?Hh, ?He; done. Qed.

Definition answers (found per : bool) (x : signal) (w : world) (r : option world) : Prop :=
  exists w', r = Some w' /\ armed found per w' /\ ours w' /\ present w' = present w /\
    counters w' = zip_with add32 (counters w) (counted found per x).

Lemma counted_none w : Forall (fun c => in32 c) (counters w) -> zip_with add32 (counters w) [0; 0; 0; 0; 0; 0] = counters w.
Proof.
  unfold counters. rewrite !Forall_cons. intros (? & ? & ? & ? & ? & ? & _). cbn [zip_with]. by rewrite !add32_small, !Z.add_0_r by lia.
Qed.

Lemma put_irqs data s : irq_count (ring_put data s) = irq_count s.
Proof. unfold ring_put. by case_match. Qed.

(** One handler: the entry of the table, the controllers, the counters. *)
Ltac served Ha look :=
  unfold interrupt_service_routine_dispatch; cbn [handlers with_chips]; rewrite look; eexists; split; [reflexivity|];
  split; [apply (armed_again _ _ _ _ Ha); [by repeat case_match|done|done]|split; [done|split; [done|]]].

Lemma dispatch_answers found per w x v p :
  armed found per w -> ours w -> Forall (fun c => in32 c) (counters w) -> raise x (quiet_chips found per) = Some (v, p) ->
  answers found per x w (interrupt_service_routine_dispatch v x (with_chips p w)).
Proof.
  intros Ha [Ht Ho] Hr Hx. pose proof Ha as [_ _ H20 H21 H27 H28 H2c H2f].
  assert (Hs : zip_with add32 (counters w) [0; 0; 0; 0; 0; 0] = counters w) by by apply counted_none.
  destruct w as [[t s7 s15 hz rtc ow ol] ct ch h ks la pt pr ti ce ph en].
  unfold counters in *. cbn [config keys pointer time interrupt_request_tick_count interrupt_request_spurious_irq7_count
    interrupt_request_spurious_irq15_count interrupt_request_timer_owner_is_apic interrupt_request_apic_owned_lines handlers zip_with] in *. subst ow ol.
  injection Hs as E1 E2 E3 E4 E5 E6.
  destruct x as [l status data| |].
  - rewrite raise_line in Hx. cbv zeta in Hx. unfold answers, counted, counters.
    destruct (Z.eqb_spec l 0) as [->|].
    { injection Hx as <- <-. served Ha H20. cbn. by rewrite E2, E3, E4, E5, E6. }
    destruct (Z.eqb_spec l 1) as [->|].
    { injection Hx as <- <-. served Ha H21. cbn. by rewrite put_irqs, E1, E3, E4, E5, E6. }
    destruct ((l =? 8) && per) eqn:E8.
    { apply andb_prop in E8 as [->%Z.eqb_eq ->]. injection Hx as <- <-. served Ha H28. cbn. by rewrite E1, E2, E3, E5, E6. }
    destruct ((l =? 12) && found) eqn:E12; [|done].
    apply andb_prop in E12 as [->%Z.eqb_eq ->]. injection Hx as <- <-. served Ha (H2c eq_refl). cbn.
    case_match; cbn; by rewrite ?put_irqs, E1, E2, E4, E5, E6.
  - change (Some (0x27, quiet_chips found per) = Some (v, p)) in Hx. injection Hx as <- <-. unfold answers, counted, counters. served Ha H27. cbn. by rewrite E1, E2, E3, E4, E6.
  - unfold answers, counted, counters. destruct found, per; vm_compute in Hx; try done; injection Hx as <- <-; served Ha H2f; cbn; by rewrite E1, E2, E3, E4, E5.
Qed.

Lemma interrupt_answers found per w x :
  armed found per w -> ours w -> Forall (fun c => in32 c) (counters w) -> answers found per x w (interrupt w x).
Proof.
  intros Ha Ho Hr. unfold interrupt. rewrite (ar_enabled _ _ _ Ha), (ar_chips _ _ _ Ha). cbn [negb].
  destruct (raise x (quiet_chips found per)) as [[v p]|] eqn:Hx; [by apply dispatch_answers|].
  exists w. split; [done|]. split; [done|]. split; [done|]. split; [done|].
  enough (E : counted found per x = [0; 0; 0; 0; 0; 0]) by (rewrite E; symmetry; by apply counted_none).
  destruct x as [l status data| |]; [|done|by destruct found, per]. rewrite raise_line in Hx. cbv zeta in Hx. cbn [counted].
  destruct (l =? 0), (l =? 1), ((l =? 8) && per), ((l =? 12) && found); done.
Qed.

(** What a list of signals adds to the counters. *)
Fixpoint total (found per : bool) (l : list signal) : list Z :=
  match l with
  | [] => [0; 0; 0; 0; 0; 0]
  | x :: l => zip_with Z.add (counted found per x) (total found per l)
  end.

Lemma zip_add32 l1 l2 l3 : zip_with add32 (zip_with add32 l1 l2) l3 = zip_with add32 l1 (zip_with Z.add l2 l3).
Proof.
  revert l2 l3. induction l1 as [|a l1 IH]; intros [|b l2] [|c l3]; [done..|]. cbn [zip_with]. rewrite IH. f_equal.
  unfold add32, u32. by rewrite Z.add_mod_idemp_l, Z.add_assoc by lia.
Qed.

Lemma session_answers found per l : forall w,
  armed found per w -> ours w -> Forall (fun c => in32 c) (counters w) ->
  exists w', session w l = Some w' /\ armed found per w' /\ present w' = present w /\
    counters w' = zip_with add32 (counters w) (total found per l).
Proof.
  induction l as [|x l IH]; intros w Ha Ho Hr; cbn [session total].
  { exists w. split; [done|]. split; [done|]. split; [done|]. by rewrite counted_none. }
  destruct (interrupt_answers found per w x Ha Ho Hr) as (w1 & -> & Ha1 & Ho1 & Hp1 & Hc1). cbn [mbind option_bind].
  assert (Hr1 : Forall (fun c => in32 c) (counters w1)).
  { rewrite Hc1. unfold counters. destruct x; cbn [zip_with counted]; repeat constructor; apply u32_range. }
  destruct (IH w1 Ha1 Ho1 Hr1) as (w2 & Hs & Ha2 & Hp2 & Hc2). exists w2. split; [done|]. split; [done|]. split; [congruence|].
  rewrite Hc2, Hc1. apply zip_add32.
Qed.

(** The kernel's variables before the initialisation; the masks are what the
    firmware left. *)
Definition at_boot (hz per : Z) (a : apic) (m s : chip) : world :=
  mkWorld (Irq.mk 0 0 0 hz per 0 0) a (m, s) ∅ idle Ps2.boot idle false (mkRtc 0 0) (mkCmos 0 []) 0 false.

(** The lines that are not masked. *)
Definition line_open (found per : bool) (k : Z) : bool :=
  (k =? 0) || (k =? 1) || (found && ((k =? 2) || (k =? 12))) || (per && ((k =? 2) || (k =? 8))).

Lemma quiet_masks found per k :
  0 <= k < 16 -> Z.testbit (mask_of k (quiet_chips found per)) (k mod 8) = negb (line_open found per k).
Proof.
  intros Hk. assert (Hin : k ∈ seqZ 0 16) by (apply elem_of_seqZ; lia). revert Hin. change (seqZ 0 16) with [0; 1; 2; 3; 4; 5; 6; 7; 8; 9; 10; 11; 12; 13; 14; 15].
  rewrite !elem_of_cons. intros H. destruct found, per; repeat (destruct H as [-> | H]; [reflexivity|]); by apply elem_of_nil in H.
Qed.

Lemma total_wraps found per l : zip_with add32 [0; 0; 0; 0; 0; 0] (total found per l) = u32 <$> total found per l.
Proof.
  assert (H : length (total found per l) = 6%nat).
  { induction l as [|x l IH]; [done|]. cbn [total]. rewrite length_zip_with, IH. by destruct x. }
  destruct (total found per l) as [|? [|? [|? [|? [|? [|? [|]]]]]]]; done.
Qed.

(** C13: After [interrupt_request_initialize] exactly the lines with a working
    handler are unmasked, whatever masks the firmware left, and whether a mouse
    answers or not. From then on any sequence of line interrupts and spurious
    requests is served: none meets an empty entry of the table, each one that
    arrives is counted by its own handler and by no other, and afterwards
    neither controller has an interrupt in service that would block the next. *)
Theorem irq_lines_served hz per a m s l :
  0 <= imr m < 256 -> 0 <= imr s < 256 ->
  let w := interrupt_request_initialize (at_boot hz per a m s) in
  let ticking := negb (per =? 0) in
  exists w', session w l = Some w' /\
    in_service (chips w').1 = 0 /\ in_service (chips w').2 = 0 /\
    (forall k, 0 <= k < 16 -> Z.testbit (mask_of k (chips w')) (k mod 8) = negb (line_open (present w) ticking k)) /\
    counters w' = u32 <$> total (present w) ticking l.
Proof.
  intros Hm Hs w ticking. pose proof (initialize_arms (at_boot hz per a m s) Hm Hs) as H.
  fold w in H. cbv zeta in H. change (periodic (at_boot hz per a m s)) with ticking in H. destruct H as [Ha [Hc Hk Hp Ht]].
  assert (Hn : counters w = [0; 0; 0; 0; 0; 0]) by (unfold counters; by rewrite Hc, Hk, Hp, Ht).
  destruct (session_answers (present w) ticking l w Ha) as (w' & Hl & Ha' & _ & Hc').
  { unfold ours. by rewrite Hc. }
  { rewrite Hn. repeat constructor; lia. }
  exists w'. split; [done|]. rewrite (ar_chips _ _ _ Ha'). split; [done|]. split; [done|]. split; [intros; by apply quiet_masks|].
  rewrite Hc', Hn. apply total_wraps.
Qed.

End requests.

(** A mouse that acknowledges, a clock that ticks, and one signal of each kind. *)
Definition mouse_answer (n : Z) : Z := if (n =? 9) || (n =? 13) then 0xFA else 0x01.
Definition one_of_each : list signal := [Line 0 0 0; Line 1 0 0x1E; Line 12 0x21 8; Line 8 0 0; Line 5 0 0; Noise7; Noise15; Line 0 0 0].

Lemma irq_lines_served_witness :
  let w := interrupt_request_initialize mouse_answer (fun _ _ => 0) false (at_boot 100 1 (Apic.mk 0 false) (mkChip 0xB8 0 8 0) (mkChip 0x8E 0 0x70 0)) in
  present w = true /\ exists w', session (fun _ _ => 0) w one_of_each = Some w' /\ counters w' = [2; 1; 1; 1; 1; 1].
Proof.
  set (w := interrupt_request_initialize _ _ _ _). assert (Hp : present w = true) by (vm_compute; reflexivity). split; [exact Hp|].
  destruct (irq_lines_served mouse_answer (fun _ _ => 0) false 100 1 (Apic.mk 0 false) (mkChip 0xB8 0 8 0) (mkChip 0x8E 0 0x70 0) one_of_each)
    as (w' & Hs & _ & _ & _ & Hc); [cbn; lia|cbn; lia|].
  exists w'. split; [exact Hs|]. rewrite Hc. fold w. rewrite Hp. vm_compute. reflexivity.
Defined.
