(* ===== verification/Hda.v ===== *)
(** * The audio controller: hda.c

    [Driver] has the bring-up, the command and response rings, the walk over a
    codec's nodes and the capture stream. The driver's code runs interleaved
    with the controller, which reads commands from and writes responses to
    memory on its own; the rings are pages that the driver claims from the
    frame allocator and maps, so that each access goes through the page tables.
    [Controller] is a controller as the specification describes it, in front of
    any codec. *)

From S2P Require Import Prelude Cpu Pmm BuddyProofs FrameAlloc Paging PagingProofs Vmm Bus Interleave.

(** What the driver sees of a controller: registers of one, two or four bytes,
    and steps of its own that read and write memory. *)
Class Device (D : Type) := {
  d_read : Z -> Z -> D -> Z;
  d_write : Z -> Z -> Z -> D -> D;
  d_step : zmap * D -> zmap * D }.

Module Driver.

Definition HDA_REG_GLOBAL_CAPABILITIES : Z := 0x00.
Definition HDA_REG_MINOR_VERSION : Z := 0x02.
Definition HDA_REG_MAJOR_VERSION : Z := 0x03.
Definition HDA_REG_GLOBAL_CONTROL : Z := 0x08.
Definition HDA_REG_STATE_CHANGE_STATUS : Z := 0x0E.
Definition HDA_REG_COMMAND_RING_BASE_LOW : Z := 0x40.
Definition HDA_REG_COMMAND_RING_BASE_HIGH : Z := 0x44.
Definition HDA_REG_COMMAND_RING_WRITE_POINTER : Z := 0x48.
Definition HDA_REG_COMMAND_RING_READ_POINTER : Z := 0x4A.
Definition HDA_REG_COMMAND_RING_CONTROL : Z := 0x4C.
Definition HDA_REG_COMMAND_RING_STATUS : Z := 0x4D.
Definition HDA_REG_COMMAND_RING_SIZE : Z := 0x4E.
Definition HDA_REG_RESPONSE_RING_BASE_LOW : Z := 0x50.
Definition HDA_REG_RESPONSE_RING_BASE_HIGH : Z := 0x54.
Definition HDA_REG_RESPONSE_RING_WRITE_POINTER : Z := 0x58.
Definition HDA_REG_RESPONSE_INTERRUPT_COUNT : Z := 0x5A.
Definition HDA_REG_RESPONSE_RING_CONTROL : Z := 0x5C.
Definition HDA_REG_RESPONSE_RING_STATUS : Z := 0x5D.
Definition HDA_REG_RESPONSE_RING_SIZE : Z := 0x5E.
Definition HDA_GLOBAL_CONTROL_RESET : Z := 1.
Definition HDA_COMMAND_RING_RUN : Z := 2.
Definition HDA_RESPONSE_RING_RUN : Z := 2.
Definition HDA_RESPONSE_STATUS_INTERRUPT : Z := 1.
Definition HDA_RESPONSE_STATUS_OVERRUN : Z := 4.
Definition HDA_RING_POINTER_RESET : Z := 0x8000.
Definition HDA_RING_ENTRIES : Z := 256.
Definition HDA_PCI_COMMAND_OFFSET : Z := 0x04.
Definition HDA_SPIN_BUDGET : nat := Z.to_nat 500000.
Definition HDA_VERB_GET_PARAMETER : Z := 0xF00.
Definition HDA_PARAMETER_VENDOR_ID : Z := 0x00.
Definition HDA_PARAMETER_SUB_NODE_COUNT : Z := 0x04.
Definition HDA_PARAMETER_WIDGET_CAPABILITIES : Z := 0x09.
Definition HDA_PARAMETER_FUNCTION_GROUP_TYPE : Z := 0x05.
Definition HDA_PARAMETER_PIN_CAPABILITIES : Z := 0x0C.
Definition HDA_FUNCTION_GROUP_AUDIO : Z := 0x01.
Definition HDA_WIDGET_TYPE_AUDIO_OUTPUT : Z := 0x0.
Definition HDA_WIDGET_TYPE_AUDIO_INPUT : Z := 0x1.
Definition HDA_WIDGET_TYPE_PIN_COMPLEX : Z := 0x4.
Definition HDA_PIN_CAPABILITY_OUTPUT : Z := 0x10.
Definition HDA_PIN_CAPABILITY_INPUT : Z := 0x20.
Definition HDA_VERB_SET_CONVERTER_FORMAT : Z := 0x2.
Definition HDA_VERB_SET_AMPLIFIER_GAIN : Z := 0x3.
Definition HDA_AMPLIFIER_MUTE_OUTPUT : Z := 0xB080.
Definition HDA_VERB_SET_STREAM_CHANNEL : Z := 0x706.
Definition HDA_VERB_SET_PIN_CONTROL : Z := 0x707.
Definition HDA_PIN_CONTROL_INPUT_ENABLE : Z := 0x20.
Definition HDA_CAPTURE_STREAM_NUMBER : Z := 1.
Definition HDA_CAPTURE_FORMAT : Z := 0x0210.
Definition HDA_CAPTURE_HALF_BYTES : Z := 1280.
Definition HDA_CAPTURE_HALVES : Z := 2.
Definition HDA_REG_STREAM_DESCRIPTOR_BASE : Z := 0x80.
Definition HDA_STREAM_CONTROL : Z := 0x00.
Definition HDA_STREAM_LINK_POSITION : Z := 0x04.
Definition HDA_STREAM_CYCLIC_BUFFER_LENGTH : Z := 0x08.
Definition HDA_STREAM_LAST_VALID_INDEX : Z := 0x0C.
Definition HDA_STREAM_FORMAT : Z := 0x12.
Definition HDA_STREAM_DESCRIPTOR_LIST_LOW : Z := 0x18.
Definition HDA_STREAM_DESCRIPTOR_LIST_HIGH : Z := 0x1C.
Definition HDA_STREAM_CONTROL_RESET : Z := 1.
Definition HDA_STREAM_CONTROL_RUN : Z := 2.
Definition MAX_CODECS : Z := 15.

Record probe := mkProbe {
  command_write_pointer_shadow : Z;
  command_write_pointer : Z;
  command_read_pointer : Z;
  response_write_pointer : Z;
  response_read_pointer_shadow : Z;
  command_ring_control : Z;
  command_ring_status : Z;
  response_ring_control : Z;
  response_ring_status : Z }.

(** The fields of [IntelHighDefinitionAudioState_t], grouped: what the
    bring-up found, the counters of the rings, the nodes of the walk, the
    capture stream and the first failure. *)
Record found := mkFound {
  controller_present : bool;
  controller_running : bool;
  rings_running : bool;
  bar_virtual : Z;
  major_version : Z;
  minor_version : Z;
  output_streams : Z;
  input_streams : Z;
  codec_mask : Z;
  codec_vendor : zmap }.

Record counts := mkCounts { verbs_sent : Z; responses_read : Z; verb_timeouts : Z }.

Record nodes := mkNodes {
  audio_function_group : Z;
  capture_converter : Z;
  capture_pin : Z;
  playback_converter : Z;
  playback_pin : Z;
  widgets_walked : Z;
  outputs_muted : Z }.

Record capture := mkCapture { capture_running : bool; capture_position : Z; capture_wraps : Z }.

(** [None] until [probe_captured]; the command, the rings before and after. *)
Record hda_state := mkHda {
  about : found;
  traffic : counts;
  path : nodes;
  stream : capture;
  failure : option (Z * probe * probe) }.

Definition no_state : hda_state :=
  mkHda (mkFound false false false 0 0 0 0 0 0 ∅) (mkCounts 0 0 0) (mkNodes 0 0 0 0 0 0 0) (mkCapture false 0 0) None.

(** The variables of the driver, the address space, the memory that the
    controller shares, by physical address in words, and the devices. A pointer
    is 0 when it is NULL; [fault] is set by an access to an address that has no
    translation. *)
Record machine (A D B : Type) := mkMachine {
  state : hda_state;
  command_ring : Z;
  response_ring : Z;
  command_write : Z;
  response_read : Z;
  descriptor_list : Z;
  capture_buffer : Z;
  half_read : Z;
  space : vmm A;
  dma : zmap;
  device : D;
  bus : B;
  fault : bool }.
Arguments mkMachine {A D B}.
Arguments state {A D B}.
Arguments command_ring {A D B}.
Arguments response_ring {A D B}.
Arguments command_write {A D B}.
Arguments response_read {A D B}.
Arguments descriptor_list {A D B}.
Arguments capture_buffer {A D B}.
Arguments half_read {A D B}.
Arguments space {A D B}.
Arguments dma {A D B}.
Arguments device {A D B}.
Arguments bus {A D B}.
Arguments fault {A D B}.

Section driver.
Context {A : Type} `{FrameAllocator A} (realtime : bool) {D : Type} `{Device D} {B : Type}.
Abbreviation machine := (machine A D B).

Definition with_state (x : hda_state) (m : machine) : machine :=
  mkMachine x (command_ring m) (response_ring m) (command_write m) (response_read m) (descriptor_list m) (capture_buffer m) (half_read m) (space m) (dma m) (device m) (bus m) (fault m).
Definition with_rings (c r : Z) (m : machine) : machine :=
  mkMachine (state m) c r (command_write m) (response_read m) (descriptor_list m) (capture_buffer m) (half_read m) (space m) (dma m) (device m) (bus m) (fault m).
Definition with_pointers (w r : Z) (m : machine) : machine :=
  mkMachine (state m) (command_ring m) (response_ring m) w r (descriptor_list m) (capture_buffer m) (half_read m) (space m) (dma m) (device m) (bus m) (fault m).
Definition with_buffers (l b : Z) (m : machine) : machine :=
  mkMachine (state m) (command_ring m) (response_ring m) (command_write m) (response_read m) l b (half_read m) (space m) (dma m) (device m) (bus m) (fault m).
Definition with_half (h : Z) (m : machine) : machine :=
  mkMachine (state m) (command_ring m) (response_ring m) (command_write m) (response_read m) (descriptor_list m) (capture_buffer m) h (space m) (dma m) (device m) (bus m) (fault m).
Definition with_space (x : vmm A) (m : machine) : machine :=
  mkMachine (state m) (command_ring m) (response_ring m) (command_write m) (response_read m) (descriptor_list m) (capture_buffer m) (half_read m) x (dma m) (device m) (bus m) (fault m).
Definition with_devices (x : zmap) (d : D) (m : machine) : machine :=
  mkMachine (state m) (command_ring m) (response_ring m) (command_write m) (response_read m) (descriptor_list m) (capture_buffer m) (half_read m) (space m) x d (bus m) (fault m).
Definition with_bus (b : B) (m : machine) : machine :=
  mkMachine (state m) (command_ring m) (response_ring m) (command_write m) (response_read m) (descriptor_list m) (capture_buffer m) (half_read m) (space m) (dma m) (device m) b (fault m).
Definition faulted (m : machine) : machine :=
  mkMachine (state m) (command_ring m) (response_ring m) (command_write m) (response_read m) (descriptor_list m) (capture_buffer m) (half_read m) (space m) (dma m) (device m) (bus m) true.

Definition with_about (f : found -> found) (m : machine) : machine :=
  let s := state m in with_state (mkHda (f (about s)) (traffic s) (path s) (stream s) (failure s)) m.
Definition with_traffic (f : counts -> counts) (m : machine) : machine :=
  let s := state m in with_state (mkHda (about s) (f (traffic s)) (path s) (stream s) (failure s)) m.
Definition with_path (f : nodes -> nodes) (m : machine) : machine :=
  let s := state m in with_state (mkHda (about s) (traffic s) (f (path s)) (stream s) (failure s)) m.
Definition with_stream (f : capture -> capture) (m : machine) : machine :=
  let s := state m in with_state (mkHda (about s) (traffic s) (path s) (f (stream s)) (failure s)) m.
Definition with_failure (x : option (Z * probe * probe)) (m : machine) : machine :=
  let s := state m in with_state (mkHda (about s) (traffic s) (path s) (stream s) x) m.

(** ** Accesses *)

(** The controller runs between the accesses of the driver. *)
Definition step (_ : unit) (m : machine) : machine :=
  let '(x, d) := d_step (dma m, device m) in with_devices x d m.

Definition code (X : Type) : Type := Interleave.code machine unit X.
Definition act {X} (f : machine -> X * machine) : code X := access step f.
Definition store (f : machine -> machine) : code unit := update step f.
Definition get {X} (f : machine -> X) : code X := act (fun m => (f m, m)).

Definition hda_read8 (offset : Z) : code Z := get (fun m => d_read 1 offset (device m)).
Definition hda_read16 (offset : Z) : code Z := get (fun m => d_read 2 offset (device m)).
Definition hda_read32 (offset : Z) : code Z := get (fun m => d_read 4 offset (device m)).
Definition hda_write (width offset value : Z) : code unit := store (fun m => with_devices (dma m) (d_write width offset value (device m)) m).
Definition hda_write8 (offset value : Z) : code unit := hda_write 1 offset value.
Definition hda_write16 (offset value : Z) : code unit := hda_write 2 offset value.
Definition hda_write32 (offset value : Z) : code unit := hda_write 4 offset value.

Definition physical (virt : Z) (m : machine) : option Z := paging_get_physical_address virt (pages (space m)).

(** A word of a page that the controller shares. *)
Definition store_word (virt value : Z) : code unit := store (fun m =>
  match physical virt m with
  | Some p => with_devices (<[p := value]> (dma m)) (device m) m
  | None => faulted m
  end).

Definition load_word (virt : Z) : code Z := act (fun m =>
  match physical virt m with
  | Some p => (zget (dma m) p, m)
  | None => (0, faulted m)
  end).

(** The memory manager: a call that does not return is a fault. *)
Definition manage {X} (other : X) (f : vmm A -> option (X * vmm A)) : code X := act (fun m =>
  match f (space m) with
  | Some (x, v) => (x, with_space v m)
  | None => (other, faulted m)
  end).

Definition page_frame_allocate : code Z :=
  manage 0 (fun v => '(phys, a) ← FrameAlloc.page_frame_allocate (frames_state (pages v));
                     Some (phys, with_pages (with_frames a (pages v)) v)).
Definition page_frame_free (phys : Z) : code unit :=
  manage tt (fun v => a ← FrameAlloc.page_frame_free phys (frames_state (pages v));
                      Some (tt, with_pages (with_frames a (pages v)) v)).
Definition reserve_pages (count : Z) : code Z := manage 0 (kernel_vmm_reserve_pages count).
Definition free_pages (virt count : Z) : code unit :=
  manage tt (fun v => v ← kernel_vmm_free_pages virt count v; Some (tt, v)).

Definition pde_flags : PageDirectoryEntry := mkPde 1 1 0 0 0 0 0 0 0 0 0.
Definition pte_flags : PageTableEntry := mkPte 1 1 0 1 1 0 0 0 0 0 0.

Definition map_page (virt phys : Z) : code bool :=
  manage false (fun v => '(mapped, p) ← paging_map_page realtime virt phys pde_flags pte_flags (pages v); Some (mapped, with_pages p v)).

(** ** Mapping *)

Fixpoint map_loop (count : nat) (i virt virt_base phys_base page_count : Z) : code bool :=
  match count with
  | O => mret true
  | S count =>
    mapped ← map_page (virt_base ⊞ shl32 i 12) (phys_base ⊞ shl32 i 12);
    if negb mapped then _ ← free_pages virt page_count; mret false
    else map_loop count (i + 1) virt virt_base phys_base page_count
  end.

Definition hda_map_window (phys_base_raw size : Z) : code Z :=
  if (phys_base_raw =? 0) || (size =? 0) then mret 0
  else
    let page_offset := Z.land phys_base_raw 0xFFF in
    let phys_base := Z.land phys_base_raw 0xFFFFF000 in
    let page_count := Z.shiftr ((page_offset ⊞ size) ⊞ 0xFFF) 12 in
    virt ← reserve_pages page_count;
    if virt =? 0 then mret 0
    else
      ok ← map_loop (Z.to_nat page_count) 0 virt virt phys_base page_count;
      mret (if ok : bool then virt ⊞ page_offset else 0).

Fixpoint clear_loop (count : nat) (i virt : Z) : code unit :=
  match count with
  | O => mret tt
  | S count => _ ← store_word (virt ⊞ 4 * i) 0; clear_loop count (i + 1) virt
  end.

(** The page and its physical address; NULL is 0. *)
Definition hda_claim_dma_page : code (Z * Z) :=
  physical ← page_frame_allocate;
  if physical =? 0 then mret (0, 0)
  else
    virt ← reserve_pages 1;
    if virt =? 0 then _ ← page_frame_free physical; mret (0, 0)
    else
      mapped ← map_page virt physical;
      if negb mapped then _ ← free_pages virt 1; _ ← page_frame_free physical; mret (0, 0)
      else _ ← clear_loop 1024 0 virt; mret (virt, physical).

(** ** Bring-up *)

(** [for (spin = 0; spin < budget; ++spin) if (done(read())) break;] *)
Fixpoint spin_until (budget : nat) (read : code Z) (done : Z -> bool) : code unit :=
  match budget with
  | O => mret tt
  | S budget => v ← read; if done v then mret tt else spin_until budget read done
  end.

Definition bit_set (bit v : Z) : bool := negb (Z.land v bit =? 0).
Definition bit_clear (bit v : Z) : bool := Z.land v bit =? 0.

Definition hda_reset_controller : code bool :=
  v ← hda_read32 HDA_REG_GLOBAL_CONTROL;
  _ ← hda_write32 HDA_REG_GLOBAL_CONTROL (Z.land v (not32 HDA_GLOBAL_CONTROL_RESET));
  _ ← spin_until HDA_SPIN_BUDGET (hda_read32 HDA_REG_GLOBAL_CONTROL) (bit_clear HDA_GLOBAL_CONTROL_RESET);
  v ← hda_read32 HDA_REG_GLOBAL_CONTROL;
  if bit_set HDA_GLOBAL_CONTROL_RESET v then mret false
  else
    v ← hda_read32 HDA_REG_GLOBAL_CONTROL;
    _ ← hda_write32 HDA_REG_GLOBAL_CONTROL (Z.lor v HDA_GLOBAL_CONTROL_RESET);
    _ ← spin_until HDA_SPIN_BUDGET (hda_read32 HDA_REG_GLOBAL_CONTROL) (bit_set HDA_GLOBAL_CONTROL_RESET);
    v ← hda_read32 HDA_REG_GLOBAL_CONTROL;
    if bit_clear HDA_GLOBAL_CONTROL_RESET v then mret false
    else _ ← store (fun m => m); mret true.

Definition hda_start_rings : code bool :=
  '(command_virt, command_physical) ← hda_claim_dma_page;
  _ ← store (fun m => with_rings command_virt (response_ring m) m);
  '(response_virt, response_physical) ← hda_claim_dma_page;
  _ ← store (fun m => with_rings (command_ring m) response_virt m);
  if (command_virt =? 0) || (response_virt =? 0) then mret false
  else
    _ ← hda_write8 HDA_REG_COMMAND_RING_CONTROL 0;
    _ ← hda_write8 HDA_REG_RESPONSE_RING_CONTROL 0;
    _ ← hda_write32 HDA_REG_COMMAND_RING_BASE_LOW command_physical;
    _ ← hda_write32 HDA_REG_COMMAND_RING_BASE_HIGH 0;
    _ ← hda_write32 HDA_REG_RESPONSE_RING_BASE_LOW response_physical;
    _ ← hda_write32 HDA_REG_RESPONSE_RING_BASE_HIGH 0;
    _ ← hda_write8 HDA_REG_COMMAND_RING_SIZE 2;
    _ ← hda_write8 HDA_REG_RESPONSE_RING_SIZE 2;
    _ ← hda_write16 HDA_REG_COMMAND_RING_READ_POINTER HDA_RING_POINTER_RESET;
    _ ← spin_until HDA_SPIN_BUDGET (hda_read16 HDA_REG_COMMAND_RING_READ_POINTER) (bit_set HDA_RING_POINTER_RESET);
    _ ← hda_write16 HDA_REG_COMMAND_RING_READ_POINTER 0;
    _ ← spin_until HDA_SPIN_BUDGET (hda_read16 HDA_REG_COMMAND_RING_READ_POINTER) (bit_clear HDA_RING_POINTER_RESET);
    _ ← hda_write16 HDA_REG_COMMAND_RING_WRITE_POINTER 0;
    _ ← store (fun m => with_pointers 0 (response_read m) m);
    _ ← hda_write16 HDA_REG_RESPONSE_RING_WRITE_POINTER HDA_RING_POINTER_RESET;
    _ ← store (fun m => with_pointers (command_write m) 0 m);
    _ ← hda_write16 HDA_REG_RESPONSE_INTERRUPT_COUNT 0xFF;
    _ ← hda_write8 HDA_REG_RESPONSE_RING_STATUS (Z.lor HDA_RESPONSE_STATUS_INTERRUPT HDA_RESPONSE_STATUS_OVERRUN);
    _ ← hda_write8 HDA_REG_COMMAND_RING_CONTROL HDA_COMMAND_RING_RUN;
    _ ← hda_write8 HDA_REG_RESPONSE_RING_CONTROL HDA_RESPONSE_RING_RUN;
    c ← hda_read8 HDA_REG_COMMAND_RING_CONTROL;
    if bit_clear HDA_COMMAND_RING_RUN c then mret false
    else r ← hda_read8 HDA_REG_RESPONSE_RING_CONTROL; mret (bit_set HDA_RESPONSE_RING_RUN r).

(** ** Commands *)

Definition hda_probe_rings : code probe :=
  shadow ← get command_write;
  cw ← hda_read16 HDA_REG_COMMAND_RING_WRITE_POINTER;
  cr ← hda_read16 HDA_REG_COMMAND_RING_READ_POINTER;
  rw ← hda_read16 HDA_REG_RESPONSE_RING_WRITE_POINTER;
  rshadow ← get response_read;
  cc ← hda_read8 HDA_REG_COMMAND_RING_CONTROL;
  cs ← hda_read8 HDA_REG_COMMAND_RING_STATUS;
  rc ← hda_read8 HDA_REG_RESPONSE_RING_CONTROL;
  rs ← hda_read8 HDA_REG_RESPONSE_RING_STATUS;
  mret (mkProbe shadow cw cr rw rshadow cc cs rc rs).

Definition count_traffic (s r t : Z) (c : counts) : counts :=
  mkCounts (verbs_sent c ⊞ s) (responses_read c ⊞ r) (verb_timeouts c ⊞ t).

(** The loop that waits for the answer. *)
Fixpoint await (budget : nat) : code (option Z) :=
  match budget with
  | O => mret None
  | S budget =>
    w ← hda_read16 HDA_REG_RESPONSE_RING_WRITE_POINTER;
    r ← get response_read;
    if Z.land w 0xFF =? r then await budget
    else
      _ ← store (fun m => with_pointers (command_write m) ((response_read m + 1) mod HDA_RING_ENTRIES) m);
      index ← get response_read;
      ring ← get response_ring;
      response ← load_word (ring ⊞ 8 * index);
      _ ← store (with_traffic (count_traffic 0 1 0));
      _ ← hda_write8 HDA_REG_RESPONSE_RING_STATUS (Z.lor HDA_RESPONSE_STATUS_INTERRUPT HDA_RESPONSE_STATUS_OVERRUN);
      mret (Some response)
  end.

(** What is kept of the first command that gets no answer. *)
Definition keep_failure (command : Z) (before : probe) : code unit :=
  captured ← get (fun m => failure (state m));
  match captured with
  | Some _ => mret tt
  | None => after ← hda_probe_rings; store (with_failure (Some (command, before, after)))
  end.

(** [Some] response, or [None] for false. *)
Definition hda_submit (command : Z) : code (option Z) :=
  ready ← get (fun m => rings_running (about (state m)) && negb (command_ring m =? 0) && negb (response_ring m =? 0));
  if negb ready then mret None
  else
    before ← hda_probe_rings;
    _ ← store (fun m => with_pointers ((command_write m + 1) mod HDA_RING_ENTRIES) (response_read m) m);
    index ← get command_write;
    ring ← get command_ring;
    _ ← store_word (ring ⊞ 4 * index) command;
    _ ← hda_write16 HDA_REG_COMMAND_RING_WRITE_POINTER index;
    _ ← store (with_traffic (count_traffic 1 0 0));
    r ← await HDA_SPIN_BUDGET;
    match r with
    | Some response => mret (Some response)
    | None => _ ← store (with_traffic (count_traffic 0 0 1)); _ ← keep_failure command before; mret None
    end.

Definition verb_word (codec node verb payload : Z) : Z :=
  Z.lor (Z.lor (Z.lor (shl32 codec 28) (shl32 node 20)) (shl32 (Z.land verb 0xFFF) 8)) payload.

Definition wide_word (codec node verb payload : Z) : Z :=
  Z.lor (Z.lor (Z.lor (shl32 codec 28) (shl32 node 20)) (shl32 (Z.land verb 0xF) 16)) payload.

Definition intel_high_definition_audio_command (codec node verb payload : Z) : code (option Z) :=
  if MAX_CODECS <=? codec then mret None else hda_submit (verb_word codec node verb payload).

Definition intel_high_definition_audio_command_wide (codec node verb payload : Z) : code (option Z) :=
  if MAX_CODECS <=? codec then mret None else hda_submit (wide_word codec node verb payload).

(** ** The walk *)

Definition set_group (node : Z) (n : nodes) : nodes :=
  mkNodes node (capture_converter n) (capture_pin n) (playback_converter n) (playback_pin n) (widgets_walked n) (outputs_muted n).
Definition count_widget (n : nodes) : nodes :=
  mkNodes (audio_function_group n) (capture_converter n) (capture_pin n) (playback_converter n) (playback_pin n) (u8 (widgets_walked n + 1)) (outputs_muted n).
Definition count_mute (n : nodes) : nodes :=
  mkNodes (audio_function_group n) (capture_converter n) (capture_pin n) (playback_converter n) (playback_pin n) (widgets_walked n) (u8 (outputs_muted n + 1)).
Definition set_capture_converter (w : Z) (n : nodes) : nodes :=
  mkNodes (audio_function_group n) w (capture_pin n) (playback_converter n) (playback_pin n) (widgets_walked n) (outputs_muted n).
Definition set_playback_converter (w : Z) (n : nodes) : nodes :=
  mkNodes (audio_function_group n) (capture_converter n) (capture_pin n) w (playback_pin n) (widgets_walked n) (outputs_muted n).

(** A pin by its capabilities. *)
Definition classify_pin (widget capabilities : Z) (n : nodes) : nodes :=
  let n := if bit_set HDA_PIN_CAPABILITY_INPUT capabilities && (capture_pin n =? 0)
           then mkNodes (audio_function_group n) (capture_converter n) widget (playback_converter n) (playback_pin n) (widgets_walked n) (outputs_muted n) else n in
  if bit_set HDA_PIN_CAPABILITY_OUTPUT capabilities && (playback_pin n =? 0)
  then mkNodes (audio_function_group n) (capture_converter n) (capture_pin n) (playback_converter n) widget (widgets_walked n) (outputs_muted n) else n.

Definition mute (codec widget : Z) : code unit :=
  if widget =? 0 then mret tt
  else
    r ← intel_high_definition_audio_command_wide codec widget HDA_VERB_SET_AMPLIFIER_GAIN HDA_AMPLIFIER_MUTE_OUTPUT;
    match r with Some _ => store (with_path count_mute) | None => mret tt end.

Definition hda_mute_outputs (codec : Z) : code unit :=
  converter ← get (fun m => playback_converter (path (state m)));
  _ ← mute codec converter;
  pin ← get (fun m => playback_pin (path (state m)));
  mute codec pin.

Fixpoint widget_loop (count : nat) (codec widget : Z) : code unit :=
  match count with
  | O => mret tt
  | S count =>
    _ ← store (with_path count_widget);
    r ← intel_high_definition_audio_command codec widget HDA_VERB_GET_PARAMETER HDA_PARAMETER_WIDGET_CAPABILITIES;
    _ ← match r with
        | None => mret tt
        | Some response =>
          let type := Z.land (Z.shiftr response 20) 0xF in
          n ← get (fun m => path (state m));
          if (type =? HDA_WIDGET_TYPE_AUDIO_INPUT) && (capture_converter n =? 0)
          then store (with_path (set_capture_converter widget))
          else if (type =? HDA_WIDGET_TYPE_AUDIO_OUTPUT) && (playback_converter n =? 0)
          then store (with_path (set_playback_converter widget))
          else if type =? HDA_WIDGET_TYPE_PIN_COMPLEX then
            c ← intel_high_definition_audio_command codec widget HDA_VERB_GET_PARAMETER HDA_PARAMETER_PIN_CAPABILITIES;
            match c with None => mret tt | Some capabilities => store (with_path (classify_pin widget capabilities)) end
          else mret tt
        end;
    widget_loop count codec (u8 (widget + 1))
  end.

Definition first_of (response : Z) : Z := Z.land (Z.shiftr response 16) 0xFF.
Definition count_of (response : Z) : Z := Z.land response 0xFF.

Fixpoint group_loop (count : nat) (codec node : Z) : code unit :=
  match count with
  | O => mret tt
  | S count =>
    r ← intel_high_definition_audio_command codec node HDA_VERB_GET_PARAMETER HDA_PARAMETER_FUNCTION_GROUP_TYPE;
    match r with
    | None => group_loop count codec (u8 (node + 1))
    | Some response =>
      if negb (Z.land response 0x7F =? HDA_FUNCTION_GROUP_AUDIO) then group_loop count codec (u8 (node + 1))
      else
        _ ← store (with_path (set_group node));
        s ← intel_high_definition_audio_command codec node HDA_VERB_GET_PARAMETER HDA_PARAMETER_SUB_NODE_COUNT;
        match s with
        | None => mret tt
        | Some response =>
          _ ← widget_loop (Z.to_nat (count_of response)) codec (first_of response);
          hda_mute_outputs codec
        end
    end
  end.

Definition hda_find_capture_path (codec : Z) : code unit :=
  r ← intel_high_definition_audio_command codec 0 HDA_VERB_GET_PARAMETER HDA_PARAMETER_SUB_NODE_COUNT;
  match r with
  | None => mret tt
  | Some response => group_loop (Z.to_nat (count_of response)) codec (first_of response)
  end.

(** ** Capture *)

Fixpoint descriptor_loop (count : nat) (half list buffer_physical : Z) : code unit :=
  match count with
  | O => mret tt
  | S count =>
    _ ← store_word (list ⊞ 4 * (half * 4)) (buffer_physical ⊞ half ⊠ HDA_CAPTURE_HALF_BYTES);
    _ ← store_word (list ⊞ 4 * (half * 4 + 1)) 0;
    _ ← store_word (list ⊞ 4 * (half * 4 + 2)) HDA_CAPTURE_HALF_BYTES;
    _ ← store_word (list ⊞ 4 * (half * 4 + 3)) 1;
    descriptor_loop count (half + 1) list buffer_physical
  end.

Definition set_running (b : bool) (c : capture) : capture := mkCapture b (capture_position c) (capture_wraps c).

Definition intel_high_definition_audio_start_capture : code bool :=
  ready ← get (fun m => rings_running (about (state m)) && negb (capture_converter (path (state m)) =? 0));
  if negb ready then mret false
  else
    '(list, descriptor_physical) ← hda_claim_dma_page;
    _ ← store (fun m => with_buffers list (capture_buffer m) m);
    '(buffer, buffer_physical) ← hda_claim_dma_page;
    _ ← store (fun m => with_buffers (descriptor_list m) buffer m);
    if (list =? 0) || (buffer =? 0) then mret false
    else
      _ ← descriptor_loop (Z.to_nat HDA_CAPTURE_HALVES) 0 list buffer_physical;
      let stream := HDA_REG_STREAM_DESCRIPTOR_BASE in
      _ ← hda_write8 (stream + HDA_STREAM_CONTROL) HDA_STREAM_CONTROL_RESET;
      _ ← spin_until HDA_SPIN_BUDGET (hda_read8 (stream + HDA_STREAM_CONTROL)) (bit_set HDA_STREAM_CONTROL_RESET);
      _ ← hda_write8 (stream + HDA_STREAM_CONTROL) 0;
      _ ← spin_until HDA_SPIN_BUDGET (hda_read8 (stream + HDA_STREAM_CONTROL)) (bit_clear HDA_STREAM_CONTROL_RESET);
      _ ← hda_write32 (stream + HDA_STREAM_CYCLIC_BUFFER_LENGTH) (HDA_CAPTURE_HALVES * HDA_CAPTURE_HALF_BYTES);
      _ ← hda_write16 (stream + HDA_STREAM_LAST_VALID_INDEX) (HDA_CAPTURE_HALVES - 1);
      _ ← hda_write16 (stream + HDA_STREAM_FORMAT) HDA_CAPTURE_FORMAT;
      _ ← hda_write32 (stream + HDA_STREAM_DESCRIPTOR_LIST_LOW) descriptor_physical;
      _ ← hda_write32 (stream + HDA_STREAM_DESCRIPTOR_LIST_HIGH) 0;
      _ ← hda_write32 (stream + HDA_STREAM_CONTROL) (shl32 HDA_CAPTURE_STREAM_NUMBER 20);
      converter ← get (fun m => capture_converter (path (state m)));
      _ ← intel_high_definition_audio_command_wide 0 converter HDA_VERB_SET_CONVERTER_FORMAT HDA_CAPTURE_FORMAT;
      _ ← intel_high_definition_audio_command 0 converter HDA_VERB_SET_STREAM_CHANNEL (u8 (Z.shiftl HDA_CAPTURE_STREAM_NUMBER 4));
      _ ← intel_high_definition_audio_command_wide 0 converter HDA_VERB_SET_AMPLIFIER_GAIN (Z.lor 0x7000 0x0027);
      pin ← get (fun m => capture_pin (path (state m)));
      _ ← (if pin =? 0 then mret None
           else intel_high_definition_audio_command 0 pin HDA_VERB_SET_PIN_CONTROL HDA_PIN_CONTROL_INPUT_ENABLE);
      _ ← hda_write32 (stream + HDA_STREAM_CONTROL) (Z.lor (shl32 HDA_CAPTURE_STREAM_NUMBER 20) HDA_STREAM_CONTROL_RUN);
      _ ← store (with_half 0);
      c ← hda_read8 (stream + HDA_STREAM_CONTROL);
      let running := bit_set HDA_STREAM_CONTROL_RUN c in
      _ ← store (with_stream (set_running running));
      mret running.

(** The 16-bit samples of the words of the buffer. *)
Fixpoint sample_loop (count : nat) (i buffer : Z) : code (list Z) :=
  match count with
  | O => mret []
  | S count =>
    w ← load_word (buffer ⊞ 4 * (i / 2));
    l ← sample_loop count (i + 1) buffer;
    mret ((if Z.even i then Z.land w 0xFFFF else Z.shiftr w 16) :: l)
  end.

Definition at_position (position : Z) (c : capture) : capture :=
  mkCapture (capture_running c) position (if position <? capture_position c then capture_wraps c ⊞ 1 else capture_wraps c).

(** The samples handed over; none for a count of 0. *)
Definition intel_high_definition_audio_poll_capture (out capacity : Z) : code (list Z) :=
  ready ← get (fun m => capture_running (stream (state m)) && negb (out =? 0) && negb (capture_buffer m =? 0));
  if negb ready then mret []
  else
    let samples_per_half := HDA_CAPTURE_HALF_BYTES / 2 in
    if capacity <? samples_per_half then mret []
    else
      position ← hda_read32 (HDA_REG_STREAM_DESCRIPTOR_BASE + HDA_STREAM_LINK_POSITION);
      _ ← store (with_stream (at_position position));
      let writing := position / HDA_CAPTURE_HALF_BYTES in
      half ← get half_read;
      if writing =? half then mret []
      else
        _ ← store (with_half (writing mod HDA_CAPTURE_HALVES));
        buffer ← get capture_buffer;
        sample_loop (Z.to_nat samples_per_half) (half * samples_per_half) buffer.

(** ** Initialisation *)

Definition set_rings (b : bool) (f : found) : found :=
  mkFound (controller_present f) (controller_running f) b (bar_virtual f) (major_version f) (minor_version f)
    (output_streams f) (input_streams f) (codec_mask f) (codec_vendor f).
Definition set_bar (v : Z) (f : found) : found :=
  mkFound (controller_present f) (controller_running f) (rings_running f) v (major_version f) (minor_version f)
    (output_streams f) (input_streams f) (codec_mask f) (codec_vendor f).
Definition set_present (f : found) : found :=
  mkFound true (controller_running f) (rings_running f) (bar_virtual f) (major_version f) (minor_version f)
    (output_streams f) (input_streams f) (codec_mask f) (codec_vendor f).
Definition set_reset (f : found) : found :=
  mkFound (controller_present f) true (rings_running f) (bar_virtual f) (major_version f) (minor_version f)
    (output_streams f) (input_streams f) (codec_mask f) (codec_vendor f).
Definition set_identity (major minor capabilities mask : Z) (f : found) : found :=
  mkFound (controller_present f) (controller_running f) (rings_running f) (bar_virtual f) major minor
    (Z.land (Z.shiftr capabilities 12) 0x0F) (Z.land (Z.shiftr capabilities 8) 0x0F) mask (codec_vendor f).
Definition set_vendor (slot vendor : Z) (f : found) : found :=
  mkFound (controller_present f) (controller_running f) (rings_running f) (bar_virtual f) (major_version f) (minor_version f)
    (output_streams f) (input_streams f) (codec_mask f) (<[slot := vendor]> (codec_vendor f)).

Definition in_mask (slot : Z) (m : machine) : bool := negb (Z.land (codec_mask (about (state m))) (u16 (Z.shiftl 1 slot)) =? 0).

Fixpoint vendor_loop (slots : list Z) (answered : bool) : code bool :=
  match slots with
  | [] => mret answered
  | slot :: slots =>
    announced ← get (in_mask slot);
    if negb announced then vendor_loop slots answered
    else
      r ← intel_high_definition_audio_command slot 0 HDA_VERB_GET_PARAMETER HDA_PARAMETER_VENDOR_ID;
      match r with
      | None => vendor_loop slots answered
      | Some vendor => _ ← store (with_about (set_vendor slot vendor)); vendor_loop slots true
      end
  end.

Fixpoint path_loop (slots : list Z) : code unit :=
  match slots with
  | [] => mret tt
  | slot :: slots =>
    announced ← get (in_mask slot);
    if negb announced then path_loop slots
    else
      _ ← hda_find_capture_path slot;
      converter ← get (fun m => capture_converter (path (state m)));
      if negb (converter =? 0) then mret tt else path_loop slots
  end.

(** [devices] is what the bus scan recorded, [data_in] and [data_out] are the
    configuration space. *)
Definition intel_high_definition_audio_initialize (data_in : Z -> B -> Z) (data_out : Z -> Z -> B -> B) (devices : list Pci.Device) : code bool :=
  _ ← store (with_state no_state);
  _ ← store (with_rings 0 0);
  match Pci.find_by_class 0x04 0x03 devices with
  | None => mret false
  | Some dev =>
    let at_ {X} (f : Z -> Z -> Z -> X) : X := f (Pci.d_bus dev) (Pci.d_device dev) (Pci.d_function dev) in
    _ ← store (with_about set_present);
    command ← get (fun m => at_ (fun b d f => Pci.config_read_word data_in b d f HDA_PCI_COMMAND_OFFSET (bus m)));
    _ ← store (fun m => with_bus (at_ (fun b d f => Pci.config_write_word data_in data_out b d f HDA_PCI_COMMAND_OFFSET (Z.lor command 6) (bus m))) m);
    bar ← act (fun m => let '(r, b) := at_ (fun b d f => Pci.read_base_address_register data_in data_out b d f 0 (bus m)) in (r, with_bus b m));
    match bar with
    | Some (true, bar) =>
      if negb (Pci.is_io bar =? 0) || negb (Z.shiftr (Pci.base bar) 32 =? 0) then mret false
      else
        virt ← hda_map_window (u32 (Pci.base bar)) (if negb (Pci.size bar =? 0) then u32 (Pci.size bar) else 0x4000);
        _ ← store (with_about (set_bar virt));
        if virt =? 0 then mret false
        else
          ok ← hda_reset_controller;
          if negb ok then mret false
          else
            _ ← store (with_about set_reset);
            major ← hda_read8 HDA_REG_MAJOR_VERSION;
            minor ← hda_read8 HDA_REG_MINOR_VERSION;
            capabilities ← hda_read16 HDA_REG_GLOBAL_CAPABILITIES;
            mask ← hda_read16 HDA_REG_STATE_CHANGE_STATUS;
            _ ← store (with_about (set_identity major minor capabilities mask));
            _ ← hda_write16 HDA_REG_STATE_CHANGE_STATUS mask;
            running ← hda_start_rings;
            _ ← store (with_about (set_rings running));
            if negb running then mret false
            else
              answered ← vendor_loop (seqZ 0 MAX_CODECS) false;
              if negb answered then mret false
              else
                _ ← path_loop (seqZ 0 MAX_CODECS);
                _ ← intel_high_definition_audio_start_capture;
                mret true
    | _ => mret false
    end
  end.

End driver.

End Driver.

(** ** A controller *)

Module Controller.
Import Driver.

(** [fetched] and [written] are the read pointer of the command ring, with its
    reset bit, and the write pointer of the response ring; [unacknowledged] the
    responses since the driver last cleared the response flag, [limit] how many
    of them the controller tolerates; [heard] the commands fetched so far;
    [other] the registers without an effect here. *)
Record controller := mkController {
  command_base : Z;
  response_base : Z;
  command_pointer : Z;
  fetched : Z;
  written : Z;
  fetching : bool;
  responding : bool;
  unacknowledged : Z;
  limit : Z;
  heard : list Z;
  other : zmap }.

Section codec.
(** What the codecs answer to a command. *)
Context (answer : Z -> Z).

Definition read_register (width offset : Z) (c : controller) : Z :=
  if offset =? HDA_REG_COMMAND_RING_WRITE_POINTER then command_pointer c
  else if offset =? HDA_REG_COMMAND_RING_READ_POINTER then fetched c
  else if offset =? HDA_REG_RESPONSE_RING_WRITE_POINTER then written c
  else if offset =? HDA_REG_COMMAND_RING_CONTROL then (if fetching c then HDA_COMMAND_RING_RUN else 0)
  else if offset =? HDA_REG_RESPONSE_RING_CONTROL then (if responding c then HDA_RESPONSE_RING_RUN else 0)
  else zget (other c) offset.

Definition write_register (width offset v : Z) (c : controller) : controller :=
  if offset =? HDA_REG_COMMAND_RING_BASE_LOW then
    mkController v (response_base c) (command_pointer c) (fetched c) (written c) (fetching c) (responding c) (unacknowledged c) (limit c) (heard c) (other c)
  else if offset =? HDA_REG_RESPONSE_RING_BASE_LOW then
    mkController (command_base c) v (command_pointer c) (fetched c) (written c) (fetching c) (responding c) (unacknowledged c) (limit c) (heard c) (other c)
  else if offset =? HDA_REG_COMMAND_RING_WRITE_POINTER then
    mkController (command_base c) (response_base c) (Z.land v 0xFF) (fetched c) (written c) (fetching c) (responding c) (unacknowledged c) (limit c) (heard c) (other c)
  else if offset =? HDA_REG_COMMAND_RING_READ_POINTER then
    mkController (command_base c) (response_base c) (command_pointer c)
      (if bit_set HDA_RING_POINTER_RESET v then HDA_RING_POINTER_RESET else Z.land (fetched c) 0xFF)
      (written c) (fetching c) (responding c) (unacknowledged c) (limit c) (heard c) (other c)
  else if offset =? HDA_REG_RESPONSE_RING_WRITE_POINTER then
    mkController (command_base c) (response_base c) (command_pointer c) (fetched c)
      (if bit_set HDA_RING_POINTER_RESET v then 0 else written c) (fetching c) (responding c) (unacknowledged c) (limit c) (heard c) (other c)
  else if offset =? HDA_REG_COMMAND_RING_CONTROL then
    mkController (command_base c) (response_base c) (command_pointer c) (fetched c) (written c) (bit_set HDA_COMMAND_RING_RUN v) (responding c) (unacknowledged c) (limit c) (heard c) (other c)
  else if offset =? HDA_REG_RESPONSE_RING_CONTROL then
    mkController (command_base c) (response_base c) (command_pointer c) (fetched c) (written c) (fetching c) (bit_set HDA_RESPONSE_RING_RUN v) (unacknowledged c) (limit c) (heard c) (other c)
  else if offset =? HDA_REG_RESPONSE_RING_STATUS then
    mkController (command_base c) (response_base c) (command_pointer c) (fetched c) (written c) (fetching c) (responding c)
      (if bit_set HDA_RESPONSE_STATUS_INTERRUPT v then 0 else unacknowledged c) (limit c) (heard c) (other c)
  else if offset =? HDA_REG_RESPONSE_INTERRUPT_COUNT then
    mkController (command_base c) (response_base c) (command_pointer c) (fetched c) (written c) (fetching c) (responding c) (unacknowledged c) (Z.land v 0xFF) (heard c) (other c)
  else
    mkController (command_base c) (response_base c) (command_pointer c) (fetched c) (written c) (fetching c) (responding c) (unacknowledged c) (limit c) (heard c)
      (<[offset := v]> (other c)).

(** One command is fetched and answered, unless there is none, an engine is
    stopped, the pointer is held in reset, or too many responses are not
    acknowledged. *)
Definition turn (x : zmap * controller) : zmap * controller :=
  let '(mem, c) := x in
  if fetching c && responding c && (fetched c <? 256) && negb (fetched c =? command_pointer c) && (unacknowledged c <? limit c) then
    let next := (fetched c + 1) mod HDA_RING_ENTRIES in
    let command := zget mem (command_base c + 4 * next) in
    let slot := (written c + 1) mod HDA_RING_ENTRIES in
    (<[response_base c + 8 * slot := answer command]> mem,
     mkController (command_base c) (response_base c) (command_pointer c) next slot (fetching c) (responding c)
       (unacknowledged c + 1) (limit c) (heard c ++ [command]) (other c))
  else (mem, c).

#[local] Instance hda_controller : Device controller := { d_read := read_register; d_write := write_register; d_step := turn }.

End codec.

End Controller.
