(* ===== verification/HdaProofs.v ===== *)
(** * The audio driver against a controller

    The commands of [Hda.Driver] in front of [Hda.Controller]: whenever the
    controller runs, a command that is answered in time gets its own answer, and
    the walk over a codec finds what the codec's answers describe. *)

From S2P Require Import Prelude Cpu Pmm BuddyProofs FrameAlloc Paging PagingProofs Vmm Bus Interleave Hda.
Import Hda.Driver Hda.Controller.

Section proofs.
Context {A : Type} `{FrameAllocator A} {B : Type} (answer : Z -> Z).
#[local] Instance controller_device : Device controller := hda_controller answer.
Abbreviation machine := (machine A controller B).

(** The pages of the rings: virtual and physical addresses. *)
Context (cv cp rv rp : Z).

Definition next (k : Z) : Z := (k + 1) mod HDA_RING_ENTRIES.

Lemma next_range k : 0 <= next k < 256.
Proof. apply Z.mod_pos_bound. done. Qed.

Lemma next_other k : 0 <= k < 256 -> next k <> k.
Proof.
  intros Hk E. unfold next, HDA_RING_ENTRIES in E. destruct (decide (k = 255)) as [->|]; [done|]. rewrite Z.mod_small in E; lia.
Qed.

(** ** The rings are connected *)

Record linked (m : machine) : Prop := {
  ln_running : rings_running (about (state m)) = true;
  ln_command : command_ring m = cv;
  ln_response : response_ring m = rv;
  ln_nonzero : cv <> 0 /\ rv <> 0;
  ln_command_page i : 0 <= i < 256 -> physical (cv ⊞ 4 * i) m = Some (cp + 4 * i);
  ln_response_page i : 0 <= i < 256 -> physical (rv ⊞ 8 * i) m = Some (rp + 8 * i);
  ln_apart : cp + 1024 <= rp \/ rp + 2048 <= cp;
  ln_command_base : command_base (device m) = cp;
  ln_response_base : response_base (device m) = rp;
  ln_fetching : fetching (device m) = true;
  ln_responding : responding (device m) = true;
  ln_limit : 0 < limit (device m);
  ln_fault : fault m = false }.

(** What a command leaves alone. *)
Definition view (m : machine) : found * nodes * capture := (about (state m), path (state m), stream (state m)).

Definition lost (m : machine) : Prop := failure (state m) <> None.

(** The driver's pointers and the controller's part. *)
Record held (v : found * nodes * capture) (w r : Z) (R : zmap -> controller -> Prop) (m : machine) : Prop := {
  hd_linked : linked m;
  hd_view : view m = v;
  hd_failure : failure (state m) = None;
  hd_write : command_write m = w;
  hd_read : response_read m = r;
  hd_range : 0 <= w < 256 /\ 0 <= r < 256;
  hd_device : R (dma m) (device m) }.

(** All commands up to [k] are answered, the last answer is in slot [r]. *)
Record rests (k r : Z) (h : list Z) (x : zmap) (c : controller) : Prop := {
  rs_pointer : command_pointer c = k;
  rs_fetched : fetched c = k;
  rs_written : written c = r;
  rs_acknowledged : unacknowledged c = 0;
  rs_heard : heard c = h }.

(** The answer is in the ring. *)
Record replied (k r : Z) (h : list Z) (command : Z) (x : zmap) (c : controller) : Prop := {
  rp_pointer : command_pointer c = next k;
  rp_fetched : fetched c = next k;
  rp_written : written c = next r;
  rp_heard : heard c = h ++ [command];
  rp_answer : zget x (rp + 8 * next r) = answer command }.

(** The command is in the ring and announced. *)
Definition waits (k r : Z) (h : list Z) (command : Z) (x : zmap) (c : controller) : Prop :=
  (command_pointer c = next k /\ fetched c = k /\ written c = r /\ unacknowledged c = 0 /\ heard c = h /\ zget x (cp + 4 * next k) = command) \/
  replied k r h command x c.

(** ** The controller's steps *)

Lemma turn_still x c : fetched c = command_pointer c -> turn answer (x, c) = (x, c).
Proof. intros E. unfold turn. rewrite E, Z.eqb_refl. cbn [negb]. by rewrite !andb_false_r. Qed.

Lemma rests_turn k r h x c : rests k r h x c -> let '(x', c') := turn answer (x, c) in rests k r h x' c'.
Proof. intros []. rewrite turn_still by congruence. by split. Qed.

Lemma replied_turn k r h command x c : replied k r h command x c -> let '(x', c') := turn answer (x, c) in replied k r h command x' c'.
Proof. intros []. rewrite turn_still by congruence. by split. Qed.

(** A device's step keeps what the driver has. *)
Definition keeps (R R' : zmap -> controller -> Prop) : Prop :=
  forall x c, R x c -> command_base c = cp -> response_base c = rp -> fetching c = true -> responding c = true -> 0 < limit c ->
    let '(x', c') := turn answer (x, c) in R' x' c'.

Lemma waits_turn k r h command : 0 <= k < 256 -> 0 <= r < 256 -> keeps (waits k r h command) (waits k r h command).
Proof.
  intros Hk Hr x c [(Hp & Hf & Hw & Hu & Hh & Hc)|Hd] Hcb Hrb Hfe Hre Hl.
  - unfold turn. rewrite Hfe, Hre, (proj2 (Z.ltb_lt (fetched c) 256)), (proj2 (Z.eqb_neq (fetched c) (command_pointer c))), (proj2 (Z.ltb_lt (unacknowledged c) (limit c)))
      by (rewrite ?Hf, ?Hp, ?Hu; try lia; by apply not_eq_sym, next_other).
    cbn [andb negb]. rewrite Hf, Hw, Hcb, Hrb. change ((k + 1) mod HDA_RING_ENTRIES) with (next k). change ((r + 1) mod HDA_RING_ENTRIES) with (next r).
    rewrite Hc. right. split; cbn; [done|done|done|by rewrite Hh|]. by rewrite zget_insert_eq.
  - pose proof (replied_turn _ _ _ _ _ _ Hd) as Ht. destruct (turn answer (x, c)) as [x' c']. by right.
Qed.

Lemma turn_fixed x c : let '(_, c') := turn answer (x, c) in
  command_base c' = command_base c /\ response_base c' = response_base c /\ fetching c' = fetching c /\ responding c' = responding c /\ limit c' = limit c.
Proof. unfold turn. by match goal with |- context [if ?b then _ else _] => destruct b end. Qed.

Lemma linked_step u m : linked m -> linked (step u m).
Proof.
  intros []. unfold step. cbn [d_step controller_device hda_controller]. pose proof (turn_fixed (dma m) (device m)) as Ht.
  destruct (turn answer (dma m, device m)) as [x c]. destruct Ht as (E1 & E2 & E3 & E4 & E5).
  split; try done; cbn [device with_devices]; congruence.
Qed.

Lemma held_step v w r R R' u m : keeps R R' -> held v w r R m -> held v w r R' (step u m).
Proof.
  intros Hk []. pose proof (linked_step u m hd_linked0) as Hl. revert Hl. unfold step. cbn [d_step controller_device hda_controller].
  specialize (Hk (dma m) (device m) hd_device0). destruct hd_linked0. specialize (Hk ln_command_base0 ln_response_base0 ln_fetching0 ln_responding0 ln_limit0).
  destruct (turn answer (dma m, device m)) as [x c]. intros Hl. by split.
Qed.

Lemma keeps_rests k r h : keeps (rests k r h) (rests k r h).
Proof. intros x c Hr _ _ _ _ _. by apply rests_turn. Qed.

Lemma keeps_replied k r h command : keeps (replied k r h command) (replied k r h command).
Proof. intros x c Hr _ _ _ _ _. by apply replied_turn. Qed.

(** ** One command *)

Lemma keep_get {X} (f : machine -> X) (P : machine -> Prop) :
  (forall u m, P m -> P (step u m)) -> triple P (get f) (fun _ => P).
Proof. intros Hs. by apply triple_access. Qed.

(** A value that the assertion fixes. *)
Lemma get_known {X} (f : machine -> X) (P : machine -> Prop) x :
  (forall u m, P m -> P (step u m)) -> (forall m, P m -> f m = x) -> triple P (get f) (fun y m => P m /\ y = x).
Proof. intros Hs Hf. apply triple_access; [done|]. intros m Hm. split; [done|by apply Hf]. Qed.

Lemma bind_known {X Y} (f : machine -> X) (P : machine -> Prop) x (k : X -> code Y) Q :
  (forall u m, P m -> P (step u m)) -> (forall m, P m -> f m = x) -> triple P (k x) Q -> triple P (get f ≫= k) Q.
Proof.
  intros Hs Hf Hk. eapply triple_bind; [by apply (get_known f P x)|]. intros y. apply triple_pure. by intros ->.
Qed.

Lemma keep_probe (P : machine -> Prop) : (forall u m, P m -> P (step u m)) -> triple P hda_probe_rings (fun _ => P).
Proof.
  intros Hs. unfold hda_probe_rings, hda_read16, hda_read8.
  repeat (apply (triple_seq _ P); [by apply keep_get|intros ?]). by apply triple_ret.
Qed.

Lemma held_stable v w r R : keeps R R -> forall u m, held v w r R m -> held v w r R (step u m).
Proof. intros Hk u m. by apply held_step. Qed.

(** The driver moves its own pointers. *)
Lemma held_pointers v w r R m w' r' :
  held v w r R m -> 0 <= w' < 256 -> 0 <= r' < 256 -> held v w' r' R (with_pointers w' r' m).
Proof. intros [[]] ? ?. split; first [done | by split]. Qed.

Lemma held_traffic v w r R m f : held v w r R m -> held v w r R (with_traffic f m).
Proof. intros [[]]. split; first [done | by split]. Qed.

Section command.
Context (v : found * nodes * capture) (k r : Z) (h : list Z) (command : Z).
Context (Hk : 0 <= k < 256) (Hr : 0 <= r < 256).

Lemma load_answer (m : machine) : held v (next k) (next r) (replied k r h command) m ->
  physical (rv ⊞ 8 * next r) m = Some (rp + 8 * next r) /\ zget (dma m) (rp + 8 * next r) = answer command.
Proof. intros [[] _ _ _ _ _ []]. split; [|done]. apply ln_response_page0, next_range. Qed.

Lemma acknowledge (m : machine) : held v (next k) (next r) (replied k r h command) m ->
  held v (next k) (next r) (rests (next k) (next r) (h ++ [command]))
    (with_devices (dma m) (d_write 1 HDA_REG_RESPONSE_RING_STATUS 5 (device m)) m).
Proof. intros [[] ? ? ? ? ? []]. split; first [done | by split]. Qed.

(** The answer is taken. *)
Lemma take_answer :
  triple (held v (next k) r (replied k r h command))
    (_ ← store (fun m => with_pointers (command_write m) ((response_read m + 1) mod HDA_RING_ENTRIES) m);
     index ← get response_read;
     ring ← get response_ring;
     response ← load_word (ring ⊞ 8 * index);
     _ ← store (with_traffic (count_traffic 0 1 0));
     _ ← hda_write8 HDA_REG_RESPONSE_RING_STATUS (Z.lor HDA_RESPONSE_STATUS_INTERRUPT HDA_RESPONSE_STATUS_OVERRUN);
     mret (Some response))
    (fun o m => o = Some (answer command) /\ held v (next k) (next r) (rests (next k) (next r) (h ++ [command])) m).
Proof.
  set (P := held v (next k) (next r) (replied k r h command)).
  assert (HP : forall u m, P m -> P (step u m)) by (apply held_stable, keeps_replied).
  apply (triple_seq _ P).
  { apply triple_update; [apply held_stable, keeps_replied|]. intros m Hm. pose proof Hm as [_ _ _ -> -> _ _].
    apply (held_pointers v (next k) r); [done|apply next_range..]. }
  intros _. apply (bind_known _ _ (next r)); [done|by intros m []|].
  apply (bind_known _ _ rv); [done|by intros m [[]]|].
  apply (triple_bind _ (fun x m => P m /\ x = answer command)).
  { apply triple_access; [done|]. intros m Hm. destruct (load_answer m Hm) as [-> ->]. done. }
  intros x. apply triple_pure. intros ->. apply (triple_seq _ P).
  { apply triple_update; [done|]. intros m Hm. by apply held_traffic. }
  intros _. apply (triple_seq _ (held v (next k) (next r) (rests (next k) (next r) (h ++ [command])))).
  - apply triple_update; [done|]. intros m Hm. by apply acknowledge.
  - intros _. by apply triple_ret.
Qed.

Lemma await_answer n :
  triple (held v (next k) r (waits k r h command)) (await n)
    (fun o m => match o with
                | None => True
                | Some a => a = answer command /\ held v (next k) (next r) (rests (next k) (next r) (h ++ [command])) m
                end).
Proof.
  induction n as [|n IH]; [by apply triple_ret|]. cbn [await].
  apply (triple_bind _ (fun w m => held v (next k) r (waits k r h command) m /\ (w = r \/ (w = next r /\ held v (next k) r (replied k r h command) m)))).
  { apply triple_access; [by apply held_stable, waits_turn|]. intros m Hm. split; [done|]. destruct Hm as [? ? ? ? ? ? [(_ & _ & Hw & _)|Hd]].
    - left. exact Hw.
    - right. split; [apply (rp_written _ _ _ _ _ _ Hd)|]. by split. }
  assert (Hland : forall x, 0 <= x < 256 -> Z.land x 0xFF = x).
  { intros x Hx. change 0xFF with (Z.ones 8). rewrite Z.land_ones by lia. apply Z.mod_small. lia. }
  intros w sch m [Hm [->|[-> Hd]]].
  - revert sch m Hm. apply (bind_known _ _ r); [by apply held_stable, waits_turn|by intros m []|].
    rewrite Hland, Z.eqb_refl by done. exact IH.
  - clear Hm. revert sch m Hd. apply (bind_known _ _ r); [apply held_stable, keeps_replied|by intros m []|].
    rewrite Hland, (proj2 (Z.eqb_neq (next r) r)) by (apply next_range || by apply next_other).
    eapply triple_mono; [apply take_answer|done|]. by intros o m [-> Hm].
Qed.

End command.

(** All commands so far are answered; [h] are those the controller heard. *)
Definition quiet (v : found * nodes * capture) (h : list Z) (m : machine) : Prop := exists k r, held v k r (rests k r h) m.

Lemma rings_quiet_step v h u m : quiet v h m -> quiet v h (step u m).
Proof. intros (k & r & Hm). exists k, r. apply (held_step _ _ _ _ _ _ _ (keeps_rests k r h) Hm). Qed.

(** The first failure is kept. *)
Lemma lost_step u m : lost m -> lost (step u m).
Proof. unfold lost, step. cbn [d_step controller_device hda_controller]. by destruct (turn answer (dma m, device m)). Qed.

Lemma lost_store f : (forall m : machine, failure (state (f m)) = failure (state m)) -> triple lost (store f) (fun _ => lost).
Proof. intros Hf. apply triple_update; [apply lost_step|]. intros m Hm. unfold lost. by rewrite Hf. Qed.

Lemma lost_get {X} (f : machine -> X) : triple lost (get f) (fun _ => lost).
Proof. apply keep_get, lost_step. Qed.

Lemma keep_failure_lost command before : triple (fun _ => True) (keep_failure command before) (fun _ => lost).
Proof.
  unfold keep_failure. apply (triple_bind _ (fun c m => c = None \/ lost m)).
  { apply triple_access; [done|]. intros m _. unfold lost. cbn. by destruct (failure (state m)); [right|left]. }
  intros [x|].
  - apply triple_ret. by intros m [|].
  - apply (triple_mono (fun _ => True) _ (fun _ => lost)); [|done|done].
    eapply triple_seq; [by apply (keep_probe (fun _ => True))|]. intros after. by apply triple_update.
Qed.

Lemma lost_load virt : triple lost (load_word virt) (fun _ => lost).
Proof. apply triple_access; [apply lost_step|]. intros m Hm. by destruct (physical virt m). Qed.

Lemma lost_store_word virt x : triple lost (store_word virt x) (fun _ => lost).
Proof. apply lost_store. intros m. by destruct (physical virt m). Qed.

Lemma lost_submit command : triple lost (hda_submit command) (fun _ => lost).
Proof.
  unfold hda_submit. eapply triple_seq; [apply lost_get|]. intros ready. destruct (negb ready); [by apply triple_ret|].
  eapply triple_seq; [apply keep_probe, lost_step|]. intros before. eapply triple_seq; [by apply lost_store|]. intros _.
  eapply triple_seq; [apply lost_get|]. intros index. eapply triple_seq; [apply lost_get|]. intros ring.
  eapply triple_seq; [apply lost_store_word|]. intros _. eapply triple_seq; [by apply lost_store|]. intros _.
  eapply triple_seq; [by apply lost_store|]. intros _. apply (triple_seq _ lost).
  - generalize HDA_SPIN_BUDGET. intros n. induction n as [|n IH]; [by apply triple_ret|]. cbn [await].
    eapply triple_seq; [apply lost_get|]. intros w. eapply triple_seq; [apply lost_get|]. intros x. case_match; [done|].
    eapply triple_seq; [by apply lost_store|]. intros _. eapply triple_seq; [apply lost_get|]. intros i.
    eapply triple_seq; [apply lost_get|]. intros g. eapply triple_seq; [apply lost_load|]. intros y.
    eapply triple_seq; [by apply lost_store|]. intros _. eapply triple_seq; [by apply lost_store|]. intros _. by apply triple_ret.
  - intros [x|]; [by apply triple_ret|]. eapply triple_seq; [by apply lost_store|]. intros _.
    eapply triple_seq; [eapply triple_mono; [apply keep_failure_lost|done|done]|]. intros _. by apply triple_ret.
Qed.

Lemma submit_ready v k r R (m : machine) : held v k r R m ->
  rings_running (about (state m)) && negb (command_ring m =? 0) && negb (response_ring m =? 0) = true.
Proof.
  intros [[] _ _ _ _ _ _]. rewrite ln_running0, ln_command0, ln_response0. destruct ln_nonzero0.
  by rewrite !(proj2 (Z.eqb_neq _ 0)) by done.
Qed.

(** Placing the command does not disturb the controller, announcing it does. *)
Lemma place_command v k r h command (m : machine) :
  held v (next k) r (rests k r h) m ->
  physical (cv ⊞ 4 * next k) m = Some (cp + 4 * next k) /\
  held v (next k) r (fun x c => rests k r h x c /\ zget x (cp + 4 * next k) = command)
    (with_devices (<[cp + 4 * next k := command]> (dma m)) (device m) m).
Proof.
  intros [[] ? ? ? ? ? []]. split; [apply ln_command_page0, next_range|].
  split; try done. split; [by split|]. cbn [dma with_devices]. by rewrite zget_insert_eq.
Qed.

Lemma announce_command v k r h command (m : machine) :
  held v (next k) r (fun x c => rests k r h x c /\ zget x (cp + 4 * next k) = command) m ->
  held v (next k) r (waits k r h command) (with_devices (dma m) (d_write 2 HDA_REG_COMMAND_RING_WRITE_POINTER (next k) (device m)) m).
Proof.
  intros [[] ? ? ? ? ? [[] Hc]]. split; try done. left. split; [|done].
  cbn. change 255 with (Z.ones 8). rewrite Z.land_ones by lia. apply Z.mod_small. apply next_range.
Qed.

Lemma keeps_placed k r h command :
  keeps (fun x c => rests k r h x c /\ zget x (cp + 4 * next k) = command) (fun x c => rests k r h x c /\ zget x (cp + 4 * next k) = command).
Proof. intros x c [Hr Hc] _ _ _ _ _. destruct Hr. rewrite turn_still by congruence. by repeat split. Qed.

(** A command gets its own answer, or the failure is recorded. *)
Lemma submit_answers v h command :
  triple (quiet v h) (hda_submit command) (fun o m => lost m \/ (o = Some (answer command) /\ quiet v (h ++ [command]) m)).
Proof.
  apply triple_exists. intros k. apply triple_exists. intros r sch m Hm. pose proof Hm as [_ _ _ _ _ [Hk Hr] _]. revert sch m Hm.
  unfold hda_submit. apply (bind_known _ _ true); [apply held_stable, keeps_rests|by intros m; apply submit_ready|]. cbn [negb].
  eapply triple_seq; [apply keep_probe, held_stable, keeps_rests|]. intros before.
  apply (triple_seq _ (held v (next k) r (rests k r h))).
  { apply triple_update; [apply held_stable, keeps_rests|]. intros m Hm. pose proof Hm as [_ _ _ -> -> _ _].
    by apply (held_pointers v k r); [|apply next_range|]. }
  intros _. apply (bind_known _ _ (next k)); [apply held_stable, keeps_rests|by intros m []|].
  apply (bind_known _ _ cv); [apply held_stable, keeps_rests|by intros m [[]]|].
  eapply triple_seq; [apply triple_update; [apply held_stable, keeps_rests|]|].
  { intros m Hm. destruct (place_command v k r h command m Hm) as [-> Hp]. exact Hp. }
  intros _. eapply triple_seq; [apply triple_update; [apply held_stable, keeps_placed|intros m Hm; by apply announce_command]|].
  intros _. eapply triple_seq; [apply triple_update; [by apply held_stable, waits_turn|intros m Hm; by apply held_traffic]|].
  intros _. eapply triple_bind; [by apply await_answer|]. intros [a|].
  - apply triple_ret. intros m [-> Hm]. right. split; [done|]. by exists (next k), (next r).
  - eapply triple_seq; [by apply (triple_update _ (fun _ => True) _ (fun _ _ => True))|]. intros _.
    eapply triple_seq; [apply keep_failure_lost|]. intros _. apply triple_ret. by left.
Qed.

(** ** The walk *)

(** Going on after a command: a recorded failure stays. *)
Lemma bind_lost {X Y} (P : machine -> Prop) (Q : X -> machine -> Prop) (R : machine -> Prop) (c : code X) (f : X -> code Y) :
  triple P c (fun x m => lost m \/ Q x m) -> (forall x, triple lost (f x) (fun _ => lost)) ->
  (forall x, triple (Q x) (f x) (fun _ m => lost m \/ R m)) -> triple P (c ≫= f) (fun _ m => lost m \/ R m).
Proof.
  intros Hc Hl Hf. eapply triple_bind; [exact Hc|]. intros x. apply triple_or; [|apply Hf].
  eapply triple_mono; [apply Hl|done|by left].
Qed.

Ltac keep_lost := first
  [ by apply triple_ret | apply lost_submit | by apply lost_store | apply lost_get
  | apply (triple_seq _ lost); [|intros ?] | progress case_match | assumption ].

Lemma lost_command codec node verb payload : triple lost (intel_high_definition_audio_command codec node verb payload) (fun _ => lost).
Proof. unfold intel_high_definition_audio_command. repeat keep_lost. Qed.

Lemma lost_wide codec node verb payload : triple lost (intel_high_definition_audio_command_wide codec node verb payload) (fun _ => lost).
Proof. unfold intel_high_definition_audio_command_wide. repeat keep_lost. Qed.

Lemma lost_mute codec : triple lost (hda_mute_outputs codec) (fun _ => lost).
Proof. unfold hda_mute_outputs, mute. repeat first [apply lost_wide | keep_lost]. Qed.

Lemma lost_widgets count codec : forall w, triple lost (widget_loop count codec w) (fun _ => lost).
Proof.
  induction count as [|count IH]; intros w; [by apply triple_ret|]. cbn [widget_loop].
  repeat first [apply lost_command | apply IH | keep_lost].
Qed.

Lemma lost_groups count codec : forall node, triple lost (group_loop count codec node) (fun _ => lost).
Proof.
  induction count as [|count IH]; intros node; [by apply triple_ret|]. cbn [group_loop].
  repeat first [apply lost_command | apply IH | apply lost_widgets | apply lost_mute | keep_lost].
Qed.

(** What the codec says, and what the driver is to make of it: the nodes found
    and the commands sent. *)
Definition parameter_word (codec node parameter : Z) : Z := verb_word codec node HDA_VERB_GET_PARAMETER parameter.
Definition parameter_of (codec node parameter : Z) : Z := answer (parameter_word codec node parameter).
Definition widget_type (codec w : Z) : Z := Z.land (Z.shiftr (parameter_of codec w HDA_PARAMETER_WIDGET_CAPABILITIES) 20) 0xF.
Definition pin_capabilities (codec w : Z) : Z := parameter_of codec w HDA_PARAMETER_PIN_CAPABILITIES.
Definition is_audio (codec node : Z) : bool := Z.land (parameter_of codec node HDA_PARAMETER_FUNCTION_GROUP_TYPE) 0x7F =? HDA_FUNCTION_GROUP_AUDIO.

Definition see_widget (codec : Z) (x : nodes * list Z) (w : Z) : nodes * list Z :=
  let n := count_widget x.1 in
  let h := x.2 ++ [parameter_word codec w HDA_PARAMETER_WIDGET_CAPABILITIES] in
  let type := widget_type codec w in
  if (type =? HDA_WIDGET_TYPE_AUDIO_INPUT) && (capture_converter n =? 0) then (set_capture_converter w n, h)
  else if (type =? HDA_WIDGET_TYPE_AUDIO_OUTPUT) && (playback_converter n =? 0) then (set_playback_converter w n, h)
  else if type =? HDA_WIDGET_TYPE_PIN_COMPLEX
  then (classify_pin w (pin_capabilities codec w) n, h ++ [parameter_word codec w HDA_PARAMETER_PIN_CAPABILITIES])
  else (n, h).

Fixpoint run_of (first : Z) (count : nat) : list Z :=
  match count with O => [] | S count => first :: run_of (u8 (first + 1)) count end.

Definition mute_one (codec w : Z) (x : nodes * list Z) : nodes * list Z :=
  if w =? 0 then x else (count_mute x.1, x.2 ++ [wide_word codec w HDA_VERB_SET_AMPLIFIER_GAIN HDA_AMPLIFIER_MUTE_OUTPUT]).

Definition mute_both (codec : Z) (x : nodes * list Z) : nodes * list Z :=
  let x := mute_one codec (playback_converter x.1) x in mute_one codec (playback_pin x.1) x.

(** The nodes below a node. *)
Definition below (codec node : Z) : list Z :=
  let r := parameter_of codec node HDA_PARAMETER_SUB_NODE_COUNT in run_of (first_of r) (Z.to_nat (count_of r)).

Definition see_group (codec node : Z) (x : nodes * list Z) : nodes * list Z :=
  mute_both codec (fold_left (see_widget codec) (below codec node)
    (set_group node x.1, x.2 ++ [parameter_word codec node HDA_PARAMETER_SUB_NODE_COUNT])).

Fixpoint see_groups (codec : Z) (groups : list Z) (x : nodes * list Z) : nodes * list Z :=
  match groups with
  | [] => x
  | node :: groups =>
    let x := (x.1, x.2 ++ [parameter_word codec node HDA_PARAMETER_FUNCTION_GROUP_TYPE]) in
    if is_audio codec node then see_group codec node x else see_groups codec groups x
  end.

Definition see_codec (codec : Z) (x : nodes * list Z) : nodes * list Z :=
  see_groups codec (below codec 0) (x.1, x.2 ++ [parameter_word codec 0 HDA_PARAMETER_SUB_NODE_COUNT]).

(** *** The code does that *)

Section walk.
Context (a : found) (c : capture) (codec : Z) (Hcodec : 0 <= codec < MAX_CODECS).

(** [x] is what has been found and sent. *)
Definition reached (x : nodes * list Z) (m : machine) : Prop := quiet (a, x.1, c) x.2 m.

Lemma reached_path f x (m : machine) : reached x m -> reached (f x.1, x.2) (with_path f m).
Proof.
  intros (k & r & [[] Hv ? ? ? ? ?]). exists k, r. unfold view in Hv. injection Hv as E1 E2 E3. split; try done.
  unfold view. cbn. by rewrite E1, E2, E3.
Qed.

Lemma store_path f x : triple (reached x) (store (with_path f)) (fun _ m => lost m \/ reached (f x.1, x.2) m).
Proof. apply triple_update; [intros u m; apply rings_quiet_step|]. intros m Hm. right. by apply reached_path. Qed.

Lemma get_path {Y} (k : nodes -> code Y) x Q : triple (reached x) (k x.1) Q -> triple (reached x) (get (fun m => path (state m)) ≫= k) Q.
Proof.
  apply bind_known; [intros u m; apply rings_quiet_step|]. intros m (i & r & [_ Hv _ _ _ _ _]). unfold view in Hv. by injection Hv.
Qed.

Lemma command_answers x node parameter :
  triple (reached x) (intel_high_definition_audio_command codec node HDA_VERB_GET_PARAMETER parameter)
    (fun o m => lost m \/ (o = Some (parameter_of codec node parameter) /\ reached (x.1, x.2 ++ [parameter_word codec node parameter]) m)).
Proof.
  unfold intel_high_definition_audio_command. rewrite (proj2 (Z.leb_gt MAX_CODECS codec)) by lia. apply submit_answers.
Qed.

(** Binding the answer of a parameter. *)
Lemma bind_parameter {Y} x node parameter (f : option Z -> code Y) (R : machine -> Prop) :
  (forall o, triple lost (f o) (fun _ => lost)) ->
  triple (reached (x.1, x.2 ++ [parameter_word codec node parameter])) (f (Some (parameter_of codec node parameter))) (fun _ m => lost m \/ R m) ->
  triple (reached x) (intel_high_definition_audio_command codec node HDA_VERB_GET_PARAMETER parameter ≫= f) (fun _ m => lost m \/ R m).
Proof.
  intros Hl Hf. eapply bind_lost; [apply command_answers|exact Hl|]. intros o sch m [-> Hm]. by apply Hf.
Qed.

Lemma bind_path {Y} f x (k : unit -> code Y) (R : machine -> Prop) :
  (forall u, triple lost (k u) (fun _ => lost)) -> triple (reached (f x.1, x.2)) (k tt) (fun _ m => lost m \/ R m) ->
  triple (reached x) (store (with_path f) ≫= k) (fun _ m => lost m \/ R m).
Proof. intros Hl Hk. eapply bind_lost; [apply store_path|exact Hl|]. by intros []. Qed.

Lemma widgets_seen count : forall w x,
  triple (reached x) (widget_loop count codec w) (fun _ m => lost m \/ reached (fold_left (see_widget codec) (run_of w count) x) m).
Proof.
  induction count as [|count IH]; intros w x; cbn [widget_loop run_of fold_left]; [apply triple_ret; by right|].
  apply bind_path; [intros _; repeat first [apply lost_command | apply lost_widgets | keep_lost]|].
  apply bind_parameter; [intros o; repeat first [apply lost_command | apply lost_widgets | keep_lost]|]. cbn [fst snd].
  eapply (bind_lost _ (fun _ => reached (see_widget codec x w))); [|intros _; apply lost_widgets|intros _; apply IH].
  apply get_path. cbn [fst snd]. unfold see_widget. fold (widget_type codec w).
  destruct ((widget_type codec w =? HDA_WIDGET_TYPE_AUDIO_INPUT) && (capture_converter (count_widget x.1) =? 0)).
  { apply (store_path (set_capture_converter w) (count_widget x.1, _)). }
  destruct ((widget_type codec w =? HDA_WIDGET_TYPE_AUDIO_OUTPUT) && (playback_converter (count_widget x.1) =? 0)).
  { apply (store_path (set_playback_converter w) (count_widget x.1, _)). }
  destruct (widget_type codec w =? HDA_WIDGET_TYPE_PIN_COMPLEX); [|apply triple_ret; by right].
  apply bind_parameter; [intros o; repeat keep_lost|]. apply (store_path (classify_pin w (pin_capabilities codec w)) (count_widget x.1, _)).
Qed.

Lemma mute_sent w x : triple (reached x) (mute codec w) (fun _ m => lost m \/ reached (mute_one codec w x) m).
Proof.
  unfold mute, mute_one. destruct (w =? 0); [apply triple_ret; by right|].
  unfold intel_high_definition_audio_command_wide. rewrite (proj2 (Z.leb_gt MAX_CODECS codec)) by lia.
  eapply bind_lost; [apply submit_answers|intros o; repeat keep_lost|]. intros o sch m [-> Hm]. revert sch m Hm.
  apply (store_path count_mute (x.1, _)).
Qed.

Lemma get_node (f : nodes -> Z) {Y} (k : Z -> code Y) x Q :
  triple (reached x) (k (f x.1)) Q -> triple (reached x) (get (fun m => f (path (state m))) ≫= k) Q.
Proof.
  apply bind_known; [intros u m; apply rings_quiet_step|]. intros m (i & r & [_ Hv _ _ _ _ _]). unfold view in Hv. injection Hv as E1 E2 E3. by rewrite E2.
Qed.

Lemma outputs_sent x : triple (reached x) (hda_mute_outputs codec) (fun _ m => lost m \/ reached (mute_both codec x) m).
Proof.
  unfold hda_mute_outputs. apply (get_node playback_converter).
  eapply (bind_lost _ (fun _ => reached (mute_one codec (playback_converter x.1) x))); [apply mute_sent|intros _; unfold mute; repeat first [apply lost_wide | keep_lost]|]. intros _.
  apply (get_node playback_pin). apply mute_sent.
Qed.

Lemma groups_seen count : forall node x,
  triple (reached x) (group_loop count codec node) (fun _ m => lost m \/ reached (see_groups codec (run_of node count) x) m).
Proof.
  induction count as [|count IH]; intros node x; cbn [group_loop run_of see_groups]; [apply triple_ret; by right|].
  assert (Hl : forall o : option Z, triple lost (match o with
    | Some response => if negb (Z.land response 0x7F =? HDA_FUNCTION_GROUP_AUDIO) then group_loop count codec (u8 (node + 1)) else
        _ ← store (with_path (set_group node));
        s ← intel_high_definition_audio_command codec node HDA_VERB_GET_PARAMETER HDA_PARAMETER_SUB_NODE_COUNT;
        match s with Some response => _ ← widget_loop (Z.to_nat (count_of response)) codec (first_of response); hda_mute_outputs codec | None => mret tt end
    | None => group_loop count codec (u8 (node + 1)) end) (fun _ => lost)).
  { intros o. repeat first [apply lost_command | apply lost_groups | apply lost_widgets | apply lost_mute | keep_lost]. }
  apply bind_parameter; [exact Hl|]. fold (is_audio codec node). destruct (is_audio codec node); cbn [negb]; [|apply IH].
  apply bind_path; [intros _; repeat first [apply lost_command | apply lost_widgets | apply lost_mute | keep_lost]|].
  apply bind_parameter; [intros o; repeat first [apply lost_widgets | apply lost_mute | keep_lost]|].
  eapply (bind_lost _ (fun _ => reached _)); [apply widgets_seen|intros _; apply lost_mute|]. intros _. apply outputs_sent.
Qed.

Lemma codec_seen x : triple (reached x) (hda_find_capture_path codec) (fun _ m => lost m \/ reached (see_codec codec x) m).
Proof.
  unfold hda_find_capture_path. apply bind_parameter; [intros o; repeat first [apply lost_groups | keep_lost]|]. apply groups_seen.
Qed.

End walk.

(** *** What that finds *)

(** The first node of the list with a property; node 0 is no widget. *)
Definition first_with (good : Z -> bool) (l : list Z) : Z := default 0 (List.find (fun w => good w && negb (w =? 0)) l).

Definition is_input (codec w : Z) : bool := widget_type codec w =? HDA_WIDGET_TYPE_AUDIO_INPUT.
Definition is_output (codec w : Z) : bool := widget_type codec w =? HDA_WIDGET_TYPE_AUDIO_OUTPUT.
Definition is_input_pin (codec w : Z) : bool :=
  (widget_type codec w =? HDA_WIDGET_TYPE_PIN_COMPLEX) && bit_set HDA_PIN_CAPABILITY_INPUT (pin_capabilities codec w).
Definition is_output_pin (codec w : Z) : bool :=
  (widget_type codec w =? HDA_WIDGET_TYPE_PIN_COMPLEX) && bit_set HDA_PIN_CAPABILITY_OUTPUT (pin_capabilities codec w).

Lemma fold_first (f : nodes -> Z) (good : Z -> bool) codec l :
  (forall x w, f (see_widget codec x w).1 = if (f x.1 =? 0) && good w then w else f x.1) ->
  forall x, f (fold_left (see_widget codec) l x).1 = if f x.1 =? 0 then first_with good l else f x.1.
Proof.
  intros Hf. induction l as [|w l IH]; intros x; cbn [fold_left]; unfold first_with.
  { cbn. by destruct (Z.eqb_spec (f x.1) 0). }
  rewrite IH, Hf. cbn [List.find]. destruct (Z.eqb_spec (f x.1) 0) as [E|E]; cbn [andb].
  - destruct (good w); cbn [andb]; [|by rewrite E]. by destruct (Z.eqb_spec w 0).
  - by rewrite (proj2 (Z.eqb_neq _ _) E).
Qed.

(** One widget takes at most the places that are free and that it fits. *)
Lemma see_widget_places codec x w :
  let n := (see_widget codec x w).1 in let place free good := if (free =? 0) && good then w else free in
  capture_converter n = place (capture_converter x.1) (is_input codec w) /\
  playback_converter n = place (playback_converter x.1) (is_output codec w) /\
  capture_pin n = place (capture_pin x.1) (is_input_pin codec w) /\
  playback_pin n = place (playback_pin x.1) (is_output_pin codec w).
Proof.
  cbn zeta. unfold see_widget, is_input, is_output, is_input_pin, is_output_pin.
  generalize (widget_type codec w) (pin_capabilities codec w). intros t p. destruct x as [[g cc cap pc pp k o] h]. cbn [fst snd].
  destruct (Z.eqb_spec t HDA_WIDGET_TYPE_AUDIO_INPUT) as [->|]; [by cbn; destruct cc, pc, cap, pp|].
  destruct (Z.eqb_spec t HDA_WIDGET_TYPE_AUDIO_OUTPUT) as [->|]; [by cbn; destruct cc, pc, cap, pp|].
  destruct (t =? HDA_WIDGET_TYPE_PIN_COMPLEX); [|by cbn; destruct cc, pc, cap, pp].
  unfold classify_pin. cbn -[bit_set Z.eqb]. rewrite !andb_false_r.
  by destruct (bit_set _ p), (bit_set _ p), (cap =? 0) eqn:E1, (pp =? 0) eqn:E2; cbn -[Z.eqb]; rewrite ?E1, ?E2.
Qed.

Section found.
Context (codec : Z) (l : list Z) (x : nodes * list Z).
Let n := (fold_left (see_widget codec) l x).1.
Let place (free : Z) (good : Z -> Z -> bool) : Z := if free =? 0 then first_with (good codec) l else free.

Lemma places_first :
  capture_converter n = place (capture_converter x.1) is_input /\ playback_converter n = place (playback_converter x.1) is_output /\
  capture_pin n = place (capture_pin x.1) is_input_pin /\ playback_pin n = place (playback_pin x.1) is_output_pin.
Proof. unfold n, place. repeat split; apply fold_first; intros y w; by destruct (see_widget_places codec y w) as (? & ? & ? & ?). Qed.

Lemma group_first : audio_function_group n = audio_function_group x.1.
Proof.
  unfold n. clear n place. revert x. induction l as [|w ws IH]; intros x; [done|]. cbn [fold_left]. rewrite IH.
  unfold see_widget, classify_pin. by repeat case_match.
Qed.

End found.

Lemma mute_both_nodes codec x : let y := mute_both codec x in
  audio_function_group y.1 = audio_function_group x.1 /\ capture_converter y.1 = capture_converter x.1 /\ playback_converter y.1 = playback_converter x.1 /\
  capture_pin y.1 = capture_pin x.1 /\ playback_pin y.1 = playback_pin x.1.
Proof. cbn zeta. unfold mute_both, mute_one. destruct x as [[] h]. cbn [fst snd]. by repeat case_match. Qed.

(** The word that mutes a node. *)
Definition mute_word (codec w : Z) : Z := wide_word codec w HDA_VERB_SET_AMPLIFIER_GAIN HDA_AMPLIFIER_MUTE_OUTPUT.

Lemma mute_both_heard codec x w : w <> 0 -> w = playback_converter x.1 \/ w = playback_pin x.1 -> mute_word codec w ∈ (mute_both codec x).2.
Proof.
  intros Hw Hx. unfold mute_both, mute_one, mute_word. destruct x as [[g cc cap pc pp k o] h]. cbn -[wide_word].
  destruct Hx as [->| ->]; cbn -[wide_word] in *; destruct (Z.eqb_spec pc 0), (Z.eqb_spec pp 0); subst; cbn -[wide_word];
    try match goal with |- context [if ?b then _ else _] => destruct b eqn:? end; rewrite ?Z.eqb_eq in *; try done; cbn -[wide_word]; set_solver.
Qed.

(** The places of a codec, when the walk began with none of them taken. *)
Definition found_in (codec : Z) (n n' : nodes) (h : list Z) : Prop :=
  match List.find (is_audio codec) (below codec 0) with
  | None => n' = n
  | Some g =>
    audio_function_group n' = g /\
    capture_converter n' = first_with (is_input codec) (below codec g) /\
    playback_converter n' = first_with (is_output codec) (below codec g) /\
    capture_pin n' = first_with (is_input_pin codec) (below codec g) /\
    playback_pin n' = first_with (is_output_pin codec) (below codec g) /\
    (forall w, w <> 0 -> w = playback_converter n' \/ w = playback_pin n' -> mute_word codec w ∈ h)
  end.

Definition untaken (n : nodes) : Prop := capture_converter n = 0 /\ playback_converter n = 0 /\ capture_pin n = 0 /\ playback_pin n = 0.

Lemma see_codec_found codec n h : untaken n -> let x := see_codec codec (n, h) in found_in codec n x.1 x.2.
Proof.
  intros (E1 & E2 & E3 & E4). cbn zeta. unfold see_codec, found_in. cbn [fst snd]. generalize (h ++ [parameter_word codec 0 HDA_PARAMETER_SUB_NODE_COUNT]). clear h.
  induction (below codec 0) as [|g l IH]; intros h; cbn [see_groups List.find]; [done|]. destruct (is_audio codec g) eqn:Hg; [|apply IH].
  unfold see_group. match goal with |- context [mute_both codec ?y] => set (x := y) end.
  destruct (mute_both_nodes codec x) as (F1 & F2 & F3 & F4 & F5). rewrite F1, F2, F3, F4, F5. unfold x in *. clear F1 F2 F3 F4 F5.
  rewrite group_first. match goal with |- context [fold_left (see_widget codec) ?l ?y] => destruct (places_first codec l y) as (G1 & G2 & G3 & G4) end.
  cbn [fst set_group capture_converter playback_converter capture_pin playback_pin audio_function_group] in *. rewrite E1 in G1. rewrite E2 in G2. rewrite E3 in G3. rewrite E4 in G4.
  rewrite G1, G2, G3, G4. repeat split. intros w Hw Hor. apply mute_both_heard; [done|]. by rewrite G2, G4.
Qed.

(** C31: the driver's walk over a codec reports what the codec's answers describe, however the controller's fetches
    interleave with the driver: with both rings empty and no node found yet, if no command timed out then no access faulted
    and either the codec has no audio group and nothing changes, or the first audio group is reported, each converter and pin
    is the first widget below it of that kind (0 when it has none), and the output converter and the output pin reported, the
    first of their kind, were muted; further outputs are not ([second_output_not_muted]). *)
Theorem hda_walk_exact (codec : Z) (a : found) (n : nodes) (c : capture) (h : list Z) sch (m : machine) :
  0 <= codec < MAX_CODECS -> untaken n -> quiet (a, n, c) h m ->
  let '(_, _, m') := hda_find_capture_path codec sch m in
  failure (state m') <> None \/ (fault m' = false /\ about (state m') = a /\ stream (state m') = c /\ found_in codec n (path (state m')) (heard (device m'))).
Proof.
  intros Hcodec Hn Hm. pose proof (codec_seen a c codec Hcodec (n, h) sch m Hm) as Ht.
  destruct (hda_find_capture_path codec sch m) as [[u s] m']. destruct Ht as [Hl|Hr]; [by left|right].
  destruct Hr as (k & r & [[] Hv _ _ _ _ [_ _ _ _ Hh]]). unfold view in Hv. injection Hv as -> -> ->. rewrite Hh.
  split; [done|]. split; [done|]. split; [done|]. by apply see_codec_found.
Qed.

End proofs.

(** ** An example *)

Section example.

#[local] Instance example_audio_frames : FrameAllocator FreeList.freelist :=
  client_frames Numa.numa_boot 0 Numa.numa_boot_wf (Z.le_refl 0).

(** One group at node 1, below it an output, an input, a pin of each kind and a
    second output. *)
Definition example_answer (command : Z) : Z :=
  match Z.land (Z.shiftr command 20) 0xFF, Z.land command 0xFFFFF with
  | 0, 0xF0004 => 0x00010001
  | 1, 0xF0005 => 0x01
  | 1, 0xF0004 => 0x00020005
  | 3, 0xF0009 => 0x00100000
  | 4, 0xF0009 => 0x00400000
  | 4, 0xF000C => 0x10
  | 5, 0xF0009 => 0x00400000
  | 5, 0xF000C => 0x20
  | _, _ => 0
  end.

Definition example_space : vmm FreeList.freelist :=
  mkVmm ∅ 0 true (mkPaging true {[0x340 := 0x00200003]} ∅ 0 0
    (fa_set_mem {[0xC0200000 := 0x00300003; 0xC0200004 := 0x00301003]} FreeListProofs.example_list)).

Definition example_nodes : nodes := mkNodes 0 0 0 0 0 0 0.
Definition example_found : found := mkFound true true true 0xD0010000 1 0 4 4 4 ∅.

Definition example_rings : machine FreeList.freelist controller unit :=
  mkMachine (mkHda example_found (mkCounts 0 0 0) example_nodes (mkCapture false 0 0) None)
    0xD0000000 0xD0001000 0 0 0 0 0 example_space ∅
    (mkController 0x300000 0x301000 0 0 0 true true 0 255 [] ∅) tt false.

Lemma example_pages i : 0 <= i < 256 ->
  physical (0xD0000000 ⊞ 4 * i) example_rings = Some (0x300000 + 4 * i) /\ physical (0xD0001000 ⊞ 8 * i) example_rings = Some (0x301000 + 8 * i).
Proof.
  intros Hi. assert (Ha : forallb (fun i => bool_decide (physical (0xD0000000 ⊞ 4 * i) example_rings = Some (0x300000 + 4 * i) /\
    physical (0xD0001000 ⊞ 8 * i) example_rings = Some (0x301000 + 8 * i))) (seqZ 0 256) = true) by (vm_compute; reflexivity).
  rewrite forallb_forall in Ha. specialize (Ha i). rewrite bool_decide_eq_true in Ha. apply Ha, list_elem_of_In, elem_of_seqZ. lia.
Qed.

Lemma example_quiet : quiet 0xD0000000 0x300000 0xD0001000 0x301000 (example_found, example_nodes, mkCapture false 0 0) [] example_rings.
Proof.
  exists 0, 0. split; [|done..]. split; [done|done|done|done|intros i Hi; apply (example_pages i Hi)|intros i Hi; apply (example_pages i Hi)|by left|done..].
Qed.

Abbreviation example_walk := (hda_find_capture_path (H0 := controller_device example_answer) 2 (replicate 400 [tt]) example_rings).2.

Lemma example_walk_found : failure (state example_walk) = None /\ path (state example_walk) = mkNodes 1 3 5 2 4 5 2.
Proof. split; vm_compute; reflexivity. Qed.

(** Of two outputs the walk mutes the first only. *)
Lemma second_output_not_muted : is_output example_answer 2 6 = true /\ In 6 (below example_answer 2 1) /\ failure (state example_walk) = None /\
  existsb (Z.eqb (mute_word 2 6)) (heard (device example_walk)) = false.
Proof. split; [done|]. split; [vm_compute; tauto|]. split; vm_compute; reflexivity. Qed.

Lemma run_end {X Y Z} (P : Z -> Prop) (r : X * Y * Z) : (let '(_, _, m) := r in P m) -> P r.2.
Proof. by destruct r as [[]]. Qed.

(** The codec of the example is walked to the end: its nodes are found. *)
Lemma hda_walk_exact_witness :
  fault example_walk = false /\ about (state example_walk) = example_found /\ stream (state example_walk) = mkCapture false 0 0 /\
  found_in example_answer 2 example_nodes (path (state example_walk)) (heard (device example_walk)).
Proof.
  pose proof (hda_walk_exact example_answer 0xD0000000 0x300000 0xD0001000 0x301000 2 example_found example_nodes (mkCapture false 0 0) []
    (replicate 400 [tt]) example_rings ltac:(done) ltac:(done) example_quiet) as Hx.
  apply run_end in Hx. destruct Hx as [Hx|Hx]; [destruct (Hx (proj1 example_walk_found))|exact Hx].
Defined.

End example.
